(* ===== verification/_CoqProject ===== *)
-Q . S2P
Prelude.v
OpenAddressing.v
OccupationFlags.v
OccupiedSlots.v
HashMap.v
HashSet.v
Collection.v
CollectionTree.v
CollectionRebuild.v
CollectionLinks.v
PovTable.v
CollectionSpec.v
CollectionAdd.v
CollectionRemove.v
CollectionCleanup.v
CollectionQueries.v
CollectionQueues.v
PriorityQueues.v
Calendar.v
DateAndTime.v
DateShift.v
DateFields.v
DateDuration.v
DateTimes.v
MathLib.v
Uint128.v
Containers.v
LinkedList.v
Sorting.v
QuorumValue.v
Merkle.v
Bytes.v
StackBuffer.v
ReadWriteLock.v
TritPack.v
ComputorIndex.v
Insertion.v
MinerRanking.v
Spectrum.v
SpectrumLedger.v
SpectrumDigest.v
Assets.v
AssetLedger.v
AssetEpoch.v
AssetDigest.v
AssetIterators.v
AssetEnumeration.v
ProposalData.v
ProposalVoters.v
ProposalRolls.v
ProposalElectorate.v
ProposalVoting.v
Proposals.v
ProposalResults.v
ProposalReads.v
ProposalRuns.v
ProposalTheorems.v
VoteCounter.v
FeeReserve.v
ExecutionFees.v
EntityLedger.v
PendingTxsPool.v
PoolRing.v
PendingTxs.v
ContractMoney.v
QpiAssets.v
Dividends.v
QpiShares.v
Ipo.v
RevenueTable.v
Revenue.v
RevenueStream.v
Emission.v
GeneralQuorumProposal.v
DonationTable.v
QuorumProposals.v
ComputorControlledFund.v
SubscriptionTable.v
FundTheorems.v
RevenueSnapshot.v
