(* ===== verification/Prelude.v ===== *)
(** * Qubic Core Lite: a verification library of the node's ledger logic

    The node (src/src/qubic.cpp and the headers it includes) executes one block of transactions per tick.
    Its persistent state is the spectrum (balances of entities), the universe (assets and
    who owns and possesses their shares) and the states of the contracts; the nodes agree on it by Merkle digests.
    Contracts are written against QPI, a library of containers and calls that move
    money and shares.  This library models the parts below and proves what they promise each
    other.  Paths are relative to src/src.

    ** Files and what they model

    - [Prelude] (this file): machine integers with their wrap-around ([u64], [s64], ...), arrays
      read and written by index ([a.[i]], [a.[i := x]]), bounded and fuelled loops, sums over
      indices.
    - [OpenAddressing]: linear probing in a table of 2^k slots, and the invariant that makes
      lookups complete; shared by the spectrum, the universe and the QPI hash containers.
    - [Spectrum], [SpectrumLedger], [SpectrumDigest] (spectrum/spectrum.h): the table of entity
      records, increaseEnergy with anti-dust burning, decreaseEnergy, reorganizeSpectrum, the
      dirty list and getSpectrumDigest.  Theorems: the operations are exact credits and debits
      of a ledger and keep the table, the counters and the total supply right; the digest computed
      incrementally is the Merkle root over all records.
    - [Assets], [AssetLedger], [AssetDigest] (assets/assets.h): issuance, both transfers, burning
      and lookup of shares, change flags, index lists, getUniverseDigest, assetsEndEpoch.  Theorems: each operation moves
      exactly the shares it should or changes nothing; shares of an asset add up; the
      digest is the Merkle root; [AssetEpoch]: the end of an epoch keeps exactly the holdings and issuances with shares and rebuilds the index lists.
    - [AssetIterators] (qpi/qpi_assets.h, qpi/impl/qpi_assets_impl.h): the iterators over issuances, ownerships and possessions, and numberOfShares.
      [AssetEnumeration]: every operation keeps the index lists complete, and the iterators visit every selected record once, so that numberOfShares is the sum over the selected possessions.
    - [QpiAssets] (qpi/impl/qpi_assets_impl.h): the calls of contracts on assets, between the universe and the ledger.  [Dividends]: who gets which
      dividend; [QpiShares]: the transfer of shares, told by numberOfPossessedShares alone, acquiring and releasing management
      rights against a fee from contracts that are arbitrary functions of the node, and the names that are accepted.
    - [Merkle]: the climbing loops of both digests, restoring a tree from flagged leaves.
    - [EntityLedger]: the interface ([LedgerOps], [Ledger]) between the spectrum and the parts that move
      money, and its instance by the spectrum.
    - [FeeReserve], [ContractMoney] (qpi/impl/qpi_spectrum_impl.h, contract_core/contract_action_tracker.h, parts of
      contract_core/contract_exec.h and qubic.cpp): fee reserves, transfer, burn, the tracker of transfers, the
      notification of receiving contracts.  Theorems: every refusal with its return value, and
      the exact effect otherwise.
    - [Ipo] (contract_core/ipo.h, qpi/impl/qpi_ipo_impl.h): bidding and the settlement at the end
      of the epoch, on top of the ledger interface, the fee reserves and the universe.
      Theorems: money is conserved, the book stays sorted, winners pay the lowest price and
      get one share per bid.
    - [ExecutionFees], [Bytes] (contract_core/execution_time_accumulator.h, network_messages/execution_fees.h,
      ticking/execution_fee_report_collector.h): measuring, reporting and charging execution fees, down to
      the bytes of the report.
    - [QuorumValue] (platform/quorum_value.h), [Sorting] (lib/platform_common/sorting.h): the
      percentile over votes, quickSort and the heap.
    - [MinerRanking] (updateMinerRankingAndFutureComputors in qubic.cpp), [ComputorIndex]
      (ticking/stable_computor_index.h), [VoteCounter] (vote_counter.h): which miners become
      computors, at which index, and how their tick votes are counted.
      [Insertion] holds the lemmas on moving a new entry up a ranked array.
    - [RevenueTable], [Revenue], [RevenueStream], [RevenueSnapshot] (revenue.h): the score of the quorum, the
      revenue factors, version 2 with its sliding window, the multi-dimensional version that works
      on the stream of ticks with a ring buffer, and the re-layout of saved snapshots.  Theorems: both computations equal
      their definition by circular windows, without overflow; revenues stay within the issuance share;
      snapshots survive a change of the number of ticks.
    - [Emission] (the emission of endEpoch in qubic.cpp): revenue donations, computors and arbitrator paid through the
      ledger interface.  The revenue computation promises a fair revenue ([FairRevenue]); theorems: an
      epoch issues exactly the issuance rate, and who gets what.
    - [ReadWriteLock] (platform/read_write_lock.h): the lock as atomic steps of any number of
      threads.  Theorems: mutual exclusion, no deadlock, priority of waiting writers.
    - [StackBuffer] (contract_core/stack_buffer.h): the locals stack of the contract processors, a
      byte buffer that refines a stack of blocks.
    - [TritPack] (mining/trit_pack.h): packed trits and indices.
    - [HashMap], [HashSet], [LinkedList], [Containers], [OccupationFlags], [OccupiedSlots] (qpi/qpi_containers.h and
      qpi/impl): the QPI containers as refinements of finite maps, finite sets, lists and bit vectors;
      [OccupiedSlots] is the loop over the occupied slots that the cleanup of three containers shares.
    - [Collection] (qpi/impl/qpi_collection_impl.h): QPI::Collection, one priority queue per pov.  The elements of
      a queue are the nodes of a binary search tree linked by slot indices in one array.  [CollectionTree] relates
      links to mathematical trees, [CollectionRebuild] and [CollectionLinks] treat rebalancing and relinking,
      [PovTable] the hash table of povs, [CollectionSpec] the invariant and the queues it stands for, [CollectionAdd],
      [CollectionRemove], [CollectionCleanup] and [CollectionQueries] the operations, and [CollectionQueues] the
      theorems: every run refines stable priority queues, and rebuilding gives a tree of least height.
    - [PendingTxsPool] (ticking/pending_txs_pool.h, the transaction header of network_messages/transactions.h): the mempool, a ring of
      ticks with slots of bytes and a Collection of priorities.  It uses the priority queues through the interface [PriorityQueues]
      ([QueueOps], [Queues]), which [Collection] implements, and the spectrum for the priorities.  [PoolRing] has the invariant of the ring and the
      effect of each step, [PendingTxs] the theorems: a refinement of transaction lists per tick, the pool keeps the
      transactions of the highest priority, and the rule of priorities.
    - [DateAndTime] (qpi/qpi_date_time.h): dates and times packed into 64 bits, their sums and durations.  [Calendar] numbers the
      days of the Gregorian calendar, [DateShift] follows the loops of add, [DateFields] the bit fields and the carries,
      [DateDuration] the loop of durationMicrosec.  [DateTimes] has the theorems: values stay valid, sums are exact, the order of
      the values is the order in time, and durations are exact (the loop needs at most six of its ten rounds).
    - [ProposalVoting] (qpi/qpi_proposals.h, qpi/impl/qpi_proposals_impl.h): the proposals of a contract with their votes.  How proposals and
      votes are stored ([ProposalData]: bytes, 64-bit values or two bits per vote) and who proposes and votes ([ProposalVoters]: computors, anyone,
      shareholders) are interfaces with laws ([ProposalDataLaws], [VoterLaws]); [ProposalRolls] and [ProposalElectorate] show that the
      classes satisfy them.  [Proposals] has the effect of each call, [ProposalResults] and [ProposalReads] counting, means and histograms, [ProposalRuns] runs
      of calls.  [ProposalTheorems]: what a proposal replaces, that a voter changes the own ballots only unless the numbers of a vote
      wrap around, where every ballot comes from, the option that is
      accepted, the mean without overflow, and one vote per share.
    - [GeneralQuorumProposal] (contracts/GeneralQuorumProposal.h): the contract whose table of revenue donations the emission reads.  [DonationTable] shows that
      the table is a schedule, grouped by destination and ordered by epoch; [QuorumProposals]: every reachable table is one, and the beginning
      of an epoch takes up exactly the donations that the quorum accepted.
    - [ComputorControlledFund] (contracts/ComputorControlledFund.h): the contract that pays what the quorum accepts, once or by subscription, through the
      interface [FundOps], which [ContractMoney] implements.  [SubscriptionTable] relates the table of subscriptions to a map and their
      state to a schedule; [FundTheorems]: the transfers of the end of an epoch, and that every period is due in its first epoch and only there.
    - [MathLib] (contracts/math_lib.h), [Uint128] (platform/uint128.h): integer helpers.

    ** Conventions

    A C++ integer is a [Z]; every place where the code can wrap or saturate says so.  A 256-bit key is a [Z].
    Arrays are lists; writes out of range, which would be undefined behaviour, have no effect, and the
    theorems assume the lengths the declarations give.  Mutable state is passed explicitly.
    Hash functions (KangarooTwelve, QPI hash functions) and the code of contracts are parameters; nothing is
    assumed of them except where a theorem names it.  Sizes that the build fixes (SPECTRUM_DEPTH,
    ASSETS_DEPTH, NUMBER_OF_COMPUTORS, container capacities) are parameters with the ranges the code relies on.

    Loops whose end is not structural use fuel: a probe gets one step per slot, which is
    enough because a free slot exists (it is part of the invariants, and the theorems show that the result is
    [Some]); the loops of [MathLib] and [Uint128] have bounds proved from the width of the operands; a walk along the
    links of a [Collection] of capacity L gets L + 1 steps and the listing of a tree 3 (L + 1), as a tree visits each
    of its nodes at most three times; in [DateAndTime] the loop over years gets 512 steps, as fewer than 400 years are
    left, and the loop over months 32, as fewer than 366 days are left; a loop over the proposals of a contract gets one step
    per slot and one more, as the index of the next proposal ascends; a walk of an asset iterator gets one step per slot and one more, as the
    lists link every record once.  [None]
    as the result of an operation that can call a contract stands for a call that does not return.

    Where the code wraps around, the theorems say what it then does: the product of [Dividends], the sum of the counts in
    [ProposalTheorems], the end of a block in [StackBuffer], the carry of [DateTimes].  The payments of [Dividends], [Emission] and
    [Ipo] are told for receivers that do not react to them: a contract with a procedure for incoming transfers could
    spend the money while the payments go on.

    Logging is modelled where a message carries amounts (spectrum, assets, fees, transfers).
    Locks are left out of the components that use them; [ReadWriteLock] verifies the lock itself.

    ** Not modelled

    The main loop, networking, file I/O, memory allocation and platform services; cryptography (four_q.h,
    kangaroo_twelve.h); the contracts other than the two above; the mining scores (SIMD kernels); the
    oracle machine; the logger's storage; of the contract engine, calls between contracts, state buffers and
    error unwinding.  Still open in modelled components: the
    files of spectrum and universe, getEntity and the id iteration of
    qpi_spectrum_impl.h, and the tick storage. *)
From Stdlib Require Export ZArith Lia.
From stdpp Require Export prelude list gmap sorting.

#[global] Open Scope Z_scope.

(** ** Machine integers

    A C++ integer of width [w] is a [Z]; the wrap-around is written out at the
    places where the code can overflow. *)

Definition u8 (z : Z) : Z := z mod 2 ^ 8.
Definition u16 (z : Z) : Z := z mod 2 ^ 16.
Definition u32 (z : Z) : Z := z mod 2 ^ 32.
Definition u64 (z : Z) : Z := z mod 2 ^ 64.

(** Two's complement conversion to [long long] / [sint64]. *)
Definition s64 (z : Z) : Z := (z + 2 ^ 63) mod 2 ^ 64 - 2 ^ 63.
Definition s32 (z : Z) : Z := (z + 2 ^ 31) mod 2 ^ 32 - 2 ^ 31.

Definition INT64_MIN : Z := - 2 ^ 63.
Definition INT64_MAX : Z := 2 ^ 63 - 1.
Definition UINT64_MAX : Z := 2 ^ 64 - 1.

Definition is_u32 (z : Z) : Prop := 0 <= z < 2 ^ 32.
Definition is_u64 (z : Z) : Prop := 0 <= z < 2 ^ 64.
Definition is_s64 (z : Z) : Prop := - 2 ^ 63 <= z < 2 ^ 63.

(** The constant [NULL_INDEX] of qpi_types.h. *)
Definition NULL_INDEX : Z := -1.

Lemma u64_small z : is_u64 z -> u64 z = z.
Proof. unfold is_u64, u64. intros. apply Z.mod_small. lia. Qed.

Lemma u64_range z : is_u64 (u64 z).
Proof. unfold is_u64, u64. apply Z.mod_pos_bound. lia. Qed.

Lemma u32_small z : is_u32 z -> u32 z = z.
Proof. unfold is_u32, u32. intros. apply Z.mod_small. lia. Qed.

Lemma u32_range z : is_u32 (u32 z).
Proof. unfold is_u32, u32. apply Z.mod_pos_bound. lia. Qed.

Lemma s32_small z : - 2 ^ 31 <= z < 2 ^ 31 -> s32 z = z.
Proof. intros. unfold s32. rewrite Z.mod_small; lia. Qed.

Lemma s64_small z : is_s64 z -> s64 z = z.
Proof. unfold is_s64, s64. intros. rewrite Z.mod_small; lia. Qed.

Lemma s64_range z : is_s64 (s64 z).
Proof. unfold is_s64, s64. pose proof (Z.mod_pos_bound (z + 2 ^ 63) (2 ^ 64)). lia. Qed.

Lemma u64_s64 z : u64 (s64 z) = u64 z.
Proof.
  unfold u64, s64. rewrite Zminus_mod, Zmod_mod, <- Zminus_mod. f_equal. lia.
Qed.

Lemma s64_u64 z : s64 (u64 z) = s64 z.
Proof. unfold u64, s64. rewrite Zplus_mod_idemp_l. done. Qed.

Lemma s64_add_l a b : s64 (s64 a + b) = s64 (a + b).
Proof.
  unfold s64. f_equal. replace ((a + 2 ^ 63) mod 2 ^ 64 - 2 ^ 63 + b + 2 ^ 63) with ((a + 2 ^ 63) mod 2 ^ 64 + b) by lia.
  rewrite Zplus_mod_idemp_l. f_equal. lia.
Qed.

Lemma s64_sub_r a b : s64 (a - s64 b) = s64 (a - b).
Proof.
  unfold s64. f_equal.
  replace (a - ((b + 2 ^ 63) mod 2 ^ 64 - 2 ^ 63) + 2 ^ 63) with (a + 2 * 2 ^ 63 - (b + 2 ^ 63) mod 2 ^ 64) by lia.
  rewrite Zminus_mod_idemp_r. f_equal. lia.
Qed.

(** Numbers with a last digit in base [k] *)
Lemma digit_inj a b a' b' k : 0 <= b < k -> 0 <= b' < k -> a * k + b = a' * k + b' -> a = a' /\ b = b'.
Proof. intros Hb Hb' E. assert (a = a') as -> by nia. lia. Qed.
Lemma digit_lt a b a' b' k : 0 <= b < k -> 0 <= b' < k -> a * k + b < a' * k + b' <-> a < a' \/ a = a' /\ b < b'.
Proof. intros Hb Hb'. nia. Qed.

(** Induction from [a] up to [b] *)
Lemma up_to_ind (P : Z -> Prop) a b : a <= b -> P a -> (forall i, a <= i < b -> P i -> P (i + 1)) -> P b.
Proof.
  intros Hle Ha Hs. assert (forall n : nat, a + Z.of_nat n <= b -> P (a + Z.of_nat n)) as H.
  { induction n as [|n IH]; intros Hn; [by rewrite Z.add_0_r|].
    replace (a + Z.of_nat (S n)) with (a + Z.of_nat n + 1) by lia. apply Hs; [lia|]. apply IH. lia. }
  replace b with (a + Z.of_nat (Z.to_nat (b - a))) by lia. apply H. lia.
Qed.

Create HintDb ints.
Create Rewrite HintDb ints.
#[export] Hint Resolve u64_range u32_range s64_range : ints.
#[export] Hint Rewrite u64_s64 s64_u64 : ints.

(** ** Bit masks *)

Lemma land_mask x k : 0 <= k -> Z.land x (2 ^ k - 1) = x mod 2 ^ k.
Proof.
  intros. replace (2 ^ k - 1) with (Z.ones k) by (rewrite Z.ones_equiv; lia).
  by apply Z.land_ones.
Qed.

Lemma testbit_mod_pow2 x n i :
  0 <= n -> 0 <= i -> Z.testbit (x mod 2 ^ n) i = (i <? n) && Z.testbit x i.
Proof.
  intros. destruct (Z.ltb_spec i n); simpl.
  - apply Z.mod_pow2_bits_low. lia.
  - apply Z.mod_pow2_bits_high. lia.
Qed.

Lemma testbit_high x n i : 0 <= x < 2 ^ n -> n <= i -> Z.testbit x i = false.
Proof.
  intros Hx Hi. destruct (Z.ltb_spec n 0) as [Hn|Hn].
  { rewrite Z.pow_neg_r in Hx by lia. lia. }
  rewrite <- (Z.mod_small x (2 ^ n)) by lia. apply Z.mod_pow2_bits_high. lia.
Qed.

(** Disjoint bit fields *)
Lemma lor_shift a b n : 0 <= n -> 0 <= b < 2 ^ n -> Z.lor (a * 2 ^ n) b = a * 2 ^ n + b.
Proof.
  intros Hn Hb. rewrite <- Z.shiftl_mul_pow2 by done.
  assert (Z.land (Z.shiftl a n) b = 0) as Hd.
  { apply Z.bits_inj'. intros i Hi. rewrite Z.land_spec, Z.bits_0.
    destruct (Z.lt_ge_cases i n).
    - by rewrite Z.shiftl_spec_low.
    - rewrite (testbit_high b n) by lia. apply andb_false_r. }
  rewrite <- Z.lxor_lor by done. symmetry. by apply Z.add_nocarry_lxor.
Qed.

Lemma testbit_bound x n :
  0 <= n -> 0 <= x -> (forall i, n <= i -> Z.testbit x i = false) -> x < 2 ^ n.
Proof.
  intros Hn Hx Hb. destruct (decide (x = 0)) as [->|].
  { apply Z.pow_pos_nonneg; lia. }
  apply Z.log2_lt_pow2; [lia|].
  destruct (Z.lt_ge_cases (Z.log2 x) n) as [|Hge]; [done|].
  specialize (Hb (Z.log2 x) Hge). rewrite Z.bit_log2 in Hb by lia. done.
Qed.

Create Rewrite HintDb zbits.
#[export] Hint Rewrite Z.land_spec Z.lor_spec Z.lxor_spec Z.ldiff_spec Z.testbit_0_l : zbits.
#[export] Hint Rewrite Z.shiftr_spec Z.shiftl_spec testbit_mod_pow2 Z.lnot_spec using lia : zbits.

(** ** Arrays

    A C array is a list.  Reads outside the array yield the default value and
    writes outside are dropped; the well-formedness invariants keep every
    index the code uses in range. *)

Definition alen {A} (l : list A) : Z := Z.of_nat (length l).

Definition aget {A} `{Inhabited A} (l : list A) (i : Z) : A :=
  match i with Zneg _ => inhabitant | _ => l !!! Z.to_nat i end.

Definition aset {A} (l : list A) (i : Z) (x : A) : list A :=
  match i with Zneg _ => l | _ => <[Z.to_nat i := x]> l end.

Declare Scope arr_scope.
Notation "a .[ i ]" := (aget a i) (at level 1, left associativity, format "a .[ i ]") : arr_scope.
Notation "a .[ i := x ]" := (aset a i x)
  (at level 1, left associativity, format "a .[ i  :=  x ]") : arr_scope.
#[global] Open Scope arr_scope.

Section arrays.
Context {A : Type} `{Inhabited A}.
Implicit Types l : list A.

Lemma aget_nonneg l i : 0 <= i -> aget l i = l !!! Z.to_nat i.
Proof. destruct i; simpl; [done..|lia]. Qed.

Lemma aset_nonneg l i x : 0 <= i -> aset l i x = <[Z.to_nat i := x]> l.
Proof. destruct i; simpl; [done..|lia]. Qed.

Lemma alen_aset l i x : alen (aset l i x) = alen l.
Proof. unfold alen. destruct i; simpl; by rewrite ?length_insert. Qed.

Lemma length_aset l i x : length (aset l i x) = length l.
Proof. destruct i; simpl; by rewrite ?length_insert. Qed.

Lemma aget_aset_eq l i x : 0 <= i < alen l -> aget (aset l i x) i = x.
Proof.
  unfold alen. intros. rewrite aset_nonneg, aget_nonneg by lia.
  apply list_lookup_total_insert_eq. lia.
Qed.

Lemma aget_aset_ne l i j x : i <> j -> aget (aset l i x) j = aget l j.
Proof.
  intros. destruct (decide (0 <= j)); [|by destruct j; [lia..|]].
  destruct (decide (0 <= i)); [|by destruct i; [lia..|]].
  rewrite aset_nonneg, !aget_nonneg by lia.
  apply list_lookup_total_insert_ne. lia.
Qed.

Lemma aget_aset l i j x :
  aget (aset l i x) j = if decide (i = j /\ 0 <= i < alen l) then x else aget l j.
Proof.
  case_decide as Hd.
  - destruct Hd as [-> ?]. by apply aget_aset_eq.
  - destruct (decide (i = j)) as [->|]; [|by apply aget_aset_ne].
    destruct (decide (0 <= j)); [|by destruct j; [lia..|]].
    rewrite aset_nonneg, !aget_nonneg by lia. rewrite list_insert_ge; [done|].
    unfold alen in Hd. lia.
Qed.

Lemma aset_aget_id l i : aset l i (aget l i) = l.
Proof.
  destruct (decide (0 <= i)); [|by destruct i; [lia..|]].
  rewrite aset_nonneg, aget_nonneg by lia.
  destruct (decide (Z.to_nat i < length l)%nat).
  - apply list_insert_id. rewrite list_lookup_lookup_total_lt by lia. done.
  - by rewrite list_insert_ge by lia.
Qed.

Lemma aset_aset l i x y : aset (aset l i x) i y = aset l i y.
Proof. destruct i; simpl; by rewrite ?list_insert_insert_eq. Qed.

Lemma aset_comm l i j x y : i <> j -> aset (aset l i x) j y = aset (aset l j y) i x.
Proof.
  intros. destruct (decide (0 <= j)); [|by destruct j; [lia..|]].
  destruct (decide (0 <= i)); [|by destruct i; [lia..|]].
  rewrite !aset_nonneg by lia. apply list_insert_insert_ne. lia.
Qed.

Lemma aget_replicate n (x : A) i : 0 <= i < Z.of_nat n -> aget (replicate n x) i = x.
Proof.
  intros. rewrite aget_nonneg by lia. apply lookup_total_replicate_2. lia.
Qed.

Lemma alen_replicate n (x : A) : alen (replicate n x) = Z.of_nat n.
Proof. unfold alen. by rewrite length_replicate. Qed.

Lemma aget_out l i : i < 0 \/ alen l <= i -> aget l i = inhabitant.
Proof.
  unfold alen. intros [?|?].
  - by destruct i; [lia..|].
  - rewrite aget_nonneg by lia. rewrite list_lookup_total_alt.
    rewrite lookup_ge_None_2 by lia. done.
Qed.

Lemma arr_ext l1 l2 :
  alen l1 = alen l2 -> (forall i, 0 <= i < alen l1 -> aget l1 i = aget l2 i) -> l1 = l2.
Proof.
  unfold alen. intros Hlen Hget. apply list_eq. intros i.
  destruct (decide (i < length l1)%nat) as [Hi|Hi].
  - rewrite !list_lookup_lookup_total_lt by lia. f_equal.
    specialize (Hget (Z.of_nat i)). rewrite !aget_nonneg, Nat2Z.id in Hget by lia.
    apply Hget. lia.
  - by rewrite !lookup_ge_None_2 by lia.
Qed.
End arrays.

Create Rewrite HintDb arr.
Lemma alen_app {A} (l l' : list A) : alen (l ++ l') = alen l + alen l'.
Proof. unfold alen. rewrite length_app. lia. Qed.
Lemma aget_middle {A} `{Inhabited A} (l r : list A) x : aget (l ++ x :: r) (alen l) = x.
Proof. rewrite aget_nonneg by (unfold alen; lia). unfold alen. rewrite Nat2Z.id. by apply list_lookup_total_middle. Qed.
Lemma aset_middle {A} (l r : list A) x y : aset (l ++ x :: r) (alen l) y = l ++ y :: r.
Proof. rewrite aset_nonneg by (unfold alen; lia). unfold alen. rewrite Nat2Z.id. rewrite insert_app_r_alt by lia. by rewrite Nat.sub_diag. Qed.
Lemma aget_app_l {A} `{Inhabited A} (l r : list A) i : i < alen l -> aget (l ++ r) i = aget l i.
Proof.
  intros Hi. destruct (decide (0 <= i)); [|by rewrite !aget_out by lia]. rewrite !aget_nonneg by done. apply lookup_total_app_l. unfold alen in Hi. lia.
Qed.
Lemma aget_app_r {A} `{Inhabited A} (l r : list A) i : alen l <= i -> aget (l ++ r) i = aget r (i - alen l).
Proof.
  unfold alen. intros Hi. rewrite !aget_nonneg by lia. rewrite lookup_total_app_r by lia. f_equal. lia.
Qed.

#[export] Hint Rewrite @alen_aset @length_aset @alen_replicate : arr.
#[export] Hint Rewrite @aget_aset_eq @aget_aset_ne using lia : arr.

(** Reading after a write, by cases on the indices. *)
Ltac arr_simpl := repeat (autorewrite with arr in *).

(** The branch of a statement that a decided condition selects. *)
Lemma if_decide_true (P : Prop) `{Decision P} (A B : Prop) : P -> (if decide P then A else B) -> A.
Proof. intros HP. by rewrite decide_True by done. Qed.

(** ** Bounded loops *)

(** [for (i = start; n iterations; i++) body] as a state transformer. *)
Fixpoint for_loop {T} (n : nat) (i : Z) (body : Z -> T -> T) (s : T) : T :=
  match n with
  | O => s
  | S n' => for_loop n' (i + 1) body (body i s)
  end.

Lemma for_loop_ind {T} (P : Z -> T -> Prop) (body : Z -> T -> T) n : forall start s,
  P start s ->
  (forall i s', start <= i < start + Z.of_nat n -> P i s' -> P (i + 1) (body i s')) ->
  P (start + Z.of_nat n) (for_loop n start body s).
Proof.
  induction n as [|n IH]; intros start s H0 Hstep; simpl.
  - by rewrite Z.add_0_r.
  - replace (start + Z.of_nat (S n)) with ((start + 1) + Z.of_nat n) by lia.
    apply IH.
    + apply Hstep; [lia|done].
    + intros i s' Hi. apply Hstep. lia.
Qed.

Lemma for_loop_snoc {T} (body : Z -> T -> T) n : forall i s,
  for_loop (S n) i body s = body (i + Z.of_nat n) (for_loop n i body s).
Proof.
  induction n as [|n IH]; intros i s; [cbn; by rewrite Z.add_0_r|].
  change (for_loop (S (S n)) i body s) with (for_loop (S n) (i + 1) body (body i s)).
  rewrite IH. cbn [for_loop]. f_equal. lia.
Qed.

Lemma for_loop_ext {T} (f g : Z -> T -> T) n : forall i s,
  (forall j t, i <= j < i + Z.of_nat n -> f j t = g j t) -> for_loop n i f s = for_loop n i g s.
Proof.
  induction n as [|n IH]; intros i s Heq; [done|]. cbn [for_loop]. rewrite Heq by lia. apply IH. intros. apply Heq. lia.
Qed.

(** A loop over the elements of an array *)
Lemma for_loop_fold {A T} `{Inhabited A} (f : T -> A -> T) (l r : list A) : forall (d : list A) s,
  for_loop (length l) (alen d) (fun i s => f s (aget (d ++ l ++ r) i)) s = fold_left f l s.
Proof.
  induction l as [|x l IH]; intros d s; [done|]. cbn [length for_loop fold_left].
  change (d ++ (x :: l) ++ r) with (d ++ x :: (l ++ r)). rewrite aget_middle. rewrite <- (IH (d ++ [x])).
  rewrite alen_app. rewrite <- app_assoc. done.
Qed.

(** Writing one element per round. *)
Lemma for_fill {A} `{Inhabited A} (f : Z -> A) n start (l : list A) :
  0 <= start -> start + Z.of_nat n <= alen l ->
  let l' := for_loop n start (fun i l => l.[i := f i]) l in
  alen l' = alen l /\
  forall j, l'.[j] = if decide (start <= j < start + Z.of_nat n) then f j else l.[j].
Proof.
  intros Hs Hn.
  pose (P i l' := alen l' = alen l /\ forall j, l'.[j] = if decide (start <= j < i) then f j else l.[j]).
  apply (for_loop_ind P).
  - split; [done|]. intros j. by destruct (decide _); [lia|].
  - intros i l' Hi [Hl Hget]. split; [by rewrite alen_aset|]. intros j.
    destruct (decide (i = j)) as [->|Hij].
    + rewrite aget_aset_eq by lia. by rewrite decide_True by lia.
    + rewrite aget_aset_ne, Hget by done. by repeat destruct (decide _); try lia.
Qed.

(** Updating one element per round. *)
Lemma for_update {A} `{Inhabited A} (g : Z -> A -> A) n (l : list A) :
  Z.of_nat n <= alen l ->
  let l' := for_loop n 0 (fun i l => l.[i := g i (l.[i])]) l in
  alen l' = alen l /\ forall j, 0 <= j < Z.of_nat n -> l'.[j] = g j (l.[j]).
Proof.
  intros Hn. set (l' := for_loop n 0 _ l).
  pose (P i l' := alen l' = alen l /\ forall j, l'.[j] = if decide (0 <= j < i) then g j (l.[j]) else l.[j]).
  assert (P (0 + Z.of_nat n) l') as [H1 H2].
  { apply (for_loop_ind P).
    - split; [done|]. intros j. by destruct (decide _); [lia|].
    - intros i l0 Hi [Hl Hget]. split; [by rewrite alen_aset|]. intros j.
      destruct (decide (i = j)) as [->|Hij].
      + rewrite aget_aset_eq by lia. rewrite Hget, decide_False, decide_True by lia. done.
      + rewrite aget_aset_ne, Hget by done. by repeat destruct (decide _); try lia. }
  split; [done|]. intros j Hj. rewrite H2. by rewrite decide_True by lia.
Qed.

(** ** Finite sums over array indices *)

Fixpoint sumZ (f : Z -> Z) (n : nat) : Z :=
  match n with
  | O => 0
  | S m => sumZ f m + f (Z.of_nat m)
  end.

Lemma sumZ_ext f g n :
  (forall i, 0 <= i < Z.of_nat n -> f i = g i) -> sumZ f n = sumZ g n.
Proof.
  induction n as [|n IH]; simpl; intros Hfg; [done|].
  rewrite IH, Hfg; [done|lia|]. intros. apply Hfg. lia.
Qed.

Lemma sumZ_update f g n i :
  0 <= i < Z.of_nat n ->
  (forall j, 0 <= j < Z.of_nat n -> j <> i -> g j = f j) ->
  sumZ g n = sumZ f n + g i - f i.
Proof.
  induction n as [|n IH]; simpl; intros Hi Hfg; [lia|].
  destruct (decide (i = Z.of_nat n)) as [->|].
  - rewrite (sumZ_ext g f); [lia|]. intros. apply Hfg; lia.
  - rewrite IH, (Hfg (Z.of_nat n)) by (lia || (intros; apply Hfg; lia)). lia.
Qed.

Lemma sumZ_add f g n : sumZ (fun i => f i + g i) n = sumZ f n + sumZ g n.
Proof. induction n as [|n IH]; simpl; [done|]. rewrite IH. lia. Qed.

Lemma sumZ_zero f n : (forall i, 0 <= i < Z.of_nat n -> f i = 0) -> sumZ f n = 0.
Proof.
  intros Hf. rewrite (sumZ_ext f (fun _ => 0)) by done. clear Hf.
  induction n as [|n IH]; simpl; lia.
Qed.

Lemma sumZ_le f g n :
  (forall i, 0 <= i < Z.of_nat n -> f i <= g i) -> sumZ f n <= sumZ g n.
Proof.
  induction n as [|n IH]; simpl; intros Hfg; [lia|].
  assert (f (Z.of_nat n) <= g (Z.of_nat n)) by (apply Hfg; lia).
  assert (sumZ f n <= sumZ g n) by (apply IH; intros; apply Hfg; lia). lia.
Qed.

Lemma sumZ_nonneg f n : (forall i, 0 <= i < Z.of_nat n -> 0 <= f i) -> 0 <= sumZ f n.
Proof.
  intros. rewrite <- (sumZ_zero (fun _ => 0) n) at 1 by done. by apply sumZ_le.
Qed.

Lemma sumZ_prefix f n n' :
  (n <= n')%nat -> (forall i, 0 <= i < Z.of_nat n' -> 0 <= f i) -> sumZ f n <= sumZ f n'.
Proof.
  intros Hn Hf. induction Hn as [|n' Hn IH]; [done|]. cbn [sumZ].
  assert (0 <= f (Z.of_nat n')) by (apply Hf; lia).
  assert (sumZ f n <= sumZ f n') by (apply IH; intros; apply Hf; lia). lia.
Qed.

Lemma sumZ_const c n : sumZ (fun _ => c) n = c * Z.of_nat n.
Proof. induction n as [|n IH]; simpl; lia. Qed.

Lemma sumZ_elem_le f n i :
  (forall j, 0 <= j < Z.of_nat n -> 0 <= f j) -> 0 <= i < Z.of_nat n -> f i <= sumZ f n.
Proof.
  intros Hf Hi.
  rewrite (sumZ_update (fun j => if decide (j = i) then 0 else f j) f n i) by
    (lia || (intros; by case_decide)).
  case_decide; [|done].
  assert (0 <= sumZ (fun j => if decide (j = i) then 0 else f j) n);
    [apply sumZ_nonneg; intros; case_decide; auto; lia|lia].
Qed.

Lemma sumZ_two_le f n i j :
  (forall k, 0 <= k < Z.of_nat n -> 0 <= f k) -> 0 <= i < Z.of_nat n ->
  0 <= j < Z.of_nat n -> i <> j -> f i + f j <= sumZ f n.
Proof.
  intros Hf Hi Hj Hij.
  rewrite (sumZ_update (fun k => if decide (k = i) then 0 else f k) f n i) by
    (lia || (intros; by case_decide)).
  pose proof (sumZ_elem_le (fun k => if decide (k = i) then 0 else f k) n j) as Hle.
  simpl in Hle. rewrite decide_False in Hle by lia. rewrite (decide_True 0) by done.
  enough (f j <= sumZ (fun k => if decide (k = i) then 0 else f k) n) by lia.
  apply Hle; [|done]. intros. case_decide; auto; lia.
Qed.

(** Number of indices below [n] satisfying a decidable predicate. *)
Definition countZ (P : Z -> bool) (n : nat) : Z := sumZ (fun i => Z.b2z (P i)) n.

Lemma b2z_range b : 0 <= Z.b2z b <= 1.
Proof. destruct b; simpl; lia. Qed.

Lemma countZ_range P n : 0 <= countZ P n <= Z.of_nat n.
Proof.
  unfold countZ. split.
  - apply sumZ_nonneg. intros. apply b2z_range.
  - etrans; [apply (sumZ_le _ (fun _ => 1)); intros; apply b2z_range|].
    rewrite sumZ_const. lia.
Qed.

Lemma countZ_update P Q n i :
  0 <= i < Z.of_nat n -> (forall j, 0 <= j < Z.of_nat n -> j <> i -> Q j = P j) ->
  countZ Q n = countZ P n + Z.b2z (Q i) - Z.b2z (P i).
Proof.
  intros Hi Hpq. unfold countZ.
  apply (sumZ_update (fun j => Z.b2z (P j)) (fun j => Z.b2z (Q j)) n i Hi).
  intros j Hj Hne. simpl. by rewrite Hpq.
Qed.

Lemma countZ_ext P Q n :
  (forall i, 0 <= i < Z.of_nat n -> P i = Q i) -> countZ P n = countZ Q n.
Proof. intros Hpq. unfold countZ. apply sumZ_ext. intros i Hi. by rewrite Hpq. Qed.

Lemma countZ_mono P n n' j :
  (n <= n')%nat -> countZ P n <= countZ P n' /\
  (Z.of_nat n <= j < Z.of_nat n' -> countZ P n + Z.b2z (P j) <= countZ P n').
Proof.
  unfold countZ. induction 1 as [|n' Hle [IH1 IH2]]; simpl; [lia|].
  pose proof (b2z_range (P (Z.of_nat n'))). split; [lia|]. intros Hj.
  destruct (decide (j = Z.of_nat n')) as [->|]; [lia|].
  specialize (IH2 ltac:(lia)). lia.
Qed.

Lemma countZ_S P i :
  0 <= i -> countZ P (Z.to_nat (i + 1)) = countZ P (Z.to_nat i) + Z.b2z (P i).
Proof.
  intros. unfold countZ. replace (Z.to_nat (i + 1)) with (S (Z.to_nat i)) by lia. simpl.
  by rewrite Z2Nat.id.
Qed.

Lemma countZ_lt_exists P n :
  countZ P n < Z.of_nat n -> exists i, 0 <= i < Z.of_nat n /\ P i = false.
Proof.
  unfold countZ. induction n as [|n IH]; simpl; intros Hc; [lia|].
  destruct (P (Z.of_nat n)) eqn:HP; simpl in Hc.
  - destruct IH as (i & ? & ?); [lia|]. exists i. split; [lia|done].
  - exists (Z.of_nat n). split; [lia|done].
Qed.

Lemma countZ_full P n :
  countZ P n = Z.of_nat n -> forall i, 0 <= i < Z.of_nat n -> P i = true.
Proof.
  intros Hc i Hi. destruct (P i) eqn:HP; [done|]. exfalso.
  pose proof (sumZ_update (fun _ => 1) (fun j => Z.b2z (if decide (j = i) then false else true)) n i) as Hs.
  assert (countZ P n <= sumZ (fun j => Z.b2z (if decide (j = i) then false else true)) n) as Hle.
  { unfold countZ. apply sumZ_le. intros j Hj. case_decide; simpl.
    - subst. by rewrite HP.
    - apply b2z_range. }
  rewrite Hs in Hle; [|lia|].
  - rewrite sumZ_const in Hle. rewrite decide_True in Hle by done. simpl in Hle. lia.
  - intros. by rewrite decide_False.
Qed.

Lemma sumZ_split f a b : sumZ f (a + b)%nat = sumZ f a + sumZ (fun d => f (Z.of_nat a + d)) b.
Proof.
  induction b as [|b IH]; [rewrite Nat.add_0_r; simpl; lia|]. rewrite Nat.add_succ_r. cbn [sumZ]. rewrite IH, Nat2Z.inj_add. lia.
Qed.

(** ** Lists *)
Lemma NoDup_insert_fresh {A} (l : list A) n (x : A) : NoDup l -> x ∉ l -> NoDup (<[n := x]> l).
Proof.
  intros Hnd Hx. apply NoDup_alt. intros a b y Ha Hb. apply list_lookup_insert_Some in Ha, Hb.
  destruct Ha as [(<- & -> & _)|(_ & Ha)], Hb as [(<- & ? & _)|(_ & Hb)]; subst.
  - done.
  - by apply list_elem_of_lookup_2 in Hb.
  - by apply list_elem_of_lookup_2 in Ha.
  - by eapply NoDup_lookup.
Qed.

Lemma last_delete {A} (l : list A) (x : A) : last l = Some x -> l = delete (pred (length l)) l ++ [x].
Proof.
  intros (l' & ->)%last_Some. rewrite length_app. simpl. replace (pred (length l' + 1)) with (length l') by lia.
  by rewrite delete_middle, app_nil_r.
Qed.

(** ** Wrapping an index into a table of [cap] slots *)

Lemma wrap_cases cap x :
  0 <= x < 2 * cap ->
  (x < cap /\ x mod cap = x) \/ (cap <= x /\ x mod cap = x - cap).
Proof.
  intros. destruct (Z.lt_ge_cases x cap).
  - left. split; [done|]. apply Z.mod_small. lia.
  - right. split; [done|].
    replace x with ((x - cap) + 1 * cap) at 1 by lia.
    rewrite Z_mod_plus_full. apply Z.mod_small. lia.
Qed.

(** ** Loops with a condition

    [while (cond) body], at most [fuel] rounds.  The fuel is a binary number and the loop
    stops as soon as the condition fails, so that a generous fuel costs nothing to evaluate. *)

Section while_loop.
Context {T : Type} (cond : T -> bool) (body : T -> T).

Fixpoint while_loop (fuel : positive) (s : T) : T :=
  if cond s then
    match fuel with
    | xH => body s
    | xO p => while_loop p (while_loop p s)
    | xI p => while_loop p (while_loop p (body s))
    end
  else s.

Lemma while_loop_done fuel s : cond s = false -> while_loop fuel s = s.
Proof. intros Hc. destruct fuel; simpl; by rewrite Hc. Qed.

(** The invariant and the measure [m]: with enough fuel the condition is false at the end. *)
Lemma while_loop_partial (I : T -> Prop) (m : T -> Z) fuel :
  (forall s, I s -> cond s = true -> I (body s) /\ m (body s) < m s) ->
  forall s, I s -> let s' := while_loop fuel s in
  I s' /\ (cond s' = false \/ m s' <= m s - Zpos fuel).
Proof.
  intros Hstep. induction fuel as [p IH|p IH|]; intros s Hs; simpl;
    destruct (cond s) eqn:Hc; try (split; [done|by left]).
  - destruct (Hstep s Hs Hc) as [H1 Hm1]. destruct (IH _ H1) as [H2 [Hd|Hm2]].
    + rewrite (while_loop_done p) by done. split; [done|by left].
    + destruct (IH _ H2) as [H3 [Hd|Hm3]]; (split; [done|]); [by left|right; lia].
  - destruct (IH _ Hs) as [H2 [Hd|Hm2]].
    + rewrite (while_loop_done p) by done. split; [done|by left].
    + destruct (IH _ H2) as [H3 [Hd|Hm3]]; (split; [done|]); [by left|right; lia].
  - destruct (Hstep s Hs Hc) as [H1 Hm1]. split; [done|right; lia].
Qed.

Lemma while_loop_total (I : T -> Prop) (m : T -> Z) fuel s :
  (forall s, I s -> cond s = true -> 0 < m s /\ I (body s) /\ m (body s) < m s) ->
  I s -> m s <= Zpos fuel ->
  let s' := while_loop fuel s in I s' /\ cond s' = false.
Proof.
  intros Hstep Hs Hm s'. destruct (while_loop_partial I m fuel) with (s := s) as [HI Hd];
    [|done|fold s' in HI, Hd].
  - intros x Hx Hc. by destruct (Hstep x Hx Hc).
  - split; [done|]. destruct Hd as [?|Hd]; [done|].
    destruct (cond s') eqn:Hc; [|done]. destruct (Hstep s' HI Hc). lia.
Qed.
End while_loop.
