(* ===== verification/OpenAddressing.v ===== *)
(** * Linear probing in a table of [2^k] slots

    Every hash table of the node uses the same scheme: start at
    [hash & (capacity - 1)], look at slots [index], [(index + 1) & (capacity - 1)], ...
    and stop at the first slot that decides the search.  The [goto iteration] loops of
    spectrum.h, assets.h and special_entities.h and the flag-group loops of the QPI
    containers are all instances.  This file holds the loop combinator [probe] and the
    theory of tables with empty, marked-for-removal and full slots that the components
    instantiate. *)
From S2P Require Import Prelude.

(** The probing loop.  [stop i] is the decision the loop body takes at slot [i]:
    [None] means "go to the next slot".  [fuel] bounds the number of slots visited;
    with [fuel = capacity] every slot has been seen. *)
Fixpoint probe {R} (mask : Z) (stop : Z -> option R) (fuel : nat) (index : Z) : option R :=
  match fuel with
  | O => None
  | S fuel' =>
      match stop index with
      | Some r => Some r
      | None => probe mask stop fuel' (Z.land (index + 1) mask)
      end
  end.

Section probing.
Variable k : nat.
Abbreviation cap := (2 ^ Z.of_nat k).
Abbreviation mask := (cap - 1).

Definition in_table (i : Z) : Prop := 0 <= i < cap.

(** The slot reached after [j] steps from [h]. *)
Definition nth_slot (h j : Z) : Z := (h + j) mod cap.

(** Number of steps from [h] to [i]. *)
Definition steps (h i : Z) : Z := (i - h) mod cap.

Lemma cap_pos : 0 < cap.
Proof. apply Z.pow_pos_nonneg; lia. Qed.

Lemma land_in_table x : in_table (Z.land x mask).
Proof.
  unfold in_table. rewrite land_mask by lia.
  apply Z.mod_pos_bound, cap_pos.
Qed.

Lemma nth_slot_in h j : in_table (nth_slot h j).
Proof. unfold in_table, nth_slot. apply Z.mod_pos_bound, cap_pos. Qed.

Lemma nth_slot_0 h : in_table h -> nth_slot h 0 = h.
Proof. unfold in_table, nth_slot. intros. rewrite Z.add_0_r. by apply Z.mod_small. Qed.

Lemma nth_slot_next h j : nth_slot (Z.land (h + 1) mask) j = nth_slot h (j + 1).
Proof.
  unfold nth_slot. rewrite land_mask, Zplus_mod_idemp_l by lia. f_equal. lia.
Qed.

Lemma nth_slot_succ h j : Z.land (nth_slot h j + 1) mask = nth_slot h (j + 1).
Proof.
  unfold nth_slot. rewrite land_mask, Zplus_mod_idemp_l by lia. f_equal. lia.
Qed.

Lemma steps_range h i : 0 <= steps h i < cap.
Proof. unfold steps. apply Z.mod_pos_bound, cap_pos. Qed.

Lemma nth_slot_steps h i : in_table i -> nth_slot h (steps h i) = i.
Proof.
  unfold in_table, nth_slot, steps. intros.
  rewrite Zplus_mod_idemp_r. replace (h + (i - h)) with i by lia.
  by apply Z.mod_small.
Qed.

Lemma steps_nth_slot h j : 0 <= j < cap -> steps h (nth_slot h j) = j.
Proof.
  unfold nth_slot, steps. intros.
  rewrite Zminus_mod_idemp_l. replace (h + j - h) with j by lia. by apply Z.mod_small.
Qed.

Lemma nth_slot_inj h j j' :
  0 <= j < cap -> 0 <= j' < cap -> nth_slot h j = nth_slot h j' -> j = j'.
Proof.
  intros Hj Hj' He. rewrite <- (steps_nth_slot h j), <- (steps_nth_slot h j') by done.
  by rewrite He.
Qed.

(** *** The loop *)
Section loop.
Context {R : Type} (stop : Z -> option R).

Lemma probe_Some n h r :
  in_table h -> probe mask stop n h = Some r ->
  exists j, 0 <= j < Z.of_nat n /\ stop (nth_slot h j) = Some r /\
    forall j', 0 <= j' < j -> stop (nth_slot h j') = None.
Proof.
  revert h. induction n as [|n IH]; intros h Hh; simpl; [done|].
  destruct (stop h) as [r'|] eqn:Hs.
  - intros [= <-]. exists 0. rewrite nth_slot_0 by done. repeat split; [lia..|done|lia].
  - intros (j & Hj & Hr & Hlt)%IH; [|apply land_in_table].
    exists (j + 1). rewrite <- nth_slot_next. repeat split; [lia..|done|].
    intros j' Hj'. destruct (decide (j' = 0)) as [->|].
    + by rewrite nth_slot_0.
    + replace j' with ((j' - 1) + 1) by lia. rewrite <- nth_slot_next. apply Hlt. lia.
Qed.

Lemma probe_intro n h r j :
  in_table h -> 0 <= j < Z.of_nat n -> stop (nth_slot h j) = Some r ->
  (forall j', 0 <= j' < j -> stop (nth_slot h j') = None) ->
  probe mask stop n h = Some r.
Proof.
  revert h j. induction n as [|n IH]; intros h j Hh Hj Hr Hlt; [lia|]. simpl.
  destruct (decide (j = 0)) as [->|].
  - rewrite nth_slot_0 in Hr by done. by rewrite Hr.
  - assert (stop h = None) as ->.
    { rewrite <- (nth_slot_0 h) by done. apply Hlt. lia. }
    apply (IH _ (j - 1)); [apply land_in_table|lia|..].
    + rewrite nth_slot_next. by replace (j - 1 + 1) with j by lia.
    + intros j' ?. rewrite nth_slot_next. apply Hlt. lia.
Qed.

Lemma probe_None n h :
  in_table h ->
  probe mask stop n h = None <->
  forall j, 0 <= j < Z.of_nat n -> stop (nth_slot h j) = None.
Proof.
  intros Hh. split.
  - intros Hp j Hj. destruct (stop (nth_slot h j)) as [r|] eqn:Hr; [|done]. exfalso.
    revert h j Hh Hp Hj Hr. induction n as [|n IH]; intros h j Hh Hp Hj Hr; [lia|].
    simpl in Hp. destruct (stop h) eqn:Hs; [done|].
    destruct (decide (j = 0)) as [->|]; [rewrite nth_slot_0 in Hr by done; congruence|].
    apply (IH _ (j - 1) (land_in_table _) Hp); [lia|].
    rewrite nth_slot_next. by replace (j - 1 + 1) with j by lia.
  - intros Hall. destruct (probe mask stop n h) as [r|] eqn:Hp; [|done].
    apply probe_Some in Hp as (j & Hj & Hr & _); [|done]. rewrite Hall in Hr; done.
Qed.

(** A full turn visits every slot: if some slot stops the loop, the loop stops. *)
Lemma probe_total h i :
  in_table h -> in_table i -> stop i <> None ->
  is_Some (probe mask stop (Z.to_nat cap) h).
Proof.
  intros Hh Hi Hs. destruct (probe mask stop (Z.to_nat cap) h) as [r|] eqn:Hp; [eauto|].
  exfalso. apply Hs.
  eapply probe_None with (j := steps h i) in Hp;
    [|done|pose proof (steps_range h i); lia].
  by rewrite nth_slot_steps in Hp.
Qed.

(** Once the loop has stopped, more fuel does not change its result. *)
Lemma probe_mono n m h r :
  in_table h -> (n <= m)%nat -> probe mask stop n h = Some r ->
  probe mask stop m h = Some r.
Proof.
  intros Hh Hnm (j & ? & ? & ?)%probe_Some; [|done].
  apply (probe_intro m h r j); [done|lia|done..].
Qed.
End loop.

Lemma probe_ext {R} (f g : Z -> option R) n h :
  in_table h -> (forall i, in_table i -> f i = g i) ->
  probe mask f n h = probe mask g n h.
Proof.
  intros Hh Hfg. revert h Hh. induction n as [|n IH]; intros h Hh; simpl; [done|].
  rewrite Hfg by done. by rewrite IH by apply land_in_table.
Qed.

(** *** Tables *)
Section table.
Context {K : Type} `{EqDecision K} (home : K -> Z).
Hypothesis home_in : forall x, in_table (home x).

Inductive slot : Type :=
| Empty
| Marked
| Full (x : K).

Implicit Types t : Z -> slot.

#[global] Instance slot_eq_dec : EqDecision slot.
Proof. solve_decision. Defined.

(** Every key occurs once, and no empty slot separates it from its home slot. *)
Record table_ok t : Prop := {
  tab_unique : forall i j x,
    in_table i -> in_table j -> t i = Full x -> t j = Full x -> i = j;
  tab_reach : forall i x j,
    in_table i -> t i = Full x -> 0 <= j < steps (home x) i ->
    t (nth_slot (home x) j) <> Empty }.

(** What the search for [x] decides at slot [i]: found, absent, or continue. *)
Definition find_stop t (x : K) (i : Z) : option (option Z) :=
  match t i with
  | Empty => Some None
  | Marked => None
  | Full y => if decide (y = x) then Some (Some i) else None
  end.

Definition find t (x : K) : option (option Z) :=
  probe mask (find_stop t x) (Z.to_nat cap) (home x).

Lemma find_stop_before t x i j :
  table_ok t -> in_table i -> t i = Full x -> 0 <= j < steps (home x) i ->
  find_stop t x (nth_slot (home x) j) = None.
Proof.
  intros Hok Hi Hx Hj. unfold find_stop.
  pose proof (tab_reach _ Hok i x j Hi Hx Hj) as Hne.
  destruct (t (nth_slot (home x) j)) as [| |y] eqn:Hy; [done..|].
  case_decide as Heq; [|done]. subst y. exfalso.
  pose proof (tab_unique _ Hok _ _ _ (nth_slot_in _ _) Hi Hy Hx) as <-.
  rewrite steps_nth_slot in Hj; [lia|]. pose proof (steps_range (home x) (nth_slot (home x) j)). lia.
Qed.

(** The search finds exactly the slot that holds the key. *)
Lemma find_found t x i :
  table_ok t -> in_table i -> t i = Full x -> find t x = Some (Some i).
Proof.
  intros Hok Hi Hx. unfold find. pose proof (steps_range (home x) i).
  apply probe_intro with (j := steps (home x) i); [done|lia|..].
  - rewrite nth_slot_steps by done. unfold find_stop. rewrite Hx. by case_decide.
  - intros. by apply (find_stop_before t x i).
Qed.

Lemma find_sound t x i : find t x = Some (Some i) -> in_table i /\ t i = Full x.
Proof.
  intros (j & ? & Hs & _)%probe_Some; [|done]. revert Hs. unfold find_stop.
  destruct (t (nth_slot (home x) j)) eqn:Ht; [done..|].
  case_decide; [|done]. intros [= <-]. subst. split; [apply nth_slot_in|done].
Qed.

Lemma find_absent t x :
  table_ok t ->
  (find t x = Some None \/ find t x = None) <->
  (forall i, in_table i -> t i <> Full x).
Proof.
  intros Hok. split.
  - intros Hf i Hi Hx. rewrite (find_found t x i) in Hf by done. destruct Hf; done.
  - intros Habs. destruct (find t x) as [[i|]|] eqn:Hf; auto.
    apply find_sound in Hf as [? ?]. exfalso. by eapply Habs.
Qed.

(** Reaching an empty slot before the key, or coming round, shows that it is absent. *)
Lemma absent_at_empty t x j :
  table_ok t -> 0 <= j < cap -> t (nth_slot (home x) j) = Empty ->
  (forall j', 0 <= j' < j -> t (nth_slot (home x) j') <> Full x) ->
  forall i, in_table i -> t i <> Full x.
Proof.
  intros Hok Hj He Hpre i Hi Hx. pose proof (steps_range (home x) i) as Hs.
  pose proof (nth_slot_steps (home x) i Hi) as Hn.
  destruct (Z.lt_trichotomy (steps (home x) i) j) as [Hlt|[Heq|Hgt]].
  - apply (Hpre (steps (home x) i)); [lia|]. by rewrite Hn.
  - rewrite <- Heq, Hn in He. congruence.
  - by apply (tab_reach _ Hok i x j Hi Hx); [lia|].
Qed.

Lemma absent_full_turn t x :
  (forall j, 0 <= j < cap -> t (nth_slot (home x) j) <> Full x) ->
  forall i, in_table i -> t i <> Full x.
Proof.
  intros Hall i Hi. rewrite <- (nth_slot_steps (home x) i Hi).
  apply Hall, steps_range.
Qed.

(** With at least one empty slot the search always terminates. *)
Lemma find_terminates t x e : in_table e -> t e = Empty -> is_Some (find t x).
Proof.
  intros He Ht. apply (probe_total _ _ e); [done..|]. unfold find_stop. by rewrite Ht.
Qed.

(** In a table without marked slots, the search ends at the key or at a free slot. *)
Lemma find_walk t x e :
  table_ok t -> (forall i, t i <> Marked) -> in_table e -> t e = Empty ->
  exists j, 0 <= j < cap /\
    (forall j', 0 <= j' < j -> t (nth_slot (home x) j') <> Empty /\ t (nth_slot (home x) j') <> Full x) /\
    (t (nth_slot (home x) j) = Full x \/
     t (nth_slot (home x) j) = Empty /\ forall i, in_table i -> t i <> Full x).
Proof.
  intros Hok Hm He Hte. pose proof cap_pos as Hc. destruct (find_terminates t x e He Hte) as [r Hr].
  unfold find in Hr. apply probe_Some in Hr as (j & Hj & Hs & Hb); [|done].
  rewrite Z2Nat.id in Hj by lia. exists j. split; [done|].
  assert (forall j', 0 <= j' < j -> t (nth_slot (home x) j') <> Empty /\ t (nth_slot (home x) j') <> Full x) as Hbef.
  { intros j' Hj'. specialize (Hb j' Hj'). unfold find_stop in Hb.
    destruct (t (nth_slot (home x) j')) as [| |y]; [done|done|]. case_decide; [done|]. split; congruence. }
  split; [done|]. unfold find_stop in Hs. destruct (t (nth_slot (home x) j)) as [| |y] eqn:Htab.
  - right. split; [done|]. apply (absent_at_empty t x j); [done..|]. intros j' Hj'. by apply Hbef.
  - by destruct (Hm (nth_slot (home x) j)).
  - case_decide; [|done]. left. congruence.
Qed.

Definition upd t (i : Z) (s : slot) : Z -> slot :=
  fun j => if decide (j = i) then s else t j.

(** Writing a fresh key into a non-full slot that the search for the key reaches
    before any empty slot keeps the table well formed. *)
Lemma table_ok_insert t x j :
  table_ok t -> (forall i, in_table i -> t i <> Full x) ->
  0 <= j < cap -> (forall y, t (nth_slot (home x) j) <> Full y) ->
  (forall j', 0 <= j' < j -> t (nth_slot (home x) j') <> Empty) ->
  table_ok (upd t (nth_slot (home x) j) (Full x)).
Proof.
  intros Hok Habs Hj Hnf Hpre. split; unfold upd.
  - intros a b y Ha Hb. repeat case_decide; subst; intros; simplify_eq; try done.
    + exfalso. by apply (Habs b).
    + exfalso. by apply (Habs a).
    + by apply (tab_unique _ Hok a b y).
  - intros i y j' Hi. case_decide as Hd.
    + subst. intros [= <-] Hj'. rewrite steps_nth_slot in Hj' by done.
      case_decide; [done|]. by apply Hpre.
    + intros Hy Hj'. case_decide; [done|]. by apply (tab_reach _ Hok i y j').
Qed.

(** Marking a slot for removal keeps the table well formed. *)
Lemma table_ok_mark t i :
  table_ok t -> table_ok (upd t i Marked).
Proof.
  intros Hok. split; unfold upd.
  - intros a b y Ha Hb. repeat case_decide; subst; intros; simplify_eq.
    by apply (tab_unique _ Hok a b y).
  - intros a y j Ha. case_decide; [done|]. intros Hy Hj. case_decide; [done|].
    by apply (tab_reach _ Hok a y j).
Qed.

Lemma table_ok_ext t t' :
  (forall i, in_table i -> t i = t' i) -> table_ok t -> table_ok t'.
Proof.
  intros Heq Hok. split.
  - intros i j x Hi Hj. rewrite <- !Heq by done. by apply (tab_unique _ Hok).
  - intros i x j Hi. rewrite <- !Heq by (done || apply nth_slot_in). intros Hx Hj.
    by apply (tab_reach _ Hok i x j).
Qed.

Lemma table_ok_empty t : (forall i, in_table i -> t i = Empty) -> table_ok t.
Proof.
  intros He. split.
  - intros i j x Hi Hj. by rewrite He.
  - intros i x j Hi. by rewrite He.
Qed.
End table.
End probing.

Arguments slot : clear implicits.
Arguments Empty {K}.
Arguments Marked {K}.
Arguments Full {K} x.
Create HintDb arr.
#[export] Hint Resolve land_in_table nth_slot_in cap_pos : arr.
