(* ===== verification/OccupationFlags.v ===== *)
(** * Two-bit occupation flags of the QPI containers

    [HashMap], [HashSet] and [Collection] store two bits per slot in an array of 64-bit
    words: 0b00 not occupied, 0b01 occupied, 0b10 occupied but marked for removal, 0b11
    unused.  This file models the words ([_getEncodedOccupationFlags], the [|=] and [^=]
    updates) and the loop nest that scans them in groups of up to 32 flags, and proves
    that the scan visits the slots one by one. *)
From S2P Require Import Prelude OpenAddressing.

(** [_tzcnt_u64] and [_lzcnt_u64] (64 for the argument 0). *)
Fixpoint ctz_from (fuel : nat) (i x : Z) : Z :=
  match fuel with
  | O => i
  | S f => if Z.testbit x i then i else ctz_from f (i + 1) x
  end.

Definition tzcnt_u64 (x : Z) : Z := ctz_from 64 0 x.
Definition lzcnt_u64 (x : Z) : Z := if x =? 0 then 64 else 63 - Z.log2 x.

Lemma ctz_from_spec fuel i x :
  0 <= i ->
  i <= ctz_from fuel i x <= i + Z.of_nat fuel /\
  forall b, i <= b < ctz_from fuel i x -> Z.testbit x b = false.
Proof.
  revert i. induction fuel as [|f IH]; intros i Hi; simpl; [split; lia|].
  destruct (Z.testbit x i) eqn:Hb; [split; lia|].
  destruct (IH (i + 1)) as [? Hlow]; [lia|]. split; [lia|].
  intros b ?. destruct (decide (b = i)) as [->|]; [done|]. apply Hlow. lia.
Qed.

Lemma tzcnt_range x : 0 <= tzcnt_u64 x <= 64.
Proof. unfold tzcnt_u64. pose proof (ctz_from_spec 64 0 x). lia. Qed.

Lemma tzcnt_low x b : 0 <= b < tzcnt_u64 x -> Z.testbit x b = false.
Proof. unfold tzcnt_u64. apply (ctz_from_spec 64 0 x). lia. Qed.

Lemma lzcnt_range x : is_u64 x -> 0 <= lzcnt_u64 x <= 64.
Proof.
  unfold is_u64, lzcnt_u64. intros. destruct (Z.eqb_spec x 0); [lia|].
  pose proof (Z.log2_nonneg x). assert (Z.log2 x < 64) by (apply Z.log2_lt_pow2; lia). lia.
Qed.

Lemma lzcnt_high x b : is_u64 x -> 64 - lzcnt_u64 x <= b -> Z.testbit x b = false.
Proof.
  unfold is_u64, lzcnt_u64. intros Hx. destruct (Z.eqb_spec x 0) as [->|].
  - intros. apply Z.testbit_0_l.
  - intros. apply Z.bits_above_log2; lia.
Qed.

Lemma land3_eq x y :
  Z.testbit x 0 = Z.testbit y 0 -> Z.testbit x 1 = Z.testbit y 1 -> Z.land x 3 = Z.land y 3.
Proof.
  intros H0 H1. apply Z.bits_inj'. intros n Hn. rewrite !Z.land_spec.
  destruct (decide (n = 0)) as [->|]; [by rewrite H0|].
  destruct (decide (n = 1)) as [->|]; [by rewrite H1|].
  rewrite (testbit_high 3 2 n) by lia. by rewrite !andb_false_r.
Qed.

Lemma land3_bits x :
  Z.land x 3 = 2 * Z.b2z (Z.testbit x 1) + Z.b2z (Z.testbit x 0).
Proof.
  rewrite (land_mask x 2 : _ -> Z.land x 3 = _) by lia.
  rewrite Z.bit0_mod, (Z.testbit_eqb x 1) by lia. change (2 ^ 1) with 2. change (2 ^ 2) with 4.
  destruct (Z.eqb_spec ((x / 2) mod 2) 1); simpl; Z.div_mod_to_equations; lia.
Qed.

Lemma land3_range x : 0 <= Z.land x 3 < 4.
Proof. rewrite (land_mask x 2 : _ -> Z.land x 3 = _) by lia. apply Z.mod_pos_bound. lia. Qed.

Section flags.
(** The capacity [L] is [2^lg] (the [static_assert] of the containers). *)
Variable lg : nat.
Abbreviation L := (2 ^ Z.of_nat lg).

Definition _nEncodedFlags : Z := if 32 <? L then 32 else L.

(** Number of 64-bit words. *)
Definition flagWords : Z := (L * 2 + 63) / 64.

Definition _getEncodedOccupationFlags (occupationFlags : list Z) (elementIndex : Z) : Z :=
  let offset := Z.shiftl (Z.land elementIndex 31) 1 in
  let flags := Z.shiftr (occupationFlags.[Z.shiftr elementIndex 5]) offset in
  if 0 <? offset then
    Z.lor flags
      (u64 (Z.shiftl (occupationFlags.[Z.shiftr (Z.land (elementIndex + 32) (L - 1)) 5])
                     (2 * _nEncodedFlags - offset)))
  else flags.

(** [occupationFlags[index >> 5] |= (1ULL << ((index & 31) << 1))] *)
Definition flags_occupy (fl : list Z) (index : Z) : list Z :=
  fl.[Z.shiftr index 5 :=
      Z.lor (fl.[Z.shiftr index 5]) (u64 (Z.shiftl 1 (Z.shiftl (Z.land index 31) 1)))].

(** [occupationFlags[index >> 5] ^= (3ULL << ((index & 31) << 1))] *)
Definition flags_toggle (fl : list Z) (index : Z) : list Z :=
  fl.[Z.shiftr index 5 :=
      Z.lxor (fl.[Z.shiftr index 5]) (u64 (Z.shiftl 3 (Z.shiftl (Z.land index 31) 1)))].

(** The flag of one slot. *)
Definition flag_of (fl : list Z) (i : Z) : Z :=
  Z.land (Z.shiftr (fl.[Z.shiftr i 5]) (Z.shiftl (Z.land i 31) 1)) 3.

(** All words hold flags of existing slots only. *)
Record flags_ok (fl : list Z) : Prop := {
  fl_len : alen fl = flagWords;
  fl_word : forall q, 0 <= q < flagWords -> 0 <= fl.[q] < 2 ^ (2 * _nEncodedFlags) }.

(** *** Shape of the capacity *)

Lemma cap_shape :
  (L < 32 /\ _nEncodedFlags = L /\ flagWords = 1 /\ 1 <= L /\ (exists c, 32 = c * L)) \/
  (exists G, 1 <= G /\ L = 32 * G /\ _nEncodedFlags = 32 /\ flagWords = G).
Proof.
  unfold _nEncodedFlags, flagWords. destruct (decide (lg < 5)%nat) as [Hlg|Hlg].
  - left.
    destruct lg as [|[|[|[|[|?]]]]]; [..|lia]; (split; [done|]; split; [done|];
      split; [done|]; split; [done|]).
    + by exists 32.
    + by exists 16.
    + by exists 8.
    + by exists 4.
    + by exists 2.
  - right. exists (2 ^ (Z.of_nat lg - 5)).
    assert (L = 32 * 2 ^ (Z.of_nat lg - 5)) as HL.
    { change 32 with (2 ^ 5). rewrite <- Z.pow_add_r by lia. f_equal. lia. }
    assert (0 < 2 ^ (Z.of_nat lg - 5)) by (apply Z.pow_pos_nonneg; lia).
    rewrite HL. repeat split; [lia|..].
    + destruct (Z.ltb_spec 32 (32 * 2 ^ (Z.of_nat lg - 5))); lia.
    + Z.div_mod_to_equations. lia.
Qed.

Lemma nEnc_range : 1 <= _nEncodedFlags <= 32 /\ _nEncodedFlags <= L.
Proof. pose proof cap_shape. destruct H as [?|(G & ?)]; lia. Qed.

Lemma land31 i : Z.land i 31 = i mod 32.
Proof. apply (land_mask i 5). lia. Qed.

Lemma offset_eq i : Z.shiftl (Z.land i 31) 1 = 2 * (i mod 32).
Proof. rewrite land31, Z.shiftl_mul_pow2 by lia. lia. Qed.

Lemma word_eq i : Z.shiftr i 5 = i / 32.
Proof. apply (Z.shiftr_div_pow2 i 5). lia. Qed.

Lemma in_word i : in_table lg i -> 0 <= i / 32 < flagWords /\ 0 <= i mod 32 < _nEncodedFlags.
Proof.
  unfold in_table. intros. pose proof cap_shape as [?|(G & ?)]; Z.div_mod_to_equations; lia.
Qed.

Lemma flag_range fl i : 0 <= flag_of fl i < 4.
Proof. apply land3_range. Qed.

(** Word and position of the slot [j] steps after [i]. *)
Lemma slot_split i j :
  in_table lg i -> 0 <= j < _nEncodedFlags ->
  (i mod 32 + j < _nEncodedFlags /\ nth_slot lg i j / 32 = i / 32 /\
     nth_slot lg i j mod 32 = i mod 32 + j) \/
  (_nEncodedFlags <= i mod 32 + j /\
     nth_slot lg i j / 32 = Z.land (i + 32) (L - 1) / 32 /\
     nth_slot lg i j mod 32 = i mod 32 + j - _nEncodedFlags).
Proof.
  unfold in_table, nth_slot. intros Hi Hj. rewrite land_mask by lia.
  pose proof cap_shape as [(? & HE & HW & ? & c & Hc)|(G & ? & HL & HE & HW)].
  - assert ((i + 32) mod L = i) as ->.
    { rewrite Hc, Z_mod_plus_full. apply Z.mod_small. lia. }
    rewrite HE in *.
    rewrite (Z.mod_small i 32) by lia. rewrite (Z.div_small i 32) by lia.
    destruct (wrap_cases L (i + j)) as [[? ->]|[? ->]]; [lia|left|right];
      rewrite Z.mod_small, Z.div_small by lia; lia.
  - rewrite HE in *. rewrite HL in *.
    destruct (wrap_cases (32 * G) (i + j)) as [[? ->]|[? ->]]; [lia|..];
    destruct (wrap_cases (32 * G) (i + 32)) as [[? ->]|[? ->]]; try lia;
    Z.div_mod_to_equations; lia.
Qed.

(** The encoded flags of a group are the flags of the following slots. *)
Lemma encoded_flag fl i j :
  flags_ok fl -> in_table lg i -> 0 <= j < _nEncodedFlags ->
  Z.land (Z.shiftr (_getEncodedOccupationFlags fl i) (2 * j)) 3 = flag_of fl (nth_slot lg i j).
Proof.
  intros Hok Hi Hj. pose proof nEnc_range as HE.
  pose proof (in_word i Hi) as [Hw Hp].
  unfold flag_of, _getEncodedOccupationFlags. rewrite !word_eq, !offset_eq.
  pose proof (fl_word _ Hok (i / 32) Hw) as Hb1.
  assert (forall b, 0 <= b <= 1 ->
    Z.testbit (if 0 <? 2 * (i mod 32)
       then Z.lor (Z.shiftr (fl.[i / 32]) (2 * (i mod 32)))
           (u64 (Z.shiftl (fl.[Z.land (i + 32) (L - 1) / 32]) (2 * _nEncodedFlags - 2 * (i mod 32))))
       else Z.shiftr (fl.[i / 32]) (2 * (i mod 32))) (2 * j + b) =
    Z.testbit (fl.[nth_slot lg i j / 32]) (2 * (nth_slot lg i j mod 32) + b)) as Hbit.
  { intros b Hb. unfold u64.
    destruct (slot_split i j Hi Hj) as [(? & -> & ->)|(? & -> & ->)].
    - destruct (0 <? 2 * (i mod 32)); autorewrite with zbits.
      + rewrite (Z.testbit_neg_r _ (2 * j + b - _)) by lia.
        rewrite andb_false_r, orb_false_r. f_equal. lia.
      + f_equal. lia.
    - destruct (Z.ltb_spec 0 (2 * (i mod 32))) as [|]; [|lia]. autorewrite with zbits.
      rewrite (testbit_high _ _ (2 * j + b + 2 * (i mod 32)) Hb1) by lia.
      rewrite orb_false_l. destruct (Z.ltb_spec (2 * j + b) 64); [|lia].
      simpl. f_equal. lia. }
  apply land3_eq; rewrite !Z.shiftr_spec by lia; rewrite (Z.add_comm _ (2 * j)), (Z.add_comm _ (2 * (_ mod _)));
    apply Hbit; lia.
Qed.

(** *** Updates *)

Lemma flag_of_bits fl i :
  flag_of fl i = 2 * Z.b2z (Z.testbit (fl.[i / 32]) (2 * (i mod 32) + 1))
                 + Z.b2z (Z.testbit (fl.[i / 32]) (2 * (i mod 32))).
Proof.
  unfold flag_of. rewrite word_eq, offset_eq, land3_bits.
  pose proof (Z.mod_pos_bound i 32). rewrite !Z.shiftr_spec by lia.
  by rewrite (Z.add_comm 1), Z.add_0_l.
Qed.

Lemma two_bit_mask c p b :
  0 <= c < 4 -> 0 <= p < 32 -> 0 <= b ->
  Z.testbit (u64 (Z.shiftl c (2 * p))) b =
    (bool_decide (b = 2 * p) && Z.testbit c 0) || (bool_decide (b = 2 * p + 1) && Z.testbit c 1).
Proof.
  intros Hc Hp Hb. unfold u64. autorewrite with zbits.
  destruct (decide (b = 2 * p)) as [->|].
  { rewrite (bool_decide_true (2 * p = 2 * p)), bool_decide_false by lia. rewrite Z.sub_diag.
    rewrite (proj2 (Z.ltb_lt _ _)) by lia. simpl. by rewrite orb_false_r. }
  destruct (decide (b = 2 * p + 1)) as [->|].
  { rewrite (bool_decide_false (_ = 2 * p)), (bool_decide_true (_ = _)) by lia.
    rewrite (proj2 (Z.ltb_lt _ _)) by lia.
    by replace (2 * p + 1 - 2 * p) with 1 by lia. }
  rewrite !bool_decide_false by lia. simpl.
  destruct (Z.lt_ge_cases (b - 2 * p) 0).
  - rewrite Z.testbit_neg_r by lia. by rewrite andb_false_r.
  - rewrite (testbit_high c 2) by lia. by rewrite andb_false_r.
Qed.

(** A word update that combines the two bits of slot [i] with a constant [c] through
    a bitwise operation [op] that keeps bits combined with 0. *)
Section update.
Variables (op : Z -> Z -> Z) (bop : bool -> bool -> bool).
Hypothesis op_spec : forall x y n, Z.testbit (op x y) n = bop (Z.testbit x n) (Z.testbit y n).
Hypothesis bop_false : forall b, bop b false = b.
Hypothesis op_nonneg : forall x y, 0 <= x -> 0 <= y -> 0 <= op x y.

Definition flags_update (fl : list Z) (c i : Z) : list Z :=
  fl.[Z.shiftr i 5 := op (fl.[Z.shiftr i 5]) (u64 (Z.shiftl c (Z.shiftl (Z.land i 31) 1)))].

Lemma flags_update_ok fl c i :
  0 <= c < 4 -> flags_ok fl -> in_table lg i -> flags_ok (flags_update fl c i).
Proof.
  intros Hc Hok Hi. pose proof (in_word i Hi) as [Hw Hp]. pose proof nEnc_range.
  unfold flags_update. rewrite word_eq, offset_eq. split.
  - rewrite alen_aset. apply Hok.
  - intros q Hq. destruct (decide (i / 32 = q)) as [<-|].
    + rewrite aget_aset_eq by (rewrite (fl_len _ Hok); lia).
      pose proof (fl_word _ Hok _ Hw) as Hb.
      assert (0 <= op (fl.[i / 32]) (u64 (Z.shiftl c (2 * (i mod 32))))).
      { apply op_nonneg; [lia|]. apply u64_range. }
      split; [done|]. apply testbit_bound; [lia|done|].
      intros b Hb'. rewrite op_spec, two_bit_mask by lia.
      rewrite !bool_decide_false by lia. simpl. rewrite bop_false.
      by apply (testbit_high _ _ _ Hb).
    + rewrite aget_aset_ne by done. by apply Hok.
Qed.

Lemma flags_update_other fl c i i' :
  0 <= c < 4 -> flags_ok fl -> in_table lg i -> in_table lg i' -> i <> i' ->
  flag_of (flags_update fl c i) i' = flag_of fl i'.
Proof.
  intros Hc Hok Hi Hi' Hne. pose proof (in_word i Hi) as [Hw Hp]. pose proof nEnc_range.
  pose proof (in_word i' Hi') as [Hw' Hp'].
  rewrite !flag_of_bits. unfold flags_update. rewrite word_eq, offset_eq.
  destruct (decide (i / 32 = i' / 32)) as [He|].
  - rewrite <- He. rewrite aget_aset_eq by (rewrite (fl_len _ Hok); lia).
    assert (i mod 32 <> i' mod 32) by (Z.div_mod_to_equations; lia).
    rewrite !op_spec, !two_bit_mask by lia.
    rewrite !bool_decide_false by lia. simpl. by rewrite !bop_false.
  - by rewrite aget_aset_ne.
Qed.

Lemma flags_update_same fl c i :
  0 <= c < 4 -> flags_ok fl -> in_table lg i ->
  flag_of (flags_update fl c i) i =
    2 * Z.b2z (bop (Z.testbit (flag_of fl i) 1) (Z.testbit c 1))
    + Z.b2z (bop (Z.testbit (flag_of fl i) 0) (Z.testbit c 0)).
Proof.
  intros Hc Hok Hi. pose proof (in_word i Hi) as [Hw Hp]. pose proof nEnc_range.
  rewrite !flag_of_bits. unfold flags_update. rewrite word_eq, offset_eq.
  rewrite aget_aset_eq by (rewrite (fl_len _ Hok); lia).
  rewrite !op_spec, !two_bit_mask by lia.
  repeat case_bool_decide; try lia. simpl. rewrite orb_false_r. f_equal; [f_equal|]; f_equal; f_equal;
    by do 2 destruct (Z.testbit (fl.[i / 32]) _).
Qed.
End update.

Lemma flags_occupy_ok fl i : flags_ok fl -> in_table lg i -> flags_ok (flags_occupy fl i).
Proof.
  apply (flags_update_ok Z.lor orb Z.lor_spec orb_false_r); [|lia].
  intros. by apply Z.lor_nonneg.
Qed.

Lemma flags_occupy_other fl i i' :
  flags_ok fl -> in_table lg i -> in_table lg i' -> i <> i' ->
  flag_of (flags_occupy fl i) i' = flag_of fl i'.
Proof. apply (flags_update_other Z.lor orb Z.lor_spec orb_false_r). lia. Qed.

(** [|= 1] makes an unoccupied slot occupied. *)
Lemma flags_occupy_same fl i :
  flags_ok fl -> in_table lg i -> flag_of fl i = 0 -> flag_of (flags_occupy fl i) i = 1.
Proof.
  intros Hok Hi H0.
  etrans; [apply (flags_update_same Z.lor orb Z.lor_spec fl 1 i); (done || lia)|].
  by rewrite H0.
Qed.

Lemma flags_toggle_ok fl i : flags_ok fl -> in_table lg i -> flags_ok (flags_toggle fl i).
Proof.
  apply (flags_update_ok Z.lxor xorb Z.lxor_spec xorb_false_r); [|lia].
  intros. apply Z.lxor_nonneg. lia.
Qed.

Lemma flags_toggle_other fl i i' :
  flags_ok fl -> in_table lg i -> in_table lg i' -> i <> i' ->
  flag_of (flags_toggle fl i) i' = flag_of fl i'.
Proof. apply (flags_update_other Z.lxor xorb Z.lxor_spec xorb_false_r). lia. Qed.

(** [^= 3] turns "occupied" into "marked for removal" and back. *)
Lemma flags_toggle_same fl i :
  flags_ok fl -> in_table lg i -> flag_of (flags_toggle fl i) i = 3 - flag_of fl i.
Proof.
  intros Hok Hi.
  etrans; [apply (flags_update_same Z.lxor xorb Z.lxor_spec fl 3 i); (done || lia)|].
  pose proof (flag_range fl i) as Hr.
  assert (flag_of fl i = 0 \/ flag_of fl i = 1 \/ flag_of fl i = 2 \/ flag_of fl i = 3)
    as [-> | [-> | [-> | ->]]] by lia; done.
Qed.

Definition flags_zero : list Z := replicate (Z.to_nat flagWords) 0.

Lemma flags_zero_ok : flags_ok flags_zero.
Proof.
  pose proof cap_shape. assert (1 <= flagWords) by (destruct H as [?|(?&?)]; lia).
  split; unfold flags_zero.
  - rewrite alen_replicate. lia.
  - intros. rewrite aget_replicate by lia. pose proof nEnc_range.
    split; [done|]. apply Z.pow_pos_nonneg; lia.
Qed.

Lemma flags_zero_flag i : in_table lg i -> flag_of flags_zero i = 0.
Proof.
  intros Hi. pose proof (in_word i Hi). unfold flag_of, flags_zero.
  rewrite word_eq, aget_replicate by lia. by rewrite Z.shiftr_0_l.
Qed.

(** *** The scanning loop nest

    [for (counter = 0; counter < L; counter += 32) { flags = encoded flags at index;
    for (i = 0; i < _nEncodedFlags; i++, flags >>= 2) { body; index = (index + 1) & (L - 1); } }]
    where [body] looks at [flags & 3] and either leaves the loops with a result or goes
    on with an updated accumulator. *)
Section scan.
Context {A R : Type} (body : Z -> Z -> A -> R + A).

Fixpoint scan_group (n : nat) (flags index : Z) (a : A) : R + (Z * A) :=
  match n with
  | O => inr (index, a)
  | S n' =>
      match body (Z.land flags 3) index a with
      | inl r => inl r
      | inr a' => scan_group n' (Z.shiftr flags 2) (Z.land (index + 1) (L - 1)) a'
      end
  end.

Fixpoint scan_groups (c : nat) (fl : list Z) (index : Z) (a : A) : R + A :=
  match c with
  | O => inr a
  | S c' =>
      match scan_group (Z.to_nat _nEncodedFlags) (_getEncodedOccupationFlags fl index) index a with
      | inl r => inl r
      | inr (index', a') => scan_groups c' fl index' a'
      end
  end.

Definition scan_flags (fl : list Z) (index : Z) (a : A) : R + A :=
  scan_groups (Z.to_nat ((L + 31) / 32)) fl index a.

(** The same walk, one slot at a time. *)
Fixpoint walk (fl : list Z) (n : nat) (index : Z) (a : A) : R + A :=
  match n with
  | O => inr a
  | S n' =>
      match body (flag_of fl index) index a with
      | inl r => inl r
      | inr a' => walk fl n' (Z.land (index + 1) (L - 1)) a'
      end
  end.

Lemma walk_app fl n m index a :
  in_table lg index ->
  walk fl (n + m) index a =
    match walk fl n index a with
    | inl r => inl r
    | inr a' => walk fl m (nth_slot lg index (Z.of_nat n)) a'
    end.
Proof.
  revert index a. induction n as [|n IH]; intros index a Hi; simpl.
  - by rewrite nth_slot_0.
  - destruct (body (flag_of fl index) index a); [done|].
    rewrite IH by apply land_in_table. rewrite nth_slot_next.
    by replace (Z.of_nat n + 1) with (Z.of_nat (S n)) by lia.
Qed.

Lemma scan_group_walk fl n index a flags :
  in_table lg index ->
  (forall j, 0 <= j < Z.of_nat n ->
     Z.land (Z.shiftr flags (2 * j)) 3 = flag_of fl (nth_slot lg index j)) ->
  scan_group n flags index a =
    match walk fl n index a with
    | inl r => inl r
    | inr a' => inr (nth_slot lg index (Z.of_nat n), a')
    end.
Proof.
  revert index a flags. induction n as [|n IH]; intros index a flags Hi Hfl; simpl.
  - by rewrite nth_slot_0.
  - pose proof (Hfl 0 ltac:(lia)) as H0. rewrite nth_slot_0 in H0 by done.
    change (2 * 0) with 0 in H0. rewrite Z.shiftr_0_r in H0. rewrite H0.
    destruct (body (flag_of fl index) index a); [done|].
    rewrite IH; [|apply land_in_table|].
    + rewrite nth_slot_next. by replace (Z.of_nat n + 1) with (Z.of_nat (S n)) by lia.
    + intros j Hj. rewrite nth_slot_next, <- Hfl by lia.
      rewrite Z.shiftr_shiftr by lia. do 2 f_equal. lia.
Qed.

Lemma scan_groups_walk fl c index a :
  flags_ok fl -> in_table lg index ->
  scan_groups c fl index a = walk fl (c * Z.to_nat _nEncodedFlags) index a.
Proof.
  intros Hok. revert index a. induction c as [|c IH]; intros index a Hi; simpl; [done|].
  pose proof nEnc_range.
  rewrite walk_app by done. rewrite (scan_group_walk fl) by
    (done || (intros; apply encoded_flag; (done || lia))).
  destruct (walk fl (Z.to_nat _nEncodedFlags) index a); [done|].
  apply IH, nth_slot_in.
Qed.

(** The loop nest visits each of the [L] slots once, starting at [index]. *)
Lemma scan_flags_walk fl index a :
  flags_ok fl -> in_table lg index ->
  scan_flags fl index a = walk fl (Z.to_nat L) index a.
Proof.
  intros. unfold scan_flags. rewrite scan_groups_walk by done. f_equal.
  pose proof cap_shape as [?|(G & ?)].
  - replace ((L + 31) / 32) with 1 by (Z.div_mod_to_equations; lia). lia.
  - replace ((L + 31) / 32) with G by (Z.div_mod_to_equations; lia). lia.
Qed.

(** Invariant rule for the scan. *)
Lemma scan_flags_inv fl h a0 (P : Z -> A -> Prop) (Q : R -> Prop) :
  flags_ok fl -> in_table lg h -> P 0 a0 ->
  (forall j a, 0 <= j < L -> P j a ->
     match body (flag_of fl (nth_slot lg h j)) (nth_slot lg h j) a with
     | inl r => Q r
     | inr a' => P (j + 1) a'
     end) ->
  match scan_flags fl h a0 with
  | inl r => Q r
  | inr a => P L a
  end.
Proof.
  intros Hok Hh H0 Hstep. rewrite scan_flags_walk by done.
  pose proof (cap_pos lg) as Hcap.
  assert (forall n j a, 0 <= j -> j + Z.of_nat n <= L -> P j a ->
    match walk fl n (nth_slot lg h j) a with inl r => Q r | inr a' => P (j + Z.of_nat n) a' end) as Hgen.
  { induction n as [|n IH]; intros j a Hj Hn HP; simpl; [by rewrite Z.add_0_r|].
    specialize (Hstep j a ltac:(lia) HP).
    destruct (body _ _ a) as [r|a']; [done|].
    rewrite nth_slot_succ.
    replace (j + Z.of_nat (S n)) with ((j + 1) + Z.of_nat n) by lia.
    apply IH; [lia..|done]. }
  specialize (Hgen (Z.to_nat L) 0 a0 ltac:(lia) ltac:(lia) H0).
  rewrite nth_slot_0 in Hgen by done.
  by replace (0 + Z.of_nat (Z.to_nat L)) with L in Hgen by lia.
Qed.
End scan.
End flags.

(** Two scans whose bodies differ only in the result type give related results. *)
Section scan_map.
Context {R1 R2 A : Type} (f : R1 -> R2) (lg : nat).
Variables (b1 : Z -> Z -> A -> R1 + A) (b2 : Z -> Z -> A -> R2 + A).
Hypothesis Hb : forall flag i a,
  b2 flag i a = match b1 flag i a with inl r => inl (f r) | inr a' => inr a' end.

Lemma scan_group_map n flags i a :
  scan_group lg b2 n flags i a =
    match scan_group lg b1 n flags i a with inl r => inl (f r) | inr x => inr x end.
Proof.
  revert flags i a. induction n as [|n IH]; intros; simpl; [done|].
  rewrite Hb. destruct (b1 _ _ a); [done|]. apply IH.
Qed.

Lemma scan_flags_map fl i a :
  scan_flags lg b2 fl i a =
    match scan_flags lg b1 fl i a with inl r => inl (f r) | inr x => inr x end.
Proof.
  unfold scan_flags. generalize (Z.to_nat ((2 ^ Z.of_nat lg + 31) / 32)) as c.
  revert i a. intros i a c. revert i a. induction c as [|c IH]; intros; simpl; [done|].
  rewrite scan_group_map. destruct (scan_group lg b1 _ _ _ _) as [r|[i' a']]; [done|]. apply IH.
Qed.
End scan_map.
