(* ===== verification/OccupiedSlots.v ===== *)
(** * Iterating over the occupied slots of a QPI container

    [cleanup] of [HashMap], [HashSet] and [Collection] goes through the occupation flags word by word, picks the
    occupied slots with bit tricks, and searches an unoccupied slot in a second set of flags
    for each.  This file models the two loop nests and gives them a rule: the slots are
    visited in the order of their index, the unoccupied and the marked ones are skipped. *)
From S2P Require Import Prelude OpenAddressing OccupationFlags.

(** [0xAAAAAAAAAAAAAAAA]: the upper bit of every flag. *)
Definition ODD_BITS : Z := 0xAAAAAAAAAAAAAAAA.

Definition cleanup_mask (flags : Z) : Z :=
  let maskBits := Z.land ODD_BITS (u64 (Z.shiftl flags 1)) in
  Z.land maskBits (Z.lxor maskBits (Z.land flags ODD_BITS)).

Section occupied.
Variable lg : nat.
Abbreviation L := (2 ^ Z.of_nat lg).

(** Search of an empty position in the new flags. *)
Fixpoint cleanup_find_group (n : nat) (i newFlags newIndex : Z) : option Z :=
  match n with
  | O => None
  | S n' =>
      if Z.land newFlags 3 =? 0 then Some (Z.land (newIndex + i) (L - 1))
      else cleanup_find_group n' (i + 1) (Z.shiftr newFlags 2) newIndex
  end.

Fixpoint cleanup_find (c : nat) (fl : list Z) (newIndex : Z) : option Z :=
  match c with
  | O => None
  | S c' =>
      match cleanup_find_group (Z.to_nat (_nEncodedFlags lg)) 0
              (_getEncodedOccupationFlags lg fl newIndex) newIndex with
      | Some r => Some r
      | None => cleanup_find c' fl (Z.land (newIndex + _nEncodedFlags lg) (L - 1))
      end
  end.

Definition oldIndexGroupCount : Z := if Z.shiftr L 5 =? 0 then 1 else Z.shiftr L 5.

Section loops.
(** [move] is run for each occupied slot and may leave the loops with a result. *)
Context {A R : Type} (move : Z -> A -> R + A) (fl : list Z).

Fixpoint occupied_bits (n : nat) (oldIndexGroup maskBits oldIndexOffset : Z) (st : A) : R + A :=
  match n with
  | O => inr st
  | S n' =>
      match (if negb (Z.land maskBits 3 =? 0)
             then move (Z.shiftl oldIndexGroup 5 + Z.shiftr oldIndexOffset 1) st
             else inr st) with
      | inl r => inl r
      | inr st' => occupied_bits n' oldIndexGroup (Z.shiftr maskBits 2) (oldIndexOffset + 2) st'
      end
  end.

Definition occupied_group (oldIndexGroup : Z) (st : A) : R + A :=
  let maskBits := cleanup_mask (fl.[oldIndexGroup]) in
  let oldIndexOffset := Z.land (tzcnt_u64 maskBits) 0xFE in
  let oldIndexOffsetEnd := 64 - Z.land (lzcnt_u64 maskBits) 0xFE in
  occupied_bits (Z.to_nat ((oldIndexOffsetEnd - oldIndexOffset + 1) / 2)) oldIndexGroup
    (Z.shiftr maskBits oldIndexOffset) oldIndexOffset st.

Fixpoint occupied_groups (n : nat) (oldIndexGroup : Z) (st : A) : R + A :=
  match n with
  | O => inr st
  | S n' =>
      match occupied_group oldIndexGroup st with
      | inl r => inl r
      | inr st' => occupied_groups n' (oldIndexGroup + 1) st'
      end
  end.

Definition for_occupied (st : A) : R + A := occupied_groups (Z.to_nat oldIndexGroupCount) 0 st.
End loops.

Lemma land_even x : 0 <= x < 256 -> Z.land x 0xFE = 2 * (x / 2).
Proof.
  intros Hx.
  assert (forallb (fun y => Z.land y 0xFE =? 2 * (y / 2)) (seqZ 0 256) = true) as Hall by done.
  rewrite forallb_forall in Hall. specialize (Hall x).
  rewrite <- list_elem_of_In, elem_of_seqZ in Hall. apply Z.eqb_eq, Hall. lia.
Qed.

Lemma ODD_BITS_bits p :
  0 <= p < 32 -> Z.testbit ODD_BITS (2 * p + 1) = true /\ Z.testbit ODD_BITS (2 * p) = false.
Proof.
  intros Hp.
  assert (forallb (fun q => Z.testbit ODD_BITS (2 * q + 1) && negb (Z.testbit ODD_BITS (2 * q)))
            (seqZ 0 32) = true) as Hall by done.
  rewrite forallb_forall in Hall. specialize (Hall p).
  rewrite <- list_elem_of_In, elem_of_seqZ in Hall.
  specialize (Hall ltac:(lia)). apply andb_true_iff in Hall as [? ?%negb_true_iff]. done.
Qed.

(** Bit [2p+1] of the mask tells whether flag [p] is "occupied". *)
Lemma cleanup_mask_bits w p :
  is_u64 w -> 0 <= p < 32 ->
  Z.testbit (cleanup_mask w) (2 * p) = false /\
  Z.testbit (cleanup_mask w) (2 * p + 1) =
    (Z.testbit w (2 * p) && negb (Z.testbit w (2 * p + 1))).
Proof.
  intros Hw Hp. destruct (ODD_BITS_bits p Hp) as [H1 H0]. unfold cleanup_mask, u64.
  rewrite !Z.land_spec, !Z.lxor_spec, !Z.land_spec, H0, H1. split; [done|].
  rewrite testbit_mod_pow2, Z.shiftl_spec by lia.
  rewrite (proj2 (Z.ltb_lt (2 * p + 1) 64)) by lia.
  replace (2 * p + 1 - 1) with (2 * p) by lia.
  by destruct (Z.testbit w (2 * p)), (Z.testbit w (2 * p + 1)).
Qed.

Lemma cleanup_mask_u64 w : is_u64 w -> is_u64 (cleanup_mask w).
Proof.
  unfold is_u64. intros Hw.
  assert (0 <= cleanup_mask w) as Hn.
  { unfold cleanup_mask. apply Z.land_nonneg. left. apply Z.land_nonneg. by left. }
  split; [done|]. apply testbit_bound; [lia|done|]. intros i Hi.
  unfold cleanup_mask. rewrite !Z.land_spec.
  by rewrite (testbit_high ODD_BITS 64 i) by (unfold ODD_BITS; lia).
Qed.

Lemma word_u64 fl q : flags_ok lg fl -> 0 <= q < flagWords lg -> is_u64 (fl.[q]).
Proof.
  intros Hfl Hq. pose proof (fl_word _ _ Hfl q Hq). pose proof (nEnc_range lg).
  assert (2 ^ (2 * _nEncodedFlags lg) <= 2 ^ 64) by (apply Z.pow_le_mono_r; lia).
  unfold is_u64. lia.
Qed.

(** The mask bit of position [p] in group [g] selects the occupied slots. *)
Lemma cleanup_mask_flag fl g p :
  flags_ok lg fl -> 0 <= g < flagWords lg -> 0 <= p < 32 ->
  Z.testbit (cleanup_mask (fl.[g])) (2 * p + 1) = true <->
  in_table lg (32 * g + p) /\ flag_of fl (32 * g + p) = 1.
Proof.
  intros Hfl Hg Hp. rewrite (proj2 (cleanup_mask_bits _ p (word_u64 fl g Hfl Hg) Hp)).
  rewrite flag_of_bits.
  replace ((32 * g + p) / 32) with g by (Z.div_mod_to_equations; lia).
  replace ((32 * g + p) mod 32) with p by (Z.div_mod_to_equations; lia).
  pose proof (fl_word _ _ Hfl g Hg) as Hw. split.
  - destruct (Z.testbit (fl.[g]) (2 * p)) eqn:Hb, (Z.testbit (fl.[g]) (2 * p + 1)); try done.
    intros _. split; [|done].
    assert (p < _nEncodedFlags lg).
    { destruct (Z.lt_ge_cases p (_nEncodedFlags lg)); [done|].
      rewrite (testbit_high _ _ (2 * p) Hw) in Hb by lia. done. }
    unfold in_table. pose proof (cap_shape lg) as [?|(G & ?)]; lia.
  - intros [_ ?]. by destruct (Z.testbit (fl.[g]) (2 * p)), (Z.testbit (fl.[g]) (2 * p + 1)).
Qed.

(** The search of [cleanup] is the scan for an unoccupied slot. *)
Definition find_body (flag index : Z) (_ : unit) : Z + unit :=
  if flag =? 0 then inl index else inr tt.

Lemma cleanup_find_group_scan n i flags index :
  cleanup_find_group n i flags index =
    match scan_group lg find_body n flags (nth_slot lg index i) tt with
    | inl r => Some r
    | inr _ => None
    end.
Proof.
  revert i flags. induction n as [|n IH]; intros i flags; simpl; [done|].
  unfold find_body at 1. destruct (Z.land flags 3 =? 0).
  - by rewrite land_mask by lia.
  - by rewrite IH, nth_slot_succ.
Qed.

Lemma scan_group_index n flags index a i' a' :
  in_table lg index -> scan_group lg find_body n flags index a = inr (i', a') ->
  i' = nth_slot lg index (Z.of_nat n).
Proof.
  revert flags index a. induction n as [|n IH]; intros flags index a Hi; simpl.
  - intros [= <- _]. by rewrite nth_slot_0.
  - destruct (find_body _ index a) as [|a'']; [done|]. intros ->%IH; [|apply land_in_table].
    rewrite nth_slot_next. f_equal. lia.
Qed.

Lemma cleanup_find_scan c fl index :
  in_table lg index ->
  cleanup_find c fl index =
    match scan_groups lg find_body c fl index tt with inl r => Some r | inr _ => None end.
Proof.
  revert index. induction c as [|c IH]; intros index Hi; simpl; [done|].
  rewrite cleanup_find_group_scan, nth_slot_0 by done.
  destruct (scan_group lg find_body _ _ index tt) as [r|[i' []]] eqn:Hs; [done|].
  apply scan_group_index in Hs; [|done]. subst i'.
  rewrite IH by apply land_in_table. rewrite land_mask by lia.
  pose proof (nEnc_range lg). by rewrite Z2Nat.id by lia.
Qed.

Lemma cleanup_find_spec fl h :
  flags_ok lg fl -> in_table lg h ->
  match cleanup_find (Z.to_nat ((L + 31) / 32)) fl h with
  | Some r => exists j, 0 <= j < L /\ r = nth_slot lg h j /\ flag_of fl r = 0 /\
                forall j', 0 <= j' < j -> flag_of fl (nth_slot lg h j') <> 0
  | None => forall i, in_table lg i -> flag_of fl i <> 0
  end.
Proof.
  intros Hfl Hh. rewrite cleanup_find_scan by done.
  set (P := fun (j : Z) (_ : unit) =>
    forall j', 0 <= j' < j -> flag_of fl (nth_slot lg h j') <> 0).
  set (Q := fun r => exists j, 0 <= j < L /\ r = nth_slot lg h j /\ flag_of fl r = 0 /\
                forall j', 0 <= j' < j -> flag_of fl (nth_slot lg h j') <> 0).
  assert (match scan_flags lg find_body fl h tt with inl r => Q r | inr a => P L a end) as Hs.
  { apply scan_flags_inv; [done..|intros ??; lia|]. intros j [] Hj Hpre. unfold find_body.
    destruct (Z.eqb_spec (flag_of fl (nth_slot lg h j)) 0) as [H0|H0]; [by exists j|].
    intros j' ?. destruct (decide (j' = j)) as [->|]; [done|]. apply Hpre. lia. }
  unfold scan_flags in Hs. destruct (scan_groups _ _ _ _ _ _) as [r|[]]; [done|].
  intros i Hi. rewrite <- (nth_slot_steps lg h i Hi). apply Hs, steps_range.
Qed.

(** Invariant rule for the loops: [P i st] holds before slot [i] is
    considered, and only occupied slots run [move]. *)
Section occupied_rule.
Context {A R : Type} (move : Z -> A -> R + A) (fl : list Z) (P : Z -> A -> Prop) (Q : R -> Prop).
Hypothesis Hfl : flags_ok lg fl.
Hypothesis Hskip : forall i st, in_table lg i -> flag_of fl i <> 1 ->
  P i st -> P (i + 1) st.
Hypothesis Hmove : forall i st, in_table lg i -> flag_of fl i = 1 -> P i st ->
  match move i st with inl r => Q r | inr st' => P (i + 1) st' end.

(** Positions behind the last slot (for [L < 32]) are clipped. *)
Definition clip (i : Z) (st : A) : Prop := P (Z.min i L) st.

Lemma clip_step g p st :
  0 <= g < flagWords lg -> 0 <= p < 32 ->
  Z.testbit (cleanup_mask (fl.[g])) (2 * p + 1) = false ->
  clip (32 * g + p) st -> clip (32 * g + p + 1) st.
Proof.
  intros Hg Hp Hb. unfold clip. pose proof (cleanup_mask_flag _ g p Hfl Hg Hp) as Hm.
  destruct (Z.lt_ge_cases (32 * g + p) L) as [Hlt|Hge].
  - rewrite !Z.min_l by lia. apply Hskip; [unfold in_table; lia|].
    intros Hf. rewrite (proj2 Hm) in Hb; [done|]. split; [unfold in_table; lia|done].
  - by rewrite !Z.min_r by lia.
Qed.

Lemma clip_skip g a n st :
  0 <= g < flagWords lg -> 0 <= a -> a + Z.of_nat n <= 32 ->
  (forall p, a <= p < a + Z.of_nat n ->
     Z.testbit (cleanup_mask (fl.[g])) (2 * p + 1) = false) ->
  clip (32 * g + a) st -> clip (32 * g + (a + Z.of_nat n)) st.
Proof.
  intros Hg. revert a. induction n as [|n IH]; intros a Ha Hn Hb Hc.
  - by rewrite Z.add_0_r.
  - replace (a + Z.of_nat (S n)) with ((a + 1) + Z.of_nat n) by lia.
    apply IH; [lia..| |].
    + intros p ?. apply Hb. lia.
    + rewrite Z.add_assoc. apply clip_step; [done|lia|apply Hb; lia|done].
Qed.

Lemma occupied_bits_rule g n a st :
  0 <= g < flagWords lg -> 0 <= a -> a + Z.of_nat n <= 32 -> clip (32 * g + a) st ->
  match occupied_bits move n g
          (Z.shiftr (cleanup_mask (fl.[g])) (2 * a)) (2 * a) st with
  | inl r => Q r
  | inr st' => clip (32 * g + (a + Z.of_nat n)) st'
  end.
Proof.
  intros Hg. revert a st. induction n as [|n IH]; intros a st Ha Hn Hc; simpl.
  { by rewrite Z.add_0_r. }
  set (w := fl.[g]) in *.
  pose proof (word_u64 _ g Hfl Hg) as Hw. fold w in Hw.
  destruct (cleanup_mask_bits w a Hw ltac:(lia)) as [Hb0 _].
  rewrite land3_bits, !Z.shiftr_spec, Z.add_0_l, (Z.add_comm 1), Hb0 by lia.
  pose proof (cleanup_mask_flag _ g a Hfl Hg ltac:(lia)) as Hm. fold w in Hm.
  assert (forall st', clip (32 * g + (a + 1)) st' ->
    match occupied_bits move n g
        (Z.shiftr (Z.shiftr (cleanup_mask w) (2 * a)) 2) (2 * a + 2) st' with
    | inl r => Q r | inr st'' => clip (32 * g + (a + Z.of_nat (S n))) st'' end) as Hrest.
  { intros st' Hc'. rewrite Z.shiftr_shiftr by lia.
    replace (2 * a + 2) with (2 * (a + 1)) by lia.
    replace (a + Z.of_nat (S n)) with (a + 1 + Z.of_nat n) by lia.
    apply IH; [lia..|done]. }
  destruct (Z.testbit (cleanup_mask w) (2 * a + 1)) eqn:Hb; simpl.
  - destruct (proj1 Hm eq_refl) as [Hi Hf].
    replace (Z.shiftl g 5 + Z.shiftr (2 * a) 1) with (32 * g + a).
    2:{ rewrite Z.shiftl_mul_pow2, Z.shiftr_div_pow2 by lia. Z.div_mod_to_equations; lia. }
    specialize (Hmove (32 * g + a) st Hi Hf). unfold clip in Hc. unfold in_table in Hi.
    rewrite Z.min_l in Hc by lia. specialize (Hmove Hc).
    destruct (move (32 * g + a) st) as [r|st']; [done|]. apply Hrest.
    unfold clip. rewrite Z.min_l by lia. by rewrite Z.add_assoc.
  - apply Hrest. rewrite Z.add_assoc. apply clip_step; [done|lia|done..].
Qed.

Lemma occupied_group_rule g st :
  0 <= g < flagWords lg -> clip (32 * g) st ->
  match occupied_group move fl g st with
  | inl r => Q r
  | inr st' => clip (32 * (g + 1)) st'
  end.
Proof.
  intros Hg Hc. unfold occupied_group. set (w := fl.[g]).
  pose proof (cleanup_mask_u64 w (word_u64 _ g Hfl Hg)) as Hu.
  pose proof (tzcnt_range (cleanup_mask w)) as Ht.
  pose proof (lzcnt_range (cleanup_mask w) Hu) as Hl.
  rewrite !land_even by lia.
  set (a := tzcnt_u64 (cleanup_mask w) / 2). set (b := lzcnt_u64 (cleanup_mask w) / 2).
  assert (0 <= a <= 32 /\ 0 <= b <= 32 /\ 2 * a <= tzcnt_u64 (cleanup_mask w) /\
          2 * b <= lzcnt_u64 (cleanup_mask w)) as (? & ? & ? & ?)
    by (unfold a, b; Z.div_mod_to_equations; lia).
  set (n := Z.to_nat ((64 - 2 * b - 2 * a + 1) / 2)).
  assert (Z.of_nat n = Z.max 0 (32 - b - a)) as Hn
    by (unfold n; Z.div_mod_to_equations; lia).
  assert (clip (32 * g + a) st) as Hc1.
  { replace a with (0 + Z.of_nat (Z.to_nat a)) by lia.
    apply clip_skip; [done|lia..| |by rewrite Z.add_0_r].
    intros p ?. apply tzcnt_low. fold w. lia. }
  pose proof (occupied_bits_rule g n a st Hg ltac:(lia) ltac:(lia) Hc1) as Hbits. fold w in Hbits.
  destruct (occupied_bits _ n _ _ _ _) as [r|st']; [done|].
  replace (32 * (g + 1)) with (32 * g + (a + Z.of_nat n + Z.of_nat (Z.to_nat (32 - (a + Z.of_nat n))))) by lia.
  apply clip_skip; [done|lia..| |done].
  intros p ?. fold w. apply lzcnt_high; [done|]. lia.
Qed.

Lemma occupied_groups_rule n g st :
  0 <= g -> g + Z.of_nat n = flagWords lg -> clip (32 * g) st ->
  match occupied_groups move fl n g st with
  | inl r => Q r
  | inr st' => clip (32 * flagWords lg) st'
  end.
Proof.
  revert g st. induction n as [|n IH]; intros g st Hg Hn Hc; simpl.
  { by replace (flagWords lg) with g by lia. }
  pose proof (occupied_group_rule g st ltac:(lia) Hc) as Hgr.
  destruct (occupied_group _ _ _ _) as [r|st']; [done|]. apply IH; [lia..|done].
Qed.

Lemma groupCount_words : oldIndexGroupCount = flagWords lg.
Proof.
  unfold oldIndexGroupCount. rewrite Z.shiftr_div_pow2 by lia. change (2 ^ 5) with 32.
  pose proof (cap_shape lg) as [(? & ? & ? & ? & _)|(G & ? & HL & ? & HW)].
  - rewrite Z.div_small by lia. simpl. lia.
  - rewrite HL, Z.mul_comm, Z.div_mul by lia. rewrite (proj2 (Z.eqb_neq _ _)) by lia. lia.
Qed.

Lemma for_occupied_rule st :
  P 0 st -> match for_occupied move fl st with inl r => Q r | inr st' => P L st' end.
Proof.
  intros H0. pose proof (nEnc_range lg). pose proof (cap_shape lg) as Hshape.
  assert (1 <= flagWords lg /\ L <= 32 * flagWords lg) as [? ?] by (destruct Hshape as [?|(?&?)]; lia).
  unfold for_occupied. rewrite groupCount_words.
  pose proof (occupied_groups_rule (Z.to_nat (flagWords lg)) 0 st ltac:(lia) ltac:(lia)) as Hrule.
  unfold clip in Hrule. rewrite (Z.min_r (32 * flagWords lg)) in Hrule by lia. apply Hrule.
  by replace (Z.min (32 * 0) L) with 0 by (pose proof (cap_pos lg); lia).
Qed.
End occupied_rule.
End occupied.

(** Two loops whose bodies are related by a map on results and states. *)
Section occupied_map.
Context {A1 A2 R1 R2 : Type} (lift : A1 -> A2) (res : R1 -> R2) (lg : nat).
Variables (b1 : Z -> A1 -> R1 + A1) (b2 : Z -> A2 -> R2 + A2).
Hypothesis Hb : forall i a,
  b2 i (lift a) = match b1 i a with inl r => inl (res r) | inr a' => inr (lift a') end.

Lemma occupied_bits_map n g mask off a :
  occupied_bits b2 n g mask off (lift a) =
    match occupied_bits b1 n g mask off a with inl r => inl (res r) | inr a' => inr (lift a') end.
Proof.
  revert mask off a. induction n as [|n IH]; intros; simpl; [done|].
  destruct (negb _); [|apply IH]. rewrite Hb. destruct (b1 _ a); [done|]. apply IH.
Qed.

Lemma for_occupied_map fl a :
  for_occupied lg b2 fl (lift a) =
    match for_occupied lg b1 fl a with inl r => inl (res r) | inr a' => inr (lift a') end.
Proof.
  unfold for_occupied. generalize (Z.to_nat (oldIndexGroupCount lg)) as n. generalize 0 as g.
  intros g n. revert g a. induction n as [|n IH]; intros; simpl; [done|].
  unfold occupied_group. rewrite occupied_bits_map. destruct (occupied_bits b1 _ _ _ _ a); [done|]. apply IH.
Qed.
End occupied_map.
