(* ===== verification/HashMap.v ===== *)
(** * QPI::HashMap (src/qpi/impl/qpi_hash_map_impl.h, src/qpi/qpi_containers.h)

    Open-addressing hash map with lazy deletion.  The state is the C++ object: the element
    array, the packed occupation flags, the population and the removal counter.  Every
    public operation is a definition; the refinement theorems relate them to a finite map. *)
From S2P Require Import Prelude OpenAddressing OccupationFlags OccupiedSlots.

Record Element (K V : Type) := mkElement { key : K; value : V }.
Arguments mkElement {K V} _ _.
Arguments key {K V} _.
Arguments value {K V} _.

Record HashMap (K V : Type) := mkHashMap {
  _elements : list (Element K V);
  _occupationFlags : list Z;
  _population : Z;
  _markRemovalCounter : Z }.
Arguments mkHashMap {K V} _ _ _ _.
Arguments _elements {K V} _.
Arguments _occupationFlags {K V} _.
Arguments _population {K V} _.
Arguments _markRemovalCounter {K V} _.

Section HashMap.
(** [zeroK], [zeroV]: the objects whose bytes are all zero ([setMem(..., 0)]).
    [hash] is the template argument [HashFunc::hash]. *)
Context {K V : Type} `{!EqDecision K, !Countable K} (zeroK : K) (zeroV : V).
Variable lg : nat.
Variable hash : K -> Z.

Abbreviation L := (2 ^ Z.of_nat lg).

#[local] Instance element_inhabited : Inhabited (Element K V) :=
  populate (mkElement zeroK zeroV).

Implicit Types m : HashMap K V.

(** ** Operations *)

Definition capacity : Z := L.

Definition population m : Z := _population m.

Definition hash_slot (k : K) : Z := Z.land (hash k) (L - 1).

(** [case] labels of the switch in [getElementIndex]. *)
Definition getElementIndex_body m (k : K) (flag index : Z) (_ : unit) : Z + unit :=
  if flag =? 0 then inl NULL_INDEX
  else if flag =? 1 then
    if decide (key ((_elements m).[index]) = k) then inl index else inr tt
  else inr tt.

Definition getElementIndex m (k : K) : Z :=
  match scan_flags lg (getElementIndex_body m k) (_occupationFlags m) (hash_slot k) tt with
  | inl r => r
  | inr _ => NULL_INDEX
  end.

Definition contains m (k : K) : bool := negb (getElementIndex m k =? NULL_INDEX).

Definition get m (k : K) : option V :=
  let elementIndex := getElementIndex m k in
  if negb (elementIndex =? NULL_INDEX) then Some (value ((_elements m).[elementIndex])) else None.

Definition key_at m (elementIndex : Z) : K := key ((_elements m).[Z.land elementIndex (L - 1)]).
Definition value_at m (elementIndex : Z) : V := value ((_elements m).[Z.land elementIndex (L - 1)]).

(** The label [reuse_slot] of [set]. *)
Definition set_reuse_slot m (k : K) (v : V) (index : Z) : HashMap K V * Z :=
  (mkHashMap ((_elements m).[index := mkElement k v])
     (flags_toggle (_occupationFlags m) index)
     (u64 (_population m + 1)) (_markRemovalCounter m), index).

(** The accumulator is [markedForRemovalIndexForReuse]. *)
Definition set_body m (k : K) (v : V) (flag index marked : Z) : (HashMap K V * Z) + Z :=
  if flag =? 0 then
    if negb (marked =? NULL_INDEX) then inl (set_reuse_slot m k v marked)
    else inl (mkHashMap ((_elements m).[index := mkElement k v])
                (flags_occupy (_occupationFlags m) index)
                (u64 (_population m + 1)) (_markRemovalCounter m), index)
  else if flag =? 1 then
    if decide (key ((_elements m).[index]) = k) then
      inl (mkHashMap ((_elements m).[index := mkElement (key ((_elements m).[index])) v])
             (_occupationFlags m) (_population m) (_markRemovalCounter m), index)
    else inr marked
  else if flag =? 2 then
    if marked =? NULL_INDEX then inr index else inr marked
  else inr marked.

Definition set m (k : K) (v : V) : HashMap K V * Z :=
  if _population m <? capacity then
    match scan_flags lg (set_body m k v) (_occupationFlags m) (hash_slot k) NULL_INDEX with
    | inl r => r
    | inr marked =>
        if negb (marked =? NULL_INDEX) then set_reuse_slot m k v marked else (m, NULL_INDEX)
    end
  else
    let index := getElementIndex m k in
    if negb (index =? NULL_INDEX) then
      (mkHashMap ((_elements m).[index := mkElement (key ((_elements m).[index])) v])
         (_occupationFlags m) (_population m) (_markRemovalCounter m), index)
    else (m, NULL_INDEX).

Definition isEmptySlot m (elementIndex : Z) : bool :=
  let elementIndex := Z.land elementIndex (L - 1) in
  negb (Z.land (_getEncodedOccupationFlags lg (_occupationFlags m) elementIndex) 3 =? 1).

(** Inner [for] of [nextElementIndex]; [n] is the number of iterations left. *)
Fixpoint nextElementIndex_word (n : nat) (i flags flagsIdx : Z) : option Z :=
  match n with
  | O => None
  | S n' =>
      if flags =? 0 then None
      else if Z.land flags 3 =? 1 then Some (Z.shiftl flagsIdx 5 + i)
      else nextElementIndex_word n' (i + 1) (Z.shiftr flags 2) flagsIdx
  end.

(** The [while (flagsIdx < flagsLength)] loop; [n] is [flagsLength - flagsIdx]. *)
Fixpoint nextElementIndex_words m (n : nat) (flagsIdx offset flags : Z) : Z :=
  match n with
  | O => NULL_INDEX
  | S n' =>
      match nextElementIndex_word (Z.to_nat (_nEncodedFlags lg - offset)) offset flags flagsIdx with
      | Some r => r
      | None =>
          nextElementIndex_words m n' (flagsIdx + 1) 0 ((_occupationFlags m).[flagsIdx + 1])
      end
  end.

Definition nextElementIndex m (elementIndex : Z) : Z :=
  if _population m =? 0 then NULL_INDEX
  else
    let elementIndex := if elementIndex <? 0 then 0 else elementIndex + 1 in
    let flagsLength := Z.max (Z.shiftr L 5) 1 in
    let flagsIdx := Z.shiftr elementIndex 5 in
    let offset := Z.land elementIndex 31 in
    let flags := Z.shiftr ((_occupationFlags m).[flagsIdx]) (2 * offset) in
    nextElementIndex_words m (Z.to_nat (flagsLength - flagsIdx)) flagsIdx offset flags.

Definition removeByIndex m (elementIdx : Z) : HashMap K V :=
  let elementIdx := Z.land elementIdx (L - 1) in
  let flags := _getEncodedOccupationFlags lg (_occupationFlags m) elementIdx in
  if Z.land flags 3 =? 1 then
    mkHashMap ((_elements m).[elementIdx := mkElement zeroK zeroV])
      (flags_toggle (_occupationFlags m) elementIdx)
      (u64 (_population m - 1)) (u64 (_markRemovalCounter m + 1))
  else m.

Definition removeByKey m (k : K) : HashMap K V * Z :=
  let elementIndex := getElementIndex m k in
  if elementIndex =? NULL_INDEX then (m, NULL_INDEX)
  else (removeByIndex m elementIndex, elementIndex).

Definition needsCleanup m (removalThresholdPercent : Z) : bool :=
  u64 (removalThresholdPercent * L) / 100 <? _markRemovalCounter m.

Definition replace m (k : K) (newValue : V) : HashMap K V * bool :=
  let elementIndex := getElementIndex m k in
  if negb (elementIndex =? NULL_INDEX) then
    (mkHashMap ((_elements m).[elementIndex := mkElement (key ((_elements m).[elementIndex])) newValue])
       (_occupationFlags m) (_population m) (_markRemovalCounter m), true)
  else (m, false).

Definition reset : HashMap K V :=
  mkHashMap (replicate (Z.to_nat L) (mkElement zeroK zeroV)) (flags_zero lg) 0 0.

(** *** cleanup

    [cleanup] rebuilds the table in scratch buffers.  The result pairs the object after
    the call with a flag that tells whether the "should never be reached" branch
    [cleanupBug] was taken. *)

(** [_elementsBuffer], [_occupationFlagsBuffer], [newPopulation]. *)
Definition scratch : Type := list (Element K V) * list Z * Z.

Definition cleanup_move m (oldIndex : Z) (st : scratch) : (HashMap K V * bool) + scratch :=
  let '(el, fl, newPopulation) := st in
  match cleanup_find lg (Z.to_nat ((L + 31) / 32)) fl (hash_slot (key ((_elements m).[oldIndex]))) with
  | None => inl (m, true)
  | Some newIndex =>
      let fl' := flags_occupy fl newIndex in
      let el' := el.[newIndex := (_elements m).[oldIndex]] in
      let newPopulation' := newPopulation + 1 in
      if newPopulation' =? _population m then
        inl (mkHashMap el' fl' (_population m) 0, false)
      else inr (el', fl', newPopulation')
  end.

Definition cleanup m : HashMap K V * bool :=
  if _markRemovalCounter m =? 0 then (m, false)
  else if population m =? 0 then (reset, false)
  else
    match for_occupied lg (cleanup_move m) (_occupationFlags m) (_elements reset, flags_zero lg, 0) with
    | inl r => r
    | inr _ => (m, true)
    end.

Definition cleanupIfNeeded m (removalThresholdPercent : Z) : HashMap K V * bool :=
  if u64 (removalThresholdPercent * L) / 100 <? _markRemovalCounter m then cleanup m
  else (m, false).
End HashMap.

(** ** Abstraction and invariant *)
Section HashMapSpec.
Context {K V : Type} `{!EqDecision K, !Countable K} (zeroK : K) (zeroV : V).
Variable lg : nat.

Abbreviation L := (2 ^ Z.of_nat lg).
#[local] Hint Extern 0 (Inhabited (Element K V)) =>
  exact (element_inhabited zeroK zeroV) : typeclass_instances.

Implicit Types (m : HashMap K V) (el : list (Element K V)) (fl : list Z).

(** What slot [i] of the buffers holds. *)
Definition view el fl (i : Z) : slot K :=
  match flag_of fl i with
  | 0 => Empty
  | 1 => Full (key (el.[i]))
  | _ => Marked
  end.

(** The occupied slots in index order, and the finite map they represent. *)
Definition occupied fl : list Z :=
  filter (fun i => flag_of fl i = 1) (seqZ 0 L).

Definition buffer_contents el fl : gmap K V :=
  list_to_map ((fun i => (key (el.[i]), value (el.[i]))) <$> occupied fl).

Definition contents m : gmap K V := buffer_contents (_elements m) (_occupationFlags m).

Definition occupiedCount fl : Z := countZ (fun i => flag_of fl i =? 1) (Z.to_nat L).

(** *** Reading the view *)

Lemma view_Full el fl i k : view el fl i = Full k <-> flag_of fl i = 1 /\ key (el.[i]) = k.
Proof.
  unfold view. destruct (flag_of fl i) as [|[?|?|]|]; intuition congruence.
Qed.

Lemma view_Empty el fl i : view el fl i = Empty <-> flag_of fl i = 0.
Proof. unfold view. destruct (flag_of fl i) as [|[?|?|]|]; intuition congruence. Qed.

Lemma view_Marked el fl i :
  flag_of fl i <> 3 -> view el fl i = Marked <-> flag_of fl i = 2.
Proof.
  pose proof (flag_range fl i). unfold view. intros.
  assert (flag_of fl i = 0 \/ flag_of fl i = 1 \/ flag_of fl i = 2) as [-> | [-> | ->]] by lia;
    intuition congruence.
Qed.

Variable hash : K -> Z.

Record buffers_ok el fl : Prop := {
  buf_len : alen el = L;
  buf_flags : flags_ok lg fl;
  buf_no3 : forall i, in_table lg i -> flag_of fl i <> 3;
  buf_table : table_ok lg (hash_slot lg hash) (view el fl) }.

Record hashmap_ok m : Prop := {
  hm_buffers : buffers_ok (_elements m) (_occupationFlags m);
  hm_population : _population m = occupiedCount (_occupationFlags m);
  hm_counter : is_u64 (_markRemovalCounter m) }.

Lemma hash_slot_in k : in_table lg (hash_slot lg hash k).
Proof. apply land_in_table. Qed.
#[local] Hint Resolve hash_slot_in nth_slot_in : core.

Lemma L_nat : Z.of_nat (Z.to_nat L) = L.
Proof. pose proof (cap_pos lg). lia. Qed.

(** *** The finite map of the buffers *)

Lemma elem_of_occupied fl i : i ∈ occupied fl <-> in_table lg i /\ flag_of fl i = 1.
Proof.
  unfold occupied, in_table. rewrite list_elem_of_filter, elem_of_seqZ. intuition lia.
Qed.

Lemma occupied_keys_NoDup el fl :
  table_ok lg (hash_slot lg hash) (view el fl) ->
  NoDup (((fun i => (key (el.[i]), value (el.[i]))) <$> occupied fl).*1).
Proof.
  intros Hok. rewrite <- list_fmap_compose. apply NoDup_fmap_2_strong.
  - intros i j [Hi ?]%elem_of_occupied [Hj ?]%elem_of_occupied Heq. simpl in Heq.
    apply (tab_unique _ _ _ Hok i j (key (el.[i])) Hi Hj); by apply view_Full.
  - apply NoDup_filter, NoDup_seqZ.
Qed.

Lemma buffer_contents_spec el fl k v :
  table_ok lg (hash_slot lg hash) (view el fl) ->
  buffer_contents el fl !! k = Some v <->
  exists i, in_table lg i /\ flag_of fl i = 1 /\ el.[i] = mkElement k v.
Proof.
  intros Hok. unfold buffer_contents.
  rewrite <- elem_of_list_to_map by (by apply occupied_keys_NoDup).
  rewrite list_elem_of_fmap. split.
  - intros (i & [= -> ->] & [??]%elem_of_occupied). exists i.
    split; [done|]. split; [done|]. by destruct (el.[i]).
  - intros (i & Hi & Hf & He). exists i. rewrite He. split; [done|].
    by apply elem_of_occupied.
Qed.

Lemma buffer_contents_None el fl k :
  table_ok lg (hash_slot lg hash) (view el fl) ->
  buffer_contents el fl !! k = None <-> forall i, in_table lg i -> view el fl i <> Full k.
Proof.
  intros Hok. split.
  - intros Hn i Hi [Hf Hk]%view_Full.
    assert (buffer_contents el fl !! k = Some (value (el.[i]))) as Hs; [|congruence].
    apply buffer_contents_spec; [done|]. exists i. split; [done|]. split; [done|].
    rewrite <- Hk. by destruct (el.[i]).
  - intros Hn. destruct (buffer_contents el fl !! k) as [v|] eqn:Hs; [|done].
    apply buffer_contents_spec in Hs as (i & Hi & Hf & He); [|done].
    exfalso. apply (Hn i Hi). apply view_Full. by rewrite He.
Qed.

(** The population is the size of the represented map. *)
Lemma occupied_length fl : Z.of_nat (length (occupied fl)) = occupiedCount fl.
Proof.
  unfold occupied, occupiedCount, countZ. rewrite <- L_nat at 1.
  generalize (Z.to_nat L) as n. induction n as [|n IH]; [done|].
  rewrite seqZ_S, filter_app, length_app, Nat2Z.inj_add, IH. simpl.
  rewrite filter_cons, filter_nil, Z.add_0_l. case_decide as Hd.
  - by rewrite Hd.
  - destruct (Z.eqb_spec (flag_of fl (Z.of_nat n)) 1); [done|simpl; lia].
Qed.

Lemma buffer_contents_size el fl :
  table_ok lg (hash_slot lg hash) (view el fl) ->
  Z.of_nat (size (buffer_contents el fl)) = occupiedCount fl.
Proof.
  intros Hok. rewrite <- occupied_length. f_equal.
  unfold buffer_contents. rewrite <- length_map_to_list.
  rewrite map_to_list_to_map by (by apply occupied_keys_NoDup). by rewrite length_fmap.
Qed.

(** *** Writing one slot *)

Lemma view_write el fl fl' i k v :
  alen el = L -> in_table lg i -> flag_of fl' i = 1 ->
  (forall j, in_table lg j -> j <> i -> flag_of fl' j = flag_of fl j) ->
  forall j, in_table lg j ->
    upd (view el fl) i (Full k) j = view (el.[i := mkElement k v]) fl' j.
Proof.
  intros Hlen Hi Hf Ho j Hj. unfold upd. case_decide as Hd; [subst|].
  - symmetry. apply view_Full. unfold in_table in Hi. by rewrite aget_aset_eq by lia.
  - unfold view. rewrite (Ho j), aget_aset_ne by done. done.
Qed.

Lemma occupiedCount_write fl fl' i :
  in_table lg i -> (forall j, in_table lg j -> j <> i -> flag_of fl' j = flag_of fl j) ->
  occupiedCount fl' = occupiedCount fl
    + Z.b2z (flag_of fl' i =? 1) - Z.b2z (flag_of fl i =? 1).
Proof.
  intros Hi Ho. unfold occupiedCount. unfold in_table in *.
  rewrite (countZ_update (fun j => flag_of fl j =? 1) _ _ i); rewrite ?L_nat; [done..|].
  intros j ? ?. by rewrite Ho.
Qed.

(** Claiming a free or marked slot [j] steps from the home slot of a fresh key. *)
Lemma write_fresh el fl fl' k v j :
  buffers_ok el fl -> 0 <= j < L -> let i := nth_slot lg (hash_slot lg hash k) j in
  (forall i', in_table lg i' -> view el fl i' <> Full k) ->
  (forall j', 0 <= j' < j -> view el fl (nth_slot lg (hash_slot lg hash k) j') <> Empty) ->
  flag_of fl i <> 1 -> flags_ok lg fl' -> flag_of fl' i = 1 ->
  (forall j', in_table lg j' -> j' <> i -> flag_of fl' j' = flag_of fl j') ->
  buffers_ok (el.[i := mkElement k v]) fl' /\
  buffer_contents (el.[i := mkElement k v]) fl' = <[k := v]> (buffer_contents el fl) /\
  occupiedCount fl' = occupiedCount fl + 1.
Proof.
  intros Hok Hj i Habs Hpre Hf1 Hfl' Hi1 Ho.
  assert (in_table lg i) as Hi by apply nth_slot_in.
  pose proof (buf_len _ _ Hok) as Hlen.
  pose proof (view_write el fl fl' i k v Hlen Hi Hi1 Ho) as Hview.
  assert (table_ok lg (hash_slot lg hash) (view (el.[i := mkElement k v]) fl')) as Htab.
  { eapply table_ok_ext; [exact Hview|]. apply table_ok_insert; [apply Hok|done|done| |done].
    by intros y [? _]%view_Full. }
  split; [|split].
  - split; [by rewrite alen_aset|done| |done]. intros j' Hj'.
    destruct (decide (j' = i)) as [->|]; [by rewrite Hi1|]. rewrite Ho by done. by apply Hok.
  - apply map_eq. intros k'. apply option_eq. intros v'.
    rewrite buffer_contents_spec, lookup_insert by done. unfold in_table in Hi. case_decide as Hd; [subst k'|].
    + split.
      * intros (i' & Hi' & Hf & He). destruct (decide (i' = i)) as [->|].
        { rewrite aget_aset_eq in He by lia. congruence. }
        rewrite Ho in Hf by done. rewrite aget_aset_ne in He by done.
        exfalso. apply (Habs i' Hi'). apply view_Full. by rewrite He.
      * intros [= <-]. exists i. by rewrite aget_aset_eq by lia.
    + rewrite buffer_contents_spec by apply Hok. split.
      * intros (i' & Hi' & Hf & He). destruct (decide (i' = i)) as [->|].
        { rewrite aget_aset_eq in He by lia. congruence. }
        exists i'. rewrite Ho in Hf by done. by rewrite aget_aset_ne in He by done.
      * intros (i' & Hi' & Hf & He). assert (i' <> i) by congruence.
        exists i'. by rewrite Ho, aget_aset_ne.
  - rewrite (occupiedCount_write fl fl' i), Hi1 by done.
    destruct (Z.eqb_spec (flag_of fl i) 1); [done|simpl; lia].
Qed.

(** Overwriting the value of an occupied slot. *)
Lemma write_value el fl i v :
  buffers_ok el fl -> in_table lg i -> flag_of fl i = 1 ->
  buffers_ok (el.[i := mkElement (key (el.[i])) v]) fl /\
  buffer_contents (el.[i := mkElement (key (el.[i])) v]) fl
    = <[key (el.[i]) := v]> (buffer_contents el fl).
Proof.
  intros Hok Hi Hf. pose proof (buf_len _ _ Hok) as Hlen.
  assert (forall j, in_table lg j ->
    view el fl j = view (el.[i := mkElement (key (el.[i])) v]) fl j) as Hview.
  { intros j Hj. rewrite <- (view_write el fl fl i (key (el.[i])) v) by done.
    unfold upd. case_decide; [subst|done]. by apply view_Full. }
  assert (table_ok lg (hash_slot lg hash) (view (el.[i := mkElement (key (el.[i])) v]) fl)) as Htab.
  { eapply table_ok_ext; [exact Hview|]. apply Hok. }
  split; [split; [by rewrite alen_aset|apply Hok|apply Hok|done]|].
  apply map_eq. intros k'. apply option_eq. intros v'.
  rewrite buffer_contents_spec, lookup_insert by done. unfold in_table in Hi.
  case_decide as Hd; [subst k'|].
  - split.
    + intros (i' & Hi' & Hf' & He). destruct (decide (i' = i)) as [->|].
      { rewrite aget_aset_eq in He by lia. congruence. }
      rewrite aget_aset_ne in He by done. exfalso.
      apply (tab_unique _ _ _ (buf_table _ _ Hok) i' i (key (el.[i]))) in Hi'; [done|done|..];
        by apply view_Full; rewrite ?He.
    + intros [= <-]. exists i. by rewrite aget_aset_eq by lia.
  - rewrite buffer_contents_spec by apply Hok.
    split; intros (i' & Hi' & Hf' & He); exists i';
      (destruct (decide (i' = i)) as [->|]; [|by rewrite aget_aset_ne in *]).
    + rewrite aget_aset_eq in He by lia. congruence.
    + rewrite He in Hd. done.
Qed.
End HashMapSpec.

(** ** Correctness of the operations *)
Section HashMapProofs.
Context {K V : Type} `{!EqDecision K, !Countable K} (zeroK : K) (zeroV : V).
Variable lg : nat.
Variable hash : K -> Z.
Hypothesis lg_small : (lg < 64)%nat.

Abbreviation L := (2 ^ Z.of_nat lg).
#[local] Hint Extern 0 (Inhabited (Element K V)) =>
  exact (element_inhabited zeroK zeroV) : typeclass_instances.
#[local] Hint Resolve hash_slot_in nth_slot_in : core.

Implicit Types (m : HashMap K V) (el : list (Element K V)) (fl : list Z).

Abbreviation vw := (view zeroK zeroV).
Abbreviation vwm m := (view zeroK zeroV (_elements m) (_occupationFlags m)).
Abbreviation bufs_ok := (buffers_ok zeroK zeroV lg hash).
Abbreviation hm_ok := (hashmap_ok zeroK zeroV lg hash).
Abbreviation map_of := (contents zeroK zeroV lg).
Abbreviation home k := (hash_slot lg hash k).
Abbreviation gei := (getElementIndex zeroK zeroV lg hash).

Lemma L_u64 : 0 < L < 2 ^ 64.
Proof. split; [apply cap_pos|]. apply Z.pow_lt_mono_r; lia. Qed.

Lemma NULL_not_in i : in_table lg i -> i <> NULL_INDEX.
Proof. unfold in_table, NULL_INDEX. lia. Qed.

Lemma hm_table m : hm_ok m -> table_ok lg (hash_slot lg hash) (vwm m).
Proof. intros Hok. apply Hok. Qed.

(** *** Lookup *)

Lemma getElementIndex_spec m k :
  hm_ok m ->
  (in_table lg (gei m k) /\ vwm m (gei m k) = Full k) \/
  (gei m k = NULL_INDEX /\ forall i, in_table lg i -> vwm m i <> Full k).
Proof.
  intros Hok. pose proof (hm_table m Hok) as Htab.
  unfold getElementIndex.
  set (P := fun (j : Z) (_ : unit) =>
    forall j', 0 <= j' < j -> vwm m (nth_slot lg (home k) j') <> Full k).
  set (Q := fun r : Z => (in_table lg r /\ vwm m r = Full k) \/
              (r = NULL_INDEX /\ forall i, in_table lg i -> vwm m i <> Full k)).
  assert (match scan_flags lg (getElementIndex_body zeroK zeroV m k) (_occupationFlags m) (home k) tt with
          | inl r => Q r | inr a => P L a end) as Hscan.
  { apply scan_flags_inv; [apply Hok|auto|intros ??; lia|]. intros j [] Hj Hpre.
    unfold getElementIndex_body.
    destruct (Z.eqb_spec (flag_of (_occupationFlags m) (nth_slot lg (home k) j)) 0) as [H0|H0].
    { right. split; [done|]. apply (absent_at_empty _ _ _ k j Htab Hj); [|done].
      by apply view_Empty. }
    destruct (Z.eqb_spec (flag_of (_occupationFlags m) (nth_slot lg (home k) j)) 1) as [H1|H1];
      [case_decide as Hk; [left; split; [auto|by apply view_Full]|]|];
      (intros j' ?; destruct (decide (j' = j)) as [->|];
        [intros [? ?]%view_Full; congruence|apply Hpre; lia]). }
  destruct (scan_flags _ _ _ _ _) as [r|[]]; [done|].
  right. split; [done|]. by apply (absent_full_turn _ (hash_slot lg hash)).
Qed.

Lemma getElementIndex_found m k i :
  hm_ok m -> in_table lg i -> vwm m i = Full k -> gei m k = i.
Proof.
  intros Hok Hi Hv. destruct (getElementIndex_spec m k Hok) as [[Hi' Hv']|[_ Habs]].
  - by apply (tab_unique _ _ _ (hm_table m Hok) _ _ k).
  - by destruct (Habs i).
Qed.

Lemma gei_lookup m k :
  hm_ok m ->
  map_of m !! k =
    if gei m k =? NULL_INDEX then None else Some (value ((_elements m).[gei m k])).
Proof.
  intros Hok. unfold contents.
  destruct (getElementIndex_spec m k Hok) as [[Hi [Hf Hk]%view_Full]|[-> Habs]].
  - destruct (Z.eqb_spec (gei m k) NULL_INDEX) as [Hn|]; [by apply NULL_not_in in Hi|].
    apply (buffer_contents_spec zeroK zeroV lg hash); [by apply hm_table|].
    exists (gei m k). split; [done|]. split; [done|].
    destruct ((_elements m).[gei m k]) eqn:He. simpl in *. by subst.
  - simpl. apply (buffer_contents_None zeroK zeroV lg hash); [by apply hm_table|done].
Qed.

Lemma get_lookup m k : hm_ok m -> get zeroK zeroV lg hash m k = map_of m !! k.
Proof. intros Hok. rewrite gei_lookup by done. unfold get. by destruct (gei m k =? NULL_INDEX). Qed.

Lemma contains_spec m k :
  hm_ok m -> contains zeroK zeroV lg hash m k = bool_decide (is_Some (map_of m !! k)).
Proof.
  intros Hok. rewrite gei_lookup by done. unfold contains.
  by destruct (gei m k =? NULL_INDEX).
Qed.

(** *** Insertion *)

Lemma overwrite_ok m i v :
  hm_ok m -> in_table lg i -> flag_of (_occupationFlags m) i = 1 ->
  let m' := mkHashMap ((_elements m).[i := mkElement (key ((_elements m).[i])) v])
              (_occupationFlags m) (_population m) (_markRemovalCounter m) in
  hm_ok m' /\ map_of m' = <[key ((_elements m).[i]) := v]> (map_of m).
Proof.
  intros Hok Hi Hf. destruct (write_value zeroK zeroV lg hash _ _ i v (hm_buffers _ _ _ _ _ Hok) Hi Hf).
  split; [|done]. split; [done|apply Hok..].
Qed.

(** Outcome of inserting a new key at slot [i]. *)
Definition inserted m k v (r : HashMap K V * Z) : Prop :=
  hm_ok r.1 /\ map_of r.1 = <[k := v]> (map_of m) /\ in_table lg r.2 /\
  _elements r.1 = (_elements m).[r.2 := mkElement k v] /\
  flag_of (_occupationFlags r.1) r.2 = 1 /\
  (forall j, in_table lg j -> j <> r.2 -> flag_of (_occupationFlags r.1) j = flag_of (_occupationFlags m) j) /\
  (flag_of (_occupationFlags m) r.2 = 1 -> key ((_elements m).[r.2]) = k).

Lemma insert_fresh_ok m k v j fl' :
  let i := nth_slot lg (home k) j in
  hm_ok m -> _population m < L -> 0 <= j < L ->
  (forall i', in_table lg i' -> vwm m i' <> Full k) ->
  (forall j', 0 <= j' < j -> vwm m (nth_slot lg (home k) j') <> Empty) ->
  flag_of (_occupationFlags m) i <> 1 -> flags_ok lg fl' -> flag_of fl' i = 1 ->
  (forall j', in_table lg j' -> j' <> i -> flag_of fl' j' = flag_of (_occupationFlags m) j') ->
  inserted m k v (mkHashMap ((_elements m).[i := mkElement k v]) fl'
      (u64 (_population m + 1)) (_markRemovalCounter m), i).
Proof.
  intros i Hok Hpop Hj Habs Hpre Hf Hfl' Hi1 Ho.
  destruct (write_fresh zeroK zeroV lg hash (_elements m) (_occupationFlags m) fl' k v j)
    as (Hbuf & Hmap & Hcnt); [apply Hok|done..|].
  split; [|split; [done|split; [apply nth_slot_in|split; done]]].
  pose proof L_u64. pose proof (hm_population _ _ _ _ _ Hok) as Hp.
  assert (0 <= _population m) by (rewrite Hp; apply countZ_range).
  split; simpl; [done| |apply Hok]. rewrite u64_small by (unfold is_u64; lia). fold i in Hcnt. lia.
Qed.

(** Loop invariant of [set]: no slot so far is empty or holds the key; the remembered
    index is the first marked slot, if there is one. *)
Definition set_inv m k (j marked : Z) : Prop :=
  (forall j', 0 <= j' < j -> vwm m (nth_slot lg (home k) j') <> Empty /\
                             vwm m (nth_slot lg (home k) j') <> Full k) /\
  ((marked = NULL_INDEX /\ forall j', 0 <= j' < j -> vwm m (nth_slot lg (home k) j') <> Marked) \/
   exists jm, 0 <= jm < j /\ marked = nth_slot lg (home k) jm /\
              flag_of (_occupationFlags m) marked = 2).

Lemma set_reuse_ok m k v j jm :
  hm_ok m -> _population m < L -> 0 <= jm < j -> j <= L ->
  (forall i', in_table lg i' -> vwm m i' <> Full k) ->
  (forall j', 0 <= j' < j -> vwm m (nth_slot lg (home k) j') <> Empty /\
                             vwm m (nth_slot lg (home k) j') <> Full k) ->
  flag_of (_occupationFlags m) (nth_slot lg (home k) jm) = 2 ->
  inserted m k v (set_reuse_slot m k v (nth_slot lg (home k) jm)).
Proof.
  intros Hok Hpop Hjm Hj Habs Hpre Hf. pose proof (buf_flags _ _ _ _ _ _ (hm_buffers _ _ _ _ _ Hok)) as Hfl.
  apply insert_fresh_ok; [done|done|lia|done| | | | |].
  - intros. apply Hpre. lia.
  - by rewrite Hf.
  - by apply flags_toggle_ok.
  - rewrite (flags_toggle_same lg) by auto. by rewrite Hf.
  - intros. by apply (flags_toggle_other lg).
Qed.

Lemma set_scan m k v :
  hm_ok m -> _population m < L ->
  match scan_flags lg (set_body zeroK zeroV m k v) (_occupationFlags m) (home k) NULL_INDEX with
  | inl r => inserted m k v r
  | inr marked => set_inv m k L marked
  end.
Proof.
  intros Hok Hpop. pose proof (hm_table m Hok) as Htab.
  pose proof (buf_flags _ _ _ _ _ _ (hm_buffers _ _ _ _ _ Hok)) as Hfl.
  apply scan_flags_inv; [done|auto|split; [lia|left; split; [done|lia]]|].
  intros j marked Hj [Hpre Hmk]. unfold set_body.
  set (i := nth_slot lg (home k) j). assert (in_table lg i) as Hi by apply nth_slot_in.
  assert (flag_of (_occupationFlags m) i <> 3) as H3 by (by apply Hok).
  pose proof (flag_range (_occupationFlags m) i) as Hr.
  destruct (Z.eqb_spec (flag_of (_occupationFlags m) i) 0) as [H0|H0].
  - assert (forall i', in_table lg i' -> vwm m i' <> Full k) as Habs.
    { apply (absent_at_empty _ _ _ k j Htab Hj); [by apply view_Empty|].
      intros. apply Hpre. lia. }
    destruct Hmk as [[-> Hnm]|(jm & Hjm & -> & Hf)].
    + simpl. apply insert_fresh_ok; [done|done|done|done| | | | |].
      * intros. by apply Hpre.
      * fold i. lia.
      * by apply flags_occupy_ok.
      * by apply (flags_occupy_same lg).
      * intros. by apply (flags_occupy_other lg).
    + destruct (Z.eqb_spec (nth_slot lg (home k) jm) NULL_INDEX) as [Hn|_];
        [by destruct (NULL_not_in _ (nth_slot_in lg (home k) jm))|]. simpl.
      apply (set_reuse_ok m k v j); (done || lia).
  - destruct (Z.eqb_spec (flag_of (_occupationFlags m) i) 1) as [H1|H1].
    + case_decide as Hk.
      * destruct (overwrite_ok m i v Hok Hi H1) as [Hok' Hmap]. split; [done|].
        cbn [fst snd]. split; [by rewrite Hmap, Hk|]. split; [done|]. simpl. by rewrite Hk.
      * split.
        -- intros j' ?. destruct (decide (j' = j)) as [->|]; [|apply Hpre; lia].
           rewrite view_Empty, view_Full. fold i. split; [done|]. intros [_ ?]. done.
        -- destruct Hmk as [[-> Hnm]|(jm & Hjm & -> & Hf)]; [left|right; exists jm; split; [lia|done]].
           split; [done|]. intros j' ?. destruct (decide (j' = j)) as [->|]; [|apply Hnm; lia].
           rewrite view_Marked by done. fold i. lia.
    + assert (flag_of (_occupationFlags m) i = 2) as H2 by lia. rewrite H2. simpl.
      assert (forall j', 0 <= j' < j + 1 ->
        vwm m (nth_slot lg (home k) j') <> Empty /\ vwm m (nth_slot lg (home k) j') <> Full k) as Hpre'.
      { intros j' ?. destruct (decide (j' = j)) as [->|]; [|apply Hpre; lia].
        rewrite view_Empty, view_Full. fold i. split; [done|]. intros [? _]. done. }
      destruct Hmk as [[-> Hnm]|(jm & Hjm & -> & Hf)]; simpl.
      * split; [done|]. right. exists j. split; [lia|done].
      * destruct (Z.eqb_spec (nth_slot lg (home k) jm) NULL_INDEX) as [Hn|_];
        [by destruct (NULL_not_in _ (nth_slot_in lg (home k) jm))|].
        split; [done|]. right. exists jm. split; [lia|done].
Qed.

(** With a free or marked slot [set] always succeeds. *)
Lemma set_not_full m k v :
  hm_ok m -> _population m < L -> inserted m k v (set zeroK zeroV lg hash m k v).
Proof.
  intros Hok Hpop. unfold set, capacity. rewrite (proj2 (Z.ltb_lt _ _) Hpop).
  pose proof (set_scan m k v Hok Hpop) as Hs. destruct (scan_flags _ _ _ _ _) as [r|marked]; [done|].
  destruct Hs as [Hpre [[-> Hnm]|(jm & Hjm & -> & Hf)]].
  - exfalso. rewrite (hm_population _ _ _ _ _ Hok) in Hpop. unfold occupiedCount in Hpop.
    rewrite <- (L_nat lg) in Hpop at 2.
    apply countZ_lt_exists in Hpop as (i & Hi & Hf). rewrite (L_nat lg) in Hi.
    pose proof (nth_slot_steps lg (home k) i Hi) as Hn.
    pose proof (steps_range lg (home k) i) as Hs. apply Z.eqb_neq in Hf.
    specialize (Hpre _ Hs) as [He _]. specialize (Hnm _ Hs). rewrite Hn in He, Hnm.
    rewrite view_Empty in He. rewrite view_Marked in Hnm by (by apply Hok).
    pose proof (flag_range (_occupationFlags m) i).
    assert (flag_of (_occupationFlags m) i <> 3) by (by apply Hok). lia.
  - destruct (Z.eqb_spec (nth_slot lg (home k) jm) NULL_INDEX) as [Hn|_];
      [by destruct (NULL_not_in _ (nth_slot_in lg (home k) jm))|]. simpl.
    apply (set_reuse_ok m k v L); [done|done|done|done| |done|done].
    apply (absent_full_turn _ (hash_slot lg hash)). intros. by apply Hpre.
Qed.

(** On a full map [set] only overwrites. *)
Lemma set_full m k v :
  hm_ok m -> L <= _population m ->
  let r := set zeroK zeroV lg hash m k v in
  if decide (is_Some (map_of m !! k)) then inserted m k v r else r = (m, NULL_INDEX).
Proof.
  intros Hok Hpop. unfold set, capacity. rewrite (proj2 (Z.ltb_ge _ _) Hpop).
  rewrite gei_lookup by done.
  destruct (getElementIndex_spec m k Hok) as [[Hi Hv]|[Hn Habs]].
  - destruct (Z.eqb_spec (gei m k) NULL_INDEX) as [Hn|_]; [by apply NULL_not_in in Hi|]. simpl.
    apply view_Full in Hv as [Hf Hk].
    destruct (overwrite_ok m (gei m k) v Hok Hi Hf) as [Hok' Hmap].
    split; [done|]. cbn [fst snd]. split; [by rewrite Hmap, Hk|]. split; [done|]. simpl. by rewrite Hk.
  - by rewrite Hn.
Qed.

(** *** Removal *)

Lemma encoded_flag_0 fl i :
  flags_ok lg fl -> in_table lg i ->
  Z.land (_getEncodedOccupationFlags lg fl i) 3 = flag_of fl i.
Proof.
  intros Hfl Hi. pose proof (nEnc_range lg).
  pose proof (encoded_flag lg fl i 0 Hfl Hi ltac:(lia)) as He.
  change (2 * 0) with 0 in He. by rewrite Z.shiftr_0_r, nth_slot_0 in He.
Qed.

Lemma isEmptySlot_spec m i :
  hm_ok m -> in_table lg i ->
  isEmptySlot lg m i = negb (flag_of (_occupationFlags m) i =? 1).
Proof.
  intros Hok Hi. unfold isEmptySlot. unfold in_table in Hi.
  rewrite land_mask, Z.mod_small by lia. by rewrite encoded_flag_0 by (done || apply Hok).
Qed.

Lemma remove_ok m i :
  hm_ok m -> in_table lg i -> flag_of (_occupationFlags m) i = 1 ->
  let m' := removeByIndex zeroK zeroV lg m i in
  hm_ok m' /\ map_of m' = delete (key ((_elements m).[i])) (map_of m) /\
  _population m' = _population m - 1 /\
  _markRemovalCounter m' = u64 (_markRemovalCounter m + 1).
Proof.
  intros Hok Hi Hf. pose proof (buf_flags _ _ _ _ _ _ (hm_buffers _ _ _ _ _ Hok)) as Hfl.
  pose proof (hm_table m Hok) as Htab. pose proof (buf_len _ _ _ _ _ _ (hm_buffers _ _ _ _ _ Hok)) as Hlen.
  unfold removeByIndex. unfold in_table in Hi.
  rewrite land_mask, Z.mod_small by lia. rewrite encoded_flag_0, Hf by done. simpl.
  set (fl' := flags_toggle (_occupationFlags m) i).
  set (el' := (_elements m).[i := mkElement zeroK zeroV]).
  assert (flag_of fl' i = 2) as Hi2.
  { unfold fl'. rewrite (flags_toggle_same lg), Hf by done. done. }
  assert (forall j, in_table lg j -> j <> i -> flag_of fl' j = flag_of (_occupationFlags m) j) as Ho.
  { intros. by apply (flags_toggle_other lg). }
  assert (forall j, in_table lg j -> upd (vwm m) i Marked j = vw el' fl' j) as Hview.
  { intros j Hj. unfold upd, el', view. case_decide; [subst; by rewrite Hi2|].
    by rewrite Ho, aget_aset_ne. }
  assert (table_ok lg (hash_slot lg hash) (vw el' fl')) as Htab'.
  { eapply table_ok_ext; [exact Hview|]. by apply table_ok_mark. }
  assert (occupiedCount lg fl' = occupiedCount lg (_occupationFlags m) - 1) as Hcnt.
  { rewrite (occupiedCount_write lg (_occupationFlags m) fl' i), Hi2, Hf by done. simpl. lia. }
  pose proof (hm_population _ _ _ _ _ Hok) as Hp. pose proof L_u64.
  pose proof (countZ_range (fun j => flag_of fl' j =? 1) (Z.to_nat L)) as Hr.
  pose proof (countZ_range (fun j => flag_of (_occupationFlags m) j =? 1) (Z.to_nat L)) as Hr'.
  rewrite L_nat in Hr, Hr'. unfold occupiedCount in Hcnt, Hp.
  assert (u64 (_population m - 1) = _population m - 1) as Hpop.
  { apply u64_small. unfold is_u64. lia. }
  split; [split; simpl; [split|by rewrite Hpop; unfold occupiedCount; lia|apply u64_range]|].
  { unfold el'. by rewrite alen_aset. }
  { by apply flags_toggle_ok. }
  { intros j Hj. destruct (decide (j = i)) as [->|]; [by rewrite Hi2|]. rewrite Ho by done. by apply Hok. }
  { done. }
  split; [|done].
  apply map_eq. intros k. apply option_eq. intros v. unfold contents. simpl.
    rewrite (buffer_contents_spec zeroK zeroV lg hash) by done.
    rewrite lookup_delete. case_decide as Hd.
    + subst k. split; [|done]. intros (j & Hj & Hfj & He). exfalso.
      destruct (decide (j = i)) as [->|Hne]; [congruence|]. apply Hne.
      rewrite Ho in Hfj by done. unfold el' in He. rewrite aget_aset_ne in He by done.
      apply (tab_unique _ _ _ Htab j i (key ((_elements m).[i]))); try done;
        apply view_Full; by rewrite ?He.
    + rewrite (buffer_contents_spec zeroK zeroV lg hash) by done.
      split; intros (j & Hj & Hfj & He); exists j.
      * assert (j <> i) by congruence. rewrite Ho in Hfj by done.
        unfold el' in He. by rewrite aget_aset_ne in He by done.
      * assert (j <> i) by (intros ->; by rewrite He in Hd).
        unfold el'. by rewrite Ho, aget_aset_ne.
Qed.

Lemma removeByIndex_absent m i :
  hm_ok m -> in_table lg i -> flag_of (_occupationFlags m) i <> 1 ->
  removeByIndex zeroK zeroV lg m i = m.
Proof.
  intros Hok Hi Hf. unfold removeByIndex. unfold in_table in Hi.
  rewrite land_mask, Z.mod_small by lia.
  rewrite encoded_flag_0 by (done || apply Hok). by rewrite (proj2 (Z.eqb_neq _ _) Hf).
Qed.

Lemma removeByKey_ok m k :
  hm_ok m ->
  let r := removeByKey zeroK zeroV lg hash m k in
  hm_ok r.1 /\ map_of r.1 = delete k (map_of m) /\ r.2 = gei m k /\
  (map_of m !! k = None -> r = (m, NULL_INDEX)).
Proof.
  intros Hok. unfold removeByKey. rewrite gei_lookup by done.
  destruct (getElementIndex_spec m k Hok) as [[Hi Hv]|[Hn Habs]].
  - destruct (Z.eqb_spec (gei m k) NULL_INDEX) as [Hn|_]; [by apply NULL_not_in in Hi|].
    apply view_Full in Hv as [Hf Hk]. cbn [fst snd].
    destruct (remove_ok m (gei m k) Hok Hi Hf) as (? & Hmap & _). by rewrite Hk in Hmap.
  - rewrite Hn. simpl. split; [done|]. split; [|done].
    rewrite delete_id; [done|].
    by apply (buffer_contents_None zeroK zeroV lg hash); [apply hm_table|].
Qed.

Lemma replace_ok m k v :
  hm_ok m ->
  let r := replace zeroK zeroV lg hash m k v in
  hm_ok r.1 /\ r.2 = bool_decide (is_Some (map_of m !! k)) /\
  map_of r.1 = (if r.2 then <[k := v]> (map_of m) else map_of m).
Proof.
  intros Hok. unfold replace. rewrite gei_lookup by done.
  destruct (getElementIndex_spec m k Hok) as [[Hi Hv]|[Hn Habs]].
  - destruct (Z.eqb_spec (gei m k) NULL_INDEX) as [Hn|_]; [by apply NULL_not_in in Hi|].
    apply view_Full in Hv as [Hf Hk]. cbn [negb fst snd].
    destruct (overwrite_ok m (gei m k) v Hok Hi Hf) as [? Hmap].
    split; [done|]. split; [done|]. by rewrite Hmap, Hk.
  - by rewrite Hn.
Qed.

Lemma reset_ok :
  hm_ok (reset zeroK zeroV lg) /\ map_of (reset zeroK zeroV lg) = ∅.
Proof.
  assert (forall i, in_table lg i -> flag_of (flags_zero lg) i = 0) as Hz by apply flags_zero_flag.
  assert (table_ok lg (hash_slot lg hash) (vw (_elements (reset zeroK zeroV lg)) (flags_zero lg))) as Htab.
  { apply table_ok_empty. intros i Hi. apply view_Empty. by apply Hz. }
  split; [split|].
  - split; [|apply flags_zero_ok|intros i Hi; by rewrite Hz|done].
    simpl. rewrite alen_replicate. apply L_nat.
  - simpl. unfold occupiedCount, countZ. symmetry. apply sumZ_zero. rewrite L_nat.
    intros i Hi. by rewrite Hz.
  - unfold is_u64. simpl. lia.
  - apply map_empty. intros k.
    apply (buffer_contents_None zeroK zeroV lg hash); [done|].
    intros i Hi [Hf _]%view_Full. simpl in Hf. by rewrite Hz in Hf.
Qed.

(** The population is the number of keys of the represented map. *)
Lemma population_size m : hm_ok m -> population m = Z.of_nat (size (map_of m)).
Proof.
  intros Hok. unfold population. rewrite (hm_population _ _ _ _ _ Hok). symmetry.
  apply (buffer_contents_size zeroK zeroV lg hash). by apply hm_table.
Qed.

(** *** cleanup *)

Abbreviation scr := (@scratch K V).

(** Slots below [i] have been transferred to the buffers. *)
Definition transferred m (i : Z) (st : scr) : Prop :=
  let '(el, fl, np) := st in
  bufs_ok el fl /\ (forall s, in_table lg s -> flag_of fl s <> 2) /\
  np = occupiedCount lg fl /\
  np = countZ (fun j => flag_of (_occupationFlags m) j =? 1) (Z.to_nat i) /\
  np < _population m /\
  forall k v, buffer_contents zeroK zeroV lg el fl !! k = Some v <->
    exists j, 0 <= j < i /\ flag_of (_occupationFlags m) j = 1 /\ (_elements m).[j] = mkElement k v.

(** Result of a completed [cleanup]. *)
Definition cleaned m (r : HashMap K V * bool) : Prop :=
  r.2 = false /\ hm_ok r.1 /\ map_of r.1 = map_of m /\ _markRemovalCounter r.1 = 0 /\
  forall s, in_table lg s -> flag_of (_occupationFlags r.1) s <> 2.

Lemma cleanup_move_ok m i st :
  hm_ok m -> in_table lg i -> flag_of (_occupationFlags m) i = 1 -> transferred m i st ->
  match cleanup_move zeroK zeroV lg hash m i st with
  | inl r => cleaned m r
  | inr st' => transferred m (i + 1) st'
  end.
Proof.
  intros Hok Hi Hf. destruct st as [[el fl] np]. intros (Hbuf & Hno2 & Hnp & Hcnt & Hlt & Hcont).
  pose proof (hm_table m Hok) as Htab. pose proof (buf_flags _ _ _ _ _ _ Hbuf) as Hfl.
  pose proof (hm_population _ _ _ _ _ Hok) as Hpop. unfold in_table in Hi.
  unfold cleanup_move. set (e := (_elements m).[i]).
  pose proof (cleanup_find_spec lg fl (home (key e)) Hfl (hash_slot_in _ _ _)) as Hfind.
  pose proof (countZ_range (fun j => flag_of (_occupationFlags m) j =? 1) (Z.to_nat L)) as Hr.
  rewrite L_nat in Hr. unfold occupiedCount in Hpop.
  destruct (cleanup_find _ _ _ _) as [s|].
  2:{ exfalso. assert (np < Z.of_nat (Z.to_nat L)) as Hx by (rewrite L_nat; lia).
      rewrite Hnp in Hx. apply countZ_lt_exists in Hx as (x & Hx & Hfx).
      rewrite L_nat in Hx. apply Z.eqb_neq in Hfx. pose proof (flag_range fl x).
      pose proof (Hfind x Hx). pose proof (Hno2 x Hx). pose proof (buf_no3 _ _ _ _ _ _ Hbuf x Hx). lia. }
  destruct Hfind as (j & Hj & -> & Hs0 & Hpre).
  set (s := nth_slot lg (home (key e)) j) in *.
  assert (in_table lg s) as Hs by apply nth_slot_in.
  assert (forall i', in_table lg i' -> vw el fl i' <> Full (key e)) as Habs.
  { apply (buffer_contents_None zeroK zeroV lg hash); [apply Hbuf|].
    destruct (buffer_contents _ _ _ _ _ !! key e) as [v|] eqn:Hb; [|done]. exfalso.
    apply Hcont in Hb as (j' & Hj' & Hfj & He).
    assert (j' = i); [|lia]. apply (tab_unique _ _ _ Htab j' i (key e));
      [unfold in_table; lia..|apply view_Full|apply view_Full]; [|done]. by rewrite He. }
  destruct (write_fresh zeroK zeroV lg hash el fl (flags_occupy fl s) (key e) (value e) j)
    as (Hbuf' & Hmap' & Hcnt'); [done..| | | | | |]; fold s.
  { intros j' ?. rewrite view_Empty. by apply Hpre. }
  { by rewrite Hs0. }
  { by apply flags_occupy_ok. }
  { by apply (flags_occupy_same lg). }
  { intros. by apply (flags_occupy_other lg). }
  fold s in Hbuf', Hmap'. replace (mkElement (key e) (value e)) with e in Hbuf', Hmap' by (by destruct e).
  assert (forall x, in_table lg x -> flag_of (flags_occupy fl s) x <> 2) as Hno2'.
  { intros x Hx. destruct (decide (x = s)) as [->|].
    - by rewrite (flags_occupy_same lg).
    - rewrite (flags_occupy_other lg) by done. by apply Hno2. }
  assert (countZ (fun j => flag_of (_occupationFlags m) j =? 1) (Z.to_nat (i + 1)) = np + 1) as Hcnt1.
  { rewrite countZ_S, Hf by lia. simpl. lia. }
  assert (forall k v, buffer_contents zeroK zeroV lg (el.[s := e]) (flags_occupy fl s) !! k = Some v <->
    exists j, 0 <= j < i + 1 /\ flag_of (_occupationFlags m) j = 1 /\ (_elements m).[j] = mkElement k v) as Hcont'.
  { intros k v. rewrite Hmap', lookup_insert. case_decide as Hd.
    - split.
      + intros [= <-]. exists i. split; [lia|]. split; [done|]. fold e. by destruct e, Hd.
      + intros (j' & Hj' & Hfj & He). assert (j' = i) as ->.
        { apply (tab_unique _ _ _ Htab j' i (key e)); [unfold in_table; lia..| |];
            apply view_Full; [by rewrite He|done]. }
        fold e in He. by rewrite He.
    - rewrite Hcont. split; intros (j' & Hj' & Hfj & He); exists j'; (split; [|done]); [lia|].
      assert (j' <> i) by (intros ->; fold e in He; by rewrite He in Hd). lia. }
  pose proof (countZ_mono (fun j => flag_of (_occupationFlags m) j =? 1) (Z.to_nat (i + 1)) (Z.to_nat L)) as Hmono.
  destruct (Z.eqb_spec (np + 1) (_population m)) as [Hdone|Hmore].
  - split; [done|]. simpl. split; [|split; [|by split]].
    + split; simpl; [done|unfold occupiedCount in *; lia|unfold is_u64; lia].
    + apply map_eq. intros k. apply option_eq. intros v. unfold contents. simpl.
      rewrite Hcont', (buffer_contents_spec zeroK zeroV lg hash) by done.
      split; intros (j' & Hj' & Hfj & He); exists j'; (split; [|done]); [unfold in_table; lia|].
      split; [apply Hj'|]. destruct (Z.lt_ge_cases j' (i + 1)); [done|].
      destruct (Hmono j' ltac:(lia)) as [_ Hm]. unfold in_table in Hj'.
      rewrite Hfj in Hm. specialize (Hm ltac:(lia)). simpl in Hm. lia.
  - split; [done|]. split; [done|]. split; [lia|]. split; [lia|]. split; [|done].
    destruct (Hmono i ltac:(lia)) as [Hle _]. lia.
Qed.

(** [cleanup] keeps the represented map, drops the marked slots and never reaches the
    [cleanupBug] branch. *)
Lemma cleanup_ok m :
  hm_ok m -> _markRemovalCounter m <> 0 -> cleaned m (cleanup zeroK zeroV lg hash m).
Proof.
  intros Hok Hc. unfold cleanup. rewrite (proj2 (Z.eqb_neq _ _) Hc).
  destruct reset_ok as [Hrok Hrmap].
  destruct (Z.eqb_spec (population m) 0) as [H0|H0].
  - split; [done|]. cbn [fst]. split; [done|]. split; [|split; [done|]].
    + rewrite Hrmap. symmetry. apply map_size_empty_inv.
      rewrite population_size in H0 by done. lia.
    + simpl. intros s Hs. by rewrite flags_zero_flag.
  - pose proof (hm_population _ _ _ _ _ Hok) as Hpop. unfold population in H0.
    pose proof (countZ_range (fun j => flag_of (_occupationFlags m) j =? 1) (Z.to_nat L)) as Hr.
    unfold occupiedCount in Hpop.
    assert (transferred m 0 (_elements (reset zeroK zeroV lg), flags_zero lg, 0)) as Hinit.
    { split; [apply Hrok|]. split; [intros s Hs; by rewrite flags_zero_flag|].
      split; [apply (hm_population _ _ _ _ _ Hrok)|]. split; [done|]. split; [lia|].
      intros k v. unfold contents in Hrmap. simpl in Hrmap. simpl. rewrite Hrmap, lookup_empty.
      split; [done|]. intros (j & ? & _). lia. }
    pose proof (for_occupied_rule lg (cleanup_move zeroK zeroV lg hash m) _ (transferred m) (cleaned m)
      (buf_flags _ _ _ _ _ _ (hm_buffers _ _ _ _ _ Hok))) as Hrule.
    assert (match for_occupied lg (cleanup_move zeroK zeroV lg hash m) (_occupationFlags m)
              (_elements (reset zeroK zeroV lg), flags_zero lg, 0) with
            | inl r => cleaned m r | inr st' => transferred m L st' end) as Hres.
    { apply Hrule; [| |done].
      - intros i [[el fl] np] Hi Hf (? & ? & ? & Hcnt & ? & Hcont).
        split; [done|]. split; [done|]. split; [done|]. unfold in_table in Hi. split; [|split; [done|]].
        + rewrite countZ_S by lia. rewrite (proj2 (Z.eqb_neq _ _) Hf). simpl. lia.
        + intros k v. rewrite Hcont. split; intros (j & Hj & Hfj & He); exists j; (split; [|done]); [lia|].
          assert (j <> i) by congruence. lia.
      - intros. by apply cleanup_move_ok. }
    destruct (for_occupied _ _ _ _) as [r|[[el fl] np]]; [done|].
    exfalso. destruct Hres as (_ & _ & _ & Hcnt & Hlt & _). lia.
Qed.

(** *** Iteration *)

Lemma flag_of_word fl g p :
  0 <= p < 32 -> flag_of fl (32 * g + p) = Z.land (Z.shiftr (fl.[g]) (2 * p)) 3.
Proof.
  intros. unfold flag_of. rewrite offset_eq, word_eq.
  replace (32 * g + p) with (p + g * 32) by lia.
  by rewrite Z_mod_plus_full, Z_div_plus_full, Z.mod_small, Z.div_small by lia.
Qed.

Lemma nextElementIndex_word_spec fl g n p :
  0 <= p -> p + Z.of_nat n <= 32 ->
  match nextElementIndex_word n p (Z.shiftr (fl.[g]) (2 * p)) g with
  | Some r => 32 * g + p <= r < 32 * g + p + Z.of_nat n /\ flag_of fl r = 1 /\
              forall i, 32 * g + p <= i < r -> flag_of fl i <> 1
  | None => forall i, 32 * g + p <= i < 32 * g + p + Z.of_nat n -> flag_of fl i <> 1
  end.
Proof.
  revert p. induction n as [|n IH]; intros p Hp Hn; simpl; [intros; lia|].
  assert (flag_of fl (32 * g + p) = Z.land (Z.shiftr (fl.[g]) (2 * p)) 3) as Hf
    by (apply flag_of_word; lia).
  rewrite <- Hf. destruct (Z.eqb_spec (Z.shiftr (fl.[g]) (2 * p)) 0) as [Hz|Hz].
  - intros i Hi. replace i with (32 * g + (i - 32 * g)) by lia.
    rewrite flag_of_word by lia.
    replace (2 * (i - 32 * g)) with (2 * p + 2 * (i - 32 * g - p)) by lia.
    rewrite <- Z.shiftr_shiftr, Hz, Z.shiftr_0_l by lia. done.
  - destruct (Z.eqb_spec (flag_of fl (32 * g + p)) 1) as [H1|H1].
    + rewrite Z.shiftl_mul_pow2 by lia. replace (g * 2 ^ 5 + p) with (32 * g + p) by lia.
      split; [lia|]. split; [done|]. intros; lia.
    + rewrite Z.shiftr_shiftr by lia. replace (2 * p + 2) with (2 * (p + 1)) by lia.
      specialize (IH (p + 1) ltac:(lia) ltac:(lia)).
      assert (forall i, 32 * g + p <= i -> ~ 32 * g + (p + 1) <= i -> i = 32 * g + p) as Hcase by lia.
      destruct (nextElementIndex_word _ _ _ _) as [r|].
      * destruct IH as (? & ? & Hbef). split; [lia|]. split; [done|]. intros i Hi.
        destruct (decide (32 * g + (p + 1) <= i)); [apply Hbef; lia|]. by rewrite (Hcase i) by lia.
      * intros i Hi. destruct (decide (32 * g + (p + 1) <= i)); [apply IH; lia|].
        by rewrite (Hcase i) by lia.
Qed.

(** The next occupied slot at or after [start], if there is one. *)
Definition next_from fl (start r : Z) : Prop :=
  (start <= r /\ in_table lg r /\ flag_of fl r = 1 /\ forall i, start <= i < r -> flag_of fl i <> 1) \/
  (r = NULL_INDEX /\ forall i, in_table lg i -> start <= i -> flag_of fl i <> 1).

Lemma next_from_later fl start start' r :
  start <= start' -> (forall i, in_table lg i -> start <= i < start' -> flag_of fl i <> 1) -> 0 <= start ->
  next_from fl start' r -> next_from fl start r.
Proof.
  unfold next_from, in_table. intros Hle Hno H0 [(? & ? & ? & Hb)|[-> Hb]].
  - left. split; [lia|]. split; [done|]. split; [done|]. intros i Hi.
    destruct (decide (start' <= i)); [apply Hb; lia|apply Hno; lia].
  - right. split; [done|]. intros i Hi ?. destruct (decide (start' <= i)); [by apply Hb|apply Hno; lia].
Qed.

Lemma nextElementIndex_words_spec m n g p :
  0 <= g -> g + Z.of_nat n = flagWords lg \/ (n = O /\ flagWords lg <= g) -> 0 <= p < 32 ->
  next_from (_occupationFlags m) (32 * g + p)
    (nextElementIndex_words lg m n g p (Z.shiftr ((_occupationFlags m).[g]) (2 * p))).
Proof.
  set (fl := _occupationFlags m). pose proof (cap_shape lg) as Hshape. pose proof (nEnc_range lg).
  assert (forall g', flagWords lg <= g' -> L <= 32 * g') as Hend
    by (intros; destruct Hshape as [?|(G & ?)]; lia).
  assert (forall g', 0 <= g' < flagWords lg -> 32 * g' + _nEncodedFlags lg <= L) as Hword
    by (intros; destruct Hshape as [?|(G & ?)]; lia).
  assert (forall g' i, 0 <= g' -> i < L -> 32 * g' <= i -> i < 32 * (g' + 1) -> i < 32 * g' + _nEncodedFlags lg) as Htail
    by (intros; destruct Hshape as [?|(G & ?)]; lia).
  revert g p. induction n as [|n IH]; intros g p Hg Hn Hp; simpl.
  { right. split; [done|]. unfold in_table. intros i ? ?. specialize (Hend g). lia. }
  pose proof (nextElementIndex_word_spec fl g (Z.to_nat (_nEncodedFlags lg - p)) p ltac:(lia) ltac:(lia)) as Hw.
  destruct (nextElementIndex_word _ _ _ _) as [r|].
  - left. destruct Hw as (Hr & Hf & Hb). specialize (Hword g ltac:(lia)).
    split; [lia|]. split; [unfold in_table; lia|done].
  - specialize (IH (g + 1) 0 ltac:(lia) ltac:(lia) ltac:(lia)).
    change (2 * 0) with 0 in IH. rewrite Z.shiftr_0_r in IH.
    eapply next_from_later; [..|exact IH]; [lia| |lia].
    unfold in_table. intros i Hi Hr. specialize (Htail g i Hg). apply Hw. lia.
Qed.

Lemma nextElementIndex_spec m e :
  hm_ok m ->
  next_from (_occupationFlags m) (if e <? 0 then 0 else e + 1) (nextElementIndex lg m e).
Proof.
  intros Hok. unfold nextElementIndex.
  set (start := if e <? 0 then 0 else e + 1).
  assert (0 <= start) by (unfold start; destruct (Z.ltb_spec e 0); lia).
  destruct (Z.eqb_spec (_population m) 0) as [H0|H0].
  - right. split; [done|]. intros i Hi Hs Hf.
    rewrite (hm_population _ _ _ _ _ Hok) in H0. unfold occupiedCount in H0.
    destruct (countZ_mono (fun i => flag_of (_occupationFlags m) i =? 1) 0 (Z.to_nat L) i) as [_ Hc]; [lia|].
    rewrite L_nat, Hf in Hc. unfold in_table in Hi. specialize (Hc ltac:(lia)). simpl in Hc.
    unfold countZ in *. simpl in Hc. lia.
  - rewrite !word_eq, land31.
    replace start with (32 * (start / 32) + start mod 32) at 1 by (Z.div_mod_to_equations; lia).
    apply nextElementIndex_words_spec; [Z.div_mod_to_equations; lia| |apply Z.mod_pos_bound; lia].
    replace (Z.max (L / 32) 1) with (flagWords lg).
    + destruct (Z.le_gt_cases (flagWords lg) (start / 32)); [right; lia|left; lia].
    + destruct (cap_shape lg) as [?|(G & ?)]; Z.div_mod_to_equations; lia.
Qed.

Lemma cleanup_any m :
  hm_ok m -> let r := cleanup zeroK zeroV lg hash m in
  r.2 = false /\ hm_ok r.1 /\ map_of r.1 = map_of m.
Proof.
  intros Hok r. destruct (decide (_markRemovalCounter m = 0)) as [H0|H0].
  - unfold r, cleanup. by rewrite (proj2 (Z.eqb_eq _ _) H0).
  - destruct (cleanup_ok m Hok H0) as (? & ? & ? & _). done.
Qed.

Lemma set_any m k v :
  hm_ok m -> let r := set zeroK zeroV lg hash m k v in
  if decide (is_Some (map_of m !! k) \/ Z.of_nat (size (map_of m)) < L)
  then inserted m k v r else r = (m, NULL_INDEX).
Proof.
  intros Hok r. pose proof (population_size m Hok) as Hp. unfold population in Hp.
  destruct (Z.lt_ge_cases (_population m) L) as [Hlt|Hge].
  - rewrite decide_True by (right; lia). by apply set_not_full.
  - pose proof (set_full m k v Hok Hge) as Hs. fold r in Hs. simpl in Hs.
    destruct (decide (is_Some (map_of m !! k))) as [Hd|Hd].
    + by rewrite decide_True by (by left).
    + rewrite decide_False; [done|]. intros [?|?]; [done|lia].
Qed.

(** *** Sequences of operations *)

Inductive hm_op :=
  | Op_set (k : K) (v : V) | Op_get (k : K) | Op_contains (k : K) | Op_removeByKey (k : K)
  | Op_replace (k : K) (v : V) | Op_cleanup | Op_cleanupIfNeeded (percent : Z)
  | Op_reset | Op_population.

(** What a caller observes: an index as the fact that it is not [NULL_INDEX]. *)
Inductive hm_obs :=
  | Obs_bool (b : bool) | Obs_value (o : option V) | Obs_num (n : Z) | Obs_unit.

Definition found (i : Z) : hm_obs := Obs_bool (negb (i =? NULL_INDEX)).

Definition hm_exec (o : hm_op) m : HashMap K V * hm_obs :=
  match o with
  | Op_set k v => let r := set zeroK zeroV lg hash m k v in (r.1, found r.2)
  | Op_get k => (m, Obs_value (get zeroK zeroV lg hash m k))
  | Op_contains k => (m, Obs_bool (contains zeroK zeroV lg hash m k))
  | Op_removeByKey k => let r := removeByKey zeroK zeroV lg hash m k in (r.1, found r.2)
  | Op_replace k v => let r := replace zeroK zeroV lg hash m k v in (r.1, Obs_bool r.2)
  | Op_cleanup => let r := cleanup zeroK zeroV lg hash m in (r.1, Obs_bool r.2)
  | Op_cleanupIfNeeded p => let r := cleanupIfNeeded zeroK zeroV lg hash m p in (r.1, Obs_bool r.2)
  | Op_reset => (reset zeroK zeroV lg, Obs_unit)
  | Op_population => (m, Obs_num (population m))
  end.

(** The same operations on a finite map of at most [L] keys; cleaning changes nothing and
    never reports the [cleanupBug] branch. *)
Definition hm_spec (o : hm_op) (g : gmap K V) : gmap K V * hm_obs :=
  match o with
  | Op_set k v => if decide (is_Some (g !! k) \/ Z.of_nat (size g) < L)
                  then (<[k := v]> g, Obs_bool true) else (g, Obs_bool false)
  | Op_get k => (g, Obs_value (g !! k))
  | Op_contains k => (g, Obs_bool (bool_decide (is_Some (g !! k))))
  | Op_removeByKey k => (delete k g, Obs_bool (bool_decide (is_Some (g !! k))))
  | Op_replace k v => if decide (is_Some (g !! k)) then (<[k := v]> g, Obs_bool true)
                      else (g, Obs_bool false)
  | Op_cleanup | Op_cleanupIfNeeded _ => (g, Obs_bool false)
  | Op_reset => (∅, Obs_unit)
  | Op_population => (g, Obs_num (Z.of_nat (size g)))
  end.

Fixpoint run {S : Type} (step : hm_op -> S -> S * hm_obs) (ops : list hm_op) (s : S)
  : S * list hm_obs :=
  match ops with
  | [] => (s, [])
  | o :: ops' => let r := step o s in let rs := run step ops' r.1 in (rs.1, r.2 :: rs.2)
  end.

Lemma hm_step_refines o m :
  hm_ok m ->
  hm_ok (hm_exec o m).1 /\
  map_of (hm_exec o m).1 = (hm_spec o (map_of m)).1 /\
  (hm_exec o m).2 = (hm_spec o (map_of m)).2.
Proof.
  intros Hok. destruct o as [k v|k|k|k|k v| |p| |]; cbn [hm_exec hm_spec].
  - pose proof (set_any m k v Hok) as Hs. cbn zeta in Hs. case_decide as Hd.
    + destruct Hs as (? & ? & Hi & _). cbn [fst snd]. split; [done|]. split; [done|].
      unfold found. by rewrite (proj2 (Z.eqb_neq _ _) (NULL_not_in _ Hi)).
    + by rewrite Hs.
  - by rewrite get_lookup.
  - by rewrite contains_spec.
  - destruct (removeByKey_ok m k Hok) as (? & ? & Hr & _). cbn [fst snd].
    split; [done|]. split; [done|]. rewrite Hr. unfold found. f_equal. by apply contains_spec.
  - destruct (replace_ok m k v Hok) as (? & Hr & Hm). cbn [fst snd].
    rewrite Hr in *. case_decide as Hd.
    + rewrite bool_decide_true in * by done. done.
    + rewrite bool_decide_false in * by done. done.
  - destruct (cleanup_any m Hok) as (Hb & ? & ?). cbn [fst snd]. by rewrite Hb.
  - unfold cleanupIfNeeded. case_match; [|done].
    destruct (cleanup_any m Hok) as (Hb & ? & ?). cbn [fst snd]. by rewrite Hb.
  - destruct reset_ok. done.
  - by rewrite population_size.
Qed.

Lemma hm_run_refines ops m :
  hm_ok m ->
  hm_ok (run hm_exec ops m).1 /\
  map_of (run hm_exec ops m).1 = (run hm_spec ops (map_of m)).1 /\
  (run hm_exec ops m).2 = (run hm_spec ops (map_of m)).2.
Proof.
  revert m. induction ops as [|o ops IH]; intros m Hok; [done|]. cbn [run fst snd].
  destruct (hm_step_refines o m Hok) as (Hok' & Hmap & Hobs).
  destruct (IH _ Hok') as (? & Hm & Ho). rewrite Hmap in Hm, Ho. split; [done|].
  split; [done|]. by rewrite Hobs, Ho.
Qed.
End HashMapProofs.

(** ** Properties *)
Section HashMapProperties.
Context {K V : Type} `{!EqDecision K, !Countable K} (zeroK : K) (zeroV : V).
Variable lg : nat.
Variable hash : K -> Z.
Hypothesis Hlg : (lg < 64)%nat.

Abbreviation hm_ok := (hashmap_ok zeroK zeroV lg hash).
Abbreviation map_of := (contents zeroK zeroV lg).

(** C34: every sequence of HashMap operations, started on a reset map of capacity [2^lg],
    returns exactly what a finite map of at most [2^lg] keys returns, whatever the hash
    function; the representation invariant holds afterwards and the stored elements are the
    finite map.  In particular lazy deletion, slot reuse and cleanup are invisible and the
    [cleanupBug] branch is never taken. *)
Theorem hashmap_refines_map (ops : list (@hm_op K V)) :
  let r := run (hm_exec zeroK zeroV lg hash) ops (reset zeroK zeroV lg) in
  let s := run (hm_spec lg) ops ∅ in
  r.2 = s.2 /\ map_of r.1 = s.1 /\ hm_ok r.1.
Proof.
  destruct (reset_ok zeroK zeroV lg hash Hlg) as [Hok Hmap].
  destruct (hm_run_refines zeroK zeroV lg hash Hlg ops _ Hok) as (? & ? & ?).
  rewrite Hmap in *. done.
Qed.

(** [cleanup] of a well-formed map terminates normally (never in the branch marked
    "should never be reached"), keeps the represented map and the invariant, clears the
    removal counter and leaves no slot marked for removal. *)
Theorem cleanup_preserves_map (m : HashMap K V) :
  hm_ok m -> _markRemovalCounter m <> 0 ->
  let r := cleanup zeroK zeroV lg hash m in
  r.2 = false /\ hm_ok r.1 /\ map_of r.1 = map_of m /\ _markRemovalCounter r.1 = 0 /\
  forall i, in_table lg i -> flag_of (_occupationFlags r.1) i <> 2.
Proof. intros Hok Hc. by apply cleanup_ok. Qed.

(** [set] succeeds exactly if the key is present or the map is not full; then it returns
    the slot of the key, and the new map is the old one updated at the key.  Otherwise the
    object is unchanged and [NULL_INDEX] is returned. *)
Theorem set_inserts_unless_full (m : HashMap K V) (k : K) (v : V) :
  hm_ok m ->
  let r := set zeroK zeroV lg hash m k v in
  if decide (is_Some (map_of m !! k) \/ population m < capacity lg) then
    hm_ok r.1 /\ map_of r.1 = <[k := v]> (map_of m) /\
    getElementIndex zeroK zeroV lg hash r.1 k = r.2 /\ in_table lg r.2
  else r = (m, NULL_INDEX).
Proof.
  intros Hok. rewrite (population_size zeroK zeroV lg hash) by done.
  pose proof (set_any zeroK zeroV lg hash Hlg m k v Hok) as Hs. cbn zeta in Hs.
  unfold capacity. case_decide as Hd; [|done].
  destruct Hs as (Hok' & Hmap & Hi & He & Hf & _). split; [done|]. split; [done|]. split; [|done].
  apply (getElementIndex_found zeroK zeroV lg hash Hlg); [done|done|].
  apply view_Full. split; [done|]. rewrite He. unfold in_table in Hi.
  by rewrite aget_aset_eq by (by rewrite (buf_len _ _ _ _ _ _ (hm_buffers _ _ _ _ _ Hok))).
Qed.

(** [nextElementIndex] returns the smallest occupied slot behind the given index (from
    slot 0 for a negative index) and [NULL_INDEX] exactly if there is none, so the iteration
    visits every element once. *)
Theorem nextElementIndex_next (m : HashMap K V) (e : Z) :
  hm_ok m ->
  let start := if e <? 0 then 0 else e + 1 in
  let r := nextElementIndex lg m e in
  (r = NULL_INDEX /\ forall i, in_table lg i -> start <= i -> isEmptySlot lg m i = true) \/
  (start <= r /\ in_table lg r /\ isEmptySlot lg m r = false /\
   forall i, start <= i < r -> isEmptySlot lg m i = true).
Proof.
  intros Hok start r.
  assert (forall i, in_table lg i -> flag_of (_occupationFlags m) i <> 1 -> isEmptySlot lg m i = true) as He.
  { intros i Hi Hf. rewrite (isEmptySlot_spec zeroK zeroV lg hash Hlg) by done.
    by rewrite (proj2 (Z.eqb_neq _ _) Hf). }
  assert (0 <= start) by (unfold start; destruct (Z.ltb_spec e 0); lia).
  destruct (nextElementIndex_spec zeroK zeroV lg hash Hlg m e Hok) as [(Hs & Hi & Hf & Hb)|[Hn Hb]].
  - right. split; [done|]. split; [done|]. split.
    + rewrite (isEmptySlot_spec zeroK zeroV lg hash Hlg) by done. unfold r. by rewrite Hf.
    + intros i Hr. apply He; [|by apply Hb]. unfold in_table in *. lia.
  - left. split; [done|]. intros. apply He; [done|]. by apply Hb.
Qed.
End HashMapProperties.

(** Witnesses: capacity 4, keys hashed to their value, so that 1, 5 and 9 collide. *)
Definition ex_ops : list (@hm_op Z Z) :=
  [Op_set 1 10; Op_set 5 50; Op_set 9 90; Op_removeByKey 5; Op_get 9; Op_set 13 130;
   Op_set 5 55; Op_set 7 70; Op_removeByKey 1; Op_cleanup; Op_contains 1; Op_get 13; Op_population].

Definition ex_map : HashMap Z Z := (run (hm_exec 0 0 2 u64) ex_ops (reset 0 0 2)).1.

Lemma hashmap_refines_map_witness :
  (2 < 64)%nat /\
  (run (hm_exec 0 0 2 u64) ex_ops (reset 0 0 2)).2 = (run (hm_spec 2) ex_ops ∅).2 /\
  (run (hm_spec 2) ex_ops ∅).2 =
    [Obs_bool true; Obs_bool true; Obs_bool true; Obs_bool true; Obs_value (Some 90);
     Obs_bool true; Obs_bool true; Obs_bool false; Obs_bool true; Obs_bool false;
     Obs_bool false; Obs_value (Some 130); Obs_num 3].
Proof.
  split; [lia|]. split; [|vm_compute; reflexivity].
  apply (hashmap_refines_map 0 0 2 u64 ltac:(lia) ex_ops).
Defined.

Definition ex_removed : HashMap Z Z := removeByIndex 0 0 2 ex_map 1.

Lemma ex_map_ok : hashmap_ok 0 0 2 u64 ex_map.
Proof.
  destruct (reset_ok 0 0 2 u64 ltac:(lia)) as [Hok _].
  apply (hm_run_refines 0 0 2 u64 ltac:(lia) ex_ops _ Hok).
Qed.

Lemma ex_removed_ok : hashmap_ok 0 0 2 u64 ex_removed.
Proof.
  apply (remove_ok 0 0 2 u64 ltac:(lia)); [apply ex_map_ok|done|vm_compute; reflexivity].
Qed.

Lemma cleanup_preserves_map_witness :
  _markRemovalCounter ex_removed = 1 /\ (cleanup 0 0 2 u64 ex_removed).2 = false.
Proof.
  split; [vm_compute; reflexivity|].
  apply (cleanup_preserves_map 0 0 2 u64 ltac:(lia) ex_removed);
    [exact ex_removed_ok|vm_compute; discriminate].
Defined.

Lemma set_inserts_unless_full_witness :
  contents 0 0 2 (set 0 0 2 u64 ex_removed 21 7).1 = <[21 := 7]> (contents 0 0 2 ex_removed).
Proof.
  pose proof (set_inserts_unless_full 0 0 2 u64 ltac:(lia) ex_removed 21 7 ex_removed_ok) as Hs.
  cbn zeta in Hs. rewrite decide_True in Hs by (right; vm_compute; reflexivity). apply Hs.
Defined.

Lemma nextElementIndex_next_witness :
  nextElementIndex 2 ex_removed 0 = 2 /\ isEmptySlot 2 ex_removed 1 = true.
Proof.
  split; [vm_compute; reflexivity|].
  destruct (nextElementIndex_next 0 0 2 u64 ltac:(lia) ex_removed 0 ex_removed_ok) as [[Hn _]|(_ & _ & _ & Hb)].
  - vm_compute in Hn. discriminate.
  - apply Hb. vm_compute. split; [discriminate|reflexivity].
Defined.
