(* ===== verification/HashSet.v ===== *)
(** * QPI::HashSet (src/qpi/impl/qpi_hash_map_impl.h, src/qpi/qpi_containers.h)

    The set is coded separately from the map in the source.  Its operations are translated
    on their own and shown to be the operations of [HashMap] with values of type [unit]
    ([as_map]), which carries the refinement to finite sets. *)
From S2P Require Import Prelude OpenAddressing OccupationFlags OccupiedSlots HashMap.

Record HashSet (K : Type) := mkHashSet {
  _keys : list K;
  _occupationFlags : list Z;
  _population : Z;
  _markRemovalCounter : Z }.
Arguments mkHashSet {K} _ _ _ _.
Arguments _keys {K} _.
Arguments _occupationFlags {K} _.
Arguments _population {K} _.
Arguments _markRemovalCounter {K} _.

Section HashSet.
Context {K : Type} `{!EqDecision K, !Countable K} (zeroK : K).
Variable lg : nat.
Variable hash : K -> Z.

Abbreviation L := (2 ^ Z.of_nat lg).
#[local] Instance key_inhabited : Inhabited K := populate zeroK.

Implicit Types s : HashSet K.

Definition capacity : Z := L.

Definition population s : Z := _population s.

Definition getElementIndex_body s (k : K) (flag index : Z) (_ : unit) : Z + unit :=
  if flag =? 0 then inl NULL_INDEX
  else if flag =? 1 then
    if decide ((_keys s).[index] = k) then inl index else inr tt
  else inr tt.

Definition getElementIndex s (k : K) : Z :=
  match scan_flags lg (getElementIndex_body s k) (_occupationFlags s) (hash_slot lg hash k) tt with
  | inl r => r
  | inr _ => NULL_INDEX
  end.

Definition contains s (k : K) : bool := negb (getElementIndex s k =? NULL_INDEX).

Definition key_at s (elementIndex : Z) : K := (_keys s).[Z.land elementIndex (L - 1)].

Definition add_reuse_slot s (k : K) (index : Z) : HashSet K * Z :=
  (mkHashSet ((_keys s).[index := k]) (flags_toggle (_occupationFlags s) index)
     (u64 (_population s + 1)) (_markRemovalCounter s), index).

(** The accumulator is [markedForRemovalIndexForReuse]. *)
Definition add_body s (k : K) (flag index marked : Z) : (HashSet K * Z) + Z :=
  if flag =? 0 then
    if negb (marked =? NULL_INDEX) then inl (add_reuse_slot s k marked)
    else inl (mkHashSet ((_keys s).[index := k]) (flags_occupy (_occupationFlags s) index)
                (u64 (_population s + 1)) (_markRemovalCounter s), index)
  else if flag =? 1 then
    if decide ((_keys s).[index] = k) then inl (s, index) else inr marked
  else if flag =? 2 then
    if marked =? NULL_INDEX then inr index else inr marked
  else inr marked.

Definition add s (k : K) : HashSet K * Z :=
  if _population s <? capacity then
    match scan_flags lg (add_body s k) (_occupationFlags s) (hash_slot lg hash k) NULL_INDEX with
    | inl r => r
    | inr marked =>
        if negb (marked =? NULL_INDEX) then add_reuse_slot s k marked else (s, NULL_INDEX)
    end
  else
    let index := getElementIndex s k in
    if negb (index =? NULL_INDEX) then (s, index) else (s, NULL_INDEX).

Definition isEmptySlot s (elementIndex : Z) : bool :=
  let elementIndex := Z.land elementIndex (L - 1) in
  negb (Z.land (_getEncodedOccupationFlags lg (_occupationFlags s) elementIndex) 3 =? 1).

Fixpoint nextElementIndex_words s (n : nat) (flagsIdx offset flags : Z) : Z :=
  match n with
  | O => NULL_INDEX
  | S n' =>
      match nextElementIndex_word (Z.to_nat (_nEncodedFlags lg - offset)) offset flags flagsIdx with
      | Some r => r
      | None =>
          nextElementIndex_words s n' (flagsIdx + 1) 0 ((_occupationFlags s).[flagsIdx + 1])
      end
  end.

Definition nextElementIndex s (elementIndex : Z) : Z :=
  if _population s =? 0 then NULL_INDEX
  else
    let elementIndex := if elementIndex <? 0 then 0 else elementIndex + 1 in
    let flagsLength := Z.max (Z.shiftr L 5) 1 in
    let flagsIdx := Z.shiftr elementIndex 5 in
    let offset := Z.land elementIndex 31 in
    let flags := Z.shiftr ((_occupationFlags s).[flagsIdx]) (2 * offset) in
    nextElementIndex_words s (Z.to_nat (flagsLength - flagsIdx)) flagsIdx offset flags.

Definition removeByIndex s (elementIdx : Z) : HashSet K :=
  let elementIdx := Z.land elementIdx (L - 1) in
  let flags := _getEncodedOccupationFlags lg (_occupationFlags s) elementIdx in
  if Z.land flags 3 =? 1 then
    mkHashSet ((_keys s).[elementIdx := zeroK]) (flags_toggle (_occupationFlags s) elementIdx)
      (u64 (_population s - 1)) (u64 (_markRemovalCounter s + 1))
  else s.

Definition remove s (k : K) : HashSet K * Z :=
  let elementIndex := getElementIndex s k in
  if elementIndex =? NULL_INDEX then (s, NULL_INDEX)
  else (removeByIndex s elementIndex, elementIndex).

Definition needsCleanup s (removalThresholdPercent : Z) : bool :=
  u64 (removalThresholdPercent * L) / 100 <? _markRemovalCounter s.

Definition reset : HashSet K :=
  mkHashSet (replicate (Z.to_nat L) zeroK) (flags_zero lg) 0 0.

(** [_keyBuffer], [_occupationFlagsBuffer], [newPopulation]. *)
Definition scratch : Type := list K * list Z * Z.

Definition cleanup_move s (oldIndex : Z) (st : scratch) : (HashSet K * bool) + scratch :=
  let '(kb, fl, newPopulation) := st in
  match cleanup_find lg (Z.to_nat ((L + 31) / 32)) fl (hash_slot lg hash ((_keys s).[oldIndex])) with
  | None => inl (s, true)
  | Some newIndex =>
      let fl' := flags_occupy fl newIndex in
      let kb' := kb.[newIndex := (_keys s).[oldIndex]] in
      let newPopulation' := newPopulation + 1 in
      if newPopulation' =? _population s then
        inl (mkHashSet kb' fl' (_population s) 0, false)
      else inr (kb', fl', newPopulation')
  end.

Definition cleanup s : HashSet K * bool :=
  if _markRemovalCounter s =? 0 then (s, false)
  else if population s =? 0 then (reset, false)
  else
    match for_occupied lg (cleanup_move s) (_occupationFlags s) (_keys reset, flags_zero lg, 0) with
    | inl r => r
    | inr _ => (s, true)
    end.

Definition cleanupIfNeeded s (removalThresholdPercent : Z) : HashSet K * bool :=
  if u64 (removalThresholdPercent * L) / 100 <? _markRemovalCounter s then cleanup s
  else (s, false).
End HashSet.

(** ** Simulation by the map with [unit] values *)
Section Simulation.
Context {K : Type} `{!EqDecision K, !Countable K} (zeroK : K).
Variable lg : nat.
Variable hash : K -> Z.

Abbreviation L := (2 ^ Z.of_nat lg).
#[local] Hint Extern 0 (Inhabited K) => exact (key_inhabited zeroK) : typeclass_instances.
#[local] Hint Extern 0 (Inhabited (Element K unit)) =>
  exact (element_inhabited zeroK tt) : typeclass_instances.

Implicit Types s : HashSet K.

Definition as_element (k : K) : Element K unit := mkElement k tt.

Definition as_map s : HashMap K unit :=
  mkHashMap (as_element <$> _keys s) (_occupationFlags s) (_population s) (_markRemovalCounter s).

Lemma as_element_get (l : list K) i : (as_element <$> l).[i] = as_element (l.[i]).
Proof.
  destruct (decide (0 <= i)) as [Hi|Hi]; [|by destruct i; [lia..|]].
  rewrite !aget_nonneg by done. rewrite !list_lookup_total_alt, list_lookup_fmap.
  by destruct (l !! Z.to_nat i).
Qed.

Lemma as_element_set (l : list K) i k :
  as_element <$> l.[i := k] = (as_element <$> l).[i := as_element k].
Proof. destruct i; simpl; [by rewrite list_fmap_insert..|done]. Qed.

Lemma as_map_getElementIndex s k :
  HashMap.getElementIndex zeroK tt lg hash (as_map s) k = getElementIndex zeroK lg hash s k.
Proof.
  unfold HashMap.getElementIndex, getElementIndex. simpl.
  rewrite (scan_flags_map id lg (getElementIndex_body zeroK s k)); [by destruct (scan_flags _ _ _ _ _)|].
  intros flag i a. unfold HashMap.getElementIndex_body, getElementIndex_body. simpl.
  rewrite as_element_get. simpl. repeat case_match; done.
Qed.

Definition lift {A B : Type} (f : A -> B) (r : A * Z) : B * Z := (f r.1, r.2).

Lemma as_map_reuse s k i :
  set_reuse_slot (as_map s) k tt i = lift as_map (add_reuse_slot s k i).
Proof. unfold set_reuse_slot, lift, as_map. simpl. by rewrite as_element_set. Qed.

Lemma as_map_same s i :
  mkHashMap ((_elements (as_map s)).[i := mkElement (key ((_elements (as_map s)).[i])) tt])
    (_occupationFlags s) (_population s) (_markRemovalCounter s) = as_map s.
Proof.
  unfold as_map. simpl. f_equal. rewrite as_element_get. simpl.
  change (mkElement ((_keys s).[i]) tt) with (as_element ((_keys s).[i])).
  rewrite <- as_element_get. apply (aset_aget_id (as_element <$> _keys s)).
Qed.

Lemma as_map_add s k :
  HashMap.set zeroK tt lg hash (as_map s) k tt = lift as_map (add zeroK lg hash s k).
Proof.
  unfold HashMap.set, add, HashMap.capacity, capacity. simpl.
  rewrite as_map_getElementIndex. destruct (_population s <? L).
  - rewrite (scan_flags_map (lift as_map) lg (add_body zeroK s k)).
    + destruct (scan_flags _ _ _ _ _) as [r|mk]; [done|]. destruct (negb _); [|done].
      by rewrite as_map_reuse.
    + intros flag i a. unfold HashMap.set_body, add_body.
      change (HashMap._occupationFlags (as_map s)) with (_occupationFlags s).
      change (HashMap._population (as_map s)) with (_population s).
      change (HashMap._markRemovalCounter (as_map s)) with (_markRemovalCounter s).
      rewrite as_map_reuse, as_map_same. simpl. rewrite as_element_get. simpl.
      destruct (flag =? 0).
      { destruct (negb _); [done|]. unfold lift, as_map. simpl. by rewrite as_element_set. }
      repeat case_match; done.
  - pose proof (as_map_same s (getElementIndex zeroK lg hash s k)) as Hs. simpl in Hs. rewrite Hs.
    by destruct (negb _).
Qed.

Lemma as_map_removeByIndex s i :
  HashMap.removeByIndex zeroK tt lg (as_map s) i = as_map (removeByIndex zeroK lg s i).
Proof.
  unfold HashMap.removeByIndex, removeByIndex. simpl. destruct (_ =? 1); [|done].
  unfold as_map. simpl. by rewrite as_element_set.
Qed.

Lemma as_map_remove s k :
  HashMap.removeByKey zeroK tt lg hash (as_map s) k = lift as_map (remove zeroK lg hash s k).
Proof.
  unfold HashMap.removeByKey, remove. rewrite as_map_getElementIndex.
  destruct (_ =? NULL_INDEX); [done|]. by rewrite as_map_removeByIndex.
Qed.

Lemma as_map_reset : HashMap.reset zeroK tt lg = as_map (reset zeroK lg).
Proof. unfold HashMap.reset, as_map, reset. simpl. by rewrite fmap_replicate. Qed.

Lemma as_map_next s e : HashMap.nextElementIndex lg (as_map s) e = nextElementIndex lg s e.
Proof.
  unfold HashMap.nextElementIndex, nextElementIndex. simpl. destruct (_ =? 0); [done|].
  generalize ((_occupationFlags s).[Z.shiftr (if e <? 0 then 0 else e + 1) 5]) as w.
  generalize (Z.shiftr (if e <? 0 then 0 else e + 1) 5) as g.
  generalize (Z.land (if e <? 0 then 0 else e + 1) 31) as p. intros p g w.
  generalize (Z.shiftr w (2 * p)) as f.
  generalize (Z.to_nat (Z.max (Z.shiftr L 5) 1 - g)) as n. intros n.
  revert g p. induction n as [|n IH]; intros g p f; simpl; [done|].
  destruct (nextElementIndex_word _ _ _ _); [done|]. apply IH.
Qed.

(** *** cleanup *)

Definition lift_scratch (st : scratch (K := K)) : HashMap.scratch :=
  let '(kb, fl, np) := st in (as_element <$> kb, fl, np).

Definition lift_sum (r : (HashSet K * bool) + scratch) : (HashMap K unit * bool) + HashMap.scratch :=
  match r with inl (s, b) => inl (as_map s, b) | inr st => inr (lift_scratch st) end.

Lemma as_map_move s i st :
  HashMap.cleanup_move zeroK tt lg hash (as_map s) i (lift_scratch st) =
    lift_sum (cleanup_move zeroK lg hash s i st).
Proof.
  destruct st as [[kb fl] np]. unfold HashMap.cleanup_move, cleanup_move. simpl.
  rewrite as_element_get. simpl. destruct (cleanup_find _ _ _ _); [|done].
  destruct (_ =? _); simpl; unfold as_map; simpl; by rewrite as_element_set.
Qed.

Lemma as_map_cleanup s :
  HashMap.cleanup zeroK tt lg hash (as_map s) =
    (as_map (cleanup zeroK lg hash s).1, (cleanup zeroK lg hash s).2).
Proof.
  unfold HashMap.cleanup, cleanup.
  change (HashMap._markRemovalCounter (as_map s)) with (_markRemovalCounter s).
  change (HashMap.population (as_map s)) with (population s).
  destruct (_markRemovalCounter s =? 0); [done|]. destruct (population s =? 0).
  { by rewrite as_map_reset. }
  replace (_elements (HashMap.reset zeroK tt lg), flags_zero lg, 0)
    with (lift_scratch (_keys (reset zeroK lg), flags_zero lg, 0))
    by (rewrite as_map_reset; done).
  change (HashMap._occupationFlags (as_map s)) with (_occupationFlags s).
  rewrite (for_occupied_map lift_scratch (fun r => (as_map r.1, r.2)) lg (cleanup_move zeroK lg hash s)).
  - by destruct (for_occupied _ _ _ _) as [[? ?]|?].
  - intros i st. rewrite as_map_move. by destruct (cleanup_move _ _ _ _ _ _) as [[? ?]|?].
Qed.
End Simulation.

(** ** Refinement to finite sets *)
Section Refinement.
Context {K : Type} `{!EqDecision K, !Countable K} (zeroK : K).
Variable lg : nat.
Variable hash : K -> Z.

Abbreviation L := (2 ^ Z.of_nat lg).
Implicit Types s : HashSet K.

Definition hashset_ok s : Prop := hashmap_ok zeroK tt lg hash (as_map s).

Definition elements_of s : gset K := dom (contents zeroK tt lg (as_map s)).

Inductive hs_op :=
  | Op_add (k : K) | Op_contains (k : K) | Op_remove (k : K) | Op_cleanup
  | Op_cleanupIfNeeded (percent : Z) | Op_reset | Op_population.

Inductive hs_obs := Obs_bool (b : bool) | Obs_num (n : Z) | Obs_unit.

Definition found (i : Z) : hs_obs := Obs_bool (negb (i =? NULL_INDEX)).

Definition hs_exec (o : hs_op) s : HashSet K * hs_obs :=
  match o with
  | Op_add k => let r := add zeroK lg hash s k in (r.1, found r.2)
  | Op_contains k => (s, Obs_bool (contains zeroK lg hash s k))
  | Op_remove k => let r := remove zeroK lg hash s k in (r.1, found r.2)
  | Op_cleanup => let r := cleanup zeroK lg hash s in (r.1, Obs_bool r.2)
  | Op_cleanupIfNeeded p => let r := cleanupIfNeeded zeroK lg hash s p in (r.1, Obs_bool r.2)
  | Op_reset => (reset zeroK lg, Obs_unit)
  | Op_population => (s, Obs_num (population s))
  end.

(** A finite set of at most [L] keys. *)
Definition hs_spec (o : hs_op) (X : gset K) : gset K * hs_obs :=
  match o with
  | Op_add k => if decide (k ∈ X \/ Z.of_nat (size X) < L)
                then ({[k]} ∪ X, Obs_bool true) else (X, Obs_bool false)
  | Op_contains k => (X, Obs_bool (bool_decide (k ∈ X)))
  | Op_remove k => (X ∖ {[k]}, Obs_bool (bool_decide (k ∈ X)))
  | Op_cleanup | Op_cleanupIfNeeded _ => (X, Obs_bool false)
  | Op_reset => (∅, Obs_unit)
  | Op_population => (X, Obs_num (Z.of_nat (size X)))
  end.

Fixpoint run {S : Type} (step : hs_op -> S -> S * hs_obs) (ops : list hs_op) (s : S)
  : S * list hs_obs :=
  match ops with
  | [] => (s, [])
  | o :: ops' => let r := step o s in let rs := run step ops' r.1 in (rs.1, r.2 :: rs.2)
  end.

Hypothesis Hlg : (lg < 64)%nat.

Lemma set_contains_spec s k :
  hashset_ok s -> contains zeroK lg hash s k = bool_decide (k ∈ elements_of s).
Proof.
  intros Hok. unfold contains. rewrite <- as_map_getElementIndex.
  etrans; [apply (HashMap.contains_spec zeroK tt lg hash Hlg (as_map s) k Hok)|].
  apply bool_decide_ext. unfold elements_of. by rewrite elem_of_dom.
Qed.

Lemma set_cleanup_any s :
  hashset_ok s -> let r := cleanup zeroK lg hash s in
  r.2 = false /\ hashset_ok r.1 /\ elements_of r.1 = elements_of s.
Proof.
  intros Hok. pose proof (cleanup_any zeroK tt lg hash Hlg (as_map s) Hok) as (Hb & Hok' & Hm).
  rewrite as_map_cleanup in *. cbn [fst snd] in *. split; [done|]. split; [done|].
  unfold elements_of. by rewrite Hm.
Qed.

Lemma set_step_refines o s :
  hashset_ok s ->
  hashset_ok (hs_exec o s).1 /\
  elements_of (hs_exec o s).1 = (hs_spec o (elements_of s)).1 /\
  (hs_exec o s).2 = (hs_spec o (elements_of s)).2.
Proof.
  intros Hok. destruct o as [k|k|k| |p| |]; cbn [hs_exec hs_spec].
  - pose proof (set_any zeroK tt lg hash Hlg (as_map s) k tt Hok) as Hs. cbn zeta in Hs.
    rewrite as_map_add in Hs. unfold elements_of, hashset_ok in *. rewrite size_dom.
    destruct (decide (k ∈ _ \/ _)) as [Hd|Hd]; rewrite elem_of_dom in Hd.
    + rewrite decide_True in Hs by done. destruct Hs as (? & Hm & Hi & _).
      cbn [fst snd lift] in *. rewrite Hm, dom_insert_L. split; [done|]. split; [done|].
      unfold found. rewrite (proj2 (Z.eqb_neq _ _)); [done|]. by apply (NULL_not_in lg).
    + rewrite decide_False in Hs by done. pose proof (f_equal fst Hs) as Hs1. pose proof (f_equal snd Hs) as Hs2.
      cbn [fst snd lift] in *. by rewrite Hs1, Hs2.
  - by rewrite set_contains_spec.
  - pose proof (removeByKey_ok zeroK tt lg hash Hlg (as_map s) k Hok) as (Hok' & Hm & Hi & _).
    rewrite as_map_remove in *. cbn [fst snd lift] in *. split; [done|].
    unfold elements_of. rewrite Hm, dom_delete_L. split; [done|].
    rewrite Hi, as_map_getElementIndex. unfold found. f_equal.
    by apply set_contains_spec.
  - destruct (set_cleanup_any s Hok) as (Hb & ? & ?). cbn [fst snd]. by rewrite Hb.
  - unfold cleanupIfNeeded. case_match; [|done].
    destruct (set_cleanup_any s Hok) as (Hb & ? & ?). cbn [fst snd]. by rewrite Hb.
  - destruct (reset_ok zeroK tt lg hash Hlg) as [Hok' Hm]. rewrite as_map_reset in Hok', Hm.
    cbn [fst snd]. split; [done|]. unfold elements_of. by rewrite Hm, dom_empty_L.
  - pose proof (population_size zeroK tt lg hash (as_map s) Hok) as Hp.
    cbn [fst snd]. unfold elements_of. by rewrite size_dom, <- Hp.
Qed.

Lemma set_run_refines ops s :
  hashset_ok s ->
  hashset_ok (run hs_exec ops s).1 /\
  elements_of (run hs_exec ops s).1 = (run hs_spec ops (elements_of s)).1 /\
  (run hs_exec ops s).2 = (run hs_spec ops (elements_of s)).2.
Proof.
  revert s. induction ops as [|o ops IH]; intros s Hok; [done|]. cbn [run fst snd].
  destruct (set_step_refines o s Hok) as (Hok' & Hmap & Hobs).
  destruct (IH _ Hok') as (? & Hm & Ho). rewrite Hmap in Hm, Ho. split; [done|].
  split; [done|]. by rewrite Hobs, Ho.
Qed.

(** every sequence of HashSet operations, started on a reset set of capacity [2^lg],
    returns what a finite set of at most [2^lg] keys returns, and the stored keys are that
    set; the [cleanupBug] branch is never taken. *)
Theorem hashset_refines_set (ops : list hs_op) :
  let r := run hs_exec ops (reset zeroK lg) in
  let X := run hs_spec ops ∅ in
  r.2 = X.2 /\ elements_of r.1 = X.1 /\ hashset_ok r.1.
Proof.
  destruct (reset_ok zeroK tt lg hash Hlg) as [Hok Hm]. rewrite as_map_reset in Hok, Hm.
  destruct (set_run_refines ops (reset zeroK lg) Hok) as (? & Hs & Ho).
  assert (elements_of (reset zeroK lg) = ∅) as He by (unfold elements_of; by rewrite Hm, dom_empty_L).
  rewrite He in Hs, Ho. done.
Qed.
End Refinement.

Lemma hashset_refines_set_witness :
  let ops := [Op_add 1; Op_add 5; Op_add 9; Op_remove 5; Op_contains 9; Op_add 13; Op_cleanup;
              Op_contains 5; Op_population] in
  (run (hs_exec 0 2 u64) ops (reset 0 2)).2 =
    [Obs_bool true; Obs_bool true; Obs_bool true; Obs_bool true; Obs_bool true; Obs_bool true;
     Obs_bool false; Obs_bool false; Obs_num 3].
Proof.
  intros ops. rewrite (proj1 (hashset_refines_set 0 2 u64 ltac:(lia) ops)).
  vm_compute. reflexivity.
Defined.
