(* ===== verification/Collection.v ===== *)
(** * QPI::Collection (src/qpi/impl/qpi_collection_impl.h, src/qpi/qpi_containers.h)

    A collection keeps one priority queue per point of view (pov).  The povs are the keys of an open-addressing
    hash table; the elements of all queues share one array, filled without gaps; the elements of a pov are linked to a
    binary search tree by the indices in [bstParentIndex], [bstLeftIndex], [bstRightIndex].
    Loops that follow links have fuel; [None] stands for a loop that did not end in it. *)
From S2P Require Import Prelude OpenAddressing OccupationFlags OccupiedSlots.

(** [Element] *)
Record Element (T : Type) := mkElement {
  e_value : T;
  e_priority : Z;
  povIndex : Z;
  bstParentIndex : Z;
  bstLeftIndex : Z;
  bstRightIndex : Z }.
Arguments mkElement {T} _ _ _ _ _ _.
Arguments e_value {T} _.
Arguments e_priority {T} _.
Arguments povIndex {T} _.
Arguments bstParentIndex {T} _.
Arguments bstLeftIndex {T} _.
Arguments bstRightIndex {T} _.

(** [PoV] *)
Record PoV := mkPoV {
  pov_value : Z;
  pov_population : Z;
  pov_headIndex : Z;
  pov_tailIndex : Z;
  bstRootIndex : Z }.
#[global] Instance pov_inhabited : Inhabited PoV := populate (mkPoV 0 0 0 0 0).

Record Collection (T : Type) := mkCollection {
  _povs : list PoV;
  _povOccupationFlags : list Z;
  _elements : list (Element T);
  _population : Z;
  _markRemovalCounter : Z }.
Arguments mkCollection {T} _ _ _ _ _.
Arguments _povs {T} _.
Arguments _povOccupationFlags {T} _.
Arguments _elements {T} _.
Arguments _population {T} _.
Arguments _markRemovalCounter {T} _.

(** Assignments to one field. *)
Section fields.
Context {T : Type}.
Implicit Types (e : Element T) (c : Collection T).
Definition set_value (v : T) e := mkElement v (e_priority e) (povIndex e) (bstParentIndex e) (bstLeftIndex e) (bstRightIndex e).
Definition set_priority (p : Z) e := mkElement (e_value e) p (povIndex e) (bstParentIndex e) (bstLeftIndex e) (bstRightIndex e).
Definition set_povIndex (p : Z) e := mkElement (e_value e) (e_priority e) p (bstParentIndex e) (bstLeftIndex e) (bstRightIndex e).
Definition set_parent (p : Z) e := mkElement (e_value e) (e_priority e) (povIndex e) p (bstLeftIndex e) (bstRightIndex e).
Definition set_left (l : Z) e := mkElement (e_value e) (e_priority e) (povIndex e) (bstParentIndex e) l (bstRightIndex e).
Definition set_right (r : Z) e := mkElement (e_value e) (e_priority e) (povIndex e) (bstParentIndex e) (bstLeftIndex e) r.

Definition set_pov_population (n : Z) p := mkPoV (pov_value p) n (pov_headIndex p) (pov_tailIndex p) (bstRootIndex p).
Definition set_pov_head (n : Z) p := mkPoV (pov_value p) (pov_population p) n (pov_tailIndex p) (bstRootIndex p).
Definition set_pov_tail (n : Z) p := mkPoV (pov_value p) (pov_population p) (pov_headIndex p) n (bstRootIndex p).
Definition set_pov_root (n : Z) p := mkPoV (pov_value p) (pov_population p) (pov_headIndex p) (pov_tailIndex p) n.
Definition set_pov_value (n : Z) p := mkPoV n (pov_population p) (pov_headIndex p) (pov_tailIndex p) (bstRootIndex p).

Definition with_elements (els : list (Element T)) c := mkCollection (_povs c) (_povOccupationFlags c) els (_population c) (_markRemovalCounter c).
Definition with_povs (ps : list PoV) c := mkCollection ps (_povOccupationFlags c) (_elements c) (_population c) (_markRemovalCounter c).
Definition with_flags (fl : list Z) c := mkCollection (_povs c) fl (_elements c) (_population c) (_markRemovalCounter c).
Definition with_population (n : Z) c := mkCollection (_povs c) (_povOccupationFlags c) (_elements c) n (_markRemovalCounter c).
End fields.

Section Collection.
(** [zeroT] is the object whose bytes are all zero. *)
Context {T : Type} (zeroT : T).
Variable lg : nat.
Abbreviation L := (2 ^ Z.of_nat lg).
Abbreviation fuel := (Datatypes.S (Z.to_nat L)).

Definition zeroElement : Element T := mkElement zeroT 0 0 0 0 0.
#[local] Instance collection_element_inhabited : Inhabited (Element T) := populate zeroElement.

Implicit Types (els : list (Element T)) (c : Collection T).

(** [_elements[i].field = v] *)
Definition upd (f : Element T -> Element T) (i : Z) els : list (Element T) := els.[i := f (els.[i])].
Definition upd_pov (f : PoV -> PoV) (i : Z) (ps : list PoV) : list PoV := ps.[i := f (ps.[i])].

Definition capacity : Z := L.
Definition pov_hash (pov : Z) : Z := Z.land (u64 pov) (L - 1).

Definition reset : Collection T :=
  mkCollection (replicate (Z.to_nat L) (mkPoV 0 0 0 0 0)) (flags_zero lg) (replicate (Z.to_nat L) zeroElement) 0 0.
Definition _softReset c : Collection T :=
  mkCollection (replicate (Z.to_nat L) (mkPoV 0 0 0 0 0)) (flags_zero lg) (_elements c) 0 0.

(** ** Walking the trees *)
Fixpoint _getMostLeft (n : nat) els (elementIdx : Z) : option Z :=
  match n with
  | O => None
  | S n => if bstLeftIndex (els.[elementIdx]) =? NULL_INDEX then Some elementIdx else _getMostLeft n els (bstLeftIndex (els.[elementIdx]))
  end.
Fixpoint _getMostRight (n : nat) els (elementIdx : Z) : option Z :=
  match n with
  | O => None
  | S n => if bstRightIndex (els.[elementIdx]) =? NULL_INDEX then Some elementIdx else _getMostRight n els (bstRightIndex (els.[elementIdx]))
  end.

(** [while (parentIdx != NULL_INDEX && _elements[parentIdx].bstLeftIndex == elementIdx)], and its mirror image *)
Fixpoint climb_left (n : nat) els (elementIdx parentIdx : Z) : option Z :=
  match n with
  | O => None
  | S n =>
      if negb (parentIdx =? NULL_INDEX) && (bstLeftIndex (els.[parentIdx]) =? elementIdx)
      then climb_left n els parentIdx (bstParentIndex (els.[parentIdx])) else Some parentIdx
  end.
Fixpoint climb_right (n : nat) els (elementIdx parentIdx : Z) : option Z :=
  match n with
  | O => None
  | S n =>
      if negb (parentIdx =? NULL_INDEX) && (bstRightIndex (els.[parentIdx]) =? elementIdx)
      then climb_right n els parentIdx (bstParentIndex (els.[parentIdx])) else Some parentIdx
  end.

Definition _previousElementIndex c (elementIdx : Z) : option Z :=
  let els := _elements c in
  let elementIdx := Z.land elementIdx (L - 1) in
  if elementIdx <? _population c then
    if negb (bstLeftIndex (els.[elementIdx]) =? NULL_INDEX) then _getMostRight fuel els (bstLeftIndex (els.[elementIdx]))
    else if negb (bstParentIndex (els.[elementIdx]) =? NULL_INDEX) then
      let parentIdx := bstParentIndex (els.[elementIdx]) in
      if bstRightIndex (els.[parentIdx]) =? elementIdx then Some parentIdx
      else if bstLeftIndex (els.[parentIdx]) =? elementIdx then climb_left fuel els elementIdx parentIdx
      else Some NULL_INDEX
    else Some NULL_INDEX
  else Some NULL_INDEX.

Definition _nextElementIndex c (elementIdx : Z) : option Z :=
  let els := _elements c in
  let elementIdx := Z.land elementIdx (L - 1) in
  if elementIdx <? _population c then
    if negb (bstRightIndex (els.[elementIdx]) =? NULL_INDEX) then _getMostLeft fuel els (bstRightIndex (els.[elementIdx]))
    else if negb (bstParentIndex (els.[elementIdx]) =? NULL_INDEX) then
      let parentIdx := bstParentIndex (els.[elementIdx]) in
      if bstLeftIndex (els.[parentIdx]) =? elementIdx then Some parentIdx
      else if bstRightIndex (els.[parentIdx]) =? elementIdx then climb_right fuel els elementIdx parentIdx
      else Some NULL_INDEX
    else Some NULL_INDEX
  else Some NULL_INDEX.

(** The index and the number of iterations. *)
Fixpoint search_loop (n : nat) els (idx priority count : Z) : option (Z * Z) :=
  match n with
  | O => None
  | S n =>
      if idx =? NULL_INDEX then Some (NULL_INDEX, count)
      else
        let curElement := els.[idx] in
        if priority <=? e_priority curElement then
          if negb (bstRightIndex curElement =? NULL_INDEX) then search_loop n els (bstRightIndex curElement) priority (count + 1)
          else Some (idx, count + 1)
        else
          if negb (bstLeftIndex curElement =? NULL_INDEX) then search_loop n els (bstLeftIndex curElement) priority (count + 1)
          else Some (idx, count + 1)
  end.
Definition _searchElement els (bstRootIndex priority : Z) : option (Z * Z) := search_loop fuel els bstRootIndex priority 0.

(** One round of the loop of [_getSortedElements]; the state is [elementIdx], [lastElementIdx] and the indices written so far. *)
Definition sorted_step els (st : Z * Z * list Z) : Z * Z * list Z :=
  let '(elementIdx, lastElementIdx, out) := st in
  let e := els.[elementIdx] in
  let third lastElementIdx out :=
    if lastElementIdx =? bstRightIndex e then (bstParentIndex e, elementIdx, out) else (elementIdx, lastElementIdx, out) in
  let second lastElementIdx :=
    if lastElementIdx =? bstLeftIndex e then
      let out := out ++ [elementIdx] in
      if negb (bstRightIndex e =? NULL_INDEX) then (bstRightIndex e, elementIdx, out) else third NULL_INDEX out
    else third lastElementIdx out in
  if lastElementIdx =? bstParentIndex e then
    if negb (bstLeftIndex e =? NULL_INDEX) then (bstLeftIndex e, elementIdx, out) else second NULL_INDEX
  else second lastElementIdx.
Fixpoint sorted_loop (n : nat) els (st : Z * Z * list Z) : option (list Z) :=
  match n with
  | O => None
  | S n => let '(elementIdx, _, out) := st in if elementIdx =? NULL_INDEX then Some out else sorted_loop n els (sorted_step els st)
  end.
Definition _getSortedElements els (rootIdx : Z) : option (list Z) :=
  sorted_loop (3 * fuel) els (rootIdx, NULL_INDEX, []).

(** ** Rebuilding a balanced tree *)

(** The ring of pending ranges: parent element, [left], [right], position of the parent. *)
Record RangeQueue := mkQueue { ranges : list (Z * Z * Z * Z); dequeueIdx : Z; enqueueIdx : Z; queueSize : Z }.

Definition push (r : Z * Z * Z * Z) (q : RangeQueue) : RangeQueue :=
  mkQueue ((ranges q).[enqueueIdx q := r]) (dequeueIdx q) (Z.land (enqueueIdx q + 1) (L - 1)) (queueSize q + 1).

Definition no_links (parent : Z) (e : Element T) : Element T := set_right NULL_INDEX (set_left NULL_INDEX (set_parent parent e)).

Definition rebuild_step (sorted : list Z) (st : list (Element T) * RangeQueue) : list (Element T) * RangeQueue :=
  let '(els, q) := st in
  let '(parentElementIdx, lo, hi, parentMid) := (ranges q).[dequeueIdx q] in
  let q := mkQueue (ranges q) (Z.land (dequeueIdx q + 1) (L - 1)) (enqueueIdx q) (queueSize q - 1) in
  if lo <=? hi then
    let mid := (lo + hi) / 2 in
    let elementIdx := sorted.[mid] in
    let els := upd (no_links parentElementIdx) elementIdx els in
    let els := if mid <? parentMid then upd (set_left elementIdx) parentElementIdx els else upd (set_right elementIdx) parentElementIdx els in
    let q := if lo <? mid then push (elementIdx, lo, mid - 1, mid) q else q in
    let q := if mid <? hi then push (elementIdx, mid + 1, hi, mid) q else q in
    (els, q)
  else (els, q).
Fixpoint rebuild_loop (n : nat) (sorted : list Z) (st : list (Element T) * RangeQueue) : option (list (Element T)) :=
  match n with
  | O => None
  | S n => if 0 <? queueSize st.2 then rebuild_loop n sorted (rebuild_step sorted st) else Some st.1
  end.

(** [scratch] tells whether the scratchpad could be allocated. *)
Definition _rebuild (scratch : bool) els (rootIdx : Z) : option (list (Element T) * Z) :=
  if negb scratch then Some (els, rootIdx)
  else
    match _getSortedElements els rootIdx with
    | None => None
    | Some sorted =>
        let n := alen sorted in
        if n =? 0 then Some (els, rootIdx)
        else
          let mid := n / 2 in
          let rootIdx := sorted.[mid] in
          let els := upd (no_links NULL_INDEX) rootIdx els in
          let q := mkQueue (replicate (Z.to_nat L) (0, 0, 0, 0)) 0 0 0 in
          let q := if 0 <? mid then push (rootIdx, 0, mid - 1, mid) q else q in
          let q := if mid + 1 <? n then push (rootIdx, mid + 1, n - 1, mid) q else q in
          match rebuild_loop fuel sorted (els, q) with
          | None => None
          | Some els => Some (els, rootIdx)
          end
    end.

(** ** Lookup *)

Definition _povIndex_body c (pov flag index : Z) (_ : unit) : Z + unit :=
  if flag =? 0 then inl NULL_INDEX
  else if flag =? 1 then if pov_value ((_povs c).[index]) =? pov then inl index else inr tt
  else inr tt.
Definition _povIndex c (pov : Z) : Z :=
  match scan_flags lg (_povIndex_body c pov) (_povOccupationFlags c) (pov_hash pov) tt with
  | inl r => r
  | inr _ => NULL_INDEX
  end.

Abbreviation priority_at c i := (e_priority ((_elements c).[i])).

(** [while (true) { idx = _nextElementIndex(idx); if (_elements[idx].priority <= maxPriority) break; }] *)
Fixpoint forward_to (n : nat) c (maxPriority idx : Z) : option Z :=
  match n with
  | O => None
  | S n => idx ← _nextElementIndex c idx; if priority_at c idx <=? maxPriority then Some idx else forward_to n c maxPriority idx
  end.
Fixpoint backward_from (n : nat) c (maxPriority idx : Z) : option Z :=
  match n with
  | O => None
  | S n =>
      prevIdx ← _previousElementIndex c idx;
      if (prevIdx =? NULL_INDEX) || (maxPriority <? priority_at c prevIdx) then Some idx else backward_from n c maxPriority prevIdx
  end.
Definition _headIndex c (povIndex maxPriority : Z) : option Z :=
  let pov := (_povs c).[povIndex] in
  if priority_at c (pov_headIndex pov) <=? maxPriority then Some (pov_headIndex pov)
  else if maxPriority <? priority_at c (pov_tailIndex pov) then Some NULL_INDEX
  else
    '(idx, _) ← _searchElement (_elements c) (bstRootIndex pov) maxPriority;
    if maxPriority <? priority_at c idx then forward_to fuel c maxPriority idx else backward_from fuel c maxPriority idx.

Fixpoint forward_from (n : nat) c (minPriority idx : Z) : option Z :=
  match n with
  | O => None
  | S n =>
      nextIdx ← _nextElementIndex c idx;
      if (nextIdx =? NULL_INDEX) || (priority_at c nextIdx <? minPriority) then Some idx else forward_from n c minPriority nextIdx
  end.
Fixpoint backward_to (n : nat) c (minPriority idx : Z) : option Z :=
  match n with
  | O => None
  | S n => idx ← _previousElementIndex c idx; if minPriority <=? priority_at c idx then Some idx else backward_to n c minPriority idx
  end.
Definition _tailIndex c (povIndex minPriority : Z) : option Z :=
  let pov := (_povs c).[povIndex] in
  if priority_at c (pov_headIndex pov) <? minPriority then Some NULL_INDEX
  else if minPriority <=? priority_at c (pov_tailIndex pov) then Some (pov_tailIndex pov)
  else
    '(idx, _) ← _searchElement (_elements c) (bstRootIndex pov) minPriority;
    if minPriority <=? priority_at c idx then forward_from fuel c minPriority idx else backward_to fuel c minPriority idx.

Definition headIndex c (pov : Z) : Z :=
  let povIndex := _povIndex c pov in if povIndex <? 0 then NULL_INDEX else pov_headIndex ((_povs c).[povIndex]).
Definition headIndex_max c (pov maxPriority : Z) : option Z :=
  let povIndex := _povIndex c pov in if povIndex <? 0 then Some NULL_INDEX else _headIndex c povIndex maxPriority.
Definition tailIndex c (pov : Z) : Z :=
  let povIndex := _povIndex c pov in if povIndex <? 0 then NULL_INDEX else pov_tailIndex ((_povs c).[povIndex]).
Definition tailIndex_min c (pov minPriority : Z) : option Z :=
  let povIndex := _povIndex c pov in if povIndex <? 0 then Some NULL_INDEX else _tailIndex c povIndex minPriority.
Definition nextElementIndex c (elementIndex : Z) : option Z := _nextElementIndex c elementIndex.
Definition prevElementIndex c (elementIndex : Z) : option Z := _previousElementIndex c elementIndex.
Definition population c : Z := _population c.
Definition population_of c (pov : Z) : Z :=
  let povIndex := _povIndex c pov in if povIndex <? 0 then 0 else pov_population ((_povs c).[povIndex]).
Definition element c (elementIndex : Z) : T := e_value ((_elements c).[Z.land elementIndex (L - 1)]).
Definition priority c (elementIndex : Z) : Z := e_priority ((_elements c).[Z.land elementIndex (L - 1)]).
Definition pov_at c (elementIndex : Z) : Z :=
  pov_value ((_povs c).[povIndex ((_elements c).[Z.land elementIndex (L - 1)])]).
Definition replace c (oldElementIndex : Z) (newElement : T) : Collection T :=
  if u64 oldElementIndex <? _population c then with_elements (upd (set_value newElement) oldElementIndex (_elements c)) c else c.

(** ** Insertion *)

(** [Element::init] *)
Definition init (value : T) (priority povIndex : Z) : Element T := mkElement value priority povIndex NULL_INDEX NULL_INDEX NULL_INDEX.

(** The guard [_population < capacity()] of the caller keeps the counters below [2^64]. *)
Definition _addPovElement (scratch : bool) c (povIndex : Z) (value : T) (priority : Z) : option (Collection T * Z) :=
  let newElementIdx := _population c in
  let els := (_elements c).[newElementIdx := init value priority povIndex] in
  let pov := (_povs c).[povIndex] in
  '(els, pov) ←
    (if pov_population pov =? 0 then Some (els, mkPoV (pov_value pov) 1 newElementIdx newElementIdx newElementIdx)
     else
       '(parentIdx, iterations_count) ← _searchElement els (bstRootIndex pov) priority;
       let els := if priority <=? e_priority (els.[parentIdx]) then upd (set_right newElementIdx) parentIdx els
                  else upd (set_left newElementIdx) parentIdx els in
       let els := upd (set_parent parentIdx) newElementIdx els in
       let pov := set_pov_population (pov_population pov + 1) pov in
       let pov :=
         if e_priority (els.[pov_headIndex pov]) <? priority then set_pov_head newElementIdx pov
         else if priority <=? e_priority (els.[pov_tailIndex pov]) then set_pov_tail newElementIdx pov else pov in
       if (32 <? pov_population pov) && (pov_population pov / 4 <? iterations_count) then
         '(els, root) ← _rebuild scratch els (bstRootIndex pov); Some (els, set_pov_root root pov)
       else Some (els, pov));
  Some (mkCollection ((_povs c).[povIndex := pov]) (_povOccupationFlags c) els (newElementIdx + 1) (_markRemovalCounter c), newElementIdx).

(** The slot of [pov], occupied if it was not before; the accumulator is [markedForRemovalIndexForReuse]. *)
Definition reuse_slot c (pov povIndex : Z) : Collection T * Z :=
  (mkCollection (upd_pov (set_pov_value pov) povIndex (_povs c)) (flags_toggle (_povOccupationFlags c) povIndex)
     (_elements c) (_population c) (_markRemovalCounter c), povIndex).
Definition add_body c (pov flag index marked : Z) : (Collection T * Z) + Z :=
  if flag =? 0 then
    if negb (marked =? NULL_INDEX) then inl (reuse_slot c pov marked)
    else inl (mkCollection (upd_pov (set_pov_value pov) index (_povs c)) (flags_occupy (_povOccupationFlags c) index)
                (_elements c) (_population c) (_markRemovalCounter c), index)
  else if flag =? 1 then if pov_value ((_povs c).[index]) =? pov then inl (c, index) else inr marked
  else if flag =? 2 then if marked =? NULL_INDEX then inr index else inr marked
  else inr marked.
Definition add_slot c (pov : Z) : option (Collection T * Z) :=
  match scan_flags lg (add_body c pov) (_povOccupationFlags c) (pov_hash pov) NULL_INDEX with
  | inl r => Some r
  | inr marked => if negb (marked =? NULL_INDEX) then Some (reuse_slot c pov marked) else None
  end.
Definition add (scratch : bool) c (pov : Z) (element : T) (priority : Z) : option (Collection T * Z) :=
  if _population c <? capacity then
    match add_slot c pov with
    | Some (c, povIndex) => _addPovElement scratch c povIndex element priority
    | None => Some (c, NULL_INDEX)
    end
  else Some (c, NULL_INDEX).

(** ** Removal *)

Definition _updateParent els (elementIdx newElementIdx : Z) : list (Element T) * bool :=
  if negb (elementIdx =? NULL_INDEX) then
    let parentIdx := bstParentIndex (els.[elementIdx]) in
    if negb (parentIdx =? NULL_INDEX) then
      let els := if bstRightIndex (els.[parentIdx]) =? elementIdx then upd (set_right newElementIdx) parentIdx els
                 else upd (set_left newElementIdx) parentIdx els in
      let els := if negb (newElementIdx =? NULL_INDEX) then upd (set_parent (bstParentIndex (els.[elementIdx]))) newElementIdx els else els in
      (els, true)
    else (els, false)
  else (els, false).

Definition _moveElement (ps : list PoV) els (srcIdx dstIdx : Z) : list PoV * list (Element T) :=
  let els := els.[dstIdx := els.[srcIdx]] in
  let povIndex := povIndex (els.[dstIdx]) in
  let pov := ps.[povIndex] in
  let pov := if bstRootIndex pov =? srcIdx then set_pov_root dstIdx pov else pov in
  let pov := if pov_headIndex pov =? srcIdx then set_pov_head dstIdx pov else pov in
  let pov := if pov_tailIndex pov =? srcIdx then set_pov_tail dstIdx pov else pov in
  let ps := ps.[povIndex := pov] in
  let els := if negb (bstLeftIndex (els.[dstIdx]) =? NULL_INDEX) then upd (set_parent dstIdx) (bstLeftIndex (els.[dstIdx])) els else els in
  let els := if negb (bstRightIndex (els.[dstIdx]) =? NULL_INDEX) then upd (set_parent dstIdx) (bstRightIndex (els.[dstIdx])) els else els in
  let parentIdx := bstParentIndex (els.[dstIdx]) in
  let els := if negb (parentIdx =? NULL_INDEX) then
               if bstLeftIndex (els.[parentIdx]) =? srcIdx then upd (set_left dstIdx) parentIdx els else upd (set_right dstIdx) parentIdx els
             else els in
  (ps, els).

(** The four cases of [remove] for a queue of more than one element: elements and queue afterwards, the slot to fill, the next
    element. *)
Definition remove_node c (elementIdx : Z) (pov : PoV) : option (list (Element T) * PoV * Z * Z) :=
  let els := _elements c in
  let curElement := els.[elementIdx] in
  next ← _nextElementIndex c elementIdx;
  if negb (bstRightIndex curElement =? NULL_INDEX) && negb (bstLeftIndex curElement =? NULL_INDEX) then
    let tmpIdx := next in
    pov ← (if tmpIdx =? pov_tailIndex pov then prev ← _previousElementIndex c tmpIdx; Some (set_pov_tail prev pov) else Some pov);
    let rightTmpIndex := bstRightIndex (els.[tmpIdx]) in
    let els :=
      if tmpIdx =? bstRightIndex curElement then
        let els := upd (set_right rightTmpIndex) elementIdx els in
        if negb (rightTmpIndex =? NULL_INDEX) then upd (set_parent elementIdx) rightTmpIndex els else els
      else
        let els := upd (set_left rightTmpIndex) (bstParentIndex (els.[tmpIdx])) els in
        if negb (rightTmpIndex =? NULL_INDEX) then upd (set_parent (bstParentIndex (els.[tmpIdx]))) rightTmpIndex els else els in
    let els := upd (set_value (e_value (els.[tmpIdx]))) elementIdx els in
    let els := upd (set_priority (e_priority (els.[tmpIdx]))) elementIdx els in
    Some (els, pov, tmpIdx, elementIdx)
  else if negb (bstRightIndex curElement =? NULL_INDEX) then
    let pov := if elementIdx =? pov_headIndex pov then set_pov_head next pov else pov in
    let child := bstRightIndex curElement in
    let '(els, hasParent) := _updateParent els elementIdx child in
    if hasParent then Some (els, pov, elementIdx, next)
    else Some (upd (set_parent NULL_INDEX) child els, set_pov_root child pov, elementIdx, next)
  else if negb (bstLeftIndex curElement =? NULL_INDEX) then
    pov ← (if elementIdx =? pov_tailIndex pov then prev ← _previousElementIndex c elementIdx; Some (set_pov_tail prev pov) else Some pov);
    let child := bstLeftIndex curElement in
    let '(els, hasParent) := _updateParent els elementIdx child in
    if hasParent then Some (els, pov, elementIdx, next)
    else Some (upd (set_parent NULL_INDEX) child els, set_pov_root child pov, elementIdx, next)
  else
    pov ← (if elementIdx =? pov_headIndex pov then Some (set_pov_head next pov)
           else if elementIdx =? pov_tailIndex pov then prev ← _previousElementIndex c elementIdx; Some (set_pov_tail prev pov)
           else Some pov);
    Some ((_updateParent els elementIdx NULL_INDEX).1, pov, elementIdx, next).

(** The part of [remove] that fills the gap at [deleteElementIdx] with the last element and clears the last slot. *)
Definition remove_fill c (deleteElementIdx next : Z) : Collection T * Z :=
  let last := _population c - 1 in
  let '(ps, els, next) :=
    if negb (last =? 0) && negb (deleteElementIdx =? last) then
      let '(ps, els) := _moveElement (_povs c) (_elements c) last deleteElementIdx in
      (ps, els, if next =? last then deleteElementIdx else next)
    else (_povs c, _elements c, next) in
  (mkCollection ps (_povOccupationFlags c) (els.[last := zeroElement]) last (_markRemovalCounter c), next).

Definition remove c (elementIdx : Z) : option (Collection T * Z) :=
  let elementIdx := Z.land elementIdx (L - 1) in
  if elementIdx <? _population c then
    let povIndex := povIndex ((_elements c).[elementIdx]) in
    let pov := (_povs c).[povIndex] in
    if 1 <? pov_population pov then
      '(els, pov, deleteElementIdx, next) ← remove_node c elementIdx pov;
      let pov := set_pov_population (pov_population pov - 1) pov in
      Some (remove_fill (mkCollection ((_povs c).[povIndex := pov]) (_povOccupationFlags c) els (_population c) (_markRemovalCounter c))
              deleteElementIdx next)
    else
      Some (remove_fill (mkCollection (upd_pov (set_pov_population 0) povIndex (_povs c)) (flags_toggle (_povOccupationFlags c) povIndex)
                           (_elements c) (_population c) (u64 (_markRemovalCounter c + 1)))
              elementIdx NULL_INDEX)
  else Some (c, NULL_INDEX).

(** ** Cleanup *)

(** The walk that updates [element.povIndex]; the head of the list is the top of [_stackBuffer]. *)
Fixpoint relabel (n : nat) (newPovIndex : Z) (stack : list Z) els : option (list (Element T)) :=
  match stack with
  | [] => Some els
  | i :: stack =>
      match n with
      | O => None
      | S n =>
          let els := upd (set_povIndex newPovIndex) i els in
          let stack := if negb (bstLeftIndex (els.[i]) =? NULL_INDEX) then bstLeftIndex (els.[i]) :: stack else stack in
          let stack := if negb (bstRightIndex (els.[i]) =? NULL_INDEX) then bstRightIndex (els.[i]) :: stack else stack in
          relabel n newPovIndex stack els
      end
  end.

(** [_povsBuffer], [_povOccupationFlagsBuffer], the elements and [newPopulation]. *)
Definition scratch_state : Type := list PoV * list Z * list (Element T) * Z.

(** The result is the collection and whether the branch [cleanupBug] was taken, [None] if the walk did not end. *)
Definition cleanup_move c (oldPovIndex : Z) (st : scratch_state) : option (Collection T * bool) + scratch_state :=
  let '(ps, fl, els, newPopulation) := st in
  let pov := (_povs c).[oldPovIndex] in
  match cleanup_find lg (Z.to_nat ((L + 31) / 32)) fl (pov_hash (pov_value pov)) with
  | None => inl (Some (with_elements els c, true))
  | Some newPovIndex =>
      let fl := flags_occupy fl newPovIndex in
      let ps := ps.[newPovIndex := pov] in
      match (if newPovIndex =? oldPovIndex then Some els else relabel fuel newPovIndex [bstRootIndex (ps.[newPovIndex])] els) with
      | None => inl None
      | Some els =>
          let newPopulation := newPopulation + pov_population pov in
          if newPopulation =? _population c then inl (Some (mkCollection ps fl els (_population c) 0, false))
          else inr (ps, fl, els, newPopulation)
      end
  end.

Definition cleanup c : option (Collection T * bool) :=
  if _markRemovalCounter c =? 0 then Some (c, false)
  else if population c =? 0 then Some (_softReset c, false)
  else
    match for_occupied lg (cleanup_move c) (_povOccupationFlags c)
            (replicate (Z.to_nat L) (mkPoV 0 0 0 0 0), flags_zero lg, _elements c, 0) with
    | inl r => r
    | inr (_, _, els, _) => Some (with_elements els c, true)
    end.

Definition needsCleanup c (removalThresholdPercent : Z) : bool :=
  u64 (removalThresholdPercent * L) / 100 <? _markRemovalCounter c.
Definition cleanupIfNeeded c (removalThresholdPercent : Z) : option (Collection T * bool) :=
  if u64 (removalThresholdPercent * L) / 100 <? _markRemovalCounter c then cleanup c else Some (c, false).
End Collection.
