(* ===== verification/CollectionTree.v ===== *)
(** * The search trees of QPI::Collection

    The elements of a queue are linked to a binary search tree by indices.  This file relates the links to an
    inductive tree, describes a position in a tree by its context, and shows what the walks over the links
    ([_getMostLeft], [_nextElementIndex], [_searchElement], [_getSortedElements], ...) compute. *)
From S2P Require Import Prelude OpenAddressing OccupationFlags OccupiedSlots Collection.

(** ** Trees of indices and positions in them *)
Inductive tree := Leaf | Node (l : tree) (i : Z) (r : tree).

Fixpoint inorder (t : tree) : list Z :=
  match t with Leaf => [] | Node l i r => inorder l ++ i :: inorder r end.
Definition root (t : tree) : Z := match t with Leaf => NULL_INDEX | Node _ i _ => i end.

(** The hole of a frame is the left or the right child of the node; a context lists the frames from the hole to the root. *)
Inductive frame := InLeft (i : Z) (r : tree) | InRight (l : tree) (i : Z).
Abbreviation ctx := (list frame).
Definition fill (f : frame) (t : tree) : tree := match f with InLeft i r => Node t i r | InRight l i => Node l i t end.
Fixpoint plug (c : ctx) (t : tree) : tree := match c with [] => t | f :: c => plug c (fill f t) end.
Definition frame_node (f : frame) : Z := match f with InLeft i _ => i | InRight _ i => i end.
Definition parent_of (c : ctx) : Z := match c with [] => NULL_INDEX | f :: _ => frame_node f end.
Fixpoint before (c : ctx) : list Z :=
  match c with [] => [] | InLeft _ _ :: c => before c | InRight l i :: c => before c ++ inorder l ++ [i] end.
Fixpoint after (c : ctx) : list Z :=
  match c with [] => [] | InLeft i r :: c => i :: inorder r ++ after c | InRight _ _ :: c => after c end.

Lemma inorder_plug c t : inorder (plug c t) = before c ++ inorder t ++ after c.
Proof.
  revert t. induction c as [|[i r|l i] c IH]; intros t; simpl.
  - by rewrite app_nil_r.
  - rewrite IH. simpl. by rewrite <- !app_assoc.
  - rewrite IH. simpl. by rewrite <- !app_assoc.
Qed.

Lemma plug_app c1 c2 t : plug (c1 ++ c2) t = plug c2 (plug c1 t).
Proof. revert t. induction c1 as [|f c1 IH]; intros t; [done|]. apply IH. Qed.

Lemma length_ctx c t : (length c + length (inorder t) <= length (inorder (plug c t)))%nat.
Proof.
  rewrite inorder_plug, !length_app.
  assert (length c <= length (before c) + length (after c))%nat; [|lia].
  clear t. induction c as [|[i r|l i] c IH]; simpl; rewrite ?length_app; simpl; lia.
Qed.

(** Every element of a tree has a position. *)
Lemma tree_split t e : e ∈ inorder t -> exists c l r, t = plug c (Node l e r).
Proof.
  induction t as [|l IHl i r IHr]; simpl; [by rewrite elem_of_nil|].
  rewrite elem_of_app, elem_of_cons. intros [Hl|[->|Hr]].
  - destruct (IHl Hl) as (c & l' & r' & ->). exists (c ++ [InLeft i r]), l', r'. by rewrite plug_app.
  - by exists [], l, r.
  - destruct (IHr Hr) as (c & l' & r' & ->). exists (c ++ [InRight l i]), l', r'. by rewrite plug_app.
Qed.

Lemma NoDup_split_unique (l1 l2 k1 k2 : list Z) e :
  NoDup (l1 ++ e :: l2) -> l1 ++ e :: l2 = k1 ++ e :: k2 -> l1 = k1 /\ l2 = k2.
Proof.
  revert k1. induction l1 as [|x l1 IH]; intros [|y k1] Hnd; simpl; intros Heq; injection Heq.
  - done.
  - intros -> ->. apply NoDup_cons in Hnd as [[] _]. apply elem_of_app. right. left.
  - intros _ ->. apply NoDup_cons in Hnd as [[] _]. apply elem_of_app. right. left.
  - intros Ht ->. apply NoDup_cons in Hnd as [_ Hnd]. by destruct (IH _ Hnd Ht) as [-> ->].
Qed.

Lemma tree_split_at t l1 e l2 :
  NoDup (inorder t) -> inorder t = l1 ++ e :: l2 ->
  exists c l r, t = plug c (Node l e r) /\ l1 = before c ++ inorder l /\ l2 = inorder r ++ after c.
Proof.
  intros Hnd Hin. destruct (tree_split t e) as (c & l & r & ->); [rewrite Hin; set_solver|].
  exists c, l, r. split; [done|]. rewrite inorder_plug in *. simpl in *. rewrite Hin in Hnd.
  apply (NoDup_split_unique _ _ _ _ e Hnd). rewrite <- Hin, <- !app_assoc. done.
Qed.

(** First and last index, [NULL_INDEX] for the empty list. *)
Definition first_index (l : list Z) : Z := default NULL_INDEX (head l).
Definition last_index (l : list Z) : Z := default NULL_INDEX (last l).

Lemma first_index_app l k : l <> [] -> first_index (l ++ k) = first_index l.
Proof. by destruct l. Qed.
Lemma last_index_app l k : k <> [] -> last_index (l ++ k) = last_index k.
Proof.
  intros Hk. unfold last_index. rewrite last_app. destruct (last k) as [x|] eqn:Hl; [done|].
  by apply last_None in Hl.
Qed.
Lemma last_index_snoc l x : last_index (l ++ [x]) = x.
Proof. unfold last_index. by rewrite last_snoc. Qed.

(** Different indices below [n] *)
Lemma members_le (l : list Z) n : NoDup l -> Forall (fun i => 0 <= i < n) l -> (length l <= Z.to_nat n)%nat.
Proof.
  intros Hnd Hl. transitivity (length (seqZ 0 n)); [|by rewrite length_seqZ].
  apply submseteq_length, NoDup_submseteq; [done|]. intros x Hx. apply elem_of_seqZ. rewrite Forall_forall in Hl.
  specialize (Hl x Hx). lia.
Qed.

Lemma inorder_nil t : inorder t = [] <-> t = Leaf.
Proof. destruct t; [done|]. simpl. split; [|done]. by destruct (inorder _). Qed.

Lemma root_in t : t <> Leaf -> root t ∈ inorder t.
Proof. destruct t; [done|]. simpl. set_solver. Qed.

(** ** Links *)
Section links.
Context {T : Type} (zeroT : T).
#[local] Hint Extern 0 (Inhabited (Element T)) => exact (collection_element_inhabited zeroT) : typeclass_instances.
Implicit Types (els : list (Element T)) (t : tree) (c : ctx).

Definition links (e : Element T) : Z * Z * Z := (bstParentIndex e, bstLeftIndex e, bstRightIndex e).
Definition data (e : Element T) : T * Z * Z := (e_value e, e_priority e, povIndex e).

Lemma aget_upd f i els j :
  0 <= i < alen els -> (upd zeroT f i els).[j] = if decide (i = j) then f (els.[j]) else els.[j].
Proof.
  intros Hi. unfold upd. rewrite aget_aset. destruct (decide (i = j)) as [->|].
  - by rewrite decide_True.
  - rewrite decide_False; [done|]. by intros [? _].
Qed.
Lemma alen_upd f i els : alen (upd zeroT f i els) = alen els.
Proof. apply alen_aset. Qed.
Lemma upd_field {A} (g : Element T -> A) f i els j :
  (forall e, g (f e) = g e) -> g ((upd zeroT f i els).[j]) = g (els.[j]).
Proof.
  intros Hg. unfold upd. rewrite aget_aset. case_decide as Hd; [|done]. destruct Hd as [-> _]. apply Hg.
Qed.
Lemma upd_ne f i els j : i <> j -> (upd zeroT f i els).[j] = els.[j].
Proof. apply aget_aset_ne. Qed.
Lemma upd_eq f i els : 0 <= i < alen els -> (upd zeroT f i els).[i] = f (els.[i]).
Proof. apply aget_aset_eq. Qed.

(** The node [i] with the given neighbours. *)
Definition node els (i p l r : Z) : Prop := 0 <= i < alen els /\ links (els.[i]) = (p, l, r).

Fixpoint rep els (p : Z) t : Prop :=
  match t with
  | Leaf => True
  | Node l i r => node els i p (root l) (root r) /\ rep els i l /\ rep els i r
  end.

(** The frames of a context whose hole holds a tree with root [x]. *)
Fixpoint rep_ctx els c (x : Z) : Prop :=
  match c with
  | [] => True
  | InLeft i r :: c => node els i (parent_of c) x (root r) /\ rep els i r /\ rep_ctx els c i
  | InRight l i :: c => node els i (parent_of c) (root l) x /\ rep els i l /\ rep_ctx els c i
  end.

Lemma rep_plug els c t : rep els NULL_INDEX (plug c t) <-> rep_ctx els c (root t) /\ rep els (parent_of c) t.
Proof.
  revert t. induction c as [|[i r|l i] c IH]; intros t; simpl; [tauto|..]; rewrite IH; simpl; tauto.
Qed.

Lemma node_ext els els' i p l r :
  alen els' = alen els -> links (els'.[i]) = links (els.[i]) -> node els i p l r -> node els' i p l r.
Proof. unfold node. intros -> ->. done. Qed.

Lemma rep_ext els els' p t :
  alen els' = alen els -> (forall i, i ∈ inorder t -> links (els'.[i]) = links (els.[i])) -> rep els p t -> rep els' p t.
Proof.
  intros Hlen. revert p. induction t as [|l IHl i r IHr]; intros p Hl; simpl; [done|].
  intros (Hn & ? & ?). split; [|split].
  - apply (node_ext els); [done| |done]. apply Hl. simpl. set_solver.
  - apply IHl; [|done]. intros. apply Hl. simpl. set_solver.
  - apply IHr; [|done]. intros. apply Hl. simpl. set_solver.
Qed.

Lemma rep_ctx_ext els els' c x :
  alen els' = alen els -> (forall i, i ∈ before c \/ i ∈ after c -> links (els'.[i]) = links (els.[i])) ->
  rep_ctx els c x -> rep_ctx els' c x.
Proof.
  intros Hlen. revert x. induction c as [|[i r|l i] c IH]; intros x Hl; simpl in *; [done|..];
    intros (Hn & Hr & Hc); (split; [|split]).
  1, 4: apply (node_ext els); [done| |done]; apply Hl; set_solver.
  1, 3: apply (rep_ext els); [done| |done]; intros; apply Hl; set_solver.
  1, 2: apply IH; [|done]; intros; apply Hl; set_solver.
Qed.

Lemma rep_root_range els p t : t <> Leaf -> rep els p t -> 0 <= root t < alen els.
Proof. destruct t; [done|]. intros _ [[? _] _]. done. Qed.
Lemma rep_range els p t i : rep els p t -> i ∈ inorder t -> 0 <= i < alen els.
Proof.
  revert p. induction t as [|l IHl j r IHr]; intros p; simpl; [set_solver|].
  intros ((? & _) & ? & ?). rewrite elem_of_app, elem_of_cons. intros [?|[->|?]]; eauto.
Qed.
Lemma rep_range_inv els p t :
  rep els p t -> Forall (fun i => 0 <= i < alen els) (inorder t).
Proof. intros. apply Forall_forall. intros. by eapply rep_range. Qed.

Lemma root_null els p t : rep els p t -> (root t =? NULL_INDEX) = match t with Leaf => true | _ => false end.
Proof.
  destruct t as [|l i r]; [done|]. intros [[? _] _]. apply Z.eqb_neq. unfold NULL_INDEX, root. lia.
Qed.
Lemma node_fields els i p l r :
  node els i p l r -> bstParentIndex (els.[i]) = p /\ bstLeftIndex (els.[i]) = l /\ bstRightIndex (els.[i]) = r.
Proof. unfold node, links. intros [_ [= -> -> ->]]. done. Qed.
Lemma ctx_parent_range els c x : rep_ctx els c x -> c <> [] -> 0 <= parent_of c < alen els.
Proof. destruct c as [|[i r|l i] c]; [done|..]; intros [[? _] _] _; done. Qed.
Lemma ctx_parent_null els c x :
  rep_ctx els c x -> (parent_of c =? NULL_INDEX) = match c with [] => true | _ => false end.
Proof.
  intros Hr. destruct c as [|f c]; [done|]. pose proof (ctx_parent_range _ _ _ Hr ltac:(done)).
  apply Z.eqb_neq. unfold NULL_INDEX. lia.
Qed.
End links.

(** ** Walks *)
Section walks.
Context {T : Type} (zeroT : T).
#[local] Hint Extern 0 (Inhabited (Element T)) => exact (collection_element_inhabited zeroT) : typeclass_instances.
Variable lg : nat.
Abbreviation L := (2 ^ Z.of_nat lg).
Abbreviation fuel := (Datatypes.S (Z.to_nat L)).
Implicit Types (els : list (Element T)) (t : tree) (c : ctx).
Abbreviation Rep := (rep zeroT).
Abbreviation Rep_ctx := (rep_ctx zeroT).

Lemma getMostLeft_spec n els p t :
  t <> Leaf -> Rep els p t -> (length (inorder t) <= n)%nat -> _getMostLeft zeroT n els (root t) = Some (first_index (inorder t)).
Proof.
  revert n p. induction t as [|l IHl i r _]; intros n p Ht Hr Hn; [done|].
  destruct Hr as (Hi & Hl & _). simpl in *. rewrite length_app in Hn. simpl in Hn.
  destruct n as [|n]; [lia|]. simpl. destruct (node_fields _ _ _ _ _ _ Hi) as (_ & -> & _).
  rewrite (root_null _ _ _ _ Hl). destruct l as [|ll j lr]; [done|].
  rewrite (IHl n i) by (done || lia). rewrite first_index_app; [done|]. by rewrite inorder_nil.
Qed.

Lemma getMostRight_spec n els p t :
  t <> Leaf -> Rep els p t -> (length (inorder t) <= n)%nat -> _getMostRight zeroT n els (root t) = Some (last_index (inorder t)).
Proof.
  revert n p. induction t as [|l _ i r IHr]; intros n p Ht Hr Hn; [done|].
  destruct Hr as (Hi & _ & Hr). simpl in *. rewrite length_app in Hn. simpl in Hn.
  destruct n as [|n]; [lia|]. simpl. destruct (node_fields _ _ _ _ _ _ Hi) as (_ & _ & ->).
  rewrite (root_null _ _ _ _ Hr). destruct r as [|rl j rr]; [by rewrite last_index_snoc|].
  rewrite (IHr n i) by (done || lia). rewrite (cons_middle i), app_assoc, last_index_app; [done|]. by rewrite inorder_nil.
Qed.

(** The sibling of a non-empty tree has another root. *)
Lemma sibling_ne els p t t' :
  t <> Leaf -> Rep els p t -> (forall x, x ∈ inorder t -> x ∉ inorder t') -> (root t' =? root t) = false.
Proof.
  intros Ht Hr Hd. apply Z.eqb_neq. pose proof (rep_root_range _ _ _ _ Ht Hr) as Hrange.
  destruct t' as [|l i r]; [unfold root at 1, NULL_INDEX; lia|]. intros He.
  apply (Hd (root t)); [by apply root_in|]. rewrite <- He. by apply root_in.
Qed.

Lemma NoDup_frame f t :
  NoDup (inorder (fill f t)) -> forall x, x ∈ inorder t -> x <> frame_node f /\ x ∉ inorder (match f with InLeft _ r => r | InRight l _ => l end).
Proof.
  destruct f as [i r|l i]; simpl; intros (_ & Hd & [Hi _]%NoDup_cons)%NoDup_app x Hx; split.
  - intros ->. apply (Hd i Hx). left.
  - intros Hr. apply (Hd x Hx). by right.
  - by intros ->.
  - intros Hl. apply (Hd x Hl). by right.
Qed.

Lemma NoDup_hole c t : NoDup (inorder (plug c t)) -> NoDup (inorder t).
Proof. rewrite inorder_plug. by intros (_ & _ & (? & _ & _)%NoDup_app)%NoDup_app. Qed.

Lemma climb_right_spec n els c t :
  t <> Leaf -> Rep els NULL_INDEX (plug c t) -> NoDup (inorder (plug c t)) -> (length c < n)%nat ->
  climb_right zeroT n els (root t) (parent_of c) = Some (first_index (after c)).
Proof.
  revert n t. induction c as [|f c IH]; intros n t Ht Hr Hnd Hn; (destruct n as [|n]; [simpl in Hn; lia|]); [done|].
  pose proof (NoDup_frame f t (NoDup_hole c _ Hnd)) as Hfr.
  pose proof Hr as [Hc Hrt]%rep_plug. simpl climb_right.
  rewrite (ctx_parent_null zeroT els (f :: c) _ Hc : (frame_node f =? _) = _). simpl in Hn.
  destruct f as [i r|l i]; simpl in *; destruct Hc as (Hi & Hs & Hc);
    destruct (node_fields _ _ _ _ _ _ Hi) as (-> & _ & ->).
  - rewrite (sibling_ne els i t r); [done|done|done|]. intros x Hx. by apply Hfr.
  - rewrite Z.eqb_refl. rewrite <- (IH n (Node l i t)); [done|done|done|done|lia].
Qed.

Lemma climb_left_spec n els c t :
  t <> Leaf -> Rep els NULL_INDEX (plug c t) -> NoDup (inorder (plug c t)) -> (length c < n)%nat ->
  climb_left zeroT n els (root t) (parent_of c) = Some (last_index (before c)).
Proof.
  revert n t. induction c as [|f c IH]; intros n t Ht Hr Hnd Hn; (destruct n as [|n]; [simpl in Hn; lia|]); [done|].
  pose proof (NoDup_frame f t (NoDup_hole c _ Hnd)) as Hfr.
  pose proof Hr as [Hc Hrt]%rep_plug. simpl climb_left.
  rewrite (ctx_parent_null zeroT els (f :: c) _ Hc : (frame_node f =? _) = _). simpl in Hn.
  destruct f as [i r|l i]; simpl in *; destruct Hc as (Hi & Hs & Hc);
    destruct (node_fields _ _ _ _ _ _ Hi) as (-> & -> & _).
  - rewrite Z.eqb_refl. rewrite <- (IH n (Node t i r)); [done|done|done|done|lia].
  - rewrite (sibling_ne els i t l); [|done|done|]; [|intros x Hx; by apply Hfr].
    simpl. by rewrite app_assoc, last_index_snoc.
Qed.

(** ** Neighbours in a queue *)
Section neighbours.
Variables (col : Collection T) (t : tree).
Hypothesis Hrep : Rep (_elements col) NULL_INDEX t.
Hypothesis Hnd : NoDup (inorder t).
Hypothesis Hpop : Forall (fun i => 0 <= i < _population col) (inorder t).
Hypothesis HL : _population col <= L.

Lemma inorder_small : (length (inorder t) <= Z.to_nat L)%nat.
Proof.
  pose proof (members_le (inorder t) (_population col) Hnd Hpop). lia.
Qed.

Lemma mask_member e : e ∈ inorder t -> Z.land e (L - 1) = e /\ (e <? _population col) = true.
Proof.
  intros He. rewrite Forall_forall in Hpop. specialize (Hpop e He). split; [|apply Z.ltb_lt; lia].
  rewrite land_mask by lia. apply Z.mod_small. lia.
Qed.

Lemma next_spec l1 e l2 : inorder t = l1 ++ e :: l2 -> _nextElementIndex zeroT lg col e = Some (first_index l2).
Proof.
  intros Hin. destruct (tree_split_at t l1 e l2 Hnd Hin) as (c & l & r & Ht & -> & ->).
  destruct (mask_member e) as [Hmask Hlt]; [rewrite Hin; set_solver|].
  pose proof inorder_small as Hsmall. unfold _nextElementIndex. rewrite Hmask, Hlt.
  rewrite Ht in Hrep, Hnd, Hsmall. pose proof Hrep as [Hc (He & Hl & Hr)]%rep_plug. cbn [root] in *.
  pose proof (length_ctx c (Node l e r)) as Hlc. simpl in Hlc. rewrite length_app in Hlc. simpl in Hlc.
  destruct (node_fields _ _ _ _ _ _ He) as (-> & _ & ->). rewrite (root_null _ _ _ _ Hr).
  destruct r as [|rl j rr]; simpl negb; cbn [inorder app].
  2:{ rewrite (getMostLeft_spec fuel _ e (Node rl j rr)); [|done|done|simpl in *; lia].
      rewrite <- (first_index_app _ (after c)) by (by rewrite inorder_nil). done. }
  rewrite (ctx_parent_null _ _ _ _ Hc). destruct c as [|f c]; [done|]. simpl negb. cbv iota.
  pose proof (NoDup_frame f _ (NoDup_hole c _ Hnd)) as Hfr.
  destruct f as [i r|l' i]; cbn [inorder root fill plug after before parent_of frame_node rep_ctx length] in *; destruct Hc as (Hi & Hs & Hc);
    destruct (node_fields _ _ _ _ _ _ Hi) as (_ & -> & ->).
  - by rewrite Z.eqb_refl.
  - assert ((root l' =? e) = false) as ->.
    { apply (sibling_ne (_elements col) i (Node l e Leaf)); [done|done|]. intros x Hx. by apply Hfr. }
    rewrite Z.eqb_refl. apply (climb_right_spec fuel _ (InRight l' i :: c) (Node l e Leaf)); simpl; (done || lia).
Qed.

Lemma prev_spec l1 e l2 : inorder t = l1 ++ e :: l2 -> _previousElementIndex zeroT lg col e = Some (last_index l1).
Proof.
  intros Hin. destruct (tree_split_at t l1 e l2 Hnd Hin) as (c & l & r & Ht & -> & ->).
  destruct (mask_member e) as [Hmask Hlt]; [rewrite Hin; set_solver|].
  pose proof inorder_small as Hsmall. unfold _previousElementIndex. rewrite Hmask, Hlt.
  rewrite Ht in Hrep, Hnd, Hsmall. pose proof Hrep as [Hc (He & Hl & Hr)]%rep_plug. cbn [root] in *.
  pose proof (length_ctx c (Node l e r)) as Hlc. simpl in Hlc. rewrite length_app in Hlc. simpl in Hlc.
  destruct (node_fields _ _ _ _ _ _ He) as (-> & -> & _). rewrite (root_null _ _ _ _ Hl).
  destruct l as [|ll j lr]; simpl negb; cbn [inorder]; rewrite ?app_nil_r.
  2:{ rewrite (getMostRight_spec fuel _ e (Node ll j lr)); [|done|done|simpl in *; lia].
      rewrite last_index_app; [done|]. by destruct (inorder ll). }
  rewrite (ctx_parent_null _ _ _ _ Hc). destruct c as [|f c]; [done|]. simpl negb. cbv iota.
  pose proof (NoDup_frame f _ (NoDup_hole c _ Hnd)) as Hfr.
  destruct f as [i r'|l' i]; cbn [inorder root fill plug after before parent_of frame_node rep_ctx length] in *; destruct Hc as (Hi & Hs & Hc);
    destruct (node_fields _ _ _ _ _ _ Hi) as (_ & -> & ->).
  - assert ((root r' =? e) = false) as ->.
    { apply (sibling_ne (_elements col) i (Node Leaf e r)); [done|done|]. intros x Hx. by apply Hfr. }
    rewrite Z.eqb_refl. apply (climb_left_spec fuel _ (InLeft i r' :: c) (Node Leaf e r)); simpl; (done || lia).
  - by rewrite Z.eqb_refl, app_assoc, last_index_snoc.
Qed.
End neighbours.
End walks.

Lemma before_app c1 c2 : before (c1 ++ c2) = before c2 ++ before c1.
Proof.
  induction c1 as [|[i r|l i] c1 IH]; simpl; [by rewrite app_nil_r|done|]. by rewrite IH, <- app_assoc.
Qed.
Lemma after_app c1 c2 : after (c1 ++ c2) = after c1 ++ after c2.
Proof. induction c1 as [|[i r|l i] c1 IH]; simpl; [done| |done]. by rewrite IH, <- app_assoc. Qed.

(** ** Search *)
Section search.
Context {T : Type} (zeroT : T).
#[local] Hint Extern 0 (Inhabited (Element T)) => exact (collection_element_inhabited zeroT) : typeclass_instances.
Implicit Types (els : list (Element T)) (t : tree) (c : ctx).
Abbreviation Rep := (rep zeroT).

Definition prio els (i : Z) : Z := e_priority (els.[i]).
Definition queue_sorted els (l : list Z) : Prop := StronglySorted (fun i j => prio els j <= prio els i) l.
Abbreviation all_ge els pri := (Forall (fun i => pri <= prio els i)).
Abbreviation all_lt els pri := (Forall (fun i => prio els i < pri)).

Lemma queue_sorted_app els l k :
  queue_sorted els (l ++ k) <->
  queue_sorted els l /\ queue_sorted els k /\ forall i j, i ∈ l -> j ∈ k -> prio els j <= prio els i.
Proof.
  unfold queue_sorted. split.
  - intros Hs. apply StronglySorted_app in Hs as (Hd & ? & ?). split; [done|]. split; [done|]. intros. by apply Hd.
  - intros (? & ? & Hd). apply StronglySorted_app. split; [|done]. intros. by apply Hd.
Qed.

Lemma queue_sorted_mid els l i k :
  queue_sorted els (l ++ i :: k) ->
  queue_sorted els l /\ queue_sorted els k /\ all_ge els (prio els i) l /\ Forall (fun j => prio els j <= prio els i) k.
Proof.
  intros (Hl & Hk & Hd)%queue_sorted_app. apply StronglySorted_inv in Hk as [Hk Hi].
  split; [done|]. split; [done|]. split; [|done]. apply Forall_forall. intros j Hj. apply Hd; [done|left].
Qed.

(** The result of the search is the node below which an element of the given priority has to be added: on its right behind all
    elements of at least the priority, or on its left in front of all elements of a lower one. *)
Definition insertion_point els t (pri i : Z) : Prop :=
  exists c l r, t = plug c (Node l i r) /\
  ((pri <= prio els i /\ r = Leaf /\ all_ge els pri (before c ++ inorder l ++ [i]) /\ all_lt els pri (after c)) \/
   (prio els i < pri /\ l = Leaf /\ all_ge els pri (before c) /\ all_lt els pri (i :: inorder r ++ after c))).

Lemma search_spec n els p t pri cnt :
  t <> Leaf -> Rep els p t -> queue_sorted els (inorder t) -> (length (inorder t) <= n)%nat ->
  exists i cnt', search_loop zeroT n els (root t) pri cnt = Some (i, cnt') /\ insertion_point els t pri i.
Proof.
  revert n p cnt. induction t as [|l IHl i r IHr]; intros n p cnt Ht Hr Hs Hn; [done|].
  assert ((i =? NULL_INDEX) = false) as Hnull by (by apply (root_null zeroT els p (Node l i r))).
  destruct Hr as (Hi & Hl & Hr). destruct (node_fields _ _ _ _ _ _ Hi) as (_ & El & Er).
  destruct (queue_sorted_mid _ _ _ _ Hs) as (Hsl & Hsr & Hge & Hle).
  simpl in Hn. rewrite length_app in Hn. simpl in Hn. destruct n as [|n]; [lia|].
  cbn [root search_loop]. rewrite Hnull, El, Er, (root_null _ _ _ _ Hl), (root_null _ _ _ _ Hr). fold (prio els i).
  destruct (Z.leb_spec pri (prio els i)) as [Hp|Hp].
  - assert (all_ge els pri (inorder l ++ [i])) as Hli.
    { apply Forall_app_2; [|by constructor]. eapply Forall_impl; [exact Hge|]. simpl. lia. }
    destruct r as [|rl j rr]; simpl negb.
    + exists i, (cnt + 1). split; [done|]. exists [], l, Leaf. split; [done|]. left. simpl. done.
    + destruct (IHr n i (cnt + 1)) as (k & cnt' & Hk & c & l' & r' & Heq & Hc); [done|done|done|lia|].
      exists k, cnt'. split; [done|]. exists (c ++ [InRight l i]), l', r'. rewrite plug_app, <- Heq. split; [done|].
      rewrite before_app, after_app. simpl. rewrite app_nil_r.
      destruct Hc as [(? & ? & Hb & ?)|(? & ? & ? & ?)]; [left|right]; (split; [done|]; split; [done|]); split; try done.
      * rewrite <- app_assoc. apply Forall_app_2; done.
      * apply Forall_app_2; done.
  - assert (all_lt els pri (i :: inorder r)) as Hir.
    { constructor; [done|]. eapply Forall_impl; [exact Hle|]. simpl. lia. }
    destruct l as [|ll j lr]; simpl negb.
    + exists i, (cnt + 1). split; [done|]. exists [], Leaf, r. split; [done|]. right. simpl. by rewrite app_nil_r.
    + destruct (IHl n i (cnt + 1)) as (k & cnt' & Hk & c & l' & r' & Heq & Hc); [done|done|done|lia|].
      exists k, cnt'. split; [done|]. exists (c ++ [InLeft i r]), l', r'. rewrite plug_app, <- Heq. split; [done|].
      rewrite before_app, after_app. simpl. rewrite app_nil_r.
      destruct Hc as [(? & ? & ? & ?)|(? & ? & ? & Ha)]; [left|right]; (split; [done|]; split; [done|]); split; try done.
      * apply Forall_app_2; done.
      * rewrite app_assoc. apply (Forall_app_2 _ (k :: inorder r' ++ after c)); done.
Qed.
End search.

(** ** Listing a tree *)
Section listing.
Context {T : Type} (zeroT : T).
#[local] Hint Extern 0 (Inhabited (Element T)) => exact (collection_element_inhabited zeroT) : typeclass_instances.
Implicit Types (els : list (Element T)) (t : tree).
Abbreviation Rep := (rep zeroT).

(** Rounds of the loop of [_getSortedElements] spent in a tree. *)
Definition extra t : nat := match t with Leaf => 0 | _ => 1 end.
Fixpoint rounds t : nat := match t with Leaf => 0 | Node l _ r => rounds l + rounds r + extra l + extra r + 1 end%nat.

Lemma rounds_bound t : (rounds t + 2 * extra t <= 3 * length (inorder t))%nat.
Proof.
  induction t as [|l IHl i r IHr]; simpl; [done|]. rewrite length_app. simpl. lia.
Qed.

Lemma sorted_subtree els p t n out :
  t <> Leaf -> Rep els p t -> NoDup (inorder t) -> p ∉ inorder t ->
  sorted_loop zeroT (rounds t + n) els (root t, p, out) = sorted_loop zeroT n els (p, root t, out ++ inorder t).
Proof.
  revert p n out. induction t as [|l IHl i r IHr]; intros p n out Ht Hr Hnd Hp; [done|].
  pose proof (root_null zeroT els p (Node l i r) Hr) as Hnull. simpl in Hnull.
  destruct Hr as (Hi & Hl & Hr). destruct (node_fields _ _ _ _ _ _ Hi) as (Ep & El & Er). simpl in Hp.
  simpl in Hnd. apply NoDup_app in Hnd as (Hndl & Hd & [Hir Hndr]%NoDup_cons).
  assert (i ∉ inorder l) as Hil by (intros H; apply (Hd i H); left).
  assert (forall m last out', (last =? p) = false -> (last =? root l) = false -> last = root r -> r <> Leaf ->
     sorted_loop zeroT (S m) els (i, last, out') = sorted_loop zeroT m els (p, i, out')) as Hup.
  { intros m last out' H1 H2 H3 Hrn. cbn [sorted_loop]. rewrite Hnull. unfold sorted_step.
    rewrite Ep, El, Er, H1, H2, H3, Z.eqb_refl. done. }
  assert (forall m last out',
     sorted_step zeroT els (i, last, out') = (match r with Leaf => (p, i, out' ++ [i]) | _ => (root r, i, out' ++ [i]) end) ->
     sorted_loop zeroT (S (rounds r + extra r + m)) els (i, last, out') =
     sorted_loop zeroT m els (p, i, out' ++ i :: inorder r)) as Hmid.
  { intros m last out' Hstep. cbn [sorted_loop]. rewrite Hnull, Hstep. destruct r as [|rl j rr]; [done|].
    replace (rounds (Node rl j rr) + extra (Node rl j rr) + m)%nat with (rounds (Node rl j rr) + S m)%nat by (simpl extra; lia).
    rewrite IHr by done. rewrite Hup; [by rewrite <- app_assoc| | |done|done].
    - apply Z.eqb_neq. intros He. apply Hp. rewrite <- He. simpl. set_solver.
    - destruct l as [|ll k lr]; [by apply (root_null zeroT els i (Node rl j rr))|].
      apply Z.eqb_neq. simpl. intros ->. apply (Hd k); simpl; set_solver. }
  destruct l as [|ll j lr].
  - replace (rounds (Node Leaf i r) + n)%nat with (S (rounds r + extra r + n)) by (simpl; lia).
    apply Hmid. unfold sorted_step. rewrite Ep, El, Er, Z.eqb_refl. cbn [root]. rewrite Z.eqb_refl. cbn [negb].
    rewrite (root_null _ _ _ _ Hr). by destruct r.
  - replace (rounds (Node (Node ll j lr) i r) + n)%nat
      with (S (rounds (Node ll j lr) + S (rounds r + extra r + n))) by (simpl; lia).
    cbn [sorted_loop root]. rewrite Hnull. unfold sorted_step at 1. rewrite Ep, El, Er, Z.eqb_refl.
    rewrite (root_null _ _ _ _ Hl). cbn [negb]. rewrite IHl by done.
    rewrite Hmid; [by rewrite <- app_assoc|]. unfold sorted_step. rewrite Ep, El, Er, (root_null _ _ _ _ Hr), Z.eqb_refl.
    rewrite (proj2 (Z.eqb_neq _ p)); [by destruct r|]. intros He. apply Hp. rewrite <- He. simpl. set_solver.
Qed.

Lemma getSortedElements_spec lg els t :
  Rep els NULL_INDEX t -> NoDup (inorder t) -> (length (inorder t) <= Z.to_nat (2 ^ Z.of_nat lg))%nat ->
  _getSortedElements zeroT lg els (root t) = Some (inorder t).
Proof.
  intros Hr Hnd Hn. unfold _getSortedElements. destruct t as [|l i r]; [done|].
  pose proof (rounds_bound (Node l i r)) as Hb.
  remember (Node l i r) as t eqn:Ht.
  replace (3 * S (Z.to_nat (2 ^ Z.of_nat lg)))%nat
    with (rounds t + S (3 * S (Z.to_nat (2 ^ Z.of_nat lg)) - rounds t - 1))%nat by lia.
  rewrite sorted_subtree; [done|by rewrite Ht|done|done|].
  intros Hin. pose proof (rep_range _ _ _ _ _ Hr Hin). unfold NULL_INDEX in *. lia.
Qed.

(** The indices of a queue in order, read off the links. *)
Fixpoint flatten (n : nat) els (i : Z) : list Z :=
  match n with
  | O => []
  | S n => if i =? NULL_INDEX then [] else flatten n els (bstLeftIndex (els.[i])) ++ i :: flatten n els (bstRightIndex (els.[i]))
  end.
Lemma flatten_spec n els p t : Rep els p t -> (length (inorder t) < n)%nat -> flatten n els (root t) = inorder t.
Proof.
  revert n p. induction t as [|l IHl i r IHr]; intros n p Hr Hn; (destruct n as [|n]; [lia|]); [done|].
  pose proof (root_null zeroT els p (Node l i r) Hr) as Hnull. simpl in Hn. rewrite length_app in Hn. simpl in Hn.
  destruct Hr as (Hi & Hl & Hr). destruct (node_fields _ _ _ _ _ _ Hi) as (_ & El & Er).
  cbn [flatten]. rewrite Hnull. cbn [root]. rewrite El, Er, (IHl n i), (IHr n i) by (done || lia). done.
Qed.
End listing.
