(* ===== verification/CollectionRebuild.v ===== *)
(** * Balancing a queue of QPI::Collection

    [_rebuild] lists the elements of a tree in order and links them anew, level by level, with a ring buffer of pending ranges.
    The result is a tree with the same elements in the same order; nothing else in the collection changes. *)
From S2P Require Import Prelude OpenAddressing OccupationFlags OccupiedSlots Collection CollectionTree.

(** ** The ring buffer is a queue *)
Section ring.
Variable lg : nat.
Abbreviation L := (2 ^ Z.of_nat lg).
Implicit Types (q : RangeQueue) (Q : list (Z * Z * Z * Z)).

Record ring q Q : Prop := {
  ring_len : alen (ranges q) = L;
  ring_deq : in_table lg (dequeueIdx q);
  ring_size : queueSize q = alen Q;
  ring_enq : enqueueIdx q = nth_slot lg (dequeueIdx q) (alen Q);
  ring_item : forall k x, Q !! k = Some x -> (ranges q).[nth_slot lg (dequeueIdx q) (Z.of_nat k)] = x }.

Lemma ring_push r q Q : ring q Q -> alen Q < L -> ring (push lg r q) (Q ++ [r]).
Proof.
  intros Hr Hlt. destruct Hr as [Hlen Hdeq Hsize Henq Hitem].
  assert (alen (Q ++ [r]) = alen Q + 1) as Hl by (unfold alen; rewrite length_app; simpl; lia).
  split; simpl.
  - by rewrite alen_aset.
  - done.
  - lia.
  - rewrite Hl, Henq, nth_slot_succ. done.
  - intros k x Hk. rewrite Henq. pose proof (nth_slot_in lg (dequeueIdx q) (alen Q)) as Hin. unfold in_table in Hin.
    apply lookup_app_Some in Hk as [Hk|[Hge Hk]].
    + assert (Z.of_nat k < alen Q) by (apply lookup_lt_Some in Hk; unfold alen; lia).
      rewrite aget_aset_ne; [by apply Hitem|]. intros He%nth_slot_inj; [lia|..]; unfold alen in *; lia.
    + apply list_lookup_singleton_Some in Hk as [Hk <-].
      replace (Z.of_nat k) with (alen Q) by (unfold alen; lia). apply aget_aset_eq. lia.
Qed.

Definition pop q : RangeQueue := mkQueue (ranges q) (Z.land (dequeueIdx q + 1) (L - 1)) (enqueueIdx q) (queueSize q - 1).

Lemma ring_pop x q Q : ring q (x :: Q) -> (ranges q).[dequeueIdx q] = x /\ ring (pop q) Q.
Proof.
  intros [Hlen Hdeq Hsize Henq Hitem].
  assert (alen (x :: Q) = alen Q + 1) as Hl by (unfold alen; simpl; lia). split.
  - rewrite <- (Hitem 0%nat x) by done. by rewrite nth_slot_0.
  - split; simpl; [done|apply land_in_table|lia|..].
    + by rewrite Henq, nth_slot_next, Hl.
    + intros k y Hk. rewrite nth_slot_next. rewrite <- (Hitem (S k) y) by done. do 2 f_equal. lia.
Qed.

Lemma ring_empty : ring (mkQueue (replicate (Z.to_nat L) (0, 0, 0, 0)) 0 0 0) [].
Proof.
  pose proof (cap_pos lg). split; simpl.
  - rewrite alen_replicate. lia.
  - unfold in_table. lia.
  - done.
  - by rewrite nth_slot_0 by (unfold in_table; lia).
  - done.
Qed.
End ring.

(** ** Ranges of the sorted elements *)
Section slices.
Variable sorted : list Z.
Definition slice (lo hi : Z) : list Z := (fun m => sorted.[m]) <$> seqZ lo (hi - lo + 1).

Lemma slice_split lo mid hi : lo <= mid <= hi -> slice lo hi = slice lo (mid - 1) ++ sorted.[mid] :: slice (mid + 1) hi.
Proof.
  intros Hm. unfold slice.
  replace (hi - lo + 1) with ((mid - 1 - lo + 1) + (1 + (hi - (mid + 1) + 1))) by lia.
  rewrite seqZ_app, fmap_app by lia. f_equal. rewrite seqZ_app by lia. simpl. f_equal.
  - f_equal. lia.
  - do 2 f_equal. lia.
Qed.
Lemma slice_nil lo hi : hi < lo -> slice lo hi = [].
Proof. intros. unfold slice. by replace (seqZ lo (hi - lo + 1)) with (@nil Z) by (symmetry; apply seqZ_nil; lia). Qed.
Lemma slice_all : slice 0 (alen sorted - 1) = sorted.
Proof.
  apply list_eq. intros k. unfold slice. rewrite list_lookup_fmap. destruct (sorted !! k) as [x|] eqn:Hk.
  - assert (Z.of_nat k < alen sorted) by (apply lookup_lt_Some in Hk; unfold alen; lia).
    rewrite lookup_seqZ_lt by lia. simpl. f_equal. rewrite aget_nonneg, Z.add_0_l, Nat2Z.id by lia.
    by apply list_lookup_total_correct.
  - rewrite lookup_seqZ_ge; [done|]. apply lookup_ge_None in Hk. unfold alen. lia.
Qed.
Lemma length_slice lo hi : lo <= hi + 1 -> Z.of_nat (length (slice lo hi)) = hi - lo + 1.
Proof. intros. unfold slice. rewrite length_fmap, length_seqZ. lia. Qed.
End slices.

(** ** Height *)
Fixpoint height (t : tree) : nat := match t with Leaf => 0 | Node l _ r => S (Nat.max (height l) (height r)) end.
(** No tree with as many elements is lower. *)
Definition optimal (t : tree) : Prop := forall h, (length (inorder t) < 2 ^ h)%nat -> (height t <= h)%nat.

Lemma optimal_node l i r :
  optimal l -> optimal r -> (length (inorder l) <= S (length (inorder r)))%nat -> (length (inorder r) <= S (length (inorder l)))%nat ->
  optimal (Node l i r).
Proof.
  unfold optimal. intros Hl Hr H1 H2 h. simpl. rewrite length_app. simpl. destruct h as [|h]; simpl; intros Hh; [lia|].
  specialize (Hl h ltac:(lia)). specialize (Hr h ltac:(lia)). lia.
Qed.

(** ** The loop *)
Section rebuild.
Context {T : Type} (zeroT : T).
#[local] Hint Extern 0 (Inhabited (Element T)) => exact (collection_element_inhabited zeroT) : typeclass_instances.
Variable lg : nat.
Abbreviation L := (2 ^ Z.of_nat lg).
Variable sorted : list Z.
Implicit Types (els : list (Element T)) (Q : list (Z * Z * Z * Z)).
Abbreviation Rep := (rep zeroT).
Abbreviation slice := (slice sorted).

(** Locations: a link field of an element. *)
Inductive field := FParent | FLeft | FRight.
Definition get_field (f : field) (e : Element T) : Z :=
  match f with FParent => bstParentIndex e | FLeft => bstLeftIndex e | FRight => bstRightIndex e end.

Definition triples (l : list Z) : list (field * Z) := l ≫= fun x => [(FParent, x); (FLeft, x); (FRight, x)].
Definition side (hi parentMid : Z) : field := if hi <? parentMid then FLeft else FRight.
Lemma side_left mid : side (mid - 1) mid = FLeft.
Proof. unfold side. by rewrite (proj2 (Z.ltb_lt _ _)) by lia. Qed.
Lemma side_right hi mid : mid <= hi -> side hi mid = FRight.
Proof. intros. unfold side. by rewrite (proj2 (Z.ltb_ge _ _)) by lia. Qed.
(** What the processing of a range will write. *)
Definition footprint (it : Z * Z * Z * Z) : list (field * Z) :=
  let '(par, lo, hi, parentMid) := it in (side hi parentMid, par) :: triples (slice lo hi).
Abbreviation footprints Q := (Q ≫= footprint).

Definition item_ok els (it : Z * Z * Z * Z) : Prop :=
  let '(par, lo, hi, parentMid) := it in
  0 <= par < alen els /\ 0 <= lo <= hi /\ hi < alen sorted /\ (hi < parentMid \/ parentMid < lo).
Definition item_size (it : Z * Z * Z * Z) : nat := let '(_, lo, hi, _) := it in Z.to_nat (hi - lo + 1).
Definition total Q : nat := sum_list_with item_size Q.

(** The tree built for a range. *)
Definition item_done els (it : Z * Z * Z * Z) : Prop :=
  let '(par, lo, hi, parentMid) := it in
  exists t, inorder t = slice lo hi /\ Rep els par t /\ get_field (side hi parentMid) (els.[par]) = root t /\ optimal t.
Record frame els els' (F : list (field * Z)) : Prop := {
  fr_len : alen els' = alen els;
  fr_data : forall x, data (els'.[x]) = data (els.[x]);
  fr_links : forall f x, (f, x) ∉ F -> get_field f (els'.[x]) = get_field f (els.[x]) }.

Lemma total_app Q Q' : total (Q ++ Q') = (total Q + total Q')%nat.
Proof. induction Q as [|it Q IH]; [done|]. unfold total in *. simpl. rewrite IH. lia. Qed.
Lemma length_total els Q : Forall (item_ok els) Q -> (length Q <= total Q)%nat.
Proof.
  induction 1 as [|[[[par lo] hi] pm] Q Hit _ IH]; [done|]. unfold total in *. simpl in *. lia.
Qed.

Lemma triples_app l k : triples (l ++ k) = triples l ++ triples k.
Proof. apply bind_app. Qed.
Lemma elem_of_triples f x l : (f, x) ∈ triples l <-> x ∈ l.
Proof.
  unfold triples. rewrite list_elem_of_bind. split.
  - intros (y & Hy & Hin). by repeat (apply elem_of_cons in Hy as [[= -> ->]|Hy]; [done|]); apply elem_of_nil in Hy.
  - intros Hx. exists x. split; [|done]. destruct f; set_solver.
Qed.

(** Ranges pushed for a range with the middle [mid]. *)
Definition children (lo mid hi : Z) : list (Z * Z * Z * Z) :=
  let x := sorted.[mid] in
  (if lo <? mid then [(x, lo, mid - 1, mid)] else []) ++ (if mid <? hi then [(x, mid + 1, hi, mid)] else []).

(** The locations of a range are its own and those of its children. *)
Definition own (lo mid hi : Z) : list (field * Z) :=
  let x := sorted.[mid] in
  (FParent, x) :: (if lo <? mid then [] else [(FLeft, x)]) ++ (if mid <? hi then [] else [(FRight, x)]).
Lemma footprint_split lo mid hi :
  lo <= mid <= hi -> triples (slice lo hi) ≡ₚ own lo mid hi ++ footprints (children lo mid hi).
Proof.
  intros Hm. rewrite (slice_split sorted lo mid hi Hm), triples_app. unfold own, children. simpl.
  pose proof (side_left mid) as Hsl. pose proof (side_right hi mid ltac:(lia)) as Hsr.
  destruct (Z.ltb_spec lo mid); [|rewrite (slice_nil sorted lo) by lia];
    (destruct (Z.ltb_spec mid hi); [|rewrite (slice_nil sorted (mid + 1)) by lia]); simpl; rewrite ?Hsl, ?Hsr, ?app_nil_r;
    rewrite <- ?Permutation_middle; simpl; rewrite <- ?Permutation_middle; try done.
  rewrite app_nil_r. apply perm_skip, perm_swap.
Qed.

(** One range: the new node and the link to it. *)
Definition link_node els (par lo hi parentMid : Z) : list (Element T) :=
  let mid := (lo + hi) / 2 in
  let x := sorted.[mid] in
  let els := upd zeroT (no_links par) x els in
  if hi <? parentMid then upd zeroT (set_left x) par els else upd zeroT (set_right x) par els.

Lemma rebuild_step_spec els q Q par lo hi parentMid :
  ring lg q ((par, lo, hi, parentMid) :: Q) -> item_ok els (par, lo, hi, parentMid) ->
  alen (Q ++ children lo ((lo + hi) / 2) hi) <= L ->
  exists q', rebuild_step zeroT lg sorted (els, q) = (link_node els par lo hi parentMid, q') /\
             ring lg q' (Q ++ children lo ((lo + hi) / 2) hi).
Proof.
  intros Hring (_ & Hlo & _ & Hpm) HL. destruct (ring_pop _ _ _ _ Hring) as [Hd Hpop]. unfold pop in Hpop.
  unfold rebuild_step, link_node. rewrite Hd. set (mid := (lo + hi) / 2) in *.
  assert (lo <= mid <= hi) as Hm by (unfold mid; Z.div_mod_to_equations; lia).
  rewrite (proj2 (Z.leb_le lo hi)) by lia.
  replace (mid <? parentMid) with (hi <? parentMid).
  2:{ destruct (Z.ltb_spec hi parentMid), (Z.ltb_spec mid parentMid); (done || lia). }
  eexists. split; [reflexivity|]. unfold children in *. unfold alen in HL. rewrite !length_app in HL.
  destruct (Z.ltb_spec lo mid), (Z.ltb_spec mid hi); simpl in HL; rewrite ?app_nil_r; try done.
  - rewrite app_assoc. apply ring_push; [apply ring_push; [done|]|]; unfold alen; rewrite ?length_app; simpl; lia.
  - apply ring_push; [done|]. unfold alen. lia.
  - apply ring_push; [done|]. unfold alen. lia.
Qed.

Lemma item_ok_len els els' it : alen els' = alen els -> item_ok els it -> item_ok els' it.
Proof. destruct it as [[[par lo] hi] pm]. unfold item_ok. intros ->. done. Qed.

Lemma link_node_spec els par lo hi parentMid :
  let x := sorted.[(lo + hi) / 2] in
  let els' := link_node els par lo hi parentMid in
  0 <= x < alen els -> 0 <= par < alen els -> par <> x ->
  frame els els' ((side hi parentMid, par) :: triples [x]) /\
  links (els'.[x]) = (par, NULL_INDEX, NULL_INDEX) /\ get_field (side hi parentMid) (els'.[par]) = x.
Proof.
  intros x els' Hx Hpar Hne. unfold els', link_node, side. fold x. clear els'. clearbody x.
  destruct (hi <? parentMid); (split; [split|split]).
  all: rewrite ?alen_upd; try done.
  all: try (rewrite upd_ne, upd_eq by done; done).
  all: try (rewrite upd_eq by (by rewrite alen_upd); done).
  all: try (intros y; by rewrite !(upd_field zeroT data) by done).
  all: intros f y Hy; assert (x <> y) by (intros ->; destruct f; set_solver).
  all: destruct (decide (par = y)) as [<-|]; [|by rewrite !upd_ne].
  all: rewrite upd_eq, upd_ne by (rewrite ?alen_upd; done).
  all: destruct f; try done; set_solver.
Qed.

(** The node in the middle of a range and the trees of its children form a tree of the range. *)
Lemma node_assemble els1 els' par lo mid hi F :
  let x := sorted.[mid] in
  lo <= mid <= hi -> -1 <= mid - lo - (hi - mid) <= 1 -> 0 <= x < alen els' -> frame els1 els' F -> links (els1.[x]) = (par, NULL_INDEX, NULL_INDEX) ->
  (forall l, l ∈ own lo mid hi -> l ∉ F) -> Forall (item_done els') (children lo mid hi) ->
  exists t, root t = x /\ inorder t = slice lo hi /\ Rep els' par t /\ optimal t.
Proof.
  intros x Hm Hbal Hx Hfr [= Hxp Hxl Hxr] Hout Hch.
  apply Forall_app in Hch as [Hcl Hcr]. fold x in Hcl, Hcr. unfold own in Hout. fold x in Hout.
  assert (exists tl, inorder tl = slice lo (mid - 1) /\ Rep els' x tl /\ bstLeftIndex (els'.[x]) = root tl /\ optimal tl) as (tl & Itl & Rtl & Ltl & Otl).
  { destruct (Z.ltb_spec lo mid) as [Hlt|Hge].
    - rewrite Forall_singleton in Hcl. destruct Hcl as (tl & ? & ? & Hg & ?). rewrite side_left in Hg. by exists tl.
    - exists Leaf. split; [by rewrite slice_nil by lia|]. split; [done|]. cbn [root]. split; [|intros h _; simpl; lia].
      rewrite <- Hxl. apply (fr_links _ _ _ Hfr FLeft). apply Hout. set_solver. }
  assert (exists tr, inorder tr = slice (mid + 1) hi /\ Rep els' x tr /\ bstRightIndex (els'.[x]) = root tr /\ optimal tr) as (tr & Itr & Rtr & Ltr & Otr).
  { destruct (Z.ltb_spec mid hi) as [Hlt|Hge].
    - rewrite Forall_singleton in Hcr. destruct Hcr as (tr & ? & ? & Hg & ?). rewrite side_right in Hg by lia. by exists tr.
    - exists Leaf. split; [by rewrite slice_nil by lia|]. split; [done|]. cbn [root]. split; [|intros h _; simpl; lia].
      rewrite <- Hxr. apply (fr_links _ _ _ Hfr FRight). apply Hout. set_solver. }
  exists (Node tl x tr). split; [done|]. split; [|split].
  3:{ pose proof (length_slice sorted lo (mid - 1) ltac:(lia)). pose proof (length_slice sorted (mid + 1) hi ltac:(lia)).
      apply optimal_node; [done|done|rewrite Itl, Itr; lia|rewrite Itl, Itr; lia]. }
  - simpl. rewrite Itl, Itr. unfold x. by rewrite <- slice_split.
  - simpl. split; [|done]. split; [done|]. unfold links. rewrite Ltl, Ltr. do 2 f_equal.
    rewrite <- Hxp. apply (fr_links _ _ _ Hfr FParent). apply Hout. set_solver.
Qed.

Lemma frame_trans els els1 els' F1 F2 F :
  (forall l, l ∈ F1 -> l ∈ F) -> (forall l, l ∈ F2 -> l ∈ F) -> frame els els1 F1 -> frame els1 els' F2 -> frame els els' F.
Proof.
  intros H1 H2 [Hl1 Hd1 Hf1] [Hl2 Hd2 Hf2]. split; [congruence|congruence|].
  intros f x Hn. rewrite Hf2, Hf1; [done|..]; intros ?; by apply Hn; auto.
Qed.

Lemma rebuild_loop_spec n els q Q :
  ring lg q Q -> Forall (item_ok els) Q -> NoDup (footprints Q) -> Forall (fun x => 0 <= x < alen els) sorted ->
  Z.of_nat (total Q) < L -> (total Q < n)%nat ->
  exists els', rebuild_loop zeroT lg n sorted (els, q) = Some els' /\ Forall (item_done els') Q /\ frame els els' (footprints Q).
Proof.
  revert els q Q. induction n as [|n IH]; intros els q Q Hring Hok Hnd Hs HL Hn; [lia|]. cbn [rebuild_loop fst snd].
  rewrite (ring_size _ _ _ Hring). destruct Q as [|[[[par lo] hi] pm] Q]; [by exists els|].
  rewrite (proj2 (Z.ltb_lt _ _)) by (unfold alen; simpl; lia).
  pose proof Hok as [Hit HQ]%Forall_cons. set (mid := (lo + hi) / 2). set (x := sorted.[mid]).
  pose proof Hit as (Hpar & Hlo & Hhi & Hpm).
  assert (lo <= mid <= hi) as Hm by (unfold mid; Z.div_mod_to_equations; lia).
  assert (0 <= x < alen els) as Hx.
  { rewrite Forall_forall in Hs. apply Hs. unfold x. rewrite aget_nonneg by lia.
    apply list_elem_of_lookup_total_2. unfold alen in *. lia. }
  set (Q1 := Q ++ children lo mid hi).
  assert (footprints ((par, lo, hi, pm) :: Q) ≡ₚ ((side hi pm, par) :: own lo mid hi) ++ footprints Q1) as Hperm.
  { unfold Q1. rewrite bind_app, bind_cons. cbn [footprint app]. apply perm_skip. rewrite (footprint_split lo mid hi Hm), <- app_assoc.
    apply Permutation_app_head, Permutation_app_comm. }
  assert (par <> x) as Hne.
  { intros ->. simpl in Hnd. apply NoDup_cons in Hnd as [Hn1 _]. apply Hn1, elem_of_app. left.
    apply elem_of_triples. rewrite (slice_split sorted lo mid hi Hm). fold x. set_solver. }
  rewrite Hperm in Hnd. apply NoDup_app in Hnd as (_ & Hdis & Hnd1).
  destruct (link_node_spec els par lo hi pm Hx Hpar Hne) as (Hfr & Hlx & Hlp). fold mid x in Hfr, Hlx, Hlp.
  set (els1 := link_node els par lo hi pm) in *. pose proof (fr_len _ _ _ Hfr) as Hlen1.
  assert (Forall (item_ok els1) Q1) as Hok1.
  { apply Forall_app_2; [eapply Forall_impl; [exact HQ|]; intros ?; by apply item_ok_len|].
    unfold children. fold x. apply Forall_app_2.
    - destruct (Z.ltb_spec lo mid); constructor; [|done]. unfold item_ok. lia.
    - destruct (Z.ltb_spec mid hi); constructor; [|done]. unfold item_ok. lia. }
  assert (total ((par, lo, hi, pm) :: Q) = S (total Q1)) as Htot.
  { unfold Q1. rewrite total_app. unfold children, total at 1 3. simpl. fold (total Q).
    destruct (Z.ltb_spec lo mid), (Z.ltb_spec mid hi); simpl; lia. }
  pose proof (length_total els1 Q1 Hok1) as Hlt.
  destruct (rebuild_step_spec els q Q par lo hi pm Hring Hit) as (q' & Hstep & Hring'); [fold mid Q1; unfold alen; lia|].
  fold mid Q1 els1 in Hring', Hstep. rewrite Hstep.
  destruct (IH els1 q' Q1) as (els' & Hrun & Hdone & Hfr'); [done|done|done| |lia|lia|].
  { rewrite Hlen1. done. }
  exists els'. split; [done|]. split.
  - constructor; [|by apply Forall_app in Hdone as [? _]]. apply Forall_app in Hdone as [_ Hch].
    destruct (node_assemble els1 els' par lo mid hi (footprints Q1)) as (t & Hrt & ? & ? & ?);
      [done|unfold mid; Z.div_mod_to_equations; lia| |done..| |done|].
    { fold x. rewrite (fr_len _ _ _ Hfr'), Hlen1. done. }
    { intros l Hl. apply Hdis. by right. }
    exists t. split; [done|]. split; [done|]. split; [|done]. rewrite (fr_links _ _ _ Hfr'), Hrt; [done|]. apply Hdis. left.
  - eapply frame_trans; [..|exact Hfr|exact Hfr'].
    + intros [f y] Hin. rewrite bind_cons, elem_of_app. left. cbn [footprint].
      apply elem_of_cons in Hin as [->|Hin%elem_of_triples]; [left|right]. apply list_elem_of_singleton in Hin as ->.
      apply elem_of_triples. rewrite (slice_split sorted lo mid hi Hm). set_solver.
    + intros l Hl. rewrite Hperm, elem_of_app. by right.
Qed.

Lemma NoDup_triples l : NoDup l -> NoDup (triples l).
Proof.
  induction 1 as [|x l Hx _ IH]; [constructor|]. unfold triples. rewrite bind_cons. fold (triples l).
  apply NoDup_app. split; [|split; [|done]].
  - repeat constructor; set_solver.
  - intros [f y] Hy Hin%elem_of_triples. apply Hx. by assert (y = x) as -> by set_solver.
Qed.

Lemma children_ok els mid hi :
  let x := sorted.[mid] in
  0 <= x < alen els -> 0 <= mid <= hi -> hi < alen sorted ->
  Forall (item_ok els) (children 0 mid hi) /\ Z.of_nat (total (children 0 mid hi)) <= hi.
Proof.
  intros x Hx Hm Hhi. unfold children. fold x. split.
  - apply Forall_app_2.
    + destruct (Z.ltb_spec 0 mid); constructor; [|done]. unfold item_ok. lia.
    + destruct (Z.ltb_spec mid hi); constructor; [|done]. unfold item_ok. lia.
  - rewrite total_app. unfold total. destruct (Z.ltb_spec 0 mid), (Z.ltb_spec mid hi); simpl; lia.
Qed.

(** The ring after the two pushes for the root. *)
Definition root_queue (mid n : Z) : RangeQueue :=
  let x := sorted.[mid] in
  let q := mkQueue (replicate (Z.to_nat L) (0, 0, 0, 0)) 0 0 0 in
  let q := if 0 <? mid then push lg (x, 0, mid - 1, mid) q else q in
  if mid + 1 <? n then push lg (x, mid + 1, n - 1, mid) q else q.
Lemma root_queue_ring mid n : 0 <= mid < n -> n <= L -> ring lg (root_queue mid n) (children 0 mid (n - 1)).
Proof.
  intros Hm HL. unfold root_queue, children. cbn zeta. pose proof (ring_empty lg) as He.
  replace (mid + 1 <? n) with (mid <? n - 1) by (destruct (Z.ltb_spec mid (n - 1)), (Z.ltb_spec (mid + 1) n); (done || lia)).
  assert (forall it : Z * Z * Z * Z, alen [it] = 1) as H1 by done.
  destruct (Z.ltb_spec 0 mid), (Z.ltb_spec mid (n - 1)); rewrite ?app_nil_r; try done.
  - apply ring_push; [apply (ring_push lg _ _ []); [done|]|]; rewrite ?H1; unfold alen; simpl; lia.
  - apply (ring_push lg _ _ []); [done|]. unfold alen; simpl; lia.
  - apply (ring_push lg _ _ []); [done|]. unfold alen; simpl; lia.
Qed.

(** [_rebuild] of a queue whose elements are [sorted] *)
Lemma rebuild_spec scratch els t :
  t <> Leaf -> Rep els NULL_INDEX t -> NoDup (inorder t) -> inorder t = sorted -> (length sorted <= Z.to_nat L)%nat ->
  exists els' t', _rebuild zeroT lg scratch els (root t) = Some (els', root t') /\ Rep els' NULL_INDEX t' /\ inorder t' = sorted /\
    frame els els' (triples sorted) /\ (scratch = true -> optimal t').
Proof.
  intros Ht Hr Hnd Hsorted HL. unfold _rebuild. destruct scratch; cbn [negb].
  2:{ exists els, t. split; [done|]. split; [done|]. split; [done|]. split; [by split|done]. }
  rewrite getSortedElements_spec by (done || by rewrite Hsorted). rewrite Hsorted in *.
  assert (0 < alen sorted) as Hpos.
  { rewrite <- Hsorted. unfold alen. destruct (inorder t) eqn:He; [by apply inorder_nil in He|simpl; lia]. }
  rewrite (proj2 (Z.eqb_neq (alen sorted) 0)) by lia.
  set (n := alen sorted) in *. set (mid := n / 2). set (x := sorted.[mid]).
  assert (0 <= mid <= n - 1) as Hm by (unfold mid; Z.div_mod_to_equations; lia).
  assert (n <= L) as HnL by (unfold n, alen; pose proof (cap_pos lg); lia).
  assert (Forall (fun x => 0 <= x < alen els) sorted) as Hs by (rewrite <- Hsorted; by eapply rep_range_inv).
  assert (x ∈ sorted) as Hxs.
  { unfold x. rewrite aget_nonneg by lia. apply list_elem_of_lookup_total_2. unfold n, alen in *. lia. }
  assert (0 <= x < alen els) as Hx by (rewrite Forall_forall in Hs; by apply Hs).
  cbn zeta. change (if mid + 1 <? n then _ else _) with (root_queue mid n).
  set (els1 := upd zeroT (no_links NULL_INDEX) x els).
  assert (frame els els1 (triples [x])) as Hfr1.
  { split; [apply alen_upd|intros; by apply upd_field|]. intros f y Hy. unfold els1.
    rewrite upd_ne; [done|]. intros ->. destruct f; set_solver. }
  assert (links (els1.[x]) = (NULL_INDEX, NULL_INDEX, NULL_INDEX)) as Hlx by (unfold els1; by rewrite upd_eq).
  pose proof (NoDup_triples sorted Hnd) as Hndt.
  pose proof (footprint_split 0 mid (n - 1) Hm) as Hperm. unfold n in Hperm at 1. rewrite slice_all in Hperm.
  rewrite Hperm in Hndt. apply NoDup_app in Hndt as (_ & Hdis & HndQ).
  pose proof (fr_len _ _ _ Hfr1) as Hlen1.
  destruct (children_ok els1 mid (n - 1)) as [Hok Htot]; [fold x; lia|done|unfold n; lia|].
  destruct (rebuild_loop_spec (S (Z.to_nat L)) els1 (root_queue mid n) (children 0 mid (n - 1))) as (els' & -> & Hdone & Hfr');
    [apply root_queue_ring; lia|done|done|by rewrite Hlen1|lia|lia|].
  destruct (node_assemble els1 els' NULL_INDEX 0 mid (n - 1) (footprints (children 0 mid (n - 1)))) as (t' & Hrt & Hin & Hrep & Hopt);
    [done|unfold mid; Z.div_mod_to_equations; lia| |done..|].
  { fold x. rewrite (fr_len _ _ _ Hfr'). lia. }
  exists els', t'. fold x in Hrt. rewrite Hrt. split; [done|]. split; [done|]. split; [by rewrite Hin; apply slice_all|].
  split; [|done]. eapply frame_trans; [..|exact Hfr1|exact Hfr'].
  - intros [f y] Hy%elem_of_triples%list_elem_of_singleton. apply elem_of_triples. by subst y.
  - intros l Hl. rewrite Hperm, elem_of_app. by right.
Qed.
End rebuild.
