(* ===== verification/CollectionLinks.v ===== *)
(** * Updates of the trees of QPI::Collection

    What adding a node ([_addPovElement]), unlinking a node ([_updateParent] and the cases of [remove]), moving an element to
    another slot ([_moveElement]) and the walk of [cleanup] do to the tree of a queue. *)
From S2P Require Import Prelude OpenAddressing OccupationFlags OccupiedSlots Collection CollectionTree CollectionRebuild.

Section updates.
Context {T : Type} (zeroT : T).
#[local] Hint Extern 0 (Inhabited (Element T)) => exact (collection_element_inhabited zeroT) : typeclass_instances.
Implicit Types (els : list (Element T)) (t : tree) (c : ctx).
Abbreviation Rep := (rep zeroT).
Abbreviation Rep_ctx := (rep_ctx zeroT).
Abbreviation Upd := (upd zeroT).

Lemma NoDup_plug c t :
  NoDup (inorder (plug c t)) ->
  NoDup (inorder t) /\ (forall x, x ∈ inorder t -> (x ∉ before c) /\ x ∉ after c) /\ NoDup (before c ++ after c).
Proof.
  rewrite inorder_plug. intros (Hb & Hd & (Ht & Hd' & Ha)%NoDup_app)%NoDup_app. split; [done|]. split.
  - intros x Hx. split; [|by apply Hd']. intros Hin. apply (Hd x Hin). apply elem_of_app. by left.
  - apply NoDup_app. split; [done|]. split; [|done]. intros x Hx Hin. apply (Hd x Hx). apply elem_of_app. by right.
Qed.

Lemma parent_of_ctx c : c <> [] -> parent_of c ∈ before c \/ parent_of c ∈ after c.
Proof. destruct c as [|[i r|l i] c]; [done|..]; intros _; [right|left]; simpl; set_solver. Qed.

(** [hole] takes the place of the subtree at a position: the link of the parent ... *)
Definition set_child c (y : Z) els : list (Element T) :=
  match c with
  | [] => els
  | InLeft i _ :: _ => Upd (set_left y) i els
  | InRight _ i :: _ => Upd (set_right y) i els
  end.
(** ... and the link to the parent. *)
Definition set_hole c t els : list (Element T) :=
  let els := set_child c (root t) els in
  match t with Leaf => els | Node _ i _ => Upd (set_parent (parent_of c)) i els end.

Lemma alen_set_child c y els : alen (set_child c y els) = alen els.
Proof. destruct c as [|[i r|l i] c]; [done|apply alen_upd..]. Qed.
Lemma alen_set_hole c t els : alen (set_hole c t els) = alen els.
Proof. unfold set_hole. destruct t; rewrite ?alen_upd; apply alen_set_child. Qed.
Lemma set_child_other c y els j : c = [] \/ j <> parent_of c -> (set_child c y els).[j] = els.[j].
Proof.
  destruct c as [|[i r|l i] c]; [done|..]; (intros [?|Hne]; [done|]); apply upd_ne; by apply not_eq_sym.
Qed.
Lemma set_child_data c y els j : data ((set_child c y els).[j]) = data (els.[j]).
Proof. destruct c as [|[i r|l i] c]; [done|..]; by apply (upd_field zeroT data). Qed.
Lemma set_hole_data c t els j : data ((set_hole c t els).[j]) = data (els.[j]).
Proof. unfold set_hole. destruct t; rewrite ?(upd_field zeroT data) by done; apply set_child_data. Qed.
Lemma set_hole_other c t els j : (c = [] \/ j <> parent_of c) -> j ∉ inorder t -> (set_hole c t els).[j] = els.[j].
Proof.
  intros Hc Hj. unfold set_hole. destruct t as [|l i r]; [by apply set_child_other|].
  rewrite upd_ne; [by apply set_child_other|]. intros ->. simpl in Hj. set_solver.
Qed.

Lemma rep_ctx_set_child els c x y :
  NoDup (before c ++ after c) -> Rep_ctx els c x -> Rep_ctx (set_child c y els) c y.
Proof.
  intros Hnd. destruct c as [|f c]; [done|]. intros Hr.
  pose proof (ctx_parent_range _ _ _ _ Hr ltac:(done)) as Hrange.
  assert (forall j, j <> frame_node f -> links ((set_child (f :: c) y els).[j]) = links (els.[j])) as Ho.
  { intros j Hj. rewrite set_child_other by (by right). done. }
  pose proof (alen_set_child (f :: c) y els) as Hlen.
  destruct f as [i r|l i]; simpl in *; destruct Hr as ([_ Hi] & Hs & Hc); injection Hi as Hp Hl Hrr.
  all: apply NoDup_app in Hnd as (Hnb & Hnd & Hna).
  - apply NoDup_cons in Hna as [Hia Hna]. split; [|split].
    + split; [by rewrite alen_upd|]. rewrite upd_eq by done. unfold links. simpl. by rewrite Hp, Hrr.
    + apply (rep_ext zeroT els); [done| |done]. intros j Hj. apply Ho. intros ->. set_solver.
    + apply (rep_ctx_ext zeroT els); [done| |done]. intros j [Hj|Hj]; apply Ho; intros ->.
      * apply (Hnd _ Hj). left.
      * set_solver.
  - apply NoDup_app in Hnb as (Hnb & Hnb1 & (Hnl & Hnb2 & _)%NoDup_app). split; [|split].
    + split; [by rewrite alen_upd|]. rewrite upd_eq by done. unfold links. simpl. by rewrite Hp, Hl.
    + apply (rep_ext zeroT els); [done| |done]. intros j Hj. apply Ho. intros ->. apply (Hnb2 _ Hj). set_solver.
    + apply (rep_ctx_ext zeroT els); [done| |done]. intros j [Hj|Hj]; apply Ho; intros ->.
      * apply (Hnb1 _ Hj). set_solver.
      * apply (Hnd i); [|done]. set_solver.
Qed.

(** A tree with a new link to its parent. *)
Lemma rep_reparent els p q t :
  NoDup (inorder t) -> Rep els q t -> Rep (match t with Leaf => els | Node _ i _ => Upd (set_parent p) i els end) p t.
Proof.
  destruct t as [|l i r]; [done|]. simpl. intros (_ & Hd & [Hir _]%NoDup_cons)%NoDup_app ([Hi Hli] & Hl & Hr).
  assert (forall j, j <> i -> links ((Upd (set_parent p) i els).[j]) = links (els.[j])) as Ho.
  { intros j Hj. by rewrite upd_ne by (by apply not_eq_sym). }
  split; [|split].
  - split; [by rewrite alen_upd|]. rewrite upd_eq by done. injection Hli as _ H1 H2. unfold links. simpl. by rewrite H1, H2.
  - apply (rep_ext zeroT els); [apply alen_upd| |done]. intros j Hj. apply Ho. intros ->. apply (Hd _ Hj). left.
  - apply (rep_ext zeroT els); [apply alen_upd| |done]. intros j Hj. apply Ho. by intros ->.
Qed.

(** Replacing the tree at a position by one of its subtrees, or by a tree of other elements. *)
Lemma rep_set_hole els c x q t :
  NoDup (inorder (plug c t)) -> Rep_ctx els c x -> Rep els q t -> Rep (set_hole c t els) NULL_INDEX (plug c t).
Proof.
  intros Hnd Hc Ht. destruct (NoDup_plug c t Hnd) as (Hndt & Hout & Hndc).
  assert (forall j, j ∈ inorder t -> c = [] \/ j <> parent_of c) as Hpar.
  { intros j Hj. destruct (decide (c = [])); [by left|right]. intros ->.
    destruct (parent_of_ctx c) as [?|?]; [done|..]; by destruct (Hout _ Hj). }
  apply rep_plug. split.
  - apply (rep_ctx_ext zeroT (set_child c (root t) els)); [|intros j Hj|by apply (rep_ctx_set_child els c x)].
    + by rewrite alen_set_hole, alen_set_child.
    + unfold set_hole. destruct t as [|l i r]; [done|]. rewrite upd_ne; [done|]. intros <-.
      destruct (Hout i) as [? ?]; [simpl; set_solver|]. by destruct Hj.
  - pose proof (rep_reparent _ (parent_of c) q _ Hndt Ht) as Hre.
    unfold set_hole. destruct t as [|l i r]; [done|]. revert Hre. apply rep_ext; [by rewrite !alen_upd, alen_set_child|].
    intros j Hj. destruct (decide (i = j)) as [<-|]; [|by rewrite !upd_ne, set_child_other by auto].
    assert (0 <= i < alen els) by (by apply (rep_range zeroT els q (Node l i r))).
    rewrite !upd_eq, set_child_other by (rewrite ?alen_set_child; auto). done.
Qed.

(** ** Adding a node *)

Lemma insertion_ctx els t pri i :
  insertion_point zeroT els t pri i ->
  exists c, t = plug c Leaf /\
    match c with [] => False | InRight _ j :: _ => j = i /\ pri <= prio zeroT els i | InLeft j _ :: _ => j = i /\ prio zeroT els i < pri end /\
    Forall (fun j => pri <= prio zeroT els j) (before c) /\ Forall (fun j => prio zeroT els j < pri) (after c).
Proof.
  intros (c & l & r & -> & [(? & -> & ? & ?)|(? & -> & ? & ?)]).
  - by exists (InRight l i :: c).
  - by exists (InLeft i r :: c).
Qed.

Lemma add_node_spec els c k i pri :
  match c with [] => False | InRight _ j :: _ => j = i /\ pri <= prio zeroT els i | InLeft j _ :: _ => j = i /\ prio zeroT els i < pri end ->
  Upd (set_parent i) k (if pri <=? e_priority (els.[i]) then Upd (set_right k) i els else Upd (set_left k) i els) =
  set_hole c (Node Leaf k Leaf) els.
Proof.
  fold (prio zeroT els i).
  destruct c as [|[j r|l j] c]; [done|..]; intros [-> Hp].
  - rewrite (proj2 (Z.leb_gt _ _)) by lia. done.
  - rewrite (proj2 (Z.leb_le _ _)) by lia. done.
Qed.

(** ** Unlinking a node *)

Definition is_left c : bool := match c with InLeft _ _ :: _ => true | _ => false end.

(** The links of the parent tell on which side a subtree is. *)
Lemma parent_links els c t :
  Rep els NULL_INDEX (plug c t) -> NoDup (inorder (plug c t)) -> t <> Leaf -> c <> [] ->
  (bstLeftIndex (els.[parent_of c]) =? root t) = is_left c /\ (bstRightIndex (els.[parent_of c]) =? root t) = negb (is_left c).
Proof.
  destruct c as [|f c]; [done|]. intros [Hc Ht]%rep_plug Hnd Hne _.
  pose proof (NoDup_frame f t (NoDup_hole c _ Hnd)) as Hfr.
  destruct f as [i r|l i]; simpl in *; destruct Hc as (Hi & Hs & Hc); destruct (node_fields _ _ _ _ _ _ Hi) as (_ & -> & ->).
  - split; [apply Z.eqb_refl|]. apply (sibling_ne zeroT els i t); [done|done|]. intros x Hx. by apply Hfr.
  - split; [|apply Z.eqb_refl]. apply (sibling_ne zeroT els i t); [done|done|]. intros x Hx. by apply Hfr.
Qed.

Lemma set_child_links els c t y :
  Rep els NULL_INDEX (plug c t) -> NoDup (inorder (plug c t)) -> t <> Leaf -> c <> [] ->
  (if bstRightIndex (els.[parent_of c]) =? root t then Upd (set_right y) (parent_of c) els else Upd (set_left y) (parent_of c) els) =
  set_child c y els.
Proof.
  intros Hr Hnd Ht Hc. destruct (parent_links els c t Hr Hnd Ht Hc) as [_ ->]. by destruct c as [|[i r|l i] c].
Qed.

Lemma updateParent_spec els c l e r t1 q :
  Rep els NULL_INDEX (plug c (Node l e r)) -> NoDup (inorder (plug c (Node l e r))) -> Rep els q t1 ->
  _updateParent zeroT els e (root t1) = match c with [] => (els, false) | _ => (set_hole c t1 els, true) end.
Proof.
  intros Hr Hnd Ht1. pose proof Hr as [Hc [He _]]%rep_plug. unfold _updateParent. cbn [root] in *.
  assert ((e =? NULL_INDEX) = false) as -> by (apply Z.eqb_neq; destruct He as [? _]; unfold NULL_INDEX; lia).
  destruct (node_fields _ _ _ _ _ _ He) as (Hp & _ & _). rewrite Hp, (ctx_parent_null _ _ _ _ Hc).
  destruct (decide (c = [])) as [->|Hne]; [done|].
  transitivity (set_hole c t1 els, true); [|by destruct c]. replace (match c with [] => true | _ => false end) with false by (by destruct c).
  cbn [negb]. rewrite (set_child_links els c (Node l e r)) by done.
  assert (e <> parent_of c) as Hpe.
  { intros Heq. destruct (NoDup_plug c _ Hnd) as (_ & Hout & _).
    destruct (Hout e) as [? ?]; [simpl; set_solver|]. rewrite Heq in *. by destruct (parent_of_ctx c Hne). }
  rewrite set_child_other, Hp by (by right). rewrite (root_null _ _ _ _ Ht1). unfold set_hole. by destruct t1.
Qed.
End updates.

(** ** The cases of [remove] *)

Lemma eq_first l1 e l2 : NoDup (l1 ++ e :: l2) -> (e =? first_index (l1 ++ e :: l2)) = match l1 with [] => true | _ => false end.
Proof.
  destruct l1 as [|x l1]; [intros; apply Z.eqb_refl|]. intros [Hx _]%NoDup_cons. apply Z.eqb_neq. intros Hex. change (e = x) in Hex. subst x. apply Hx, elem_of_app. right. left.
Qed.
Lemma eq_last l1 e l2 : NoDup (l1 ++ e :: l2) -> (e =? last_index (l1 ++ e :: l2)) = match l2 with [] => true | _ => false end.
Proof.
  destruct l2 as [|x l2]; [rewrite last_index_snoc; intros; apply Z.eqb_refl|].
  intros (_ & _ & [Hx _]%NoDup_cons)%NoDup_app. apply Z.eqb_neq.
  rewrite (cons_middle e l1), app_assoc, last_index_app by done.
  intros He. apply Hx. rewrite He at 1. unfold last_index. destruct (last (x :: l2)) as [y|] eqn:Hl; [|by apply last_None in Hl].
  apply last_Some in Hl as [k ->]. simpl. set_solver.
Qed.
Lemma first_index_remove (l1 : list Z) e l2 : l1 <> [] -> first_index (l1 ++ e :: l2) = first_index (l1 ++ l2).
Proof. by destruct l1. Qed.
Lemma last_index_remove (l1 : list Z) e l2 : l2 <> [] -> last_index (l1 ++ e :: l2) = last_index (l1 ++ l2).
Proof. intros. rewrite (cons_middle e l1), app_assoc, !last_index_app; done. Qed.

Lemma root_plug c t t' : c <> [] -> root (plug c t) = root (plug c t').
Proof.
  destruct c as [|f c]; [done|]. intros _. simpl. revert f t t'. induction c as [|g c IH]; intros f t t'; simpl; [by destruct f|apply IH].
Qed.
Lemma leftmost_ctx t :
  t <> Leaf -> exists c i r, t = plug c (Node Leaf i r) /\ before c = [] /\ (c <> [] -> is_left c = true).
Proof.
  induction t as [|l IHl i r _]; [done|]. intros _. destruct l as [|ll j lr]; [by exists [], i, r|].
  destruct IHl as (c & k & rr & -> & Hb & Hc); [done|]. exists (c ++ [InLeft i r]), k, rr. rewrite plug_app. split; [done|].
  rewrite before_app, Hb. split; [done|]. intros _. destruct c as [|f c]; [done|by apply Hc].
Qed.

Lemma root_not_hole c l e r : c <> [] -> NoDup (inorder (plug c (Node l e r))) -> root (plug c (Node l e r)) <> e.
Proof.
  intros Hc Hnd He. destruct (NoDup_plug c _ Hnd) as (_ & Hout & _). destruct (Hout e) as [Hn1 Hn2]; [simpl; set_solver|].
  rewrite (root_plug _ _ Leaf) in He by done.
  assert (e ∈ inorder (plug c Leaf)) as Hin.
  { rewrite <- He. apply root_in. intros H0. apply (f_equal inorder) in H0. pose proof (length_ctx c Leaf) as Hlen.
    rewrite H0 in Hlen. destruct c; [done|simpl in Hlen; lia]. }
  rewrite inorder_plug in Hin. set_solver.
Qed.

Section remove.
Context {T : Type} (zeroT : T).
#[local] Hint Extern 0 (Inhabited (Element T)) => exact (collection_element_inhabited zeroT) : typeclass_instances.
Variable lg : nat.
Abbreviation L := (2 ^ Z.of_nat lg).
Abbreviation Rep := (rep zeroT).
Variables (col : Collection T) (t : tree) (pov : PoV).
Abbreviation els := (_elements col).
Hypothesis Hrep : Rep els NULL_INDEX t.
Hypothesis Hnd : NoDup (inorder t).
Hypothesis Hpop : Forall (fun i => 0 <= i < _population col) (inorder t).
Hypothesis HL : _population col <= L.
Hypothesis Hhead : pov_headIndex pov = first_index (inorder t).
Hypothesis Htail : pov_tailIndex pov = last_index (inorder t).
Hypothesis Hroot : bstRootIndex pov = root t.

Definition content (e : Element T) : Z * T := (e_priority e, e_value e).

(** The outcome of [remove_node] for the element between [l1] and [l2]. *)
Definition node_removed (l1 l2 : list Z) (res : list (Element T) * PoV * Z * Z) : Prop :=
  let '(els', pov', d, nx) := res in
  exists t' l2',
    Rep els' NULL_INDEX t' /\ inorder t' = l1 ++ l2' /\ d :: inorder t' ≡ₚ inorder t /\ nx = first_index l2' /\
    (fun j => content (els'.[j])) <$> (l1 ++ l2') = (fun j => content (els.[j])) <$> (l1 ++ l2) /\
    pov' = mkPoV (pov_value pov) (pov_population pov) (first_index (inorder t')) (last_index (inorder t')) (root t') /\
    alen els' = alen els /\ (forall j, povIndex (els'.[j]) = povIndex (els.[j])) /\ (forall j, j ∉ inorder t -> els'.[j] = els.[j]).

Lemma content_data e e' : data (T:=T) e = data e' -> content e = content e' /\ povIndex e = povIndex e'.
Proof. unfold data, content. intros [= -> -> ->]. done. Qed.

(** The node has at most one child: the child takes its place. *)
Lemma unlink_spec c l e r t1 pov' nx :
  t = plug c (Node l e r) -> (l = Leaf /\ t1 = r \/ r = Leaf /\ t1 = l) ->
  let l1 := before c ++ inorder l in let l2 := inorder r ++ after c in
  pov' = mkPoV (pov_value pov) (pov_population pov) (first_index (l1 ++ l2)) (last_index (l1 ++ l2)) (root (plug c t1)) ->
  nx = first_index l2 -> node_removed l1 l2 (set_hole zeroT c t1 els, pov', e, nx).
Proof.
  intros Ht Hch l1 l2 Hpov Hnx. rewrite Ht in Hrep, Hnd.
  assert (inorder t = before c ++ (inorder l ++ e :: inorder r) ++ after c) as Hin by (rewrite Ht, inorder_plug; done).
  assert (inorder (plug c t1) = l1 ++ l2) as Hin'.
  { rewrite inorder_plug. unfold l1, l2. destruct Hch as [[-> ->]|[-> ->]]; simpl; by rewrite ?app_nil_r, <- ?app_assoc. }
  assert (e :: inorder (plug c t1) ≡ₚ inorder t) as Hperm.
  { rewrite Hin', Hin. unfold l1, l2. rewrite <- !app_assoc, Permutation_middle. apply Permutation_app_head.
    simpl. by rewrite Permutation_middle. }
  assert (exists q, Rep els q t1) as [q Ht1].
  { pose proof Hrep as [_ (_ & Hl & Hr)]%rep_plug. exists e. destruct Hch as [[_ ->]|[_ ->]]; done. }
  exists (plug c t1), l2. split; [|split; [done|split; [done|split; [done|split; [|split; [by rewrite Hin'|split; [|split]]]]]]].
  - pose proof Hrep as [Hc _]%rep_plug. apply (rep_set_hole zeroT els c e q); [|done|done].
    assert (NoDup (e :: inorder (plug c t1))) as [_ ?]%NoDup_cons; [|done]. rewrite Hperm, Ht. done.
  - apply list_fmap_ext. intros k x _. apply content_data, set_hole_data.
  - apply alen_set_hole.
  - intros j. apply content_data, set_hole_data.
  - intros j Hj. rewrite <- Hperm in Hj. rewrite inorder_plug in Hj. apply set_hole_other; [|set_solver].
    destruct (decide (c = [])) as [|Hc]; [by left|right]. intros ->. destruct (parent_of_ctx c Hc); set_solver.
Qed.

(** The node has two children: it gets the content of the next element, which is unlinked. *)
Definition copy_content (src dst : Z) (es : list (Element T)) : list (Element T) :=
  let es := upd zeroT (set_value (e_value (es.[src]))) dst es in upd zeroT (set_priority (e_priority (es.[src]))) dst es.

Lemma copy_content_spec src dst es :
  0 <= dst < alen es -> src <> dst ->
  alen (copy_content src dst es) = alen es /\ (forall j, links ((copy_content src dst es).[j]) = links (es.[j])) /\
  (forall j, povIndex ((copy_content src dst es).[j]) = povIndex (es.[j])) /\
  (forall j, j <> dst -> (copy_content src dst es).[j] = es.[j]) /\ content ((copy_content src dst es).[dst]) = content (es.[src]).
Proof.
  intros Hd Hne. unfold copy_content. split; [by rewrite !alen_upd|]. split; [|split; [|split]].
  - intros j. by rewrite !(upd_field zeroT links) by done.
  - intros j. by rewrite !(upd_field zeroT povIndex) by done.
  - intros j Hj. by rewrite !upd_ne by (by apply not_eq_sym).
  - rewrite upd_eq by (by rewrite alen_upd). rewrite upd_eq by done. rewrite upd_ne by (by apply not_eq_sym). done.
Qed.

Lemma swap_spec c l e c2 tmp rr pov' :
  t = plug c (Node l e (plug c2 (Node Leaf tmp rr))) -> before c2 = [] ->
  let l1 := before c ++ inorder l in let l3 := inorder rr ++ after c2 ++ after c in
  pov' = mkPoV (pov_value pov) (pov_population pov) (first_index (l1 ++ e :: l3)) (last_index (l1 ++ e :: l3)) (root t) ->
  node_removed l1 (tmp :: l3) (copy_content tmp e (set_hole zeroT (c2 ++ InRight l e :: c) rr els), pov', tmp, e).
Proof.
  intros Ht Hb l1 l3 Hpov. set (c' := c2 ++ InRight l e :: c).
  assert (t = plug c' (Node Leaf tmp rr)) as Ht' by (rewrite Ht; unfold c'; by rewrite plug_app).
  assert (inorder t = l1 ++ e :: tmp :: l3) as Hin.
  { rewrite Ht, !inorder_plug. simpl. rewrite inorder_plug, Hb. unfold l1, l3. by repeat (simpl; rewrite <- ?app_assoc). }
  assert (inorder (plug c' rr) = l1 ++ e :: l3) as Hin'.
  { unfold c'. rewrite plug_app. simpl. rewrite inorder_plug. simpl. rewrite inorder_plug, Hb. unfold l1, l3.
    by repeat (simpl; rewrite <- ?app_assoc). }
  assert (tmp :: inorder (plug c' rr) ≡ₚ inorder t) as Hperm.
  { rewrite Hin', Hin. rewrite Permutation_middle. apply Permutation_app_head, perm_swap. }
  assert (NoDup (tmp :: inorder (plug c' rr))) as [Htmp Hnd']%NoDup_cons by (by rewrite Hperm).
  pose proof Hrep as Hr. rewrite Ht' in Hr. apply rep_plug in Hr as [Hc' (_ & _ & Hrr)].
  assert (0 <= e < alen els) as He by (apply (rep_range _ _ _ _ _ Hrep); rewrite Hin; set_solver).
  assert (tmp <> e) as Hne by (intros ->; apply Htmp; rewrite Hin'; set_solver).
  pose proof (set_hole_data zeroT c' rr els) as Hdata. pose proof (rep_set_hole zeroT els c' tmp tmp rr Hnd' Hc' Hrr) as Hrep'.
  pose proof (alen_set_hole zeroT c' rr els) as Hlen.
  set (els2 := set_hole zeroT c' rr els) in *.
  destruct (copy_content_spec tmp e els2) as (Hlen3 & Hlinks & Hpovs & Hother & Hcont); [by rewrite Hlen|done|].
  exists (plug c' rr), (e :: l3).
  split; [|split; [done|split; [done|split; [done|split; [|split; [|split; [|split]]]]]]].
  - apply (rep_ext zeroT els2); [done| |done]. intros. apply Hlinks.
  - rewrite !fmap_app, !fmap_cons, Hcont, (proj1 (content_data _ _ (Hdata tmp))).
    rewrite Hin' in Hnd'. apply NoDup_app in Hnd' as (_ & Hd1 & [He3 _]%NoDup_cons).
    f_equal; [|f_equal]; apply list_fmap_ext; intros k x Hx%list_elem_of_lookup_2; (rewrite Hother; [apply content_data, Hdata|]).
    + intros ->. apply (Hd1 e Hx). left.
    + by intros ->.
  - rewrite Hpov, Hin'. f_equal. rewrite Ht'. apply root_plug. unfold c'. by destruct c2.
  - lia.
  - intros j. rewrite Hpovs. apply content_data, Hdata.
  - intros j Hj. rewrite Hother by (intros ->; apply Hj; rewrite Hin; set_solver).
    apply set_hole_other.
    + right. intros ->. apply Hj. rewrite <- Hperm, inorder_plug. right.
      destruct (parent_of_ctx c'); [unfold c'; by destruct c2|set_solver..].
    + intros Hj'. apply Hj. rewrite <- Hperm, inorder_plug. set_solver.
Qed.

(** The element array of the two-children case. *)
Lemma swap_elements c l e c2 tmp rr :
  t = plug c (Node l e (plug c2 (Node Leaf tmp rr))) -> before c2 = [] -> (c2 <> [] -> is_left c2 = true) ->
  (let rightTmpIndex := bstRightIndex (els.[tmp]) in
   let es := if tmp =? root (plug c2 (Node Leaf tmp rr)) then
        let es := upd zeroT (set_right rightTmpIndex) e els in
        if negb (rightTmpIndex =? NULL_INDEX) then upd zeroT (set_parent e) rightTmpIndex es else es
      else
        let es := upd zeroT (set_left rightTmpIndex) (bstParentIndex (els.[tmp])) els in
        if negb (rightTmpIndex =? NULL_INDEX) then upd zeroT (set_parent (bstParentIndex (es.[tmp]))) rightTmpIndex es else es in
    let es := upd zeroT (set_value (e_value (es.[tmp]))) e es in upd zeroT (set_priority (e_priority (es.[tmp]))) e es) =
  copy_content tmp e (set_hole zeroT (c2 ++ InRight l e :: c) rr els).
Proof.
  intros Ht Hb Hc2. set (c' := c2 ++ InRight l e :: c).
  assert (t = plug c' (Node Leaf tmp rr)) as Ht' by (rewrite Ht; unfold c'; by rewrite plug_app).
  pose proof Hrep as Hr. rewrite Ht' in Hr. apply rep_plug in Hr as [Hc' (Htmp & _ & Hrr)].
  destruct (node_fields _ _ _ _ _ _ Htmp) as (Ep & _ & Er). cbn zeta. rewrite Er, Ep.
  match goal with |- context [if tmp =? ?x then ?a else ?b] => transitivity (copy_content tmp e (if tmp =? x then a else b)); [done|] end.
  f_equal. destruct c2 as [|f c2].
  - cbn [plug root]. rewrite Z.eqb_refl, (root_null _ _ _ _ Hrr). unfold set_hole, c'. simpl. by destruct rr.
  - rewrite (proj2 (Z.eqb_neq _ _)).
    2:{ apply not_eq_sym, root_not_hole; [done|]. apply (NoDup_hole (InRight l e :: c)). rewrite Ht in Hnd. exact Hnd. }
    rewrite (upd_field zeroT bstParentIndex), Ep by done. specialize (Hc2 ltac:(done)).
    destruct f as [i r|]; [|done]. unfold set_hole, c'. simpl. rewrite (root_null _ _ _ _ Hrr). by destruct rr.
Qed.

Lemma pov_eq p v n h tl r :
  pov_value p = v -> pov_population p = n -> pov_headIndex p = h -> pov_tailIndex p = tl -> bstRootIndex p = r -> p = mkPoV v n h tl r.
Proof. destruct p; simpl. by intros -> -> -> -> ->. Qed.

(** The end of the queue is adjusted if the last element goes. *)
Lemma new_tail l1 e l2 :
  inorder t = l1 ++ e :: l2 -> l1 <> [] ->
  (if e =? pov_tailIndex pov then prev ← _previousElementIndex zeroT lg col e; Some (set_pov_tail prev pov) else Some pov) =
  Some (mkPoV (pov_value pov) (pov_population pov) (first_index (l1 ++ l2)) (last_index (l1 ++ l2)) (root t)).
Proof.
  intros Hin Hl1. pose proof (prev_spec zeroT lg col t Hrep Hnd Hpop HL l1 e l2 Hin) as Hprev. rewrite Hin in Hnd.
  rewrite Htail, Hin, eq_last, Hprev by done. destruct l2 as [|x l2]; cbn [mbind option_bind]; f_equal; apply pov_eq; try done; simpl.
  - by rewrite Hhead, Hin, first_index_remove.
  - by rewrite app_nil_r.
  - by rewrite Hhead, Hin, first_index_remove.
  - by rewrite Htail, Hin, last_index_remove.
Qed.

(** ... and its start if the first one goes. *)
Lemma new_head l1 e l2 :
  inorder t = l1 ++ e :: l2 -> l2 <> [] ->
  (if e =? pov_headIndex pov then set_pov_head (first_index l2) pov else pov) =
  mkPoV (pov_value pov) (pov_population pov) (first_index (l1 ++ l2)) (last_index (l1 ++ l2)) (root t).
Proof.
  intros Hin Hl2. rewrite Hin in Hnd. rewrite Hhead, Hin, eq_first by done.
  assert (last_index (l1 ++ l2) = pov_tailIndex pov) as Htl by (by rewrite Htail, Hin, last_index_remove).
  destruct l1 as [|x l1]; apply pov_eq; try done; simpl; by rewrite Hhead, Hin.
Qed.

Lemma remove_two_children c l e r :
  t = plug c (Node l e r) -> l <> Leaf -> r <> Leaf ->
  exists res, remove_node zeroT lg col e pov = Some res /\ node_removed (before c ++ inorder l) (inorder r ++ after c) res.
Proof.
  intros Ht Hl Hr. destruct (leftmost_ctx r Hr) as (c2 & tmp & rr & -> & Hb & Hc2).
  set (l1 := before c ++ inorder l). set (l3 := inorder rr ++ after c2 ++ after c).
  assert (inorder (plug c2 (Node Leaf tmp rr)) ++ after c = tmp :: l3) as El2.
  { rewrite inorder_plug, Hb. unfold l3. simpl. by rewrite <- app_assoc. }
  assert (inorder t = l1 ++ e :: tmp :: l3) as Hin.
  { rewrite Ht, inorder_plug. rewrite <- El2. unfold l1. by repeat (simpl; rewrite <- ?app_assoc). }
  rewrite El2. unfold remove_node. rewrite (next_spec zeroT lg col t Hrep Hnd Hpop HL l1 e (tmp :: l3) Hin). cbn [mbind option_bind].
  pose proof Hrep as Hre. rewrite Ht in Hre. apply rep_plug in Hre as [_ (He & Hrl & Hrr)].
  destruct (node_fields _ _ _ _ _ _ He) as (_ & El & Er).
  rewrite El, Er, (root_null _ _ _ _ Hrl), (root_null _ _ _ _ Hrr).
  replace (match l with Leaf => true | _ => false end) with false by (by destruct l).
  replace (match plug c2 (Node Leaf tmp rr) with Leaf => true | _ => false end) with false by (by destruct (plug c2 (Node Leaf tmp rr))).
  change (first_index (tmp :: l3)) with tmp. cbn [negb andb].
  rewrite (new_tail (l1 ++ [e]) tmp l3) by ((by rewrite <- app_assoc) || by destruct l1). cbn [mbind option_bind].
  pose proof (swap_elements c l e c2 tmp rr Ht Hb Hc2) as Hels. cbn zeta in Hels |- *. rewrite Hels.
  eexists. split; [reflexivity|]. apply swap_spec; [done|done|]. rewrite <- app_assoc. done.
Qed.

Lemma remove_one_child c l e r :
  t = plug c (Node l e r) -> l = Leaf \/ r = Leaf -> (1 < length (inorder t))%nat ->
  exists res, remove_node zeroT lg col e pov = Some res /\ node_removed (before c ++ inorder l) (inorder r ++ after c) res.
Proof.
  intros Ht Hch Hlen. set (l1 := before c ++ inorder l). set (l2 := inorder r ++ after c).
  assert (inorder t = l1 ++ e :: l2) as Hin.
  { rewrite Ht, inorder_plug. unfold l1, l2. by repeat (simpl; rewrite <- ?app_assoc). }
  pose proof (next_spec zeroT lg col t Hrep Hnd Hpop HL l1 e l2 Hin) as Hnext.
  pose proof Hrep as Hre. rewrite Ht in Hre. pose proof Hre as [_ (He & Hrl & Hrr)]%rep_plug.
  destruct (node_fields _ _ _ _ _ _ He) as (_ & El & Er).
  pose proof Hnd as Hnd'. rewrite Ht in Hnd'.
  pose proof (fun t1 q => updateParent_spec zeroT els c l e r t1 q Hre Hnd') as Hup.
  unfold remove_node. rewrite Hnext. cbn [mbind option_bind].
  rewrite El, Er, (root_null _ _ _ _ Hrl), (root_null _ _ _ _ Hrr).
  destruct r as [|rl rk rr]; [destruct l as [|ll lk lr]|destruct Hch as [->|?]; [|done]]; cbn [negb andb].
  - (* a leaf *)
    match goal with |- context [mbind _ ?p] => assert (p = Some (mkPoV (pov_value pov) (pov_population pov) (first_index (l1 ++ l2)) (last_index (l1 ++ l2)) (root t))) as -> end.
    { rewrite Hin in Hlen. destruct (decide (l1 = [])) as [Hl1|Hl1].
      - rewrite <- (new_head l1 e l2) by (done || by destruct l2; [rewrite Hl1 in Hlen; simpl in Hlen; lia|]).
        rewrite Hhead, Hin, eq_first, Hl1 by (by rewrite <- Hin). done.
      - rewrite <- (new_tail l1 e l2) by done.
        rewrite Hhead, Hin, eq_first by (by rewrite <- Hin). by destruct l1. }
    cbn [mbind option_bind]. rewrite (Hup Leaf e I : _updateParent zeroT els e NULL_INDEX = _). destruct c as [|f c].
    + rewrite Ht in Hlen. simpl in Hlen. lia.
    + eexists. split; [reflexivity|]. apply (unlink_spec (f :: c) Leaf e Leaf Leaf); [done|by right| |done].
      rewrite Ht. f_equal. by apply root_plug.
  - (* a left child only *)
    rewrite (new_tail l1 e l2); [|done|unfold l1; simpl; by destruct (before c), (inorder ll)]. cbn [mbind option_bind].
    rewrite (Hup (Node ll lk lr) e) by done. destruct c as [|f c].
    + eexists. split; [reflexivity|]. apply (unlink_spec [] (Node ll lk lr) e Leaf (Node ll lk lr)); [done|by right|done|done].
    + eexists. split; [reflexivity|]. apply (unlink_spec (f :: c) (Node ll lk lr) e Leaf (Node ll lk lr)); [done|by right| |done].
      rewrite Ht. f_equal. by apply root_plug.
  - (* a right child only *)
    rewrite (new_head l1 e l2); [|done|unfold l2; simpl; by destruct (inorder rl)].
    rewrite (Hup (Node rl rk rr) e) by done. destruct c as [|f c].
    + eexists. split; [reflexivity|]. apply (unlink_spec [] Leaf e (Node rl rk rr) (Node rl rk rr)); [done|by left|done|done].
    + eexists. split; [reflexivity|]. apply (unlink_spec (f :: c) Leaf e (Node rl rk rr) (Node rl rk rr)); [done|by left| |done].
      rewrite Ht. f_equal. by apply root_plug.
Qed.

Lemma remove_node_spec l1 e l2 :
  inorder t = l1 ++ e :: l2 -> (1 < length (inorder t))%nat ->
  exists res, remove_node zeroT lg col e pov = Some res /\ node_removed l1 l2 res.
Proof.
  intros Hin Hlen. destruct (tree_split_at t l1 e l2 Hnd Hin) as (c & l & r & Ht & -> & ->).
  destruct l as [|ll lk lr] eqn:El; [|destruct r as [|rl rk rr] eqn:Er]; rewrite <- ?El, <- ?Er in *.
  - apply remove_one_child; [done|by left|done].
  - apply remove_one_child; [done|by right|done].
  - apply remove_two_children; [done|by rewrite El|by rewrite Er].
Qed.
End remove.

(** ** Moving an element *)
Section move.
Context {T : Type} (zeroT : T).
#[local] Hint Extern 0 (Inhabited (Element T)) => exact (collection_element_inhabited zeroT) : typeclass_instances.
Implicit Types (els : list (Element T)) (t : tree) (c : ctx).
Abbreviation Rep := (rep zeroT).
Abbreviation Upd := (upd zeroT).

(** The links to the moved element from its children. *)
Definition reparent (dst : Z) t els : list (Element T) :=
  match t with Leaf => els | Node _ i _ => Upd (set_parent dst) i els end.
Lemma reparent_other dst t els j : j ∉ inorder t -> (reparent dst t els).[j] = els.[j].
Proof. destruct t; [done|]. simpl. intros Hj. apply upd_ne. intros ->. set_solver. Qed.
Lemma reparent_field {A} (g : Element T -> A) dst t els j :
  (forall e, g (set_parent dst e) = g e) -> g ((reparent dst t els).[j]) = g (els.[j]).
Proof. destruct t; [done|]. apply upd_field. Qed.
Lemma alen_reparent dst t els : alen (reparent dst t els) = alen els.
Proof. destruct t; [done|]. apply alen_upd. Qed.

Definition moved c l r (src dst : Z) els : list (Element T) :=
  set_child zeroT c dst (reparent dst r (reparent dst l (els.[dst := els.[src]]))).

Lemma moved_rep els c l r src dst :
  Rep els NULL_INDEX (plug c (Node l src r)) -> NoDup (inorder (plug c (Node l src r))) -> dst ∉ inorder (plug c (Node l src r)) ->
  0 <= dst < alen els -> Rep (moved c l r src dst els) NULL_INDEX (plug c (Node l dst r)).
Proof.
  intros Hr Hnd Hdst Hd. destruct (NoDup_plug c _ Hnd) as (Hndt & Hout & Hndc). simpl in Hndt, Hout.
  apply NoDup_app in Hndt as (Hndl & Hlr & [Hsr Hndr]%NoDup_cons). apply rep_plug in Hr as [Hc (Hs & Hl & Hrr)].
  rewrite inorder_plug in Hdst. simpl in Hdst. set (els1 := els.[dst := els.[src]]).
  assert (alen els1 = alen els) as Hlen1 by apply alen_aset.
  assert (forall j, j <> dst -> els1.[j] = els.[j]) as Ho1 by (intros; apply aget_aset_ne; by apply not_eq_sym).
  set (els3 := reparent dst r (reparent dst l els1)).
  assert (alen els3 = alen els) as Hlen3 by (unfold els3; by rewrite !alen_reparent).
  assert (forall j, j ∈ before c \/ j ∈ after c -> els3.[j] = els.[j]) as Hoc.
  { intros j Hj. unfold els3. rewrite !reparent_other, Ho1; [done| | |].
    - intros ->. destruct Hj; set_solver.
    - intros Hin. destruct (Hout j) as [? ?]; [set_solver|]. by destruct Hj.
    - intros Hin. destruct (Hout j) as [? ?]; [set_solver|]. by destruct Hj. }
  assert (Rep els3 (parent_of c) (Node l dst r)) as Hrep3.
  { destruct Hs as [Hs Hsl]. split; [|split].
    - split; [by rewrite Hlen3|]. unfold els3. rewrite !reparent_other by set_solver. unfold els1. rewrite aget_aset_eq by done. done.
    - assert (Rep els1 src l) as Hl1 by (apply (rep_ext zeroT els); [done| |done]; intros j Hj; rewrite Ho1; [done|]; intros ->; set_solver).
      apply (rep_ext zeroT (reparent dst l els1)); [apply alen_reparent| |by apply (rep_reparent zeroT els1 dst src)].
      intros j Hj. unfold els3. rewrite reparent_other; [done|]. intros Hjr. apply (Hlr j Hj). by right.
    - assert (Rep (reparent dst l els1) src r) as Hr1.
      { apply (rep_ext zeroT els); [by rewrite alen_reparent| |done]. intros j Hj.
        rewrite reparent_other, Ho1; [done|intros ->; set_solver|]. intros Hjl. apply (Hlr j Hjl). by right. }
      by apply (rep_reparent zeroT _ dst src). }
  unfold moved. fold els1 els3. apply rep_plug. split.
  - apply (rep_ctx_set_child zeroT els3 c src); [done|]. apply (rep_ctx_ext zeroT els); [done| |done]. intros j Hj. by rewrite Hoc.
  - apply (rep_ext zeroT els3); [apply alen_set_child| |done]. intros j Hj. rewrite set_child_other; [done|].
    destruct (decide (c = [])) as [|Hne]; [by left|right]. intros ->. destruct (parent_of_ctx c Hne) as [Hp|Hp];
      (simpl in Hj; destruct (decide (parent_of c = dst)) as [He|]; [rewrite He in Hp; set_solver|destruct (Hout (parent_of c)); [set_solver|done]]).
Qed.

Lemma moved_frame c l r src dst els j :
  j ∉ inorder (plug c (Node l src r)) -> j <> dst -> (moved c l r src dst els).[j] = els.[j].
Proof.
  intros Hj Hd. rewrite inorder_plug in Hj. simpl in Hj. unfold moved. rewrite set_child_other, !reparent_other, aget_aset_ne;
    [done|by apply not_eq_sym|set_solver..|].
  destruct (decide (c = [])) as [|Hne]; [by left|right]. intros ->. destruct (parent_of_ctx c Hne); set_solver.
Qed.

Lemma moved_data c l r src dst els j :
  0 <= dst < alen els -> data ((moved c l r src dst els).[j]) = data (els.[if decide (j = dst) then src else j]).
Proof.
  intros Hd. unfold moved. rewrite set_child_data, !(reparent_field data) by done. case_decide as Hj.
  - subst j. by rewrite aget_aset_eq.
  - by rewrite aget_aset_ne by (by apply not_eq_sym).
Qed.

(** The elements after [_moveElement] *)
Lemma moveElement_elements ps els c l r src dst :
  Rep els NULL_INDEX (plug c (Node l src r)) -> NoDup (inorder (plug c (Node l src r))) -> dst ∉ inorder (plug c (Node l src r)) ->
  0 <= dst < alen els -> (_moveElement zeroT ps els src dst).2 = moved c l r src dst els.
Proof.
  intros Hr Hnd Hdst Hd. pose proof Hr as [Hc (Hs & Hl & Hrr)]%rep_plug.
  destruct (node_fields _ _ _ _ _ _ Hs) as (Ep & El & Er). unfold _moveElement, moved. cbn [snd].
  rewrite (aget_aset_eq els dst) by done. rewrite El, (root_null _ _ _ _ Hl).
  assert ((if negb (match l with Leaf => true | _ => false end) then Upd (set_parent dst) (root l) (els.[dst := els.[src]])
           else els.[dst := els.[src]]) = reparent dst l (els.[dst := els.[src]])) as -> by (by destruct l).
  assert (forall {A} (g : Element T -> A), (forall e, g (set_parent dst e) = g e) ->
     g ((reparent dst l (els.[dst := els.[src]])).[dst]) = g (els.[src])) as Hg.
  { intros A g Hgp. by rewrite (reparent_field g), aget_aset_eq. }
  rewrite (Hg _ bstRightIndex), Er, (root_null _ _ _ _ Hrr) by done.
  assert ((if negb (match r with Leaf => true | _ => false end) then Upd (set_parent dst) (root r) (reparent dst l (els.[dst := els.[src]]))
           else reparent dst l (els.[dst := els.[src]])) = reparent dst r (reparent dst l (els.[dst := els.[src]]))) as -> by (by destruct r).
  set (els1 := reparent dst l _) in *.
  rewrite inorder_plug in Hdst. simpl in Hdst.
  assert (bstParentIndex ((reparent dst r els1).[dst]) = parent_of c) as ->.
  { rewrite reparent_other by set_solver. unfold els1. by rewrite reparent_other, aget_aset_eq by (done || set_solver). }
  rewrite (ctx_parent_null _ _ _ _ Hc). destruct (decide (c = [])) as [->|Hne]; [done|].
  replace (match c with [] => true | _ => false end) with false by (by destruct c). cbn [negb].
  assert (bstLeftIndex ((reparent dst r els1).[parent_of c]) = bstLeftIndex (els.[parent_of c])) as ->.
  { unfold els1. rewrite !(reparent_field bstLeftIndex), aget_aset_ne by done || (intros ->; destruct (parent_of_ctx c Hne); set_solver). done. }
  destruct (parent_links zeroT els c (Node l src r) Hr Hnd ltac:(done) Hne) as [Hpl _]. cbn [root] in Hpl. rewrite Hpl. by destruct c as [|[i r'|l' i] c].
Qed.

(** The ends and the root of the queue after [_moveElement] *)
Lemma renamed_pov pov c l r src dst :
  let l1 := before c ++ inorder l in let l2 := inorder r ++ after c in
  inorder (plug c (Node l src r)) = l1 ++ src :: l2 -> NoDup (inorder (plug c (Node l src r))) ->
  pov_headIndex pov = first_index (inorder (plug c (Node l src r))) -> pov_tailIndex pov = last_index (inorder (plug c (Node l src r))) ->
  bstRootIndex pov = root (plug c (Node l src r)) ->
  (let pov := if bstRootIndex pov =? src then set_pov_root dst pov else pov in
   let pov := if pov_headIndex pov =? src then set_pov_head dst pov else pov in
   if pov_tailIndex pov =? src then set_pov_tail dst pov else pov) =
  mkPoV (pov_value pov) (pov_population pov) (first_index (l1 ++ dst :: l2)) (last_index (l1 ++ dst :: l2)) (root (plug c (Node l dst r))).
Proof.
  intros l1 l2 Hin Hnd Hh Htl Hrt.
  assert ((if bstRootIndex pov =? src then dst else bstRootIndex pov) = root (plug c (Node l dst r))) as <-.
  { rewrite Hrt. destruct (decide (c = [])) as [->|Hc]; [simpl; by rewrite Z.eqb_refl|].
    rewrite (proj2 (Z.eqb_neq _ _)) by (by apply root_not_hole). by apply root_plug. }
  rewrite Hin in Hnd, Hh, Htl. pose proof (eq_first l1 src l2 Hnd) as Hf. pose proof (eq_last l1 src l2 Hnd) as Hl.
  rewrite Z.eqb_sym in Hf, Hl.
  assert ((if pov_headIndex pov =? src then dst else pov_headIndex pov) = first_index (l1 ++ dst :: l2)) as <-.
  { rewrite Hh, Hf. by destruct l1. }
  assert ((if pov_tailIndex pov =? src then dst else pov_tailIndex pov) = last_index (l1 ++ dst :: l2)) as <-.
  { rewrite Htl, Hl. destruct l2; [by rewrite last_index_snoc|]. by rewrite (last_index_remove l1 src), (last_index_remove l1 dst). }
  destruct pov as [v n h tl rt]. cbn. destruct (rt =? src); cbn; (destruct (h =? src); cbn; (by destruct (tl =? src))).
Qed.

Lemma moveElement_spec ps els t l1 src l2 dst :
  let q := povIndex (els.[src]) in
  Rep els NULL_INDEX t -> NoDup (inorder t) -> inorder t = l1 ++ src :: l2 -> dst ∉ inorder t -> 0 <= dst < alen els ->
  pov_headIndex (ps.[q]) = first_index (inorder t) -> pov_tailIndex (ps.[q]) = last_index (inorder t) -> bstRootIndex (ps.[q]) = root t ->
  exists els' t',
    _moveElement zeroT ps els src dst =
      (ps.[q := mkPoV (pov_value (ps.[q])) (pov_population (ps.[q])) (first_index (inorder t')) (last_index (inorder t')) (root t')], els') /\
    Rep els' NULL_INDEX t' /\ inorder t' = l1 ++ dst :: l2 /\ alen els' = alen els /\
    (forall j, j ∉ inorder t -> j <> dst -> els'.[j] = els.[j]) /\
    (forall j, data (els'.[j]) = data (els.[if decide (j = dst) then src else j])).
Proof.
  intros q Hr Hnd Hin Hdst Hd Hh Htl Hrt. destruct (tree_split_at t l1 src l2 Hnd Hin) as (c & l & r & -> & -> & ->).
  exists (moved c l r src dst els), (plug c (Node l dst r)).
  assert (inorder (plug c (Node l dst r)) = (before c ++ inorder l) ++ dst :: inorder r ++ after c) as Hin'.
  { rewrite inorder_plug. by repeat (simpl; rewrite <- ?app_assoc). }
  split; [|split; [by apply moved_rep|split; [done|split; [|split]]]].
  - rewrite (surjective_pairing (_moveElement _ _ _ _ _)), (moveElement_elements ps els c l r) by done. f_equal.
    unfold _moveElement. cbn [fst]. rewrite (aget_aset_eq els dst) by done. fold q. f_equal.
    rewrite Hin'. by apply renamed_pov.
  - unfold moved. by rewrite alen_set_child, !alen_reparent, alen_aset.
  - intros j Hj Hjd. by apply moved_frame.
  - intros j. by apply moved_data.
Qed.
End move.

(** ** The walk of [cleanup] *)
Section relabel.
Context {T : Type} (zeroT : T).
#[local] Hint Extern 0 (Inhabited (Element T)) => exact (collection_element_inhabited zeroT) : typeclass_instances.
Implicit Types (els : list (Element T)) (t : tree).
Abbreviation Rep := (rep zeroT).

Definition relabelled (p : Z) (l : list Z) els els' : Prop :=
  alen els' = alen els /\ forall j, els'.[j] = if decide (j ∈ l) then set_povIndex p (els.[j]) else els.[j].

Lemma relabel_stack n p ts els :
  Forall (fun t => t <> Leaf /\ exists q, Rep els q t) ts -> (length (ts ≫= inorder) <= n)%nat ->
  exists els', relabel zeroT n p (root <$> ts) els = Some els' /\ relabelled p (ts ≫= inorder) els els'.
Proof.
  revert ts els. induction n as [|n IH]; intros ts els Hts Hn.
  - destruct ts as [|t ts]; [by exists els|]. apply Forall_cons in Hts as [[Ht _] _].
    rewrite bind_cons, length_app in Hn. destruct t; [done|]. simpl in Hn. rewrite length_app in Hn. simpl in Hn. lia.
  - destruct ts as [|t ts]; [by exists els|]. apply Forall_cons in Hts as [[Ht [q Hr]] Hts].
    destruct t as [|l i r]; [done|]. clear Ht. cbn [fmap list_fmap root relabel].
    destruct Hr as (Hi & Hl & Hr). pose proof Hi as [Hrange _]. destruct (node_fields _ _ _ _ _ _ Hi) as (_ & El & Er).
    set (els1 := upd zeroT (set_povIndex p) i els).
    assert (alen els1 = alen els) as Hlen by apply alen_upd.
    assert (forall j, links (els1.[j]) = links (els.[j])) as Hlinks by (intros j; by apply (upd_field zeroT links)).
    assert (forall q t, Rep els q t -> Rep els1 q t) as Hrep by (intros q' t'; by apply rep_ext).
    unfold els1. rewrite !(upd_field zeroT bstLeftIndex), !(upd_field zeroT bstRightIndex), El, Er by done. fold els1.
    rewrite (root_null _ _ _ _ Hl), (root_null _ _ _ _ Hr).
    set (kids t := match t with Leaf => [] | _ => [t] end : list tree).
    assert (forall t, kids t ≫= inorder = inorder t) as Hkids by (intros []; simpl; by rewrite ?app_nil_r).
    destruct (IH (kids r ++ kids l ++ ts) els1) as (els' & Hrun & Hlen' & Hels').
    + apply Forall_app_2; [|apply Forall_app_2].
      * destruct r; constructor; [|done]. split; [done|]. exists i. by apply Hrep.
      * destruct l; constructor; [|done]. split; [done|]. exists i. by apply Hrep.
      * eapply Forall_impl; [exact Hts|]. intros t' [? [q' ?]]. split; [done|]. exists q'. by apply Hrep.
    + rewrite !bind_app, !Hkids, !length_app. rewrite bind_cons, length_app in Hn. simpl in Hn. rewrite length_app in Hn. simpl in Hn. lia.
    + exists els'. split; [|split; [lia|]].
      * rewrite <- Hrun. by destruct r, l.
      * intros j. rewrite Hels', !bind_app, !Hkids, bind_cons. unfold els1. rewrite aget_upd by done. simpl.
        destruct (decide (i = j)) as [<-|Hij].
        -- destruct (decide (i ∈ (inorder l ++ i :: inorder r) ++ _)) as [|Hn']; [by case_decide|]. destruct Hn'. set_solver.
        -- repeat case_decide; (done || set_solver).
Qed.

Lemma relabel_spec n p q t els :
  t <> Leaf -> Rep els q t -> (length (inorder t) <= n)%nat ->
  exists els', relabel zeroT n p [root t] els = Some els' /\ relabelled p (inorder t) els els'.
Proof.
  intros Ht Hr Hn. destruct (relabel_stack n p [t] els) as (els' & Hrun & Hre).
  - constructor; [|done]. split; [done|]. by exists q.
  - simpl. by rewrite app_nil_r.
  - exists els'. split; [done|]. simpl in Hre. by rewrite app_nil_r in Hre.
Qed.
End relabel.
