(* ===== verification/PovTable.v ===== *)
(** * The table of points of view of QPI::Collection

    The povs are the keys of an open-addressing table with the flags of [HashMap].  The theory of [HashMap] is used with
    values of type [unit]: it gives the meaning of [_povIndex] and of the search for a slot in [add], and the invariant of
    the table for every way in which the collection changes it. *)
From S2P Require Import Prelude OpenAddressing OccupationFlags OccupiedSlots HashMap Collection.

Section table.
Context {T : Type} (zeroT : T).
Variable lg : nat.
Hypothesis lg_small : (lg < 64)%nat.
Abbreviation L := (2 ^ Z.of_nat lg).
#[local] Hint Extern 0 (Inhabited (HashMap.Element Z unit)) => exact (element_inhabited 0 tt) : typeclass_instances.
Implicit Types (ps : list PoV) (fl : list Z) (c : Collection T).

Definition keys ps : list (HashMap.Element Z unit) := (fun p => HashMap.mkElement (pov_value p) tt) <$> ps.

Record table_good ps fl : Prop := {
  pt_len : alen ps = L;
  pt_bufs : buffers_ok 0 tt lg u64 (keys ps) fl }.

Lemma aget_keys ps i : (keys ps).[i] = HashMap.mkElement (pov_value (ps.[i])) tt.
Proof.
  unfold keys. destruct (decide (0 <= i < alen ps)) as [Hi|Hi].
  - unfold alen in Hi. rewrite !aget_nonneg by lia.
    destruct (lookup_lt_is_Some_2 ps (Z.to_nat i)) as [p Hp]; [lia|]. rewrite (list_lookup_total_correct ps _ p Hp).
    apply list_lookup_total_correct. by rewrite list_lookup_fmap, Hp.
  - rewrite !aget_out; [done|unfold alen in *; rewrite ?length_fmap; lia..].
Qed.
Lemma keys_aset ps i p : keys (ps.[i := p]) = (keys ps).[i := HashMap.mkElement (pov_value p) tt].
Proof. unfold keys, aset. case_match; (done || by rewrite list_fmap_insert). Qed.
Lemma keys_same ps i p : pov_value p = pov_value (ps.[i]) -> keys (ps.[i := p]) = keys ps.
Proof. intros Hv. by rewrite keys_aset, Hv, <- aget_keys, aset_aget_id. Qed.

(** Changes of a queue other than its pov. *)
Lemma table_good_same ps fl i p : pov_value p = pov_value (ps.[i]) -> table_good ps fl -> table_good (ps.[i := p]) fl.
Proof. intros Hv [Hl Hb]. split; [by rewrite alen_aset|]. by rewrite keys_same. Qed.

Lemma table_flags ps fl : table_good ps fl -> flags_ok lg fl.
Proof. intros [_ Hb]. apply Hb. Qed.

Lemma table_unique ps fl i j :
  table_good ps fl -> in_table lg i -> in_table lg j -> flag_of fl i = 1 -> flag_of fl j = 1 ->
  pov_value (ps.[i]) = pov_value (ps.[j]) -> i = j.
Proof.
  intros [_ Hb] Hi Hj Hfi Hfj Hv. apply (tab_unique _ _ _ (buf_table _ _ _ _ _ _ Hb) i j (pov_value (ps.[i])));
    [done|done|..]; apply view_Full; by rewrite aget_keys.
Qed.

(** The map that has the povs as keys. *)
Definition as_map ps fl : HashMap Z unit := mkHashMap (keys ps) fl (occupiedCount lg fl) 0.
Lemma as_map_ok ps fl : table_good ps fl -> hashmap_ok 0 tt lg u64 (as_map ps fl).
Proof. intros [_ Hb]. by split. Qed.

Lemma povIndex_as_map c pov :
  _povIndex lg c pov = getElementIndex 0 tt lg u64 (as_map (_povs c) (_povOccupationFlags c)) pov.
Proof.
  unfold _povIndex, getElementIndex. rewrite (scan_flags_map id lg
    (getElementIndex_body 0 tt (as_map (_povs c) (_povOccupationFlags c)) pov) (_povIndex_body c pov)).
  - change (pov_hash lg pov) with (hash_slot lg u64 pov). simpl. by destruct (scan_flags _ _ _ _ _).
  - intros flag i []. unfold _povIndex_body, getElementIndex_body. simpl. rewrite aget_keys. simpl.
    destruct (flag =? 0); [done|]. destruct (flag =? 1); [|done].
    destruct (Z.eqb_spec (pov_value ((_povs c).[i])) pov); case_decide; done.
Qed.

Lemma povIndex_spec c pov :
  table_good (_povs c) (_povOccupationFlags c) ->
  (in_table lg (_povIndex lg c pov) /\ flag_of (_povOccupationFlags c) (_povIndex lg c pov) = 1 /\
     pov_value ((_povs c).[_povIndex lg c pov]) = pov) \/
  (_povIndex lg c pov = NULL_INDEX /\
     forall i, in_table lg i -> flag_of (_povOccupationFlags c) i = 1 -> pov_value ((_povs c).[i]) <> pov).
Proof.
  intros Hg. rewrite povIndex_as_map.
  destruct (getElementIndex_spec 0 tt lg u64 lg_small _ pov (as_map_ok _ _ Hg)) as [[Hi Hv]|[Hn Habs]].
  - left. apply view_Full in Hv as [Hf Hk]. simpl in Hf, Hk. rewrite aget_keys in Hk. done.
  - right. split; [done|]. intros i Hi Hf Hv. apply (Habs i Hi). apply view_Full. simpl. by rewrite aget_keys.
Qed.

Lemma povIndex_found c i :
  table_good (_povs c) (_povOccupationFlags c) -> in_table lg i -> flag_of (_povOccupationFlags c) i = 1 ->
  _povIndex lg c (pov_value ((_povs c).[i])) = i.
Proof.
  intros Hg Hi Hf. destruct (povIndex_spec c (pov_value ((_povs c).[i])) Hg) as [(Hi' & Hf' & Hv)|[_ Hn]].
  - by apply (table_unique (_povs c) (_povOccupationFlags c)).
  - by destruct (Hn i).
Qed.

(** The search for a slot in [add] *)
Definition slot_taken c pov (r : HashMap Z unit * Z) : Collection T * Z :=
  (mkCollection (upd_pov (set_pov_value pov) r.2 (_povs c)) (_occupationFlags r.1) (_elements c) (_population c) (_markRemovalCounter c), r.2).

Lemma add_body_map c pov flag i marked :
  add_body c pov flag i marked =
  match set_body 0 tt (as_map (_povs c) (_povOccupationFlags c)) pov tt flag i marked with
  | inl r => inl (slot_taken c pov r)
  | inr a => inr a
  end.
Proof.
  unfold add_body, set_body, slot_taken, set_reuse_slot, reuse_slot. simpl. rewrite aget_keys. simpl.
  destruct (flag =? 0); [by destruct (negb _)|]. destruct (flag =? 1); [|by repeat case_match].
  destruct (Z.eqb_spec (pov_value ((_povs c).[i])) pov) as [Hv|Hv]; case_decide; try done.
  do 2 f_equal. simpl. unfold upd_pov.
  replace (set_pov_value pov ((_povs c).[i])) with ((_povs c).[i]) by (rewrite <- Hv; by destruct ((_povs c).[i])).
  rewrite aset_aget_id. by destruct c.
Qed.

Lemma add_slot_spec c pov :
  table_good (_povs c) (_povOccupationFlags c) -> occupiedCount lg (_povOccupationFlags c) < L ->
  exists fl p,
    add_slot lg c pov = Some (mkCollection (upd_pov (set_pov_value pov) p (_povs c)) fl (_elements c) (_population c) (_markRemovalCounter c), p) /\
    in_table lg p /\ flag_of fl p = 1 /\ (forall j, in_table lg j -> j <> p -> flag_of fl j = flag_of (_povOccupationFlags c) j) /\
    table_good (upd_pov (set_pov_value pov) p (_povs c)) fl /\
    (flag_of (_povOccupationFlags c) p = 1 -> pov_value ((_povs c).[p]) = pov).
Proof.
  intros Hg Hlt. set (m := as_map (_povs c) (_povOccupationFlags c)).
  pose proof (set_not_full 0 tt lg u64 lg_small m pov tt (as_map_ok _ _ Hg) Hlt) as (Hok & _ & Hi & He & Hf & Ho & Hold).
  exists (_occupationFlags (HashMap.set 0 tt lg u64 m pov tt).1), (HashMap.set 0 tt lg u64 m pov tt).2.
  split; [|split; [done|split; [done|split; [done|split]]]].
  - unfold add_slot. rewrite (scan_flags_map (slot_taken c pov) lg (set_body 0 tt m pov tt)) by apply add_body_map.
    revert Hi. unfold HashMap.set, HashMap.capacity. rewrite (proj2 (Z.ltb_lt (HashMap._population m) L) Hlt).
    change (pov_hash lg pov) with (hash_slot lg u64 pov).
    destruct (scan_flags lg (set_body 0 tt m pov tt) _ _ _) as [r|marked]; [done|].
    destruct (negb (marked =? NULL_INDEX)); [done|]. intros Hn. unfold in_table, NULL_INDEX in Hn. simpl in Hn. lia.
  - split; [unfold upd_pov; rewrite alen_aset; apply Hg|]. unfold upd_pov. rewrite keys_aset. cbn [set_pov_value pov_value].
    change (keys (_povs c)) with (HashMap._elements m). rewrite <- He. apply Hok.
  - intros H1. specialize (Hold H1). simpl in Hold. by rewrite aget_keys in Hold.
Qed.

(** The last element of a pov goes: its slot is marked for removal. *)
Lemma table_mark ps fl i :
  table_good ps fl -> in_table lg i -> flag_of fl i = 1 ->
  table_good ps (flags_toggle fl i) /\ flag_of (flags_toggle fl i) i = 2 /\
  (forall j, in_table lg j -> j <> i -> flag_of (flags_toggle fl i) j = flag_of fl j).
Proof.
  intros Hg Hi Hf. pose proof (table_flags _ _ Hg) as Hfl.
  assert (flag_of (flags_toggle fl i) i = 2) as H2 by (rewrite (flags_toggle_same lg), Hf by done; done).
  assert (forall j, in_table lg j -> j <> i -> flag_of (flags_toggle fl i) j = flag_of fl j) as Ho.
  { intros. by apply (flags_toggle_other lg). }
  split; [|done]. destruct Hg as [Hl Hb]. split; [done|]. split; [apply Hb|by apply flags_toggle_ok| |].
  - intros j Hj. destruct (decide (j = i)) as [->|]; [by rewrite H2|]. rewrite Ho by done. by apply Hb.
  - eapply table_ok_ext; [|apply (table_ok_mark lg (hash_slot lg u64) (view 0 tt (keys ps) fl) i); apply Hb].
    intros j Hj. unfold OpenAddressing.upd, view. case_decide as Hd; [subst; by rewrite H2|]. by rewrite Ho.
Qed.

(** The empty table *)
Lemma table_empty : table_good (replicate (Z.to_nat L) (mkPoV 0 0 0 0 0)) (flags_zero lg).
Proof.
  pose proof (cap_pos lg). split; [rewrite alen_replicate; lia|].
  replace (keys _) with (HashMap._elements (HashMap.reset 0 tt lg)) by (simpl; unfold keys; by rewrite fmap_replicate).
  destruct (reset_ok 0 tt lg u64 lg_small) as [Hok _]. apply Hok.
Qed.

(** A pov moves to the buffers of [cleanup]. *)
Lemma table_transfer ps fl (pov : PoV) :
  table_good ps fl -> (forall i, in_table lg i -> flag_of fl i <> 2) -> occupiedCount lg fl < L ->
  (forall i, in_table lg i -> flag_of fl i = 1 -> pov_value (ps.[i]) <> pov_value pov) ->
  exists s, cleanup_find lg (Z.to_nat ((L + 31) / 32)) fl (pov_hash lg (pov_value pov)) = Some s /\ in_table lg s /\ flag_of fl s = 0 /\
    table_good (ps.[s := pov]) (flags_occupy fl s) /\ occupiedCount lg (flags_occupy fl s) = occupiedCount lg fl + 1 /\
    flag_of (flags_occupy fl s) s = 1 /\ forall j, in_table lg j -> j <> s -> flag_of (flags_occupy fl s) j = flag_of fl j.
Proof.
  intros Hg Hno2 Hlt Habs. pose proof (table_flags _ _ Hg) as Hfl. destruct Hg as [Hlen Hb].
  pose proof (cleanup_find_spec lg fl (pov_hash lg (pov_value pov)) Hfl (land_in_table _ _)) as Hfind.
  destruct (cleanup_find _ _ _ _) as [s|].
  2:{ exfalso. unfold occupiedCount in Hlt. rewrite <- (L_nat lg) in Hlt at 2. apply countZ_lt_exists in Hlt as (x & Hx & Hfx).
      rewrite L_nat in Hx. apply Z.eqb_neq in Hfx. pose proof (flag_range fl x).
      pose proof (Hfind x Hx). pose proof (Hno2 x Hx). pose proof (buf_no3 _ _ _ _ _ _ Hb x Hx). lia. }
  exists s. split; [done|]. destruct Hfind as (j & Hj & -> & Hs0 & Hpre).
  change (pov_hash lg (pov_value pov)) with (hash_slot lg u64 (pov_value pov)) in *.
  set (s := nth_slot lg (hash_slot lg u64 (pov_value pov)) j) in *.
  assert (in_table lg s) as Hs by apply nth_slot_in.
  assert (flag_of (flags_occupy fl s) s = 1) as H1 by (by apply (flags_occupy_same lg)).
  assert (forall j, in_table lg j -> j <> s -> flag_of (flags_occupy fl s) j = flag_of fl j) as Ho.
  { intros. by apply (flags_occupy_other lg). }
  destruct (write_fresh 0 tt lg u64 (keys ps) fl (flags_occupy fl s) (pov_value pov) tt j) as (Hb' & _ & Hcnt); fold s.
  1-2: done.
  { intros i Hi [Hf Hk]%view_Full. rewrite aget_keys in Hk. by apply (Habs i Hi Hf). }
  { intros j' ?. rewrite view_Empty. by apply Hpre. }
  { by rewrite Hs0. }
  { by apply flags_occupy_ok. }
  1-2: done.
  split; [done|]. split; [done|]. split; [|done]. split; [by rewrite alen_aset|]. by rewrite keys_aset.
Qed.
End table.
