(* ===== verification/CollectionSpec.v ===== *)
(** * Invariant and meaning of QPI::Collection

    Each occupied slot of the pov table stands for a queue: a binary search tree over a part of the elements, ordered by
    priority (highest first, equal priorities in order of arrival).  The trees share out the elements below the
    population. *)
From S2P Require Import Prelude OpenAddressing OccupationFlags OccupiedSlots HashMap Collection CollectionTree CollectionRebuild CollectionLinks PovTable.

(** ** The trees share out the live elements *)
Definition set_tree (tr : Z -> tree) (p : Z) (t : tree) (q : Z) : tree := if decide (q = p) then t else tr q.
Lemma set_tree_eq tr p t : set_tree tr p t p = t.
Proof. unfold set_tree. by rewrite decide_True. Qed.
Lemma set_tree_ne tr p t q : q <> p -> set_tree tr p t q = tr q.
Proof. intros. unfold set_tree. by rewrite decide_False. Qed.

Section trees.
Context {T : Type} (zeroT : T).
#[local] Hint Extern 0 (Inhabited (Element T)) => exact (collection_element_inhabited zeroT) : typeclass_instances.
Variable lg : nat.
Abbreviation L := (2 ^ Z.of_nat lg).
Implicit Types (els : list (Element T)) (tr : Z -> tree) (live : Z -> Prop).

(** Priorities and values of a list of indices. *)
Definition contents els (l : list Z) : list (Z * T) := (fun i => content (els.[i])) <$> l.

Record trees_ok els live tr : Prop := {
  tk_rep : forall p, in_table lg p -> rep zeroT els NULL_INDEX (tr p);
  tk_nodup : forall p, in_table lg p -> NoDup (inorder (tr p));
  tk_sorted : forall p, in_table lg p -> queue_sorted zeroT els (inorder (tr p));
  tk_member : forall p i, in_table lg p -> i ∈ inorder (tr p) <-> live i /\ povIndex (els.[i]) = p;
  tk_slot : forall i, live i -> in_table lg (povIndex (els.[i])) }.

Lemma queue_sorted_contents els els' l l' :
  contents els' l' = contents els l -> queue_sorted zeroT els l -> queue_sorted zeroT els' l'.
Proof.
  unfold contents, queue_sorted. revert l'. induction l as [|i l IH]; intros [|i' l']; simpl; [intros; constructor|done|done|].
  intros [= Hp _ Hl] [Hs Hi]%StronglySorted_inv. constructor; [by apply IH|].
  unfold prio in *. rewrite Hp. clear IH Hs Hp. revert l' Hl. induction Hi as [|j l Hj _ IH]; intros [|j' l']; simpl; try done.
  intros [= Hp _ Hl]. constructor; [by rewrite Hp|by apply IH].
Qed.

Lemma contents_ext els els' l : (forall i, i ∈ l -> content (els'.[i]) = content (els.[i])) -> contents els' l = contents els l.
Proof. intros H. apply list_fmap_ext. intros k i Hi%list_elem_of_lookup_2. by apply H. Qed.

Lemma trees_disjoint els live tr p q i :
  trees_ok els live tr -> in_table lg p -> in_table lg q -> i ∈ inorder (tr p) -> i ∈ inorder (tr q) -> p = q.
Proof. intros Hk Hp Hq [_ <-]%(tk_member _ _ _ Hk); [|done]. by intros [_ <-]%(tk_member _ _ _ Hk). Qed.

(** One tree changes; the elements outside of it stay. *)
Lemma trees_ok_update els els' live live' tr p t' :
  trees_ok els live tr -> in_table lg p -> alen els' = alen els ->
  (forall j, j ∉ inorder (tr p) -> j ∉ inorder t' -> els'.[j] = els.[j]) ->
  rep zeroT els' NULL_INDEX t' -> NoDup (inorder t') -> queue_sorted zeroT els' (inorder t') ->
  (forall j, j ∈ inorder t' -> live' j /\ povIndex (els'.[j]) = p) ->
  (forall j, live' j /\ j ∉ inorder t' <-> live j /\ j ∉ inorder (tr p)) ->
  trees_ok els' live' (set_tree tr p t').
Proof.
  intros Hk Hp Hlen Hframe Hrep Hnd Hs Hin Hout.
  assert (forall q j, in_table lg q -> q <> p -> j ∈ inorder (tr q) -> live' j /\ els'.[j] = els.[j]) as Hother.
  { intros q j Hq Hqp Hj. pose proof Hj as [Hl _]%(tk_member _ _ _ Hk); [|done].
    assert (j ∉ inorder (tr p)) as Hjp by (intros Hj'; apply Hqp; by apply (trees_disjoint els live tr q p j)).
    destruct (proj2 (Hout j)) as [? ?]; [done|]. split; [done|]. by apply Hframe. }
  assert (forall j, live' j -> j ∉ inorder t' -> live j /\ els'.[j] = els.[j]) as Hback.
  { intros j Hj Hjt. destruct (proj1 (Hout j)) as [? ?]; [done|]. split; [done|]. by apply Hframe. }
  split.
  - intros q Hq. destruct (decide (q = p)) as [->|Hqp]; rewrite ?set_tree_eq, ?set_tree_ne by done; [done|].
    apply (rep_ext zeroT els); [done| |by apply Hk]. intros i Hi. by rewrite (proj2 (Hother q i Hq Hqp Hi)).
  - intros q Hq. destruct (decide (q = p)) as [->|Hqp]; rewrite ?set_tree_eq, ?set_tree_ne by done; [done|]. by apply Hk.
  - intros q Hq. destruct (decide (q = p)) as [->|Hqp]; rewrite ?set_tree_eq, ?set_tree_ne by done; [done|].
    apply (queue_sorted_contents els _ (inorder (tr q))); [|by apply Hk]. apply contents_ext. intros i Hi.
    by rewrite (proj2 (Hother q i Hq Hqp Hi)).
  - intros q i Hq. destruct (decide (q = p)) as [->|Hqp]; rewrite ?set_tree_eq, ?set_tree_ne by done.
    + split; [apply Hin|]. intros [Hl Hi]. destruct (decide (i ∈ inorder t')) as [|Hn]; [done|].
      destruct (Hback i Hl Hn) as [Hl' He]. rewrite He in Hi. exfalso.
      destruct (proj1 (Hout i)) as [_ []]; [done|]. by apply (tk_member _ _ _ Hk).
    + split.
      * intros Hi. destruct (Hother q i Hq Hqp Hi) as [? ->]. split; [done|]. by apply (tk_member _ _ _ Hk) in Hi as [_ ?].
      * intros [Hl Hi]. destruct (decide (i ∈ inorder t')) as [Hn|Hn].
        { apply Hin in Hn as [_ ?]. congruence. }
        destruct (Hback i Hl Hn) as [Hl' He]. rewrite He in Hi. by apply (tk_member _ _ _ Hk).
  - intros i Hl. destruct (decide (i ∈ inorder t')) as [Hn|Hn]; [by rewrite (proj2 (Hin i Hn))|].
    destruct (Hback i Hl Hn) as [? ->]. by apply Hk.
Qed.
End trees.

(** ** The invariant *)
Section invariant.
Context {T : Type} (zeroT : T).
#[local] Hint Extern 0 (Inhabited (Element T)) => exact (collection_element_inhabited zeroT) : typeclass_instances.
Variable lg : nat.
Hypothesis lg_small : (lg < 64)%nat.
Abbreviation L := (2 ^ Z.of_nat lg).
Implicit Types (c : Collection T) (tr : Z -> tree).

(** The record of a queue with the tree [t]. *)
Definition queue_record (v : Z) (t : tree) : PoV := mkPoV v (alen (inorder t)) (first_index (inorder t)) (last_index (inorder t)) (root t).
Definition slot_ok (flag : Z) (pov : PoV) (t : tree) : Prop :=
  if flag =? 1 then t <> Leaf /\ pov = queue_record (pov_value pov) t else t = Leaf /\ pov_population pov = 0.

Definition below (n i : Z) : Prop := 0 <= i < n.

Record collection_ok c tr : Prop := {
  co_len : alen (_elements c) = L;
  co_pop : 0 <= _population c <= L;
  co_table : table_good lg (_povs c) (_povOccupationFlags c);
  co_trees : trees_ok zeroT lg (_elements c) (below (_population c)) tr;
  co_slot : forall p, in_table lg p -> slot_ok (flag_of (_povOccupationFlags c) p) ((_povs c).[p]) (tr p);
  co_counter : is_u64 (_markRemovalCounter c) }.

(** ** The queues *)

(** The indices of the elements of a pov in the order of its queue, and the queue itself: priorities and values. *)
Definition queue_indices c (pov : Z) : list Z :=
  let p := _povIndex lg c pov in
  if p <? 0 then [] else flatten zeroT (S (Z.to_nat L)) (_elements c) (bstRootIndex ((_povs c).[p])).
Definition queue c (pov : Z) : list (Z * T) := contents zeroT (_elements c) (queue_indices c pov).

Lemma occupied_slot c tr p :
  collection_ok c tr -> in_table lg p -> flag_of (_povOccupationFlags c) p = 1 ->
  tr p <> Leaf /\ (_povs c).[p] = queue_record (pov_value ((_povs c).[p])) (tr p).
Proof. intros Hok Hp Hf. pose proof (co_slot _ _ Hok p Hp) as Hs. unfold slot_ok in Hs. by rewrite Hf in Hs. Qed.
Lemma free_slot c tr p :
  collection_ok c tr -> in_table lg p -> flag_of (_povOccupationFlags c) p <> 1 -> tr p = Leaf /\ pov_population ((_povs c).[p]) = 0.
Proof. intros Hok Hp Hf. pose proof (co_slot _ _ Hok p Hp) as Hs. unfold slot_ok in Hs. by rewrite (proj2 (Z.eqb_neq _ _) Hf) in Hs. Qed.

Lemma tree_members c tr p : collection_ok c tr -> in_table lg p -> Forall (fun i => 0 <= i < _population c) (inorder (tr p)).
Proof. intros Hok Hp. apply Forall_forall. intros i [? _]%(tk_member _ _ _ _ _ (co_trees _ _ Hok)); done. Qed.
Lemma tree_small c tr p : collection_ok c tr -> in_table lg p -> (length (inorder (tr p)) <= Z.to_nat L)%nat.
Proof.
  intros Hok Hp. apply (inorder_small lg c (tr p)); [by apply (tk_nodup _ _ _ _ _ (co_trees _ _ Hok))|by apply tree_members|apply Hok].
Qed.

Lemma queue_indices_slot c tr p :
  collection_ok c tr -> in_table lg p -> flag_of (_povOccupationFlags c) p = 1 ->
  queue_indices c (pov_value ((_povs c).[p])) = inorder (tr p).
Proof.
  intros Hok Hp Hf. unfold queue_indices. rewrite (povIndex_found lg lg_small) by (done || apply Hok).
  unfold in_table in Hp. rewrite (proj2 (Z.ltb_ge _ _)) by lia.
  destruct (occupied_slot c tr p Hok Hp Hf) as [_ ->]. cbn [queue_record bstRootIndex].
  apply (flatten_spec zeroT _ _ NULL_INDEX); [by apply (tk_rep _ _ _ _ _ (co_trees _ _ Hok))|].
  pose proof (tree_small c tr p Hok Hp). lia.
Qed.

(** A pov has a slot or no elements. *)
Lemma pov_cases c tr pov :
  collection_ok c tr ->
  (exists p, in_table lg p /\ _povIndex lg c pov = p /\ flag_of (_povOccupationFlags c) p = 1 /\ pov_value ((_povs c).[p]) = pov /\
     queue_indices c pov = inorder (tr p)) \/
  (_povIndex lg c pov = NULL_INDEX /\ queue_indices c pov = [] /\
     forall p, in_table lg p -> flag_of (_povOccupationFlags c) p = 1 -> pov_value ((_povs c).[p]) <> pov).
Proof.
  intros Hok. destruct (povIndex_spec lg lg_small c pov (co_table _ _ Hok)) as [(Hp & Hf & Hv)|[Hn Habs]].
  - left. exists (_povIndex lg c pov). split; [done|]. split; [done|]. split; [done|]. split; [done|].
    rewrite <- (queue_indices_slot c tr) by done. by rewrite Hv.
  - right. split; [done|]. split; [|done]. unfold queue_indices. by rewrite Hn.
Qed.

(** The queue of a pov in another state, its slot possibly moved and its elements renamed. *)
Lemma queue_indices_transfer c c' tr tr' (f : Z -> Z) pov :
  collection_ok c tr -> collection_ok c' tr' ->
  (forall p, in_table lg p -> flag_of (_povOccupationFlags c) p = 1 -> pov_value ((_povs c).[p]) = pov ->
     exists p', in_table lg p' /\ flag_of (_povOccupationFlags c') p' = 1 /\ pov_value ((_povs c').[p']) = pov /\
       inorder (tr' p') = f <$> inorder (tr p)) ->
  (forall p', in_table lg p' -> flag_of (_povOccupationFlags c') p' = 1 -> pov_value ((_povs c').[p']) = pov ->
     exists p, in_table lg p /\ flag_of (_povOccupationFlags c) p = 1 /\ pov_value ((_povs c).[p]) = pov) ->
  queue_indices c' pov = f <$> queue_indices c pov.
Proof.
  intros Hok Hok' Hfwd Hbwd. destruct (pov_cases c tr pov Hok) as [(p & Hp & _ & Hf & Hv & ->)|(_ & -> & Habs)].
  - destruct (Hfwd p Hp Hf Hv) as (p' & Hp' & Hf' & Hv' & <-). rewrite <- (queue_indices_slot c' tr') by done. by rewrite Hv'.
  - destruct (pov_cases c' tr' pov Hok') as [(p & Hp & _ & Hf & Hv & ->)|(_ & -> & _)]; [|done].
    destruct (Hbwd p Hp Hf Hv) as (q & Hq & Hfq & Hvq). by destruct (Habs q Hq Hfq).
Qed.

Lemma in_occupied fl i : i ∈ occupied lg fl <-> in_table lg i /\ flag_of fl i = 1.
Proof. unfold occupied, in_table. rewrite list_elem_of_filter, elem_of_seqZ. intuition lia. Qed.

(** Each occupied slot has an element: the table cannot be full before the elements are. *)
Lemma occupied_le c tr : collection_ok c tr -> occupiedCount lg (_povOccupationFlags c) <= _population c.
Proof.
  intros Hok. rewrite <- occupied_length.
  assert (NoDup ((fun p => root (tr p)) <$> occupied lg (_povOccupationFlags c))) as Hnd.
  { apply NoDup_fmap_2_strong; [|apply NoDup_filter, NoDup_seqZ].
    intros p q [Hp Hfp]%in_occupied [Hq Hfq]%in_occupied Heq.
    destruct (occupied_slot c tr p Hok Hp Hfp) as [Htp _]. destruct (occupied_slot c tr q Hok Hq Hfq) as [Htq _].
    apply (trees_disjoint zeroT lg (_elements c) _ tr p q (root (tr p)) (co_trees _ _ Hok)); [done|done|by apply root_in|].
    rewrite Heq. by apply root_in. }
  pose proof (co_pop _ _ Hok).
  assert ((length ((fun p => root (tr p)) <$> occupied lg (_povOccupationFlags c)) <= length (seqZ 0 (_population c)))%nat) as Hle.
  { apply submseteq_length, NoDup_submseteq; [done|]. intros x (p & -> & [Hp Hf]%in_occupied)%list_elem_of_fmap.
    destruct (occupied_slot c tr p Hok Hp Hf) as [Ht _]. apply elem_of_seqZ.
    pose proof (tree_members c tr p Hok Hp) as Hm. rewrite Forall_forall in Hm. specialize (Hm _ (root_in _ Ht)). lia. }
  rewrite length_fmap, length_seqZ in Hle. lia.
Qed.
End invariant.
