(* ===== verification/CollectionAdd.v ===== *)
(** * QPI::Collection: add

    The new element enters the queue of its pov behind all elements of the same or a higher priority; the other queues stay. *)
From S2P Require Import Prelude OpenAddressing OccupationFlags OccupiedSlots HashMap Collection CollectionTree CollectionRebuild CollectionLinks PovTable CollectionSpec.

Section add.
Context {T : Type} (zeroT : T).
#[local] Hint Extern 0 (Inhabited (Element T)) => exact (collection_element_inhabited zeroT) : typeclass_instances.
Variable lg : nat.
Hypothesis lg_small : (lg < 64)%nat.
Abbreviation L := (2 ^ Z.of_nat lg).
Implicit Types (c : Collection T) (tr : Z -> tree) (els : list (Element T)) (t : tree).
Abbreviation Rep := (rep zeroT).

Lemma element_eq (e e' : Element T) : data e = data e' -> links e = links e' -> e = e'.
Proof. destruct e, e'. unfold data, links. simpl. by intros [= -> -> ->] [= -> -> ->]. Qed.

(** Result of putting the element [k] with priority [pri] into the tree [t]. *)
Record inserted_into els t (k : Z) (v : T) (pri p : Z) els' t' hi lo : Prop := {
  in_old : inorder t = hi ++ lo;
  in_new : inorder t' = hi ++ k :: lo;
  in_hi : Forall (fun i => pri <= prio zeroT els i) hi;
  in_lo : Forall (fun i => prio zeroT els i < pri) lo;
  in_rep : Rep els' NULL_INDEX t';
  in_len : alen els' = alen els;
  in_frame : forall j, j ∉ inorder t -> j <> k -> els'.[j] = els.[j];
  in_data : forall j, j <> k -> data (els'.[j]) = data (els.[j]);
  in_elem : data (els'.[k]) = (v, pri, p) }.

Section tree.
Variables (els : list (Element T)) (t : tree) (k p pri : Z) (v : T).
Hypothesis Hk : 0 <= k < alen els.
Hypothesis Hkt : k ∉ inorder t.
Hypothesis Hrep : Rep els NULL_INDEX t.
Hypothesis Hnd : NoDup (inorder t).
Abbreviation els1 := (els.[k := init v pri p]).

Lemma els1_other j : j <> k -> els1.[j] = els.[j].
Proof. intros. apply aget_aset_ne. by apply not_eq_sym. Qed.
Lemma els1_rep : Rep els1 NULL_INDEX t.
Proof. apply (rep_ext zeroT els); [apply alen_aset| |done]. intros j Hj. rewrite els1_other; [done|]. by intros ->. Qed.

Lemma insert_first : t = Leaf -> inserted_into els t k v pri p els1 (Node Leaf k Leaf) [] [].
Proof.
  intros ->. split; simpl; try done.
  - split; [|done]. split; [by rewrite alen_aset|]. by rewrite aget_aset_eq.
  - apply alen_aset.
  - intros. by apply els1_other.
  - intros. by rewrite els1_other.
  - by rewrite aget_aset_eq.
Qed.

Lemma insert_leaf (c : ctx) :
  t = plug c Leaf -> c <> [] -> Forall (fun j => pri <= prio zeroT els j) (before c) -> Forall (fun j => prio zeroT els j < pri) (after c) ->
  inserted_into els t k v pri p (set_hole zeroT c (Node Leaf k Leaf) els1) (plug c (Node Leaf k Leaf)) (before c) (after c).
Proof.
  intros Ht Hc Hhi Hlo. pose proof els1_rep as Hr1. rewrite Ht in Hr1. apply rep_plug in Hr1 as [Hctx _].
  assert (inorder t = before c ++ after c) as Hin by (by rewrite Ht, inorder_plug).
  assert (parent_of c <> k) as Hpar.
  { intros Hp. apply Hkt. rewrite <- Hp, Hin. apply elem_of_app. by apply parent_of_ctx. }
  split; try done.
  - by rewrite inorder_plug.
  - apply (rep_set_hole zeroT els1 c NULL_INDEX NULL_INDEX); [|done|].
    + rewrite inorder_plug. simpl. rewrite <- Permutation_middle. constructor; [by rewrite <- Hin|by rewrite <- Hin].
    + split; [|done]. split; [by rewrite alen_aset|]. by rewrite aget_aset_eq.
  - by rewrite alen_set_hole, alen_aset.
  - intros j Hj Hjk. rewrite set_hole_other, els1_other; [done|done| |simpl; set_solver].
    right. intros ->. apply Hj. rewrite Hin. apply elem_of_app. by apply parent_of_ctx.
  - intros j Hj. by rewrite set_hole_data, els1_other.
  - by rewrite set_hole_data, aget_aset_eq.
Qed.

(** The place found by the search *)
Lemma search_insert n :
  t <> Leaf -> queue_sorted zeroT els (inorder t) -> (length (inorder t) <= n)%nat ->
  exists i cnt (c : ctx), search_loop zeroT n els1 (root t) pri 0 = Some (i, cnt) /\
    upd zeroT (set_parent i) k (if pri <=? e_priority (els1.[i]) then upd zeroT (set_right k) i els1 else upd zeroT (set_left k) i els1) =
      set_hole zeroT c (Node Leaf k Leaf) els1 /\
    c <> [] /\ t = plug c Leaf /\
    Forall (fun j => pri <= prio zeroT els j) (before c) /\ Forall (fun j => prio zeroT els j < pri) (after c).
Proof.
  intros Ht Hs Hn.
  assert (forall j, j ∈ inorder t -> els1.[j] = els.[j]) as Ho1 by (intros j Hj; apply els1_other; by intros ->).
  destruct (search_spec zeroT n els1 NULL_INDEX t pri 0 Ht els1_rep) as (i & cnt & Hsearch & Hpt); [|done|].
  { apply (queue_sorted_contents zeroT els _ (inorder t)); [|done]. apply contents_ext. intros j Hj. by rewrite Ho1. }
  destruct (insertion_ctx zeroT els1 t pri i Hpt) as (c & Hc & Hm & Hge & Hlt).
  exists i, cnt, c. split; [done|]. split; [by apply add_node_spec|]. split; [by intros ->|]. split; [done|].
  assert (forall j, j ∈ before c \/ j ∈ after c -> prio zeroT els j = prio zeroT els1 j) as Hp.
  { intros j Hj. unfold prio. rewrite Ho1; [done|]. rewrite Hc, inorder_plug. destruct Hj; set_solver. }
  rewrite Forall_forall in Hge, Hlt. split; apply Forall_forall; intros j Hj; rewrite Hp by auto; auto.
Qed.
End tree.

(** Balancing keeps the result. *)
Lemma inserted_rebuilt els t k v pri p els' t' hi lo els'' t'' F :
  inserted_into els t k v pri p els' t' hi lo -> Rep els'' NULL_INDEX t'' -> inorder t'' = inorder t' ->
  frame zeroT els' els'' F -> (forall f x, (f, x) ∈ F -> x ∈ inorder t') -> inserted_into els t k v pri p els'' t'' hi lo.
Proof.
  intros [Hold Hnew Hhi Hlo Hr Hlen Hfr Hd He] Hr' Hin [Hlen' Hd' Hl'] HF. split; try done.
  - by rewrite Hin.
  - lia.
  - intros j Hj Hjk. rewrite <- Hfr by done. apply element_eq; [apply Hd'|].
    assert (forall f, (f, j) ∉ F) as Hn.
    { intros f Hjf%HF. rewrite Hnew in Hjf. rewrite Hold in Hj. set_solver. }
    pose proof (Hl' FParent j (Hn _)). pose proof (Hl' FLeft j (Hn _)). pose proof (Hl' FRight j (Hn _)).
    simpl in *. unfold links. congruence.
  - intros j Hj. rewrite Hd'. by apply Hd.
  - by rewrite Hd'.
Qed.

(** The ends of the queue after the insertion *)
Lemma new_ends els els3 t k v pri p t' hi lo pov :
  inserted_into els t k v pri p els3 t' hi lo -> t <> Leaf -> k ∉ inorder t ->
  pov_headIndex pov = first_index (inorder t) -> pov_tailIndex pov = last_index (inorder t) ->
  (if e_priority (els3.[pov_headIndex pov]) <? pri then set_pov_head k pov
   else if pri <=? e_priority (els3.[pov_tailIndex pov]) then set_pov_tail k pov else pov) =
  mkPoV (pov_value pov) (pov_population pov) (first_index (inorder t')) (last_index (inorder t')) (bstRootIndex pov).
Proof.
  intros [Hold Hnew Hhi Hlo _ _ _ Hd _] Ht Hk Hh Htl.
  assert (hi ++ lo <> []) as Hne by (rewrite <- Hold; by rewrite inorder_nil).
  assert (forall j, j ∈ hi ++ lo -> e_priority (els3.[j]) = prio zeroT els j) as Hpr.
  { intros j Hj. assert (j <> k) as Hjk by (intros ->; apply Hk; by rewrite Hold).
    pose proof (Hd j Hjk) as Hdj. unfold data in Hdj. unfold prio. congruence. }
  rewrite Forall_forall in Hhi, Hlo. rewrite Hh, Htl, Hold, Hnew.
  destruct hi as [|h hi].
  - destruct lo as [|y lo]; [done|]. change (first_index ([] ++ y :: lo)) with y. rewrite Hpr by (simpl; left).
    rewrite (proj2 (Z.ltb_lt _ _)) by (apply Hlo; left). destruct pov as [pv n h tl r]. simpl in *. unfold set_pov_head. simpl.
    by rewrite Htl, Hold.
  - change (first_index ((h :: hi) ++ lo)) with h. rewrite Hpr by (simpl; left).
    rewrite (proj2 (Z.ltb_ge _ _)) by (apply Hhi; left).
    destruct pov as [pv n h' tl r]. simpl in Hh, Htl. rewrite Hold in Hh, Htl. change (h' = h) in Hh. subst h'.
    destruct lo as [|y lo].
    + rewrite app_nil_r in *. unfold last_index in Htl |- *. rewrite last_snoc. simpl default.
      destruct (last (h :: hi)) as [z|] eqn:Hz; [|by apply last_None in Hz]. simpl default.
      assert (z ∈ h :: hi) as Hzin by (apply last_Some in Hz as [? ->]; set_solver).
      rewrite Hpr by done. rewrite (proj2 (Z.leb_le _ _)) by (by apply Hhi). done.
    + assert (last_index ((h :: hi) ++ y :: lo) ∈ y :: lo) as Hin.
      { rewrite last_index_app by done. unfold last_index. destruct (last (y :: lo)) as [z|] eqn:Hz; [|by apply last_None in Hz].
        apply last_Some in Hz as [? ->]. simpl. set_solver. }
      rewrite Hpr by set_solver. rewrite (proj2 (Z.leb_gt _ _)) by (by apply Hlo). rewrite Htl.
      by rewrite (last_index_remove (h :: hi) k).
Qed.

Lemma addPov_spec scratch c p t v pri :
  let k := _population c in let pov := (_povs c).[p] in
  alen (_elements c) = L -> 0 <= k < L -> Rep (_elements c) NULL_INDEX t -> NoDup (inorder t) -> queue_sorted zeroT (_elements c) (inorder t) ->
  Forall (below k) (inorder t) -> (t = Leaf /\ pov_population pov = 0 \/ t <> Leaf /\ pov = queue_record (pov_value pov) t) ->
  exists els' t' hi lo,
    _addPovElement zeroT lg scratch c p v pri =
      Some (mkCollection ((_povs c).[p := queue_record (pov_value pov) t']) (_povOccupationFlags c) els' (k + 1) (_markRemovalCounter c), k) /\
    inserted_into (_elements c) t k v pri p els' t' hi lo.
Proof.
  intros k pov Hlen Hk Hrep Hnd Hs Hbelow Hslot. unfold _addPovElement. fold k pov.
  assert (k ∉ inorder t) as Hkt.
  { intros Hin. rewrite Forall_forall in Hbelow. apply Hbelow in Hin. unfold below in Hin. lia. }
  destruct Hslot as [[Ht Hpop]|[Ht Hpov]].
  - rewrite Hpop. cbn [mbind option_bind Z.eqb]. exists ((_elements c).[k := init v pri p]), (Node Leaf k Leaf), [], [].
    split; [done|]. by apply insert_first; [lia|..].
  - assert (pov_population pov = alen (inorder t)) as Hpop by (by rewrite Hpov).
    assert (0 < alen (inorder t)) as Hpos.
    { unfold alen. destruct (inorder t) eqn:He; [by apply inorder_nil in He|simpl; lia]. }
    rewrite (proj2 (Z.eqb_neq (pov_population pov) 0)) by lia. assert (bstRootIndex pov = root t) as Hroot by (by rewrite Hpov).
    assert (length (inorder t) <= Z.to_nat L)%nat as Hsmall by (pose proof (members_le _ _ Hnd Hbelow); lia).
    set (els1 := (_elements c).[k := init v pri p]).
    destruct (search_insert (_elements c) t k p pri v ltac:(lia) Hkt Hrep Hnd (S (Z.to_nat L)) Ht Hs ltac:(lia))
      as (i & cnt & cx & Hsearch & Hnode & Hne & Hcx & Hge & Hlt). fold els1 in Hsearch, Hnode.
    assert (inorder t = before cx ++ after cx) as Hin by (by rewrite Hcx, inorder_plug).
    pose proof (insert_leaf (_elements c) t k p pri v ltac:(lia) Hkt Hrep Hnd cx Hcx Hne Hge Hlt) as Hins.
    unfold _searchElement. rewrite Hroot, Hsearch. cbn [mbind option_bind]. rewrite Hnode.
    set (els3 := set_hole zeroT cx (Node Leaf k Leaf) els1) in *. set (t2 := plug cx (Node Leaf k Leaf)) in *.
    pose proof (new_ends _ els3 t k v pri p t2 _ _ (set_pov_population (pov_population pov + 1) pov) Hins Ht Hkt) as Hends.
    cbn zeta. rewrite Hends; [|by rewrite Hpov..]. cbn [pov_population pov_value set_pov_population bstRootIndex].
    assert (root t = root t2) as Hrt by (rewrite Hcx; by apply root_plug).
    assert (mkPoV (pov_value pov) (pov_population pov + 1) (first_index (inorder t2)) (last_index (inorder t2)) (bstRootIndex pov) =
            queue_record (pov_value pov) t2) as Hrec.
    { unfold queue_record. f_equal.
      - rewrite Hpop, (in_new _ _ _ _ _ _ _ _ _ _ Hins), Hin. unfold alen. rewrite !length_app. simpl. lia.
      - by rewrite Hroot. }
    rewrite Hrec, Hroot, Hrt. destruct (_ && _).
    + assert (k :: inorder t ≡ₚ inorder t2) as Hperm.
      { rewrite (in_new _ _ _ _ _ _ _ _ _ _ Hins), Hin. apply Permutation_middle. }
      destruct (rebuild_spec zeroT lg (inorder t2) scratch els3 t2) as (els' & t' & Hreb & Hrep' & Hin' & Hfr & _);
        [intros H0%inorder_nil; rewrite H0 in Hperm; by apply Permutation_nil_r in Hperm|apply Hins| |done| |].
      { rewrite <- Hperm. by constructor. }
      { rewrite <- Hperm. simpl. pose proof (members_le _ _ Hnd Hbelow). lia. }
      cbn [queue_record bstRootIndex]. rewrite Hreb. cbn [mbind option_bind]. exists els', t', (before cx), (after cx). split.
      * do 4 f_equal. unfold queue_record, set_pov_root. simpl. by rewrite Hin'.
      * eapply inserted_rebuilt; [exact Hins|done|done|exact Hfr|]. intros f x Hx%elem_of_triples. done.
    + cbn [mbind option_bind]. exists els3, t2, (before cx), (after cx). done.
Qed.

(** ** add *)

(** The queue of [pov] got the element [k] behind all elements of at least its priority, nothing else changed. *)
Definition added c c' (pov pri : Z) (v : T) : Prop :=
  let k := _population c in
  (exists hi lo, queue_indices zeroT lg c pov = hi ++ lo /\ queue_indices zeroT lg c' pov = hi ++ k :: lo /\
     Forall (fun i => pri <= prio zeroT (_elements c) i) hi /\ Forall (fun i => prio zeroT (_elements c) i < pri) lo) /\
  (forall pov', pov' <> pov -> queue_indices zeroT lg c' pov' = queue_indices zeroT lg c pov') /\
  (forall j, j <> k -> content ((_elements c').[j]) = content ((_elements c).[j])) /\
  content ((_elements c').[k]) = (pri, v) /\ _population c' = k + 1 /\ _markRemovalCounter c' = _markRemovalCounter c.

Lemma add_full scratch c tr pov v pri :
  collection_ok zeroT lg c tr -> L <= _population c -> add zeroT lg scratch c pov v pri = Some (c, NULL_INDEX).
Proof. intros Hok Hfull. unfold add, capacity. by rewrite (proj2 (Z.ltb_ge _ _)). Qed.

(** The trees after the insertion *)
Lemma inserted_trees els tr k v pri p els' t' hi lo :
  trees_ok zeroT lg els (below k) tr -> in_table lg p -> inserted_into els (tr p) k v pri p els' t' hi lo -> 0 <= k ->
  trees_ok zeroT lg els' (below (k + 1)) (set_tree tr p t').
Proof.
  intros Hk Hp [Hold Hnew Hhi Hlo Hrep Hlen Hfr Hd He] Hk0.
  assert (k ∉ hi ++ lo) as Hkt.
  { rewrite <- Hold. intros [Hb _]%(tk_member _ _ _ _ _ Hk); [|done]. unfold below in Hb. lia. }
  assert (forall j, j ∈ hi ++ lo -> below k j /\ povIndex (els.[j]) = p /\ j <> k) as Hmem.
  { intros j Hj. split; [|split]; [..|by intros ->]; rewrite <- Hold in Hj; by apply (tk_member _ _ _ _ _ Hk) in Hj as [? ?]. }
  apply (trees_ok_update zeroT lg els els' (below k)); [done|done|done| |done| | | |].
  - intros j Hj Hjt. apply Hfr; [done|]. intros ->. apply Hjt. rewrite Hnew. set_solver.
  - rewrite Hnew, <- Permutation_middle. constructor; [done|]. rewrite <- Hold. by apply Hk.
  - rewrite Hnew. pose proof (tk_sorted _ _ _ _ _ Hk p Hp) as Hs. rewrite Hold in Hs.
    assert (forall j, j ∈ hi ++ lo -> prio zeroT els' j = prio zeroT els j) as Hpr.
    { intros j Hj. destruct (Hmem j Hj) as (_ & _ & Hjk). pose proof (Hd j Hjk) as Hdj. unfold data in Hdj. unfold prio. congruence. }
    assert (prio zeroT els' k = pri) as Hpk by (unfold data in He; unfold prio; congruence).
    apply (queue_sorted_contents zeroT els els' _ (hi ++ lo)) in Hs.
    2:{ apply contents_ext. intros j Hj. destruct (Hmem j Hj) as (_ & _ & Hjk). apply content_data. by apply Hd. }
    apply queue_sorted_app in Hs as (Hs1 & Hs2 & Hs3). rewrite Forall_forall in Hhi, Hlo.
    apply queue_sorted_app. split; [done|]. split.
    + constructor; [done|]. apply Forall_forall. intros j Hj. rewrite Hpk, Hpr by set_solver. specialize (Hlo j Hj). simpl in Hlo. lia.
    + intros i j Hi [->|Hj]%elem_of_cons; [|by apply Hs3]. rewrite Hpk, Hpr by set_solver. by apply Hhi.
  - intros j. rewrite Hnew. intros Hj. destruct (decide (j = k)) as [->|Hjk].
    + unfold below. split; [lia|]. unfold data in He. congruence.
    + destruct (Hmem j) as (Hb & Hpi & _); [set_solver|]. unfold below in *. split; [lia|].
      pose proof (Hd j Hjk) as Hdj. unfold data in Hdj. congruence.
  - intros j. rewrite Hnew, Hold. unfold below. split.
    + intros [Hj Hn]. assert (j <> k) by (intros ->; apply Hn; set_solver). split; [lia|set_solver].
    + intros [Hj Hn]. assert (j <> k) by lia. split; [lia|set_solver].
Qed.

Lemma collection_add_ok scratch c tr pov v pri :
  collection_ok zeroT lg c tr -> _population c < L ->
  exists c' tr', add zeroT lg scratch c pov v pri = Some (c', _population c) /\ collection_ok zeroT lg c' tr' /\ added c c' pov pri v.
Proof.
  intros Hok Hlt. pose proof (occupied_le zeroT lg lg_small c tr Hok) as Hocc. pose proof (co_pop _ _ _ _ Hok) as Hpop.
  destruct (add_slot_spec lg lg_small c pov (co_table _ _ _ _ Hok)) as (fl & p & Hslot & Hp & Hf & Ho & Hg & Hv); [lia|].
  unfold add, capacity. rewrite (proj2 (Z.ltb_lt _ _) Hlt), Hslot.
  set (c1 := mkCollection _ fl _ _ _). pose proof (co_trees _ _ _ _ Hok) as Hk.
  assert (0 <= p < alen (_povs c)) as Hpl by (rewrite (pt_len _ _ _ (co_table _ _ _ _ Hok)); done).
  assert ((_povs c1).[p] = set_pov_value pov ((_povs c).[p])) as Hp1 by (simpl; unfold upd_pov; by rewrite aget_aset_eq).
  destruct (addPov_spec scratch c1 p (tr p) v pri) as (els' & t' & hi & lo & Hadd & Hins).
  { apply Hok. } { simpl. lia. } { by apply Hk. } { by apply Hk. } { by apply Hk. } { by apply (tree_members zeroT lg c tr). }
  { rewrite Hp1. destruct (decide (flag_of (_povOccupationFlags c) p = 1)) as [H1|H1].
    - right. destruct (occupied_slot zeroT lg c tr p Hok Hp H1) as [Ht Hrec]. split; [done|]. by rewrite Hrec at 1.
    - left. exact (free_slot zeroT lg c tr p Hok Hp H1). }
  rewrite Hadd, Hp1. cbn [set_pov_value pov_value c1 _povs _povOccupationFlags _population _markRemovalCounter].
  set (ps2 := (upd_pov (set_pov_value pov) p (_povs c)).[p := queue_record pov t']).
  assert (ps2.[p] = queue_record pov t') as Hps2 by (unfold ps2, upd_pov; by rewrite aget_aset_eq by (by rewrite alen_aset)).
  assert (forall q, q <> p -> ps2.[q] = (_povs c).[q]) as Hps2o.
  { intros q Hq. unfold ps2, upd_pov. by rewrite !aget_aset_ne by (by apply not_eq_sym). }
  set (c' := mkCollection ps2 fl els' (_population c + 1) (_markRemovalCounter c)).
  assert (t' <> Leaf) as Ht'.
  { intros H0. pose proof (in_new _ _ _ _ _ _ _ _ _ _ Hins) as Hn. rewrite H0 in Hn. by destruct hi. }
  assert (collection_ok zeroT lg c' (set_tree tr p t')) as Hok'.
  { split; simpl; [|lia| | | |apply Hok].
    - rewrite (in_len _ _ _ _ _ _ _ _ _ _ Hins). apply Hok.
    - apply (table_good_same lg lg_small (upd_pov (set_pov_value pov) p (_povs c))); [unfold upd_pov; by rewrite aget_aset_eq|exact Hg].
    - eapply inserted_trees; [exact Hk|exact Hp|exact Hins|lia].
    - intros q Hq. destruct (decide (q = p)) as [->|Hqp].
      + rewrite set_tree_eq, Hps2, Hf. by split.
      + rewrite set_tree_ne, Ho, Hps2o by done. by apply (co_slot _ _ _ _ Hok). }
  exists c', (set_tree tr p t'). split; [done|]. split; [done|].
  assert (queue_indices zeroT lg c' pov = inorder t') as Hq'.
  { rewrite <- (set_tree_eq tr p t'), <- (queue_indices_slot zeroT lg lg_small c') by done. simpl. by rewrite Hps2. }
  split; [|split; [|split; [|split; [|done]]]].
  - exists hi, lo. split; [|by rewrite Hq', (in_new _ _ _ _ _ _ _ _ _ _ Hins); split; [|split; apply Hins]].
    rewrite <- (in_old _ _ _ _ _ _ _ _ _ _ Hins). destruct (decide (flag_of (_povOccupationFlags c) p = 1)) as [H1|H1].
    + rewrite <- (queue_indices_slot zeroT lg lg_small c) by done. by rewrite Hv.
    + destruct (free_slot zeroT lg c tr p Hok Hp H1) as [-> _].
      destruct (pov_cases zeroT lg lg_small c tr pov Hok) as [(q & Hq & _ & Hfq & Hvq & _)|(_ & -> & _)]; [|done].
      assert (q = p) as ->; [|done]. destruct (decide (q = p)) as [|Hqp]; [done|]. apply (table_unique lg lg_small ps2 fl); try done.
      * apply Hok'.
      * by rewrite Ho.
      * rewrite Hps2, Hps2o by done. done.
  - intros pov' Hne. rewrite <- (list_fmap_id (queue_indices zeroT lg c pov')).
    apply (queue_indices_transfer zeroT lg lg_small c c' tr (set_tree tr p t') id); [done|done|..]; simpl; intros q Hq Hfq Hvq.
    + assert (q <> p) by (intros ->; rewrite Hv in Hvq by done; done). exists q.
      rewrite Ho, Hps2o, set_tree_ne, list_fmap_id by done. done.
    + assert (q <> p) by (intros ->; rewrite Hps2 in Hvq; done). exists q. rewrite Ho in Hfq by done. rewrite Hps2o in Hvq by done. done.
  - intros j Hj. apply content_data. by apply (in_data _ _ _ _ _ _ _ _ _ _ Hins).
  - pose proof (in_elem _ _ _ _ _ _ _ _ _ _ Hins) as He. change (_population c1) with (_population c) in He. injection He as He1 He2 _.
    unfold content. simpl. by rewrite He1, He2.
Qed.
End add.
