(* ===== verification/CollectionRemove.v ===== *)
(** * QPI::Collection: remove

    [remove] takes one element out of its queue, moves the last element of the array into the gap and returns the index of the
    next element of the queue.  All queues keep their contents but for the removed element. *)
From S2P Require Import Prelude OpenAddressing OccupationFlags OccupiedSlots HashMap Collection CollectionTree CollectionRebuild CollectionLinks PovTable CollectionSpec.

Section remove.
Context {T : Type} (zeroT : T).
#[local] Hint Extern 0 (Inhabited (Element T)) => exact (collection_element_inhabited zeroT) : typeclass_instances.
Variable lg : nat.
Hypothesis lg_small : (lg < 64)%nat.
Abbreviation L := (2 ^ Z.of_nat lg).
Implicit Types (c : Collection T) (tr : Z -> tree) (els : list (Element T)) (t : tree).
Abbreviation trees_ok := (trees_ok zeroT lg).
Abbreviation contents := (contents zeroT).

Lemma trees_ok_ext els els' (live live' : Z -> Prop) tr :
  trees_ok els live tr -> alen els' = alen els -> (forall j, live j -> els'.[j] = els.[j]) -> (forall j, live' j <-> live j) ->
  trees_ok els' live' tr.
Proof.
  intros Hk Hlen He Hl. assert (forall p j, in_table lg p -> j ∈ inorder (tr p) -> els'.[j] = els.[j]) as Hin.
  { intros p j Hp [? _]%(tk_member _ _ _ _ _ Hk); [|done]. by apply He. }
  split.
  - intros p Hp. apply (rep_ext zeroT els); [done| |by apply Hk]. intros j Hj. by rewrite (Hin p).
  - intros p Hp. by apply Hk.
  - intros p Hp. apply (queue_sorted_contents zeroT els _ (inorder (tr p))); [|by apply Hk]. apply contents_ext. intros j Hj. by rewrite (Hin p).
  - intros p i Hp. rewrite (tk_member _ _ _ _ _ Hk), Hl by done. split; intros [Hi ?]; by rewrite ?He in * by done.
  - intros i Hi%Hl. rewrite He by done. by apply Hk.
Qed.

Lemma queue_sorted_remove els l1 e l2 : queue_sorted zeroT els (l1 ++ e :: l2) -> queue_sorted zeroT els (l1 ++ l2).
Proof.
  intros (H1 & H2 & H3)%queue_sorted_app. apply queue_sorted_app. apply StronglySorted_inv in H2 as [H2 _].
  split; [done|]. split; [done|]. intros i j Hi Hj. apply H3; [done|]. by right.
Qed.

(** ** Filling the gap *)

(** The last element moves to [d]. *)
Definition moved_to (last d j : Z) : Z := if j =? last then d else j.

Lemma moved_to_other last d (l : list Z) : last ∉ l -> moved_to last d <$> l = l.
Proof.
  intros Hn. rewrite <- (list_fmap_id l) at 2. apply list_fmap_ext. intros k j Hj%list_elem_of_lookup_2.
  unfold moved_to. destruct (Z.eqb_spec j last); [congruence|done].
Qed.
Lemma moved_to_split last d (l1 l2 : list Z) :
  NoDup (l1 ++ last :: l2) -> moved_to last d <$> (l1 ++ last :: l2) = l1 ++ d :: l2.
Proof.
  intros (_ & Hd & [Hl _]%NoDup_cons)%NoDup_app. rewrite fmap_app, fmap_cons, !moved_to_other; [|done|].
  - unfold moved_to. by rewrite Z.eqb_refl.
  - intros Hin. apply (Hd last Hin). left.
Qed.

(** The collection before the gap at [d] is filled. *)
Record gap_ok c tr (d : Z) : Prop := {
  gp_len : alen (_elements c) = L;
  gp_pop : 0 < _population c <= L;
  gp_gap : 0 <= d < _population c;
  gp_table : table_good lg (_povs c) (_povOccupationFlags c);
  gp_trees : trees_ok (_elements c) (fun j => below (_population c) j /\ j <> d) tr;
  gp_slot : forall p, in_table lg p -> slot_ok (flag_of (_povOccupationFlags c) p) ((_povs c).[p]) (tr p);
  gp_counter : is_u64 (_markRemovalCounter c) }.

(** The queues after the gap at [d] was filled. *)
Record filled c tr (d : Z) c' tr' : Prop := {
  fi_ok : collection_ok zeroT lg c' tr';
  fi_trees : forall q, in_table lg q -> inorder (tr' q) = moved_to (_population c - 1) d <$> inorder (tr q);
  fi_contents : forall q, in_table lg q -> contents (_elements c') (inorder (tr' q)) = contents (_elements c) (inorder (tr q));
  fi_flags : _povOccupationFlags c' = _povOccupationFlags c;
  fi_values : forall q, in_table lg q -> pov_value ((_povs c').[q]) = pov_value ((_povs c).[q]);
  fi_pop : _population c' = _population c - 1;
  fi_counter : _markRemovalCounter c' = _markRemovalCounter c }.

(** Nothing is moved if the last element goes. *)
Lemma fill_last c tr d next :
  gap_ok c tr d -> d = _population c - 1 ->
  exists c', remove_fill zeroT c d next = (c', moved_to (_population c - 1) d next) /\ filled c tr d c' tr.
Proof.
  intros Hg Hd. destruct Hg as [Hlen Hpop Hgap Htab Hk Hslot Hcnt]. unfold remove_fill. cbn zeta. rewrite Hd, Z.eqb_refl.
  assert (forall j, moved_to (_population c - 1) (_population c - 1) j = j) as Hid.
  { intros j. unfold moved_to. destruct (Z.eqb_spec j (_population c - 1)); done. }
  rewrite andb_false_r, Hid. eexists. split; [reflexivity|].
  set (els' := (_elements c).[_population c - 1 := zeroElement zeroT]).
  assert (forall j, j <> d -> els'.[j] = (_elements c).[j]) as Ho by (intros j Hj; apply aget_aset_ne; congruence).
  assert (trees_ok els' (below (_population c - 1)) tr) as Hk'.
  { apply (trees_ok_ext _ _ _ _ _ Hk); [apply alen_aset|intros j [_ Hj]; by apply Ho|]. intros j. unfold below. lia. }
  split; simpl; try done.
  - split; simpl; [rewrite <- Hlen; apply alen_aset|lia|done|done|done|done].
  - intros q Hq. symmetry. rewrite <- (list_fmap_id (inorder (tr q))) at 2. apply list_fmap_ext. intros. apply Hid.
  - intros q Hq. apply contents_ext. intros j [[_ Hj] _]%(tk_member _ _ _ _ _ Hk); [|done]. by rewrite Ho.
Qed.

(** The trees after the element [last] moved to [d]. *)
Lemma move_trees els els2 tr n d q l1 l2 t2 :
  let last := n - 1 in
  trees_ok els (fun j => below n j /\ j <> d) tr -> in_table lg q -> 0 <= d < last -> inorder (tr q) = l1 ++ last :: l2 ->
  rep zeroT els2 NULL_INDEX t2 -> inorder t2 = l1 ++ d :: l2 -> alen els2 = alen els ->
  (forall j, j ∉ inorder (tr q) -> j <> d -> els2.[j] = els.[j]) ->
  (forall j, data (els2.[j]) = data (els.[if decide (j = d) then last else j])) ->
  trees_ok els2 (below last) (set_tree tr q t2) /\ contents els2 (inorder t2) = contents els (inorder (tr q)).
Proof.
  intros last Hk Hq Hd Hin Hrep2 Hin2 Hlen2 Hfr2 Hdata2.
  assert (forall j, j ∈ inorder (tr q) -> below n j /\ j <> d /\ povIndex (els.[j]) = q) as Hmem.
  { intros j [[? ?] ?]%(tk_member _ _ _ _ _ Hk); done. }
  assert (d ∉ inorder (tr q)) as Hdq by (intros (_ & ? & _)%Hmem; done).
  pose proof (tk_nodup _ _ _ _ _ Hk q Hq) as Hnd.
  assert (last ∉ l1 ++ l2) as Hlast by (rewrite Hin, <- Permutation_middle in Hnd; by apply NoDup_cons in Hnd as [? _]).
  rewrite Hin in Hmem, Hdq.
  assert (contents els2 (inorder t2) = contents els (inorder (tr q))) as Hcont.
  { rewrite Hin2, Hin. unfold CollectionSpec.contents. rewrite !fmap_app, !fmap_cons.
    assert (forall j, j <> d -> content (els2.[j]) = content (els.[j])) as Hsame.
    { intros j Hj. apply content_data. rewrite Hdata2. by rewrite decide_False. }
    f_equal; [|f_equal].
    - apply list_fmap_ext. intros k j Hj%list_elem_of_lookup_2. apply Hsame. intros ->. set_solver.
    - apply content_data. rewrite Hdata2. by rewrite decide_True.
    - apply list_fmap_ext. intros k j Hj%list_elem_of_lookup_2. apply Hsame. intros ->. set_solver. }
  split; [|done].
  apply (trees_ok_update zeroT lg els els2 _ _ tr q t2 Hk); [done|done| |done| | | |].
  - intros j Hj Hj2. apply Hfr2; [done|]. intros ->. apply Hj2. rewrite Hin2. set_solver.
  - rewrite Hin2, <- Permutation_middle. rewrite Hin, <- Permutation_middle in Hnd. apply NoDup_cons in Hnd as [_ Hnd].
    constructor; [set_solver|done].
  - apply (queue_sorted_contents zeroT els _ (inorder (tr q))); [done|]. by apply Hk.
  - intros j. rewrite Hin2. intros Hj. destruct (content_data _ _ (Hdata2 j)) as [_ ->]. case_decide as Hjd.
    + subst j. split; [unfold below; lia|]. apply Hmem. set_solver.
    + assert (j <> last) by (intros ->; apply Hlast; set_solver).
      destruct (Hmem j) as (Hb & _ & ?); [set_solver|]. unfold below in *. split; [lia|done].
  - intros j. rewrite Hin2, Hin. unfold below. destruct (decide (j = last)) as [->|]; [set_solver by lia|].
    destruct (decide (j = d)) as [->|]; [set_solver by lia|]. split; (intros [Hj Hn]; split; [lia|set_solver]).
Qed.

(** Otherwise the last element moves to the gap. *)
Lemma fill_move c tr d next :
  gap_ok c tr d -> d <> _population c - 1 ->
  exists c' tr', remove_fill zeroT c d next = (c', moved_to (_population c - 1) d next) /\ filled c tr d c' tr'.
Proof.
  intros Hg Hd. destruct Hg as [Hlen Hpop Hgap Htab Hk Hslot Hcnt]. unfold remove_fill. cbn zeta. set (last := _population c - 1) in *.
  rewrite (proj2 (Z.eqb_neq last 0)), (proj2 (Z.eqb_neq d last)) by lia. cbn [negb andb].
  set (q := povIndex ((_elements c).[last])). assert (in_table lg q) as Hq by (apply Hk; unfold below; lia).
  assert (last ∈ inorder (tr q)) as Hlast by (apply (tk_member _ _ _ _ _ Hk); [done|]; unfold below; split; [lia|done]).
  apply list_elem_of_split in Hlast as (l1 & l2 & Hin).
  assert (d ∉ inorder (tr q)) as Hdq by (intros [[_ ?] _]%(tk_member _ _ _ _ _ Hk); done).
  pose proof (tk_nodup _ _ _ _ _ Hk q Hq) as Hnd.
  assert (tr q <> Leaf /\ (_povs c).[q] = queue_record (pov_value ((_povs c).[q])) (tr q)) as [Ht Hrec].
  { pose proof (Hslot q Hq) as Hs. unfold slot_ok in Hs. destruct (_ =? 1); [done|]. destruct Hs as [Hs _]. rewrite Hs in Hin. by destruct l1. }
  destruct (moveElement_spec zeroT (_povs c) (_elements c) (tr q) l1 last l2 d) as (els2 & t2 & Hmove & Hrep2 & Hin2 & Hlen2 & Hfr2 & Hdata2);
    [by apply Hk|done|done|done|lia|fold q; by rewrite Hrec..|].
  fold q in Hmove. rewrite Hmove. fold (moved_to last d next). eexists _, (set_tree tr q t2). split; [reflexivity|].
  destruct (move_trees (_elements c) els2 tr (_population c) d q l1 l2 t2) as [Hk2 Hcont2]; [done|done|lia|done..|]. fold last in Hk2.
  set (els3 := els2.[last := zeroElement zeroT]).
  assert (forall j, below last j -> els3.[j] = els2.[j]) as Ho3 by (intros j Hj; apply aget_aset_ne; unfold below in Hj; lia).
  assert (trees_ok els3 (below last) (set_tree tr q t2)) as Hk3.
  { apply (trees_ok_ext _ _ _ _ _ Hk2); [apply alen_aset|done|done]. }
  assert (forall r, in_table lg r -> contents els3 (inorder (set_tree tr q t2 r)) = contents (_elements c) (inorder (tr r))) as Hcont3.
  { intros r Hr. transitivity (contents els2 (inorder (set_tree tr q t2 r))).
    - apply contents_ext. intros j [Hj _]%(tk_member _ _ _ _ _ Hk2); [|done]. by rewrite Ho3.
    - destruct (decide (r = q)) as [->|Hrq]; [by rewrite set_tree_eq|]. rewrite set_tree_ne by done.
      apply contents_ext. intros j Hj. rewrite Hfr2; [done|..].
      + intros Hj'. apply Hrq. by apply (trees_disjoint zeroT lg (_elements c) _ tr r q j Hk).
      + intros ->. by apply (tk_member _ _ _ _ _ Hk) in Hj as [[_ ?] _]. }
  assert (0 <= q < alen (_povs c)) as Hql by (rewrite (pt_len _ _ _ Htab); done).
  set (ps := (_povs c).[q := _]).
  assert (ps.[q] = queue_record (pov_value ((_povs c).[q])) t2) as Hpsq.
  { unfold ps. rewrite aget_aset_eq by done. unfold queue_record. f_equal. rewrite Hrec. simpl.
    rewrite Hin, Hin2. unfold alen. rewrite !length_app. done. }
  assert (forall r, r <> q -> ps.[r] = (_povs c).[r]) as Hpso by (intros r Hr; apply aget_aset_ne; congruence).
  split; simpl; try done.
  - split; simpl; [rewrite <- Hlen, <- Hlen2; apply alen_aset|lia|by apply (table_good_same lg lg_small)|done| |done].
    intros r Hr. destruct (decide (r = q)) as [->|Hrq].
    + rewrite set_tree_eq, Hpsq. pose proof (Hslot q Hq) as Hs. unfold slot_ok in Hs |- *. destruct (_ =? 1); [|by destruct Hs as [? _]].
      split; [|done]. intros H0. rewrite H0 in Hin2. by destruct l1.
    + rewrite set_tree_ne, Hpso by done. by apply Hslot.
  - intros r Hr. fold last. destruct (decide (r = q)) as [->|Hrq].
    + rewrite set_tree_eq, Hin2, Hin. symmetry. apply moved_to_split. by rewrite <- Hin.
    + rewrite set_tree_ne by done. rewrite moved_to_other; [done|]. intros Hl. apply Hrq.
      apply (trees_disjoint zeroT lg (_elements c) _ tr r q last Hk); [done|done|done|]. rewrite Hin. set_solver.
  - intros r Hr. destruct (decide (r = q)) as [->|Hrq]; [by rewrite Hpsq|by rewrite Hpso].
Qed.

Lemma fill_gap c tr d next :
  gap_ok c tr d -> exists c' tr', remove_fill zeroT c d next = (c', moved_to (_population c - 1) d next) /\ filled c tr d c' tr'.
Proof.
  intros Hg. destruct (decide (d = _population c - 1)) as [Hd|Hd]; [|by apply fill_move].
  destruct (fill_last c tr d next Hg Hd) as (c' & ? & ?). by exists c', tr.
Qed.

(** ** Taking the element out of its queue *)

(** The collection [c1] before the gap is filled: the element between [l1] and [l2] left the queue of slot [p]. *)
Record unlinked c tr (p : Z) (l1 l2 : list Z) c1 tr1 (d next : Z) : Prop := {
  un_gap : gap_ok c1 tr1 d;
  un_pop : _population c1 = _population c;
  un_queue : exists l2', inorder (tr1 p) = l1 ++ l2' /\ next = first_index l2' /\
    contents (_elements c1) (l1 ++ l2') = contents (_elements c) (l1 ++ l2);
  un_other : forall q, in_table lg q -> q <> p -> tr1 q = tr q /\ contents (_elements c1) (inorder (tr q)) = contents (_elements c) (inorder (tr q));
  un_values : forall q, in_table lg q -> pov_value ((_povs c1).[q]) = pov_value ((_povs c).[q]);
  un_flag : flag_of (_povOccupationFlags c1) p = match l1 ++ l2 with [] => 2 | _ => 1 end;
  un_flags : forall q, in_table lg q -> q <> p -> flag_of (_povOccupationFlags c1) q = flag_of (_povOccupationFlags c) q;
  un_counter : _markRemovalCounter c1 = match l1 ++ l2 with [] => u64 (_markRemovalCounter c + 1) | _ => _markRemovalCounter c end }.

(** Reduction of [remove] of an existing element *)
Lemma remove_unfold c e :
  below (_population c) e -> _population c <= L ->
  remove zeroT lg c e =
    let p := povIndex ((_elements c).[e]) in let pov := (_povs c).[p] in
    if 1 <? pov_population pov then
      '(els, pov, d, next) ← remove_node zeroT lg c e pov;
      Some (remove_fill zeroT (mkCollection ((_povs c).[p := set_pov_population (pov_population pov - 1) pov]) (_povOccupationFlags c) els
              (_population c) (_markRemovalCounter c)) d next)
    else
      Some (remove_fill zeroT (mkCollection (upd_pov (set_pov_population 0) p (_povs c)) (flags_toggle (_povOccupationFlags c) p) (_elements c)
              (_population c) (u64 (_markRemovalCounter c + 1))) e NULL_INDEX).
Proof.
  unfold below. intros He HL. unfold remove. rewrite land_mask, Z.mod_small by lia. rewrite (proj2 (Z.ltb_lt _ _)) by lia. done.
Qed.

Section element.
Variables (c : Collection T) (tr : Z -> tree) (e p : Z) (l1 l2 : list Z).
Hypothesis Hok : collection_ok zeroT lg c tr.
Hypothesis He : below (_population c) e.
Hypothesis Hp : povIndex ((_elements c).[e]) = p.
Hypothesis Hin : inorder (tr p) = l1 ++ e :: l2.

Lemma element_slot :
  in_table lg p /\ flag_of (_povOccupationFlags c) p = 1 /\ (_povs c).[p] = queue_record (pov_value ((_povs c).[p])) (tr p).
Proof.
  assert (in_table lg p) as Ht by (rewrite <- Hp; by apply (co_trees _ _ _ _ Hok)). split; [done|].
  destruct (decide (flag_of (_povOccupationFlags c) p = 1)) as [Hf|Hf].
  - split; [done|]. by apply (occupied_slot zeroT lg c tr).
  - destruct (free_slot zeroT lg c tr p Hok Ht Hf) as [H0 _]. rewrite H0 in Hin. by destruct l1.
Qed.

Lemma remove_single : l1 ++ l2 = [] ->
  exists c1 tr1 d next, remove zeroT lg c e = Some (remove_fill zeroT c1 d next) /\ unlinked c tr p l1 l2 c1 tr1 d next.
Proof.
  intros H0. destruct element_slot as (Ht & Hf & Hrec). apply app_nil in H0 as [-> ->].
  rewrite remove_unfold by (done || apply Hok). cbn zeta. rewrite Hp.
  assert (pov_population ((_povs c).[p]) = 1) as Hpop by (rewrite Hrec; simpl; by rewrite Hin).
  rewrite Hpop. cbn [Z.ltb Z.compare Pos.compare Pos.compare_cont]. eexists _, (set_tree tr p Leaf), e, NULL_INDEX. split; [reflexivity|].
  destruct (table_mark lg (_povs c) (_povOccupationFlags c) p (co_table _ _ _ _ Hok) Ht Hf) as (Hg & H2 & Ho).
  pose proof (co_pop _ _ _ _ Hok) as HL. unfold below in He. pose proof (co_trees _ _ _ _ Hok) as Hk.
  assert (0 <= p < alen (_povs c)) as Hpl by (rewrite (pt_len _ _ _ Hg); done).
  split; simpl; try done.
  - split; simpl; [apply Hok|lia|done| | | |apply u64_range].
    + by apply (table_good_same lg lg_small).
    + apply (trees_ok_update zeroT lg (_elements c) (_elements c) (below (_population c))); try done.
      * constructor.
      * by constructor.
      * set_solver.
      * intros j. rewrite Hin. set_solver.
    + intros q Hq. destruct (decide (q = p)) as [->|Hqp].
      * rewrite set_tree_eq, H2. unfold upd_pov. by rewrite aget_aset_eq.
      * rewrite set_tree_ne, Ho by done. unfold upd_pov. rewrite aget_aset_ne by congruence. by apply (co_slot _ _ _ _ Hok).
  - exists []. by rewrite set_tree_eq.
  - intros q Hq Hqp. by rewrite set_tree_ne.
  - intros q Hq. unfold upd_pov. rewrite aget_aset. by case_decide as Hd; [destruct Hd as [-> _]|].
Qed.

Lemma remove_several : l1 ++ l2 <> [] ->
  exists c1 tr1 d next, remove zeroT lg c e = Some (remove_fill zeroT c1 d next) /\ unlinked c tr p l1 l2 c1 tr1 d next.
Proof.
  intros H0. destruct element_slot as (Ht & Hf & Hrec). rewrite remove_unfold by (done || apply Hok). cbn zeta. rewrite Hp.
  pose proof (co_trees _ _ _ _ Hok) as Hk. pose proof (co_pop _ _ _ _ Hok) as HL. unfold below in He.
  assert (1 < length (inorder (tr p)))%nat as Hlen.
  { rewrite Hin, length_app. simpl. destruct l1; [destruct l2; [done|simpl; lia]|simpl; lia]. }
  assert (pov_population ((_povs c).[p]) = alen (inorder (tr p))) as Hpop by (by rewrite Hrec).
  rewrite (proj2 (Z.ltb_lt _ _)) by (rewrite Hpop; unfold alen; lia).
  destruct (remove_node_spec zeroT lg c (tr p) ((_povs c).[p])) with (l1 := l1) (e := e) (l2 := l2) as ([[[els1 pov1] d] next] & -> & Hres);
    [by apply Hk|by apply Hk|by apply (tree_members zeroT lg c tr)|lia|by rewrite Hrec..|done|done|].
  cbn [mbind option_bind]. destruct Hres as (t1 & l2' & Hrep1 & Hin1 & Hperm & Hnext & Hcont & Hpov1 & Hlen1 & Hpi & Hfr).
  eexists _, (set_tree tr p t1), d, next. split; [reflexivity|].
  assert (NoDup (d :: inorder t1)) as [Hdt Hnd1]%NoDup_cons by (rewrite Hperm; by apply Hk).
  assert (forall j, j ∈ inorder (tr p) <-> j = d \/ j ∈ inorder t1) as Hmem by (intros j; by rewrite <- Hperm, elem_of_cons).
  assert (0 <= p < alen (_povs c)) as Hpl by (rewrite (pt_len _ _ _ (co_table _ _ _ _ Hok)); done).
  assert (trees_ok els1 (fun j => below (_population c) j /\ j <> d) (set_tree tr p t1)) as Hk1.
  { apply (trees_ok_update zeroT lg (_elements c) els1 (below (_population c))); try done.
    - intros j Hj _. by apply Hfr.
    - rewrite Hin1. apply (queue_sorted_contents zeroT (_elements c) _ (l1 ++ l2)); [done|].
      pose proof (tk_sorted _ _ _ _ _ Hk p Ht) as Hs. rewrite Hin in Hs. by apply queue_sorted_remove in Hs.
    - intros j Hj. assert (j ∈ inorder (tr p)) as Hj' by (apply Hmem; by right).
      apply (tk_member _ _ _ _ _ Hk) in Hj' as [Hb Hpj]; [|done].
      rewrite Hpi. split; [|done]. split; [done|]. by intros ->.
    - intros j. rewrite Hmem. split; [|tauto]. intros [[Hb Hd] Hn]. split; [done|]. tauto. }
  assert (d ∈ inorder (tr p)) as Hdp by (apply Hmem; by left). apply (tk_member _ _ _ _ _ Hk) in Hdp as [Hdb _]; [|done].
  assert (alen (inorder (tr p)) = alen (inorder t1) + 1) as Hal by (unfold alen; rewrite <- Hperm; simpl; lia).
  assert (t1 <> Leaf) as Ht1.
  { intros Hl. rewrite Hl in Hin1. destruct l1; [|done]. destruct l2', l2; try done. }
  unfold below in Hdb. split; simpl; try done.
  - split; simpl; try done; [rewrite Hlen1; apply Hok|lia| | |apply Hok].
    + apply (table_good_same lg lg_small); [by rewrite Hpov1|apply Hok].
    + intros q Hq. destruct (decide (q = p)) as [->|Hqp].
      * rewrite set_tree_eq, aget_aset_eq, Hf, Hpov1 by done. split; [done|]. unfold queue_record. cbn [pov_value pov_population set_pov_population]. rewrite Hpop, Hal. unfold set_pov_population. cbn. f_equal. lia.
      * rewrite set_tree_ne, aget_aset_ne by congruence. by apply (co_slot _ _ _ _ Hok).
  - exists l2'. by rewrite set_tree_eq.
  - intros q Hq Hqp. rewrite set_tree_ne by done. split; [done|]. apply contents_ext. intros j Hj. rewrite Hfr; [done|].
    intros Hj'. apply Hqp. by apply (trees_disjoint zeroT lg (_elements c) _ tr q p j Hk).
  - intros q Hq. rewrite aget_aset. case_decide as Hd; [|done]. destruct Hd as [-> _]. by rewrite Hpov1.
  - by destruct (l1 ++ l2).
  - by destruct (l1 ++ l2).
Qed.
End element.

(** ** remove *)

(** The element between [l1] and [l2] left the queue of [pov]; [next] is the element that followed it. *)
Definition removed c c' (pov : Z) (l1 l2 : list Z) (next : Z) : Prop :=
  queue zeroT lg c' pov = contents (_elements c) (l1 ++ l2) /\
  next = first_index (drop (length l1) (queue_indices zeroT lg c' pov)) /\
  (forall pov', pov' <> pov -> queue zeroT lg c' pov' = queue zeroT lg c pov') /\
  _population c' = _population c - 1 /\
  _markRemovalCounter c' = match l1 ++ l2 with [] => u64 (_markRemovalCounter c + 1) | _ => _markRemovalCounter c end.

Lemma first_index_moved last d l : last <> NULL_INDEX -> moved_to last d (first_index l) = first_index (moved_to last d <$> l).
Proof.
  intros Hl. destruct l; [|done]. change (moved_to last d NULL_INDEX = NULL_INDEX). unfold moved_to.
  by rewrite (proj2 (Z.eqb_neq _ _)) by congruence.
Qed.

Lemma queue_slot c tr p :
  collection_ok zeroT lg c tr -> in_table lg p -> flag_of (_povOccupationFlags c) p = 1 ->
  queue zeroT lg c (pov_value ((_povs c).[p])) = contents (_elements c) (inorder (tr p)).
Proof. intros Hok Hp Hf. unfold queue. by rewrite (queue_indices_slot zeroT lg lg_small c tr). Qed.

Lemma queue_absent c tr pov :
  collection_ok zeroT lg c tr -> (forall p, in_table lg p -> flag_of (_povOccupationFlags c) p = 1 -> pov_value ((_povs c).[p]) <> pov) ->
  queue_indices zeroT lg c pov = [].
Proof.
  intros Hok Habs. destruct (pov_cases zeroT lg lg_small c tr pov Hok) as [(p & Hp & _ & Hf & Hv & _)|(_ & ? & _)]; [|done].
  by destruct (Habs p).
Qed.

(** From the element taken out to the gap filled *)
Lemma unlinked_filled c tr p l1 l2 c1 tr1 d next c' tr' :
  collection_ok zeroT lg c tr -> in_table lg p -> flag_of (_povOccupationFlags c) p = 1 ->
  unlinked c tr p l1 l2 c1 tr1 d next -> filled c1 tr1 d c' tr' ->
  removed c c' (pov_value ((_povs c).[p])) l1 l2 (moved_to (_population c1 - 1) d next).
Proof.
  intros Hok Hp Hf [Hgap Hpop (l2' & Hin1 & Hnext & Hcont1) Hother Hvals Hflag Hflags Hcnt] [Hok' Htr' Hcont' Hfl' Hval' Hpop' Hcnt'].
  pose proof (gp_pop _ _ _ Hgap) as Hpos.
  assert (forall q, in_table lg q -> pov_value ((_povs c').[q]) = pov_value ((_povs c).[q])) as Hv.
  { intros q Hq. by rewrite Hval', Hvals. }
  assert (queue_indices zeroT lg c' (pov_value ((_povs c).[p])) = moved_to (_population c1 - 1) d <$> (l1 ++ l2') /\
          queue zeroT lg c' (pov_value ((_povs c).[p])) = contents (_elements c) (l1 ++ l2)) as [Hqi Hq].
  { rewrite <- Hin1, <- Htr', <- Hcont1, <- Hin1, <- Hcont', <- (Hv p) by done.
    destruct (l1 ++ l2) as [|x l] eqn:E.
    - assert (inorder (tr' p) = []) as H0.
      { rewrite Htr' by done. rewrite Hin1. simpl in Hcont1. apply fmap_nil_inv in Hcont1. by rewrite Hcont1. }
      rewrite H0. unfold queue. rewrite (queue_absent c' tr'); [done|done|]. rewrite Hfl'. intros q Hq Hfq Hvq.
      assert (q <> p) as Hqp by (intros ->; by rewrite Hflag in Hfq). rewrite Hflags in Hfq by done.
      apply Hqp. rewrite !Hv in Hvq by done. by apply (table_unique lg lg_small (_povs c) (_povOccupationFlags c)); [apply Hok|..].
    - split; [by apply (queue_indices_slot zeroT lg lg_small); [|..|rewrite Hfl']|by apply queue_slot; [|..|rewrite Hfl']]. }
  split; [done|]. split; [|split; [|split; [lia|congruence]]].
  - rewrite Hqi, fmap_app, drop_app_length' by (by rewrite length_fmap). rewrite Hnext. apply first_index_moved. unfold NULL_INDEX. lia.
  - intros pov' Hne. unfold queue at 2.
    destruct (pov_cases zeroT lg lg_small c tr pov' Hok) as [(q & Hq' & _ & Hfq & Hvq & ->)|(_ & -> & Habs)].
    + assert (q <> p) as Hqp by (by intros ->). rewrite <- Hvq, <- (Hv q), (queue_slot c' tr') by (rewrite ?Hfl', ?Hflags; done).
      destruct (Hother q Hq' Hqp) as [Ht Hc]. by rewrite Hcont', Ht by done.
    + unfold queue. rewrite (queue_absent c' tr'); [done|done|]. rewrite Hfl'. intros q Hq' Hfq. rewrite Hv by done. apply Habs; [done|].
      destruct (decide (q = p)) as [->|]; [done|]. by rewrite Hflags in Hfq.
Qed.

Lemma collection_remove_ok c tr e :
  collection_ok zeroT lg c tr -> below (_population c) e ->
  let pov := pov_value ((_povs c).[povIndex ((_elements c).[e])]) in
  exists l1 l2 c' tr' next,
    queue_indices zeroT lg c pov = l1 ++ e :: l2 /\ remove zeroT lg c e = Some (c', next) /\
    collection_ok zeroT lg c' tr' /\ removed c c' pov l1 l2 next.
Proof.
  intros Hok He pov. set (p := povIndex ((_elements c).[e])) in *. pose proof (co_trees _ _ _ _ Hok) as Hk.
  assert (in_table lg p) as Hp by (by apply Hk).
  assert (e ∈ inorder (tr p)) as Hin by (by apply (tk_member _ _ _ _ _ Hk)).
  apply list_elem_of_split in Hin as (l1 & l2 & Hin). exists l1, l2.
  destruct (element_slot c tr e p l1 l2 Hok He eq_refl Hin) as (_ & Hf & _).
  assert (exists c1 tr1 d next, remove zeroT lg c e = Some (remove_fill zeroT c1 d next) /\ unlinked c tr p l1 l2 c1 tr1 d next)
    as (c1 & tr1 & d & next & Hrem & Hun).
  { destruct (decide (l1 ++ l2 = [])); [by apply remove_single|by apply remove_several]. }
  destruct (fill_gap c1 tr1 d next (un_gap _ _ _ _ _ _ _ _ _ Hun)) as (c' & tr' & Hfill & Hfilled).
  exists c', tr', (moved_to (_population c1 - 1) d next). rewrite Hrem, Hfill.
  split; [unfold pov; by rewrite (queue_indices_slot zeroT lg lg_small c tr)|]. split; [done|].
  split; [apply Hfilled|]. by apply (unlinked_filled c tr p l1 l2 c1 tr1 d next c' tr').
Qed.

Lemma remove_out c tr e :
  collection_ok zeroT lg c tr -> _population c <= Z.land e (L - 1) -> remove zeroT lg c e = Some (c, NULL_INDEX).
Proof. intros Hok He. unfold remove. by rewrite (proj2 (Z.ltb_ge _ _)). Qed.
End remove.
