(* ===== verification/CollectionCleanup.v ===== *)
(** * QPI::Collection: cleanup

    [cleanup] builds the pov table anew without the slots marked for removal and updates the slot numbers in the elements.  No queue
    changes, not even the indices of its elements; the branch [cleanupBug] is never taken. *)
From S2P Require Import Prelude OpenAddressing OccupationFlags OccupiedSlots HashMap Collection CollectionTree CollectionRebuild CollectionLinks PovTable CollectionSpec CollectionRemove.

Section cleanup.
Context {T : Type} (zeroT : T).
#[local] Hint Extern 0 (Inhabited (Element T)) => exact (collection_element_inhabited zeroT) : typeclass_instances.
Variable lg : nat.
Hypothesis lg_small : (lg < 64)%nat.
Abbreviation L := (2 ^ Z.of_nat lg).
Abbreviation trees_ok := (trees_ok zeroT lg).
Variables (c : Collection T) (tr : Z -> tree).
Hypothesis Hok : collection_ok zeroT lg c tr.
Abbreviation flag j := (flag_of (_povOccupationFlags c) j).
Abbreviation els0 := (_elements c).
Implicit Types (els : list (Element T)) (ps : list PoV) (fl : list Z).

(** ** The populations of the slots add up *)
Definition slot_size (j : Z) : Z := alen (inorder (tr j)).
Definition sizes (i : Z) : Z := sumZ slot_size (Z.to_nat i).

Lemma slot_size_nonneg j : 0 <= slot_size j.
Proof. unfold slot_size, alen. lia. Qed.
Lemma slot_size_pos j : in_table lg j -> flag j = 1 -> 1 <= slot_size j.
Proof.
  intros Hj Hf. destruct (occupied_slot zeroT lg c tr j Hok Hj Hf) as [Ht _]. unfold slot_size, alen.
  destruct (inorder (tr j)) eqn:He; [by apply inorder_nil in He|simpl; lia].
Qed.

Lemma length_bind_sizes n : Z.of_nat (length (seqZ 0 (Z.of_nat n) ≫= fun j => inorder (tr j))) = sumZ slot_size n.
Proof.
  induction n as [|n IH]; [done|]. rewrite seqZ_S, bind_app, length_app. cbn [sumZ]. rewrite <- IH, Z.add_0_l. simpl.
  rewrite app_nil_r. unfold slot_size, alen. lia.
Qed.

Lemma NoDup_bind_trees n : Z.of_nat n <= L -> NoDup (seqZ 0 (Z.of_nat n) ≫= fun j => inorder (tr j)).
Proof.
  intros Hn. apply NoDup_bind; [| |apply NoDup_seqZ].
  - intros i j x Hi%elem_of_seqZ Hj%elem_of_seqZ. apply (trees_disjoint zeroT lg els0 (below (_population c)) tr i j x (co_trees _ _ _ _ Hok));
      unfold in_table; lia.
  - intros j Hj%elem_of_seqZ. apply (co_trees _ _ _ _ Hok). unfold in_table. lia.
Qed.

Lemma sizes_total : sizes L = _population c.
Proof.
  pose proof (co_pop _ _ _ _ Hok) as Hpop. pose proof (cap_pos lg). unfold sizes. rewrite <- length_bind_sizes, Z2Nat.id by lia.
  transitivity (Z.of_nat (length (seqZ 0 (_population c)))); [|rewrite length_seqZ; lia]. f_equal. apply Permutation_length.
  apply NoDup_Permutation; [|apply NoDup_seqZ|].
  - pose proof (NoDup_bind_trees (Z.to_nat L)) as Hb. rewrite Z2Nat.id in Hb by lia. apply Hb. lia.
  - intros x. rewrite list_elem_of_bind, elem_of_seqZ. pose proof (co_trees _ _ _ _ Hok) as Hk. split.
    + intros (j & Hx & Hj%elem_of_seqZ). apply (tk_member _ _ _ _ _ Hk) in Hx as [Hb _]; unfold below, in_table in *; lia.
    + intros Hx. assert (in_table lg (povIndex (els0.[x]))) as Hi by (apply Hk; unfold below; lia).
      exists (povIndex (els0.[x])). split; [|apply elem_of_seqZ; unfold in_table in Hi; lia].
      apply (tk_member _ _ _ _ _ Hk); [done|]. unfold below. split; [lia|done].
Qed.

Lemma sizes_step i : 0 <= i -> sizes (i + 1) = sizes i + slot_size i.
Proof. intros. unfold sizes. replace (Z.to_nat (i + 1)) with (S (Z.to_nat i)) by lia. cbn [sumZ]. by rewrite Z2Nat.id. Qed.
Lemma sizes_mono i j : 0 <= i <= j -> sizes i <= sizes j.
Proof. intros. apply sumZ_prefix; [lia|]. intros. apply slot_size_nonneg. Qed.

(** When all elements are accounted for, no occupied slot is left. *)
Lemma sizes_complete i j : 0 <= i -> sizes i = _population c -> in_table lg j -> flag j = 1 -> j < i.
Proof.
  intros Hi Hs Hj Hf. destruct (Z.lt_ge_cases j i); [done|]. unfold in_table in Hj.
  pose proof (sizes_mono i j ltac:(lia)). pose proof (sizes_step j ltac:(lia)). pose proof (slot_size_pos j Hj Hf).
  pose proof (sizes_mono (j + 1) L ltac:(lia)). rewrite sizes_total in *. lia.
Qed.

(** ** The state of the loop *)

(** The elements of the slots below [i] *)
Definition transferred_live (i x : Z) : Prop := exists j, 0 <= j < i /\ flag j = 1 /\ x ∈ inorder (tr j).

Record transferred (i : Z) ps fl els (np : Z) tr' : Prop := {
  td_table : table_good lg ps fl;
  td_no2 : forall s, in_table lg s -> flag_of fl s <> 2;
  td_count : occupiedCount lg fl = countZ (fun j => flag j =? 1) (Z.to_nat i);
  td_trees : trees_ok els (transferred_live i) tr';
  td_slot : forall s, in_table lg s -> slot_ok (flag_of fl s) (ps.[s]) (tr' s);
  td_len : alen els = L;
  td_links : forall x, links (els.[x]) = links (els0.[x]);
  td_content : forall x, content (els.[x]) = content (els0.[x]);
  td_rest : forall x, ~ transferred_live i x -> els.[x] = els0.[x];
  td_fwd : forall j, 0 <= j < i -> flag j = 1 -> exists s, in_table lg s /\ flag_of fl s = 1 /\ ps.[s] = (_povs c).[j] /\ tr' s = tr j;
  td_bwd : forall s, in_table lg s -> flag_of fl s = 1 -> exists j, 0 <= j < i /\ flag j = 1 /\ pov_value (ps.[s]) = pov_value ((_povs c).[j]);
  td_np : np = sizes i }.

Lemma transferred_skip i ps fl els np tr' :
  in_table lg i -> flag i <> 1 -> transferred i ps fl els np tr' -> transferred (i + 1) ps fl els np tr'.
Proof.
  intros Hi Hf Ht. unfold in_table in Hi.
  assert (forall x, transferred_live (i + 1) x <-> transferred_live i x) as Hlive.
  { intros x. split; intros (j & Hj & Hfj & Hx); exists j; (split; [|done]); [|lia]. assert (j <> i) by congruence. lia. }
  destruct Ht as [Htab Hno2 Hcnt Hk Hslot Hlen Hlinks Hcont Hrest Hfwd Hbwd Hnp]. split; try done.
  - rewrite countZ_S, (proj2 (Z.eqb_neq _ _) Hf) by lia. simpl. lia.
  - by apply (trees_ok_ext zeroT lg els els (transferred_live i)).
  - intros x Hx. apply Hrest. by rewrite <- Hlive.
  - intros j Hj Hfj. assert (j <> i) by congruence. apply Hfwd; [lia|done].
  - intros s Hs Hfs. destruct (Hbwd s Hs Hfs) as (j & Hj & ?). exists j. split; [lia|done].
  - destruct (free_slot zeroT lg c tr i Hok Hi Hf) as [H0 _]. rewrite sizes_step by lia. unfold slot_size. rewrite H0. unfold alen. simpl. lia.
Qed.

Lemma transferred_fresh i x : in_table lg i -> x ∈ inorder (tr i) -> ~ transferred_live i x.
Proof.
  intros Hi Hx (j & Hj & _ & Hx'). assert (j = i); [|lia]. unfold in_table in Hi.
  apply (trees_disjoint zeroT lg els0 (below (_population c)) tr j i x); [apply Hok|unfold in_table; lia|unfold in_table; lia|done|done].
Qed.

(** The walk over the elements of slot [i], or nothing if the slot keeps its number *)
Lemma relabel_step i ps fl els np tr' s :
  in_table lg i -> flag i = 1 -> transferred i ps fl els np tr' ->
  exists els', (if s =? i then Some els else relabel zeroT (S (Z.to_nat L)) s [root (tr i)] els) = Some els' /\
    relabelled zeroT s (inorder (tr i)) els els'.
Proof.
  intros Hi Hf Ht. destruct (occupied_slot zeroT lg c tr i Hok Hi Hf) as [Hne _]. pose proof (co_trees _ _ _ _ Hok) as Hk.
  destruct (Z.eqb_spec s i) as [->|_].
  - exists els. split; [done|]. split; [done|]. intros x. case_decide as Hx; [|done].
    rewrite (td_rest _ _ _ _ _ _ Ht).
    + apply (tk_member _ _ _ _ _ Hk) in Hx as [_ Hp]; [|done]. rewrite <- Hp. by destruct (els0.[x]).
    + by apply transferred_fresh.
  - apply (relabel_spec zeroT _ s NULL_INDEX); [done| |pose proof (tree_small zeroT lg c tr i Hok Hi); lia].
    apply (rep_ext zeroT els0); [rewrite (td_len _ _ _ _ _ _ Ht); symmetry; apply Hok| |by apply Hk].
    intros x _. apply (td_links _ _ _ _ _ _ Ht).
Qed.

(** The elements after slot [i] moved to slot [s] *)
Lemma transfer_trees i ps fl els els' np tr' s :
  in_table lg i -> flag i = 1 -> transferred i ps fl els np tr' -> in_table lg s -> flag_of fl s = 0 ->
  relabelled zeroT s (inorder (tr i)) els els' -> trees_ok els' (transferred_live (i + 1)) (set_tree tr' s (tr i)).
Proof.
  intros Hi Hf Ht Hs Hfs [Hlen Hels]. pose proof (co_trees _ _ _ _ Hok) as Hk.
  assert (tr' s = Leaf) as H0.
  { pose proof (td_slot _ _ _ _ _ _ Ht s Hs) as Hsl. unfold slot_ok in Hsl. rewrite Hfs in Hsl. by destruct Hsl as [? _]. }
  assert (forall x, links (els'.[x]) = links (els0.[x]) /\ content (els'.[x]) = content (els0.[x])) as Hsame.
  { intros x. rewrite Hels, <- (td_links _ _ _ _ _ _ Ht), <- (td_content _ _ _ _ _ _ Ht). by case_decide. }
  pose proof (td_len _ _ _ _ _ _ Ht) as Hl. pose proof (co_len _ _ _ _ Hok) as Hl0. unfold in_table in Hi.
  apply (trees_ok_update zeroT lg els els' (transferred_live i)); [apply Ht|done|done|..].
  - intros x _ Hx. rewrite Hels. by case_decide.
  - apply (rep_ext zeroT els0); [congruence| |by apply Hk]. intros x _. apply Hsame.
  - by apply Hk.
  - apply (queue_sorted_contents zeroT els0 _ (inorder (tr i))); [|by apply Hk]. apply contents_ext. intros x _. apply Hsame.
  - intros x Hx. rewrite Hels, decide_True by done. split; [|done]. exists i. split; [lia|done].
  - intros x. rewrite H0. split.
    + intros [(j & Hj & Hfj & Hx) Hn]. split; [|apply not_elem_of_nil]. exists j. split; [|done]. assert (j <> i) by congruence. lia.
    + intros [Hx _]. split; [|intros Hx'; by apply (transferred_fresh i x)]. destruct Hx as (j & Hj & ?). exists j. split; [lia|done].
Qed.

Lemma transferred_move i ps fl els els' np tr' s :
  in_table lg i -> flag i = 1 -> transferred i ps fl els np tr' -> in_table lg s -> flag_of fl s = 0 ->
  table_good lg (ps.[s := (_povs c).[i]]) (flags_occupy fl s) -> occupiedCount lg (flags_occupy fl s) = occupiedCount lg fl + 1 ->
  flag_of (flags_occupy fl s) s = 1 -> (forall j, in_table lg j -> j <> s -> flag_of (flags_occupy fl s) j = flag_of fl j) ->
  relabelled zeroT s (inorder (tr i)) els els' ->
  transferred (i + 1) (ps.[s := (_povs c).[i]]) (flags_occupy fl s) els' (np + pov_population ((_povs c).[i])) (set_tree tr' s (tr i)).
Proof.
  intros Hi Hf Ht Hs Hfs Htab' Hcnt' H1 Ho Hre. pose proof (transfer_trees i ps fl els els' np tr' s Hi Hf Ht Hs Hfs Hre) as Hk'.
  destruct (occupied_slot zeroT lg c tr i Hok Hi Hf) as [Hne Hrec].
  destruct Ht as [Htab Hno2 Hcnt Hk Hslot Hlen Hlinks Hcont Hrest Hfwd Hbwd Hnp]. destruct Hre as [Hlen' Hels]. unfold in_table in Hi.
  assert (ps.[s := (_povs c).[i]].[s] = (_povs c).[i]) as Hps by (apply aget_aset_eq; rewrite (pt_len _ _ _ Htab); done).
  assert (forall r, r <> s -> ps.[s := (_povs c).[i]].[r] = ps.[r]) as Hpso by (intros; apply aget_aset_ne; congruence).
  split; try done.
  - intros r Hr. destruct (decide (r = s)) as [->|]; [by rewrite H1|]. rewrite Ho by done. by apply Hno2.
  - rewrite countZ_S, Hf by lia. simpl. lia.
  - intros r Hr. destruct (decide (r = s)) as [->|].
    + rewrite set_tree_eq, H1, Hps. by split.
    + rewrite set_tree_ne, Ho, Hpso by done. by apply Hslot.
  - congruence.
  - intros x. rewrite Hels, <- Hlinks. by case_decide.
  - intros x. rewrite Hels, <- Hcont. by case_decide.
  - intros x Hx. rewrite Hels, decide_False.
    + apply Hrest. intros (j & Hj & ?). apply Hx. exists j. split; [lia|done].
    + intros Hin. apply Hx. exists i. split; [lia|done].
  - intros j Hj Hfj. destruct (decide (j = i)) as [->|].
    + exists s. by rewrite set_tree_eq.
    + destruct (Hfwd j) as (r & Hr & Hfr & ? & ?); [lia|done|]. assert (r <> s) by congruence.
      exists r. by rewrite Ho, Hpso, set_tree_ne.
  - intros r Hr Hfr. destruct (decide (r = s)) as [->|].
    + exists i. rewrite Hps. split; [lia|done].
    + rewrite Ho in Hfr by done. destruct (Hbwd r Hr Hfr) as (j & Hj & ?). exists j. rewrite Hpso by done. split; [lia|done].
  - rewrite sizes_step, Hnp, Hrec by lia. done.
Qed.

(** ** The result *)
Definition cleaned_up (r : Collection T * bool) : Prop :=
  let '(c', bug) := r in
  bug = false /\ (exists tr', collection_ok zeroT lg c' tr') /\ (forall pov, queue_indices zeroT lg c' pov = queue_indices zeroT lg c pov) /\
  (forall x, below (_population c) x -> content ((_elements c').[x]) = content (els0.[x])) /\ _population c' = _population c /\
  _markRemovalCounter c' = 0 /\ (forall s, in_table lg s -> flag_of (_povOccupationFlags c') s <> 2).

Lemma transferred_all i ps fl els np tr' :
  0 <= i <= L -> np = _population c -> transferred i ps fl els np tr' -> cleaned_up (mkCollection ps fl els (_population c) 0, false).
Proof.
  intros Hi Hnp Ht. pose proof (co_trees _ _ _ _ Hok) as Hk.
  assert (forall j, in_table lg j -> flag j = 1 -> j < i) as Hall.
  { intros j Hj Hf. apply sizes_complete; [lia| |done|done]. rewrite <- Hnp. symmetry. apply Ht. }
  set (c' := mkCollection ps fl els (_population c) 0).
  assert (collection_ok zeroT lg c' tr') as Hok'.
  { split; simpl; try apply Ht; [apply Hok| |unfold is_u64; lia].
    apply (trees_ok_ext zeroT lg els els (transferred_live i)); [apply Ht|done|done|]. intros x. split.
    - intros Hx. assert (in_table lg (povIndex (els0.[x]))) as Hp by (by apply Hk).
      assert (x ∈ inorder (tr (povIndex (els0.[x])))) as Hin by (by apply (tk_member _ _ _ _ _ Hk)).
      exists (povIndex (els0.[x])). assert (flag (povIndex (els0.[x])) = 1) as Hf.
      { destruct (decide (flag (povIndex (els0.[x])) = 1)) as [|Hf]; [done|].
        destruct (free_slot zeroT lg c tr _ Hok Hp Hf) as [H0 _]. rewrite H0 in Hin. by apply elem_of_nil in Hin. }
      split; [|done]. split; [apply Hp|by apply Hall].
    - intros (j & Hj & Hf & Hx). apply (tk_member _ _ _ _ _ Hk) in Hx as [? _]; [done|]. unfold in_table. lia. }
  split; [done|]. split; [by exists tr'|]. split; [|split; [|split; [done|split; [done|apply Ht]]]].
  - intros pov. rewrite <- (list_fmap_id (queue_indices zeroT lg c pov)).
    apply (queue_indices_transfer zeroT lg lg_small c c' tr tr' id); [done|done|..]; simpl.
    + intros p Hp Hf Hv. destruct (td_fwd _ _ _ _ _ _ Ht p) as (s & Hs & Hfs & Hps & Htr); [split; [apply Hp|by apply Hall]|done|].
      exists s. by rewrite Hps, Htr, list_fmap_id.
    + intros s Hs Hfs Hv. destruct (td_bwd _ _ _ _ _ _ Ht s Hs Hfs) as (j & Hj & Hf & Hjv). exists j.
      split; [unfold in_table; lia|]. split; [done|congruence].
  - intros x _. apply Ht.
Qed.

(** One slot in the loop of [cleanup] *)
Lemma cleanup_move_step i ps fl els np tr' :
  in_table lg i -> flag i = 1 -> transferred i ps fl els np tr' ->
  match cleanup_move zeroT lg c i (ps, fl, els, np) with
  | inl r => exists r', r = Some r' /\ cleaned_up r'
  | inr (ps', fl', els', np') => exists tr'', transferred (i + 1) ps' fl' els' np' tr'' /\ np' <> _population c
  end.
Proof.
  intros Hi Hf Ht. unfold cleanup_move.
  pose proof (countZ_range (fun j => flag j =? 1) (Z.to_nat i)) as Hcr. pose proof Hi as Hi'. unfold in_table in Hi'.
  destruct (table_transfer lg lg_small ps fl ((_povs c).[i])) as (s & -> & Hs & Hfs & Htab' & Hcnt' & H1 & Ho).
  { apply Ht. } { apply Ht. } { rewrite (td_count _ _ _ _ _ _ Ht). lia. }
  { intros r Hr Hfr Hv. destruct (td_bwd _ _ _ _ _ _ Ht r Hr Hfr) as (j & Hj & Hfj & Hjv). assert (j = i); [|lia].
    apply (table_unique lg lg_small (_povs c) (_povOccupationFlags c)); [apply Hok|unfold in_table; lia|done|done|done|congruence]. }
  assert (ps.[s := (_povs c).[i]].[s] = (_povs c).[i]) as Hps.
  { apply aget_aset_eq. rewrite (pt_len _ _ _ (td_table _ _ _ _ _ _ Ht)). done. }
  rewrite Hps. destruct (occupied_slot zeroT lg c tr i Hok Hi Hf) as [_ Hrec].
  assert (bstRootIndex ((_povs c).[i]) = root (tr i)) as -> by (by rewrite Hrec).
  destruct (relabel_step i ps fl els np tr' s Hi Hf Ht) as (els' & -> & Hre).
  pose proof (transferred_move i ps fl els els' np tr' s Hi Hf Ht Hs Hfs Htab' Hcnt' H1 Ho Hre) as Ht'.
  destruct (Z.eqb_spec (np + pov_population ((_povs c).[i])) (_population c)) as [Hdone|Hmore].
  - eexists. split; [reflexivity|]. by apply (transferred_all (i + 1) _ _ _ _ _ ltac:(lia) Hdone Ht').
  - by exists (set_tree tr' s (tr i)).
Qed.

Lemma transferred_start : transferred 0 (replicate (Z.to_nat L) (mkPoV 0 0 0 0 0)) (flags_zero lg) els0 0 (fun _ => Leaf).
Proof.
  pose proof (cap_pos lg) as Hcap. assert (forall s, in_table lg s -> flag_of (flags_zero lg) s = 0) as H0 by (intros; by apply flags_zero_flag).
  split; try done.
  - by apply table_empty.
  - intros s Hs. by rewrite H0.
  - simpl. unfold countZ. simpl. unfold occupiedCount, countZ. apply sumZ_zero. intros j Hj. rewrite H0; [done|]. unfold in_table. lia.
  - split; try done.
    + intros. constructor.
    + intros. constructor.
    + intros p i Hp. simpl. rewrite elem_of_nil. split; [done|]. intros [(j & ? & _) _]. lia.
    + intros i (j & ? & _). lia.
  - intros s Hs. rewrite H0, aget_replicate by (done || unfold in_table in Hs; lia). done.
  - apply Hok.
  - intros j Hj. lia.
  - intros s Hs Hf. by rewrite H0 in Hf.
Qed.

(** A collection without elements *)
Lemma soft_reset_ok els : alen els = L -> forall c', _elements c' = els -> collection_ok zeroT lg (_softReset lg c') (fun _ => Leaf).
Proof.
  intros Hlen c' He. pose proof (cap_pos lg) as Hcap. split; simpl; [congruence|lia|by apply table_empty| | |unfold is_u64; lia].
  - split; try done.
    + intros. constructor.
    + intros. constructor.
    + intros p i Hp. simpl. rewrite elem_of_nil. unfold below. split; [done|lia].
    + unfold below. intros. lia.
  - intros p Hp. rewrite flags_zero_flag, aget_replicate by (done || unfold in_table in Hp; lia). done.
Qed.
Lemma empty_queues : _population c = 0 -> forall pov, queue_indices zeroT lg c pov = [].
Proof.
  intros H0 pov. apply (queue_absent zeroT lg lg_small c tr); [done|]. intros p Hp Hf _.
  destruct (occupied_slot zeroT lg c tr p Hok Hp Hf) as [Ht _]. pose proof (tree_members zeroT lg c tr p Hok Hp) as Hm.
  rewrite Forall_forall in Hm. specialize (Hm _ (root_in _ Ht)). lia.
Qed.

Lemma collection_cleanup_ok :
  exists r, cleanup zeroT lg c = Some r /\ if _markRemovalCounter c =? 0 then r = (c, false) else cleaned_up r.
Proof.
  unfold cleanup. destruct (_ =? 0); [by eexists|]. unfold population. destruct (Z.eqb_spec (_population c) 0) as [Hp0|Hp0].
  - eexists. split; [reflexivity|]. pose proof (soft_reset_ok els0 (co_len _ _ _ _ Hok) c eq_refl) as Hok'.
    split; [done|]. split; [by eexists|]. split; [|split; [done|split; [done|split; [done|]]]].
    + intros pov. rewrite (empty_queues Hp0). apply (queue_absent zeroT lg lg_small _ (fun _ => Leaf)); [done|].
      simpl. intros p Hp Hf. by rewrite flags_zero_flag in Hf.
    + simpl. intros s Hs. by rewrite flags_zero_flag.
  - set (P := fun i (st : scratch_state) => let '(ps, fl, els, np) := st in exists tr', transferred i ps fl els np tr' /\ np <> _population c).
    set (Q := fun r => exists r', r = Some r' /\ cleaned_up r').
    pose proof (for_occupied_rule lg (cleanup_move zeroT lg c) (_povOccupationFlags c) P Q (table_flags _ _ _ (co_table _ _ _ _ Hok))) as Hrule.
    specialize (Hrule ltac:(intros i [[[ps fl] els] np] Hi Hf (tr' & Ht & Hnp); exists tr'; split; [by apply transferred_skip|done])).
    specialize (Hrule ltac:(intros i [[[ps fl] els] np] Hi Hf (tr' & Ht & Hnp); by apply (cleanup_move_step i ps fl els np tr'))).
    specialize (Hrule (replicate (Z.to_nat L) (mkPoV 0 0 0 0 0), flags_zero lg, els0, 0)).
    specialize (Hrule ltac:(exists (fun _ => Leaf); split; [apply transferred_start|by apply not_eq_sym])).
    destruct (for_occupied _ _ _ _) as [r|[[[ps fl] els] np]]; [done|].
    destruct Hrule as (tr' & Ht & Hnp). destruct Hnp. rewrite (td_np _ _ _ _ _ _ Ht). apply sizes_total.
Qed.
End cleanup.
