(* ===== verification/CollectionQueries.v ===== *)
(** * QPI::Collection: queries

    The query functions in terms of the queues: ends, neighbours, sizes, and the first or last element within a priority bound. *)
From S2P Require Import Prelude OpenAddressing OccupationFlags OccupiedSlots HashMap Collection CollectionTree CollectionRebuild CollectionLinks PovTable CollectionSpec.

Section queries.
Context {T : Type} (zeroT : T).
#[local] Hint Extern 0 (Inhabited (Element T)) => exact (collection_element_inhabited zeroT) : typeclass_instances.
Variable lg : nat.
Hypothesis lg_small : (lg < 64)%nat.
Abbreviation L := (2 ^ Z.of_nat lg).
Variables (c : Collection T) (tr : Z -> tree).
Hypothesis Hok : collection_ok zeroT lg c tr.
Abbreviation indices := (queue_indices zeroT lg c).
Abbreviation pr i := (e_priority ((_elements c).[i])).

(** ** Ends and sizes *)
Lemma headIndex_spec pov : headIndex lg c pov = first_index (indices pov).
Proof.
  unfold headIndex. destruct (pov_cases zeroT lg lg_small c tr pov Hok) as [(p & Hp & -> & Hf & Hv & ->)|(-> & -> & _)]; [|done].
  destruct (occupied_slot zeroT lg c tr p Hok Hp Hf) as [_ ->]. unfold in_table in Hp. by rewrite (proj2 (Z.ltb_ge _ _)) by lia.
Qed.
Lemma tailIndex_spec pov : tailIndex lg c pov = last_index (indices pov).
Proof.
  unfold tailIndex. destruct (pov_cases zeroT lg lg_small c tr pov Hok) as [(p & Hp & -> & Hf & Hv & ->)|(-> & -> & _)]; [|done].
  destruct (occupied_slot zeroT lg c tr p Hok Hp Hf) as [_ ->]. unfold in_table in Hp. by rewrite (proj2 (Z.ltb_ge _ _)) by lia.
Qed.
Lemma population_of_spec pov : population_of lg c pov = alen (indices pov).
Proof.
  unfold population_of. destruct (pov_cases zeroT lg lg_small c tr pov Hok) as [(p & Hp & -> & Hf & Hv & ->)|(-> & -> & _)]; [|done].
  destruct (occupied_slot zeroT lg c tr p Hok Hp Hf) as [_ ->]. unfold in_table in Hp. by rewrite (proj2 (Z.ltb_ge _ _)) by lia.
Qed.

(** ** Elements *)

(** The tree of a pov with elements *)
Lemma queue_tree pov i :
  i ∈ indices pov ->
  exists p, in_table lg p /\ _povIndex lg c pov = p /\ pov_value ((_povs c).[p]) = pov /\ indices pov = inorder (tr p) /\
    (_povs c).[p] = queue_record pov (tr p) /\ tr p <> Leaf.
Proof.
  destruct (pov_cases zeroT lg lg_small c tr pov Hok) as [(p & Hp & Hi & Hf & Hv & ->)|(_ & -> & _)]; [|intros Hn; by apply elem_of_nil in Hn].
  intros _. destruct (occupied_slot zeroT lg c tr p Hok Hp Hf) as [Ht Hrec]. exists p. rewrite Hv in Hrec. done.
Qed.

Lemma member_below pov i : i ∈ indices pov -> below (_population c) i.
Proof.
  intros Hi. destruct (queue_tree pov i Hi) as (p & Hp & _ & _ & He & _). rewrite He in Hi.
  by apply (tk_member _ _ _ _ _ (co_trees _ _ _ _ Hok)) in Hi as [? _].
Qed.
Lemma member_mask pov i : i ∈ indices pov -> Z.land i (L - 1) = i.
Proof.
  intros Hi%member_below. unfold below in Hi. pose proof (co_pop _ _ _ _ Hok). rewrite land_mask by lia. apply Z.mod_small. lia.
Qed.

Lemma pov_at_spec i : below (_population c) i -> i ∈ indices (pov_at zeroT lg c i) /\ forall pov, i ∈ indices pov -> pov = pov_at zeroT lg c i.
Proof.
  intros Hi. pose proof (co_trees _ _ _ _ Hok) as Hk. pose proof (co_pop _ _ _ _ Hok) as Hpop.
  unfold pov_at. assert (Z.land i (L - 1) = i) as -> by (unfold below in Hi; rewrite land_mask by lia; apply Z.mod_small; lia).
  set (p := povIndex ((_elements c).[i])). assert (in_table lg p) as Hp by (by apply Hk).
  assert (i ∈ inorder (tr p)) as Hin by (by apply (tk_member _ _ _ _ _ Hk)). split.
  - destruct (decide (flag_of (_povOccupationFlags c) p = 1)) as [Hf|Hf].
    + by rewrite (queue_indices_slot zeroT lg lg_small c tr).
    + destruct (free_slot zeroT lg c tr p Hok Hp Hf) as [H0 _]. rewrite H0 in Hin. by apply elem_of_nil in Hin.
  - intros pov Hpov. destruct (queue_tree pov i Hpov) as (q & Hq & _ & <- & He & _). rewrite He in Hpov.
    by rewrite (trees_disjoint zeroT lg (_elements c) _ tr q p i Hk).
Qed.

Lemma queue_next_spec pov l1 i l2 : indices pov = l1 ++ i :: l2 -> nextElementIndex zeroT lg c i = Some (first_index l2).
Proof.
  intros Hin. destruct (queue_tree pov i) as (p & Hp & _ & _ & He & _); [rewrite Hin; set_solver|]. rewrite He in Hin.
  pose proof (co_trees _ _ _ _ Hok) as Hk. apply (next_spec zeroT lg c (tr p)) with (l1 := l1); try done; [by apply Hk|by apply Hk| |apply Hok].
  by apply (tree_members zeroT lg).
Qed.
Lemma queue_prev_spec pov l1 i l2 : indices pov = l1 ++ i :: l2 -> prevElementIndex zeroT lg c i = Some (last_index l1).
Proof.
  intros Hin. destruct (queue_tree pov i) as (p & Hp & _ & _ & He & _); [rewrite Hin; set_solver|]. rewrite He in Hin.
  pose proof (co_trees _ _ _ _ Hok) as Hk. apply (prev_spec zeroT lg c (tr p)) with (l2 := l2); try done; [by apply Hk|by apply Hk| |apply Hok].
  by apply (tree_members zeroT lg).
Qed.

(** ** Priority bounds *)
Lemma indices_sorted pov : queue_sorted zeroT (_elements c) (indices pov).
Proof.
  destruct (pov_cases zeroT lg lg_small c tr pov Hok) as [(p & Hp & _ & _ & _ & ->)|(_ & -> & _)]; [|constructor].
  by apply (co_trees _ _ _ _ Hok).
Qed.
Lemma indices_length pov : (length (indices pov) <= Z.to_nat L)%nat.
Proof.
  destruct (pov_cases zeroT lg lg_small c tr pov Hok) as [(p & Hp & _ & _ & _ & ->)|(_ & -> & _)]; [|simpl; lia].
  by apply (tree_small zeroT lg c tr).
Qed.

Section bound.
Variables (pov b : Z).
Abbreviation small := (filter (fun i => pr i <= b)).
Abbreviation big := (filter (fun i => b <= pr i)).

Lemma forward_to_spec n l1 i l2 :
  indices pov = l1 ++ i :: l2 -> small l2 <> [] -> (length l2 <= n)%nat -> forward_to zeroT lg n c b i = Some (first_index (small l2)).
Proof.
  revert l1 i n. induction l2 as [|j l2 IH]; intros l1 i n Hin Hs Hn; [done|]. destruct n as [|n]; [simpl in Hn; lia|].
  cbn [forward_to]. rewrite (queue_next_spec pov l1 i (j :: l2) Hin : _nextElementIndex _ _ _ _ = _). cbn [mbind option_bind].
  change (first_index (j :: l2)) with j. rewrite filter_cons in Hs |- *. destruct (Z.leb_spec (pr j) b).
  - by rewrite decide_True.
  - rewrite decide_False in Hs |- * by lia. apply (IH (l1 ++ [i])); [by rewrite Hin, <- app_assoc|done|simpl in Hn; lia].
Qed.

Lemma forward_from_spec n l1 i l2 :
  indices pov = l1 ++ i :: l2 -> b <= pr i -> (length l2 < n)%nat -> forward_from zeroT lg n c b i = Some (last_index (big (i :: l2))).
Proof.
  revert l1 i n. induction l2 as [|j l2 IH]; intros l1 i n Hin Hi Hn; (destruct n as [|n]; [simpl in Hn; lia|]); cbn [forward_from].
  - rewrite (queue_next_spec pov l1 i [] Hin : _nextElementIndex _ _ _ _ = _). cbn [mbind option_bind]. simpl.
    rewrite filter_cons_True by done. done.
  - rewrite (queue_next_spec pov l1 i (j :: l2) Hin : _nextElementIndex _ _ _ _ = _). cbn [mbind option_bind].
    change (first_index (j :: l2)) with j.
    assert (j ∈ indices pov) as Hj by (rewrite Hin; set_solver). apply member_below in Hj. unfold below in Hj.
    rewrite (proj2 (Z.eqb_neq j NULL_INDEX)) by (unfold NULL_INDEX; lia). cbn [orb].
    rewrite filter_cons_True by done. destruct (Z.ltb_spec (pr j) b).
    + pose proof (indices_sorted pov) as Hs. rewrite Hin in Hs. apply queue_sorted_app in Hs as (_ & Hs & _).
      apply StronglySorted_inv in Hs as [Hs _]. apply StronglySorted_inv in Hs as [_ Hs].
      assert (big (j :: l2) = []) as ->; [|done]. rewrite filter_cons_False by lia.
      destruct (big l2) as [|x l] eqn:He; [done|]. assert (x ∈ big l2) as Hx by (rewrite He; left).
      apply list_elem_of_filter in Hx as [Hx1 Hx2]. rewrite Forall_forall in Hs. specialize (Hs x Hx2). unfold prio in Hs. lia.
    + rewrite (IH (l1 ++ [i]) j n); [|by rewrite Hin, <- app_assoc|done|simpl in Hn; lia].
      rewrite (filter_cons_True _ j) by done. done.
Qed.

Lemma filter_none (P : Z -> Prop) `{!forall x, Decision (P x)} (l : list Z) : Forall (fun i => ~ P i) l -> filter P l = [].
Proof. induction 1 as [|i l Hi _ IH]; [done|]. by rewrite filter_cons_False. Qed.

Lemma filter_every (P : Z -> Prop) `{!forall x, Decision (P x)} (l : list Z) : Forall P l -> filter P l = l.
Proof. induction 1 as [|i l Hi _ IH]; [done|]. by rewrite filter_cons_True, IH. Qed.

(** The elements in front of one above the bound are above the bound. *)
Lemma prefix_above k j l : indices pov = (k ++ [j]) ++ l -> b < pr j -> small (k ++ [j]) = [].
Proof.
  intros Hin Hj. pose proof (indices_sorted pov) as Hs. rewrite Hin in Hs. apply queue_sorted_app in Hs as (Hs & _).
  apply queue_sorted_mid in Hs as (_ & _ & Hs & _). apply filter_none. apply Forall_app_2; [|constructor; [lia|done]].
  eapply Forall_impl; [exact Hs|]. simpl. unfold prio. lia.
Qed.

Lemma backward_from_spec n l1 i l2 :
  indices pov = l1 ++ i :: l2 -> pr i <= b -> (length l1 < n)%nat ->
  backward_from zeroT lg n c b i = Some (first_index (small (l1 ++ [i]))).
Proof.
  revert i l2 n. induction l1 as [|j k IH] using rev_ind; intros i l2 n Hin Hi Hn; (destruct n as [|n]; [lia|]); cbn [backward_from].
  - rewrite (queue_prev_spec pov [] i l2 Hin : _previousElementIndex _ _ _ _ = _). cbn [mbind option_bind]. simpl.
    rewrite filter_cons_True by done. done.
  - rewrite (queue_prev_spec pov (k ++ [j]) i l2 Hin : _previousElementIndex _ _ _ _ = _). cbn [mbind option_bind].
    rewrite last_index_snoc. assert (j ∈ indices pov) as Hj by (rewrite Hin; set_solver). apply member_below in Hj. unfold below in Hj.
    rewrite (proj2 (Z.eqb_neq j NULL_INDEX)) by (unfold NULL_INDEX; lia). cbn [orb]. rewrite filter_app.
    destruct (Z.ltb_spec b (pr j)).
    + rewrite (prefix_above k j (i :: l2)) by done. simpl. rewrite filter_cons_True by done. done.
    + rewrite (IH j (i :: l2)); [|by rewrite Hin, <- app_assoc|done|rewrite length_app in Hn; simpl in Hn; lia].
      rewrite first_index_app; [done|]. rewrite filter_app, filter_cons_True by done. by destruct (small k).
Qed.

Lemma backward_to_spec n l1 i l2 :
  indices pov = l1 ++ i :: l2 -> big l1 <> [] -> (length l1 <= n)%nat -> backward_to zeroT lg n c b i = Some (last_index (big l1)).
Proof.
  revert i l2 n. induction l1 as [|j k IH] using rev_ind; intros i l2 n Hin Hs Hn; [done|].
  rewrite length_app in Hn. simpl in Hn. destruct n as [|n]; [lia|]. cbn [backward_to].
  rewrite (queue_prev_spec pov (k ++ [j]) i l2 Hin : _previousElementIndex _ _ _ _ = _). cbn [mbind option_bind]. rewrite last_index_snoc.
  rewrite filter_app in Hs |- *. destruct (Z.leb_spec b (pr j)).
  - rewrite (filter_cons_True _ j) by done. by rewrite last_index_snoc.
  - rewrite (filter_cons_False _ j) in Hs |- * by lia. rewrite filter_nil, app_nil_r in Hs |- *.
    apply (IH j (i :: l2)); [by rewrite Hin, <- app_assoc|done|lia].
Qed.

(** The search ends at an element of the queue. *)
Lemma search_member p :
  in_table lg p -> tr p <> Leaf ->
  exists i cnt l1 l2, _searchElement zeroT lg (_elements c) (root (tr p)) b = Some (i, cnt) /\ inorder (tr p) = l1 ++ i :: l2.
Proof.
  intros Hp Ht. pose proof (co_trees _ _ _ _ Hok) as Hk. unfold _searchElement.
  destruct (search_spec zeroT (S (Z.to_nat L)) (_elements c) NULL_INDEX (tr p) b 0) as (i & cnt & Hs & (cx & l & r & He & _));
    [done|by apply Hk|by apply Hk|pose proof (tree_small zeroT lg c tr p Hok Hp); lia|].
  exists i, cnt, (before cx ++ inorder l), (inorder r ++ after cx). split; [done|]. rewrite He, inorder_plug.
  by repeat (simpl; rewrite <- ?app_assoc).
Qed.

(** First and last element decide whether all elements are within the bound. *)
Lemma all_or_none (l : list Z) :
  queue_sorted zeroT (_elements c) l -> l <> [] ->
  (pr (first_index l) <= b -> small l = l) /\ (b < pr (last_index l) -> small l = []) /\
  (pr (first_index l) < b -> big l = []) /\ (b <= pr (last_index l) -> big l = l) /\
  (pr (last_index l) <= b -> small l <> []) /\ (b <= pr (first_index l) -> big l <> []).
Proof.
  intros Hs Hl. destruct l as [|x l0] eqn:El; [done|]. rewrite <- El in *.
  assert (first_index l = x) as -> by (by rewrite El). assert (Forall (fun j => pr j <= pr x) l) as Hx.
  { rewrite El in *. apply StronglySorted_inv in Hs as [_ Hs]. by constructor. }
  destruct (exists_last Hl) as (k & y & Ey). assert (last_index l = y) as -> by (by rewrite Ey, last_index_snoc).
  assert (Forall (fun j => pr y <= pr j) l) as Hy.
  { rewrite Ey in *. apply queue_sorted_mid in Hs as (_ & _ & Hs & _). apply Forall_app_2; [done|by constructor]. }
  split; [|split; [|split; [|split; [|split]]]]; intros Hb.
  - apply filter_every. eapply Forall_impl; [exact Hx|]. simpl. lia.
  - apply filter_none. eapply Forall_impl; [exact Hy|]. simpl. lia.
  - apply filter_none. eapply Forall_impl; [exact Hx|]. simpl. lia.
  - apply filter_every. eapply Forall_impl; [exact Hy|]. simpl. lia.
  - rewrite Ey, filter_app, filter_cons_True by done. by destruct (small k).
  - rewrite El, filter_cons_True by done. done.
Qed.

Lemma headIndex_max_spec : headIndex_max zeroT lg c pov b = Some (first_index (small (indices pov))).
Proof.
  unfold headIndex_max. destruct (pov_cases zeroT lg lg_small c tr pov Hok) as [(p & Hp & -> & Hf & Hv & Hin)|(-> & -> & _)]; [|done].
  unfold in_table in Hp. rewrite (proj2 (Z.ltb_ge _ _)) by lia. destruct (occupied_slot zeroT lg c tr p Hok Hp Hf) as [Ht Hrec].
  unfold _headIndex. rewrite Hrec. cbn [queue_record pov_headIndex pov_tailIndex bstRootIndex].
  pose proof (indices_sorted pov) as Hs. pose proof (indices_length pov) as Hlen.
  assert (indices pov <> []) as Hne by (rewrite Hin; by rewrite inorder_nil).
  destruct (all_or_none (indices pov) Hs Hne) as (Hfirst & Hlast & _ & _ & Hsome & _). rewrite <- Hin.
  destruct (Z.leb_spec (pr (first_index (indices pov))) b) as [|Hfb]; [by rewrite Hfirst|].
  destruct (Z.ltb_spec b (pr (last_index (indices pov)))) as [|Hlb]; [by rewrite Hlast|].
  destruct (search_member p Hp Ht) as (i & cnt & l1 & l2 & -> & Hi). cbn [mbind option_bind]. rewrite <- Hin in Hi.
  specialize (Hsome Hlb). rewrite Hi, length_app in Hlen. simpl in Hlen. destruct (Z.ltb_spec b (pr i)).
  - assert (small (l1 ++ [i]) = []) as Hpre by (by apply (prefix_above l1 i l2); [rewrite Hi, <- app_assoc|]).
    rewrite Hi in Hsome |- *. rewrite (cons_middle i l1 l2), app_assoc, filter_app, Hpre in Hsome |- *.
    rewrite (forward_to_spec _ l1 i l2); [done|done|done|lia].
  - rewrite (backward_from_spec _ l1 i l2), Hi by (done || lia). f_equal. rewrite (cons_middle i l1 l2), app_assoc, (filter_app _ (l1 ++ [i]) l2).
    symmetry. apply first_index_app. rewrite filter_app, filter_cons_True by done. by destruct (small l1).
Qed.

Lemma tailIndex_min_spec : tailIndex_min zeroT lg c pov b = Some (last_index (big (indices pov))).
Proof.
  unfold tailIndex_min. destruct (pov_cases zeroT lg lg_small c tr pov Hok) as [(p & Hp & -> & Hf & Hv & Hin)|(-> & -> & _)]; [|done].
  unfold in_table in Hp. rewrite (proj2 (Z.ltb_ge _ _)) by lia. destruct (occupied_slot zeroT lg c tr p Hok Hp Hf) as [Ht Hrec].
  unfold _tailIndex. rewrite Hrec. cbn [queue_record pov_headIndex pov_tailIndex bstRootIndex].
  pose proof (indices_sorted pov) as Hs. pose proof (indices_length pov) as Hlen.
  assert (indices pov <> []) as Hne by (rewrite Hin; by rewrite inorder_nil).
  destruct (all_or_none (indices pov) Hs Hne) as (_ & _ & Hfirst & Hlast & _ & Hsome). rewrite <- Hin.
  destruct (Z.ltb_spec (pr (first_index (indices pov))) b) as [|Hfb]; [by rewrite Hfirst|].
  destruct (Z.leb_spec b (pr (last_index (indices pov)))) as [|Hlb]; [by rewrite Hlast|].
  destruct (search_member p Hp Ht) as (i & cnt & l1 & l2 & -> & Hi). cbn [mbind option_bind]. rewrite <- Hin in Hi.
  specialize (Hsome Hfb). rewrite Hi, length_app in Hlen. simpl in Hlen. destruct (Z.leb_spec b (pr i)).
  - rewrite (forward_from_spec _ l1 i l2), Hi by (done || lia). f_equal. rewrite filter_app, last_index_app; [done|].
    by rewrite filter_cons_True.
  - assert (big (i :: l2) = []) as Hpost.
    { apply filter_none. rewrite Hi in Hs. apply queue_sorted_app in Hs as (_ & Hs & _). apply StronglySorted_inv in Hs as [_ Hs].
      constructor; [lia|]. eapply Forall_impl; [exact Hs|]. simpl. unfold prio. lia. }
    rewrite Hi in Hsome |- *. rewrite filter_app, Hpost, app_nil_r in Hsome |- *. rewrite (backward_to_spec _ l1 i l2); [done|done|done|lia].
Qed.
End bound.
End queries.
