(* ===== verification/CollectionQueues.v ===== *)
(** * QPI::Collection implements priority queues

    The abstract collection maps each pov to a list of priorities and values, highest priority first and first come, first served
    among equals.  Clients see elements through indices, which calls may change; here they name an element by its pov and
    its position in the queue, and find the index by walking from the head.  Every sequence of calls returns what the abstract
    collection returns. *)
From S2P Require Import Prelude OpenAddressing OccupationFlags OccupiedSlots HashMap Collection CollectionTree CollectionRebuild CollectionLinks PovTable CollectionSpec CollectionAdd CollectionRemove CollectionCleanup CollectionQueries.

(** ** Abstract queues *)
Section spec.
Context {T : Type}.
Variable L : Z.

(** Behind all elements of at least the priority. *)
Fixpoint enqueue (x : Z * T) (q : list (Z * T)) : list (Z * T) :=
  match q with
  | [] => [x]
  | y :: q => if x.1 <=? y.1 then y :: enqueue x q else x :: y :: q
  end.

Record queues := mkQueues { q_of : Z -> list (Z * T); q_count : Z }.
Definition set_queue (g : queues) (pov : Z) (q : list (Z * T)) (n : Z) : queues :=
  mkQueues (fun pov' => if pov' =? pov then q else q_of g pov') n.

Inductive co_op :=
  | Op_add (pov : Z) (v : T) (pri : Z) | Op_remove (pov : Z) (k : nat) | Op_replace (pov : Z) (k : nat) (v : T)
  | Op_list (pov : Z) | Op_list_back (pov : Z) | Op_pov (pov : Z) (k : nat) | Op_head (pov maxPriority : Z) | Op_tail (pov minPriority : Z)
  | Op_population | Op_population_of (pov : Z) | Op_cleanup | Op_cleanupIfNeeded (percent : Z) | Op_reset.
Inductive co_obs :=
  | Obs_bool (b : bool) | Obs_item (x : option (Z * T)) | Obs_items (q : list (Z * T)) | Obs_num (n : Z).

(** [remove] reports the element that follows; an element knows its pov; cleanup is invisible. *)
Definition co_spec (o : co_op) (g : queues) : queues * co_obs :=
  match o with
  | Op_add pov v pri =>
      if q_count g <? L then (set_queue g pov (enqueue (pri, v) (q_of g pov)) (q_count g + 1), Obs_bool true) else (g, Obs_bool false)
  | Op_remove pov k =>
      match q_of g pov !! k with
      | Some _ => let q := delete k (q_of g pov) in (set_queue g pov q (q_count g - 1), Obs_item (q !! k))
      | None => (g, Obs_item None)
      end
  | Op_replace pov k v =>
      match q_of g pov !! k with
      | Some x => (set_queue g pov (<[k := (x.1, v)]> (q_of g pov)) (q_count g), Obs_bool true)
      | None => (g, Obs_bool false)
      end
  | Op_list pov => (g, Obs_items (q_of g pov))
  | Op_list_back pov => (g, Obs_items (reverse (q_of g pov)))
  | Op_pov pov k => (g, match q_of g pov !! k with Some _ => Obs_num pov | None => Obs_bool false end)
  | Op_head pov m => (g, Obs_item (head (filter (fun x => x.1 <= m) (q_of g pov))))
  | Op_tail pov m => (g, Obs_item (last (filter (fun x => m <= x.1) (q_of g pov))))
  | Op_population => (g, Obs_num (q_count g))
  | Op_population_of pov => (g, Obs_num (alen (q_of g pov)))
  | Op_cleanup | Op_cleanupIfNeeded _ => (g, Obs_bool false)
  | Op_reset => (mkQueues (fun _ => []) 0, Obs_bool true)
  end.

Fixpoint spec_run (ops : list co_op) (g : queues) : queues * list co_obs :=
  match ops with
  | [] => (g, [])
  | o :: ops => let '(g', obs) := co_spec o g in let '(g'', l) := spec_run ops g' in (g'', obs :: l)
  end.
End spec.
Arguments queues _ : clear implicits.
Arguments co_op _ : clear implicits.
Arguments co_obs _ : clear implicits.

(** ** The calls of the collection *)
Section exec.
Context {T : Type} (zeroT : T).
#[local] Hint Extern 0 (Inhabited (Element T)) => exact (collection_element_inhabited zeroT) : typeclass_instances.
Variables (lg : nat) (scratch : bool).
Abbreviation L := (2 ^ Z.of_nat lg).
Implicit Types c : Collection T.

Definition item_at c (i : Z) : option (Z * T) := if i =? NULL_INDEX then None else Some (priority zeroT lg c i, element zeroT lg c i).

(** [k] times [nextElementIndex] *)
Fixpoint walk_next (k : nat) c (i : Z) : option Z :=
  match k with
  | O => Some i
  | S k => if i =? NULL_INDEX then Some NULL_INDEX else j ← nextElementIndex zeroT lg c i; walk_next k c j
  end.
(** The elements from [i] on *)
Fixpoint walk_items (n : nat) c (i : Z) : option (list (Z * T)) :=
  match n with
  | O => None
  | S n =>
      match item_at c i with
      | None => Some []
      | Some x => j ← nextElementIndex zeroT lg c i; l ← walk_items n c j; Some (x :: l)
      end
  end.
(** The elements from [i] back *)
Fixpoint walk_back (n : nat) c (i : Z) : option (list (Z * T)) :=
  match n with
  | O => None
  | S n =>
      match item_at c i with
      | None => Some []
      | Some x => j ← prevElementIndex zeroT lg c i; l ← walk_back n c j; Some (x :: l)
      end
  end.

Definition co_exec (o : co_op T) c : option (Collection T * co_obs T) :=
  match o with
  | Op_add pov v pri => '(c', i) ← add zeroT lg scratch c pov v pri; Some (c', Obs_bool (negb (i =? NULL_INDEX)))
  | Op_remove pov k =>
      i ← walk_next k c (headIndex lg c pov);
      if i =? NULL_INDEX then Some (c, Obs_item None)
      else '(c', next) ← remove zeroT lg c i; Some (c', Obs_item (item_at c' next))
  | Op_replace pov k v =>
      i ← walk_next k c (headIndex lg c pov);
      if i =? NULL_INDEX then Some (c, Obs_bool false) else Some (replace zeroT c i v, Obs_bool true)
  | Op_list pov => l ← walk_items (S (Z.to_nat L)) c (headIndex lg c pov); Some (c, Obs_items l)
  | Op_list_back pov => l ← walk_back (S (Z.to_nat L)) c (tailIndex lg c pov); Some (c, Obs_items l)
  | Op_pov pov k =>
      i ← walk_next k c (headIndex lg c pov);
      Some (c, if i =? NULL_INDEX then Obs_bool false else Obs_num (pov_at zeroT lg c i))
  | Op_head pov m => i ← headIndex_max zeroT lg c pov m; Some (c, Obs_item (item_at c i))
  | Op_tail pov m => i ← tailIndex_min zeroT lg c pov m; Some (c, Obs_item (item_at c i))
  | Op_population => Some (c, Obs_num (population c))
  | Op_population_of pov => Some (c, Obs_num (population_of lg c pov))
  | Op_cleanup => '(c', bug) ← cleanup zeroT lg c; Some (c', Obs_bool bug)
  | Op_cleanupIfNeeded p => '(c', bug) ← cleanupIfNeeded zeroT lg c p; Some (c', Obs_bool bug)
  | Op_reset => Some (reset zeroT lg, Obs_bool true)
  end.

Fixpoint exec_run (ops : list (co_op T)) c : option (Collection T * list (co_obs T)) :=
  match ops with
  | [] => Some (c, [])
  | o :: ops => '(c', obs) ← co_exec o c; '(c'', l) ← exec_run ops c'; Some (c'', obs :: l)
  end.
End exec.

(** ** Each call refines its specification *)
Section refinement.
Context {T : Type} (zeroT : T).
#[local] Hint Extern 0 (Inhabited (Element T)) => exact (collection_element_inhabited zeroT) : typeclass_instances.
Variables (lg : nat) (scratch : bool).
Hypothesis lg_small : (lg < 64)%nat.
Abbreviation L := (2 ^ Z.of_nat lg).
Implicit Types (c : Collection T) (g : queues T).
Abbreviation contents := (contents zeroT).

(** The representation invariant *)
Definition collection_inv c : Prop := exists tr, collection_ok zeroT lg c tr.

Definition represents c g : Prop := collection_inv c /\ (forall pov, queue zeroT lg c pov = q_of g pov) /\ _population c = q_count g.

(** *** Reading *)
Lemma item_at_member c tr pov i : collection_ok zeroT lg c tr -> i ∈ queue_indices zeroT lg c pov -> item_at zeroT lg c i = Some (content ((_elements c).[i])).
Proof.
  intros Hok Hi. pose proof (member_below zeroT lg lg_small c tr Hok pov i Hi) as Hb. unfold below in Hb.
  unfold item_at, priority, element. rewrite (member_mask zeroT lg lg_small c tr Hok pov i Hi).
  by rewrite (proj2 (Z.eqb_neq _ _)) by (unfold NULL_INDEX; lia).
Qed.
Lemma item_at_first c tr pov l :
  collection_ok zeroT lg c tr -> (forall i, i ∈ l -> i ∈ queue_indices zeroT lg c pov) -> item_at zeroT lg c (first_index l) = head (contents (_elements c) l).
Proof.
  intros Hok Hl. destruct l as [|i l]; [done|]. change (first_index (i :: l)) with i. apply (item_at_member c tr pov i Hok). apply Hl. left.
Qed.
Lemma item_at_last c tr pov l :
  collection_ok zeroT lg c tr -> (forall i, i ∈ l -> i ∈ queue_indices zeroT lg c pov) -> item_at zeroT lg c (last_index l) = last (contents (_elements c) l).
Proof.
  intros Hok Hl. destruct l as [|i l _] using rev_ind; [done|]. rewrite last_index_snoc. unfold CollectionSpec.contents. rewrite fmap_app. simpl.
  rewrite last_snoc. apply (item_at_member c tr pov i Hok). apply Hl. set_solver.
Qed.

Lemma filter_contents (P : Z * T -> Prop) `{!forall x, Decision (P x)} els l :
  filter P (contents els l) = contents els (filter (fun i => P (content (els.[i]))) l).
Proof.
  unfold CollectionSpec.contents. induction l as [|i l IH]; [done|]. rewrite fmap_cons, !filter_cons. case_decide; [|done]. by rewrite fmap_cons, IH.
Qed.

Lemma walk_next_spec c tr pov k l1 l2 :
  collection_ok zeroT lg c tr -> queue_indices zeroT lg c pov = l1 ++ l2 -> walk_next zeroT lg k c (first_index l2) = Some (first_index (drop k l2)).
Proof.
  intros Hok. revert l1 l2. induction k as [|k IH]; intros l1 l2 Hin; [done|]. destruct l2 as [|i l2]; [done|].
  change (first_index (i :: l2)) with i. cbn [walk_next drop].
  assert (i ∈ queue_indices zeroT lg c pov) as Hi by (rewrite Hin; set_solver).
  pose proof (member_below zeroT lg lg_small c tr Hok pov i Hi) as Hb. unfold below in Hb.
  rewrite (proj2 (Z.eqb_neq _ _)) by (unfold NULL_INDEX; lia).
  rewrite (queue_next_spec zeroT lg lg_small c tr Hok pov l1 i l2 Hin). cbn [mbind option_bind].
  apply (IH (l1 ++ [i])). by rewrite Hin, <- app_assoc.
Qed.

Lemma walk_items_spec c tr pov n l1 l2 :
  collection_ok zeroT lg c tr -> queue_indices zeroT lg c pov = l1 ++ l2 -> (length l2 < n)%nat ->
  walk_items zeroT lg n c (first_index l2) = Some (contents (_elements c) l2).
Proof.
  intros Hok. revert n l1. induction l2 as [|i l2 IH]; intros n l1 Hin Hn; (destruct n as [|n]; [simpl in Hn; lia|]); [done|].
  change (first_index (i :: l2)) with i. cbn [walk_items].
  assert (i ∈ queue_indices zeroT lg c pov) as Hi by (rewrite Hin; set_solver).
  rewrite (item_at_member c tr pov i Hok Hi), (queue_next_spec zeroT lg lg_small c tr Hok pov l1 i l2 Hin). cbn [mbind option_bind].
  rewrite (IH n (l1 ++ [i])); [done|by rewrite Hin, <- app_assoc|simpl in Hn; lia].
Qed.

Lemma walk_back_spec c tr pov n l1 l2 :
  collection_ok zeroT lg c tr -> queue_indices zeroT lg c pov = l1 ++ l2 -> (length l1 < n)%nat ->
  walk_back zeroT lg n c (last_index l1) = Some (reverse (contents (_elements c) l1)).
Proof.
  intros Hok. revert n l2. induction l1 as [|i l1 IH] using rev_ind; intros n l2 Hin Hn; (destruct n as [|n]; [lia|]); [done|].
  rewrite last_index_snoc. cbn [walk_back]. rewrite <- app_assoc in Hin. simpl in Hin.
  assert (i ∈ queue_indices zeroT lg c pov) as Hi by (rewrite Hin; set_solver).
  rewrite (item_at_member c tr pov i Hok Hi), (queue_prev_spec zeroT lg lg_small c tr Hok pov l1 i l2 Hin). cbn [mbind option_bind].
  rewrite (IH n (i :: l2)); [|done|rewrite length_app in Hn; simpl in Hn; lia].
  unfold CollectionSpec.contents. by rewrite fmap_app, reverse_app.
Qed.

(** The index at a position of a queue *)
Lemma walk_to_position c tr pov k :
  collection_ok zeroT lg c tr ->
  exists i, walk_next zeroT lg k c (headIndex lg c pov) = Some i /\
    match queue_indices zeroT lg c pov !! k with
    | Some j => i = j /\ below (_population c) i /\ queue_indices zeroT lg c pov = take k (queue_indices zeroT lg c pov) ++ i :: drop (S k) (queue_indices zeroT lg c pov)
    | None => i = NULL_INDEX
    end.
Proof.
  intros Hok. rewrite (headIndex_spec zeroT lg lg_small c tr Hok). set (l := queue_indices zeroT lg c pov).
  exists (first_index (drop k l)). split; [by apply (walk_next_spec c tr pov k [])|].
  destruct (l !! k) as [j|] eqn:Hk.
  - pose proof (take_drop_middle l k j Hk) as Hmid. rewrite (drop_S l j k Hk). change (first_index (j :: drop (S k) l)) with j.
    split; [done|]. split; [|done]. apply (member_below zeroT lg lg_small c tr Hok pov). by eapply list_elem_of_lookup_2.
  - apply lookup_ge_None in Hk. by rewrite drop_ge.
Qed.

(** *** Writing *)
Lemma enqueue_spec els hi lo pri v :
  Forall (fun i => pri <= prio zeroT els i) hi -> Forall (fun i => prio zeroT els i < pri) lo ->
  enqueue (pri, v) (contents els (hi ++ lo)) = contents els hi ++ (pri, v) :: contents els lo.
Proof.
  intros Hhi Hlo. induction Hhi as [|i hi Hi _ IH].
  - destruct Hlo as [|j lo Hj Hlo]; [done|]. simpl. unfold prio in Hj. by rewrite (proj2 (Z.leb_gt _ _)).
  - change (contents els ((i :: hi) ++ lo)) with (content (els.[i]) :: contents els (hi ++ lo)). cbn [enqueue].
    unfold prio in Hi. rewrite (proj2 (Z.leb_le _ _)) by done. by rewrite IH.
Qed.

Lemma added_queue c tr c' pov pri v :
  collection_ok zeroT lg c tr -> added zeroT lg c c' pov pri v -> queue zeroT lg c' pov = enqueue (pri, v) (queue zeroT lg c pov).
Proof.
  intros Hok ((hi & lo & Hold & Hnew & Hhi & Hlo) & _ & Hsame & Hk & _). unfold queue. rewrite Hold, Hnew, enqueue_spec by done.
  unfold CollectionSpec.contents. rewrite fmap_app, fmap_cons, Hk.
  assert (forall i, i ∈ hi ++ lo -> content ((_elements c').[i]) = content ((_elements c).[i])) as Hc.
  { intros i Hi. apply Hsame. rewrite <- Hold in Hi. apply (member_below zeroT lg lg_small c tr Hok) in Hi. unfold below in Hi. lia. }
  f_equal; [|f_equal]; apply contents_ext; intros i Hi; apply Hc; set_solver.
Qed.

Lemma added_other c tr c' pov pri v pov' :
  collection_ok zeroT lg c tr -> added zeroT lg c c' pov pri v -> pov' <> pov -> queue zeroT lg c' pov' = queue zeroT lg c pov'.
Proof.
  intros Hok (_ & Hother & Hsame & _) Hne. unfold queue. rewrite Hother by done. apply contents_ext. intros i Hi. apply Hsame.
  apply (member_below zeroT lg lg_small c tr Hok) in Hi. unfold below in Hi. lia.
Qed.

Lemma delete_contents els l1 e l2 : delete (length l1) (contents els (l1 ++ e :: l2)) = contents els (l1 ++ l2).
Proof.
  unfold CollectionSpec.contents. rewrite !fmap_app, fmap_cons. rewrite <- (length_fmap (fun i => content (els.[i])) l1). apply delete_middle.
Qed.

Lemma collection_replace_ok c tr i v :
  collection_ok zeroT lg c tr -> below (_population c) i -> collection_ok zeroT lg (replace zeroT c i v) tr /\
  (forall pov, queue_indices zeroT lg (replace zeroT c i v) pov = queue_indices zeroT lg c pov) /\
  (forall j, content ((_elements (replace zeroT c i v)).[j]) = if decide (j = i) then (e_priority ((_elements c).[i]), v) else content ((_elements c).[j])) /\
  _population (replace zeroT c i v) = _population c.
Proof.
  intros Hok Hi. unfold below in Hi. pose proof (co_pop _ _ _ _ Hok) as Hpop. pose proof (L_u64 lg lg_small) as HL.
  unfold replace. rewrite u64_small by (unfold is_u64; lia). rewrite (proj2 (Z.ltb_lt _ _)) by lia.
  set (c' := with_elements _ c). pose proof (co_len _ _ _ _ Hok) as Hlen. pose proof (co_trees _ _ _ _ Hok) as Hk.
  assert (forall {A} (f : Element T -> A) j, (forall e, f (set_value v e) = f e) -> f ((_elements c').[j]) = f ((_elements c).[j])) as Hf.
  { intros A f j Hf. by apply upd_field. }
  assert (collection_ok zeroT lg c' tr) as Hok'.
  { split; simpl; [by rewrite alen_upd|done|apply Hok| |apply Hok|apply Hok]. split.
    - intros p Hp. apply (rep_ext zeroT (_elements c)); [apply alen_upd| |by apply Hk]. intros j _. by apply (Hf _ links).
    - by apply Hk.
    - intros p Hp. pose proof (tk_sorted _ _ _ _ _ Hk p Hp) as Hs. unfold queue_sorted in *.
      assert (forall j, prio zeroT (_elements c') j = prio zeroT (_elements c) j) as Hpr by (intros j; by apply (Hf _ e_priority)).
      clear -Hs Hpr. induction Hs as [|a l Hs IH Ha]; constructor; [done|]. eapply Forall_impl; [exact Ha|]. intros j Hj.
      change (prio zeroT (_elements c') j <= prio zeroT (_elements c') a). by rewrite !Hpr.
    - intros p j Hp. rewrite (tk_member _ _ _ _ _ Hk) by done. by rewrite (Hf _ povIndex) by done.
    - intros j Hj. rewrite (Hf _ povIndex) by done. by apply Hk. }
  split; [done|]. split; [|split; [|done]].
  - intros pov. rewrite <- (list_fmap_id (queue_indices zeroT lg c pov)).
    apply (queue_indices_transfer zeroT lg lg_small c c' tr tr id); [done|done|..]; simpl; intros p Hp Hfp Hv; exists p; by rewrite ?list_fmap_id.
  - intros j. simpl. rewrite aget_upd by lia. case_decide as Hij; [subst j; by rewrite decide_True|].
    rewrite decide_False by congruence. done.
Qed.

Lemma replaced_queue c tr i v pov l1 l2 :
  collection_ok zeroT lg c tr -> queue_indices zeroT lg c pov = l1 ++ i :: l2 ->
  queue zeroT lg (replace zeroT c i v) pov = <[length l1 := (e_priority ((_elements c).[i]), v)]> (queue zeroT lg c pov) /\
  forall pov', pov' <> pov -> queue zeroT lg (replace zeroT c i v) pov' = queue zeroT lg c pov'.
Proof.
  intros Hok Hin. assert (i ∈ queue_indices zeroT lg c pov) as Hi by (rewrite Hin; set_solver).
  pose proof (member_below zeroT lg lg_small c tr Hok pov i Hi) as Hb.
  destruct (collection_replace_ok c tr i v Hok Hb) as (_ & Hq & Hc & _). unfold queue. rewrite Hq.
  assert (forall l, i ∉ l -> contents (_elements (replace zeroT c i v)) l = contents (_elements c) l) as Hsame.
  { intros l Hl. apply contents_ext. intros j Hj. rewrite Hc, decide_False; [done|]. by intros ->. }
  split.
  - rewrite Hin. assert (NoDup (l1 ++ i :: l2)) as Hnd.
    { rewrite <- Hin. destruct (queue_tree zeroT lg lg_small c tr Hok pov i Hi) as (p & Hp & _ & _ & -> & _).
      by apply (tk_nodup _ _ _ _ _ (co_trees _ _ _ _ Hok)). }
    apply NoDup_app in Hnd as (_ & Hd & [Hi2 _]%NoDup_cons).
    assert (i ∉ l1) as Hi1 by (intros H1; apply (Hd i H1); left).
    rewrite <- (length_fmap (fun i => content ((_elements c).[i])) l1).
    pose proof (Hsame l1 Hi1) as E1. pose proof (Hsame l2 Hi2) as E2. unfold CollectionSpec.contents in *.
    rewrite !fmap_app, !fmap_cons, E1, E2, Hc, decide_True by done. by rewrite insert_app_r_alt, Nat.sub_diag.
  - intros pov' Hne. rewrite Hq. apply Hsame. intros Hi'.
    destruct (pov_at_spec zeroT lg lg_small c tr Hok i Hb) as [_ Hu]. apply Hne. by rewrite (Hu pov'), (Hu pov).
Qed.

(** *** The step lemma *)
Definition step_ok c g (o : co_op T) : Prop :=
  exists c' obs, co_exec zeroT lg scratch o c = Some (c', obs) /\ (co_spec L o g).2 = obs /\ represents c' (co_spec L o g).1.

Lemma represents_update c c' g pov q n :
  (forall pov', queue zeroT lg c pov' = q_of g pov') -> collection_inv c' -> queue zeroT lg c' pov = q ->
  (forall pov', pov' <> pov -> queue zeroT lg c' pov' = queue zeroT lg c pov') -> _population c' = n -> represents c' (set_queue g pov q n).
Proof.
  intros Hg Hinv Hq Ho Hn. split; [done|]. split; [|done]. intros pov'. simpl. destruct (Z.eqb_spec pov' pov) as [->|]; [done|].
  by rewrite Ho.
Qed.

Lemma queue_lookup c pov k : queue zeroT lg c pov !! k = (fun i => content ((_elements c).[i])) <$> (queue_indices zeroT lg c pov !! k).
Proof. apply list_lookup_fmap. Qed.

Lemma add_step c g pov v pri : represents c g -> step_ok c g (Op_add pov v pri).
Proof.
  intros ([tr Hok] & Hg & Hn). unfold step_ok, co_exec, co_spec. rewrite <- Hn. pose proof (co_pop _ _ _ _ Hok) as Hpop.
  destruct (Z.ltb_spec (_population c) L) as [Hlt|Hge].
  - destruct (collection_add_ok zeroT lg lg_small scratch c tr pov v pri Hok Hlt) as (c' & tr' & -> & Hok' & Hadd). eexists _, _. split; [reflexivity|].
    rewrite (proj2 (Z.eqb_neq _ _)) by (unfold NULL_INDEX; lia). split; [done|].
    apply (represents_update c); [done|by exists tr'|by rewrite <- Hg; apply (added_queue c tr)| |apply Hadd].
    intros. by apply (added_other c tr c' pov pri v).
  - rewrite (add_full zeroT lg scratch c tr) by done. eexists _, _. split; [reflexivity|]. split; [done|]. split; [by exists tr|done].
Qed.

Lemma remove_step c g pov k : represents c g -> step_ok c g (Op_remove pov k).
Proof.
  intros ([tr Hok] & Hg & Hn). unfold step_ok, co_exec, co_spec.
  destruct (walk_to_position c tr pov k Hok) as (i & -> & Hi). cbn [mbind option_bind]. rewrite <- Hg, queue_lookup.
  destruct (queue_indices zeroT lg c pov !! k) as [j|] eqn:Hk; simpl fmap.
  2:{ rewrite Hi, Z.eqb_refl. eexists _, _. split; [reflexivity|]. split; [done|]. split; [by exists tr|done]. }
  destruct Hi as (-> & Hb & Hin). unfold below in Hb. rewrite (proj2 (Z.eqb_neq _ _)) by (unfold NULL_INDEX; lia).
  destruct (collection_remove_ok zeroT lg lg_small c tr j Hok Hb) as (l1 & l2 & c' & tr' & next & Hin' & -> & Hok' & Hrem).
  assert (pov_value ((_povs c).[povIndex ((_elements c).[j])]) = pov) as Hpov.
  { pose proof (co_pop _ _ _ _ Hok). destruct (pov_at_spec zeroT lg lg_small c tr Hok j Hb) as [_ Hu].
    rewrite (Hu pov) by (rewrite Hin; set_solver). unfold pov_at. by rewrite land_mask, Z.mod_small by lia. }
  rewrite Hpov in *. cbn [mbind option_bind]. eexists _, _. split; [reflexivity|].
  destruct Hrem as (Hq & Hnext & Hother & Hpop & _).
  assert (k = length l1) as ->.
  { assert (NoDup (l1 ++ j :: l2)) as Hnd.
    { rewrite <- Hin'. destruct (queue_tree zeroT lg lg_small c tr Hok pov j) as (p & Hp & _ & _ & -> & _); [rewrite Hin'; set_solver|].
      by apply (tk_nodup _ _ _ _ _ (co_trees _ _ _ _ Hok)). }
    assert ((l1 ++ j :: l2) !! k = Some j) as H1 by (by rewrite <- Hin').
    assert ((l1 ++ j :: l2) !! length l1 = Some j) as H2 by (by apply list_lookup_middle).
    by apply (NoDup_lookup _ _ _ _ Hnd H1 H2). }
  assert (delete (length l1) (queue zeroT lg c pov) = queue zeroT lg c' pov) as Hdel.
  { unfold queue at 1. rewrite Hin', delete_contents. done. }
  cbn [fst snd]. rewrite Hdel. split.
  - f_equal. rewrite Hnext, (item_at_first c' tr' pov); [|done|].
    + unfold queue, CollectionSpec.contents. by rewrite head_lookup, fmap_drop, lookup_drop, Nat.add_0_r.
    + intros i [m Hm]%list_elem_of_lookup. rewrite lookup_drop in Hm. by eapply list_elem_of_lookup_2.
  - apply (represents_update c); [done|by exists tr'|done|done|lia].
Qed.

Lemma replace_step c g pov k v : represents c g -> step_ok c g (Op_replace pov k v).
Proof.
  intros ([tr Hok] & Hg & Hn). unfold step_ok, co_exec, co_spec.
  destruct (walk_to_position c tr pov k Hok) as (i & -> & Hi). cbn [mbind option_bind]. rewrite <- Hg, queue_lookup.
  destruct (queue_indices zeroT lg c pov !! k) as [j|] eqn:Hk; simpl fmap.
  2:{ rewrite Hi, Z.eqb_refl. eexists _, _. split; [reflexivity|]. split; [done|]. split; [by exists tr|done]. }
  destruct Hi as (-> & Hb & Hin). pose proof Hb as Hb'. unfold below in Hb'. rewrite (proj2 (Z.eqb_neq _ _)) by (unfold NULL_INDEX; lia).
  eexists _, _. split; [reflexivity|]. split; [done|].
  destruct (collection_replace_ok c tr j v Hok Hb) as (Hok' & _ & _ & Hpop).
  destruct (replaced_queue c tr j v pov _ _ Hok Hin) as [Hq Hother].
  rewrite length_take_le in Hq by (apply lookup_lt_Some in Hk; lia).
  apply (represents_update c); [done|by exists tr|done|done|congruence].
Qed.

Lemma read_step c g o obs :
  represents c g -> co_exec zeroT lg scratch o c = Some (c, obs) -> co_spec L o g = (g, obs) -> step_ok c g o.
Proof. intros Hr He Hs. exists c, obs. rewrite Hs. done. Qed.

Lemma list_back_step c g pov : represents c g -> step_ok c g (Op_list_back pov).
Proof.
  intros Hr. pose proof Hr as ([tr Hok] & Hg & _). apply (read_step c g _ (Obs_items (reverse (q_of g pov))) Hr); [|done].
  unfold co_exec. rewrite (tailIndex_spec zeroT lg lg_small c tr Hok), <- Hg.
  rewrite (walk_back_spec c tr pov _ _ []); [done|done|by rewrite app_nil_r|].
  pose proof (indices_length zeroT lg lg_small c tr Hok pov). lia.
Qed.

Lemma pov_step c g pov k : represents c g -> step_ok c g (Op_pov pov k).
Proof.
  intros Hr. pose proof Hr as ([tr Hok] & Hg & _). eapply read_step; [done| |reflexivity]. unfold co_exec.
  destruct (walk_to_position c tr pov k Hok) as (i & -> & Hi). cbn [mbind option_bind]. rewrite <- Hg, queue_lookup.
  destruct (queue_indices zeroT lg c pov !! k) as [j|] eqn:Hk; simpl fmap; [|by rewrite Hi].
  destruct Hi as (-> & Hb & Hin). rewrite (proj2 (Z.eqb_neq _ _)) by (unfold below, NULL_INDEX in *; lia).
  destruct (pov_at_spec zeroT lg lg_small c tr Hok j Hb) as [_ Hu]. rewrite <- (Hu pov); [done|]. by eapply list_elem_of_lookup_2.
Qed.

Lemma cleaned_represents c tr c' g : collection_ok zeroT lg c tr -> represents c g -> cleaned_up zeroT lg c (c', false) -> represents c' g.
Proof.
  intros Hok (_ & Hg & Hn) (_ & Hinv & Hq & Hc & Hp & _). split; [done|]. split; [|congruence]. intros pov. rewrite <- Hg. unfold queue. rewrite Hq.
  apply contents_ext. intros i Hi. apply Hc. by apply (member_below zeroT lg lg_small c tr Hok pov).
Qed.
Lemma cleanup_step c g : represents c g -> exists c', cleanup zeroT lg c = Some (c', false) /\ represents c' g.
Proof.
  intros Hr. pose proof Hr as ([tr Hok] & _). destruct (collection_cleanup_ok zeroT lg lg_small c tr Hok) as ([c' bug] & -> & Hc).
  destruct (_ =? 0); [injection Hc as -> ->; by eexists|]. assert (bug = false) as -> by apply Hc.
  exists c'. split; [done|]. by apply (cleaned_represents c tr).
Qed.

Lemma collection_reset_ok : collection_ok zeroT lg (reset zeroT lg) (fun _ => Leaf) /\ forall pov, queue zeroT lg (reset zeroT lg) pov = [].
Proof.
  pose proof (cap_pos lg).
  assert (alen (replicate (Z.to_nat L) (zeroElement zeroT)) = L) as Hlen by (rewrite alen_replicate; lia).
  pose proof (soft_reset_ok zeroT lg lg_small _ Hlen (reset zeroT lg) eq_refl) as Hok. split; [done|].
  intros pov. unfold queue. rewrite (queue_absent zeroT lg lg_small (reset zeroT lg) (fun _ => Leaf)); [done|done|].
  simpl. intros p Hp Hf. by rewrite flags_zero_flag in Hf.
Qed.

Lemma collection_step_refines c g o : represents c g -> step_ok c g o.
Proof.
  intros Hr. pose proof Hr as ([tr Hok] & Hg & Hn).
  destruct o as [pov v pri|pov k|pov k v|pov|pov|pov k|pov m|pov m| |pov| |p|].
  - by apply add_step.
  - by apply remove_step.
  - by apply replace_step.
  - apply (read_step c g _ (Obs_items (q_of g pov)) Hr); [|done]. simpl. rewrite (headIndex_spec zeroT lg lg_small c tr Hok), <- Hg.
    change (match item_at zeroT lg c (first_index (queue_indices zeroT lg c pov)) with Some x => _ | None => _ end)
      with (walk_items zeroT lg (S (Z.to_nat L)) c (first_index (queue_indices zeroT lg c pov))).
    rewrite (walk_items_spec c tr pov _ []); [done|done|done|]. pose proof (indices_length zeroT lg lg_small c tr Hok pov). lia.
  - by apply list_back_step.
  - by apply pov_step.
  - apply (read_step c g _ (Obs_item (head (filter (fun x => x.1 <= m) (q_of g pov)))) Hr); [|done]. simpl.
    rewrite (headIndex_max_spec zeroT lg lg_small c tr Hok). cbn [mbind option_bind]. rewrite <- Hg. unfold queue. rewrite filter_contents.
    rewrite (item_at_first c tr pov); [done|done|]. intros i [_ Hi]%list_elem_of_filter. done.
  - apply (read_step c g _ (Obs_item (last (filter (fun x => m <= x.1) (q_of g pov)))) Hr); [|done]. simpl.
    rewrite (tailIndex_min_spec zeroT lg lg_small c tr Hok). cbn [mbind option_bind]. rewrite <- Hg. unfold queue. rewrite filter_contents.
    rewrite (item_at_last c tr pov); [done|done|]. intros i [_ Hi]%list_elem_of_filter. done.
  - apply (read_step c g _ (Obs_num (q_count g)) Hr); [|done]. simpl. by rewrite <- Hn.
  - apply (read_step c g _ (Obs_num (alen (q_of g pov))) Hr); [|done]. simpl.
    rewrite (population_of_spec zeroT lg lg_small c tr Hok), <- Hg. unfold queue, CollectionSpec.contents, alen. by rewrite length_fmap.
  - destruct (cleanup_step c g Hr) as (c' & Hc & Hr'). exists c', (Obs_bool false). simpl. by rewrite Hc.
  - unfold step_ok. simpl. unfold cleanupIfNeeded. destruct (_ <? _); [|by exists c, (Obs_bool false)].
    destruct (cleanup_step c g Hr) as (c' & -> & Hr'). by exists c', (Obs_bool false).
  - exists (reset zeroT lg), (Obs_bool true). split; [done|]. split; [done|]. destruct collection_reset_ok as [Hok0 Hq0].
    split; [by eexists|]. split; [done|done].
Qed.

Lemma run_refines ops c g :
  represents c g -> exists c', exec_run zeroT lg scratch ops c = Some (c', (spec_run L ops g).2) /\ represents c' (spec_run L ops g).1.
Proof.
  revert c g. induction ops as [|o ops IH]; intros c g Hr; [by exists c|].
  destruct (collection_step_refines c g o Hr) as (c' & obs & He & Hobs & Hr'). cbn [exec_run spec_run]. rewrite He. cbn [mbind option_bind].
  destruct (co_spec L o g) as [g' obs'] eqn:Hs. simpl in Hobs, Hr'. subst obs'.
  destruct (IH c' g' Hr') as (c'' & -> & Hr''). cbn [mbind option_bind]. destruct (spec_run L ops g') as [g'' l]. by exists c''.
Qed.
End refinement.

(** ** Properties *)
Section properties.
Context {T : Type} (zeroT : T).
#[local] Hint Extern 0 (Inhabited (Element T)) => exact (collection_element_inhabited zeroT) : typeclass_instances.
Variable lg : nat.
Hypothesis lg_small : (lg < 64)%nat.
Implicit Types c : Collection T.
Abbreviation inv := (collection_inv zeroT lg).
Abbreviation queue := (queue zeroT lg).
Abbreviation queue_indices := (queue_indices zeroT lg).

(** C37: every sequence of calls on a reset collection of capacity [2^lg], whether or not scratchpad memory for balancing is
    available, ends and returns exactly what a map from povs to stable priority queues of together at most [2^lg] elements
    returns.  The calls are add, remove, replace, cleanup, cleanupIfNeeded and reset, and the queries of a queue forwards from its
    headIndex by nextElementIndex and backwards from its tailIndex by prevElementIndex, of the pov of an element, of the first
    element of at most and the last of at least a priority, and of the populations.  The representation
    invariant holds afterwards and [cleanup] never takes the branch [cleanupBug]. *)
Theorem collection_refines_queues (scratch : bool) (ops : list (co_op T)) :
  exists c, exec_run zeroT lg scratch ops (reset zeroT lg) = Some (c, (spec_run (capacity lg) ops (mkQueues (fun _ => []) 0)).2) /\
    inv c /\ (forall pov, queue c pov = q_of (spec_run (capacity lg) ops (mkQueues (fun _ => []) 0)).1 pov).
Proof.
  destruct (collection_reset_ok zeroT lg lg_small) as [Hok Hq].
  destruct (run_refines zeroT lg scratch lg_small ops (reset zeroT lg) (mkQueues (fun _ => []) 0)) as (c & Hrun & Hinv & Hrep & _).
  - split; [by eexists|done].
  - by exists c.
Qed.

(** [add] to a collection that is not full stores the element at the index of the old population, puts it in the queue of its pov
    behind all elements of at least its priority, and leaves the other queues alone; a full collection stays as it is and
    [NULL_INDEX] is returned. *)
Theorem add_enqueues (scratch : bool) c (pov pri : Z) (v : T) :
  inv c ->
  exists c' i, add zeroT lg scratch c pov v pri = Some (c', i) /\ inv c' /\
  if decide (population c < capacity lg) then
    i = population c /\ queue c' pov = enqueue (pri, v) (queue c pov) /\ (forall pov', pov' <> pov -> queue c' pov' = queue c pov') /\
    pov_at zeroT lg c' i = pov /\ item_at zeroT lg c' i = Some (pri, v) /\ population c' = population c + 1
  else c' = c /\ i = NULL_INDEX.
Proof.
  intros [tr Hok]. unfold population, capacity. case_decide as Hd.
  - destruct (collection_add_ok zeroT lg lg_small scratch c tr pov v pri Hok Hd) as (c' & tr' & -> & Hok' & Hadd).
    exists c', (_population c). split; [done|]. split; [by exists tr'|]. split; [done|].
    split; [by apply (added_queue zeroT lg lg_small c tr)|]. split; [intros; by apply (added_other zeroT lg lg_small c tr c' pov pri v)|].
    destruct Hadd as ((hi & lo & _ & Hnew & _) & _ & _ & Hitem & Hpop & _).
    assert (_population c ∈ queue_indices c' pov) as Hin by (rewrite Hnew; set_solver).
    pose proof (member_below zeroT lg lg_small c' tr' Hok' pov _ Hin) as Hb. split; [|split; [|done]].
    + symmetry. by apply (pov_at_spec zeroT lg lg_small c' tr' Hok' _ Hb).
    + by rewrite (item_at_member zeroT lg lg_small c' tr' pov), Hitem.
  - rewrite (add_full zeroT lg scratch c tr) by (done || lia). exists c, NULL_INDEX. split; [done|]. split; [by exists tr|done].
Qed.

(** [remove] of an existing element deletes it from the queue of its pov, keeps the contents and the order of all other
    elements of all queues although it moves one of them to the freed slot, and returns the index of the element that followed
    ([NULL_INDEX] after the last one). *)
Theorem remove_dequeues c (i : Z) :
  inv c -> 0 <= i < population c ->
  let pov := pov_at zeroT lg c i in
  exists c' next k, remove zeroT lg c i = Some (c', next) /\ inv c' /\
    queue_indices c pov !! k = Some i /\ queue c' pov = delete k (queue c pov) /\ (forall pov', pov' <> pov -> queue c' pov' = queue c pov') /\
    next = default NULL_INDEX (queue_indices c' pov !! k) /\ population c' = population c - 1.
Proof.
  intros [tr Hok] Hi. unfold population in *. pose proof (co_pop _ _ _ _ Hok) as Hpop.
  unfold pov_at. rewrite land_mask, Z.mod_small by lia. cbn zeta.
  destruct (collection_remove_ok zeroT lg lg_small c tr i Hok Hi) as (l1 & l2 & c' & tr' & next & Hin & -> & Hok' & Hq & Hnext & Hother & Hp & _).
  exists c', next, (length l1). split; [done|]. split; [by exists tr'|]. split; [rewrite Hin; by apply list_lookup_middle|].
  split; [|split; [done|split; [|done]]].
  - rewrite Hq. unfold CollectionSpec.queue. by rewrite Hin, (delete_contents zeroT).
  - rewrite Hnext. unfold first_index. by rewrite head_lookup, lookup_drop, Nat.add_0_r.
Qed.

(** [cleanup] ends outside of the branch marked as never reached, frees every slot marked for removal, and keeps all queues
    with the indices of their elements. *)
Theorem cleanup_keeps_queues c :
  inv c -> _markRemovalCounter c <> 0 ->
  exists c', cleanup zeroT lg c = Some (c', false) /\ inv c' /\ (forall pov, queue_indices c' pov = queue_indices c pov /\ queue c' pov = queue c pov) /\
    population c' = population c /\ _markRemovalCounter c' = 0 /\ (forall s, in_table lg s -> flag_of (_povOccupationFlags c') s <> 2).
Proof.
  intros [tr Hok] Hc. destruct (collection_cleanup_ok zeroT lg lg_small c tr Hok) as ([c' bug] & -> & Hcl).
  rewrite (proj2 (Z.eqb_neq _ _) Hc) in Hcl. destruct Hcl as (-> & Hinv & Hq & Hcont & Hp & H0 & H2). exists c'.
  split; [done|]. split; [done|]. split; [|done]. intros pov. split; [done|]. unfold CollectionSpec.queue. rewrite Hq. apply contents_ext.
  intros x Hx. apply Hcont. by apply (member_below zeroT lg lg_small c tr Hok pov).
Qed.

(** [_rebuild] of a queue's tree ends, links the same elements in the same order, gives a tree of least height, and changes no
    element of another queue and no data. *)
Theorem rebuild_balances (els : list (Element T)) (t : tree) :
  t <> Leaf -> rep zeroT els NULL_INDEX t -> NoDup (inorder t) -> alen (inorder t) <= capacity lg ->
  exists els' t', _rebuild zeroT lg true els (root t) = Some (els', root t') /\
    rep zeroT els' NULL_INDEX t' /\ inorder t' = inorder t /\ optimal t' /\
    (forall i, data (els'.[i]) = data (els.[i])) /\ (forall i, i ∉ inorder t -> els'.[i] = els.[i]).
Proof.
  intros Ht Hr Hnd HL. unfold capacity, alen in HL.
  destruct (rebuild_spec zeroT lg (inorder t) true els t) as (els' & t' & Hreb & Hrep & Hin & [Hlen Hdata Hlinks] & Hopt); [done..|lia|].
  exists els', t'. split; [done|]. split; [done|]. split; [done|]. split; [by apply Hopt|]. split; [done|].
  intros i Hi. apply element_eq; [done|]. assert (forall f, (f, i) ∉ triples (inorder t)) as Hn by (intros f; by rewrite elem_of_triples).
  pose proof (Hlinks FParent i (Hn _)). pose proof (Hlinks FLeft i (Hn _)). pose proof (Hlinks FRight i (Hn _)).
  simpl in *. unfold links. congruence.
Qed.
End properties.

(** Witnesses.  Capacity 64; the 40 elements of pov 5 arrive in increasing priority, so that the tree is balanced on the way. *)
Definition ex_ops : list (co_op Z) :=
  ((fun i => Op_add 5 (100 + i) i) <$> seqZ 0 40) ++
  [Op_add 69 7 3; Op_add 69 8 3; Op_add 69 9 4; Op_remove 5 20; Op_remove 69 0; Op_head 5 10; Op_tail 69 4; Op_list 69;
   Op_list_back 69; Op_pov 69 1; Op_pov 69 2; Op_remove 69 1; Op_remove 69 0; Op_cleanup; Op_population_of 69; Op_population_of 5; Op_add 133 1 1; Op_remove 133 0].

Definition ex_collection : Collection Z :=
  match exec_run 0 6 true ex_ops (reset 0 6) with Some (c, _) => c | None => reset 0 6 end.

Lemma ex_collection_inv : collection_inv 0 6 ex_collection.
Proof.
  destruct (collection_reset_ok 0 6 ltac:(lia)) as [Hok Hq]. unfold ex_collection.
  destruct (run_refines 0 6 true ltac:(lia) ex_ops (reset 0 6) (mkQueues (fun _ => []) 0)) as (c & -> & Hinv & _); [|done].
  split; [by eexists|done].
Qed.

Lemma collection_refines_queues_witness :
  (6 < 64)%nat /\
  (snd <$> exec_run 0 6 true ex_ops (reset 0 6)) = Some (spec_run (capacity 6) ex_ops (mkQueues (fun _ => []) 0)).2 /\
  drop 43 (spec_run (capacity 6) ex_ops (mkQueues (fun _ => []) 0)).2 =
    [Obs_item (Some (18, 118)); Obs_item (Some (3, 7)); Obs_item (Some (10, 110)); Obs_item None; Obs_items [(3, 7); (3, 8)];
     Obs_items [(3, 8); (3, 7)]; Obs_num 69; Obs_bool false; Obs_item None; Obs_item None; Obs_bool false; Obs_num 0; Obs_num 39; Obs_bool true; Obs_item None].
Proof.
  split; [lia|]. split; [|vm_compute; reflexivity].
  destruct (collection_refines_queues 0 6 ltac:(lia) true ex_ops) as (c & Hrun & _).
  exact (f_equal (fun r => snd <$> r) Hrun).
Defined.

Lemma add_enqueues_witness :
  exists c' i, add 0 6 true ex_collection 5 77 20 = Some (c', i) /\ i = 39 /\ queue 0 6 c' 5 = enqueue (20, 77) (queue 0 6 ex_collection 5).
Proof.
  destruct (add_enqueues 0 6 ltac:(lia) true ex_collection 5 20 77 ex_collection_inv) as (c' & i & Hadd & _ & Hd).
  rewrite decide_True in Hd by (vm_compute; reflexivity). destruct Hd as (Hi & Hq & _).
  exists c', i. split; [exact Hadd|]. split; [|exact Hq]. rewrite Hi. vm_compute. reflexivity.
Defined.

Lemma remove_dequeues_witness :
  exists c' next k, remove 0 6 ex_collection 20 = Some (c', next) /\ queue 0 6 c' 5 = delete k (queue 0 6 ex_collection 5).
Proof.
  destruct (remove_dequeues 0 6 ltac:(lia) ex_collection 20 ex_collection_inv) as (c' & next & k & Hrem & _ & _ & Hq & _).
  - vm_compute. split; [discriminate|reflexivity].
  - exists c', next, k. split; [exact Hrem|]. assert (pov_at 0 6 ex_collection 20 = 5) as Hpov by (vm_compute; reflexivity).
    rewrite Hpov in Hq. exact Hq.
Defined.

Lemma cleanup_keeps_queues_witness :
  _markRemovalCounter ex_collection = 1 /\ exists c', cleanup 0 6 ex_collection = Some (c', false) /\ queue 0 6 c' 5 = queue 0 6 ex_collection 5.
Proof.
  split; [vm_compute; reflexivity|].
  destruct (cleanup_keeps_queues 0 6 ltac:(lia) ex_collection ex_collection_inv) as (c' & Hc & _ & Hq & _).
  - vm_compute. discriminate.
  - exists c'. split; [exact Hc|]. apply Hq.
Defined.

(** [pov] of an unused element is the pov in slot 0 of the table, not the zero id. *)
Example pov_of_unused :
  (fun r => pov_at 0 2 r.1 3) <$> add 0 2 true (reset 0 2) 4 77 20 = Some 4.
Proof. vm_compute. reflexivity. Qed.

(** A path of four elements becomes a tree of height 3. *)
Definition ex_path : list (Element Z) :=
  [mkElement 10 4 0 (-1) (-1) 1; mkElement 11 3 0 0 (-1) 2; mkElement 12 2 0 1 (-1) 3; mkElement 13 1 0 2 (-1) (-1)].
Definition ex_path_tree : tree := Node Leaf 0 (Node Leaf 1 (Node Leaf 2 (Node Leaf 3 Leaf))).

Lemma ex_path_rep : rep 0 ex_path NULL_INDEX ex_path_tree.
Proof. repeat split; vm_compute; (reflexivity || discriminate). Qed.

Lemma rebuild_balances_witness :
  height ex_path_tree = 4%nat /\
  exists els' t', _rebuild 0 2 true ex_path 0 = Some (els', root t') /\ inorder t' = [0; 1; 2; 3] /\ (height t' <= 3)%nat.
Proof.
  split; [reflexivity|].
  destruct (rebuild_balances 0 2 ltac:(lia) ex_path ex_path_tree) as (els' & t' & Hreb & _ & Hin & Hopt & _).
  - discriminate.
  - exact ex_path_rep.
  - apply (bool_decide_unpack _). vm_compute. reflexivity.
  - vm_compute. discriminate.
  - exists els', t'. split; [exact Hreb|]. split; [exact Hin|]. apply Hopt. rewrite Hin. vm_compute. lia.
Defined.
