(* ===== verification/PriorityQueues.v ===== *)
(** * The interface of the priority queues

    What the pool of pending transactions uses of QPI::Collection: a queue of numbers per pov, highest priority first and in order
    of arrival among equals, whose elements are read and removed through indices.  The pool is proved against the class;
    [Collection] discharges it. *)
From S2P Require Import Prelude OpenAddressing OccupationFlags Collection CollectionTree CollectionRebuild CollectionLinks PovTable CollectionSpec CollectionAdd CollectionRemove CollectionCleanup CollectionQueries CollectionQueues.

Class QueueOps (Q : Type) := {
  queues_zero : Q;                                     (* zeroed memory *)
  queue_head : Q -> Z -> Z;                            (* headIndex(pov) *)
  queue_tail : Q -> Z -> Z;                            (* tailIndex(pov) *)
  queue_add : Q -> Z -> Z -> Z -> option (Q * Z);      (* add(pov, element, priority) *)
  queue_remove : Q -> Z -> option (Q * Z);             (* remove(elementIdx) *)
  queue_cleanupIfNeeded : Q -> option Q;               (* cleanupIfNeeded() *)
  queue_priority : Q -> Z -> Z;                        (* priority(elementIndex) *)
  queue_element : Q -> Z -> Z                          (* element(elementIndex) *)
}.

Class Queues (Q : Type) `{!QueueOps Q} := {
  queues_ok : Q -> Prop;
  queue_of : Q -> Z -> list (Z * Z);                   (* priorities and elements *)
  queue_places : Q -> Z -> list Z;                     (* their indices *)
  queues_count : Q -> Z;
  queues_capacity : Z;
  queue_zero_law : queues_ok queues_zero /\ queues_count queues_zero = 0 /\ forall pov, queue_of queues_zero pov = [];
  queue_head_law q pov : queues_ok q -> queue_head q pov = first_index (queue_places q pov);
  queue_tail_law q pov : queues_ok q -> queue_tail q pov = last_index (queue_places q pov);
  queue_place_law q pov : queues_ok q -> queue_of q pov = (fun i => (queue_priority q i, queue_element q i)) <$> queue_places q pov;
  queue_index_law q pov i : queues_ok q -> i ∈ queue_places q pov -> i <> NULL_INDEX;
  queue_add_law q pov v pri :
    queues_ok q -> queues_count q < queues_capacity ->
    exists q' i, queue_add q pov v pri = Some (q', i) /\ queues_ok q' /\ queues_count q' = queues_count q + 1 /\
      queue_of q' pov = enqueue (pri, v) (queue_of q pov) /\ forall pov', pov' <> pov -> queue_of q' pov' = queue_of q pov';
  queue_remove_law q pov k i :
    queues_ok q -> queue_places q pov !! k = Some i ->
    exists q', queue_remove q i = Some (q', default NULL_INDEX (queue_places q' pov !! k)) /\ queues_ok q' /\
      queues_count q' = queues_count q - 1 /\
      queue_of q' pov = delete k (queue_of q pov) /\ forall pov', pov' <> pov -> queue_of q' pov' = queue_of q pov';
  queue_cleanup_law q :
    queues_ok q -> exists q', queue_cleanupIfNeeded q = Some q' /\ queues_ok q' /\ queues_count q' = queues_count q /\
      forall pov, queue_of q' pov = queue_of q pov
}.

(** ** The instance by QPI::Collection *)
Section CollectionInstance.
Variable lg : nat.
Hypothesis lg_small : (lg < 64)%nat.
Variable scratch : bool.

#[local] Instance collection_ops : QueueOps (Collection Z) := {
  queues_zero := reset 0 lg;
  queue_head := headIndex lg;
  queue_tail := tailIndex lg;
  queue_add := add 0 lg scratch;
  queue_remove := remove 0 lg;
  queue_cleanupIfNeeded c := fst <$> cleanupIfNeeded 0 lg c 50;
  queue_priority := priority 0 lg;
  queue_element := element 0 lg
}.
#[local] Hint Extern 0 (Inhabited (Element Z)) => exact (collection_element_inhabited 0) : typeclass_instances.

Lemma collection_place c pov i :
  collection_inv 0 lg c -> i ∈ queue_indices 0 lg c pov ->
  i <> NULL_INDEX /\ (priority 0 lg c i, element 0 lg c i) = content ((_elements c).[i]).
Proof.
  intros [tr Hok] Hi. pose proof (item_at_member 0 lg lg_small c tr pov i Hok Hi) as Hat. unfold item_at in Hat.
  destruct (Z.eqb_spec i NULL_INDEX); [done|]. split; [done|]. congruence.
Qed.

Lemma collection_remove_place c pov k i :
  collection_inv 0 lg c -> queue_indices 0 lg c pov !! k = Some i ->
  exists c', remove 0 lg c i = Some (c', default NULL_INDEX (queue_indices 0 lg c' pov !! k)) /\ collection_inv 0 lg c' /\
    _population c' = _population c - 1 /\
    queue 0 lg c' pov = delete k (queue 0 lg c pov) /\ forall pov', pov' <> pov -> queue 0 lg c' pov' = queue 0 lg c pov'.
Proof.
  intros [tr Hok] Hk. assert (i ∈ queue_indices 0 lg c pov) as Hi by (by eapply list_elem_of_lookup_2).
  pose proof (member_below 0 lg lg_small c tr Hok pov i Hi) as Hb.
  destruct (collection_remove_ok 0 lg lg_small c tr i Hok Hb) as (l1 & l2 & c' & tr' & next & Hin & Hrem & Hok' & Hq & Hnext & Hother & Hp & _).
  destruct (pov_at_spec 0 lg lg_small c tr Hok i Hb) as [_ Hu].
  assert (pov_value ((_povs c).[povIndex ((_elements c).[i])]) = pov) as Hpov.
  { rewrite (Hu pov Hi). apply Hu. rewrite Hin. set_solver. }
  rewrite Hpov in *. assert (NoDup (queue_indices 0 lg c pov)) as Hnd.
  { destruct (queue_tree 0 lg lg_small c tr Hok pov i Hi) as (p & Hp' & _ & _ & -> & _). by apply (co_trees _ _ _ _ Hok). }
  assert (k = length l1) as ->.
  { apply (NoDup_lookup _ _ _ i Hnd Hk). rewrite Hin. by apply list_lookup_middle. }
  exists c'. split; [|split; [by exists tr'|split; [done|split; [|done]]]].
  - rewrite Hrem, Hnext. unfold first_index. by rewrite head_lookup, lookup_drop, Nat.add_0_r.
  - rewrite Hq. unfold queue. by rewrite Hin, (delete_contents 0).
Qed.

#[local] Instance collection_queues : Queues (Collection Z).
Proof using lg_small.
  refine {| queues_ok := collection_inv 0 lg; queue_of := queue 0 lg; queue_places := queue_indices 0 lg;
            queues_count := _population; queues_capacity := 2 ^ Z.of_nat lg |}.
  - destruct (collection_reset_ok 0 lg lg_small) as [Hok Hq]. split; [by eexists|]. done.
  - intros c pov [tr Hok]. by apply (headIndex_spec 0 lg lg_small c tr).
  - intros c pov [tr Hok]. by apply (tailIndex_spec 0 lg lg_small c tr).
  - intros c pov Hinv. apply list_fmap_ext. intros k i Hi%list_elem_of_lookup_2. symmetry. by apply (collection_place c pov).
  - intros c pov i Hinv Hi. by apply (collection_place c pov i).
  - intros c pov v pri [tr Hok] Hlt. destruct (collection_add_ok 0 lg lg_small scratch c tr pov v pri Hok Hlt) as (c' & tr' & Hadd & Hok' & Ha).
    exists c', (_population c). split; [done|]. split; [by exists tr'|]. split; [apply Ha|].
    split; [by apply (added_queue 0 lg lg_small c tr)|]. intros. by apply (added_other 0 lg lg_small c tr c' pov pri v).
  - intros c pov k i. apply collection_remove_place.
  - intros c Hinv. destruct (collection_step_refines 0 lg scratch lg_small c (mkQueues (queue 0 lg c) (_population c)) (Op_cleanupIfNeeded 50))
      as (c' & obs & Hrun & _ & Hinv' & Hq & Hn); [by split|].
    simpl in *. destruct (cleanupIfNeeded 0 lg c 50) as [[c1 b]|]; [|done]. injection Hrun as -> _. exists c'. done.
Defined.
End CollectionInstance.
