(* ===== verification/Calendar.v ===== *)
(** * The Gregorian calendar

    Days are numbered from 0000-01-01 on.  [day_number] is defined for all integers as the day, so that arithmetic on dates that do not exist
    (February 30, say) means the day that many days after the first of the month. *)
From S2P Require Import Prelude.

Definition leap (y : Z) : bool := (y mod 4 =? 0) && (negb (y mod 100 =? 0) || (y mod 400 =? 0)).
(** The number of leap years before [y], counted from year 0 *)
Definition leap_years (y : Z) : Z := (y + 3) / 4 - (y + 99) / 100 + (y + 399) / 400.
Definition year_start (y : Z) : Z := 365 * y + leap_years y.

Definition month_length (l : bool) (m : Z) : Z :=
  if m =? 2 then (if l then 29 else 28) else if (m =? 4) || (m =? 6) || (m =? 9) || (m =? 11) then 30 else 31.
(** The days of a year before month [m] *)
Definition month_start (l : bool) (m : Z) : Z :=
  [0; 0; 31; 59; 90; 120; 151; 181; 212; 243; 273; 304; 334].[m] + (if (3 <=? m) && l then 1 else 0).

Definition day_number (y m d : Z) : Z := year_start y + month_start (leap y) m + d - 1.
Definition is_month (m : Z) : Prop := 1 <= m <= 12.
Definition is_date (y m d : Z) : Prop := is_month m /\ 1 <= d <= month_length (leap y) m.

Ltac months m :=
  assert (m = 1 \/ m = 2 \/ m = 3 \/ m = 4 \/ m = 5 \/ m = 6 \/ m = 7 \/ m = 8 \/ m = 9 \/ m = 10 \/ m = 11 \/ m = 12) as Hmonths by lia;
  destruct Hmonths as [-> |[-> |[-> |[-> |[-> |[-> |[-> |[-> |[-> |[-> |[-> | ->]]]]]]]]]]].

Lemma month_length_range l m : 28 <= month_length l m <= 31.
Proof. unfold month_length. repeat case_match; lia. Qed.

Lemma month_start_next l m : 1 <= m < 12 -> month_start l (m + 1) = month_start l m + month_length l m.
Proof. intros Hm. months m; try lia; destruct l; reflexivity. Qed.

Lemma month_start_range l m : is_month m -> 0 <= month_start l m <= 334 + (if l then 1 else 0).
Proof. intros Hm. unfold is_month in Hm. months m; destruct l; vm_compute; split; discriminate. Qed.

Lemma month_end l m : is_month m -> month_start l m + month_length l m <= if l then 366 else 365.
Proof. intros Hm. unfold is_month in Hm. months m; destruct l; vm_compute; discriminate. Qed.

Lemma month_start_december l : month_start l 12 + 31 = if l then 366 else 365.
Proof. by destruct l. Qed.

Lemma month_length_december l : month_length l 12 = 31.
Proof. done. Qed.

Lemma year_start_next y : year_start (y + 1) = year_start y + (if leap y then 366 else 365).
Proof.
  unfold year_start, leap_years, leap. destruct (Z.eqb_spec (y mod 4) 0), (Z.eqb_spec (y mod 100) 0), (Z.eqb_spec (y mod 400) 0); cbn [andb orb negb];
    Z.div_mod_to_equations; lia.
Qed.

Lemma year_start_le y y' : y <= y' -> year_start y + 365 * (y' - y) <= year_start y'.
Proof.
  intros H. apply (up_to_ind (fun y' => year_start y + 365 * (y' - y) <= year_start y') y); [done|lia|].
  intros i Hi IH. rewrite year_start_next. destruct (leap _); lia.
Qed.

Lemma leap_400 y f : leap (y + 400 * f) = leap y.
Proof.
  unfold leap.
  assert ((y + 400 * f) mod 4 = y mod 4) as -> by (rewrite <- (Z_mod_plus_full y (100 * f) 4); f_equal; lia).
  assert ((y + 400 * f) mod 100 = y mod 100) as -> by (rewrite <- (Z_mod_plus_full y (4 * f) 100); f_equal; lia).
  assert ((y + 400 * f) mod 400 = y mod 400) as -> by (rewrite <- (Z_mod_plus_full y f 400); f_equal; lia).
  done.
Qed.

Lemma year_start_400 y f : year_start (y + 400 * f) = year_start y + 146097 * f.
Proof. unfold year_start, leap_years. Z.div_mod_to_equations. lia. Qed.

(** ** Moving in the calendar *)
Lemma day_number_day y m d n : day_number y m (d + n) = day_number y m d + n.
Proof. unfold day_number. lia. Qed.

Lemma day_number_month y m d : 1 <= m < 12 -> day_number y (m + 1) d = day_number y m d + month_length (leap y) m.
Proof. intros Hm. unfold day_number. rewrite month_start_next by done. lia. Qed.

Lemma day_number_december y d : day_number (y + 1) 1 d = day_number y 12 d + 31.
Proof.
  unfold day_number. rewrite year_start_next. pose proof (month_start_december (leap y)).
  assert (month_start (leap (y + 1)) 1 = 0) as -> by (by destruct (leap (y + 1))). destruct (leap y); lia.
Qed.

Lemma day_number_year y m d : is_month m ->
  day_number (y + 1) m d = day_number y m d + (if leap (if 3 <=? m then y + 1 else y) then 366 else 365).
Proof.
  intros Hm. unfold day_number, month_start. rewrite year_start_next. destruct (3 <=? m); cbn [andb]; destruct (leap y), (leap (y + 1)); lia.
Qed.

Lemma day_number_400 y m d f : day_number (y + 400 * f) m d = day_number y m d + 146097 * f.
Proof. unfold day_number. rewrite leap_400, year_start_400. lia. Qed.

(** ** The order of dates *)
Lemma date_in_year y m d : is_date y m d -> year_start y <= day_number y m d < year_start (y + 1).
Proof.
  intros [Hm Hd]. unfold day_number. rewrite year_start_next. pose proof (month_start_range (leap y) m Hm).
  pose proof (month_end (leap y) m Hm). lia.
Qed.

Lemma month_start_mono l m m' : is_month m -> is_month m' -> m < m' -> month_start l m + month_length l m <= month_start l m'.
Proof.
  unfold is_month. intros Hm Hm' Hlt. apply (up_to_ind (fun m' => month_start l m + month_length l m <= month_start l m') (m + 1)); [lia|rewrite month_start_next; lia|].
  intros i Hi IH. rewrite month_start_next by lia. pose proof (month_length_range l i). lia.
Qed.

Definition date_before (y m d y' m' d' : Z) : Prop := y < y' \/ y = y' /\ (m < m' \/ m = m' /\ d < d').

Lemma day_number_lt y m d y' m' d' :
  is_date y m d -> is_date y' m' d' -> date_before y m d y' m' d' -> day_number y m d < day_number y' m' d'.
Proof.
  intros H H' [Hy|[-> [Hm|[-> Hd]]]].
  - pose proof (date_in_year _ _ _ H). pose proof (date_in_year _ _ _ H'). pose proof (year_start_le (y + 1) y' ltac:(lia)). lia.
  - destruct H as [Hm1 Hd1], H' as [Hm2 Hd2]. unfold day_number. pose proof (month_start_mono (leap y') m m' Hm1 Hm2 Hm). lia.
  - unfold day_number. lia.
Qed.

Lemma day_number_inj y m d y' m' d' :
  is_date y m d -> is_date y' m' d' -> day_number y m d = day_number y' m' d' -> y = y' /\ m = m' /\ d = d'.
Proof.
  intros H H' He. pose proof (day_number_lt _ _ _ _ _ _ H H') as H1. pose proof (day_number_lt _ _ _ _ _ _ H' H) as H2. unfold date_before in *. lia.
Qed.

Lemma day_number_lt_iff y m d y' m' d' :
  is_date y m d -> is_date y' m' d' -> day_number y m d < day_number y' m' d' <-> date_before y m d y' m' d'.
Proof.
  intros H H'. split; [|by apply day_number_lt]. intros Hlt. pose proof (day_number_lt _ _ _ _ _ _ H' H) as H2. unfold date_before in *.
  destruct (decide (y = y' /\ m = m' /\ d = d')) as [(-> & -> & ->)|Hne]; lia.
Qed.

(** A day that does not exist in its month, in the next one *)
Lemma next_month_date y m d :
  is_month m -> month_length (leap y) m < d <= 31 -> is_date y (m + 1) (d - month_length (leap y) m) /\
  day_number y (m + 1) (d - month_length (leap y) m) = day_number y m d.
Proof.
  intros Hm Hd. unfold is_month in *. pose proof (month_length_range (leap y) m). assert (m <> 12) as Hne.
  { intros ->. rewrite month_length_december in Hd. lia. }
  pose proof (month_length_range (leap y) (m + 1)). split; [split; [unfold is_month; lia|lia]|].
  rewrite day_number_month by lia. unfold day_number. lia.
Qed.

Lemma year_start_0 : year_start 0 = 0.
Proof. done. Qed.

Lemma date_nonneg y m d : is_date y m d -> 0 <= day_number y m d <-> 0 <= y.
Proof.
  intros H%date_in_year. pose proof year_start_0. destruct (decide (0 <= y)).
  - pose proof (year_start_le 0 y ltac:(lia)). lia.
  - pose proof (year_start_le (y + 1) 0 ltac:(lia)). lia.
Qed.
