(* ===== verification/DateAndTime.v ===== *)
(** * QPI::DateAndTime

    A date and time packed into 64 bits (qpi/qpi_date_time.h): two reserved bits, 16 bits of year, 4 of month, 5 of day, 5 of hour, 6 of
    minute, 6 of second, 10 of millisecond and 10 of microsecond.  A method that changes the object returns the
    new value; [sint64] sums that overflow wrap around, as the overflow tests of the code expect. *)
From S2P Require Import Prelude.

(** ** Fields *)
Definition set (year month day hour minute second millisec microsecDuringMillisec : Z) : Z :=
  Z.lor (Z.lor (Z.lor (Z.lor (Z.lor (Z.lor (Z.lor
    (u64 (Z.shiftl year 46)) (u64 (Z.shiftl month 42))) (u64 (Z.shiftl day 37)))
    (u64 (Z.shiftl hour 32))) (u64 (Z.shiftl minute 26))) (u64 (Z.shiftl second 20)))
    (u64 (Z.shiftl millisec 10))) (u64 microsecDuringMillisec).

Definition setInvalid (smallestValue : bool) : Z := if smallestValue then 0 else UINT64_MAX.

Definition setDate (value year month day : Z) : Z :=
  Z.lor (Z.land value 0x1fffffffff)
    (Z.lor (Z.lor (u64 (Z.shiftl year 46)) (u64 (Z.shiftl month 42))) (u64 (Z.shiftl day 37))).

Definition setTime (value hour minute second millisec microsecDuringMillisec : Z) : Z :=
  Z.lor (Z.land value (u64 (Z.shiftl 0x1ffffff 37)))
    (Z.lor (Z.lor (Z.lor (Z.lor (u64 (Z.shiftl hour 32)) (u64 (Z.shiftl minute 26))) (u64 (Z.shiftl second 20)))
       (u64 (Z.shiftl millisec 10))) (u64 microsecDuringMillisec)).

Definition getYear (value : Z) : Z := u16 (Z.shiftr value 46).
Definition getMonth (value : Z) : Z := Z.land (u8 (Z.shiftr value 42)) 15.
Definition getDay (value : Z) : Z := Z.land (u8 (Z.shiftr value 37)) 31.
Definition getHour (value : Z) : Z := Z.land (u8 (Z.shiftr value 32)) 31.
Definition getMinute (value : Z) : Z := Z.land (u8 (Z.shiftr value 26)) 63.
Definition getSecond (value : Z) : Z := Z.land (u8 (Z.shiftr value 20)) 63.
Definition getMillisec (value : Z) : Z := Z.land (u16 (Z.shiftr value 10)) 1023.
Definition getMicrosecDuringMillisec (value : Z) : Z := Z.land (u16 value) 1023.

(** ** Calendar; a negative year arrives here as an unsigned 64-bit number *)
Definition isLeapYear (year : Z) : bool :=
  let year := u64 year in
  if negb (year mod 4 =? 0) then false
  else if year mod 100 =? 0 then (if year mod 400 =? 0 then true else false)
  else true.

Definition daysInMonth (year month : Z) : Z :=
  let month := u64 month in
  if (month <? 1) || (12 <? month) then 0
  else if (month =? 2) && isLeapYear year then 29
  else [0; 31; 28; 31; 30; 31; 30; 31; 31; 30; 31; 30; 31].[month].

Definition isValidParts (year month day hour minute second millisec microsecDuringMillisec : Z) : bool :=
  if 0xffff <? year then false
  else if (12 <? month) || (month =? 0) then false
  else if (31 <? day) || (day =? 0) then false
  else if (day =? 31) && negb (month =? 1) && negb (month =? 3) && negb (month =? 5) && negb (month =? 7) &&
          negb (month =? 8) && negb (month =? 10) && negb (month =? 12) then false
  else if (day =? 30) && (month =? 2) then false
  else if (day =? 29) && (month =? 2) && negb (isLeapYear year) then false
  else if 24 <=? hour then false
  else if 60 <=? minute then false
  else if 60 <=? second then false
  else if 1000 <=? millisec then false
  else if 1000 <=? microsecDuringMillisec then false
  else true.

Definition isValid (value : Z) : bool :=
  if value =? 0 then false
  else isValidParts (getYear value) (getMonth value) (getDay value) (getHour value) (getMinute value) (getSecond value)
         (getMillisec value) (getMicrosecDuringMillisec value).

Definition setIfValid (value year month day hour minute second millisec microsecDuringMillisec : Z) : Z * bool :=
  if negb (isValidParts year month day hour minute second millisec microsecDuringMillisec) then (value, false)
  else (set year month day hour minute second millisec microsecDuringMillisec, true).

(** [operator<] and the other comparisons compare the values. *)
Definition before (value other : Z) : bool := value <? other.

(** ** Sums; [None] is [false] *)
Definition addWithoutOverflow (val valToAdd : Z) : option Z :=
  let sum := s64 (val + valToAdd) in
  if (val <? 0) && (valToAdd <? 0) && (0 <? sum) then None
  else if (0 <? val) && (0 <? valToAdd) && (sum <? 0) then None
  else Some sum.

(** The low value and the carry *)
Definition addAndComputeCarry (low lowToHighFactor lowAdd1 lowAdd2 : Z) : option (Z * Z) :=
  low ← addWithoutOverflow low lowAdd1;
  low ← (if negb (lowAdd2 =? 0) then addWithoutOverflow low lowAdd2 else Some low);
  Some (if low =? 0 then (low, 0)
        else if 0 <? low then (Z.rem low lowToHighFactor, Z.quot low lowToHighFactor)
        else
          let highCarryOut := Z.quot (s64 (s64 (low - lowToHighFactor) + 1)) lowToHighFactor in
          (s64 (low - s64 (highCarryOut * lowToHighFactor)), highCarryOut)).

(** ** Adding days, months and years *)
Definition daysPer400years : Z := 97 * 366 + 303 * 365.

(** [newYear], [newMonth], [newDay], [days] *)
Record shift := mkShift { sh_year : Z; sh_month : Z; sh_day : Z; sh_days : Z }.

Definition skip_400years (st : shift) : shift :=
  if (daysPer400years <=? sh_days st) || (sh_days st <=? - daysPer400years) then
    let factor400years := Z.quot (sh_days st) daysPer400years in
    let daysProcessed := factor400years * daysPer400years in
    mkShift (sh_year st + factor400years * 400) (sh_month st) (sh_day st) (sh_days st - daysProcessed)
  else st.

(** The loops over full years: the condition includes the [break]. *)
Definition years_up (st : shift) : shift :=
  let yShift := if 3 <=? sh_month st then 1 else 0 in
  let daysInYear st := if isLeapYear (sh_year st + yShift) then 366 else 365 in
  while_loop (fun st => (365 <=? sh_days st) && negb (sh_days st <? daysInYear st))
    (fun st => mkShift (sh_year st + 1) (sh_month st) (sh_day st) (sh_days st - daysInYear st)) 512 st.
Definition years_down (st : shift) : shift :=
  let yShift := if 3 <=? sh_month st then 0 else -1 in
  let daysInYear st := if isLeapYear (sh_year st + yShift) then -366 else -365 in
  while_loop (fun st => (sh_days st <=? -365) && negb (daysInYear st <? sh_days st))
    (fun st => mkShift (sh_year st - 1) (sh_month st) (sh_day st) (sh_days st - daysInYear st)) 512 st.
Definition skip_years (st : shift) : shift :=
  if 365 <=? sh_days st then years_up st else if sh_days st <=? -365 then years_down st else st.

(** Days that do not exist in the month belong to the next one. *)
Definition fix_day (st : shift) : shift :=
  if 28 <? sh_day st then
    let monthDays := daysInMonth (sh_year st) (sh_month st) in
    if monthDays <? sh_day st then mkShift (sh_year st) (sh_month st + 1) (sh_day st - monthDays) (sh_days st) else st
  else st.

Definition day_up (st : shift) : shift :=
  let monthDays := daysInMonth (sh_year st) (sh_month st) in
  let st :=
    if monthDays <=? sh_days st then mkShift (sh_year st) (sh_month st + 1) (sh_day st) (sh_days st - monthDays)
    else
      let newDay := sh_day st + sh_days st in
      if monthDays <? newDay then mkShift (sh_year st) (sh_month st + 1) (newDay - monthDays) 0
      else mkShift (sh_year st) (sh_month st) newDay 0 in
  let st := if 12 <? sh_month st then mkShift (sh_year st + 1) 1 (sh_day st) (sh_days st) else st in
  fix_day st.
Definition day_down (st : shift) : shift :=
  if - sh_days st <? sh_day st then mkShift (sh_year st) (sh_month st) (sh_day st + sh_days st) 0
  else
    let newMonth := sh_month st - 1 in
    let '(newYear, newMonth) := if newMonth <? 1 then (sh_year st - 1, 12) else (sh_year st, newMonth) in
    let monthDays := daysInMonth newYear newMonth in
    if monthDays <=? - sh_days st then mkShift newYear newMonth (sh_day st) (sh_days st + monthDays)
    else mkShift newYear newMonth (sh_day st + (monthDays + sh_days st)) 0.

Definition days_up (st : shift) : shift := while_loop (fun st => 0 <? sh_days st) day_up 32 st.
Definition days_down (st : shift) : shift := while_loop (fun st => sh_days st <? 0) day_down 32 st.

Definition add_days (st : shift) : shift := days_down (days_up (skip_years (skip_400years st))).

Definition add_months (months : Z) (st : shift) : option shift :=
  if negb (months =? 0) then
    '(newMonth, yearsCarry) ← addAndComputeCarry (sh_month st - 1) 12 months 0;
    newYear ← (if negb (yearsCarry =? 0) then addWithoutOverflow (sh_year st) yearsCarry else Some (sh_year st));
    Some (mkShift newYear (newMonth + 1) (sh_day st) (sh_days st))
  else Some st.
Definition add_years (years : Z) (st : shift) : option shift :=
  if negb (years =? 0) then
    newYear ← addWithoutOverflow (sh_year st) years; Some (mkShift newYear (sh_month st) (sh_day st) (sh_days st))
  else Some st.

Definition addDate (value years months days : Z) : Z * bool :=
  if negb (isValid value) then (value, false)
  else
    match (st ← add_months months (add_days (mkShift (getYear value) (getMonth value) (getDay value) days)); add_years years st) with
    | None => (value, false)
    | Some st =>
        let st := fix_day st in
        if (sh_year st <? 0) || (0xffff <? sh_year st) then (value, false)
        else (setDate value (sh_year st) (sh_month st) (sh_day st), true)
    end.

(** ** Adding all units *)
Definition addTime (value hours minutes seconds millisecs microsecsDuringMillisec : Z) : option (Z * Z * Z * Z * Z * Z) :=
  '(newMicrosec, millisecCarry) ← (if negb (microsecsDuringMillisec =? 0)
     then addAndComputeCarry (getMicrosecDuringMillisec value) 1000 microsecsDuringMillisec 0 else Some (getMicrosecDuringMillisec value, 0));
  '(newMillisec, secCarry) ← (if negb (millisecs =? 0) || negb (millisecCarry =? 0)
     then addAndComputeCarry (getMillisec value) 1000 millisecs millisecCarry else Some (getMillisec value, 0));
  '(newSec, minuteCarry) ← (if negb (seconds =? 0) || negb (secCarry =? 0)
     then addAndComputeCarry (getSecond value) 60 seconds secCarry else Some (getSecond value, 0));
  '(newMinute, hourCarry) ← (if negb (Z.lor minutes minuteCarry =? 0)
     then addAndComputeCarry (getMinute value) 60 minutes minuteCarry else Some (getMinute value, 0));
  '(newHour, dayCarry) ← (if negb (Z.lor hours hourCarry =? 0)
     then addAndComputeCarry (getHour value) 24 hours hourCarry else Some (getHour value, 0));
  Some (newHour, newMinute, newSec, newMillisec, newMicrosec, dayCarry).

Definition add (value years months days hours minutes seconds millisecs microsecsDuringMillisec : Z) : Z * bool :=
  match addTime value hours minutes seconds millisecs microsecsDuringMillisec with
  | None => (value, false)
  | Some (newHour, newMinute, newSec, newMillisec, newMicrosec, dayCarry) =>
      let value := setTime value newHour newMinute newSec newMillisec newMicrosec in
      if negb (dayCarry =? 0) || negb (days =? 0) || negb (months =? 0) || negb (years =? 0) then
        match (if negb (dayCarry =? 0) then addWithoutOverflow days dayCarry else Some days) with
        | None => (value, false)
        | Some days => addDate value years months days
        end
      else (value, true)
  end.

Definition addDays (value days : Z) : Z * bool := addDate value 0 0 days.
Definition addMillisec (value millisec : Z) : Z * bool := add value 0 0 0 0 0 0 millisec 0.
Definition addMicrosec (value microsec : Z) : Z * bool := add value 0 0 0 0 0 0 0 microsec.

(** ** Durations *)
Definition DAY_MICROSECS : Z := 24 * 60 * 60 * 1000 * 1000.

(** The loop of [durationMicrosec]: at most [n] rounds *)
Fixpoint count_days (n : nat) (begin_ end_ totalDays : Z) : Z * Z :=
  match n with
  | O => (begin_, totalDays)
  | S n =>
      if negb (begin_ =? end_) then
        let dayDiff := getDay end_ - getDay begin_ in
        let monthDiff := getMonth end_ - getMonth begin_ in
        let yearDiff := getYear end_ - getYear begin_ in
        let days := yearDiff * 365 + monthDiff * 28 in
        let days := if days =? 0 then dayDiff else days in
        count_days n (addDate begin_ 0 0 days).1 end_ (totalDays + days)
      else (begin_, totalDays)
  end.

Definition durationMicrosec (value dt : Z) : Z :=
  if negb (isValid value) || negb (isValid dt) then UINT64_MAX
  else if value =? dt then 0
  else
    let '(begin_, end_) := if before dt value then (dt, value) else (value, dt) in
    let microDiff := getMicrosecDuringMillisec end_ - getMicrosecDuringMillisec begin_ in
    let milliDiff := getMillisec end_ - getMillisec begin_ in
    let secondDiff := getSecond end_ - getSecond begin_ in
    let minuteDiff := getMinute end_ - getMinute begin_ in
    let hourDiff := getHour end_ - getHour begin_ in
    let totalMicrosec := (((hourDiff * 60 + minuteDiff) * 60 + secondDiff) * 1000 + milliDiff) * 1000 + microDiff in
    let begin_ := (add begin_ 0 0 0 hourDiff minuteDiff secondDiff milliDiff microDiff).1 in
    if negb (begin_ =? end_) then
      let '(begin_, totalDays) := count_days 10 begin_ end_ 0 in
      if negb (begin_ =? end_) then UINT64_MAX
      else u64 (totalMicrosec + totalDays * DAY_MICROSECS)
    else u64 totalMicrosec.

Definition durationDays (value dt : Z) : Z :=
  let ret := durationMicrosec value dt in
  if negb (ret =? UINT64_MAX) then ret / DAY_MICROSECS else ret.

(** Examples from the calendar *)
Example leap_day : addDays (set 2024 2 28 0 0 0 0 0) 1 = (set 2024 2 29 0 0 0 0 0, true).
Proof. vm_compute. reflexivity. Qed.
Example century : durationDays (set 1999 12 31 0 0 0 0 0) (set 2100 3 1 0 0 0 0 0) = 36585.
Proof. vm_compute. reflexivity. Qed.
