(* ===== verification/DateShift.v ===== *)
(** * Adding days to a date

    [add_days] of DateAndTime moves in steps of 400 years, years and months.  A day that does not exist in the month it has been moved to counts
    from the first of that month; the number of the day is the same in every step as long as the year is not negative, and
    once it is negative the result lies before year 0. *)
From S2P Require Import Prelude Calendar DateAndTime.

Lemma isLeapYear_leap y : -1 <= y < 2 ^ 63 -> isLeapYear y = leap y.
Proof.
  intros Hy. destruct (decide (y = -1)) as [->|Hne]; [done|]. unfold isLeapYear, leap. rewrite u64_small by (unfold is_u64; lia).
  destruct (y mod 4 =? 0), (y mod 100 =? 0), (y mod 400 =? 0); done.
Qed.

Lemma daysInMonth_eq y m : is_month m -> daysInMonth y m = month_length (isLeapYear y) m.
Proof.
  intros Hm. unfold is_month in Hm. unfold daysInMonth. rewrite (u64_small m) by (unfold is_u64; lia).
  months m; destruct (isLeapYear y); reflexivity.
Qed.

Lemma daysInMonth_length y m : is_month m -> -1 <= y < 2 ^ 63 -> daysInMonth y m = month_length (leap y) m.
Proof. intros Hm Hy. by rewrite daysInMonth_eq, isLeapYear_leap. Qed.

(** The day that the state of the loops stands for *)
Definition target (st : shift) : Z := day_number (sh_year st) (sh_month st) (sh_day st) + sh_days st.

(** A month and a day that may be too large for it *)
Definition loose (st : shift) : Prop := is_month (sh_month st) /\ 1 <= sh_day st <= 31.
(** At most one day too large: February 29 in a common year *)
Definition snug (st : shift) : Prop :=
  loose st /\ (sh_day st <= month_length (leap (sh_year st)) (sh_month st) \/ sh_month st = 2 /\ sh_day st = 29).

Definition year_below (b : Z) (st : shift) : Prop := 0 <= sh_year st <= b.

Lemma snug_date y m d n : is_date y m d -> snug (mkShift y m d n).
Proof. intros [Hm Hd]. pose proof (month_length_range (leap y) m). split; [split; simpl; [done|lia]|left; simpl; lia]. Qed.

Lemma fix_day_spec st :
  loose st -> 0 <= sh_year st < 2 ^ 63 -> let st' := fix_day st in
  is_date (sh_year st') (sh_month st') (sh_day st') /\ day_number (sh_year st') (sh_month st') (sh_day st') = day_number (sh_year st) (sh_month st) (sh_day st) /\
  sh_days st' = sh_days st /\ sh_year st' = sh_year st.
Proof.
  intros [Hm Hd] Hy. cbv zeta. unfold fix_day. rewrite daysInMonth_length by (done || lia).
  pose proof (month_length_range (leap (sh_year st)) (sh_month st)).
  destruct (Z.ltb_spec 28 (sh_day st)); [destruct (Z.ltb_spec (month_length (leap (sh_year st)) (sh_month st)) (sh_day st))|].
  - cbn [sh_year sh_month sh_day sh_days]. destruct (next_month_date (sh_year st) (sh_month st) (sh_day st)) as [E1 E2]; [done|lia|].
    rewrite E2. done.
  - split; [|done]. split; [done|lia].
  - split; [|done]. split; [done|lia].
Qed.

Lemma fix_day_year st : sh_year (fix_day st) = sh_year st.
Proof. unfold fix_day. by repeat case_match. Qed.

(** ** 400 years *)
Lemma skip_400years_spec st : let st' := skip_400years st in
  target st' = target st /\ - 146097 < sh_days st' < 146097 /\ sh_month st' = sh_month st /\ sh_day st' = sh_day st /\
  leap (sh_year st') = leap (sh_year st) /\
  (0 <= sh_days st -> 0 <= sh_days st' /\ sh_year st <= sh_year st' <= sh_year st + sh_days st) /\
  (sh_days st <= 0 -> sh_days st' <= 0 /\ sh_year st + sh_days st <= sh_year st' <= sh_year st).
Proof.
  cbv zeta. unfold skip_400years. change daysPer400years with 146097.
  destruct ((146097 <=? sh_days st) || (sh_days st <=? - (146097))) eqn:Hc.
  - cbn [sh_year sh_month sh_day sh_days]. unfold target. cbn [sh_year sh_month sh_day sh_days].
    pose proof (Z.quot_rem' (sh_days st) 146097). set (f := Z.quot _ _) in *. replace (f * 400) with (400 * f) by lia.
    rewrite day_number_400, leap_400. split; [lia|].
    assert (- 146097 < sh_days st - f * 146097 < 146097 /\ (0 <= sh_days st -> 0 <= sh_days st - f * 146097 /\ 0 <= 400 * f <= sh_days st) /\
      (sh_days st <= 0 -> sh_days st - f * 146097 <= 0 /\ sh_days st <= 400 * f <= 0)) as (H1 & H2 & H3).
    { destruct (decide (0 <= sh_days st)).
      - pose proof (Z.rem_bound_pos (sh_days st) 146097 ltac:(lia) ltac:(lia)). lia.
      - pose proof (Z.rem_bound_pos_neg (sh_days st) 146097 ltac:(lia) ltac:(lia)). lia. }
    split_and!; try done; lia.
  - apply orb_false_iff in Hc as [H1%Z.leb_gt H2%Z.leb_gt]. split_and!; try done; lia.
Qed.

(** ** Forward *)

(** Month 13 is January of the next year. *)
Definition ext_number (y m d : Z) : Z := if decide (m = 13) then day_number (y + 1) 1 d else day_number y m d.
Lemma ext_number_month y m d : 1 <= m <= 12 -> ext_number y m d = day_number y m d.
Proof. intros. unfold ext_number. by rewrite decide_False by lia. Qed.
Lemma ext_number_next y m d : 1 <= m <= 12 -> ext_number y (m + 1) d = day_number y m d + month_length (leap y) m.
Proof.
  intros Hm. unfold ext_number. case_decide as H13; [|by apply day_number_month; lia].
  replace m with 12 by lia. apply day_number_december.
Qed.

Lemma year_measure days n : 365 <= n <= 366 -> (days - n) / 365 < days / 365.
Proof.
  intros Hn. assert ((days - n) / 365 <= (days - 365) / 365) by (apply Z.div_le_mono; lia).
  replace (days - 365) with (days + (-1) * 365) in * by lia. rewrite Z.div_add in * by lia. lia.
Qed.
Lemma month_measure days n : 28 <= n -> (days - n + 27) / 28 < (days + 27) / 28.
Proof.
  intros Hn. assert ((days - n + 27) / 28 <= (days - 28 + 27) / 28) by (apply Z.div_le_mono; lia).
  replace (days - 28 + 27) with (days + 27 + (-1) * 28) in * by lia. rewrite Z.div_add in * by lia. lia.
Qed.

Section forward.
Variables (T b : Z).
Hypothesis Hb : b < 2 ^ 62.

Definition forward (st : shift) : Prop :=
  target st = T /\ snug st /\ 0 <= sh_days st /\ 0 <= sh_year st /\ sh_year st + sh_days st <= b.

Lemma year_up_step st : forward st -> let daysInYear := if isLeapYear (sh_year st + (if 3 <=? sh_month st then 1 else 0)) then 366 else 365 in
  daysInYear <= sh_days st -> forward (mkShift (sh_year st + 1) (sh_month st) (sh_day st) (sh_days st - daysInYear)).
Proof.
  intros (HT & [[Hm Hd] Hs] & Hn & Hy & Hyb) n Hle.
  assert (n = if leap (if 3 <=? sh_month st then sh_year st + 1 else sh_year st) then 366 else 365) as En.
  { unfold n. destruct (3 <=? sh_month st); rewrite ?Z.add_0_r, isLeapYear_leap by lia; done. }
  assert (365 <= n <= 366) as Hr by (unfold n; destruct (isLeapYear _); lia). unfold forward, target, snug, loose. cbn [sh_year sh_month sh_day sh_days].
  split; [rewrite day_number_year by done; rewrite <- En; unfold target in HT; lia|]. split; [|lia]. split; [done|].
  destruct Hs as [Hs|Hs]; [|by right]. destruct (decide (sh_month st = 2 /\ sh_day st = 29)); [by right|left].
  unfold month_length in *. destruct (Z.eqb_spec (sh_month st) 2) as [E|]; [|done]. destruct (leap (sh_year st)), (leap (sh_year st + 1)); lia.
Qed.

Lemma years_up_spec st : forward st -> sh_days st < 146097 -> forward (years_up st) /\ sh_days (years_up st) <= 365.
Proof.
  intros Hf Hlim. pose (s1 := if 3 <=? sh_month st then 1 else 0). pose (n := fun st => if isLeapYear (sh_year st + s1) then 366 else 365).
  pose (C := fun st => (365 <=? sh_days st) && negb (sh_days st <? n st)).
  pose (B := fun st => mkShift (sh_year st + 1) (sh_month st) (sh_day st) (sh_days st - n st)).
  change (years_up st) with (while_loop C B 512 st).
  assert (forall st, 365 <= n st <= 366) as Hn by (intros; unfold n; destruct (isLeapYear _); lia).
  destruct (while_loop_total C B (fun st' => forward st' /\ sh_month st' = sh_month st) (fun st => sh_days st / 365) 512 st) as [[H1 _] H2].
  - intros st' [Hf' Hm] [Hc1%Z.leb_le Hc2%negb_true_iff%Z.ltb_ge]%andb_true_iff. specialize (Hn st').
    assert (1 <= sh_days st' / 365) as Hpos by (apply Z.div_le_lower_bound; lia). split; [lia|].
    split; [split; [|done]; pose proof (year_up_step st' Hf') as Hst; unfold B, n, s1 in *; rewrite <- Hm in *; by apply Hst|].
    unfold B. cbn [sh_days]. by apply year_measure.
  - done.
  - destruct Hf as (_ & _ & ? & _). apply Z.div_le_upper_bound; lia.
  - split; [done|]. specialize (Hn (while_loop C B 512 st)).
    apply andb_false_iff in H2 as [H2%Z.leb_gt|H2%negb_false_iff%Z.ltb_lt]; lia.
Qed.

Lemma day_up_step st : forward st -> 0 < sh_days st -> forward (day_up st) /\ (sh_days (day_up st) + 27) / 28 < (sh_days st + 27) / 28.
Proof.
  intros (HT & [[Hm Hd] Hs] & Hn & Hy & Hyb) Hpos. unfold day_up. rewrite daysInMonth_length by (done || lia).
  set (L := month_length (leap (sh_year st)) (sh_month st)) in *. pose proof (month_length_range (leap (sh_year st)) (sh_month st)) as HL. fold L in HL.
  set (st1 := if L <=? sh_days st then _ else _). set (st2 := if 12 <? sh_month st1 then _ else _).
  assert (1 <= sh_month st1 <= 13 /\ sh_year st1 = sh_year st /\ 1 <= sh_day st1 <= 31 /\ 0 <= sh_days st1 < sh_days st /\
    ext_number (sh_year st) (sh_month st1) (sh_day st1) + sh_days st1 = T /\ (sh_days st1 + 27) / 28 < (sh_days st + 27) / 28)
    as (Hm1 & Hy1 & Hd1 & Hn1 & HT1 & Hme).
  { unfold target in HT. unfold st1. destruct (Z.leb_spec L (sh_days st)) as [Hle|Hgt].
    - cbn [sh_year sh_month sh_day sh_days]. unfold is_month in Hm. rewrite ext_number_next by done. fold L.
      pose proof (month_measure (sh_days st) L ltac:(lia)). lia.
    - assert ((0 + 27) / 28 < (sh_days st + 27) / 28) as Hmeas.
      { change ((0 + 27) / 28) with 0. apply (Z.lt_le_trans _ 1); [lia|]. apply Z.div_le_lower_bound; lia. }
      unfold is_month in Hm. destruct (Z.ltb_spec L (sh_day st + sh_days st)); cbn [sh_year sh_month sh_day sh_days].
      + rewrite ext_number_next by done. fold L. assert (sh_day st <= L \/ sh_day st = 29 /\ L <= 29).
        { destruct Hs as [?|[E ?]]; [by left|right]. split; [done|]. unfold L. rewrite E. by destruct (leap (sh_year st)). }
        unfold day_number in *. lia.
      + rewrite ext_number_month by done. unfold day_number in *. lia. }
  assert (target st2 = T /\ loose st2 /\ sh_days st2 = sh_days st1 /\ 0 <= sh_year st2 /\ sh_year st2 + sh_days st2 <= b) as (HT2 & Hl2 & Hn2 & Hy2 & Hb2).
  { unfold st2, target, loose, is_month. destruct (Z.ltb_spec 12 (sh_month st1)); cbn [sh_year sh_month sh_day sh_days].
    - replace (sh_month st1) with 13 in HT1 by lia. unfold ext_number in HT1. rewrite decide_True in HT1 by done. rewrite Hy1. lia.
    - rewrite ext_number_month in HT1 by lia. rewrite Hy1. lia. }
  destruct (fix_day_spec st2 Hl2 ltac:(lia)) as (Hdate & Hnum & Hdays & Hyear). split; [|by rewrite Hdays, Hn2].
  unfold forward, target in *. rewrite Hnum, Hdays, Hyear. split; [done|]. split; [|lia].
  destruct (fix_day st2) as [y m d n']. by apply snug_date.
Qed.

Lemma day_up_loop st : forward st -> sh_days st <= 365 -> forward (days_up st) /\ sh_days (days_up st) = 0.
Proof.
  intros Hf Hlim. unfold days_up.
  destruct (while_loop_total (fun st => 0 <? sh_days st) day_up forward (fun st => (sh_days st + 27) / 28) 32 st) as [H1 H2%Z.ltb_ge].
  - intros st' Hf' Hc%Z.ltb_lt. destruct (day_up_step st' Hf' Hc). split; [|done]. apply Z.div_str_pos. lia.
  - done.
  - apply Z.div_le_upper_bound; lia.
  - split; [done|]. destruct H1 as (_ & _ & ? & _). lia.
Qed.
End forward.

(** ** Backward *)
Section backward.
Variable T : Z.

(** The day is right, or the year is negative and so is the day. *)
Definition backward (st : shift) : Prop :=
  loose st /\ sh_days st <= 0 /\ sh_year st < 2 ^ 62 /\ if decide (0 <= sh_year st) then target st = T else T < 0.

(** A month before year 0 *)
Lemma before_year_0 m d : is_month m -> d <= 31 -> day_number (-1) m d < 0.
Proof.
  intros Hm Hd. unfold day_number. pose proof (month_start_range (leap (-1)) m Hm) as Hr.
  change (leap (-1)) with false in *. change (year_start (-1)) with (-365). lia.
Qed.

Lemma year_down_step st : backward st -> let daysInYear := if isLeapYear (sh_year st + (if 3 <=? sh_month st then 0 else -1)) then -366 else -365 in
  sh_days st <= daysInYear -> backward (mkShift (sh_year st - 1) (sh_month st) (sh_day st) (sh_days st - daysInYear)).
Proof.
  intros ([Hm Hd] & Hn & Hy & HT) n Hle. split; [done|]. cbn [sh_year sh_month sh_day sh_days]. split; [lia|]. split; [lia|].
  unfold target in *. cbn [sh_year sh_month sh_day sh_days]. destruct (decide (0 <= sh_year st)) as [H0|H0].
  - assert (day_number (sh_year st - 1) (sh_month st) (sh_day st) + (sh_days st - n) = T) as E.
    { assert (n = - (if leap (if 3 <=? sh_month st then sh_year st else sh_year st - 1) then 366 else 365)) as ->.
      { unfold n. destruct (3 <=? sh_month st); rewrite ?Z.add_0_r, isLeapYear_leap by lia; [by destruct (leap _)|].
        replace (sh_year st + -1) with (sh_year st - 1) by lia. by destruct (leap _). }
      pose proof (day_number_year (sh_year st - 1) (sh_month st) (sh_day st) Hm) as Hyr. replace (sh_year st - 1 + 1) with (sh_year st) in Hyr by lia. lia. }
    case_decide; [done|]. replace (sh_year st - 1) with (-1) in E by lia. pose proof (before_year_0 (sh_month st) (sh_day st) Hm ltac:(lia)). lia.
  - by rewrite decide_False by lia.
Qed.

Lemma years_down_spec st : backward st -> - 146097 < sh_days st -> backward (years_down st) /\ -365 <= sh_days (years_down st).
Proof.
  intros Hf Hlim. pose (s1 := if 3 <=? sh_month st then 0 else -1). pose (n := fun st => if isLeapYear (sh_year st + s1) then -366 else -365).
  pose (C := fun st => (sh_days st <=? -365) && negb (n st <? sh_days st)).
  pose (B := fun st => mkShift (sh_year st - 1) (sh_month st) (sh_day st) (sh_days st - n st)).
  change (years_down st) with (while_loop C B 512 st).
  assert (forall st, -366 <= n st <= -365) as Hn by (intros; unfold n; destruct (isLeapYear _); lia).
  destruct (while_loop_total C B (fun st' => backward st' /\ sh_month st' = sh_month st) (fun st => - sh_days st / 365) 512 st) as [[H1 _] H2].
  - intros st' [Hf' Hm] [Hc1%Z.leb_le Hc2%negb_true_iff%Z.ltb_ge]%andb_true_iff. specialize (Hn st').
    assert (1 <= - sh_days st' / 365) as Hpos by (apply Z.div_le_lower_bound; lia). split; [lia|].
    split; [split; [|done]; pose proof (year_down_step st' Hf') as Hst; unfold B, n, s1 in *; rewrite <- Hm in *; by apply Hst|].
    unfold B. cbn [sh_days]. replace (- (sh_days st' - n st')) with (- sh_days st' - - n st') by lia. apply year_measure. lia.
  - done.
  - destruct Hf as (_ & ? & _). apply Z.div_le_upper_bound; lia.
  - split; [done|]. specialize (Hn (while_loop C B 512 st)).
    apply andb_false_iff in H2 as [H2%Z.leb_gt|H2%negb_false_iff%Z.ltb_lt]; lia.
Qed.

Lemma day_down_step st : backward st -> sh_days st < 0 -> backward (day_down st) /\ (- sh_days (day_down st) + 27) / 28 < (- sh_days st + 27) / 28.
Proof.
  intros ([Hm Hd] & Hn & Hy & HT) Hneg. unfold is_month in Hm.
  assert ((- 0 + 27) / 28 < (- sh_days st + 27) / 28) as Hzero.
  { change ((- 0 + 27) / 28) with 0. apply (Z.lt_le_trans _ 1); [lia|]. apply Z.div_le_lower_bound; lia. }
  unfold day_down. destruct (Z.ltb_spec (- sh_days st) (sh_day st)) as [Hlt|Hge].
  { split; [|done]. split; [split; cbn [sh_month sh_day]; unfold is_month; lia|]. cbn [sh_year sh_days]. split; [lia|]. split; [done|].
    unfold target, day_number in *. cbn [sh_year sh_month sh_day sh_days]. case_decide; lia. }
  set (ym := if sh_month st - 1 <? 1 then _ else _).
  assert (1 <= ym.2 <= 12 /\ ym.1 <= sh_year st /\ (0 <= ym.1 -> day_number ym.1 ym.2 (sh_day st) = day_number (sh_year st) (sh_month st) (sh_day st) - daysInMonth ym.1 ym.2) /\
    (ym.1 < 0 -> 0 <= sh_year st -> sh_year st = 0 /\ sh_month st = 1)) as (Hm' & Hy' & Hnum & Hcross).
  { unfold ym. destruct (Z.ltb_spec (sh_month st - 1) 1); cbn [fst snd].
    - split; [lia|]. split; [lia|]. split.
      + intros H0. rewrite daysInMonth_length by (unfold is_month; lia). replace (sh_month st) with 1 by lia.
        pose proof (day_number_december (sh_year st - 1) (sh_day st)) as E. replace (sh_year st - 1 + 1) with (sh_year st) in E by lia.
        rewrite month_length_december. lia.
      + lia.
    - split; [lia|]. split; [lia|]. split; [|lia]. intros H0. rewrite daysInMonth_length by (unfold is_month; lia).
      pose proof (day_number_month (sh_year st) (sh_month st - 1) (sh_day st) ltac:(lia)) as E. replace (sh_month st - 1 + 1) with (sh_month st) in E by lia. lia. }
  destruct ym as [y' m']. cbn [fst snd] in *.
  assert (28 <= daysInMonth y' m' <= 31) as HL by (rewrite daysInMonth_eq by done; apply month_length_range).
  assert (0 <= sh_year st -> y' < 0 -> T < 0) as HTneg.
  { intros H0 H1. rewrite decide_True in HT by done. destruct (Hcross H1 H0) as [E1 E2]. unfold target in HT. rewrite E1, E2 in HT.
    unfold day_number in HT. change (year_start 0) with 0 in HT. change (month_start (leap 0) 1) with 0 in HT. lia. }
  destruct (Z.leb_spec (daysInMonth y' m') (- sh_days st)) as [Hle|Hgt].
  - split; [|cbn [sh_days]; replace (- (sh_days st + daysInMonth y' m')) with (- sh_days st - daysInMonth y' m') by lia; apply month_measure; lia].
    split; [done|]. cbn [sh_year sh_days]. split; [lia|]. split; [lia|]. unfold target in *. cbn [sh_year sh_month sh_day sh_days].
    destruct (decide (0 <= y')) as [H0|H0]; [rewrite decide_True in HT by lia; specialize (Hnum H0); lia|].
    destruct (decide (0 <= sh_year st)); [apply HTneg; lia|done].
  - split; [|done]. split; [split; [done|cbn [sh_day]; lia]|]. cbn [sh_year sh_days]. split; [lia|]. split; [lia|]. unfold target in *. cbn [sh_year sh_month sh_day sh_days].
    destruct (decide (0 <= y')) as [H0|H0]; [rewrite decide_True in HT by lia; specialize (Hnum H0); unfold day_number in *; lia|].
    destruct (decide (0 <= sh_year st)); [apply HTneg; lia|done].
Qed.

Lemma day_down_loop st : backward st -> -365 <= sh_days st -> backward (days_down st) /\ sh_days (days_down st) = 0.
Proof.
  intros Hf Hlim. unfold days_down.
  destruct (while_loop_total (fun st => sh_days st <? 0) day_down backward (fun st => (- sh_days st + 27) / 28) 32 st) as [H1 H2%Z.ltb_ge].
  - intros st' Hf' Hc%Z.ltb_lt. destruct (day_down_step st' Hf' Hc). split; [|done]. apply Z.div_str_pos. lia.
  - done.
  - apply Z.div_le_upper_bound; lia.
  - split; [done|]. destruct H1 as (_ & ? & _). lia.
Qed.
End backward.

(** ** All steps *)
Lemma days_up_done st : sh_days st <= 0 -> days_up st = st.
Proof. intros. unfold days_up. apply while_loop_done. by apply Z.ltb_ge. Qed.
Lemma days_down_done st : 0 <= sh_days st -> days_down st = st.
Proof. intros. unfold days_down. apply while_loop_done. by apply Z.ltb_ge. Qed.

#[local] Opaque days_up days_down years_up years_down.
Definition after_400years (st : shift) : shift := days_down (days_up (skip_years st)).

Lemma after_400years_forward T b st :
  b < 2 ^ 62 -> forward T b st -> sh_days st < 146097 -> forward T b (after_400years st) /\ sh_days (after_400years st) = 0.
Proof.
  intros Hb Hf Hlim. assert (forward T b (skip_years st) /\ sh_days (skip_years st) <= 365) as [Hf2 Hn2].
  { unfold skip_years. destruct (Z.leb_spec 365 (sh_days st)); [by apply years_up_spec|]. pose proof Hf as (_ & _ & ? & _).
    rewrite (proj2 (Z.leb_gt _ _)) by lia. split; [done|lia]. }
  destruct (day_up_loop T b Hb _ Hf2 Hn2) as [Hf3 Hn3]. unfold after_400years. by rewrite days_down_done by lia.
Qed.

Lemma after_400years_backward T st :
  backward T st -> - 146097 < sh_days st -> backward T (after_400years st) /\ sh_days (after_400years st) = 0.
Proof.
  intros Hf Hlim. assert (backward T (skip_years st) /\ -365 <= sh_days (skip_years st)) as [Hf2 Hn2].
  { unfold skip_years. pose proof Hf as (_ & ? & _). rewrite (proj2 (Z.leb_gt 365 _)) by lia.
    destruct (Z.leb_spec (sh_days st) (-365)); [by apply years_down_spec|]. split; [done|lia]. }
  unfold after_400years. rewrite days_up_done by apply Hf2. by apply day_down_loop.
Qed.

Lemma add_days_spec y m d days :
  is_date y m d -> 0 <= y < 2 ^ 16 -> - (2 ^ 61 + 2 ^ 59) <= days <= 2 ^ 61 + 2 ^ 59 ->
  let st := add_days (mkShift y m d days) in let n := day_number y m d + days in
  loose st /\ sh_year st < 2 ^ 62 /\ if decide (0 <= n) then 0 <= sh_year st /\ day_number (sh_year st) (sh_month st) (sh_day st) = n else sh_year st < 0.
Proof.
  intros Hdate Hy Hdays. cbv zeta. change (add_days (mkShift y m d days)) with (after_400years (skip_400years (mkShift y m d days))).
  pose proof (skip_400years_spec (mkShift y m d days)) as (HT & Hr & Hm & Hd & Hl & Hup & Hdown). unfold target in HT at 2.
  cbn [sh_year sh_month sh_day sh_days] in *. generalize dependent (skip_400years (mkShift y m d days)). intros st1 HT Hr Hm Hd Hl Hup Hdown.
  set (T := day_number y m d + days) in *. pose proof Hdate as [Hm0 Hd0]. pose proof (month_length_range (leap y) m) as HL.
  destruct (decide (0 <= days)) as [Hpos|Hneg].
  - destruct (Hup Hpos) as [Hn1 Hy1].
    destruct (after_400years_forward T (2 ^ 61 + 2 ^ 59 + 2 ^ 16 + 146097) st1) as [(HT3 & [Hl3 _] & _ & Hy3 & Hb3) Hn3]; [lia| |lia|].
    { split; [done|]. split; [|lia]. split; [split; [by rewrite Hm|lia]|]. left. rewrite Hl, Hm, Hd. lia. }
    split; [done|]. split; [lia|]. unfold target in HT3. pose proof (proj2 (date_nonneg y m d Hdate)). rewrite decide_True by lia. lia.
  - destruct (Hdown ltac:(lia)) as [Hn1 Hy1].
    destruct (after_400years_backward T st1) as [(Hl3 & _ & Hb3 & HT3) Hn3]; [|lia|].
    { split; [split; [by rewrite Hm|lia]|]. split; [done|]. split; [lia|]. case_decide as H0; [done|].
      assert (is_date (sh_year st1) (sh_month st1) (sh_day st1)) as H1%date_nonneg by (unfold is_date; by rewrite Hl, Hm, Hd).
      unfold target in HT. lia. }
    split; [done|]. split; [done|]. unfold target in HT3. rewrite Hn3 in HT3. generalize dependent (after_400years st1). intros st3 Hl3 Hb3 HT3 Hn3.
    destruct (decide (0 <= sh_year st3)) as [H0|H0].
    + destruct (fix_day_spec st3 Hl3 ltac:(lia)) as (Hdate3 & Hnum3 & _ & Hy3). pose proof (proj2 (date_nonneg _ _ _ Hdate3)) as Hnn.
      rewrite decide_True by lia. lia.
    + rewrite decide_False by lia. lia.
Qed.
