(* ===== verification/DateFields.v ===== *)
(** * The fields of a DateAndTime

    [pack] is the number the fields stand for; the bit operations of DateAndTime compute with it. *)
From S2P Require Import Prelude Calendar DateAndTime DateShift.

Definition pack (y m d h mi s ms us : Z) : Z :=
  ((((((y * 2 ^ 4 + m) * 2 ^ 5 + d) * 2 ^ 5 + h) * 2 ^ 6 + mi) * 2 ^ 6 + s) * 2 ^ 10 + ms) * 2 ^ 10 + us.

Definition in_fields (y m d h mi s ms us : Z) : Prop :=
  0 <= y < 2 ^ 16 /\ 0 <= m < 2 ^ 4 /\ 0 <= d < 2 ^ 5 /\ 0 <= h < 2 ^ 5 /\ 0 <= mi < 2 ^ 6 /\ 0 <= s < 2 ^ 6 /\ 0 <= ms < 2 ^ 10 /\ 0 <= us < 2 ^ 10.

(** The two upper bits are reserved. *)
Definition is_stamp (v : Z) : Prop := 0 <= v < 2 ^ 62.

Lemma field_u8 v k w : 0 <= k -> 0 <= w <= 8 -> Z.land (u8 (Z.shiftr v k)) (Z.ones w) = (v / 2 ^ k) mod 2 ^ w.
Proof.
  intros Hk Hw. unfold u8. rewrite Z.land_ones, Z.shiftr_div_pow2 by lia. apply Z.mod_mod_divide.
  exists (2 ^ (8 - w)). rewrite <- Z.pow_add_r by lia. f_equal. lia.
Qed.
Lemma field_u16 v k w : 0 <= k -> 0 <= w <= 16 -> Z.land (u16 (Z.shiftr v k)) (Z.ones w) = (v / 2 ^ k) mod 2 ^ w.
Proof.
  intros Hk Hw. unfold u16. rewrite Z.land_ones, Z.shiftr_div_pow2 by lia. apply Z.mod_mod_divide.
  exists (2 ^ (16 - w)). rewrite <- Z.pow_add_r by lia. f_equal. lia.
Qed.

(** The next field of a number *)
Lemma field_next v k w : 0 <= k -> 0 <= w -> v / 2 ^ k = v / 2 ^ (k + w) * 2 ^ w + (v / 2 ^ k) mod 2 ^ w.
Proof. intros Hk Hw. rewrite Z.pow_add_r, <- Z.div_div by lia. rewrite (Z.div_mod (v / 2 ^ k) (2 ^ w)) at 1 by lia. lia. Qed.

(** Every number below 2^62 is made of its fields. *)
Lemma unpack v : is_stamp v -> let y := getYear v in let m := getMonth v in let d := getDay v in let h := getHour v in
  let mi := getMinute v in let s := getSecond v in let ms := getMillisec v in let us := getMicrosecDuringMillisec v in
  in_fields y m d h mi s ms us /\ v = pack y m d h mi s ms us.
Proof.
  intros Hv. cbv zeta. unfold is_stamp in Hv. unfold getYear, getMonth, getDay, getHour, getMinute, getSecond, getMillisec, getMicrosecDuringMillisec.
  change 15 with (Z.ones 4). change 31 with (Z.ones 5). change 63 with (Z.ones 6). change 1023 with (Z.ones 10).
  rewrite <- (Z.shiftr_0_r v) at 8. rewrite <- (Z.shiftr_0_r v) at 17. rewrite !field_u8, !field_u16 by lia. unfold u16. rewrite Z.shiftr_div_pow2 by lia.
  rewrite (Z.mod_small (v / 2 ^ 46)) by (split; [apply Z.div_pos; lia|apply Z.div_lt_upper_bound; lia]).
  split.
  - unfold in_fields. split_and!; try (apply Z.mod_pos_bound; lia); [apply Z.div_pos; lia|apply Z.div_lt_upper_bound; lia].
  - unfold pack. change 46 with (42 + 4). rewrite <- field_next by lia. change 42 with (37 + 5). rewrite <- field_next by lia.
    change 37 with (32 + 5). rewrite <- field_next by lia. change 32 with (26 + 6). rewrite <- field_next by lia. change 26 with (20 + 6). rewrite <- field_next by lia.
    change 20 with (10 + 10). rewrite <- field_next by lia. change 10 with (0 + 10) at 1 3. rewrite <- field_next by lia. by rewrite Z.div_1_r.
Qed.

Lemma pack_stamp y m d h mi s ms us : in_fields y m d h mi s ms us -> is_stamp (pack y m d h mi s ms us).
Proof. unfold in_fields, is_stamp, pack. lia. Qed.

Lemma pack_inj y m d h mi s ms us y' m' d' h' mi' s' ms' us' :
  in_fields y m d h mi s ms us -> in_fields y' m' d' h' mi' s' ms' us' -> pack y m d h mi s ms us = pack y' m' d' h' mi' s' ms' us' ->
  y = y' /\ m = m' /\ d = d' /\ h = h' /\ mi = mi' /\ s = s' /\ ms = ms' /\ us = us'.
Proof.
  intros (? & ? & ? & ? & ? & ? & ? & ?) (? & ? & ? & ? & ? & ? & ? & ?) E. unfold pack in E.
  apply digit_inj in E as [E ->]; [|done..]. apply digit_inj in E as [E ->]; [|done..]. apply digit_inj in E as [E ->]; [|done..].
  apply digit_inj in E as [E ->]; [|done..]. apply digit_inj in E as [E ->]; [|done..]. apply digit_inj in E as [E ->]; [|done..].
  apply digit_inj in E as [E ->]; [|done..]. done.
Qed.

Lemma getters y m d h mi s ms us : in_fields y m d h mi s ms us -> let v := pack y m d h mi s ms us in
  getYear v = y /\ getMonth v = m /\ getDay v = d /\ getHour v = h /\ getMinute v = mi /\ getSecond v = s /\ getMillisec v = ms /\ getMicrosecDuringMillisec v = us.
Proof. intros H v. destruct (unpack v (pack_stamp _ _ _ _ _ _ _ _ H)) as [H' E]. symmetry in E. by apply pack_inj in E. Qed.

Lemma lor_field a b n v : 0 <= n -> (exists k, a = k * 2 ^ n) -> 0 <= b < 2 ^ n -> a + b = v -> Z.lor a b = v.
Proof. intros Hn [k ->] Hb <-. by apply lor_shift. Qed.

Lemma u64_shiftl x k : 0 <= k -> 0 <= x -> x < 2 ^ (64 - k) -> k < 64 -> u64 (Z.shiftl x k) = x * 2 ^ k.
Proof.
  intros Hk Hx Hx' Hk'. rewrite Z.shiftl_mul_pow2 by done. apply u64_small. unfold is_u64. split; [lia|].
  replace (2 ^ 64) with (2 ^ (64 - k) * 2 ^ k) by (rewrite <- Z.pow_add_r by lia; f_equal; lia). apply Z.mul_lt_mono_pos_r; [|done]. lia.
Qed.

Lemma land_high v w k : 0 <= k -> Z.land v (Z.shiftl w k) = Z.shiftl (Z.land (Z.shiftr v k) w) k.
Proof.
  intros Hk. apply Z.bits_inj'. intros i Hi. rewrite Z.land_spec. destruct (Z.lt_ge_cases i k) as [Hlt|Hge].
  - by rewrite !Z.shiftl_spec_low, andb_false_r.
  - rewrite !Z.shiftl_spec by lia. rewrite Z.land_spec, Z.shiftr_spec by lia. by replace (i - k + k) with i by lia.
Qed.

Section pack.
Context (y m d h mi s ms us : Z).
Hypothesis Hf : in_fields y m d h mi s ms us.
Notation date := ((y * 2 ^ 4 + m) * 2 ^ 5 + d).
Notation time := ((((h * 2 ^ 6 + mi) * 2 ^ 6 + s) * 2 ^ 10 + ms) * 2 ^ 10 + us).

Lemma pack_split : pack y m d h mi s ms us = date * 2 ^ 37 + time.
Proof. unfold pack. lia. Qed.
Lemma time_range : 0 <= time < 2 ^ 37.
Proof. unfold in_fields in Hf. lia. Qed.

Lemma date_bits : Z.lor (Z.lor (u64 (Z.shiftl y 46)) (u64 (Z.shiftl m 42))) (u64 (Z.shiftl d 37)) = date * 2 ^ 37.
Proof.
  unfold in_fields in Hf. rewrite !u64_shiftl by lia. rewrite (lor_field (y * 2 ^ 46) (m * 2 ^ 42) 46 ((y * 2 ^ 4 + m) * 2 ^ 42)); [|lia|by exists y|lia|lia].
  apply (lor_field _ _ 42); [lia|by eexists|lia|lia].
Qed.

Lemma time_bits x : x = 0 \/ (exists k, x = k * 2 ^ 37) ->
  Z.lor (Z.lor (Z.lor (Z.lor (Z.lor x (u64 (Z.shiftl h 32))) (u64 (Z.shiftl mi 26))) (u64 (Z.shiftl s 20))) (u64 (Z.shiftl ms 10))) (u64 us) = x + time.
Proof.
  intros Hx. assert (exists k, x = k * 2 ^ 37) as [k ->] by (destruct Hx as [->|?]; [by exists 0|done]). unfold in_fields in Hf.
  rewrite !u64_shiftl by lia. rewrite (u64_small us) by (unfold is_u64; lia).
  rewrite (lor_field _ (h * 2 ^ 32) 37 ((k * 2 ^ 5 + h) * 2 ^ 32)); [|lia|by eexists|lia|lia].
  rewrite (lor_field _ (mi * 2 ^ 26) 32 (((k * 2 ^ 5 + h) * 2 ^ 6 + mi) * 2 ^ 26)); [|lia|by eexists|lia|lia].
  rewrite (lor_field _ (s * 2 ^ 20) 26 ((((k * 2 ^ 5 + h) * 2 ^ 6 + mi) * 2 ^ 6 + s) * 2 ^ 20)); [|lia|by eexists|lia|lia].
  rewrite (lor_field _ (ms * 2 ^ 10) 20 (((((k * 2 ^ 5 + h) * 2 ^ 6 + mi) * 2 ^ 6 + s) * 2 ^ 10 + ms) * 2 ^ 10)); [|lia|by eexists|lia|lia].
  apply (lor_field _ _ 10); [lia|by eexists|lia|lia].
Qed.

Lemma set_pack : set y m d h mi s ms us = pack y m d h mi s ms us.
Proof. unfold set. rewrite date_bits, time_bits by (right; by eexists). by rewrite pack_split. Qed.

Lemma setDate_pack y' m' d' : 0 <= y' < 2 ^ 16 -> 0 <= m' < 2 ^ 4 -> 0 <= d' < 2 ^ 5 ->
  setDate (pack y' m' d' h mi s ms us) y m d = pack y m d h mi s ms us.
Proof.
  intros Hy Hm Hd. unfold setDate. rewrite date_bits. change 0x1fffffffff with (Z.ones 37). rewrite Z.land_ones by lia.
  rewrite Z.lor_comm. apply (lor_field _ _ 37); [lia|by eexists|apply Z.mod_pos_bound; lia|]. rewrite pack_split. f_equal.
  replace (pack y' m' d' h mi s ms us) with (time + ((y' * 2 ^ 4 + m') * 2 ^ 5 + d') * 2 ^ 37) by (unfold pack; lia).
  rewrite Z_mod_plus_full. apply Z.mod_small, time_range.
Qed.

Lemma setTime_pack h' mi' s' ms' us' : in_fields y m d h' mi' s' ms' us' ->
  setTime (pack y m d h' mi' s' ms' us') h mi s ms us = pack y m d h mi s ms us.
Proof.
  intros Hf'. unfold setTime.
  rewrite <- (Z.lor_0_l (u64 (Z.shiftl h 32))), time_bits by (by left). rewrite Z.add_0_l.
  assert (Z.land (pack y m d h' mi' s' ms' us') (u64 (Z.shiftl 0x1ffffff 37)) = date * 2 ^ 37) as ->.
  { change (u64 (Z.shiftl 0x1ffffff 37)) with (Z.shiftl (Z.ones 25) 37). rewrite land_high, Z.land_ones, Z.shiftr_div_pow2, Z.shiftl_mul_pow2 by lia. f_equal.
    replace (pack y m d h' mi' s' ms' us') with (((((h' * 2 ^ 6 + mi') * 2 ^ 6 + s') * 2 ^ 10 + ms') * 2 ^ 10 + us') + date * 2 ^ 37) by (unfold pack; lia).
    rewrite Z.div_add, Z.div_small by (unfold in_fields in Hf'; lia). apply Z.mod_small. unfold in_fields in Hf. lia. }
  apply (lor_field _ _ 37); [lia|by eexists|apply time_range|]. by rewrite pack_split.
Qed.
End pack.

(** ** Validity *)
Definition is_time (h mi s ms us : Z) : Prop := 0 <= h < 24 /\ 0 <= mi < 60 /\ 0 <= s < 60 /\ 0 <= ms < 1000 /\ 0 <= us < 1000.
Definition is_date_time (y m d h mi s ms us : Z) : Prop := 0 <= y < 2 ^ 16 /\ is_date y m d /\ is_time h mi s ms us.

Lemma is_date_time_fields y m d h mi s ms us : is_date_time y m d h mi s ms us -> in_fields y m d h mi s ms us.
Proof.
  unfold is_date_time, is_date, is_month, is_time, in_fields. pose proof (month_length_range (leap y) m). lia.
Qed.

(** The test with the months spelled out accepts the days of the calendar. *)
Lemma isValidParts_spec y m d h mi s ms us :
  0 <= y -> 0 <= m -> 0 <= d -> 0 <= h -> 0 <= mi -> 0 <= s -> 0 <= ms -> 0 <= us ->
  isValidParts y m d h mi s ms us = true <-> is_date_time y m d h mi s ms us.
Proof.
  intros Hy Hm Hd Hh Hmi Hs Hms Hus. unfold isValidParts, is_date_time, is_date, is_month, month_length, is_time.
  destruct (Z.ltb_spec 0xffff y); [split; [done|lia]|]. rewrite isLeapYear_leap by lia.
  destruct (Z.ltb_spec 12 m); [split; [done|lia]|]. destruct (Z.eqb_spec m 0); [split; [done|lia]|].
  destruct (Z.ltb_spec 31 d) as [Hd31|Hd31]; [split; [done|]; repeat case_match; lia|].
  destruct (Z.eqb_spec d 0); [split; [done|lia]|]. cbn [orb].
  assert ((let bad := ((d =? 31) && negb (m =? 1) && negb (m =? 3) && negb (m =? 5) && negb (m =? 7) && negb (m =? 8) && negb (m =? 10) && negb (m =? 12)) ||
     ((d =? 30) && (m =? 2)) || ((d =? 29) && (m =? 2) && negb (leap y)) in bad = false) <->
    d <= (if m =? 2 then if leap y then 29 else 28 else if (m =? 4) || (m =? 6) || (m =? 9) || (m =? 11) then 30 else 31)) as Hday.
  { cbv zeta. destruct (leap y); months m; simpl; rewrite ?andb_true_r, ?andb_false_r, ?orb_false_r; destruct (Z.eqb_spec d 31), (Z.eqb_spec d 30), (Z.eqb_spec d 29); simpl; split; done || lia. }
  cbv zeta in Hday. destruct (_ && negb (m =? 12)); [split; [done|]; intros (_ & [_ [_ Hx%Hday]] & _); done|].
  destruct ((d =? 30) && (m =? 2)); [split; [done|]; intros (_ & [_ [_ Hx%Hday]] & _); done|].
  destruct ((d =? 29) && (m =? 2) && negb (leap y)); [split; [done|]; intros (_ & [_ [_ Hx%Hday]] & _); done|].
  pose proof (proj1 Hday eq_refl) as Hd'. clear Hday. destruct (Z.leb_spec 24 h); [split; [done|lia]|]. destruct (Z.leb_spec 60 mi); [split; [done|lia]|].
  destruct (Z.leb_spec 60 s); [split; [done|lia]|]. destruct (Z.leb_spec 1000 ms); [split; [done|lia]|]. destruct (Z.leb_spec 1000 us); [split; [done|lia]|].
  split; [intros _; split; [lia|]; split; [|lia]; split; lia|done].
Qed.

(** A well-formed value: no reserved bit and a valid date and time *)
Definition well_formed (v : Z) : Prop := is_stamp v /\ isValid v = true.

Lemma well_formed_pack y m d h mi s ms us : is_date_time y m d h mi s ms us -> well_formed (pack y m d h mi s ms us).
Proof.
  intros Hv. pose proof (is_date_time_fields _ _ _ _ _ _ _ _ Hv) as Hf. split; [by apply pack_stamp|].
  unfold isValid. destruct (getters _ _ _ _ _ _ _ _ Hf) as (-> & -> & -> & -> & -> & -> & -> & ->).
  destruct (Z.eqb_spec (pack y m d h mi s ms us) 0) as [E|].
  - destruct Hv as (_ & [Hm _] & _). unfold is_month, pack, in_fields in *. lia.
  - unfold in_fields in Hf. by apply isValidParts_spec; try lia.
Qed.

Lemma well_formed_inv v : well_formed v -> exists y m d h mi s ms us, v = pack y m d h mi s ms us /\ is_date_time y m d h mi s ms us.
Proof.
  intros [Hv Hok]. destruct (unpack v Hv) as [Hf E]. eexists _, _, _, _, _, _, _, _. split; [exact E|].
  unfold isValid in Hok. destruct (v =? 0); [done|]. unfold in_fields in Hf. by apply isValidParts_spec in Hok; try lia.
Qed.

(** ** Sums of DateAndTime

    [addAndComputeCarry] is division with remainder that rounds down, and [add] moves a point of time by the given amounts, as long as no amount exceeds 2^61
    (2^61 microseconds are 73,000 years, more than the 65,536 years of the type). *)

(** ** Carries *)
Definition moderate (x : Z) : Prop := - 2 ^ 61 <= x <= 2 ^ 61.

Lemma addWithoutOverflow_exact a b : is_s64 (a + b) -> addWithoutOverflow a b = Some (a + b).
Proof.
  intros H. unfold addWithoutOverflow. rewrite s64_small by done.
  destruct (Z.ltb_spec a 0), (Z.ltb_spec b 0), (Z.ltb_spec 0 a), (Z.ltb_spec 0 b), (Z.ltb_spec 0 (a + b)), (Z.ltb_spec (a + b) 0); cbn [andb]; done || lia.
Qed.

Lemma quot_down low f : 0 < f -> low < 0 -> Z.quot (low - f + 1) f = low / f.
Proof.
  intros Hf Hlow. replace (low - f + 1) with (- (f - 1 - low)) by lia. rewrite Z.quot_opp_l, Z.quot_div_nonneg by lia.
  Z.div_mod_to_equations. nia.
Qed.

Lemma addAndComputeCarry_spec low f a b :
  0 < f <= 1000 -> 0 <= low < f -> moderate a -> moderate b ->
  addAndComputeCarry low f a b = Some ((low + a + b) mod f, (low + a + b) / f).
Proof.
  unfold moderate. intros Hf Hlow Ha Hb. unfold addAndComputeCarry. rewrite addWithoutOverflow_exact by (unfold is_s64; lia). cbn [mbind option_bind].
  assert ((if negb (b =? 0) then addWithoutOverflow (low + a) b else Some (low + a)) = Some (low + a + b)) as ->.
  { destruct (Z.eqb_spec b 0) as [->|]; cbn [negb]; [by rewrite Z.add_0_r|]. apply addWithoutOverflow_exact. unfold is_s64. lia. }
  cbn [mbind option_bind]. f_equal. set (n := low + a + b) in *.
  destruct (Z.eqb_spec n 0) as [->|Hne]; [by rewrite Z.mod_0_l, Z.div_0_l by lia|]. destruct (Z.ltb_spec 0 n).
  - by rewrite Z.rem_mod_nonneg, Z.quot_div_nonneg by lia.
  - rewrite (s64_small (n - f)) by (unfold is_s64; lia). rewrite (s64_small (n - f + 1)) by (unfold is_s64; lia). rewrite quot_down by lia.
    pose proof (Z.div_mod n f ltac:(lia)). pose proof (Z.mod_pos_bound n f ltac:(lia)).
    rewrite (s64_small (n / f * f)) by (unfold is_s64; nia). rewrite s64_small by (unfold is_s64; nia). f_equal. nia.
Qed.

(** A step of [add] that the code skips when there is nothing to add *)
Lemma carry_step (c : bool) low f a b :
  12 <= f <= 1000 -> 0 <= low < f -> moderate a -> - 2 ^ 59 <= b <= 2 ^ 59 -> (c = false -> a = 0 /\ b = 0) ->
  exists l k, (if c then addAndComputeCarry low f a b else Some (low, 0)) = Some (l, k) /\ 0 <= l < f /\ low + a + b = k * f + l /\ - 2 ^ 59 <= k <= 2 ^ 59.
Proof.
  intros Hf Hlow Ha Hb Hc. exists ((low + a + b) mod f), ((low + a + b) / f).
  pose proof (Z.div_mod (low + a + b) f ltac:(lia)). pose proof (Z.mod_pos_bound (low + a + b) f ltac:(lia)). split; [|unfold moderate in Ha; nia].
  destruct c; [apply addAndComputeCarry_spec; unfold moderate in *; try done; lia|].
  destruct (Hc eq_refl) as [-> ->]. rewrite !Z.add_0_r. by rewrite Z.mod_small, Z.div_small.
Qed.

(** ** The time of day *)
Definition time_of_day (h mi s ms us : Z) : Z := (((h * 60 + mi) * 60 + s) * 1000 + ms) * 1000 + us.
Definition microsecs (hours minutes seconds millisecs microsecs : Z) : Z := time_of_day hours minutes seconds millisecs microsecs.

Lemma time_of_day_range h mi s ms us : is_time h mi s ms us -> 0 <= time_of_day h mi s ms us < DAY_MICROSECS.
Proof. unfold is_time, time_of_day. change DAY_MICROSECS with 86400000000. lia. Qed.

Lemma addTime_spec y m d h mi s ms us hours minutes seconds millisecs micros :
  in_fields y m d h mi s ms us -> is_time h mi s ms us -> moderate hours -> moderate minutes -> moderate seconds -> moderate millisecs -> moderate micros ->
  exists h' mi' s' ms' us' k, addTime (pack y m d h mi s ms us) hours minutes seconds millisecs micros = Some (h', mi', s', ms', us', k) /\
    is_time h' mi' s' ms' us' /\ - 2 ^ 59 <= k <= 2 ^ 59 /\
    time_of_day h mi s ms us + microsecs hours minutes seconds millisecs micros = k * DAY_MICROSECS + time_of_day h' mi' s' ms' us'.
Proof.
  intros Hf (Hh & Hmi & Hs & Hms & Hus) H1 H2 H3 H4 H5. unfold addTime.
  destruct (getters _ _ _ _ _ _ _ _ Hf) as (_ & _ & _ & -> & -> & -> & -> & ->).
  destruct (carry_step (negb (micros =? 0)) us 1000 micros 0) as (us' & k0 & -> & Hus' & E0 & Hk0); [done..|lia| |].
  { intros ?%negb_false_iff%Z.eqb_eq. done. }
  destruct (carry_step (negb (millisecs =? 0) || negb (k0 =? 0)) ms 1000 millisecs k0) as (ms' & k1 & E & Hms' & E1 & Hk1); [done..|lia| |cbn [mbind option_bind]; rewrite E; clear E].
  { intros [?%negb_false_iff%Z.eqb_eq ?%negb_false_iff%Z.eqb_eq]%orb_false_iff. done. }
  destruct (carry_step (negb (seconds =? 0) || negb (k1 =? 0)) s 60 seconds k1) as (s' & k2 & E & Hs' & E2 & Hk2); [done..|lia| |cbn [mbind option_bind]; rewrite E; clear E].
  { intros [?%negb_false_iff%Z.eqb_eq ?%negb_false_iff%Z.eqb_eq]%orb_false_iff. done. }
  destruct (carry_step (negb (Z.lor minutes k2 =? 0)) mi 60 minutes k2) as (mi' & k3 & E & Hmi' & E3 & Hk3); [done..|lia| |cbn [mbind option_bind]; rewrite E; clear E].
  { intros ?%negb_false_iff%Z.eqb_eq. by apply Z.lor_eq_0_iff. }
  destruct (carry_step (negb (Z.lor hours k3 =? 0)) h 24 hours k3) as (h' & k4 & E & Hh' & E4 & Hk4); [done..|lia| |cbn [mbind option_bind]; rewrite E; clear E].
  { intros ?%negb_false_iff%Z.eqb_eq. by apply Z.lor_eq_0_iff. }
  exists h', mi', s', ms', us', k4. split; [done|]. split; [done|]. split; [done|]. unfold microsecs, time_of_day. change DAY_MICROSECS with 86400000000. lia.
Qed.

(** ** Dates *)
Definition YEARS : Z := 2 ^ 16.
(** The days of the supported years *)
Definition in_calendar (n : Z) : Prop := 0 <= n < year_start YEARS.
#[export] Instance in_calendar_dec n : Decision (in_calendar n) := and_dec _ _.

Lemma in_calendar_date y m d : is_date y m d -> in_calendar (day_number y m d) <-> 0 <= y < YEARS.
Proof.
  intros Hd. pose proof (date_nonneg y m d Hd) as H0. pose proof (date_in_year y m d Hd) as Hy. unfold in_calendar.
  destruct (decide (y < YEARS)).
  - pose proof (year_start_le (y + 1) YEARS ltac:(lia)). lia.
  - pose proof (year_start_le YEARS y ltac:(lia)). lia.
Qed.

(** The end of [add]: the day that the loops have reached becomes a date, or the year is out of range. *)
Definition finish_add (value : Z) (st : shift) : Z * bool :=
  let st := fix_day st in
  if (sh_year st <? 0) || (0xffff <? sh_year st) then (value, false)
  else (setDate value (sh_year st) (sh_month st) (sh_day st), true).

Section date.
Context (y m d h mi s ms us : Z).
Hypothesis Hv : is_date_time y m d h mi s ms us.
Notation v := (pack y m d h mi s ms us).

Lemma pack_valid : isValid v = true /\ getYear v = y /\ getMonth v = m /\ getDay v = d.
Proof.
  split; [by apply well_formed_pack|]. by destruct (getters _ _ _ _ _ _ _ _ (is_date_time_fields _ _ _ _ _ _ _ _ Hv)) as (-> & -> & -> & _).
Qed.

Lemma addDate_eq years months days : addDate v years months days =
  match (st ← add_months months (add_days (mkShift y m d days)); add_years years st) with None => (v, false) | Some st => finish_add v st end.
Proof. unfold addDate. destruct pack_valid as (-> & -> & -> & ->). done. Qed.

Lemma finish_add_spec st : loose st -> sh_year st < 2 ^ 63 ->
  if decide (0 <= sh_year st < YEARS) then
    exists y' m' d', finish_add v st = (pack y' m' d' h mi s ms us, true) /\ y' = sh_year st /\ is_date_time y' m' d' h mi s ms us /\
      day_number y' m' d' = day_number (sh_year st) (sh_month st) (sh_day st)
  else finish_add v st = (v, false).
Proof.
  intros Hl Hy. unfold finish_add. rewrite fix_day_year. change YEARS with 65536. destruct (decide (0 <= sh_year st < 65536)) as [Hin|Hout].
  - destruct (fix_day_spec st Hl ltac:(lia)) as (Hd & Hn & _ & Hyr). set (st' := fix_day st) in *.
    rewrite (proj2 (Z.ltb_ge _ _)), (proj2 (Z.ltb_ge 0xffff _)) by lia. cbn [orb]. exists (sh_year st'), (sh_month st'), (sh_day st').
    assert (is_date_time (sh_year st') (sh_month st') (sh_day st') h mi s ms us) as Hok by (split; [change (2 ^ 16) with 65536; lia|split; [done|apply Hv]]).
    split; [|split; [done|split; [done|done]]]. rewrite <- Hyr.
    apply is_date_time_fields in Hv, Hok. unfold in_fields in Hv. rewrite setDate_pack; [done|done|lia..].
  - destruct (Z.ltb_spec (sh_year st) 0); [done|]. by rewrite (proj2 (Z.ltb_lt 0xffff _)) by lia.
Qed.

(** Adding days *)
Lemma addDays_spec days : - (2 ^ 61 + 2 ^ 59) <= days <= 2 ^ 61 + 2 ^ 59 ->
  if decide (in_calendar (day_number y m d + days)) then
    exists y' m' d', addDate v 0 0 days = (pack y' m' d' h mi s ms us, true) /\ is_date_time y' m' d' h mi s ms us /\ day_number y' m' d' = day_number y m d + days
  else addDate v 0 0 days = (v, false).
Proof.
  intros Hdays. rewrite addDate_eq. cbn [add_months add_years Z.eqb negb mbind option_bind]. pose proof Hv as (Hy & Hd & Ht).
  destruct (add_days_spec y m d days Hd Hy Hdays) as (Hl & Hb & Hn). set (st := add_days (mkShift y m d days)) in *. clearbody st.
  pose proof (finish_add_spec st Hl ltac:(lia)) as Hfin. destruct (decide (0 <= day_number y m d + days)) as [H0|H0].
  - destruct Hn as [Hy0 Hn]. destruct (fix_day_spec st Hl ltac:(lia)) as (Hdate & Hnum & _ & Hyr).
    pose proof (in_calendar_date _ _ _ Hdate) as Hcal. rewrite Hnum, Hn, Hyr in Hcal.
    destruct (decide (0 <= sh_year st < YEARS)) as [Hin|Hout]; [rewrite decide_True by tauto|rewrite decide_False by tauto; done].
    destruct Hfin as (y' & m' & d' & E & _ & Hok & Hn'). exists y', m', d'. split; [done|]. split; [done|]. lia.
  - rewrite decide_False in Hfin by lia. rewrite decide_False by (unfold in_calendar; lia). done.
Qed.

(** The month and the year [months] months later *)
Definition later_year (months years : Z) : Z := y + (m - 1 + months) / 12 + years.
Definition later_month (months : Z) : Z := (m - 1 + months) mod 12 + 1.

Lemma add_months_spec months st :
  is_month (sh_month st) -> moderate months -> sh_year st < 2 ^ 62 ->
  match add_months months st with
  | Some st' => is_month (sh_month st') /\ sh_day st' = sh_day st /\ sh_year st' < 2 ^ 63 /\
                (0 <= sh_year st -> sh_year st' = sh_year st + (sh_month st - 1 + months) / 12 /\ sh_month st' = (sh_month st - 1 + months) mod 12 + 1)
  | None => sh_year st < 0
  end.
Proof.
  intros Hm Hmonths Hy. unfold is_month in *. unfold add_months. destruct (Z.eqb_spec months 0) as [->|Hne]; cbn [negb].
  { split; [done|]. split; [done|]. split; [lia|]. intros _. rewrite Z.add_0_r. rewrite Z.div_small, Z.mod_small by lia. lia. }
  rewrite addAndComputeCarry_spec by (unfold moderate in *; lia). cbn [mbind option_bind]. rewrite Z.add_0_r.
  set (n := sh_month st - 1 + months). pose proof (Z.mod_pos_bound n 12 ltac:(lia)). unfold moderate in *.
  assert (- 2 ^ 61 <= n / 12 <= 2 ^ 61) by (unfold n; Z.div_mod_to_equations; lia).
  destruct (Z.eqb_spec (n / 12) 0) as [E|Hk]; cbn [negb mbind option_bind]; [cbn [sh_month sh_day sh_year]; lia|].
  destruct (addWithoutOverflow (sh_year st) (n / 12)) as [y'|] eqn:Ea; cbn [mbind option_bind sh_month sh_day sh_year].
  - split; [lia|]. split; [done|]. split; [|intros ?; rewrite addWithoutOverflow_exact in Ea by (unfold is_s64; lia); simplify_eq; lia].
    unfold addWithoutOverflow in Ea. pose proof (s64_range (sh_year st + n / 12)) as Hr. unfold is_s64 in Hr. repeat case_match; simplify_eq; lia.
  - destruct (decide (0 <= sh_year st)); [|lia]. rewrite addWithoutOverflow_exact in Ea by (unfold is_s64; lia). done.
Qed.

Lemma add_years_spec years st :
  moderate years -> sh_year st < 2 ^ 63 ->
  match add_years years st with
  | Some st' => sh_month st' = sh_month st /\ sh_day st' = sh_day st /\ sh_year st' < 2 ^ 63 /\ (moderate (sh_year st - y) -> sh_year st' = sh_year st + years)
  | None => ~ moderate (sh_year st - y)
  end.
Proof.
  intros Hyears Hy. pose proof Hv as (Hy0 & _). unfold moderate in *. unfold add_years. destruct (Z.eqb_spec years 0) as [->|Hne]; cbn [negb]; [lia|].
  destruct (addWithoutOverflow (sh_year st) years) as [y'|] eqn:Ea; cbn [mbind option_bind sh_month sh_day sh_year].
  - split; [done|]. split; [done|]. split; [|intros ?; rewrite addWithoutOverflow_exact in Ea by (unfold is_s64; lia); by simplify_eq].
    unfold addWithoutOverflow in Ea. pose proof (s64_range (sh_year st + years)) as Hr. unfold is_s64 in Hr. repeat case_match; simplify_eq; lia.
  - intros Hm. rewrite addWithoutOverflow_exact in Ea by (unfold is_s64; lia). done.
Qed.

(** Whatever is added, the result is a date with the same time. *)
Lemma addDate_type years months days : - (2 ^ 61 + 2 ^ 59) <= days <= 2 ^ 61 + 2 ^ 59 -> moderate years -> moderate months ->
  exists y' m' d', (addDate v years months days).1 = pack y' m' d' h mi s ms us /\ is_date_time y' m' d' h mi s ms us.
Proof.
  intros Hdays Hyears Hmonths. rewrite addDate_eq. pose proof Hv as (Hy & Hd & Ht).
  destruct (add_days_spec y m d days Hd Hy Hdays) as ([Hm1 Hd1] & Hb & _). generalize dependent (add_days (mkShift y m d days)). intros st Hm1 Hd1 Hb.
  pose proof (add_months_spec months st Hm1 Hmonths Hb) as H1. destruct (add_months months st) as [st1|]; cbn [mbind option_bind]; [|by eexists _, _, _].
  destruct H1 as (Hm2 & Hd2 & Hb2 & _). pose proof (add_years_spec years st1 Hyears Hb2) as H2. destruct (add_years years st1) as [st2|]; [|by eexists _, _, _].
  destruct H2 as (Hm3 & Hd3 & Hb3 & _). assert (loose st2) as Hl by (split; [by rewrite Hm3|by rewrite Hd3, Hd2]).
  pose proof (finish_add_spec st2 Hl Hb3) as Hfin. case_decide; [|rewrite Hfin; by eexists _, _, _].
  destruct Hfin as (y' & m' & d' & -> & _ & Hok & _). by eexists _, _, _.
Qed.

Lemma add_days_0 : add_days (mkShift y m d 0) = mkShift y m d 0.
Proof. unfold add_days. change (skip_years (skip_400years (mkShift y m d 0))) with (mkShift y m d 0). by rewrite days_up_done, days_down_done by done. Qed.

(** Adding months and years: the day of the month stays, or runs over into the next month. *)
Lemma addMonths_spec years months : moderate years -> moderate months ->
  if decide (0 <= later_year months years < YEARS) then
    exists m' d', addDate v years months 0 = (pack (later_year months years) m' d' h mi s ms us, true) /\ is_date_time (later_year months years) m' d' h mi s ms us /\
      day_number (later_year months years) m' d' = day_number (later_year months years) (later_month months) d
  else addDate v years months 0 = (v, false).
Proof.
  intros Hyears Hmonths. rewrite addDate_eq, add_days_0. pose proof Hv as (Hy & [Hm Hd] & Ht). pose proof (month_length_range (leap y) m).
  pose proof (add_months_spec months (mkShift y m d 0) Hm Hmonths) as H1. cbn [sh_year sh_month sh_day] in H1. specialize (H1 ltac:(lia)).
  destruct (add_months months (mkShift y m d 0)) as [st1|]; cbn [mbind option_bind]; [|lia].
  destruct H1 as (Hm2 & Hd2 & Hb2 & [E1 E2]); [lia|]. pose proof (add_years_spec years st1 Hyears Hb2) as H2.
  assert (moderate (sh_year st1 - y)) as Hmod by (unfold moderate, is_month in *; rewrite E1; Z.div_mod_to_equations; lia).
  destruct (add_years years st1) as [st2|]; [|done]. destruct H2 as (Hm3 & Hd3 & Hb3 & E3). specialize (E3 Hmod).
  assert (loose st2) as Hl by (split; [by rewrite Hm3|lia]). pose proof (finish_add_spec st2 Hl Hb3) as Hfin. rewrite E3, E1 in Hfin.
  fold (later_year months years) in Hfin. case_decide; [|done]. destruct Hfin as (y' & m' & d' & -> & -> & Hok & Hn).
  exists m', d'. split; [done|]. split; [done|]. by rewrite Hn, Hm3, E2, Hd3, Hd2.
Qed.
End date.
