(* ===== verification/DateDuration.v ===== *)
(** * The loop of durationMicrosec

    Each round moves the begin by 365 days per year and 28 days per month of the difference.  Two rounds leave at most 88 days, and from
    there four more reach the end, so the ten rounds of the code always suffice. *)
From S2P Require Import Prelude Calendar DateAndTime DateShift DateFields.

(** ** Months counted from year 0 *)
Definition month_index (y m : Z) : Z := 12 * y + (m - 1).
Definition first_day (a : Z) : Z := day_number (a / 12) (a mod 12 + 1) 1.

Lemma month_index_inv y m : is_month m -> month_index y m / 12 = y /\ month_index y m mod 12 = m - 1.
Proof.
  unfold is_month, month_index. intros Hm. replace (12 * y + (m - 1)) with ((m - 1) + y * 12) by lia.
  rewrite Z.div_add, Z.mod_add, Z.div_small, Z.mod_small by lia. lia.
Qed.
Lemma first_day_number y m d : is_month m -> day_number y m d = first_day (month_index y m) + d - 1.
Proof. intros Hm. unfold first_day. destruct (month_index_inv y m Hm) as [-> ->]. replace (m - 1 + 1) with m by lia. unfold day_number. lia. Qed.

Lemma first_day_next a : first_day (a + 1) = first_day a + month_length (leap (a / 12)) (a mod 12 + 1).
Proof.
  pose proof (Z.mod_pos_bound a 12 ltac:(lia)). pose proof (Z.div_mod a 12 ltac:(lia)) as Ea. set (y := a / 12) in *. set (m := a mod 12 + 1) in *.
  assert (a = month_index y m) as E by (unfold month_index; lia). assert (is_month m) as Hm by (unfold is_month; lia).
  replace (first_day a) with (day_number y m 1) by (rewrite first_day_number by done; rewrite <- E; lia).
  destruct (decide (m = 12)) as [Em|Em].
  - rewrite Em, month_length_december, <- day_number_december, (first_day_number (y + 1) 1) by (unfold is_month; lia).
    replace (month_index (y + 1) 1) with (a + 1) by (unfold month_index in *; lia). lia.
  - unfold is_month in Hm. rewrite <- day_number_month, first_day_number by (unfold is_month; lia).
    replace (month_index y (m + 1)) with (a + 1) by (unfold month_index in *; lia). lia.
Qed.

Lemma first_day_step a q r : a = 12 * q + r -> 0 <= r < 12 -> first_day (a + 1) = first_day a + month_length (leap q) (r + 1).
Proof.
  intros -> Hr. rewrite first_day_next. replace (12 * q + r) with (month_index q (r + 1)) by (unfold month_index; lia).
  destruct (month_index_inv q (r + 1)) as [-> ->]; [unfold is_month; lia|]. by replace (r + 1 - 1 + 1) with (r + 1) by lia.
Qed.

(** One to four months in a row *)
Lemma month_runs a : 28 <= first_day (a + 1) - first_day a <= 31 /\ 59 <= first_day (a + 2) - first_day a <= 62 /\
  89 <= first_day (a + 3) - first_day a <= 92 /\ 120 <= first_day (a + 4) - first_day a <= 123.
Proof.
  pose proof (Z.mod_pos_bound a 12 ltac:(lia)) as Hr. pose proof (Z.div_mod a 12 ltac:(lia)) as E. set (q := a / 12) in *. set (r := a mod 12) in *. clearbody q r.
  pose (next := fun i => if r + i <? 12 then month_length (leap q) (r + i + 1) else month_length (leap (q + 1)) (r + i - 12 + 1)).
  assert (forall i, 0 <= i < 12 -> first_day (a + i + 1) = first_day (a + i) + next i) as Hn.
  { intros i Hi. unfold next. destruct (Z.ltb_spec (r + i) 12); [apply first_day_step; lia|apply first_day_step; lia]. }
  pose proof (Hn 0 ltac:(lia)) as H0. pose proof (Hn 1 ltac:(lia)) as H1. pose proof (Hn 2 ltac:(lia)) as H2. pose proof (Hn 3 ltac:(lia)) as H3.
  replace (a + 0 + 1) with (a + 1) in H0 by lia. rewrite Z.add_0_r in H0. replace (a + 1 + 1) with (a + 2) in H1 by lia.
  replace (a + 2 + 1) with (a + 3) in H2 by lia. replace (a + 3 + 1) with (a + 4) in H3 by lia.
  assert (28 <= next 0 <= 31 /\ 59 <= next 0 + next 1 <= 62 /\ 89 <= next 0 + next 1 + next 2 <= 92 /\ 120 <= next 0 + next 1 + next 2 + next 3 <= 123); [|lia].
  unfold next. clear - Hr. assert (exists m, r = m - 1 /\ 1 <= m <= 12) as (m & -> & Hm) by (exists (r + 1); lia). clear Hr.
  generalize (leap q) (leap (q + 1)). intros l l'. months m; destruct l, l'; vm_compute; repeat split; discriminate.
Qed.

Lemma first_day_mono a b : a <= b -> first_day a + 28 * (b - a) <= first_day b.
Proof.
  intros H. apply (up_to_ind (fun b => first_day a + 28 * (b - a) <= first_day b) a); [done|lia|].
  intros i Hi IH. pose proof (month_runs i). lia.
Qed.

(** The month of a day *)
Lemma month_of_day y m d : is_date y m d -> let a := month_index y m in
  first_day a <= day_number y m d < first_day (a + 1) /\ d = day_number y m d - first_day a + 1 /\ a / 12 = y.
Proof.
  intros [Hm Hd] a. unfold a. rewrite (first_day_number y m d Hm). destruct (month_index_inv y m Hm) as [E1 E2]. rewrite first_day_next, E1, E2.
  replace (m - 1 + 1) with m by lia. lia.
Qed.
Lemma month_bounds a lo hi n : first_day a <= n < first_day (a + 1) -> first_day lo <= n < first_day (hi + 1) -> lo <= a <= hi.
Proof.
  intros Ha Hn. split.
  - destruct (decide (a + 1 <= lo)) as [Hlt|]; [|lia]. pose proof (first_day_mono (a + 1) lo Hlt). lia.
  - destruct (decide (hi + 1 <= a)) as [Hlt|]; [|lia]. pose proof (first_day_mono (hi + 1) a Hlt). lia.
Qed.

(** ** How far a round comes *)

(** The days that [month_start] is ahead of 28 days per month *)
Lemma month_start_excess l m : is_month m -> 0 <= month_start l m - 28 * (m - 1) <= 27.
Proof. unfold is_month. intros Hm. months m; destruct l; vm_compute; split; discriminate. Qed.
Lemma month_start_excess_mono l m m' : is_month m -> is_month m' -> m <= m' -> month_start l m - 28 * m <= month_start l m' - 28 * m'.
Proof.
  unfold is_month. intros Hm Hm' Hle. apply (up_to_ind (fun m' => month_start l m - 28 * m <= month_start l m' - 28 * m') m); [done|lia|].
  intros i Hi IH. rewrite month_start_next by lia. pose proof (month_length_range l i). lia.
Qed.

Lemma leap_years_diff y y' : y <= y' -> 0 <= leap_years y' - leap_years y <= (y' - y) / 4 + (y' - y) / 400 + 2.
Proof.
  intros H. split; [pose proof (year_start_le y y' H); unfold year_start in *; lia|]. unfold leap_years. Z.div_mod_to_equations. lia.
Qed.

Lemma same_day_later y y' m d : is_month m -> y <= y' -> day_number y m d + 365 * (y' - y) <= day_number y' m d.
Proof.
  intros Hm H. apply (up_to_ind (fun y' => day_number y m d + 365 * (y' - y) <= day_number y' m d) y); [done|lia|].
  intros i Hi IH. rewrite day_number_year by done. destruct (leap _); lia.
Qed.

(** The estimate of a round, in years and months *)
Definition estimate (y m y' m' : Z) : Z := (y' - y) * 365 + (m' - m) * 28.

(** The end of the year of the end is not passed, nor the year 0. *)
Lemma estimate_in_calendar y m d y' m' d' :
  is_date y m d -> is_date y' m' d' -> 0 <= y < YEARS -> 0 <= y' < YEARS -> in_calendar (day_number y m d + estimate y m y' m').
Proof.
  intros Hd Hd' Hy Hy'. destruct (proj2 (in_calendar_date _ _ _ Hd) Hy) as [Hn0 Hn1]. unfold in_calendar, estimate. destruct Hd as [Hm Hd], Hd' as [Hm' Hd'].
  pose proof (year_start_le (y' + 1) YEARS ltac:(lia)). pose proof (year_start_next y'). pose proof (year_start_le 0 y' ltac:(lia)) as Hpos. rewrite year_start_0 in Hpos.
  pose proof (month_start_excess (leap y') m Hm). pose proof (month_start_range (leap y') m Hm). pose proof (month_start_range (leap y') m' Hm'). pose proof (month_length_range (leap y) m).
  assert (day_number y' m d + (m' - m) * 28 < year_start YEARS) as Hhi.
  { unfold day_number. destruct (decide (m <= m')) as [Hle|]; [pose proof (month_start_excess_mono (leap y') m m' Hm Hm' Hle)|]; destruct (leap y'); lia. }
  assert (0 <= day_number y' m d + (m' - m) * 28) as Hlo by (unfold day_number, is_month in *; lia).
  unfold is_month in *. destruct (decide (y < y')) as [Hlt|]; [pose proof (same_day_later y y' m d Hm ltac:(lia)); lia|].
  destruct (decide (y = y')) as [->|]; [lia|]. pose proof (same_day_later y' y m d Hm ltac:(lia)). lia.
Qed.

(** What is left after a round *)
Lemma estimate_rest y m d y' m' d' : is_date y m d -> is_date y' m' d' ->
  Z.abs (day_number y' m' d' - (day_number y m d + estimate y m y' m')) <= Z.abs (y' - y) / 4 + Z.abs (y' - y) / 400 + 59.
Proof.
  intros [Hm Hd] [Hm' Hd']. unfold estimate, day_number, year_start.
  pose proof (month_start_excess (leap y) m Hm). pose proof (month_start_excess (leap y') m' Hm').
  pose proof (month_length_range (leap y) m). pose proof (month_length_range (leap y') m').
  destruct (decide (y <= y')) as [Hle|Hgt].
  - pose proof (leap_years_diff y y' Hle). rewrite (Z.abs_eq (y' - y)) by lia. lia.
  - pose proof (leap_years_diff y' y ltac:(lia)). rewrite (Z.abs_neq (y' - y)) by lia. replace (- (y' - y)) with (y - y') by lia. lia.
Qed.

(** The years between two days *)
Lemma years_apart y m d y' m' d' : is_date y m d -> is_date y' m' d' -> 365 * (Z.abs (y' - y) - 1) < Z.abs (day_number y' m' d' - day_number y m d).
Proof.
  intros H%date_in_year H'%date_in_year. destruct (decide (y < y')); [pose proof (year_start_le (y + 1) y' ltac:(lia)); lia|].
  destruct (decide (y' < y)); [pose proof (year_start_le (y' + 1) y ltac:(lia)); lia|]. lia.
Qed.

(** ** The rounds *)
Section rounds.
Context (ye me de h mi s ms us : Z).
Hypothesis He : is_date_time ye me de h mi s ms us.
Notation at_ y m d := (pack y m d h mi s ms us).
Notation date y m d := (is_date_time y m d h mi s ms us).
Notation end_month := (month_index ye me).

(** After at most [k] rounds the begin is the end and the days have been counted. *)
Definition reaches (k : nat) (y m d : Z) : Prop := forall n totalDays, (k <= n)%nat ->
  count_days n (at_ y m d) (at_ ye me de) totalDays = (at_ ye me de, totalDays + (day_number ye me de - day_number y m d)).

Lemma reaches_le k k' y m d : reaches k y m d -> (k <= k')%nat -> reaches k' y m d.
Proof. intros H Hk n tot Hn. apply H. lia. Qed.

Lemma reaches_end : reaches 0 ye me de.
Proof. intros n tot _. rewrite Z.sub_diag, Z.add_0_r. destruct n as [|n]; [done|]. cbn [count_days]. by rewrite Z.eqb_refl. Qed.

Definition round_days (y m d : Z) : Z := if estimate y m ye me =? 0 then de - d else estimate y m ye me.

Lemma round_moderate y m d : date y m d -> - 2 ^ 61 <= round_days y m d <= 2 ^ 61.
Proof.
  intros Hd. apply is_date_time_fields in He, Hd. unfold in_fields in He, Hd. unfold round_days, estimate. case_match; lia.
Qed.

Lemma estimate_0 y m : is_month m -> estimate y m ye me = 0 -> y = ye /\ m = me.
Proof. pose proof He as (_ & [Hm' _] & _). unfold is_month, estimate in *. lia. Qed.

Lemma round_in_calendar y m d : date y m d -> in_calendar (day_number y m d + round_days y m d).
Proof.
  intros (Hy & Hd & _). pose proof He as (Hy' & Hd' & _). unfold round_days. destruct (Z.eqb_spec (estimate y m ye me) 0) as [E|]; [|by apply (estimate_in_calendar y m d ye me de)].
  apply estimate_0 in E as [-> ->]; [|apply Hd]. replace (day_number ye me d + (de - d)) with (day_number ye me de) by (unfold day_number; lia).
  by apply in_calendar_date.
Qed.

Lemma reaches_round k y m d : date y m d ->
  (forall y' m' d', date y' m' d' -> day_number y' m' d' = day_number y m d + round_days y m d -> reaches k y' m' d') -> reaches (S k) y m d.
Proof.
  intros Hd Hround n tot Hn. destruct n as [|n]; [lia|]. cbn [count_days].
  destruct (Z.eqb_spec (at_ y m d) (at_ ye me de)) as [E|_]; cbn [negb].
  { apply pack_inj in E as (-> & -> & -> & _); [|by apply is_date_time_fields..]. f_equal; lia. }
  destruct (pack_valid _ _ _ _ _ _ _ _ Hd) as (_ & -> & -> & ->). destruct (pack_valid _ _ _ _ _ _ _ _ He) as (_ & -> & -> & ->).
  fold (estimate y m ye me). fold (round_days y m d).
  pose proof (addDays_spec y m d h mi s ms us Hd (round_days y m d)) as Hadd. pose proof (round_moderate y m d Hd). specialize (Hadd ltac:(lia)).
  rewrite decide_True in Hadd by (by apply round_in_calendar). destruct Hadd as (y' & m' & d' & -> & Hd' & Hn'). cbn [fst].
  rewrite (Hround y' m' d' Hd' Hn') by lia. f_equal. lia.
Qed.

(** In the month of the end *)
Lemma same_month y m d : date y m d -> month_index y m = end_month -> reaches 1 y m d.
Proof.
  intros Hd Hm. pose proof Hd as (_ & Hdate & _). pose proof He as (_ & Hdate' & _).
  destruct (month_of_day _ _ _ Hdate) as (_ & _ & E1). destruct (month_of_day _ _ _ Hdate') as (_ & _ & E2). rewrite Hm in E1.
  assert (y = ye) as -> by lia. assert (m = me) as -> by (unfold month_index in Hm; lia).
  apply reaches_round; [done|]. intros y' m' d' (Hy' & Hd' & Ht') Hn. unfold round_days, estimate in Hn. replace (_ =? 0) with true in Hn by (symmetry; apply Z.eqb_eq; lia).
  destruct (day_number_inj y' m' d' ye me de Hd' Hdate') as (-> & -> & ->); [unfold day_number in *; lia|]. apply reaches_end.
Qed.

Lemma estimate_months y m : estimate y m ye me = 28 * (end_month - month_index y m) + 29 * (ye - y).
Proof. unfold estimate, month_index. lia. Qed.

(** Where a round lands *)
Lemma round_month y m d y' m' d' lo hi : date y m d -> date y' m' d' -> month_index y m <> end_month -> day_number y' m' d' = day_number y m d + round_days y m d ->
  let a := month_index y m in let n := first_day a + d - 1 + 28 * (end_month - a) + 29 * (ye - y) in
  first_day lo <= n < first_day (hi + 1) -> lo <= month_index y' m' <= hi /\ y' = month_index y' m' / 12 /\ d' = n - first_day (month_index y' m') + 1.
Proof.
  intros (_ & Hd & _) (_ & Hd' & _) Hne Hn a n Hin. destruct (month_of_day _ _ _ Hd) as (H1 & H2 & H3). destruct (month_of_day _ _ _ Hd') as (H1' & H2' & H3').
  assert (estimate y m ye me <> 0) as Hest by (intros [-> ->]%estimate_0; [done|apply Hd]).
  unfold round_days in Hn. rewrite (proj2 (Z.eqb_neq _ _)), estimate_months in Hn by done. fold a in Hn, H1, H2.
  split; [|split; [done|unfold n; lia]]. apply (month_bounds _ _ _ (day_number y' m' d')); [done|]. unfold n in Hin. lia.
Qed.

(** One month away, in the same year *)
Lemma next_month_good y m d : date y m d -> y = ye -> end_month - month_index y m = 1 /\ 4 <= d \/ end_month - month_index y m = -1 /\ d <= 28 -> reaches 2 y m d.
Proof.
  intros Hd Hy Hcase. apply reaches_round; [done|]. intros y' m' d' Hd' Hn. apply same_month; [done|].
  destruct (round_month y m d y' m' d' end_month end_month Hd Hd' ltac:(lia) Hn) as [? _]; [|lia]. replace (ye - y) with 0 by lia.
  pose proof Hd as (_ & [_ Hd1] & _). pose proof (month_length_range (leap y) m). set (a := month_index y m) in *.
  destruct Hcase as [[E ?]|[E ?]].
  - replace (end_month) with (a + 1) by lia. replace (a + 1 + 1) with (a + 2) by lia. pose proof (month_runs a). lia.
  - replace (end_month) with (a - 1) by lia. pose proof (month_runs (a - 1)). replace (a - 1 + 1) with a in * by lia. lia.
Qed.

Lemma next_month y m d : date y m d -> y = ye -> Z.abs (end_month - month_index y m) = 1 -> reaches 3 y m d.
Proof.
  intros Hd Hy Habs. apply reaches_round; [done|]. intros y' m' d' Hd' Hn. pose proof Hd as (_ & [_ Hd1] & _). pose proof (month_length_range (leap y) m).
  pose proof Hd as (_ & Hdate & _). destruct (month_of_day _ _ _ Hdate) as (Hr & _ & Hy12). set (a := month_index y m) in *.
  destruct (round_month y m d y' m' d' (Z.min a end_month) (Z.max a end_month) Hd Hd' ltac:(lia) Hn) as (Hb & Hy' & Hd'').
  { fold a. replace (ye - y) with 0 by lia. destruct (decide (end_month - a = 1)) as [E|E].
    - rewrite Z.min_l, Z.max_r by lia. replace (end_month) with (a + 1) by lia. replace (a + 1 + 1) with (a + 2) by lia. pose proof (month_runs a). lia.
    - rewrite Z.min_r, Z.max_l by lia. replace (end_month) with (a - 1) by lia. pose proof (month_runs (a - 1)) as Hr1. replace (a - 1 + 1) with a in * by lia.
      pose proof (month_runs a). rewrite (first_day_number y m d) in Hr by apply Hdate. fold a in Hr. lia. }
  destruct (decide (month_index y' m' = end_month)) as [E|E]; [by apply (reaches_le 1); [apply same_month|lia]|].
  assert (month_index y' m' = a) as E' by lia. apply next_month_good; [done|by rewrite Hy', E', Hy12|]. rewrite E'. rewrite E' in Hd''. fold a in Hd''. lia.
Qed.

(** At most three months away: the next round comes to a neighbour of the last month, in its year. *)
Lemma near_lands a d : 1 <= d <= 31 -> d <= first_day (a + 1) - first_day a -> end_month <> a -> Z.abs (end_month - a) <= 3 ->
  forall yd, (yd = 0 \/ yd = 1 /\ a < end_month \/ yd = -1 /\ end_month < a) -> exists lo, (lo = end_month \/ lo = end_month - 1) /\
  (yd = 0 -> Z.min a end_month <= lo /\ lo + 1 <= Z.max a end_month) /\ (yd = 1 -> lo = end_month) /\ (yd = -1 -> lo = end_month - 1) /\
  first_day lo <= first_day a + d - 1 + 28 * (end_month - a) + 29 * yd < first_day (lo + 2).
Proof.
  intros Hd Hlen Hne Habs yd Hyd. set (e := end_month) in *. clearbody e.
  pose proof (month_runs a) as R. pose proof (month_runs (a + 4)) as R4. pose proof (month_runs (a - 1)) as R1. pose proof (month_runs (a - 2)) as R2.
  pose proof (month_runs (a - 3)) as R3. pose proof (month_runs (a - 4)) as R5.
  replace (a + 4 + 1) with (a + 5) in * by lia. replace (a - 1 + 1) with a in * by lia. replace (a - 2 + 1) with (a - 1) in * by lia. replace (a - 2 + 2) with a in * by lia.
  replace (a - 3 + 3) with a in * by lia. replace (a - 4 + 4) with a in * by lia.
  assert (e = a + 1 \/ e = a + 2 \/ e = a + 3 \/ e = a - 1 \/ e = a - 2 \/ e = a - 3) as He' by lia.
  assert (yd = 0 \/ yd = 1 \/ yd = -1) as Hyd' by lia.
  exists (if decide (yd = 0 /\ a < e \/ yd = -1) then e - 1 else e).
  destruct Hyd' as [-> |[-> | ->]], He' as [-> |[-> |[-> |[-> |[-> | ->]]]]]; case_decide; try lia.
  all: split; [lia|]; split; [lia|]; split; [lia|]; split; [lia|]; repeat match goal with |- context [first_day ?x] => progress ring_simplify x end.
  all: lia.
Qed.

Lemma near y m d : date y m d -> Z.abs (end_month - month_index y m) <= 3 -> reaches 4 y m d.
Proof.
  intros Hd Habs. destruct (decide (month_index y m = end_month)) as [E|Hne]; [by apply (reaches_le 1); [apply same_month|lia]|].
  pose proof Hd as (_ & Hdate & _). destruct (month_of_day _ _ _ Hdate) as (Hr & Ed & Hy12). pose proof Hdate as [_ Hd1]. pose proof (month_length_range (leap y) m).
  pose proof He as (_ & Hdate' & _). destruct (month_of_day _ _ _ Hdate') as (_ & _ & Hy12'). set (a := month_index y m) in *.
  assert (ye - y = 0 \/ ye - y = 1 /\ a < end_month \/ ye - y = -1 /\ end_month < a) as Hyd by (clear - Habs Hy12 Hy12'; Z.div_mod_to_equations; lia).
  destruct (near_lands a d ltac:(lia) ltac:(lia) ltac:(lia) Habs (ye - y) Hyd) as (lo & Hlo & H0 & H1 & H2 & Hin).
  apply reaches_round; [done|]. intros y' m' d' Hd' Hn. replace (lo + 2) with (lo + 1 + 1) in Hin by lia.
  destruct (round_month y m d y' m' d' lo (lo + 1) Hd Hd' Hne Hn Hin) as (Hb & Hy' & _).
  destruct (decide (month_index y' m' = end_month)) as [E|Hne']; [by apply (reaches_le 1); [apply same_month|lia]|].
  apply next_month; [done| |lia]. rewrite Hy'. clear - Hyd H0 H1 H2 Hb Hy12 Hy12' Habs Hlo. Z.div_mod_to_equations. lia.
Qed.

(** At most 88 days are at most three months. *)
Lemma near_days y m d : date y m d -> Z.abs (day_number ye me de - day_number y m d) <= 88 -> reaches 4 y m d.
Proof.
  intros Hd Hgap. apply near; [done|]. pose proof Hd as (_ & Hdate & _). destruct (month_of_day _ _ _ Hdate) as (Hr & _ & _).
  pose proof He as (_ & Hdate' & _). destruct (month_of_day _ _ _ Hdate') as (Hr' & _ & _). set (a := month_index y m) in *. set (e := end_month) in *.
  destruct (decide (a + 4 <= e)) as [Hle|].
  - pose proof (first_day_mono (a + 4) e Hle). pose proof (month_runs (a + 1)). replace (a + 1 + 3) with (a + 4) in * by lia. lia.
  - destruct (decide (e + 4 <= a)) as [Hle|]; [|lia]. pose proof (first_day_mono (e + 4) a Hle). pose proof (month_runs (e + 1)). replace (e + 1 + 3) with (e + 4) in * by lia. lia.
Qed.

(** A round leaves [r] days, from which [k] rounds suffice. *)
Lemma far k r y m d : (1 <= k)%nat -> date y m d -> (forall y' m' d', date y' m' d' -> Z.abs (day_number ye me de - day_number y' m' d') <= r -> reaches k y' m' d') ->
  Z.abs (ye - y) / 4 + Z.abs (ye - y) / 400 + 59 <= r -> reaches (S k) y m d.
Proof.
  intros Hk Hd Hnext Hr. pose proof Hd as (_ & Hdate & _). pose proof He as (_ & Hdate' & _).
  destruct (decide (month_index y m = end_month)) as [E|Hne]; [apply (reaches_le 1); [by apply same_month|lia]|].
  apply reaches_round; [done|]. intros y' m' d' Hd' Hn. apply Hnext; [done|]. pose proof (estimate_rest y m d ye me de Hdate Hdate').
  unfold round_days in Hn. destruct (Z.eqb_spec (estimate y m ye me) 0) as [E|_]; [apply estimate_0 in E as [-> ->]; [done|apply Hdate]|]. lia.
Qed.

Lemma six_rounds y m d : date y m d -> reaches 6 y m d.
Proof.
  intros Hd. apply (far 5 16700); [lia|done| |].
  - intros y1 m1 d1 Hd1 Hgap. apply (far 4 88); [lia|done|by apply near_days|]. pose proof Hd1 as (_ & Hdate & _). pose proof He as (_ & Hdate' & _).
    pose proof (years_apart _ _ _ _ _ _ Hdate Hdate'). Z.div_mod_to_equations. lia.
  - pose proof Hd as (Hy & _). pose proof He as (Hy' & _). Z.div_mod_to_equations. lia.
Qed.
End rounds.
