(* ===== verification/DateTimes.v ===== *)
(** * The arithmetic of DateAndTime

    A well-formed value stands for a number of microseconds since the beginning of the year 0.  The comparison of the 64-bit values is the order of
    these numbers, the sums move them exactly, and the duration is their difference. *)
From S2P Require Import Prelude Calendar DateAndTime DateShift DateFields DateDuration.

Definition stamp (v : Z) : Z :=
  day_number (getYear v) (getMonth v) (getDay v) * DAY_MICROSECS +
  time_of_day (getHour v) (getMinute v) (getSecond v) (getMillisec v) (getMicrosecDuringMillisec v).

Lemma stamp_pack y m d h mi s ms us : is_date_time y m d h mi s ms us ->
  stamp (pack y m d h mi s ms us) = day_number y m d * DAY_MICROSECS + time_of_day h mi s ms us.
Proof. intros Hv. unfold stamp. by destruct (getters _ _ _ _ _ _ _ _ (is_date_time_fields _ _ _ _ _ _ _ _ Hv)) as (-> & -> & -> & -> & -> & -> & -> & ->). Qed.

(** The first microsecond of the year 65536 *)
Definition END_OF_TIME : Z := year_start YEARS * DAY_MICROSECS.

Lemma stamp_range v : well_formed v -> 0 <= stamp v < END_OF_TIME.
Proof.
  intros (y & m & d & h & mi & s & ms & us & -> & Hv)%well_formed_inv. rewrite stamp_pack by done. destruct Hv as (Hy & Hd & Ht).
  pose proof (proj2 (in_calendar_date _ _ _ Hd) Hy) as Hc. apply time_of_day_range in Ht. unfold in_calendar, END_OF_TIME in *.
  change DAY_MICROSECS with 86400000000 in *. lia.
Qed.

(** ** Order *)
Lemma date_code_lt y m d y' m' d' : 0 <= m < 2 ^ 4 -> 0 <= d < 2 ^ 5 -> 0 <= m' < 2 ^ 4 -> 0 <= d' < 2 ^ 5 ->
  (y * 2 ^ 4 + m) * 2 ^ 5 + d < (y' * 2 ^ 4 + m') * 2 ^ 5 + d' <-> date_before y m d y' m' d'.
Proof. intros. unfold date_before. rewrite digit_lt by done. rewrite digit_lt by done. lia. Qed.

Lemma time_lt h mi s ms us h' mi' s' ms' us' : is_time h mi s ms us -> is_time h' mi' s' ms' us' ->
  (((h * 2 ^ 6 + mi) * 2 ^ 6 + s) * 2 ^ 10 + ms) * 2 ^ 10 + us < (((h' * 2 ^ 6 + mi') * 2 ^ 6 + s') * 2 ^ 10 + ms') * 2 ^ 10 + us' <->
  time_of_day h mi s ms us < time_of_day h' mi' s' ms' us'.
Proof.
  unfold is_time, time_of_day. intros H H'. rewrite !(digit_lt _ us), !(digit_lt _ ms), !(digit_lt _ s), !(digit_lt _ mi) by lia. lia.
Qed.
Lemma stamp_lt v w : well_formed v -> well_formed w -> v < w <-> stamp v < stamp w.
Proof.
  intros (y & m & d & h & mi & s & ms & us & -> & Hv)%well_formed_inv (y' & m' & d' & h' & mi' & s' & ms' & us' & -> & Hw)%well_formed_inv.
  rewrite !stamp_pack by done. pose proof (is_date_time_fields _ _ _ _ _ _ _ _ Hv) as Fv. pose proof (is_date_time_fields _ _ _ _ _ _ _ _ Hw) as Fw.
  destruct Hv as (Hy & Hd & Ht), Hw as (Hy' & Hd' & Ht'). rewrite !pack_split. pose proof (time_range _ _ _ _ _ _ _ _ Fv). pose proof (time_range _ _ _ _ _ _ _ _ Fw).
  rewrite digit_lt by done. rewrite (time_lt _ _ _ _ _ _ _ _ _ _ Ht Ht'). unfold in_fields in Fv, Fw. rewrite date_code_lt by lia. rewrite <- day_number_lt_iff by done.
  apply time_of_day_range in Ht, Ht'. rewrite (digit_lt (day_number y m d)) by done.
  assert ((y * 2 ^ 4 + m) * 2 ^ 5 + d = (y' * 2 ^ 4 + m') * 2 ^ 5 + d' <-> day_number y m d = day_number y' m' d') as ->; [|done]. split.
  - intros E. apply digit_inj in E as [E ->]; [|lia..]. apply digit_inj in E as [-> ->]; [done|lia..].
  - intros (-> & -> & ->)%day_number_inj; done.
Qed.

Lemma stamp_inj v w : well_formed v -> well_formed w -> stamp v = stamp w -> v = w.
Proof. intros Hv Hw E. pose proof (stamp_lt v w Hv Hw). pose proof (stamp_lt w v Hw Hv). lia. Qed.

(** ** Sums *)

(** [add] after the time of day has been set *)
Definition add_carry (value years months days dayCarry : Z) : Z * bool :=
  if negb (dayCarry =? 0) || negb (days =? 0) || negb (months =? 0) || negb (years =? 0) then
    match (if negb (dayCarry =? 0) then addWithoutOverflow days dayCarry else Some days) with
    | None => (value, false)
    | Some days => addDate value years months days
    end
  else (value, true).

Definition all_moderate (years months days hours minutes seconds millisecs micros : Z) : Prop :=
  moderate years /\ moderate months /\ moderate days /\ moderate hours /\ moderate minutes /\ moderate seconds /\ moderate millisecs /\ moderate micros.

Section sums.
Context (y m d h mi s ms us : Z) (years months days hours minutes seconds millisecs micros : Z).
Hypothesis Hv : is_date_time y m d h mi s ms us.
Hypothesis Hall : all_moderate years months days hours minutes seconds millisecs micros.

Lemma add_split : exists h' mi' s' ms' us' k,
  add (pack y m d h mi s ms us) years months days hours minutes seconds millisecs micros = add_carry (pack y m d h' mi' s' ms' us') years months days k /\
  is_date_time y m d h' mi' s' ms' us' /\ - 2 ^ 59 <= k <= 2 ^ 59 /\
  time_of_day h mi s ms us + microsecs hours minutes seconds millisecs micros = k * DAY_MICROSECS + time_of_day h' mi' s' ms' us'.
Proof.
  pose proof (is_date_time_fields _ _ _ _ _ _ _ _ Hv) as Hf. destruct Hall as (_ & _ & _ & H1 & H2 & H3 & H4 & H5). pose proof Hv as (Hy & Hd & Ht).
  destruct (addTime_spec y m d h mi s ms us hours minutes seconds millisecs micros) as (h' & mi' & s' & ms' & us' & k & E & Ht' & Hk & Hsum); [done..|].
  exists h', mi', s', ms', us', k. assert (is_date_time y m d h' mi' s' ms' us') as Hv' by done. split; [|done].
  unfold add. rewrite E. rewrite setTime_pack by (done || by apply is_date_time_fields). done.
Qed.

Lemma add_carry_days v k : - 2 ^ 59 <= k <= 2 ^ 59 ->
  add_carry v years months days k = if decide (k + days = 0 /\ k = 0 /\ months = 0 /\ years = 0) then (v, true) else addDate v years months (days + k).
Proof.
  intros Hk. destruct Hall as (_ & _ & Hd & _). unfold moderate in Hd. unfold add_carry.
  destruct (Z.eqb_spec k 0) as [->|Hk0]; cbn [negb orb].
  - rewrite Z.add_0_r, Z.add_0_l. destruct (Z.eqb_spec days 0), (Z.eqb_spec months 0), (Z.eqb_spec years 0); cbn [negb orb];
      try (rewrite decide_False by tauto; done). rewrite decide_True by tauto. done.
  - rewrite decide_False by tauto. rewrite addWithoutOverflow_exact by (unfold is_s64; lia). done.
Qed.

Lemma add_type : well_formed (add (pack y m d h mi s ms us) years months days hours minutes seconds millisecs micros).1.
Proof.
  destruct add_split as (h' & mi' & s' & ms' & us' & k & -> & Hv' & Hk & _). rewrite add_carry_days by done.
  case_decide; [by apply well_formed_pack|]. destruct Hall as (H1 & H2 & H3 & _). unfold moderate in H3.
  destruct (addDate_type y m d h' mi' s' ms' us' Hv' years months (days + k)) as (y' & m' & d' & -> & Hok); [lia|done|done|]. by apply well_formed_pack.
Qed.
End sums.

Lemma well_formed_add v years months days hours minutes seconds millisecs micros :
  well_formed v -> all_moderate years months days hours minutes seconds millisecs micros -> well_formed (add v years months days hours minutes seconds millisecs micros).1.
Proof. intros (y & m & d & h & mi & s & ms & us & -> & Hv)%well_formed_inv Hall. by apply add_type. Qed.

Lemma well_formed_setIfValid v y m d h mi s ms us :
  well_formed v -> 0 <= y -> 0 <= m -> 0 <= d -> 0 <= h -> 0 <= mi -> 0 <= s -> 0 <= ms -> 0 <= us -> well_formed (setIfValid v y m d h mi s ms us).1.
Proof.
  intros Hv Hy Hm Hd Hh Hmi Hs Hms Hus. unfold setIfValid. destruct (isValidParts y m d h mi s ms us) eqn:E; cbn [negb fst]; [|done].
  apply isValidParts_spec in E; [|done..]. rewrite set_pack by (by apply is_date_time_fields). by apply well_formed_pack.
Qed.

Lemma well_formed_setDate v y m d : well_formed v -> 0 <= y < 2 ^ 16 -> is_date y m d -> well_formed (setDate v y m d).
Proof.
  intros (y0 & m0 & d0 & h & mi & s & ms & us & -> & Hv)%well_formed_inv Hy Hd. pose proof (is_date_time_fields _ _ _ _ _ _ _ _ Hv) as Hf. destruct Hv as (_ & _ & Ht).
  assert (is_date_time y m d h mi s ms us) as Hv' by done. rewrite setDate_pack; [by apply well_formed_pack|by apply is_date_time_fields|unfold in_fields in Hf; tauto..].
Qed.

Lemma well_formed_setTime v h mi s ms us : well_formed v -> is_time h mi s ms us -> well_formed (setTime v h mi s ms us).
Proof.
  intros (y & m & d & h0 & mi0 & s0 & ms0 & us0 & -> & Hv)%well_formed_inv Ht. pose proof (is_date_time_fields _ _ _ _ _ _ _ _ Hv) as Hf. destruct Hv as (Hy & Hd & _).
  assert (is_date_time y m d h mi s ms us) as Hv' by done. rewrite setTime_pack; [by apply well_formed_pack|by apply is_date_time_fields|done].
Qed.

(** The methods that change an object; the first three do not check their arguments. *)
Inductive method :=
  | Set_ (year month day hour minute second millisec microsec : Z)
  | SetDate (year month day : Z)
  | SetTime (hour minute second millisec microsec : Z)
  | SetIfValid (year month day hour minute second millisec microsec : Z)
  | Add (years months days hours minutes seconds millisecs microsecs : Z)
  | AddDate (years months days : Z)
  | AddDays (days : Z)
  | AddMillisec (millisec : Z)
  | AddMicrosec (microsec : Z).

Definition call (v : Z) (c : method) : Z * bool :=
  match c with
  | Set_ y m d h mi s ms us => (set y m d h mi s ms us, true)
  | SetDate y m d => (setDate v y m d, true)
  | SetTime h mi s ms us => (setTime v h mi s ms us, true)
  | SetIfValid y m d h mi s ms us => setIfValid v y m d h mi s ms us
  | Add years months days hours minutes seconds millisecs micros => add v years months days hours minutes seconds millisecs micros
  | AddDate years months days => addDate v years months days
  | AddDays days => addDays v days
  | AddMillisec millisec => addMillisec v millisec
  | AddMicrosec microsec => addMicrosec v microsec
  end.

(** The setters without check get a date and time that exist, [setIfValid] any unsigned parts; the amounts to add are at most 2^61, which in every
    unit is more than the calendar holds. *)
Definition arguments_ok (c : method) : Prop :=
  match c with
  | Set_ y m d h mi s ms us => is_date_time y m d h mi s ms us
  | SetDate y m d => 0 <= y < 2 ^ 16 /\ is_date y m d
  | SetTime h mi s ms us => is_time h mi s ms us
  | SetIfValid y m d h mi s ms us => 0 <= y /\ 0 <= m /\ 0 <= d /\ 0 <= h /\ 0 <= mi /\ 0 <= s /\ 0 <= ms /\ 0 <= us
  | Add years months days hours minutes seconds millisecs micros => all_moderate years months days hours minutes seconds millisecs micros
  | AddDate years months days => moderate years /\ moderate months /\ moderate days
  | AddDays days => moderate days
  | AddMillisec x | AddMicrosec x => moderate x
  end.

Lemma moderate_0 : moderate 0.
Proof. done. Qed.

Lemma call_type v c : well_formed v -> arguments_ok c -> well_formed (call v c).1.
Proof.
  intros Hv Hc. pose proof moderate_0. assert (forall years months days, moderate years -> moderate months -> moderate days -> well_formed (addDate v years months days).1) as Hdate.
  { intros years months days H1 H2 H3. apply well_formed_inv in Hv as (y & m & d & h & mi & s & ms & us & -> & Hv).
    destruct (addDate_type y m d h mi s ms us Hv years months days) as (y' & m' & d' & -> & Hok); [unfold moderate in H3; lia|done|done|]. by apply well_formed_pack. }
  destruct c as [y m d h mi s ms us|y m d|h mi s ms us|y m d h mi s ms us|years months days hours minutes seconds millisecs micros|years months days|days|x|x]; cbn [arguments_ok call] in *.
  - cbn [fst]. rewrite set_pack by (by apply is_date_time_fields). by apply well_formed_pack.
  - by apply well_formed_setDate; [|tauto..].
  - by apply well_formed_setTime.
  - apply well_formed_setIfValid; tauto.
  - by apply well_formed_add.
  - apply Hdate; tauto.
  - by apply Hdate.
  - unfold addMillisec. by apply well_formed_add.
  - unfold addMicrosec. by apply well_formed_add.
Qed.

(** ** Claims *)

(** The amounts that the carry cannot hold *)
Definition carry_overflows : Z * method := (set 2024 1 1 0 0 0 0 192, AddMicrosec INT64_MIN).

(** C39: a [DateAndTime] that holds a valid date and time holds one after any sequence of calls of set, setDate, setTime (with a date and time that
    exist, since these do not check), setIfValid (with any arguments), the two add, addDays, addMillisec and addMicrosec (with amounts of at most
    2^61 in absolute value), whether the calls succeed or return false: none leaves February 30, hour 24 or a reserved bit behind.  Amounts without
    bound do not keep the type: the carry of INT64_MIN microseconds overflows, and addMicrosec then returns false and leaves microsecond 1000. *)
Theorem date_time_type v calls :
  well_formed v ->
  (Forall arguments_ok calls -> well_formed (fold_left (fun v c => (call v c).1) calls v)) /\
  (let '(v, c) := carry_overflows in well_formed v /\ (call v c).2 = false /\ getMicrosecDuringMillisec (call v c).1 = 1000 /\ ~ well_formed (call v c).1).
Proof.
  intros Hv. split.
  - intros Hc. revert v Hv. induction Hc as [|c calls Hok _ IH]; intros v Hv; [done|]. cbn [fold_left]. apply IH. by apply call_type.
  - split; [split; vm_compute; [split; [discriminate|reflexivity]|reflexivity]|]. split; [vm_compute; reflexivity|]. split; [vm_compute; reflexivity|].
    intros [_ H]. vm_compute in H. discriminate.
Qed.

(** adding days, hours, minutes, seconds, milliseconds and microseconds of any sign moves the point of time by exactly their sum over all carries, month
    lengths and leap years, and succeeds if and only if the result lies in the years 0 to 65535. *)
Theorem add_exact v days hours minutes seconds millisecs micros :
  well_formed v -> all_moderate 0 0 days hours minutes seconds millisecs micros ->
  let t := stamp v + days * DAY_MICROSECS + microsecs hours minutes seconds millisecs micros in
  let '(w, ok) := add v 0 0 days hours minutes seconds millisecs micros in
  well_formed w /\ (ok = true <-> 0 <= t < END_OF_TIME) /\ (ok = true -> stamp w = t).
Proof.
  intros (y & m & d & h & mi & s & ms & us & -> & Hv)%well_formed_inv Hall t.
  pose proof (add_type _ _ _ _ _ _ _ _ _ _ _ _ _ _ _ _ Hv Hall) as Hty. unfold t. rewrite stamp_pack by done.
  destruct (add_split _ _ _ _ _ _ _ _ _ _ _ _ _ _ _ _ Hv Hall) as (h' & mi' & s' & ms' & us' & k & E & Hv' & Hk & Hsum).
  rewrite E in *. rewrite (add_carry_days _ _ _ _ _ _ _ _ Hall) in * by done. pose proof Hv' as (Hy & Hd & Ht'). apply time_of_day_range in Ht'.
  set (T := _ + microsecs _ _ _ _ _). assert (T = (day_number y m d + (days + k)) * DAY_MICROSECS + time_of_day h' mi' s' ms' us') as -> by (unfold T; lia).
  assert (forall n, 0 <= n * DAY_MICROSECS + time_of_day h' mi' s' ms' us' < END_OF_TIME <-> in_calendar n) as Hcal.
  { intros n. unfold in_calendar, END_OF_TIME. change DAY_MICROSECS with 86400000000 in *. lia. }
  case_decide as H0.
  - replace (days + k) with 0 by lia. rewrite Z.add_0_r, Hcal. split; [by apply well_formed_pack|]. split; [split; [intros _; by apply in_calendar_date|done]|]. intros _. by apply stamp_pack.
  - destruct Hall as (_ & _ & Hdays & _). unfold moderate in Hdays.
    pose proof (addDays_spec y m d h' mi' s' ms' us' Hv' (days + k) ltac:(lia)) as Hadd. case_decide.
    + destruct Hadd as (y' & m' & d' & -> & Hok & Hn). rewrite Hcal. split; [by apply well_formed_pack|]. split; [done|]. intros _. rewrite stamp_pack by done. by rewrite Hn.
    + rewrite Hadd, Hcal. split; [by apply well_formed_pack|]. done.
Qed.

Lemma add_exact_witness : add (set 2023 12 31 23 59 59 999 999) 0 0 60 0 0 0 0 1 = (set 2024 3 1 0 0 0 0 0, true) /\
  stamp (set 2024 3 1 0 0 0 0 0) = stamp (set 2023 12 31 23 59 59 999 999) + 60 * DAY_MICROSECS + 1.
Proof.
  assert (well_formed (set 2023 12 31 23 59 59 999 999)) as Hv by (split; vm_compute; [split; [discriminate|reflexivity]|reflexivity]).
  pose proof (add_exact _ 60 0 0 0 0 1 Hv) as H. assert (all_moderate 0 0 60 0 0 0 0 1) as Hm by (unfold all_moderate, moderate; lia). specialize (H Hm).
  assert (add (set 2023 12 31 23 59 59 999 999) 0 0 60 0 0 0 0 1 = (set 2024 3 1 0 0 0 0 0, true)) as E by (vm_compute; reflexivity).
  split; [exact E|]. cbv zeta in H. rewrite E in H. destruct H as (_ & _ & H). apply H. reflexivity.
Defined.

(** ** Durations *)
Definition elapsed (begin_ end_ : Z) : Z :=
  let microDiff := getMicrosecDuringMillisec end_ - getMicrosecDuringMillisec begin_ in
  let milliDiff := getMillisec end_ - getMillisec begin_ in
  let secondDiff := getSecond end_ - getSecond begin_ in
  let minuteDiff := getMinute end_ - getMinute begin_ in
  let hourDiff := getHour end_ - getHour begin_ in
  let totalMicrosec := (((hourDiff * 60 + minuteDiff) * 60 + secondDiff) * 1000 + milliDiff) * 1000 + microDiff in
  let begin_ := (add begin_ 0 0 0 hourDiff minuteDiff secondDiff milliDiff microDiff).1 in
  if negb (begin_ =? end_) then
    let '(begin_, totalDays) := count_days 10 begin_ end_ 0 in
    if negb (begin_ =? end_) then UINT64_MAX else u64 (totalMicrosec + totalDays * DAY_MICROSECS)
  else u64 totalMicrosec.

Lemma durationMicrosec_eq v w : isValid v = true -> isValid w = true -> v <> w ->
  durationMicrosec v w = if before w v then elapsed w v else elapsed v w.
Proof.
  intros Hv Hw Hne. unfold durationMicrosec. rewrite Hv, Hw. cbn [negb orb]. rewrite (proj2 (Z.eqb_neq v w)) by done. by destruct (before w v).
Qed.

(** The time of day of the end, on the day of the begin *)
Lemma same_time y m d h mi s ms us h' mi' s' ms' us' : is_date_time y m d h mi s ms us -> is_time h' mi' s' ms' us' ->
  (add (pack y m d h mi s ms us) 0 0 0 (h' - h) (mi' - mi) (s' - s) (ms' - ms) (us' - us)).1 = pack y m d h' mi' s' ms' us'.
Proof.
  intros Hv Ht'. pose proof Hv as (Hy & Hd & Ht). assert (all_moderate 0 0 0 (h' - h) (mi' - mi) (s' - s) (ms' - ms) (us' - us)) as Hall.
  { unfold all_moderate, moderate, is_time in *. lia. }
  destruct (add_split _ _ _ _ _ _ _ _ _ _ _ _ _ _ _ _ Hv Hall) as (h1 & mi1 & s1 & ms1 & us1 & k & -> & (_ & _ & Ht1) & Hk & Hsum).
  assert (time_of_day h mi s ms us + microsecs (h' - h) (mi' - mi) (s' - s) (ms' - ms) (us' - us) = time_of_day h' mi' s' ms' us') as E by (unfold microsecs, time_of_day; lia).
  rewrite E in Hsum. pose proof (time_of_day_range _ _ _ _ _ Ht'). pose proof (time_of_day_range _ _ _ _ _ Ht1).
  assert (k = 0) as -> by (change DAY_MICROSECS with 86400000000 in *; lia). rewrite (add_carry_days _ _ _ _ _ _ _ _ Hall) by lia. rewrite decide_True by lia. cbn [fst].
  assert (h1 = h' /\ mi1 = mi' /\ s1 = s' /\ ms1 = ms' /\ us1 = us') as (-> & -> & -> & -> & ->); [|done].
  unfold is_time in *. unfold time_of_day in Hsum. lia.
Qed.

Lemma END_OF_TIME_u64 : END_OF_TIME < 2 ^ 64.
Proof. vm_compute. reflexivity. Qed.

Lemma elapsed_spec v w : well_formed v -> well_formed w -> stamp v < stamp w -> elapsed v w = stamp w - stamp v.
Proof.
  intros Hv Hw Hlt. pose proof (stamp_range v Hv) as Rv. pose proof (stamp_range w Hw) as Rw. pose proof END_OF_TIME_u64.
  apply well_formed_inv in Hv as (y & m & d & h & mi & s & ms & us & -> & Hv). apply well_formed_inv in Hw as (y' & m' & d' & h' & mi' & s' & ms' & us' & -> & Hw).
  unfold elapsed. rewrite !stamp_pack in * by done.
  destruct (getters _ _ _ _ _ _ _ _ (is_date_time_fields _ _ _ _ _ _ _ _ Hv)) as (_ & _ & _ & -> & -> & -> & -> & ->).
  destruct (getters _ _ _ _ _ _ _ _ (is_date_time_fields _ _ _ _ _ _ _ _ Hw)) as (_ & _ & _ & -> & -> & -> & -> & ->).
  cbv zeta. rewrite same_time by (done || apply Hw).
  assert (is_date_time y m d h' mi' s' ms' us') as Hv' by (split; [apply Hv|split; [apply Hv|apply Hw]]).
  set (t := (_ + (us' - us))). assert (t = time_of_day h' mi' s' ms' us' - time_of_day h mi s ms us) as -> by (unfold t, time_of_day; lia).
  destruct (Z.eqb_spec (pack y m d h' mi' s' ms' us') (pack y' m' d' h' mi' s' ms' us')) as [E|_]; cbn [negb].
  - apply pack_inj in E as (-> & -> & -> & _); [|by apply is_date_time_fields..]. rewrite u64_small by (unfold is_u64; lia). lia.
  - rewrite (six_rounds y' m' d' h' mi' s' ms' us' Hw y m d Hv' 10%nat) by lia. rewrite Z.eqb_refl. cbn [negb]. rewrite u64_small by (unfold is_u64; lia). lia.
Qed.

(** C38: the order of the 64-bit values is the order in time, two values are equal exactly when their points of time are, and [durationMicrosec] and [durationDays] are the exact
    distance: the loop that counts the days always reaches the end within its ten rounds, and the error value is never returned for valid dates. *)
Theorem order_and_duration v w : well_formed v -> well_formed w ->
  (before v w = true <-> stamp v < stamp w) /\ (v = w <-> stamp v = stamp w) /\
  durationMicrosec v w = Z.abs (stamp v - stamp w) /\ durationDays v w = Z.abs (stamp v - stamp w) / DAY_MICROSECS.
Proof.
  intros Hv Hw. pose proof (stamp_lt v w Hv Hw) as Hlt. pose proof (stamp_lt w v Hw Hv) as Hgt. pose proof (stamp_inj v w Hv Hw) as Hinj.
  pose proof (stamp_range v Hv). pose proof (stamp_range w Hw). pose proof END_OF_TIME_u64.
  assert (durationMicrosec v w = Z.abs (stamp v - stamp w)) as E.
  { destruct (decide (v = w)) as [->|Hne].
    - unfold durationMicrosec. rewrite (proj2 Hw), Z.eqb_refl, Z.sub_diag. done.
    - rewrite durationMicrosec_eq by (done || apply Hv || apply Hw). unfold before. destruct (Z.ltb_spec w v); rewrite elapsed_spec by (done || lia); lia. }
  unfold before. rewrite Z.ltb_lt. split; [done|]. split; [split; [by intros ->|done]|]. split; [done|].
  unfold durationDays. rewrite E. rewrite (proj2 (Z.eqb_neq _ _)) by (unfold UINT64_MAX; lia). done.
Qed.

Lemma order_and_duration_witness :
  durationMicrosec (set 0 1 1 0 0 0 0 0) (set 65535 12 31 23 59 59 999 999) = END_OF_TIME - 1.
Proof.
  assert (well_formed (set 0 1 1 0 0 0 0 0)) as Hv by (split; vm_compute; [split; [discriminate|reflexivity]|reflexivity]).
  assert (well_formed (set 65535 12 31 23 59 59 999 999)) as Hw by (split; vm_compute; [split; [discriminate|reflexivity]|reflexivity]).
  destruct (order_and_duration _ _ Hv Hw) as (_ & _ & H & _). rewrite H. vm_compute. reflexivity.
Defined.

(** adding months and years changes the year and the month as the calendar does, keeps the time of day, and keeps the day of the month where the new month has it; the
    29th, 30th and 31st otherwise run over into the following month.  The call fails, and changes nothing, if and only if the new year is not in 0 to 65535. *)
Theorem add_months_years v years months : well_formed v -> moderate years -> moderate months ->
  let y := later_year (getYear v) (getMonth v) months years in let m := later_month (getMonth v) months in let l := month_length (leap y) m in
  let '(w, ok) := addDate v years months 0 in
  (ok = true <-> 0 <= y < YEARS) /\ (ok = false -> w = v) /\
  (ok = true -> well_formed w /\ getYear w = y /\ (getMonth w, getDay w) = (if getDay v <=? l then (m, getDay v) else (m + 1, getDay v - l)) /\
    stamp w mod DAY_MICROSECS = stamp v mod DAY_MICROSECS).
Proof.
  intros (y & m & d & h & mi & s & ms & us & -> & Hv)%well_formed_inv Hyears Hmonths. pose proof (getters _ _ _ _ _ _ _ _ (is_date_time_fields _ _ _ _ _ _ _ _ Hv)) as (-> & -> & -> & _).
  pose proof (addMonths_spec y m d h mi s ms us Hv years months Hyears Hmonths) as Hadd. cbv zeta. case_decide as Hin; [|by rewrite Hadd].
  set (y2 := later_year y m months years) in *. destruct Hadd as (m' & d' & -> & Hw & Hn). split; [done|]. split; [done|]. intros _. split; [by apply well_formed_pack|].
  pose proof (getters _ _ _ _ _ _ _ _ (is_date_time_fields _ _ _ _ _ _ _ _ Hw)) as (-> & -> & -> & _). split; [done|]. rewrite !stamp_pack by done. split.
  - assert (is_month (later_month m months)) as Hm2 by (unfold is_month, later_month; pose proof (Z.mod_pos_bound (m - 1 + months) 12); lia).
    pose proof Hw as (_ & Hd' & _). pose proof Hv as (_ & [_ Hd] & _). pose proof (month_length_range (leap y) m). destruct (Z.leb_spec d (month_length (leap y2) (later_month m months))).
    + apply day_number_inj in Hn as (_ & -> & ->); [done|done|]. split; [done|lia].
    + destruct (next_month_date y2 (later_month m months) d Hm2) as [Hd2 E]; [lia|]. rewrite <- E in Hn. by apply day_number_inj in Hn as (_ & -> & ->).
  - rewrite !(Z.add_comm (_ * DAY_MICROSECS)), !Z_mod_plus_full. done.
Qed.

Lemma add_months_years_witness : addDate (set 2023 1 31 0 0 0 0 0) 0 (-11) 0 = (set 2022 3 3 0 0 0 0 0, true) /\ getMonth (set 2022 3 3 0 0 0 0 0) = 3.
Proof.
  assert (well_formed (set 2023 1 31 0 0 0 0 0)) as Hv by (split; vm_compute; [split; [discriminate|reflexivity]|reflexivity]).
  pose proof (add_months_years _ 0 (-11) Hv) as H. assert (addDate (set 2023 1 31 0 0 0 0 0) 0 (-11) 0 = (set 2022 3 3 0 0 0 0 0, true)) as E by (vm_compute; reflexivity).
  split; [exact E|]. cbv zeta in H. rewrite E in H. destruct H as (_ & _ & H); [unfold moderate; lia..|]. destruct (H eq_refl) as (_ & _ & Hm & _). exact (f_equal fst Hm).
Defined.

(** The witness of the type: a day is added, then a month, then too much *)
Lemma date_time_type_witness : well_formed (fold_left (fun v c => (call v c).1) [SetTime 23 0 0 0 0; AddDays 1; Add 0 1 0 25 0 0 0 (-1); AddDate 70000 0 0] (set 2024 2 29 12 0 0 0 0)) /\
  fold_left (fun v c => (call v c).1) [SetTime 23 0 0 0 0; AddDays 1; Add 0 1 0 25 0 0 0 (-1); AddDate 70000 0 0] (set 2024 2 29 12 0 0 0 0) = set 2024 4 2 23 59 59 999 999.
Proof.
  split; [|vm_compute; reflexivity]. assert (well_formed (set 2024 2 29 12 0 0 0 0)) as Hv by (split; vm_compute; [split; [discriminate|reflexivity]|reflexivity]).
  apply (proj1 (date_time_type _ _ Hv)).
  repeat constructor; cbv [arguments_ok all_moderate moderate is_time]; lia.
Defined.

(** ** Outside the amounts of the theorems *)

(** [isLeapYear] takes an unsigned year: days that lead below the year 0 and years that lead back miscount the leap years between; the calendar repeats after 400 years. *)
Example days_below_year_0 :
  addDate (set 0 1 1 0 0 0 0 0) 200 0 (-36890) = (set 99 1 1 0 0 0 0 0, true) /\ addDate (set 400 1 1 0 0 0 0 0) (-200) 0 (-36890) = (set 98 12 31 0 0 0 0 0, true).
Proof. split; vm_compute; reflexivity. Qed.

(** A sum of time units that leaves the calendar fails, but the time of day has been changed before. *)
Example failed_add_changes_time : addMicrosec (set 65535 12 31 23 59 59 999 999) 1 = (set 65535 12 31 0 0 0 0 0, false).
Proof. vm_compute. reflexivity. Qed.

(** The carry of the most negative amount overflows: 1808 microseconds, which run into the bits of the milliseconds. *)
Example carry_overflow : addAndComputeCarry 0 1000 INT64_MIN 0 = Some (1808, 9223372036854774) /\ ~ (0 <= 1808 < 1000).
Proof. split; [vm_compute; reflexivity|lia]. Qed.
