(* ===== verification/MathLib.v ===== *)
(** * math_lib (src/contracts/math_lib.h)

    Integer helpers of the node and of the contracts: saturating arithmetic, rounding
    division, powers, roots.  Each overload is a definition at its width. *)
From S2P Require Import Prelude OccupationFlags.

Definition INT32_MIN : Z := - 2 ^ 31.
Definition INT32_MAX : Z := 2 ^ 31 - 1.
Definition UINT32_MAX : Z := 2 ^ 32 - 1.

Definition is_s32 (z : Z) : Prop := - 2 ^ 31 <= z < 2 ^ 31.

(** ** Definitions *)

Definition max (left right : Z) : Z := if left <? right then right else left.
Definition min (left right : Z) : Z := if left <? right then left else right.

(** [abs] at [long long]; the negation of [INT64_MIN] wraps. *)
Definition abs (a : Z) : Z := if a <? 0 then s64 (- a) else a.

Definition divUp_u64 (a b : Z) : Z := if negb (b =? 0) then u64 (a + b - 1) / b else 0.
Definition divUp_u32 (a b : Z) : Z := if negb (b =? 0) then u32 (a + b - 1) / b else 0.

(** The operands of type [unsigned short] and [unsigned char] are promoted to [int]. *)
Definition divUp_u16 (a b : Z) : Z := if negb (b =? 0) then u16 ((a + b - 1) / b) else 0.
Definition divUp_u8 (a b : Z) : Z := if negb (b =? 0) then u8 ((a + b - 1) / b) else 0.

Definition findNextPowerOf2 (num : Z) : Z :=
  if num =? 0 then 1
  else
    let num := u64 (num - 1) in
    let num := Z.lor num (Z.shiftr num 1) in
    let num := Z.lor num (Z.shiftr num 2) in
    let num := Z.lor num (Z.shiftr num 4) in
    let num := Z.lor num (Z.shiftr num 8) in
    let num := Z.lor num (Z.shiftr num 16) in
    let num := Z.lor num (Z.shiftr num 32) in
    u64 (num + 1).

(** [_mul128] and [_umul128] give the low and the high word of the product. *)
Definition smul_s64 (a b : Z) : Z :=
  let lo := s64 (a * b) in
  let hi := Z.shiftr (a * b) 64 in
  if negb (hi =? Z.shiftr lo 63) then
    if Bool.eqb (0 <? a) (0 <? b) then INT64_MAX else INT64_MIN
  else lo.

Definition smul_u64 (a b : Z) : Z :=
  let lo := u64 (a * b) in
  let hi := Z.shiftr (a * b) 64 in
  if negb (hi =? 0) then UINT64_MAX else lo.

Definition smul_s32 (a b : Z) : Z :=
  let r := s64 (a * b) in
  if r <? INT32_MIN then INT32_MIN else if INT32_MAX <? r then INT32_MAX else r.

Definition smul_u32 (a b : Z) : Z :=
  let r := u64 (a * b) in
  if UINT32_MAX <? r then UINT32_MAX else r.

Definition sadd_s64 (a b : Z) : Z :=
  let sum := s64 (a + b) in
  if (a <? 0) && (b <? 0) && (0 <? sum) then INT64_MIN
  else if (0 <? a) && (0 <? b) && (sum <? 0) then INT64_MAX
  else sum.

Definition sadd_u64 (a b : Z) : Z :=
  if UINT64_MAX - a <? b then UINT64_MAX else u64 (a + b).

Definition sadd_s32 (a b : Z) : Z :=
  let sum := s64 (a + b) in
  if sum <? INT32_MIN then INT32_MIN else if INT32_MAX <? sum then INT32_MAX else sum.

Definition sadd_u32 (a b : Z) : Z :=
  let sum := u64 (a + b) in
  if UINT32_MAX <? sum then UINT32_MAX else sum.

(** The state of the loop is the pair [(a, b)]; [2^8] rounds are enough for 64-bit operands
    ([gcd_loop_ok]). *)
Definition greatestCommonDivisor (a b : Z) : Z :=
  if (a <? 0) || (b <? 0) then 0
  else
    (while_loop (fun '(_, b) => negb (b =? 0)) (fun '(a, b) => (b, a mod b)) 256 (a, b)).1.

(** State of the loop of [ipow]: [inl] is an early return. *)
Definition ipow_step (st : Z + Z * Z * Z) : Z + Z * Z * Z :=
  match st with
  | inl x => inl x
  | inr (v, e, r) =>
      let max_val := UINT64_MAX in
      match (if negb (Z.land e 1 =? 0)
             then if max_val / v <? r then inl max_val else inr (u64 (r * v))
             else inr r) with
      | inl x => inl x
      | inr r =>
          let e := Z.shiftr e 1 in
          if 0 <? e then
            if max_val / v <? v then inl max_val else inr (u64 (v * v), e, r)
          else inr (v, e, r)
      end
  end.

Definition ipow (v e : Z) : Z :=
  if v =? 0 then (if e =? 0 then 1 else 0)
  else if v =? 1 then 1
  else
    match while_loop (fun st => match st with inl _ => false | inr (_, e, _) => 0 <? e end)
            ipow_step 33 (inr (v, e, 1)) with
    | inl x => x
    | inr (_, _, r) => r
    end.

Definition IROOT_NEWTON_CAP : Z := 100.

Definition bitLength (x : Z) : Z := if x =? 0 then 0 else 64 - lzcnt_u64 x.

(** [n] rounds of the loop of [powerLessOrEqual] are left. *)
Fixpoint powerLessOrEqual_loop (n : nat) (x p maxAllowed : Z) : bool :=
  match n with
  | O => true
  | S n' => if maxAllowed / x <? p then false
            else powerLessOrEqual_loop n' x (u64 (p * x)) maxAllowed
  end.

Definition powerLessOrEqual (x exp maxAllowed : Z) : bool :=
  if exp =? 0 then 1 <=? maxAllowed
  else if x <=? 1 then x <=? maxAllowed
  else powerLessOrEqual_loop (Z.to_nat exp) x 1 maxAllowed.

(** [None]: [overflowed]. *)
Fixpoint irootNewtonStep_power (n : nat) (x xPowKm1 : Z) : option Z :=
  match n with
  | O => Some xPowKm1
  | S n' => if UINT64_MAX / x <? xPowKm1 then None
            else irootNewtonStep_power n' x (u64 (xPowKm1 * x))
  end.

Definition irootNewtonStep (k n x : Z) : Z :=
  let divTerm := match irootNewtonStep_power (Z.to_nat (k - 1)) x 1 with
                 | None => 0
                 | Some xPowKm1 => n / xPowKm1
                 end in
  if x <=? divTerm then u64 (x + (divTerm - x) / k)
  else u64 (x - u64 (x - divTerm + (k - 1)) / k).

(** The Newton loop, on the variables [(x, t, iter)]. *)
Definition iroot_newton (k n x : Z) : Z :=
  (while_loop (fun '(x, t, iter) => (t <? x) && (iter <? IROOT_NEWTON_CAP))
     (fun '(x, t, iter) => (t, irootNewtonStep k n t, iter + 1)) 101
     (x, irootNewtonStep k n x, 0)).1.1.

(** The exact floor correction: decrement, then increment. *)
Definition iroot_down (k n x : Z) : Z :=
  while_loop (fun x => negb (powerLessOrEqual x k n)) (fun x => u64 (x - 1)) (2 ^ 64) x.

Definition iroot_up (k n x : Z) : Z :=
  while_loop (fun x => (x <? UINT64_MAX) && powerLessOrEqual (u64 (x + 1)) k n)
    (fun x => u64 (x + 1)) (2 ^ 64) x.

Definition irootK64 (k n : Z) : Z :=
  if k =? 1 then n
  else if n <? 2 then n
  else
    let seedShift := (bitLength n + k - 1) / k in
    let x := u64 (Z.shiftl 1 seedShift) in
    let x := iroot_newton k n x in
    iroot_up k n (iroot_down k n x).

(** ** Saturating arithmetic *)

Definition clamp (lo hi z : Z) : Z := Z.max lo (Z.min hi z).

Lemma s64_cases p :
  (is_s64 p /\ s64 p = p) \/ (2 ^ 63 <= p /\ ~ is_s64 p) \/ (p < - 2 ^ 63 /\ ~ is_s64 p).
Proof.
  destruct (decide (- 2 ^ 63 <= p)), (decide (p < 2 ^ 63)).
  - left. split; [done|]. by apply s64_small.
  - right. left. unfold is_s64. lia.
  - right. right. unfold is_s64. lia.
  - lia.
Qed.

(** The overflow test of [smul] on the two product words. *)
Lemma mul128_overflow p :
  Z.shiftr p 64 = Z.shiftr (s64 p) 63 <-> is_s64 p.
Proof.
  rewrite !Z.shiftr_div_pow2 by lia. unfold is_s64, s64. Z.div_mod_to_equations. lia.
Qed.

Lemma smul_s64_clamp a b :
  is_s64 a -> is_s64 b -> smul_s64 a b = clamp INT64_MIN INT64_MAX (a * b).
Proof.
  intros Ha Hb. unfold smul_s64, clamp, INT64_MIN, INT64_MAX.
  destruct (Z.eqb_spec (Z.shiftr (a * b) 64) (Z.shiftr (s64 (a * b)) 63)) as [He|He];
    rewrite mul128_overflow in He; cbn [negb].
  - rewrite s64_small by done. unfold is_s64 in He. lia.
  - destruct (s64_cases (a * b)) as [[? _]|[[Hp _]|[Hp _]]]; [done|..].
    + assert (0 < a /\ 0 < b \/ b < 0 /\ a < 0) as Hs by (apply Z.lt_0_mul; lia).
      rewrite (proj2 (Bool.eqb_true_iff _ _)); [lia|].
      destruct Hs, (Z.ltb_spec 0 a), (Z.ltb_spec 0 b); (done || lia).
    + assert (a < 0 /\ 0 < b \/ 0 < a /\ b < 0) as Hs by (apply Z.lt_mul_0; lia).
      destruct Hs, (Z.ltb_spec 0 a), (Z.ltb_spec 0 b); simpl; lia.
Qed.

Lemma smul_u64_clamp a b :
  is_u64 a -> is_u64 b -> smul_u64 a b = clamp 0 UINT64_MAX (a * b).
Proof.
  unfold is_u64, smul_u64, clamp, UINT64_MAX, u64. intros Ha Hb.
  rewrite Z.shiftr_div_pow2 by lia. assert (0 <= a * b) by nia.
  destruct (Z.eqb_spec (a * b / 2 ^ 64) 0); simpl; Z.div_mod_to_equations; lia.
Qed.

Lemma smul_s32_clamp a b :
  is_s32 a -> is_s32 b -> smul_s32 a b = clamp INT32_MIN INT32_MAX (a * b).
Proof.
  unfold is_s32. intros Ha Hb. assert (- 2 ^ 62 <= a * b <= 2 ^ 62) by nia.
  unfold smul_s32, clamp, INT32_MIN, INT32_MAX. rewrite s64_small by (unfold is_s64; lia).
  destruct (Z.ltb_spec (a * b) (- 2 ^ 31)), (Z.ltb_spec (2 ^ 31 - 1) (a * b)); lia.
Qed.

Lemma smul_u32_clamp a b :
  is_u32 a -> is_u32 b -> smul_u32 a b = clamp 0 UINT32_MAX (a * b).
Proof.
  unfold is_u32. intros Ha Hb. assert (0 <= a * b < 2 ^ 64) by nia.
  unfold smul_u32, clamp, UINT32_MAX. rewrite u64_small by (unfold is_u64; lia).
  destruct (Z.ltb_spec (2 ^ 32 - 1) (a * b)); lia.
Qed.

Lemma sadd_s64_clamp a b :
  is_s64 a -> is_s64 b ->
  sadd_s64 a b = if decide (a = INT64_MIN /\ b = INT64_MIN) then 0
                 else clamp INT64_MIN INT64_MAX (a + b).
Proof.
  unfold is_s64. intros Ha Hb. unfold sadd_s64, clamp, INT64_MIN, INT64_MAX, s64.
  destruct (Z.ltb_spec a 0), (Z.ltb_spec b 0), (Z.ltb_spec 0 a), (Z.ltb_spec 0 b);
    cbn [andb]; try lia; case_match; case_decide; Z.div_mod_to_equations; lia.
Qed.

Lemma sadd_u64_clamp a b :
  is_u64 a -> is_u64 b -> sadd_u64 a b = clamp 0 UINT64_MAX (a + b).
Proof.
  unfold is_u64, sadd_u64, clamp, UINT64_MAX. intros Ha Hb.
  destruct (Z.ltb_spec (2 ^ 64 - 1 - a) b); [lia|]. rewrite u64_small by (unfold is_u64; lia). lia.
Qed.

Lemma sadd_s32_clamp a b :
  is_s32 a -> is_s32 b -> sadd_s32 a b = clamp INT32_MIN INT32_MAX (a + b).
Proof.
  unfold is_s32. intros Ha Hb.
  unfold sadd_s32, clamp, INT32_MIN, INT32_MAX. rewrite s64_small by (unfold is_s64; lia).
  destruct (Z.ltb_spec (a + b) (- 2 ^ 31)), (Z.ltb_spec (2 ^ 31 - 1) (a + b)); lia.
Qed.

Lemma sadd_u32_clamp a b :
  is_u32 a -> is_u32 b -> sadd_u32 a b = clamp 0 UINT32_MAX (a + b).
Proof.
  unfold is_u32. intros Ha Hb.
  unfold sadd_u32, clamp, UINT32_MAX. rewrite u64_small by (unfold is_u64; lia).
  destruct (Z.ltb_spec (2 ^ 32 - 1) (a + b)); lia.
Qed.

(** every overload of [smul] and [sadd] returns the exact product or sum clamped to the
    range of its type, with one exception: [sadd(INT64_MIN, INT64_MIN)] wraps to 0, because
    the test for a negative overflow asks for a positive sum. *)
Theorem saturating_arithmetic a b :
  (is_s64 a -> is_s64 b ->
   smul_s64 a b = clamp INT64_MIN INT64_MAX (a * b) /\
   sadd_s64 a b = if decide (a = INT64_MIN /\ b = INT64_MIN) then 0
                  else clamp INT64_MIN INT64_MAX (a + b)) /\
  (is_u64 a -> is_u64 b ->
   smul_u64 a b = clamp 0 UINT64_MAX (a * b) /\ sadd_u64 a b = clamp 0 UINT64_MAX (a + b)) /\
  (is_s32 a -> is_s32 b ->
   smul_s32 a b = clamp INT32_MIN INT32_MAX (a * b) /\
   sadd_s32 a b = clamp INT32_MIN INT32_MAX (a + b)) /\
  (is_u32 a -> is_u32 b ->
   smul_u32 a b = clamp 0 UINT32_MAX (a * b) /\ sadd_u32 a b = clamp 0 UINT32_MAX (a + b)).
Proof.
  split_and!; intros Ha Hb; split;
    auto using smul_s64_clamp, smul_u64_clamp, smul_s32_clamp, smul_u32_clamp,
      sadd_s64_clamp, sadd_u64_clamp, sadd_s32_clamp, sadd_u32_clamp.
Qed.

(** ** Rounding *)

Lemma ceil_div a b : 0 <= a -> 0 < b ->
  let q := (a + b - 1) / b in (q - 1) * b < a <= q * b.
Proof. intros Ha Hb q. unfold q. Z.div_mod_to_equations. nia. Qed.

(** [divUp] is the quotient rounded up, and 0 for a zero divisor; at 64 and 32 bits the
    sum [a + b - 1] must not overflow, at 16 and 8 bits it cannot. *)
Lemma divUp_rounds_up a b :
  0 <= a -> 0 < b ->
  let up q := (q - 1) * b < a <= q * b in
  (a + b <= 2 ^ 64 -> up (divUp_u64 a b)) /\ (a + b <= 2 ^ 32 -> up (divUp_u32 a b)) /\
  (a < 2 ^ 16 -> up (divUp_u16 a b)) /\ (a < 2 ^ 8 -> up (divUp_u8 a b)) /\
  divUp_u64 a 0 = 0 /\ divUp_u32 a 0 = 0 /\ divUp_u16 a 0 = 0 /\ divUp_u8 a 0 = 0.
Proof.
  intros Ha Hb up. pose proof (ceil_div a b Ha Hb) as Hc. fold up in Hc. cbn zeta in Hc.
  assert (0 <= (a + b - 1) / b <= a) as Hq by (Z.div_mod_to_equations; nia).
  unfold divUp_u64, divUp_u32, divUp_u16, divUp_u8. rewrite (proj2 (Z.eqb_neq b 0)) by lia.
  cbn [negb Z.eqb]. split_and!; try done; intros Hs.
  - by rewrite u64_small by (unfold is_u64; lia).
  - by rewrite u32_small by (unfold is_u32; lia).
  - unfold u16. by rewrite Z.mod_small by lia.
  - unfold u8. by rewrite Z.mod_small by lia.
Qed.

(** [w] has bit [i] set if [x] has one of the bits [i .. i + m - 1] set. *)
Definition smeared (x m w : Z) : Prop :=
  forall i, 0 <= i -> Z.testbit w i = true <-> exists j, i <= j < i + m /\ Z.testbit x j = true.

Lemma smear_step x m w : 0 < m -> smeared x m w -> smeared x (2 * m) (Z.lor w (Z.shiftr w m)).
Proof.
  intros Hm Hw i Hi. rewrite Z.lor_spec, Z.shiftr_spec, orb_true_iff, (Hw i), (Hw (i + m)) by lia.
  split.
  - intros [(j & ? & ?)|(j & ? & ?)]; exists j; (split; [lia|done]).
  - intros (j & ? & ?). destruct (Z.lt_ge_cases j (i + m)); [left|right]; exists j; (split; [lia|done]).
Qed.

Lemma smeared_ones x w : 0 < x < 2 ^ 64 -> smeared x 64 w -> 0 <= w -> w = Z.ones (Z.log2 x + 1).
Proof.
  intros Hx Hw Hw0. pose proof (Z.log2_nonneg x).
  assert (Z.log2 x < 64) by (apply Z.log2_lt_pow2; lia).
  apply Z.bits_inj'. intros i Hi. apply Bool.eq_iff_eq_true. rewrite (Hw i Hi).
  rewrite Z.testbit_ones_nonneg by lia. rewrite Z.ltb_lt. split.
  - intros (j & Hj & Hb). destruct (Z.lt_ge_cases (Z.log2 x) j); [|lia].
    rewrite Z.bits_above_log2 in Hb by lia. done.
  - intros. exists (Z.log2 x). split; [lia|]. apply Z.bit_log2. lia.
Qed.

(** [findNextPowerOf2] is the smallest power of two not below its argument, up to [2^63];
    above it the result wraps to 0. *)
Lemma findNextPowerOf2_spec num :
  is_u64 num ->
  findNextPowerOf2 num = if decide (num <= 2 ^ 63) then 2 ^ Z.log2_up num else 0.
Proof.
  intros Hn. unfold is_u64 in Hn. unfold findNextPowerOf2.
  destruct (Z.eqb_spec num 0) as [->|H0]; [done|].
  rewrite (u64_small (num - 1)) by (unfold is_u64; lia). cbn zeta.
  set (x := num - 1). set (y := Z.lor _ (Z.shiftr _ 32)).
  assert (smeared x 64 y) as Hy.
  { unfold y. apply (smear_step x 32); [lia|]. apply (smear_step x 16); [lia|].
    apply (smear_step x 8); [lia|]. apply (smear_step x 4); [lia|]. apply (smear_step x 2); [lia|].
    apply (smear_step x 1); [lia|]. intros i Hi. split.
    - intros Hb. exists i. split; [lia|done].
    - intros (j & Hj & Hb). by replace i with j by lia. }
  assert (0 <= y) as Hy0.
  { assert (forall w m, 0 <= w -> 0 <= Z.lor w (Z.shiftr w m)) as Hs
      by (intros; apply Z.lor_nonneg; split; [done|by apply Z.shiftr_nonneg]).
    unfold y. repeat apply Hs. unfold x. lia. }
  destruct (decide (num = 1)) as [->|H1].
  { simpl in x. assert (y = 0) as ->; [|done]. apply Z.bits_inj'. intros i Hi.
    rewrite Z.bits_0. destruct (Z.testbit y i) eqn:Hb; [|done].
    apply Hy in Hb as (j & ? & Hb); [|done]. unfold x in Hb. by rewrite Z.bits_0 in Hb. }
  rewrite (smeared_ones x y) by (done || unfold x; lia). rewrite Z.ones_equiv.
  rewrite Z.log2_up_eqn by lia. change (Z.pred num) with x. unfold Z.succ.
  assert (2 ^ Z.log2 x <= x < 2 ^ (Z.log2 x + 1)) as Hl by (apply Z.log2_spec; unfold x; lia).
  pose proof (Z.log2_nonneg x).
  replace (Z.pred (2 ^ (Z.log2 x + 1)) + 1) with (2 ^ (Z.log2 x + 1)) by lia. unfold u64.
  case_decide as Hd.
  - apply Z.mod_small. split; [lia|]. apply Z.pow_lt_mono_r; [lia..|].
    enough (Z.log2 x < 63) by lia. apply Z.log2_lt_pow2; unfold x; lia.
  - assert (Z.log2 x = 63) as ->; [|done]. apply Z.log2_unique; unfold x; lia.
Qed.

(** ** Greatest common divisor *)

Definition gcd_measure (s : Z * Z) : Z :=
  let '(a, b) := s in
  if b =? 0 then 0 else 1 + Z.b2z (a <? b) + Z.log2 (a * b).

Lemma gcd_measure_step a b :
  0 <= a -> 0 < b -> 0 < gcd_measure (a, b) /\ gcd_measure (b, a mod b) < gcd_measure (a, b).
Proof.
  intros Ha Hb. unfold gcd_measure. rewrite (proj2 (Z.eqb_neq b 0)) by lia.
  pose proof (Z.log2_nonneg (a * b)). pose proof (b2z_range (a <? b)). split; [lia|].
  pose proof (Z.mod_pos_bound a b Hb). destruct (Z.eqb_spec (a mod b) 0); [lia|].
  rewrite (proj2 (Z.ltb_ge b (a mod b))) by lia. simpl.
  destruct (Z.ltb_spec a b) as [Hlt|Hge]; simpl.
  - rewrite Z.mod_small, Z.mul_comm by lia. lia.
  - assert (Z.log2 (2 * (b * (a mod b))) <= Z.log2 (a * b)) as Hl.
    { apply Z.log2_le_mono. assert (1 <= a / b) by (apply Z.div_le_lower_bound; lia).
      pose proof (Z.div_mod a b ltac:(lia)). assert (2 * (a mod b) <= a) by nia. nia. }
    rewrite Z.log2_double in Hl by nia. lia.
Qed.

(** For 64-bit operands that are not negative, [greatestCommonDivisor] terminates and
    returns the greatest common divisor; it returns 0 if an operand is negative. *)
Theorem greatestCommonDivisor_spec a b :
  a < 2 ^ 64 -> b < 2 ^ 64 ->
  greatestCommonDivisor a b = if decide (0 <= a /\ 0 <= b) then Z.gcd a b else 0.
Proof.
  intros Ha Hb. unfold greatestCommonDivisor. case_decide as Hd.
  2:{ destruct (Z.ltb_spec a 0), (Z.ltb_spec b 0); cbn [orb]; [done..|lia]. }
  rewrite (proj2 (Z.ltb_ge a 0)), (proj2 (Z.ltb_ge b 0)) by lia. cbn [orb].
  destruct (while_loop_total (fun '(_, b) => negb (b =? 0)) (fun '(a, b) => (b, a mod b))
    (fun s => 0 <= s.1 /\ 0 <= s.2 /\ Z.gcd s.1 s.2 = Z.gcd a b) gcd_measure 256 (a, b)) as [HI Hc].
  - intros [x y] (Hx & Hy & Hg) Hc. cbn [fst snd] in *.
    apply negb_true_iff, Z.eqb_neq in Hc. pose proof (Z.mod_pos_bound x y).
    destruct (gcd_measure_step x y) as [? ?]; [lia..|]. split; [done|]. split; [|done].
    split; [lia|]. split; [lia|]. rewrite <- Hg. rewrite Z.gcd_comm, Z.gcd_mod by lia.
    apply Z.gcd_comm.
  - cbn [fst snd]. split; [lia|]. split; [lia|done].
  - unfold gcd_measure. destruct (Z.eqb_spec b 0); [lia|].
    pose proof (b2z_range (a <? b)).
    assert (Z.log2 (a * b) <= Z.log2 (2 ^ 128)) by (apply Z.log2_le_mono; nia).
    rewrite Z.log2_pow2 in * by lia. lia.
  - destruct (while_loop _ _ _ _) as [x y]. cbn [fst snd] in *.
    apply negb_false_iff, Z.eqb_eq in Hc. subst y. destruct HI as (? & _ & <-).
    rewrite Z.gcd_0_r. lia.
Qed.

(** ** Powers *)

Lemma div_lt_iff m x r : 0 < x -> (m / x <? r) = (m <? r * x).
Proof.
  intros Hx. destruct (Z.ltb_spec (m / x) r), (Z.ltb_spec m (r * x)); try done; exfalso.
  - assert (r * x / x <= m / x) by (apply Z.div_le_mono; lia). rewrite Z.div_mul in * by lia. lia.
  - assert (m / x * x <= m) by (Z.div_mod_to_equations; lia). nia.
Qed.

(** What the variables of [ipow] satisfy: the remaining work [r * v^e] is the power, and a
    returned value is the saturated one. *)
Definition ipow_inv (p : Z) (st : Z + Z * Z * Z) : Prop :=
  match st with
  | inl x => x = UINT64_MAX /\ UINT64_MAX < p
  | inr (v, e, r) => 2 <= v < 2 ^ 64 /\ 0 <= e < 2 ^ 32 /\ 1 <= r < 2 ^ 64 /\ r * v ^ e = p
  end.

Definition ipow_measure (st : Z + Z * Z * Z) : Z :=
  match st with inl _ => 0 | inr (_, e, _) => if e =? 0 then 0 else 1 + Z.log2 e end.

Lemma odd_land1 e : negb (Z.land e 1 =? 0) = Z.odd e.
Proof.
  change 1 with (2 ^ 1 - 1). rewrite land_mask by lia. change (2 ^ 1) with 2. rewrite Zmod_odd.
  by destruct (Z.odd e).
Qed.

Lemma pow_half v e : 0 <= e -> v ^ e = (if Z.odd e then v else 1) * (v * v) ^ (Z.shiftr e 1).
Proof.
  intros He. rewrite Z.shiftr_div_pow2 by lia. change (2 ^ 1) with 2.
  rewrite (Z.div_mod e 2) at 1 by lia. rewrite Zmod_odd.
  assert (0 <= e / 2) by (Z.div_mod_to_equations; lia).
  replace (v * v) with (v ^ 2) by lia.
  destruct (Z.odd e); rewrite <- Z.pow_mul_r by lia.
  - rewrite Z.add_1_r, Z.pow_succ_r by lia. done.
  - rewrite Z.add_0_r. lia.
Qed.

Lemma ipow_step_inv p st :
  ipow_inv p st -> (match st with inl _ => false | inr (_, e, _) => 0 <? e end) = true ->
  0 < ipow_measure st /\ ipow_inv p (ipow_step st) /\ ipow_measure (ipow_step st) < ipow_measure st.
Proof.
  destruct st as [|[[v e] r]]; [done|]. intros (Hv & He & Hr & Hp) Hc%Z.ltb_lt.
  pose proof (Z.log2_nonneg e). unfold ipow_step, ipow_measure at 1 3.
  rewrite (proj2 (Z.eqb_neq e 0)) by lia. split; [lia|].
  rewrite odd_land1, !div_lt_iff by lia. rewrite (pow_half v e) in Hp by lia.
  set (e' := Z.shiftr e 1) in *.
  assert (0 <= e' < 2 ^ 32 /\ (e = 1 -> e' = 0) /\ (1 < e -> 1 <= e')) as (He' & He1 & He2).
  { unfold e'. rewrite Z.shiftr_div_pow2 by lia. Z.div_mod_to_equations. lia. }
  assert (ipow_measure (inr (v, e', r)) < 1 + Z.log2 e) as Hm.
  { simpl. destruct (Z.eqb_spec e' 0); [lia|].
    unfold e'. rewrite Z.log2_shiftr by lia. destruct (decide (e = 1)); [tauto|].
    assert (1 <= Z.log2 e) by (change 1 with (Z.log2 2); apply Z.log2_le_mono; lia). lia. }
  assert (1 <= (v * v) ^ e') as Hpos by (assert (0 < (v * v) ^ e') by (apply Z.pow_pos_nonneg; nia); lia).
  assert (1 <= e' -> v * v <= (v * v) ^ e') as Hge.
  { intros. rewrite <- (Z.pow_1_r (v * v)) at 1. apply Z.pow_le_mono_r; nia. }
  assert (forall r', 1 <= r' < 2 ^ 64 -> r' * (v * v) ^ e' = p ->
    let st' := if 0 <? e' then if UINT64_MAX <? v * v then inl UINT64_MAX else inr (u64 (v * v), e', r')
               else inr (v, e', r') in
    ipow_inv p st' /\ ipow_measure st' < 1 + Z.log2 e) as Hrest.
  { intros r' Hr' Hp'. cbn zeta. destruct (Z.ltb_spec 0 e') as [Hpe|Hze].
    - destruct (Z.ltb_spec UINT64_MAX (v * v)) as [Ho|Ho]; simpl.
      + split; [split; [done|]|lia]. specialize (Hge ltac:(lia)). nia.
      + unfold UINT64_MAX in Ho. assert (2 * 2 <= v * v) by (apply Z.mul_le_mono_nonneg; lia).
        rewrite u64_small by (unfold is_u64; lia).
        split; [|exact Hm]. split; [lia|]. done.
    - split; [|exact Hm]. assert (e' = 0) as -> by lia. simpl. rewrite Z.pow_0_r in *. lia. }
  destruct (Z.odd e).
  - destruct (Z.ltb_spec UINT64_MAX (r * v)) as [Ho|Ho].
    + simpl. split; [split; [done|]|lia]. nia.
    + unfold UINT64_MAX in Ho. assert (0 < r * v) by (apply Z.mul_pos_pos; lia).
      rewrite (u64_small (r * v)) by (unfold is_u64; lia).
      apply Hrest; [lia|]. rewrite <- Hp. ring.
  - apply Hrest; [done|]. rewrite <- Hp. ring.
Qed.

(** [ipow] terminates and returns [v^e], saturated at [2^64 - 1]. *)
Theorem ipow_saturates v e :
  is_u64 v -> is_u32 e -> ipow v e = Z.min (v ^ e) UINT64_MAX.
Proof.
  unfold is_u64, is_u32. intros Hv He. unfold ipow.
  destruct (Z.eqb_spec v 0) as [->|].
  { destruct (Z.eqb_spec e 0) as [->|]; [done|]. by rewrite Z.pow_0_l by lia. }
  destruct (Z.eqb_spec v 1) as [->|]; [by rewrite Z.pow_1_l by lia|].
  destruct (while_loop_total (fun st : Z + Z * Z * Z => match st with inl _ => false | inr (_, e, _) => 0 <? e end)
    ipow_step (ipow_inv (v ^ e)) ipow_measure 33 (inr (v, e, 1))) as [HI Hc].
  - intros st HI Hc. by apply ipow_step_inv.
  - split; [lia|]. split; [done|]. split; [lia|]. lia.
  - simpl. destruct (Z.eqb_spec e 0); [lia|]. assert (Z.log2 e < 32) by (apply Z.log2_lt_pow2; lia). lia.
  - destruct (while_loop _ _ _ _) as [x|[[v' e'] r]]; simpl in *; [lia|].
    apply Z.ltb_ge in Hc. destruct HI as (_ & ? & ? & Hp). assert (e' = 0) as -> by lia.
    rewrite Z.pow_0_r in Hp. unfold UINT64_MAX. lia.
Qed.

Lemma pow_ge_1 x n : 1 <= x -> 0 <= n -> 1 <= x ^ n.
Proof. intros. assert (0 < x ^ n) by (apply Z.pow_pos_nonneg; lia). lia. Qed.

Lemma powerLessOrEqual_loop_spec n x p m :
  2 <= x -> 1 <= p -> m < 2 ^ 64 ->
  powerLessOrEqual_loop (S n) x p m = (p * x ^ Z.of_nat (S n) <=? m).
Proof.
  revert p. induction n as [|n IH]; intros p Hx Hp Hm; cbn [powerLessOrEqual_loop];
    rewrite div_lt_iff by lia; destruct (Z.ltb_spec m (p * x)) as [Ho|Ho].
  - symmetry. apply Z.leb_gt. simpl. rewrite Z.pow_1_r. lia.
  - symmetry. apply Z.leb_le. simpl. rewrite Z.pow_1_r. lia.
  - symmetry. apply Z.leb_gt. rewrite Nat2Z.inj_succ, Z.pow_succ_r by lia.
    pose proof (pow_ge_1 x (Z.of_nat (S n)) ltac:(lia) ltac:(lia)). nia.
  - assert (0 < p * x) by (apply Z.mul_pos_pos; lia).
    rewrite u64_small by (unfold is_u64; lia). etrans; [apply IH; lia|].
    f_equal. rewrite (Nat2Z.inj_succ (S n)), Z.pow_succ_r by lia. ring.
Qed.

Lemma powerLessOrEqual_decides x exp m :
  0 <= x -> 0 <= exp -> is_u64 m -> powerLessOrEqual x exp m = (x ^ exp <=? m).
Proof.
  unfold is_u64, powerLessOrEqual. intros Hx He Hm.
  destruct (Z.eqb_spec exp 0) as [->|]; [by rewrite Z.pow_0_r|].
  destruct (Z.leb_spec x 1).
  - assert (x = 0 \/ x = 1) as [-> | ->] by lia;
      [by rewrite Z.pow_0_l by lia|by rewrite Z.pow_1_l by lia].
  - replace (Z.to_nat exp) with (S (Z.to_nat (exp - 1))) by lia.
    rewrite powerLessOrEqual_loop_spec by lia.
    rewrite Z.mul_1_l. do 2 f_equal. lia.
Qed.

(** ** Integer roots *)

Lemma irootNewtonStep_power_spec n x p :
  1 <= x -> 1 <= p < 2 ^ 64 ->
  irootNewtonStep_power n x p =
    if decide (p * x ^ Z.of_nat n < 2 ^ 64) then Some (p * x ^ Z.of_nat n) else None.
Proof.
  intros Hx. revert p. induction n as [|n IH]; intros p Hp; cbn [irootNewtonStep_power].
  { rewrite Z.pow_0_r, Z.mul_1_r. by rewrite decide_True by lia. }
  rewrite div_lt_iff by lia. rewrite Nat2Z.inj_succ, Z.pow_succ_r, Z.mul_assoc by lia.
  pose proof (pow_ge_1 x (Z.of_nat n) Hx ltac:(lia)) as Hpow.
  assert (0 < p * x) by (apply Z.mul_pos_pos; lia). unfold UINT64_MAX.
  destruct (Z.ltb_spec (2 ^ 64 - 1) (p * x)) as [Ho|Ho].
  - rewrite decide_False; [done|]. nia.
  - rewrite u64_small by (unfold is_u64; lia). apply IH. lia.
Qed.

(** A Newton step stays positive, so that the divisions of the next step are defined. *)
Lemma irootNewtonStep_pos k n x :
  2 <= k <= 64 -> 2 <= n < 2 ^ 64 -> 1 <= x <= 2 ^ 32 -> 1 <= irootNewtonStep k n x < 2 ^ 64.
Proof.
  intros Hk Hn Hx. unfold irootNewtonStep.
  rewrite irootNewtonStep_power_spec, Z.mul_1_l, Z2Nat.id by lia.
  pose proof (pow_ge_1 x (k - 1) ltac:(lia) ltac:(lia)) as Hp.
  set (d := match _ with None => 0 | Some q => n / q end).
  assert (0 <= d <= n /\ (x = 1 -> d = n)) as [Hd Hd1].
  { unfold d. case_decide as Hc.
    - split; [Z.div_mod_to_equations; nia|]. intros ->. rewrite Z.pow_1_l, Z.div_1_r by lia. done.
    - split; [lia|]. intros ->. rewrite Z.pow_1_l in Hc by lia. lia. }
  destruct (Z.leb_spec x d) as [Hle|Hlt].
  - assert (0 <= (d - x) / k <= d - x) by (Z.div_mod_to_equations; nia).
    rewrite u64_small by (unfold is_u64; lia). lia.
  - rewrite (u64_small (x - d + (k - 1))) by (unfold is_u64; lia).
    assert (0 <= (x - d + (k - 1)) / k < x).
    { split; [apply Z.div_pos; lia|]. apply Z.div_lt_upper_bound; [lia|].
      assert (2 <= x) by lia. nia. }
    rewrite u64_small by (unfold is_u64; lia). lia.
Qed.

Lemma iroot_newton_range k n x :
  2 <= k <= 64 -> 2 <= n < 2 ^ 64 -> 1 <= x <= 2 ^ 32 -> 1 <= iroot_newton k n x <= 2 ^ 32.
Proof.
  intros Hk Hn Hx. unfold iroot_newton.
  pose proof (while_loop_partial (fun '(x, t, iter) => (t <? x) && (iter <? IROOT_NEWTON_CAP))
    (fun '(x, t, iter) => (t, irootNewtonStep k n t, iter + 1))
    (fun '(x, t, iter) => 1 <= x <= 2 ^ 32 /\ 1 <= t) (fun '(x, _, _) => x) 101) as Hw.
  destruct (Hw) with (s := (x, irootNewtonStep k n x, 0)) as [HI _].
  - intros [[y t] i] [Hy Ht] [Hlt%Z.ltb_lt _]%andb_true_iff.
    split; [|lia]. split; [lia|]. apply irootNewtonStep_pos; lia.
  - split; [done|]. by apply irootNewtonStep_pos.
  - destruct (while_loop _ _ _ _) as [[y t] i]. cbn [fst]. lia.
Qed.

Lemma bitLength_range n : is_u64 n -> 0 <= bitLength n <= 64.
Proof.
  intros Hn. unfold bitLength. pose proof (lzcnt_range n Hn). destruct (n =? 0); lia.
Qed.

Lemma iroot_seed_range k n :
  2 <= k <= 64 -> is_u64 n -> 1 <= u64 (Z.shiftl 1 ((bitLength n + k - 1) / k)) <= 2 ^ 32.
Proof.
  intros Hk Hn. pose proof (bitLength_range n Hn) as Hb.
  assert (0 <= (bitLength n + k - 1) / k <= 32) as Hs.
  { split; [apply Z.div_pos; lia|].
    transitivity ((63 + k) / k); [apply Z.div_le_mono; lia|].
    replace (63 + k) with (63 + 1 * k) by lia. rewrite Z_div_plus_full by lia.
    assert (63 / k <= 63 / 2) by (apply Z.div_le_compat_l; lia). change (63 / 2) with 31 in *. lia. }
  rewrite Z.shiftl_mul_pow2, Z.mul_1_l by lia.
  assert (2 ^ 0 <= 2 ^ ((bitLength n + k - 1) / k) <= 2 ^ 32) by (split; apply Z.pow_le_mono_r; lia).
  rewrite u64_small by (unfold is_u64; lia). lia.
Qed.

Lemma iroot_down_ok k n x :
  2 <= k -> is_u64 n -> 0 <= x <= 2 ^ 32 ->
  0 <= iroot_down k n x <= 2 ^ 32 /\ iroot_down k n x ^ k <= n.
Proof.
  intros Hk Hn Hx. unfold iroot_down.
  destruct (while_loop_total (fun x => negb (powerLessOrEqual x k n)) (fun x => u64 (x - 1))
    (fun y => 0 <= y <= 2 ^ 32) id (2 ^ 64) x) as [Hd Hdc]; [|lia|unfold id; lia|].
  - intros y Hy Hc. rewrite powerLessOrEqual_decides in Hc by (done || lia).
    apply negb_true_iff, Z.leb_gt in Hc. unfold id, is_u64 in *.
    assert (y <> 0) by (intros ->; rewrite Z.pow_0_l in Hc by lia; lia).
    rewrite u64_small by (unfold is_u64; lia). lia.
  - split; [done|]. rewrite powerLessOrEqual_decides in Hdc by (done || lia).
    by apply negb_false_iff, Z.leb_le in Hdc.
Qed.

Lemma iroot_up_ok k n x :
  2 <= k -> is_u64 n -> 0 <= x <= 2 ^ 32 -> x ^ k <= n ->
  let r := iroot_up k n x in 0 <= r /\ r ^ k <= n < (r + 1) ^ k.
Proof.
  intros Hk Hn Hx Hxk. unfold iroot_up.
  destruct (while_loop_total (fun x => (x <? UINT64_MAX) && powerLessOrEqual (u64 (x + 1)) k n)
    (fun x => u64 (x + 1)) (fun y => 0 <= y < 2 ^ 64 /\ y ^ k <= n) (fun y => 2 ^ 64 - y) (2 ^ 64) x)
    as [[Hr Hrk] Hrc]; [|lia|lia|].
  - intros y [Hy Hyk] [Hlt%Z.ltb_lt Hc]%andb_true_iff. unfold UINT64_MAX in Hlt.
    rewrite u64_small in * by (unfold is_u64; lia).
    rewrite powerLessOrEqual_decides in Hc by (done || lia). apply Z.leb_le in Hc. lia.
  - set (z := while_loop _ _ _ _) in *. cbn zeta. split; [lia|]. split; [done|].
    assert (z < UINT64_MAX) as Hzm.
    { destruct (Z.lt_ge_cases z UINT64_MAX) as [|Hge]; [done|exfalso].
      unfold UINT64_MAX, is_u64 in *.
      assert (z ^ 2 <= z ^ k) by (apply Z.pow_le_mono_r; lia). rewrite Z.pow_2_r in *. nia. }
    rewrite (proj2 (Z.ltb_lt _ _) Hzm) in Hrc. cbn [andb] in Hrc. unfold UINT64_MAX in Hzm.
    rewrite u64_small, powerLessOrEqual_decides in Hrc by (done || unfold is_u64; lia).
    by apply Z.leb_gt in Hrc.
Qed.

Lemma irootK64_root k n :
  1 <= k <= 64 -> is_u64 n -> 0 <= irootK64 k n /\ irootK64 k n ^ k <= n < (irootK64 k n + 1) ^ k.
Proof.
  intros Hk Hn. unfold irootK64.
  destruct (Z.eqb_spec k 1) as [->|H1]; [rewrite !Z.pow_1_r; unfold is_u64 in Hn; lia|].
  destruct (Z.ltb_spec n 2) as [H2|H2].
  - unfold is_u64 in Hn.
    assert (n = 0 \/ n = 1) as [-> | ->] by lia; [by rewrite Z.pow_0_l, Z.pow_1_l by lia|].
    rewrite Z.pow_1_l by lia. assert (1 < 2 ^ k) by (apply Z.pow_gt_1; lia). change (1 + 1) with 2. lia.
  - cbn zeta. set (x := iroot_newton k n _).
    assert (1 <= x <= 2 ^ 32) as Hx.
    { apply iroot_newton_range; [lia|unfold is_u64 in Hn; lia|]. apply iroot_seed_range; [lia|done]. }
    destruct (iroot_down_ok k n x) as [? ?]; [lia|done|lia|].
    apply iroot_up_ok; [lia|done..].
Qed.

(** The square root is the one of the library. *)
Lemma irootK64_sqrt n : is_u64 n -> irootK64 2 n = Z.sqrt n.
Proof.
  intros Hn. destruct (irootK64_root 2 n ltac:(lia) Hn) as [H0 H1]. symmetry. apply Z.sqrt_unique. rewrite !Z.pow_2_r in H1. unfold Z.succ. lia.
Qed.

(** C40: [irootK64<k>(n)] terminates and is the exact floor of the k-th root, for every 64-bit
    [n] and [1 <= k <= 64], whatever the Newton iteration reaches within its cap; the
    divisors of the Newton steps are never 0. *)
Theorem irootK64_floor k n :
  1 <= k <= 64 -> is_u64 n ->
  let r := irootK64 k n in
  0 <= r /\ r ^ k <= n < (r + 1) ^ k /\
  (2 <= k -> 2 <= n -> forall x, 1 <= x <= 2 ^ 32 -> 1 <= irootNewtonStep k n x).
Proof.
  intros Hk Hn r. destruct (irootK64_root k n Hk Hn) as [H0 H1]. split; [done|]. split; [done|].
  intros. apply irootNewtonStep_pos; unfold is_u64 in Hn; lia.
Qed.

(** Witnesses *)

Lemma saturating_arithmetic_witness :
  smul_s64 (2 ^ 62) (-3) = INT64_MIN /\ sadd_s64 INT64_MIN INT64_MIN = 0 /\
  smul_u32 70000 70000 = UINT32_MAX.
Proof.
  destruct (saturating_arithmetic (2 ^ 62) (-3)) as [H1 _].
  destruct (saturating_arithmetic INT64_MIN INT64_MIN) as [H2 _].
  destruct (saturating_arithmetic 70000 70000) as (_ & _ & _ & H3).
  split; [|split].
  - rewrite (proj1 (H1 ltac:(unfold is_s64; lia) ltac:(unfold is_s64; lia))). done.
  - rewrite (proj2 (H2 ltac:(unfold is_s64, INT64_MIN; lia) ltac:(unfold is_s64, INT64_MIN; lia))). done.
  - rewrite (proj1 (H3 ltac:(unfold is_u32; lia) ltac:(unfold is_u32; lia))). done.
Defined.

Lemma greatestCommonDivisor_spec_witness : greatestCommonDivisor 676 451 = Z.gcd 676 451.
Proof. rewrite (greatestCommonDivisor_spec 676 451) by lia. done. Defined.

Lemma ipow_saturates_witness : ipow 3 40 = 3 ^ 40 /\ ipow 3 41 = UINT64_MAX.
Proof.
  rewrite (ipow_saturates 3 40), (ipow_saturates 3 41) by (vm_compute; intuition discriminate).
  vm_compute. done.
Defined.

Lemma irootK64_floor_witness : irootK64 3 1000000 ^ 3 <= 1000000 /\ irootK64 3 1000000 = 100.
Proof.
  split; [|vm_compute; reflexivity].
  destruct (irootK64_floor 3 1000000) as (_ & [H _] & _); [lia|unfold is_u64; lia|exact H].
Defined.
