(* ===== verification/Uint128.v ===== *)
(** * uint128_t (src/platform/uint128.h)

    128-bit unsigned arithmetic on two 64-bit words.  [value] maps a pair of words to the
    number it stands for; every operator is related to arithmetic modulo [2^128]. *)
From S2P Require Import Prelude.

Record uint128_t := U128 { high : Z; low : Z }.

(** ** Operators *)

Definition to_bool (x : uint128_t) : bool := negb (Z.lor (high x) (low x) =? 0).

Definition eqb (x rhs : uint128_t) : bool := (high x =? high rhs) && (low x =? low rhs).

Definition ltb (x rhs : uint128_t) : bool :=
  if high x =? high rhs then low x <? low rhs else high x <? high rhs.

Definition gtb (x rhs : uint128_t) : bool :=
  if high x =? high rhs then low rhs <? low x else high rhs <? high x.

Definition geb (x rhs : uint128_t) : bool := gtb x rhs || eqb x rhs.

Definition leb (x rhs : uint128_t) : bool := ltb x rhs || eqb x rhs.

Definition shl (x rhs : uint128_t) : uint128_t :=
  let shift := low rhs in
  if negb (high rhs =? 0) || (128 <=? shift) then U128 0 0
  else if shift =? 64 then U128 (low x) 0
  else if shift =? 0 then x
  else if shift <? 64 then
    U128 (u64 (u64 (Z.shiftl (high x) shift) + Z.shiftr (low x) (64 - shift)))
         (u64 (Z.shiftl (low x) shift))
  else if (shift <? 128) && (64 <? shift) then U128 (u64 (Z.shiftl (low x) (shift - 64))) 0
  else U128 0 0.

Definition shr (x rhs : uint128_t) : uint128_t :=
  let shift := low rhs in
  if negb (high rhs =? 0) || (128 <=? shift) then U128 0 0
  else if shift =? 64 then U128 0 (high x)
  else if shift =? 0 then x
  else if shift <? 64 then
    U128 (Z.shiftr (high x) shift)
         (u64 (u64 (Z.shiftl (high x) (64 - shift)) + Z.shiftr (low x) shift))
  else if (shift <? 128) && (64 <? shift) then U128 0 (Z.shiftr (high x) (shift - 64))
  else U128 0 0.

Definition band (x rhs : uint128_t) : uint128_t :=
  U128 (Z.land (high x) (high rhs)) (Z.land (low x) (low rhs)).

(** [operator&(const int&)] and [operator>>(const unsigned int&)]. *)
Definition band_int (x : uint128_t) (rhs : Z) : uint128_t := band x (U128 0 (u64 rhs)).
Definition shr_uint (x : uint128_t) (rhs : Z) : uint128_t := shr x (U128 0 rhs).

Definition bits_loop (up out : Z) : Z :=
  (while_loop (fun '(up, _) => negb (up =? 0)) (fun '(up, out) => (Z.shiftr up 1, u8 (out + 1))) 65
     (up, out)).2.

Definition bits (x : uint128_t) : Z :=
  if negb (high x =? 0) then bits_loop (high x) 64 else bits_loop (low x) 0.

Definition add (x rhs : uint128_t) : uint128_t :=
  U128 (u64 (high x + high rhs + Z.b2z (u64 (low x + low rhs) <? low x))) (u64 (low x + low rhs)).

Definition sub (x rhs : uint128_t) : uint128_t :=
  U128 (u64 (high x - high rhs - Z.b2z (low x <? u64 (low x - low rhs)))) (u64 (low x - low rhs)).

(** [operator+=], [operator++]. *)
Definition add_assign (x rhs : uint128_t) : uint128_t :=
  U128 (u64 (high x + (high rhs + Z.b2z (u64 (low x + low rhs) <? low x)))) (u64 (low x + low rhs)).

Definition incr (x : uint128_t) : uint128_t := add_assign x (U128 0 1).

(** The bit loop; [n] is the loop variable [x]. *)
Fixpoint divmod_loop (n : nat) (lhs rhs q r : uint128_t) : uint128_t * uint128_t :=
  match n with
  | O => (q, r)
  | S n' =>
      let q := shl q (U128 0 1) in
      let r := shl r (U128 0 1) in
      let r := if to_bool (band_int (shr_uint lhs (Z.of_nat n' )) 1) then incr r else r in
      if geb r rhs then divmod_loop n' lhs rhs (incr q) (sub r rhs)
      else divmod_loop n' lhs rhs q r
  end.

Definition divmod (lhs rhs : uint128_t) : uint128_t * uint128_t :=
  if eqb rhs (U128 0 1) then (lhs, U128 0 0)
  else if eqb lhs rhs then (U128 0 1, U128 0 0)
  else if eqb lhs (U128 0 0) || ltb lhs rhs then (U128 0 0, lhs)
  else divmod_loop (Z.to_nat (bits lhs)) lhs rhs (U128 0 0) (U128 0 0).

Definition div (x rhs : uint128_t) : uint128_t := (divmod x rhs).1.

(** [top] and [bottom] are the 32-bit digits, most significant first; [p i y] is
    [products[i][y]]. *)
Definition mul (x rhs : uint128_t) : uint128_t :=
  let lo32 a := Z.land a 0xffffffff in
  let hi32 a := Z.shiftr a 32 in
  let top := [hi32 (high x); lo32 (high x); hi32 (low x); lo32 (low x)] in
  let bottom := [hi32 (high rhs); lo32 (high rhs); hi32 (low rhs); lo32 (low rhs)] in
  let p i y := u64 (top.[3 - i] * bottom.[y]) in
  (* first row *)
  let fourth32 := lo32 (p 0 3) in
  let third32 := u64 (lo32 (p 0 2) + hi32 (p 0 3)) in
  let second32 := u64 (lo32 (p 0 1) + hi32 (p 0 2)) in
  let first32 := u64 (lo32 (p 0 0) + hi32 (p 0 1)) in
  (* second row *)
  let third32 := u64 (third32 + lo32 (p 1 3)) in
  let second32 := u64 (second32 + u64 (lo32 (p 1 2) + hi32 (p 1 3))) in
  let first32 := u64 (first32 + u64 (lo32 (p 1 1) + hi32 (p 1 2))) in
  (* third row *)
  let second32 := u64 (second32 + lo32 (p 2 3)) in
  let first32 := u64 (first32 + u64 (lo32 (p 2 2) + hi32 (p 2 3))) in
  (* fourth row *)
  let first32 := u64 (first32 + lo32 (p 3 3)) in
  (* move carry to next digit *)
  let third32 := u64 (third32 + hi32 fourth32) in
  let second32 := u64 (second32 + hi32 third32) in
  let first32 := u64 (first32 + hi32 second32) in
  (* remove carry from current digit *)
  let fourth32 := lo32 fourth32 in
  let third32 := lo32 third32 in
  let second32 := lo32 second32 in
  let first32 := lo32 first32 in
  U128 (Z.lor (u64 (Z.shiftl first32 32)) second32) (Z.lor (u64 (Z.shiftl third32 32)) fourth32).

(** ** Values *)

Definition value (x : uint128_t) : Z := high x * 2 ^ 64 + low x.

Definition wf (x : uint128_t) : Prop := is_u64 (high x) /\ is_u64 (low x).

(** The words of a number. *)
Definition of_Z (z : Z) : uint128_t := U128 (u64 (z / 2 ^ 64)) (u64 z).

Lemma wf_of_Z z : wf (of_Z z).
Proof. split; apply u64_range. Qed.

Lemma value_range x : wf x -> 0 <= value x < 2 ^ 128.
Proof. unfold wf, is_u64, value. lia. Qed.

Lemma value_of_Z z : value (of_Z z) = z mod 2 ^ 128.
Proof. unfold value, of_Z, u64. simpl. Z.div_mod_to_equations. lia. Qed.

Lemma value_inj x y : wf x -> wf y -> value x = value y -> x = y.
Proof.
  destruct x as [xh xl], y as [yh yl]. unfold wf, is_u64, value. simpl. intros. f_equal; lia.
Qed.

Ltac words x := destruct x as [? ?]; unfold wf, is_u64, value in *; simpl in *.

(** Case split on a carry bit. *)
Ltac carry :=
  match goal with |- context [?a <? ?b] => destruct (Z.ltb_spec a b); cbn [Z.b2z] end.

Lemma to_bool_spec x : wf x -> to_bool x = negb (value x =? 0).
Proof.
  words x. intros. unfold to_bool. simpl. f_equal. apply Bool.eq_iff_eq_true.
  rewrite !Z.eqb_eq, Z.lor_eq_0_iff. lia.
Qed.

Lemma eqb_spec x y : wf x -> wf y -> eqb x y = (value x =? value y).
Proof. words x. words y. intros. unfold eqb. simpl. repeat case_match; lia. Qed.

Lemma ltb_spec x y : wf x -> wf y -> ltb x y = (value x <? value y).
Proof. words x. words y. intros. unfold ltb. simpl. repeat case_match; lia. Qed.

Lemma gtb_spec x y : wf x -> wf y -> gtb x y = (value y <? value x).
Proof. words x. words y. intros. unfold gtb. simpl. repeat case_match; lia. Qed.

Lemma geb_spec x y : wf x -> wf y -> geb x y = (value y <=? value x).
Proof. intros. unfold geb. rewrite gtb_spec, eqb_spec by done. lia. Qed.

Lemma leb_spec x y : wf x -> wf y -> leb x y = (value x <=? value y).
Proof. intros. unfold leb. rewrite ltb_spec, eqb_spec by done. lia. Qed.

Lemma add_spec x y : wf x -> wf y -> add x y = of_Z (value x + value y).
Proof.
  words x. words y. intros. unfold add, of_Z, u64. simpl.
  carry; f_equal; Z.div_mod_to_equations; lia.
Qed.

Lemma add_assign_spec x y : wf x -> wf y -> add_assign x y = of_Z (value x + value y).
Proof.
  words x. words y. intros. unfold add_assign, of_Z, u64. simpl.
  carry; f_equal; Z.div_mod_to_equations; lia.
Qed.

Lemma sub_spec x y : wf x -> wf y -> sub x y = of_Z (value x - value y).
Proof.
  words x. words y. intros. unfold sub, of_Z, u64. simpl.
  carry; f_equal; Z.div_mod_to_equations; lia.
Qed.

Lemma incr_spec x : wf x -> incr x = of_Z (value x + 1).
Proof. intros. unfold incr. apply add_assign_spec; [done|]. unfold wf, is_u64. simpl. lia. Qed.

(** ** Shifts *)

Lemma of_Z_words h l : is_u64 l -> U128 (u64 h) l = of_Z (h * 2 ^ 64 + l).
Proof.
  intros Hl. unfold is_u64 in Hl. unfold of_Z. f_equal.
  - rewrite Z.add_comm, Z.div_add, Z.div_small by lia. done.
  - unfold u64. rewrite Z.add_comm, Z_mod_plus_full, Z.mod_small; lia.
Qed.

Lemma of_Z_ext a b : a mod 2 ^ 128 = b mod 2 ^ 128 -> of_Z a = of_Z b.
Proof. intros He. unfold of_Z, u64. f_equal; Z.div_mod_to_equations; lia. Qed.

Lemma of_Z_multiple z m : 128 <= m -> of_Z (z * 2 ^ m) = U128 0 0.
Proof.
  intros Hm. change (U128 0 0) with (of_Z 0). apply of_Z_ext.
  replace m with ((m - 128) + 128) by lia. rewrite Z.pow_add_r, Z.mul_assoc by lia.
  by rewrite Z.mod_mul by lia.
Qed.

Lemma shift_out l s : 0 <= s <= 64 -> l * 2 ^ s / 2 ^ 64 = l / 2 ^ (64 - s).
Proof.
  intros. replace (2 ^ 64) with (2 ^ (64 - s) * 2 ^ s).
  - apply Z.div_mul_cancel_r; apply Z.pow_nonzero; lia.
  - rewrite <- Z.pow_add_r by lia. f_equal. lia.
Qed.

Lemma shl_words h l s :
  0 <= s < 64 -> is_u64 l ->
  U128 (u64 (u64 (Z.shiftl h s) + Z.shiftr l (64 - s))) (u64 (Z.shiftl l s)) =
    of_Z ((h * 2 ^ 64 + l) * 2 ^ s).
Proof.
  intros Hs Hl. rewrite !Z.shiftl_mul_pow2, Z.shiftr_div_pow2, <- shift_out by lia.
  rewrite of_Z_words by apply u64_range. apply of_Z_ext. unfold u64.
  replace ((h * 2 ^ 64 + l) * 2 ^ s) with (h * 2 ^ s * 2 ^ 64 + l * 2 ^ s) by ring.
  generalize (h * 2 ^ s) (l * 2 ^ s). intros a b. Z.div_mod_to_equations. lia.
Qed.

Lemma shl_spec x rhs : wf x -> wf rhs -> shl x rhs = of_Z (value x * 2 ^ value rhs).
Proof.
  destruct x as [h l], rhs as [rh s]. intros [Hh Hl] [Hrh Hs]. cbn [high low] in *.
  unfold shl. cbn [high low]. unfold is_u64 in Hrh, Hs.
  destruct (Z.eqb_spec rh 0) as [->|Hne]; cbn [negb orb].
  2:{ rewrite of_Z_multiple; [done|]. unfold value. simpl. lia. }
  replace (value {| high := 0; low := s |}) with s by (unfold value; simpl; lia).
  destruct (Z.leb_spec 128 s); [by rewrite of_Z_multiple by lia|].
  unfold value. cbn [high low].
  destruct (Z.eqb_spec s 64) as [->|].
  { unfold is_u64 in *. unfold of_Z, u64. f_equal; Z.div_mod_to_equations; lia. }
  destruct (Z.eqb_spec s 0) as [->|].
  { rewrite Z.pow_0_r, Z.mul_1_r. unfold is_u64 in *. unfold of_Z, u64.
    f_equal; Z.div_mod_to_equations; lia. }
  destruct (Z.ltb_spec s 64); [apply shl_words; [lia|done]|].
  rewrite (proj2 (Z.ltb_lt s 128)), (proj2 (Z.ltb_lt 64 s)) by lia. cbn [andb].
  rewrite Z.shiftl_mul_pow2 by lia. replace (2 ^ s) with (2 ^ (s - 64) * 2 ^ 64)
    by (rewrite <- Z.pow_add_r by lia; f_equal; lia).
  generalize (2 ^ (s - 64)). intros a. rewrite of_Z_words by (unfold is_u64; lia). apply of_Z_ext.
  replace ((h * 2 ^ 64 + l) * (a * 2 ^ 64)) with (l * a * 2 ^ 64 + 0 + (h * a) * 2 ^ 128) by ring.
  rewrite Z_mod_plus_full. done.
Qed.

Lemma div_le_self a d : 0 <= a -> 0 < d -> 0 <= a / d <= a.
Proof.
  intros. split; [by apply Z.div_pos|]. destruct (decide (a = 0)) as [->|]; [by rewrite Z.div_0_l by lia|].
  destruct (decide (d = 1)) as [->|]; [by rewrite Z.div_1_r|]. apply Z.lt_le_incl, Z.div_lt; lia.
Qed.

Lemma shr_words h l s :
  0 < s < 64 -> is_u64 h -> is_u64 l ->
  U128 (Z.shiftr h s) (u64 (u64 (Z.shiftl h (64 - s)) + Z.shiftr l s)) =
    of_Z ((h * 2 ^ 64 + l) / 2 ^ s).
Proof.
  intros Hs Hh Hl. unfold is_u64 in Hh, Hl.
  assert (0 < 2 ^ s) by (apply Z.pow_pos_nonneg; lia).
  rewrite !Z.shiftr_div_pow2, Z.shiftl_mul_pow2 by lia.
  assert (h * 2 ^ 64 = h * 2 ^ (64 - s) * 2 ^ s) as He.
  { rewrite <- Z.mul_assoc, <- Z.pow_add_r by lia. do 2 f_equal. lia. }
  assert ((h * 2 ^ 64 + l) / 2 ^ s = h * 2 ^ (64 - s) + l / 2 ^ s) as Hq.
  { rewrite He, Z.add_comm, Z.div_add, Z.add_comm by lia. done. }
  assert (h / 2 ^ s = (h * 2 ^ 64 + l) / 2 ^ s / 2 ^ 64) as Hh'.
  { rewrite Z.div_div, (Z.mul_comm (2 ^ s)), <- Z.div_div by lia. f_equal. Z.div_mod_to_equations. lia. }
  assert (0 <= h / 2 ^ s <= h) by (apply div_le_self; lia).
  unfold of_Z. rewrite <- Hh', (u64_small (h / 2 ^ s)) by (unfold is_u64; lia). f_equal.
  rewrite Hq. unfold u64. by rewrite Zplus_mod_idemp_l.
Qed.

Lemma shr_spec x rhs : wf x -> wf rhs -> shr x rhs = of_Z (value x / 2 ^ value rhs).
Proof.
  intros Hx Hrhs. pose proof (value_range x Hx) as Hv. destruct x as [h l], rhs as [rh s].
  destruct Hx as [Hh Hl], Hrhs as [Hrh Hs]. cbn [high low] in *.
  unfold shr. cbn [high low]. unfold is_u64 in Hrh, Hs.
  assert (forall m, 128 <= m -> of_Z (value (U128 h l) / 2 ^ m) = U128 0 0) as Hbig.
  { intros m Hm. rewrite Z.div_small; [done|]. split; [lia|].
    apply (Z.lt_le_trans _ (2 ^ 128)); [lia|]. apply Z.pow_le_mono_r; lia. }
  destruct (Z.eqb_spec rh 0) as [->|Hne]; cbn [negb orb].
  2:{ rewrite Hbig; [done|]. unfold value. simpl. lia. }
  replace (value {| high := 0; low := s |}) with s by (unfold value; simpl; lia).
  destruct (Z.leb_spec 128 s); [by rewrite Hbig by lia|].
  unfold value in *. cbn [high low] in *. unfold is_u64 in *.
  destruct (Z.eqb_spec s 64) as [->|].
  { unfold of_Z, u64. f_equal; Z.div_mod_to_equations; lia. }
  destruct (Z.eqb_spec s 0) as [->|].
  { rewrite Z.pow_0_r, Z.div_1_r. unfold of_Z, u64. f_equal; Z.div_mod_to_equations; lia. }
  destruct (Z.ltb_spec s 64); [apply shr_words; unfold is_u64; lia|].
  rewrite (proj2 (Z.ltb_lt s 128)), (proj2 (Z.ltb_lt 64 s)) by lia. cbn [andb].
  assert (0 < 2 ^ (s - 64)) by (apply Z.pow_pos_nonneg; lia).
  rewrite Z.shiftr_div_pow2 by lia. replace (2 ^ s) with (2 ^ 64 * 2 ^ (s - 64))
    by (rewrite <- Z.pow_add_r by lia; f_equal; lia).
  rewrite <- Z.div_div by lia. replace ((h * 2 ^ 64 + l) / 2 ^ 64) with h by (Z.div_mod_to_equations; lia).
  assert (0 <= h / 2 ^ (s - 64) <= h) by (apply div_le_self; lia).
  unfold of_Z. rewrite (Z.div_small _ (2 ^ 64)), (u64_small (h / _)) by (unfold is_u64; lia). done.
Qed.

(** ** Number of bits *)

Definition blen (z : Z) : Z := if z =? 0 then 0 else Z.log2 z + 1.

Lemma blen_shiftr z : 0 < z -> blen (Z.shiftr z 1) = blen z - 1 /\ 0 < blen z.
Proof.
  intros Hz. unfold blen. rewrite (proj2 (Z.eqb_neq z 0)) by lia. pose proof (Z.log2_nonneg z).
  rewrite Z.log2_shiftr by lia. rewrite Z.shiftr_div_pow2 by lia. change (2 ^ 1) with 2.
  split; [|lia]. destruct (decide (z = 1)) as [->|]; [done|].
  assert (1 <= Z.log2 z) by (change 1 with (Z.log2 2); apply Z.log2_le_mono; lia).
  destruct (Z.eqb_spec (z / 2) 0); [Z.div_mod_to_equations|]; lia.
Qed.

Lemma blen_u64 z : is_u64 z -> 0 <= blen z <= 64.
Proof.
  unfold is_u64, blen. intros Hz. destruct (Z.eqb_spec z 0); [lia|]. pose proof (Z.log2_nonneg z).
  assert (Z.log2 z < 64) by (apply Z.log2_lt_pow2; lia). lia.
Qed.

Lemma bits_loop_spec up out : is_u64 up -> 0 <= out <= 64 -> bits_loop up out = out + blen up.
Proof.
  intros Hup Hout. pose proof (blen_u64 up Hup). unfold bits_loop.
  destruct (while_loop_total (fun '(up, _) => negb (up =? 0))
    (fun '(up, out) => (Z.shiftr up 1, u8 (out + 1)))
    (fun s => is_u64 s.1 /\ 0 <= s.2 /\ s.2 + blen s.1 = out + blen up) (fun s => blen s.1) 65 (up, out))
    as [HI Hc].
  - intros [y o] (Hy & Ho & He) Hc%negb_true_iff%Z.eqb_neq. cbn [fst snd] in *.
    unfold is_u64 in Hy. destruct (blen_shiftr y) as [Hb Hb0]; [lia|]. split; [done|]. split; [|lia].
    unfold u8. rewrite Z.mod_small by (pose proof (blen_u64 y Hy); lia). split; [|lia].
    rewrite Z.shiftr_div_pow2 by lia. unfold is_u64. Z.div_mod_to_equations. lia.
  - cbn [fst snd]. split; [done|lia].
  - cbn [fst]. lia.
  - destruct (while_loop _ _ _ _) as [y o]. cbn [fst snd] in *.
    apply negb_false_iff, Z.eqb_eq in Hc. subst y. change (blen 0) with 0 in HI. lia.
Qed.

Lemma bits_spec x : wf x -> bits x = blen (value x).
Proof.
  destruct x as [h l]. intros [Hh Hl]. unfold bits. cbn [high low] in *. unfold value. cbn [high low].
  destruct (Z.eqb_spec h 0) as [->|Hne]; cbn [negb].
  - rewrite bits_loop_spec by (done || lia). by rewrite Z.mul_0_l, Z.add_0_l, Z.add_0_l.
  - rewrite bits_loop_spec by (done || lia). unfold is_u64 in *. unfold blen.
    rewrite (proj2 (Z.eqb_neq h 0)), (proj2 (Z.eqb_neq (h * 2 ^ 64 + l) 0)) by lia.
    rewrite (Z.log2_unique (h * 2 ^ 64 + l) (64 + Z.log2 h)); [lia|pose proof (Z.log2_nonneg h); lia|].
    pose proof (Z.log2_nonneg h). pose proof (Z.log2_spec h ltac:(lia)) as Hlg.
    unfold Z.succ in *. replace (64 + Z.log2 h + 1) with (64 + (Z.log2 h + 1)) by lia.
    rewrite !(Z.pow_add_r 2 64) by lia. lia.
Qed.

(** ** Division *)

Lemma wf_small z : 0 <= z < 2 ^ 64 -> wf (U128 0 z).
Proof. unfold wf, is_u64. simpl. lia. Qed.

Lemma value_of_Z_small z : 0 <= z < 2 ^ 128 -> value (of_Z z) = z.
Proof. intros. rewrite value_of_Z. apply Z.mod_small. lia. Qed.

Lemma of_Z_value x : wf x -> of_Z (value x) = x.
Proof.
  intros Hx. apply value_inj; [apply wf_of_Z|done|]. apply value_of_Z_small, value_range, Hx.
Qed.

(** Bit [n] of the dividend. *)
Lemma test_bit_spec x n :
  wf x -> 0 <= n < 128 ->
  to_bool (band_int (shr_uint x n) 1) = (value x / 2 ^ n mod 2 =? 1).
Proof.
  intros Hx Hn. unfold shr_uint. rewrite shr_spec by (done || apply wf_small; lia).
  replace (value (U128 0 n)) with n by (unfold value; simpl; lia).
  generalize (value x / 2 ^ n). intros y. unfold band_int, band, of_Z. cbn [high low].
  rewrite Z.land_0_r. change (Z.land (u64 y) (u64 1)) with (Z.land (u64 y) (2 ^ 1 - 1)).
  rewrite land_mask by lia. change (2 ^ 1) with 2.
  rewrite to_bool_spec by (apply wf_small; Z.div_mod_to_equations; lia).
  unfold value. cbn [high low]. unfold u64.
  destruct (Z.eqb_spec (y mod 2) 1), (Z.eqb_spec (0 * 2 ^ 64 + (y mod 2 ^ 64) mod 2) 0); cbn [negb];
    try done; exfalso; Z.div_mod_to_equations; lia.
Qed.

Lemma divmod_loop_spec n lhs rhs q r :
  wf lhs -> wf rhs -> wf q -> wf r -> (n <= 128)%nat -> 0 <= value r < value rhs ->
  value q * value rhs + value r = value lhs / 2 ^ Z.of_nat n ->
  divmod_loop n lhs rhs q r = (of_Z (value lhs / value rhs), of_Z (value lhs mod value rhs)).
Proof.
  intros Hlhs Hrhs. pose proof (value_range lhs Hlhs) as HL. revert q r.
  induction n as [|n IH]; intros q r Hq Hr Hn Hlt He; cbn [divmod_loop].
  { rewrite Z.pow_0_r, Z.div_1_r in He.
    rewrite <- (Z.div_unique (value lhs) (value rhs) (value q) (value r)) by lia.
    rewrite <- (Z.mod_unique (value lhs) (value rhs) (value q) (value r)) by lia.
    by rewrite !of_Z_value. }
  rewrite test_bit_spec by (done || lia).
  set (P := value lhs / 2 ^ Z.of_nat n) in *.
  assert (0 <= P < 2 ^ 128) as HP.
  { unfold P. assert (0 < 2 ^ Z.of_nat n) by (apply Z.pow_pos_nonneg; lia).
    pose proof (div_le_self (value lhs) (2 ^ Z.of_nat n)). lia. }
  assert (value q * value rhs + value r = P / 2) as He'.
  { rewrite He. unfold P. rewrite Z.div_div by lia. f_equal.
    rewrite Nat2Z.inj_succ, Z.pow_succ_r by lia. lia. }
  pose proof (value_range q Hq) as HQ. pose proof (value_range rhs Hrhs) as HR.
  assert (value q <= P / 2) as Hq2 by nia.
  set (q' := shl q (U128 0 1)). set (r' := shl r (U128 0 1)).
  assert (wf q' /\ value q' = 2 * value q) as [Hq' Hvq].
  { unfold q'. rewrite shl_spec by (done || by apply wf_small). split; [apply wf_of_Z|].
    replace (value (U128 0 1)) with 1 by done. rewrite value_of_Z_small; Z.div_mod_to_equations; lia. }
  assert (wf r' /\ value r' = 2 * value r) as [Hr' Hvr].
  { unfold r'. rewrite shl_spec by (done || by apply wf_small). split; [apply wf_of_Z|].
    replace (value (U128 0 1)) with 1 by done. rewrite value_of_Z_small; Z.div_mod_to_equations; nia. }
  set (r2 := if P mod 2 =? 1 then incr r' else r').
  assert (wf r2 /\ value r2 = 2 * value r + P mod 2) as [Hr2 Hvr2].
  { unfold r2. destruct (Z.eqb_spec (P mod 2) 1) as [Hb|Hb].
    - rewrite incr_spec by done. split; [apply wf_of_Z|].
      rewrite value_of_Z_small; rewrite Hvr; Z.div_mod_to_equations; nia.
    - split; [done|]. Z.div_mod_to_equations. lia. }
  rewrite geb_spec by done. destruct (Z.leb_spec (value rhs) (value r2)) as [Hge|Hlt2].
  - assert (wf (incr q') /\ value (incr q') = 2 * value q + 1) as [Hq3 Hvq3].
    { rewrite incr_spec by done. split; [apply wf_of_Z|].
      rewrite value_of_Z_small; rewrite Hvq; [done|]. Z.div_mod_to_equations. nia. }
    assert (wf (sub r2 rhs) /\ value (sub r2 rhs) = value r2 - value rhs) as [Hr3 Hvr3].
    { rewrite sub_spec by done. split; [apply wf_of_Z|]. pose proof (value_range r2 Hr2).
      rewrite value_of_Z_small; lia. }
    apply IH; [done|done|lia|Z.div_mod_to_equations; lia|].
    rewrite Hvq3, Hvr3, Hvr2. Z.div_mod_to_equations. nia.
  - apply IH; [done|done|lia|pose proof (value_range r2 Hr2); lia|].
    rewrite Hvq, Hvr2. Z.div_mod_to_equations. nia.
Qed.

Lemma divmod_value lhs rhs :
  wf lhs -> wf rhs -> value rhs <> 0 ->
  divmod lhs rhs = (of_Z (value lhs / value rhs), of_Z (value lhs mod value rhs)).
Proof.
  intros Hl Hr Hne. unfold divmod. pose proof (value_range lhs Hl). pose proof (value_range rhs Hr).
  rewrite !eqb_spec, ltb_spec by (done || apply wf_small; lia).
  replace (value (U128 0 1)) with 1 by done. replace (value (U128 0 0)) with 0 by done.
  destruct (Z.eqb_spec (value rhs) 1) as [->|].
  { by rewrite Z.div_1_r, Z.mod_1_r, of_Z_value. }
  destruct (Z.eqb_spec (value lhs) (value rhs)) as [->|].
  { by rewrite Z.div_same, Z.mod_same by lia. }
  destruct (Z.eqb_spec (value lhs) 0) as [Hz|]; cbn [orb].
  { rewrite Hz, Z.div_0_l, Z.mod_0_l by lia. rewrite <- (of_Z_value lhs Hl), Hz. done. }
  destruct (Z.ltb_spec (value lhs) (value rhs)).
  { rewrite Z.div_small, Z.mod_small by lia. by rewrite of_Z_value. }
  rewrite bits_spec by done. unfold blen. rewrite (proj2 (Z.eqb_neq (value lhs) 0)) by lia.
  assert (0 <= Z.log2 (value lhs) < 128) by (split; [apply Z.log2_nonneg|apply Z.log2_lt_pow2; lia]).
  apply divmod_loop_spec; try (done || apply wf_small; lia).
  - lia.
  - split; [done|]. change (value (U128 0 0)) with 0. lia.
  - change (value (U128 0 0)) with 0. rewrite Z2Nat.id by lia.
    rewrite Z.div_small; [done|]. split; [lia|]. apply Z.log2_spec. lia.
Qed.

(** ** Multiplication *)

(** The digit sums of schoolbook multiplication in base [2^32], reduced modulo [2^128]. *)
Lemma schoolbook p00 p01 p02 p03 p11 p12 p13 p22 p23 p33 :
  let B := 2 ^ 32 in
  let f4 := p03 mod B in
  let t3 := p02 mod B + p03 / B + p13 mod B + f4 / B in
  let s2 := p01 mod B + p02 / B + (p12 mod B + p13 / B) + p23 mod B + t3 / B in
  let f1 := p00 mod B + p01 / B + (p11 mod B + p12 / B) + (p22 mod B + p23 / B) + p33 mod B + s2 / B in
  (f1 mod B * B + s2 mod B) * 2 ^ 64 + (t3 mod B * B + f4 mod B) =
  (p03 + B * (p02 + p13) + B * B * (p01 + p12 + p23) + B * B * B * (p00 + p11 + p22 + p33)) mod 2 ^ 128.
Proof. cbn zeta. change (2 ^ 32) with 4294967296. Z.div_mod_to_equations. lia. Qed.

(** No intermediate sum overflows. *)
Ltac strip_u64 :=
  repeat match goal with
  | |- context [u64 ?a] =>
      lazymatch a with
      | context [u64 _] => fail
      | _ => rewrite (u64_small a) by (unfold is_u64; Z.div_mod_to_equations; lia)
      end
  end.

Ltac digit_norm :=
  change 0xffffffff with (2 ^ 32 - 1); rewrite ?land_mask, ?Z.shiftr_div_pow2 by lia.

Lemma mul_digits p00 p01 p02 p03 p11 p12 p13 p22 p23 p33 :
  is_u64 p00 -> is_u64 p01 -> is_u64 p02 -> is_u64 p03 -> is_u64 p11 -> is_u64 p12 ->
  is_u64 p13 -> is_u64 p22 -> is_u64 p23 -> is_u64 p33 ->
  let lo32 a := Z.land a 0xffffffff in
  let hi32 a := Z.shiftr a 32 in
  let t3 := u64 (u64 (u64 (lo32 p02 + hi32 p03) + lo32 p13) + hi32 (lo32 p03)) in
  let s2 := u64 (u64 (u64 (u64 (lo32 p01 + hi32 p02) + u64 (lo32 p12 + hi32 p13)) + lo32 p23) + hi32 t3) in
  let f1 := u64 (u64 (u64 (u64 (u64 (lo32 p00 + hi32 p01) + u64 (lo32 p11 + hi32 p12))
              + u64 (lo32 p22 + hi32 p23)) + lo32 p33) + hi32 s2) in
  U128 (Z.lor (u64 (Z.shiftl (lo32 f1) 32)) (lo32 s2)) (Z.lor (u64 (Z.shiftl (lo32 t3) 32)) (lo32 (lo32 p03))) =
  of_Z (p03 + 2 ^ 32 * (p02 + p13) + 2 ^ 32 * 2 ^ 32 * (p01 + p12 + p23)
        + 2 ^ 32 * 2 ^ 32 * 2 ^ 32 * (p00 + p11 + p22 + p33)).
Proof.
  intros ?????????? lo32 hi32 t3 s2 f1. unfold is_u64 in *. pose proof (schoolbook p00 p01 p02 p03 p11 p12 p13 p22 p23 p33) as Hs.
  cbn zeta in Hs. subst lo32 hi32. cbn beta in *.
  assert (t3 = p02 mod 2 ^ 32 + p03 / 2 ^ 32 + p13 mod 2 ^ 32 + p03 mod 2 ^ 32 / 2 ^ 32) as Ht3.
  { unfold t3. digit_norm. by strip_u64. }
  assert (0 <= t3 < 2 ^ 64) as Ht by (rewrite Ht3; Z.div_mod_to_equations; lia).
  rewrite <- Ht3 in Hs. clearbody t3.
  assert (s2 = p01 mod 2 ^ 32 + p02 / 2 ^ 32 + (p12 mod 2 ^ 32 + p13 / 2 ^ 32) + p23 mod 2 ^ 32 + t3 / 2 ^ 32) as Hs2.
  { unfold s2. digit_norm. by strip_u64. }
  assert (0 <= s2 < 2 ^ 64) as Hs' by (rewrite Hs2; Z.div_mod_to_equations; lia).
  rewrite <- Hs2 in Hs. clearbody s2.
  assert (f1 = p00 mod 2 ^ 32 + p01 / 2 ^ 32 + (p11 mod 2 ^ 32 + p12 / 2 ^ 32)
    + (p22 mod 2 ^ 32 + p23 / 2 ^ 32) + p33 mod 2 ^ 32 + s2 / 2 ^ 32) as Hf1.
  { unfold f1. digit_norm. by strip_u64. }
  rewrite <- Hf1 in Hs. clearbody f1. clear Hf1 Hs2 Ht3.
  digit_norm. rewrite !Z.shiftl_mul_pow2 by lia.
  assert (forall z, 0 <= z mod 2 ^ 32 < 2 ^ 32) as Hm by (intros; apply Z.mod_pos_bound; lia).
  pose proof (Hm f1). pose proof (Hm s2). pose proof (Hm t3). pose proof (Hm (p03 mod 2 ^ 32)).
  rewrite !u64_small, !lor_shift by (unfold is_u64; lia).
  apply value_inj; [unfold wf, is_u64; simpl; lia|apply wf_of_Z|].
  rewrite value_of_Z, <- Hs. done.
Qed.

Lemma digits h : is_u64 h ->
  exists a b, 0 <= a < 2 ^ 32 /\ 0 <= b < 2 ^ 32 /\ h = a * 2 ^ 32 + b /\
              Z.shiftr h 32 = a /\ Z.land h 0xffffffff = b.
Proof.
  unfold is_u64. intros Hh. exists (h / 2 ^ 32), (h mod 2 ^ 32).
  change 0xffffffff with (2 ^ 32 - 1). rewrite land_mask, Z.shiftr_div_pow2 by lia.
  Z.div_mod_to_equations. lia.
Qed.

Lemma u64_digit_product a b : 0 <= a < 2 ^ 32 -> 0 <= b < 2 ^ 32 -> 0 <= a * b < 2 ^ 64 /\ u64 (a * b) = a * b.
Proof. intros. assert (0 <= a * b < 2 ^ 64) by nia. split; [done|]. by apply u64_small. Qed.

Lemma mul_spec x y : wf x -> wf y -> mul x y = of_Z (value x * value y).
Proof.
  destruct x as [xh xl], y as [yh yl]. intros [Hxh Hxl] [Hyh Hyl]. cbn [high low] in *.
  unfold mul, value. cbn [high low].
  destruct (digits xh Hxh) as (a0 & a1 & Ha0 & Ha1 & Hexh & -> & ->).
  destruct (digits xl Hxl) as (a2 & a3 & Ha2 & Ha3 & Hexl & -> & ->).
  destruct (digits yh Hyh) as (b0 & b1 & Hb0 & Hb1 & Heyh & -> & ->).
  destruct (digits yl Hyl) as (b2 & b3 & Hb2 & Hb3 & Heyl & -> & ->).
  change (3 - 0) with 3. change (3 - 1) with 2. change (3 - 2) with 1. change (3 - 3) with 0.
  assert (forall a b c d : Z, [a; b; c; d].[0] = a /\ [a; b; c; d].[1] = b /\
    [a; b; c; d].[2] = c /\ [a; b; c; d].[3] = d) as Hget by done.
  destruct (Hget a0 a1 a2 a3) as (-> & -> & -> & ->).
  destruct (Hget b0 b1 b2 b3) as (-> & -> & -> & ->). clear Hget.
  destruct (u64_digit_product a3 b0) as [? ->]; [done..|]. destruct (u64_digit_product a3 b1) as [? ->]; [done..|].
  destruct (u64_digit_product a3 b2) as [? ->]; [done..|]. destruct (u64_digit_product a3 b3) as [? ->]; [done..|].
  destruct (u64_digit_product a2 b1) as [? ->]; [done..|]. destruct (u64_digit_product a2 b2) as [? ->]; [done..|].
  destruct (u64_digit_product a2 b3) as [? ->]; [done..|]. destruct (u64_digit_product a1 b2) as [? ->]; [done..|].
  destruct (u64_digit_product a1 b3) as [? ->]; [done..|]. destruct (u64_digit_product a0 b3) as [? ->]; [done..|].
  replace (of_Z _) with (of_Z (a3 * b3 + 2 ^ 32 * (a3 * b2 + a2 * b3) +
    2 ^ 32 * 2 ^ 32 * (a3 * b1 + a2 * b2 + a1 * b3) +
    2 ^ 32 * 2 ^ 32 * 2 ^ 32 * (a3 * b0 + a2 * b1 + a1 * b2 + a0 * b3))).
  - by apply mul_digits.
  - apply of_Z_ext. subst xh xl yh yl.
    rewrite <- (Z_mod_plus_full _ ((a0 * b0) * 2 ^ 64 + (a0 * b1 + a1 * b0) * 2 ^ 32
      + (a0 * b2 + a1 * b1 + a2 * b0)) (2 ^ 128)). f_equal. ring.
Qed.

(** ** Properties *)

(** the operators of [uint128_t] are the arithmetic of the numbers their words stand for:
    comparison is the order, [+], [-], [*] and [<<] are exact modulo [2^128], [>>] is exact,
    and [bits] is the bit length. *)
Theorem uint128_arithmetic x y :
  wf x -> wf y ->
  eqb x y = (value x =? value y) /\ ltb x y = (value x <? value y) /\
  gtb x y = (value y <? value x) /\ leb x y = (value x <=? value y) /\
  geb x y = (value y <=? value x) /\ to_bool x = negb (value x =? 0) /\
  value (add x y) = (value x + value y) mod 2 ^ 128 /\
  value (sub x y) = (value x - value y) mod 2 ^ 128 /\
  value (mul x y) = (value x * value y) mod 2 ^ 128 /\
  value (shl x y) = (value x * 2 ^ value y) mod 2 ^ 128 /\
  value (shr x y) = value x / 2 ^ value y /\
  bits x = (if value x =? 0 then 0 else Z.log2 (value x) + 1).
Proof.
  intros Hx Hy. pose proof (value_range x Hx). pose proof (value_range y Hy).
  rewrite add_spec, sub_spec, mul_spec, shl_spec, shr_spec, bits_spec by done.
  rewrite !value_of_Z. split_and!; auto using eqb_spec, ltb_spec, gtb_spec, leb_spec, geb_spec, to_bool_spec.
  apply Z.mod_small. pose proof (div_le_self (value x) (2 ^ value y)).
  assert (0 < 2 ^ value y) by (apply Z.pow_pos_nonneg; lia). lia.
Qed.

(** [divmod] (and with it [operator/]) terminates within one round per bit and gives the
    quotient and the remainder, for every non-zero divisor. *)
Theorem divmod_correct lhs rhs :
  wf lhs -> wf rhs -> value rhs <> 0 ->
  let r := divmod lhs rhs in
  wf r.1 /\ wf r.2 /\ value r.1 = value lhs / value rhs /\ value r.2 = value lhs mod value rhs /\
  div lhs rhs = r.1.
Proof.
  intros Hl Hr Hne r. pose proof (value_range lhs Hl). pose proof (value_range rhs Hr).
  unfold div. fold r. unfold r. rewrite divmod_value by done. cbn [fst snd].
  pose proof (div_le_self (value lhs) (value rhs)). pose proof (Z.mod_pos_bound (value lhs) (value rhs)).
  split; [apply wf_of_Z|]. split; [apply wf_of_Z|].
  rewrite !value_of_Z_small by lia. done.
Qed.

Lemma uint128_arithmetic_witness :
  value (mul (U128 1 2) (U128 0 (2 ^ 64 - 1))) = (value (U128 1 2) * (2 ^ 64 - 1)) mod 2 ^ 128.
Proof.
  destruct (uint128_arithmetic (U128 1 2) (U128 0 (2 ^ 64 - 1)))
    as (_ & _ & _ & _ & _ & _ & _ & _ & H & _); [unfold wf, is_u64; cbn [high low]; lia..|].
  rewrite H. reflexivity.
Defined.

Lemma divmod_correct_witness :
  value (div (U128 1000 7) (U128 0 1000000007)) = (1000 * 2 ^ 64 + 7) / 1000000007.
Proof.
  destruct (divmod_correct (U128 1000 7) (U128 0 1000000007)) as (_ & _ & H & _ & Hd);
    [unfold wf, is_u64; simpl; lia..|done|]. rewrite Hd, H. reflexivity.
Defined.
