(* ===== verification/Containers.v ===== *)
(** * Plain containers (src/qpi/qpi_containers.h, src/qpi/impl/qpi_trivial_impl.h)

    [BitArray], [Array], [SlowAnySizeArray] and the sortedness checks, and the one-bit flags
    in 64-bit words that [BitArray] and [LinkedList] share. *)
From S2P Require Import Prelude.

(** ** Flags of one bit *)

Definition bit_word (index : Z) : Z := Z.shiftr index 6.
Definition bit_pos (index : Z) : Z := Z.land index 63.

Definition bit_of (fl : list Z) (index : Z) : bool := Z.testbit (fl.[bit_word index]) (bit_pos index).

(** [fl[index >> 6] |= 1ULL << (index & 63)] and [fl[index >> 6] &= ~(1ULL << (index & 63))]. *)
Definition bit_set (fl : list Z) (index : Z) : list Z :=
  fl.[bit_word index := Z.lor (fl.[bit_word index]) (Z.shiftl 1 (bit_pos index))].
Definition bit_clear (fl : list Z) (index : Z) : list Z :=
  fl.[bit_word index := Z.land (fl.[bit_word index]) (u64 (Z.lnot (Z.shiftl 1 (bit_pos index))))].

Lemma bit_word_eq i : bit_word i = i / 64.
Proof. apply (Z.shiftr_div_pow2 i 6). lia. Qed.

Lemma bit_pos_eq i : bit_pos i = i mod 64.
Proof. apply (land_mask i 6). lia. Qed.

Lemma bit_pos_range i : 0 <= bit_pos i < 64.
Proof. rewrite bit_pos_eq. apply Z.mod_pos_bound. lia. Qed.

Lemma bit_split i j : bit_word i = bit_word j -> bit_pos i = bit_pos j -> i = j.
Proof. rewrite !bit_word_eq, !bit_pos_eq. intros. Z.div_mod_to_equations. lia. Qed.

Lemma one_bit p i : 0 <= p -> 0 <= i -> Z.testbit (Z.shiftl 1 p) i = bool_decide (i = p).
Proof.
  intros. rewrite Z.shiftl_1_l, Z.pow2_bits_eqb by done.
  case_bool_decide; subst; [apply Z.eqb_refl|apply Z.eqb_neq; lia].
Qed.

Lemma bit_set_get fl i j :
  0 <= bit_word i < alen fl -> bit_of (bit_set fl i) j = bool_decide (i = j) || bit_of fl j.
Proof.
  intros Hi. unfold bit_of, bit_set. rewrite aget_aset.
  pose proof (bit_pos_range i). pose proof (bit_pos_range j). case_decide as Hd.
  - destruct Hd as [Hw _]. rewrite Z.lor_spec, one_bit by lia. rewrite Hw, orb_comm. f_equal.
    apply bool_decide_ext. split; [intros; by apply bit_split|congruence].
  - rewrite bool_decide_false; [done|]. intros ->. apply Hd. by split.
Qed.

Lemma bit_clear_get fl i j :
  0 <= bit_word i < alen fl -> bit_of (bit_clear fl i) j = negb (bool_decide (i = j)) && bit_of fl j.
Proof.
  intros Hi. unfold bit_of, bit_clear, u64. rewrite aget_aset.
  pose proof (bit_pos_range i). pose proof (bit_pos_range j). case_decide as Hd.
  - destruct Hd as [Hw _].
    rewrite Z.land_spec, testbit_mod_pow2, Z.lnot_spec, one_bit by lia.
    rewrite (proj2 (Z.ltb_lt _ _)) by lia. rewrite Hw, andb_comm. cbn [andb]. do 2 f_equal.
    apply bool_decide_ext. split; [intros; by apply bit_split|congruence].
  - rewrite bool_decide_false; [done|]. intros ->. apply Hd. by split.
Qed.

(** A loop that stores one value in the first [n] slots. *)
Lemma fill_loop {A} `{Inhabited A} (v : list A) (x : A) n :
  Z.of_nat n <= alen v ->
  let v' := for_loop n 0 (fun i v => v.[i := x]) v in
  alen v' = alen v /\ forall q, 0 <= q < Z.of_nat n -> v'.[q] = x.
Proof.
  intros Hn. apply (for_loop_ind (fun i v' => alen v' = alen v /\ forall q, 0 <= q < i -> v'.[q] = x)
    (fun i v => v.[i := x]) n 0 v).
  - split; [done|]. intros; lia.
  - intros i s Hi [Hl Hq]. split; [by rewrite alen_aset|]. intros q Hr. rewrite aget_aset.
    case_decide as Hd; [done|]. apply Hq. lia.
Qed.

(** ** BitArray *)
Module BitArray.
Section BitArray.
Variable lg : nat.
Abbreviation L := (2 ^ Z.of_nat lg).

Definition _elements : Z := (L + 63) / 64.

Definition word_index (index : Z) : Z := Z.land (Z.shiftr index 6) (_elements - 1).

Definition get (_values : list Z) (index : Z) : bool :=
  negb (Z.land (Z.shiftr (_values.[word_index index]) (Z.land index 63)) 1 =? 0).

Definition set (_values : list Z) (index : Z) (value : bool) : list Z :=
  _values.[word_index index :=
    Z.lor (Z.land (_values.[word_index index]) (u64 (Z.lnot (Z.shiftl 1 (Z.land index 63)))))
          (Z.shiftl (Z.b2z value) (Z.land index 63))].

Definition setAll (_values : list Z) (value : bool) : list Z :=
  let setValue := if value then UINT64_MAX else 0 in
  for_loop (Z.to_nat _elements) 0 (fun i v => v.[i := setValue]) _values.

Fixpoint equal_from (n : nat) (i : Z) (_values other : list Z) : bool :=
  match n with
  | O => true
  | S n' => if negb (_values.[i] =? other.[i]) then false else equal_from n' (i + 1) _values other
  end.

Definition equal (_values other : list Z) : bool := equal_from (Z.to_nat _elements) 0 _values other.

(** Number of addressable bits: the words are not shorter than 64 bits. *)
Definition bit_capacity : Z := 64 * _elements.

Record bitarray_ok (v : list Z) : Prop := {
  ba_len : alen v = _elements;
  ba_word : forall q, 0 <= q < _elements -> is_u64 (v.[q]) }.

Lemma elements_pow2 : exists e : nat, _elements = 2 ^ Z.of_nat e.
Proof.
  unfold _elements. destruct (decide (lg <= 6)%nat).
  - exists O. assert (1 <= L <= 2 ^ 6).
    { split; [pose proof (Z.pow_pos_nonneg 2 (Z.of_nat lg)); lia|apply Z.pow_le_mono_r; lia]. }
    rewrite Z.pow_0_r. Z.div_mod_to_equations. lia.
  - exists (lg - 6)%nat. replace L with (2 ^ Z.of_nat (lg - 6) * 64).
    + rewrite Z.add_comm, Z.div_add by lia. done.
    + change 64 with (2 ^ 6). rewrite <- Z.pow_add_r by lia. f_equal. lia.
Qed.

Lemma word_index_mod i : word_index i = i / 64 mod _elements.
Proof.
  unfold word_index. destruct elements_pow2 as [e He]. rewrite He, land_mask by lia.
  by rewrite Z.shiftr_div_pow2 by lia.
Qed.

Lemma word_index_range i : 0 <= word_index i < _elements.
Proof.
  rewrite word_index_mod. apply Z.mod_pos_bound. destruct elements_pow2 as [e ->].
  apply Z.pow_pos_nonneg; lia.
Qed.

(** The slot an index addresses. *)
Definition slot (i : Z) : Z := i mod bit_capacity.

Lemma bit_index_split i : slot i = 64 * word_index i + bit_pos i.
Proof.
  unfold slot, bit_capacity. rewrite word_index_mod, bit_pos_eq.
  assert (0 < _elements) by (destruct elements_pow2 as [e ->]; apply Z.pow_pos_nonneg; lia).
  rewrite Z.rem_mul_r by lia. lia.
Qed.

Lemma get_testbit v i : get v i = Z.testbit (v.[word_index i]) (bit_pos i).
Proof.
  unfold get. fold (bit_pos i). pose proof (bit_pos_range i).
  change 1 with (Z.ones 1). rewrite Z.land_ones by lia.
  rewrite <- (Z.add_0_l (bit_pos i)) at 2. rewrite <- Z.shiftr_spec by lia.
  generalize (Z.shiftr (v.[word_index i]) (bit_pos i)). intros w. change (2 ^ 1) with 2.
  rewrite Zmod_odd, Z.bit0_odd. by destruct (Z.odd w).
Qed.

Lemma get_set v i b j :
  bitarray_ok v -> get (set v i b) j = if decide (slot i = slot j) then b else get v j.
Proof.
  intros [Hlen _]. rewrite !get_testbit. unfold set. fold (bit_pos i).
  pose proof (word_index_range i). pose proof (bit_pos_range i). pose proof (bit_pos_range j).
  rewrite aget_aset, !bit_index_split. destruct (decide (word_index i = word_index j)) as [Hw|Hw].
  - rewrite decide_True by lia. unfold u64.
    rewrite Z.lor_spec, Z.land_spec, testbit_mod_pow2, Z.lnot_spec, one_bit by lia.
    rewrite (proj2 (Z.ltb_lt _ _)) by lia. cbn [andb]. rewrite <- Hw.
    assert (Z.testbit (Z.shiftl (Z.b2z b) (bit_pos i)) (bit_pos j) = b && bool_decide (bit_pos j = bit_pos i)) as ->.
    { destruct b; cbn [Z.b2z andb]; [by apply one_bit; lia|by rewrite Z.shiftl_0_l, Z.testbit_0_l]. }
    case_bool_decide; cbn [negb andb orb].
    + rewrite decide_True by lia. by rewrite andb_false_r, andb_true_r.
    + rewrite decide_False by lia. by rewrite andb_true_r, andb_false_r, orb_false_r.
  - rewrite decide_False by lia. by rewrite decide_False by lia.
Qed.

Lemma set_ok v i b : bitarray_ok v -> bitarray_ok (set v i b).
Proof.
  intros [Hlen Hw]. unfold set. fold (bit_pos i). pose proof (bit_pos_range i).
  split; [by rewrite alen_aset|]. intros q Hq. rewrite aget_aset. case_decide as Hd; [|by apply Hw].
  pose proof (word_index_range i). specialize (Hw (word_index i) ltac:(lia)). unfold is_u64 in *.
  assert (0 <= Z.shiftl (Z.b2z b) (bit_pos i) < 2 ^ 64) as Hb.
  { rewrite Z.shiftl_mul_pow2 by lia. assert (2 ^ bit_pos i < 2 ^ 64) by (apply Z.pow_lt_mono_r; lia).
    assert (0 < 2 ^ bit_pos i) by (apply Z.pow_pos_nonneg; lia). destruct b; cbn [Z.b2z]; lia. }
  split; [apply Z.lor_nonneg; split; [apply Z.land_nonneg; left|]; lia|].
  apply testbit_bound; [lia|apply Z.lor_nonneg; split; [apply Z.land_nonneg; left|]; lia|].
  intros k Hk. rewrite Z.lor_spec, Z.land_spec.
  by rewrite (testbit_high (v.[word_index i]) 64), (testbit_high (Z.shiftl _ _) 64).
Qed.

Lemma setAll_spec v b :
  bitarray_ok v -> bitarray_ok (setAll v b) /\ forall i, get (setAll v b) i = b.
Proof.
  intros [Hlen _]. unfold setAll. pose proof (word_index_range 0).
  destruct (fill_loop v (if b then UINT64_MAX else 0) (Z.to_nat _elements)) as [Hl Hq]; [lia|].
  set (v' := for_loop _ _ _ _) in *. rewrite Z2Nat.id in Hq by lia. split.
  - split; [lia|]. intros q ?. rewrite Hq by done. unfold is_u64, UINT64_MAX. destruct b; lia.
  - intros i. rewrite get_testbit, Hq by apply word_index_range. pose proof (bit_pos_range i).
    destruct b; [|apply Z.testbit_0_l]. change UINT64_MAX with (Z.ones 64).
    apply Z.ones_spec_low. lia.
Qed.

Lemma equal_from_spec n i v w :
  equal_from n i v w = true <-> forall q, i <= q < i + Z.of_nat n -> v.[q] = w.[q].
Proof.
  revert i. induction n as [|n IH]; intros i; cbn [equal_from]; [split; [intros; lia|done]|].
  destruct (Z.eqb_spec (v.[i]) (w.[i])) as [He|He]; cbn [negb].
  - rewrite IH. split.
    + intros Hq q Hr. destruct (decide (q = i)) as [->|]; [done|]. apply Hq. lia.
    + intros Hq q Hr. apply Hq. lia.
  - split; [done|]. intros Hq. exfalso. apply He, Hq. lia.
Qed.

Lemma equal_spec v w :
  bitarray_ok v -> bitarray_ok w ->
  equal v w = true <-> forall i, 0 <= i < bit_capacity -> get v i = get w i.
Proof.
  intros [Hlv Hv] [Hlw Hw]. unfold equal. rewrite equal_from_spec. pose proof (word_index_range 0).
  rewrite Z2Nat.id, Z.add_0_l by lia. split.
  - intros He i Hi. rewrite !get_testbit. by rewrite He by apply word_index_range.
  - intros Hg q Hq. apply Z.bits_inj'. intros p Hp.
    destruct (Z.lt_ge_cases p 64) as [Hlt|Hge].
    + specialize (Hg (64 * q + p)). unfold bit_capacity in Hg. rewrite !get_testbit in Hg.
      replace (word_index (64 * q + p)) with q in Hg.
      * replace (bit_pos (64 * q + p)) with p in Hg; [apply Hg; lia|].
        rewrite bit_pos_eq. Z.div_mod_to_equations. lia.
      * rewrite word_index_mod. replace ((64 * q + p) / 64) with q by (Z.div_mod_to_equations; lia).
        by rewrite Z.mod_small.
    + specialize (Hv q Hq). specialize (Hw q Hq). unfold is_u64 in *.
      by rewrite !(testbit_high _ 64).
Qed.
End BitArray.
End BitArray.

(** ** Array and SlowAnySizeArray *)
Module Array.
Section Array.
Context {T : Type} `{!Inhabited T, !EqDecision T}.
Variable lg : nat.
Abbreviation L := (2 ^ Z.of_nat lg).

Definition capacity : Z := L.

Definition get (_values : list T) (index : Z) : T := _values.[Z.land index (L - 1)].

Definition set (_values : list T) (index : Z) (value : T) : list T :=
  _values.[Z.land index (L - 1) := value].

Definition setAll (_values : list T) (value : T) : list T :=
  for_loop (Z.to_nat L) 0 (fun i v => v.[i := value]) _values.

Definition setRange (_values : list T) (indexBegin indexEnd : Z) (value : T) : list T :=
  for_loop (Z.to_nat (indexEnd - indexBegin)) indexBegin
    (fun i v => v.[Z.land i (L - 1) := value]) _values.

Fixpoint rangeEquals_from (n : nat) (i : Z) (_values : list T) (value : T) : bool :=
  match n with
  | O => true
  | S n' => if negb (bool_decide (_values.[i] = value)) then false
            else rangeEquals_from n' (i + 1) _values value
  end.

Definition rangeEquals (_values : list T) (indexBegin indexEnd : Z) (value : T) : bool :=
  if (L <? indexEnd) || (indexEnd <? indexBegin) then false
  else rangeEquals_from (Z.to_nat (indexEnd - indexBegin)) indexBegin _values value.

Lemma land_index i : 0 <= i < L -> Z.land i (L - 1) = i.
Proof. intros. rewrite land_mask by lia. by apply Z.mod_small. Qed.

Lemma rangeEquals_from_spec n i v x :
  rangeEquals_from n i v x = true <-> forall q, i <= q < i + Z.of_nat n -> v.[q] = x.
Proof.
  revert i. induction n as [|n IH]; intros i; cbn [rangeEquals_from]; [split; [intros; lia|done]|].
  case_bool_decide as He; cbn [negb].
  - rewrite IH. split.
    + intros Hq q Hr. destruct (decide (q = i)) as [->|]; [done|]. apply Hq. lia.
    + intros Hq q Hr. apply Hq. lia.
  - split; [done|]. intros Hq. exfalso. apply He, Hq. lia.
Qed.

Lemma setRange_spec v b e x :
  alen v = L -> 0 <= b <= e -> e <= L ->
  alen (setRange v b e x) = L /\
  forall i, 0 <= i < L -> (setRange v b e x).[i] = if decide (b <= i < e) then x else v.[i].
Proof.
  intros Hlen Hbe He. unfold setRange.
  pose proof (for_loop_ind (fun j w => alen w = L /\ forall i, 0 <= i < L ->
    w.[i] = if decide (b <= i < j) then x else v.[i])
    (fun i w => w.[Z.land i (L - 1) := x]) (Z.to_nat (e - b)) b v) as Hind. cbn beta in Hind.
  replace (b + Z.of_nat (Z.to_nat (e - b))) with e in Hind by lia. apply Hind.
  - split; [done|]. intros i Hi. by rewrite decide_False by lia.
  - intros j w Hj [Hl Hw]. split; [by rewrite alen_aset|]. intros i Hi.
    rewrite land_index, aget_aset by lia. destruct (decide (j = i)) as [->|].
    + by rewrite !decide_True by lia.
    + rewrite decide_False, Hw by lia. destruct (decide (b <= i < j)).
      * by rewrite decide_True by lia.
      * by rewrite decide_False by lia.
Qed.

End Array.
End Array.

Module SlowAnySizeArray.
Section SlowAnySizeArray.
Context {T : Type} `{!Inhabited T}.
Variable L : Z.

Definition get (_values : list T) (index : Z) : T := _values.[index mod L].

Definition set (_values : list T) (index : Z) (value : T) : list T := _values.[index mod L := value].

Definition setAll (_values : list T) (value : T) : list T :=
  for_loop (Z.to_nat L) 0 (fun i v => v.[i := value]) _values.

Lemma any_get_set v i x j :
  0 < L -> alen v = L -> get (set v i x) j = if decide (i mod L = j mod L) then x else get v j.
Proof.
  intros HL Hlen. unfold get, set. pose proof (Z.mod_pos_bound i L HL). rewrite aget_aset.
  case_decide as Hd; case_decide as Hd'; try done; [tauto|]. exfalso. apply Hd. by split; [|lia].
Qed.
End SlowAnySizeArray.
End SlowAnySizeArray.

(** ** Sortedness checks

    [gt a b] and [ge a b] are the comparison operators of the element type. *)
Module Sorted.
Section Sorted.
Context {T : Type} `{!Inhabited T}.
Variable lg : nat.
Abbreviation L := (2 ^ Z.of_nat lg).
Variable bad : T -> T -> bool.

(** The common loop: [bad] is [>] in [isArraySorted], [>=] in [isArraySortedWithoutDuplicates]. *)
Fixpoint check_from (n : nat) (i : Z) (arr : list T) : bool :=
  match n with
  | O => true
  | S n' => if bad (Array.get lg arr (i - 1)) (Array.get lg arr i) then false
            else check_from n' (i + 1) arr
  end.

Definition check (arr : list T) (beginIdx endIdx : Z) : bool :=
  if (L <? endIdx) || (endIdx <? beginIdx) then false
  else check_from (Z.to_nat (endIdx - (beginIdx + 1))) (beginIdx + 1) arr.

Lemma check_from_spec n i arr :
  1 <= i -> i + Z.of_nat n <= L ->
  check_from n i arr = true <-> forall q, i <= q < i + Z.of_nat n -> bad (arr.[q - 1]) (arr.[q]) = false.
Proof.
  revert i. induction n as [|n IH]; intros i Hi Hn; cbn [check_from]; [split; [intros; lia|done]|].
  unfold Array.get. rewrite !Array.land_index by lia.
  destruct (bad (arr.[i - 1]) (arr.[i])) eqn:Hb.
  - split; [done|]. intros Hq. rewrite Hq in Hb by lia. done.
  - rewrite IH by lia. split.
    + intros Hq q Hr. destruct (decide (q = i)) as [->|]; [done|]. apply Hq. lia.
    + intros Hq q Hr. apply Hq. lia.
Qed.

Lemma check_adjacent arr b e :
  0 <= b -> check arr b e = true <->
  (b <= e <= L) /\ forall q, b < q < e -> bad (arr.[q - 1]) (arr.[q]) = false.
Proof.
  intros Hb. unfold check. destruct (Z.ltb_spec L e), (Z.ltb_spec e b); cbn [orb];
    try (split; [done|intros [? _]; lia]).
  destruct (decide (b = e)) as [->|].
  { replace (Z.to_nat (e - (e + 1))) with O by lia. split; [intros _; split; [lia|intros; lia]|done]. }
  rewrite check_from_spec by lia. split.
  - intros Hq. split; [lia|]. intros q ?. apply Hq. lia.
  - intros [_ Hq] q ?. apply Hq. lia.
Qed.
End Sorted.

Definition isArraySorted (lg : nat) (arr : list Z) (beginIdx endIdx : Z) : bool :=
  check lg (fun a b => b <? a) arr beginIdx endIdx.

Definition isArraySortedWithoutDuplicates (lg : nat) (arr : list Z) (beginIdx endIdx : Z) : bool :=
  check lg (fun a b => b <=? a) arr beginIdx endIdx.

Lemma adjacent_monotone (R : Z -> Z -> Prop) (arr : list Z) b e :
  (forall x y z, R x y -> R y z -> R x z) ->
  (forall q, b < q < e -> R (arr.[q - 1]) (arr.[q])) ->
  forall i j, b <= i -> i < j -> j < e -> R (arr.[i]) (arr.[j]).
Proof.
  intros Htr Hadj i j Hi Hij Hj.
  assert (forall n : nat, i + 1 + Z.of_nat n < e -> R (arr.[i]) (arr.[i + 1 + Z.of_nat n])) as Hn.
  { induction n as [|n IH]; intros Hn.
    - rewrite Z.add_0_r. replace i with (i + 1 - 1) at 1 by lia. apply Hadj. lia.
    - eapply Htr; [apply IH; lia|].
      replace (i + 1 + Z.of_nat n) with (i + 1 + Z.of_nat (S n) - 1) by lia. apply Hadj. lia. }
  replace j with (i + 1 + Z.of_nat (Z.to_nat (j - (i + 1)))) by lia. apply Hn. lia.
Qed.
End Sorted.

(** ** Properties *)

(** A BitArray is a vector of bits: [set] changes exactly the addressed bit (indices wrap
    at the size of the words), [setAll] sets all of them, and [operator==] decides equality of
    all stored bits, which for [L < 64] includes the padding of the word. *)
Theorem bitarray_is_bit_vector (lg : nat) v w i j b :
  BitArray.bitarray_ok lg v -> BitArray.bitarray_ok lg w ->
  let cap := Z.max 64 (2 ^ Z.of_nat lg) in
  BitArray.bitarray_ok lg (BitArray.set lg v i b) /\
  BitArray.get lg (BitArray.set lg v i b) j =
    (if decide (i mod cap = j mod cap) then b else BitArray.get lg v j) /\
  BitArray.get lg (BitArray.setAll lg v b) j = b /\
  (BitArray.equal lg v w = true <->
   forall k, 0 <= k < cap -> BitArray.get lg v k = BitArray.get lg w k).
Proof.
  intros Hv Hw cap. assert (BitArray.bit_capacity lg = cap) as Hcap.
  { unfold BitArray.bit_capacity, BitArray._elements, cap. destruct (decide (lg <= 6)%nat).
    - assert (1 <= 2 ^ Z.of_nat lg <= 2 ^ 6).
      { split; [pose proof (Z.pow_pos_nonneg 2 (Z.of_nat lg)); lia|apply Z.pow_le_mono_r; lia]. }
      Z.div_mod_to_equations. lia.
    - assert (2 ^ Z.of_nat lg = 2 ^ Z.of_nat (lg - 6) * 64) as ->.
      { change 64 with (2 ^ 6). rewrite <- Z.pow_add_r by lia. f_equal. lia. }
      assert (0 < 2 ^ Z.of_nat (lg - 6)) by (apply Z.pow_pos_nonneg; lia).
      rewrite Z.add_comm, Z.div_add by lia. change (63 / 64) with 0. lia. }
  split; [by apply BitArray.set_ok|]. split; [|split].
  - rewrite BitArray.get_set by done. unfold BitArray.slot. by rewrite Hcap.
  - by apply BitArray.setAll_spec.
  - rewrite BitArray.equal_spec by done. by rewrite Hcap.
Qed.

(** Two BitArray<4> that agree on their four bits and are not equal. *)
Example bitarray_equal_sees_padding :
  let a := BitArray.setAll 2 [0] true in
  let b := for_loop 4 0 (fun i v => BitArray.set 2 v i true) [0] in
  (forall i, 0 <= i < 4 -> BitArray.get 2 a i = BitArray.get 2 b i) /\ BitArray.equal 2 a b = false.
Proof.
  split; [|reflexivity]. intros i Hi.
  assert (i = 0 \/ i = 1 \/ i = 2 \/ i = 3) as [-> | [-> | [-> | ->]]] by lia; reflexivity.
Qed.

(** [isArraySorted] and [isArraySortedWithoutDuplicates] decide that the range is valid
    and its elements are in (strictly) ascending order. *)
Theorem isArraySorted_decides (lg : nat) (arr : list Z) b e :
  0 <= b ->
  (Sorted.isArraySorted lg arr b e = true <->
   (b <= e <= 2 ^ Z.of_nat lg) /\ forall i j, b <= i -> i < j -> j < e -> arr.[i] <= arr.[j]) /\
  (Sorted.isArraySortedWithoutDuplicates lg arr b e = true <->
   (b <= e <= 2 ^ Z.of_nat lg) /\ forall i j, b <= i -> i < j -> j < e -> arr.[i] < arr.[j]).
Proof.
  intros Hb. unfold Sorted.isArraySorted, Sorted.isArraySortedWithoutDuplicates.
  rewrite !Sorted.check_adjacent by done. split.
  - split; intros [Hr Hq]; (split; [done|]).
    + apply (Sorted.adjacent_monotone Z.le); [apply Z.le_trans|].
      intros q Hbq. specialize (Hq q Hbq). by apply Z.ltb_ge.
    + intros q Hbq. apply Z.ltb_ge, Hq; lia.
  - split; intros [Hr Hq]; (split; [done|]).
    + apply (Sorted.adjacent_monotone Z.lt); [apply Z.lt_trans|].
      intros q Hbq. specialize (Hq q Hbq). by apply Z.leb_gt.
    + intros q Hbq. apply Z.leb_gt, Hq; lia.
Qed.

(** [setRange] followed by [rangeEquals]. *)
Lemma setRange_rangeEquals {T} `{!Inhabited T, !EqDecision T} (lg : nat) (v : list T) b e x :
  alen v = 2 ^ Z.of_nat lg -> 0 <= b <= e -> e <= 2 ^ Z.of_nat lg ->
  Array.rangeEquals lg (Array.setRange lg v b e x) b e x = true.
Proof.
  intros Hlen Hbe He. unfold Array.rangeEquals.
  rewrite (proj2 (Z.ltb_ge _ _)), (proj2 (Z.ltb_ge _ _)) by lia. cbn [orb].
  apply Array.rangeEquals_from_spec. intros q Hq.
  destruct (Array.setRange_spec lg v b e x) as [_ Hs]; [done..|].
  rewrite Hs by lia. by rewrite decide_True by lia.
Qed.

Lemma bitarray_is_bit_vector_witness :
  BitArray.get 7 (BitArray.set 7 [0; 0] 130 true) 2 = true.
Proof.
  assert (BitArray.bitarray_ok 7 [0; 0]) as Hok.
  { split; [reflexivity|]. intros q Hq. change (BitArray._elements 7) with 2 in Hq.
    assert (q = 0 \/ q = 1) as [-> | ->] by lia; vm_compute; (split; [discriminate|reflexivity]). }
  destruct (bitarray_is_bit_vector 7 [0; 0] [0; 0] 130 2 true Hok Hok) as (_ & Hg & _).
  rewrite Hg. reflexivity.
Defined.

Lemma isArraySorted_decides_witness :
  Sorted.isArraySorted 2 [1; 3; 3; 2] 0 3 = true /\ [1; 3; 3; 2].[0] <= [1; 3; 3; 2].[2].
Proof.
  split; [reflexivity|]. destruct (isArraySorted_decides 2 [1; 3; 3; 2] 0 3 ltac:(lia)) as [H _].
  apply H; [reflexivity|lia..].
Defined.
