(* ===== verification/LinkedList.v ===== *)
(** * QPI::LinkedList (src/qpi/impl/qpi_linked_list_impl.h, src/qpi/qpi_containers.h)

    Doubly linked list in a node array with a free list and lazily used nodes.  The abstract
    state is the list of (element index, value) pairs in list order; [spec_step] says what
    each operation does to it. *)
From S2P Require Import Prelude OpenAddressing Containers.

Record Node (T : Type) := mkNode { value : T; nextIndex : Z; prevIndex : Z }.
Arguments mkNode {T} _ _ _.
Arguments value {T} _.
Arguments nextIndex {T} _.
Arguments prevIndex {T} _.

Record LinkedList (T : Type) := mkLinkedList {
  _nodes : list (Node T);
  _occupiedFlags : list Z;
  _headIndex : Z;
  _tailIndex : Z;
  _freeHeadIndex : Z;
  _nextUnusedIndex : Z;
  _population : Z }.
Arguments mkLinkedList {T} _ _ _ _ _ _ _.
Arguments _nodes {T} _.
Arguments _occupiedFlags {T} _.
Arguments _headIndex {T} _.
Arguments _tailIndex {T} _.
Arguments _freeHeadIndex {T} _.
Arguments _nextUnusedIndex {T} _.
Arguments _population {T} _.

Section LinkedList.
(** [zeroT]: the value whose bytes are all zero. *)
Context {T : Type} (zeroT : T).
Variable lg : nat.
Abbreviation L := (2 ^ Z.of_nat lg).

#[local] Instance node_inhabited : Inhabited (Node T) := populate (mkNode zeroT 0 0).

Implicit Types l : LinkedList T.

(** ** Field updates *)

Definition with_value (n : list (Node T)) (i : Z) (v : T) : list (Node T) :=
  n.[i := mkNode v (nextIndex (n.[i])) (prevIndex (n.[i]))].
Definition with_next (n : list (Node T)) (i x : Z) : list (Node T) :=
  n.[i := mkNode (value (n.[i])) x (prevIndex (n.[i]))].
Definition with_prev (n : list (Node T)) (i x : Z) : list (Node T) :=
  n.[i := mkNode (value (n.[i])) (nextIndex (n.[i])) x].

(** ** Operations *)

Definition _isValidAndOccupied l (elementIndex : Z) : bool :=
  if (elementIndex <? 0) || (L <=? elementIndex) then false else bit_of (_occupiedFlags l) elementIndex.

Definition _initIfNeeded l : LinkedList T :=
  if (_population l =? 0) && (_nextUnusedIndex l =? 0) then
    mkLinkedList (_nodes l) (_occupiedFlags l) NULL_INDEX NULL_INDEX NULL_INDEX
      (_nextUnusedIndex l) (_population l)
  else l.

Definition _allocateNode l : LinkedList T * Z :=
  let l := _initIfNeeded l in
  if negb (_freeHeadIndex l =? NULL_INDEX) then
    let nodeIndex := _freeHeadIndex l in
    (mkLinkedList (_nodes l) (_occupiedFlags l) (_headIndex l) (_tailIndex l)
       (nextIndex ((_nodes l).[nodeIndex])) (_nextUnusedIndex l) (_population l), nodeIndex)
  else if _nextUnusedIndex l <? L then
    (mkLinkedList (_nodes l) (_occupiedFlags l) (_headIndex l) (_tailIndex l) (_freeHeadIndex l)
       (u64 (_nextUnusedIndex l + 1)) (_population l), _nextUnusedIndex l)
  else (l, NULL_INDEX).

Definition _freeNode l (nodeIndex : Z) : LinkedList T :=
  let nodes := with_value (_nodes l) nodeIndex zeroT in
  let nodes := with_next nodes nodeIndex (_freeHeadIndex l) in
  let nodes := with_prev nodes nodeIndex NULL_INDEX in
  mkLinkedList nodes (bit_clear (_occupiedFlags l) nodeIndex) (_headIndex l) (_tailIndex l)
    nodeIndex (_nextUnusedIndex l) (_population l).

Definition population l : Z := _population l.

Definition headIndex l : Z := if _population l =? 0 then NULL_INDEX else _headIndex l.

Definition tailIndex l : Z := if _population l =? 0 then NULL_INDEX else _tailIndex l.

Definition nextElementIndex l (elementIndex : Z) : Z :=
  if negb (_isValidAndOccupied l elementIndex) then NULL_INDEX
  else nextIndex ((_nodes l).[elementIndex]).

Definition prevElementIndex l (elementIndex : Z) : Z :=
  if negb (_isValidAndOccupied l elementIndex) then NULL_INDEX
  else prevIndex ((_nodes l).[elementIndex]).

Definition element l (elementIndex : Z) : T := value ((_nodes l).[Z.land elementIndex (L - 1)]).

Definition isEmptySlot l (elementIndex : Z) : bool := negb (_isValidAndOccupied l elementIndex).

(** [_nodes[nodeIndex]] gets the three fields. *)
Definition init_node (nodes : list (Node T)) (nodeIndex : Z) (v : T) (prev next : Z) : list (Node T) :=
  with_next (with_prev (with_value nodes nodeIndex v) nodeIndex prev) nodeIndex next.

Definition addHead l (v : T) : LinkedList T * Z :=
  let '(l, nodeIndex) := _allocateNode l in
  if nodeIndex =? NULL_INDEX then (l, NULL_INDEX)
  else
    let flags := bit_set (_occupiedFlags l) nodeIndex in
    let nodes := init_node (_nodes l) nodeIndex v NULL_INDEX (_headIndex l) in
    let '(nodes, tail) :=
      if negb (_headIndex l =? NULL_INDEX) then (with_prev nodes (_headIndex l) nodeIndex, _tailIndex l)
      else (nodes, nodeIndex) in
    (mkLinkedList nodes flags nodeIndex tail (_freeHeadIndex l) (_nextUnusedIndex l)
       (u64 (_population l + 1)), nodeIndex).

Definition addTail l (v : T) : LinkedList T * Z :=
  let '(l, nodeIndex) := _allocateNode l in
  if nodeIndex =? NULL_INDEX then (l, NULL_INDEX)
  else
    let flags := bit_set (_occupiedFlags l) nodeIndex in
    let nodes := init_node (_nodes l) nodeIndex v (_tailIndex l) NULL_INDEX in
    let '(nodes, head) :=
      if negb (_tailIndex l =? NULL_INDEX) then (with_next nodes (_tailIndex l) nodeIndex, _headIndex l)
      else (nodes, nodeIndex) in
    (mkLinkedList nodes flags head nodeIndex (_freeHeadIndex l) (_nextUnusedIndex l)
       (u64 (_population l + 1)), nodeIndex).

Definition insertAfter l (elementIndex : Z) (v : T) : LinkedList T * Z :=
  if negb (_isValidAndOccupied l elementIndex) then (l, NULL_INDEX)
  else if elementIndex =? _tailIndex l then addTail l v
  else
    let '(l, nodeIndex) := _allocateNode l in
    if nodeIndex =? NULL_INDEX then (l, NULL_INDEX)
    else
      let flags := bit_set (_occupiedFlags l) nodeIndex in
      let nextIdx := nextIndex ((_nodes l).[elementIndex]) in
      let nodes := init_node (_nodes l) nodeIndex v elementIndex nextIdx in
      let nodes := with_next nodes elementIndex nodeIndex in
      let nodes := if negb (nextIdx =? NULL_INDEX) then with_prev nodes nextIdx nodeIndex else nodes in
      (mkLinkedList nodes flags (_headIndex l) (_tailIndex l) (_freeHeadIndex l) (_nextUnusedIndex l)
         (u64 (_population l + 1)), nodeIndex).

Definition insertBefore l (elementIndex : Z) (v : T) : LinkedList T * Z :=
  if negb (_isValidAndOccupied l elementIndex) then (l, NULL_INDEX)
  else if elementIndex =? _headIndex l then addHead l v
  else
    let '(l, nodeIndex) := _allocateNode l in
    if nodeIndex =? NULL_INDEX then (l, NULL_INDEX)
    else
      let flags := bit_set (_occupiedFlags l) nodeIndex in
      let prevIdx := prevIndex ((_nodes l).[elementIndex]) in
      let nodes := init_node (_nodes l) nodeIndex v prevIdx elementIndex in
      let nodes := with_prev nodes elementIndex nodeIndex in
      let nodes := if negb (prevIdx =? NULL_INDEX) then with_next nodes prevIdx nodeIndex else nodes in
      (mkLinkedList nodes flags (_headIndex l) (_tailIndex l) (_freeHeadIndex l) (_nextUnusedIndex l)
         (u64 (_population l + 1)), nodeIndex).

Definition remove l (elementIndex : Z) : LinkedList T :=
  if negb (_isValidAndOccupied l elementIndex) then l
  else
    let prevIdx := prevIndex ((_nodes l).[elementIndex]) in
    let nextIdx := nextIndex ((_nodes l).[elementIndex]) in
    let '(nodes, head) :=
      if negb (prevIdx =? NULL_INDEX) then (with_next (_nodes l) prevIdx nextIdx, _headIndex l)
      else (_nodes l, nextIdx) in
    let '(nodes, tail) :=
      if negb (nextIdx =? NULL_INDEX) then (with_prev nodes nextIdx prevIdx, _tailIndex l)
      else (nodes, prevIdx) in
    _freeNode (mkLinkedList nodes (_occupiedFlags l) head tail (_freeHeadIndex l)
                 (_nextUnusedIndex l) (u64 (_population l - 1))) elementIndex.

Definition replace l (elementIndex : Z) (newValue : T) : LinkedList T * bool :=
  if negb (_isValidAndOccupied l elementIndex) then (l, false)
  else (mkLinkedList (with_value (_nodes l) elementIndex newValue) (_occupiedFlags l) (_headIndex l)
          (_tailIndex l) (_freeHeadIndex l) (_nextUnusedIndex l) (_population l), true).

(** Zero-initialised contract state, and [reset]. *)
Definition zeroed (head tail freeHead : Z) : LinkedList T :=
  mkLinkedList (replicate (Z.to_nat L) (mkNode zeroT 0 0)) (replicate (Z.to_nat ((L + 63) / 64)) 0)
    head tail freeHead 0 0.

Definition reset : LinkedList T := zeroed NULL_INDEX NULL_INDEX NULL_INDEX.
End LinkedList.

(** ** Links *)

(** First and last index of a list of indices, with a default. *)
Definition first (d : Z) (xs : list Z) : Z := match xs with [] => d | x :: _ => x end.

Fixpoint final (d : Z) (xs : list Z) : Z := match xs with [] => d | x :: xs' => final x xs' end.

Lemma first_app d xs ys : first d (xs ++ ys) = first (first d ys) xs.
Proof. by destruct xs. Qed.

Lemma final_app d xs ys : final d (xs ++ ys) = final (final d xs) ys.
Proof. revert d. induction xs as [|x xs IH]; intros d; simpl; [done|]. apply IH. Qed.

Lemma final_elem d xs : xs = [] \/ final d xs ∈ xs.
Proof.
  revert d. induction xs as [|x xs IH]; intros d; [by left|right]. simpl.
  destruct (IH x) as [->|?]; [by left|by right].
Qed.

Lemma first_elem d xs : xs = [] \/ first d xs ∈ xs.
Proof. destruct xs; [by left|right]. by left. Qed.

Section Links.
Context {T : Type} (zeroT : T).
#[local] Hint Extern 0 (Inhabited (Node T)) => exact (node_inhabited zeroT) : typeclass_instances.
Implicit Types n : list (Node T).

(** The nodes [xs] are doubly linked in this order, between the neighbours [p] and [q]. *)
Fixpoint dl n (p : Z) (xs : list Z) (q : Z) : Prop :=
  match xs with
  | [] => True
  | x :: xs' => prevIndex (n.[x]) = p /\ nextIndex (n.[x]) = first q xs' /\ dl n x xs' q
  end.

(** The nodes [xs] form the free list. *)
Fixpoint chain n (xs : list Z) : Prop :=
  match xs with
  | [] => True
  | x :: xs' => nextIndex (n.[x]) = first NULL_INDEX xs' /\ chain n xs'
  end.

Lemma dl_app n p xs ys q :
  dl n p (xs ++ ys) q <-> dl n p xs (first q ys) /\ dl n (final p xs) ys q.
Proof.
  revert p. induction xs as [|x xs IH]; intros p; simpl; [tauto|].
  rewrite IH, first_app. tauto.
Qed.

Lemma chain_frame n n' xs :
  (forall i, i ∈ xs -> nextIndex (n'.[i]) = nextIndex (n.[i])) -> chain n xs -> chain n' xs.
Proof.
  induction xs as [|x xs IH]; simpl; [done|]. intros Hn [H1 H2]. split.
  - rewrite Hn; [done|by left].
  - apply IH; [|done]. intros i Hi. apply Hn. by right.
Qed.

(** Changing the successor of the last node. *)
Lemma dl_retarget n n' p xs q q' :
  NoDup xs ->
  (forall i, i ∈ xs -> prevIndex (n'.[i]) = prevIndex (n.[i])) ->
  (forall i, i ∈ xs -> nextIndex (n'.[i]) = if decide (i = final p xs) then q' else nextIndex (n.[i])) ->
  dl n p xs q -> dl n' p xs q'.
Proof.
  revert p. induction xs as [|x xs IH]; intros p Hnd Hp Hn; simpl; [done|].
  apply NoDup_cons in Hnd as [Hx Hnd]. intros (H1 & H2 & H3). split_and!.
  - rewrite Hp; [done|by left].
  - rewrite Hn by (by left). simpl. destruct xs as [|y xs]; simpl.
    + by rewrite decide_True.
    + rewrite decide_False; [done|]. intros Heq. apply Hx. rewrite Heq.
      destruct (final_elem y xs) as [->|?]; [by left|by right].
  - apply IH; [done| | |done].
    + intros i Hi. apply Hp. by right.
    + intros i Hi. rewrite Hn by (by right). simpl. done.
Qed.

(** Changing the predecessor of the first node. *)
Lemma dl_rehead n n' p p' xs q :
  NoDup xs ->
  (forall i, i ∈ xs -> nextIndex (n'.[i]) = nextIndex (n.[i])) ->
  (forall i, i ∈ xs -> prevIndex (n'.[i]) = if decide (i = first q xs) then p' else prevIndex (n.[i])) ->
  dl n p xs q -> dl n' p' xs q.
Proof.
  destruct xs as [|x xs]; [done|]. intros [Hx Hnd]%NoDup_cons Hn Hp (H1 & H2 & H3). simpl in Hp.
  simpl. split; [|split].
  - rewrite Hp by (by left). by rewrite decide_True.
  - rewrite Hn by (by left). done.
  - apply (dl_retarget n n' x xs q q); [done| | |done].
    + intros i Hi. rewrite Hp by (by right). rewrite decide_False; [done|]. by intros ->.
    + intros i Hi. rewrite Hn by (by right). case_decide as Hd; [|done]. subst i.
      clear -H3 Hi. revert x H3 Hi. induction xs as [|y xs IH]; intros x; simpl; [by intros _ ?%elem_of_nil|].
      intros (_ & Hy & H3) Hi. destruct xs as [|z xs]; [by simpl in *|].
      apply IH; [done|]. destruct (final_elem y (z :: xs)) as [?|?]; [done|]. done.
Qed.

(** *** Node writes *)

Section writes.
Variables (n : list (Node T)) (i : Z).
Hypothesis Hi : 0 <= i < alen n.

Lemma with_value_get v j :
  value ((with_value zeroT n i v).[j]) = (if decide (i = j) then v else value (n.[j])) /\
  nextIndex ((with_value zeroT n i v).[j]) = nextIndex (n.[j]) /\
  prevIndex ((with_value zeroT n i v).[j]) = prevIndex (n.[j]).
Proof.
  unfold with_value. rewrite aget_aset. destruct (decide (i = j)) as [->|].
  - by rewrite decide_True.
  - by rewrite decide_False by tauto.
Qed.

Lemma with_next_get x j :
  value ((with_next zeroT n i x).[j]) = value (n.[j]) /\
  nextIndex ((with_next zeroT n i x).[j]) = (if decide (i = j) then x else nextIndex (n.[j])) /\
  prevIndex ((with_next zeroT n i x).[j]) = prevIndex (n.[j]).
Proof.
  unfold with_next. rewrite aget_aset. destruct (decide (i = j)) as [->|].
  - by rewrite decide_True.
  - by rewrite decide_False by tauto.
Qed.

Lemma with_prev_get x j :
  value ((with_prev zeroT n i x).[j]) = value (n.[j]) /\
  nextIndex ((with_prev zeroT n i x).[j]) = nextIndex (n.[j]) /\
  prevIndex ((with_prev zeroT n i x).[j]) = (if decide (i = j) then x else prevIndex (n.[j])).
Proof.
  unfold with_prev. rewrite aget_aset. destruct (decide (i = j)) as [->|].
  - by rewrite decide_True.
  - by rewrite decide_False by tauto.
Qed.
End writes.

Lemma alen_with_value n i v : alen (with_value zeroT n i v) = alen n.
Proof. apply alen_aset. Qed.
Lemma alen_with_next n i x : alen (with_next zeroT n i x) = alen n.
Proof. apply alen_aset. Qed.
Lemma alen_with_prev n i x : alen (with_prev zeroT n i x) = alen n.
Proof. apply alen_aset. Qed.

Lemma init_node_get n i v p q j :
  0 <= i < alen n ->
  value ((init_node zeroT n i v p q).[j]) = (if decide (i = j) then v else value (n.[j])) /\
  nextIndex ((init_node zeroT n i v p q).[j]) = (if decide (i = j) then q else nextIndex (n.[j])) /\
  prevIndex ((init_node zeroT n i v p q).[j]) = (if decide (i = j) then p else prevIndex (n.[j])).
Proof.
  intros Hi. unfold init_node.
  destruct (with_next_get (with_prev zeroT (with_value zeroT n i v) i p) i) with (x := q) (j := j)
    as (-> & -> & ->); [by rewrite alen_with_prev, alen_with_value|].
  destruct (with_prev_get (with_value zeroT n i v) i) with (x := p) (j := j)
    as (-> & -> & ->); [by rewrite alen_with_value|].
  by destruct (with_value_get n i Hi v j) as (-> & -> & ->).
Qed.

Lemma alen_init_node n i v p q : alen (init_node zeroT n i v p q) = alen n.
Proof. unfold init_node. by rewrite alen_with_next, alen_with_prev, alen_with_value. Qed.
End Links.

(** ** Invariant *)
Section Invariant.
Context {T : Type} (zeroT : T).
Variable lg : nat.
Hypothesis lg_small : (lg < 64)%nat.
Abbreviation L := (2 ^ Z.of_nat lg).
#[local] Hint Extern 0 (Inhabited (Node T)) => exact (node_inhabited zeroT) : typeclass_instances.
Implicit Types l : LinkedList T.

(** [ds]: the elements in list order; [us]: the other nodes ever used. *)
Record ll_base l (ds us : list Z) : Prop := {
  ll_len : alen (_nodes l) = L;
  ll_flen : alen (_occupiedFlags l) = (L + 63) / 64;
  ll_nodup : NoDup (ds ++ us);
  ll_range : forall i, i ∈ ds ++ us -> 0 <= i < _nextUnusedIndex l;
  ll_unused : _nextUnusedIndex l <= L;
  ll_count : Z.of_nat (length (ds ++ us)) = _nextUnusedIndex l;
  ll_flags : forall i, 0 <= i < L -> bit_of (_occupiedFlags l) i = bool_decide (i ∈ ds);
  ll_dl : dl zeroT (_nodes l) NULL_INDEX ds NULL_INDEX;
  ll_head : _headIndex l = first NULL_INDEX ds;
  ll_tail : _tailIndex l = final NULL_INDEX ds;
  ll_pop : _population l = Z.of_nat (length ds) }.

Record ll_ok l (ds fs : list Z) : Prop := {
  ll_basic : ll_base l ds fs;
  ll_chain : chain zeroT (_nodes l) fs;
  ll_free : _freeHeadIndex l = first NULL_INDEX fs }.

(** The list of (index, value) pairs. *)
Definition pairs (n : list (Node T)) (ds : list Z) : list (Z * T) := (fun i => (i, value (n.[i]))) <$> ds.

Lemma L_bound : 0 < L < 2 ^ 64.
Proof. split; [apply cap_pos|apply Z.pow_lt_mono_r; lia]. Qed.

Lemma flag_word_ok l ds us i : ll_base l ds us -> 0 <= i < L -> 0 <= bit_word i < alen (_occupiedFlags l).
Proof. intros Hb Hi. rewrite bit_word_eq, (ll_flen _ _ _ Hb). Z.div_mod_to_equations. lia. Qed.

Lemma ll_in l ds us i : ll_base l ds us -> i ∈ ds ++ us -> 0 <= i < L.
Proof. intros Hb Hi. pose proof (ll_range _ _ _ Hb i Hi). pose proof (ll_unused _ _ _ Hb). lia. Qed.

Lemma NULL_not_elem l ds us : ll_base l ds us -> NULL_INDEX ∉ ds ++ us.
Proof. intros Hb Hn. apply (ll_in _ _ _ _ Hb) in Hn. unfold NULL_INDEX in Hn. lia. Qed.

Lemma pairs_ext n n' ds :
  (forall i, i ∈ ds -> value (n'.[i]) = value (n.[i])) -> pairs n' ds = pairs n ds.
Proof. intros Hv. apply list_fmap_ext. intros k i Hi%list_elem_of_lookup_2. by rewrite Hv. Qed.

Lemma pairs_fst n ds : (pairs n ds).*1 = ds.
Proof. unfold pairs. rewrite <- list_fmap_compose. apply list_fmap_id. Qed.

(** *** Allocation *)

Lemma alloc_ok l ds fs :
  ll_ok l ds fs -> _initIfNeeded l = l ->
  let '(l', x) := _allocateNode zeroT lg l in
  if decide (Z.of_nat (length ds) < L) then
    exists fs', ll_base l' ds (x :: fs') /\ chain zeroT (_nodes l') fs' /\
      _freeHeadIndex l' = first NULL_INDEX fs' /\ _nodes l' = _nodes l
  else x = NULL_INDEX /\ l' = l.
Proof.
  intros [Hb Hc Hf] Hinit. unfold _allocateNode. rewrite Hinit. pose proof L_bound.
  pose proof (ll_count _ _ _ Hb) as Hcnt. pose proof (ll_unused _ _ _ Hb) as Hun.
  rewrite length_app in Hcnt. destruct fs as [|x fs']; simpl in Hf, Hcnt.
  - rewrite Hf. change (negb (NULL_INDEX =? NULL_INDEX)) with false. cbn iota.
    destruct (Z.ltb_spec (_nextUnusedIndex l) L) as [Hlt|Hge].
    + rewrite decide_True by lia. exists []. rewrite u64_small by (unfold is_u64; lia). simpl.
      split; [|by split]. destruct Hb. split; simpl; try done.
      * rewrite app_nil_r in ll_nodup0. apply NoDup_app. split; [done|]. split; [|apply NoDup_singleton].
        intros y Hy ->%list_elem_of_singleton.
        specialize (ll_range0 (_nextUnusedIndex l)). rewrite app_nil_r in ll_range0.
        specialize (ll_range0 Hy). lia.
      * intros i. rewrite elem_of_app, list_elem_of_singleton. rewrite app_nil_r in ll_range0.
        intros [Hi| ->]; [specialize (ll_range0 i Hi)|]; lia.
      * lia.
      * rewrite length_app. simpl. lia.
    + rewrite decide_False by lia. done.
  - rewrite Hf. assert (x <> NULL_INDEX) as Hx.
    { intros ->. apply (NULL_not_elem _ _ _ Hb). apply elem_of_app. right. by left. }
    rewrite (proj2 (Z.eqb_neq _ _) Hx). cbn [negb].
    rewrite decide_True.
    + exists fs'. destruct Hc as [Hn Hc]. split; [|by split]. destruct Hb. by split.
    + lia.
Qed.

(** *** Splitting the list *)

Record split_facts (xs ys us : list Z) : Prop := {
  sp_xs : NoDup xs;
  sp_ys : NoDup ys;
  sp_in : forall i, i ∈ xs \/ i ∈ ys \/ i ∈ us -> 0 <= i < L;
  sp_dis : forall i, i ∈ xs \/ i ∈ ys -> i ∉ us;
  sp_first : forall i, i ∈ xs \/ i ∈ us -> first NULL_INDEX ys <> i;
  sp_final : forall i, i ∈ ys \/ i ∈ us -> final NULL_INDEX xs <> i }.

Lemma split_of xs ys us :
  NoDup ((xs ++ ys) ++ us) -> (forall i, i ∈ (xs ++ ys) ++ us -> 0 <= i < L) -> split_facts xs ys us.
Proof.
  intros ((Hxs & Hxy & Hys)%NoDup_app & Hdis & Hus)%NoDup_app Hr.
  assert (forall i, i ∈ xs \/ i ∈ ys \/ i ∈ us -> 0 <= i < L) as Hin.
  { intros i Hi. apply Hr. rewrite !elem_of_app. tauto. }
  assert (forall i, i ∈ xs \/ i ∈ ys \/ i ∈ us -> NULL_INDEX <> i) as HN.
  { intros i Hi <-. specialize (Hin _ Hi). unfold NULL_INDEX in Hin. lia. }
  assert (forall i, i ∈ xs \/ i ∈ ys -> i ∉ us) as Hd.
  { intros i Hi. apply Hdis. by apply elem_of_app. }
  split; [done..| |].
  - intros i Hi <-. destruct (first_elem NULL_INDEX ys) as [-> |Hfe]; [by eapply HN; [|done]; tauto|].
    destruct Hi as [Hi|Hi]; [by apply (Hxy _ Hi)|by apply (Hd (first NULL_INDEX ys)); [right|]].
  - intros i Hi <-. destruct (final_elem NULL_INDEX xs) as [-> |Hfe]; [by eapply HN; [|done]; tauto|].
    destruct Hi as [Hi|Hi]; [by apply (Hxy _ Hfe)|by apply (Hd (final NULL_INDEX xs)); [left|]].
Qed.

Lemma split_ok l xs ys us : ll_base l (xs ++ ys) us -> split_facts xs ys us.
Proof. intros Hb. apply split_of; [apply (ll_nodup _ _ _ Hb)|]. intros i. apply (ll_in _ _ _ i Hb). Qed.

(** Redirecting the two ends of a split. *)
Lemma relink n n' xs ys us p q p' q' :
  split_facts xs ys us -> dl zeroT n NULL_INDEX xs q -> dl zeroT n p ys NULL_INDEX ->
  (forall j, j ∈ xs \/ j ∈ ys ->
     nextIndex (n'.[j]) = (if decide (final NULL_INDEX xs = j) then q' else nextIndex (n.[j])) /\
     prevIndex (n'.[j]) = (if decide (first NULL_INDEX ys = j) then p' else prevIndex (n.[j]))) ->
  dl zeroT n' NULL_INDEX xs q' /\ dl zeroT n' p' ys NULL_INDEX.
Proof.
  intros [Hxs Hys _ _ Hfi Hla] Hdx Hdy Hn. split.
  - apply (dl_retarget zeroT n n' _ xs q); [done| | |done]; intros i Hi;
      destruct (Hn i ltac:(by left)) as [Hj1 Hj2]; rewrite ?Hj1, ?Hj2.
    + by rewrite decide_False by (apply Hfi; by left).
    + by destruct (decide (final NULL_INDEX xs = i)), (decide (i = final NULL_INDEX xs)).
  - apply (dl_rehead zeroT n n' p); [done| | |done]; intros i Hi;
      destruct (Hn i ltac:(by right)) as [Hj1 Hj2]; rewrite ?Hj1, ?Hj2.
    + by rewrite decide_False by (apply Hla; by left).
    + by destruct (decide (first NULL_INDEX ys = i)), (decide (i = first NULL_INDEX ys)).
Qed.

(** *** Insertion of the allocated node [x] between [xs] and [ys] *)

(** The nodes after the insertion. *)
Definition inserted_nodes (n n' : list (Node T)) (xs ys : list Z) (x : Z) (v : T) : Prop :=
  alen n' = alen n /\
  forall j, 0 <= j < L ->
    value (n'.[j]) = (if decide (x = j) then v else value (n.[j])) /\
    nextIndex (n'.[j]) = (if decide (x = j) then first NULL_INDEX ys
      else if decide (final NULL_INDEX xs = j) then x else nextIndex (n.[j])) /\
    prevIndex (n'.[j]) = (if decide (x = j) then final NULL_INDEX xs
      else if decide (first NULL_INDEX ys = j) then x else prevIndex (n.[j])).

Lemma insert_links n n' xs ys x fs v :
  split_facts xs ys (x :: fs) -> x ∉ fs -> inserted_nodes n n' xs ys x v ->
  dl zeroT n NULL_INDEX (xs ++ ys) NULL_INDEX -> chain zeroT n fs ->
  dl zeroT n' NULL_INDEX (xs ++ x :: ys) NULL_INDEX /\ chain zeroT n' fs /\
  pairs n' (xs ++ x :: ys) = pairs n xs ++ (x, v) :: pairs n ys.
Proof.
  intros Hs Hxf [_ Hn] [Hdx Hdy]%dl_app Hc.
  assert (0 <= x < L) as Hx by (apply (sp_in _ _ _ Hs); do 2 right; by left).
  assert (forall j, j ∈ xs \/ j ∈ ys -> x <> j) as Hne.
  { intros j Hj ->. apply (sp_dis _ _ _ Hs j Hj). by left. }
  destruct (Hn x Hx) as (Hvx & Hnx & Hpx). rewrite decide_True in Hvx by done.
  rewrite decide_True in Hnx by done. rewrite decide_True in Hpx by done.
  destruct (relink n n' xs ys (x :: fs) (final NULL_INDEX xs) (first NULL_INDEX ys) x x) as [H1 H2]; [done..| |].
  { intros j Hj. destruct (Hn j) as (_ & Hj1 & Hj2); [apply (sp_in _ _ _ Hs); tauto|].
    rewrite decide_False in Hj1 by (by apply Hne). rewrite decide_False in Hj2 by (by apply Hne). done. }
  split; [apply dl_app; simpl; by split_and!|]. split.
  - apply (chain_frame zeroT n); [|done]. intros j Hj.
    destruct (Hn j) as (_ & -> & _); [apply (sp_in _ _ _ Hs); do 2 right; by right|].
    rewrite decide_False by (by intros ->).
    rewrite decide_False; [done|]. apply (sp_final _ _ _ Hs). right. by right.
  - unfold pairs. rewrite fmap_app, fmap_cons, Hvx.
    assert (forall j, j ∈ xs \/ j ∈ ys -> value (n'.[j]) = value (n.[j])) as Hv.
    { intros j Hj. destruct (Hn j) as (-> & _); [apply (sp_in _ _ _ Hs); tauto|].
      by rewrite decide_False by (by apply Hne). }
    f_equal; [|f_equal]; apply pairs_ext; auto.
Qed.

Lemma insert_ok l xs ys fs x v n' head tail :
  ll_base l (xs ++ ys) (x :: fs) -> chain zeroT (_nodes l) fs -> _freeHeadIndex l = first NULL_INDEX fs ->
  inserted_nodes (_nodes l) n' xs ys x v ->
  head = first x xs -> tail = final x ys ->
  let l' := mkLinkedList n' (bit_set (_occupiedFlags l) x) head tail (_freeHeadIndex l)
              (_nextUnusedIndex l) (u64 (_population l + 1)) in
  ll_ok l' (xs ++ x :: ys) fs /\
  pairs n' (xs ++ x :: ys) = pairs (_nodes l) xs ++ (x, v) :: pairs (_nodes l) ys.
Proof.
  intros Hb Hc Hf Hn Hhead Htail l'. pose proof (split_ok _ _ _ _ Hb) as Hs. pose proof L_bound as HL.
  assert (Permutation ((xs ++ ys) ++ x :: fs) ((xs ++ x :: ys) ++ fs)) as Hperm.
  { rewrite <- !app_assoc. simpl. apply Permutation_app_head. by rewrite <- Permutation_middle. }
  assert (x ∉ fs) as Hxf.
  { pose proof (ll_nodup _ _ _ Hb) as (_ & _ & [? _]%NoDup_cons)%NoDup_app. done. }
  assert (0 <= x < L) as Hx by (apply (sp_in _ _ _ Hs); do 2 right; by left).
  destruct (insert_links _ _ _ _ _ _ _ Hs Hxf Hn (ll_dl _ _ _ Hb) Hc) as (Hdl & Hch & Hpairs).
  split; [|done]. split; [split; simpl|done|done].
  - rewrite (proj1 Hn). apply (ll_len _ _ _ Hb).
  - unfold bit_set. by rewrite alen_aset, (ll_flen _ _ _ Hb).
  - rewrite <- Hperm. apply (ll_nodup _ _ _ Hb).
  - intros i. rewrite <- Hperm. apply (ll_range _ _ _ Hb).
  - apply (ll_unused _ _ _ Hb).
  - rewrite <- Hperm. apply (ll_count _ _ _ Hb).
  - intros i Hi. rewrite bit_set_get by (by apply (flag_word_ok _ _ _ _ Hb)).
    rewrite (ll_flags _ _ _ Hb) by done. rewrite <- bool_decide_or. apply bool_decide_ext.
    rewrite !elem_of_app, elem_of_cons. split; intros Hor; destruct_or!; subst; tauto.
  - done.
  - by rewrite Hhead, first_app.
  - by rewrite Htail, final_app.
  - rewrite (ll_pop _ _ _ Hb), u64_small; rewrite !length_app; simpl; [lia|].
    pose proof (ll_count _ _ _ Hb) as Hcnt. pose proof (ll_unused _ _ _ Hb).
    rewrite !length_app in Hcnt. simpl in Hcnt. unfold is_u64. lia.
Qed.

(** *** The inserting operations *)

Lemma ll_init l ds fs : ll_ok l ds fs -> _initIfNeeded l = l.
Proof.
  intros [Hb _ Hf]. unfold _initIfNeeded. destruct (Z.eqb_spec (_population l) 0) as [Hp|]; [|done].
  destruct (Z.eqb_spec (_nextUnusedIndex l) 0) as [Hu|]; [|done]. cbn [andb].
  pose proof (ll_pop _ _ _ Hb) as Hp'. pose proof (ll_count _ _ _ Hb) as Hc. rewrite length_app in Hc.
  destruct ds; [|simpl in Hp'; lia]. destruct fs; [|simpl in Hc; lia].
  pose proof (ll_head _ _ _ Hb). pose proof (ll_tail _ _ _ Hb). destruct l. simpl in *. by subst.
Qed.

Lemma init_idem l : _initIfNeeded (_initIfNeeded l) = _initIfNeeded l.
Proof.
  unfold _initIfNeeded.
  destruct ((_population l =? 0) && (_nextUnusedIndex l =? 0)) eqn:Hc; simpl; rewrite Hc; done.
Qed.

Lemma alloc_init l : _allocateNode zeroT lg l = _allocateNode zeroT lg (_initIfNeeded l).
Proof. unfold _allocateNode. by rewrite init_idem. Qed.

(** What the four inserting operations give: [r] is the new state and the index of the new
    node, which comes between [xs] and [ys]. *)
Definition inserts_between l0 (xs ys : list Z) (v : T) (r : LinkedList T * Z) : Prop :=
  if decide (Z.of_nat (length (xs ++ ys)) < L) then
    (r.2 ∉ xs ++ ys) /\ 0 <= r.2 < L /\
    (exists fs', ll_ok r.1 (xs ++ r.2 :: ys) fs') /\
    pairs (_nodes r.1) (xs ++ r.2 :: ys) = pairs (_nodes l0) xs ++ (r.2, v) :: pairs (_nodes l0) ys
  else r = (l0, NULL_INDEX).

Lemma between_ok l1 l0 xs ys fs' x v n' head tail :
  Z.of_nat (length (xs ++ ys)) < L ->
  ll_base l1 (xs ++ ys) (x :: fs') -> chain zeroT (_nodes l1) fs' ->
  _freeHeadIndex l1 = first NULL_INDEX fs' -> _nodes l1 = _nodes l0 ->
  inserted_nodes (_nodes l1) n' xs ys x v -> head = first x xs -> tail = final x ys ->
  inserts_between l0 xs ys v
    (mkLinkedList n' (bit_set (_occupiedFlags l1) x) head tail (_freeHeadIndex l1)
       (_nextUnusedIndex l1) (u64 (_population l1 + 1)), x).
Proof.
  intros Hlen Hb Hc Hf Hnodes Hn Hh Ht. unfold inserts_between. rewrite decide_True by done.
  destruct (insert_ok l1 xs ys fs' x v n' head tail) as [Hok Hp]; [done..|]. cbn [fst snd].
  rewrite Hnodes in Hp. split.
  { pose proof (ll_nodup _ _ _ Hb) as (_ & Hd & _)%NoDup_app. intros Hx. apply (Hd x Hx). by left. }
  split; [apply (ll_in _ _ _ x Hb), elem_of_app; right; by left|]. split; [by exists fs'|done].
Qed.

Ltac node_cases :=
  repeat match goal with
  | |- context [decide ?P] => destruct (decide P); try subst; try done; try congruence
  end.

Lemma addHead_ok l ds fs v :
  ll_ok (_initIfNeeded l) ds fs -> inserts_between (_initIfNeeded l) [] ds v (addHead zeroT lg l v).
Proof.
  intros Hok. unfold addHead. rewrite alloc_init. pose proof (alloc_ok _ _ _ Hok (init_idem l)) as Ha.
  destruct (_allocateNode zeroT lg (_initIfNeeded l)) as [l1 x]. case_decide as Hd.
  2:{ destruct Ha as [-> ->]. unfold inserts_between. by rewrite decide_False. }
  destruct Ha as (fs' & Hb & Hc & Hf & Hn). pose proof (split_ok l1 [] ds (x :: fs') Hb) as Hs.
  assert (0 <= x < alen (_nodes l1)) as Hx.
  { rewrite (ll_len _ _ _ Hb). apply (sp_in _ _ _ Hs). do 2 right. by left. }
  rewrite (proj2 (Z.eqb_neq x NULL_INDEX)) by (unfold NULL_INDEX; lia).
  rewrite (ll_head _ _ _ Hb). destruct ds as [|d ds]; cbn [first].
  - change (negb (NULL_INDEX =? NULL_INDEX)) with false. cbn iota.
    apply (between_ok l1 _ [] [] fs'); try done. split; [apply alen_init_node|].
    intros j Hj. destruct (init_node_get zeroT (_nodes l1) x v NULL_INDEX NULL_INDEX j Hx) as (-> & -> & ->).
    cbn [first final]. unfold NULL_INDEX in *. split_and!; node_cases; lia.
  - assert (0 <= d < L /\ x <> d) as [Hdr Hxd].
    { split; [apply (sp_in _ _ _ Hs); right; left; by left|].
      intros ->. apply (sp_dis _ _ _ Hs d); [right; by left|by left]. }
    rewrite (proj2 (Z.eqb_neq d NULL_INDEX)) by (unfold NULL_INDEX; lia). cbn [negb].
    apply (between_ok l1 _ [] (d :: ds) fs'); try done; [|apply (ll_tail _ _ _ Hb)].
    split; [by rewrite alen_with_prev, alen_init_node|]. intros j Hj.
    destruct (with_prev_get zeroT (init_node zeroT (_nodes l1) x v NULL_INDEX d) d) with (x := x) (j := j)
      as (-> & -> & ->); [rewrite alen_init_node, (ll_len _ _ _ Hb); lia|].
    destruct (init_node_get zeroT (_nodes l1) x v NULL_INDEX d j Hx) as (-> & -> & ->).
    cbn [first final]. unfold NULL_INDEX in *. split_and!; node_cases; lia.
Qed.

Lemma addTail_ok l ds fs v :
  ll_ok (_initIfNeeded l) ds fs -> inserts_between (_initIfNeeded l) ds [] v (addTail zeroT lg l v).
Proof.
  intros Hok. unfold addTail. rewrite alloc_init. pose proof (alloc_ok _ _ _ Hok (init_idem l)) as Ha.
  destruct (_allocateNode zeroT lg (_initIfNeeded l)) as [l1 x]. case_decide as Hd.
  2:{ destruct Ha as [-> ->]. unfold inserts_between. rewrite app_nil_r. by rewrite decide_False. }
  destruct Ha as (fs' & Hb & Hc & Hf & Hn). rewrite <- (app_nil_r ds) in Hb, Hd.
  pose proof (split_ok l1 ds [] (x :: fs') Hb) as Hs.
  assert (0 <= x < alen (_nodes l1)) as Hx.
  { rewrite (ll_len _ _ _ Hb). apply (sp_in _ _ _ Hs). do 2 right. by left. }
  rewrite (proj2 (Z.eqb_neq x NULL_INDEX)) by (unfold NULL_INDEX; lia).
  rewrite (ll_tail _ _ _ Hb), (ll_head _ _ _ Hb), app_nil_r.
  destruct (final_elem NULL_INDEX ds) as [-> |Hfe]; cbn [first final].
  - change (negb (NULL_INDEX =? NULL_INDEX)) with false. cbn iota.
    apply (between_ok l1 _ [] [] fs'); try done. split; [apply alen_init_node|].
    intros j Hj. destruct (init_node_get zeroT (_nodes l1) x v NULL_INDEX NULL_INDEX j Hx) as (-> & -> & ->).
    cbn [first final]. unfold NULL_INDEX in *. split_and!; node_cases; lia.
  - set (d := final NULL_INDEX ds) in *. assert (0 <= d < L /\ x <> d) as [Hdr Hxd].
    { split; [apply (sp_in _ _ _ Hs); by left|].
      intros Heq. apply (sp_dis _ _ _ Hs d); [by left|rewrite Heq; by left]. }
    rewrite (proj2 (Z.eqb_neq d NULL_INDEX)) by (unfold NULL_INDEX; lia). cbn [negb].
    apply (between_ok l1 _ ds [] fs'); try done;
      [|destruct ds; [by apply elem_of_nil in Hfe|done]].
    split; [by rewrite alen_with_next, alen_init_node|]. intros j Hj. fold d.
    destruct (with_next_get zeroT (init_node zeroT (_nodes l1) x v d NULL_INDEX) d) with (x := x) (j := j)
      as (-> & -> & ->); [rewrite alen_init_node, (ll_len _ _ _ Hb); lia|].
    destruct (init_node_get zeroT (_nodes l1) x v d NULL_INDEX j Hx) as (-> & -> & ->).
    cbn [first final]. unfold NULL_INDEX in *. split_and!; node_cases; lia.
Qed.

Lemma valid_spec l ds fs e :
  ll_ok (_initIfNeeded l) ds fs -> _isValidAndOccupied lg l e = bool_decide (e ∈ ds).
Proof.
  intros [Hb _ _]. unfold _isValidAndOccupied.
  assert (_occupiedFlags (_initIfNeeded l) = _occupiedFlags l) as Hfl
    by (unfold _initIfNeeded; by destruct (_ && _)).
  destruct (decide (0 <= e < L)) as [He|He].
  2:{ transitivity false; [destruct (Z.ltb_spec e 0), (Z.leb_spec L e); (done || lia)|].
      symmetry. apply bool_decide_eq_false. intros Hd. apply He, (ll_in _ _ _ e Hb), elem_of_app. by left. }
  rewrite (proj2 (Z.ltb_ge e 0)), (proj2 (Z.leb_gt L e)) by lia. cbn [orb].
  rewrite <- Hfl. by apply (ll_flags _ _ _ Hb).
Qed.

Lemma init_nonempty l ds fs : ll_ok (_initIfNeeded l) ds fs -> ds <> [] -> _initIfNeeded l = l.
Proof.
  intros [Hb _ _] Hne. pose proof (ll_pop _ _ _ Hb) as Hp. revert Hp. unfold _initIfNeeded.
  destruct (Z.eqb_spec (_population l) 0) as [H0|]; [|done]. destruct ds; [done|].
  destruct (_ =? 0); [|done]. simpl. lia.
Qed.

(** Links around an element. *)
Lemma links_at l xs e ys us :
  ll_base l (xs ++ e :: ys) us ->
  prevIndex ((_nodes l).[e]) = final NULL_INDEX xs /\ nextIndex ((_nodes l).[e]) = first NULL_INDEX ys.
Proof. intros Hb. pose proof (ll_dl _ _ _ Hb) as [_ (? & ? & _)]%dl_app. done. Qed.

Lemma not_last xs e ys us :
  split_facts (xs ++ [e]) ys us -> e <> final e ys -> exists y ys', ys = y :: ys'.
Proof. destruct ys as [|y ys']; [done|]. intros. by exists y, ys'. Qed.

Lemma insertAfter_ok l xs e ys fs v :
  ll_ok (_initIfNeeded l) (xs ++ e :: ys) fs ->
  inserts_between (_initIfNeeded l) (xs ++ [e]) ys v (insertAfter zeroT lg l e v).
Proof.
  intros Hok. pose proof (init_nonempty _ _ _ Hok ltac:(by destruct xs)) as Hi.
  unfold insertAfter. rewrite (valid_spec _ _ _ _ Hok).
  rewrite bool_decide_true by (apply elem_of_app; right; by left). cbn [negb].
  rewrite Hi in Hok. assert (_tailIndex l = final e ys) as Htl.
  { rewrite (ll_tail _ _ _ (ll_basic _ _ _ Hok)), final_app. done. }
  rewrite Htl. destruct (Z.eqb_spec e (final e ys)) as [Heq|Hne].
  - assert (ys = []) as ->.
    { destruct (final_elem e ys) as [?|Hfe]; [done|exfalso]. rewrite <- Heq in Hfe.
      pose proof (ll_nodup _ _ _ (ll_basic _ _ _ Hok)) as ((_ & _ & [Hn _]%NoDup_cons)%NoDup_app & _)%NoDup_app.
      done. }
    rewrite <- Hi in Hok. by apply (addTail_ok l (xs ++ [e]) fs).
  - rewrite Hi. pose proof (alloc_ok _ _ _ Hok Hi) as Ha.
    assert (xs ++ e :: ys = (xs ++ [e]) ++ ys) as Hds by (by rewrite <- app_assoc).
    destruct (_allocateNode zeroT lg l) as [l1 x]. rewrite Hds in Ha. case_decide as Hd.
    2:{ destruct Ha as [-> ->]. unfold inserts_between. by rewrite decide_False. }
    destruct Ha as (fs' & Hb & Hc & Hf & Hn). rewrite <- Hds in Hb.
    pose proof (links_at _ _ _ _ _ Hb) as [_ Hnx].
    pose proof (ll_head _ _ _ Hb) as Hhd. pose proof (ll_tail _ _ _ Hb) as Htl1. rewrite Hds in *.
    pose proof (split_ok l1 _ _ _ Hb) as Hs.
    assert (forall i, i = x \/ i ∈ xs ++ [e] \/ i ∈ ys -> 0 <= i < alen (_nodes l1)) as Hr.
    { intros i Hii. rewrite (ll_len _ _ _ Hb). apply (sp_in _ _ _ Hs).
      destruct Hii as [-> |?]; [do 2 right; by left|tauto]. }
    assert (e ∈ xs ++ [e]) as Hee by (apply elem_of_app; right; by left).
    assert (x <> e) as Hxe.
    { intros ->. apply (sp_dis _ _ _ Hs e); [by left|by left]. }
    destruct (not_last xs e ys _ Hs Hne) as (y & ys' & ->). cbn [first] in Hnx.
    assert (x <> y) as Hxy. { intros ->. apply (sp_dis _ _ _ Hs y); [right; by left|by left]. }
    assert (e <> y) as Hey. { intros Hq. by apply (sp_first _ _ _ Hs e); [left|]. }
    pose proof (Hr x ltac:(by left)). pose proof (Hr e ltac:(tauto)).
    pose proof (Hr y ltac:(right; right; by left)).
    rewrite (proj2 (Z.eqb_neq x NULL_INDEX)) by (unfold NULL_INDEX; lia).
    rewrite Hnx, (proj2 (Z.eqb_neq y NULL_INDEX)) by (unfold NULL_INDEX; lia). cbn [negb].
    apply (between_ok l1 l (xs ++ [e]) (y :: ys') fs' x v); try done.
    + split; [by rewrite alen_with_prev, alen_with_next, alen_init_node|]. intros j Hj.
      destruct (with_prev_get zeroT (with_next zeroT (init_node zeroT (_nodes l1) x v e y) e x) y)
        with (x := x) (j := j) as (-> & -> & ->); [by rewrite alen_with_next, alen_init_node|].
      destruct (with_next_get zeroT (init_node zeroT (_nodes l1) x v e y) e)
        with (x := x) (j := j) as (-> & -> & ->); [by rewrite alen_init_node|].
      destruct (init_node_get zeroT (_nodes l1) x v e y j) as (-> & -> & ->); [done|].
      rewrite final_app. cbn [first final]. split_and!; node_cases.
    + rewrite Hhd, !first_app. done.
    + rewrite Htl1, !final_app. done.
Qed.

Lemma insertBefore_ok l xs e ys fs v :
  ll_ok (_initIfNeeded l) (xs ++ e :: ys) fs ->
  inserts_between (_initIfNeeded l) xs (e :: ys) v (insertBefore zeroT lg l e v).
Proof.
  intros Hok. pose proof (init_nonempty _ _ _ Hok ltac:(by destruct xs)) as Hi.
  unfold insertBefore. rewrite (valid_spec _ _ _ _ Hok).
  rewrite bool_decide_true by (apply elem_of_app; right; by left). cbn [negb].
  rewrite Hi in Hok. assert (_headIndex l = first e xs) as Hhl.
  { rewrite (ll_head _ _ _ (ll_basic _ _ _ Hok)), first_app. done. }
  rewrite Hhl. destruct (Z.eqb_spec e (first e xs)) as [Heq|Hne].
  - assert (xs = []) as ->.
    { destruct (first_elem e xs) as [?|Hfe]; [done|exfalso]. rewrite <- Heq in Hfe.
      pose proof (ll_nodup _ _ _ (ll_basic _ _ _ Hok)) as ((_ & Hn & _)%NoDup_app & _)%NoDup_app.
      apply (Hn e Hfe). by left. }
    rewrite <- Hi in Hok. by apply (addHead_ok l (e :: ys) fs).
  - rewrite Hi. pose proof (alloc_ok _ _ _ Hok Hi) as Ha.
    destruct (_allocateNode zeroT lg l) as [l1 x]. case_decide as Hd.
    2:{ destruct Ha as [-> ->]. unfold inserts_between. by rewrite decide_False. }
    destruct Ha as (fs' & Hb & Hc & Hf & Hn). pose proof (links_at _ _ _ _ _ Hb) as [Hpx _].
    pose proof (ll_head _ _ _ Hb) as Hhd. pose proof (ll_tail _ _ _ Hb) as Htl1.
    pose proof (split_ok l1 _ _ _ Hb) as Hs.
    destruct (final_elem NULL_INDEX xs) as [-> |Hfe]; [done|]. set (p := final NULL_INDEX xs) in *.
    assert (forall i, i = x \/ i ∈ xs \/ i ∈ e :: ys -> 0 <= i < alen (_nodes l1)) as Hr.
    { intros i Hii. rewrite (ll_len _ _ _ Hb). apply (sp_in _ _ _ Hs).
      destruct Hii as [-> |?]; [do 2 right; by left|tauto]. }
    assert (x <> e) as Hxe. { intros ->. apply (sp_dis _ _ _ Hs e); [right; by left|by left]. }
    assert (x <> p) as Hxp. { intros Hq. apply (sp_dis _ _ _ Hs p); [by left|rewrite Hq; by left]. }
    assert (e <> p) as Hep. { intros Hq. by apply (sp_final _ _ _ Hs e); [left; left|]. }
    pose proof (Hr x ltac:(by left)). pose proof (Hr e ltac:(right; right; by left)).
    pose proof (Hr p ltac:(tauto)).
    rewrite (proj2 (Z.eqb_neq x NULL_INDEX)) by (unfold NULL_INDEX; lia).
    rewrite Hpx, (proj2 (Z.eqb_neq p NULL_INDEX)) by (unfold NULL_INDEX; lia). cbn [negb].
    apply (between_ok l1 l xs (e :: ys) fs' x v); try done.
    + split; [by rewrite alen_with_next, alen_with_prev, alen_init_node|]. intros j Hj.
      destruct (with_next_get zeroT (with_prev zeroT (init_node zeroT (_nodes l1) x v p e) e x) p)
        with (x := x) (j := j) as (-> & -> & ->); [by rewrite alen_with_prev, alen_init_node|].
      destruct (with_prev_get zeroT (init_node zeroT (_nodes l1) x v p e) e)
        with (x := x) (j := j) as (-> & -> & ->); [by rewrite alen_init_node|].
      destruct (init_node_get zeroT (_nodes l1) x v p e j) as (-> & -> & ->); [done|].
      fold p. cbn [first]. split_and!; node_cases.
    + rewrite Hhd, first_app. by destruct xs.
    + rewrite Htl1, final_app. done.
Qed.

(** *** Removal *)

Lemma removed_nodes n e p q free j :
  0 <= e < alen n -> (p = NULL_INDEX \/ 0 <= p < alen n) -> (q = NULL_INDEX \/ 0 <= q < alen n) ->
  e <> p -> e <> q -> 0 <= j ->
  let n1 := if negb (p =? NULL_INDEX) then with_next zeroT n p q else n in
  let n2 := if negb (q =? NULL_INDEX) then with_prev zeroT n1 q p else n1 in
  let n' := with_prev zeroT (with_next zeroT (with_value zeroT n2 e zeroT) e free) e NULL_INDEX in
  alen n' = alen n /\
  value (n'.[j]) = (if decide (e = j) then zeroT else value (n.[j])) /\
  nextIndex (n'.[j]) = (if decide (e = j) then free else if decide (p = j) then q else nextIndex (n.[j])) /\
  prevIndex (n'.[j]) = (if decide (e = j) then NULL_INDEX else if decide (q = j) then p else prevIndex (n.[j])).
Proof.
  intros He Hp Hq Hep Heq Hj n1 n2 n'.
  assert (alen n1 = alen n /\ value (n1.[j]) = value (n.[j]) /\ prevIndex (n1.[j]) = prevIndex (n.[j]) /\
    nextIndex (n1.[j]) = if decide (p = j) then q else nextIndex (n.[j])) as (Hl1 & Hv1 & Hp1 & Hn1).
  { unfold n1. destruct (Z.eqb_spec p NULL_INDEX) as [->|]; cbn [negb].
    - unfold NULL_INDEX. rewrite decide_False by lia. done.
    - destruct Hp as [?|Hp]; [done|]. destruct (with_next_get zeroT n p Hp q j) as (-> & -> & ->).
      by rewrite alen_with_next. }
  assert (alen n2 = alen n /\ value (n2.[j]) = value (n.[j]) /\ nextIndex (n2.[j]) = nextIndex (n1.[j]) /\
    prevIndex (n2.[j]) = if decide (q = j) then p else prevIndex (n.[j])) as (Hl2 & Hv2 & Hn2 & Hp2).
  { unfold n2. destruct (Z.eqb_spec q NULL_INDEX) as [->|]; cbn [negb].
    - unfold NULL_INDEX. rewrite decide_False by lia. done.
    - destruct Hq as [?|Hq]; [done|]. rewrite <- Hl1 in Hq.
      destruct (with_prev_get zeroT n1 q Hq p j) as (-> & -> & ->).
      by rewrite alen_with_prev, Hv1, Hp1. }
  unfold n'. split; [by rewrite alen_with_prev, alen_with_next, alen_with_value|].
  destruct (with_prev_get zeroT (with_next zeroT (with_value zeroT n2 e zeroT) e free) e)
    with (x := NULL_INDEX) (j := j) as (-> & -> & ->); [by rewrite alen_with_next, alen_with_value, Hl2|].
  destruct (with_next_get zeroT (with_value zeroT n2 e zeroT) e) with (x := free) (j := j)
    as (-> & -> & ->); [by rewrite alen_with_value, Hl2|].
  destruct (with_value_get zeroT n2 e) with (v := zeroT) (j := j) as (-> & -> & ->); [by rewrite Hl2|].
  by rewrite Hv2, Hn2, Hp2, Hn1.
Qed.

Lemma remove_eq l e :
  _isValidAndOccupied lg l e = true ->
  let p := prevIndex ((_nodes l).[e]) in
  let q := nextIndex ((_nodes l).[e]) in
  let n1 := if negb (p =? NULL_INDEX) then with_next zeroT (_nodes l) p q else _nodes l in
  let n2 := if negb (q =? NULL_INDEX) then with_prev zeroT n1 q p else n1 in
  remove zeroT lg l e =
    mkLinkedList (with_prev zeroT (with_next zeroT (with_value zeroT n2 e zeroT) e (_freeHeadIndex l)) e NULL_INDEX)
      (bit_clear (_occupiedFlags l) e)
      (if negb (p =? NULL_INDEX) then _headIndex l else q)
      (if negb (q =? NULL_INDEX) then _tailIndex l else p)
      e (_nextUnusedIndex l) (u64 (_population l - 1)).
Proof.
  intros Hv p q n1 n2. unfold remove. rewrite Hv. cbn [negb]. fold p q. unfold n2, n1.
  by destruct (p =? NULL_INDEX), (q =? NULL_INDEX).
Qed.

(** The ends of the list after a removal. *)
Lemma removal_ends xs e ys us :
  split_facts xs ys us ->
  (if negb (final NULL_INDEX xs =? NULL_INDEX) then first NULL_INDEX (xs ++ e :: ys)
   else first NULL_INDEX ys) = first NULL_INDEX (xs ++ ys) /\
  (if negb (first NULL_INDEX ys =? NULL_INDEX) then final NULL_INDEX (xs ++ e :: ys)
   else final NULL_INDEX xs) = final NULL_INDEX (xs ++ ys).
Proof.
  intros Hs. assert (forall i, i ∈ xs \/ i ∈ ys -> i <> NULL_INDEX) as HN.
  { intros i Hi ->. destruct (sp_in _ _ _ Hs NULL_INDEX) as [? _]; [tauto|]. unfold NULL_INDEX in *. lia. }
  rewrite !first_app, !final_app. cbn [first final]. split.
  - destruct (final_elem NULL_INDEX xs) as [-> |Hf]; [done|].
    rewrite (proj2 (Z.eqb_neq _ _)) by (apply HN; by left). cbn [negb]. by destruct xs; [apply elem_of_nil in Hf|].
  - destruct (first_elem NULL_INDEX ys) as [-> |Hf]; [done|].
    rewrite (proj2 (Z.eqb_neq _ _)) by (apply HN; by right). cbn [negb]. by destruct ys; [apply elem_of_nil in Hf|].
Qed.

Lemma ll_remove_ok l xs e ys fs :
  ll_ok (_initIfNeeded l) (xs ++ e :: ys) fs ->
  let l' := remove zeroT lg l e in
  ll_ok l' (xs ++ ys) (e :: fs) /\
  pairs (_nodes l') (xs ++ ys) = pairs (_nodes l) xs ++ pairs (_nodes l) ys.
Proof.
  intros Hok. pose proof (init_nonempty _ _ _ Hok ltac:(by destruct xs)) as Hi.
  pose proof (valid_spec _ _ _ e Hok) as Hv. rewrite bool_decide_true in Hv by (apply elem_of_app; right; by left).
  rewrite (remove_eq l e Hv). rewrite Hi in Hok. destruct Hok as [Hb Hc Hf].
  destruct (links_at _ _ _ _ _ Hb) as [-> ->].
  assert (Permutation ((xs ++ e :: ys) ++ fs) ((xs ++ ys) ++ e :: fs)) as Hperm.
  { rewrite <- !app_assoc. simpl. apply Permutation_app_head. by rewrite <- Permutation_middle. }
  assert (split_facts xs ys (e :: fs)) as Hs.
  { apply split_of; [rewrite <- Hperm; apply (ll_nodup _ _ _ Hb)|].
    intros i. rewrite <- Hperm. apply (ll_in _ _ _ i Hb). }
  rewrite (ll_head _ _ _ Hb), (ll_tail _ _ _ Hb). destruct (removal_ends xs e ys _ Hs) as [-> ->].
  assert (0 <= e < L) as He by (apply (sp_in _ _ _ Hs); do 2 right; by left).
  assert (e <> final NULL_INDEX xs) as Hep by (intros Heq; by apply (sp_final _ _ _ Hs e); [right; left|]).
  assert (e <> first NULL_INDEX ys) as Heq by (intros Heq; by apply (sp_first _ _ _ Hs e); [right; left|]).
  set (n' := with_prev _ _ e NULL_INDEX).
  assert (forall j, 0 <= j -> alen n' = L /\ value (n'.[j]) = (if decide (e = j) then zeroT else value ((_nodes l).[j])) /\
    nextIndex (n'.[j]) = (if decide (e = j) then _freeHeadIndex l else if decide (final NULL_INDEX xs = j)
      then first NULL_INDEX ys else nextIndex ((_nodes l).[j])) /\
    prevIndex (n'.[j]) = (if decide (e = j) then NULL_INDEX else if decide (first NULL_INDEX ys = j)
      then final NULL_INDEX xs else prevIndex ((_nodes l).[j]))) as Hn.
  { intros j Hj. rewrite <- (ll_len _ _ _ Hb) in *. apply removed_nodes; [done| | |done..].
    - destruct (final_elem NULL_INDEX xs) as [-> |?]; [by left|right]. rewrite (ll_len _ _ _ Hb).
      apply (sp_in _ _ _ Hs). by left.
    - destruct (first_elem NULL_INDEX ys) as [-> |?]; [by left|right]. rewrite (ll_len _ _ _ Hb).
      apply (sp_in _ _ _ Hs). tauto. }
  clearbody n'.
  assert (forall j, j ∈ xs \/ j ∈ ys -> 0 <= j /\ e <> j) as Hne.
  { intros j Hj. split; [apply (sp_in _ _ _ Hs); tauto|]. intros ->. apply (sp_dis _ _ _ Hs j Hj). by left. }
  assert (forall j, j ∈ xs \/ j ∈ ys -> value (n'.[j]) = value ((_nodes l).[j])) as Hval.
  { intros j Hj. destruct (Hne j Hj) as [? ?]. destruct (Hn j) as (_ & -> & _); [done|].
    by rewrite decide_False. }
  split; [|unfold pairs; rewrite fmap_app; f_equal; apply pairs_ext; auto].
  pose proof (ll_dl _ _ _ Hb) as [Hdx (_ & _ & Hdy)]%dl_app.
  split; [split; simpl|..].
  - apply (Hn 0). lia.
  - unfold bit_clear. by rewrite alen_aset, (ll_flen _ _ _ Hb).
  - rewrite <- Hperm. apply (ll_nodup _ _ _ Hb).
  - intros i. rewrite <- Hperm. apply (ll_range _ _ _ Hb).
  - apply (ll_unused _ _ _ Hb).
  - rewrite <- Hperm. apply (ll_count _ _ _ Hb).
  - intros i Hir. rewrite bit_clear_get by (by apply (flag_word_ok _ _ _ _ Hb)).
    rewrite (ll_flags _ _ _ Hb), <- bool_decide_not, <- bool_decide_and by done. apply bool_decide_ext.
    rewrite !elem_of_app, elem_of_cons. split.
    + intros [? Hor]. destruct_or!; subst; tauto.
    + intros Hor. destruct (Hne i Hor). tauto.
  - apply dl_app.
    apply (relink (_nodes l) n' xs ys (e :: fs) e e (final NULL_INDEX xs) (first NULL_INDEX ys)); [done..|].
    intros j Hj. destruct (Hne j Hj) as [? ?]. destruct (Hn j) as (_ & _ & H1 & H2); [done|].
    rewrite decide_False in H1 by done. rewrite decide_False in H2 by done. done.
  - done.
  - done.
  - rewrite (ll_pop _ _ _ Hb), u64_small; rewrite !length_app; simpl; [lia|].
    pose proof (ll_count _ _ _ Hb) as Hcnt. pose proof (ll_unused _ _ _ Hb). pose proof L_bound.
    rewrite !length_app in Hcnt. simpl in Hcnt. unfold is_u64. lia.
  - simpl. split.
    + destruct (Hn e) as (_ & _ & -> & _); [lia|]. by rewrite decide_True.
    + apply (chain_frame zeroT (_nodes l)); [|done]. intros i Hii.
      destruct (sp_in _ _ _ Hs i) as [? _]; [do 2 right; by right|].
      destruct (Hn i) as (_ & _ & -> & _); [done|].
      pose proof (ll_nodup _ _ _ Hb) as (_ & Hdis & _)%NoDup_app.
      rewrite decide_False by (intros ->; apply (Hdis i); [apply elem_of_app; right; by left|done]).
      rewrite decide_False; [done|]. apply (sp_final _ _ _ Hs). right. by right.
  - done.
Qed.

Lemma ll_replace_ok l xs e ys fs v :
  ll_ok (_initIfNeeded l) (xs ++ e :: ys) fs ->
  let r := replace zeroT lg l e v in
  r.2 = true /\ ll_ok r.1 (xs ++ e :: ys) fs /\
  pairs (_nodes r.1) (xs ++ e :: ys) = pairs (_nodes l) xs ++ (e, v) :: pairs (_nodes l) ys.
Proof.
  intros Hok. pose proof (init_nonempty _ _ _ Hok ltac:(by destruct xs)) as Hi.
  unfold replace. rewrite (valid_spec _ _ _ e Hok).
  rewrite bool_decide_true by (apply elem_of_app; right; by left). cbn [negb fst snd].
  rewrite Hi in Hok. destruct Hok as [Hb Hc Hf]. split; [done|].
  assert (0 <= e < alen (_nodes l)) as He.
  { rewrite (ll_len _ _ _ Hb). apply (ll_in _ _ _ e Hb), elem_of_app. left. apply elem_of_app. right. by left. }
  pose proof (with_value_get zeroT (_nodes l) e He v) as Hg.
  pose proof (ll_nodup _ _ _ Hb) as ((_ & Hxe & [Hey _]%NoDup_cons)%NoDup_app & _)%NoDup_app.
  split; [split; [split; simpl|..]|]; try (by destruct Hb); simpl.
  - by rewrite alen_with_value, (ll_len _ _ _ Hb).
  - pose proof (ll_dl _ _ _ Hb) as Hdl. revert Hdl.
    generalize NULL_INDEX at 1 3 as p. generalize (xs ++ e :: ys) as ds.
    induction ds as [|d ds IH]; intros p; simpl; [done|]. intros (H1 & H2 & H3).
    destruct (Hg d) as (_ & -> & ->). auto.
  - apply (chain_frame zeroT (_nodes l)); [|done]. intros i _. by destruct (Hg i) as (_ & -> & _).
  - unfold pairs. rewrite fmap_app, fmap_cons. destruct (Hg e) as (-> & _). rewrite decide_True by done.
    f_equal; [|f_equal]; apply pairs_ext; intros i Hii; destruct (Hg i) as (-> & _);
      rewrite decide_False; try done; intros ->; [|done]. apply (Hxe i Hii). by left.
Qed.

Lemma zeroed_ok h t f : ll_ok (_initIfNeeded (zeroed zeroT lg h t f)) [] [].
Proof.
  unfold _initIfNeeded, zeroed. simpl. pose proof L_bound. split; [|done|done]. split; simpl; try done.
  - rewrite alen_replicate. lia.
  - rewrite alen_replicate. rewrite Z2Nat.id; [done|]. apply Z.div_pos; lia.
  - by apply NoDup_nil.
  - intros i Hi. by apply elem_of_nil in Hi.
  - lia.
  - intros i Hi. rewrite ?bool_decide_false by (apply not_elem_of_nil). unfold bit_of.
    rewrite aget_replicate; [apply Z.testbit_0_l|].
    rewrite bit_word_eq, Z2Nat.id by (apply Z.div_pos; lia). Z.div_mod_to_equations. lia.
Qed.

(** ** Abstract list

    The abstract state is the list of (element index, value) pairs.  An insertion chooses a
    fresh index and fails exactly if the list holds [L] elements. *)

Inductive ll_op :=
  | Op_addHead (v : T) | Op_addTail (v : T) | Op_insertAfter (e : Z) (v : T)
  | Op_insertBefore (e : Z) (v : T) | Op_remove (e : Z) | Op_replace (e : Z) (v : T) | Op_reset.

(** Result of an operation: an index, or 0/1 for [replace]; 0 for [remove] and [reset]. *)
Definition ll_exec (o : ll_op) l : LinkedList T * Z :=
  match o with
  | Op_addHead v => addHead zeroT lg l v
  | Op_addTail v => addTail zeroT lg l v
  | Op_insertAfter e v => insertAfter zeroT lg l e v
  | Op_insertBefore e v => insertBefore zeroT lg l e v
  | Op_remove e => (remove zeroT lg l e, 0)
  | Op_replace e v => let r := replace zeroT lg l e v in (r.1, Z.b2z r.2)
  | Op_reset => (reset zeroT lg, 0)
  end.

(** The positions [xs | ys] at which an operation inserts [v]. *)
Inductive inserts_at : ll_op -> T -> list (Z * T) -> list (Z * T) -> Prop :=
  | At_head v xs : inserts_at (Op_addHead v) v [] xs
  | At_tail v xs : inserts_at (Op_addTail v) v xs []
  | At_after e w v xs ys : inserts_at (Op_insertAfter e v) v (xs ++ [(e, w)]) ys
  | At_before e w v xs ys : inserts_at (Op_insertBefore e v) v xs ((e, w) :: ys).

Inductive spec_step : ll_op -> list (Z * T) -> Z -> list (Z * T) -> Prop :=
  | S_insert o v xs ys x : inserts_at o v xs ys -> Z.of_nat (length (xs ++ ys)) < L ->
      x ∉ (xs ++ ys).*1 -> 0 <= x < L -> spec_step o (xs ++ ys) x (xs ++ (x, v) :: ys)
  | S_full o v xs ys : inserts_at o v xs ys -> L <= Z.of_nat (length (xs ++ ys)) ->
      spec_step o (xs ++ ys) NULL_INDEX (xs ++ ys)
  | S_after_invalid e v xs : e ∉ xs.*1 -> spec_step (Op_insertAfter e v) xs NULL_INDEX xs
  | S_before_invalid e v xs : e ∉ xs.*1 -> spec_step (Op_insertBefore e v) xs NULL_INDEX xs
  | S_remove e w xs ys : spec_step (Op_remove e) (xs ++ (e, w) :: ys) 0 (xs ++ ys)
  | S_remove_invalid e xs : e ∉ xs.*1 -> spec_step (Op_remove e) xs 0 xs
  | S_replace e v w xs ys : spec_step (Op_replace e v) (xs ++ (e, w) :: ys) 1 (xs ++ (e, v) :: ys)
  | S_replace_invalid e v xs : e ∉ xs.*1 -> spec_step (Op_replace e v) xs 0 xs
  | S_reset xs : spec_step Op_reset xs 0 [].

Inductive spec_run : list ll_op -> list (Z * T) -> list Z -> list (Z * T) -> Prop :=
  | Run_nil xs : spec_run [] xs [] xs
  | Run_cons o ops xs r xs' rs xs'' :
      spec_step o xs r xs' -> spec_run ops xs' rs xs'' -> spec_run (o :: ops) xs (r :: rs) xs''.

Fixpoint ll_run (ops : list ll_op) l : LinkedList T * list Z :=
  match ops with
  | [] => (l, [])
  | o :: ops' => let r := ll_exec o l in let rs := ll_run ops' r.1 in (rs.1, r.2 :: rs.2)
  end.

(** The list object represents the abstract list. *)
Definition represents l (xs : list (Z * T)) : Prop :=
  exists ds fs, ll_ok (_initIfNeeded l) ds fs /\ xs = pairs (_nodes l) ds.

Lemma init_nodes l : _nodes (_initIfNeeded l) = _nodes l.
Proof. unfold _initIfNeeded. by destruct (_ && _). Qed.

Lemma represents_ok l ds fs : ll_ok l ds fs -> represents l (pairs (_nodes l) ds).
Proof. intros Hok. exists ds, fs. by rewrite (ll_init _ _ _ Hok). Qed.

Lemma insert_refines o l xs ys v r :
  inserts_at o v (pairs (_nodes l) xs) (pairs (_nodes l) ys) ->
  (exists fs, ll_ok (_initIfNeeded l) (xs ++ ys) fs) ->
  inserts_between (_initIfNeeded l) xs ys v r ->
  exists xs', spec_step o (pairs (_nodes l) (xs ++ ys)) r.2 xs' /\ represents r.1 xs'.
Proof.
  intros Hat [fs Hok] Hins. unfold inserts_between in Hins. rewrite init_nodes in Hins.
  assert (pairs (_nodes l) (xs ++ ys) = pairs (_nodes l) xs ++ pairs (_nodes l) ys) as Hpp
    by (unfold pairs; apply fmap_app).
  assert (length (pairs (_nodes l) xs ++ pairs (_nodes l) ys) = length (xs ++ ys)) as Hlen
    by (rewrite <- Hpp; unfold pairs; apply length_fmap).
  rewrite Hpp. case_decide as Hd.
  - destruct Hins as (Hnew & Hr & [fs' Hok'] & Hp). exists (pairs (_nodes l) xs ++ (r.2, v) :: pairs (_nodes l) ys).
    split; [|rewrite <- Hp; by apply (represents_ok _ _ fs')].
    apply S_insert; [done|by rewrite Hlen| |done]. rewrite <- Hpp, pairs_fst. done.
  - subst r. cbn [fst snd]. eexists. split; [by eapply S_full; [|rewrite Hlen; lia]|].
    rewrite <- Hpp. exists (xs ++ ys), fs. by rewrite init_idem, init_nodes.
Qed.

Lemma elem_split (ds : list Z) e :
  e ∈ ds -> exists xs ys, ds = xs ++ e :: ys.
Proof. intros (xs & ys & ->)%list_elem_of_split. by exists xs, ys. Qed.

Lemma pairs_split n xs e ys :
  pairs n (xs ++ e :: ys) = pairs n xs ++ (e, value (n.[e])) :: pairs n ys.
Proof. unfold pairs. by rewrite fmap_app, fmap_cons. Qed.

Lemma ll_step_refines o l xs :
  represents l xs ->
  exists xs', spec_step o xs (ll_exec o l).2 xs' /\ represents (ll_exec o l).1 xs'.
Proof.
  intros (ds & fs & Hok & ->). set (n := _nodes l).
  assert (forall e, e ∉ ds -> e ∉ (pairs n ds).*1) as Hno by (intros e He; by rewrite pairs_fst).
  assert (represents l (pairs n ds)) as Hsame by (by exists ds, fs).
  assert (forall e, e ∉ ds -> _isValidAndOccupied lg l e = false) as Hinv.
  { intros e He. rewrite (valid_spec _ _ _ e Hok). by apply bool_decide_eq_false. }
  destruct o as [v|v|e v|e v|e|e v|]; cbn [ll_exec].
  - apply (insert_refines _ l [] ds v); [apply At_head|by exists fs|by apply (addHead_ok _ _ fs)].
  - replace (pairs n ds) with (pairs n (ds ++ [])) by (by rewrite app_nil_r).
    apply (insert_refines _ l ds [] v); [apply At_tail|exists fs; by rewrite app_nil_r|by apply (addTail_ok _ _ fs)].
  - destruct (decide (e ∈ ds)) as [He|He].
    + destruct (elem_split ds e He) as (xs & ys & ->).
      replace (xs ++ e :: ys) with ((xs ++ [e]) ++ ys) by (by rewrite <- app_assoc).
      apply (insert_refines _ l _ ys v).
      * unfold pairs at 1. rewrite fmap_app. apply (At_after e).
      * exists fs. by rewrite <- app_assoc.
      * by apply (insertAfter_ok _ _ _ _ fs).
    + unfold insertAfter. rewrite Hinv by done. eexists. split; [apply S_after_invalid; auto|done].
  - destruct (decide (e ∈ ds)) as [He|He].
    + destruct (elem_split ds e He) as (xs & ys & ->).
      apply (insert_refines _ l xs (e :: ys) v);
        [apply (At_before e)|by exists fs|by apply (insertBefore_ok _ _ _ _ fs)].
    + unfold insertBefore. rewrite Hinv by done. eexists. split; [apply S_before_invalid; auto|done].
  - cbn [fst snd]. destruct (decide (e ∈ ds)) as [He|He].
    + destruct (elem_split ds e He) as (xs & ys & ->).
      destruct (ll_remove_ok l xs e ys fs Hok) as [Hok' Hp]. rewrite pairs_split.
      eexists. split; [apply S_remove|]. fold n in Hp. rewrite <- Hp. by apply (represents_ok _ _ (e :: fs)).
    + unfold remove. rewrite Hinv by done. eexists. split; [apply S_remove_invalid; auto|done].
  - cbn [fst snd]. destruct (decide (e ∈ ds)) as [He|He].
    + destruct (elem_split ds e He) as (xs & ys & ->).
      destruct (ll_replace_ok l xs e ys fs v Hok) as (-> & Hok' & Hp). rewrite pairs_split.
      eexists. split; [apply S_replace|]. fold n in Hp. rewrite <- Hp. by apply (represents_ok _ _ fs).
    + unfold replace. rewrite Hinv by done. eexists. split; [apply S_replace_invalid; auto|done].
  - eexists. split; [apply S_reset|]. exists [], []. split; [apply zeroed_ok|done].
Qed.

Lemma ll_run_refines ops l xs :
  represents l xs ->
  exists xs', spec_run ops xs (ll_run ops l).2 xs' /\ represents (ll_run ops l).1 xs'.
Proof.
  revert l xs. induction ops as [|o ops IH]; intros l xs Hr; cbn [ll_run fst snd].
  - exists xs. split; [constructor|done].
  - destruct (ll_step_refines o l xs Hr) as (xs' & Hs & Hr').
    destruct (IH _ _ Hr') as (xs'' & Hs' & Hr''). exists xs''. split; [by econstructor|done].
Qed.

(** LinkedList is a list.  Started on a zero-initialised object (whatever its sentinels) or
    on a reset one, every sequence of operations returns what the abstract list returns for
    some choice of fresh indices, and the object still represents the abstract list. *)
Theorem linkedlist_refines_list ops h t f :
  exists xs, spec_run ops [] (ll_run ops (zeroed zeroT lg h t f)).2 xs /\
             represents (ll_run ops (zeroed zeroT lg h t f)).1 xs.
Proof. apply ll_run_refines. exists [], []. split; [apply zeroed_ok|done]. Qed.

(** The queries of a LinkedList that represents [xs] read it off: population, both ends,
    occupation of a slot, and for each element its value and its neighbours. *)
Theorem linkedlist_queries l xs :
  represents l xs ->
  population l = Z.of_nat (length xs) /\
  headIndex l = first NULL_INDEX xs.*1 /\ tailIndex l = final NULL_INDEX xs.*1 /\
  (forall e, isEmptySlot lg l e = bool_decide (e ∉ xs.*1)) /\
  (forall e, e ∉ xs.*1 -> nextElementIndex zeroT lg l e = NULL_INDEX /\ prevElementIndex zeroT lg l e = NULL_INDEX) /\
  (forall pre e v post, xs = pre ++ (e, v) :: post ->
     element zeroT lg l e = v /\ nextElementIndex zeroT lg l e = first NULL_INDEX post.*1 /\
     prevElementIndex zeroT lg l e = final NULL_INDEX pre.*1).
Proof.
  intros (ds & fs & Hok & ->). pose proof (ll_basic _ _ _ Hok) as Hb. rewrite !pairs_fst.
  assert (_population (_initIfNeeded l) = _population l) as Hpop by (unfold _initIfNeeded; by destruct (_ && _)).
  pose proof (ll_pop _ _ _ Hb) as Hp. rewrite Hpop in Hp.
  assert (ds = [] \/ ds <> [] /\ _initIfNeeded l = l /\ _population l <> 0) as Hcase.
  { destruct ds as [|d ds]; [by left|right]. split; [done|]. split; [by apply (init_nonempty _ _ _ Hok)|].
    rewrite Hp. simpl. lia. }
  split; [unfold population, pairs; by rewrite length_fmap|].
  split; [|split]; [unfold headIndex|unfold tailIndex|].
  - destruct Hcase as [-> |(_ & Hi & Hne)]; [by rewrite Hp|]. rewrite (proj2 (Z.eqb_neq _ _) Hne).
    rewrite <- Hi. apply (ll_head _ _ _ Hb).
  - destruct Hcase as [-> |(_ & Hi & Hne)]; [by rewrite Hp|]. rewrite (proj2 (Z.eqb_neq _ _) Hne).
    rewrite <- Hi. apply (ll_tail _ _ _ Hb).
  - assert (forall e, _isValidAndOccupied lg l e = bool_decide (e ∈ ds)) as Hv by (intros; by apply (valid_spec _ _ fs)).
    split; [|split].
    + intros e. unfold isEmptySlot. rewrite Hv. by rewrite bool_decide_not.
    + intros e He. unfold nextElementIndex, prevElementIndex. rewrite Hv.
      by rewrite bool_decide_false.
    + intros pre e v post Heq. unfold nextElementIndex, prevElementIndex, element. rewrite Hv.
      unfold pairs in Heq. apply fmap_app_inv in Heq as (xs & ys0 & -> & Heq & ->).
      symmetry in Heq. apply fmap_cons_inv in Heq as (e' & ys & [= -> ->] & -> & ->).
      rewrite bool_decide_true by (apply elem_of_app; right; by left). cbn [negb].
      destruct Hcase as [Hn|(_ & Hi & _)]; [by destruct xs|]. rewrite Hi in Hb.
      destruct (links_at _ _ _ _ _ Hb) as [-> ->].
      change ((fun i => (i, value ((_nodes l).[i]))) <$> ?z) with (pairs (_nodes l) z).
      rewrite !pairs_fst. split; [|done].
      rewrite Array.land_index; [done|]. apply (ll_in _ _ _ e' Hb), elem_of_app. left.
      apply elem_of_app. right. by left.
Qed.
End Invariant.

Definition ex_ll_ops : list (@ll_op Z) :=
  [Op_addTail 10; Op_addHead 20; Op_insertAfter 1 30; Op_remove 0; Op_insertBefore 2 40; Op_addTail 50;
   Op_addTail 60; Op_replace 2 33].

Lemma linkedlist_refines_list_witness :
  (ll_run 0 2 ex_ll_ops (zeroed 0 2 0 0 0)).2 = [0; 1; 2; 0; 0; 3; -1; 1] /\
  exists xs, spec_run 2 ex_ll_ops [] [0; 1; 2; 0; 0; 3; -1; 1] xs.
Proof.
  assert ((ll_run 0 2 ex_ll_ops (zeroed 0 2 0 0 0)).2 = [0; 1; 2; 0; 0; 3; -1; 1]) as He
    by (vm_compute; reflexivity).
  split; [exact He|]. destruct (linkedlist_refines_list 0 2 ltac:(lia) ex_ll_ops 0 0 0) as (xs & Hs & _).
  rewrite He in Hs. exists xs. exact Hs.
Defined.

Lemma linkedlist_queries_witness :
  exists l : LinkedList Z, represents 0 2 l [] /\ headIndex l = NULL_INDEX.
Proof.
  exists (zeroed 0 2 7 7 7).
  assert (represents 0 2 (zeroed 0 2 7 7 7) []) as Hr
    by (exists [], []; split; [apply zeroed_ok; lia|reflexivity]).
  split; [exact Hr|]. destruct (linkedlist_queries 0 2 ltac:(lia) _ _ Hr) as (_ & H & _). exact H.
Defined.
