(* ===== verification/Sorting.v ===== *)
(** * Sorting and heaps (lib/platform_common/sorting.h)

    [quickSort] with Lomuto partitioning and the binary [MinHeap], over a type with a
    comparison that is a strict weak order. *)
From S2P Require Import Prelude.

(** What the code needs of [operator<] (or of [Compare]). *)
Class StrictWeakOrder {T : Type} (lt : T -> T -> bool) : Prop := {
  lt_asym : forall x y, lt x y = true -> lt y x = false;
  lt_negtrans : forall x y z, lt x y = false -> lt y z = false -> lt x z = false }.

#[export] Instance Z_ltb_order : StrictWeakOrder Z.ltb.
Proof. split; intros; lia. Qed.

Inductive SortingOrder := SortAscending | SortDescending.

(** ** Definitions *)
Section QuickSort.
Context {T : Type} `{!Inhabited T}.
Variable lt : T -> T -> bool.

Definition swap (a : list T) (i j : Z) : list T :=
  let tmp := a.[j] in (a.[j := a.[i]]).[i := tmp].

Definition shouldGoBefore (order : SortingOrder) (x pivot : T) : bool :=
  match order with
  | SortAscending => lt x pivot
  | SortDescending => negb (lt x pivot)
  end.

(** The loop state is the array and [nextIndex]. *)
Definition partition (range : list T) (first last : Z) (order : SortingOrder) : list T * Z :=
  let pivot := range.[last] in
  let '(range, nextIndex) :=
    for_loop (Z.to_nat (last - first)) first
      (fun i '(range, nextIndex) =>
         if shouldGoBefore order (range.[i]) pivot then (swap range nextIndex i, nextIndex + 1)
         else (range, nextIndex)) (range, first) in
  (swap range nextIndex last, nextIndex).

(** [fuel] bounds the recursion depth. *)
Fixpoint quickSort_fuel (fuel : nat) (range : list T) (first last : Z) (order : SortingOrder) : list T :=
  match fuel with
  | O => range
  | S fuel' =>
      if last <=? first then range
      else
        let '(range, pivot) := partition range first last order in
        let range := quickSort_fuel fuel' range first (pivot - 1) order in
        quickSort_fuel fuel' range (pivot + 1) last order
  end.

Definition quickSort (range : list T) (first last : Z) (order : SortingOrder) : list T :=
  quickSort_fuel (Z.to_nat (last - first + 1)) range first last order.
End QuickSort.

(** *** MinHeap: [_data] and [_size] *)
Section MinHeap.
Context {T : Type} `{!Inhabited T}.
Variable _compare : T -> T -> bool.
Variable Capacity : Z.

Record MinHeap := mkHeap { _data : list T; _size : Z }.

Definition init (h : MinHeap) : MinHeap := mkHeap (_data h) 0.

Fixpoint upHeap (fuel : nat) (d : list T) (idx : Z) : list T * Z :=
  match fuel with
  | O => (d, idx)
  | S fuel' =>
      if idx =? 0 then (d, idx)
      else
        let parentIdx := (idx - 1) / 2 in
        if _compare (d.[idx]) (d.[parentIdx]) then upHeap fuel' (swap d idx parentIdx) parentIdx
        else (d, idx)
  end.

Fixpoint downHeap (fuel : nat) (d : list T) (size idx : Z) : list T :=
  match fuel with
  | O => d
  | S fuel' =>
      let childIdx1 := idx * 2 + 1 in
      let childIdx2 := childIdx1 + 1 in
      if size <=? childIdx1 then d
      else
        let minChildIdx :=
          if (childIdx2 <? size) && _compare (d.[childIdx2]) (d.[childIdx1]) then childIdx2 else childIdx1 in
        if _compare (d.[minChildIdx]) (d.[idx]) then downHeap fuel' (swap d idx minChildIdx) size minChildIdx
        else d
  end.

(** Both loops move to a strictly smaller (larger) index, so [Capacity] rounds are enough. *)
Definition fuel : nat := S (Z.to_nat Capacity).

Definition insert (h : MinHeap) (newElement : T) : MinHeap * bool :=
  if Capacity <=? _size h then (h, false)
  else
    let newIndex := _size h in
    (mkHeap (upHeap fuel ((_data h).[newIndex := newElement]) newIndex).1 (u32 (_size h + 1)), true).

Definition peek (h : MinHeap) : option T := if _size h =? 0 then None else Some ((_data h).[0]).

Definition drop (h : MinHeap) : MinHeap * bool :=
  if _size h =? 0 then (h, false)
  else
    let size := _size h - 1 in
    (mkHeap (downHeap fuel ((_data h).[0 := (_data h).[size]]) size 0) size, true).

Definition extract (h : MinHeap) : MinHeap * option T :=
  match peek h with
  | None => (h, None)
  | Some x => ((drop h).1, Some x)
  end.

Definition replace (h : MinHeap) (newElement : T) : MinHeap * option T :=
  if _size h =? 0 then (h, None)
  else
    (mkHeap (downHeap fuel ((_data h).[0 := newElement]) (_size h) 0) (_size h), Some ((_data h).[0])).

(** Search loop: the first index below [_size] whose element matches, else [_size]. *)
Fixpoint find_match (eqb : T -> T -> bool) (n : nat) (i : Z) (h : MinHeap) (x : T) : Z :=
  match n with
  | O => i
  | S n' => if eqb ((_data h).[i]) x then i else find_match eqb n' (i + 1) h x
  end.

Definition removeFirstMatch (eqb : T -> T -> bool) (h : MinHeap) (elementToRemove : T) : MinHeap * bool :=
  let i := find_match eqb (Z.to_nat (_size h)) 0 h elementToRemove in
  if i =? _size h then (h, false)
  else
    let size := _size h - 1 in
    if i <? size then
      let '(d, i) := upHeap fuel ((_data h).[i := (_data h).[size]]) i in
      (mkHeap (downHeap fuel d size i) size, true)
    else (mkHeap (_data h) size, true).
End MinHeap.
Arguments MinHeap T : clear implicits.

(** ** Rearrangements of a part of an array *)
Section Reorder.
Context {T : Type} `{!Inhabited T}.
Implicit Types a b c : list T.

(** [b] is [a] with the elements of [[f, l]] rearranged. *)
Record reorder a b (f l : Z) : Prop := {
  re_len : alen b = alen a;
  re_perm : Permutation a b;
  re_out : forall i, ~ (f <= i <= l) -> b.[i] = a.[i];
  re_in : forall i, f <= i <= l -> exists j, f <= j <= l /\ b.[i] = a.[j] }.

Lemma reorder_refl a f l : reorder a a f l.
Proof. split; try done. intros i Hi. by exists i. Qed.

Lemma reorder_trans a b c f l : reorder a b f l -> reorder b c f l -> reorder a c f l.
Proof.
  intros [L1 P1 O1 I1] [L2 P2 O2 I2]. split.
  - congruence.
  - by trans b.
  - intros i Hi. rewrite O2, O1; done.
  - intros i Hi. destruct (I2 i Hi) as (j & Hj & ->). apply (I1 j Hj).
Qed.

Lemma reorder_wider a b f l f' l' : f' <= f -> l <= l' -> reorder a b f l -> reorder a b f' l'.
Proof.
  intros Hf Hl [L P O I]. split; try done.
  - intros i Hi. apply O. lia.
  - intros i Hi. destruct (decide (f <= i <= l)) as [Hd|Hd].
    + destruct (I i Hd) as (j & Hj & ->). exists j. split; [lia|done].
    + exists i. split; [done|]. by apply O.
Qed.

Lemma alen_swap a i j : alen (swap a i j) = alen a.
Proof. unfold swap. by rewrite !alen_aset. Qed.

Lemma swap_get a i j k :
  0 <= i < alen a -> 0 <= j < alen a ->
  (swap a i j).[k] = if decide (k = i) then a.[j] else if decide (k = j) then a.[i] else a.[k].
Proof.
  intros Hi Hj. unfold swap. rewrite aget_aset, alen_aset.
  destruct (decide (k = i)) as [->|]; [by rewrite decide_True|]. rewrite decide_False by lia.
  rewrite aget_aset. destruct (decide (k = j)) as [->|]; [by rewrite decide_True|].
  by rewrite decide_False by lia.
Qed.

Lemma swap_perm a i j : 0 <= i < alen a -> 0 <= j < alen a -> Permutation a (swap a i j).
Proof.
  intros Hi Hj. apply Permutation_inj. pose proof (alen_swap a i j) as Hl. unfold alen in *.
  split; [lia|].
  exists (fun k => if decide (k = Z.to_nat i) then Z.to_nat j else if decide (k = Z.to_nat j) then Z.to_nat i else k).
  split.
  - intros x y. repeat case_decide; lia.
  - intros k. destruct (decide (k < length a)%nat) as [Hk|Hk].
    2:{ rewrite lookup_ge_None_2 by lia. rewrite decide_False, decide_False by lia.
        by rewrite lookup_ge_None_2 by lia. }
    set (f := if decide (k = Z.to_nat i) then _ else _).
    assert (f < length a)%nat by (unfold f; repeat case_decide; lia).
    rewrite !list_lookup_lookup_total_lt by lia. f_equal.
    assert (forall (l : list T) m, l !!! m = l.[Z.of_nat m]) as Hg
      by (intros; rewrite aget_nonneg by lia; by rewrite Nat2Z.id).
    rewrite !Hg, swap_get by (unfold alen; lia). unfold f. repeat case_decide; f_equal; lia.
Qed.

Lemma swap_reorder a i j f l :
  0 <= i < alen a -> 0 <= j < alen a -> f <= i <= l -> f <= j <= l -> reorder a (swap a i j) f l.
Proof.
  intros Hi Hj Hfi Hfj. split.
  - apply alen_swap.
  - by apply swap_perm.
  - intros k Hk. rewrite swap_get, !decide_False by lia. done.
  - intros k Hk. rewrite swap_get by done. repeat case_decide; eexists; (split; [|reflexivity]); lia.
Qed.
End Reorder.

(** ** quickSort *)
Section QuickSortProof.
Context {T : Type} `{!Inhabited T}.
Variable lt : T -> T -> bool.
Context `{!StrictWeakOrder lt}.
Implicit Types a b : list T.

(** [x] may stand before [y]. *)
Definition in_order (order : SortingOrder) (x y : T) : Prop :=
  match order with SortAscending => lt y x = false | SortDescending => lt x y = false end.

Lemma in_order_trans order x y z : in_order order x y -> in_order order y z -> in_order order x z.
Proof. destruct order; simpl; intros; by eapply lt_negtrans. Qed.

Lemma before_in_order order x p : shouldGoBefore lt order x p = true -> in_order order x p.
Proof. destruct order; simpl; [apply lt_asym|apply negb_true_iff]. Qed.

Lemma after_in_order order x p : shouldGoBefore lt order x p = false -> in_order order p x.
Proof. destruct order; simpl; [done|]. intros ?%negb_false_iff. by apply lt_asym. Qed.

Lemma partition_ok a f l order :
  0 <= f < l -> l < alen a ->
  let '(b, p) := partition lt a f l order in
  reorder a b f l /\ f <= p <= l /\
  (forall i, f <= i < p -> in_order order (b.[i]) (b.[p])) /\
  (forall i, p < i <= l -> in_order order (b.[p]) (b.[i])).
Proof.
  intros Hf Hl. unfold partition. set (pivot := a.[l]).
  set (body := fun i '(range, nextIndex) => if shouldGoBefore lt order (range.[i]) pivot
                 then (swap range nextIndex i, nextIndex + 1) else (range, nextIndex)).
  pose proof (for_loop_ind (fun i '(b, p) => reorder a b f (l - 1) /\ f <= p <= i /\
    (forall j, f <= j < p -> shouldGoBefore lt order (b.[j]) pivot = true) /\
    (forall j, p <= j < i -> shouldGoBefore lt order (b.[j]) pivot = false))
    body (Z.to_nat (l - f)) f (a, f)) as Hloop.
  replace (f + Z.of_nat (Z.to_nat (l - f))) with l in Hloop by lia.
  destruct (for_loop _ f body (a, f)) as [b p]. destruct Hloop as (Hre & Hp & Hbef & Haft).
  { split; [apply reorder_refl|]. split; [lia|]. split; intros; lia. }
  { intros i [b' p'] Hi (Hre & Hp & Hbef & Haft). unfold body. pose proof (re_len _ _ _ _ Hre).
    destruct (shouldGoBefore lt order (b'.[i]) pivot) eqn:Hs.
    - split; [eapply reorder_trans; [exact Hre|apply swap_reorder; lia]|]. split; [lia|]. split; intros j Hj.
      + rewrite swap_get by lia. case_decide; [done|]. rewrite decide_False by lia. apply Hbef. lia.
      + rewrite swap_get by lia. rewrite decide_False by lia. case_decide; [|apply Haft; lia].
        subst. apply Haft. lia.
    - split; [done|]. split; [lia|]. split; [done|]. intros j Hj.
      destruct (decide (j = i)) as [->|]; [done|]. apply Haft. lia. }
  pose proof (re_len _ _ _ _ Hre) as Hlen.
  assert (b.[l] = pivot) as Hpl by (apply (re_out _ _ _ _ Hre); lia).
  assert ((swap b p l).[p] = pivot) as Hpp by (rewrite swap_get by lia; by rewrite decide_True).
  split; [eapply reorder_trans; [eapply (reorder_wider _ _ f (l - 1)); [lia|lia|exact Hre]|apply swap_reorder; lia]|].
  split; [lia|]. rewrite Hpp. split; intros i Hi; rewrite swap_get by lia.
  - rewrite !decide_False by lia. apply before_in_order, Hbef. lia.
  - rewrite decide_False by lia. case_decide; apply after_in_order, Haft; lia.
Qed.

Lemma quickSort_fuel_ok n a f l order :
  0 <= f -> l < alen a -> l - f + 1 <= Z.of_nat n ->
  let b := quickSort_fuel lt n a f l order in
  reorder a b f l /\ forall i j, f <= i -> i < j -> j <= l -> in_order order (b.[i]) (b.[j]).
Proof.
  revert a f l. induction n as [|n IH]; intros a f l Hf Hl Hn; cbn [quickSort_fuel].
  { split; [apply reorder_refl|]. intros; lia. }
  destruct (Z.leb_spec l f) as [Hle|Hlt]; [split; [apply reorder_refl|intros; lia]|].
  pose proof (partition_ok a f l order ltac:(lia) Hl) as Hpart.
  destruct (partition lt a f l order) as [b p]. destruct Hpart as (Hre & Hp & Hbef & Haft).
  pose proof (re_len _ _ _ _ Hre) as Hlb.
  destruct (IH b f (p - 1) Hf ltac:(lia) ltac:(lia)) as [Hre1 Hs1].
  set (c := quickSort_fuel lt n b f (p - 1) order) in *. pose proof (re_len _ _ _ _ Hre1) as Hlc.
  destruct (IH c (p + 1) l ltac:(lia) ltac:(lia) ltac:(lia)) as [Hre2 Hs2].
  set (d := quickSort_fuel lt n c (p + 1) l order) in *.
  assert (forall i, f <= i < p -> d.[i] = c.[i]) as Hleft by (intros; apply (re_out _ _ _ _ Hre2); lia).
  assert (d.[p] = b.[p]) as Hmid.
  { rewrite (re_out _ _ _ _ Hre2) by lia. apply (re_out _ _ _ _ Hre1). lia. }
  assert (forall i, f <= i < p -> in_order order (d.[i]) (b.[p])) as H1.
  { intros i Hi. rewrite Hleft by done. destruct (re_in _ _ _ _ Hre1 i) as (j & Hj & ->); [lia|].
    apply Hbef. lia. }
  assert (forall i, p < i <= l -> in_order order (b.[p]) (d.[i])) as H2.
  { intros i Hi. destruct (re_in _ _ _ _ Hre2 i) as (j & Hj & ->); [lia|].
    rewrite (re_out _ _ _ _ Hre1) by lia. apply Haft. lia. }
  split.
  - eapply reorder_trans; [exact Hre|]. eapply reorder_trans.
    + eapply (reorder_wider _ _ f (p - 1)); [lia|lia|exact Hre1].
    + eapply (reorder_wider _ _ (p + 1) l); [lia|lia|exact Hre2].
  - intros i j Hi Hij Hj.
    destruct (Z.lt_trichotomy i p) as [Hip|[-> |Hip]], (Z.lt_trichotomy j p) as [Hjp|[-> |Hjp]];
      try lia; rewrite ?Hmid.
    + rewrite !Hleft by lia. apply Hs1; lia.
    + apply H1. lia.
    + eapply in_order_trans; [apply H1|apply H2]; lia.
    + apply H2. lia.
    + apply Hs2; lia.
Qed.

(** [quickSort] terminates and sorts the range in the requested order, in place: the result
    is a permutation of the array, elements outside the range are not touched. *)
Theorem quickSort_sorts a f l order :
  0 <= f -> l < alen a ->
  let b := quickSort lt a f l order in
  Permutation a b /\ (forall i, ~ (f <= i <= l) -> b.[i] = a.[i]) /\
  forall i j, f <= i -> i < j -> j <= l -> in_order order (b.[i]) (b.[j]).
Proof.
  intros Hf Hl b. unfold b, quickSort.
  destruct (quickSort_fuel_ok (Z.to_nat (l - f + 1)) a f l order) as [Hre Hs]; [done|done|lia|].
  split; [apply (re_perm _ _ _ _ Hre)|]. split; [apply (re_out _ _ _ _ Hre)|done].
Qed.
End QuickSortProof.

(** ** MinHeap *)
Section MinHeapProof.
Context {T : Type} `{!Inhabited T}.
Variable lt : T -> T -> bool.
Context `{!StrictWeakOrder lt}.
Variable Capacity : Z.
Hypothesis Hcap : 0 <= Capacity < 2 ^ 32.
Implicit Types d : list T.

Definition parent (i : Z) : Z := (i - 1) / 2.

(** [x] is not greater than [y]. *)
Definition le (x y : T) : Prop := lt y x = false.

Lemma le_trans x y z : le x y -> le y z -> le x z.
Proof. intros H1 H2. by eapply lt_negtrans. Qed.

Lemma lt_le x y : lt x y = true -> le x y.
Proof. apply lt_asym. Qed.

Lemma le_refl x : le x x.
Proof. unfold le. destruct (lt x x) eqn:Hx; [|done]. by rewrite <- Hx, lt_asym. Qed.

(** Heap order between [i] and its parent, for the indices in [S]. *)
Definition heap_on d (n : Z) (S : Z -> Prop) : Prop :=
  forall i, 0 < i < n -> S i -> le (d.[parent i]) (d.[i]).

Definition heap_ok d n : Prop := heap_on d n (fun _ => True).

(** Heap order everywhere except at [k] and its children, which are ordered with respect to
    the parent of [k]. *)
Record hole d n k : Prop := {
  ho_rest : heap_on d n (fun i => i <> k /\ parent i <> k);
  ho_skip : forall i, 0 < i < n -> parent i = k -> 0 < k -> le (d.[parent k]) (d.[i]) }.

Definition children_ok d n k : Prop := heap_on d n (fun i => parent i = k).

Lemma parent_range i : 0 < i -> 0 <= parent i < i.
Proof. intros. unfold parent. Z.div_mod_to_equations. lia. Qed.

Lemma up_step d n k :
  0 < k < n -> n <= alen d -> hole d n k -> lt (d.[k]) (d.[parent k]) = true ->
  let d' := swap d k (parent k) in
  reorder d d' 0 (n - 1) /\ hole d' n (parent k) /\ children_ok d' n (parent k).
Proof.
  intros Hk Hn [Hrest Hskip] Hlt d'. set (p := parent k) in *.
  pose proof (parent_range k ltac:(lia)) as Hp. fold p in Hp.
  assert (forall i, d'.[i] = if decide (i = k) then d.[p] else if decide (i = p) then d.[k] else d.[i]) as Hg.
  { intros i. apply swap_get; lia. }
  assert (forall i, 0 < i < n -> i <> k -> parent i = p -> le (d.[p]) (d.[i])) as Hsib.
  { intros i Hi Hik Hip. rewrite <- Hip. apply Hrest; [done|]. rewrite Hip. split; [done|lia]. }
  split; [apply swap_reorder; lia|]. split; [split|].
  - intros i Hi [Hip Hpp]. pose proof (parent_range i ltac:(lia)). rewrite !Hg.
    rewrite (decide_False (P := parent i = p)) by done. rewrite (decide_False (P := i = p)) by done.
    destruct (decide (i = k)) as [->|Hik]; [done|].
    destruct (decide (parent i = k)) as [Hpk|Hpk]; [apply Hskip; [done|done|lia]|]. apply Hrest; [done|by split].
  - intros i Hi Hip Hp0. pose proof (parent_range p Hp0). rewrite !Hg.
    rewrite (decide_False (P := parent p = k)), (decide_False (P := parent p = p)) by lia.
    assert (le (d.[parent p]) (d.[p])) as Hup by (apply Hrest; [lia|]; lia).
    destruct (decide (i = k)) as [->|Hik]; [done|].
    rewrite (decide_False (P := i = p)) by (intros ->; pose proof (parent_range p); lia).
    eapply le_trans; [exact Hup|]. by apply Hsib.
  - intros i Hi Hip. rewrite !Hg, Hip.
    rewrite (decide_False (P := p = k)), (decide_True (P := p = p)) by (done || lia).
    destruct (decide (i = k)) as [->|Hik]; [by apply lt_le|].
    rewrite (decide_False (P := i = p)) by (intros ->; pose proof (parent_range p); lia).
    eapply le_trans; [by apply lt_le|]. by apply Hsib.
Qed.

Lemma upHeap_ok n f d k :
  0 <= k < n -> n <= alen d -> k <= Z.of_nat f -> hole d n k ->
  let '(d', k') := upHeap lt f d k in
  reorder d d' 0 (n - 1) /\ 0 <= k' < n /\ hole d' n k' /\
  heap_on d' n (fun i => parent i <> k') /\ (children_ok d n k -> children_ok d' n k').
Proof.
  revert d k. induction f as [|f IH]; intros d k Hk Hn Hf Hh; cbn [upHeap].
  { split; [apply reorder_refl|]. split; [done|]. split; [done|]. split; [|done].
    intros i Hi Hpi. destruct (decide (i = k)) as [->|]; [lia|]. by apply Hh. }
  destruct (Z.eqb_spec k 0) as [->|Hk0].
  { split; [apply reorder_refl|]. split; [done|]. split; [done|]. split; [|done].
    intros i Hi Hpi. apply Hh; [done|]. split; [lia|done]. }
  fold (parent k). destruct (lt (d.[k]) (d.[parent k])) eqn:Hlt.
  - destruct (up_step d n k ltac:(lia) Hn Hh Hlt) as (Hre & Hh' & Hc').
    pose proof (parent_range k ltac:(lia)). pose proof (re_len _ _ _ _ Hre) as Hlen.
    set (d1 := swap d k (parent k)) in *.
    specialize (IH d1 (parent k) ltac:(lia) ltac:(lia) ltac:(lia) Hh').
    destruct (upHeap lt f d1 (parent k)) as [d' k'].
    destruct IH as (Hre' & ? & ? & ? & Hcc). split; [by eapply reorder_trans|]. auto.
  - split; [apply reorder_refl|]. split; [done|]. split; [done|]. split; [|done].
    intros i Hi Hpi. destruct (decide (i = k)) as [->|]; [done|]. by apply Hh.
Qed.

Lemma parent_children i k : 0 < i -> parent i = k <-> i = k * 2 + 1 \/ i = k * 2 + 1 + 1.
Proof. intros. unfold parent. split; [|intros [-> | ->]]; Z.div_mod_to_equations; lia. Qed.

Lemma down_step d n k m :
  0 <= k -> 0 < m < n -> n <= alen d -> parent m = k -> hole d n k -> heap_on d n (fun i => parent i <> k) ->
  (forall i, 0 < i < n -> parent i = k -> le (d.[m]) (d.[i])) -> lt (d.[m]) (d.[k]) = true ->
  let d' := swap d k m in
  reorder d d' 0 (n - 1) /\ hole d' n m /\ heap_on d' n (fun i => parent i <> m).
Proof.
  intros Hk Hm Hn Hpm Hh Hup Hmin Hlt d'. pose proof (parent_range m ltac:(lia)) as Hpr. rewrite Hpm in Hpr.
  assert (forall i, d'.[i] = if decide (i = k) then d.[m] else if decide (i = m) then d.[k] else d.[i]) as Hg.
  { intros i. apply swap_get; lia. }
  assert (heap_on d' n (fun i => parent i <> m)) as Hup'.
  { intros i Hi Hpi. pose proof (parent_range i ltac:(lia)). rewrite !Hg.
    rewrite (decide_False (P := parent i = m)) by done.
    destruct (decide (parent i = k)) as [Hpk|Hpk].
    - rewrite (decide_False (P := i = k)) by lia.
      destruct (decide (i = m)) as [->|]; [by apply lt_le|]. by apply Hmin.
    - rewrite (decide_False (P := i = m)) by (by intros ->).
      destruct (decide (i = k)) as [->|]; [|by apply Hup].
      apply (ho_skip _ _ _ Hh m); [done|done|lia]. }
  split; [apply swap_reorder; lia|]. split; [split|done].
  - intros i Hi [_ Hpi]. by apply Hup'.
  - intros i Hi Hpi _. pose proof (parent_range i ltac:(lia)). rewrite !Hg, Hpm.
    rewrite (decide_True (P := k = k)) by done. rewrite !decide_False by lia.
    rewrite <- Hpi. apply Hup; [done|]. lia.
Qed.

Lemma downHeap_ok n f d k :
  0 <= k -> n <= alen d -> n - k <= Z.of_nat f -> hole d n k -> heap_on d n (fun i => parent i <> k) ->
  let d' := downHeap lt f d n k in reorder d d' 0 (n - 1) /\ heap_ok d' n.
Proof.
  revert d k. induction f as [|f IH]; intros d k Hk Hn Hf Hh Hup; cbn [downHeap].
  { split; [apply reorder_refl|]. intros i Hi _. apply Hup; [done|].
    pose proof (parent_range i ltac:(lia)). lia. }
  destruct (Z.leb_spec n (k * 2 + 1)) as [Hle|Hlt1].
  { split; [apply reorder_refl|]. intros i Hi _. apply Hup; [done|]. rewrite parent_children by lia. lia. }
  set (m := if (k * 2 + 1 + 1 <? n) && lt (d.[k * 2 + 1 + 1]) (d.[k * 2 + 1]) then k * 2 + 1 + 1 else k * 2 + 1).
  assert (0 < m < n /\ parent m = k /\ k < m) as (Hm & Hpm & Hkm).
  { unfold m. destruct (Z.ltb_spec (k * 2 + 1 + 1) n); cbn [andb]; [destruct (lt _ _)|];
      (split; [lia|]; split; [apply parent_children|]; lia). }
  assert (forall i, 0 < i < n -> parent i = k -> le (d.[m]) (d.[i])) as Hmin.
  { intros i Hi Hpi. apply parent_children in Hpi; [|lia]. unfold m.
    destruct (Z.ltb_spec (k * 2 + 1 + 1) n); cbn [andb]; [destruct (lt _ _) eqn:Hc|].
    - destruct Hpi as [-> | ->]; [by apply lt_le|apply le_refl].
    - destruct Hpi as [-> | ->]; [apply le_refl|done].
    - destruct Hpi as [-> | ->]; [apply le_refl|lia]. }
  destruct (lt (d.[m]) (d.[k])) eqn:Hlt.
  - destruct (down_step d n k m) as (Hre & Hh' & Hup'); [done..|].
    pose proof (re_len _ _ _ _ Hre) as Hlen.
    set (d1 := swap d k m) in *.
    destruct (IH d1 m ltac:(lia) ltac:(lia) ltac:(lia) Hh' Hup') as [Hre' ?].
    split; [by eapply reorder_trans|done].
  - split; [apply reorder_refl|]. intros i Hi _. destruct (decide (parent i = k)) as [Hpi|Hpi]; [|by apply Hup].
    rewrite Hpi. eapply le_trans; [exact Hlt|]. by apply Hmin.
Qed.

Lemma heap_min d n i : heap_ok d n -> 0 <= i < n -> le (d.[0]) (d.[i]).
Proof.
  intros Hh Hi. assert (forall m : nat, forall j, 0 <= j <= Z.of_nat m -> j < n -> le (d.[0]) (d.[j])) as Hm.
  { induction m as [|m IH]; intros j Hj Hjn.
    - replace j with 0 by lia. apply le_refl.
    - destruct (decide (j = 0)) as [->|]; [apply le_refl|]. pose proof (parent_range j ltac:(lia)).
      eapply le_trans; [apply (IH (parent j)); lia|]. by apply Hh; [lia|]. }
  apply (Hm (Z.to_nat i)); lia.
Qed.

(** *** Elements of the heap as a multiset *)

Lemma reorder_take d d' n :
  reorder d d' 0 (n - 1) -> Permutation (take (Z.to_nat n) d) (take (Z.to_nat n) d').
Proof.
  intros Hre. pose proof (re_perm _ _ _ _ Hre) as Hp. pose proof (re_len _ _ _ _ Hre) as Hl. unfold alen in Hl.
  assert (List.skipn (Z.to_nat n) d = List.skipn (Z.to_nat n) d') as Hd.
  { apply list_eq. intros k. rewrite !lookup_drop.
    destruct (decide (Z.to_nat n + k < length d)%nat).
    - rewrite !list_lookup_lookup_total_lt by lia. f_equal.
      pose proof (re_out _ _ _ _ Hre (Z.of_nat (Z.to_nat n + k)) ltac:(lia)) as Ho.
      rewrite !aget_nonneg, Nat2Z.id in Ho by lia. done.
    - by rewrite !lookup_ge_None_2 by lia. }
  rewrite <- (take_drop (Z.to_nat n) d), <- (take_drop (Z.to_nat n) d') in Hp. rewrite Hd in Hp.
  by apply Permutation_app_inv_r in Hp.
Qed.

Lemma split_at d i : 0 <= i < alen d ->
  d = take (Z.to_nat i) d ++ d.[i] :: List.skipn (S (Z.to_nat i)) d /\
  forall x, d.[i := x] = take (Z.to_nat i) d ++ x :: List.skipn (S (Z.to_nat i)) d.
Proof.
  unfold alen. intros Hi. split.
  - symmetry. apply take_drop_middle. rewrite aget_nonneg by lia. apply list_lookup_lookup_total_lt. lia.
  - intros x. rewrite aset_nonneg by lia. apply insert_take_drop. lia.
Qed.

(** Overwriting element [i] exchanges it in the multiset. *)
Lemma write_take d i n x :
  0 <= i < n -> n <= alen d ->
  Permutation (d.[i] :: take (Z.to_nat n) (d.[i := x])) (x :: take (Z.to_nat n) d).
Proof.
  intros Hi Hn. destruct (split_at d i ltac:(lia)) as [Hd Hw]. rewrite Hw.
  set (e := d.[i]) in *. rewrite Hd at 3. unfold alen in Hn.
  rewrite !take_app, length_take_le by lia.
  replace (Z.to_nat n - Z.to_nat i)%nat with (S (Z.to_nat n - S (Z.to_nat i))) by lia.
  cbn [take]. rewrite <- !Permutation_middle. by rewrite Permutation_swap.
Qed.

Lemma take_last d n : 0 < n <= alen d -> take (Z.to_nat n) d = take (Z.to_nat (n - 1)) d ++ [d.[n - 1]].
Proof.
  unfold alen. intros Hn. replace (Z.to_nat n) with (S (Z.to_nat (n - 1))) by lia.
  apply take_S_r. rewrite aget_nonneg by lia. apply list_lookup_lookup_total_lt. lia.
Qed.

(** Replacing element [i] by the last one and shortening removes it from the multiset. *)
Lemma remove_take d i n :
  0 <= i < n -> n <= alen d ->
  Permutation (d.[i] :: take (Z.to_nat (n - 1)) (d.[i := d.[n - 1]])) (take (Z.to_nat n) d).
Proof.
  intros Hi Hn. rewrite (take_last d n) by lia. destruct (decide (i = n - 1)) as [->|Hne].
  - rewrite aset_aget_id. by rewrite Permutation_cons_append.
  - rewrite write_take by lia. by rewrite Permutation_cons_append.
Qed.

Record minheap_ok (h : MinHeap T) : Prop := {
  mh_len : alen (_data h) = Capacity;
  mh_size : 0 <= _size h <= Capacity;
  mh_heap : heap_ok (_data h) (_size h) }.

Definition elems (h : MinHeap T) : list T := take (Z.to_nat (_size h)) (_data h).

Lemma elems_get h x : minheap_ok h -> x ∈ elems h -> exists i, 0 <= i < _size h /\ x = (_data h).[i].
Proof.
  intros Hok Hx. apply list_elem_of_lookup in Hx as (k & Hk). unfold elems in Hk.
  apply lookup_take_Some in Hk as [Hk Hlt]. exists (Z.of_nat k).
  rewrite aget_nonneg, Nat2Z.id by lia. split; [lia|].
  by apply list_lookup_total_correct in Hk.
Qed.

Lemma heap_insert h x :
  minheap_ok h -> _size h < Capacity ->
  let r := insert lt Capacity h x in
  r.2 = true /\ minheap_ok r.1 /\ Permutation (elems r.1) (x :: elems h).
Proof.
  intros [Hl Hs Hh] Hlt. unfold insert. rewrite (proj2 (Z.leb_gt _ _) Hlt). cbn [fst snd].
  set (n := _size h) in *. set (d := (_data h).[n := x]).
  assert (alen d = Capacity) as Hld by (unfold d; by rewrite alen_aset).
  assert (forall i, i <> n -> d.[i] = (_data h).[i]) as Hd.
  { intros i Hi. unfold d. by rewrite aget_aset_ne. }
  pose proof (upHeap_ok (n + 1) (fuel Capacity) d n ltac:(lia) ltac:(lia)) as Hup.
  destruct (upHeap lt (fuel Capacity) d n) as [d' k']. destruct Hup as (Hre & Hk & _ & Hu & Hc).
  { unfold fuel. lia. }
  { split.
    - intros i Hi [Hin Hpi]. rewrite !Hd by done. apply Hh; [lia|done].
    - intros i Hi Hpi. pose proof (parent_range i ltac:(lia)). lia. }
  split; [done|]. rewrite u32_small by (unfold is_u32; lia). pose proof (re_len _ _ _ _ Hre) as Hl'.
  split; [split; simpl; [lia|lia|]|].
  - intros i Hi _. destruct (decide (parent i = k')); [|by apply Hu]. apply Hc; [|done|done].
    intros j Hj Hpj. pose proof (parent_range j ltac:(lia)). lia.
  - unfold elems. simpl. rewrite <- (reorder_take d d' (n + 1)) by (by replace (n + 1 - 1) with n in * by lia).
    rewrite take_last by lia. replace (n + 1 - 1) with n by lia.
    unfold d at 2. rewrite aget_aset_eq by lia. rewrite <- Permutation_cons_append.
    unfold d. rewrite aset_nonneg, take_insert_ge by lia. done.
Qed.

(** Repairing the heap after element [i] of the first [n] was overwritten. *)
Lemma hole_write d n i x :
  0 <= i < n -> n <= alen d -> heap_ok d n -> hole (d.[i := x]) n i.
Proof.
  intros Hi Hn Hh. assert (forall j, j <> i -> (d.[i := x]).[j] = d.[j]) as Hd by (intros; by rewrite aget_aset_ne).
  split.
  - intros j Hj [Hji Hpj]. rewrite !Hd by done. by apply Hh.
  - intros j Hj Hpj Hi0. pose proof (parent_range j ltac:(lia)). pose proof (parent_range i ltac:(lia)).
    rewrite !Hd by lia. eapply le_trans; [by apply (Hh i); [lia|]|]. rewrite <- Hpj at 1. by apply Hh.
Qed.

Lemma heap_shorter d n m : m <= n -> heap_ok d n -> heap_ok d m.
Proof. intros Hm Hh i Hi _. by apply Hh; [lia|]. Qed.

Lemma down_from_root d n x :
  n <= alen d -> alen d = Capacity -> heap_ok d n -> 0 < n ->
  let d' := downHeap lt (fuel Capacity) (d.[0 := x]) n 0 in
  reorder (d.[0 := x]) d' 0 (n - 1) /\ heap_ok d' n.
Proof.
  intros Hn Hl Hh Hn0. apply downHeap_ok.
  - lia.
  - rewrite alen_aset. lia.
  - unfold fuel. lia.
  - apply hole_write; [lia|done..].
  - intros j Hj Hpj. pose proof (parent_range j ltac:(lia)). rewrite !aget_aset_ne by lia. by apply Hh.
Qed.

Lemma heap_drop h :
  minheap_ok h -> 0 < _size h ->
  let r := drop lt Capacity h in
  r.2 = true /\ minheap_ok r.1 /\ Permutation (elems h) ((_data h).[0] :: elems r.1).
Proof.
  intros [Hl Hs Hh] Hn. unfold drop. rewrite (proj2 (Z.eqb_neq _ _)) by lia. cbn [fst snd].
  set (n := _size h) in *. set (x := (_data h).[n - 1]).
  split; [done|]. destruct (decide (n = 1)) as [H1|H1].
  - assert (forall f, downHeap lt f ((_data h).[0 := x]) (n - 1) 0 = (_data h).[0 := x]) as ->.
    { intros [|f]; cbn [downHeap]; [done|]. by rewrite H1. }
    split; [split; cbn [_data _size]; [by rewrite alen_aset|lia|intros i Hi; lia]|].
    unfold elems. cbn [_data _size]. fold n. rewrite <- (remove_take (_data h) 0 n) by lia. done.
  - destruct (down_from_root (_data h) (n - 1) x) as [Hre Hh']; [lia|done|by apply (heap_shorter _ n); [lia|]|lia|].
    pose proof (re_len _ _ _ _ Hre) as Hl'. rewrite alen_aset in Hl'.
    split; [split; cbn [_data _size]; [lia|lia|done]|]. unfold elems. cbn [_data _size]. fold n.
    rewrite <- (reorder_take _ _ _ Hre). unfold x. by rewrite (remove_take (_data h) 0 n) by lia.
Qed.

Lemma heap_replace h x :
  minheap_ok h -> 0 < _size h ->
  let r := replace lt Capacity h x in
  r.2 = Some ((_data h).[0]) /\ minheap_ok r.1 /\
  Permutation (x :: elems h) ((_data h).[0] :: elems r.1).
Proof.
  intros [Hl Hs Hh] Hn. unfold replace. rewrite (proj2 (Z.eqb_neq _ _)) by lia. cbn [fst snd].
  set (n := _size h) in *. split; [done|].
  destruct (down_from_root (_data h) n x) as [Hre Hh']; [lia|done..|lia|].
  pose proof (re_len _ _ _ _ Hre) as Hl'. rewrite alen_aset in Hl'.
  split; [split; cbn [_data _size]; [lia|lia|done]|]. unfold elems. cbn [_data _size]. fold n.
  by rewrite <- (reorder_take _ _ _ Hre), (write_take (_data h) 0 n) by lia.
Qed.

Section remove.
Variable eqb : T -> T -> bool.
Hypothesis eqb_spec : forall x y, eqb x y = true <-> x = y.

Lemma find_match_spec m i h x :
  let r := find_match eqb m i h x in
  i <= r <= i + Z.of_nat m /\ (r < i + Z.of_nat m -> (_data h).[r] = x) /\
  forall j, i <= j < r -> (_data h).[j] <> x.
Proof.
  revert i. induction m as [|m IH]; intros i; cbn [find_match].
  { split; [lia|]. split; intros; lia. }
  destruct (eqb ((_data h).[i]) x) eqn:He.
  - apply eqb_spec in He. split; [lia|]. split; [done|]. intros; lia.
  - destruct (IH (i + 1)) as (Hr & Hf & Hb). split; [lia|]. split; [intros; apply Hf; lia|].
    intros j Hj Hx. destruct (decide (j = i)) as [->|]; [|apply (Hb j); [lia|done]].
    apply eqb_spec in Hx. congruence.
Qed.

Lemma heap_removeFirstMatch h x :
  minheap_ok h ->
  let r := removeFirstMatch lt Capacity eqb h x in
  minheap_ok r.1 /\
  (if r.2 then Permutation (elems h) (x :: elems r.1) else r.1 = h /\ x ∉ elems h).
Proof.
  intros Hok. pose proof Hok as [Hl Hs Hh]. unfold removeFirstMatch.
  pose proof (find_match_spec (Z.to_nat (_size h)) 0 h x) as (Hr & Hf & Hb).
  set (i := find_match _ _ _ _ _) in *. set (n := _size h) in *. cbn [fst snd].
  destruct (Z.eqb_spec i n) as [Hi|Hi]; cbn [fst snd].
  { split; [done|]. split; [done|]. intros (j & Hj & Hx)%elems_get; [|done]. apply (Hb j); [fold n in Hj; lia|done]. }
  specialize (Hf ltac:(lia)). destruct (Z.ltb_spec i (n - 1)) as [Hlt|Hge].
  - set (d := (_data h).[i := (_data h).[n - 1]]).
    assert (alen d = Capacity) as Hld by (unfold d; by rewrite alen_aset).
    pose proof (upHeap_ok (n - 1) (fuel Capacity) d i ltac:(lia) ltac:(lia)) as Hup.
    destruct (upHeap lt (fuel Capacity) d i) as [d1 k]. destruct Hup as (Hre & Hk & Hho & Hu & _).
    { unfold fuel. lia. }
    { apply hole_write; [lia|lia|]. apply (heap_shorter _ n); [lia|done]. }
    pose proof (re_len _ _ _ _ Hre) as Hl1.
    destruct (downHeap_ok (n - 1) (fuel Capacity) d1 k) as [Hre' Hh']; [lia|lia|unfold fuel; lia|done..|].
    pose proof (re_len _ _ _ _ Hre') as Hl2. cbn [fst snd]. split; [split; cbn [_data _size]; [lia|lia|done]|].
    unfold elems. cbn [_data _size]. fold n.
    rewrite <- (reorder_take _ _ _ Hre'), <- (reorder_take _ _ _ Hre). unfold d.
    rewrite <- Hf. symmetry. apply remove_take; lia.
  - cbn [fst snd]. assert (i = n - 1) as Hin by lia.
    split; [split; cbn [_data _size]; [done|lia|by apply (heap_shorter _ n); [lia|]]|].
    unfold elems. cbn [_data _size]. fold n. rewrite (take_last _ n) by lia. rewrite <- Hin, Hf.
    by rewrite <- Permutation_cons_append.
Qed.
End remove.

(** MinHeap is a bounded priority queue.  In a well-formed heap [peek] gives a minimal
    element; [insert] adds an element unless the heap is full; [drop], [extract] and [replace]
    remove the minimum; [removeFirstMatch] removes one occurrence of the given element exactly
    if there is one; all of them keep the heap well-formed and terminate. *)
Theorem minheap_priority_queue (eqb : T -> T -> bool) h x :
  (forall x y, eqb x y = true <-> x = y) -> minheap_ok h ->
  (let r := insert lt Capacity h x in
   minheap_ok r.1 /\ r.2 = bool_decide (_size h < Capacity) /\
   if r.2 then Permutation (elems r.1) (x :: elems h) else r.1 = h) /\
  (match peek h with
   | None => elems h = [] /\ drop lt Capacity h = (h, false) /\ extract lt Capacity h = (h, None) /\
             replace lt Capacity h x = (h, None)
   | Some m =>
       m ∈ elems h /\ (forall y, y ∈ elems h -> le m y) /\
       (drop lt Capacity h).2 = true /\ extract lt Capacity h = ((drop lt Capacity h).1, Some m) /\
       minheap_ok (drop lt Capacity h).1 /\ Permutation (elems h) (m :: elems (drop lt Capacity h).1) /\
       (let r := replace lt Capacity h x in
        r.2 = Some m /\ minheap_ok r.1 /\ Permutation (x :: elems h) (m :: elems r.1))
   end) /\
  (let r := removeFirstMatch lt Capacity eqb h x in
   minheap_ok r.1 /\ if r.2 then Permutation (elems h) (x :: elems r.1) else r.1 = h /\ x ∉ elems h).
Proof.
  intros Heqb Hok. pose proof (mh_size h Hok) as Hs. split; [|split].
  - destruct (Z.lt_ge_cases (_size h) Capacity) as [Hlt|Hge].
    + destruct (heap_insert h x Hok Hlt) as (Hr & ? & ?). cbn zeta. rewrite Hr.
      by rewrite bool_decide_true.
    + unfold insert. rewrite (proj2 (Z.leb_le _ _)) by lia. cbn [fst snd].
      rewrite bool_decide_false by lia. done.
  - unfold peek, extract, peek, elems. destruct (Z.eqb_spec (_size h) 0) as [H0|H0].
    + rewrite H0. split; [done|]. unfold drop, replace. by rewrite H0.
    + assert (0 < _size h) as Hpos by lia. destruct (heap_drop h Hok Hpos) as (Hd & Hdk & Hdp).
      split; [apply (list_elem_of_lookup_2 _ O); rewrite lookup_take_lt by lia;
              rewrite aget_nonneg by lia; apply list_lookup_lookup_total_lt;
              pose proof (mh_len h Hok); unfold alen in *; lia|].
      split; [intros y (j & Hj & ->)%elems_get; [|done]; apply (heap_min _ (_size h)); [apply Hok|done]|].
      split; [done|]. split; [done|]. split; [done|]. split; [done|]. by apply heap_replace.
  - by apply heap_removeFirstMatch.
Qed.
End MinHeapProof.

(** Witnesses *)
Lemma quickSort_sorts_witness :
  quickSort Z.ltb [5; 3; 9; 1; 3] 0 4 SortDescending = [9; 5; 3; 3; 1] /\
  Permutation [5; 3; 9; 1; 3] (quickSort Z.ltb [5; 3; 9; 1; 3] 0 4 SortDescending).
Proof.
  split; [vm_compute; reflexivity|].
  apply (quickSort_sorts Z.ltb [5; 3; 9; 1; 3] 0 4 SortDescending); [lia|vm_compute; reflexivity].
Defined.

Definition ex_heap : MinHeap Z := mkHeap [1; 4; 2; 0] 3.

Lemma minheap_priority_queue_witness :
  peek ex_heap = Some 1 /\ Permutation (elems (insert Z.ltb 4 ex_heap 0).1) [0; 1; 4; 2].
Proof.
  split; [reflexivity|].
  assert (minheap_ok Z.ltb 4 ex_heap) as Hok.
  { split; [reflexivity|simpl; lia|]. intros i Hi _. simpl in Hi.
    assert (i = 1 \/ i = 2) as [-> | ->] by lia; reflexivity. }
  destruct (minheap_priority_queue Z.ltb 4 ltac:(lia) Z.eqb ex_heap 0 Z.eqb_eq Hok) as [(_ & _ & H) _].
  exact H.
Defined.
