(* ===== verification/QuorumValue.v ===== *)
(** * Quorum values (src/platform/quorum_value.h)

    The percentile of an array of votes, by sorting in place. *)
From S2P Require Import Prelude Sorting.

(** Result: the array after the in-place sort and the returned value. *)
Definition calculatePercentileValue (Numerator Denominator : Z) (Order : SortingOrder)
    (values : list Z) (count : Z) : list Z * Z :=
  if count =? 0 then (values, 0)
  else
    let values := quickSort Z.ltb values 0 (count - 1) Order in
    let percentileIndex := u32 (count * Numerator) / Denominator in
    (values, values.[percentileIndex]).

Definition calculateAscendingQuorumValue (values : list Z) (count : Z) : list Z * Z :=
  calculatePercentileValue 2 3 SortAscending values count.

(** Number of elements with a property. *)
Definition votes (P : Z -> Prop) `{!forall x, Decision (P x)} (values : list Z) : Z :=
  Z.of_nat (length (filter P values)).

Lemma votes_perm P `{!forall x, Decision (P x)} a b : Permutation a b -> votes P a = votes P b.
Proof. intros Hp. unfold votes. by rewrite Hp. Qed.

Lemma votes_all P `{!forall x, Decision (P x)} l : Forall P l -> votes P l = Z.of_nat (length l).
Proof.
  unfold votes. induction 1 as [|x l Hx Hl IH]; [done|]. rewrite filter_cons_True by done. simpl. lia.
Qed.

Lemma votes_app P `{!forall x, Decision (P x)} l k : votes P (l ++ k) = votes P l + votes P k.
Proof. unfold votes. rewrite filter_app, length_app. lia. Qed.

Lemma votes_nonneg P `{!forall x, Decision (P x)} l : 0 <= votes P l.
Proof. unfold votes. lia. Qed.

(** A prefix and a suffix of an array, by index. *)
Lemma Forall_take (P : Z -> Prop) (a : list Z) n :
  (forall i, 0 <= i < Z.of_nat n -> P (a.[i])) -> Forall P (take n a).
Proof.
  intros HP. apply Forall_lookup. intros k x [Hk Hn]%lookup_take_Some.
  specialize (HP (Z.of_nat k)). rewrite aget_nonneg, Nat2Z.id in HP by lia.
  apply list_lookup_total_correct in Hk. subst x. apply HP. lia.
Qed.

Lemma Forall_drop (P : Z -> Prop) (a : list Z) n :
  (forall i, Z.of_nat n <= i < alen a -> P (a.[i])) -> Forall P (List.skipn n a).
Proof.
  intros HP. apply Forall_lookup. intros k x Hk. rewrite lookup_drop in Hk.
  specialize (HP (Z.of_nat (n + k))). rewrite aget_nonneg, Nat2Z.id in HP by lia.
  pose proof (lookup_lt_Some _ _ _ Hk). apply list_lookup_total_correct in Hk. subst x.
  apply HP. unfold alen. lia.
Qed.

Lemma percentile_value_votes num den values count :
  0 <= num < den -> count = alen values -> 0 < count -> count * num < 2 ^ 32 ->
  let r := calculatePercentileValue num den SortAscending values count in
  let index := count * num / den in
  Permutation values r.1 /\ r.2 ∈ values /\
  index + 1 <= votes (fun x => x <= r.2) values /\ count - index <= votes (fun x => r.2 <= x) values.
Proof.
  intros Hn Hc Hpos Hov r index. unfold r, calculatePercentileValue.
  rewrite (proj2 (Z.eqb_neq _ _)) by lia. cbn [fst snd].
  assert (0 <= count * num) by nia. rewrite u32_small by (unfold is_u32; lia). fold index.
  assert (0 <= index < count) as Hi.
  { unfold index. split; [apply Z.div_pos; lia|]. apply Z.div_lt_upper_bound; nia. }
  destruct (quickSort_fuel_ok Z.ltb (Z.to_nat (count - 1 - 0 + 1)) values 0 (count - 1) SortAscending)
    as [Hre Hs]; [lia..|]. fold (quickSort Z.ltb values 0 (count - 1) SortAscending) in Hre, Hs.
  set (b := quickSort Z.ltb values 0 (count - 1) SortAscending) in *.
  pose proof (re_perm _ _ _ _ Hre) as Hp. pose proof (re_len _ _ _ _ Hre) as Hl. set (v := b.[index]).
  assert (forall i j, 0 <= i -> i <= j -> j < count -> b.[i] <= b.[j]) as Hsort.
  { intros i j ? ? ?. destruct (decide (i = j)) as [->|]; [done|].
    specialize (Hs i j ltac:(lia) ltac:(lia) ltac:(lia)). simpl in Hs. lia. }
  split; [done|]. split; [|split].
  - rewrite Hp. unfold v. rewrite aget_nonneg by lia.
    apply (list_elem_of_lookup_2 _ (Z.to_nat index)), list_lookup_lookup_total_lt. unfold alen in *. lia.
  - rewrite (votes_perm _ _ _ Hp), <- (take_drop (Z.to_nat (index + 1)) b), votes_app.
    rewrite (votes_all _ (take _ _)).
    + pose proof (votes_nonneg (fun x => x <= v) (List.skipn (Z.to_nat (index + 1)) b)).
      rewrite length_take. unfold alen in *. lia.
    + apply Forall_take. intros i Hir. apply Hsort; lia.
  - rewrite (votes_perm _ _ _ Hp), <- (take_drop (Z.to_nat index) b), votes_app.
    rewrite (votes_all _ (List.skipn _ _)).
    + pose proof (votes_nonneg (fun x => v <= x) (take (Z.to_nat index) b)).
      rewrite length_drop. unfold alen in *. lia.
    + apply Forall_drop. intros i Hir. apply Hsort; lia.
Qed.

(** the percentile value has at least [index + 1] votes that are not above it and at least
    [count - index] votes that are not below it, where [index = count * Numerator / Denominator];
    for the 2/3 quorum, more than two thirds of the votes are not above the result.  The array
    is only reordered. *)
Theorem percentile_value_quorum num den values count :
  0 <= num < den -> count = alen values -> 0 < count -> count * num < 2 ^ 32 ->
  let r := calculatePercentileValue num den SortAscending values count in
  let index := count * num / den in
  Permutation values r.1 /\ r.2 ∈ values /\
  index + 1 <= votes (fun x => x <= r.2) values /\ count - index <= votes (fun x => r.2 <= x) values.
Proof. apply percentile_value_votes. Qed.

Lemma percentile_value_quorum_witness :
  (calculateAscendingQuorumValue [7; 1; 4; 4; 9; 2] 6).2 = 7 /\
  5 <= votes (fun x => x <= 7) [7; 1; 4; 4; 9; 2].
Proof.
  split; [vm_compute; reflexivity|].
  destruct (percentile_value_quorum 2 3 [7; 1; 4; 4; 9; 2] 6) as (_ & _ & H & _);
    [lia|reflexivity|lia|lia|]. exact H.
Defined.
