(* ===== verification/Merkle.v ===== *)
(** * Merkle trees with change flags (src/spectrum/spectrum.h, src/assets/assets.h)

    The digests of the spectrum and of the universe are roots of binary Merkle trees stored
    level by level in one array.  After some leaves changed, only the nodes above flagged
    leaves are recomputed; the flag words are reused from level to level.  This file holds
    the climbing loops of both components and shows that they restore the tree. *)
From S2P Require Import Prelude Containers.

Lemma if_decide_ext {A} (P Q : Prop) `{!Decision P, !Decision Q} (a b : A) :
  (P <-> Q) -> (if decide P then a else b) = (if decide Q then a else b).
Proof. intros H. repeat case_decide; tauto. Qed.

(** ** Pairs of flags *)

(** [flags[i >> 6] & (3ULL << (i & 63))], [flags[i >> 6] &= ~(3ULL << (i & 63))] and
    [flags[i >> 7] |= 1ULL << ((i >> 1) & 63)]. *)
Definition pair_test (fl : list Z) (i : Z) : bool :=
  negb (Z.land (fl.[Z.shiftr i 6]) (u64 (Z.shiftl 3 (Z.land i 63))) =? 0).
Definition pair_clear (fl : list Z) (i : Z) : list Z :=
  fl.[Z.shiftr i 6 := Z.land (fl.[Z.shiftr i 6]) (u64 (Z.lnot (Z.shiftl 3 (Z.land i 63))))].
Definition mark_parent (fl : list Z) (i : Z) : list Z :=
  fl.[Z.shiftr i 7 := Z.lor (fl.[Z.shiftr i 7]) (u64 (Z.shiftl 1 (Z.land (Z.shiftr i 1) 63)))].

Lemma mark_parent_bit fl i : mark_parent fl i = bit_set fl (Z.shiftr i 1).
Proof.
  unfold mark_parent, bit_set, bit_word, bit_pos. rewrite Z.shiftr_shiftr by lia. change (1 + 6) with 7.
  pose proof (bit_pos_range (Z.shiftr i 1)) as Hp. unfold bit_pos in Hp. rewrite u64_small; [done|].
  rewrite Z.shiftl_1_l. unfold is_u64. split; [lia|]. apply Z.pow_lt_mono_r; lia.
Qed.

Lemma three_bits p i : 0 <= p <= 62 -> 0 <= i ->
  Z.testbit (u64 (Z.shiftl 3 p)) i = bool_decide (i = p) || bool_decide (i = p + 1).
Proof.
  intros Hp Hi. rewrite u64_small.
  2:{ rewrite Z.shiftl_mul_pow2 by lia. assert (0 < 2 ^ p) by (apply Z.pow_pos_nonneg; lia).
      assert (2 ^ p <= 2 ^ 62) by (apply Z.pow_le_mono_r; lia). unfold is_u64. lia. }
  rewrite Z.shiftl_spec by lia. repeat case_bool_decide; cbn [orb]; subst.
  - by rewrite Z.sub_diag.
  - by rewrite Z.sub_diag.
  - by replace (p + 1 - p) with 1 by lia.
  - destruct (decide (i < p)); [by apply Z.testbit_neg_r; lia|].
    apply Z.bits_above_log2; [lia|]. change (Z.log2 3) with 1. lia.
Qed.

Lemma even_pos i : 0 <= i -> i mod 2 = 0 ->
  bit_word (i + 1) = bit_word i /\ bit_pos (i + 1) = bit_pos i + 1 /\ 0 <= bit_pos i <= 62.
Proof. intros Hi He. rewrite !bit_word_eq, !bit_pos_eq. Z.div_mod_to_equations. lia. Qed.

Lemma pair_test_bits fl i :
  0 <= i -> i mod 2 = 0 -> pair_test fl i = bit_of fl i || bit_of fl (i + 1).
Proof.
  intros Hi He. destruct (even_pos i Hi He) as (Hw & Hp & Hr). unfold pair_test, bit_of.
  rewrite Hw, Hp. fold (bit_word i) (bit_pos i). set (w := fl.[bit_word i]). set (p := bit_pos i) in *.
  destruct (Z.testbit w p || Z.testbit w (p + 1)) eqn:Hb.
  - apply negb_true_iff, Z.eqb_neq. intros H0. apply orb_true_iff in Hb as [Hb|Hb].
    + assert (Z.testbit (Z.land w (u64 (Z.shiftl 3 p))) p = true); [|by rewrite H0, Z.testbit_0_l in *].
      rewrite Z.land_spec, Hb, three_bits by lia. by rewrite bool_decide_true.
    + assert (Z.testbit (Z.land w (u64 (Z.shiftl 3 p))) (p + 1) = true); [|by rewrite H0, Z.testbit_0_l in *].
      rewrite Z.land_spec, Hb, three_bits by lia. rewrite (bool_decide_true (p + 1 = p + 1)) by done.
      by rewrite orb_true_r.
  - apply negb_false_iff, Z.eqb_eq. apply orb_false_iff in Hb as [Hb1 Hb2].
    apply Z.bits_inj'. intros n Hn. rewrite Z.land_spec, three_bits, Z.testbit_0_l by lia.
    repeat case_bool_decide; subst; rewrite ?Hb1, ?Hb2; [done..|]. by rewrite andb_false_r.
Qed.

Lemma pair_clear_get fl i j :
  0 <= i -> i mod 2 = 0 -> 0 <= bit_word i < alen fl ->
  bit_of (pair_clear fl i) j = negb (bool_decide (j = i)) && negb (bool_decide (j = i + 1)) && bit_of fl j.
Proof.
  intros Hi He Hw. destruct (even_pos i Hi He) as (Hw1 & Hp1 & Hr).
  unfold bit_of, pair_clear. fold (bit_word i) (bit_pos i). rewrite aget_aset.
  pose proof (bit_pos_range j) as Hpj. case_decide as Hd.
  - destruct Hd as [Hwj _]. unfold u64.
    rewrite Z.land_spec, testbit_mod_pow2, Z.lnot_spec by lia.
    pose proof (three_bits (bit_pos i) (bit_pos j) ltac:(lia) ltac:(lia)) as H3.
    unfold u64 in H3. rewrite testbit_mod_pow2 in H3 by lia.
    rewrite (proj2 (Z.ltb_lt _ _)) in * by lia. cbn [andb] in *. rewrite H3, Hwj.
    rewrite negb_orb, andb_comm. f_equal. f_equal; f_equal; apply bool_decide_ext.
    + split; [intros; apply bit_split; congruence|congruence].
    + rewrite <- Hp1. split; [intros; apply bit_split; congruence|congruence].
  - rewrite !bool_decide_false; [done| |]; intros ->; apply Hd; split; congruence.
Qed.

(** ** The climbing loops *)
Section Merkle.
Context {D : Type} `{!Inhabited D}.
(** [KangarooTwelve64To32] on two neighbouring digests. *)
Variable hashNode : D -> D -> D.

(** Flags, digests, [digestIndex]. *)
Definition climb_state : Type := list Z * list D * Z.

(** One pair of the inner loop. *)
Definition climb_pair (previousLevelBeginning i : Z) (st : climb_state) : climb_state :=
  let '(fl, dg, digestIndex) := st in
  if pair_test fl i then
    (mark_parent (pair_clear fl i) i,
     dg.[digestIndex := hashNode (dg.[previousLevelBeginning + i]) (dg.[previousLevelBeginning + i + 1])],
     digestIndex + 1)
  else (fl, dg, digestIndex + 1).

(** [for (i = start; n pairs; i += 2)]. *)
Fixpoint climb_pairs (n : nat) (previousLevelBeginning i : Z) (st : climb_state) : climb_state :=
  match n with
  | O => st
  | S n' => climb_pairs n' previousLevelBeginning (i + 2) (climb_pair previousLevelBeginning i st)
  end.

Definition climb_level (previousLevelBeginning numberOfLeafs : Z) (st : climb_state) : climb_state :=
  climb_pairs (Z.to_nat (numberOfLeafs / 2)) previousLevelBeginning 0 st.

(** The chunked level of [getUniverseDigest]: words of 64 flags, an empty word is skipped. *)
Definition climb_chunk (previousLevelBeginning chunk : Z) (st : climb_state) : climb_state :=
  let '(fl, dg, digestIndex) := st in
  if fl.[chunk] =? 0 then (fl, dg, digestIndex + 32)
  else climb_pairs 32 previousLevelBeginning (Z.shiftl chunk 6) st.

Fixpoint climb_chunks (n : nat) (previousLevelBeginning chunk : Z) (st : climb_state) : climb_state :=
  match n with
  | O => st
  | S n' => climb_chunks n' previousLevelBeginning (chunk + 1) (climb_chunk previousLevelBeginning chunk st)
  end.

Definition climb_level_chunked (previousLevelBeginning numberOfLeafs : Z) (st : climb_state) : climb_state :=
  if 64 <=? numberOfLeafs then
    climb_chunks (Z.to_nat (Z.shiftr numberOfLeafs 6)) previousLevelBeginning 0 st
  else climb_level previousLevelBeginning numberOfLeafs st.

(** [while (numberOfLeafs > 1)]; [fuel] is the depth of the tree. *)
Fixpoint climb (level : Z -> Z -> climb_state -> climb_state) (fuel : nat)
    (previousLevelBeginning numberOfLeafs : Z) (st : climb_state) : climb_state :=
  match fuel with
  | O => st
  | S fuel' =>
      if 1 <? numberOfLeafs then
        climb level fuel' (previousLevelBeginning + numberOfLeafs) (Z.shiftr numberOfLeafs 1)
          (level previousLevelBeginning numberOfLeafs st)
      else st
  end.

(** Full reconstruction of the inner nodes (reorganizeSpectrum). *)
Fixpoint rebuild_pairs (n : nat) (previousLevelBeginning i : Z) (st : list D * Z) : list D * Z :=
  match n with
  | O => st
  | S n' =>
      let '(dg, digestIndex) := st in
      rebuild_pairs n' previousLevelBeginning (i + 2)
        (dg.[digestIndex := hashNode (dg.[previousLevelBeginning + i]) (dg.[previousLevelBeginning + i + 1])],
         digestIndex + 1)
  end.

Fixpoint rebuild (fuel : nat) (previousLevelBeginning numberOfLeafs : Z) (st : list D * Z) : list D * Z :=
  match fuel with
  | O => st
  | S fuel' =>
      if 1 <? numberOfLeafs then
        rebuild fuel' (previousLevelBeginning + numberOfLeafs) (Z.shiftr numberOfLeafs 1)
          (rebuild_pairs (Z.to_nat (numberOfLeafs / 2)) previousLevelBeginning 0 st)
      else st
  end.

(** ** Specification *)

(** The root over [2^r] leaves. *)
Fixpoint merkle_root (r : nat) (leaf : Z -> D) : D :=
  match r with
  | O => leaf 0
  | S r' => merkle_root r' (fun i => hashNode (leaf (2 * i)) (leaf (2 * i + 1)))
  end.

(** The array holds, from position [prev] on, a Merkle tree over [2^r] leaves. *)
Fixpoint tree_ok (dg : list D) (prev : Z) (r : nat) : Prop :=
  match r with
  | O => True
  | S r' =>
      let next := prev + 2 ^ Z.of_nat (S r') in
      (forall i, 0 <= i < 2 ^ Z.of_nat r' ->
         dg.[next + i] = hashNode (dg.[prev + 2 * i]) (dg.[prev + 2 * i + 1])) /\
      tree_ok dg next r'
  end.

Lemma merkle_root_ext r f g :
  (forall i, 0 <= i < 2 ^ Z.of_nat r -> f i = g i) -> merkle_root r f = merkle_root r g.
Proof.
  revert f g. induction r as [|r IH]; intros f g Hfg; simpl; [apply Hfg; simpl; lia|].
  rewrite Nat2Z.inj_succ, Z.pow_succ_r in Hfg by lia. apply IH. intros i Hi. rewrite !Hfg by lia. done.
Qed.

(** The last node of a correct tree is the root over its leaves. *)
Lemma tree_root dg prev r :
  tree_ok dg prev r -> dg.[prev + 2 ^ (Z.of_nat r + 1) - 2] = merkle_root r (fun i => dg.[prev + i]).
Proof.
  revert prev. induction r as [|r IH]; intros prev Ht.
  - simpl. f_equal. lia.
  - cbn [tree_ok merkle_root] in *. destruct Ht as [Hn Ht]. specialize (IH _ Ht).
    rewrite Nat2Z.inj_succ in *. unfold Z.succ in *.
    replace (prev + 2 ^ (Z.of_nat r + 1 + 1) - 2) with (prev + 2 ^ (Z.of_nat r + 1) + 2 ^ (Z.of_nat r + 1) - 2).
    + rewrite IH. apply merkle_root_ext. intros i Hi. rewrite Hn by done. by rewrite Z.add_assoc.
    + rewrite (Z.pow_add_r 2 (Z.of_nat r + 1) 1) by lia. lia.
Qed.

(** *** One level *)

(** [st'] is [st] after the pairs below [p] of a level with [n] leaves at [prev]. *)
Definition level_inv (fl : list Z) (dg : list D) (prev n p : Z) (st' : climb_state) : Prop :=
  let '(fl', dg', di') := st' in
  let F := fun j => bit_of fl (2 * j) || bit_of fl (2 * j + 1) in
  di' = prev + n + p /\ alen fl' = alen fl /\ alen dg' = alen dg /\
  (forall j, 0 <= j -> bit_of fl' j = if decide (j < p) then F j else if decide (j < 2 * p) then false else bit_of fl j) /\
  (forall x, dg'.[x] = if decide (prev + n <= x < prev + n + p /\ F (x - prev - n) = true)
     then hashNode (dg.[prev + 2 * (x - prev - n)]) (dg.[prev + 2 * (x - prev - n) + 1]) else dg.[x]).

Lemma level_inv_start fl dg prev n : level_inv fl dg prev n 0 (fl, dg, prev + n).
Proof.
  split; [lia|]. split; [done|]. split; [done|]. split.
  - intros j Hj. by rewrite !decide_False by lia.
  - intros x. rewrite decide_False; [done|]. lia.
Qed.

Lemma climb_pair_inv fl dg prev n p st :
  0 <= prev -> 0 <= p -> 2 * p + 2 <= n -> prev + n + p < alen dg -> bit_word (2 * p) < alen fl ->
  level_inv fl dg prev n p st -> level_inv fl dg prev n (p + 1) (climb_pair prev (2 * p) st).
Proof.
  destruct st as [[fl' dg'] di']. intros Hprev Hp Hn Hdg Hfl (-> & Hlf & Hld & Hb & Hg).
  assert (2 * p mod 2 = 0) as Hev by (Z.div_mod_to_equations; lia).
  assert (0 <= bit_word (2 * p)) as Hw0 by (rewrite bit_word_eq; Z.div_mod_to_equations; lia).
  assert (forall y, y < prev + n -> dg'.[y] = dg.[y]) as Hlow by (intros y ?; rewrite Hg, decide_False; [done|intros [? _]; lia]).
  set (F := fun j => bit_of fl (2 * j) || bit_of fl (2 * j + 1)) in *.
  assert (pair_test fl' (2 * p) = F p) as Htest.
  { rewrite pair_test_bits by lia. rewrite !Hb by lia. rewrite !decide_False by lia. done. }
  unfold climb_pair. rewrite Htest. destruct (F p) eqn:HF.
  - assert (0 <= bit_word (Z.shiftr (2 * p) 1) < alen fl) as Hw1.
    { rewrite bit_word_eq, Z.shiftr_div_pow2 in * by lia. Z.div_mod_to_equations; lia. }
    assert (Z.shiftr (2 * p) 1 = p) as Hsh by (rewrite Z.shiftr_div_pow2 by lia; Z.div_mod_to_equations; lia).
    rewrite mark_parent_bit, Hsh in *.
    split; [lia|]. split; [unfold bit_set, pair_clear; by rewrite !alen_aset|].
    split; [by rewrite alen_aset|]. split.
    + intros j Hj. rewrite bit_set_get by (unfold pair_clear; rewrite alen_aset; lia).
      rewrite pair_clear_get by lia. destruct (decide (j = p)) as [->|Hjp].
      * rewrite (bool_decide_true (p = p)) by done. cbn [orb]. rewrite decide_True by lia. fold (F p). by rewrite HF.
      * rewrite (bool_decide_false (p = j)) by lia. cbn [orb]. rewrite Hb by done.
        destruct (decide (j < p)).
        { rewrite (decide_True (P := j < p + 1)) by lia. by rewrite !bool_decide_false by lia. }
        rewrite (decide_False (P := j < p + 1)) by lia. destruct (decide (j < 2 * (p + 1))).
        { repeat case_bool_decide; try done. by rewrite decide_True by lia. }
        rewrite (decide_False (P := j < 2 * p)) by lia. by rewrite !bool_decide_false by lia.
    + intros x. rewrite aget_aset, !Hlow by lia. destruct (decide (x = prev + n + p)) as [->|Hx].
      * rewrite decide_True by lia. replace (prev + n + p - prev - n) with p by lia.
        rewrite decide_True; [done|]. split; [lia|done].
      * rewrite decide_False by lia. rewrite Hg. apply if_decide_ext. split; intros [? ?]; (split; [lia|done]).
  - split; [lia|]. split; [done|]. split; [done|]. split.
    + intros j Hj. rewrite Hb by done. destruct (decide (j = p)) as [->|].
      * rewrite (decide_False (P := p < p)), (decide_True (P := p < p + 1)) by lia. fold (F p). rewrite HF.
        destruct (decide (p < 2 * p)); [done|]. replace p with 0 in * by lia.
        unfold F in HF. by apply orb_false_iff in HF as [? _].
      * destruct (decide (j < p)); [by rewrite decide_True by lia|].
        rewrite (decide_False (P := j < p + 1)) by lia. destruct (decide (j < 2 * p)); [by rewrite decide_True by lia|].
        destruct (decide (j < 2 * (p + 1))); [|done].
        unfold F in HF. apply orb_false_iff in HF as [H1 H2].
        assert (j = 2 * p \/ j = 2 * p + 1) as [-> | ->] by lia; done.
    + intros x. rewrite Hg. destruct (decide (x = prev + n + p)) as [->|Hx].
      * replace (prev + n + p - prev - n) with p by lia. rewrite !decide_False; [done| |lia].
        intros [_ HF']. fold (F p) in HF'. congruence.
      * apply if_decide_ext. split; intros [? ?]; (split; [lia|done]).
Qed.

Lemma climb_pairs_inv m fl dg prev n p st :
  0 <= prev -> 0 <= p -> 2 * (p + Z.of_nat m) <= n -> prev + n + p + Z.of_nat m <= alen dg ->
  n <= 64 * alen fl ->
  level_inv fl dg prev n p st -> level_inv fl dg prev n (p + Z.of_nat m) (climb_pairs m prev (2 * p) st).
Proof.
  revert p st. induction m as [|m IH]; intros p st Hprev Hp Hn Hdg Hfl Hi.
  - by replace (p + Z.of_nat 0) with p by lia.
  - cbn [climb_pairs]. replace (p + Z.of_nat (S m)) with (p + 1 + Z.of_nat m) by lia.
    replace (2 * p + 2) with (2 * (p + 1)) by lia. apply IH; try lia.
    apply climb_pair_inv; try lia; [|done]. rewrite bit_word_eq. Z.div_mod_to_equations; lia.
Qed.

Lemma climb_level_inv fl dg prev r :
  0 <= prev -> prev + 2 ^ Z.of_nat (S r) + 2 ^ Z.of_nat r <= alen dg -> 2 ^ Z.of_nat (S r) <= 64 * alen fl ->
  level_inv fl dg prev (2 ^ Z.of_nat (S r)) (2 ^ Z.of_nat r)
    (climb_level prev (2 ^ Z.of_nat (S r)) (fl, dg, prev + 2 ^ Z.of_nat (S r))).
Proof.
  intros Hprev Hdg Hfl. unfold climb_level. assert (0 < 2 ^ Z.of_nat r) by (apply Z.pow_pos_nonneg; lia).
  rewrite Nat2Z.inj_succ, Z.pow_succ_r in * by lia. set (n := 2 ^ Z.of_nat r) in *.
  replace (2 * n / 2) with n by (symmetry; rewrite Z.mul_comm; apply Z.div_mul; lia).
  pose proof (climb_pairs_inv (Z.to_nat n) fl dg prev (2 * n) 0 (fl, dg, prev + 2 * n)) as H'.
  rewrite Z2Nat.id in H' by lia. apply H'; try lia. apply level_inv_start.
Qed.

(** *** The whole tree *)

(** Every inner node is right unless one of the leaves below it is flagged by [F]. *)
Fixpoint tree_upto (dg : list D) (prev : Z) (r : nat) (F : Z -> bool) : Prop :=
  match r with
  | O => True
  | S r' =>
      let next := prev + 2 ^ Z.of_nat (S r') in
      let G := fun j => F (2 * j) || F (2 * j + 1) in
      (forall i, 0 <= i < 2 ^ Z.of_nat r' -> G i = false ->
         dg.[next + i] = hashNode (dg.[prev + 2 * i]) (dg.[prev + 2 * i + 1])) /\
      tree_upto dg next r' G
  end.

Lemma tree_upto_ok dg prev r F : tree_ok dg prev r -> tree_upto dg prev r F.
Proof.
  revert prev F. induction r as [|r IH]; intros prev F; [done|]. cbn [tree_ok tree_upto]. intros [Hn Ht].
  split; [|by apply IH]. intros i Hi _. by apply Hn.
Qed.

Lemma tree_upto_all dg prev r F : (forall i, 0 <= i < 2 ^ Z.of_nat r -> F i = true) -> tree_upto dg prev r F.
Proof.
  revert prev F. induction r as [|r IH]; intros prev F HF; [done|]. cbn [tree_upto].
  rewrite Nat2Z.inj_succ, Z.pow_succ_r in * by lia. split.
  - intros i Hi. by rewrite HF by lia.
  - apply IH. intros i Hi. by rewrite HF by lia.
Qed.

(** Flagged leaves may change, and more leaves may be flagged. *)
Lemma tree_upto_change dg dg' prev r (F F' : Z -> bool) :
  tree_upto dg prev r F ->
  (forall i, 0 <= i < 2 ^ Z.of_nat r -> F' i = false -> F i = false /\ dg'.[prev + i] = dg.[prev + i]) ->
  (forall x, prev + 2 ^ Z.of_nat r <= x -> dg'.[x] = dg.[x]) ->
  tree_upto dg' prev r F'.
Proof.
  revert prev F F'. induction r as [|r IH]; intros prev F F' Ht HF Hx; [done|]. cbn [tree_upto] in *.
  destruct Ht as [Hn Ht]. assert (0 < 2 ^ Z.of_nat r) by (apply Z.pow_pos_nonneg; lia).
  rewrite Nat2Z.inj_succ, Z.pow_succ_r in * by lia. split.
  - intros i Hi [H1 H2]%orb_false_iff.
    destruct (HF (2 * i) ltac:(lia) H1) as [HF1 E1]. destruct (HF (2 * i + 1) ltac:(lia) H2) as [HF2 E2].
    rewrite Hx by lia. rewrite Z.add_assoc in E2. rewrite E1, E2. apply Hn; [done|]. by rewrite HF1, HF2.
  - eapply IH; [exact Ht| |].
    + intros i Hi [H1 H2]%orb_false_iff.
      destruct (HF (2 * i) ltac:(lia) H1) as [HF1 _]. destruct (HF (2 * i + 1) ltac:(lia) H2) as [HF2 _].
      rewrite HF1, HF2. split; [done|]. apply Hx. lia.
    + intros x Hx'. apply Hx. lia.
Qed.

Lemma tree_ok_stable dg dg' prev r :
  tree_ok dg prev r -> (forall x, prev <= x -> dg'.[x] = dg.[x]) -> tree_ok dg' prev r.
Proof.
  revert prev. induction r as [|r IH]; intros prev Ht Hx; [done|]. cbn [tree_ok] in *. destruct Ht as [Hn Ht].
  assert (0 < 2 ^ Z.of_nat (S r)) by (apply Z.pow_pos_nonneg; lia).
  split; [intros i Hi; rewrite !Hx by lia; by apply Hn|]. apply IH; [done|]. intros x ?. apply Hx. lia.
Qed.

(** The climb repairs the tree without touching the leaves; only flag 0 may stay set. *)
Lemma climb_ok r prev fl dg :
  0 <= prev -> prev + 2 ^ (Z.of_nat r + 1) - 1 <= alen dg -> 2 ^ Z.of_nat r <= 64 * alen fl ->
  tree_upto dg prev r (bit_of fl) -> (forall j, 2 ^ Z.of_nat r <= j < 64 * alen fl -> bit_of fl j = false) ->
  let '(fl', dg', _) := climb climb_level r prev (2 ^ Z.of_nat r) (fl, dg, prev + 2 ^ Z.of_nat r) in
  alen fl' = alen fl /\ alen dg' = alen dg /\ tree_ok dg' prev r /\
  (forall x, x < prev + 2 ^ Z.of_nat r -> dg'.[x] = dg.[x]) /\ (forall j, 1 <= j < 64 * alen fl -> bit_of fl' j = false).
Proof.
  revert prev fl dg. induction r as [|r IH]; intros prev fl dg Hprev Hdg Hfl Ht Hb.
  - simpl. repeat split; try done.
  - cbn [climb]. assert (0 < 2 ^ Z.of_nat r) as Hpos by (apply Z.pow_pos_nonneg; lia).
    assert (2 ^ (Z.of_nat (S r) + 1) = 4 * 2 ^ Z.of_nat r) as E4.
    { rewrite Nat2Z.inj_succ. replace (Z.succ (Z.of_nat r) + 1) with (Z.of_nat r + 2) by lia.
      rewrite Z.pow_add_r by lia. lia. }
    assert (2 ^ (Z.of_nat r + 1) = 2 * 2 ^ Z.of_nat r) as E2' by (rewrite Z.pow_add_r by lia; lia).
    assert (2 ^ Z.of_nat (S r) = 2 * 2 ^ Z.of_nat r) as E2 by (rewrite Nat2Z.inj_succ, Z.pow_succ_r by lia; lia).
    rewrite (proj2 (Z.ltb_lt _ _)) by lia.
    assert (Z.shiftr (2 ^ Z.of_nat (S r)) 1 = 2 ^ Z.of_nat r) as ->.
    { rewrite Z.shiftr_div_pow2 by lia. rewrite E2, Z.mul_comm. apply Z.div_mul. lia. }
    pose proof (climb_level_inv fl dg prev r ltac:(lia) ltac:(lia) ltac:(lia)) as Hl.
    destruct (climb_level _ _ _) as [[fl1 dg1] di1]. destruct Hl as (-> & Hlf & Hld & Hb1 & Hg1).
    cbn [tree_upto] in Ht. destruct Ht as [Hn Ht]. cbn beta in *.
    set (G := fun j => bit_of fl (2 * j) || bit_of fl (2 * j + 1)) in *.
    specialize (IH (prev + 2 ^ Z.of_nat (S r)) fl1 dg1 ltac:(lia) ltac:(lia) ltac:(lia)).
    destruct (climb climb_level r _ _ _) as [[fl2 dg2] di2].
    destruct IH as (H1 & H2 & H3 & H4 & H5).
    + eapply tree_upto_change; [exact Ht| |].
      * intros i Hi. rewrite Hb1, decide_True by lia. fold (G i). intros HG. split; [done|].
        rewrite Hg1, decide_False; [done|].
        replace (prev + 2 ^ Z.of_nat (S r) + i - prev - 2 ^ Z.of_nat (S r)) with i by lia.
        fold (G i). rewrite HG. by intros [_ ?].
      * intros x Hx. rewrite Hg1, decide_False; [done|]. intros [? _]. lia.
    + intros j Hj. rewrite Hb1, decide_False by lia. case_decide; [done|]. apply Hb. lia.
    + split; [lia|]. split; [lia|]. split; [|split; [|intros j Hj; apply H5; lia]].
      * cbn [tree_ok]. split; [|exact H3]. intros i Hi. rewrite !H4 by lia. rewrite !Hg1.
        rewrite (decide_False (P := _ <= prev + 2 * i < _ /\ _)) by (intros [? _]; lia).
        rewrite (decide_False (P := _ <= prev + 2 * i + 1 < _ /\ _)) by (intros [? _]; lia).
        replace (prev + 2 ^ Z.of_nat (S r) + i - prev - 2 ^ Z.of_nat (S r)) with i by lia.
        case_decide as Hd; [done|]. apply Hn; [done|]. destruct (G i) eqn:HG; [|done].
        exfalso. apply Hd. split; [lia|done].
      * intros x Hx. rewrite H4, Hg1 by lia. rewrite decide_False; [done|]. intros [? _]. lia.
Qed.

(** *** Full reconstruction *)
Lemma rebuild_pairs_spec m dg prev n p :
  0 <= prev -> 0 <= p -> 2 * (p + Z.of_nat m) <= n -> prev + n + p + Z.of_nat m <= alen dg ->
  let '(dg', di) := rebuild_pairs m prev (2 * p) (dg, prev + n + p) in
  di = prev + n + p + Z.of_nat m /\ alen dg' = alen dg /\
  (forall x, dg'.[x] = if decide (prev + n + p <= x < prev + n + p + Z.of_nat m)
     then hashNode (dg.[prev + 2 * (x - prev - n)]) (dg.[prev + 2 * (x - prev - n) + 1]) else dg.[x]).
Proof.
  revert dg p. induction m as [|m IH]; intros dg p Hprev Hp Hn Hdg.
  - simpl. split; [lia|]. split; [done|]. intros x. by rewrite decide_False by lia.
  - cbn [rebuild_pairs]. replace (2 * p + 2) with (2 * (p + 1)) by lia.
    replace (prev + n + p + 1) with (prev + n + (p + 1)) by lia.
    match goal with |- context [rebuild_pairs m prev _ (?d, _)] => set (dg1 := d) end.
    assert (alen dg1 = alen dg) as Hl by apply alen_aset.
    specialize (IH dg1 (p + 1) ltac:(lia) ltac:(lia) ltac:(lia) ltac:(lia)).
    destruct (rebuild_pairs _ _ _ _) as [dg2 di]. destruct IH as (-> & Hl2 & Hx).
    split; [lia|]. split; [lia|]. intros x. rewrite Hx. subst dg1. rewrite !aget_aset.
    destruct (decide (x = prev + n + p)) as [->|Hne].
    + rewrite decide_False by lia. rewrite decide_True by lia. rewrite (decide_True (P := _ <= _ < _)) by lia.
      by replace (prev + n + p - prev - n) with p by lia.
    + destruct (decide (prev + n + (p + 1) <= x < prev + n + (p + 1) + Z.of_nat m)).
      * rewrite !decide_False by lia. by rewrite decide_True by lia.
      * by rewrite !decide_False by lia.
Qed.

Lemma rebuild_ok r prev dg :
  0 <= prev -> prev + 2 ^ (Z.of_nat r + 1) - 1 <= alen dg ->
  let '(dg', _) := rebuild r prev (2 ^ Z.of_nat r) (dg, prev + 2 ^ Z.of_nat r) in
  alen dg' = alen dg /\ tree_ok dg' prev r /\ (forall x, x < prev + 2 ^ Z.of_nat r -> dg'.[x] = dg.[x]).
Proof.
  revert prev dg. induction r as [|r IH]; intros prev dg Hprev Hdg; [done|].
  cbn [rebuild]. assert (0 < 2 ^ Z.of_nat r) as Hpos by (apply Z.pow_pos_nonneg; lia).
  assert (2 ^ (Z.of_nat (S r) + 1) = 4 * 2 ^ Z.of_nat r) as E4.
  { rewrite Nat2Z.inj_succ. replace (Z.succ (Z.of_nat r) + 1) with (Z.of_nat r + 2) by lia.
    rewrite Z.pow_add_r by lia. lia. }
  assert (2 ^ (Z.of_nat r + 1) = 2 * 2 ^ Z.of_nat r) as E2' by (rewrite Z.pow_add_r by lia; lia).
  assert (2 ^ Z.of_nat (S r) = 2 * 2 ^ Z.of_nat r) as E2 by (rewrite Nat2Z.inj_succ, Z.pow_succ_r by lia; lia).
  rewrite (proj2 (Z.ltb_lt _ _)) by lia.
  assert (Z.shiftr (2 ^ Z.of_nat (S r)) 1 = 2 ^ Z.of_nat r /\ 2 ^ Z.of_nat (S r) / 2 = 2 ^ Z.of_nat r) as [-> ->].
  { rewrite Z.shiftr_div_pow2 by lia. rewrite E2, Z.mul_comm. split; apply Z.div_mul; lia. }
  pose proof (rebuild_pairs_spec (Z.to_nat (2 ^ Z.of_nat r)) dg prev (2 ^ Z.of_nat (S r)) 0
    ltac:(lia) ltac:(lia) ltac:(lia) ltac:(lia)) as Hp.
  change (2 * 0) with 0 in Hp. rewrite Z.add_0_r, Z2Nat.id in Hp by lia.
  destruct (rebuild_pairs _ _ _ _) as [dg1 di1]. destruct Hp as (-> & Hl1 & Hx1).
  specialize (IH (prev + 2 ^ Z.of_nat (S r)) dg1 ltac:(lia) ltac:(lia)).
  destruct (rebuild r _ _ _) as [dg2 di2]. destruct IH as (Hl2 & Ht & Hx2).
  split; [lia|]. split.
  - cbn [tree_ok]. split; [|exact Ht]. intros i Hi. rewrite !Hx2, !Hx1 by lia.
    rewrite decide_True, !decide_False by lia.
    by replace (prev + 2 ^ Z.of_nat (S r) + i - prev - 2 ^ Z.of_nat (S r)) with i by lia.
  - intros x Hx. by rewrite Hx2, Hx1, decide_False by lia.
Qed.

(** *** The flag words stay 64-bit words *)
Definition words_ok (fl : list Z) : Prop := forall w, 0 <= w < alen fl -> is_u64 (fl.[w]).

Lemma land_u64 x y : is_u64 x -> is_u64 (Z.land x y).
Proof.
  unfold is_u64. intros Hx. assert (0 <= Z.land x y) by (apply Z.land_nonneg; left; lia). split; [done|].
  apply testbit_bound; [lia|done|]. intros i Hi. rewrite Z.land_spec, (testbit_high x 64) by lia. done.
Qed.

Lemma lor_u64 x y : is_u64 x -> is_u64 y -> is_u64 (Z.lor x y).
Proof.
  unfold is_u64. intros Hx Hy. assert (0 <= Z.lor x y) by (apply Z.lor_nonneg; lia). split; [done|].
  apply testbit_bound; [lia|done|]. intros i Hi. rewrite Z.lor_spec, (testbit_high x 64), (testbit_high y 64) by lia. done.
Qed.

Lemma words_ok_set fl w x : words_ok fl -> (0 <= w < alen fl -> is_u64 x) -> words_ok (fl.[w := x]).
Proof.
  intros Hf Hx w' Hw'. rewrite alen_aset in Hw'. rewrite aget_aset. case_decide as Hd; [destruct Hd; auto|]. by apply Hf.
Qed.

Lemma climb_pair_words prev i st : words_ok st.1.1 -> words_ok (climb_pair prev i st).1.1.
Proof.
  destruct st as [[fl dg] di]. cbn [fst]. intros Hf. unfold climb_pair. destruct (pair_test fl i); [|done]. cbn [fst].
  assert (words_ok (pair_clear fl i)) as Hc.
  { apply words_ok_set; [done|]. intros. apply land_u64. by apply Hf. }
  apply words_ok_set; [done|]. intros. apply lor_u64; [by apply Hc|apply u64_range].
Qed.

Lemma climb_pairs_words n prev i st : words_ok st.1.1 -> words_ok (climb_pairs n prev i st).1.1.
Proof.
  revert i st. induction n as [|n IH]; intros i st Hf; [done|]. cbn [climb_pairs]. apply IH. by apply climb_pair_words.
Qed.

Lemma climb_words f prev n st : words_ok st.1.1 -> words_ok (climb climb_level f prev n st).1.1.
Proof.
  revert prev n st. induction f as [|f IH]; intros prev n st Hf; [done|]. cbn [climb]. destruct (1 <? n); [|done].
  apply IH. by apply climb_pairs_words.
Qed.

(** *** The word-skipping climb of the universe is the plain climb *)
Lemma climb_pairs_app a b prev i st :
  climb_pairs (a + b) prev i st = climb_pairs b prev (i + 2 * Z.of_nat a) (climb_pairs a prev i st).
Proof.
  revert i st. induction a as [|a IH]; intros i st.
  - cbn. f_equal. lia.
  - cbn [Nat.add climb_pairs]. rewrite IH. f_equal. lia.
Qed.

Lemma climb_pairs_skip m prev c off fl dg di :
  fl.[c] = 0 -> 0 <= off -> off + 2 * Z.of_nat m <= 64 ->
  climb_pairs m prev (64 * c + off) (fl, dg, di) = (fl, dg, di + Z.of_nat m).
Proof.
  intros Hw. revert off di. induction m as [|m IH]; intros off di Ho Hm; [cbn; f_equal; lia|].
  cbn [climb_pairs]. unfold climb_pair at 1, pair_test.
  assert (Z.shiftr (64 * c + off) 6 = c) as ->.
  { rewrite Z.shiftr_div_pow2 by lia. change (2 ^ 6) with 64. Z.div_mod_to_equations; lia. }
  rewrite Hw, Z.land_0_l. cbn [Z.eqb negb]. replace (64 * c + off + 2) with (64 * c + (off + 2)) by lia.
  rewrite IH by lia. f_equal. lia.
Qed.

Lemma climb_chunks_pairs n prev c st :
  climb_chunks n prev c st = climb_pairs (n * 32) prev (64 * c) st.
Proof.
  revert c st. induction n as [|n IH]; intros c st; [done|].
  change (climb_chunks (S n) prev c st) with (climb_chunks n prev (c + 1) (climb_chunk prev c st)).
  change (S n * 32)%nat with (32 + n * 32)%nat. rewrite IH, climb_pairs_app.
  replace (64 * c + 2 * Z.of_nat 32) with (64 * (c + 1)) by lia. f_equal.
  destruct st as [[fl dg] di]. unfold climb_chunk. destruct (Z.eqb_spec (fl.[c]) 0) as [Hw|Hw].
  - rewrite <- (Z.add_0_r (64 * c)). by rewrite climb_pairs_skip by lia.
  - f_equal. rewrite Z.shiftl_mul_pow2 by lia. lia.
Qed.

Lemma climb_level_chunked_eq prev n st :
  0 <= n -> n < 64 \/ n mod 64 = 0 -> climb_level_chunked prev n st = climb_level prev n st.
Proof.
  intros Hn Hm. unfold climb_level_chunked. destruct (Z.leb_spec 64 n); [|done].
  rewrite climb_chunks_pairs. unfold climb_level. f_equal.
  rewrite Z.shiftr_div_pow2 by lia. change (2 ^ 6) with 64. Z.div_mod_to_equations. lia.
Qed.

Lemma climb_chunked_eq r prev st :
  climb climb_level_chunked r prev (2 ^ Z.of_nat r) st = climb climb_level r prev (2 ^ Z.of_nat r) st.
Proof.
  revert prev st. induction r as [|r IH]; intros prev st; [done|]. cbn [climb].
  assert (0 < 2 ^ Z.of_nat r) as Hpos by (apply Z.pow_pos_nonneg; lia).
  assert (Z.shiftr (2 ^ Z.of_nat (S r)) 1 = 2 ^ Z.of_nat r) as ->.
  { rewrite Z.shiftr_div_pow2, Nat2Z.inj_succ, Z.pow_succ_r, Z.mul_comm by lia. apply Z.div_mul. lia. }
  destruct (1 <? _); [|done]. rewrite IH. f_equal. apply climb_level_chunked_eq; [lia|].
  destruct (decide (6 <= Z.of_nat (S r))) as [Hr|Hr].
  - right. replace (Z.of_nat (S r)) with (6 + (Z.of_nat (S r) - 6)) by lia. rewrite Z.pow_add_r by lia.
    change (2 ^ 6) with 64. rewrite Z.mul_comm. apply Z.mod_mul. lia.
  - left. change 64 with (2 ^ 6). apply Z.pow_lt_mono_r; lia.
Qed.
End Merkle.
