(* ===== verification/Bytes.v ===== *)
(** * Integers in byte arrays

    Structures that the program overlays on raw memory are modelled as byte arrays; a field is
    read and written little-endian at its offset.  [copyMem] is the overlapping-safe copy
    of src/extensions/overload.h. *)
From S2P Require Import Prelude.

Fixpoint le_read (n : nat) (buf : list Z) (off : Z) : Z :=
  match n with O => 0 | S n' => buf.[off] + 2 ^ 8 * le_read n' buf (off + 1) end.
Fixpoint le_write (n : nat) (buf : list Z) (off v : Z) : list Z :=
  match n with O => buf | S n' => le_write n' (buf.[off := v mod 2 ^ 8]) (off + 1) (v / 2 ^ 8) end.

Lemma alen_le_write n : forall buf off v, alen (le_write n buf off v) = alen buf.
Proof. induction n as [|n IH]; intros; simpl; [done|]. by rewrite IH, alen_aset. Qed.

Lemma le_write_other n : forall buf off v i,
  i < off \/ off + Z.of_nat n <= i -> (le_write n buf off v).[i] = buf.[i].
Proof.
  induction n as [|n IH]; intros buf off v i Hi; [done|]. cbn [le_write].
  rewrite IH by lia. by rewrite aget_aset_ne by lia.
Qed.

Lemma le_read_ext n : forall buf buf' off,
  (forall i, off <= i < off + Z.of_nat n -> buf.[i] = buf'.[i]) -> le_read n buf off = le_read n buf' off.
Proof.
  induction n as [|n IH]; intros buf buf' off Hext; [done|]. cbn [le_read].
  rewrite (Hext off), (IH buf buf') by lia || (intros; apply Hext; lia). done.
Qed.

Lemma le_read_write n : forall buf off v,
  0 <= off -> off + Z.of_nat n <= alen buf -> 0 <= v < 2 ^ (8 * Z.of_nat n) ->
  le_read n (le_write n buf off v) off = v.
Proof.
  induction n as [|n IH]; intros buf off v Ho Hn Hv.
  { replace (8 * Z.of_nat 0) with 0 in Hv by lia. simpl. lia. }
  cbn [le_read le_write]. rewrite le_write_other, aget_aset_eq by lia.
  rewrite IH; [pose proof (Z.div_mod v (2 ^ 8)); lia|lia|rewrite alen_aset; lia|].
  replace (8 * Z.of_nat (S n)) with (8 + 8 * Z.of_nat n) in Hv by lia. rewrite Z.pow_add_r in Hv by lia.
  split; [apply Z.div_pos; lia|apply Z.div_lt_upper_bound; lia].
Qed.

Lemma le_read_range n : forall buf off,
  (forall i, off <= i < off + Z.of_nat n -> 0 <= buf.[i] < 2 ^ 8) -> 0 <= le_read n buf off < 2 ^ (8 * Z.of_nat n).
Proof.
  induction n as [|n IH]; intros buf off Hb; [cbn; lia|]. cbn [le_read].
  pose proof (Hb off ltac:(lia)). pose proof (IH buf (off + 1) ltac:(intros; apply Hb; lia)).
  replace (8 * Z.of_nat (S n)) with (8 + 8 * Z.of_nat n) by lia. rewrite Z.pow_add_r by lia. lia.
Qed.

(** A field that a write does not touch. *)
Lemma le_read_other n m buf off off' v :
  off + Z.of_nat n <= off' \/ off' + Z.of_nat m <= off -> le_read n (le_write m buf off' v) off = le_read n buf off.
Proof. intros Hd. apply le_read_ext. intros i Hi. apply le_write_other. lia. Qed.

(** [copyMem(&buf[dst], &buf[src], len)], which reads the source before writing. *)
Definition copyMem (buf : list Z) (dst src : Z) (len : nat) : list Z :=
  for_loop len 0 (fun k b => b.[dst + k := buf.[src + k]]) buf.

Lemma copyMem_spec buf dst src len :
  0 <= dst -> dst + Z.of_nat len <= alen buf ->
  alen (copyMem buf dst src len) = alen buf /\
  forall i, (copyMem buf dst src len).[i] =
    if decide (dst <= i < dst + Z.of_nat len) then buf.[src + (i - dst)] else buf.[i].
Proof.
  intros Hd Hl.
  pose (P k b := alen b = alen buf /\ forall i, b.[i] = if decide (dst <= i < dst + k) then buf.[src + (i - dst)] else buf.[i]).
  apply (for_loop_ind P).
  - split; [done|]. intros i. by destruct (decide _); [lia|].
  - intros k b Hk [Hb Hget]. split; [by rewrite alen_aset|]. intros i. destruct (decide (i = dst + k)) as [->|].
    + rewrite aget_aset_eq, decide_True by lia. f_equal. lia.
    + rewrite aget_aset_ne, Hget by lia. by repeat destruct (decide _); try lia.
Qed.

(** A field of the destination is the field of the source. *)
Lemma copyMem_read n buf dst src len off :
  0 <= dst -> dst + Z.of_nat len <= alen buf -> dst <= off -> off + Z.of_nat n <= dst + Z.of_nat len ->
  le_read n (copyMem buf dst src len) off = le_read n buf (src + (off - dst)).
Proof.
  intros Hd Hl Ho Hn. destruct (copyMem_spec buf dst src len Hd Hl) as [_ Hget].
  revert off Ho Hn. induction n as [|n IH]; intros off Ho Hn; [done|]. cbn [le_read].
  rewrite Hget, decide_True, IH by lia. do 3 f_equal. lia.
Qed.

Lemma copyMem_read_other n buf dst src len off :
  0 <= dst -> dst + Z.of_nat len <= alen buf -> off + Z.of_nat n <= dst \/ dst + Z.of_nat len <= off ->
  le_read n (copyMem buf dst src len) off = le_read n buf off.
Proof.
  intros Hd Hl Ho. destruct (copyMem_spec buf dst src len Hd Hl) as [_ Hget].
  apply le_read_ext. intros i Hi. rewrite Hget, decide_False by lia. done.
Qed.
