(* ===== verification/StackBuffer.v ===== *)
(** * The stack of contract locals (src/contract_core/stack_buffer.h)

    A last-in-first-out allocator inside one byte array.  Every block ends with a footer of
    [sizeof(SizeType)] bytes that holds the size before the block was allocated, with the
    highest bit set for special blocks.  The clients write into their blocks between the
    calls.  The model keeps the bytes; the refinement theorem relates every sequence of
    calls and client writes to a stack of blocks. *)
From S2P Require Import Prelude Bytes.

Section StackBuffer.
(** [sizeof(StackBufferSizeType)], [bufferSize], [alignment] *)
Variable nb : nat.
Variable bufferSize alignment : Z.
Abbreviation sizeof := (Z.of_nat nb).
Abbreviation w := (8 * sizeof).

Record StackBuffer := mkStack {
  _buffer : list Z;
  _allocatedSize : Z;
  _maxAllocatedSize : Z;
  _failedAllocAttempts : Z
}.

Definition specialBlockFlag : Z := Z.shiftl 1 (w - 1).
Definition sizeMask : Z := Z.ldiff (2 ^ w - 1) specialBlockFlag.

(** Conversion to [StackBufferSizeType]. *)
Definition sz (z : Z) : Z := z mod 2 ^ w.

Definition init (s : StackBuffer) : StackBuffer := mkStack (_buffer s) 0 0 0.
Definition capacity : Z := bufferSize.
Definition size (s : StackBuffer) : Z := _allocatedSize s.
Definition maxSizeObserved (s : StackBuffer) : Z := _maxAllocatedSize s.
Definition failedAllocAttempts (s : StackBuffer) : Z := _failedAllocAttempts s.

(** Returns the offset of the block in [_buffer], or nothing for [nullptr]. *)
Definition allocate (size : Z) (specialBlock : bool) (s : StackBuffer) : StackBuffer * option Z :=
  let newSize := sz (sz (_allocatedSize s + size) + sizeof) in
  let newSize := Z.ldiff (sz (newSize + (alignment - 1))) (alignment - 1) in
  if (bufferSize <? newSize) || (newSize <=? _allocatedSize s) then
    (mkStack (_buffer s) (_allocatedSize s) (_maxAllocatedSize s) (u32 (_failedAllocAttempts s + 1)), None)
  else
    let footer := if specialBlock then Z.lor (_allocatedSize s) specialBlockFlag else _allocatedSize s in
    (mkStack (le_write nb (_buffer s) (newSize - sizeof) footer) newSize
       (if _maxAllocatedSize s <? newSize then newSize else _maxAllocatedSize s) (_failedAllocAttempts s),
     Some (_allocatedSize s)).

Definition allocateSpecial (size : Z) (s : StackBuffer) : StackBuffer * option Z := allocate size true s.

Definition free (s : StackBuffer) : StackBuffer * bool :=
  let okay := (_allocatedSize s <=? bufferSize) && (sizeof <=? _allocatedSize s) in
  let sizeBeforeLastAlloc := Z.land (le_read nb (_buffer s) (_allocatedSize s - sizeof)) sizeMask in
  let okay := okay && (sizeBeforeLastAlloc <? _allocatedSize s) in
  let okay := okay && (_maxAllocatedSize s <=? bufferSize) && (sizeBeforeLastAlloc <? _maxAllocatedSize s) in
  if okay then (mkStack (_buffer s) sizeBeforeLastAlloc (_maxAllocatedSize s) (_failedAllocAttempts s), true)
  else (mkStack (_buffer s) 0 (_maxAllocatedSize s) (_failedAllocAttempts s), false).

Definition freeAll (s : StackBuffer) : StackBuffer :=
  mkStack (_buffer s) 0 (_maxAllocatedSize s) (_failedAllocAttempts s).

(** On an empty stack the output arguments are not written. *)
Definition unwind (s : StackBuffer) : StackBuffer * bool * option (Z * Z * bool) :=
  if _allocatedSize s <? sizeof then (s, false, None)
  else
    let sizePtrOffset := _allocatedSize s - sizeof in
    let prevSizeAndFlag := le_read nb (_buffer s) sizePtrOffset in
    let size := sz (sizePtrOffset - Z.land prevSizeAndFlag sizeMask) in
    let '(s, okay) := free s in
    let specialBlock := negb (Z.land prevSizeAndFlag specialBlockFlag =? 0) in
    (s, okay, Some (_allocatedSize s, size, specialBlock)).

(** A client writes one byte of its block. *)
Definition poke (pos byte : Z) (s : StackBuffer) : StackBuffer :=
  mkStack ((_buffer s).[pos := byte]) (_allocatedSize s) (_maxAllocatedSize s) (_failedAllocAttempts s).

(** ** The abstract stack

    A block is its first offset, the offset after its footer and whether it is special; the
    youngest block comes first. *)
Record Block := mkBlock { b_start : Z; b_end : Z; b_special : bool }.
Record Stack := mkAbs { blocks : list Block; highest : Z; failures : Z }.

Definition top (l : list Block) : Z := match l with [] => 0 | b :: _ => b_end b end.
Definition round_up (z : Z) : Z := (z + (alignment - 1)) / alignment * alignment.
(** Where a block of [size] bytes ends with its footer and padding: the true end, and what is left of it in the size type *)
Definition true_end (t size : Z) : Z := round_up (t + size + sizeof).
Definition computed_end (t size : Z) : Z := if true_end t size <? 2 ^ w then true_end t size else true_end t size - 2 ^ w.

Inductive op := Allocate (size : Z) (special : bool) | Free | FreeAll | Unwind | Poke (pos byte : Z).
Inductive result := RPointer (p : option Z) | RBool (b : bool) | RBlock (ok : bool) (b : option (Z * Z * bool)) | RUnit.

Definition abs_step (o : op) (a : Stack) : Stack * result :=
  match o with
  | Allocate size sp =>
      let e := computed_end (top (blocks a)) size in
      if (top (blocks a) <? e) && (e <=? bufferSize)
      then (mkAbs (mkBlock (top (blocks a)) e sp :: blocks a) (Z.max (highest a) e) (failures a),
            RPointer (Some (top (blocks a))))
      else (mkAbs (blocks a) (highest a) (u32 (failures a + 1)), RPointer None)
  | Free =>
      match blocks a with
      | [] => (a, RBool false)
      | _ :: l => (mkAbs l (highest a) (failures a), RBool true)
      end
  | FreeAll => (mkAbs [] (highest a) (failures a), RUnit)
  | Unwind =>
      match blocks a with
      | [] => (a, RBlock false None)
      | b :: l => (mkAbs l (highest a) (failures a),
                   RBlock true (Some (b_start b, b_end b - sizeof - b_start b, b_special b)))
      end
  | Poke _ _ => (a, RUnit)
  end.

Definition stack_step (o : op) (s : StackBuffer) : StackBuffer * result :=
  match o with
  | Allocate size sp => let '(s, p) := allocate size sp s in (s, RPointer p)
  | Free => let '(s, b) := free s in (s, RBool b)
  | FreeAll => (freeAll s, RUnit)
  | Unwind => let '(s, b, r) := unwind s in (s, RBlock b r)
  | Poke pos byte => (poke pos byte s, RUnit)
  end.

Fixpoint abs_run (ops : list op) (a : Stack) : Stack * list result :=
  match ops with
  | [] => (a, [])
  | o :: ops => let '(a, r) := abs_step o a in let '(a, rs) := abs_run ops a in (a, r :: rs)
  end.
Fixpoint stack_run (ops : list op) (s : StackBuffer) : StackBuffer * list result :=
  match ops with
  | [] => (s, [])
  | o :: ops => let '(s, r) := stack_step o s in let '(s, rs) := stack_run ops s in (s, r :: rs)
  end.

(** Sizes are numbers of the size type, at most half of its range if the alignment is smaller than a footer; the clients write bytes into blocks they hold. *)
Definition op_ok (a : Stack) (o : op) : Prop :=
  match o with
  | Allocate size _ => 0 <= size < 2 ^ w /\ (sizeof <= alignment \/ size <= 2 ^ (w - 1))
  | Poke pos byte => exists b, b ∈ blocks a /\ b_start b <= pos < b_end b - sizeof
  | _ => True
  end.
Fixpoint ops_ok (a : Stack) (ops : list op) : Prop :=
  match ops with [] => True | o :: ops => op_ok a o /\ ops_ok (abs_step o a).1 ops end.

(** ** Correctness *)
Hypothesis Hnb : (1 <= nb <= 4)%nat.
Hypothesis Hbuf : 0 <= bufferSize < 2 ^ (w - 1).
Variable a : Z.
Hypothesis Halign : alignment = 2 ^ a.
Hypothesis Ha : 0 <= a <= w - 3.

Lemma sizes : 2 ^ w = 2 * 2 ^ (w - 1) /\ 2 ^ (w - 1) = 4 * 2 ^ (w - 3) /\ 4 * sizeof <= 2 ^ (w - 1).
Proof.
  split_and!.
  - rewrite <- Z.pow_succ_r by lia. f_equal. lia.
  - replace (w - 1) with (2 + (w - 3)) by lia. by rewrite Z.pow_add_r by lia.
  - assert (nb = 1 \/ nb = 2 \/ nb = 3 \/ nb = 4)%nat as [->|[->|[->| ->]]] by lia; cbn; lia.
Qed.

Lemma align_pos : 0 < alignment <= 2 ^ (w - 3).
Proof. rewrite Halign. split; [apply Z.pow_pos_nonneg; lia|apply Z.pow_le_mono_r; lia]. Qed.

Lemma flag_value : specialBlockFlag = 2 ^ (w - 1).
Proof. unfold specialBlockFlag. rewrite Z.shiftl_mul_pow2 by lia. lia. Qed.

Lemma mask_value : sizeMask = 2 ^ (w - 1) - 1.
Proof.
  unfold sizeMask. rewrite flag_value.
  replace (2 ^ w - 1) with (Z.ones w) by (rewrite Z.ones_equiv; lia).
  replace (2 ^ (w - 1) - 1) with (Z.ones (w - 1)) by (rewrite Z.ones_equiv; lia).
  apply Z.bits_inj'. intros i Hi. rewrite Z.ldiff_spec, !Z.testbit_ones_nonneg by lia.
  rewrite Z.pow2_bits_eqb by lia. destruct (Z.ltb_spec i w), (Z.eqb_spec (w - 1) i), (Z.ltb_spec i (w - 1)); cbn; (lia || done).
Qed.

(** What a footer says. *)
Definition footer (st : Z) (sp : bool) : Z := if sp then Z.lor st specialBlockFlag else st.

Lemma land_flag st : 0 <= st < 2 ^ (w - 1) -> Z.land st (2 ^ (w - 1)) = 0.
Proof.
  intros Hst. apply Z.bits_inj'. intros i Hi. rewrite Z.land_spec, Z.pow2_bits_eqb, Z.bits_0 by lia.
  destruct (Z.eqb_spec (w - 1) i) as [<-|]; [|by rewrite andb_false_r].
  by rewrite (testbit_high st (w - 1)) by lia.
Qed.

Lemma footer_value st sp : 0 <= st < 2 ^ (w - 1) -> footer st sp = st + (if sp then 2 ^ (w - 1) else 0).
Proof.
  intros Hst. unfold footer. destruct sp; [|lia]. rewrite flag_value.
  rewrite <- Z.lxor_lor by (by apply land_flag). symmetry. by apply Z.add_nocarry_lxor, land_flag.
Qed.

Lemma footer_size st sp : 0 <= st < 2 ^ (w - 1) -> Z.land (footer st sp) sizeMask = st.
Proof.
  intros Hst. rewrite mask_value, land_mask, footer_value by lia. destruct sp; [|rewrite Z.add_0_r; apply Z.mod_small; lia].
  rewrite <- (Z.mul_1_l (2 ^ (w - 1))) at 1. rewrite Z_mod_plus_full. apply Z.mod_small. lia.
Qed.

Lemma footer_special st sp : 0 <= st < 2 ^ (w - 1) -> negb (Z.land (footer st sp) specialBlockFlag =? 0) = sp.
Proof.
  intros Hst. unfold footer. rewrite flag_value. destruct sp; [|by rewrite land_flag].
  rewrite Z.land_lor_distr_l, land_flag, Z.land_diag, Z.lor_0_l by lia.
  pose proof (Z.pow_pos_nonneg 2 (w - 1)). destruct (Z.eqb_spec (2 ^ (w - 1)) 0); [lia|done].
Qed.

Lemma footer_range st sp : 0 <= st < 2 ^ (w - 1) -> 0 <= footer st sp < 2 ^ w.
Proof. intros Hst. pose proof sizes. rewrite footer_value by lia. destruct sp; lia. Qed.

Lemma round_up_range z : z <= round_up z < z + alignment.
Proof.
  pose proof align_pos. unfold round_up. pose proof (Z.div_mod (z + (alignment - 1)) alignment).
  pose proof (Z.mod_pos_bound (z + (alignment - 1)) alignment). lia.
Qed.

Lemma align_range : (alignment | 2 ^ w).
Proof. rewrite Halign. exists (2 ^ (w - a)). rewrite <- Z.pow_add_r by lia. f_equal. lia. Qed.
Lemma round_up_divide z : (alignment | round_up z).
Proof. exists ((z + (alignment - 1)) / alignment). done. Qed.
Lemma computed_divide t n : (alignment | computed_end t n).
Proof. unfold computed_end, true_end. pose proof align_range. destruct (_ <? _); [apply round_up_divide|]. by apply Z.divide_sub_r; [apply round_up_divide|]. Qed.

(** The size that allocate computes *)
Lemma allocate_size t n : 0 <= t <= bufferSize -> 0 <= n < 2 ^ w ->
  Z.ldiff (sz (sz (sz (t + n) + sizeof) + (alignment - 1))) (alignment - 1) = computed_end t n.
Proof.
  intros Ht Hn. pose proof sizes as (HB & HH & H4). pose proof align_pos as Hal. unfold computed_end, true_end, round_up. set (T := t + n + sizeof).
  assert (Z.ldiff (sz (sz (sz (t + n) + sizeof) + (alignment - 1))) (alignment - 1) = (T + (alignment - 1)) mod 2 ^ w / alignment * alignment) as ->.
  { unfold sz. rewrite (Zplus_mod_idemp_l (t + n)). fold T. rewrite Zplus_mod_idemp_l, Halign.
    replace (2 ^ a - 1) with (Z.ones a) by (rewrite Z.ones_equiv; lia). rewrite Z.ldiff_ones_r, Z.shiftl_mul_pow2, Z.shiftr_div_pow2 by lia. done. }
  destruct align_range as [d Hd]. set (X := T + (alignment - 1)). assert (0 <= X < 2 * 2 ^ w) as HX by (unfold X, T; lia). rewrite Hd in *.
  destruct (Z.lt_ge_cases X (d * alignment)) as [Hlt|Hge].
  - rewrite Z.mod_small by lia. rewrite (proj2 (Z.ltb_lt _ _)); [done|]. apply Z.mul_lt_mono_pos_r; [lia|]. apply Z.div_lt_upper_bound; lia.
  - replace (X mod (d * alignment)) with (X - d * alignment) by (apply (Z.mod_unique_pos X (d * alignment) 1); lia).
    assert ((X - d * alignment) / alignment = X / alignment - d) as -> by (rewrite <- Z.add_opp_r, <- Z.mul_opp_l, Z.div_add by lia; lia).
    rewrite (proj2 (Z.ltb_ge _ _)); [lia|]. apply Z.mul_le_mono_nonneg_r; [lia|]. apply Z.div_le_lower_bound; lia.
Qed.

(** An accepted block has room for its footer, and without a wrap-around for its contents. *)
Lemma accepted_end t n : 0 <= t <= bufferSize -> (alignment | t) -> 0 <= n < 2 ^ w -> sizeof <= alignment \/ n <= 2 ^ (w - 1) -> t < computed_end t n ->
  t + sizeof <= computed_end t n /\ (true_end t n < 2 ^ w -> t + n + sizeof <= computed_end t n).
Proof.
  intros Ht Hdt Hn Hok Hlt. pose proof sizes as (HB & HH & H4). pose proof align_pos as Hal. pose proof (round_up_range (t + n + sizeof)) as Hr. pose proof (computed_divide t n) as Hdc.
  split; [|unfold computed_end, true_end in *; destruct (Z.ltb_spec (round_up (t + n + sizeof)) (2 ^ w)); lia].
  destruct (decide (sizeof <= alignment)) as [Hs|Hs].
  - destruct Hdt as [x Ex], Hdc as [y Ey]. assert (x < y) as Hxy by (apply (Z.mul_lt_mono_pos_r alignment); lia).
    assert ((x + 1) * alignment <= y * alignment) by (apply Z.mul_le_mono_nonneg_r; lia). lia.
  - destruct Hok as [|Hok]; [done|]. unfold computed_end, true_end in *. destruct (Z.ltb_spec (round_up (t + n + sizeof)) (2 ^ w)); lia.
Qed.

(** The bytes hold the footers of the blocks, which lie one after the other. *)
Fixpoint frames (buf : list Z) (l : list Block) : Prop :=
  match l with
  | [] => True
  | b :: l =>
      b_start b = top l /\ 0 <= b_start b /\ b_start b + sizeof <= b_end b <= bufferSize /\
      (alignment | b_end b) /\
      le_read nb buf (b_end b - sizeof) = footer (b_start b) (b_special b) /\ frames buf l
  end.

Record represents (s : StackBuffer) (x : Stack) : Prop := {
  rp_len : alen (_buffer s) = bufferSize;
  rp_top : _allocatedSize s = top (blocks x);
  rp_max : _maxAllocatedSize s = highest x;
  rp_fail : _failedAllocAttempts s = failures x;
  rp_high : top (blocks x) <= highest x <= bufferSize;
  rp_frames : frames (_buffer s) (blocks x)
}.

Lemma frames_top buf l : frames buf l -> 0 <= top l /\ (l <> [] -> sizeof <= top l <= bufferSize).
Proof. destruct l as [|b l]; cbn; [|intros (? & ? & ? & _)]; (split; [lia|]); (done || lia). Qed.

(** Only the bytes of the footers matter. *)
Lemma frames_ext buf buf' l :
  frames buf l ->
  (forall b i, b ∈ l -> b_end b - sizeof <= i < b_end b -> buf'.[i] = buf.[i]) -> frames buf' l.
Proof.
  induction l as [|b l IH]; [done|]. cbn. intros (H1 & H2 & H3 & Hd & H4 & H5) Hext. split_and!; try done; try lia.
  - rewrite <- H4. apply le_read_ext. intros i Hi. apply (Hext b); [left|lia].
  - apply IH; [done|]. intros c i Hc. apply Hext. by right.
Qed.

Lemma frames_below buf l b : frames buf l -> b ∈ l -> 0 <= b_start b /\ b_start b + sizeof <= b_end b <= top l.
Proof.
  induction l as [|c l IH]; [by intros ? ?%elem_of_nil|]. cbn. intros (H1 & H2 & H3 & _ & H4 & H5) [->|Hb]%elem_of_cons; [lia|].
  specialize (IH H5 Hb). lia.
Qed.

(** A byte of one block is no byte of a footer. *)
Lemma frames_disjoint buf l b c i :
  frames buf l -> b ∈ l -> c ∈ l -> b_start b <= i < b_end b - sizeof -> ~ (b_end c - sizeof <= i < b_end c).
Proof.
  induction l as [|d l IH]; [by intros ? ?%elem_of_nil|]. cbn.
  intros (H1 & H2 & H3 & _ & H4 & H5) [->|Hb]%elem_of_cons [->|Hc]%elem_of_cons; [lia| | |by apply IH].
  - pose proof (frames_below buf l c H5 Hc). lia.
  - pose proof (frames_below buf l b H5 Hb). lia.
Qed.

Lemma init_represents s : alen (_buffer s) = bufferSize -> represents (init s) (mkAbs [] 0 0).
Proof. intros. split; cbn; (done || lia). Qed.

Lemma frames_aligned buf l : frames buf l -> (alignment | top l).
Proof. destruct l as [|b l]; cbn; [intros _; apply Z.divide_0_r|by intros (_ & _ & _ & ? & _)]. Qed.

Lemma allocate_refines n sp s x :
  represents s x -> op_ok x (Allocate n sp) ->
  let '(s', p) := allocate n sp s in
  represents s' (abs_step (Allocate n sp) x).1 /\ RPointer p = (abs_step (Allocate n sp) x).2.
Proof.
  intros [Hl Ht Hm Hf Hh Hfr] [Hn Hok]. unfold allocate. rewrite Ht.
  pose proof (frames_top _ _ Hfr) as [Ht0 _]. pose proof (frames_aligned _ _ Hfr) as Hdt.
  rewrite (allocate_size (top (blocks x)) n) by (done || lia). cbn [abs_step].
  pose proof (accepted_end (top (blocks x)) n ltac:(lia) Hdt Hn Hok) as Hacc. pose proof (computed_divide (top (blocks x)) n) as Hdv.
  set (e := computed_end (top (blocks x)) n) in *.
  assert ((bufferSize <? e) || (e <=? top (blocks x)) = negb ((top (blocks x) <? e) && (e <=? bufferSize))) as -> by lia.
  destruct (Z.ltb_spec (top (blocks x)) e) as [Hlt|], (Z.leb_spec e bufferSize) as [He|]; cbn [negb andb]; [| |split; [split; cbn; try done; by rewrite Hf|done]..]; [|split; [split; cbn; try done; by rewrite Hf|done]].
  specialize (Hacc Hlt). split; [|done]. split; cbn; rewrite ?alen_le_write, ?Hm; try done.
  - destruct (Z.ltb_spec (highest x) e); lia.
  - lia.
  - split_and!; [done|lia|lia|lia|done| |].
    + apply le_read_write; [lia|lia|]. apply footer_range. lia.
    + apply (frames_ext _ _ _ Hfr). intros b i Hb Hi. pose proof (frames_below _ _ _ Hfr Hb).
      apply le_write_other. lia.
Qed.

Lemma free_refines s x :
  represents s x ->
  let '(s', b) := free s in represents s' (abs_step Free x).1 /\ RBool b = (abs_step Free x).2.
Proof.
  intros [Hl Ht Hm Hf Hh Hfr]. unfold free. rewrite Ht, Hm. destruct x as [[|b l] hi fa]; cbn in *.
  - replace (sizeof <=? 0) with false by lia. rewrite !andb_false_r. cbn. split; [|done]. split; cbn; (done || lia).
  - destruct Hfr as (H1 & H2 & H3 & Hd & H4 & H5). rewrite H4, footer_size by lia.
    replace (_ && _) with true by lia. split; [|done].
    pose proof (frames_top _ _ H5). split; cbn; (done || lia).
Qed.

Lemma unwind_refines s x :
  represents s x ->
  let '(s', b, r) := unwind s in represents s' (abs_step Unwind x).1 /\ RBlock b r = (abs_step Unwind x).2.
Proof.
  intros Hrep. pose proof (free_refines s x Hrep) as Hfree. pose proof sizes. unfold unwind. destruct (free s) as [s' b'].
  destruct Hfree as [Hrep' Hb']. destruct Hrep as [Hl Ht Hm Hf Hh Hfr]. rewrite Ht.
  destruct x as [[|b l] hi fa]; cbn in *.
  - by replace (0 <? sizeof) with true by lia.
  - destruct Hfr as (H1 & H2 & H3 & Hd & H4 & H5). replace (b_end b <? sizeof) with false by lia.
    simplify_eq. rewrite H4, footer_size, footer_special by lia. rewrite (rp_top _ _ Hrep'). cbn. split; [done|].
    rewrite H1 in *. unfold sz. rewrite Z.mod_small by lia. done.
Qed.

Lemma step_refines o s x :
  represents s x -> op_ok x o ->
  let '(s', r) := stack_step o s in represents s' (abs_step o x).1 /\ r = (abs_step o x).2.
Proof.
  intros Hrep Hok. destruct o as [n sp| | | |pos byte]; cbn [stack_step].
  - pose proof (allocate_refines n sp s x Hrep Hok). by destruct (allocate n sp s).
  - pose proof (free_refines s x Hrep). by destruct (free s).
  - split; [|done]. destruct Hrep as [Hl Ht Hm Hf Hh Hfr]. pose proof (frames_top _ _ Hfr). split; cbn; (done || lia).
  - pose proof (unwind_refines s x Hrep). by destruct (unwind s) as [[? ?] ?].
  - destruct Hok as (b & Hb & Hpos). destruct Hrep as [Hl Ht Hm Hf Hh Hfr]. split; [|done].
    split; cbn; rewrite ?alen_aset; try done. apply (frames_ext _ _ _ Hfr). intros c i Hc Hi.
    destruct (decide (pos = i)) as [->|]; [|by apply aget_aset_ne].
    by destruct (frames_disjoint _ _ b c i Hfr Hb Hc Hpos).
Qed.

(** Live blocks are in bounds, aligned, and do not overlap. *)
Definition separate (l : list Block) : Prop :=
  (forall b, b ∈ l -> 0 <= b_start b /\ b_start b + sizeof <= b_end b <= bufferSize /\ (alignment | b_start b)) /\
  (forall i j b c, l !! i = Some b -> l !! j = Some c -> (i < j)%nat -> b_end c <= b_start b).

Lemma frames_separate buf l : frames buf l -> separate l.
Proof.
  induction l as [|b l IH]; [by split; [intros ? ?%elem_of_nil|]|]. intros (H1 & H2 & H3 & Hd & H4 & H5).
  destruct (IH H5) as [IH1 IH2]. split.
  - intros c [->|Hc]%elem_of_cons; [|by apply IH1]. split_and!; [lia..|]. rewrite H1. destruct l as [|d l]; cbn; [|by destruct H5 as (?&?&?&?&?)].
    apply Z.divide_0_r.
  - intros [|i] [|j] c d Hc Hdd Hij; [lia| |lia|by eapply (IH2 i j); [..|lia]]. cbn in Hc, Hdd. simplify_eq.
    pose proof (frames_below _ _ d H5 (list_elem_of_lookup_2 _ _ _ Hdd)). lia.
Qed.

(** A block that allocate grants without a wrap-around of the size type holds the requested number of bytes before its footer. *)
Lemma granted_size n sp s x s2 p : represents s x -> op_ok x (Allocate n sp) -> allocate n sp s = (s2, Some p) -> true_end (size s) n < 2 ^ w -> p = size s /\ p + n + sizeof <= size s2 <= bufferSize.
Proof.
  intros [Hl Ht Hm Hf Hh Hfr] [Hn Hok] Ha2 Htrue. unfold size in *. unfold allocate in Ha2. rewrite Ht in *. pose proof (frames_top _ _ Hfr) as [Ht0 _]. pose proof (frames_aligned _ _ Hfr) as Hdt.
  rewrite (allocate_size (top (blocks x)) n) in Ha2 by (done || lia). pose proof (accepted_end (top (blocks x)) n ltac:(lia) Hdt Hn Hok) as Hacc. set (e := computed_end (top (blocks x)) n) in *.
  destruct (Z.ltb_spec bufferSize e), (Z.leb_spec e (top (blocks x))); cbn [orb] in Ha2; [done..|]. injection Ha2 as <- <-. cbn [_allocatedSize]. destruct Hacc as [_ Hacc]; [lia|]. specialize (Hacc Htrue). lia.
Qed.

(** C32: for every sequence of calls, with any size that the size type can express, and of writes by the clients into blocks they hold, the byte-level stack gives the results of the abstract
    stack of blocks: free and unwind return the youngest block with its size and flag, and fail on an empty stack; allocation fails exactly when the end of the padded block, as a number of the size type, is not behind
    the previous block or not in the buffer, and then changes nothing but the failure count.  The live blocks lie in the buffer, start at multiples of the alignment
    and never overlap, not even with the footers, and the recorded maximum is the largest size reached.  A granted block holds as many bytes as asked for, provided that its true end is a number of the size type: a
    size within the alignment and a footer of the end of the range wraps around and can be granted a block that is too small.  (An alignment smaller than a footer needs sizes of at most half the range; the contracts' stacks have an alignment of 8
    for footers of 4 bytes.) *)
Theorem stack_refines ops s :
  alen (_buffer s) = bufferSize -> ops_ok (mkAbs [] 0 0) ops ->
  let '(s', rs) := stack_run ops (init s) in
  let '(x', rs') := abs_run ops (mkAbs [] 0 0) in
  rs = rs' /\ size s' = top (blocks x') /\ maxSizeObserved s' = highest x' /\
  failedAllocAttempts s' = failures x' /\ separate (blocks x') /\
  forall n sp s2 p, op_ok x' (Allocate n sp) -> allocate n sp s' = (s2, Some p) -> true_end (size s') n < 2 ^ w -> p = size s' /\ p + n + sizeof <= size s2 <= bufferSize.
Proof.
  intros Hl Hok. pose proof (init_represents s Hl) as Hrep. revert Hok Hrep. generalize (mkAbs [] 0 0) as x.
  generalize (init s) as s1. induction ops as [|o ops IH]; intros s1 x Hok Hrep; cbn [stack_run abs_run].
  - pose proof Hrep as [? ? ? ? ? Hfr]. do 4 (split; [done|]). split; [by eapply frames_separate|]. intros n sp s2 p Ho. by apply (granted_size n sp s1 x).
  - destruct Hok as [Ho Hok]. pose proof (step_refines o s1 x Hrep Ho) as Hst.
    destruct (stack_step o s1) as [s2 r]. destruct Hst as [Hrep' ->]. destruct (abs_step o x) as [x2 r2]. cbn [fst snd] in *.
    specialize (IH s2 x2 Hok Hrep'). destruct (stack_run ops s2), (abs_run ops x2).
    by destruct IH as (-> & ?).
Qed.
End StackBuffer.

(** ** Concrete runs *)
Definition ex_stack : StackBuffer := mkStack (replicate 64 7) 0 0 0.
Definition ex_stack_ops : list op :=
  [Allocate 5 false; Poke 4 255; Allocate 9 true; Allocate 40 false; Unwind; Free; Free; Allocate (2 ^ 32 - 1) false].

Lemma stack_refines_witness :
  (stack_run 4 64 8 ex_stack_ops (init ex_stack)).2 =
  [RPointer (Some 0); RUnit; RPointer (Some 16); RPointer None; RBlock true (Some (16, 12, true)); RBool true; RBool false; RPointer (Some 0)].
Proof.
  pose proof (stack_refines 4 64 8 ltac:(lia) ltac:(lia) 3 eq_refl ltac:(lia) ex_stack_ops ex_stack eq_refl) as H.
  assert (ops_ok 4 64 8 (mkAbs [] 0 0) ex_stack_ops) as Hok.
  { unfold ex_stack_ops, ops_ok. split; [cbn; lia|]. split; [exists (mkBlock 0 16 false); split; [by left|cbn; lia]|].
    split; [cbn; lia|]. split; [cbn; lia|]. do 3 (split; [exact I|]). split; [cbn; lia|exact I]. }
  specialize (H Hok). revert H. generalize (stack_run 4 64 8 ex_stack_ops (init ex_stack)) as run. intros [s' rs].
  replace (abs_run 4 64 8 ex_stack_ops (mkAbs [] 0 0)) with
    (mkAbs [mkBlock 0 8 false] 32 1, [RPointer (Some 0); RUnit; RPointer (Some 16); RPointer None; RBlock true (Some (16, 12, true)); RBool true; RBool false; RPointer (Some 0)])
    by (vm_compute; reflexivity).
  intros [-> _]. reflexivity.
Defined.

(** A size close to the range of the size type passes the overflow test: the block is far too small. *)
Example allocate_huge :
  (allocate 4 64 8 (2 ^ 32 - 1) false ex_stack).2 = Some 0 /\
  _allocatedSize (allocate 4 64 8 (2 ^ 32 - 1) false ex_stack).1 = 8.
Proof. split; reflexivity. Qed.
