(* ===== verification/ReadWriteLock.v ===== *)
(** * The read/write lock of the node (src/platform/read_write_lock.h)

    The lock is two counters that any number of threads change with interlocked operations.
    A thread is a program counter inside one of the methods; every access to a shared counter
    is one step, and the steps of different threads interleave arbitrarily.  The theorems say
    that readers and writers exclude each other in every reachable state and every assertion
    of the class holds, that waiting writers hold back new readers, and that no reachable
    state is a deadlock. *)
From S2P Require Import Prelude.

(** [volatile long readers], [volatile long writersWaiting]: 32-bit counters. *)
Record ReadWriteLock := mkLock { readers : Z; writersWaiting : Z }.

Definition reset : ReadWriteLock := mkLock 0 0.

(** Where a thread is.  The flag tells the waiting method (acquireRead, acquireWrite) from the
    one that returns at once (tryAcquireRead, tryAcquireWrite). *)
Inductive Pc :=
| Idle
| ReadCheck (wait : bool)                            (* if (writersWaiting) *)
| ReadLoad (wait : bool)                             (* currentReaders = readers *)
| ReadCas (wait : bool) (currentReaders : Z)         (* _InterlockedCompareExchange(&readers, ...) *)
| Reading
| WriteEnter                                         (* _InterlockedIncrement(&writersWaiting) *)
| WriteTry (wait : bool)                             (* _InterlockedCompareExchange(&readers, -1, 0) *)
| WriteLeave                                         (* _InterlockedDecrement(&writersWaiting) *)
| Writing.

(** A failed tryAcquireRead / tryAcquireWrite: the waiting methods call it again. *)
Definition read_failed (wait : bool) : Pc := if wait then ReadCheck true else Idle.
Definition write_failed (wait : bool) : Pc := if wait then WriteTry true else Idle.

Definition tryAcquireRead_step (l : ReadWriteLock) (p : Pc) : ReadWriteLock * Pc :=
  match p with
  | ReadCheck w => if negb (writersWaiting l =? 0) then (l, read_failed w) else (l, ReadLoad w)
  | ReadLoad w => if readers l <? 0 then (l, read_failed w) else (l, ReadCas w (readers l))
  | ReadCas w currentReaders =>
      if readers l =? currentReaders
      then (mkLock (s32 (currentReaders + 1)) (writersWaiting l), Reading)
      else (l, ReadLoad w)
  | _ => (l, p)
  end.

Definition acquireWrite_step (l : ReadWriteLock) (p : Pc) : ReadWriteLock * Pc :=
  match p with
  | WriteEnter => (mkLock (readers l) (s32 (writersWaiting l + 1)), WriteTry true)
  | WriteTry w =>
      if readers l =? 0 then (mkLock (-1) (writersWaiting l), if w then WriteLeave else Writing)
      else (l, write_failed w)
  | WriteLeave => (mkLock (readers l) (s32 (writersWaiting l - 1)), Writing)
  | _ => (l, p)
  end.

(** The next step of a thread inside a method. *)
Definition method_step (l : ReadWriteLock) (p : Pc) : ReadWriteLock * Pc :=
  match p with
  | ReadCheck _ | ReadLoad _ | ReadCas _ _ => tryAcquireRead_step l p
  | _ => acquireWrite_step l p
  end.

Definition releaseRead (l : ReadWriteLock) : ReadWriteLock := mkLock (s32 (readers l - 1)) (writersWaiting l).
Definition releaseWrite (l : ReadWriteLock) : ReadWriteLock := mkLock 0 (writersWaiting l).
Definition isLockedForWriting (l : ReadWriteLock) : bool := readers l =? -1.
Definition getCurrentReaderLockCount (l : ReadWriteLock) : Z := readers l.

(** ** Interleavings *)
Definition inside (p : Pc) : bool :=
  match p with Idle | Reading | Writing => false | _ => true end.
Definition waiting_writer (p : Pc) : bool :=
  match p with WriteTry true | WriteLeave => true | _ => false end.
Definition holds_write (p : Pc) : bool := match p with WriteLeave | Writing => true | _ => false end.
Definition holds_read (p : Pc) : bool := match p with Reading => true | _ => false end.
(** Past the test of [writersWaiting] and not yet in. *)
Definition past_check (p : Pc) : bool := match p with ReadLoad _ | ReadCas _ _ => true | _ => false end.

Definition system : Type := ReadWriteLock * list Pc.

(** What one thread may do: continue inside a method or release what it holds. *)
Inductive progress (l : ReadWriteLock) : Pc -> ReadWriteLock -> Pc -> Prop :=
| progress_method p l' p' : inside p = true -> method_step l p = (l', p') -> progress l p l' p'
| progress_releaseRead : progress l Reading (releaseRead l) Idle
| progress_releaseWrite : progress l Writing (releaseWrite l) Idle.

(** ... or call a method of the lock. *)
Inductive call : Pc -> Prop :=
| call_acquireRead : call (ReadCheck true)
| call_tryAcquireRead : call (ReadCheck false)
| call_acquireWrite : call WriteEnter
| call_tryAcquireWrite : call (WriteTry false).

Inductive step : system -> system -> Prop :=
| step_progress l ts i p l' p' :
    ts !! i = Some p -> progress l p l' p' -> step (l, ts) (l', <[i := p']> ts)
| step_call l ts i p' : ts !! i = Some Idle -> call p' -> step (l, ts) (l, <[i := p']> ts).

(** Steps without new calls. *)
Inductive drain : system -> system -> Prop :=
| drain_progress l ts i p l' p' :
    ts !! i = Some p -> progress l p l' p' -> drain (l, ts) (l', <[i := p']> ts).

Definition start (n : nat) : system := (reset, replicate n Idle).

(** ** Counting threads *)
Fixpoint cnt (f : Pc -> bool) (ts : list Pc) : Z :=
  match ts with [] => 0 | p :: ts => Z.b2z (f p) + cnt f ts end.

Lemma cnt_insert f ts i p q :
  ts !! i = Some p -> cnt f (<[i := q]> ts) = cnt f ts - Z.b2z (f p) + Z.b2z (f q).
Proof.
  revert i. induction ts as [|x ts IH]; intros [|i]; simpl; intros Hi; simplify_eq; [lia|].
  change (<[S i := q]> (x :: ts)) with (x :: <[i := q]> ts). simpl. rewrite (IH _ Hi). lia.
Qed.

Lemma cnt_range f ts : 0 <= cnt f ts <= Z.of_nat (length ts).
Proof. induction ts as [|x ts IH]; simpl; [lia|]. pose proof (b2z_range (f x)). lia. Qed.

Lemma cnt_pos f ts i p : ts !! i = Some p -> f p = true -> 0 < cnt f ts.
Proof.
  intros Hi Hf. revert i Hi.
  induction ts as [|x ts IH]; intros [|i] Hi; simpl in *; simplify_eq; pose proof (cnt_range f ts).
  - rewrite Hf. simpl. lia.
  - specialize (IH _ Hi). pose proof (b2z_range (f x)). lia.
Qed.

Lemma cnt_two f ts i j p q :
  i <> j -> ts !! i = Some p -> ts !! j = Some q -> f p = true -> f q = true -> 2 <= cnt f ts.
Proof.
  intros Hij Hi Hj Hp Hq. revert i j Hij Hi Hj.
  induction ts as [|x ts IH]; intros [|i] [|j] Hij Hi Hj; simpl in *; simplify_eq.
  - rewrite Hp. pose proof (cnt_pos f ts j q Hj Hq). simpl. lia.
  - rewrite Hq. pose proof (cnt_pos f ts i p Hi Hp). simpl. lia.
  - pose proof (b2z_range (f x)). assert (i <> j) as Hne by congruence.
    specialize (IH i j Hne Hi Hj). lia.
Qed.

Lemma cnt_exists f ts : 0 < cnt f ts -> exists i p, ts !! i = Some p /\ f p = true.
Proof.
  induction ts as [|x ts IH]; simpl; intros Hc; [lia|]. destruct (f x) eqn:Hx.
  - by exists 0%nat, x.
  - simpl in Hc. destruct IH as (i & p & ? & ?); [lia|]. by exists (S i), p.
Qed.

Lemma cnt_replicate f n p : f p = false -> cnt f (replicate n p) = 0.
Proof. intros Hf. induction n as [|n IH]; simpl; [done|]. rewrite Hf, IH. done. Qed.

(** ** The invariant *)
Record lock_inv (s : system) : Prop := {
  li_small : Z.of_nat (length s.2) < 2 ^ 31;
  li_waiting : writersWaiting s.1 = cnt waiting_writer s.2;
  li_holders :
    (readers s.1 = -1 /\ cnt holds_write s.2 = 1 /\ cnt holds_read s.2 = 0) \/
    (readers s.1 = cnt holds_read s.2 /\ cnt holds_write s.2 = 0);
  li_loaded : Forall (fun p => match p with ReadCas _ c => 0 <= c | _ => True end) s.2
}.

Lemma start_inv n : Z.of_nat n < 2 ^ 31 -> lock_inv (start n).
Proof.
  intros. split; cbn; rewrite ?length_replicate, ?cnt_replicate by done; [done|done|by right|].
  by apply Forall_replicate.
Qed.

(** The counts before and after thread [i] moves. *)
Ltac counts Hi :=
  match goal with
  | |- context [<[?i := ?q]> ?ts] =>
      pose proof (cnt_insert waiting_writer _ _ _ q Hi);
      pose proof (cnt_insert holds_write _ _ _ q Hi);
      pose proof (cnt_insert holds_read _ _ _ q Hi);
      pose proof (cnt_range waiting_writer (<[i := q]> ts)) as Hr1;
      pose proof (cnt_range holds_read (<[i := q]> ts)) as Hr2;
      rewrite length_insert in Hr1, Hr2
  end;
  repeat match goal with
  | w : bool |- _ => destruct w
  end;
  cbn [waiting_writer holds_write holds_read Z.b2z read_failed write_failed readers writersWaiting
       releaseRead releaseWrite fst snd] in *.

Lemma progress_inv l ts i p l' p' :
  lock_inv (l, ts) -> ts !! i = Some p -> progress l p l' p' -> lock_inv (l', <[i := p']> ts).
Proof.
  intros [Hs Hw Hh Hl] Hi Hp. cbn in Hs, Hw, Hh, Hl. pose proof (Forall_lookup_1 _ _ _ _ Hl Hi) as Hc.
  pose proof (cnt_range waiting_writer ts). pose proof (cnt_range holds_read ts).
  pose proof (cnt_range holds_write ts).
  destruct Hp as [p l' p' Hin Hm| |].
  - split; cbn [fst snd]; [by rewrite length_insert| | |apply Forall_insert; [done|]];
      destruct p; try discriminate Hin; cbn in Hm; repeat case_match; simplify_eq;
      try (counts Hi; rewrite ?s32_small; lia); try done; try (by destruct wait); lia.
  - pose proof (cnt_pos holds_read ts i Reading Hi eq_refl).
    split; cbn [fst snd]; [by rewrite length_insert| | |by apply Forall_insert; [|exact I]]; counts Hi; rewrite ?s32_small; lia.
  - pose proof (cnt_pos holds_write ts i Writing Hi eq_refl).
    split; cbn [fst snd]; [by rewrite length_insert| | |by apply Forall_insert; [|exact I]]; counts Hi; lia.
Qed.

Lemma step_inv s s' : lock_inv s -> step s s' -> lock_inv s'.
Proof.
  intros Hinv Hst. revert Hinv. destruct Hst as [l ts i p l' p' Hi Hp|l ts i p' Hi Hc]; intros Hinv.
  { exact (progress_inv _ _ _ _ _ _ Hinv Hi Hp). }
  destruct Hinv as [Hs Hw Hh Hl]. cbn in Hs, Hw, Hh, Hl.
  split; cbn [fst snd]; [by rewrite length_insert| | |apply Forall_insert; [done|by destruct Hc]];
    destruct Hc; counts Hi; lia.
Qed.

Lemma steps_inv s s' : lock_inv s -> rtc step s s' -> lock_inv s'.
Proof. intros Hinv. induction 1; [done|]. eauto using step_inv. Qed.

(** ** Safety *)

(** The assertions of the class at the next step of a thread. *)
Definition assertions_hold (l : ReadWriteLock) (p : Pc) : Prop :=
  readers l >= -1 /\ writersWaiting l >= 0 /\ (p = Reading -> readers l > 0) /\ (p = Writing -> readers l = -1).

(** C30: in every state that any number (below 2^31) of threads can reach from an unlocked lock,
    a thread that has write access is alone: no other thread has read or write access; the
    lock reports itself locked for writing exactly if some thread has write access, and
    otherwise its reader count is the number of threads with read access; and every assertion
    in the methods of the lock holds. *)
Theorem lock_mutual_exclusion n l ts :
  Z.of_nat n < 2 ^ 31 -> rtc step (start n) (l, ts) ->
  (forall i j p q, i <> j -> ts !! i = Some p -> ts !! j = Some q -> holds_write p = true ->
     holds_write q = false /\ holds_read q = false) /\
  (isLockedForWriting l = true <-> exists i p, ts !! i = Some p /\ holds_write p = true) /\
  (isLockedForWriting l = false -> getCurrentReaderLockCount l = cnt holds_read ts) /\
  (forall i p, ts !! i = Some p -> assertions_hold l p).
Proof.
  intros Hn Hr. pose proof (steps_inv _ _ (start_inv n Hn) Hr) as [Hs Hw Hh _]. cbn in Hs, Hw, Hh.
  pose proof (cnt_range waiting_writer ts). pose proof (cnt_range holds_read ts).
  unfold isLockedForWriting, getCurrentReaderLockCount, assertions_hold. split_and!.
  - intros i j p q Hij Hi Hj Hp. pose proof (cnt_pos _ _ _ _ Hi Hp). split.
    + destruct (holds_write q) eqn:Hq; [|done]. pose proof (cnt_two _ _ _ _ _ _ Hij Hi Hj Hp Hq). lia.
    + destruct (holds_read q) eqn:Hq; [|done]. pose proof (cnt_pos _ _ _ _ Hj Hq). lia.
  - rewrite Z.eqb_eq. split.
    + intros. apply cnt_exists. lia.
    + intros (i & p & Hi & Hp). pose proof (cnt_pos _ _ _ _ Hi Hp). lia.
  - rewrite Z.eqb_neq. lia.
  - intros i p Hi. split_and!; [lia|lia| |]; intros ->.
    + pose proof (cnt_pos holds_read _ _ _ Hi eq_refl). lia.
    + pose proof (cnt_pos holds_write _ _ _ Hi eq_refl). lia.
Qed.

(** ** Writers have priority *)

(** Runs in which a writer is waiting before every step; the index counts read accesses granted. *)
Inductive waited_run : Z -> system -> system -> Prop :=
| waited_refl s : waited_run 0 s s
| waited_step n s s' s'' :
    0 < writersWaiting s.1 -> step s s' -> waited_run n s' s'' ->
    waited_run (Z.max 0 (cnt holds_read s'.2 - cnt holds_read s.2) + n) s s''.

Lemma waited_step_past s s' :
  0 < writersWaiting s.1 -> step s s' ->
  Z.max 0 (cnt holds_read s'.2 - cnt holds_read s.2) + cnt past_check s'.2 <= cnt past_check s.2.
Proof.
  intros Hw Hst. revert Hw. destruct Hst as [l ts i p l' p' Hi Hp|l ts i p' Hi Hc]; intros Hw; cbn [fst snd] in *;
    rewrite (cnt_insert holds_read _ _ _ p' Hi), (cnt_insert past_check _ _ _ p' Hi).
  - destruct Hp as [p l' p' Hin Hm| |]; [|cbn; lia..].
    destruct p as [|w|w|w c| | |w| |]; try discriminate Hin; cbn in Hm; repeat case_match; simplify_eq; try destruct w; cbn in *; lia.
  - destruct Hc; cbn; lia.
Qed.

(** while a writer waits, new readers are held back: however long a run is, the number of read
    accesses granted in it is at most the number of threads that had already passed the
    test of writersWaiting when the run began. *)
Theorem writer_priority n s s' : waited_run n s s' -> n <= cnt past_check s.2.
Proof.
  intros Hr. assert (n + cnt past_check s'.2 <= cnt past_check s.2); [|pose proof (cnt_range past_check s'.2); lia].
  induction Hr as [|n s s' s'' Hw Hst Hr IH]; [lia|].
  pose proof (waited_step_past s s' Hw Hst). lia.
Qed.

(** ** No deadlock *)

Lemma drain_step_inv s s' : lock_inv s -> drain s s' -> lock_inv s'.
Proof. intros Hinv Hd. destruct Hd as [l ts i p l' p' Hi Hp]. exact (progress_inv _ _ _ _ _ _ Hinv Hi Hp). Qed.

Lemma drains_inv s s' : lock_inv s -> rtc drain s s' -> lock_inv s'.
Proof. intros Hinv. induction 1; [done|]. eauto using drain_step_inv. Qed.

Lemma drain_method l ts i p l' p' :
  ts !! i = Some p -> inside p = true -> method_step l p = (l', p') -> drain (l, ts) (l', <[i := p']> ts).
Proof. intros. eapply drain_progress; [done|]. by apply progress_method. Qed.

(** Two steps of the same thread. *)
Lemma drain_again l ts i q l' s :
  (i < length ts)%nat -> rtc drain (l, ts) (l', <[i := q]> ts) ->
  (forall ts', ts' !! i = Some q -> (forall p, <[i := p]> ts' = <[i := p]> ts) -> rtc drain (l', ts') s) ->
  rtc drain (l, ts) s.
Proof.
  intros Hi H1 H2. etrans; [exact H1|]. apply H2.
  - by apply list_lookup_insert_eq.
  - intros p. apply list_insert_insert_eq.
Qed.

(** A thread that holds the lock can release it. *)
Lemma holder_releases l ts i p :
  lock_inv (l, ts) -> ts !! i = Some p -> holds_write p || holds_read p = true ->
  exists l', rtc drain (l, ts) (l', <[i := Idle]> ts).
Proof.
  intros Hinv Hi Hh. destruct p; try discriminate Hh.
  - eexists. apply rtc_once. eapply drain_progress; [done|apply progress_releaseRead].
  - exists (releaseWrite (mkLock (readers l) (s32 (writersWaiting l - 1)))).
    eapply (drain_again _ _ i Writing); [by eapply lookup_lt_Some|apply rtc_once; eapply drain_method; done|].
    intros ts' Hi' Heq. rewrite <- Heq. apply rtc_once. eapply drain_progress; [done|apply progress_releaseWrite].
  - eexists. apply rtc_once. eapply drain_progress; [done|apply progress_releaseWrite].
Qed.

Definition holders (ts : list Pc) : Z := cnt holds_write ts + cnt holds_read ts.

Lemma holders_zero l ts : lock_inv (l, ts) -> holders ts = 0 <-> readers l = 0.
Proof.
  intros [_ _ Hh _]. unfold holders. cbn in Hh. pose proof (cnt_range holds_read ts).
  pose proof (cnt_range holds_write ts). lia.
Qed.

Lemma holder_exists ts : 0 < holders ts -> exists j q, ts !! j = Some q /\ holds_write q || holds_read q = true.
Proof.
  unfold holders. intros Hc. destruct (decide (0 < cnt holds_write ts)) as [Hw|Hw].
  - destruct (cnt_exists _ _ Hw) as (j & q & Hj & Hq). exists j, q. by rewrite Hq.
  - destruct (cnt_exists holds_read ts ltac:(lia)) as (j & q & Hj & Hq). exists j, q. by rewrite Hq, orb_true_r.
Qed.

(** If the other threads release what they hold, the lock becomes free for thread [i]. *)
Lemma drain_holders i p n : forall l ts,
  lock_inv (l, ts) -> ts !! i = Some p -> holds_write p || holds_read p = false -> holders ts <= Z.of_nat n ->
  exists l' ts', rtc drain (l, ts) (l', ts') /\ readers l' = 0 /\ ts' !! i = Some p.
Proof.
  induction n as [|n IH]; intros l ts Hinv Hi Hp Hn; pose proof (cnt_range holds_read ts);
    pose proof (cnt_range holds_write ts); (destruct (decide (holders ts = 0)) as [Hz|Hz];
    [exists l, ts; split; [done|]; split; [by apply (holders_zero l ts Hinv)|done]|]).
  { unfold holders in *. lia. }
  destruct (holder_exists ts) as (j & q & Hj & Hq); [unfold holders in *; lia|].
  assert (i <> j) by (intros ->; congruence).
  destruct (holder_releases l ts j q Hinv Hj Hq) as [l1 Hr].
  destruct (IH l1 (<[j := Idle]> ts)) as (l' & ts' & Hr' & ? & ?).
  - by eapply drains_inv.
  - by rewrite list_lookup_insert_ne.
  - done.
  - unfold holders in *. rewrite (cnt_insert holds_write _ _ _ Idle Hj), (cnt_insert holds_read _ _ _ Idle Hj).
    destruct (holds_write q), (holds_read q); cbn in *; (lia || done).
  - exists l', ts'. split; [by etrans|done].
Qed.

(** A waiting writer passes through a free lock and leaves it free. *)
Lemma writer_passes l ts j :
  readers l = 0 -> ts !! j = Some (WriteTry true) ->
  exists l', rtc drain (l, ts) (l', <[j := Idle]> ts) /\ readers l' = 0.
Proof.
  intros Hl Hj. pose proof (lookup_lt_Some _ _ _ Hj) as Hlt. eexists. split.
  - eapply (drain_again _ _ j WriteLeave); [done|apply rtc_once; eapply drain_method; [done..|]|].
    { cbn. by rewrite Hl. }
    intros ts1 Hj1 H1. eapply (drain_again _ _ j Writing); [by eapply lookup_lt_Some|apply rtc_once; eapply drain_method; done|].
    intros ts2 Hj2 H2. rewrite <- H1, <- H2. apply rtc_once. eapply drain_progress; [done|apply progress_releaseWrite].
  - done.
Qed.

(** From a free lock all waiting writers can be served. *)
Lemma drain_writers i p n : forall l ts,
  lock_inv (l, ts) -> readers l = 0 -> ts !! i = Some p -> waiting_writer p = false ->
  cnt waiting_writer ts <= Z.of_nat n ->
  exists l' ts', rtc drain (l, ts) (l', ts') /\ readers l' = 0 /\ writersWaiting l' = 0 /\ ts' !! i = Some p.
Proof.
  induction n as [|n IH]; intros l ts Hinv Hl Hi Hp Hn; pose proof (cnt_range waiting_writer ts);
    (destruct (decide (cnt waiting_writer ts = 0)) as [Hz|Hz];
    [exists l, ts; split; [done|]; split_and!; [done|pose proof (li_waiting _ Hinv) as Hw; cbn in Hw; lia|done]|]); [lia|].
  destruct (cnt_exists waiting_writer ts ltac:(lia)) as (j & q & Hj & Hq).
  assert (i <> j) by (intros ->; congruence).
  assert (q = WriteTry true) as ->.
  { apply (holders_zero l ts Hinv) in Hl. unfold holders in Hl. pose proof (cnt_range holds_read ts).
    destruct q as [| | | | | |[]| |]; try done. pose proof (cnt_pos holds_write ts j _ Hj eq_refl). lia. }
  destruct (writer_passes l ts j Hl Hj) as (l1 & Hr & Hl1).
  destruct (IH l1 (<[j := Idle]> ts)) as (l' & ts' & Hr' & Hrest).
  - by eapply drains_inv.
  - done.
  - by rewrite list_lookup_insert_ne.
  - done.
  - rewrite (cnt_insert waiting_writer _ _ _ Idle Hj). cbn. lia.
  - exists l', ts'. split; [by etrans|done].
Qed.

(** On a free lock the steps of the thread itself are enough. *)
Lemma reader_enters l ts i p :
  readers l = 0 -> writersWaiting l = 0 -> ts !! i = Some p ->
  p = ReadCheck true \/ p = ReadLoad true \/ (exists c, p = ReadCas true c) ->
  exists l', rtc drain (l, ts) (l', <[i := Reading]> ts).
Proof.
  intros Hr Hw Hi Hp. pose proof (lookup_lt_Some _ _ _ Hi) as Hlt.
  assert (forall ts, ts !! i = Some (ReadCas true 0) -> exists l', rtc drain (l, ts) (l', <[i := Reading]> ts)) as H3.
  { intros ts1 H1. eexists. apply rtc_once. eapply drain_method; [done..|]. cbn. by rewrite Hr. }
  assert (forall ts, ts !! i = Some (ReadLoad true) -> exists l', rtc drain (l, ts) (l', <[i := Reading]> ts)) as H2.
  { intros ts1 H1. pose proof (lookup_lt_Some _ _ _ H1).
    destruct (H3 (<[i := ReadCas true 0]> ts1)) as [l' Hl']; [by apply list_lookup_insert_eq|].
    exists l'. rewrite list_insert_insert_eq in Hl'. eapply rtc_l; [|done]. eapply drain_method; [done..|]. cbn. by rewrite Hr. }
  destruct Hp as [->|[->|[c ->]]]; [|by apply H2|].
  - destruct (H2 (<[i := ReadLoad true]> ts)) as [l' Hl']; [by apply list_lookup_insert_eq|].
    exists l'. rewrite list_insert_insert_eq in Hl'. eapply rtc_l; [|done]. eapply drain_method; [done..|]. cbn. by rewrite Hw.
  - destruct (decide (c = 0)) as [->|Hc]; [by apply H3|].
    destruct (H2 (<[i := ReadLoad true]> ts)) as [l' Hl']; [by apply list_lookup_insert_eq|].
    exists l'. rewrite list_insert_insert_eq in Hl'. eapply rtc_l; [|done]. eapply drain_method; [done..|]. cbn.
    rewrite Hr. by destruct (Z.eqb_spec 0 c); [lia|].
Qed.

Lemma writer_enters l ts i p :
  readers l = 0 -> ts !! i = Some p -> p = WriteEnter \/ p = WriteTry true ->
  exists l', rtc drain (l, ts) (l', <[i := Writing]> ts).
Proof.
  intros Hr Hi Hp.
  assert (forall l ts, readers l = 0 -> ts !! i = Some (WriteTry true) ->
    exists l', rtc drain (l, ts) (l', <[i := Writing]> ts)) as H1.
  { intros l1 ts1 Hr1 Hi1. eexists.
    eapply (drain_again _ _ i WriteLeave); [by eapply lookup_lt_Some|apply rtc_once; eapply drain_method; [done..|]|].
    { cbn. by rewrite Hr1. }
    intros ts2 Hj2 H2. rewrite <- H2. apply rtc_once. eapply drain_method; done. }
  destruct Hp as [->| ->]; [|by apply H1].
  destruct (H1 (mkLock (readers l) (s32 (writersWaiting l + 1))) (<[i := WriteTry true]> ts)) as [l' Hl'];
    [done|by apply list_lookup_insert_eq, (lookup_lt_Some _ _ _ Hi)|].
  exists l'. rewrite list_insert_insert_eq in Hl'. eapply rtc_l; [|done]. by eapply drain_method.
Qed.

(** C31: the lock cannot deadlock: from every reachable state, a thread that waits in acquireRead
    or acquireWrite gets its access in some continuation in which no thread calls a further
    acquire method, that is, in which the threads only finish what they have begun and
    release what they hold. *)
Theorem lock_no_deadlock n l ts i p :
  Z.of_nat n < 2 ^ 31 -> rtc step (start n) (l, ts) -> ts !! i = Some p ->
  (p = ReadCheck true \/ p = ReadLoad true \/ (exists c, p = ReadCas true c) ->
     exists l' ts', rtc drain (l, ts) (l', ts') /\ ts' !! i = Some Reading) /\
  (p = WriteEnter \/ p = WriteTry true \/ p = WriteLeave ->
     exists l' ts', rtc drain (l, ts) (l', ts') /\ ts' !! i = Some Writing).
Proof.
  intros Hn Hr Hi. pose proof (steps_inv _ _ (start_inv n Hn) Hr) as Hinv.
  assert (holds_write p || holds_read p = false -> exists l' ts', rtc drain (l, ts) (l', ts') /\
    readers l' = 0 /\ ts' !! i = Some p) as Hfree.
  { intros Hp. apply (drain_holders i p (Z.to_nat (holders ts))); try done. lia. }
  split; intros Hp.
  - destruct Hfree as (l1 & ts1 & Hd1 & Hr1 & Hi1); [by destruct Hp as [->|[->|[? ->]]]|].
    destruct (drain_writers i p (Z.to_nat (cnt waiting_writer ts1)) l1 ts1) as (l2 & ts2 & Hd2 & Hr2 & Hw2 & Hi2);
      [by eapply drains_inv|done|done|by destruct Hp as [->|[->|[? ->]]]|lia|].
    destruct (reader_enters l2 ts2 i p Hr2 Hw2 Hi2 Hp) as [l' Hd3].
    eexists l', _. split; [by etrans; [|etrans]|]. by apply list_lookup_insert_eq, (lookup_lt_Some _ _ _ Hi2).
  - assert (p = WriteLeave \/ p = WriteEnter \/ p = WriteTry true) as [->|Hp'] by tauto.
    { eexists _, _. split; [apply rtc_once; by eapply drain_method|].
      by apply list_lookup_insert_eq, (lookup_lt_Some _ _ _ Hi). }
    destruct Hfree as (l1 & ts1 & Hd1 & Hr1 & Hi1); [by destruct Hp' as [->| ->]|].
    destruct (writer_enters l1 ts1 i p Hr1 Hi1 Hp') as [l' Hd3].
    eexists l', _. split; [by etrans|]. by apply list_lookup_insert_eq, (lookup_lt_Some _ _ _ Hi1).
Qed.

(** ** A concrete run: thread 0 reads, thread 1 waits for write access, thread 2 tries to read *)
Definition ex_lock : system := (mkLock 1 1, [Reading; WriteTry true; ReadCheck true]).

Lemma ex_lock_reachable : rtc step (start 3) ex_lock.
Proof.
  eapply rtc_l; [apply (step_call _ _ 0%nat (ReadCheck true)); [reflexivity|constructor]|].
  eapply rtc_l; [eapply (step_progress _ _ 0%nat); [reflexivity|apply progress_method; reflexivity]|].
  eapply rtc_l; [eapply (step_progress _ _ 0%nat); [reflexivity|apply progress_method; reflexivity]|].
  eapply rtc_l; [eapply (step_progress _ _ 0%nat); [reflexivity|apply progress_method; reflexivity]|].
  eapply rtc_l; [apply (step_call _ _ 1%nat WriteEnter); [reflexivity|constructor]|].
  eapply rtc_l; [eapply (step_progress _ _ 1%nat); [reflexivity|apply progress_method; reflexivity]|].
  eapply rtc_l; [apply (step_call _ _ 2%nat (ReadCheck true)); [reflexivity|constructor]|].
  apply rtc_refl.
Defined.

Lemma lock_mutual_exclusion_witness :
  assertions_hold (mkLock 1 1) (WriteTry true).
Proof. apply (lock_mutual_exclusion 3 (mkLock 1 1) _ ltac:(lia) ex_lock_reachable) with (i := 1%nat). reflexivity. Defined.

Lemma lock_no_deadlock_witness :
  exists l' ts', rtc drain ex_lock (l', ts') /\ ts' !! 2%nat = Some Reading.
Proof.
  apply (lock_no_deadlock 3 (mkLock 1 1) _ 2 (ReadCheck true) ltac:(lia) ex_lock_reachable eq_refl). by left.
Defined.

Lemma writer_priority_witness : Z.max 0 (cnt holds_read [Reading; WriteTry true; ReadCheck true] - 1) + 0 <= 0.
Proof.
  apply (writer_priority _ ex_lock ex_lock). apply (waited_step 0 ex_lock ex_lock ex_lock); [reflexivity| |constructor].
  apply (step_progress (mkLock 1 1) [Reading; WriteTry true; ReadCheck true] 2 (ReadCheck true) _ (ReadCheck true));
    [reflexivity|]. apply progress_method; reflexivity.
Defined.
