(* ===== verification/TritPack.v ===== *)
(** * Storage forms of network parts (src/mining/trit_pack.h)

    Three packings of small numbers: trits at two bits each in 64-bit words, trits five to a
    byte in base 3, and indices of a fixed bit width packed end to end.  Each is packed and
    unpacked loop by loop as in the source; the theorems are the round trips. *)
From S2P Require Import Prelude.

(** [bitsToIndex]: the loop counts up while [(1ULL << bits) < count]. *)
Definition bitsToIndex (count : Z) : Z :=
  while_loop (fun bits => u64 (Z.shiftl 1 bits) <? count) (fun bits => bits + 1) 64 0.

(** ** Two bits per trit *)
Section PackedTrits.
Variable GROUPS TRITS_PER_GROUP : nat.
Abbreviation T := (Z.of_nat TRITS_PER_GROUP).

Definition pack_group (src : list Z) (g : Z) : Z :=
  for_loop TRITS_PER_GROUP 0
    (fun i packed => Z.lor packed (u64 (Z.shiftl (Z.land (src.[g * T + i]) 3) (i * 2)))) 0.
Definition pack_trits (src word : list Z) : list Z :=
  for_loop GROUPS 0 (fun g word => word.[g := pack_group src g]) word.
Definition unpack_trits (word dst : list Z) : list Z :=
  for_loop GROUPS 0 (fun g dst =>
    let packed := word.[g] in
    for_loop TRITS_PER_GROUP 0 (fun i dst => dst.[g * T + i := u8 (Z.land (Z.shiftr packed (i * 2)) 3)]) dst) dst.
End PackedTrits.

(** ** Five trits per byte *)
Definition byte_trits (v : Z) : list Z :=
  (for_loop 5 0 (fun k '(row, rest) => (row.[k := u8 (rest mod 3)], rest / 3)) (replicate 5 0, v)).1.
Definition makeBase3ByteTrits : list (list Z) :=
  for_loop 256 0 (fun v table => table.[v := byte_trits v]) (replicate 256 []).
Definition BASE3_BYTE_TRITS : list (list Z) := makeBase3ByteTrits.

Section PackedBase3.
Variable TRITS : nat.
Definition byteCount3 : Z := (Z.of_nat TRITS + 5 - 1) / 5.

Definition pack_byte3 (src : list Z) (b : Z) : Z :=
  u8 (for_loop 5 0 (fun k '(packed, weight) =>
    let i := b * 5 + k in
    let t := if i <? Z.of_nat TRITS then src.[i] mod 3 else 0 in
    (u32 (packed + t * weight), u32 (weight * 3))) (0, 1)).1.
Definition pack_base3 (src data : list Z) : list Z :=
  for_loop (Z.to_nat byteCount3) 0 (fun b data => data.[b := pack_byte3 src b]) data.

Definition unpack_base3 (data dst : list Z) : list Z :=
  let wholeBytes := Z.of_nat TRITS / 5 in
  let dst := for_loop (Z.to_nat wholeBytes) 0 (fun b dst =>
    let row := BASE3_BYTE_TRITS.[data.[b]] in
    for_loop 5 0 (fun k dst => dst.[b * 5 + k := row.[k]]) dst) dst in
  let row := BASE3_BYTE_TRITS.[data.[byteCount3 - 1]] in
  for_loop (Z.to_nat (Z.of_nat TRITS - wholeBytes * 5)) (wholeBytes * 5)
    (fun i dst => dst.[i := row.[i - wholeBytes * 5]]) dst.
End PackedBase3.

(** ** Indices of [BITS] bits *)
Section PackedIndices.
Variable COUNT : nat.
Variable BITS : Z.
Definition byteCountI : Z := (Z.of_nat COUNT * BITS + 7) / 8.

(** [while (accBits >= 8)]: whole bytes leave the accumulator. *)
Fixpoint flush (fuel : nat) (st : list Z * Z * Z * Z) : list Z * Z * Z * Z :=
  match fuel with
  | O => st
  | S fuel' =>
      let '(data, acc, accBits, out) := st in
      if 8 <=? accBits
      then flush fuel' (data.[out := u8 (Z.land acc 0xFF)], Z.shiftr acc 8, accBits - 8, out + 1)
      else st
  end.
Definition pack_index (src : list Z) (i : Z) (st : list Z * Z * Z * Z) : list Z * Z * Z * Z :=
  let '(data, acc, accBits, out) := st in
  let acc := Z.lor acc (u64 (Z.shiftl (Z.land (src.[i]) (2 ^ BITS - 1)) accBits)) in
  flush 3 (data, acc, accBits + BITS, out).
Definition pack_indices (src data : list Z) : list Z :=
  let '(data, acc, accBits, out) := for_loop COUNT 0 (pack_index src) (data, 0, 0, 0) in
  if 0 <? accBits then data.[out := u8 (Z.land acc 0xFF)] else data.

Definition fastCount : Z :=
  let windowed := if 3 <=? byteCountI then ((byteCountI - 3) * 8 + 7) / BITS + 1 else 0 in
  if windowed <? Z.of_nat COUNT then windowed else Z.of_nat COUNT.

Definition read_window (data : list Z) (i : Z) : Z :=
  let base := i * BITS in
  let byteIndex := Z.shiftr base 3 in
  let window := Z.lor (Z.lor (data.[byteIndex]) (u32 (Z.shiftl (data.[byteIndex + 1]) 8)))
                  (u32 (Z.shiftl (data.[byteIndex + 2]) 16)) in
  u16 (Z.land (Z.shiftr window (Z.land base 7)) (2 ^ BITS - 1)).
Definition read_bits (data : list Z) (i : Z) : Z :=
  let base := i * BITS in
  u16 (for_loop (Z.to_nat BITS) 0 (fun k value =>
    let bit := base + k in
    if negb (Z.land (Z.shiftr (data.[Z.shiftr bit 3]) (Z.land bit 7)) 1 =? 0)
    then Z.lor value (u32 (Z.shiftl 1 k)) else value) 0).
Definition unpack_indices (data dst : list Z) : list Z :=
  let dst := for_loop (Z.to_nat fastCount) 0 (fun i dst => dst.[i := read_window data i]) dst in
  for_loop (COUNT - Z.to_nat fastCount) fastCount (fun i dst => dst.[i := read_bits data i]) dst.
End PackedIndices.

Example ex_trits : unpack_trits 2 3 (pack_trits 2 3 [0;1;2;2;1;0] [9;9]) (replicate 6 7) = [0;1;2;2;1;0].
Proof. vm_compute. reflexivity. Qed.
Example ex_base3 : unpack_base3 7 (pack_base3 7 [0;1;2;2;1;0;2] [9;9]) (replicate 7 9) = [0;1;2;2;1;0;2].
Proof. vm_compute. reflexivity. Qed.
Example ex_indices : unpack_indices 5 11 (pack_indices 5 11 [2047;3;1000;77;512] (replicate 7 255)) (replicate 5 9) = [2047;3;1000;77;512].
Proof. vm_compute. reflexivity. Qed.

(** ** Round trip: two bits per trit *)

Lemma land_shift_low a n m : 0 <= m -> m + 2 <= n -> Z.land (Z.shiftr (Z.shiftl a n) m) 3 = 0.
Proof.
  intros. apply Z.bits_inj'. intros i Hi. rewrite Z.bits_0, Z.land_spec, Z.shiftr_spec, Z.shiftl_spec by lia.
  destruct (Z.lt_ge_cases i 2).
  - by rewrite Z.testbit_neg_r by lia.
  - by rewrite (testbit_high 3 2), andb_false_r by lia.
Qed.

Lemma trit_land_range a : 0 <= Z.land a 3 < 4.
Proof. change 3 with (2 ^ 2 - 1). rewrite land_mask by lia. apply Z.mod_pos_bound. lia. Qed.

Lemma lor_shift_bound p v n m : 0 <= n -> 0 <= m -> 0 <= p < 2 ^ n -> 0 <= v < 2 ^ m -> 0 <= Z.lor p (Z.shiftl v n) < 2 ^ (n + m).
Proof.
  intros Hn Hm Hp Hv. assert (0 <= Z.shiftl v n) by (apply Z.shiftl_nonneg; lia).
  assert (0 <= Z.lor p (Z.shiftl v n)) by (apply Z.lor_nonneg; lia). split; [done|].
  apply testbit_bound; [lia|done|]. intros i Hi. rewrite Z.lor_spec, Z.shiftl_spec by lia.
  rewrite (testbit_high p n), (testbit_high v m) by lia. done.
Qed.

Lemma pack_group_spec TRITS_PER_GROUP src g :
  (2 * TRITS_PER_GROUP <= 64)%nat ->
  forall k, 0 <= k < Z.of_nat TRITS_PER_GROUP ->
  Z.land (Z.shiftr (pack_group TRITS_PER_GROUP src g) (k * 2)) 3 =
  Z.land (src.[g * Z.of_nat TRITS_PER_GROUP + k]) 3.
Proof.
  intros H64. set (v i := Z.land (src.[g * Z.of_nat TRITS_PER_GROUP + i]) 3).
  pose (P i p := 0 <= p < 2 ^ (i * 2) /\ forall k, 0 <= k < i -> Z.land (Z.shiftr p (k * 2)) 3 = v k).
  enough (P (0 + Z.of_nat TRITS_PER_GROUP) (pack_group TRITS_PER_GROUP src g)) as [_ HP] by (intros; apply HP; lia).
  apply (for_loop_ind P).
  - split; [cbn; lia|]. lia.
  - intros i p Hi [Hp Hk]. fold (v i). pose proof (trit_land_range (src.[g * Z.of_nat TRITS_PER_GROUP + i])) as Hv. fold (v i) in Hv.
    assert (0 <= Z.lor p (Z.shiftl (v i) (i * 2)) < 2 ^ (i * 2 + 2)) as Hb by (apply lor_shift_bound; lia).
    assert (u64 (Z.shiftl (v i) (i * 2)) = Z.shiftl (v i) (i * 2)) as ->.
    { apply u64_small. rewrite Z.shiftl_mul_pow2 by lia.
      assert (v i * 2 ^ (i * 2) < 2 ^ 2 * 2 ^ (i * 2)) by (apply Z.mul_lt_mono_pos_r; lia).
      rewrite <- Z.pow_add_r in H by lia. pose proof (Z.pow_le_mono_r 2 (2 + i * 2) 64). unfold is_u64. nia. }
    split; [by replace ((i + 1) * 2) with (i * 2 + 2) by lia|]. intros k Hk'.
    rewrite Z.shiftr_lor, Z.land_lor_distr_l. destruct (decide (k = i)) as [->|].
    + rewrite Z.shiftr_shiftl_l by lia. replace (i * 2 - i * 2) with 0 by lia. rewrite Z.shiftl_0_r.
      rewrite (Z.shiftr_div_pow2 p), Z.div_small by lia. unfold v. by rewrite <- Z.land_assoc.
    + rewrite land_shift_low by lia. rewrite Z.lor_0_r. apply Hk. lia.
Qed.

(** A nested loop that writes [dst[g * T + i]]. *)
Lemma nested_fill n T (f : Z -> Z -> Z) dst :
  Z.of_nat n * Z.of_nat T <= alen dst ->
  let dst' := for_loop n 0 (fun g dst => for_loop T 0 (fun i dst => dst.[g * Z.of_nat T + i := f g i]) dst) dst in
  alen dst' = alen dst /\
  forall g i, 0 <= g < Z.of_nat n -> 0 <= i < Z.of_nat T -> dst'.[g * Z.of_nat T + i] = f g i.
Proof.
  intros Hlen.
  apply (for_loop_ind (fun m dst' => alen dst' = alen dst /\
    forall g i, 0 <= g < m -> 0 <= i < Z.of_nat T -> dst'.[g * Z.of_nat T + i] = f g i)); [split; [done|lia]|].
  intros g dst1 Hg [Hl Hget].
  assert (let dst2 := for_loop T 0 (fun i dst => dst.[g * Z.of_nat T + i := f g i]) dst1 in
    alen dst2 = alen dst /\
    (forall j, j < g * Z.of_nat T -> dst2.[j] = dst1.[j]) /\
    forall i, 0 <= i < 0 + Z.of_nat T -> dst2.[g * Z.of_nat T + i] = f g i) as (Hl2 & Hlow & Hnew).
  { apply (for_loop_ind (fun m dst2 => alen dst2 = alen dst /\ (forall j, j < g * Z.of_nat T -> dst2.[j] = dst1.[j]) /\
      forall i, 0 <= i < m -> dst2.[g * Z.of_nat T + i] = f g i)); [split_and!; [done|done|lia]|].
    intros i d2 Hi (Ha & Hb & Hc). split_and!; [by rewrite alen_aset| |].
    - intros j Hj. rewrite aget_aset_ne by lia. by apply Hb.
    - intros j Hj. destruct (decide (j = i)) as [->|].
      + apply aget_aset_eq. rewrite Ha. nia.
      + rewrite aget_aset_ne by lia. apply Hc. lia. }
  split; [done|]. intros g' i Hg' Hi. destruct (decide (g' = g)) as [->|]; [apply Hnew; lia|].
  rewrite Hlow by nia. apply Hget; lia.
Qed.

Lemma trits_roundtrip GROUPS T src word dst :
  (2 * T <= 64)%nat -> alen word = Z.of_nat GROUPS -> alen dst = Z.of_nat GROUPS * Z.of_nat T -> alen src = alen dst ->
  (forall i, 0 <= i < alen src -> 0 <= src.[i] < 3) ->
  unpack_trits GROUPS T (pack_trits GROUPS T src word) dst = src.
Proof.
  intros HT Hw Hd Hs Hsrc. destruct (for_fill (pack_group T src) GROUPS 0 word) as [Hl Hget]; [lia|lia|].
  fold (pack_trits GROUPS T src word) in Hl, Hget.
  destruct (nested_fill GROUPS T (fun g i => u8 (Z.land (Z.shiftr ((pack_trits GROUPS T src word).[g]) (i * 2)) 3)) dst)
    as [Hl2 Hget2]; [lia|].
  apply arr_ext; [unfold unpack_trits; lia|]. intros j Hj. unfold unpack_trits in *. rewrite Hl2 in Hj.
  assert (0 < Z.of_nat T) by nia.
  pose proof (Z.div_mod j (Z.of_nat T)) as Hdm. pose proof (Z.mod_pos_bound j (Z.of_nat T)).
  assert (0 <= j / Z.of_nat T < Z.of_nat GROUPS) by (split; [apply Z.div_pos; lia|apply Z.div_lt_upper_bound; lia]).
  replace j with (j / Z.of_nat T * Z.of_nat T + j mod Z.of_nat T) at 1 by lia.
  rewrite Hget2 by lia. rewrite Hget, decide_True, pack_group_spec by lia.
  replace (j / Z.of_nat T * Z.of_nat T + j mod Z.of_nat T) with j by lia.
  specialize (Hsrc j ltac:(lia)). change 3 with (2 ^ 2 - 1). rewrite land_mask by lia. unfold u8.
  rewrite (Z.mod_small (src.[j])), Z.mod_small by lia. done.
Qed.

(** ** Round trip: five trits per byte *)

Lemma digit3 t r : 0 <= t < 3 -> (t + 3 * r) mod 3 = t /\ (t + 3 * r) / 3 = r.
Proof.
  intros. rewrite (Z.add_comm t), (Z.mul_comm 3), Z.div_add_l, (Z.div_small t), (Z.add_comm (r * 3)), Z_mod_plus_full by lia.
  rewrite Z.mod_small by lia. lia.
Qed.

Lemma base3_table v : 0 <= v < 256 -> BASE3_BYTE_TRITS.[v] = byte_trits v.
Proof.
  intros. destruct (for_fill byte_trits 256 0 (replicate 256 [])) as [_ Hget]; [lia|done|].
  unfold BASE3_BYTE_TRITS, makeBase3ByteTrits. rewrite Hget. by rewrite decide_True by lia.
Qed.

(** The trit of position [k] of byte [b]. *)
Definition trit_at (TRITS : nat) (src : list Z) (i : Z) : Z := if i <? Z.of_nat TRITS then src.[i] mod 3 else 0.

Lemma trit_at_range TRITS src i : 0 <= trit_at TRITS src i < 3.
Proof. unfold trit_at. destruct (_ <? _); [apply Z.mod_pos_bound|]; lia. Qed.

Lemma pack_byte3_value TRITS src b :
  let t k := trit_at TRITS src (b * 5 + k) in
  pack_byte3 TRITS src b = t 0 + 3 * (t 1 + 3 * (t 2 + 3 * (t 3 + 3 * (t 4 + 3 * 0)))).
Proof.
  intros t. unfold pack_byte3. cbn [for_loop fst]. fold (trit_at TRITS src (b * 5 + 0)) (trit_at TRITS src (b * 5 + 1)).
  change (0 + 1 + 1 + 1 + 1) with 4. change (0 + 1 + 1 + 1) with 3. change (0 + 1 + 1) with 2. change (0 + 1) with 1.
  fold (trit_at TRITS src (b * 5 + 1)) (trit_at TRITS src (b * 5 + 2)) (trit_at TRITS src (b * 5 + 3)) (trit_at TRITS src (b * 5 + 4)).
  fold (t 0) (t 1) (t 2) (t 3) (t 4).
  pose proof (trit_at_range TRITS src (b * 5 + 0) : 0 <= t 0 < 3). pose proof (trit_at_range TRITS src (b * 5 + 1) : 0 <= t 1 < 3).
  pose proof (trit_at_range TRITS src (b * 5 + 2) : 0 <= t 2 < 3). pose proof (trit_at_range TRITS src (b * 5 + 3) : 0 <= t 3 < 3).
  pose proof (trit_at_range TRITS src (b * 5 + 4) : 0 <= t 4 < 3).
  change (u32 (1 * 3)) with 3. change (u32 (3 * 3)) with 9. change (u32 (9 * 3)) with 27. change (u32 (27 * 3)) with 81.
  unfold u8, u32. rewrite (Z.mod_small (0 + t 0 * 1)) by lia. rewrite (Z.mod_small (0 + t 0 * 1 + t 1 * 3)) by lia.
  rewrite (Z.mod_small (_ + t 2 * 9)) by lia. rewrite (Z.mod_small (_ + t 3 * 27)) by lia.
  rewrite (Z.mod_small (_ + t 4 * 81)) by lia. rewrite Z.mod_small by lia. lia.
Qed.

Lemma base3_row TRITS src b k :
  0 <= k < 5 -> BASE3_BYTE_TRITS.[pack_byte3 TRITS src b].[k] = trit_at TRITS src (b * 5 + k).
Proof.
  intros Hk. rewrite pack_byte3_value. cbv zeta.
  pose proof (trit_at_range TRITS src (b * 5 + 0)) as H0. pose proof (trit_at_range TRITS src (b * 5 + 1)) as H1.
  pose proof (trit_at_range TRITS src (b * 5 + 2)) as H2. pose proof (trit_at_range TRITS src (b * 5 + 3)) as H3.
  pose proof (trit_at_range TRITS src (b * 5 + 4)) as H4.
  rewrite base3_table by lia. unfold byte_trits. cbn [for_loop].
  destruct (digit3 _ (trit_at TRITS src (b * 5 + 1) + 3 * (trit_at TRITS src (b * 5 + 2) + 3 * (trit_at TRITS src (b * 5 + 3) + 3 * (trit_at TRITS src (b * 5 + 4) + 3 * 0)))) H0) as [-> ->].
  destruct (digit3 _ (trit_at TRITS src (b * 5 + 2) + 3 * (trit_at TRITS src (b * 5 + 3) + 3 * (trit_at TRITS src (b * 5 + 4) + 3 * 0))) H1) as [-> ->].
  destruct (digit3 _ (trit_at TRITS src (b * 5 + 3) + 3 * (trit_at TRITS src (b * 5 + 4) + 3 * 0)) H2) as [-> ->].
  destruct (digit3 _ (trit_at TRITS src (b * 5 + 4) + 3 * 0) H3) as [-> ->]. destruct (digit3 _ 0 H4) as [-> _].
  unfold u8. rewrite !(Z.mod_small _ (2 ^ 8)) by lia.
  assert (k = 0 \/ k = 1 \/ k = 2 \/ k = 3 \/ k = 4) as [->|[->|[->|[->| ->]]]] by lia; reflexivity.
Qed.

Lemma base3_roundtrip TRITS src data dst :
  (0 < TRITS)%nat -> alen data = byteCount3 TRITS -> alen src = Z.of_nat TRITS -> alen dst = Z.of_nat TRITS ->
  (forall i, 0 <= i < alen src -> 0 <= src.[i] < 3) ->
  unpack_base3 TRITS (pack_base3 TRITS src data) dst = src.
Proof.
  intros HT Hd Hs Hdst Hsrc. set (n := Z.of_nat TRITS) in *.
  pose proof (Z.div_mod n 5) as Hdm. pose proof (Z.mod_pos_bound n 5) as Hm.
  assert (byteCount3 TRITS = n / 5 + (if decide (n mod 5 = 0) then 0 else 1)) as Hbc.
  { unfold byteCount3. fold n. destruct (decide (n mod 5 = 0)); symmetry; [apply (Z.div_unique _ 5 _ 4)|apply (Z.div_unique _ 5 _ (n mod 5 - 1))]; lia. }
  assert (0 <= n / 5) by (apply Z.div_pos; lia).
  destruct (for_fill (pack_byte3 TRITS src) (Z.to_nat (byteCount3 TRITS)) 0 data) as [Hl Hget]; [lia|case_decide; lia|].
  fold (pack_base3 TRITS src data) in Hl, Hget. rewrite Z2Nat.id in Hget by (case_decide; lia).
  unfold unpack_base3. fold n. set (data' := pack_base3 TRITS src data) in *.
  destruct (nested_fill (Z.to_nat (n / 5)) 5 (fun b k => BASE3_BYTE_TRITS.[data'.[b]].[k]) dst) as [Hl2 Hget2]; [lia|].
  change (Z.of_nat 5) with 5 in *. set (dst1 := for_loop (Z.to_nat (n / 5)) _ _ _) in *.
  destruct (for_fill (fun i => BASE3_BYTE_TRITS.[data'.[byteCount3 TRITS - 1]].[i - n / 5 * 5]) (Z.to_nat (n - n / 5 * 5)) (n / 5 * 5) dst1) as [Hl3 Hget3]; [lia|lia|].
  apply arr_ext; [lia|]. intros j Hj. rewrite Hl3, Hl2, Hdst in Hj. rewrite Hget3. specialize (Hsrc j ltac:(lia)).
  assert (trit_at TRITS src j = src.[j]) as Hj'.
  { unfold trit_at. fold n. destruct (Z.ltb_spec j n); [|lia]. apply Z.mod_small. lia. }
  destruct (decide (n / 5 * 5 <= j < _)) as [Hlast|Hlast].
  - rewrite Hget, Hbc. rewrite (decide_False _ _ (P := n mod 5 = 0)) by lia. rewrite decide_True by lia.
    rewrite base3_row by lia. rewrite <- Hj'. f_equal. lia.
  - pose proof (Z.div_mod j 5). pose proof (Z.mod_pos_bound j 5). assert (0 <= j / 5 < n / 5).
    { split; [apply Z.div_pos; lia|]. apply Z.div_lt_upper_bound; lia. }
    replace j with (j / 5 * 5 + j mod 5) at 1 by lia. rewrite Hget2 by lia.
    rewrite Hget, decide_True, base3_row by (case_decide; lia). rewrite <- Hj'. f_equal. lia.
Qed.

(** ** Round trip: indices *)
Section IndexRoundTrip.
Variable COUNT : nat.
Variable BITS : Z.
Hypothesis HBITS : 1 <= BITS <= 16.
Variable src : list Z.

(** Bit [b] of the packed indices, and of the bytes. *)
Definition src_bit (b : Z) : bool := Z.testbit (src.[b / BITS]) (b mod BITS).
Definition byte_bit (data : list Z) (b : Z) : bool := Z.testbit (data.[b / 8]) (b mod 8).

(** The first [total] bits are in the bytes below [out] and in the accumulator. *)
Record packed_to (total : Z) (st : list Z * Z * Z * Z) : Prop := {
  pt_len : alen st.1.1.1 = byteCountI COUNT BITS;
  pt_total : total = 8 * st.2 + st.1.2;
  pt_bits : 0 <= st.1.2;
  pt_out : 0 <= st.2;
  pt_acc : 0 <= st.1.1.2 < 2 ^ st.1.2;
  pt_bytes : forall j, 0 <= j < st.2 -> 0 <= st.1.1.1.[j] < 2 ^ 8;
  pt_done : forall b, 0 <= b < 8 * st.2 -> byte_bit st.1.1.1 b = src_bit b;
  pt_pending : forall m, 0 <= m < st.1.2 -> Z.testbit st.1.1.2 m = src_bit (8 * st.2 + m)
}.

Lemma byte_value acc : u8 (Z.land acc 0xFF) = acc mod 2 ^ 8.
Proof. unfold u8. change 0xFF with (2 ^ 8 - 1). rewrite land_mask by lia. by rewrite Z.mod_mod. Qed.

Lemma byte_bit_aset data out v b :
  0 <= out < alen data -> byte_bit (data.[out := v]) b =
  if decide (b / 8 = out) then Z.testbit v (b mod 8) else byte_bit data b.
Proof.
  intros Ho. unfold byte_bit. destruct (decide (b / 8 = out)) as [->|Hne].
  - by rewrite aget_aset_eq.
  - by rewrite aget_aset_ne.
Qed.

Lemma packed_room total st :
  packed_to total st -> total <= Z.of_nat COUNT * BITS -> 0 < st.1.2 -> 0 <= st.2 < alen st.1.1.1.
Proof.
  intros [Hl Ht Hb Ho _ _ _ _] Htot Hpos. rewrite Hl. unfold byteCountI. split; [done|].
  apply Z.lt_le_trans with ((8 * st.2 + 8) / 8); [|apply Z.div_le_mono; lia].
  replace (8 * st.2 + 8) with ((st.2 + 1) * 8) by lia. rewrite Z.div_mul by lia. lia.
Qed.

(** One byte leaves the accumulator (which may hold fewer than 8 bits at the very end). *)
Lemma packed_emit total data acc accBits out :
  packed_to total (data, acc, accBits, out) -> total <= Z.of_nat COUNT * BITS -> 0 < accBits ->
  let data' := data.[out := u8 (Z.land acc 0xFF)] in
  alen data' = byteCountI COUNT BITS /\ (forall j, 0 <= j < out + 1 -> 0 <= data'.[j] < 2 ^ 8) /\
  (forall b, 0 <= b < 8 * out + Z.min 8 accBits -> byte_bit data' b = src_bit b).
Proof.
  intros Hst Htot Hpos data'. pose proof (packed_room _ _ Hst Htot Hpos) as Hroom. cbn in Hroom.
  destruct Hst as [Hl Ht Hb Ho Ha Hby Hd Hp]. cbn in *. unfold data'. rewrite byte_value.
  split; [by rewrite alen_aset|]. split.
  - intros j Hj. destruct (decide (j = out)) as [->|].
    + rewrite aget_aset_eq by done. apply Z.mod_pos_bound. lia.
    + rewrite aget_aset_ne by lia. apply Hby. lia.
  - intros b Hbb. rewrite byte_bit_aset by done. pose proof (Z.div_mod b 8). pose proof (Z.mod_pos_bound b 8).
    destruct (decide (b / 8 = out)) as [He|He].
    + rewrite testbit_mod_pow2 by lia. replace (b mod 8 <? 8) with true by lia. cbn. rewrite Hp by lia. f_equal. lia.
    + apply Hd. assert (b / 8 < out); [|lia]. assert (b / 8 <= out) by (apply Z.div_le_upper_bound; lia). lia.
Qed.

Lemma flush_step total data acc accBits out :
  packed_to total (data, acc, accBits, out) -> total <= Z.of_nat COUNT * BITS -> 8 <= accBits ->
  packed_to total (data.[out := u8 (Z.land acc 0xFF)], Z.shiftr acc 8, accBits - 8, out + 1).
Proof.
  intros Hst Htot H8. destruct (packed_emit _ _ _ _ _ Hst Htot ltac:(lia)) as (H1 & H2 & H3).
  destruct Hst as [Hl Ht Hb Ho Ha Hby Hd Hp]. cbn in *. split; cbn; [done|lia|lia|lia| |done| |].
  - rewrite Z.shiftr_div_pow2 by lia. split; [apply Z.div_pos; lia|]. apply Z.div_lt_upper_bound; [lia|].
    rewrite <- Z.pow_add_r by lia. replace (8 + (accBits - 8)) with accBits by lia. lia.
  - intros b Hbb. apply H3. lia.
  - intros m Hm. rewrite Z.shiftr_spec by lia. rewrite Hp by lia. f_equal. lia.
Qed.

Lemma flush_ok n : forall total st,
  packed_to total st -> total <= Z.of_nat COUNT * BITS -> st.1.2 < 8 * Z.of_nat n + 8 ->
  packed_to total (flush n st) /\ (flush n st).1.2 < 8.
Proof.
  induction n as [|n IH]; intros total [[[data acc] accBits] out] Hst Htot Hn; cbn [flush].
  - split; [done|]. cbn in *. lia.
  - destruct (Z.leb_spec 8 accBits) as [H8|H8]; [|by split].
    apply IH; [by apply flush_step|done|]. cbn in *. lia.
Qed.

(** One index enters the accumulator. *)
Lemma accumulate_ok i data acc accBits out :
  packed_to (i * BITS) (data, acc, accBits, out) -> 0 <= i -> accBits < 8 ->
  packed_to ((i + 1) * BITS)
    (data, Z.lor acc (u64 (Z.shiftl (Z.land (src.[i]) (2 ^ BITS - 1)) accBits)), accBits + BITS, out).
Proof.
  intros [Hl Ht Hb Ho Ha Hby Hd Hp] Hi H8. cbn in *. rewrite land_mask by lia.
  pose proof (Z.mod_pos_bound (src.[i]) (2 ^ BITS) ltac:(lia)) as Hv.
  assert (u64 (Z.shiftl (src.[i] mod 2 ^ BITS) accBits) = Z.shiftl (src.[i] mod 2 ^ BITS) accBits) as ->.
  { apply u64_small. rewrite Z.shiftl_mul_pow2 by lia. pose proof (Z.pow_pos_nonneg 2 accBits).
    pose proof (Z.pow_le_mono_r 2 BITS 16). pose proof (Z.pow_le_mono_r 2 accBits 8). unfold is_u64. nia. }
  split; cbn; try done; try lia.
  - apply lor_shift_bound; lia.
  - intros m Hm. rewrite Z.lor_spec, Z.shiftl_spec by lia. destruct (Z.lt_ge_cases m accBits) as [Hlt|Hge].
    + rewrite (Z.testbit_neg_r _ (m - accBits)) by lia. rewrite orb_false_r. apply Hp. lia.
    + rewrite (testbit_high acc accBits) by lia. rewrite testbit_mod_pow2 by lia.
      replace (m - accBits <? BITS) with true by lia. cbn. unfold src_bit.
      replace (8 * out + m) with (i * BITS + (m - accBits)) by lia.
      rewrite Z.div_add_l, (Z.div_small (m - accBits)), Z.add_0_r by lia.
      by rewrite (Z.add_comm (i * BITS)), Z_mod_plus_full, Z.mod_small by lia.
Qed.

Lemma pack_indices_ok data :
  alen data = byteCountI COUNT BITS ->
  let data' := pack_indices COUNT BITS src data in
  alen data' = byteCountI COUNT BITS /\ (forall j, 0 <= j < alen data' -> 0 <= data'.[j] < 2 ^ 8) /\
  forall b, 0 <= b < Z.of_nat COUNT * BITS -> byte_bit data' b = src_bit b.
Proof.
  intros Hl. unfold pack_indices.
  assert (let st := for_loop COUNT 0 (pack_index BITS src) (data, 0, 0, 0) in
    packed_to ((0 + Z.of_nat COUNT) * BITS) st /\ st.1.2 < 8) as [Hst H8].
  { apply (for_loop_ind (fun i st => packed_to (i * BITS) st /\ st.1.2 < 8)).
    - split; [|cbn; lia]. split; cbn; (done || lia).
    - intros i [[[d acc] accBits] out] Hi [Hst H8]. unfold pack_index. cbn in H8.
      pose proof (accumulate_ok i d acc accBits out Hst ltac:(lia) H8) as Hacc.
      apply flush_ok; [done|nia|cbn; lia]. }
  rewrite Z.add_0_l in Hst. destruct (for_loop COUNT 0 _ _) as [[[d acc] accBits] out]. cbn in H8.
  pose proof (Z.div_mod (Z.of_nat COUNT * BITS + 7) 8) as Hdm. pose proof (Z.mod_pos_bound (Z.of_nat COUNT * BITS + 7) 8).
  destruct (Z.ltb_spec 0 accBits) as [Hpos|Hpos].
  - destruct (packed_emit _ _ _ _ _ Hst ltac:(lia) Hpos) as (H1 & H2 & H3). destruct Hst as [_ Ht _ _ _ _ _ _]. cbn in *.
    split_and!; [done| |intros b Hb; apply H3; lia]. rewrite H1. unfold byteCountI. intros j Hj. apply H2. lia.
  - destruct Hst as [H1 Ht Hb Ho Ha Hby Hd Hp]. cbn in *. split_and!; [done| |intros b Hbb; apply Hd; lia].
    rewrite H1. unfold byteCountI. intros j Hj. apply Hby. lia.
Qed.

Lemma src_bit_index i k : 0 <= k < BITS -> src_bit (i * BITS + k) = Z.testbit (src.[i]) k.
Proof.
  intros. unfold src_bit. rewrite Z.div_add_l, (Z.div_small k), Z.add_0_r by lia.
  by rewrite (Z.add_comm (i * BITS)), Z_mod_plus_full, Z.mod_small by lia.
Qed.

Lemma shiftr3 z : Z.shiftr z 3 = z / 8.
Proof. by rewrite Z.shiftr_div_pow2 by lia. Qed.
Lemma land7 z : Z.land z 7 = z mod 8.
Proof. change 7 with (2 ^ 3 - 1). by rewrite land_mask by lia. Qed.

(** Both ways of reading give the index back. *)
Lemma read_window_ok data i :
  (forall b, 0 <= b < Z.of_nat COUNT * BITS -> byte_bit data b = src_bit b) ->
  (forall j, 0 <= j < alen data -> 0 <= data.[j] < 2 ^ 8) ->
  0 <= i < Z.of_nat COUNT -> i * BITS / 8 + 2 < alen data -> 0 <= src.[i] < 2 ^ BITS ->
  read_window BITS data i = src.[i].
Proof.
  intros Hbits Hby Hi Hroom Hv. unfold read_window, u16. rewrite shiftr3, land7, land_mask by lia.
  set (q := i * BITS / 8) in *. assert (0 <= q) by (apply Z.div_pos; lia).
  pose proof (Hby q ltac:(lia)). pose proof (Hby (q + 1) ltac:(lia)). pose proof (Hby (q + 2) ltac:(lia)).
  pose proof (Z.div_mod (i * BITS) 8) as Hdm. fold q in Hdm. pose proof (Z.mod_pos_bound (i * BITS) 8).
  rewrite !u32_small by (unfold is_u32; rewrite Z.shiftl_mul_pow2 by lia; lia).
  apply Z.bits_inj'. intros k Hk. rewrite !testbit_mod_pow2 by lia.
  destruct (Z.ltb_spec k BITS) as [Hlt|Hge]; [|rewrite andb_false_r; by rewrite (testbit_high (src.[i]) BITS) by lia].
  replace (k <? 16) with true by lia. cbn [andb]. rewrite Z.shiftr_spec by lia.
  rewrite <- src_bit_index by lia. rewrite <- Hbits by nia.
  set (m := k + (i * BITS) mod 8) in *. rewrite !Z.lor_spec, !Z.shiftl_spec by lia.
  unfold byte_bit. replace (i * BITS + k) with (q * 8 + m) by lia. rewrite Z.div_add_l by lia.
  rewrite (Z.add_comm (q * 8)), Z_mod_plus_full.
  assert (m < 8 \/ 8 <= m < 16 \/ 16 <= m < 24) as [Hm|[Hm|Hm]] by lia.
  - rewrite (Z.testbit_neg_r _ (m - 8)), (Z.testbit_neg_r _ (m - 16)) by lia.
    rewrite Z.div_small, Z.mod_small, Z.add_0_r, !orb_false_r by lia. done.
  - rewrite (testbit_high (data.[q]) 8), (Z.testbit_neg_r _ (m - 16)) by lia.
    replace (m / 8) with 1 by (apply (Z.div_unique _ 8 1 (m - 8)); lia).
    replace (m mod 8) with (m - 8) by (apply (Z.mod_unique _ 8 1); lia). by rewrite orb_false_r.
  - rewrite (testbit_high (data.[q]) 8), (testbit_high (data.[q + 1]) 8) by lia.
    replace (m / 8) with 2 by (apply (Z.div_unique _ 8 2 (m - 16)); lia).
    replace (m mod 8) with (m - 16) by (apply (Z.mod_unique _ 8 2); lia). done.
Qed.

Lemma read_bits_loop data i :
  (forall b, 0 <= b < Z.of_nat COUNT * BITS -> byte_bit data b = src_bit b) -> 0 <= i < Z.of_nat COUNT ->
  for_loop (Z.to_nat BITS) 0 (fun k value =>
    if negb (Z.land (Z.shiftr (data.[Z.shiftr (i * BITS + k) 3]) (Z.land (i * BITS + k) 7)) 1 =? 0)
    then Z.lor value (u32 (Z.shiftl 1 k)) else value) 0 = src.[i] mod 2 ^ BITS.
Proof.
  intros Hbits Hi. pose (P n (value : Z) := value = src.[i] mod 2 ^ n).
  replace (2 ^ BITS) with (2 ^ (0 + Z.of_nat (Z.to_nat BITS))) by (f_equal; lia).
  apply (for_loop_ind P); [unfold P; cbn; by rewrite Z.mod_1_r|]. intros k value Hk ->. unfold P.
  pose proof (Z.mod_pos_bound (i * BITS + k) 8). rewrite shiftr3, land7. change 1 with (Z.ones 1) at 1.
  rewrite Z.land_ones, Z.shiftr_div_pow2, <- Z.testbit_spec' by lia. fold (byte_bit data (i * BITS + k)).
  rewrite Hbits, src_bit_index by nia. rewrite Z.shiftl_1_l.
  rewrite u32_small by (unfold is_u32; pose proof (Z.pow_pos_nonneg 2 k); pose proof (Z.pow_lt_mono_r 2 k 32); lia).
  apply Z.bits_inj'. intros m Hm. rewrite testbit_mod_pow2 by lia.
  destruct (Z.testbit (src.[i]) k) eqn:Hbit; cbn [Z.b2z Z.eqb negb];
    rewrite ?Z.lor_spec, ?testbit_mod_pow2, ?Z.pow2_bits_eqb by lia;
    (destruct (Z.eqb_spec k m) as [<-|];
     [rewrite Hbit; replace (k <? k + 1) with true by lia; by rewrite ?orb_true_r, ?andb_false_r
     |rewrite ?orb_false_r; f_equal; lia]).
Qed.

Lemma read_bits_ok data i :
  (forall b, 0 <= b < Z.of_nat COUNT * BITS -> byte_bit data b = src_bit b) ->
  0 <= i < Z.of_nat COUNT -> 0 <= src.[i] < 2 ^ BITS -> read_bits BITS data i = src.[i].
Proof.
  intros Hbits Hi Hv. unfold read_bits, u16. rewrite read_bits_loop by done.
  rewrite (Z.mod_small (src.[i])) by lia. pose proof (Z.pow_le_mono_r 2 BITS 16). rewrite Z.mod_small; lia.
Qed.

Lemma fastCount_ok : 0 <= fastCount COUNT BITS <= Z.of_nat COUNT /\
  forall i, 0 <= i < fastCount COUNT BITS -> i * BITS / 8 + 2 < byteCountI COUNT BITS.
Proof.
  unfold fastCount. set (c := byteCountI COUNT BITS).
  destruct (Z.leb_spec 3 c) as [H3|H3].
  - assert (0 <= ((c - 3) * 8 + 7) / BITS) by (apply Z.div_pos; lia).
    pose proof (Z.mul_div_le ((c - 3) * 8 + 7) BITS). split; [destruct (Z.ltb_spec (((c - 3) * 8 + 7) / BITS + 1) (Z.of_nat COUNT)); lia|].
    intros i Hi. assert (i <= ((c - 3) * 8 + 7) / BITS) by (destruct (Z.ltb_spec (((c - 3) * 8 + 7) / BITS + 1) (Z.of_nat COUNT)); lia).
    assert (i * BITS / 8 < c - 3 + 1); [|lia]. apply Z.div_lt_upper_bound; nia.
  - destruct (Z.ltb_spec 0 (Z.of_nat COUNT)); (split; [lia|intros; lia]).
Qed.

Lemma indices_roundtrip data dst :
  alen data = byteCountI COUNT BITS -> alen src = Z.of_nat COUNT -> alen dst = Z.of_nat COUNT ->
  (forall i, 0 <= i < alen src -> 0 <= src.[i] < 2 ^ BITS) ->
  unpack_indices COUNT BITS (pack_indices COUNT BITS src data) dst = src.
Proof.
  intros Hd Hs Hdst Hsrc. destruct (pack_indices_ok data Hd) as (Hl & Hby & Hbits).
  set (data' := pack_indices COUNT BITS src data) in *. destruct fastCount_ok as [Hf Hroom].
  unfold unpack_indices. set (f := fastCount COUNT BITS) in *.
  destruct (for_fill (read_window BITS data') (Z.to_nat f) 0 dst) as [Hl1 Hg1]; [lia|lia|].
  set (dst1 := for_loop (Z.to_nat f) _ _ _) in *.
  destruct (for_fill (read_bits BITS data') (COUNT - Z.to_nat f) f dst1) as [Hl2 Hg2]; [lia|lia|].
  apply arr_ext; [lia|]. intros i Hi. rewrite Hl2, Hl1, Hdst in Hi. rewrite Hg2.
  destruct (decide _) as [Hslow|Hfast].
  - apply read_bits_ok; [done|lia|apply Hsrc; lia].
  - rewrite Hg1, decide_True by lia. apply read_window_ok; [exact Hbits|exact Hby|lia|rewrite Hl; apply Hroom; lia|apply Hsrc; lia].
Qed.
End IndexRoundTrip.

(** ** The width of an index *)
Lemma bitsToIndex_spec count : 0 <= count <= 2 ^ 63 ->
  let b := bitsToIndex count in
  0 <= b <= 63 /\ count <= 2 ^ b /\ forall b', 0 <= b' -> count <= 2 ^ b' -> b <= b'.
Proof.
  intros Hc.
  assert (forall b, 0 <= b <= 63 -> u64 (Z.shiftl 1 b) = 2 ^ b) as Hsh.
  { intros b Hb. rewrite Z.shiftl_1_l. apply u64_small. pose proof (Z.pow_pos_nonneg 2 b).
    pose proof (Z.pow_lt_mono_r 2 b 64). unfold is_u64. lia. }
  destruct (while_loop_total (fun bits => u64 (Z.shiftl 1 bits) <? count) (fun bits => bits + 1)
    (fun b => 0 <= b <= 63 /\ forall b', 0 <= b' -> count <= 2 ^ b' -> b <= b') (fun b => 63 - b) 64 0) as [[Hb Hmin] Hdone].
  - intros b [Hb Hmin] Hlt. rewrite Hsh in Hlt by done. apply Z.ltb_lt in Hlt.
    assert (b < 63). { destruct (Z.lt_ge_cases b 63); [done|]. replace b with 63 in Hlt by lia. lia. }
    split_and!; try lia. intros b' Hb' Hcb. destruct (Z.lt_ge_cases b' (b + 1)) as [Hlt'|]; [|done].
    pose proof (Z.pow_le_mono_r 2 b' b). lia.
  - split; [lia|]. intros; lia.
  - lia.
  - cbv zeta in Hb, Hmin, Hdone. rewrite Hsh in Hdone by exact Hb. apply Z.ltb_ge in Hdone.
    exact (conj Hb (conj Hdone Hmin)).
Qed.

Definition in_range (l : list Z) (n bound : Z) : Prop := alen l = n /\ forall i, 0 <= i < n -> 0 <= l.[i] < bound.

(** packing and unpacking gives the values back, whatever the target buffers held before: trits
    at two bits each, trits five to a byte in base 3, and indices of 1 to 16 bits, where the
    windowed fast path and the bit-by-bit path of unpack both read inside the packed bytes; and
    bitsToIndex is the least width that addresses count values. *)
Theorem packing_roundtrips :
  (forall GROUPS T src word dst,
     (2 * T <= 64)%nat -> in_range src (Z.of_nat GROUPS * Z.of_nat T) 3 ->
     alen word = Z.of_nat GROUPS -> alen dst = Z.of_nat GROUPS * Z.of_nat T ->
     unpack_trits GROUPS T (pack_trits GROUPS T src word) dst = src) /\
  (forall TRITS src data dst,
     (0 < TRITS)%nat -> in_range src (Z.of_nat TRITS) 3 ->
     alen data = byteCount3 TRITS -> alen dst = Z.of_nat TRITS ->
     unpack_base3 TRITS (pack_base3 TRITS src data) dst = src) /\
  (forall COUNT BITS src data dst,
     1 <= BITS <= 16 -> in_range src (Z.of_nat COUNT) (2 ^ BITS) ->
     alen data = byteCountI COUNT BITS -> alen dst = Z.of_nat COUNT ->
     unpack_indices COUNT BITS (pack_indices COUNT BITS src data) dst = src /\
     forall i, 0 <= i < fastCount COUNT BITS -> i * BITS / 8 + 2 < byteCountI COUNT BITS) /\
  (forall count, 0 <= count <= 2 ^ 63 ->
     count <= 2 ^ bitsToIndex count /\ forall b, 0 <= b -> count <= 2 ^ b -> bitsToIndex count <= b).
Proof.
  split_and!.
  - intros GROUPS T src word dst HT [Hs Hr] Hw Hd. apply trits_roundtrip; try done; [by rewrite Hs|by rewrite Hs].
  - intros TRITS src data dst HT [Hs Hr] Hda Hd. apply base3_roundtrip; try done. by rewrite Hs.
  - intros COUNT BITS src data dst HB [Hs Hr] Hda Hd. split; [|by apply fastCount_ok].
    apply indices_roundtrip; try done. by rewrite Hs.
  - intros count Hc. exact (proj2 (bitsToIndex_spec count Hc)).
Qed.

Lemma packing_roundtrips_witness :
  unpack_indices 5 11 (pack_indices 5 11 [2047;3;1000;77;512] (replicate 7 255)) (replicate 5 9) = [2047;3;1000;77;512].
Proof.
  apply (proj1 (proj2 (proj2 packing_roundtrips)) 5%nat 11 [2047;3;1000;77;512] (replicate 7 255) (replicate 5 9));
    [lia| |reflexivity|reflexivity].
  split; [reflexivity|]. intros i Hi.
  assert (i = 0 \/ i = 1 \/ i = 2 \/ i = 3 \/ i = 4) as [->|[->|[->|[->| ->]]]] by lia;
    (vm_compute; split; [discriminate|reflexivity]).
Defined.
