(* ===== verification/ComputorIndex.v ===== *)
(** * Stable computor indices (src/ticking/stable_computor_index.h)

    At the end of an epoch the list of future computors is reordered so that a computor that
    stays keeps its index.  The model follows the two passes over the three temporary arrays. *)
From S2P Require Import Prelude.

Section ComputorIndex.
(** [NUMBER_OF_COMPUTORS] *)
Variable NC : nat.
Abbreviation NUMBER_OF_COMPUTORS := (Z.of_nat NC).

(** The inner loop of step 1: the first index of the key, if any ([break]). *)
Fixpoint find_current (n : nat) (currentIdx : Z) (key : Z) (currentComputors : list Z) : option Z :=
  match n with
  | O => None
  | S n' => if key =? currentComputors.[currentIdx] then Some currentIdx
            else find_current n' (currentIdx + 1) key currentComputors
  end.

(** [tempComputorList], [isIndexTaken], [isFutureComputorUsed] *)
Definition temp_state : Type := list Z * list bool * list bool.

Definition requalify (futureComputors currentComputors : list Z) (futureIdx : Z) (st : temp_state) : temp_state :=
  let '(temp, taken, used) := st in
  match find_current NC 0 (futureComputors.[futureIdx]) currentComputors with
  | Some currentIdx =>
      (temp.[currentIdx := futureComputors.[futureIdx]], taken.[currentIdx := true], used.[futureIdx := true])
  | None => st
  end.

(** [while (next < NUMBER_OF_COMPUTORS && isFutureComputorUsed[next]) next++] *)
Fixpoint next_unused (fuel : nat) (next : Z) (used : list bool) : Z :=
  match fuel with
  | O => next
  | S fuel' => if (next <? NUMBER_OF_COMPUTORS) && used.[next] then next_unused fuel' (next + 1) used else next
  end.

(** Step 2 for slots [i], [i + 1], ...: [None] is [return false]. *)
Fixpoint fill_slots (n : nat) (i : Z) (futureComputors : list Z) (temp : list Z) (taken used : list bool)
    (nextNewComputorIdx : Z) : option (list Z) :=
  match n with
  | O => Some temp
  | S n' =>
      if negb (taken.[i]) then
        let next := next_unused NC nextNewComputorIdx used in
        if NUMBER_OF_COMPUTORS <=? next then None
        else fill_slots n' (i + 1) futureComputors (temp.[i := futureComputors.[next]]) taken (used.[next := true]) (next + 1)
      else fill_slots n' (i + 1) futureComputors temp taken used nextNewComputorIdx
  end.

(** The return value and the contents of [futureComputors] afterwards. *)
Definition calculateStableComputorIndex (futureComputors currentComputors : list Z) : bool * list Z :=
  let '(temp, taken, used) :=
    for_loop NC 0 (requalify futureComputors currentComputors)
      (replicate NC 0, replicate NC false, replicate NC false) in
  match fill_slots NC 0 futureComputors temp taken used 0 with
  | Some temp => (true, temp)
  | None => (false, futureComputors)
  end.

(** ** Step 1 *)
Variable future current : list Z.
Hypothesis Hf : alen future = NUMBER_OF_COMPUTORS.

Definition first_index (key i : Z) : Prop :=
  0 <= i < NUMBER_OF_COMPUTORS /\ current.[i] = key /\ forall j, 0 <= j < i -> current.[j] <> key.

Lemma find_current_from n : forall i key,
  0 <= i -> i + Z.of_nat n = NUMBER_OF_COMPUTORS -> (forall j, 0 <= j < i -> current.[j] <> key) ->
  match find_current n i key current with
  | Some c => first_index key c
  | None => forall j, 0 <= j < NUMBER_OF_COMPUTORS -> current.[j] <> key
  end.
Proof.
  induction n as [|n IH]; intros i key Hi Hn Hpre; cbn [find_current].
  - intros j Hj. apply Hpre. lia.
  - destruct (Z.eqb_spec key (current.[i])) as [->|Hne].
    + split; [lia|]. split; [done|]. exact Hpre.
    + apply IH; [lia|lia|]. intros j Hj. destruct (decide (j = i)) as [->|]; [done|]. apply Hpre. lia.
Qed.

Lemma find_current_spec key :
  match find_current NC 0 key current with
  | Some c => first_index key c
  | None => forall j, 0 <= j < NUMBER_OF_COMPUTORS -> current.[j] <> key
  end.
Proof. apply find_current_from; lia. Qed.

Lemma first_index_unique key i j : first_index key i -> first_index key j -> i = j.
Proof.
  intros (Hi & Ei & Mi) (Hj & Ej & Mj). destruct (Z.lt_trichotomy i j) as [H|[H|H]]; [|done|].
  - by destruct (Mj i ltac:(lia)).
  - by destruct (Mi j ltac:(lia)).
Qed.

(** Two equal future computors that are current computors too. *)
Definition clash (n : Z) : Prop :=
  exists a b, 0 <= a < b /\ b < n /\ future.[a] = future.[b] /\ exists c, first_index (future.[a]) c.

(** What the arrays say: [p] tells which future computor stands in an assigned slot. *)
Record assigned (slot : Z -> bool) (p : Z -> Z) (temp : list Z) (used : list bool) : Prop := {
  as_temp : alen temp = NUMBER_OF_COMPUTORS;
  as_used : alen used = NUMBER_OF_COMPUTORS;
  as_val : forall i, 0 <= i < NUMBER_OF_COMPUTORS -> slot i = true ->
    0 <= p i < NUMBER_OF_COMPUTORS /\ temp.[i] = future.[p i] /\ used.[p i] = true;
  as_inj : forall i j, 0 <= i < NUMBER_OF_COMPUTORS -> 0 <= j < NUMBER_OF_COMPUTORS ->
    slot i = true -> slot j = true -> p i = p j -> i = j
}.

Definition slots (slot : Z -> bool) : Z := countZ slot NC.
Definition uses (used : list bool) : Z := countZ (fun f => used.[f]) NC.

Lemma count_set (l : list bool) i :
  alen l = NUMBER_OF_COMPUTORS -> 0 <= i < NUMBER_OF_COMPUTORS -> uses (l.[i := true]) = uses l + 1 - Z.b2z (l.[i]).
Proof.
  intros Hl Hi. unfold uses. rewrite (countZ_update (fun f => l.[f]) (fun f => (l.[i := true]).[f]) NC i Hi).
  - cbn. rewrite aget_aset_eq by lia. cbn. lia.
  - intros j Hj Hne. by rewrite aget_aset_ne.
Qed.

(** The arrays after the first [n] future computors. *)
Record requalified (n : Z) (st : temp_state) : Prop := {
  rq_taken_len : alen st.1.2 = NUMBER_OF_COMPUTORS;
  rq_assigned : exists p, assigned (fun i => st.1.2.[i]) p st.1.1 st.2;
  rq_taken : forall c, 0 <= c < NUMBER_OF_COMPUTORS -> st.1.2.[c] = true <-> exists f, 0 <= f < n /\ first_index (future.[f]) c;
  rq_fresh : forall f, n <= f < NUMBER_OF_COMPUTORS -> st.2.[f] = false;
  rq_keep : forall c, 0 <= c < NUMBER_OF_COMPUTORS -> st.1.2.[c] = true -> st.1.1.[c] = current.[c];
  rq_count : uses st.1.2 <= uses st.2 /\ (uses st.1.2 < uses st.2 <-> clash n)
}.

Lemma uses_none : uses (replicate NC false) = 0.
Proof. unfold uses, countZ. apply sumZ_zero. intros i Hi. by rewrite aget_replicate. Qed.

Lemma requalified_start : requalified 0 (replicate NC 0, replicate NC false, replicate NC false).
Proof.
  split; cbn; rewrite ?alen_replicate; try done.
  - exists (fun i => i). split; rewrite ?alen_replicate; try done; intros i Hi; rewrite (aget_replicate NC false i) by lia; done.
  - intros c Hcc. rewrite aget_replicate by lia. split; [done|]. intros (f & ? & _). lia.
  - intros f Hff. by rewrite aget_replicate by lia.
  - intros c Hcc. by rewrite aget_replicate by lia.
  - split; [done|]. split; [lia|]. intros (a & b & ? & ? & _). lia.
Qed.

Lemma clash_mono n : clash n -> clash (n + 1).
Proof. intros (a & b & Hab & Hb & Hrest). exists a, b. split; [done|]. split; [lia|done]. Qed.

(** A clash that appears with computor [n] is about [n]. *)
Lemma clash_new n : clash (n + 1) -> clash n \/ exists a c, 0 <= a < n /\ future.[a] = future.[n] /\ first_index (future.[n]) c.
Proof.
  intros (a & b & Hab & Hb & Heq & c & Hcc). destruct (decide (b = n)) as [->|].
  - right. exists a, c. rewrite <- Heq. split_and!; try done; lia.
  - left. exists a, b. split; [done|]. split; [lia|]. split; [done|]. by exists c.
Qed.

Lemma aget_true_set (l : list bool) i j : 0 <= i < alen l -> (l.[i := true]).[j] = (bool_decide (j = i) || l.[j]).
Proof.
  intros Hi. destruct (decide (j = i)) as [->|].
  - rewrite aget_aset_eq by done. by rewrite bool_decide_true.
  - rewrite aget_aset_ne by done. by rewrite bool_decide_false.
Qed.

Lemma assigned_used slot p temp used f :
  assigned slot p temp used -> 0 <= f < NUMBER_OF_COMPUTORS -> assigned slot p temp (used.[f := true]).
Proof.
  intros [H1 H2 H3 H4] Hff. split; try done; [by rewrite alen_aset|]. intros i Hi Hs. destruct (H3 i Hi Hs) as (Hp & Hv & Hu).
  split_and!; try done; try lia. by rewrite aget_true_set, Hu, orb_true_r by lia.
Qed.

(** Slot [c] gets the unused future computor [f]. *)
Lemma assigned_new slot slot' p temp used c f :
  assigned slot p temp used -> 0 <= c < NUMBER_OF_COMPUTORS -> 0 <= f < NUMBER_OF_COMPUTORS -> used.[f] = false ->
  slot c = false -> (forall i, 0 <= i < NUMBER_OF_COMPUTORS -> i <> c -> slot' i = slot i) ->
  assigned slot' (fun i => if decide (i = c) then f else p i) (temp.[c := future.[f]]) (used.[f := true]).
Proof.
  intros [H1 H2 H3 H4] Hcc Hff Hu Hs Hsl. split; [by rewrite alen_aset|by rewrite alen_aset| |].
  - intros i Hi Hs'. destruct (decide (i = c)) as [->|Hne].
    + rewrite !aget_aset_eq by lia. done.
    + rewrite Hsl in Hs' by done. destruct (H3 i Hi Hs') as (Hp & Hv & Huu). split; [done|].
      rewrite aget_aset_ne by done. split; [done|]. by rewrite aget_true_set, Huu, orb_true_r by lia.
  - intros i j Hi Hj Hsi Hsj.
    assert (forall i, 0 <= i < NUMBER_OF_COMPUTORS -> i <> c -> slot' i = true -> p i <> f) as Hpf.
    { intros k Hk Hne Hsk Hpk. rewrite Hsl in Hsk by done. destruct (H3 k Hk Hsk) as (_ & _ & Hbad). congruence. }
    destruct (decide (i = c)) as [->|Hic], (decide (j = c)) as [->|Hjc]; intros Hp; try done.
    + by destruct (Hpf j Hj Hjc Hsj).
    + by destruct (Hpf i Hi Hic Hsi).
    + rewrite Hsl in Hsi, Hsj by done. by apply H4.
Qed.

Lemma requalify_step n st :
  0 <= n < NUMBER_OF_COMPUTORS -> requalified n st -> requalified (n + 1) (requalify future current n st).
Proof.
  destruct st as [[temp taken] used]. intros Hn [Hl [p Has] Ht Hfr Hk [Hc1 Hc2]]. cbn in *.
  pose proof (find_current_spec (future.[n])) as Hfind. destruct (find_current NC 0 (future.[n]) current) as [c|].
  2: { split; cbn; try done; [by exists p| |intros; apply Hfr; lia|].
    - intros c Hcc. rewrite Ht by done. split; intros (f & Hff & Hix); [exists f; split; [lia|done]|].
      destruct (decide (f = n)) as [->|]; [|exists f; split; [lia|done]]. destruct Hix as (? & He & _). by destruct (Hfind c).
    - split; [done|]. rewrite Hc2. split; [apply clash_mono|]. intros [?|(a & c & _ & _ & ? & He & _)]%clash_new; [done|].
      by destruct (Hfind c). }
  pose proof Hfind as (Hcr & Hce & _).
  assert (forall x, 0 <= x < NUMBER_OF_COMPUTORS -> (taken.[c := true]).[x] = true <-> exists f, 0 <= f < n + 1 /\ first_index (future.[f]) x) as Ht'.
  { intros x Hx. rewrite aget_true_set by lia. rewrite orb_true_iff, bool_decide_eq_true, Ht by done. split.
    - intros [->|(f & ? & ?)]; [exists n; split; [lia|done]|exists f; split; [lia|done]].
    - intros (f & Hff & Hix). destruct (decide (f = n)) as [->|]; [left; by eapply first_index_unique|right; exists f; split; [lia|done]]. }
  assert (uses (used.[n := true]) = uses used + 1) as Hu1.
  { rewrite count_set by (apply Has || lia). rewrite Hfr by lia. cbn. lia. }
  assert (uses (taken.[c := true]) = uses taken + 1 - Z.b2z (taken.[c])) as Ht1 by (by apply count_set).
  split; cbn; try done; try by rewrite alen_aset.
  - destruct (taken.[c]) eqn:Htc.
    + exists p. replace (temp.[c := future.[n]]) with temp.
      * apply assigned_used; [|lia]. assert (taken.[c := true] = taken) as ->; [|exact Has].
        rewrite <- Htc. apply aset_aget_id.
      * rewrite <- Hce, <- (Hk c Hcr Htc). by rewrite aset_aget_id.
    + exists (fun i => if decide (i = c) then n else p i). apply (assigned_new (fun i => taken.[i])); try done; [apply Hfr; lia|].
      intros i Hi Hne. by apply aget_aset_ne.
  - intros f Hff. rewrite aget_aset_ne by lia. apply Hfr. lia.
  - intros x Hx Htx. destruct (decide (x = c)) as [->|]; [rewrite aget_aset_eq; [done|rewrite (as_temp _ _ _ _ Has); lia]|].
    rewrite aget_aset_ne in Htx by congruence. rewrite aget_aset_ne by congruence. by apply Hk.
  - rewrite Hu1, Ht1. destruct (taken.[c]) eqn:Htc; cbn.
    + split; [lia|]. split; [|lia]. intros _. apply Ht in Htc as (f & Hff & Hix); [|done]. exists f, n.
      split_and!; [lia|lia|lia|destruct Hix as (_ & <- & _); congruence|by exists c].
    + split; [lia|]. assert (uses taken + 1 - 0 < uses used + 1 <-> uses taken < uses used) as -> by lia. rewrite Hc2.
      split; [apply clash_mono|]. intros [?|(a & c' & Ha & He & Hix)]%clash_new; [done|].
      assert (c' = c) as -> by (by eapply first_index_unique).
      assert (taken.[c] = true); [|congruence]. apply Ht; [done|]. exists a. rewrite He. done.
Qed.

Lemma requalify_all :
  requalified NUMBER_OF_COMPUTORS
    (for_loop NC 0 (requalify future current) (replicate NC 0, replicate NC false, replicate NC false)).
Proof.
  rewrite <- (Z.add_0_l NUMBER_OF_COMPUTORS) at 1.
  apply (for_loop_ind requalified); [apply requalified_start|]. intros n st Hn. apply requalify_step. lia.
Qed.

(** ** Step 2 *)
Lemma next_unused_spec fuel : forall next used,
  0 <= next <= NUMBER_OF_COMPUTORS -> NUMBER_OF_COMPUTORS <= next + Z.of_nat fuel ->
  let r := next_unused fuel next used in
  next <= r <= NUMBER_OF_COMPUTORS /\ (forall f, next <= f < r -> used.[f] = true) /\
  (r < NUMBER_OF_COMPUTORS -> used.[r] = false).
Proof.
  induction fuel as [|fuel IH]; intros next used Hn Hfuel; cbn [next_unused].
  - split_and!; try lia.
  - destruct (Z.ltb_spec next NUMBER_OF_COMPUTORS) as [Hlt|Hge]; cbn [andb]; [|split_and!; lia].
    destruct (used.[next]) eqn:Hu; [|split_and!; (done || lia)].
    destruct (IH (next + 1) used) as (H1 & H2 & H3); [lia|lia|]. split_and!; [lia|lia| |done].
    intros f Hff. destruct (decide (f = next)) as [->|]; [done|]. apply H2. lia.
Qed.

Definition slot_before (taken : list bool) (i : Z) (j : Z) : bool := taken.[j] || (j <? i).

Lemma slots_next taken i :
  0 <= i < NUMBER_OF_COMPUTORS ->
  slots (slot_before taken (i + 1)) = slots (slot_before taken i) + 1 - Z.b2z (taken.[i]).
Proof.
  intros Hi. unfold slots. rewrite (countZ_update (slot_before taken i) _ NC i Hi).
  - unfold slot_before. replace (i <? i + 1) with true by lia. rewrite Z.ltb_irrefl, orb_true_r, orb_false_r. cbn. lia.
  - intros j Hj Hne. unfold slot_before. f_equal. lia.
Qed.

Lemma fill_slots_ok n : forall i temp taken used next p e,
  0 <= i -> i + Z.of_nat n = NUMBER_OF_COMPUTORS -> 0 <= next <= NUMBER_OF_COMPUTORS ->
  (forall f, 0 <= f < next -> used.[f] = true) ->
  assigned (slot_before taken i) p temp used -> uses used = slots (slot_before taken i) + e -> 0 <= e ->
  match fill_slots n i future temp taken used next with
  | Some temp' => e = 0 /\ (exists p' used', assigned (fun _ => true) p' temp' used') /\
      (forall j, taken.[j] = true -> temp'.[j] = temp.[j])
  | None => 0 < e
  end.
Proof.
  induction n as [|n IH]; intros i temp taken used next p e Hi Hn Hnext Hpre Has Hcnt He; cbn [fill_slots].
  - split_and!; [|exists p, used|done].
    + assert (slots (slot_before taken i) = NUMBER_OF_COMPUTORS) as Hall.
      { unfold slots. rewrite (countZ_ext _ (fun _ => true)); [unfold countZ; cbn; rewrite sumZ_const; lia|].
        intros j Hj. unfold slot_before. replace (j <? i) with true by lia. apply orb_true_r. }
      pose proof (countZ_range (fun f => used.[f]) NC). unfold uses in Hcnt. lia.
    + destruct Has as [H1 H2 H3 H4]. assert (forall j, 0 <= j < NUMBER_OF_COMPUTORS -> slot_before taken i j = true).
      { intros j Hj. unfold slot_before. replace (j <? i) with true by lia. apply orb_true_r. }
      split; try done; intros; [apply H3|apply H4]; auto.
  - pose proof (slots_next taken i ltac:(lia)) as Hslots. destruct (taken.[i]) eqn:Hti; cbn [negb].
    + apply (IH (i + 1) _ _ _ _ p); try done; try lia.
      * destruct Has as [H1 H2 H3 H4].
        assert (forall j, slot_before taken (i + 1) j = slot_before taken i j) as Heq.
        { intros j. unfold slot_before. destruct (decide (j = i)) as [->|]; [by rewrite Hti|f_equal; lia]. }
        split; try done; intros *; rewrite !Heq; [apply H3|apply H4].
      * cbn in Hslots. lia.
    + destruct (next_unused_spec NC next used) as (Hr & Hall & Hfree); [done|lia|].
      set (r := next_unused NC next used) in *.
      assert (forall f, 0 <= f < r -> used.[f] = true) as Hbelow.
      { intros f Hff. destruct (Z.lt_ge_cases f next); [apply Hpre|apply Hall]; lia. }
      destruct (Z.leb_spec NUMBER_OF_COMPUTORS r) as [Hge|Hlt].
      * assert (uses used = NUMBER_OF_COMPUTORS) as Huse.
        { unfold uses. rewrite (countZ_ext _ (fun _ => true)); [unfold countZ; cbn; rewrite sumZ_const; lia|].
          intros f Hff. apply Hbelow. lia. }
        pose proof (countZ_range (slot_before taken (i + 1)) NC) as Hmax. fold (slots (slot_before taken (i + 1))) in Hmax.
        cbn in Hslots. lia.
      * pose proof (count_set used r (as_used _ _ _ _ Has) ltac:(lia)) as Hu. rewrite Hfree in Hu by done. cbn in Hu, Hslots.
        assert (slot_before taken i i = false) as Hsi by (unfold slot_before; by rewrite Hti, Z.ltb_irrefl).
        specialize (IH (i + 1) (temp.[i := future.[r]]) taken (used.[r := true]) (r + 1)
          (fun j => if decide (j = i) then r else p j) e).
        destruct (fill_slots n (i + 1) _ _ _ _ _); [destruct IH as (-> & Hex & Hkeep)|apply IH]; try lia.
        all: try (intros f Hff; rewrite aget_true_set by (rewrite (as_used _ _ _ _ Has); lia);
          destruct (decide (f = r)) as [->|]; [by rewrite bool_decide_true|rewrite Hbelow, orb_true_r; [done|lia]]).
        all: try (apply (assigned_new (slot_before taken i)); try done; try lia; [by apply Hfree|];
          intros j Hj Hne; unfold slot_before; f_equal; lia).
        split_and!; [done|done|]. intros j Htj. rewrite Hkeep by done. apply aget_aset_ne. congruence.
Qed.

(** An injective choice of indices permutes the array. *)
Lemma assigned_permutation p temp used : assigned (fun _ => true) p temp used -> Permutation temp future.
Proof.
  intros [H1 H2 H3 H4].
  assert (forall l : list Z, alen l = NUMBER_OF_COMPUTORS -> l = (fun i => l.[i]) <$> seqZ 0 NUMBER_OF_COMPUTORS) as Hseq.
  { intros l Hl. apply list_eq. intros i. rewrite list_lookup_fmap.
    destruct (decide (i < NC)%nat) as [Hi|Hi].
    - rewrite lookup_seqZ_lt by lia. cbn. rewrite Z.add_0_l, aget_nonneg, Nat2Z.id by lia.
      apply list_lookup_lookup_total_lt. unfold alen in Hl. lia.
    - rewrite lookup_seqZ_ge by lia. cbn. apply lookup_ge_None_2. unfold alen in Hl. lia. }
  rewrite (Hseq temp H1), (Hseq future Hf).
  replace ((fun i => temp.[i]) <$> seqZ 0 NUMBER_OF_COMPUTORS) with ((fun i => future.[i]) <$> (p <$> seqZ 0 NUMBER_OF_COMPUTORS)).
  - apply fmap_Permutation. apply NoDup_Permutation_bis.
    + apply NoDup_ListNoDup, NoDup_fmap_2_strong; [|apply NoDup_seqZ].
      intros i j Hi%elem_of_seqZ Hj%elem_of_seqZ Hp. apply H4; (done || lia).
    + by rewrite length_fmap.
    + intros x Hx%list_elem_of_In%list_elem_of_fmap. destruct Hx as (i & -> & Hi%elem_of_seqZ).
      apply list_elem_of_In, elem_of_seqZ. destruct (H3 i) as (? & _ & _); [lia|done|lia].
  - rewrite <- list_fmap_compose. apply list_fmap_ext. intros k i Hk%lookup_seqZ. cbn. destruct (H3 i) as (_ & -> & _); [lia|done..].
Qed.

(** calculateStableComputorIndex fails, leaving the list of future computors unchanged, exactly if
    two equal entries of it are current computors; otherwise the new list is a
    permutation of the old one in which every current computor that stays keeps its index
    (its first index, should a key occur twice). *)
Theorem stable_index :
  let '(ok, result) := calculateStableComputorIndex future current in
  (ok = false <-> exists a b, 0 <= a < b /\ b < NUMBER_OF_COMPUTORS /\ future.[a] = future.[b] /\
     exists c, first_index (future.[a]) c) /\
  (ok = false -> result = future) /\
  (ok = true -> Permutation result future /\
     forall f i, 0 <= f < NUMBER_OF_COMPUTORS -> first_index (future.[f]) i -> result.[i] = future.[f]).
Proof.
  unfold calculateStableComputorIndex. pose proof requalify_all as Hrq.
  destruct (for_loop NC 0 _ _) as [[temp taken] used]. destruct Hrq as [Hl [p Has] Ht Hfr Hk [Hc1 Hc2]]. cbn in *.
  fold (clash NUMBER_OF_COMPUTORS).
  assert (forall j, 0 <= j < NUMBER_OF_COMPUTORS -> slot_before taken 0 j = taken.[j]) as Hs0.
  { intros j Hj. unfold slot_before. replace (j <? 0) with false by lia. apply orb_false_r. }
  pose proof (fill_slots_ok NC 0 temp taken used 0 p (uses used - uses taken)) as Hfill.
  destruct (fill_slots NC 0 _ _ _ _ _) as [temp'|].
  - destruct Hfill as (He & (p' & used' & Has') & Hkeep); try lia.
    + destruct Has as [H1 H2 H3 H4]. split; try done; intros *.
      * intros Hi. rewrite Hs0 by done. by apply H3.
      * intros Hi Hj. rewrite !Hs0 by done. by apply H4.
    + unfold slots. rewrite (countZ_ext _ (fun f => taken.[f]) NC) by (intros; apply Hs0; lia). unfold uses. lia.
    + split_and!; [|done|].
      * split; [done|]. intros Hcl%Hc2. lia.
      * intros _. split; [by eapply assigned_permutation|]. intros f i Hff Hix.
        assert (taken.[i] = true) as Hti. { apply Ht; [apply Hix|]. by exists f. }
        rewrite Hkeep, Hk; [apply Hix|apply Hix|done|done].
  - split_and!; [|done|done]. split; [|done]. intros _. apply Hc2. enough (0 < uses used - uses taken) by lia.
    apply Hfill; try lia.
    + destruct Has as [H1 H2 H3 H4]. split; try done; intros *.
      * intros Hi. rewrite Hs0 by done. by apply H3.
      * intros Hi Hj. rewrite !Hs0 by done. by apply H4.
    + unfold slots. rewrite (countZ_ext _ (fun f => taken.[f]) NC) by (intros; apply Hs0; lia). unfold uses. lia.
Qed.
End ComputorIndex.

(** ** A concrete run: computors 11 and 13 stay at 0 and 2 *)
Lemma stable_index_witness :
  (calculateStableComputorIndex 4 [13; 25; 11; 26] [11; 12; 13; 14]).2.[2] = 13.
Proof.
  pose proof (stable_index 4 [13; 25; 11; 26] [11; 12; 13; 14] eq_refl) as H.
  destruct (calculateStableComputorIndex 4 [13; 25; 11; 26] [11; 12; 13; 14]) as [ok result] eqn:E.
  assert (ok = true) as -> by (apply (f_equal fst) in E; vm_compute in E; congruence).
  destruct H as (_ & _ & H). apply (proj2 (H eq_refl) 0 2); [lia|].
  split; [lia|]. split; [reflexivity|]. intros j Hj. assert (j = 0 \/ j = 1) as [->| ->] by lia; vm_compute; congruence.
Defined.
