(* ===== verification/Insertion.v ===== *)
(** * Moving an entry to its place in a ranked array

    The loop that the miner ranking (src/qubic.cpp) and the quorum score (src/revenue.h) use to insert one entry:
    it changes places with its predecessor while that one ranks below it. *)
From S2P Require Import Prelude Sorting.

(** [tmp] is the entry at [j] when the loop starts; [floor] is the lower end of the part it may move in. *)
Fixpoint move_entry {T} `{!Inhabited T} (below : T -> T -> bool) (floor : Z -> Z) (j : nat) (tmp : T) (l : list T) : list T :=
  match j with
  | O => l
  | S j' =>
      let i := Z.of_nat j in
      if (floor i <? i) && below (l.[i - 1]) (l.[i]) then move_entry below floor j' tmp ((l.[i := l.[i - 1]]).[i - 1 := tmp])
      else l
  end.

(** ** Moving one entry *)
Section Move.
Context {T : Type} `{!Inhabited T}.
Variable below : T -> T -> bool.
Context `{!StrictWeakOrder below}.
Implicit Types l : list T.

(** No entry of [[lo, hi)] ranks below a later one. *)
Definition ranked l (lo hi : Z) : Prop := forall a b, lo <= a -> a <= b -> b < hi -> below (l.[a]) (l.[b]) = false.

(** As [ranked], but for the entry [j], which may have to move up. *)
Record ranked_but l (lo hi j : Z) : Prop := {
  rb_others : forall a b, lo <= a -> a <= b -> b < hi -> a <> j -> b <> j -> below (l.[a]) (l.[b]) = false;
  rb_after : forall b, j < b -> b < hi -> below (l.[j]) (l.[b]) = false
}.

Lemma below_irrefl x : below x x = false.
Proof. destruct (below x x) eqn:E; [|done]. by rewrite (lt_asym _ _ E) in E. Qed.

Lemma ranked_but_done l lo hi j :
  ranked_but l lo hi j -> lo <= j < hi -> (j <= lo \/ below (l.[j - 1]) (l.[j]) = false) -> ranked l lo hi.
Proof.
  intros [H1 H2] Hj Hprev a b Ha Hab Hb. destruct (decide (a = b)) as [->|]; [apply below_irrefl|].
  destruct (decide (b = j)) as [->|].
  - destruct Hprev as [|Hprev]; [lia|]. destruct (decide (a = j - 1)) as [->|]; [done|].
    apply (lt_negtrans _ (l.[j - 1])); [apply H1; lia|done].
  - destruct (decide (a = j)) as [->|]; [apply H2; lia|]. apply H1; lia.
Qed.

Lemma ranked_but_swap l lo hi j :
  ranked_but l lo hi j -> lo < j < hi -> 0 <= lo -> hi <= alen l -> below (l.[j - 1]) (l.[j]) = true ->
  ranked_but (swap l (j - 1) j) lo hi (j - 1).
Proof.
  intros [H1 H2] Hj Hlo Hhi Hlt. assert (forall k, (swap l (j - 1) j).[k] = if decide (k = j - 1) then l.[j] else if decide (k = j) then l.[j - 1] else l.[k]) as Hget
    by (intros; apply swap_get; lia).
  split.
  - intros a b Ha Hab Hb Hna Hnb. rewrite !Hget. rewrite (decide_False (P := a = j - 1)), (decide_False (P := b = j - 1)) by done.
    destruct (decide (a = j)) as [->|], (decide (b = j)) as [->|]; try lia; [apply below_irrefl|apply H1; lia|apply H1; lia|apply H1; lia].
  - intros b Hb1 Hb2. rewrite !Hget. rewrite (decide_True (P := j - 1 = j - 1)), (decide_False (P := b = j - 1)) by lia.
    destruct (decide (b = j)) as [->|]; [by apply lt_asym|]. apply H2; lia.
Qed.

Lemma swap_back l i j : 0 <= i < alen l -> 0 <= j < alen l -> swap (swap l i j) i j = l.
Proof.
  intros Hi Hj. apply arr_ext; [by rewrite !alen_swap|]. intros k _. rewrite !swap_get by (rewrite ?alen_swap; done).
  repeat case_decide; congruence.
Qed.

Lemma move_entry_ok floor lo hi : 
  0 <= lo -> (forall i, lo <= i < hi -> floor i = lo) -> forall j l,
  lo <= Z.of_nat j < hi -> hi <= alen l -> ranked_but l lo hi (Z.of_nat j) ->
  let l' := move_entry below floor j (l.[Z.of_nat j]) l in
  ranked l' lo hi /\ reorder l l' lo (hi - 1) /\ reorder l' l lo (hi - 1) /\
  forall P : list T -> Prop, (forall l i j, lo <= i < hi -> lo <= j < hi -> hi <= alen l -> P l -> P (swap l i j)) -> P l -> P l'.
Proof.
  intros Hlo Hfloor. induction j as [|j IH]; intros l Hj Hhi Hrb; cbn [move_entry].
  { split_and!; try apply reorder_refl; [|done]. apply (ranked_but_done l lo hi 0); [done|lia|lia]. }
  set (i := Z.of_nat (S j)) in *. rewrite Hfloor by done. destruct (Z.ltb_spec lo i) as [Hlt|Hge]; cbn [andb].
  2: { split_and!; try apply reorder_refl; [|done]. apply (ranked_but_done l lo hi i); [done|lia|lia]. }
  destruct (below (l.[i - 1]) (l.[i])) eqn:Hb.
  2: { split_and!; try apply reorder_refl; [|done]. apply (ranked_but_done l lo hi i); [done|lia|by right]. }
  fold (swap l (i - 1) i). assert (l.[i] = (swap l (i - 1) i).[Z.of_nat j]) as ->.
  { rewrite swap_get by lia. rewrite decide_True by lia. done. }
  destruct (IH (swap l (i - 1) i)) as (R1 & R2 & R3 & R4).
  - lia.
  - by rewrite alen_swap.
  - replace (Z.of_nat j) with (i - 1) by lia. apply ranked_but_swap; (done || lia).
  - split_and!; [done| | |].
    + apply (reorder_trans _ (swap l (i - 1) i)); [apply swap_reorder; lia|done].
    + apply (reorder_trans _ (swap l (i - 1) i)); [done|].
      rewrite <- (swap_back l (i - 1) i) at 2 by lia. apply swap_reorder; rewrite ?alen_swap; lia.
    + intros P HP Hl. apply R4; [done|]. apply HP; (done || lia).
Qed.
End Move.

(** The loop only compares with the entry that moves. *)
Lemma move_entry_ext {T} `{!Inhabited T} (below below' : T -> T -> bool) floor tmp :
  (forall x, below x tmp = below' x tmp) -> forall j l, l.[Z.of_nat j] = tmp -> Z.of_nat j < alen l ->
  move_entry below floor j tmp l = move_entry below' floor j tmp l.
Proof.
  intros Heq. induction j as [|j IH]; intros l Hl Hlen; [done|]. cbn [move_entry]. rewrite Hl, Heq.
  destruct (_ && _); [|done]. apply IH; [|rewrite !alen_aset; lia].
  replace (Z.of_nat j) with (Z.of_nat (S j) - 1) by lia. apply aget_aset_eq. rewrite alen_aset. lia.
Qed.
