(* ===== verification/MinerRanking.v ===== *)
(** * Ranking of miners and election of the next computors (src/qubic.cpp)

    [updateMinerRankingAndFutureComputors] keeps the table of miners sorted in two blocks, the
    current computors and the candidates, each by score (an error count) and the tick it was
    reached in; combines the worst computors with the best candidates; and writes the list of
    computors of the next epoch.  The parallel arrays of the source (minerPublicKeys,
    minerScores, minerBestScoreTicks; competitorPublicKeys, competitorScores, competitorTicks,
    competitorComputorStatuses) are arrays of records here. *)
From S2P Require Import Prelude Sorting Insertion.

Definition NO_MINER_SCORE : Z := 0xFFFFFFFF.

Record Miner := mkMiner { m_key : Z; m_score : Z; m_tick : Z }.
Record Competitor := mkCompetitor { c_key : Z; c_score : Z; c_tick : Z; c_computor : bool }.
#[global] Instance miner_inhabited : Inhabited Miner := populate (mkMiner 0 NO_MINER_SCORE 0).
#[global] Instance competitor_inhabited : Inhabited Competitor := populate (mkCompetitor 0 NO_MINER_SCORE 0 false).

Definition ranksBelow (scoreA tickA scoreB tickB : Z) : bool :=
  if negb (scoreA =? scoreB) then scoreB <? scoreA else tickB <? tickA.
Definition miner_below (a b : Miner) : bool := ranksBelow (m_score a) (m_tick a) (m_score b) (m_tick b).
Definition competitor_below (a b : Competitor) : bool := ranksBelow (c_score a) (c_tick a) (c_score b) (c_tick b).

Section Ranking.
(** [NUMBER_OF_COMPUTORS], [QUORUM] and [MAX_NUMBER_OF_MINERS] *)
Variables NC Q : nat.
Variable MAX_NUMBER_OF_MINERS : Z.
Abbreviation NUMBER_OF_COMPUTORS := (Z.of_nat NC).
Abbreviation QUORUM := (Z.of_nat Q).
Definition seats : Z := NUMBER_OF_COMPUTORS - QUORUM.

Record MiningState := mkMining {
  miners : list Miner;
  numberOfMiners : Z;
  competitors : list Competitor;
  minimumComputorScore : Z;
  minimumCandidateScore : Z;
  futureComputors : list Z
}.

Fixpoint find_miner (n : nat) (minerIndex : Z) (key : Z) (ms : list Miner) : option Z :=
  match n with
  | O => None
  | S n => if key =? m_key (ms.[minerIndex]) then Some minerIndex else find_miner n (minerIndex + 1) key ms
  end.

(** Enters the score.  Result: the table, numberOfMiners and, if an entry changed, its index. *)
Definition enter_score (sourcePublicKey newScore newTick : Z) (ms : list Miner) (n : Z) : list Miner * Z * option Z :=
  let entry := mkMiner sourcePublicKey newScore newTick in
  match find_miner (Z.to_nat n) 0 sourcePublicKey ms with
  | Some minerIndex =>
      if newScore <? m_score (ms.[minerIndex])
      then (ms.[minerIndex := mkMiner (m_key (ms.[minerIndex])) newScore newTick], n, Some minerIndex)
      else (ms, n, None)
  | None =>
      if n <? MAX_NUMBER_OF_MINERS then (ms.[n := entry], n + 1, Some n)
      else
        let worstIndex := n - 1 in
        if ranksBelow (m_score (ms.[worstIndex])) (m_tick (ms.[worstIndex])) newScore newTick
        then (ms.[worstIndex := entry], n, Some worstIndex)
        else (ms, n, None)
  end.

(** [minerIndex < NUMBER_OF_COMPUTORS ? 0 : NUMBER_OF_COMPUTORS] *)
Definition block_floor (minerIndex : Z) : Z := if minerIndex <? NUMBER_OF_COMPUTORS then 0 else NUMBER_OF_COMPUTORS.

Definition rank_miners (sourcePublicKey newScore newTick : Z) (ms : list Miner) (n : Z) : list Miner * Z :=
  let '(ms, n, changed) := enter_score sourcePublicKey newScore newTick ms n in
  match changed with
  | Some minerIndex => (move_entry miner_below block_floor (Z.to_nat minerIndex) (ms.[minerIndex]) ms, n)
  | None => (ms, n)
  end.

Definition competitor_of (computor : bool) (m : Miner) : Competitor := mkCompetitor (m_key m) (m_score m) (m_tick m) computor.

(** The worst computors and the best candidates; places without a candidate keep their old key. *)
Definition combine_entry (ms : list Miner) (n i : Z) (cs : list Competitor) : list Competitor :=
  let cs := cs.[i := competitor_of true (ms.[QUORUM + i])] in
  let j := i + seats in
  if NUMBER_OF_COMPUTORS + i <? n then cs.[j := competitor_of false (ms.[NUMBER_OF_COMPUTORS + i])]
  else cs.[j := mkCompetitor (c_key (cs.[j])) NO_MINER_SCORE 0 false].

Definition combine (ms : list Miner) (n : Z) (cs : list Competitor) : list Competitor :=
  for_loop (Z.to_nat seats) 0 (combine_entry ms n) cs.

Definition sort_entry (i : Z) (cs : list Competitor) : list Competitor :=
  let tmp := mkCompetitor (c_key (cs.[i])) (c_score (cs.[i])) (c_tick (cs.[i])) false in
  move_entry competitor_below (fun _ => 0) (Z.to_nat i) tmp cs.

Definition sort_competitors (cs : list Competitor) : list Competitor :=
  for_loop (Z.to_nat seats) seats sort_entry cs.

(** The loop over the competitors that are not computors: minimumCandidateScore and candidateCounter. *)
Definition candidate_score (cs : list Competitor) (minimum : Z) : Z * Z :=
  for_loop (Z.to_nat (seats * 2)) 0
    (fun i st => let '(score, counter) := st in
       if negb (c_computor (cs.[i])) then (c_score (cs.[i]), u8 (counter + 1)) else st) (minimum, 0).

Definition elect (ms : list Miner) (cs : list Competitor) (future : list Z) : list Z :=
  let future := for_loop Q 0 (fun i future => future.[i := m_key (ms.[i])]) future in
  for_loop (Z.to_nat seats) QUORUM (fun i future => future.[i := c_key (cs.[i - QUORUM])]) future.

Definition updateMinerRankingAndFutureComputors (sourcePublicKey newScore newTick : Z) (s : MiningState) : MiningState :=
  let '(ms, n) := rank_miners sourcePublicKey newScore newTick (miners s) (numberOfMiners s) in
  let cs := sort_competitors (combine ms n (competitors s)) in
  let computorScore := c_score (cs.[seats - 1]) in
  let '(candidateScore, candidateCounter) := candidate_score cs (minimumCandidateScore s) in
  let candidateScore := if candidateCounter <? seats then computorScore else candidateScore in
  mkMining ms n cs computorScore candidateScore (elect ms cs (futureComputors s)).
End Ranking.

#[export] Instance miner_order : StrictWeakOrder miner_below.
Proof.
  unfold miner_below, ranksBelow. split.
  - intros x y. destruct (Z.eqb_spec (m_score x) (m_score y)) as [->|]; cbn [negb]; rewrite ?Z.eqb_refl; cbn [negb]; [lia|].
    rewrite (proj2 (Z.eqb_neq (m_score y) _)) by lia. cbn [negb]. lia.
  - intros x y z. destruct (Z.eqb_spec (m_score x) (m_score y)), (Z.eqb_spec (m_score y) (m_score z)),
      (Z.eqb_spec (m_score x) (m_score z)); cbn [negb]; lia.
Qed.

(** Competitors, computors before candidates when their scores and ticks are equal. *)
Definition seat_below (a b : Competitor) : bool :=
  if negb (c_score a =? c_score b) then c_score b <? c_score a
  else if negb (c_tick a =? c_tick b) then c_tick b <? c_tick a
  else c_computor b && negb (c_computor a).

#[export] Instance seat_order : StrictWeakOrder seat_below.
Proof.
  unfold seat_below. split.
  - intros x y. destruct (Z.eqb_spec (c_score x) (c_score y)), (Z.eqb_spec (c_score y) (c_score x)),
      (Z.eqb_spec (c_tick x) (c_tick y)), (Z.eqb_spec (c_tick y) (c_tick x)), (c_computor x), (c_computor y); cbn; lia.
  - intros x y z. destruct (Z.eqb_spec (c_score x) (c_score y)), (Z.eqb_spec (c_score y) (c_score z)), (Z.eqb_spec (c_score x) (c_score z)),
      (Z.eqb_spec (c_tick x) (c_tick y)), (Z.eqb_spec (c_tick y) (c_tick z)), (Z.eqb_spec (c_tick x) (c_tick z)),
      (c_computor x), (c_computor y), (c_computor z); cbn; lia.
Qed.

Lemma seat_below_candidate x y : c_computor y = false -> competitor_below x y = seat_below x y.
Proof.
  intros Hy. unfold competitor_below, ranksBelow, seat_below. rewrite Hy. destruct (_ =? _); [|done]. cbn [negb andb].
  destruct (Z.eqb_spec (c_tick x) (c_tick y)); cbn [negb]; lia.
Qed.

Lemma seat_below_base x y : seat_below x y = false -> competitor_below x y = false.
Proof.
  unfold competitor_below, ranksBelow, seat_below. destruct (_ =? _); [|done]. cbn [negb].
  destruct (Z.eqb_spec (c_tick x) (c_tick y)); cbn [negb]; lia.
Qed.

(** ** The competitors *)
Lemma filter_keeps {A} (P : A -> Prop) `{!forall x, Decision (P x)} l : Forall P l -> filter P l = l.
Proof. induction 1; [done|]. by rewrite filter_cons_True, IHForall. Qed.
Lemma filter_drops {A} (P : A -> Prop) `{!forall x, Decision (P x)} l : Forall (fun x => ~ P x) l -> filter P l = [].
Proof. induction 1; [done|]. by rewrite filter_cons_False, IHForall. Qed.

Section Election.
Variables NC Q : nat.
Hypothesis HQ : (0 < Q < NC)%nat.
Abbreviation NUMBER_OF_COMPUTORS := (Z.of_nat NC).
Abbreviation QUORUM := (Z.of_nat Q).
Abbreviation seats := (seats NC Q).

Lemma seats_pos : 0 < seats.
Proof using HQ. unfold MinerRanking.seats. lia. Qed.

(** Competitor [j] as it enters the sorting. *)
Definition entrant (ms : list Miner) (n j : Z) (c : Competitor) : Prop :=
  if decide (j < seats) then c = competitor_of true (ms.[QUORUM + j])
  else if decide (NUMBER_OF_COMPUTORS + (j - seats) < n) then c = competitor_of false (ms.[NUMBER_OF_COMPUTORS + (j - seats)])
  else exists key, c = mkCompetitor key NO_MINER_SCORE 0 false.

Lemma combine_ok ms n cs :
  alen cs = 2 * seats ->
  alen (combine NC Q ms n cs) = 2 * seats /\ forall j, 0 <= j < 2 * seats -> entrant ms n j ((combine NC Q ms n cs).[j]).
Proof using HQ.
  pose proof seats_pos as Hs. intros Hl. unfold combine.
  pose (P i cs' := alen cs' = 2 * seats /\ forall j, 0 <= j < i -> entrant ms n j (cs'.[j]) /\ entrant ms n (seats + j) (cs'.[seats + j])).
  enough (P (0 + Z.of_nat (Z.to_nat seats)) (for_loop (Z.to_nat seats) 0 (combine_entry NC Q ms n) cs)) as [H1 H2].
  { split; [done|]. intros j Hj. destruct (decide (j < seats)) as [Hlt|Hge]; [apply H2; lia|].
    replace j with (seats + (j - seats)) by lia. apply H2. lia. }
  apply (for_loop_ind P); [split; [done|lia]|].
  intros i cs' Hi [H1 H2]. unfold combine_entry.
  set (c1 := cs'.[i := competitor_of true (ms.[QUORUM + i])]).
  assert (forall e, alen (c1.[i + seats := e]) = 2 * seats) as Hlen by (intros; unfold c1; rewrite !alen_aset; done).
  assert (forall e, entrant ms n (seats + i) e -> P (i + 1) (c1.[i + seats := e])) as Hstep.
  { intros e He. split; [apply Hlen|]. intros j Hj. unfold c1. destruct (decide (j = i)) as [->|Hne].
    - rewrite (aget_aset_ne _ (i + seats)), aget_aset_eq by lia. rewrite (Z.add_comm seats i) in He |- *.
      rewrite aget_aset_eq by (rewrite alen_aset; lia). split; [|done]. unfold entrant. by rewrite decide_True by lia.
    - rewrite !aget_aset_ne by lia. apply H2. lia. }
  assert (forall e, entrant ms n (seats + i) e <-> if decide (NUMBER_OF_COMPUTORS + i < n) then e = competitor_of false (ms.[NUMBER_OF_COMPUTORS + i])
    else exists key, e = mkCompetitor key NO_MINER_SCORE 0 false) as Hent.
  { intros e. unfold entrant. rewrite decide_False by lia. by replace (seats + i - seats) with i by lia. }
  destruct (Z.ltb_spec (NUMBER_OF_COMPUTORS + i) n); apply Hstep, Hent.
  - by rewrite decide_True by done.
  - rewrite decide_False by lia. by eexists.
Qed.

Lemma sort_competitors_ok c0 :
  alen c0 = 2 * seats -> ranked seat_below c0 0 seats -> (forall j, seats <= j < 2 * seats -> c_computor (c0.[j]) = false) ->
  let c := sort_competitors NC Q c0 in
  alen c = 2 * seats /\ Permutation c0 c /\ ranked seat_below c 0 (2 * seats).
Proof using HQ.
  pose proof seats_pos as Hs. intros Hl Hr Hc. unfold sort_competitors.
  pose (P i c := reorder c0 c 0 (i - 1) /\ ranked seat_below c 0 i).
  enough (P (seats + Z.of_nat (Z.to_nat seats)) (for_loop (Z.to_nat seats) seats (sort_entry) c0)) as [[H1 H2 _ _] H3].
  { split_and!; [congruence|done|]. by replace (2 * seats) with (seats + Z.of_nat (Z.to_nat seats)) by lia. }
  apply (for_loop_ind P); [split; [apply reorder_refl|done]|].
  intros i c Hi [H1 H2]. unfold sort_entry.
  assert (c.[i] = c0.[i]) as Hci by (apply (re_out _ _ _ _ H1); lia).
  assert (mkCompetitor (c_key (c.[i])) (c_score (c.[i])) (c_tick (c.[i])) false = c.[i]) as ->.
  { rewrite Hci. specialize (Hc i ltac:(lia)). destruct (c0.[i]). cbn in *. by rewrite Hc. }
  pose proof (re_len _ _ _ _ H1) as Hlen.
  assert (c.[i] = c.[Z.of_nat (Z.to_nat i)]) as Heq by (by rewrite Z2Nat.id by lia).
  rewrite (move_entry_ext competitor_below seat_below) by
    (first [intros; apply seat_below_candidate; rewrite Hci; apply Hc; lia|by rewrite Heq|lia]).
  rewrite Heq. destruct (move_entry_ok seat_below (fun _ => 0) 0 (i + 1) ltac:(lia) ltac:(done) (Z.to_nat i) c ltac:(lia) ltac:(lia)) as (R1 & R2 & _ & _).
  { rewrite Z2Nat.id by lia. split; [|lia]. intros a b Ha Hab Hb Hna Hnb. apply H2; lia. }
  split; [|done]. apply (reorder_trans _ c); [|done]. apply (reorder_wider _ _ 0 (i - 1)); (done || lia).
Qed.

Variable MAX_NUMBER_OF_MINERS : Z.

(** The table: both blocks are ranked, no key occurs twice, a computor without a score has tick 0, and
    candidates have a tick. *)
Record ranking_ok (ms : list Miner) (n : Z) : Prop := {
  rk_len : alen ms = MAX_NUMBER_OF_MINERS + 1;
  rk_n : NUMBER_OF_COMPUTORS <= n <= MAX_NUMBER_OF_MINERS;
  rk_computors : ranked miner_below ms 0 NUMBER_OF_COMPUTORS;
  rk_candidates : ranked miner_below ms NUMBER_OF_COMPUTORS n;
  rk_keys : forall i j, 0 <= i < n -> 0 <= j < n -> m_key (ms.[i]) = m_key (ms.[j]) -> i = j;
  rk_score : forall i, 0 <= i < n -> m_score (ms.[i]) <= NO_MINER_SCORE;
  rk_idle : forall i, 0 <= i < NUMBER_OF_COMPUTORS -> m_score (ms.[i]) = NO_MINER_SCORE -> m_tick (ms.[i]) = 0;
  rk_active : forall i, NUMBER_OF_COMPUTORS <= i < n -> m_tick (ms.[i]) <> 0
}.

(** A miner that competes for the last [seats] places. *)
Definition pooled (n idx : Z) : Prop := QUORUM <= idx < n /\ idx < NUMBER_OF_COMPUTORS + seats.

Definition real_entry (c : Competitor) : bool := c_computor c || negb ((c_score c =? NO_MINER_SCORE) && (c_tick c =? 0)).

Section Pool.
Variables (ms : list Miner) (n : Z) (c0 c : list Competitor).
Hypothesis Hok : ranking_ok ms n.
Hypothesis Hl0 : alen c0 = 2 * seats.
Hypothesis Hent : forall j, 0 <= j < 2 * seats -> entrant ms n j (c0.[j]).
Hypothesis Hlc : alen c = 2 * seats.
Hypothesis Hperm : Permutation c0 c.
Hypothesis Hranked : ranked seat_below c 0 (2 * seats).

Lemma entrant_cases j :
  0 <= j < 2 * seats ->
  (QUORUM + j < n /\ c0.[j] = competitor_of (bool_decide (j < seats)) (ms.[QUORUM + j]) /\ real_entry (c0.[j]) = true) \/
  (n <= QUORUM + j /\ seats <= j /\ c_computor (c0.[j]) = false /\ real_entry (c0.[j]) = false).
Proof using HQ Hok Hent.
  intros Hj. pose proof (Hent j Hj) as He. unfold entrant in He. pose proof (rk_n _ _ Hok) as Hn. unfold MinerRanking.seats in *.
  destruct (decide (j < _)) as [Hlt|Hge].
  - left. split_and!; [lia| |]; [by rewrite bool_decide_true by done|]. by rewrite He.
  - replace (NUMBER_OF_COMPUTORS + (j - (NUMBER_OF_COMPUTORS - QUORUM))) with (QUORUM + j) in He by lia.
    destruct (decide (QUORUM + j < n)) as [Hr|Hr].
    + left. split_and!; [done|by rewrite bool_decide_false by done|]. rewrite He. unfold real_entry. cbn.
      rewrite (proj2 (Z.eqb_neq (m_tick _) 0)) by (apply (rk_active _ _ Hok); lia). by rewrite andb_false_r.
    + right. destruct He as [key ->]. split_and!; (done || lia).
Qed.

(** Every position of the sorted array comes from its own entrant. *)
Lemma pool_source :
  exists f, (forall p q, f p = f q -> p = q) /\
    forall p, 0 <= p < 2 * seats -> 0 <= Z.of_nat (f (Z.to_nat p)) < 2 * seats /\ c.[p] = c0.[Z.of_nat (f (Z.to_nat p))].
Proof using HQ Hperm Hl0 Hlc.
  pose proof (Permutation_sym Hperm) as Hp. apply Permutation_inj in Hp as (Hlen & f & Hinj & Hf). exists f. split; [exact Hinj|].
  intros p Hp. unfold alen in *. pose proof (Hf (Z.to_nat p)) as Hfp.
  rewrite list_lookup_lookup_total_lt in Hfp by lia. symmetry in Hfp. pose proof (lookup_lt_Some _ _ _ Hfp) as Hlt.
  split; [lia|]. rewrite !aget_nonneg, Nat2Z.id by lia. by rewrite (list_lookup_total_correct _ _ _ Hfp).
Qed.

Lemma pool_position j : 0 <= j < 2 * seats -> exists p, 0 <= p < 2 * seats /\ c.[p] = c0.[j].
Proof using HQ Hperm Hl0 Hlc.
  intros Hj. unfold alen in *. assert (c0 !!! Z.to_nat j ∈ c) as Hin.
  { rewrite <- Hperm. apply list_elem_of_lookup_total_2. lia. }
  apply list_elem_of_lookup_total_1 in Hin as (p & Hp & Heq). exists (Z.of_nat p). split; [lia|].
  by rewrite !aget_nonneg, Nat2Z.id by lia.
Qed.

(** A computor outranks a place without a candidate. *)
Lemma no_candidate_below p b :
  real_entry (c.[p]) = false -> 0 <= b < 2 * seats -> c_computor (c.[b]) = true -> seat_below (c.[p]) (c.[b]) = true.
Proof using HQ Hok Hent Hperm Hl0 Hlc.
  intros Hp Hb Hc. destruct pool_source as (f & _ & Hf). destruct (Hf b Hb) as [Hj Heq]. rewrite Heq in *.
  set (j := Z.of_nat (f (Z.to_nat b))) in *. pose proof (rk_n _ _ Hok) as Hn.
  destruct (entrant_cases j Hj) as [(Hlt & He & _)|(_ & _ & Hc' & _)]; [|congruence]. rewrite He in *.
  cbn in Hc. apply bool_decide_eq_true in Hc. unfold real_entry in Hp. apply orb_false_iff in Hp as [Hcp Hp].
  apply negb_false_iff, andb_true_iff in Hp as [Hsc Htk]. apply Z.eqb_eq in Hsc, Htk.
  unfold seat_below. cbn [c_score c_tick c_computor competitor_of]. rewrite Hsc, Htk, Hcp, bool_decide_true by done.
  assert (0 <= QUORUM + j < NUMBER_OF_COMPUTORS) as Hin by (unfold MinerRanking.seats in *; lia).
  pose proof (rk_score _ _ Hok (QUORUM + j) ltac:(lia)) as Hs. pose proof (rk_idle _ _ Hok (QUORUM + j) Hin) as Hi.
  destruct (Z.eqb_spec NO_MINER_SCORE (m_score (ms.[QUORUM + j]))) as [He'|He']; cbn [negb]; [|lia].
  rewrite Hi by done. done.
Qed.

Lemma computor_count : (Z.to_nat seats <= length (filter (fun e => c_computor e = true) c))%nat.
Proof using HQ Hok Hent Hperm Hl0.
  rewrite <- Hperm. rewrite <- (take_drop (Z.to_nat seats) c0), filter_app, length_app.
  enough (filter (fun e => c_computor e = true) (take (Z.to_nat seats) c0) = take (Z.to_nat seats) c0) as ->.
  { rewrite length_take. unfold alen in Hl0. pose proof seats_pos. lia. }
  apply filter_keeps. refine (Forall_lookup_total_2 _ _ _). intros i Hi. rewrite length_take in Hi. unfold alen in Hl0. pose proof seats_pos.
  rewrite lookup_total_take, decide_True by lia. destruct (entrant_cases (Z.of_nat i) ltac:(lia)) as [(_ & He & _)|]; [|lia].
  rewrite aget_nonneg, Nat2Z.id in He by lia. rewrite He. cbn. apply bool_decide_eq_true. lia.
Qed.

Lemma top_real p : 0 <= p < seats -> real_entry (c.[p]) = true.
Proof using HQ Hok Hent Hperm Hl0 Hlc Hranked.
  intros Hp. destruct (real_entry (c.[p])) eqn:Hr; [done|]. pose proof computor_count as Hcount.
  rewrite <- (take_drop (Z.to_nat p) c), filter_app, length_app in Hcount.
  assert (filter (fun e => c_computor e = true) (list.drop (Z.to_nat p) c) = []) as Hnil.
  { apply filter_drops. refine (Forall_lookup_total_2 _ _ _). intros i Hi Hc. rewrite length_drop in Hi. unfold alen in Hlc.
    rewrite lookup_total_drop in Hc. replace (c !!! (Z.to_nat p + i)%nat) with (c.[p + Z.of_nat i]) in Hc.
    2: { rewrite aget_nonneg by lia. f_equal. lia. }
    pose proof (no_candidate_below p (p + Z.of_nat i) Hr ltac:(lia) Hc) as Hb.
    rewrite (Hranked p (p + Z.of_nat i)) in Hb by lia. done. }
  rewrite Hnil in Hcount. cbn [length] in Hcount.
  pose proof (length_filter (fun e => c_computor e = true) (take (Z.to_nat p) c)) as Hle. rewrite length_take in Hle. lia.
Qed.

(** The entry that takes place [p] of the last [seats]. *)
Lemma seat_owner :
  exists g, (forall p q, 0 <= p < seats -> 0 <= q < seats -> g p = g q -> p = q) /\
    forall p, 0 <= p < seats -> pooled n (g p) /\ exists st, c.[p] = competitor_of st (ms.[g p]).
Proof using HQ Hok Hent Hperm Hl0 Hlc Hranked.
  destruct pool_source as (f & Hinj & Hf). exists (fun p => QUORUM + Z.of_nat (f (Z.to_nat p))). split.
  - intros p q Hp Hq Heq. assert (Z.to_nat p = Z.to_nat q) by (apply Hinj; lia). lia.
  - intros p Hp. destruct (Hf p ltac:(lia)) as [Hj Heq]. pose proof (top_real p Hp) as Hr. rewrite Heq in *.
    destruct (entrant_cases _ Hj) as [(Hlt & He & _)|(_ & _ & _ & Hr')]; [|congruence].
    split; [|by eexists]. unfold pooled, MinerRanking.seats in *. lia.
Qed.
End Pool.

(** ** The list of future computors *)
Record elected (ms : list Miner) (n : Z) (future : list Z) : Prop := {
  el_best : forall i, 0 <= i < QUORUM -> future.[i] = m_key (ms.[i]);
  el_pool : forall i, QUORUM <= i < NUMBER_OF_COMPUTORS -> exists idx, pooled n idx /\ future.[i] = m_key (ms.[idx]);
  el_distinct : forall i j, 0 <= i < NUMBER_OF_COMPUTORS -> 0 <= j < NUMBER_OF_COMPUTORS -> future.[i] = future.[j] -> i = j;
  el_optimal : forall i idx, QUORUM <= i < NUMBER_OF_COMPUTORS -> pooled n idx ->
    (forall j, QUORUM <= j < NUMBER_OF_COMPUTORS -> future.[j] <> m_key (ms.[idx])) ->
    exists idx', pooled n idx' /\ future.[i] = m_key (ms.[idx']) /\ miner_below (ms.[idx']) (ms.[idx]) = false
}.

Lemma elect_get ms cs future :
  alen future = NUMBER_OF_COMPUTORS ->
  forall i, 0 <= i < NUMBER_OF_COMPUTORS ->
    (elect NC Q ms cs future).[i] = if decide (i < QUORUM) then m_key (ms.[i]) else c_key (cs.[i - QUORUM]).
Proof using HQ.
  intros Hl i Hi. unfold elect.
  destruct (for_fill (fun i => m_key (ms.[i])) Q 0 future ltac:(lia) ltac:(lia)) as [L1 G1].
  match type of L1 with alen ?x = _ => set (f1 := x) in * end.
  destruct (for_fill (fun i => c_key (cs.[i - QUORUM])) (Z.to_nat seats) QUORUM f1 ltac:(lia) ltac:(unfold MinerRanking.seats; lia)) as [_ G2].
  rewrite G2. unfold MinerRanking.seats. destruct (decide (i < QUORUM)).
  - rewrite decide_False by lia. rewrite G1. by rewrite decide_True by lia.
  - by rewrite decide_True by lia.
Qed.

Lemma competitors_ranked ms n c0 :
  ranking_ok ms n -> (forall j, 0 <= j < 2 * seats -> entrant ms n j (c0.[j])) ->
  ranked seat_below c0 0 seats /\ (forall j, seats <= j < 2 * seats -> c_computor (c0.[j]) = false).
Proof using HQ.
  intros Hok Hent. pose proof seats_pos. split.
  - intros a b Ha Hab Hb. pose proof (Hent a ltac:(lia)) as H1. pose proof (Hent b ltac:(lia)) as H2. unfold entrant in H1, H2.
    rewrite decide_True in H1 by lia. rewrite decide_True in H2 by lia. rewrite H1, H2.
    pose proof (rk_computors _ _ Hok (QUORUM + a) (QUORUM + b) ltac:(lia) ltac:(lia) ltac:(unfold MinerRanking.seats in *; lia)) as Hr.
    unfold miner_below, ranksBelow in Hr. unfold seat_below. cbn [c_score c_tick c_computor competitor_of].
    destruct (_ =? _); [|done]. cbn [negb andb] in *. destruct (Z.eqb_spec (m_tick (ms.[QUORUM + a])) (m_tick (ms.[QUORUM + b]))); cbn [negb]; lia.
  - intros j Hj. pose proof (Hent j ltac:(lia)) as H1. unfold entrant in H1. rewrite decide_False in H1 by lia.
    case_decide; [by rewrite H1|]. destruct H1 as [key ->]. done.
Qed.

Lemma election_ok ms n cs future :
  ranking_ok ms n -> alen cs = 2 * seats -> alen future = NUMBER_OF_COMPUTORS ->
  elected ms n (elect NC Q ms (sort_competitors NC Q (combine NC Q ms n cs)) future).
Proof using HQ.
  intros Hok Hcs Hf. destruct (combine_ok ms n cs Hcs) as [Hl0 Hent]. set (c0 := combine NC Q ms n cs) in *.
  destruct (competitors_ranked ms n c0 Hok Hent) as [Hr0 Hc0]. destruct (sort_competitors_ok c0 Hl0 Hr0 Hc0) as (Hlc & Hperm & Hranked).
  set (c := sort_competitors NC Q c0) in *.
  destruct (seat_owner ms n c0 c Hok Hl0 Hent Hlc Hperm Hranked) as (g & Hinj & Hg).
  pose proof (elect_get ms c future Hf) as Hget. pose proof (rk_n _ _ Hok) as Hn.
  assert (forall i, 0 <= i < NUMBER_OF_COMPUTORS -> exists idx, 0 <= idx < n /\ (elect NC Q ms c future).[i] = m_key (ms.[idx]) /\
    if decide (i < QUORUM) then idx = i else idx = g (i - QUORUM) /\ pooled n idx) as Hown.
  { intros i Hi. rewrite Hget by done. destruct (decide (i < QUORUM)); [exists i; split_and!; (done || lia)|].
    destruct (Hg (i - QUORUM) ltac:(unfold MinerRanking.seats; lia)) as [Hp [st ->]]. exists (g (i - QUORUM)).
    unfold pooled in *. split_and!; (done || lia). }
  split.
  - intros i Hi. rewrite Hget by lia. by rewrite decide_True by lia.
  - intros i Hi. destruct (Hown i ltac:(lia)) as (idx & _ & Heq & Hp). rewrite decide_False in Hp by lia. exists idx. by destruct Hp.
  - intros i j Hi Hj Heq. destruct (Hown i Hi) as (x & Hx & Ex & Px), (Hown j Hj) as (y & Hy & Ey & Py). rewrite Ex, Ey in Heq.
    apply (rk_keys _ _ Hok) in Heq; [|done|done]. unfold pooled in *. repeat case_decide; try lia.
    assert (i - QUORUM = j - QUORUM); [|lia]. apply Hinj; [unfold MinerRanking.seats; lia..|]. destruct Px, Py. congruence.
  - intros i idx Hi Hp Hout. destruct (Hg (i - QUORUM) ltac:(unfold MinerRanking.seats; lia)) as [Hpi [st Hci]]. exists (g (i - QUORUM)).
    split; [done|]. rewrite Hget, decide_False, Hci by lia. split; [done|]. unfold pooled in Hp.
    destruct (pool_position c0 c Hl0 Hlc Hperm (idx - QUORUM) ltac:(unfold MinerRanking.seats in *; lia)) as (p & Hpr & Hcp).
    destruct (entrant_cases ms n c0 Hok Hent (idx - QUORUM) ltac:(unfold MinerRanking.seats in *; lia)) as [(_ & He & _)|[? _]]; [|lia].
    replace (QUORUM + (idx - QUORUM)) with idx in He by lia. rewrite He in Hcp.
    assert (i - QUORUM <= p) as Hle.
    { destruct (decide (seats <= p)) as [|Hlt]; [unfold MinerRanking.seats in *; lia|]. exfalso.
      apply (Hout (QUORUM + p) ltac:(unfold MinerRanking.seats in *; lia)). rewrite Hget by (unfold MinerRanking.seats in *; lia).
      rewrite decide_False by lia. replace (QUORUM + p - QUORUM) with p by lia. by rewrite Hcp. }
    pose proof (Hranked (i - QUORUM) p ltac:(lia) Hle ltac:(lia)) as Hb. apply seat_below_base in Hb. rewrite Hci, Hcp in Hb. exact Hb.
Qed.

(** ** Entering a score *)
Lemma find_miner_spec key ms : forall n i,
  match find_miner n i key ms with
  | Some j => i <= j < i + Z.of_nat n /\ m_key (ms.[j]) = key
  | None => forall j, i <= j < i + Z.of_nat n -> m_key (ms.[j]) <> key
  end.
Proof.
  induction n as [|n IH]; intros i; cbn [find_miner]; [lia|].
  destruct (Z.eqb_spec key (m_key (ms.[i]))) as [->|Hne]; [split; [lia|done]|].
  specialize (IH (i + 1)). destruct (find_miner n (i + 1) key ms).
  - split; [lia|apply IH].
  - intros j Hj. destruct (decide (j = i)) as [->|]; [congruence|]. apply IH. lia.
Qed.

(** The block of entry [j], and the table but for the rank of that entry. *)
Definition block (n j : Z) : Z * Z := if decide (j < NUMBER_OF_COMPUTORS) then (0, NUMBER_OF_COMPUTORS) else (NUMBER_OF_COMPUTORS, n).

Record table_ok (ms : list Miner) (n : Z) : Prop := {
  tk_len : alen ms = MAX_NUMBER_OF_MINERS + 1;
  tk_n : NUMBER_OF_COMPUTORS <= n <= MAX_NUMBER_OF_MINERS;
  tk_keys : forall i j, 0 <= i < n -> 0 <= j < n -> m_key (ms.[i]) = m_key (ms.[j]) -> i = j;
  tk_score : forall i, 0 <= i < n -> m_score (ms.[i]) <= NO_MINER_SCORE;
  tk_idle : forall i, 0 <= i < NUMBER_OF_COMPUTORS -> m_score (ms.[i]) = NO_MINER_SCORE -> m_tick (ms.[i]) = 0;
  tk_active : forall i, NUMBER_OF_COMPUTORS <= i < n -> m_tick (ms.[i]) <> 0
}.

Lemma table_ok_ranking ms n : ranking_ok ms n -> table_ok ms n.
Proof. by intros []. Qed.

(** The places of a block are the same entries after a swap inside the block. *)
Lemma table_ok_swap ms n lo hi a b :
  (lo, hi) = (0, NUMBER_OF_COMPUTORS) \/ (lo, hi) = (NUMBER_OF_COMPUTORS, n) -> lo <= a < hi -> lo <= b < hi ->
  table_ok ms n -> table_ok (swap ms a b) n.
Proof.
  intros Hblock Ha Hb [T1 T2 T3 T4 T5 T6].
  set (t i := if decide (i = a) then b else if decide (i = b) then a else i).
  assert (forall i, (swap ms a b).[i] = ms.[t i]) as Hget.
  { intros i. rewrite swap_get by (destruct Hblock as [[= -> ->]|[= -> ->]]; lia). unfold t. repeat case_decide; done. }
  assert (forall i, 0 <= i < n -> 0 <= t i < n /\ (t i < NUMBER_OF_COMPUTORS <-> i < NUMBER_OF_COMPUTORS)) as Ht.
  { intros i Hi. unfold t. destruct Hblock as [[= -> ->]|[= -> ->]]; repeat case_decide; lia. }
  split; [by rewrite alen_swap|done|..].
  - intros i j Hi Hj. rewrite !Hget. intros Hk. apply T3 in Hk; [|by apply Ht..]. unfold t in Hk. repeat case_decide; lia.
  - intros i Hi. rewrite Hget. by apply T4, Ht.
  - intros i Hi. rewrite Hget. apply T5. destruct (Ht i); lia.
  - intros i Hi. rewrite Hget. apply T6. destruct (Ht i); lia.
Qed.

Lemma move_miner_ok ms n j :
  table_ok ms n -> 0 <= j < n ->
  ranked_but miner_below ms (block n j).1 (block n j).2 j ->
  (if decide (j < NUMBER_OF_COMPUTORS) then ranked miner_below ms NUMBER_OF_COMPUTORS n else ranked miner_below ms 0 NUMBER_OF_COMPUTORS) ->
  let ms' := move_entry miner_below (block_floor NC) (Z.to_nat j) (ms.[j]) ms in
  ranking_ok ms' n /\ forall i, 0 <= i < n -> exists i', 0 <= i' < n /\ (i < NUMBER_OF_COMPUTORS <-> i' < NUMBER_OF_COMPUTORS) /\ ms'.[i'] = ms.[i].
Proof.
  intros Hok Hj Hrb Hother ms'. pose proof (tk_n _ _ Hok) as Hn. pose proof (tk_len _ _ Hok) as Hl.
  destruct (block n j) as [lo hi] eqn:Hb. cbn [fst snd] in Hrb.
  assert ((lo, hi) = (0, NUMBER_OF_COMPUTORS) \/ (lo, hi) = (NUMBER_OF_COMPUTORS, n)) as Hcase.
  { unfold block in Hb. case_decide; injection Hb as <- <-; auto. }
  assert (0 <= lo <= j /\ j < hi /\ hi <= n) as Hin by (unfold block in Hb; case_decide; injection Hb as <- <-; lia).
  assert (forall i, lo <= i < hi -> block_floor NC i = lo) as Hfl.
  { intros i Hi. unfold block_floor. destruct Hcase as [[= -> ->]|[= -> ->]]; destruct (Z.ltb_spec i NUMBER_OF_COMPUTORS); lia. }
  pose proof (move_entry_ok miner_below (block_floor NC) lo hi ltac:(lia) Hfl (Z.to_nat j) ms) as Hmove.
  rewrite Z2Nat.id in Hmove by lia. destruct (Hmove ltac:(lia) ltac:(lia) Hrb) as (R1 & R2 & R3 & R4). fold ms' in R1, R2, R3, R4.
  assert (table_ok ms' n) as [T1 T2 T3 T4 T5 T6].
  { apply (R4 (fun l => table_ok l n)); [|done]. intros l a b Ha Hb' _. by apply (table_ok_swap l n lo hi). }
  assert (forall a b, ~ (lo <= a < hi) -> ~ (lo <= b < hi) -> miner_below (ms'.[a]) (ms'.[b]) = miner_below (ms.[a]) (ms.[b])) as Hout.
  { intros a b Ha Hb'. rewrite !(re_out _ _ _ _ R2) by lia. done. }
  split.
  - split; try done.
    + destruct Hcase as [[= -> ->]|[= -> ->]]; [done|]. intros a b Ha Hab Hb'. rewrite Hout by lia. rewrite decide_False in Hother by lia. by apply Hother.
    + destruct Hcase as [[= -> ->]|[= -> ->]]; [|done]. intros a b Ha Hab Hb'. rewrite Hout by lia. rewrite decide_True in Hother by lia. by apply Hother.
  - intros i Hi. destruct (decide (lo <= i < hi)) as [Hd|Hd].
    + destruct (re_in _ _ _ _ R3 i ltac:(lia)) as (i' & Hi' & Heq). exists i'. split; [lia|]. split; [|done].
      destruct Hcase as [[= -> ->]|[= -> ->]]; lia.
    + exists i. split; [done|]. split; [done|]. apply (re_out _ _ _ _ R2). lia.
Qed.

Lemma table_write ms n n1 j e :
  table_ok ms n -> n <= n1 <= MAX_NUMBER_OF_MINERS -> 0 <= j < n1 -> (forall i, 0 <= i < n1 -> i <> j -> i < n) ->
  (forall i, 0 <= i < n -> i <> j -> m_key (ms.[i]) <> m_key e) -> m_score e <= NO_MINER_SCORE ->
  (j < NUMBER_OF_COMPUTORS -> m_score e <> NO_MINER_SCORE) -> m_tick e <> 0 -> table_ok (ms.[j := e]) n1.
Proof.
  intros [T1 T2 T3 T4 T5 T6] Hn1 Hj Hrange Hkey Hsc Hidle Htick.
  assert (forall i, (ms.[j := e]).[i] = if decide (i = j) then e else ms.[i]) as Hget.
  { intros i. destruct (decide (i = j)) as [->|]; [apply aget_aset_eq; lia|by apply aget_aset_ne]. }
  split; [by rewrite alen_aset|lia|..].
  - intros i i' Hi Hi'. rewrite !Hget. destruct (decide (i = j)) as [->|Hne], (decide (i' = j)) as [->|Hne']; intros Heq; try done.
    + exfalso. apply (Hkey i'); (done || (split; [lia|by apply Hrange])).
    + exfalso. apply (Hkey i); (done || (split; [lia|by apply Hrange])).
    + pose proof (Hrange i Hi Hne). pose proof (Hrange i' Hi' Hne'). apply T3; (done || lia).
  - intros i Hi. rewrite Hget. destruct (decide (i = j)) as [->|Hne]; [done|]. apply T4. pose proof (Hrange i Hi Hne). lia.
  - intros i Hi. rewrite Hget. destruct (decide (i = j)) as [->|Hne]; [by intros ?%Hidle; [|lia]|]. apply T5. lia.
  - intros i Hi. rewrite Hget. destruct (decide (i = j)) as [->|Hne]; [done|]. apply T6. pose proof (Hrange i ltac:(lia) Hne). lia.
Qed.

Lemma ranked_write (ms : list Miner) lo hi hi1 j e :
  ranked miner_below ms lo hi -> lo <= j < hi1 -> 0 <= lo -> hi1 <= alen ms -> (forall b, b < hi1 -> b <> j -> b < hi) ->
  (forall b, j < b < hi1 -> miner_below e (ms.[b]) = false) -> ranked_but miner_below (ms.[j := e]) lo hi1 j.
Proof.
  intros Hr Hj Hlo Hl Hrange Hafter. split.
  - intros a b Ha Hab Hb Hna Hnb. rewrite !aget_aset_ne by done. apply Hr; [done|done|]. by apply Hrange.
  - intros b Hjb Hb. rewrite aget_aset_eq, aget_aset_ne by lia. apply Hafter. lia.
Qed.

Lemma ranked_unchanged (ms : list Miner) lo hi j e :
  ranked miner_below ms lo hi -> ~ (lo <= j < hi) -> ranked miner_below (ms.[j := e]) lo hi.
Proof. intros Hr Hj a b Ha Hab Hb. rewrite !aget_aset_ne by lia. by apply Hr. Qed.

(** What a report of [score] at [tick] by [key] does to the table. *)
Record entered (key score tick : Z) (ms : list Miner) (n : Z) (ms' : list Miner) (n' : Z) : Prop := {
  en_others : forall i, 0 <= i < n -> m_key (ms.[i]) <> key ->
    (exists i', 0 <= i' < n' /\ (i < NUMBER_OF_COMPUTORS <-> i' < NUMBER_OF_COMPUTORS) /\ ms'.[i'] = ms.[i]) \/
    (n = MAX_NUMBER_OF_MINERS /\ i = n - 1 /\ (forall k, 0 <= k < n -> m_key (ms.[k]) <> key) /\
     miner_below (ms.[i]) (mkMiner key score tick) = true);
  en_known : forall i, 0 <= i < n -> m_key (ms.[i]) = key ->
    exists i', 0 <= i' < n' /\ (i < NUMBER_OF_COMPUTORS <-> i' < NUMBER_OF_COMPUTORS) /\
      ms'.[i'] = if score <? m_score (ms.[i]) then mkMiner key score tick else ms.[i];
  en_new : (forall i, 0 <= i < n -> m_key (ms.[i]) <> key) ->
    n < MAX_NUMBER_OF_MINERS \/ miner_below (ms.[n - 1]) (mkMiner key score tick) = true ->
    exists i', NUMBER_OF_COMPUTORS <= i' < n' /\ ms'.[i'] = mkMiner key score tick
}.

Hypothesis Hmax : NUMBER_OF_COMPUTORS < MAX_NUMBER_OF_MINERS.

Lemma keep_place ms n key score tick :
  (forall i, 0 <= i < n -> m_key (ms.[i]) = key -> m_score (ms.[i]) <= score) ->
  ((forall i, 0 <= i < n -> m_key (ms.[i]) <> key) ->
    ~ (n < MAX_NUMBER_OF_MINERS \/ miner_below (ms.[n - 1]) (mkMiner key score tick) = true)) ->
  entered key score tick ms n ms n.
Proof.
  intros Hsc Hno. split.
  - intros i Hi _. left. by exists i.
  - intros i Hi Hk. exists i. split; [done|]. split; [done|]. by replace (score <? _) with false by (specialize (Hsc i Hi Hk); lia).
  - intros Hk Hc. by destruct (Hno Hk).
Qed.

Lemma improve_ok ms n j key score tick :
  ranking_ok ms n -> 0 <= j < n -> m_key (ms.[j]) = key -> score < m_score (ms.[j]) -> tick <> 0 ->
  let ms1 := ms.[j := mkMiner key score tick] in
  let ms' := move_entry miner_below (block_floor NC) (Z.to_nat j) (ms1.[j]) ms1 in
  ranking_ok ms' n /\ entered key score tick ms n ms' n.
Proof.
  intros Hok Hj Hkj Hlt Htick ms1 ms'. set (e := mkMiner key score tick) in *.
  pose proof (rk_n _ _ Hok) as Hn. pose proof (rk_len _ _ Hok) as Hl. pose proof (rk_score _ _ Hok j Hj) as Hsj.
  assert (forall i, 0 <= i < n -> m_key (ms.[i]) = key -> i = j) as Honly.
  { intros i Hi Hk. apply (rk_keys _ _ Hok); (done || congruence). }
  assert (miner_below e (ms.[j]) = false) as Hbetter.
  { unfold miner_below, ranksBelow. cbn. rewrite (proj2 (Z.eqb_neq score _)) by lia. cbn. lia. }
  destruct (move_miner_ok ms1 n j) as [Hrk Hpl]; [|done| | |].
  - apply (table_write ms n); try done; try apply table_ok_ranking; try done; cbn; try lia.
    intros i Hi Hne Hk. by apply Hne, Honly.
  - unfold block. case_decide; cbn [fst snd].
    + eapply ranked_write; [apply Hok|lia|lia|lia|done|]. intros b Hb. apply (lt_negtrans _ (ms.[j])); [done|]. apply (rk_computors _ _ Hok); lia.
    + eapply ranked_write; [apply Hok|lia|lia|lia|done|]. intros b Hb. apply (lt_negtrans _ (ms.[j])); [done|]. apply (rk_candidates _ _ Hok); lia.
  - case_decide; (apply ranked_unchanged; [apply Hok|lia]).
  - fold ms' in Hrk, Hpl. split; [done|]. split.
    + intros i Hi Hk. left. destruct (Hpl i Hi) as (i' & Hi' & Hb & Heq). exists i'. split; [done|]. split; [done|].
      rewrite Heq. apply aget_aset_ne. congruence.
    + intros i Hi Hk. rewrite (Honly i Hi Hk). destruct (Hpl j Hj) as (i' & Hi' & Hb & Heq). exists i'. split; [done|]. split; [done|].
      rewrite Heq. replace (score <? _) with true by lia. apply aget_aset_eq. lia.
    + intros Hk _. by destruct (Hk j Hj).
Qed.

Lemma place_ok ms n n1 j key score tick :
  ranking_ok ms n -> (forall i, 0 <= i < n -> m_key (ms.[i]) <> key) -> score <= NO_MINER_SCORE -> tick <> 0 ->
  (n < MAX_NUMBER_OF_MINERS /\ n1 = n + 1 /\ j = n \/
   n = MAX_NUMBER_OF_MINERS /\ n1 = n /\ j = n - 1 /\ miner_below (ms.[j]) (mkMiner key score tick) = true) ->
  let ms1 := ms.[j := mkMiner key score tick] in
  let ms' := move_entry miner_below (block_floor NC) (Z.to_nat j) (ms1.[j]) ms1 in
  ranking_ok ms' n1 /\ entered key score tick ms n ms' n1.
Proof using HQ Hmax.
  intros Hok Hnew Hsc Htick Hcase ms1 ms'. set (e := mkMiner key score tick) in *.
  pose proof (rk_n _ _ Hok) as Hn. pose proof (rk_len _ _ Hok) as Hl.
  assert (NUMBER_OF_COMPUTORS <= j < n1 /\ n <= n1 <= MAX_NUMBER_OF_MINERS) as [Hj Hn1] by lia.
  assert (forall i, i < n1 -> i <> j -> i < n) as Hrange by lia.
  destruct (move_miner_ok ms1 n1 j) as [Hrk Hpl]; [|lia| | |].
  - apply (table_write ms n); try done; try apply table_ok_ranking; try done; try lia; cbn.
    intros i Hi _. by apply Hnew.
  - unfold block. rewrite decide_False by lia. cbn [fst snd]. eapply ranked_write; [apply Hok|lia|lia|lia|done|]. intros b Hb. lia.
  - rewrite decide_False by lia. apply ranked_unchanged; [apply Hok|lia].
  - fold ms' in Hrk, Hpl. split; [done|]. split.
    + intros i Hi Hk. destruct (decide (i = j)) as [->|Hne].
      * right. destruct Hcase as [?|(? & ? & ? & ?)]; [lia|]. done.
      * left. destruct (Hpl i ltac:(lia)) as (i' & Hi' & Hb & Heq). exists i'. split; [done|]. split; [done|].
        rewrite Heq. by apply aget_aset_ne.
    + intros i Hi Hk. by destruct (Hnew i Hi).
    + intros _ _. destruct (Hpl j ltac:(lia)) as (i' & Hi' & Hb & Heq). exists i'. split; [lia|]. rewrite Heq. apply aget_aset_eq. lia.
Qed.

Lemma rank_miners_ok key score tick ms n :
  ranking_ok ms n -> score <= NO_MINER_SCORE -> tick <> 0 ->
  let '(ms', n') := rank_miners NC MAX_NUMBER_OF_MINERS key score tick ms n in
  ranking_ok ms' n' /\ entered key score tick ms n ms' n'.
Proof using HQ Hmax.
  intros Hok Hsc Htick. pose proof (rk_n _ _ Hok) as Hn. unfold rank_miners, enter_score.
  pose proof (find_miner_spec key ms (Z.to_nat n) 0) as Hfind. rewrite Z2Nat.id, Z.add_0_l in Hfind by lia.
  destruct (find_miner (Z.to_nat n) 0 key ms) as [j|].
  - destruct Hfind as [Hj Hkj]. destruct (Z.ltb_spec score (m_score (ms.[j]))) as [Hlt|Hge].
    + rewrite Hkj. by apply improve_ok.
    + split; [done|]. apply keep_place; [|intros Hk; by destruct (Hk j Hj)].
      intros i Hi Hk. rewrite (rk_keys _ _ Hok i j) by (done || congruence). done.
  - destruct (Z.ltb_spec n MAX_NUMBER_OF_MINERS) as [Hroom|Hfull]; [apply place_ok; (done || lia)|].
    fold (miner_below (ms.[n - 1]) (mkMiner key score tick)). destruct (miner_below (ms.[n - 1]) (mkMiner key score tick)) eqn:Hb.
    + change (ranksBelow _ _ score tick) with (miner_below (ms.[n - 1]) (mkMiner key score tick)). rewrite Hb.
      apply place_ok; try done. right. split_and!; (done || lia).
    + change (ranksBelow _ _ score tick) with (miner_below (ms.[n - 1]) (mkMiner key score tick)). rewrite Hb.
      split; [done|]. apply keep_place; [intros i Hi Hk; by destruct (Hfind i Hi)|]. intros _ [?|?]; [lia|congruence].
Qed.

(** C19: one reported score.  The table stays ranked in its two blocks without double keys: the reporter's entry is improved
    if the score is smaller, a new reporter gets the next free place among the candidates or, in a
    full table, the place of the worst candidate if it outranks it; every other entry stays, and in its block.
    The list of future computors then holds different keys of the table only: first the QUORUM best
    computors, then, out of the remaining computors and as many of the best
    candidates, the best ones: no one left out of this pool outranks one who was taken, and no place
    goes to a missing candidate. *)
Theorem ranking_elects key score tick s :
  ranking_ok (miners s) (numberOfMiners s) -> alen (competitors s) = 2 * seats -> alen (futureComputors s) = NUMBER_OF_COMPUTORS ->
  score <= NO_MINER_SCORE -> tick <> 0 ->
  let s' := updateMinerRankingAndFutureComputors NC Q MAX_NUMBER_OF_MINERS key score tick s in
  ranking_ok (miners s') (numberOfMiners s') /\ alen (competitors s') = 2 * seats /\
  entered key score tick (miners s) (numberOfMiners s) (miners s') (numberOfMiners s') /\
  elected (miners s') (numberOfMiners s') (futureComputors s').
Proof using HQ Hmax.
  intros Hok Hcs Hf Hsc Htick. unfold updateMinerRankingAndFutureComputors.
  pose proof (rank_miners_ok key score tick _ _ Hok Hsc Htick) as Hrank.
  destruct (rank_miners NC MAX_NUMBER_OF_MINERS key score tick (miners s) (numberOfMiners s)) as [ms n].
  destruct Hrank as [Hok' Hen]. destruct (candidate_score _ _ _ _) as [cand count].
  cbn [miners numberOfMiners competitors futureComputors]. split; [done|]. split; [|split; [done|]].
  - destruct (combine_ok ms n (competitors s) Hcs) as [Hl0 Hent]. destruct (competitors_ranked ms n _ Hok' Hent) as [Hr0 Hc0].
    by destruct (sort_competitors_ok _ Hl0 Hr0 Hc0).
  - by apply election_ok.
Qed.
End Election.

(** ** A concrete run: five computors, two seats, and a first candidate *)
Definition ex_mining : MiningState :=
  mkMining [mkMiner 11 40 7; mkMiner 12 50 8; mkMiner 13 NO_MINER_SCORE 0; mkMiner 14 NO_MINER_SCORE 0; mkMiner 15 NO_MINER_SCORE 0;
            inhabitant; inhabitant; inhabitant; inhabitant] 5
    (replicate 4 inhabitant) NO_MINER_SCORE NO_MINER_SCORE (replicate 5 0).

Lemma ex_mining_ok : ranking_ok 5 8 (miners ex_mining) (numberOfMiners ex_mining).
Proof.
  assert (forall i, 0 <= i < 5 -> i = 0 \/ i = 1 \/ i = 2 \/ i = 3 \/ i = 4) as Hin by lia.
  split; cbn [numberOfMiners ex_mining]; try done; try lia.
  - intros a b Ha Hab Hb. assert (0 <= a < 5) as Ha' by lia. assert (0 <= b < 5) as Hb' by lia. apply Hin in Ha', Hb'.
    repeat (destruct Ha' as [->|Ha'] || subst a); repeat (destruct Hb' as [->|Hb'] || subst b); vm_compute; (done || lia).
  - intros a b Ha Hab Hb. lia.
  - intros a b Ha Hb. apply Hin in Ha, Hb.
    repeat (destruct Ha as [->|Ha] || subst a); repeat (destruct Hb as [->|Hb] || subst b); vm_compute; (done || lia).
  - intros a Ha. apply Hin in Ha. repeat (destruct Ha as [->|Ha] || subst a); vm_compute; done.
  - intros a Ha. apply Hin in Ha. repeat (destruct Ha as [->|Ha] || subst a); vm_compute; done.
Qed.

Lemma ranking_elects_witness :
  futureComputors (updateMinerRankingAndFutureComputors 5 3 8 77 5 9 ex_mining) = [11; 12; 13; 77; 14] /\
  elected 5 3 (miners (updateMinerRankingAndFutureComputors 5 3 8 77 5 9 ex_mining)) 6
    (futureComputors (updateMinerRankingAndFutureComputors 5 3 8 77 5 9 ex_mining)).
Proof.
  split; [vm_compute; reflexivity|].
  exact (proj2 (proj2 (proj2 (ranking_elects 5 3 ltac:(lia) 8 ltac:(lia) 77 5 9 ex_mining ex_mining_ok eq_refl eq_refl
    ltac:(vm_compute; discriminate) ltac:(discriminate))))).
Defined.
