(* ===== verification/Spectrum.v ===== *)
(** * The spectrum: the ledger of entity balances (src/spectrum/spectrum.h)

    The spectrum is an open-addressing table of entity records indexed by public key, with
    the counters of [SpectrumInfo], the anti-dust thresholds, the list of changed indices
    and the Merkle tree over the records.  The state is a record, every function of the
    header that changes it is a state transformer, and the [goto] loops return [None] when
    they would run for ever.  KangarooTwelve is a parameter.  A 256-bit public key is the
    number its bytes encode in little-endian order. *)
From S2P Require Import Prelude OpenAddressing Containers Merkle.

(** [m256i::m256i_u32[0]] and [isZero]. *)
Definition m256i_u32_0 (publicKey : Z) : Z := u32 publicKey.
Definition isZero (publicKey : Z) : bool := publicKey =? 0.

Record EntityRecord := mkEntity {
  publicKey : Z;
  incomingAmount : Z; outgoingAmount : Z;
  numberOfIncomingTransfers : Z; numberOfOutgoingTransfers : Z;
  latestIncomingTransferTick : Z; latestOutgoingTransferTick : Z
}.

Definition zeroEntity : EntityRecord := mkEntity 0 0 0 0 0 0 0.
#[export] Instance EntityRecord_inhabited : Inhabited EntityRecord := populate zeroEntity.

(** [incomingAmount - outgoingAmount] as [long long]. *)
Definition balance (e : EntityRecord) : Z := s64 (incomingAmount e - outgoingAmount e).

(** The log messages of the spectrum. *)
Inductive SpectrumLog :=
| LogSpectrumStats (totalAmount dustThresholdBurnAll dustThresholdBurnHalf numberOfEntities : Z)
    (entityCategoryPopulations : list Z)
| LogDustBurning (entities : list (Z * Z)).

Definition SPECTRUM_DIRTY_CAPACITY : Z := 16384.
Definition entityCategoryCount : nat := 48.

(** [__lzcnt64] *)
Definition lzcnt64 (x : Z) : Z := if x =? 0 then 64 else 63 - Z.log2 x.

(** [DustBurnLogger]: the pending entries and the messages sent. *)
Module DustBurnLogger.
Definition maxEntries : Z := 1000.
Definition finished (st : list (Z * Z) * list SpectrumLog) : list (Z * Z) * list SpectrumLog :=
  let '(buf, log) := st in ([], log ++ [LogDustBurning buf]).
Definition addDustBurn (publicKey amount : Z) (st : list (Z * Z) * list SpectrumLog) :
    list (Z * Z) * list SpectrumLog :=
  let '(buf, log) := st in
  let buf := buf ++ [(publicKey, amount)] in
  if alen buf =? maxEntries then finished (buf, log) else (buf, log).
End DustBurnLogger.

Section Spectrum.
(** [SPECTRUM_DEPTH] and [LOG_SPECTRUM]. *)
Variable k : nat.
Variable LOG_SPECTRUM : bool.
Abbreviation SPECTRUM_CAPACITY := (2 ^ Z.of_nat k).
Abbreviation capn := (Z.to_nat SPECTRUM_CAPACITY).

(** Digests: the leaf hash of a record and the hash of two digests. *)
Context {D : Type} `{!Inhabited D}.
Variable hashEntity : EntityRecord -> D.
Variable hashNode : D -> D -> D.

Record SpectrumState := mkSpectrum {
  spectrum : list EntityRecord;
  numberOfEntities : Z;
  totalAmount : Z;
  entityCategoryPopulations : list Z;
  dustThresholdBurnAll : Z;
  dustThresholdBurnHalf : Z;
  spectrumDigests : list D;
  spectrumChangeFlags : list Z;
  spectrumDirtyList : list Z;
  spectrumDirtyCount : Z;
  spectrumDirtyOverflow : bool;
  spectrumLog : list SpectrumLog
}.

(** Field updates. *)
Definition with_spectrum (sp : list EntityRecord) (s : SpectrumState) : SpectrumState :=
  mkSpectrum sp (numberOfEntities s) (totalAmount s) (entityCategoryPopulations s) (dustThresholdBurnAll s)
    (dustThresholdBurnHalf s) (spectrumDigests s) (spectrumChangeFlags s) (spectrumDirtyList s)
    (spectrumDirtyCount s) (spectrumDirtyOverflow s) (spectrumLog s).
Definition with_info (n t : Z) (s : SpectrumState) : SpectrumState :=
  mkSpectrum (spectrum s) n t (entityCategoryPopulations s) (dustThresholdBurnAll s)
    (dustThresholdBurnHalf s) (spectrumDigests s) (spectrumChangeFlags s) (spectrumDirtyList s)
    (spectrumDirtyCount s) (spectrumDirtyOverflow s) (spectrumLog s).
Definition with_categories (pops : list Z) (all half : Z) (s : SpectrumState) : SpectrumState :=
  mkSpectrum (spectrum s) (numberOfEntities s) (totalAmount s) pops all half (spectrumDigests s)
    (spectrumChangeFlags s) (spectrumDirtyList s) (spectrumDirtyCount s) (spectrumDirtyOverflow s) (spectrumLog s).
Definition with_digests (dg : list D) (fl : list Z) (s : SpectrumState) : SpectrumState :=
  mkSpectrum (spectrum s) (numberOfEntities s) (totalAmount s) (entityCategoryPopulations s)
    (dustThresholdBurnAll s) (dustThresholdBurnHalf s) dg fl (spectrumDirtyList s) (spectrumDirtyCount s)
    (spectrumDirtyOverflow s) (spectrumLog s).
Definition with_dirty (l : list Z) (c : Z) (o : bool) (s : SpectrumState) : SpectrumState :=
  mkSpectrum (spectrum s) (numberOfEntities s) (totalAmount s) (entityCategoryPopulations s)
    (dustThresholdBurnAll s) (dustThresholdBurnHalf s) (spectrumDigests s) (spectrumChangeFlags s) l c o
    (spectrumLog s).
Definition with_log (log : list SpectrumLog) (s : SpectrumState) : SpectrumState :=
  mkSpectrum (spectrum s) (numberOfEntities s) (totalAmount s) (entityCategoryPopulations s)
    (dustThresholdBurnAll s) (dustThresholdBurnHalf s) (spectrumDigests s) (spectrumChangeFlags s)
    (spectrumDirtyList s) (spectrumDirtyCount s) (spectrumDirtyOverflow s) log.

(** ** Operations *)

Definition spectrumMarkDirty (idx : Z) (s : SpectrumState) : SpectrumState :=
  let c := spectrumDirtyCount s in
  if c <? SPECTRUM_DIRTY_CAPACITY then
    with_dirty ((spectrumDirtyList s).[c := idx]) (c + 1) (spectrumDirtyOverflow s) s
  else with_dirty (spectrumDirtyList s) c true s.

Definition spectrumDirtyReset (s : SpectrumState) : SpectrumState :=
  with_dirty (spectrumDirtyList s) 0 false s.

Definition updateSpectrumInfo (s : SpectrumState) : SpectrumState :=
  let '(n, t) :=
    for_loop capn 0 (fun i '(n, t) =>
      let e := (spectrum s).[i] in
      if negb (balance e =? 0) || negb (isZero (publicKey e)) then (u32 (n + 1), u64 (t + balance e))
      else (n, t)) (0, 0) in
  with_info n t s.

(** Histogram of the balances by magnitude. *)
Definition count_categories (sp : list EntityRecord) : list Z :=
  for_loop capn 0 (fun i pops =>
    let b := u64 (incomingAmount (sp.[i]) - outgoingAmount (sp.[i])) in
    if b =? 0 then pops
    else let c := 63 - lzcnt64 b in pops.[c := u32 (pops.[c] + 1)]) (replicate entityCategoryCount 0).

(** The thresholds (burn all, burn half): walks down from category [n - 1]. *)
Fixpoint find_thresholds (pops : list Z) (n : nat) (numberOfEntities : Z) : Z * Z :=
  match n with
  | O => (0, 0)
  | S n' =>
      let categoryIndex := Z.of_nat n' in
      let numberOfEntities := u32 (numberOfEntities + pops.[categoryIndex]) in
      if SPECTRUM_CAPACITY / 2 <=? numberOfEntities then
        if pops.[categoryIndex] =? numberOfEntities then
          (u64 (u64 (Z.shiftl 1 categoryIndex) - 1), u64 (u64 (Z.shiftl 1 (categoryIndex + 1)) - 1))
        else (u64 (u64 (Z.shiftl 1 (categoryIndex + 1)) - 1), 0)
      else find_thresholds pops n' numberOfEntities
  end.

Definition updateAndAnalzeEntityCategoryPopulations (s : SpectrumState) : SpectrumState :=
  let pops := count_categories (spectrum s) in
  let '(all, half) := find_thresholds pops entityCategoryCount 0 in
  with_categories pops all half s.

Definition logSpectrumStats (s : SpectrumState) : SpectrumState :=
  with_log (spectrumLog s ++ [LogSpectrumStats (totalAmount s) (dustThresholdBurnAll s)
    (dustThresholdBurnHalf s) (numberOfEntities s) (entityCategoryPopulations s)]) s.

(** First slot of the probe sequence. *)
Definition home (publicKey : Z) : Z := Z.land (m256i_u32_0 publicKey) (SPECTRUM_CAPACITY - 1).

(** The [goto iteration] loop of reorganizeSpectrum for one record. *)
Definition reorg_insert (e : EntityRecord) (sp : list EntityRecord) : option (list EntityRecord) :=
  probe (SPECTRUM_CAPACITY - 1)
    (fun index => if isZero (publicKey (sp.[index])) then Some (sp.[index := e]) else None)
    capn (home (publicKey e)).

Definition reorg_table (sp : list EntityRecord) : option (list EntityRecord) :=
  for_loop capn 0 (fun i acc =>
    match acc with
    | None => None
    | Some reorg => if balance (sp.[i]) =? 0 then acc else reorg_insert (sp.[i]) reorg
    end) (Some (replicate capn zeroEntity)).

(** [for (digestIndex ...) KangarooTwelve64To32(&spectrum[digestIndex], &spectrumDigests[digestIndex])] *)
Definition hash_leaves (sp : list EntityRecord) (dg : list D) : list D :=
  for_loop capn 0 (fun i dg => dg.[i := hashEntity (sp.[i])]) dg.

Definition reorganizeSpectrum (s : SpectrumState) : option SpectrumState :=
  let s := with_dirty (spectrumDirtyList s) 0 true s in
  match reorg_table (spectrum s) with
  | None => None
  | Some sp =>
      let dg := (rebuild hashNode k 0 SPECTRUM_CAPACITY
                   (hash_leaves sp (spectrumDigests s), SPECTRUM_CAPACITY)).1 in
      Some (updateSpectrumInfo (with_digests dg (spectrumChangeFlags s) (with_spectrum sp s)))
  end.

(** Returns -1 if there is no such entity. *)
Definition spectrumIndex (publicKey' : Z) (s : SpectrumState) : option Z :=
  if isZero publicKey' then Some (-1)
  else
    probe (SPECTRUM_CAPACITY - 1)
      (fun index =>
         if publicKey ((spectrum s).[index]) =? publicKey' then Some index
         else if isZero (publicKey ((spectrum s).[index])) then Some (-1)
         else None)
      capn (home publicKey').

Definition energy (index : Z) (s : SpectrumState) : Z := balance ((spectrum s).[index]).

(** [spectrum[i].outgoingAmount = spectrum[i].incomingAmount] *)
Definition burn_record (e : EntityRecord) : EntityRecord :=
  mkEntity (publicKey e) (incomingAmount e) (incomingAmount e) (numberOfIncomingTransfers e)
    (numberOfOutgoingTransfers e) (latestIncomingTransferTick e) (latestOutgoingTransferTick e).

(** Spectrum, buffered burns, log. *)
Definition burn_state : Type := list EntityRecord * (list (Z * Z) * list SpectrumLog).

Definition burn_at (isGenerateLog : bool) (i : Z) (st : burn_state) : burn_state :=
  let '(sp, dbl) := st in
  let e := sp.[i] in
  (sp.[i := burn_record e],
   if LOG_SPECTRUM && isGenerateLog
   then DustBurnLogger.addDustBurn (publicKey e) (u64 (incomingAmount e - outgoingAmount e)) dbl else dbl).

Definition is_dust (threshold : Z) (e : EntityRecord) : bool :=
  let b := u64 (incomingAmount e - outgoingAmount e) in (b <=? threshold) && negb (b =? 0).

Definition burn_all (isGenerateLog : bool) (threshold : Z) (st : burn_state) : burn_state :=
  for_loop capn 0 (fun i st => if is_dust threshold (st.1.[i]) then burn_at isGenerateLog i st else st) st.

Definition burn_half (isGenerateLog : bool) (threshold : Z) (st : burn_state) : burn_state :=
  (for_loop capn 0 (fun i '(st, countBurnCanadiates) =>
     if is_dust threshold (st.1.[i]) then
       let countBurnCanadiates := u32 (countBurnCanadiates + 1) in
       ((if Z.land countBurnCanadiates 1 =? 0 then st else burn_at isGenerateLog i st), countBurnCanadiates)
     else (st, countBurnCanadiates)) (st, 0)).1.

(** The anti-dust block of increaseEnergy. *)
Definition antiDust (isGenerateLog : bool) (s : SpectrumState) : option SpectrumState :=
  let logging := LOG_SPECTRUM && isGenerateLog in
  let s := updateAndAnalzeEntityCategoryPopulations s in
  let s := if logging then logSpectrumStats s else s in
  let st : burn_state := (spectrum s, ([], spectrumLog s)) in
  let st := if 0 <? dustThresholdBurnAll s then burn_all isGenerateLog (dustThresholdBurnAll s) st else st in
  let st := if 0 <? dustThresholdBurnHalf s then burn_half isGenerateLog (dustThresholdBurnHalf s) st else st in
  let dbl := if logging then DustBurnLogger.finished st.2 else st.2 in
  match reorganizeSpectrum (with_log dbl.2 (with_spectrum st.1 s)) with
  | None => None
  | Some s =>
      Some (if logging then logSpectrumStats (updateAndAnalzeEntityCategoryPopulations s) else s)
  end.

(** The record after a credit to an existing entity, and a new one. *)
Definition credit (amount tick : Z) (e : EntityRecord) : EntityRecord :=
  mkEntity (publicKey e) (s64 (incomingAmount e + amount)) (outgoingAmount e)
    (u32 (numberOfIncomingTransfers e + 1)) (numberOfOutgoingTransfers e) tick (latestOutgoingTransferTick e).
Definition open_entity (publicKey' amount tick : Z) (e : EntityRecord) : EntityRecord :=
  mkEntity publicKey' amount (outgoingAmount e) 1 (numberOfOutgoingTransfers e) tick
    (latestOutgoingTransferTick e).

(** The [goto iteration] loop of increaseEnergy. *)
Definition increaseEnergy_at (publicKey' amount tick : Z) (isGenerateLog : bool) (s : SpectrumState)
    (index : Z) : option SpectrumState :=
  let e := (spectrum s).[index] in
  if publicKey e =? publicKey' then
    let s := spectrumMarkDirty index (with_spectrum ((spectrum s).[index := credit amount tick e]) s) in
    Some (with_info (numberOfEntities s) (u64 (totalAmount s + amount)) s)
  else if isZero (publicKey e) then
    let s := spectrumMarkDirty index (with_spectrum ((spectrum s).[index := open_entity publicKey' amount tick e]) s) in
    let s := with_info (u32 (numberOfEntities s + 1)) (u64 (totalAmount s + amount)) s in
    Some (if LOG_SPECTRUM && isGenerateLog && (Z.land (numberOfEntities s) 0x7ffff =? 1)
          then logSpectrumStats (updateAndAnalzeEntityCategoryPopulations s) else s)
  else None.

Definition increaseEnergy (publicKey' amount tick : Z) (isGenerateLog : bool) (s : SpectrumState) :
    option SpectrumState :=
  if negb (isZero publicKey') && (0 <=? amount) then
    match (if SPECTRUM_CAPACITY / 2 + SPECTRUM_CAPACITY / 4 <=? numberOfEntities s
           then antiDust isGenerateLog s else Some s) with
    | None => None
    | Some s =>
        probe (SPECTRUM_CAPACITY - 1) (increaseEnergy_at publicKey' amount tick isGenerateLog s) capn
          (home publicKey')
    end
  else Some s.

Definition debit (amount tick : Z) (e : EntityRecord) : EntityRecord :=
  mkEntity (publicKey e) (incomingAmount e) (s64 (outgoingAmount e + amount)) (numberOfIncomingTransfers e)
    (u32 (numberOfOutgoingTransfers e + 1)) (latestIncomingTransferTick e) tick.

Definition decreaseEnergy (index amount tick : Z) (s : SpectrumState) : SpectrumState * bool :=
  if 0 <=? amount then
    if amount <=? energy index s then
      let e := (spectrum s).[index] in
      let s := spectrumMarkDirty index (with_spectrum ((spectrum s).[index := debit amount tick e]) s) in
      (with_info (numberOfEntities s) (u64 (totalAmount s - amount)) s, true)
    else (s, false)
  else (s, false).

(** The change test of getSpectrumDigest and the re-hash of one leaf. *)
Definition changed_in (tick : Z) (e : EntityRecord) : bool :=
  (latestIncomingTransferTick e =? tick) || (latestOutgoingTransferTick e =? tick).

Definition rehash_leaf (tick : Z) (sp : list EntityRecord) (idx : Z) (st : list D * list Z) : list D * list Z :=
  let '(dg, fl) := st in
  if changed_in tick (sp.[idx]) then
    (dg.[idx := hashEntity (sp.[idx])],
     fl.[Z.shiftr idx 6 := Z.lor (fl.[Z.shiftr idx 6]) (u64 (Z.shiftl 1 (Z.land idx 63)))])
  else (dg, fl).

Definition getSpectrumDigest (tick : Z) (s : SpectrumState) : SpectrumState * D :=
  let '(dg, fl) :=
    if spectrumDirtyOverflow s then
      for_loop capn 0 (rehash_leaf tick (spectrum s)) (spectrumDigests s, spectrumChangeFlags s)
    else
      for_loop (Z.to_nat (spectrumDirtyCount s)) 0
        (fun di => rehash_leaf tick (spectrum s) ((spectrumDirtyList s).[di]))
        (spectrumDigests s, spectrumChangeFlags s) in
  let s := spectrumDirtyReset s in
  let '(fl, dg, _) := climb (climb_level hashNode) k 0 SPECTRUM_CAPACITY (fl, dg, SPECTRUM_CAPACITY) in
  (with_digests dg (fl.[0 := 0]) s, dg.[SPECTRUM_CAPACITY * 2 - 1 - 1]).
End Spectrum.
