(* ===== verification/SpectrumLedger.v ===== *)
(** * The spectrum as a ledger

    What increaseEnergy, decreaseEnergy, spectrumIndex and reorganizeSpectrum do to the
    balances: the table stays well formed, every [goto] loop ends, the counters of
    SpectrumInfo agree with the table, and the anti-dust block leaves at most half of the
    slots in use and burns nothing above its thresholds. *)
From S2P Require Import Prelude OpenAddressing Containers Merkle Spectrum.

Section Table.
Variable k : nat.
Hypothesis Hk : (2 <= k <= 31)%nat.
Abbreviation cap := (2 ^ Z.of_nat k).
Abbreviation capn := (Z.to_nat cap).
Implicit Types sp : list EntityRecord.

Lemma cap_bounds : 4 <= cap <= 2 ^ 31.
Proof.
  split; [change 4 with (2 ^ 2)|]; apply Z.pow_le_mono_r; lia.
Qed.

Lemma cap_quarters : cap / 2 + cap / 4 + cap / 4 = cap /\ 1 <= cap / 4 /\ cap / 2 = 2 * (cap / 4).
Proof.
  pose proof cap_bounds. replace (Z.of_nat k) with (2 + (Z.of_nat k - 2)) in * by lia.
  rewrite Z.pow_add_r in * by lia. change (2 ^ 2) with 4 in *. Z.div_mod_to_equations. lia.
Qed.

(** ** The table of records *)
Definition tab sp (i : Z) : slot Z :=
  if isZero (publicKey (sp.[i])) then Empty else Full (publicKey (sp.[i])).

Record table sp : Prop := {
  sp_len : alen sp = cap;
  sp_zero : forall i, in_table k i -> publicKey (sp.[i]) = 0 -> sp.[i] = zeroEntity;
  sp_tab : table_ok k (home k) (tab sp);
  sp_bal : forall i, in_table k i -> 0 <= balance (sp.[i])
}.

Definition entities sp : Z := countZ (fun i => negb (isZero (publicKey (sp.[i])))) capn.
Definition live sp : Z := countZ (fun i => negb (balance (sp.[i]) =? 0)) capn.
Definition total sp : Z := sumZ (fun i => balance (sp.[i])) capn.

(** The balance of an entity, independent of its slot. *)
Definition ledger sp (x : Z) : Z :=
  sumZ (fun i => if publicKey (sp.[i]) =? x then balance (sp.[i]) else 0) capn.

Lemma home_in x : in_table k (home k x).
Proof. apply land_in_table. Qed.

Lemma tab_full sp i x : tab sp i = Full x <-> publicKey (sp.[i]) = x /\ x <> 0.
Proof.
  unfold tab, isZero. destruct (Z.eqb_spec (publicKey (sp.[i])) 0); [split; [done|intros [<- ?]; done]|].
  split; [intros [= <-]; done|]. by intros [-> _].
Qed.

Lemma tab_empty sp i : tab sp i = Empty <-> publicKey (sp.[i]) = 0.
Proof. unfold tab, isZero. destruct (Z.eqb_spec (publicKey (sp.[i])) 0); naive_solver. Qed.

Lemma in_table_nat i : in_table k i <-> 0 <= i < Z.of_nat capn.
Proof. unfold in_table. pose proof cap_bounds. rewrite Z2Nat.id by lia. done. Qed.

Lemma table_key_inj sp i j :
  table sp -> in_table k i -> in_table k j -> publicKey (sp.[i]) <> 0 ->
  publicKey (sp.[i]) = publicKey (sp.[j]) -> i = j.
Proof.
  intros Ht Hi Hj Hz He. eapply (tab_unique _ _ _ (sp_tab _ Ht)); [done..| |]; apply tab_full; eauto.
Qed.

(** ** Effect of one write on the aggregates *)
Section write.
Variables (sp : list EntityRecord) (i : Z) (e : EntityRecord).
Hypothesis Hl : alen sp = cap.
Hypothesis Hi : in_table k i.

Lemma read_write j : (sp.[i := e]).[j] = if decide (j = i) then e else sp.[j].
Proof.
  rewrite aget_aset. unfold in_table in Hi. destruct (decide (j = i)) as [->|]; [by rewrite decide_True by lia|].
  rewrite decide_False; [done|]. by intros [-> _].
Qed.

Lemma entities_aset :
  entities (sp.[i := e]) =
  entities sp + Z.b2z (negb (isZero (publicKey e))) - Z.b2z (negb (isZero (publicKey (sp.[i])))).
Proof.
  unfold entities. rewrite (countZ_update (fun j => negb (isZero (publicKey (sp.[j]))))  _ capn i).
  - by rewrite read_write, decide_True.
  - by apply in_table_nat.
  - intros j _ Hj. by rewrite read_write, decide_False.
Qed.

Lemma live_aset :
  live (sp.[i := e]) =
  live sp + Z.b2z (negb (balance e =? 0)) - Z.b2z (negb (balance (sp.[i]) =? 0)).
Proof.
  unfold live. rewrite (countZ_update (fun j => negb (balance (sp.[j]) =? 0))  _ capn i).
  - by rewrite read_write, decide_True.
  - by apply in_table_nat.
  - intros j _ Hj. by rewrite read_write, decide_False.
Qed.

Lemma total_aset : total (sp.[i := e]) = total sp + balance e - balance (sp.[i]).
Proof.
  unfold total. rewrite (sumZ_update (fun j => balance (sp.[j]))  _ capn i).
  - by rewrite read_write, decide_True.
  - by apply in_table_nat.
  - intros j _ Hj. by rewrite read_write, decide_False.
Qed.

Lemma ledger_aset x :
  ledger (sp.[i := e]) x =
  ledger sp x + (if publicKey e =? x then balance e else 0) -
  (if publicKey (sp.[i]) =? x then balance (sp.[i]) else 0).
Proof.
  unfold ledger.
  rewrite (sumZ_update (fun j => if publicKey (sp.[j]) =? x then balance (sp.[j]) else 0)  _ capn i).
  - by rewrite read_write, decide_True.
  - by apply in_table_nat.
  - intros j _ Hj. by rewrite read_write, decide_False.
Qed.
End write.

(** ** Reading the ledger *)
Lemma ledger_at sp i :
  table sp -> in_table k i -> publicKey (sp.[i]) <> 0 -> ledger sp (publicKey (sp.[i])) = balance (sp.[i]).
Proof.
  intros Ht Hi Hz. unfold ledger. rewrite (sumZ_update (fun _ => 0) _ capn i).
  - rewrite Z.eqb_refl, sumZ_zero by done. lia.
  - by apply in_table_nat.
  - intros j Hj Hne. destruct (Z.eqb_spec (publicKey (sp.[j])) (publicKey (sp.[i]))) as [He|]; [|done].
    exfalso. apply Hne. symmetry. eapply table_key_inj; eauto. by apply in_table_nat.
Qed.

Lemma ledger_absent sp x : (forall i, in_table k i -> publicKey (sp.[i]) <> x) -> ledger sp x = 0.
Proof.
  intros Ha. apply sumZ_zero. intros i Hi%in_table_nat.
  destruct (Z.eqb_spec (publicKey (sp.[i])) x) as [He|]; [|done]. by destruct (Ha i Hi).
Qed.

Lemma ledger_lookup sp x :
  table sp -> x <> 0 ->
  (exists i, in_table k i /\ publicKey (sp.[i]) = x /\ ledger sp x = balance (sp.[i])) \/
  ((forall i, in_table k i -> publicKey (sp.[i]) <> x) /\ ledger sp x = 0).
Proof.
  intros Ht Hx. destruct (decide (Exists (fun n => publicKey (sp.[Z.of_nat n]) = x) (seq 0 capn))) as [He|Hn].
  - left. apply Exists_exists in He as (n & Hn%elem_of_seq & <-). exists (Z.of_nat n).
    assert (in_table k (Z.of_nat n)) by (apply in_table_nat; lia). split; [done|]. split; [done|].
    by apply ledger_at.
  - right. assert (forall i, in_table k i -> publicKey (sp.[i]) <> x) as Ha.
    { intros i Hi%in_table_nat Hp. apply Hn, Exists_exists. exists (Z.to_nat i).
      rewrite elem_of_seq, Z2Nat.id by lia. split; [lia|done]. }
    split; [done|]. by apply ledger_absent.
Qed.

Lemma balance_le_total sp i : table sp -> in_table k i -> balance (sp.[i]) <= total sp.
Proof.
  intros Ht Hi. apply (sumZ_elem_le (fun i => balance (sp.[i]))); [|by apply in_table_nat].
  intros j Hj%in_table_nat. by apply sp_bal.
Qed.

Lemma ledger_range sp x : table sp -> x <> 0 -> 0 <= ledger sp x <= total sp.
Proof.
  intros Ht Hx. destruct (ledger_lookup sp x Ht Hx) as [(i & Hi & _ & ->)|[_ ->]].
  - split; [by apply sp_bal|by apply balance_le_total].
  - split; [done|]. apply sumZ_nonneg. intros j Hj%in_table_nat. by apply sp_bal.
Qed.

(** ** Probing *)

(** From its first slot, the search for [x] ends at the entity or at a free slot. *)
Lemma walk sp x :
  table sp -> x <> 0 -> entities sp < cap ->
  exists j, 0 <= j < cap /\
    (forall j', 0 <= j' < j ->
       publicKey (sp.[nth_slot k (home k x) j']) <> 0 /\ publicKey (sp.[nth_slot k (home k x) j']) <> x) /\
    (publicKey (sp.[nth_slot k (home k x) j]) = x \/
     publicKey (sp.[nth_slot k (home k x) j]) = 0 /\ forall i, in_table k i -> publicKey (sp.[i]) <> x).
Proof.
  intros Ht Hx Hn. pose proof cap_bounds as Hc.
  destruct (countZ_lt_exists (fun i => negb (isZero (publicKey (sp.[i])))) capn) as (e & He & Hez).
  { unfold entities in Hn. lia. }
  apply negb_false_iff, Z.eqb_eq in Hez. apply in_table_nat in He.
  destruct (find_walk k (home k) home_in (tab sp) x e (sp_tab _ Ht)) as (j & Hj & Hb & Hend);
    [|done|by apply tab_empty|].
  { intros i. unfold tab. by destruct (isZero _). }
  exists j. split; [done|]. split.
  - intros j' Hj'. destruct (Hb j' Hj') as [H1 H2]. rewrite tab_empty in H1. rewrite tab_full in H2. tauto.
  - destruct Hend as [Hf|[Hf Ha]].
    + left. apply tab_full in Hf. tauto.
    + right. split; [by apply tab_empty|]. intros i Hi Hp. apply (Ha i Hi), tab_full. done.
Qed.

(** ** Writes that keep the table well formed *)
Lemma table_update sp i e :
  table sp -> in_table k i -> publicKey (sp.[i]) <> 0 -> publicKey e = publicKey (sp.[i]) -> 0 <= balance e ->
  table (sp.[i := e]).
Proof.
  intros Ht Hi Hz He Hb. pose proof (sp_len _ Ht) as Hl. split.
  - by rewrite alen_aset.
  - intros j Hj. rewrite (read_write sp i e Hl Hi). case_decide; [congruence|]. by apply sp_zero.
  - eapply table_ok_ext; [|apply sp_tab, Ht]. intros j Hj. unfold tab. rewrite (read_write sp i e Hl Hi).
    case_decide; [|done]. subst. by rewrite He.
  - intros j Hj. rewrite (read_write sp i e Hl Hi). case_decide; [done|]. by apply sp_bal.
Qed.

Lemma table_insert sp j e :
  let i := nth_slot k (home k (publicKey e)) j in
  table sp -> publicKey e <> 0 -> (forall i, in_table k i -> publicKey (sp.[i]) <> publicKey e) -> 0 <= j < cap ->
  (forall j', 0 <= j' < j -> publicKey (sp.[nth_slot k (home k (publicKey e)) j']) <> 0) ->
  publicKey (sp.[i]) = 0 -> 0 <= balance e -> table (sp.[i := e]).
Proof.
  intros i Ht Hz Ha Hj Hb Hi0 He. pose proof (sp_len _ Ht) as Hl. assert (in_table k i) as Hi by apply nth_slot_in. split.
  - by rewrite alen_aset.
  - intros i' Hi'. rewrite (read_write sp i e Hl Hi). case_decide; [congruence|]. by apply sp_zero.
  - eapply table_ok_ext; [|apply (table_ok_insert k (home k) (tab sp) (publicKey e) j (sp_tab _ Ht)); [|exact Hj| |]].
    + intros i' Hi'. unfold upd, tab at 2. fold i. rewrite (read_write sp i e Hl Hi). case_decide; [|done].
      unfold isZero. by rewrite (proj2 (Z.eqb_neq _ _)).
    + intros i' Hi' [Hf _]%tab_full. by apply (Ha i' Hi').
    + intros y [Hf Hy]%tab_full. fold i in Hf. congruence.
    + intros j' Hj' Hf%tab_empty. by apply (Hb j' Hj').
  - intros i' Hi'. rewrite (read_write sp i e Hl Hi). case_decide; [done|]. by apply sp_bal.
Qed.

(** ** reorganizeSpectrum *)
Lemma table_nonzero sp i : table sp -> in_table k i -> balance (sp.[i]) <> 0 -> publicKey (sp.[i]) <> 0.
Proof. intros Ht Hi Hb Hz. apply Hb. by rewrite (sp_zero _ Ht i Hi Hz). Qed.

Lemma live_le_entities sp : table sp -> live sp <= entities sp.
Proof.
  intros Ht. unfold live, entities, countZ. apply sumZ_le. intros i Hi%in_table_nat. unfold isZero.
  destruct (Z.eqb_spec (balance (sp.[i])) 0), (Z.eqb_spec (publicKey (sp.[i])) 0); simpl; try lia.
  exfalso. by eapply table_nonzero.
Qed.

Lemma zero_table : table (replicate capn zeroEntity).
Proof.
  pose proof cap_bounds. assert (forall i, in_table k i -> (replicate capn zeroEntity).[i] = zeroEntity) as Hr.
  { intros i Hi%in_table_nat. by apply aget_replicate. }
  split.
  - rewrite alen_replicate. lia.
  - intros i Hi _. by apply Hr.
  - apply table_ok_empty. intros i Hi. apply tab_empty. by rewrite Hr.
  - intros i Hi. rewrite Hr by done. done.
Qed.

Lemma zero_aggregates :
  entities (replicate capn zeroEntity) = 0 /\ total (replicate capn zeroEntity) = 0.
Proof.
  split; apply sumZ_zero; intros i Hi; by rewrite aget_replicate.
Qed.

Lemma reorg_insert_ok sp e :
  table sp -> entities sp < cap -> publicKey e <> 0 -> 0 <= balance e ->
  (forall i, in_table k i -> publicKey (sp.[i]) <> publicKey e) ->
  exists i, in_table k i /\ publicKey (sp.[i]) = 0 /\ reorg_insert k e sp = Some (sp.[i := e]) /\ table (sp.[i := e]).
Proof.
  intros Ht Hn Hz Hb Ha. destruct (walk sp _ Ht Hz Hn) as (j & Hj & Hbef & [Hf|[H0 _]]).
  { exfalso. eapply Ha; [apply nth_slot_in|exact Hf]. }
  exists (nth_slot k (home k (publicKey e)) j). split; [apply nth_slot_in|]. split; [done|]. split.
  - unfold reorg_insert. apply probe_intro with (j := j); [apply home_in|lia| |].
    + unfold isZero. by rewrite H0.
    + intros j' Hj'. unfold isZero. by rewrite (proj2 (Z.eqb_neq _ _)) by (by apply Hbef).
  - apply table_insert; try done. intros j' Hj'. by apply Hbef.
Qed.

(** What holds after the records below [i] were inserted. *)
Record reorg_inv sp (i : Z) (T : list EntityRecord) : Prop := {
  ri_table : table T;
  ri_entities : entities T = countZ (fun j => negb (balance (sp.[j]) =? 0)) (Z.to_nat i);
  ri_total : total T = sumZ (fun j => balance (sp.[j])) (Z.to_nat i);
  ri_from : forall a, in_table k a -> publicKey (T.[a]) <> 0 ->
    exists j, 0 <= j < i /\ T.[a] = sp.[j] /\ balance (sp.[j]) <> 0;
  ri_to : forall j, 0 <= j < i -> balance (sp.[j]) <> 0 -> exists a, in_table k a /\ T.[a] = sp.[j]
}.

Lemma reorg_step sp i T :
  table sp -> live sp < cap -> in_table k i -> reorg_inv sp i T -> balance (sp.[i]) <> 0 ->
  exists T', reorg_insert k (sp.[i]) T = Some T' /\ reorg_inv sp (i + 1) T'.
Proof.
  intros Ht Hlive Hi [HT Hn Htot Hfrom Hto] Hb. assert (0 <= i < Z.of_nat capn) as Hi' by by apply in_table_nat.
  pose proof (table_nonzero sp i Ht Hi Hb) as Hz.
  assert (countZ (fun j => negb (balance (sp.[j]) =? 0)) (Z.to_nat (i + 1)) = entities T + 1) as Hn1.
  { rewrite countZ_S by lia. rewrite (proj2 (Z.eqb_neq _ _) Hb). simpl. lia. }
  assert (entities T < cap) as Hroom.
  { destruct (countZ_mono (fun j => negb (balance (sp.[j]) =? 0)) (Z.to_nat (i + 1)) capn 0) as [Hm _]; [lia|].
    unfold live in Hlive. lia. }
  destruct (reorg_insert_ok T (sp.[i]) HT Hroom Hz) as (a & Ha & Ha0 & -> & HT').
  { by apply sp_bal. }
  { intros a Ha Hp. destruct (Hfrom a Ha) as (j & Hj & He & _); [congruence|].
    rewrite He in Hp. assert (j = i); [|lia]. eapply table_key_inj; [exact Ht| |exact Hi| |exact Hp]; [|congruence].
    apply in_table_nat. lia. }
  exists (T.[a := sp.[i]]). split; [done|]. pose proof (sp_len _ HT) as Hl.
  assert (balance (T.[a]) = 0) as Hb0 by (by rewrite (sp_zero _ HT a Ha Ha0)). split.
  - done.
  - rewrite entities_aset by done. unfold isZero. rewrite Ha0, (proj2 (Z.eqb_neq _ _) Hz). simpl. lia.
  - rewrite total_aset, Hb0, Htot by done. replace (Z.to_nat (i + 1)) with (S (Z.to_nat i)) by lia.
    cbn [sumZ]. rewrite Z2Nat.id by lia. lia.
  - intros b Hb'. rewrite (read_write T a (sp.[i]) Hl Ha). case_decide.
    + intros _. exists i. split; [lia|done].
    + intros Hp. destruct (Hfrom b Hb' Hp) as (j & Hj & ?). exists j. split; [lia|done].
  - intros j Hj Hbj. destruct (decide (j = i)) as [->|].
    + exists a. rewrite (read_write T a (sp.[i]) Hl Ha), decide_True by done. done.
    + destruct (Hto j ltac:(lia) Hbj) as (b & Hb' & He). exists b. split; [done|].
      rewrite (read_write T a (sp.[i]) Hl Ha), decide_False; [done|]. intros ->.
      rewrite He in Ha0. eapply (table_nonzero sp j); [done| |done|done]. apply in_table_nat. lia.
Qed.

Lemma reorg_inv_skip sp i T :
  0 <= i -> balance (sp.[i]) = 0 -> reorg_inv sp i T -> reorg_inv sp (i + 1) T.
Proof.
  intros Hi Hb [HT Hn Htot Hfrom Hto]. split.
  - done.
  - rewrite countZ_S by lia. rewrite Hb. simpl. lia.
  - replace (Z.to_nat (i + 1)) with (S (Z.to_nat i)) by lia. cbn [sumZ]. rewrite Z2Nat.id, Hb by lia. lia.
  - intros b Hb' Hp. destruct (Hfrom b Hb' Hp) as (j & Hj & ?). exists j. split; [lia|done].
  - intros j Hj Hbj. assert (j <> i) by congruence. apply Hto; [lia|done].
Qed.

Lemma reorg_table_inv sp :
  table sp -> live sp < cap -> exists T, reorg_table k sp = Some T /\ reorg_inv sp cap T.
Proof.
  intros Ht Hlive. pose proof cap_bounds as Hc. unfold reorg_table.
  pose proof (for_loop_ind (fun i acc => exists T, acc = Some T /\ reorg_inv sp i T)
    (fun i acc => match acc with
     | None => None
     | Some reorg => if balance (sp.[i]) =? 0 then acc else reorg_insert k (sp.[i]) reorg end)
    capn 0 (Some (replicate capn zeroEntity))) as Hf.
  rewrite Z2Nat.id in Hf by lia. apply Hf; clear Hf.
  - exists (replicate capn zeroEntity). split; [done|]. destruct zero_aggregates as [H1 H2].
    split; [apply zero_table|by rewrite H1|by rewrite H2| |lia].
    intros a Ha%in_table_nat Hp. by rewrite aget_replicate in Hp.
  - intros i acc Hi (T & -> & HT). destruct (Z.eqb_spec (balance (sp.[i])) 0) as [Hb|Hb].
    + exists T. split; [done|]. apply reorg_inv_skip; [lia|done|done].
    + apply reorg_step; try done.
Qed.

(** The rebuilt table: same balances, entities without balance are gone. *)
Lemma reorg_table_ok sp :
  table sp -> live sp < cap ->
  exists T, reorg_table k sp = Some T /\ table T /\ entities T = live sp /\ live T = live sp /\ total T = total sp /\
    forall x, x <> 0 -> ledger T x = ledger sp x.
Proof.
  intros Ht Hlive. destruct (reorg_table_inv sp Ht Hlive) as (T & HT & [Htab Hn Htot Hfrom Hto]).
  exists T. split; [done|]. split; [done|]. split; [done|].
  assert (live T = entities T) as HlT.
  { apply countZ_ext. intros i Hi%in_table_nat. f_equal. unfold isZero.
    destruct (Z.eqb_spec (publicKey (T.[i])) 0) as [Hz|Hz].
    - rewrite (sp_zero _ Htab i Hi Hz). done.
    - destruct (Hfrom i Hi Hz) as (j & _ & -> & Hb). by apply Z.eqb_neq. }
  split; [by rewrite HlT|]. split; [done|]. intros x Hx.
  destruct (ledger_lookup sp x Ht Hx) as [(i & Hi & <- & ->)|[Ha ->]].
  - destruct (decide (balance (sp.[i]) = 0)) as [Hb|Hb].
    + rewrite Hb. apply ledger_absent. intros a Ha' Hp.
      destruct (Hfrom a Ha') as (j & Hj & He & Hbj); [congruence|]. apply Hbj. rewrite He in Hp.
      assert (j = i) as ->; [|done]. eapply table_key_inj; [exact Ht| |exact Hi| |exact Hp]; [|congruence].
      unfold in_table. lia.
    + unfold in_table in Hi. destruct (Hto i Hi Hb) as (a & Ha' & He). rewrite <- He. apply ledger_at; [done|done|].
      rewrite He. by apply table_nonzero.
  - apply ledger_absent. intros a Ha' Hp. destruct (Hfrom a Ha') as (j & Hj & He & _); [congruence|].
    rewrite He in Hp. apply (Ha j); [unfold in_table; lia|done].
Qed.

(** updateSpectrumInfo counts what the table holds. *)
Lemma updateSpectrumInfo_ok {D} (s : @SpectrumState D) :
  table (spectrum s) -> total (spectrum s) < 2 ^ 48 ->
  updateSpectrumInfo k s = with_info (entities (spectrum s)) (total (spectrum s)) s.
Proof.
  intros Ht Hs. pose proof cap_bounds as Hc. unfold updateSpectrumInfo. set (sp := spectrum s) in *.
  match goal with |- context [for_loop capn 0 ?b ?init] =>
    pose proof (for_loop_ind (fun i acc =>
      acc = (countZ (fun j => negb (isZero (publicKey (sp.[j])))) (Z.to_nat i),
             sumZ (fun j => balance (sp.[j])) (Z.to_nat i))) b capn 0 init) as Hf;
    assert (for_loop capn 0 b init = (entities sp, total sp)) as ->; [|done] end.
  rewrite Z2Nat.id in Hf by lia. rewrite Hf; [done|done|]. clear Hf. intros i [n t] Hi [= -> ->].
  assert (in_table k i) as Hi' by by unfold in_table.
  replace (Z.to_nat (i + 1)) with (S (Z.to_nat i)) by lia. unfold countZ. cbn [sumZ]. rewrite Z2Nat.id by lia.
  fold (countZ (fun j => negb (isZero (publicKey (sp.[j])))) (Z.to_nat i)).
  pose proof (countZ_range (fun j => negb (isZero (publicKey (sp.[j])))) (Z.to_nat i)).
  destruct (isZero (publicKey (sp.[i]))) eqn:Hz.
  - apply Z.eqb_eq in Hz. rewrite (sp_zero _ Ht i Hi' Hz).
    change (balance zeroEntity) with 0. cbn [Z.eqb negb orb Z.b2z]. by rewrite !Z.add_0_r.
  - cbn [negb orb Z.b2z]. rewrite orb_true_r. rewrite u32_small by (unfold is_u32; lia). f_equal.
    apply u64_small. pose proof (sumZ_nonneg (fun j => balance (sp.[j])) (Z.to_nat i)) as H0.
    pose proof (sp_bal _ Ht i Hi').
    assert (sumZ (fun j => balance (sp.[j])) (S (Z.to_nat i)) <= total sp) as Hle.
    { apply sumZ_prefix; [lia|]. intros j Hj%in_table_nat. by apply sp_bal. }
    cbn [sumZ] in Hle. rewrite Z2Nat.id in Hle by lia. unfold is_u64.
    assert (0 <= sumZ (fun j => balance (sp.[j])) (Z.to_nat i)).
    { apply H0. intros j Hj. apply sp_bal; [done|]. unfold in_table. lia. }
    lia.
Qed.

(** ** Dust: balance categories and thresholds *)
Lemma u64_balance e : 0 <= balance e -> u64 (incomingAmount e - outgoingAmount e) = balance e.
Proof.
  intros Hb. unfold balance in *. rewrite <- u64_s64. apply u64_small.
  pose proof (s64_range (incomingAmount e - outgoingAmount e)) as Hr. unfold is_s64, is_u64 in *. lia.
Qed.

Lemma is_dust_spec thr e : 0 <= balance e -> is_dust thr e = bool_decide (0 < balance e <= thr).
Proof.
  intros Hb. unfold is_dust. rewrite u64_balance by done.
  destruct (Z.leb_spec (balance e) thr), (Z.eqb_spec (balance e) 0); case_bool_decide; simpl; try done; lia.
Qed.

Lemma balance_burn e : balance (burn_record e) = 0.
Proof. unfold balance. simpl. by rewrite Z.sub_diag. Qed.

(** Number of balances of at least [2^c], and of magnitude [c]. *)
Definition above sp (c : Z) : Z := countZ (fun i => 2 ^ c <=? balance (sp.[i])) capn.
Definition in_category (c b : Z) : bool := negb (b =? 0) && (Z.log2 b =? c).

Lemma above_split sp c :
  table sp -> 0 <= c -> above sp c = above sp (c + 1) + countZ (fun i => in_category c (balance (sp.[i]))) capn.
Proof.
  intros Ht Hc. unfold above, countZ. rewrite <- sumZ_add. apply sumZ_ext. intros i Hi%in_table_nat.
  pose proof (sp_bal _ Ht i Hi) as Hb. unfold in_category. set (b := balance (sp.[i])) in *.
  assert (0 < 2 ^ c) by (apply Z.pow_pos_nonneg; lia).
  assert (2 ^ (c + 1) = 2 * 2 ^ c) by (rewrite Z.pow_add_r by lia; lia).
  destruct (Z.eqb_spec b 0) as [->|Hb0]; cbn [negb andb Z.b2z].
  - rewrite !(proj2 (Z.leb_gt _ _)) by lia. done.
  - pose proof (Z.log2_spec b ltac:(lia)) as Hl. rewrite <- Z.add_1_r in Hl.
    destruct (Z.eqb_spec (Z.log2 b) c) as [<-|Hlc].
    + rewrite (proj2 (Z.leb_le _ _)), (proj2 (Z.leb_gt _ _)) by lia. done.
    + assert (2 ^ c <= b <-> c <= Z.log2 b) by (apply Z.log2_le_pow2; lia).
      assert (2 ^ (c + 1) <= b <-> c + 1 <= Z.log2 b) by (apply Z.log2_le_pow2; lia).
      destruct (Z.leb_spec (2 ^ c) b), (Z.leb_spec (2 ^ (c + 1)) b); simpl; lia.
Qed.

Lemma above_zero sp : table sp -> above sp 0 = live sp.
Proof.
  intros Ht. apply countZ_ext. intros i Hi%in_table_nat. pose proof (sp_bal _ Ht i Hi). change (2 ^ 0) with 1.
  destruct (Z.leb_spec 1 (balance (sp.[i]))), (Z.eqb_spec (balance (sp.[i])) 0); simpl; try done; lia.
Qed.

Lemma above_top sp c : table sp -> total sp < 2 ^ c -> above sp c = 0.
Proof.
  intros Ht Hs. apply sumZ_zero. intros i Hi%in_table_nat. pose proof (balance_le_total sp i Ht Hi).
  by rewrite (proj2 (Z.leb_gt _ _)) by lia.
Qed.

Lemma count_categories_ok sp :
  table sp -> total sp < 2 ^ 48 -> forall c, 0 <= c < 48 ->
  (count_categories k sp).[c] = countZ (fun i => in_category c (balance (sp.[i]))) capn.
Proof.
  intros Ht Hs. pose proof cap_bounds as Hc. unfold count_categories.
  match goal with |- context [for_loop capn 0 ?b ?init] =>
    pose proof (for_loop_ind (fun i pops => alen pops = 48 /\ forall c, 0 <= c < 48 ->
      pops.[c] = countZ (fun j => in_category c (balance (sp.[j]))) (Z.to_nat i)) b capn 0 init) as Hf end.
  rewrite Z2Nat.id in Hf by lia. cbn beta in Hf. apply Hf; clear Hf.
  { split; [done|]. intros c Hc'. by rewrite aget_replicate by (unfold entityCategoryCount; lia). }
  intros i pops Hi [Hl Hp]. assert (in_table k i) as Hi' by by unfold in_table.
  pose proof (sp_bal _ Ht i Hi') as Hb. rewrite (u64_balance _ Hb). pose proof (balance_le_total sp i Ht Hi') as Hbt.
  set (b := balance (sp.[i])) in *. destruct (Z.eqb_spec b 0) as [Hb0|Hb0].
  - split; [done|]. intros c Hcc. rewrite countZ_S by lia. fold b. rewrite Hp, Hb0 by done. simpl. lia.
  - split; [by rewrite alen_aset|]. intros c Hcc. rewrite countZ_S by lia. fold b.
    assert (63 - lzcnt64 b = Z.log2 b) as ->.
    { unfold lzcnt64. rewrite (proj2 (Z.eqb_neq _ _) Hb0). lia. }
    assert (0 <= Z.log2 b < 48) as Hlog by (split; [apply Z.log2_nonneg|apply Z.log2_lt_pow2; lia]).
    pose proof (countZ_range (fun j => in_category c (balance (sp.[j]))) (Z.to_nat i)).
    rewrite aget_aset. unfold in_category at 2. rewrite (proj2 (Z.eqb_neq _ _) Hb0). cbn [negb andb].
    destruct (Z.eqb_spec (Z.log2 b) c) as [He|He].
    + rewrite decide_True by lia. rewrite Hp by lia. rewrite He. simpl. apply u32_small. unfold is_u32. lia.
    + rewrite decide_False by lia. rewrite Hp by done. simpl. lia.
Qed.

(** The category found by the walk from the top, if half of the table is full of balances. *)
Lemma find_thresholds_ok sp pops n :
  table sp -> (n <= 48)%nat -> above sp (Z.of_nat n) < cap / 2 ->
  (forall c, 0 <= c < Z.of_nat n -> pops.[c] = countZ (fun i => in_category c (balance (sp.[i]))) capn) ->
  (find_thresholds k pops n (above sp (Z.of_nat n)) = (0, 0) /\ above sp 0 < cap / 2) \/
  exists c, 0 <= c < Z.of_nat n /\ above sp (c + 1) < cap / 2 /\
    ((find_thresholds k pops n (above sp (Z.of_nat n)) = (2 ^ c - 1, 2 ^ (c + 1) - 1) /\ above sp (c + 1) = 0) \/
     find_thresholds k pops n (above sp (Z.of_nat n)) = (2 ^ (c + 1) - 1, 0)).
Proof.
  intros Ht. pose proof cap_bounds as Hc. induction n as [|n IH]; intros Hn Hab Hp.
  { left. done. }
  cbn [find_thresholds]. rewrite Hp by lia.
  replace (Z.of_nat (S n)) with (Z.of_nat n + 1) in * by lia.
  pose proof (above_split sp (Z.of_nat n) Ht ltac:(lia)) as Hs.
  pose proof (countZ_range (fun i => 2 ^ Z.of_nat n <=? balance (sp.[i])) capn) as Hr.
  fold (above sp (Z.of_nat n)) in Hr.
  rewrite <- Hs, u32_small by (unfold is_u32; lia).
  assert (forall c, 0 <= c <= 48 -> u64 (u64 (Z.shiftl 1 c) - 1) = 2 ^ c - 1) as Hsh.
  { intros c Hcc. rewrite Z.shiftl_1_l. assert (0 < 2 ^ c) by (apply Z.pow_pos_nonneg; lia).
    assert (2 ^ c <= 2 ^ 48) by (apply Z.pow_le_mono_r; lia).
    rewrite (u64_small (2 ^ c)) by (unfold is_u64; lia). apply u64_small. unfold is_u64. lia. }
  rewrite !Hsh by lia. destruct (Z.leb_spec (cap / 2) (above sp (Z.of_nat n))) as [Hle|Hlt].
  - right. exists (Z.of_nat n). split; [lia|]. split; [done|].
    destruct (Z.eqb_spec (countZ (fun i => in_category (Z.of_nat n) (balance (sp.[i]))) capn) (above sp (Z.of_nat n))).
    + left. split; [done|lia].
    + by right.
  - destruct IH as [?|(c & Hc' & ? & ?)]; [lia|done|intros; apply Hp; lia|by left|].
    right. exists c. split; [lia|done].
Qed.

(** ** Burning *)

(** [sp'] is [sp] with the records selected by [P] burnt. *)
Definition burnt sp (P : Z -> bool) sp' : Prop :=
  alen sp' = alen sp /\ forall i, in_table k i -> sp'.[i] = if P i then burn_record (sp.[i]) else sp.[i].

Lemma burnt_table sp P sp' : table sp -> burnt sp P sp' -> table sp'.
Proof.
  intros Ht [Hl Hb].
  assert (forall i, in_table k i -> publicKey (sp'.[i]) = publicKey (sp.[i])) as Hp.
  { intros i Hi. rewrite Hb by done. by destruct (P i). }
  split.
  - rewrite Hl. apply Ht.
  - intros i Hi Hz. rewrite Hp in Hz by done. rewrite Hb, (sp_zero _ Ht i Hi Hz) by done. by destruct (P i).
  - eapply table_ok_ext; [|apply sp_tab, Ht]. intros i Hi. unfold tab. by rewrite Hp.
  - intros i Hi. rewrite Hb by done. destruct (P i); [by rewrite balance_burn|]. by apply sp_bal.
Qed.

Lemma burnt_live sp P sp' :
  burnt sp P sp' -> live sp' = countZ (fun i => negb (balance (sp.[i]) =? 0) && negb (P i)) capn.
Proof.
  intros [_ Hb]. apply countZ_ext. intros i Hi%in_table_nat. rewrite Hb by done. destruct (P i).
  - by rewrite balance_burn, andb_false_r.
  - by rewrite andb_true_r.
Qed.

Lemma burnt_ledger sp P sp' i :
  table sp -> burnt sp P sp' -> in_table k i -> publicKey (sp.[i]) <> 0 ->
  ledger sp' (publicKey (sp.[i])) = if P i then 0 else balance (sp.[i]).
Proof.
  intros Ht Hbt Hi Hz. destruct Hbt as [Hl Hb] eqn:E. clear E.
  assert (publicKey (sp'.[i]) = publicKey (sp.[i])) as Hp by (rewrite Hb by done; by destruct (P i)).
  rewrite <- Hp, ledger_at; [|by eapply burnt_table|done|by rewrite Hp].
  rewrite Hb by done. destruct (P i); [apply balance_burn|done].
Qed.

Lemma burnt_compose sp P sp1 Q sp2 :
  burnt sp P sp1 -> burnt sp1 Q sp2 -> burnt sp (fun i => P i || Q i) sp2.
Proof.
  intros [Hl1 H1] [Hl2 H2]. split; [congruence|]. intros i Hi. rewrite H2, H1 by done.
  by destruct (P i), (Q i).
Qed.

Section burn_loops.
Variables (L g : bool) (thr : Z).

Lemma burn_all_ok sp dbl :
  table sp -> burnt sp (fun i => is_dust thr (sp.[i])) (burn_all k L g thr (sp, dbl)).1.
Proof.
  intros Ht. pose proof cap_bounds as Hc. pose proof (sp_len _ Ht) as Hl. unfold burn_all.
  match goal with |- context [for_loop capn 0 ?b ?init] =>
    pose proof (for_loop_ind (fun i st => alen st.1 = alen sp /\
      forall j, in_table k j -> st.1.[j] = if (j <? i) && is_dust thr (sp.[j]) then burn_record (sp.[j]) else sp.[j])
      b capn 0 init) as Hf end.
  rewrite Z2Nat.id in Hf by lia. destruct Hf as [Hl' Hf].
  - split; [done|]. intros j Hj. unfold in_table in Hj. by rewrite (proj2 (Z.ltb_ge _ _)) by lia.
  - intros i [sp' d] Hi [Hl' Hf]. cbn [fst] in *. assert (in_table k i) as Hi' by by unfold in_table.
    rewrite (Hf i Hi'), Z.ltb_irrefl. cbn [andb].
    destruct (is_dust thr (sp.[i])) eqn:Hd; cbn [fst burn_at].
    + split; [by rewrite alen_aset|]. intros j Hj. rewrite (read_write sp' i) by (done || lia).
      destruct (decide (j = i)) as [->|Hne].
      * rewrite (Hf i Hi'), Z.ltb_irrefl, (proj2 (Z.ltb_lt i (i + 1))), Hd by lia. done.
      * rewrite Hf by done. replace (j <? i + 1) with (j <? i); [done|]. apply eq_true_iff_eq. rewrite !Z.ltb_lt. lia.
    + split; [done|]. intros j Hj. rewrite Hf by done. destruct (decide (j = i)) as [->|Hne].
      * by rewrite Hd, !andb_false_r.
      * replace (j <? i + 1) with (j <? i); [done|]. apply eq_true_iff_eq. rewrite !Z.ltb_lt. lia.
  - split; [done|]. intros i Hi. rewrite (Hf i Hi), (proj2 (Z.ltb_lt _ _)); [done|]. unfold in_table in Hi. lia.
Qed.

(** Among the candidates, the first, third, fifth, ... are burnt. *)
Definition burn_half_sel sp (i : Z) : bool :=
  is_dust thr (sp.[i]) && Z.odd (countZ (fun j => is_dust thr (sp.[j])) (Z.to_nat (i + 1))).

Lemma land_1_odd x : 0 <= x -> (Z.land x 1 =? 0) = negb (Z.odd x).
Proof. intros Hx. change 1 with (2 ^ 1 - 1). rewrite land_mask, Zmod_odd by lia. by destruct (Z.odd x). Qed.

Lemma burn_half_ok sp dbl :
  table sp -> burnt sp (burn_half_sel sp) (burn_half k L g thr (sp, dbl)).1.
Proof.
  intros Ht. pose proof cap_bounds as Hc. pose proof (sp_len _ Ht) as Hl. unfold burn_half.
  match goal with |- context [for_loop capn 0 ?b ?init] =>
    pose proof (for_loop_ind (fun i st => alen st.1.1 = alen sp /\
      st.2 = countZ (fun j => is_dust thr (sp.[j])) (Z.to_nat i) /\
      forall j, in_table k j -> st.1.1.[j] = if (j <? i) && burn_half_sel sp j then burn_record (sp.[j]) else sp.[j])
      b capn 0 init) as Hf end.
  rewrite Z2Nat.id in Hf by lia. destruct Hf as (Hl' & _ & Hf).
  - split; [done|]. split; [done|]. intros j Hj. unfold in_table in Hj. by rewrite (proj2 (Z.ltb_ge _ _)) by lia.
  - intros i [[sp' d] n] Hi (Hl' & Hn & Hf). cbn [fst snd] in *. assert (in_table k i) as Hi' by by unfold in_table.
    rewrite (Hf i Hi'), Z.ltb_irrefl. cbn [andb].
    assert (forall j, j <> i -> (j <? i + 1) = (j <? i)) as Hlt.
    { intros j Hj. apply eq_true_iff_eq. rewrite !Z.ltb_lt. lia. }
    pose proof (countZ_S (fun j => is_dust thr (sp.[j])) i ltac:(lia)) as HS.
    pose proof (countZ_range (fun j => is_dust thr (sp.[j])) (Z.to_nat i)) as Hr.
    destruct (is_dust thr (sp.[i])) eqn:Hd.
    + cbn beta in HS. rewrite Hd in HS. cbn [Z.b2z] in HS. rewrite u32_small by (unfold is_u32; lia). rewrite land_1_odd by lia.
      rewrite Hn, <- HS. cbn [snd].
      assert (burn_half_sel sp i = Z.odd (countZ (fun j => is_dust thr (sp.[j])) (Z.to_nat (i + 1)))) as Hsel.
      { unfold burn_half_sel. by rewrite Hd. }
      rewrite <- Hsel. destruct (burn_half_sel sp i) eqn:Hs; cbn [negb fst burn_at].
      * split; [by rewrite alen_aset|]. split; [done|]. intros j Hj. rewrite (read_write sp' i) by (done || lia).
        destruct (decide (j = i)) as [->|Hne].
        -- rewrite (Hf i Hi'), Z.ltb_irrefl, (proj2 (Z.ltb_lt i (i + 1))), Hs by lia. done.
        -- rewrite Hf, Hlt by done. done.
      * split; [done|]. split; [done|]. intros j Hj. rewrite Hf by done. destruct (decide (j = i)) as [->|Hne].
        -- by rewrite Hs, !andb_false_r.
        -- by rewrite Hlt.
    + cbn beta in HS. rewrite Hd in HS. cbn [Z.b2z] in HS. cbn [fst snd]. split; [done|]. split; [lia|]. intros j Hj. rewrite Hf by done.
      destruct (decide (j = i)) as [->|Hne].
      * unfold burn_half_sel. by rewrite Hd, !andb_false_r.
      * by rewrite Hlt.
  - split; [done|]. intros i Hi. rewrite (Hf i Hi), (proj2 (Z.ltb_lt _ _)); [done|]. unfold in_table in Hi. lia.
Qed.

(** Half of the candidates stay. *)
Lemma burn_half_count sp n :
  countZ (fun i => is_dust thr (sp.[i]) && negb (burn_half_sel sp i)) n =
  countZ (fun i => is_dust thr (sp.[i])) n / 2.
Proof.
  induction n as [|n IH]; [done|]. unfold countZ in *. cbn [sumZ]. rewrite IH. unfold burn_half_sel, countZ.
  replace (Z.to_nat (Z.of_nat n + 1)) with (S n) by lia. cbn [sumZ].
  set (c := sumZ (fun i => Z.b2z (is_dust thr (sp.[i]))) n). destruct (is_dust thr (sp.[Z.of_nat n])); cbn [andb Z.b2z].
  - pose proof (Zmod_odd (c + 1)) as Hm. destruct (Z.odd (c + 1)); cbn [negb Z.b2z]; Z.div_mod_to_equations; lia.
  - by rewrite !Z.add_0_r.
Qed.
End burn_loops.

(** ** The anti-dust block *)
Lemma countZ_none (P : Z -> bool) n : countZ P n = 0 -> forall i, 0 <= i < Z.of_nat n -> P i = false.
Proof.
  intros H0 i Hi. pose proof (sumZ_elem_le (fun i => Z.b2z (P i)) n i) as Hle. cbn beta in Hle. unfold countZ in H0.
  assert (Z.b2z (P i) <= 0) as H1.
  { rewrite <- H0. apply Hle; [|done]. intros j _. apply b2z_range. }
  by destruct (P i).
Qed.

Lemma is_dust_zero sp i : table sp -> in_table k i -> is_dust 0 (sp.[i]) = false.
Proof. intros Ht Hi. rewrite is_dust_spec by (by apply sp_bal). apply bool_decide_false. lia. Qed.

(** The two burning loops with the guards of increaseEnergy. *)
Lemma burn_loops_ok L g sp dbl all half :
  table sp -> 0 <= all -> 0 <= half ->
  let st1 := if 0 <? all then burn_all k L g all (sp, dbl) else (sp, dbl) in
  let st2 := if 0 <? half then burn_half k L g half st1 else st1 in
  burnt sp (fun i => is_dust all (sp.[i])) st1.1 /\ burnt st1.1 (burn_half_sel half st1.1) st2.1.
Proof.
  intros Ht Ha Hh st1 st2. assert (burnt sp (fun i => is_dust all (sp.[i])) st1.1) as H1.
  { subst st1. destruct (Z.ltb_spec 0 all); [by apply burn_all_ok|]. replace all with 0 by lia.
    split; [done|]. intros i Hi. by rewrite is_dust_zero. }
  split; [done|]. subst st2. pose proof (burnt_table _ _ _ Ht H1) as Ht1. destruct (Z.ltb_spec 0 half).
  - destruct st1 as [sp1 d1]. by apply burn_half_ok.
  - replace half with 0 by lia. split; [done|]. intros i Hi. unfold burn_half_sel. by rewrite is_dust_zero.
Qed.

Definition dust_thresholds sp : Z * Z := find_thresholds k (count_categories k sp) entityCategoryCount 0.

Lemma dust_thresholds_cases sp :
  table sp -> total sp < 2 ^ 48 ->
  (dust_thresholds sp = (0, 0) /\ above sp 0 < cap / 2) \/
  exists c, 0 <= c < 48 /\ above sp (c + 1) < cap / 2 /\
    ((dust_thresholds sp = (2 ^ c - 1, 2 ^ (c + 1) - 1) /\ above sp (c + 1) = 0) \/
     dust_thresholds sp = (2 ^ (c + 1) - 1, 0)).
Proof.
  intros Ht Hs. pose proof (above_top sp 48 Ht Hs) as H0. pose proof cap_quarters.
  pose proof (find_thresholds_ok sp (count_categories k sp) entityCategoryCount Ht) as Hf.
  unfold dust_thresholds. change (Z.of_nat entityCategoryCount) with 48 in *. rewrite H0 in Hf. apply Hf; [done|lia|].
  by apply count_categories_ok.
Qed.

Lemma dust_thresholds_range sp :
  table sp -> total sp < 2 ^ 48 -> 0 <= (dust_thresholds sp).1 /\ 0 <= (dust_thresholds sp).2.
Proof.
  intros Ht Hs. destruct (dust_thresholds_cases sp Ht Hs) as [[-> _]|(c & Hc & _ & [[-> _]| ->])]; simpl; [lia|..];
  assert (0 < 2 ^ c) by (apply Z.pow_pos_nonneg; lia); assert (0 < 2 ^ (c + 1)) by (apply Z.pow_pos_nonneg; lia); lia.
Qed.

(** After both loops at most half of the slots hold a balance. *)
Lemma burnt_room sp sp1 sp2 :
  let '(all, half) := dust_thresholds sp in
  table sp -> total sp < 2 ^ 48 ->
  burnt sp (fun i => is_dust all (sp.[i])) sp1 -> burnt sp1 (burn_half_sel half sp1) sp2 ->
  live sp2 <= cap / 2.
Proof.
  destruct (dust_thresholds sp) as [all half] eqn:Hd. intros Ht Hs H1 H2.
  pose proof (burnt_table _ _ _ Ht H1) as Ht1.
  assert (live sp2 <= live sp1) as Hle.
  { rewrite (burnt_live _ _ _ H2). unfold live, countZ. apply sumZ_le. intros i _. by destruct (negb _), (negb _). }
  pose proof (burnt_live _ _ _ H1) as HL1.
  assert (forall i, in_table k i -> is_dust all (sp.[i]) = bool_decide (0 < balance (sp.[i]) <= all)) as Hdust.
  { intros i Hi. apply is_dust_spec. by apply sp_bal. }
  destruct (dust_thresholds_cases sp Ht Hs) as [[He Hab]|(c & Hc & Hab & [[He H0]|He])];
    rewrite Hd in He; injection He as -> ->.
  - assert (live sp1 <= above sp 0); [|lia]. rewrite HL1, above_zero by done. unfold live, countZ. apply sumZ_le.
    intros i _. by destruct (negb _), (negb _).
  - rewrite (burnt_live _ _ _ H2).
    rewrite (countZ_ext _ (fun i => is_dust (2 ^ (c + 1) - 1) (sp1.[i]) && negb (burn_half_sel (2 ^ (c + 1) - 1) sp1 i))).
    + rewrite burn_half_count. pose proof (countZ_range (fun i => is_dust (2 ^ (c + 1) - 1) (sp1.[i])) capn).
      pose proof cap_bounds. apply Z.div_le_mono; lia.
    + intros i Hi. pose proof (countZ_none _ _ H0 i Hi) as Hb. apply Z.leb_gt in Hb. apply in_table_nat in Hi.
      f_equal. pose proof (sp_bal _ Ht1 i Hi) as Hb1. rewrite is_dust_spec by done.
      assert (balance (sp1.[i]) < 2 ^ (c + 1)) as Hlt.
      { destruct H1 as [_ H1]. rewrite H1 by done. destruct (is_dust _ _); [rewrite balance_burn; apply Z.pow_pos_nonneg; lia|done]. }
      destruct (Z.eqb_spec (balance (sp1.[i])) 0); case_bool_decide; try done; lia.
  - assert (live sp1 <= above sp (c + 1)); [|lia]. rewrite HL1. unfold above, countZ. apply sumZ_le. intros i Hi%in_table_nat.
    rewrite Hdust by done. pose proof (sp_bal _ Ht i Hi).
    destruct (Z.eqb_spec (balance (sp.[i])) 0), (Z.leb_spec (2 ^ (c + 1)) (balance (sp.[i]))); case_bool_decide; simpl; lia.
Qed.

(** What burning does to the ledger. *)
Definition dust_effect sp sp' : Prop :=
  let '(all, half) := dust_thresholds sp in
  forall x, x <> 0 ->
    (ledger sp x <= all -> ledger sp' x = 0) /\
    (Z.max all half < ledger sp x -> ledger sp' x = ledger sp x) /\
    (ledger sp' x = ledger sp x \/ ledger sp' x = 0).

Lemma burnt_effect sp sp1 sp2 :
  let '(all, half) := dust_thresholds sp in
  table sp -> burnt sp (fun i => is_dust all (sp.[i])) sp1 -> burnt sp1 (burn_half_sel half sp1) sp2 ->
  dust_effect sp sp2.
Proof.
  unfold dust_effect. destruct (dust_thresholds sp) as [all half]. intros Ht H1 H2 x Hx.
  pose proof (burnt_table _ _ _ Ht H1) as Ht1. pose proof (burnt_compose _ _ _ _ _ H1 H2) as H12.
  destruct (ledger_lookup sp x Ht Hx) as [(i & Hi & <- & ->)|[Ha ->]].
  - rewrite (burnt_ledger sp _ sp2 i Ht H12 Hi Hx). rewrite is_dust_spec by (by apply sp_bal).
    pose proof (sp_bal _ Ht i Hi) as Hb. unfold burn_half_sel. rewrite is_dust_spec by (by apply sp_bal).
    destruct H1 as [_ H1]. rewrite (H1 i Hi), is_dust_spec by done.
    destruct (decide (0 < balance (sp.[i]) <= all)) as [Hd|Hd].
    + rewrite (bool_decide_true (0 < balance (sp.[i]) <= all)) by done. cbn [orb]. split; [done|]. split; [lia|by right].
    + rewrite (bool_decide_false (0 < balance (sp.[i]) <= all)) by done. cbn [orb].
      split; [|split].
      * intros. destruct (_ && _); lia.
      * intros. by rewrite bool_decide_false by lia.
      * destruct (_ && _); (by left) || (by right).
  - assert (ledger sp2 x = 0) as ->.
    { apply ledger_absent. intros i Hi. destruct H12 as [_ H12]. rewrite H12 by done.
      specialize (Ha i Hi). by destruct (_ || _). }
    by split; [|split; [|left]].
Qed.
End Table.

(** ** The state *)
Section State.
Variable k : nat.
Hypothesis Hk : (2 <= k <= 31)%nat.
Variable LOG_SPECTRUM : bool.
Context {D : Type} `{!Inhabited D}.
Variable hashEntity : EntityRecord -> D.
Variable hashNode : D -> D -> D.
Abbreviation cap := (2 ^ Z.of_nat k).
Abbreviation capn := (Z.to_nat cap).
Abbreviation State := (@SpectrumState D).
Implicit Types (sp : list EntityRecord) (s : State).

(** The table is well formed, at most three quarters full, and SpectrumInfo agrees with it;
    the supply is below [2^48], which updateAndAnalzeEntityCategoryPopulations asserts. *)
Record core_ok sp (n t : Z) : Prop := {
  co_table : table k sp;
  co_entities : n = entities k sp;
  co_room : n <= cap / 2 + cap / 4;
  co_total : t = total k sp;
  co_supply : t < 2 ^ Z.of_nat entityCategoryCount
}.

Definition spectrum_ok s : Prop := core_ok (spectrum s) (numberOfEntities s) (totalAmount s).

Lemma spectrumMarkDirty_core i s :
  spectrum (spectrumMarkDirty i s) = spectrum s /\ numberOfEntities (spectrumMarkDirty i s) = numberOfEntities s /\
  totalAmount (spectrumMarkDirty i s) = totalAmount s.
Proof. unfold spectrumMarkDirty. by destruct (_ <? _). Qed.

Lemma update_log_core s :
  let s' := logSpectrumStats (updateAndAnalzeEntityCategoryPopulations k s) in
  spectrum s' = spectrum s /\ numberOfEntities s' = numberOfEntities s /\ totalAmount s' = totalAmount s.
Proof. unfold updateAndAnalzeEntityCategoryPopulations. by destruct (find_thresholds _ _ _ _). Qed.

Lemma update_log_if (c : bool) s :
  let s' := if c then logSpectrumStats (updateAndAnalzeEntityCategoryPopulations k s) else s in
  spectrum s' = spectrum s /\ numberOfEntities s' = numberOfEntities s /\ totalAmount s' = totalAmount s.
Proof. destruct c; [apply update_log_core|done]. Qed.

(** *** reorganizeSpectrum *)
Lemma reorganize_ok s :
  table k (spectrum s) -> live k (spectrum s) < cap -> total k (spectrum s) < 2 ^ 48 ->
  exists s', reorganizeSpectrum k hashEntity hashNode s = Some s' /\ table k (spectrum s') /\
    numberOfEntities s' = live k (spectrum s) /\ entities k (spectrum s') = live k (spectrum s) /\
    live k (spectrum s') = live k (spectrum s) /\
    totalAmount s' = total k (spectrum s) /\ total k (spectrum s') = total k (spectrum s) /\
    (forall x, x <> 0 -> ledger k (spectrum s') x = ledger k (spectrum s) x).
Proof.
  intros Ht Hl Hs. destruct (reorg_table_ok k Hk (spectrum s) Ht Hl) as (T & HT & Htab & Hn & HlT & Htot & Hled).
  unfold reorganizeSpectrum. change (spectrum (with_dirty _ _ _ s)) with (spectrum s). rewrite HT.
  eexists. split; [done|]. rewrite updateSpectrumInfo_ok; [|done|done|].
  - cbn [spectrum numberOfEntities totalAmount with_info with_digests with_spectrum with_dirty].
    by repeat (split; [done|]).
  - cbn [spectrum with_digests with_spectrum]. lia.
Qed.

Lemma burnt_total sp P sp' : table k sp -> burnt k sp P sp' -> total k sp' <= total k sp.
Proof.
  intros Ht [_ Hb]. apply sumZ_le. intros i Hi%in_table_nat; [|done]. rewrite Hb by done.
  destruct (P i); [rewrite balance_burn; by apply (sp_bal k)|done].
Qed.

Lemma antiDust_ok g s :
  table k (spectrum s) -> entities k (spectrum s) < cap -> total k (spectrum s) < 2 ^ 48 ->
  exists s', antiDust k LOG_SPECTRUM hashEntity hashNode g s = Some s' /\ spectrum_ok s' /\
    numberOfEntities s' <= cap / 2 /\ totalAmount s' <= total k (spectrum s) /\
    dust_effect k (spectrum s) (spectrum s').
Proof.
  intros Ht Hn Hs. pose proof (dust_thresholds_range k Hk (spectrum s) Ht Hs) as [Ha Hh].
  pose proof (burnt_room k Hk (spectrum s)) as Hroom. pose proof (burnt_effect k Hk (spectrum s)) as Heff.
  destruct (dust_thresholds k (spectrum s)) as [all half] eqn:Hd. cbn [fst snd] in *.
  set (logging := LOG_SPECTRUM && g).
  set (s1 := with_categories (count_categories k (spectrum s)) all half s).
  assert (updateAndAnalzeEntityCategoryPopulations k s = s1) as Hs1.
  { unfold updateAndAnalzeEntityCategoryPopulations, dust_thresholds in *. by rewrite Hd. }
  unfold antiDust. fold logging. rewrite Hs1.
  set (s2 := if logging then logSpectrumStats s1 else s1).
  assert (spectrum s2 = spectrum s /\ dustThresholdBurnAll s2 = all /\ dustThresholdBurnHalf s2 = half) as (-> & -> & ->)
    by (subst s2; by destruct logging).
  cbv zeta. pose proof (burn_loops_ok k Hk LOG_SPECTRUM g (spectrum s) ([], spectrumLog s2) all half Ht Ha Hh) as [Hb1 Hb2].
  set (st1 := if 0 <? all then _ else _) in *. set (st2 := if 0 <? half then _ else _) in *.
  specialize (Hroom _ _ Ht Hs Hb1 Hb2). specialize (Heff _ _ Ht Hb1 Hb2).
  pose proof (burnt_table k _ _ _ Ht Hb1) as Ht1. pose proof (burnt_table k _ _ _ Ht1 Hb2) as Ht2.
  pose proof (burnt_total _ _ _ Ht Hb1). pose proof (burnt_total _ _ _ Ht1 Hb2).
  pose proof (cap_quarters k Hk). pose proof (cap_bounds k Hk).
  set (s3 := with_log _ _). destruct (reorganize_ok s3) as (s4 & -> & Ht4 & Hn4 & He4 & _ & Hto4 & Hto4' & Hled4).
  { exact Ht2. } { change (spectrum s3) with st2.1. lia. } { change (spectrum s3) with st2.1. lia. }
  change (spectrum s3) with st2.1 in *.
  destruct (update_log_if logging s4) as (E1 & E2 & E3). set (s5 := if logging then _ else s4) in *.
  exists s5. split; [done|]. unfold spectrum_ok. rewrite E1, E2, E3. split; [|split; [lia|split; [lia|]]].
  - split; [done|congruence|lia|congruence|]. change (Z.of_nat entityCategoryCount) with 48. lia.
  - unfold dust_effect in *. rewrite Hd in *. intros x Hx. rewrite Hled4 by done. by apply Heff.
Qed.

(** *** Searching *)
Lemma core_room sp n t : core_ok sp n t -> entities k sp < cap.
Proof. intros [? ? ? ? ?]. pose proof (cap_quarters k Hk). lia. Qed.

Lemma spectrumIndex_ok s x :
  spectrum_ok s -> x <> 0 ->
  (exists i, spectrumIndex k x s = Some i /\ in_table k i /\ publicKey ((spectrum s).[i]) = x /\
     energy i s = ledger k (spectrum s) x) \/
  (spectrumIndex k x s = Some (-1) /\ (forall i, in_table k i -> publicKey ((spectrum s).[i]) <> x) /\
     ledger k (spectrum s) x = 0).
Proof.
  intros Hok Hx. pose proof (co_table _ _ _ Hok) as Ht. pose proof (core_room _ _ _ Hok) as Hn.
  destruct (walk k Hk (spectrum s) x Ht Hx Hn) as (j & Hj & Hb & Hend). pose proof (cap_bounds k Hk).
  unfold spectrumIndex, isZero. rewrite (proj2 (Z.eqb_neq _ _) Hx).
  assert (forall r, (if publicKey (spectrum s).[nth_slot k (home k x) j] =? x then Some (nth_slot k (home k x) j)
    else if publicKey (spectrum s).[nth_slot k (home k x) j] =? 0 then Some (-1) else None) = Some r ->
    probe (cap - 1) (fun index => if publicKey ((spectrum s).[index]) =? x then Some index
      else if publicKey ((spectrum s).[index]) =? 0 then Some (-1) else None) capn (home k x) = Some r) as Hp.
  { intros r Hr. apply probe_intro with (j := j); [apply home_in|lia|exact Hr|]. intros j' Hj'.
    destruct (Hb j' Hj') as [H0 H1]. by rewrite (proj2 (Z.eqb_neq _ _) H0), (proj2 (Z.eqb_neq _ _) H1). }
  destruct Hend as [He|[H0 Ha]].
  - left. exists (nth_slot k (home k x) j). split; [apply Hp; by rewrite He, Z.eqb_refl|].
    split; [apply nth_slot_in|]. split; [done|]. unfold energy. rewrite <- He at 2. symmetry.
    apply ledger_at; [done|done|apply nth_slot_in|congruence].
  - right. split; [|split; [done|by apply ledger_absent]]. apply Hp. rewrite H0, Z.eqb_refl.
    by rewrite (proj2 (Z.eqb_neq _ _)) by congruence.
Qed.

(** *** Credits and debits *)
Lemma balance_credit a tick e :
  0 <= balance e -> 0 <= a -> balance e + a < 2 ^ 63 -> balance (credit a tick e) = balance e + a.
Proof.
  intros Hb Ha Hs. unfold balance in *. cbn [incomingAmount outgoingAmount credit].
  unfold Z.sub at 1. rewrite s64_add_l.
  replace (incomingAmount e + a + - outgoingAmount e) with (incomingAmount e - outgoingAmount e + a) by lia.
  rewrite <- s64_add_l. apply s64_small. unfold is_s64. lia.
Qed.

Lemma balance_debit a tick e :
  0 <= a <= balance e -> balance (debit a tick e) = balance e - a.
Proof.
  intros Ha. pose proof (s64_range (incomingAmount e - outgoingAmount e)) as Hr. unfold balance in *.
  cbn [incomingAmount outgoingAmount debit]. rewrite s64_sub_r.
  replace (incomingAmount e - (outgoingAmount e + a)) with (incomingAmount e - outgoingAmount e + - a) by lia.
  rewrite <- s64_add_l. apply s64_small. unfold is_s64 in *. lia.
Qed.

Lemma credit_core sp n t i a tick :
  core_ok sp n t -> in_table k i -> publicKey (sp.[i]) <> 0 -> 0 <= a -> t + a < 2 ^ 48 ->
  let sp' := sp.[i := credit a tick (sp.[i])] in
  core_ok sp' n (u64 (t + a)) /\
  forall y, y <> 0 -> ledger k sp' y = ledger k sp y + (if decide (y = publicKey (sp.[i])) then a else 0).
Proof.
  intros [Ht Hn Hr Htot Hs] Hi Hz Ha Hlim sp'. pose proof (sp_len _ _ Ht) as Hl. pose proof (sp_bal _ _ Ht i Hi) as Hb.
  pose proof (balance_le_total k Hk sp i Ht Hi). change (Z.of_nat entityCategoryCount) with 48 in *.
  pose proof (balance_credit a tick (sp.[i]) Hb Ha ltac:(lia)) as Hbc.
  assert (0 <= t) by lia. rewrite u64_small by (unfold is_u64; lia). split.
  - split.
    + apply table_update; try done. lia.
    + unfold sp'. rewrite entities_aset by done. cbn [publicKey credit]. lia.
    + done.
    + unfold sp'. rewrite total_aset, Hbc by done. lia.
    + change (Z.of_nat entityCategoryCount) with 48. lia.
  - intros y Hy. unfold sp'. rewrite ledger_aset, Hbc by done. cbn [publicKey credit].
    destruct (Z.eqb_spec (publicKey (sp.[i])) y); case_decide; try congruence; lia.
Qed.

Lemma open_core sp n t j x a tick :
  let i := nth_slot k (home k x) j in
  core_ok sp n t -> 0 <= j < cap -> n + 1 <= cap / 2 + cap / 4 -> x <> 0 -> 0 <= a -> t + a < 2 ^ 48 ->
  (forall i, in_table k i -> publicKey (sp.[i]) <> x) ->
  (forall j', 0 <= j' < j -> publicKey (sp.[nth_slot k (home k x) j']) <> 0) -> publicKey (sp.[i]) = 0 ->
  let sp' := sp.[i := open_entity x a tick (sp.[i])] in
  core_ok sp' (u32 (n + 1)) (u64 (t + a)) /\
  forall y, y <> 0 -> ledger k sp' y = ledger k sp y + (if decide (y = x) then a else 0).
Proof.
  intros i [Ht Hn Hr Htot Hs] Hj Hroom Hx Ha Hlim Habs Hbef H0 sp'.
  pose proof (sp_len _ _ Ht) as Hl. assert (in_table k i) as Hi by apply nth_slot_in.
  pose proof (sp_zero _ _ Ht i Hi H0) as Hze. change (Z.of_nat entityCategoryCount) with 48 in *.
  assert (balance (open_entity x a tick (sp.[i])) = a) as Hb.
  { rewrite Hze. unfold balance. cbn [incomingAmount outgoingAmount open_entity zeroEntity].
    rewrite Z.sub_0_r. apply s64_small. unfold is_s64.
    pose proof (sumZ_nonneg (fun i => balance (sp.[i])) capn) as Hnn. fold (total k sp) in Hnn.
    assert (0 <= total k sp) by (apply Hnn; intros; apply (sp_bal _ _ Ht), in_table_nat; done). lia. }
  assert (0 <= t).
  { subst t. apply sumZ_nonneg. intros. apply (sp_bal _ _ Ht), in_table_nat; done. }
  pose proof (countZ_range (fun i => negb (isZero (publicKey (sp.[i])))) capn) as Hcr. fold (entities k sp) in Hcr.
  pose proof (cap_quarters k Hk). pose proof (cap_bounds k Hk).
  rewrite u64_small by (unfold is_u64; lia). rewrite u32_small by (unfold is_u32; lia).
  assert (balance (sp.[i]) = 0) as Hb0 by by rewrite Hze. split.
  - split.
    + apply (table_insert k Hk sp j (open_entity x a tick (sp.[i]))); try done. lia.
    + unfold sp'. rewrite entities_aset by done. cbn [publicKey open_entity]. unfold isZero.
      rewrite H0, (proj2 (Z.eqb_neq _ _) Hx). cbn. lia.
    + done.
    + unfold sp'. rewrite total_aset, Hb, Hb0 by done. lia.
    + change (Z.of_nat entityCategoryCount) with 48. lia.
  - intros y Hy. unfold sp'. rewrite ledger_aset, Hb by done. cbn [publicKey open_entity].
    rewrite H0. rewrite (proj2 (Z.eqb_neq 0 y)) by congruence.
    destruct (Z.eqb_spec x y); case_decide; try congruence; lia.
Qed.

Lemma debit_core sp n t i a tick :
  core_ok sp n t -> in_table k i -> publicKey (sp.[i]) <> 0 -> 0 <= a <= balance (sp.[i]) ->
  let sp' := sp.[i := debit a tick (sp.[i])] in
  core_ok sp' n (u64 (t - a)) /\
  forall y, y <> 0 -> ledger k sp' y = ledger k sp y - (if decide (y = publicKey (sp.[i])) then a else 0).
Proof.
  intros [Ht Hn Hr Htot Hs] Hi Hz Ha sp'. pose proof (sp_len _ _ Ht) as Hl.
  pose proof (balance_le_total k Hk sp i Ht Hi). change (Z.of_nat entityCategoryCount) with 48 in *.
  pose proof (balance_debit a tick (sp.[i]) Ha) as Hbc.
  rewrite u64_small by (unfold is_u64; lia). split.
  - split.
    + apply table_update; try done. lia.
    + unfold sp'. rewrite entities_aset by done. cbn [publicKey debit]. lia.
    + done.
    + unfold sp'. rewrite total_aset, Hbc by done. lia.
    + change (Z.of_nat entityCategoryCount) with 48. lia.
  - intros y Hy. unfold sp'. rewrite ledger_aset, Hbc by done. cbn [publicKey debit].
    destruct (Z.eqb_spec (publicKey (sp.[i])) y); case_decide; try congruence; lia.
Qed.

(** The record loop of increaseEnergy, on a table with a free slot to spare. *)
Lemma increase_loop_ok s x a tick g :
  spectrum_ok s -> numberOfEntities s + 1 <= cap / 2 + cap / 4 -> x <> 0 -> 0 <= a -> totalAmount s + a < 2 ^ 48 ->
  exists s', probe (cap - 1) (increaseEnergy_at k LOG_SPECTRUM x a tick g s) capn (home k x) = Some s' /\
    spectrum_ok s' /\ numberOfEntities s' <= numberOfEntities s + 1 /\ totalAmount s' = totalAmount s + a /\
    forall y, y <> 0 -> ledger k (spectrum s') y = ledger k (spectrum s) y + (if decide (y = x) then a else 0).
Proof.
  intros Hok Hroom Hx Ha Hlim. pose proof (co_table _ _ _ Hok) as Ht.
  assert (u64 (totalAmount s + a) = totalAmount s + a) as Hu.
  { apply u64_small. rewrite (co_total _ _ _ Hok) in *. unfold is_u64.
    assert (0 <= total k (spectrum s)); [|lia]. apply sumZ_nonneg. intros. apply (sp_bal _ _ Ht), in_table_nat; done. }
  destruct (walk k Hk (spectrum s) x Ht Hx (core_room _ _ _ Hok)) as (j & Hj & Hb & Hend). pose proof (cap_bounds k Hk).
  set (i := nth_slot k (home k x) j) in *. assert (in_table k i) as Hi by apply nth_slot_in.
  assert (forall s', increaseEnergy_at k LOG_SPECTRUM x a tick g s i = Some s' ->
    probe (cap - 1) (increaseEnergy_at k LOG_SPECTRUM x a tick g s) capn (home k x) = Some s') as Hp.
  { intros r Hr. apply probe_intro with (j := j); [apply home_in|lia|exact Hr|]. intros j' Hj'.
    destruct (Hb j' Hj') as [H0 H1]. unfold increaseEnergy_at, isZero.
    by rewrite (proj2 (Z.eqb_neq _ _) H0), (proj2 (Z.eqb_neq _ _) H1). }
  destruct Hend as [He|[H0 Habs]].
  - eexists. split; [apply Hp; unfold increaseEnergy_at; by rewrite He, Z.eqb_refl|].
    pose proof (spectrumMarkDirty_core i (with_spectrum ((spectrum s).[i := credit a tick ((spectrum s).[i])]) s))
      as (E1 & E2 & E3).
    destruct (credit_core _ _ _ i a tick Hok Hi ltac:(congruence) Ha Hlim) as [Hc Hl].
    unfold spectrum_ok. cbn [spectrum numberOfEntities totalAmount with_info]. rewrite E1, E2, E3.
    cbn [spectrum numberOfEntities totalAmount with_spectrum]. split; [done|]. split; [lia|]. split; [done|].
    intros y Hy. rewrite Hl by done. by rewrite He.
  - eexists. split.
    { apply Hp. unfold increaseEnergy_at. rewrite H0. rewrite (proj2 (Z.eqb_neq 0 x)) by congruence. done. }
    pose proof (spectrumMarkDirty_core i (with_spectrum ((spectrum s).[i := open_entity x a tick ((spectrum s).[i])]) s))
      as (E1 & E2 & E3).
    destruct (open_core _ _ _ j x a tick Hok Hj Hroom Hx Ha Hlim Habs) as [Hc Hl].
    { intros j' Hj'. by apply Hb. } { done. }
    match goal with |- context [if ?c then logSpectrumStats (updateAndAnalzeEntityCategoryPopulations k ?s0) else ?s0] =>
      destruct (update_log_if c s0) as (F1 & F2 & F3) end.
    unfold spectrum_ok. rewrite F1, F2, F3. cbn [spectrum numberOfEntities totalAmount with_info].
    rewrite E1, E2, E3. cbn [spectrum numberOfEntities totalAmount with_spectrum]. split; [done|]. split; [|by split].
    pose proof (countZ_range (fun i => negb (isZero (publicKey ((spectrum s).[i])))) capn) as Hcr.
    fold (entities k (spectrum s)) in Hcr. rewrite <- (co_entities _ _ _ Hok) in Hcr. apply Z.mod_le; lia.
Qed.

(** The anti-dust block runs when three quarters of the slots are taken, and makes room. *)
Lemma credit_start s g :
  spectrum_ok s ->
  exists s1,
    (if cap / 2 + cap / 4 <=? numberOfEntities s then antiDust k LOG_SPECTRUM hashEntity hashNode g s else Some s) =
    Some s1 /\
    spectrum_ok s1 /\ numberOfEntities s1 + 1 <= cap / 2 + cap / 4 /\ totalAmount s1 <= totalAmount s /\
    if decide (numberOfEntities s < cap / 2 + cap / 4) then s1 = s
    else numberOfEntities s1 <= cap / 2 /\ dust_effect k (spectrum s) (spectrum s1).
Proof.
  intros Hok. pose proof (cap_quarters k Hk). destruct (Z.leb_spec (cap / 2 + cap / 4) (numberOfEntities s)).
  - destruct (antiDust_ok g s (co_table _ _ _ Hok) (core_room _ _ _ Hok)) as (s1 & -> & Hok1 & Hn & Ht & Hd).
    { rewrite <- (co_total _ _ _ Hok). apply Hok. }
    rewrite <- (co_total _ _ _ Hok) in Ht. exists s1. rewrite decide_False by lia.
    repeat (split; [done || lia|]). done.
  - exists s. rewrite decide_True by lia. by repeat (split; [done || lia|]).
Qed.

(** C2: increaseEnergy always terminates and keeps the spectrum well formed.  Below three
    quarters of the capacity it adds the amount to the one entity and to the total; at three
    quarters it first burns dust, which empties at least half of the table, removes every
    balance up to the burn-all threshold, touches none above the thresholds, and then
    credits the entity in full.  Calls with a zero key or a negative amount do nothing. *)
Theorem increaseEnergy_credits s x a tick g :
  spectrum_ok s -> totalAmount s + a < 2 ^ Z.of_nat entityCategoryCount ->
  exists s', increaseEnergy k LOG_SPECTRUM hashEntity hashNode x a tick g s = Some s' /\ spectrum_ok s' /\
    if isZero x || (a <? 0) then s' = s
    else if decide (numberOfEntities s < cap / 2 + cap / 4) then
      totalAmount s' = totalAmount s + a /\
      forall y, y <> 0 -> ledger k (spectrum s') y = ledger k (spectrum s) y + (if decide (y = x) then a else 0)
    else exists sp1, dust_effect k (spectrum s) sp1 /\ numberOfEntities s' <= cap / 2 + 1 /\
      totalAmount s' <= totalAmount s + a /\
      forall y, y <> 0 -> ledger k (spectrum s') y = ledger k sp1 y + (if decide (y = x) then a else 0).
Proof.
  intros Hok Hlim. change (Z.of_nat entityCategoryCount) with 48 in Hlim. unfold increaseEnergy.
  destruct (isZero x) eqn:Hx; [by exists s|]. cbn [negb andb orb]. apply Z.eqb_neq in Hx.
  rewrite Z.leb_antisym. destruct (Z.ltb_spec a 0) as [Ha|Ha]; cbn [negb]; [by exists s|].
  destruct (credit_start s g Hok) as (s1 & -> & Hok1 & Hroom & Htot & Hcase).
  destruct (increase_loop_ok s1 x a tick g Hok1) as (s2 & -> & Hok2 & Hn2 & Htot2 & Hled); [lia|done|done|lia|].
  exists s2. split; [done|]. split; [done|].
  case_decide; [subst s1; done|]. exists (spectrum s1). destruct Hcase as [Hn Heff].
  split; [done|]. split; [lia|]. split; [lia|done].
Qed.

(** The part of it that sequences of operations need. *)
Lemma increaseEnergy_keeps s x a tick g :
  spectrum_ok s -> totalAmount s + a < 2 ^ 48 ->
  exists s', increaseEnergy k LOG_SPECTRUM hashEntity hashNode x a tick g s = Some s' /\ spectrum_ok s' /\
    totalAmount s' <= totalAmount s + Z.max 0 a.
Proof.
  intros Hok Hlim. unfold increaseEnergy.
  destruct (isZero x) eqn:Hx; [exists s; cbn; repeat (split; [done|]); lia|]. cbn [negb andb]. apply Z.eqb_neq in Hx.
  destruct (Z.leb_spec 0 a) as [Ha|Ha]; [|exists s; repeat (split; [done|]); lia].
  destruct (credit_start s g Hok) as (s1 & -> & Hok1 & Hroom & Htot & _).
  destruct (increase_loop_ok s1 x a tick g Hok1) as (s2 & -> & Hok2 & _ & Htot2 & _); [lia|done|done|lia|].
  exists s2. repeat (split; [done|]). lia.
Qed.

Lemma decrease_ok s i a tick :
  spectrum_ok s -> in_table k i -> publicKey ((spectrum s).[i]) <> 0 ->
  let '(s', r) := decreaseEnergy i a tick s in
  spectrum_ok s' /\ r = bool_decide (0 <= a <= energy i s) /\
  if r then totalAmount s' = totalAmount s - a /\
    forall y, y <> 0 -> ledger k (spectrum s') y =
      ledger k (spectrum s) y - (if decide (y = publicKey ((spectrum s).[i])) then a else 0)
  else s' = s.
Proof.
  intros Hok Hi Hz. unfold decreaseEnergy. destruct (Z.leb_spec 0 a) as [Ha|Ha].
  2:{ split; [done|]. rewrite bool_decide_false by lia. done. }
  destruct (Z.leb_spec a (energy i s)) as [He|He].
  2:{ split; [done|]. rewrite bool_decide_false by lia. done. }
  pose proof (spectrumMarkDirty_core i (with_spectrum ((spectrum s).[i := debit a tick ((spectrum s).[i])]) s))
    as (E1 & E2 & E3).
  destruct (debit_core _ _ _ i a tick Hok Hi Hz) as [Hc Hl]; [done|].
  unfold spectrum_ok. cbn [spectrum numberOfEntities totalAmount with_info]. rewrite E1, E2, E3.
  cbn [spectrum numberOfEntities totalAmount with_spectrum]. split; [done|]. rewrite bool_decide_true by lia.
  split; [done|]. split; [|done]. apply u64_small. unfold energy in He.
  pose proof (balance_le_total k Hk _ i (co_table _ _ _ Hok) Hi). pose proof (co_supply _ _ _ Hok) as Hs.
  rewrite (co_total _ _ _ Hok) in *. change (Z.of_nat entityCategoryCount) with 48 in Hs. unfold is_u64. lia.
Qed.

(** spectrumIndex terminates for every key; it returns the slot of the entity, whose
    energy is the entity's balance, or -1 if the key is zero or unknown (balance 0).
    decreaseEnergy at that slot succeeds exactly for amounts between 0 and the balance; then
    the amount leaves that entity and the total, and nothing else changes; otherwise the
    state is unchanged. *)
Theorem decreaseEnergy_debits s x :
  spectrum_ok s ->
  exists i, spectrumIndex k x s = Some i /\
    if decide (i = -1) then x = 0 \/ ledger k (spectrum s) x = 0
    else in_table k i /\ publicKey ((spectrum s).[i]) = x /\ energy i s = ledger k (spectrum s) x /\
      forall a tick, let '(s', r) := decreaseEnergy i a tick s in
        spectrum_ok s' /\ r = bool_decide (0 <= a <= ledger k (spectrum s) x) /\
        if r then totalAmount s' = totalAmount s - a /\
          forall y, y <> 0 ->
            ledger k (spectrum s') y = ledger k (spectrum s) y - (if decide (y = x) then a else 0)
        else s' = s.
Proof.
  intros Hok. destruct (decide (x = 0)) as [->|Hx]; [exists (-1); split; [done|by left]|].
  destruct (spectrumIndex_ok s x Hok Hx) as [(i & -> & Hi & Hp & He)|(-> & _ & Hl)].
  - exists i. split; [done|]. rewrite decide_False by (unfold in_table in Hi; lia).
    split; [done|]. split; [done|]. split; [done|]. intros a tick.
    pose proof (decrease_ok s i a tick Hok Hi ltac:(congruence)) as Hd. rewrite Hp, He in Hd. exact Hd.
  - exists (-1). split; [done|]. rewrite decide_True by done. by right.
Qed.

(** C3: reorganizeSpectrum terminates and keeps every balance and the total; afterwards the
    table holds exactly the entities with a balance, and SpectrumInfo counts them. *)
Theorem reorganizeSpectrum_preserves s :
  spectrum_ok s ->
  exists s', reorganizeSpectrum k hashEntity hashNode s = Some s' /\ spectrum_ok s' /\
    totalAmount s' = totalAmount s /\ numberOfEntities s' = live k (spectrum s) /\
    (forall x, x <> 0 -> ledger k (spectrum s') x = ledger k (spectrum s) x) /\
    live k (spectrum s') = entities k (spectrum s').
Proof.
  intros Hok. pose proof (co_table _ _ _ Hok) as Ht. pose proof (live_le_entities k Hk _ Ht) as Hle.
  pose proof (core_room _ _ _ Hok) as Hr. pose proof (co_supply _ _ _ Hok) as Hs.
  change (Z.of_nat entityCategoryCount) with 48 in Hs. pose proof (co_total _ _ _ Hok) as Htot.
  destruct (reorganize_ok s Ht) as (s' & -> & Ht' & Hn & He & Hl & Hto & Hto' & Hled); [lia|lia|].
  exists s'. split; [done|]. pose proof (co_room _ _ _ Hok). pose proof (co_entities _ _ _ Hok).
  split; [split; [done|congruence|lia|congruence|]|].
  { change (Z.of_nat entityCategoryCount) with 48. lia. }
  split; [congruence|]. split; [done|]. split; [done|congruence].
Qed.

(** The empty spectrum. *)
Definition emptySpectrum : State :=
  mkSpectrum (replicate capn zeroEntity) 0 0 (replicate entityCategoryCount 0) 0 0
    (replicate (Z.to_nat (2 * cap - 1)) inhabitant) (replicate (Z.to_nat (cap / 64)) 0)
    (replicate (Z.to_nat SPECTRUM_DIRTY_CAPACITY) 0) 0 true [].

Lemma emptySpectrum_ok : spectrum_ok emptySpectrum.
Proof.
  destruct (zero_aggregates k) as [H1 H2]. pose proof (cap_quarters k Hk). split.
  - by apply zero_table.
  - unfold emptySpectrum. cbn [spectrum numberOfEntities]. by rewrite H1.
  - cbn [numberOfEntities emptySpectrum]. lia.
  - unfold emptySpectrum. cbn [spectrum totalAmount]. by rewrite H2.
  - cbn [totalAmount emptySpectrum]. apply Z.pow_pos_nonneg; lia.
Qed.
End State.

(** ** Concrete runs: a table of four slots, filled to three quarters *)
Definition ex_leaf (e : EntityRecord) : Z := 3 * publicKey e + 7 * incomingAmount e + 11 * outgoingAmount e + 1.
Definition ex_node (a b : Z) : Z := (31 * a + b + 5) mod 2 ^ 61.
Definition ex_credit (x a tick : Z) (s : SpectrumState) : SpectrumState :=
  default s (increaseEnergy 2 true ex_leaf ex_node x a tick true s).

Lemma ex_credit_ok x a tick s :
  spectrum_ok 2 s -> totalAmount s + a < 2 ^ 48 -> spectrum_ok 2 (ex_credit x a tick s).
Proof.
  intros Hok Hl. destruct (increaseEnergy_keeps 2 ltac:(lia) true ex_leaf ex_node s x a tick true Hok Hl)
    as (s' & He & Hok' & _). unfold ex_credit. by rewrite He.
Qed.

Definition ex_full : SpectrumState := ex_credit 3 1 9 (ex_credit 2 20 8 (ex_credit 1 10 8 (emptySpectrum 2))).

Lemma ex_full_ok : spectrum_ok 2 ex_full.
Proof.
  unfold ex_full. repeat (apply ex_credit_ok; [|vm_compute; reflexivity]). apply emptySpectrum_ok. lia.
Qed.

Lemma increaseEnergy_credits_witness :
  exists s', increaseEnergy 2 true ex_leaf ex_node 4 1000 9 true ex_full = Some s' /\ spectrum_ok 2 s'.
Proof.
  destruct (increaseEnergy_credits 2 ltac:(lia) true ex_leaf ex_node ex_full 4 1000 9 true ex_full_ok) as (s' & H1 & H2 & _).
  - vm_compute. reflexivity.
  - exists s'. split; [exact H1|exact H2].
Defined.

Lemma decreaseEnergy_debits_witness :
  exists i, spectrumIndex 2 2 ex_full = Some i.
Proof.
  destruct (decreaseEnergy_debits 2 ltac:(lia) ex_full 2 ex_full_ok) as (i & H1 & _). exists i. exact H1.
Defined.

Lemma reorganizeSpectrum_preserves_witness :
  exists s', reorganizeSpectrum 2 ex_leaf ex_node ex_full = Some s' /\ totalAmount s' = totalAmount ex_full.
Proof.
  destruct (reorganizeSpectrum_preserves 2 ltac:(lia) ex_leaf ex_node ex_full ex_full_ok) as (s' & H1 & _ & H2 & _).
  exists s'. split; [exact H1|exact H2].
Defined.

(** The fourth credit burns dust first: the entity with balance 1 is gone. *)
Example ex_antidust :
  option_map (fun s => (numberOfEntities s, totalAmount s, ledger 2 (spectrum s) 3, ledger 2 (spectrum s) 2))
    (increaseEnergy 2 true ex_leaf ex_node 4 1000 9 true ex_full) = Some (2, 1020, 0, 20).
Proof. vm_compute. reflexivity. Qed.
