(* ===== verification/SpectrumDigest.v ===== *)
(** * The spectrum digest

    getSpectrumDigest re-hashes only the records on the dirty list (or those changed in the
    current tick after an overflow or a reorganisation) and the inner nodes above them.
    This file shows that the digest it returns is nevertheless the Merkle root over all
    current records, for every sequence of credits, debits and ticks. *)
From S2P Require Import Prelude OpenAddressing Containers Merkle Spectrum SpectrumLedger.

Section Digest.
Variable k : nat.
Hypothesis Hk : (6 <= k <= 31)%nat.
Variable LOG_SPECTRUM : bool.
Context {D : Type} `{!Inhabited D}.
Variable hashEntity : EntityRecord -> D.
Variable hashNode : D -> D -> D.
Abbreviation cap := (2 ^ Z.of_nat k).
Abbreviation capn := (Z.to_nat cap).
Abbreviation State := (@SpectrumState D).
Implicit Types (sp : list EntityRecord) (s : State) (dg : list D) (fl : list Z).

(** The digest that a full computation over the table gives. *)
Definition spectrum_root sp : D := merkle_root hashNode k (fun i => hashEntity (sp.[i])).

Lemma Hk2 : (2 <= k <= 31)%nat.
Proof. lia. Qed.

Lemma cap_words : cap / 64 * 64 = cap /\ 64 <= cap <= 2 ^ 31.
Proof.
  split.
  - replace (Z.of_nat k) with (6 + (Z.of_nat k - 6)) by lia. rewrite Z.pow_add_r by lia. change (2 ^ 6) with 64.
    rewrite (Z.mul_comm 64), Z.div_mul by lia. lia.
  - split; [change 64 with (2 ^ 6)|]; apply Z.pow_le_mono_r; lia.
Qed.

(** Index [i] is on the dirty list. *)
Definition listed s (i : Z) : Prop :=
  exists n, 0 <= n < spectrumDirtyCount s /\ (spectrumDirtyList s).[n] = i.

(** Sizes of the arrays, no flag is set between two digests, the dirty list holds indices. *)
Record digest_shape s : Prop := {
  ds_digests : alen (spectrumDigests s) = 2 * cap - 1;
  ds_flags : alen (spectrumChangeFlags s) = cap / 64;
  ds_clear : forall j, 0 <= j < cap -> bit_of (spectrumChangeFlags s) j = false;
  ds_dirty : alen (spectrumDirtyList s) = SPECTRUM_DIRTY_CAPACITY;
  ds_count : 0 <= spectrumDirtyCount s <= SPECTRUM_DIRTY_CAPACITY;
  ds_listed : forall i, listed s i -> in_table k i
}.

(** A leaf digest is up to date, or its record changed in this tick and will be visited. *)
Definition leaf_ok (tick : Z) s (i : Z) : Prop :=
  (spectrumDigests s).[i] = hashEntity ((spectrum s).[i]) \/
  (changed_in tick ((spectrum s).[i]) = true /\ (spectrumDirtyOverflow s = true \/ listed s i)).

Record digest_ok (tick : Z) s : Prop := {
  do_shape : digest_shape s;
  do_tree : tree_ok hashNode (spectrumDigests s) 0 k;
  do_leaf : forall i, in_table k i -> leaf_ok tick s i
}.

(** ** Marking a changed record *)
Lemma markDirty_frame i s :
  spectrumDigests (spectrumMarkDirty i s) = spectrumDigests s /\
  spectrumChangeFlags (spectrumMarkDirty i s) = spectrumChangeFlags s.
Proof. unfold spectrumMarkDirty. by destruct (_ <? _). Qed.

Lemma markDirty_listed i s j :
  alen (spectrumDirtyList s) = SPECTRUM_DIRTY_CAPACITY -> 0 <= spectrumDirtyCount s ->
  listed s j -> listed (spectrumMarkDirty i s) j.
Proof.
  intros Hl Hc (n & Hn & Hj). unfold spectrumMarkDirty, listed.
  destruct (Z.ltb_spec (spectrumDirtyCount s) SPECTRUM_DIRTY_CAPACITY); cbn [spectrumDirtyCount spectrumDirtyList with_dirty].
  - exists n. split; [lia|]. by rewrite aget_aset_ne by lia.
  - by exists n.
Qed.

Lemma markDirty_self i s :
  alen (spectrumDirtyList s) = SPECTRUM_DIRTY_CAPACITY -> 0 <= spectrumDirtyCount s ->
  spectrumDirtyOverflow (spectrumMarkDirty i s) = true \/ listed (spectrumMarkDirty i s) i.
Proof.
  intros Hl Hc. unfold spectrumMarkDirty, listed.
  destruct (Z.ltb_spec (spectrumDirtyCount s) SPECTRUM_DIRTY_CAPACITY);
    cbn [spectrumDirtyCount spectrumDirtyList spectrumDirtyOverflow with_dirty]; [|by left].
  right. exists (spectrumDirtyCount s). split; [lia|]. apply aget_aset_eq. lia.
Qed.

Lemma markDirty_overflow i s :
  spectrumDirtyOverflow s = true -> spectrumDirtyOverflow (spectrumMarkDirty i s) = true.
Proof. unfold spectrumMarkDirty. by destruct (_ <? _). Qed.

Lemma markDirty_shape i s : in_table k i -> digest_shape s -> digest_shape (spectrumMarkDirty i s).
Proof.
  intros Hi [H1 H2 H3 H4 H5 H6]. unfold spectrumMarkDirty.
  destruct (Z.ltb_spec (spectrumDirtyCount s) SPECTRUM_DIRTY_CAPACITY); split;
    cbn [spectrumDigests spectrumChangeFlags spectrumDirtyCount spectrumDirtyList with_dirty]; try done.
  - by rewrite alen_aset.
  - lia.
  - intros j (n & Hn & Hj). cbn [spectrumDirtyCount spectrumDirtyList with_dirty] in *. rewrite aget_aset in Hj.
    case_decide; [congruence|]. apply H6. exists n. split; [lia|done].
Qed.

(** Writing a record that carries the current tick, and marking it, keeps the invariant. *)
Lemma digest_ok_write tick s i e :
  table k (spectrum s) -> in_table k i -> changed_in tick e = true -> digest_ok tick s ->
  digest_ok tick (spectrumMarkDirty i (with_spectrum ((spectrum s).[i := e]) s)).
Proof.
  intros Ht Hi He [Hsh Htr Hlf]. set (s1 := with_spectrum _ s).
  destruct (markDirty_frame i s1) as [E1 E2]. pose proof Hsh as [_ _ _ Hl Hc _].
  pose proof (proj1 (spectrumMarkDirty_core i s1)) as E3. split.
  - apply markDirty_shape; [done|]. destruct Hsh. by split.
  - rewrite E1. exact Htr.
  - intros j Hj. unfold leaf_ok. rewrite E1, E3. change (spectrumDigests s1) with (spectrumDigests s).
    change (spectrum s1) with ((spectrum s).[i := e]). rewrite (read_write k Hk2 _ _ _ (sp_len k _ Ht) Hi).
    case_decide as Hji.
    + subst j. right. split; [done|]. apply markDirty_self; [exact Hl|apply Hc].
    + destruct (Hlf j Hj) as [Hf|[Hch [Ho|Hls]]]; [by left|right; split; [done|]..].
      * left. by apply markDirty_overflow.
      * right. apply markDirty_listed; [exact Hl|apply Hc|exact Hls].
Qed.

(** The parts of the state that the digest depends on. *)
Definition same_digest s s' : Prop :=
  spectrum s' = spectrum s /\ spectrumDigests s' = spectrumDigests s /\ spectrumChangeFlags s' = spectrumChangeFlags s /\
  spectrumDirtyList s' = spectrumDirtyList s /\ spectrumDirtyCount s' = spectrumDirtyCount s /\
  spectrumDirtyOverflow s' = spectrumDirtyOverflow s.

Lemma digest_shape_same s s' : same_digest s s' -> digest_shape s -> digest_shape s'.
Proof.
  intros (E1 & E2 & E3 & E4 & E5 & E6) [H1 H2 H3 H4 H5 H6]. split; rewrite ?E2, ?E3, ?E4, ?E5; try done.
  intros i (n & Hn & Hi). apply H6. exists n. by rewrite <- E4, <- E5.
Qed.

Lemma digest_ok_same tick s s' : same_digest s s' -> digest_ok tick s -> digest_ok tick s'.
Proof.
  intros HE [Hsh Htr Hlf]. pose proof HE as (E1 & E2 & E3 & E4 & E5 & E6). split.
  - by eapply digest_shape_same.
  - by rewrite E2.
  - intros i Hi. specialize (Hlf i Hi). unfold leaf_ok, listed in *. by rewrite E1, E2, E4, E5, E6.
Qed.

Lemma update_log_same (c : bool) s :
  same_digest s (if c then logSpectrumStats (updateAndAnalzeEntityCategoryPopulations k s) else s).
Proof. destruct c; [|done]. unfold updateAndAnalzeEntityCategoryPopulations. by destruct (find_thresholds _ _ _ _). Qed.

(** ** The operations *)
Lemma hash_leaves_ok sp dg :
  cap <= alen dg ->
  alen (hash_leaves k hashEntity sp dg) = alen dg /\
  forall x, (hash_leaves k hashEntity sp dg).[x] = if decide (0 <= x < cap) then hashEntity (sp.[x]) else dg.[x].
Proof.
  intros Hl. pose proof cap_words as [_ Hc]. unfold hash_leaves.
  pose proof (for_loop_ind (fun i dg' => alen dg' = alen dg /\ forall x, dg'.[x] =
    if decide (0 <= x < i) then hashEntity (sp.[x]) else dg.[x])
    (fun i dg => dg.[i := hashEntity (sp.[i])]) capn 0 dg) as Hf.
  rewrite Z2Nat.id in Hf by lia. apply Hf; clear Hf.
  - split; [done|]. intros x. by rewrite decide_False by lia.
  - intros i dg' Hi [Hl' Hx]. split; [by rewrite alen_aset|]. intros x. rewrite aget_aset, Hx.
    destruct (decide (i = x)) as [->|].
    + by rewrite !decide_True by lia.
    + rewrite decide_False by lia. apply if_decide_ext. lia.
Qed.

(** After a reorganisation every digest is up to date, whatever it was before. *)
Lemma reorganize_digest tick s s' :
  digest_shape s -> reorganizeSpectrum k hashEntity hashNode s = Some s' -> digest_ok tick s'.
Proof.
  intros [H1 H2 H3 H4 H5 H6]. unfold reorganizeSpectrum.
  change (spectrum (with_dirty _ _ _ s)) with (spectrum s). destruct (reorg_table k (spectrum s)) as [sp|]; [|done].
  intros [= <-]. pose proof cap_words as [_ Hc]. change (spectrumDigests (with_dirty _ _ _ s)) with (spectrumDigests s).
  destruct (hash_leaves_ok sp (spectrumDigests s)) as [Hl Hx]; [lia|].
  set (dg := hash_leaves _ _ _ _) in *. pose proof (rebuild_ok hashNode k 0 dg) as Hr.
  rewrite Z.add_0_l in Hr. destruct (rebuild _ _ _ _ _) as [dg' di]. cbn [fst].
  destruct Hr as (Hl' & Ht & Hx'); [done|rewrite Z.pow_add_r by lia; lia|].
  unfold updateSpectrumInfo. destruct (for_loop _ _ _ _) as [n t].
  set (s' := with_info _ _ _). split.
  - split.
    + change (spectrumDigests s') with dg'. lia.
    + exact H2.
    + exact H3.
    + exact H4.
    + change (spectrumDirtyCount s') with 0. unfold SPECTRUM_DIRTY_CAPACITY. lia.
    + intros i (m & Hm & _). change (spectrumDirtyCount s') with 0 in Hm. lia.
  - exact Ht.
  - intros i Hi. left. change (spectrumDigests s') with dg'. change (spectrum s') with sp.
    unfold in_table in Hi. by rewrite Hx', Hx, decide_True by lia.
Qed.

Lemma antiDust_digest tick g s s' :
  digest_shape s -> antiDust k LOG_SPECTRUM hashEntity hashNode g s = Some s' -> digest_ok tick s'.
Proof.
  intros Hsh. unfold antiDust. set (s1 := updateAndAnalzeEntityCategoryPopulations k s).
  assert (digest_shape s1) as Hsh1.
  { subst s1. unfold updateAndAnalzeEntityCategoryPopulations. destruct (find_thresholds _ _ _ _). by destruct Hsh; split. }
  set (s2 := if LOG_SPECTRUM && g then logSpectrumStats s1 else s1).
  assert (digest_shape s2) as Hsh2 by (subst s2; destruct (_ && _); [by destruct Hsh1; split|done]).
  cbv zeta. match goal with |- context [reorganizeSpectrum k hashEntity hashNode ?a] => set (s3 := a) end.
  assert (digest_shape s3) as Hsh3 by (by destruct Hsh2; split).
  destruct (reorganizeSpectrum k hashEntity hashNode s3) as [s4|] eqn:Hr; [|done]. intros [= <-].
  eapply digest_ok_same; [apply update_log_same|]. by eapply reorganize_digest.
Qed.

Lemma increase_digest tick x a g s s' :
  spectrum_ok k s -> totalAmount s + a < 2 ^ 48 -> digest_ok tick s ->
  increaseEnergy k LOG_SPECTRUM hashEntity hashNode x a tick g s = Some s' -> digest_ok tick s'.
Proof.
  intros Hok Hlim Hd. unfold increaseEnergy. destruct (negb (isZero x) && (0 <=? a)); [|by intros [= <-]].
  destruct (credit_start k Hk2 LOG_SPECTRUM hashEntity hashNode s g Hok) as (s1 & He & Hok1 & _).
  assert (digest_ok tick s1) as Hd1.
  { destruct (_ <=? numberOfEntities s); [eapply antiDust_digest; [apply Hd|exact He]|]. by injection He as <-. }
  rewrite He. intros (j & Hj & Hs & _)%probe_Some; [|apply home_in]. revert Hs. unfold increaseEnergy_at.
  set (i := nth_slot k (home k x) j). assert (in_table k i) as Hi by apply nth_slot_in.
  pose proof (co_table _ _ _ _ Hok1) as Ht1.
  destruct (publicKey _ =? x); [|destruct (isZero _); [|done]]; intros [= <-].
  - eapply digest_ok_same; [|apply (digest_ok_write tick s1 i (credit a tick ((spectrum s1).[i]))); try done].
    + done.
    + unfold changed_in. cbn. by rewrite Z.eqb_refl.
  - eapply digest_ok_same; [apply update_log_same|].
    eapply digest_ok_same; [|apply (digest_ok_write tick s1 i (open_entity x a tick ((spectrum s1).[i]))); try done].
    + done.
    + unfold changed_in. cbn. by rewrite Z.eqb_refl.
Qed.

Lemma decrease_digest tick i a s :
  table k (spectrum s) -> in_table k i -> digest_ok tick s -> digest_ok tick (decreaseEnergy i a tick s).1.
Proof.
  intros Ht Hi Hd. unfold decreaseEnergy. destruct (0 <=? a); [|done]. destruct (a <=? energy i s); [|done]. cbn [fst].
  eapply digest_ok_same; [|apply (digest_ok_write tick s i (debit a tick ((spectrum s).[i]))); try done].
  - done.
  - unfold changed_in. cbn. by rewrite Z.eqb_refl, orb_true_r.
Qed.

(** ** getSpectrumDigest *)

(** Leaves re-hashed so far are flagged; [V] are the indices visited. *)
Record rehash_inv (tick : Z) sp dg0 (V : Z -> Prop) (st : list D * list Z) : Prop := {
  rh_digests : alen st.1 = alen dg0;
  rh_flags : alen st.2 = cap / 64;
  rh_inner : forall x, cap <= x -> st.1.[x] = dg0.[x];
  rh_either : forall j, in_table k j -> st.1.[j] = dg0.[j] \/ st.1.[j] = hashEntity (sp.[j]);
  rh_same : forall j, in_table k j -> bit_of st.2 j = false -> st.1.[j] = dg0.[j];
  rh_visited : forall j, in_table k j -> V j -> changed_in tick (sp.[j]) = true -> st.1.[j] = hashEntity (sp.[j])
}.

Lemma flag_is_bit_set fl i :
  fl.[Z.shiftr i 6 := Z.lor (fl.[Z.shiftr i 6]) (u64 (Z.shiftl 1 (Z.land i 63)))] = bit_set fl i.
Proof.
  unfold bit_set, bit_word, bit_pos. pose proof (bit_pos_range i) as Hp. unfold bit_pos in Hp.
  rewrite u64_small; [done|]. rewrite Z.shiftl_1_l. unfold is_u64. split; [lia|]. apply Z.pow_lt_mono_r; lia.
Qed.

Lemma rehash_step tick sp dg0 (V V' : Z -> Prop) st idx :
  cap <= alen dg0 -> in_table k idx -> (forall j, V' j -> V j \/ j = idx) ->
  rehash_inv tick sp dg0 V st -> rehash_inv tick sp dg0 V' (rehash_leaf hashEntity tick sp idx st).
Proof.
  intros Hcap Hi HV. destruct st as [dg fl]. intros [H1 H2 H3 H4 H5 H7]. cbn [fst snd] in *. unfold rehash_leaf.
  destruct (changed_in tick (sp.[idx])) eqn:Hch.
  2:{ split; try done. intros j Hj [Hv| ->]%HV; [by apply H7|]. by rewrite Hch. }
  pose proof cap_words as [Hw Hc]. unfold in_table in Hi.
  assert (0 <= bit_word idx < alen fl) as Hbw.
  { rewrite bit_word_eq, H2. Z.div_mod_to_equations; lia. }
  rewrite flag_is_bit_set. split; cbn [fst snd].
  - by rewrite alen_aset.
  - unfold bit_set. by rewrite alen_aset.
  - intros x Hx. rewrite aget_aset_ne by lia. by apply H3.
  - intros j Hj. rewrite aget_aset. case_decide as Hd; [destruct Hd as [<- _]; by right|by apply H4].
  - intros j Hj. rewrite bit_set_get by done. intros [Hne Hb]%orb_false_iff. apply bool_decide_eq_false in Hne.
    rewrite aget_aset_ne by done. by apply H5.
  - intros j Hj Hv Hcj. rewrite aget_aset. case_decide as Hd; [by destruct Hd as [<- _]|].
    destruct (HV j Hv) as [Hv'| ->]; [by apply H7|]. exfalso. apply Hd. split; [done|lia].
Qed.

Lemma rehash_loop tick sp dg0 fl0 n (f : Z -> Z) :
  cap <= alen dg0 -> alen fl0 = cap / 64 -> (forall j, 0 <= j < cap -> bit_of fl0 j = false) ->
  (forall m, 0 <= m < Z.of_nat n -> in_table k (f m)) ->
  rehash_inv tick sp dg0 (fun j => exists m, 0 <= m < Z.of_nat n /\ f m = j)
    (for_loop n 0 (fun m => rehash_leaf hashEntity tick sp (f m)) (dg0, fl0)).
Proof.
  intros Hl Hf Hz Hin. pose proof cap_words as [_ Hc].
  pose proof (for_loop_ind (fun i => rehash_inv tick sp dg0 (fun j => exists m, 0 <= m < i /\ f m = j))
    (fun m => rehash_leaf hashEntity tick sp (f m)) n 0 (dg0, fl0)) as Hloop.
  rewrite Z.add_0_l in Hloop. apply Hloop; clear Hloop.
  - split; cbn [fst snd]; try done; try (intros; by left).
    intros j _ (m & Hm & _). lia.
  - intros i st Hi. apply rehash_step; [done|by apply Hin; lia|]. intros j (m & Hm & <-).
    destruct (decide (m = i)) as [->|]; [by right|]. left. exists m. split; [lia|done].
Qed.

Lemma getSpectrumDigest_ok tick s :
  digest_ok tick s ->
  let '(s', d) := getSpectrumDigest k hashEntity hashNode tick s in
  d = spectrum_root (spectrum s) /\ (forall tick', digest_ok tick' s') /\ spectrum s' = spectrum s /\
  numberOfEntities s' = numberOfEntities s /\ totalAmount s' = totalAmount s.
Proof.
  intros [Hsh Htr Hlf]. destruct Hsh as [H1 H2 H3 H4 H5 H6]. pose proof cap_words as [Hw Hc].
  unfold getSpectrumDigest. set (sp := spectrum s) in *. set (dg0 := spectrumDigests s) in *.
  set (st := if spectrumDirtyOverflow s then _ else _).
  assert (exists V, rehash_inv tick sp dg0 V st /\
    forall j, in_table k j -> (spectrumDirtyOverflow s = true \/ listed s j) -> V j) as (V & Hinv & HV).
  { subst st. destruct (spectrumDirtyOverflow s).
    - eexists. split; [apply (rehash_loop tick sp dg0 _ capn (fun m => m)); [lia|done|done|]|].
      + intros m Hm. by apply (in_table_nat k Hk2).
      + intros j Hj _. exists j. split; [by apply (in_table_nat k Hk2)|done].
    - eexists. split.
      + apply (rehash_loop tick sp dg0 _ (Z.to_nat (spectrumDirtyCount s)) (fun m => (spectrumDirtyList s).[m])); [lia|done|done|].
        intros m Hm. apply H6. exists m. split; [lia|done].
      + intros j Hj [?|(n & Hn & He)]; [done|]. exists n. split; [lia|done]. }
  destruct st as [dg fl]. destruct Hinv as [I1 I2 I3 I4 I5 I7]. cbn [fst snd] in *.
  assert (forall j, in_table k j -> dg.[j] = hashEntity (sp.[j])) as Hfresh.
  { intros j Hj. destruct (Hlf j Hj) as [Hf|[Hch Hd]].
    - destruct (I4 j Hj) as [E|E]; [|done]. by rewrite E.
    - apply I7; [done|by apply HV|done]. }
  pose proof (climb_ok hashNode k 0 fl dg) as Hcl. rewrite Z.add_0_l in Hcl.
  destruct (climb _ _ _ _ _) as [[fl' dg'] di]. destruct Hcl as (L1 & L2 & L3 & L4 & L5).
  { lia. } { rewrite I1, H1, Z.pow_add_r by lia. lia. } { lia. }
  { eapply tree_upto_change; [apply tree_upto_ok, Htr| |].
    - intros i Hi Hb. split; [apply (H3 i); lia|]. rewrite Z.add_0_l. by apply I5.
    - intros x Hx. apply I3. lia. }
  { intros j Hj. lia. }
  assert (forall i, in_table k i -> dg'.[i] = hashEntity (sp.[i])) as Hleaf.
  { intros i Hi. rewrite L4 by (unfold in_table in Hi; lia). by apply Hfresh. }
  split; [|split; [|done]].
  - pose proof (tree_root hashNode dg' 0 k L3) as Hroot. rewrite Z.pow_add_r in Hroot by lia.
    replace (cap * 2 - 1 - 1) with (0 + cap * 2 ^ 1 - 2) by lia. rewrite Hroot. apply merkle_root_ext.
    intros i Hi. rewrite Z.add_0_l. by apply Hleaf.
  - intros tick'. split.
    + split; cbn [spectrumDigests spectrumChangeFlags spectrumDirtyList spectrumDirtyCount with_digests spectrumDirtyReset with_dirty].
      * lia.
      * rewrite alen_aset. lia.
      * intros j Hj. unfold bit_of. rewrite aget_aset. case_decide as Hd; [apply Z.testbit_0_l|].
        apply (L5 j). destruct (decide (j = 0)) as [->|]; [|lia]. exfalso. apply Hd. split; [done|]. lia.
      * done.
      * unfold SPECTRUM_DIRTY_CAPACITY. lia.
      * intros i (m & Hm & _). cbn in Hm. lia.
    + exact L3.
    + intros i Hi. left. by apply Hleaf.
Qed.

(** ** Sequences of operations *)
Inductive op :=
| Increase (publicKey amount : Z) (isGenerateLog : bool)
| Decrease (publicKey amount : Z)
| EndTick.

(** One operation in tick [tick]; [EndTick] computes the digest and starts the next tick.  The
    output is the table the digest was computed for, and the digest. *)
Definition step (o : op) (tick : Z) s : option (State * Z * list (list EntityRecord * D)) :=
  match o with
  | Increase x a g =>
      match increaseEnergy k LOG_SPECTRUM hashEntity hashNode x a tick g s with
      | Some s' => Some (s', tick, [])
      | None => None
      end
  | Decrease x a =>
      match spectrumIndex k x s with
      | Some i => if i <? 0 then Some (s, tick, []) else Some ((decreaseEnergy i a tick s).1, tick, [])
      | None => None
      end
  | EndTick =>
      let '(s', d) := getSpectrumDigest k hashEntity hashNode tick s in Some (s', u32 (tick + 1), [(spectrum s, d)])
  end.

Fixpoint run (ops : list op) (tick : Z) s : option (State * Z * list (list EntityRecord * D)) :=
  match ops with
  | [] => Some (s, tick, [])
  | o :: ops =>
      match step o tick s with
      | None => None
      | Some (s1, tick1, out1) =>
          match run ops tick1 s1 with
          | None => None
          | Some (s2, tick2, out2) => Some (s2, tick2, out1 ++ out2)
          end
      end
  end.

Definition credits (o : op) : Z := match o with Increase _ a _ => Z.max 0 a | _ => 0 end.

Lemma step_ok o tick s :
  spectrum_ok k s -> digest_ok tick s -> totalAmount s + credits o < 2 ^ 48 ->
  exists s' tick' out, step o tick s = Some (s', tick', out) /\ spectrum_ok k s' /\ digest_ok tick' s' /\
    totalAmount s' <= totalAmount s + credits o /\ Forall (fun '(sp, d) => d = spectrum_root sp) out.
Proof.
  intros Hok Hd Hlim. destruct o as [x a g|x a|]; cbn [step credits] in *.
  - destruct (increaseEnergy_keeps k Hk2 LOG_SPECTRUM hashEntity hashNode s x a tick g Hok) as (s' & He & Hok' & Ht); [lia|].
    rewrite He. exists s', tick, []. split; [done|]. split; [done|]. split; [|by split].
    eapply increase_digest; [exact Hok| |exact Hd|exact He]. lia.
  - destruct (decide (x = 0)) as [->|Hx].
    { exists s, tick, []. split; [done|]. split; [done|]. split; [done|]. split; [lia|done]. }
    destruct (spectrumIndex_ok k Hk2 s x Hok Hx) as [(i & -> & Hi & Hp & He)|(-> & _ & _)].
    + rewrite (proj2 (Z.ltb_ge _ _)) by (unfold in_table in Hi; lia).
      pose proof (decrease_ok k Hk2 s i a tick Hok Hi ltac:(congruence)) as Hdec.
      pose proof (decrease_digest tick i a s (co_table _ _ _ _ Hok) Hi Hd) as Hdd.
      destruct (decreaseEnergy i a tick s) as [s' r]. cbn [fst] in *. destruct Hdec as (Hok' & Hr & Hcase).
      exists s', tick, []. split; [done|]. split; [done|]. split; [done|]. split; [|done].
      destruct r; [|subst; lia]. symmetry in Hr. apply bool_decide_eq_true in Hr. lia.
    + exists s, tick, []. split; [done|]. split; [done|]. split; [done|]. split; [lia|done].
  - pose proof (getSpectrumDigest_ok tick s Hd) as Hg. destruct (getSpectrumDigest _ _ _ _ _) as [s' d].
    destruct Hg as (-> & Hd' & E1 & E2 & E3). exists s', (u32 (tick + 1)), [(spectrum s, spectrum_root (spectrum s))].
    split; [done|]. unfold spectrum_ok. rewrite E1, E2, E3. split; [done|]. split; [done|]. split; [lia|].
    by constructor.
Qed.

Definition all_credits (ops : list op) : Z := foldr (fun o n => credits o + n) 0 ops.

(** C1: for every sequence of credits, debits and ticks whose credits keep the supply below
    [2^48], no loop of the spectrum runs for ever, the spectrum stays well formed, and each
    digest computed on the way is the Merkle root over all records of the table at that
    moment, although only changed records and the nodes above them are hashed. *)
Theorem spectrum_digest_correct ops tick s :
  spectrum_ok k s -> digest_ok tick s -> totalAmount s + all_credits ops < 2 ^ 48 ->
  exists s' tick' out, run ops tick s = Some (s', tick', out) /\ spectrum_ok k s' /\ digest_ok tick' s' /\
    Forall (fun '(sp, d) => d = spectrum_root sp) out.
Proof.
  revert tick s. induction ops as [|o ops IH]; intros tick s Hok Hd Hlim; cbn [run all_credits foldr] in *.
  { by exists s, tick, []. }
  fold (all_credits ops) in Hlim.
  assert (0 <= all_credits ops) as Hpos.
  { clear. induction ops as [|[] ops IH]; cbn [all_credits foldr credits] in *; unfold all_credits in *; lia. }
  destruct (step_ok o tick s Hok Hd) as (s1 & tick1 & out1 & -> & Hok1 & Hd1 & Ht1 & Hout1); [lia|].
  destruct (IH tick1 s1 Hok1 Hd1) as (s2 & tick2 & out2 & -> & Hok2 & Hd2 & Hout2); [lia|].
  exists s2, tick2, (out1 ++ out2). split; [done|]. split; [done|]. split; [done|]. by apply Forall_app.
Qed.

(** The empty spectrum, after its digests were computed. *)
Lemma empty_start tick :
  exists s, reorganizeSpectrum k hashEntity hashNode (emptySpectrum k) = Some s /\ spectrum_ok k s /\
    digest_ok tick s /\ totalAmount s = 0.
Proof.
  pose proof (emptySpectrum_ok k Hk2 (D := D)) as Hok. pose proof (co_table _ _ _ _ Hok) as Ht.
  pose proof (live_le_entities k Hk2 _ Ht) as Hle. pose proof cap_words as [Hw Hc].
  destruct (zero_aggregates k) as [H1 H2]. pose proof (cap_quarters k Hk2).
  change (spectrum (emptySpectrum k)) with (replicate capn zeroEntity) in *.
  destruct (reorganize_ok k Hk2 hashEntity hashNode (emptySpectrum k) Ht) as (s & He & Ht' & Hn & Hn' & _ & Hto & Hto' & _).
  { change (spectrum (emptySpectrum k)) with (replicate capn zeroEntity). lia. }
  { change (spectrum (emptySpectrum k)) with (replicate capn zeroEntity). rewrite H2. done. }
  change (spectrum (emptySpectrum k)) with (replicate capn zeroEntity) in *.
  exists s. split; [exact He|]. split; [|split; [|congruence]].
  - split; [exact Ht'|congruence|lia|congruence|]. rewrite Hto, H2. apply Z.pow_pos_nonneg; lia.
  - eapply reorganize_digest; [|exact He]. split; unfold emptySpectrum;
      cbn [spectrumDigests spectrumChangeFlags spectrumDirtyList spectrumDirtyCount].
    + rewrite alen_replicate. lia.
    + rewrite alen_replicate. lia.
    + intros j Hj. unfold bit_of.
      rewrite aget_replicate; [apply Z.testbit_0_l|]. rewrite bit_word_eq in *. Z.div_mod_to_equations; lia.
    + rewrite alen_replicate. unfold SPECTRUM_DIRTY_CAPACITY. lia.
    + unfold SPECTRUM_DIRTY_CAPACITY. lia.
    + intros i (n & Hn0 & _). cbn in Hn0. lia.
Qed.
End Digest.

(** ** A concrete run: 64 slots, three ticks *)
Definition ex_ops : list op :=
  [Increase 65 100 true; Increase 1 50 false; EndTick; Decrease 65 30; Increase 7 30 true; EndTick; Decrease 1 50; EndTick].

Lemma spectrum_digest_correct_witness :
  exists s s' tick' out, reorganizeSpectrum 6 ex_leaf ex_node (emptySpectrum 6) = Some s /\
    run 6 true ex_leaf ex_node ex_ops 1 s = Some (s', tick', out) /\
    Forall (fun '(sp, d) => d = spectrum_root 6 ex_leaf ex_node sp) out.
Proof.
  destruct (empty_start 6 ltac:(lia) ex_leaf ex_node 1) as (s & He & Hok & Hd & H0).
  destruct (spectrum_digest_correct 6 ltac:(lia) true ex_leaf ex_node ex_ops 1 s Hok Hd) as (s' & t' & out & H & _ & _ & Ho).
  - rewrite H0. reflexivity.
  - exists s, s', t', out. split; [exact He|]. split; [exact H|exact Ho].
Defined.
