(* ===== verification/Assets.v ===== *)
(** * The universe: asset issuances, ownerships and possessions (src/assets/assets.h)

    The universe is an open-addressing table of three kinds of records.  An issuance is
    probed from its issuer's key, an ownership refers to the slot of its issuance and is
    probed from the owner's key, a possession refers to the slot of its ownership and is
    probed from the possessor's key.  The state keeps the table, the flags of changed slots,
    the digests, the index lists and the log.  The [goto] loops return [None] when they would
    run for ever.  A 256-bit key and a name are the numbers their bytes encode. *)
From S2P Require Import Prelude OpenAddressing OccupationFlags Containers Merkle Spectrum.

(** [AssetRecord]: the union with its [type] tag. *)
Inductive AssetRecord :=
| EMPTY
| ISSUANCE (publicKey name numberOfDecimalPlaces unitOfMeasurement : Z)
| OWNERSHIP (publicKey managingContractIndex issuanceIndex numberOfShares : Z)
| POSSESSION (publicKey managingContractIndex ownershipIndex numberOfShares : Z).

#[export] Instance AssetRecord_inhabited : Inhabited AssetRecord := populate EMPTY.
#[export] Instance AssetRecord_eq_dec : EqDecision AssetRecord.
Proof. solve_decision. Defined.

Definition NO_ASSET_INDEX : Z := 0xffffffff.

(** [m256i::m256i_u64[i]] *)
Definition m256i_u64 (publicKey i : Z) : Z := u64 (Z.shiftr publicKey (64 * i)).

(** Log messages. *)
Inductive AssetLog :=
| AssetIssuance (issuerPublicKey numberOfShares managingContractIndex name numberOfDecimalPlaces unitOfMeasurement : Z)
| AssetOwnershipChange (sourcePublicKey destinationPublicKey issuerPublicKey numberOfShares managingContractIndex
    name numberOfDecimalPlaces unitOfMeasurement : Z)
| AssetPossessionChange (sourcePublicKey destinationPublicKey issuerPublicKey numberOfShares managingContractIndex
    name numberOfDecimalPlaces unitOfMeasurement : Z)
| AssetOwnershipManagingContractChange (ownershipPublicKey issuerPublicKey sourceContractIndex
    destinationContractIndex numberOfShares assetName : Z)
| AssetPossessionManagingContractChange (possessionPublicKey ownershipPublicKey issuerPublicKey sourceContractIndex
    destinationContractIndex numberOfShares assetName : Z).

(** ** Index lists *)
Record IndexLists := mkLists {
  issuancesFirstIdx : Z;
  ownershipsPossessionsFirstIdx : list Z;
  nextIdx : list Z
}.

Definition addIssuance (newIssuanceIdx : Z) (l : IndexLists) : IndexLists :=
  mkLists newIssuanceIdx (ownershipsPossessionsFirstIdx l) ((nextIdx l).[newIssuanceIdx := issuancesFirstIdx l]).
Definition addOwnership (issuanceIdx newOwnershipIdx : Z) (l : IndexLists) : IndexLists :=
  mkLists (issuancesFirstIdx l) ((ownershipsPossessionsFirstIdx l).[issuanceIdx := newOwnershipIdx])
    ((nextIdx l).[newOwnershipIdx := (ownershipsPossessionsFirstIdx l).[issuanceIdx]]).
Definition addPossession (ownershipIdx newPossessionIdx : Z) (l : IndexLists) : IndexLists :=
  mkLists (issuancesFirstIdx l) ((ownershipsPossessionsFirstIdx l).[ownershipIdx := newPossessionIdx])
    ((nextIdx l).[newPossessionIdx := (ownershipsPossessionsFirstIdx l).[ownershipIdx]]).

(** IndexLists::reset *)
Definition resetLists (capacity : Z) : IndexLists := mkLists NO_ASSET_INDEX (replicate (Z.to_nat capacity) NO_ASSET_INDEX) (replicate (Z.to_nat capacity) NO_ASSET_INDEX).

(** One round of IndexLists::rebuild, and the loop from slot [n - 1] down to 0 *)
Definition add_record (a : list AssetRecord) (index : Z) (l : IndexLists) : IndexLists :=
  match a.[index] with
  | EMPTY => l
  | ISSUANCE _ _ _ _ => addIssuance index l
  | OWNERSHIP _ _ issuanceIndex _ => addOwnership issuanceIndex index l
  | POSSESSION _ _ ownershipIndex _ => addPossession ownershipIndex index l
  end.
Fixpoint rebuild_from (n : nat) (a : list AssetRecord) (l : IndexLists) : IndexLists :=
  match n with O => l | S n => rebuild_from n a (add_record a (Z.of_nat n) l) end.

(** ** Reading and changing one record *)
Definition is_empty (r : AssetRecord) : bool := match r with EMPTY => true | _ => false end.

Definition rec_publicKey (r : AssetRecord) : Z :=
  match r with EMPTY => 0 | ISSUANCE p _ _ _ | OWNERSHIP p _ _ _ | POSSESSION p _ _ _ => p end.
Definition rec_managing (r : AssetRecord) : Z :=
  match r with OWNERSHIP _ m _ _ | POSSESSION _ m _ _ => m | _ => 0 end.
(** [ownership.issuanceIndex] and [possession.ownershipIndex] share their place in the union. *)
Definition rec_link (r : AssetRecord) : Z :=
  match r with OWNERSHIP _ _ i _ | POSSESSION _ _ i _ => i | _ => 0 end.
Definition rec_shares (r : AssetRecord) : Z :=
  match r with OWNERSHIP _ _ _ n | POSSESSION _ _ _ n => n | _ => 0 end.
Definition rec_name (r : AssetRecord) : Z := match r with ISSUANCE _ n _ _ => n | _ => 0 end.
Definition rec_decimals (r : AssetRecord) : Z := match r with ISSUANCE _ _ d _ => d | _ => 0 end.
Definition rec_unit (r : AssetRecord) : Z := match r with ISSUANCE _ _ _ u => u | _ => 0 end.

(** [numberOfShares += d] *)
Definition add_shares (d : Z) (r : AssetRecord) : AssetRecord :=
  match r with
  | OWNERSHIP p m i n => OWNERSHIP p m i (s64 (n + d))
  | POSSESSION p m i n => POSSESSION p m i (s64 (n + d))
  | _ => r
  end.

Definition match_issuance (issuer assetName : Z) (r : AssetRecord) : bool :=
  match r with ISSUANCE p n _ _ => (n =? assetName) && (p =? issuer) | _ => false end.
Definition match_ownership (publicKey managing issuanceIndex : Z) (r : AssetRecord) : bool :=
  match r with
  | OWNERSHIP p m i _ => (m =? managing) && (i =? issuanceIndex) && (p =? publicKey)
  | _ => false
  end.
Definition match_possession (publicKey managing ownershipIndex : Z) (r : AssetRecord) : bool :=
  match r with
  | POSSESSION p m i _ => (m =? managing) && (i =? ownershipIndex) && (p =? publicKey)
  | _ => false
  end.

Section Universe.
(** [ASSETS_DEPTH] *)
Variable k : nat.
Abbreviation ASSETS_CAPACITY := (2 ^ Z.of_nat k).
Abbreviation capn := (Z.to_nat ASSETS_CAPACITY).

Context {D : Type} `{!Inhabited D}.
Variable hashAsset : AssetRecord -> D.
Variable hashNode : D -> D -> D.

Record Universe := mkUniverse {
  assets : list AssetRecord;
  assetDigests : list D;
  assetChangeFlags : list Z;
  indexLists : IndexLists;
  assetLog : list AssetLog
}.

Definition with_assets (a : list AssetRecord) (l : IndexLists) (u : Universe) : Universe :=
  mkUniverse a (assetDigests u) (assetChangeFlags u) l (assetLog u).
Definition with_flags (fl : list Z) (u : Universe) : Universe :=
  mkUniverse (assets u) (assetDigests u) fl (indexLists u) (assetLog u).
Definition add_log (m : list AssetLog) (u : Universe) : Universe :=
  mkUniverse (assets u) (assetDigests u) (assetChangeFlags u) (indexLists u) (assetLog u ++ m).

(** [index = publicKey.m256i_u32[0] & (ASSETS_CAPACITY - 1)] and the probe loop from there. *)
Definition asset_home (publicKey : Z) : Z := Z.land (m256i_u32_0 publicKey) (ASSETS_CAPACITY - 1).
Definition asset_probe {R} (stop : Z -> option R) (index : Z) : option R :=
  probe (ASSETS_CAPACITY - 1) stop capn index.

(** The loops that stop at an empty slot or at a slot that matches. *)
Definition empty_or (matches : AssetRecord -> bool) (a : list AssetRecord) (index : Z) : option Z :=
  if is_empty (a.[index]) || matches (a.[index]) then Some index else None.

(** [assetChangeFlags[i >> 6] |= (1ULL << (i & 63))] for each index. *)
Definition flag_changes (l : list Z) (fl : list Z) : list Z := foldl bit_set fl l.

Definition issuanceIndex (issuer assetName : Z) (u : Universe) : option Z :=
  asset_probe (fun idx =>
    if is_empty ((assets u).[idx]) then Some NO_ASSET_INDEX
    else if match_issuance issuer assetName ((assets u).[idx]) then Some idx else None)
    (asset_home issuer).

(** The test that refuses a second issuance: same name and same low 192 bits of the issuer. *)
Definition same_issuance (issuer name : Z) (r : AssetRecord) : bool :=
  match r with
  | ISSUANCE p n _ _ =>
      (n =? name) && (m256i_u64 p 0 =? m256i_u64 issuer 0) && (m256i_u64 p 1 =? m256i_u64 issuer 1) &&
      (m256i_u64 p 2 =? m256i_u64 issuer 2)
  | _ => false
  end.

(** [name] holds the 7 bytes of the name: [strcpy] copies them if a zero byte is among or behind them, as in the contract
    descriptions; what it would read behind a buffer of 7 characters without one is not modelled.  Result: the value returned, the issuance index and,
    if the asset was issued, the ownership and possession indices. *)
Definition issueAsset (issuerPublicKey name numberOfDecimalPlaces unitOfMeasurement numberOfShares
    managingContractIndex : Z) (u : Universe) : option (Universe * Z * Z * option (Z * Z)) :=
  match asset_probe (fun idx =>
    if is_empty ((assets u).[idx]) then Some (idx, true)
    else if same_issuance issuerPublicKey name ((assets u).[idx]) then Some (idx, false)
    else None) (asset_home issuerPublicKey) with
  | None => None
  | Some (issuanceIdx, false) => Some (u, 0, issuanceIdx, None)
  | Some (issuanceIdx, true) =>
      let a := (assets u).[issuanceIdx := ISSUANCE issuerPublicKey name numberOfDecimalPlaces unitOfMeasurement] in
      match asset_probe (fun idx => if is_empty (a.[idx]) then Some idx else None)
              (Z.land (issuanceIdx + 1) (ASSETS_CAPACITY - 1)) with
      | None => None
      | Some ownershipIdx =>
          let a := a.[ownershipIdx := OWNERSHIP issuerPublicKey managingContractIndex issuanceIdx numberOfShares] in
          match asset_probe (fun idx => if is_empty (a.[idx]) then Some idx else None)
                  (Z.land (ownershipIdx + 1) (ASSETS_CAPACITY - 1)) with
          | None => None
          | Some possessionIdx =>
              let a := a.[possessionIdx := POSSESSION issuerPublicKey managingContractIndex ownershipIdx numberOfShares] in
              let l := addPossession ownershipIdx possessionIdx
                         (addOwnership issuanceIdx ownershipIdx (addIssuance issuanceIdx (indexLists u))) in
              let fl := flag_changes [issuanceIdx; ownershipIdx; possessionIdx] (assetChangeFlags u) in
              Some (add_log [AssetIssuance issuerPublicKey numberOfShares managingContractIndex name
                               numberOfDecimalPlaces unitOfMeasurement]
                      (with_flags fl (with_assets a l u)),
                    numberOfShares, issuanceIdx, Some (ownershipIdx, possessionIdx))
          end
      end
  end.

(** The guard of both transfer functions. *)
Definition can_transfer (sourceOwnershipIndex sourcePossessionIndex numberOfShares : Z) (a : list AssetRecord) : bool :=
  match a.[sourceOwnershipIndex], a.[sourcePossessionIndex] with
  | OWNERSHIP _ _ _ no, POSSESSION _ _ o np =>
      negb (no <? numberOfShares) && negb (np <? numberOfShares) && (o =? sourceOwnershipIndex)
  | _, _ => false
  end.

(** The common part of the transfers: find or create the destination records of
    [ownerKey] / [possessorKey], move the shares and flag the four slots. *)
Definition moveShares (sourceOwnershipIndex sourcePossessionIndex ownerKey ownershipManaging possessorKey
    possessionManaging numberOfShares : Z) (u : Universe) : option (Universe * Z * Z) :=
  let issuanceIdx := rec_link ((assets u).[sourceOwnershipIndex]) in
  match asset_probe (empty_or (match_ownership ownerKey ownershipManaging issuanceIdx) (assets u))
          (asset_home ownerKey) with
  | None => None
  | Some destO =>
      let a := (assets u).[sourceOwnershipIndex := add_shares (- numberOfShares) ((assets u).[sourceOwnershipIndex])] in
      let '(a, l) :=
        if is_empty (a.[destO])
        then (a.[destO := OWNERSHIP ownerKey ownershipManaging issuanceIdx 0], addOwnership issuanceIdx destO (indexLists u))
        else (a, indexLists u) in
      let a := a.[destO := add_shares numberOfShares (a.[destO])] in
      match asset_probe (empty_or (match_possession possessorKey possessionManaging destO) a) (asset_home possessorKey) with
      | None => None
      | Some destP =>
          let a := a.[sourcePossessionIndex := add_shares (- numberOfShares) (a.[sourcePossessionIndex])] in
          let '(a, l) :=
            if is_empty (a.[destP])
            then (a.[destP := POSSESSION possessorKey possessionManaging destO 0], addPossession destO destP l)
            else (a, l) in
          let a := a.[destP := add_shares numberOfShares (a.[destP])] in
          let fl := flag_changes [sourceOwnershipIndex; sourcePossessionIndex; destO; destP] (assetChangeFlags u) in
          Some (with_flags fl (with_assets a l u), destO, destP)
      end
  end.

(** Result: success and the destination indices, if they were written. *)
Definition transferShareManagementRights (sourceOwnershipIndex sourcePossessionIndex
    destinationOwnershipManagingContractIndex destinationPossessionManagingContractIndex numberOfShares : Z)
    (u : Universe) : option (Universe * bool * option (Z * Z)) :=
  if numberOfShares <=? 0 then Some (u, false, None)
  else if negb (can_transfer sourceOwnershipIndex sourcePossessionIndex numberOfShares (assets u))
  then Some (u, false, None)
  else
    let ownershipPublicKey := rec_publicKey ((assets u).[sourceOwnershipIndex]) in
    let possessionPublicKey := rec_publicKey ((assets u).[sourcePossessionIndex]) in
    let issuanceIdx := rec_link ((assets u).[sourceOwnershipIndex]) in
    match moveShares sourceOwnershipIndex sourcePossessionIndex ownershipPublicKey
            destinationOwnershipManagingContractIndex possessionPublicKey
            destinationPossessionManagingContractIndex numberOfShares u with
    | None => None
    | Some (u, destO, destP) =>
        let issuance := (assets u).[issuanceIdx] in
        Some (add_log
          [AssetOwnershipManagingContractChange ownershipPublicKey (rec_publicKey issuance)
             (rec_managing ((assets u).[sourceOwnershipIndex])) destinationOwnershipManagingContractIndex
             numberOfShares (rec_name issuance);
           AssetPossessionManagingContractChange possessionPublicKey ownershipPublicKey (rec_publicKey issuance)
             (rec_managing ((assets u).[sourcePossessionIndex])) destinationPossessionManagingContractIndex
             numberOfShares (rec_name issuance)] u, true, Some (destO, destP))
    end.

Definition log_change (sourceOwnershipIndex sourcePossessionIndex destinationPublicKey numberOfShares : Z)
    (u : Universe) : Universe :=
  let o := (assets u).[sourceOwnershipIndex] in
  let p := (assets u).[sourcePossessionIndex] in
  let issuance := (assets u).[rec_link o] in
  add_log
    [AssetOwnershipChange (rec_publicKey o) destinationPublicKey (rec_publicKey issuance) numberOfShares
       (rec_managing o) (rec_name issuance) (rec_decimals issuance) (rec_unit issuance);
     AssetPossessionChange (rec_publicKey p) destinationPublicKey (rec_publicKey issuance) numberOfShares
       (rec_managing p) (rec_name issuance) (rec_decimals issuance) (rec_unit issuance)] u.

Definition transferShareOwnershipAndPossession (sourceOwnershipIndex sourcePossessionIndex destinationPublicKey
    numberOfShares : Z) (u : Universe) : option (Universe * bool * option (Z * Z)) :=
  if numberOfShares <=? 0 then Some (u, false, None)
  else if negb (can_transfer sourceOwnershipIndex sourcePossessionIndex numberOfShares (assets u))
  then Some (u, false, None)
  else if isZero destinationPublicKey then
    (* burn *)
    let issuance := (assets u).[rec_link ((assets u).[sourceOwnershipIndex])] in
    if isZero (rec_publicKey issuance) then Some (u, false, None)
    else
      let a := (assets u).[sourceOwnershipIndex := add_shares (- numberOfShares) ((assets u).[sourceOwnershipIndex])] in
      let a := a.[sourcePossessionIndex := add_shares (- numberOfShares) (a.[sourcePossessionIndex])] in
      let fl := flag_changes [sourceOwnershipIndex; sourcePossessionIndex] (assetChangeFlags u) in
      Some (log_change sourceOwnershipIndex sourcePossessionIndex destinationPublicKey numberOfShares
              (with_flags fl (with_assets a (indexLists u) u)), true, None)
  else
    match moveShares sourceOwnershipIndex sourcePossessionIndex destinationPublicKey
            (rec_managing ((assets u).[sourceOwnershipIndex])) destinationPublicKey
            (rec_managing ((assets u).[sourcePossessionIndex])) numberOfShares u with
    | None => None
    | Some (u, destO, destP) =>
        Some (log_change sourceOwnershipIndex sourcePossessionIndex destinationPublicKey numberOfShares u, true,
              Some (destO, destP))
    end.

Definition numberOfPossessedShares (assetName issuer owner possessor ownershipManagingContractIndex
    possessionManagingContractIndex : Z) (u : Universe) : option Z :=
  match asset_probe (fun idx => if is_empty ((assets u).[idx]) then Some None
      else if match_issuance issuer assetName ((assets u).[idx]) then Some (Some idx) else None) (asset_home issuer) with
  | None => None
  | Some None => Some 0
  | Some (Some issuanceIdx) =>
      match asset_probe (fun idx => if is_empty ((assets u).[idx]) then Some None
          else if match_ownership owner ownershipManagingContractIndex issuanceIdx ((assets u).[idx]) then Some (Some idx)
          else None) (asset_home owner) with
      | None => None
      | Some None => Some 0
      | Some (Some ownershipIdx) =>
          match asset_probe (fun idx => if is_empty ((assets u).[idx]) then Some None
              else if match_possession possessor possessionManagingContractIndex ownershipIdx ((assets u).[idx])
              then Some (Some idx) else None) (asset_home possessor) with
          | None => None
          | Some None => Some 0
          | Some (Some possessionIdx) => Some (rec_shares ((assets u).[possessionIdx]))
          end
      end
  end.

(** ** assetsEndEpoch *)

(** [reorgAssets]: the shares of a record are added at [dest], where the record without shares is written if the slot is empty. *)
Definition reorg_add (dest : Z) (r : AssetRecord) (numberOfShares : Z) (b : list AssetRecord) : list AssetRecord :=
  let b := if is_empty (b.[dest]) then b.[dest := r] else b in b.[dest := add_shares numberOfShares (b.[dest])].

(** One slot of the old universe [a] *)
Definition reorg_slot (a : list AssetRecord) (i : Z) (reorgAssets : option (list AssetRecord)) : option (list AssetRecord) :=
  match reorgAssets, a.[i] with
  | Some b, POSSESSION publicKey managing oldOwnershipIndex numberOfShares =>
      if 0 <? numberOfShares then
        let ownership := a.[oldOwnershipIndex] in
        let issuance := a.[rec_link ownership] in
        match asset_probe (empty_or (match_issuance (rec_publicKey issuance) (rec_name issuance)) b) (asset_home (rec_publicKey issuance)) with
        | None => None
        | Some issuanceIndex =>
            let b := if is_empty (b.[issuanceIndex]) then b.[issuanceIndex := issuance] else b in
            match asset_probe (empty_or (match_ownership (rec_publicKey ownership) (rec_managing ownership) issuanceIndex) b) (asset_home (rec_publicKey ownership)) with
            | None => None
            | Some ownershipIndex =>
                let b := reorg_add ownershipIndex (OWNERSHIP (rec_publicKey ownership) (rec_managing ownership) issuanceIndex 0) numberOfShares b in
                match asset_probe (empty_or (match_possession publicKey managing ownershipIndex) b) (asset_home publicKey) with
                | None => None
                | Some possessionIndex => Some (reorg_add possessionIndex (POSSESSION publicKey managing ownershipIndex 0) numberOfShares b)
                end
            end
        end
      else Some b
  | _, _ => reorgAssets
  end.

Definition assetsEndEpoch (u : Universe) : option Universe :=
  match for_loop capn 0 (reorg_slot (assets u)) (Some (replicate capn EMPTY)) with
  | None => None
  | Some a =>
      Some (with_flags (replicate (Z.to_nat (ASSETS_CAPACITY / 64)) (2 ^ 64 - 1))
              (with_assets a (rebuild_from capn a (resetLists ASSETS_CAPACITY)) u))
  end.

(** ** getUniverseDigest *)

(** [while (mask)]: hashes the slots of the set bits, lowest first. *)
Fixpoint rehash_mask (fuel : nat) (a : list AssetRecord) (base mask : Z) (dg : list D) : list D :=
  match fuel with
  | O => dg
  | S fuel' =>
      if mask =? 0 then dg
      else
        let idx := base + tzcnt_u64 mask in
        rehash_mask fuel' a base (Z.land mask (u64 (mask - 1))) (dg.[idx := hashAsset (a.[idx])])
  end.

Definition rehash_flagged (a : list AssetRecord) (fl : list Z) (dg : list D) : list D :=
  for_loop (Z.to_nat (ASSETS_CAPACITY / 64)) 0 (fun chunk dg => rehash_mask 64 a (chunk * 64) (fl.[chunk]) dg) dg.

Definition getUniverseDigest (u : Universe) : Universe * D :=
  let dg := rehash_flagged (assets u) (assetChangeFlags u) (assetDigests u) in
  let '(fl, dg, _) :=
    climb (climb_level_chunked hashNode) k 0 ASSETS_CAPACITY (assetChangeFlags u, dg, ASSETS_CAPACITY) in
  (mkUniverse (assets u) dg (fl.[0 := 0]) (indexLists u) (assetLog u), dg.[ASSETS_CAPACITY * 2 - 1 - 1]).
End Universe.
