(* ===== verification/AssetLedger.v ===== *)
(** * The universe as a ledger of shares

    Well-formedness of the universe (reachable and unique records, valid links, possessions
    that add up to their ownership) and the effect of issueAsset, the transfers, and
    numberOfPossessedShares on the shares held. *)
From S2P Require Import Prelude OpenAddressing OccupationFlags Containers Merkle Spectrum Assets.

(** Identity of a record: what makes it unique in the table. *)
Inductive asset_key :=
| KIssuance (w0 w1 w2 name : Z)
| KOwnership (publicKey managing issuanceIndex : Z)
| KPossession (publicKey managing ownershipIndex : Z).

#[export] Instance asset_key_eq_dec : EqDecision asset_key.
Proof. solve_decision. Defined.

Definition key_of (r : AssetRecord) : option asset_key :=
  match r with
  | EMPTY => None
  | ISSUANCE p n _ _ => Some (KIssuance (m256i_u64 p 0) (m256i_u64 p 1) (m256i_u64 p 2) n)
  | OWNERSHIP p m i _ => Some (KOwnership p m i)
  | POSSESSION p m i _ => Some (KPossession p m i)
  end.

(** The record without its number of shares. *)
Definition skeleton (r : AssetRecord) : AssetRecord :=
  match r with
  | OWNERSHIP p m i _ => OWNERSHIP p m i 0
  | POSSESSION p m i _ => POSSESSION p m i 0
  | _ => r
  end.

Definition is_issuance (r : AssetRecord) : bool := match r with ISSUANCE _ _ _ _ => true | _ => false end.
Definition is_ownership (r : AssetRecord) : bool := match r with OWNERSHIP _ _ _ _ => true | _ => false end.

Lemma skeleton_key r r' : skeleton r = skeleton r' -> key_of r = key_of r'.
Proof. by destruct r, r'; cbn; intros [=]; subst. Qed.

Lemma skeleton_kind r r' :
  skeleton r = skeleton r' ->
  is_empty r = is_empty r' /\ is_issuance r = is_issuance r' /\ is_ownership r = is_ownership r' /\
  (forall p m i, match_ownership p m i r = match_ownership p m i r').
Proof. by destruct r, r'; cbn; intros [=]; subst. Qed.

Section Ledger.
Variable k : nat.
Hypothesis Hk : (2 <= k <= 31)%nat.
Abbreviation cap := (2 ^ Z.of_nat k).
Abbreviation capn := (Z.to_nat cap).
Implicit Types a : list AssetRecord.

Definition key_home (x : asset_key) : Z :=
  match x with
  | KIssuance w0 _ _ _ => Z.land (u32 w0) (cap - 1)
  | KOwnership p _ _ | KPossession p _ _ => asset_home k p
  end.

Definition aview a (i : Z) : slot asset_key :=
  match key_of (a.[i]) with None => Empty | Some x => Full x end.

Lemma u32_word p : u32 (m256i_u64 p 0) = u32 p.
Proof.
  unfold m256i_u64, u32, u64. rewrite Z.shiftr_0_r. apply Z.mod_mod_divide.
  by exists (2 ^ 32).
Qed.

Lemma key_home_in x : in_table k (key_home x).
Proof. destruct x; apply land_in_table. Qed.

Lemma home_of_record r x : key_of r = Some x -> key_home x = asset_home k (rec_publicKey r).
Proof.
  destruct r; intros [= <-]; [|done..]. unfold key_home, asset_home, m256i_u32_0. by rewrite u32_word.
Qed.

Lemma asset_cap : 4 <= cap <= 2 ^ 31.
Proof. split; [change 4 with (2 ^ 2)|]; apply Z.pow_le_mono_r; lia. Qed.

Lemma asset_index i : in_table k i <-> 0 <= i < Z.of_nat capn.
Proof. unfold in_table. pose proof asset_cap. rewrite Z2Nat.id by lia. done. Qed.

Lemma aview_full a i x : aview a i = Full x <-> key_of (a.[i]) = Some x.
Proof. unfold aview. destruct (key_of (a.[i])); naive_solver. Qed.
Lemma aview_empty a i : aview a i = Empty <-> a.[i] = EMPTY.
Proof. unfold aview. by destruct (a.[i]). Qed.
Lemma is_empty_spec r : is_empty r = true <-> r = EMPTY.
Proof. by destruct r. Qed.

(** ** Structure: unique reachable records with valid links *)
Record links_ok a : Prop := {
  lo_len : alen a = cap;
  lo_tab : table_ok k key_home (aview a);
  lo_own : forall j p m i n, in_table k j -> a.[j] = OWNERSHIP p m i n -> in_table k i /\ is_issuance (a.[i]) = true;
  lo_pos : forall j p m o n, in_table k j -> a.[j] = POSSESSION p m o n -> in_table k o /\ is_ownership (a.[o]) = true
}.

Definition used a : Z := countZ (fun i => negb (is_empty (a.[i]))) capn.

Lemma awrite a i r j : alen a = cap -> in_table k i -> (a.[i := r]).[j] = if decide (j = i) then r else a.[j].
Proof.
  intros Hl Hi. unfold in_table in Hi. rewrite aget_aset. destruct (decide (j = i)) as [->|].
  - by rewrite decide_True by lia.
  - rewrite decide_False; [done|]. by intros [-> _].
Qed.

Lemma links_ok_skeleton a a' :
  links_ok a -> alen a' = alen a -> (forall i, in_table k i -> skeleton (a'.[i]) = skeleton (a.[i])) -> links_ok a'.
Proof.
  intros [Hl Ht Ho Hp] Hl' Hs. split.
  - congruence.
  - eapply table_ok_ext; [|exact Ht]. intros i Hi. unfold aview. by rewrite (skeleton_key _ _ (Hs i Hi)).
  - intros j p m i n Hj Ha. specialize (Hs j Hj) as Hsj. rewrite Ha in Hsj.
    destruct (a.[j]) eqn:Haj; try done. injection Hsj as <- <- <-. destruct (Ho j _ _ _ _ Hj Haj) as [Hi Hii].
    split; [done|]. destruct (skeleton_kind _ _ (Hs i Hi)) as (_ & -> & _). done.
  - intros j p m i n Hj Ha. specialize (Hs j Hj) as Hsj. rewrite Ha in Hsj.
    destruct (a.[j]) eqn:Haj; try done. injection Hsj as <- <- <-. destruct (Hp j _ _ _ _ Hj Haj) as [Hi Hii].
    split; [done|]. destruct (skeleton_kind _ _ (Hs i Hi)) as (_ & _ & -> & _). done.
Qed.

(** A fresh record goes into a free slot that its search reaches. *)
Lemma links_ok_insert a j r x :
  let i := nth_slot k (key_home x) j in
  links_ok a -> key_of r = Some x -> (forall i, in_table k i -> key_of (a.[i]) <> Some x) -> 0 <= j < cap ->
  (forall j', 0 <= j' < j -> a.[nth_slot k (key_home x) j'] <> EMPTY) -> a.[i] = EMPTY ->
  (forall p m l n, r = OWNERSHIP p m l n -> in_table k l /\ is_issuance (a.[l]) = true) ->
  (forall p m l n, r = POSSESSION p m l n -> in_table k l /\ is_ownership (a.[l]) = true) ->
  links_ok (a.[i := r]).
Proof.
  intros i [Hl Ht Ho Hp] Hx Habs Hj Hbef Hi0 Hro Hrp. assert (in_table k i) as Hi by apply nth_slot_in. split.
  - by rewrite alen_aset.
  - eapply table_ok_ext; [|apply (table_ok_insert k key_home (aview a) x j Ht); [|exact Hj| |]].
    + intros i' Hi'. unfold upd, aview at 2. fold i. rewrite awrite by done. case_decide; [by rewrite Hx|done].
    + intros i' Hi' Hf%aview_full. by apply (Habs i' Hi').
    + intros y Hf%aview_full. fold i in Hf. by rewrite Hi0 in Hf.
    + intros j' Hj' Hf%aview_empty. by apply (Hbef j' Hj').
  - intros j' p m l n Hj'. rewrite !awrite by done. intros Ha.
    assert (in_table k l /\ is_issuance (a.[l]) = true) as [Hl' Hil] by (case_decide; eauto).
    split; [done|]. destruct (decide (l = i)); [|done]. subst l. by rewrite Hi0 in Hil.
  - intros j' p m l n Hj'. rewrite !awrite by done. intros Ha.
    assert (in_table k l /\ is_ownership (a.[l]) = true) as [Hl' Hil] by (case_decide; eauto).
    split; [done|]. destruct (decide (l = i)); [|done]. subst l. by rewrite Hi0 in Hil.
Qed.

(** ** Sums of shares *)

(** Shares of the possessions of ownership [o], and of the ownerships of issuance [i]. *)
Definition pos_part (o : Z) (r : AssetRecord) : Z :=
  match r with POSSESSION _ _ o' n => if o' =? o then n else 0 | _ => 0 end.
Definition own_part (i : Z) (r : AssetRecord) : Z :=
  match r with OWNERSHIP _ _ i' n => if i' =? i then n else 0 | _ => 0 end.
Definition pos_sum a (o : Z) : Z := sumZ (fun j => pos_part o (a.[j])) capn.
Definition own_sum a (i : Z) : Z := sumZ (fun j => own_part i (a.[j])) capn.

(** Shares of issuance [i] that [owner] (managed by [om]) owns and [possessor] (managed by [pm]) possesses. *)
Record position := mkPosition { po_issuance : Z; po_owner : Z; po_om : Z; po_possessor : Z; po_pm : Z }.
#[export] Instance position_eq_dec : EqDecision position.
Proof. solve_decision. Defined.

Definition held_part a (q : position) (r : AssetRecord) : Z :=
  match r with
  | POSSESSION p m o n =>
      if (p =? po_possessor q) && (m =? po_pm q) && match_ownership (po_owner q) (po_om q) (po_issuance q) (a.[o])
      then n else 0
  | _ => 0
  end.
Definition held a (q : position) : Z := sumZ (fun j => held_part a q (a.[j])) capn.

(** A well-formed universe: no negative or overflowing holdings, and the possessions of an
    ownership add up to it. *)
Record universe_ok a : Prop := {
  uo_links : links_ok a;
  uo_nonneg : forall j, in_table k j -> 0 <= rec_shares (a.[j]);
  uo_split : forall o, in_table k o -> is_ownership (a.[o]) = true -> pos_sum a o = rec_shares (a.[o]);
  uo_bound : forall i, in_table k i -> own_sum a i < 2 ^ 63
}.

Lemma pos_sum_write a i r o :
  alen a = cap -> in_table k i -> pos_sum (a.[i := r]) o = pos_sum a o + pos_part o r - pos_part o (a.[i]).
Proof.
  intros Hl Hi. unfold pos_sum. rewrite (sumZ_update (fun j => pos_part o (a.[j])) _ capn i).
  - by rewrite awrite, decide_True.
  - by apply asset_index.
  - intros j _ Hj. by rewrite awrite, decide_False.
Qed.

Lemma own_sum_write a i r l :
  alen a = cap -> in_table k i -> own_sum (a.[i := r]) l = own_sum a l + own_part l r - own_part l (a.[i]).
Proof.
  intros Hl Hi. unfold own_sum. rewrite (sumZ_update (fun j => own_part l (a.[j])) _ capn i).
  - by rewrite awrite, decide_True.
  - by apply asset_index.
  - intros j _ Hj. by rewrite awrite, decide_False.
Qed.

(** Writes that do not change the skeleton of a used slot leave the owners of the others alone. *)
Lemma held_write a i r q :
  links_ok a -> in_table k i -> a.[i] = EMPTY \/ skeleton r = skeleton (a.[i]) ->
  (forall p m o n, r = POSSESSION p m o n -> o <> i) ->
  held (a.[i := r]) q = held a q + held_part a q r - held_part a q (a.[i]).
Proof.
  intros Hok Hi Hs Hr. pose proof (lo_len _ Hok) as Hl.
  assert (forall p m o n, o <> i \/ skeleton r = skeleton (a.[i]) ->
    held_part (a.[i := r]) q (POSSESSION p m o n) = held_part a q (POSSESSION p m o n)) as Hpart.
  { intros p m o n Ho. cbn [held_part]. rewrite awrite by done. case_decide; [|done]. subst o.
    destruct Ho as [|Ho]; [done|]. destruct (skeleton_kind _ _ Ho) as (_ & _ & _ & ->). done. }
  unfold held. rewrite (sumZ_update (fun j => held_part a q (a.[j])) _ capn i).
  - rewrite awrite, decide_True by done. f_equal. f_equal. destruct r; try done. apply Hpart. left. by eapply Hr.
  - by apply asset_index.
  - intros j Hj%asset_index Hne. rewrite awrite, decide_False by done. destruct (a.[j]) eqn:Ha; try done. apply Hpart.
    destruct Hs as [He|Hs]; [|by right]. left. intros ->. destruct (lo_pos _ Hok j _ _ _ _ Hj Ha) as [_ Ho].
    by rewrite He in Ho.
Qed.

(** ** Searching *)
Lemma asset_walk a x :
  links_ok a -> used a < cap ->
  exists j, 0 <= j < cap /\
    (forall j', 0 <= j' < j ->
       a.[nth_slot k (key_home x) j'] <> EMPTY /\ key_of (a.[nth_slot k (key_home x) j']) <> Some x) /\
    (key_of (a.[nth_slot k (key_home x) j]) = Some x \/
     a.[nth_slot k (key_home x) j] = EMPTY /\ forall i, in_table k i -> key_of (a.[i]) <> Some x).
Proof.
  intros Hok Hu. pose proof asset_cap as Hc.
  destruct (countZ_lt_exists (fun i => negb (is_empty (a.[i]))) capn) as (e & He & Hee); [unfold used in Hu; lia|].
  apply negb_false_iff, is_empty_spec in Hee. apply asset_index in He.
  destruct (find_walk k key_home key_home_in (aview a) x e (lo_tab _ Hok)) as (j & Hj & Hb & Hend);
    [|done|by apply aview_empty|].
  { intros i. unfold aview. by destruct (key_of _). }
  exists j. split; [done|]. split.
  - intros j' Hj'. destruct (Hb j' Hj') as [H1 H2]. by rewrite aview_empty, aview_full in *.
  - destruct Hend as [Hf|[Hf Ha]]; [left; by apply aview_full|right].
    split; [by apply aview_empty|]. intros i Hi Hp. by apply (Ha i Hi), aview_full.
Qed.

Lemma match_ownership_key p m i r : match_ownership p m i r = true <-> key_of r = Some (KOwnership p m i).
Proof.
  destruct r; try done. cbn. rewrite !andb_true_iff, !Z.eqb_eq. split; [by intros [[-> ->] ->]|by intros [= -> -> ->]].
Qed.
Lemma match_possession_key p m i r : match_possession p m i r = true <-> key_of r = Some (KPossession p m i).
Proof.
  destruct r; try done. cbn. rewrite !andb_true_iff, !Z.eqb_eq. split; [by intros [[-> ->] ->]|by intros [= -> -> ->]].
Qed.

Lemma empty_or_ok a x (matches : AssetRecord -> bool) :
  (forall i, in_table k i -> matches (a.[i]) = true <-> key_of (a.[i]) = Some x) -> links_ok a -> used a < cap ->
  exists j, let dest := nth_slot k (key_home x) j in
    asset_probe k (empty_or matches a) (key_home x) = Some dest /\ 0 <= j < cap /\
    (key_of (a.[dest]) = Some x \/
     a.[dest] = EMPTY /\ (forall i, in_table k i -> key_of (a.[i]) <> Some x) /\
     forall j', 0 <= j' < j -> a.[nth_slot k (key_home x) j'] <> EMPTY).
Proof.
  intros Hm Hok Hu. destruct (asset_walk a x Hok Hu) as (j & Hj & Hb & Hend). exists j. pose proof asset_cap.
  split; [|split; [done|]].
  - unfold asset_probe. apply probe_intro with (j := j); [apply key_home_in|lia| |].
    + unfold empty_or. destruct Hend as [He|[-> _]]; [|done]. apply Hm in He; [|apply nth_slot_in]. by rewrite He, orb_true_r.
    + intros j' Hj'. destruct (Hb j' Hj') as [H1 H2]. unfold empty_or.
      destruct (is_empty _) eqn:E1; [by apply is_empty_spec in E1|].
      destruct (matches _) eqn:E2; [apply Hm in E2; [done|apply nth_slot_in]|]. done.
  - destruct Hend as [He|[He Ha]]; [by left|right]. split; [done|]. split; [done|]. intros j' Hj'. by apply Hb.
Qed.

(** ** One change of a number of shares *)
Definition with_shares (n : Z) (r : AssetRecord) : AssetRecord :=
  match r with
  | OWNERSHIP p m i _ => OWNERSHIP p m i n
  | POSSESSION p m i _ => POSSESSION p m i n
  | _ => r
  end.
Definition has_shares (r : AssetRecord) : bool :=
  match r with OWNERSHIP _ _ _ _ | POSSESSION _ _ _ _ => true | _ => false end.

Lemma add_shares_exact d r :
  0 <= rec_shares r + d < 2 ^ 63 -> add_shares d r = with_shares (rec_shares r + d) r.
Proof. intros H. destruct r; cbn in *; rewrite ?s64_small by (unfold is_s64; lia); done. Qed.

Lemma skeleton_with n r : skeleton (with_shares n r) = skeleton r.
Proof. by destruct r. Qed.
Lemma key_with n r : key_of (with_shares n r) = key_of r.
Proof. by destruct r. Qed.

(** [a'] is [a] with the shares of slot [i], which may be new, changed by [d]. *)
Record step_ok a a' (i d : Z) : Prop := {
  st_links : links_ok a';
  st_keep : forall j, in_table k j -> a.[j] <> EMPTY -> skeleton (a'.[j]) = skeleton (a.[j]);
  st_other : forall j, j <> i -> a'.[j] = a.[j];
  st_shares : rec_shares (a'.[i]) = rec_shares (a.[i]) + d;
  st_used : used a' <= used a + 1;
  st_pos : forall o, pos_sum a' o = pos_sum a o + pos_part o (with_shares d (a'.[i]));
  st_own : forall l, own_sum a' l = own_sum a l + own_part l (with_shares d (a'.[i]));
  st_held : forall q, held a' q = held a q + held_part a' q (with_shares d (a'.[i]))
}.

Lemma used_write a i r :
  alen a = cap -> in_table k i ->
  used (a.[i := r]) = used a + Z.b2z (negb (is_empty r)) - Z.b2z (negb (is_empty (a.[i]))).
Proof.
  intros Hl Hi. unfold used. rewrite (countZ_update (fun j => negb (is_empty (a.[j]))) _ capn i).
  - by rewrite awrite, decide_True.
  - by apply asset_index.
  - intros j _ Hj. by rewrite awrite, decide_False.
Qed.

Lemma part_shift n d r o q a :
  has_shares r = true -> rec_shares r = n ->
  pos_part o (with_shares (n + d) r) - pos_part o r = pos_part o (with_shares d r) /\
  own_part o (with_shares (n + d) r) - own_part o r = own_part o (with_shares d r) /\
  held_part a q (with_shares (n + d) r) - held_part a q r = held_part a q (with_shares d r).
Proof.
  destruct r; intros Hs Hn; try done; cbn in *; subst; (split; [|split]); try lia;
    repeat match goal with |- context [if ?b then _ else _] => destruct b end; lia.
Qed.

Lemma held_part_skeleton a a' q r :
  (forall p m o n, r = POSSESSION p m o n -> skeleton (a'.[o]) = skeleton (a.[o])) ->
  held_part a' q r = held_part a q r.
Proof.
  intros Hs. destruct r as [| | |p m o n]; try done. cbn. destruct (skeleton_kind _ _ (Hs p m o n eq_refl)) as (_ & _ & _ & ->).
  done.
Qed.

Lemma not_self_link a i p m o n : links_ok a -> in_table k i -> a.[i] = POSSESSION p m o n -> o <> i.
Proof. intros Hok Hi Ha ->. destruct (lo_pos _ Hok i _ _ _ _ Hi Ha) as [_ Ho]. by rewrite Ha in Ho. Qed.

Lemma adjust_ok a i d :
  links_ok a -> in_table k i -> has_shares (a.[i]) = true -> 0 <= rec_shares (a.[i]) + d < 2 ^ 63 ->
  step_ok a (a.[i := add_shares d (a.[i])]) i d.
Proof.
  intros Hok Hi Hs Hr. rewrite add_shares_exact by done. set (r := with_shares _ (a.[i])).
  pose proof (lo_len _ Hok) as Hl.
  assert (skeleton r = skeleton (a.[i])) as Hsk by apply skeleton_with.
  assert (forall j, skeleton ((a.[i := r]).[j]) = skeleton (a.[j])) as Hskel.
  { intros j. rewrite awrite by done. case_decide; congruence. }
  assert ((a.[i := r]).[i] = r) as Hri by (by rewrite awrite, decide_True).
  assert (with_shares d r = with_shares d (a.[i])) as Hw by (unfold r; by destruct (a.[i])).
  split.
  - eapply links_ok_skeleton; [done|by rewrite alen_aset|]. intros j _. apply Hskel.
  - intros j _ _. apply Hskel.
  - intros j Hj. by rewrite awrite, decide_False.
  - rewrite Hri. unfold r. by destruct (a.[i]).
  - rewrite used_write by done. destruct (skeleton_kind _ _ Hsk) as (-> & _). lia.
  - intros o. rewrite pos_sum_write, Hri, Hw by done.
    destruct (part_shift _ d _ o (mkPosition 0 0 0 0 0) a Hs eq_refl) as (H1 & _). fold r in H1. lia.
  - intros o. rewrite own_sum_write, Hri, Hw by done.
    destruct (part_shift _ d _ o (mkPosition 0 0 0 0 0) a Hs eq_refl) as (_ & H1 & _). fold r in H1. lia.
  - intros q. rewrite held_write; [|done|done|by right|].
    + rewrite Hri, Hw. rewrite (held_part_skeleton a (a.[i := r])) by (intros; apply Hskel).
      destruct (part_shift _ d _ 0 q a Hs eq_refl) as (_ & _ & H1). fold r in H1. lia.
    + intros p m o n Hp. unfold r in Hp. destruct (a.[i]) as [| | |p' m' o' n'] eqn:Hai; try done.
      injection Hp as -> -> -> _. by eapply not_self_link.
Qed.

(** The links of a record point to records of the right kind. *)
Definition link_ok a (r : AssetRecord) : Prop :=
  match r with
  | OWNERSHIP _ _ l _ => in_table k l /\ is_issuance (a.[l]) = true
  | POSSESSION _ _ l _ => in_table k l /\ is_ownership (a.[l]) = true
  | _ => True
  end.

Lemma create_ok a j r x :
  let i := nth_slot k (key_home x) j in
  links_ok a -> key_of r = Some x -> has_shares r = true -> link_ok a r ->
  (forall i, in_table k i -> key_of (a.[i]) <> Some x) -> 0 <= j < cap ->
  (forall j', 0 <= j' < j -> a.[nth_slot k (key_home x) j'] <> EMPTY) -> a.[i] = EMPTY ->
  step_ok a (a.[i := r]) i (rec_shares r).
Proof.
  intros i Hok Hx Hs Hlk Habs Hj Hbef Hi0. assert (in_table k i) as Hi by apply nth_slot_in.
  pose proof (lo_len _ Hok) as Hl. assert ((a.[i := r]).[i] = r) as Hri by (by rewrite awrite, decide_True).
  assert (with_shares (rec_shares r) r = r) as Hw by (by destruct r).
  split.
  - apply links_ok_insert; try done; intros p m l n ->; exact Hlk.
  - intros j' Hj' Hne. rewrite awrite by done. case_decide; [congruence|done].
  - intros j' Hj'. by rewrite awrite, decide_False.
  - by rewrite Hri, Hi0.
  - rewrite used_write, Hi0 by done. cbn. destruct (is_empty r); cbn; lia.
  - intros o. rewrite pos_sum_write, Hri, Hw, Hi0 by done. cbn. lia.
  - intros o. rewrite own_sum_write, Hri, Hw, Hi0 by done. cbn. lia.
  - intros q. assert (forall p m o n, r = POSSESSION p m o n -> o <> i) as Hne.
    { intros p m o n ->. cbn in Hlk. intros ->. rewrite Hi0 in Hlk. by destruct Hlk. }
    rewrite held_write; [|done|done|by left|done]. rewrite Hri, Hw, Hi0. cbn [held_part].
    rewrite (held_part_skeleton a (a.[i := r])); [lia|]. intros p m o n Hr. by rewrite awrite, decide_False by (done || eauto).
Qed.

(** Find or create the record of key [x] and add [d] shares. *)
Definition deposit (dest : Z) (r0 : AssetRecord) (d : Z) a : list AssetRecord :=
  let b := if is_empty (a.[dest]) then a.[dest := r0] else a in b.[dest := add_shares d (b.[dest])].

Lemma deposit_ok a x r0 (matches : AssetRecord -> bool) :
  (forall r, matches r = true <-> key_of r = Some x) -> links_ok a -> used a < cap ->
  key_of r0 = Some x -> has_shares r0 = true -> rec_shares r0 = 0 -> link_ok a r0 ->
  exists dest, asset_probe k (empty_or matches a) (key_home x) = Some dest /\ in_table k dest /\
    (a.[dest] = EMPTY \/ key_of (a.[dest]) = Some x) /\
    forall d, 0 <= d -> 0 <= rec_shares (a.[dest]) -> rec_shares (a.[dest]) + d < 2 ^ 63 ->
      step_ok a (deposit dest r0 d a) dest d /\ key_of ((deposit dest r0 d a).[dest]) = Some x.
Proof.
  intros Hm Hok Hu Hx Hs H0 Hlk. destruct (empty_or_ok a x matches (fun i _ => Hm (a.[i])) Hok Hu) as (j & Hp & Hj & Hend).
  exists (nth_slot k (key_home x) j). set (i := nth_slot k (key_home x) j) in *.
  assert (in_table k i) as Hi by apply nth_slot_in. pose proof (lo_len _ Hok) as Hl.
  split; [done|]. split; [done|]. split; [by destruct Hend as [?|[? _]]; [right|left]|]. intros d Hd Hn Hlt.
  destruct Hend as [He|(He & Habs & Hbef)].
  - unfold deposit. assert (is_empty (a.[i]) = false) as -> by (by destruct (a.[i])).
    assert (has_shares (a.[i]) = true) as Hsi by (destruct (a.[i]), r0; cbn in *; congruence).
    split; [apply adjust_ok; (done || lia)|].
    rewrite awrite, decide_True by done. rewrite add_shares_exact by lia. by rewrite key_with.
  - rewrite He in Hlt, Hn. cbn in Hlt, Hn.
    assert (deposit i r0 d a = a.[i := with_shares d r0]) as ->.
    { unfold deposit. rewrite He. cbn [is_empty]. rewrite awrite, decide_True, aset_aset by done.
      rewrite add_shares_exact by lia. by rewrite H0. }
    split.
    + assert (rec_shares (with_shares d r0) = d) as Hd' by (by destruct r0). rewrite <- Hd' at 2.
      apply create_ok; try done; [by rewrite key_with|by destruct r0|by destruct r0].
    + rewrite awrite, decide_True by done. by rewrite key_with.
Qed.

Lemma probe_same a a' (matches : AssetRecord -> bool) x h :
  (forall r, matches r = true <-> key_of r = Some x) ->
  (forall i, in_table k i -> skeleton (a'.[i]) = skeleton (a.[i])) -> in_table k h ->
  asset_probe k (empty_or matches a') h = asset_probe k (empty_or matches a) h.
Proof.
  intros Hm Hs Hh. apply probe_ext; [done|]. intros i Hi. unfold empty_or.
  destruct (skeleton_kind _ _ (Hs i Hi)) as (-> & _). pose proof (skeleton_key _ _ (Hs i Hi)) as Hk'.
  assert (matches (a'.[i]) = matches (a.[i])) as ->; [|done]. apply eq_true_iff_eq. by rewrite !Hm, Hk'.
Qed.

(** ** The parts of a sum *)
Lemma own_part_le a j : (forall j, in_table k j -> 0 <= rec_shares (a.[j])) -> in_table k j ->
  is_ownership (a.[j]) = true -> rec_shares (a.[j]) <= own_sum a (rec_link (a.[j])).
Proof.
  intros Hn Hj Ho. pose proof (sumZ_elem_le (fun i => own_part (rec_link (a.[j])) (a.[i])) capn j) as Hle.
  cbn beta in Hle. assert (own_part (rec_link (a.[j])) (a.[j]) = rec_shares (a.[j])) as E.
  { destruct (a.[j]); try done. cbn. by rewrite Z.eqb_refl. }
  rewrite E in Hle. apply Hle; [|by apply asset_index]. intros i Hi%asset_index. specialize (Hn i Hi).
  destruct (a.[i]); cbn in *; try lia. by destruct (_ =? _).
Qed.

Lemma pos_part_le a j : (forall j, in_table k j -> 0 <= rec_shares (a.[j])) -> in_table k j ->
  has_shares (a.[j]) = true -> is_ownership (a.[j]) = false -> rec_shares (a.[j]) <= pos_sum a (rec_link (a.[j])).
Proof.
  intros Hn Hj Hs Ho. pose proof (sumZ_elem_le (fun i => pos_part (rec_link (a.[j])) (a.[i])) capn j) as Hle.
  cbn beta in Hle. assert (pos_part (rec_link (a.[j])) (a.[j]) = rec_shares (a.[j])) as E.
  { destruct (a.[j]); try done. cbn. by rewrite Z.eqb_refl. }
  rewrite E in Hle. apply Hle; [|by apply asset_index]. intros i Hi%asset_index. specialize (Hn i Hi).
  destruct (a.[i]); cbn in *; try lia. by destruct (_ =? _).
Qed.

Lemma pos_sum_unlinked a o : links_ok a -> is_ownership (a.[o]) = false -> pos_sum a o = 0.
Proof.
  intros Hok Ho. apply sumZ_zero. intros j Hj%asset_index. destruct (a.[j]) eqn:Ha; try done. cbn.
  destruct (Z.eqb_spec ownershipIndex o) as [->|]; [|done]. destruct (lo_pos _ Hok j _ _ _ _ Hj Ha) as [_ H'].
  congruence.
Qed.

Lemma held_part_position a q p m o n p' m' i' :
  key_of (a.[o]) = Some (KOwnership p' m' i') ->
  held_part a q (POSSESSION p m o n) = if decide (q = mkPosition i' p' m' p m) then n else 0.
Proof.
  intros Ho. cbn [held_part]. destruct q as [qi qo qom qp qpm]. cbn.
  destruct (match_ownership qo qom qi (a.[o])) eqn:Hm.
  - apply match_ownership_key in Hm. rewrite Ho in Hm. injection Hm as -> -> ->.
    destruct (Z.eqb_spec p qp), (Z.eqb_spec m qpm); cbn; case_decide; congruence.
  - rewrite andb_false_r. case_decide as Hd; [|done]. injection Hd as -> -> -> -> ->.
    assert (match_ownership p' m' i' (a.[o]) = true) by (by apply match_ownership_key). congruence.
Qed.

(** ** Moving shares *)
Definition nonneg a : Prop := forall j, in_table k j -> 0 <= rec_shares (a.[j]).

Lemma nonneg_step a a' i d : step_ok a a' i d -> nonneg a -> 0 <= rec_shares (a.[i]) + d -> nonneg a'.
Proof.
  intros Hs Hn Hd j Hj. destruct (decide (j = i)) as [->|Hne].
  - rewrite (st_shares _ _ _ _ Hs). lia.
  - rewrite (st_other _ _ _ _ Hs j Hne). by apply Hn.
Qed.

(** The array that moveShares builds. *)
Definition moved_array (so sp dO dP n : Z) (rO rP : AssetRecord) a : list AssetRecord :=
  let a1 := a.[so := add_shares (- n) (a.[so])] in
  let a3 := deposit dO rO n a1 in
  let a4 := a3.[sp := add_shares (- n) (a3.[sp])] in
  deposit dP rP n a4.

(** What a move of [n] shares from position [src] to position [dst] of the same issuance does. *)
Record move_effect a a' (so sp dO dP n : Z) (src dst : position) : Prop := {
  me_ok : universe_ok a';
  me_held : forall q, held a' q = held a q - (if decide (q = src) then n else 0) + (if decide (q = dst) then n else 0);
  me_own : forall i, own_sum a' i = own_sum a i;
  me_used : used a' <= used a + 2;
  me_keep : forall j, in_table k j -> a.[j] <> EMPTY -> skeleton (a'.[j]) = skeleton (a.[j]);
  me_other : forall j, j <> so -> j <> sp -> j <> dO -> j <> dP -> a'.[j] = a.[j];
  me_destO : key_of (a'.[dO]) = Some (KOwnership (po_owner dst) (po_om dst) (po_issuance dst));
  me_destP : key_of (a'.[dP]) = Some (KPossession (po_possessor dst) (po_pm dst) dO)
}.

Section move.
Variables (a : list AssetRecord) (so sp : Z) (p m iss no p' m' np n : Z) (dst : position).
Hypothesis Hok : universe_ok a.
Hypothesis Hso : in_table k so.
Hypothesis Hsp : in_table k sp.
Hypothesis Ho : a.[so] = OWNERSHIP p m iss no.
Hypothesis Hp : a.[sp] = POSSESSION p' m' so np.
Hypothesis Hn : 0 < n <= no.
Hypothesis Hnp : n <= np.
Hypothesis Hroom : used a + 1 < cap.
Hypothesis Hdst : po_issuance dst = iss.

Definition xO : asset_key := KOwnership (po_owner dst) (po_om dst) iss.
Definition rO : AssetRecord := OWNERSHIP (po_owner dst) (po_om dst) iss 0.
Definition xP (dO : Z) : asset_key := KPossession (po_possessor dst) (po_pm dst) dO.
Definition rP (dO : Z) : AssetRecord := POSSESSION (po_possessor dst) (po_pm dst) dO 0.
Definition withdrawn : list AssetRecord := a.[so := add_shares (- n) (a.[so])].

Lemma withdraw_ok : step_ok a withdrawn so (- n) /\ nonneg withdrawn.
Proof.
  pose proof (uo_links _ Hok) as Hl. pose proof (uo_nonneg _ Hok) as Hnn.
  assert (step_ok a withdrawn so (- n)) as Hs.
  { apply adjust_ok; [done|done|by rewrite Ho|rewrite Ho; cbn].
    pose proof (own_part_le a so Hnn Hso) as Hle. rewrite Ho in Hle. cbn in Hle.
    destruct (lo_own _ Hl so _ _ _ _ Hso Ho) as [Hi _]. pose proof (uo_bound _ Hok iss Hi). specialize (Hle eq_refl). lia. }
  split; [done|]. eapply nonneg_step; [done|exact Hnn|]. rewrite Ho. cbn. lia.
Qed.

(** The ownership part: withdraw from the source, deposit at the destination owner. *)
Lemma move_ownership :
  exists dO, asset_probe k (empty_or (match_ownership (po_owner dst) (po_om dst) iss) a) (asset_home k (po_owner dst)) = Some dO /\
    in_table k dO /\ dO <> sp /\ (a.[dO] = EMPTY \/ key_of (a.[dO]) = Some xO) /\
    let a3 := deposit dO rO n withdrawn in
    links_ok a3 /\ nonneg a3 /\ used a3 <= used a + 1 /\ key_of (a3.[dO]) = Some xO /\
    (forall j, in_table k j -> a.[j] <> EMPTY -> skeleton (a3.[j]) = skeleton (a.[j])) /\
    (forall j, j <> so -> j <> dO -> a3.[j] = a.[j]) /\
    (forall j, rec_shares (a3.[j]) = rec_shares (a.[j]) - (if decide (j = so) then n else 0) + (if decide (j = dO) then n else 0)) /\
    (forall o, pos_sum a3 o = pos_sum a o) /\ (forall i, own_sum a3 i = own_sum a i) /\
    (forall q, held a3 q = held a q) /\ rec_shares (a3.[dO]) < 2 ^ 63.
Proof.
  pose proof (uo_links _ Hok) as Hl. destruct withdraw_ok as [Hs1 Hnn1]. set (a1 := withdrawn) in *.
  destruct (lo_own _ Hl so _ _ _ _ Hso Ho) as [Hi Hii].
  assert (forall j, in_table k j -> skeleton (a1.[j]) = skeleton (a.[j])) as Hsk1.
  { intros j Hj. unfold a1, withdrawn. rewrite awrite by (done || apply Hl). case_decide; [|done]. subst. by destruct (a.[so]). }
  assert (used a1 = used a) as Hu1.
  { apply countZ_ext. intros j Hj%asset_index. by destruct (skeleton_kind _ _ (Hsk1 j Hj)) as (-> & _). }
  destruct (deposit_ok a1 xO rO (match_ownership (po_owner dst) (po_om dst) iss)) as (dO & Hpr & HdO & Hcase & Hdep);
    [intros; apply match_ownership_key|apply Hs1|lia|done|done|done| |].
  { cbn. split; [done|]. by destruct (skeleton_kind _ _ (Hsk1 iss Hi)) as (_ & -> & _). }
  exists dO. change (key_home xO) with (asset_home k (po_owner dst)) in Hpr.
  rewrite (probe_same a a1 _ xO) in Hpr by (done || apply match_ownership_key || apply land_in_table).
  split; [done|]. split; [done|].
  assert (a.[dO] = EMPTY \/ key_of (a.[dO]) = Some xO) as Hcase0.
  { rewrite <- (skeleton_key _ _ (Hsk1 dO HdO)). destruct Hcase as [He|]; [left|by right].
    destruct (skeleton_kind _ _ (Hsk1 dO HdO)) as (E & _). rewrite He in E. by apply is_empty_spec. }
  assert (dO <> sp) as Hne.
  { intros ->. rewrite Hp in Hcase0. by destruct Hcase0. }
  split; [done|]. split; [done|].
  assert (rec_shares (a1.[dO]) + n < 2 ^ 63) as Hlt.
  { pose proof (uo_bound _ Hok iss Hi) as Hb. pose proof (st_own _ _ _ _ Hs1 iss) as Hs. 
    assert (own_part iss (with_shares (- n) (a1.[so])) = - n) as E.
    { pose proof (Hsk1 so Hso) as E. rewrite Ho in E. destruct (a1.[so]); try done. injection E as -> -> ->. cbn. by rewrite Z.eqb_refl. }
    pose proof (own_part_le a so (uo_nonneg _ Hok) Hso) as Hno. rewrite Ho in Hno. cbn in Hno. specialize (Hno eq_refl).
    rewrite E in Hs. destruct Hcase as [-> |Hc]; [cbn; lia|].
    pose proof (own_part_le a1 dO Hnn1 HdO) as Hle. destruct (a1.[dO]) eqn:Ha1; try done. injection Hc as -> -> ->.
    cbn in *. specialize (Hle eq_refl). lia. }
  destruct (Hdep n ltac:(lia) (Hnn1 dO HdO) Hlt) as [Hs3 Hk3]. set (a3 := deposit dO rO n a1) in *.
  assert (exists n3, a3.[dO] = OWNERSHIP (po_owner dst) (po_om dst) iss n3) as [n3 Ha3].
  { destruct (a3.[dO]); try done. injection Hk3 as -> -> ->. eauto. }
  assert (exists n1, a1.[so] = OWNERSHIP p m iss n1) as [n1 Ha1].
  { pose proof (Hsk1 so Hso) as E. rewrite Ho in E. destruct (a1.[so]); try done. injection E as -> -> ->. eauto. }
  pose proof (st_shares _ _ _ _ Hs1) as S1. pose proof (st_shares _ _ _ _ Hs3) as S3.
  split; [apply Hs3|]. split; [eapply nonneg_step; [done|exact Hnn1|pose proof (Hnn1 dO HdO); lia]|].
  split; [pose proof (st_used _ _ _ _ Hs3); lia|]. split; [done|].
  split; [|split; [|split; [|split; [|split; [|split]]]]].
  - intros j Hj Hj0. rewrite <- (Hsk1 j Hj). apply (st_keep _ _ _ _ Hs3 j Hj). intros E. apply Hj0.
    destruct (skeleton_kind _ _ (Hsk1 j Hj)) as (E' & _). rewrite E in E'. by apply is_empty_spec.
  - intros j Hj1 Hj2. rewrite (st_other _ _ _ _ Hs3 j Hj2). by apply (st_other _ _ _ _ Hs1).
  - intros j. destruct (decide (j = dO)) as [->|Hj].
    + rewrite S3. destruct (decide (dO = so)) as [->|]; [lia|]. rewrite (st_other _ _ _ _ Hs1) by done. lia.
    + rewrite (st_other _ _ _ _ Hs3 j Hj). destruct (decide (j = so)) as [->|]; [lia|].
      rewrite (st_other _ _ _ _ Hs1) by done. lia.
  - intros o. rewrite (st_pos _ _ _ _ Hs3), (st_pos _ _ _ _ Hs1), Ha3, Ha1. cbn. lia.
  - intros i. rewrite (st_own _ _ _ _ Hs3), (st_own _ _ _ _ Hs1), Ha3, Ha1. cbn. destruct (iss =? i); lia.
  - intros q. rewrite (st_held _ _ _ _ Hs3), (st_held _ _ _ _ Hs1), Ha3, Ha1. cbn. lia.
  - rewrite S3. done.
Qed.

(** The possession part. *)
Lemma move_possession dO :
  let a3 := deposit dO rO n withdrawn in
  in_table k dO -> dO <> sp -> links_ok a3 -> nonneg a3 -> used a3 < cap -> key_of (a3.[dO]) = Some xO ->
  key_of (a3.[so]) = Some (KOwnership p m iss) -> a3.[sp] = a.[sp] -> (forall o, pos_sum a3 o = pos_sum a o) ->
  pos_sum a dO - (if decide (dO = so) then n else 0) + n < 2 ^ 63 ->
  exists dP, asset_probe k (empty_or (match_possession (po_possessor dst) (po_pm dst) dO) a3) (asset_home k (po_possessor dst)) = Some dP /\
    in_table k dP /\ (a3.[dP] = EMPTY \/ key_of (a3.[dP]) = Some (xP dO)) /\
    let a6 := moved_array so sp dO dP n rO (rP dO) a in
    links_ok a6 /\ nonneg a6 /\ used a6 <= used a3 + 1 /\ key_of (a6.[dP]) = Some (xP dO) /\
    (forall j, in_table k j -> a3.[j] <> EMPTY -> skeleton (a6.[j]) = skeleton (a3.[j])) /\
    (forall j, j <> sp -> j <> dP -> a6.[j] = a3.[j]) /\
    (forall j, rec_shares (a6.[j]) = rec_shares (a3.[j]) - (if decide (j = sp) then n else 0) + (if decide (j = dP) then n else 0)) /\
    (forall o, pos_sum a6 o = pos_sum a3 o - (if decide (o = so) then n else 0) + (if decide (o = dO) then n else 0)) /\
    (forall i, own_sum a6 i = own_sum a3 i) /\
    (forall q, held a6 q = held a3 q - (if decide (q = mkPosition iss p m p' m') then n else 0) + (if decide (q = dst) then n else 0)).
Proof.
  intros a3 HdO Hne Hl3 Hnn3 Hu3 Hk3 Hk3s Hsp3 Hps Hlt.
  unfold moved_array. fold withdrawn. fold a3. set (a4 := a3.[sp := add_shares (- n) (a3.[sp])]).
  assert (rec_shares (a.[sp]) <= pos_sum a so) as Hle.
  { pose proof (pos_part_le a sp (uo_nonneg _ Hok) Hsp) as H'. rewrite Hp in *. by apply H'. }
  assert (pos_sum a so = no) as Hsum by (rewrite (uo_split _ Hok so Hso) by (by rewrite Ho); by rewrite Ho).
  assert (no < 2 ^ 63) as Hno.
  { pose proof (own_part_le a so (uo_nonneg _ Hok) Hso) as H'. rewrite Ho in H'. cbn in H'. specialize (H' eq_refl).
    destruct (lo_own _ (uo_links _ Hok) so _ _ _ _ Hso Ho) as [Hi _]. pose proof (uo_bound _ Hok iss Hi). lia. }
  assert (step_ok a3 a4 sp (- n)) as Hs4.
  { apply adjust_ok; [done|done|by rewrite Hsp3, Hp|]. rewrite Hsp3. rewrite Hp in *. cbn in *. lia. }
  assert (nonneg a4) as Hnn4 by (eapply nonneg_step; [done|exact Hnn3|rewrite Hsp3, Hp; cbn; lia]).
  assert (forall j, in_table k j -> skeleton (a4.[j]) = skeleton (a3.[j])) as Hsk4.
  { intros j Hj. unfold a4. rewrite awrite by (done || apply Hl3). destruct (decide (j = sp)) as [->|]; [|done]. by destruct (a3.[sp]). }
  assert (used a4 = used a3) as Hu4.
  { apply countZ_ext. intros j Hj%asset_index. by destruct (skeleton_kind _ _ (Hsk4 j Hj)) as (-> & _). }
  destruct (deposit_ok a4 (xP dO) (rP dO) (match_possession (po_possessor dst) (po_pm dst) dO)) as (dP & Hpr & HdP & Hcase & Hdep);
    [intros; apply match_possession_key|apply Hs4|lia|done|done|done| |].
  { cbn. split; [done|]. destruct (skeleton_kind _ _ (Hsk4 dO HdO)) as (_ & _ & -> & _). by destruct (a3.[dO]). }
  exists dP. change (key_home (xP dO)) with (asset_home k (po_possessor dst)) in Hpr.
  rewrite (probe_same a3 a4 _ (xP dO)) in Hpr by (done || apply match_possession_key || apply land_in_table).
  split; [done|]. split; [done|].
  assert (exists n4, a4.[sp] = POSSESSION p' m' so n4) as [n4 Ha4].
  { pose proof (Hsk4 sp Hsp) as E. rewrite Hsp3, Hp in E. destruct (a4.[sp]); try done. injection E as -> -> ->. eauto. }
  split.
  { rewrite <- (skeleton_key _ _ (Hsk4 dP HdP)). destruct Hcase as [He|]; [left|by right].
    destruct (skeleton_kind _ _ (Hsk4 dP HdP)) as (E & _). rewrite He in E. by apply is_empty_spec. }
  assert (forall o, pos_sum a4 o = pos_sum a3 o - (if decide (o = so) then n else 0)) as Hp4.
  { intros o. rewrite (st_pos _ _ _ _ Hs4), Ha4. cbn. destruct (Z.eqb_spec so o), (decide (o = so)); try congruence; lia. }
  assert (rec_shares (a4.[dP]) + n < 2 ^ 63) as Hlt4.
  { destruct Hcase as [-> |Hc]; [cbn; lia|].
    pose proof (pos_part_le a4 dP Hnn4 HdP) as H'. destruct (a4.[dP]) eqn:HadP; try done. injection Hc as -> -> ->.
    cbn in *. specialize (H' eq_refl eq_refl). rewrite Hp4, Hps in H'. lia. }
  destruct (Hdep n ltac:(lia) (Hnn4 dP HdP) Hlt4) as [Hs6 Hk6]. set (a6 := deposit dP (rP dO) n a4) in *.
  assert (exists n6, a6.[dP] = POSSESSION (po_possessor dst) (po_pm dst) dO n6) as [n6 Ha6].
  { destruct (a6.[dP]); try done. injection Hk6 as -> -> ->. eauto. }
  pose proof (st_shares _ _ _ _ Hs4) as S4. pose proof (st_shares _ _ _ _ Hs6) as S6.
  split; [apply Hs6|]. split; [eapply nonneg_step; [done|exact Hnn4|pose proof (Hnn4 dP HdP); lia]|].
  split; [pose proof (st_used _ _ _ _ Hs6); lia|]. split; [done|].
  split; [|split; [|split; [|split; [|split]]]].
  - intros j Hj Hj0. rewrite <- (Hsk4 j Hj). apply (st_keep _ _ _ _ Hs6 j Hj). intros E. apply Hj0.
    destruct (skeleton_kind _ _ (Hsk4 j Hj)) as (E' & _). rewrite E in E'. by apply is_empty_spec.
  - intros j Hj1 Hj2. rewrite (st_other _ _ _ _ Hs6 j Hj2). by apply (st_other _ _ _ _ Hs4).
  - intros j. destruct (decide (j = dP)) as [->|Hj].
    + rewrite S6. destruct (decide (dP = sp)) as [->|]; [lia|]. rewrite (st_other _ _ _ _ Hs4) by done. lia.
    + rewrite (st_other _ _ _ _ Hs6 j Hj). destruct (decide (j = sp)) as [->|]; [lia|].
      rewrite (st_other _ _ _ _ Hs4) by done. lia.
  - intros o. rewrite (st_pos _ _ _ _ Hs6), Hp4, Ha6. cbn. destruct (Z.eqb_spec dO o), (decide (o = dO)); try congruence; lia.
  - intros i. rewrite (st_own _ _ _ _ Hs6), (st_own _ _ _ _ Hs4), Ha6, Ha4. cbn. lia.
  - intros q. rewrite (st_held _ _ _ _ Hs6), (st_held _ _ _ _ Hs4), Ha6, Ha4. cbn [with_shares].
    rewrite (held_part_position a4 q p' m' so (- n) p m iss).
    2:{ by rewrite (skeleton_key _ _ (Hsk4 so Hso)). }
    rewrite (held_part_position a6 q _ _ dO n (po_owner dst) (po_om dst) iss).
    + replace (mkPosition iss (po_owner dst) (po_om dst) (po_possessor dst) (po_pm dst)) with dst by (rewrite <- Hdst; by destruct dst).
      destruct (decide (q = _)), (decide (q = dst)); lia.
    + assert (a4.[dO] <> EMPTY) as Hd4.
      { intros E. pose proof (skeleton_key _ _ (Hsk4 dO HdO)) as E'. rewrite E, Hk3 in E'. done. }
      rewrite (skeleton_key _ _ (st_keep _ _ _ _ Hs6 dO HdO Hd4)), (skeleton_key _ _ (Hsk4 dO HdO)). done.
Qed.

(** Both parts together keep the universe well formed. *)
Lemma move_ok :
  exists dO dP,
    asset_probe k (empty_or (match_ownership (po_owner dst) (po_om dst) iss) a) (asset_home k (po_owner dst)) = Some dO /\
    asset_probe k (empty_or (match_possession (po_possessor dst) (po_pm dst) dO) (deposit dO rO n withdrawn))
      (asset_home k (po_possessor dst)) = Some dP /\
    in_table k dO /\ in_table k dP /\ 
    move_effect a (moved_array so sp dO dP n rO (rP dO) a) so sp dO dP n (mkPosition iss p m p' m') dst.
Proof.
  destruct move_ownership as (dO & Hpr & HdO & HneO & HcO & Hl3 & Hnn3 & Hu3 & Hk3 & Hkeep3 & Hoth3 & Hsh3 & Hps3 & Hos3 & Hh3 & Hlt3).
  set (a3 := deposit dO rO n withdrawn) in *. pose proof (uo_links _ Hok) as Hl.
  assert (so <> sp) as Hss by (intros E; rewrite E, Hp in Ho; done).
  assert (pos_sum a dO = rec_shares (a.[dO])) as Hd0.
  { destruct HcO as [E|E].
    - rewrite pos_sum_unlinked by (done || by rewrite E). by rewrite E.
    - apply (uo_split _ Hok dO HdO). by destruct (a.[dO]). }
  destruct (move_possession dO) as (dP & HprP & HdP & HcP & Hl6 & Hnn6 & Hu6 & Hk6 & Hkeep6 & Hoth6 & Hsh6 & Hps6 & Hos6 & Hh6);
    try done; fold a3; try lia.
  { rewrite (skeleton_key _ _ (Hkeep3 so Hso ltac:(by rewrite Ho))). by rewrite Ho. }
  { apply Hoth3; congruence. }
  { rewrite Hsh3 in Hlt3. rewrite (decide_True (P := dO = dO)) in Hlt3 by done. rewrite Hd0. lia. }
  fold a3 in Hkeep6, Hoth6, Hsh6, Hps6, Hos6, Hh6, HcP, Hu6, HprP.
  set (a6 := moved_array so sp dO dP n rO (rP dO) a) in *. exists dO, dP. split; [done|]. split; [done|].
  split; [done|]. split; [done|].
  assert (forall j, in_table k j -> a.[j] <> EMPTY -> skeleton (a6.[j]) = skeleton (a.[j])) as Hkeep.
  { intros j Hj Hj0. rewrite <- (Hkeep3 j Hj Hj0). apply Hkeep6; [done|]. intros E.
    pose proof (skeleton_kind _ _ (Hkeep3 j Hj Hj0)) as (E' & _). rewrite E in E'. by apply Hj0, is_empty_spec. }
  assert (a3.[dO] <> EMPTY) as HdO3 by (intros E; by rewrite E in Hk3).
  assert (dP <> dO) as HPO by (intros ->; rewrite Hk3 in HcP; by destruct HcP as [|[=]]).
  split; fold a6.
  - split.
    + done.
    + exact Hnn6.
    + intros o Ho' Hoo. fold a6 in Hoo |- *. rewrite Hps6, Hps3, Hsh6, Hsh3.
      rewrite (decide_False (P := o = sp)).
      2:{ intros ->. pose proof (skeleton_kind _ _ (Hkeep sp Hsp ltac:(by rewrite Hp))) as (_ & _ & E & _).
          rewrite Hoo, Hp in E. done. }
      rewrite (decide_False (P := o = dP)) by (intros ->; by destruct (a6.[dP])).
      assert (pos_sum a o = rec_shares (a.[o])); [|lia].
      destruct (decide (o = dO)) as [->|Hod]; [done|]. apply (uo_split _ Hok o Ho').
      destruct (is_empty (a.[o])) eqn:E.
      { apply is_empty_spec in E. rewrite (Hoth6 o), (Hoth3 o) in Hoo; [by rewrite E in Hoo|..]; try done;
          intros ->; rewrite ?Ho, ?Hp in E; try done. by destruct (a6.[dP]). }
      destruct (skeleton_kind _ _ (Hkeep o Ho' ltac:(intros E'; by rewrite E' in E))) as (_ & _ & <- & _). done.
    + intros i Hi. rewrite Hos6, Hos3. by apply (uo_bound _ Hok).
  - intros q. by rewrite Hh6, Hh3.
  - intros i. by rewrite Hos6, Hos3.
  - lia.
  - done.
  - intros j Hj1 Hj2 Hj3 Hj4. rewrite Hoth6 by done. by apply Hoth3.
  - rewrite (skeleton_key _ _ (Hkeep6 dO HdO HdO3)), Hk3. unfold xO. by rewrite Hdst.
  - done.
Qed.
End move.

(** ** Lookups *)
Lemma lookup_ok a (matches : AssetRecord -> bool) h :
  links_ok a -> used a < cap -> in_table k h -> matches EMPTY = false ->
  (forall r x, matches r = true -> key_of r = Some x -> key_home x = h) ->
  exists r, asset_probe k (fun idx => if is_empty (a.[idx]) then Some None
      else if matches (a.[idx]) then Some (Some idx) else None) h = Some r /\
    match r with
    | Some i => in_table k i /\ matches (a.[i]) = true
    | None => forall i, in_table k i -> matches (a.[i]) = false
    end.
Proof.
  intros Hok Hu Hh Hm0 Hhome. pose proof asset_cap as Hc.
  destruct (countZ_lt_exists (fun i => negb (is_empty (a.[i]))) capn) as (e & He & Hee); [unfold used in Hu; lia|].
  apply negb_false_iff in Hee. apply asset_index in He.
  set (stop := fun idx => if is_empty (a.[idx]) then Some None
      else if matches (a.[idx]) then Some (Some idx) else None).
  destruct (probe_total k stop h e Hh He) as [r Hr]; [unfold stop; by rewrite Hee|].
  exists r. split; [done|]. apply probe_Some in Hr as (j & Hj & Hs & Hb); [|done]. rewrite Z2Nat.id in Hj by lia.
  unfold stop in Hs. destruct (is_empty (a.[nth_slot k h j])) eqn:Hej.
  - injection Hs as <-. intros i Hi. destruct (matches (a.[i])) eqn:Hmi; [|done]. exfalso.
    destruct (key_of (a.[i])) as [x|] eqn:Hx;
      [|assert (a.[i] = EMPTY) as E by (by destruct (a.[i])); rewrite E in Hmi; congruence].
    pose proof (Hhome _ _ Hmi Hx) as Hxh. pose proof (steps_range k h i) as Hst.
    assert (j < steps k h i \/ steps k h i < j \/ j = steps k h i) as [Hlt|[Hlt|Heq]] by lia.
    + apply (tab_reach _ _ _ (lo_tab _ Hok) i x j); [done|by apply aview_full|rewrite Hxh; lia|].
      rewrite Hxh. apply aview_empty. by apply is_empty_spec.
    + specialize (Hb (steps k h i) ltac:(lia)). unfold stop in Hb. rewrite nth_slot_steps in Hb by done.
      rewrite Hmi in Hb. by destruct (is_empty (a.[i])).
    + rewrite Heq, nth_slot_steps in Hej by done. apply is_empty_spec in Hej. congruence.
  - destruct (matches (a.[nth_slot k h j])) eqn:Hmj; [|done]. injection Hs as <-. split; [apply nth_slot_in|done].
Qed.

(** Position of the shares of the possession at [sp] of the ownership at [so]. *)
Definition position_of a (so sp : Z) : position :=
  mkPosition (rec_link (a.[so])) (rec_publicKey (a.[so])) (rec_managing (a.[so]))
    (rec_publicKey (a.[sp])) (rec_managing (a.[sp])).

Lemma held_unique a j p m o n p' m' i' n' :
  universe_ok a -> in_table k j -> a.[j] = POSSESSION p m o n -> a.[o] = OWNERSHIP p' m' i' n' ->
  held a (mkPosition i' p' m' p m) = n.
Proof.
  intros Hok Hj Ha Hao. pose proof (uo_links _ Hok) as Hl. set (q := mkPosition i' p' m' p m).
  destruct (lo_pos _ Hl j _ _ _ _ Hj Ha) as [Ho _].
  unfold held. rewrite (sumZ_update (fun _ => 0) _ capn j).
  - rewrite sumZ_zero by done. rewrite Ha, (held_part_position a q p m o n p' m' i') by (by rewrite Hao).
    rewrite decide_True by done. lia.
  - by apply asset_index.
  - intros j2 Hj2%asset_index Hne. destruct (a.[j2]) as [| | |p2 m2 o2 n2] eqn:Ha2; try done.
    destruct (lo_pos _ Hl j2 _ _ _ _ Hj2 Ha2) as [Ho2 Hoo2]. destruct (a.[o2]) as [| |p3 m3 i3 n3|] eqn:Hao2; try done.
    rewrite (held_part_position a q p2 m2 o2 n2 p3 m3 i3) by (by rewrite Hao2).
    case_decide as Hq; [|done]. unfold q in Hq. injection Hq as -> -> -> -> ->. exfalso. apply Hne.
    assert (o2 = o) as ->.
    { eapply (tab_unique _ _ _ (lo_tab _ Hl)); [done..| |]; apply aview_full; [by rewrite Hao2|by rewrite Hao]. }
    eapply (tab_unique _ _ _ (lo_tab _ Hl)); [done..| |]; apply aview_full; [by rewrite Ha2|by rewrite Ha].
Qed.

Lemma held_absent a q :
  (forall j p m o n, in_table k j -> a.[j] = POSSESSION p m o n -> 
     key_of (a.[o]) = Some (KOwnership (po_owner q) (po_om q) (po_issuance q)) -> p = po_possessor q -> m = po_pm q -> False) ->
  held a q = 0.
Proof.
  intros Ha. apply sumZ_zero. intros j Hj%asset_index. destruct (a.[j]) as [| | |p m o n] eqn:E; try done. cbn.
  destruct (Z.eqb_spec p (po_possessor q)), (Z.eqb_spec m (po_pm q)); try done. cbn.
  destruct (match_ownership _ _ _ _) eqn:Hm; [|done]. apply match_ownership_key in Hm. exfalso. by eapply Ha.
Qed.

Lemma match_issuance_home issuer name r x :
  match_issuance issuer name r = true -> key_of r = Some x -> key_home x = asset_home k issuer.
Proof.
  intros Hm Hx. rewrite (home_of_record r x Hx). destruct r; try done. cbn in Hm.
  apply andb_true_iff in Hm as [_ Hm]. by apply Z.eqb_eq in Hm as ->.
Qed.
Lemma match_ownership_home p m i r x :
  match_ownership p m i r = true -> key_of r = Some x -> key_home x = asset_home k p.
Proof. intros Hm Hx. apply match_ownership_key in Hm. rewrite Hm in Hx. by injection Hx as <-. Qed.
Lemma match_possession_home p m i r x :
  match_possession p m i r = true -> key_of r = Some x -> key_home x = asset_home k p.
Proof. intros Hm Hx. apply match_possession_key in Hm. rewrite Hm in Hx. by injection Hx as <-. Qed.

Lemma match_issuance_unique a i j issuer name :
  links_ok a -> in_table k i -> in_table k j -> match_issuance issuer name (a.[i]) = true ->
  match_issuance issuer name (a.[j]) = true -> i = j.
Proof.
  intros Hok Hi Hj H1 H2. destruct (a.[i]) as [|p1 n1 d1 u1| |] eqn:E1; try done.
  destruct (a.[j]) as [|p2 n2 d2 u2| |] eqn:E2; try done. cbn in *.
  apply andb_true_iff in H1 as [->%Z.eqb_eq ->%Z.eqb_eq]. apply andb_true_iff in H2 as [->%Z.eqb_eq ->%Z.eqb_eq].
  eapply (tab_unique _ _ _ (lo_tab _ Hok)); [done..| |]; apply aview_full; [rewrite E1|rewrite E2]; done.
Qed.
End Ledger.

(** ** The operations on the state *)
Section State.
Variable k : nat.
Hypothesis Hk : (2 <= k <= 31)%nat.
Context {D : Type}.
Abbreviation cap := (2 ^ Z.of_nat k).
Abbreviation capn := (Z.to_nat cap).
Implicit Types u : @Universe D.

(** numberOfPossessedShares terminates.  If the asset exists, at slot [i], the result is
    the number of its shares held at the given owner, possessor and managing contracts,
    otherwise it is 0. *)
Theorem numberOfPossessedShares_held u name issuer owner possessor om pm :
  universe_ok k (assets u) -> used k (assets u) < cap ->
  exists v, numberOfPossessedShares k name issuer owner possessor om pm u = Some v /\
    (forall i, in_table k i -> match_issuance issuer name ((assets u).[i]) = true ->
       v = held k (assets u) (mkPosition i owner om possessor pm)) /\
    ((forall i, in_table k i -> match_issuance issuer name ((assets u).[i]) = false) -> v = 0).
Proof.
  intros Hok Hu. pose proof (uo_links _ _ Hok) as Hl. set (a := assets u) in *. unfold numberOfPossessedShares. fold a.
  destruct (lookup_ok k Hk a (match_issuance issuer name) (asset_home k issuer)) as (r & -> & Hr);
    [done|done|apply land_in_table|done|apply match_issuance_home|].
  destruct r as [i|].
  2:{ exists 0. split; [done|]. split; [|done]. intros i Hi Hm. by rewrite (Hr i Hi) in Hm. }
  destruct Hr as [Hi Hmi].
  destruct (lookup_ok k Hk a (match_ownership owner om i) (asset_home k owner)) as (r & -> & Hr);
    [done|done|apply land_in_table|done|apply match_ownership_home|].
  assert (forall i', in_table k i' -> match_issuance issuer name (a.[i']) = true -> i' = i) as Huniq.
  { intros i' Hi' Hm'. by eapply match_issuance_unique. }
  destruct r as [o|].
  2:{ exists 0. split; [done|]. split; [|done]. intros i' Hi' ->%Huniq; [|done]. symmetry. apply held_absent; [done|].
      intros j p m o n Hj Hj' Hko _ _. cbn in Hko. apply match_ownership_key in Hko.
      destruct (lo_pos _ _ Hl j _ _ _ _ Hj Hj') as [Ho _]. by rewrite (Hr o Ho) in Hko. }
  destruct Hr as [Ho Hmo]. apply match_ownership_key in Hmo.
  destruct (lookup_ok k Hk a (match_possession possessor pm o) (asset_home k possessor)) as (r & -> & Hr);
    [done|done|apply land_in_table|done|apply match_possession_home|].
  destruct (a.[o]) as [| |p' m' i' n'|] eqn:Hao; try done. injection Hmo as -> -> ->.
  destruct r as [j|].
  - destruct Hr as [Hj Hmj]. apply match_possession_key in Hmj. eexists. split; [done|]. split.
    + intros i' Hi' ->%Huniq; [|done]. destruct (a.[j]) as [| | |p2 m2 o2 n2] eqn:Haj; try done. injection Hmj as -> -> ->.
      symmetry. cbn [rec_shares]. by apply (held_unique k Hk a j _ _ o _ _ _ _ n').
    + intros Hno. by rewrite (Hno i Hi) in Hmi.
  - exists 0. split; [done|]. split; [|done]. intros i' Hi' ->%Huniq; [|done]. symmetry. apply held_absent; [done|].
    intros j p m o2 n Hj Hj' Hko -> ->. cbn in Hko.
    destruct (lo_pos _ _ Hl j _ _ _ _ Hj Hj') as [Ho2 _].
    assert (o2 = o) as ->.
    { apply (tab_unique _ _ _ (lo_tab _ _ Hl) o2 o (KOwnership owner om i)); [done|done|..]; apply (aview_full k Hk); [done|by rewrite Hao]. }
    assert (match_possession possessor pm o (a.[j]) = true) as Hm by (apply match_possession_key; by rewrite Hj').
    by rewrite (Hr j Hj) in Hm.
Qed.

Lemma can_transfer_inv so sp n a :
  can_transfer so sp n a = true ->
  exists p m iss no p' m' np, a.[so] = OWNERSHIP p m iss no /\ a.[sp] = POSSESSION p' m' so np /\ n <= no /\ n <= np.
Proof.
  unfold can_transfer. destruct (a.[so]) as [| |p m iss no|]; try done. destruct (a.[sp]) as [| | |p' m' o np]; try done.
  rewrite !andb_true_iff, !negb_true_iff, !Z.ltb_ge, Z.eqb_eq. intros [[? ?] ->]. by exists p, m, iss, no, p', m', np.
Qed.

(** moveShares on a source that passed the guard. *)
Lemma moveShares_ok u so sp n (dst : position) :
  universe_ok k (assets u) -> in_table k so -> in_table k sp -> used k (assets u) + 1 < cap ->
  0 < n -> can_transfer so sp n (assets u) = true -> po_issuance dst = rec_link ((assets u).[so]) ->
  exists u' dO dP, moveShares k so sp (po_owner dst) (po_om dst) (po_possessor dst) (po_pm dst) n u = Some (u', dO, dP) /\
    in_table k dO /\ in_table k dP /\
    move_effect k (assets u) (assets u') so sp dO dP n (position_of (assets u) so sp) dst /\
    assetChangeFlags u' = flag_changes [so; sp; dO; dP] (assetChangeFlags u) /\ assetDigests u' = assetDigests u.
Proof.
  intros Hok Hso Hsp Hu Hn (p & m & iss & no & p' & m' & np & Ho & Hp & Hno & Hnp)%can_transfer_inv Hd.
  assert (position_of (assets u) so sp = mkPosition iss p m p' m') as -> by (unfold position_of; by rewrite Ho, Hp).
  rewrite Ho in Hd. cbn in Hd.
  destruct (move_ok k Hk (assets u) so sp p m iss no p' m' np n dst Hok Hso Hsp Ho Hp ltac:(lia) Hnp Hu Hd)
    as (dO & dP & HprO & HprP & HdO & HdP & Heff).
  unfold moveShares. rewrite Ho. cbn [rec_link]. rewrite HprO. rewrite <- Ho.
  set (a := assets u) in *. change (a.[so := add_shares (- n) (a.[so])]) with (withdrawn a so n).
  set (a1 := withdrawn a so n) in *.
  set (l1 := addOwnership iss dO (indexLists u)).
  assert (forall (b : bool) {A B C} (x1 x2 : A) (y1 y2 : B) (f : A -> B -> C),
    (let '(x, y) := if b then (x1, y1) else (x2, y2) in f x y) = f (if b then x1 else x2) (if b then y1 else y2)) as Hif
    by (by intros []).
  rewrite Hif. change ((if is_empty (a1.[dO]) then a1.[dO := OWNERSHIP (po_owner dst) (po_om dst) iss 0] else a1).[dO :=
    add_shares n ((if is_empty (a1.[dO]) then a1.[dO := OWNERSHIP (po_owner dst) (po_om dst) iss 0] else a1).[dO])])
    with (deposit dO (rO iss dst) n a1).
  rewrite HprP. rewrite Hif. eexists _, dO, dP. split; [done|]. split; [done|]. split; [done|]. split; [|done].
  exact Heff.
Qed.

(** Burning: both source records lose the shares. *)
Lemma burn_ok a so sp n :
  universe_ok k a -> in_table k so -> in_table k sp -> 0 < n -> can_transfer so sp n a = true ->
  let a1 := a.[so := add_shares (- n) (a.[so])] in
  let a2 := a1.[sp := add_shares (- n) (a1.[sp])] in
  universe_ok k a2 /\
  (forall q, held k a2 q = held k a q - (if decide (q = position_of a so sp) then n else 0)) /\
  (forall i, own_sum k a2 i = own_sum k a i - (if decide (i = rec_link (a.[so])) then n else 0)) /\
  (forall j, in_table k j -> skeleton (a2.[j]) = skeleton (a.[j])) /\ (forall j, j <> so -> j <> sp -> a2.[j] = a.[j]).
Proof.
  intros Hok Hso Hsp Hn (p & m & iss & no & p' & m' & np & Ho & Hp & Hno & Hnp)%can_transfer_inv a1 a2.
  destruct (withdraw_ok k Hk a so p m iss no n Hok Hso Ho ltac:(lia)) as [Hs1 Hnn1].
  change (withdrawn a so n) with a1 in *. pose proof (uo_links _ _ Hok) as Hl.
  assert (so <> sp) as Hss by (intros E; rewrite E, Hp in Ho; done).
  assert (a1.[sp] = a.[sp]) as Hsp1 by (apply (st_other _ _ _ _ _ Hs1); congruence).
  assert (np <= no) as Hle.
  { pose proof (pos_part_le k Hk a sp (uo_nonneg _ _ Hok) Hsp) as H'. rewrite Hp in H'. cbn in H'.
    rewrite (uo_split _ _ Hok so Hso), Ho in H' by (by rewrite Ho). by apply H'. }
  assert (no < 2 ^ 63) as Hlt.
  { pose proof (own_part_le k Hk a so (uo_nonneg _ _ Hok) Hso) as H'. rewrite Ho in H'. cbn in H'. specialize (H' eq_refl).
    destruct (lo_own _ _ Hl so _ _ _ _ Hso Ho) as [Hi _]. pose proof (uo_bound _ _ Hok iss Hi). lia. }
  assert (step_ok k a1 a2 sp (- n)) as Hs2.
  { apply adjust_ok; [done|apply Hs1|done|by rewrite Hsp1, Hp|rewrite Hsp1, Hp; cbn; lia]. }
  assert (nonneg k a2) as Hnn2 by (eapply (nonneg_step k Hk); [done|exact Hnn1|rewrite Hsp1, Hp; cbn; lia]).
  assert (forall j, in_table k j -> skeleton (a1.[j]) = skeleton (a.[j])) as Hsk1.
  { intros j Hj. destruct (decide (j = so)) as [->|]; [|by rewrite (st_other _ _ _ _ _ Hs1)].
    apply (st_keep _ _ _ _ _ Hs1); [done|by rewrite Ho]. }
  assert (forall j, in_table k j -> skeleton (a2.[j]) = skeleton (a.[j])) as Hsk2.
  { intros j Hj. rewrite <- Hsk1 by done. destruct (decide (j = sp)) as [->|]; [|by rewrite (st_other _ _ _ _ _ Hs2)].
    apply (st_keep _ _ _ _ _ Hs2); [done|by rewrite Hsp1, Hp]. }
  assert (exists n1, a1.[so] = OWNERSHIP p m iss n1) as [n1 Ha1].
  { pose proof (Hsk1 so Hso) as E. rewrite Ho in E. destruct (a1.[so]); try done. injection E as -> -> ->. eauto. }
  assert (exists n2, a2.[sp] = POSSESSION p' m' so n2) as [n2 Ha2].
  { pose proof (Hsk2 sp Hsp) as E. rewrite Hp in E. destruct (a2.[sp]); try done. injection E as -> -> ->. eauto. }
  pose proof (st_shares _ _ _ _ _ Hs1) as S1. pose proof (st_shares _ _ _ _ _ Hs2) as S2. rewrite Hsp1 in S2.
  split; [|split; [|split; [|split]]].
  - split.
    + apply Hs2.
    + exact Hnn2.
    + intros o Ho' Hoo. destruct (skeleton_kind _ _ (Hsk2 o Ho')) as (_ & _ & E & _). rewrite Hoo in E. symmetry in E.
      rewrite (st_pos _ _ _ _ _ Hs2), (st_pos _ _ _ _ _ Hs1), Ha1, Ha2. cbn. rewrite (uo_split _ _ Hok o Ho' E).
      assert (o <> sp) by (intros ->; rewrite Hp in E; done). rewrite (st_other _ _ _ _ _ Hs2 o) by done.
      destruct (Z.eqb_spec so o) as [<-|]; [lia|]. rewrite (st_other _ _ _ _ _ Hs1 o) by done. lia.
    + intros i Hi. rewrite (st_own _ _ _ _ _ Hs2), (st_own _ _ _ _ _ Hs1), Ha1, Ha2. cbn.
      pose proof (uo_bound _ _ Hok i Hi). destruct (iss =? i); lia.
  - intros q. rewrite (st_held _ _ _ _ _ Hs2), (st_held _ _ _ _ _ Hs1), Ha1, Ha2. cbn [with_shares].
    rewrite (held_part_position a2 q p' m' so (- n) p m iss).
    2:{ rewrite (skeleton_key _ _ (Hsk2 so Hso)). by rewrite Ho. }
    unfold position_of. rewrite Ho, Hp. cbn [held_part rec_link rec_publicKey rec_managing]. destruct (decide (q = _)); lia.
  - intros i. rewrite (st_own _ _ _ _ _ Hs2), (st_own _ _ _ _ _ Hs1), Ha1, Ha2, Ho. cbn.
    destruct (Z.eqb_spec iss i), (decide (i = iss)); try congruence; lia.
  - done.
  - intros j Hj1 Hj2. rewrite (st_other _ _ _ _ _ Hs2) by done. by apply (st_other _ _ _ _ _ Hs1).
Qed.

(** C5: transferShareOwnershipAndPossession terminates while two slots are free, keeps the
    universe well formed, and refuses without any change exactly the non-positive amounts,
    the invalid or insufficient sources, and the burning of contract shares.  A successful
    transfer moves the shares from the source position to the destination key under the same
    managing contracts and keeps the number of shares of every issuance; a transfer to the
    zero key removes the shares. *)
Theorem transferShareOwnershipAndPossession_moves u so sp dest n :
  universe_ok k (assets u) -> in_table k so -> in_table k sp -> used k (assets u) + 1 < cap ->
  let a := assets u in
  let src := position_of a so sp in
  exists u' ok d, transferShareOwnershipAndPossession k so sp dest n u = Some (u', ok, d) /\
    universe_ok k (assets u') /\
    ok = (0 <? n) && can_transfer so sp n a && negb (isZero dest && isZero (rec_publicKey (a.[rec_link (a.[so])]))) /\
    if negb ok then u' = u
    else if isZero dest then
      (forall q, held k (assets u') q = held k a q - (if decide (q = src) then n else 0)) /\
      (forall i, own_sum k (assets u') i = own_sum k a i - (if decide (i = po_issuance src) then n else 0))
    else
      (forall q, held k (assets u') q = held k a q - (if decide (q = src) then n else 0) +
         (if decide (q = mkPosition (po_issuance src) dest (po_om src) dest (po_pm src)) then n else 0)) /\
      (forall i, own_sum k (assets u') i = own_sum k a i).
Proof.
  intros Hok Hso Hsp Hu a src. unfold transferShareOwnershipAndPossession. fold a.
  rewrite Z.leb_antisym. destruct (Z.ltb_spec 0 n) as [Hn|Hn]; cbn [negb andb].
  2:{ by exists u, false, None. }
  destruct (can_transfer so sp n a) eqn:Hct; cbn [negb andb]; [|by exists u, false, None].
  destruct (isZero dest) eqn:Hz.
  - destruct (isZero (rec_publicKey (a.[rec_link (a.[so])]))) eqn:Hiz; [by exists u, false, None|].
    destruct (burn_ok a so sp n Hok Hso Hsp Hn Hct) as (Hok' & Hh & Hos & _).
    eexists _, true, None. split; [done|]. split; [exact Hok'|]. split; [done|]. cbn [negb]. split; [exact Hh|exact Hos].
  - set (dst := mkPosition (po_issuance src) dest (po_om src) dest (po_pm src)).
    destruct (moveShares_ok u so sp n dst Hok Hso Hsp Hu Hn Hct eq_refl) as (u' & dO & dP & He & HdO & HdP & Heff & _).
    change (moveShares k so sp dest (rec_managing (a.[so])) dest (rec_managing (a.[sp])) n u) with
      (moveShares k so sp (po_owner dst) (po_om dst) (po_possessor dst) (po_pm dst) n u).
    rewrite He. eexists _, true, _. split; [done|].
    change (assets (log_change so sp dest n u')) with (assets u'). split; [apply Heff|]. split; [done|]. cbn [negb].
    split; [apply Heff|apply Heff].
Qed.

(** transferShareManagementRights terminates while two slots are free, keeps the universe
    well formed and refuses without any change exactly the non-positive amounts and the
    invalid or insufficient sources; otherwise the shares move to the same owner and possessor
    under the new managing contracts, and no other holding changes. *)
Theorem transferShareManagementRights_moves u so sp om pm n :
  universe_ok k (assets u) -> in_table k so -> in_table k sp -> used k (assets u) + 1 < cap ->
  let a := assets u in
  let src := position_of a so sp in
  exists u' ok d, transferShareManagementRights k so sp om pm n u = Some (u', ok, d) /\
    universe_ok k (assets u') /\ ok = (0 <? n) && can_transfer so sp n a /\
    if negb ok then u' = u
    else
      (forall q, held k (assets u') q = held k a q - (if decide (q = src) then n else 0) +
         (if decide (q = mkPosition (po_issuance src) (po_owner src) om (po_possessor src) pm) then n else 0)) /\
      (forall i, own_sum k (assets u') i = own_sum k a i).
Proof.
  intros Hok Hso Hsp Hu a src. unfold transferShareManagementRights. fold a.
  rewrite Z.leb_antisym. destruct (Z.ltb_spec 0 n) as [Hn|Hn]; cbn [negb andb].
  2:{ by exists u, false, None. }
  destruct (can_transfer so sp n a) eqn:Hct; cbn [negb andb]; [|by exists u, false, None].
  set (dst := mkPosition (po_issuance src) (po_owner src) om (po_possessor src) pm).
  destruct (moveShares_ok u so sp n dst Hok Hso Hsp Hu Hn Hct eq_refl) as (u' & dO & dP & He & HdO & HdP & Heff & _).
  change (moveShares k so sp (rec_publicKey (a.[so])) om (rec_publicKey (a.[sp])) pm n u) with
    (moveShares k so sp (po_owner dst) (po_om dst) (po_possessor dst) (po_pm dst) n u).
  rewrite He. eexists _, true, _. split; [done|]. cbn [add_log assets]. split; [apply Heff|]. split; [done|].
  split; [apply Heff|apply Heff].
Qed.

(** ** Issuing an asset *)
Lemma same_issuance_key issuer name r :
  same_issuance issuer name r = true <->
  key_of r = Some (KIssuance (m256i_u64 issuer 0) (m256i_u64 issuer 1) (m256i_u64 issuer 2) name).
Proof.
  destruct r; try done. cbn. rewrite !andb_true_iff, !Z.eqb_eq. split.
  - intros [[[-> ->] ->] ->]. done.
  - intros [= -> -> -> ->]. done.
Qed.

(** The loops that look for a free slot, started behind [c] used slots. *)
Lemma empty_from (a : list AssetRecord) h c :
  in_table k h -> 0 <= c <= cap -> (forall j', 0 <= j' < c -> a.[nth_slot k h j'] <> EMPTY) -> used k a < cap ->
  exists j, c <= j < cap /\
    asset_probe k (fun idx => if is_empty (a.[idx]) then Some idx else None) (nth_slot k h c) = Some (nth_slot k h j) /\
    a.[nth_slot k h j] = EMPTY /\ forall j', 0 <= j' < j -> a.[nth_slot k h j'] <> EMPTY.
Proof.
  intros Hh Hc Hb Hu. pose proof (asset_cap k Hk) as Hcap.
  destruct (countZ_lt_exists (fun i => negb (is_empty (a.[i]))) capn) as (e & He & Hee); [unfold used in Hu; lia|].
  apply negb_false_iff in Hee. apply (asset_index k Hk) in He.
  set (stop := fun idx => if is_empty (a.[idx]) then Some idx else None).
  destruct (probe_total k stop (nth_slot k h c) e (nth_slot_in k h c) He) as [r Hr]; [unfold stop; by rewrite Hee|].
  pose proof Hr as Hr'. apply probe_Some in Hr' as (j2 & Hj2 & Hs & Hb2); [|apply nth_slot_in]. rewrite Z2Nat.id in Hj2 by lia.
  assert (forall j, nth_slot k (nth_slot k h c) j = nth_slot k h (c + j)) as Hadd.
  { intros j. unfold nth_slot. rewrite Zplus_mod_idemp_l. f_equal. lia. }
  rewrite Hadd in Hs. unfold stop in Hs. destruct (is_empty (a.[nth_slot k h (c + j2)])) eqn:Hej; [|done]. injection Hs as <-.
  apply is_empty_spec in Hej.
  assert (c + j2 < cap) as Hlt.
  { destruct (decide (c + j2 < cap)) as [|Hge]; [done|]. exfalso. apply (Hb (c + j2 - cap)); [lia|].
    replace (nth_slot k h (c + j2 - cap)) with (nth_slot k h (c + j2)); [done|]. unfold nth_slot.
    replace (h + (c + j2)) with (h + (c + j2 - cap) + 1 * cap) by lia. apply Z.mod_add. lia. }
  exists (c + j2). split; [lia|]. split; [done|]. split; [done|]. intros j' Hj' E.
  destruct (decide (j' < c)); [by apply (Hb j' ltac:(lia))|]. specialize (Hb2 (j' - c) ltac:(lia)).
  rewrite Hadd in Hb2. replace (c + (j' - c)) with j' in Hb2 by lia. unfold stop in Hb2. by rewrite E in Hb2.
Qed.

Lemma own_sum_unlinked a i : links_ok k a -> is_issuance (a.[i]) = false -> own_sum k a i = 0.
Proof.
  intros Hok Hi. apply sumZ_zero. intros j Hj%(asset_index k Hk). destruct (a.[j]) as [| |p m l n|] eqn:Ha; try done. cbn.
  destruct (Z.eqb_spec l i) as [->|]; [|done]. destruct (lo_own _ _ Hok j _ _ _ _ Hj Ha) as [_ H']. congruence.
Qed.

(** Writing a new issuance record changes no holding. *)
Lemma issue_record a i p nm dec un :
  links_ok k a -> in_table k i -> a.[i] = EMPTY ->
  let a1 := a.[i := ISSUANCE p nm dec un] in
  used k a1 = used k a + 1 /\ (forall o, pos_sum k a1 o = pos_sum k a o) /\ (forall l, own_sum k a1 l = own_sum k a l) /\
  (forall q, held k a1 q = held k a q).
Proof.
  intros Hok Hi He a1. pose proof (lo_len _ _ Hok) as Hl. split; [|split; [|split]].
  - unfold a1. rewrite used_write, He by done. cbn. lia.
  - intros o. unfold a1. rewrite pos_sum_write, He by done. cbn. lia.
  - intros l. unfold a1. rewrite own_sum_write, He by done. cbn. lia.
  - intros q. unfold a1. rewrite held_write, He by (done || by left). cbn. lia.
Qed.

(** The three records of a new asset. *)
Lemma issue_ok a h j1 issuer nm dec un n m :
  let x := KIssuance (m256i_u64 issuer 0) (m256i_u64 issuer 1) (m256i_u64 issuer 2) nm in
  let i := nth_slot k h j1 in
  let a1 := a.[i := ISSUANCE issuer nm dec un] in
  h = asset_home k issuer -> universe_ok k a -> used k a + 2 < cap -> 0 <= n < 2 ^ 63 -> 0 <= j1 < cap ->
  (forall j', 0 <= j' < j1 -> a.[nth_slot k h j'] <> EMPTY) -> a.[i] = EMPTY ->
  (forall i, in_table k i -> key_of (a.[i]) <> Some x) ->
  exists o p,
    asset_probe k (fun idx => if is_empty (a1.[idx]) then Some idx else None) (Z.land (i + 1) (cap - 1)) = Some o /\
    let a2 := a1.[o := OWNERSHIP issuer m i n] in
    asset_probe k (fun idx => if is_empty (a2.[idx]) then Some idx else None) (Z.land (o + 1) (cap - 1)) = Some p /\
    let a3 := a2.[p := POSSESSION issuer m o n] in
    in_table k o /\ in_table k p /\ used k a3 <= used k a + 3 /\ universe_ok k a3 /\
    (forall q, held k a3 q = held k a q + (if decide (q = mkPosition i issuer m issuer m) then n else 0)) /\
    (forall l, own_sum k a3 l = own_sum k a l + (if decide (l = i) then n else 0)) /\
    (forall j, j <> i -> j <> o -> j <> p -> a3.[j] = a.[j]) /\
    a3.[i] = ISSUANCE issuer nm dec un /\ a3.[o] = OWNERSHIP issuer m i n /\ a3.[p] = POSSESSION issuer m o n.
Proof.
  intros x i a1 Hh Hok Hu Hn Hj1 Hbef He Habs. pose proof (uo_links _ _ Hok) as Hl. pose proof (lo_len _ _ Hl) as Hlen.
  assert (in_table k i) as Hi by apply nth_slot_in. assert (in_table k h) as Hhin by (subst h; apply land_in_table).
  assert (key_home k x = h) as Hxh by (unfold x, key_home; rewrite u32_word; by subst h).
  assert (links_ok k a1) as Hl1.
  { unfold a1, i. rewrite <- Hxh. apply links_ok_insert; rewrite ?Hxh; try done. }
  destruct (issue_record a i issuer nm dec un Hl Hi He) as (Hu1 & Hps1 & Hos1 & Hh1). fold a1 in Hu1, Hps1, Hos1, Hh1.
  assert (forall j, a1.[j] = if decide (j = i) then ISSUANCE issuer nm dec un else a.[j]) as Hg1 by (intros j; by apply (awrite k Hk)).
  assert (forall j', 0 <= j' < j1 + 1 -> a1.[nth_slot k h j'] <> EMPTY) as Hb1.
  { intros j' Hj'. rewrite Hg1. case_decide as Hd; [done|]. apply Hbef. assert (j' <> j1) by (intros ->; by apply Hd). lia. }
  destruct (empty_from a1 h (j1 + 1) Hhin ltac:(lia) Hb1 ltac:(lia)) as (j2 & Hj2 & Hp2 & He2 & Hb2).
  set (o := nth_slot k h j2) in *. exists o. assert (in_table k o) as Ho by apply nth_slot_in.
  set (a2 := a1.[o := OWNERSHIP issuer m i n]).
  assert (i <> o) as Hio by (intros E; rewrite <- E, Hg1, decide_True in He2; done).
  assert (a.[o] = EMPTY) as Heo by (rewrite Hg1, decide_False in He2 by congruence; done).
  assert (step_ok k a1 a2 o n) as Hs2.
  { pose proof (create_ok k Hk a1 j2 (OWNERSHIP issuer m i n) (KOwnership issuer m i)) as Hc.
    change (key_home k (KOwnership issuer m i)) with (asset_home k issuer) in Hc. rewrite <- Hh in Hc. fold o in Hc.
    apply Hc; try done; try lia; [|].
    - cbn. rewrite Hg1, decide_True by done. done.
    - intros j Hj. rewrite Hg1. case_decide; [done|]. destruct (a.[j]) as [| |p' m' l' n'|] eqn:Ea; try done.
      intros [= -> -> ->]. destruct (lo_own _ _ Hl j _ _ _ _ Hj Ea) as [_ H']. by rewrite He in H'. }
  assert (forall j, a2.[j] = if decide (j = o) then OWNERSHIP issuer m i n else a1.[j]) as Hg2
    by (intros j; apply (awrite k Hk); [apply Hl1|done]).
  assert (forall j', 0 <= j' < j2 + 1 -> a2.[nth_slot k h j'] <> EMPTY) as Hb2'.
  { intros j' Hj'. rewrite Hg2. case_decide as Hd; [done|]. apply Hb2. assert (j' <> j2) by (intros ->; by apply Hd). lia. }
  pose proof (st_used _ _ _ _ _ Hs2) as Hu2.
  destruct (empty_from a2 h (j2 + 1) Hhin ltac:(lia) Hb2' ltac:(lia)) as (j3 & Hj3 & Hp3 & He3 & Hb3).
  set (p := nth_slot k h j3) in *. exists p. assert (in_table k p) as Hp by apply nth_slot_in.
  set (a3 := a2.[p := POSSESSION issuer m o n]).
  assert (p <> o) as Hpo by (intros E; rewrite E, Hg2, decide_True in He3; done).
  assert (a1.[p] = EMPTY) as Hep1 by (rewrite Hg2, decide_False in He3; done).
  assert (p <> i) as Hpi by (intros E; rewrite E, Hg1, decide_True in Hep1; done).
  assert (step_ok k a2 a3 p n) as Hs3.
  { pose proof (create_ok k Hk a2 j3 (POSSESSION issuer m o n) (KPossession issuer m o)) as Hc.
    change (key_home k (KPossession issuer m o)) with (asset_home k issuer) in Hc. rewrite <- Hh in Hc. fold p in Hc.
    apply Hc; try done; try lia; [apply Hs2| |].
    - cbn. rewrite Hg2, decide_True by done. done.
    - intros j Hj. rewrite Hg2. case_decide; [done|]. rewrite Hg1. case_decide; [done|].
      destruct (a.[j]) as [| | |p' m' l' n'] eqn:Ea; try done.
      intros [= -> -> ->]. destruct (lo_pos _ _ Hl j _ _ _ _ Hj Ea) as [_ H']. by rewrite Heo in H'. }
  assert (forall j, a3.[j] = if decide (j = p) then POSSESSION issuer m o n else a2.[j]) as Hg3
    by (intros j; apply (awrite k Hk); [apply (lo_len k), Hs2|done]).
  split; [unfold i; by rewrite nth_slot_succ|]. split; [unfold o; by rewrite nth_slot_succ|].
  split; [done|]. split; [done|]. split; [pose proof (st_used _ _ _ _ _ Hs3); fold a3; lia|].
  assert (a3.[o] = OWNERSHIP issuer m i n) as Ho3 by (rewrite Hg3, decide_False, Hg2, decide_True; congruence).
  assert (a2.[o] = OWNERSHIP issuer m i n) as Ho2 by (rewrite Hg2, decide_True; done).
  assert (a3.[p] = POSSESSION issuer m o n) as Hp3' by (by rewrite Hg3, decide_True).
  assert (a3.[i] = ISSUANCE issuer nm dec un) as Hi3
    by (rewrite Hg3, decide_False, Hg2, decide_False, Hg1, decide_True; congruence).
  assert (forall j, j <> i -> j <> o -> j <> p -> a3.[j] = a.[j]) as Hoth
    by (intros j ? ? ?; by rewrite Hg3, decide_False, Hg2, decide_False, Hg1, decide_False).
  assert (forall l, own_sum k a3 l = own_sum k a l + (if decide (l = i) then n else 0)) as Hos3.
  { intros l. rewrite (st_own _ _ _ _ _ Hs3), (st_own _ _ _ _ _ Hs2), Hp3', Ho2, Hos1. cbn.
    destruct (Z.eqb_spec i l), (decide (l = i)); try congruence; lia. }
  split; [|split; [|split; [done|done]]].
  - split; fold a3.
    + apply Hs3.
    + intros j Hj. destruct (decide (j = i)) as [E|]; [by rewrite E, Hi3|]. destruct (decide (j = o)) as [->|]; [rewrite Ho3; apply Hn|].
      destruct (decide (j = p)) as [->|]; [rewrite Hp3'; apply Hn|]. rewrite Hoth by done. by apply (uo_nonneg _ _ Hok).
    + intros o' Ho' Hoo. rewrite (st_pos _ _ _ _ _ Hs3), (st_pos _ _ _ _ _ Hs2), Hp3', Ho2, Hps1. cbn.
      destruct (Z.eqb_spec o o') as [<-|Hne].
      * rewrite Ho3, pos_sum_unlinked by (done || by rewrite Heo). cbn. lia.
      * assert (o' <> i /\ o' <> p) as [? ?] by (split; intros ->; [rewrite Hi3 in Hoo|rewrite Hp3' in Hoo]; done).
        rewrite Hoth in * by done. rewrite (uo_split _ _ Hok o' Ho' Hoo). lia.
    + intros l Hll. rewrite Hos3. pose proof (uo_bound _ _ Hok l Hll). case_decide as El; [|lia]. subst l.
      rewrite own_sum_unlinked by (done || by rewrite He). lia.
  - intros q. rewrite (st_held _ _ _ _ _ Hs3), (st_held _ _ _ _ _ Hs2), Hp3', Ho2, Hh1. cbn [with_shares].
    rewrite (held_part_position a3 q issuer m o n issuer m i) by (by rewrite Ho3). cbn [held_part]. destruct (decide (q = _)); lia.
Qed.

(** The state after the three records were written. *)
Definition issued u issuer nm dec un n m (i o p : Z) : @Universe D :=
  add_log [AssetIssuance issuer n m nm dec un]
    (with_flags (flag_changes [i; o; p] (assetChangeFlags u))
       (with_assets ((((assets u).[i := ISSUANCE issuer nm dec un]).[o := OWNERSHIP issuer m i n]).[p := POSSESSION issuer m o n])
          (addPossession o p (addOwnership i o (addIssuance i (indexLists u)))) u)).

(** issueAsset either meets the same issuance or writes three records. *)
Lemma issueAsset_cases u issuer nm dec un n m :
  universe_ok k (assets u) -> used k (assets u) + 2 < cap -> 0 <= n < 2 ^ 63 ->
  exists i, in_table k i /\
  ((issueAsset k issuer nm dec un n m u = Some (u, 0, i, None) /\ same_issuance issuer nm ((assets u).[i]) = true) \/
   exists o p, issueAsset k issuer nm dec un n m u = Some (issued u issuer nm dec un n m i o p, n, i, Some (o, p)) /\
     let a := assets u in
     let a3 := assets (issued u issuer nm dec un n m i o p) in
     (forall j, in_table k j -> same_issuance issuer nm (a.[j]) = false) /\ a.[i] = EMPTY /\
     in_table k o /\ in_table k p /\ used k a3 <= used k a + 3 /\ universe_ok k a3 /\
     (forall q, held k a3 q = held k a q + (if decide (q = mkPosition i issuer m issuer m) then n else 0)) /\
     (forall l, own_sum k a3 l = own_sum k a l + (if decide (l = i) then n else 0)) /\
     (forall j, j <> i -> j <> o -> j <> p -> a3.[j] = a.[j]) /\
     a3.[i] = ISSUANCE issuer nm dec un /\ a3.[o] = OWNERSHIP issuer m i n /\ a3.[p] = POSSESSION issuer m o n).
Proof.
  intros Hok Hu Hn. set (a := assets u) in *. pose proof (uo_links _ _ Hok) as Hl. pose proof (asset_cap k Hk) as Hcap.
  set (x := KIssuance (m256i_u64 issuer 0) (m256i_u64 issuer 1) (m256i_u64 issuer 2) nm).
  assert (key_home k x = asset_home k issuer) as Hxh by (unfold x, key_home; by rewrite u32_word).
  destruct (asset_walk k Hk a x Hl ltac:(lia)) as (j & Hj & Hb & Hend). rewrite Hxh in *.
  set (i := nth_slot k (asset_home k issuer) j) in *. exists i. split; [apply nth_slot_in|]. unfold issueAsset. fold a.
  assert (asset_probe k (fun idx => if is_empty (a.[idx]) then Some (idx, true)
    else if same_issuance issuer nm (a.[idx]) then Some (idx, false) else None) (asset_home k issuer) =
    Some (i, is_empty (a.[i]))) as ->.
  { apply probe_intro with (j := j); [apply land_in_table|lia| |].
    - fold i. destruct Hend as [Hf|[-> _]]; [|done]. rewrite (proj2 (same_issuance_key _ _ _) Hf). by destruct (a.[i]).
    - intros j' Hj'. destruct (Hb j' Hj') as [H1 H2]. destruct (is_empty _) eqn:E1; [by apply is_empty_spec in E1|].
      destruct (same_issuance _ _ _) eqn:E2; [by apply same_issuance_key in E2|]. done. }
  destruct Hend as [Hf|[He Habs]].
  - left. assert (is_empty (a.[i]) = false) as -> by (by destruct (a.[i])). split; [done|]. by apply same_issuance_key.
  - right. rewrite He. cbn [is_empty].
    destruct (issue_ok a (asset_home k issuer) j issuer nm dec un n m eq_refl Hok Hu Hn Hj) as
      (o & p & Hp1 & Hp2 & Hrest); [intros j' Hj'; by apply Hb|done|done|].
    fold i in Hp1, Hp2, Hrest. exists o, p. rewrite Hp1, Hp2. split; [done|].
    split; [|split; [done|exact Hrest]]. intros j' Hj'. destruct (same_issuance issuer nm (a.[j'])) eqn:E; [|done].
    apply same_issuance_key in E. by apply Habs in E.
Qed.

(** C6: issueAsset terminates while three slots are free.  It refuses, without any change and
    returning 0, exactly when an issuance of that name whose issuer agrees in the low 192 bits
    exists; otherwise it returns the number of shares, writes the issuance, ownership and
    possession records into free slots, gives the shares to the issuer, changes no other
    record or holding, and keeps the universe well formed. *)
Theorem issueAsset_issues u issuer nm dec un n m :
  universe_ok k (assets u) -> used k (assets u) + 2 < cap -> 0 <= n < 2 ^ 63 ->
  let a := assets u in
  exists u' ret i d, issueAsset k issuer nm dec un n m u = Some (u', ret, i, d) /\
    universe_ok k (assets u') /\ in_table k i /\
    match d with
    | None => u' = u /\ ret = 0 /\ same_issuance issuer nm (a.[i]) = true
    | Some (o, p) =>
        ret = n /\ (forall j, in_table k j -> same_issuance issuer nm (a.[j]) = false) /\
        (assets u').[i] = ISSUANCE issuer nm dec un /\ (assets u').[o] = OWNERSHIP issuer m i n /\
        (assets u').[p] = POSSESSION issuer m o n /\
        a.[i] = EMPTY /\ (forall j, j <> i -> j <> o -> j <> p -> (assets u').[j] = a.[j]) /\
        (forall q, held k (assets u') q = held k a q + (if decide (q = mkPosition i issuer m issuer m) then n else 0)) /\
        (forall l, own_sum k (assets u') l = own_sum k a l + (if decide (l = i) then n else 0))
    end.
Proof.
  intros Hok Hu Hn a. destruct (issueAsset_cases u issuer nm dec un n m Hok Hu Hn) as (i & Hi & [[He Hs]|(o & p & He & Hr)]).
  - exists u, 0, i, None. by repeat (split; [done|]).
  - destruct Hr as (Habs & H0 & _ & _ & _ & Hok' & Hh & Hos & Hoth & Hi3 & Ho3 & Hp3).
    eexists _, n, i, (Some (o, p)). split; [exact He|]. by repeat (split; [done|]).
Qed.

Lemma empty_universe_ok : universe_ok k (replicate capn EMPTY).
Proof.
  pose proof (asset_cap k Hk) as Hc.
  assert (forall i, in_table k i -> (replicate capn EMPTY).[i] = EMPTY) as Hr.
  { intros i Hi%(asset_index k Hk). by apply aget_replicate. }
  split; [split| | |].
  - rewrite alen_replicate. lia.
  - apply table_ok_empty. intros i Hi. apply aview_empty. by apply Hr.
  - intros j p m i n Hj. by rewrite Hr.
  - intros j p m i n Hj. by rewrite Hr.
  - intros j Hj. by rewrite Hr.
  - intros o Ho. by rewrite Hr.
  - intros i _. unfold own_sum. rewrite sumZ_zero; [lia|]. intros j Hj%(asset_index k Hk). by rewrite Hr.
Qed.
End State.

(** ** A concrete universe: 8 slots, one asset of 100 shares issued by key 6 *)
Definition ex_assets : list AssetRecord :=
  [POSSESSION 6 1 7 100; EMPTY; EMPTY; EMPTY; EMPTY; EMPTY; ISSUANCE 6 77 0 0; OWNERSHIP 6 1 6 100].
Definition ex_universe : @Universe Z :=
  mkUniverse ex_assets (replicate 15 0) [0] (mkLists NO_ASSET_INDEX (replicate 8 NO_ASSET_INDEX) (replicate 8 NO_ASSET_INDEX)) [].

Lemma ex_assets_ok : universe_ok 3 ex_assets.
Proof.
  destruct (issue_ok 3 ltac:(lia) (replicate 8 EMPTY) 6 0 6 77 0 0 100 1) as (o & p & H1 & H2 & _ & _ & _ & H3 & _).
  - vm_compute. reflexivity.
  - apply (empty_universe_ok 3). lia.
  - vm_compute. reflexivity.
  - lia.
  - lia.
  - intros j' Hj'. lia.
  - vm_compute. reflexivity.
  - intros i Hi. rewrite aget_replicate; [done|]. exact Hi.
  - vm_compute in H1. injection H1 as <-. vm_compute in H2. injection H2 as <-. exact H3.
Qed.

Lemma numberOfPossessedShares_held_witness :
  exists v, numberOfPossessedShares 3 77 6 6 6 1 1 ex_universe = Some v /\ v = held 3 ex_assets (mkPosition 6 6 1 6 1).
Proof.
  destruct (numberOfPossessedShares_held 3 ltac:(lia) ex_universe 77 6 6 6 1 1 ex_assets_ok) as (v & H1 & H2 & _).
  - vm_compute. reflexivity.
  - exists v. split; [exact H1|]. apply (H2 6); [unfold in_table; lia|reflexivity].
Defined.

Lemma transferShareOwnershipAndPossession_moves_witness :
  exists u' d, transferShareOwnershipAndPossession 3 7 0 9 30 ex_universe = Some (u', true, d) /\ universe_ok 3 (assets u').
Proof.
  destruct (transferShareOwnershipAndPossession_moves 3 ltac:(lia) ex_universe 7 0 9 30 ex_assets_ok) as (u' & ok & d & H1 & H2 & H3 & _).
  - unfold in_table. lia.
  - unfold in_table. lia.
  - vm_compute. reflexivity.
  - vm_compute in H3. subst ok. exists u', d. split; [exact H1|exact H2].
Defined.

Lemma transferShareManagementRights_moves_witness :
  exists u' d, transferShareManagementRights 3 7 0 2 2 30 ex_universe = Some (u', true, d) /\ universe_ok 3 (assets u').
Proof.
  destruct (transferShareManagementRights_moves 3 ltac:(lia) ex_universe 7 0 2 2 30 ex_assets_ok) as (u' & ok & d & H1 & H2 & H3 & _).
  - unfold in_table. lia.
  - unfold in_table. lia.
  - vm_compute. reflexivity.
  - vm_compute in H3. subst ok. exists u', d. split; [exact H1|exact H2].
Defined.

Lemma issueAsset_issues_witness :
  exists u' ret i d, issueAsset 3 6 78 0 0 50 1 ex_universe = Some (u', ret, i, d) /\ universe_ok 3 (assets u').
Proof.
  destruct (issueAsset_issues 3 ltac:(lia) ex_universe 6 78 0 0 50 1 ex_assets_ok) as (u' & ret & i & d & H1 & H2 & _).
  - vm_compute. reflexivity.
  - lia.
  - exists u', ret, i, d. split; [exact H1|exact H2].
Defined.
