(* ===== verification/AssetEpoch.v ===== *)
(** * The universe at the end of an epoch

    assetsEndEpoch rebuilds the universe from the possessions that still have shares.  The new table is well formed, and every position keeps its
    shares, although the records move to other slots. *)
From S2P Require Import Prelude OpenAddressing OccupationFlags Containers Merkle Spectrum Assets AssetLedger.

(** ** Sums *)
Lemma sumZ_exchange (f : Z -> Z -> Z) n m : sumZ (fun i => sumZ (f i) m) n = sumZ (fun j => sumZ (fun i => f i j) n) m.
Proof.
  induction n as [|n IH]; cbn [sumZ]; [symmetry; by apply sumZ_zero|]. rewrite IH. by rewrite sumZ_add.
Qed.

Lemma sumZ_point f n i : 0 <= i < Z.of_nat n -> (forall j, 0 <= j < Z.of_nat n -> j <> i -> f j = 0) -> sumZ f n = f i.
Proof. intros Hi Hf. rewrite (sumZ_update (fun _ => 0) f n i Hi Hf), sumZ_zero by done. lia. Qed.

Lemma countZ_filter P n : countZ P n = alen (filter (fun i => P i = true) (seqZ 0 (Z.of_nat n))).
Proof.
  induction n as [|n IH]; [done|]. unfold countZ in *. cbn [sumZ]. rewrite IH. replace (Z.of_nat (S n)) with (Z.of_nat n + 1) by lia. rewrite seqZ_app by lia. rewrite filter_app, alen_app.
  cbn [seqZ]. rewrite Z.add_0_l. change (seqZ (Z.of_nat n) 1) with [0 + Z.of_nat n]. rewrite Z.add_0_l, filter_cons, filter_nil. destruct (P (Z.of_nat n)); by rewrite ?decide_True, ?decide_False by done.
Qed.

(** An injective relation bounds a count. *)
Lemma countZ_inject (P Q : Z -> bool) (R : Z -> Z -> Prop) n :
  (forall i, 0 <= i < Z.of_nat n -> P i = true -> exists j, 0 <= j < Z.of_nat n /\ Q j = true /\ R i j) ->
  (forall i i' j, 0 <= i < Z.of_nat n -> 0 <= i' < Z.of_nat n -> R i j -> R i' j -> i = i') -> countZ P n <= countZ Q n.
Proof.
  intros Htot Hinj. rewrite !countZ_filter. set (lp := filter (fun i => P i = true) _). set (lq := filter (fun i => Q i = true) _).
  assert (forall l, l ⊆ lp -> NoDup l -> exists l', Forall2 R l l' /\ l' ⊆ lq /\ NoDup l') as Hl.
  { induction l as [|i l IH]; intros Hsub Hnd; [exists []; split; [constructor|]; split; [set_solver|constructor]|]. apply NoDup_cons in Hnd as [Hi Hnd].
    destruct IH as (l' & HR & Hs & Hn); [set_solver|done|]. assert (i ∈ lp) as Hip by set_solver. apply list_elem_of_filter in Hip as [HP Hr%elem_of_seqZ].
    destruct (Htot i ltac:(lia) HP) as (j & Hj & HQ & HRij). exists (j :: l'). split; [by constructor|]. split.
    - intros x [->|Hx]%elem_of_cons; [apply list_elem_of_filter; split; [done|apply elem_of_seqZ; lia]|by apply Hs].
    - constructor; [|done]. intros Hin. apply list_elem_of_lookup in Hin as [n' Hn']. destruct (Forall2_lookup_r _ _ _ _ _ HR Hn') as (i' & Hi' & HRi').
      apply Hi. apply list_elem_of_lookup_2 in Hi' as Hin'. assert (i' ∈ lp) as Hip' by set_solver. apply list_elem_of_filter in Hip' as [_ Hr'%elem_of_seqZ].
      assert (i = i') as -> by (apply (Hinj i i' j); [lia|lia|done|done]). done. }
  destruct (Hl lp) as (l' & HR & Hs & Hn); [done|apply NoDup_filter, NoDup_seqZ|]. unfold alen. apply Forall2_length in HR. rewrite HR. apply inj_le, submseteq_length, NoDup_submseteq; done.
Qed.

Section reorg.
Variable k : nat.
Hypothesis Hk : (2 <= k <= 31)%nat.
Abbreviation cap := (2 ^ Z.of_nat k).
Abbreviation capn := (Z.to_nat cap).
Implicit Types b : list AssetRecord.
Variable a : list AssetRecord.
Hypothesis Ha : universe_ok k a.
Hypothesis Hu : used k a < cap.

(** ** Records of the new table and the old records they stand for *)
Definition iss_im b (j i : Z) : Prop := is_issuance (b.[j]) = true /\ b.[j] = a.[i].
Definition own_im b (j i : Z) : Prop := exists p m l l' n n', b.[j] = OWNERSHIP p m l n /\ a.[i] = OWNERSHIP p m l' n' /\ iss_im b l l'.
Definition pos_im b (j i : Z) : Prop := exists p m o o' n n', b.[j] = POSSESSION p m o n /\ a.[i] = POSSESSION p m o' n' /\ own_im b o o'.
Definition image b (j i : Z) : Prop := iss_im b j i \/ own_im b j i \/ pos_im b j i.
Definition covered b : Prop := forall j, in_table k j -> b.[j] <> EMPTY -> exists i, in_table k i /\ image b j i.

Lemma record_slot_unique b j j' : links_ok k b -> in_table k j -> in_table k j' -> b.[j] <> EMPTY -> key_of (b.[j]) = key_of (b.[j']) -> j = j'.
Proof.
  intros Hb Hj Hj' Hne E. destruct (key_of (b.[j])) as [x|] eqn:Ex; [|by destruct (b.[j])].
  apply (tab_unique _ _ _ (lo_tab _ _ Hb) j j' x); [done|done|..]; by apply (aview_full k Hk).
Qed.

Lemma iss_im_inj b j j' i : links_ok k b -> in_table k j -> in_table k j' -> iss_im b j i -> iss_im b j' i -> j = j'.
Proof. intros Hb Hj Hj' [H1 E1] [H2 E2]. apply (record_slot_unique b); [done|done|done|by intros E; rewrite E in H1|congruence]. Qed.
Lemma own_im_inj b j j' i : links_ok k b -> in_table k j -> in_table k j' -> own_im b j i -> own_im b j' i -> j = j'.
Proof.
  intros Hb Hj Hj' (p & m & l & l' & n & n' & E1 & E2 & Hi) (q & m2 & l2 & l2' & n2 & n2' & F1 & F2 & Hi2). rewrite E2 in F2. injection F2 as <- <- <- <-.
  destruct (lo_own _ _ Hb j _ _ _ _ Hj E1) as [Hl _]. destruct (lo_own _ _ Hb j' _ _ _ _ Hj' F1) as [Hl2 _].
  assert (l = l2) as <- by (by apply (iss_im_inj b l l2 l')). apply (record_slot_unique b); [done|done|done|by rewrite E1|by rewrite E1, F1].
Qed.
Lemma image_inj b j j' i : links_ok k b -> in_table k j -> in_table k j' -> image b j i -> image b j' i -> j = j'.
Proof.
  intros Hb Hj Hj' [Hi|[Hi|Hi]] [Hi'|[Hi'|Hi']].
  - by apply (iss_im_inj b j j' i).
  - destruct Hi as [H1 E], Hi' as (? & ? & ? & ? & ? & ? & _ & F & _). rewrite E, F in H1. done.
  - destruct Hi as [H1 E], Hi' as (? & ? & ? & ? & ? & ? & _ & F & _). rewrite E, F in H1. done.
  - destruct Hi' as [H1 E], Hi as (? & ? & ? & ? & ? & ? & _ & F & _). rewrite E, F in H1. done.
  - by apply (own_im_inj b j j' i).
  - destruct Hi as (? & ? & ? & ? & ? & ? & _ & E & _), Hi' as (? & ? & ? & ? & ? & ? & _ & F & _). congruence.
  - destruct Hi' as [H1 E], Hi as (? & ? & ? & ? & ? & ? & _ & F & _). rewrite E, F in H1. done.
  - destruct Hi as (? & ? & ? & ? & ? & ? & _ & E & _), Hi' as (? & ? & ? & ? & ? & ? & _ & F & _). congruence.
  - destruct Hi as (p & m & o & o' & n & n' & E1 & E2 & Ho), Hi' as (q & m2 & o2 & o2' & n2 & n2' & F1 & F2 & Ho2). rewrite E2 in F2. injection F2 as <- <- <- <-.
    destruct (lo_pos _ _ Hb j _ _ _ _ Hj E1) as [Hl _]. destruct (lo_pos _ _ Hb j' _ _ _ _ Hj' F1) as [Hl2 _].
    assert (o = o2) as <- by (by apply (own_im_inj b o o2 o')). apply (record_slot_unique b); [done|done|done|by rewrite E1|by rewrite E1, F1].
Qed.

(** The new table has at most as many records. *)
Lemma covered_used b : links_ok k b -> covered b -> used k b <= used k a.
Proof.
  intros Hb Hc. apply (countZ_inject _ _ (image b)).
  - intros j Hj%(asset_index k Hk) Hne. destruct (Hc j Hj) as (i & Hi & Him); [intros E; by rewrite E in Hne|]. exists i. split; [by apply (asset_index k Hk)|]. split; [|done].
    destruct Him as [[H1 <-]|[(? & ? & ? & ? & ? & ? & _ & -> & _)|(? & ? & ? & ? & ? & ? & _ & -> & _)]]; [by destruct (b.[j])|done|done].
  - intros j j' i Hj%(asset_index k Hk) Hj'%(asset_index k Hk). by apply image_inj.
Qed.

Lemma image_keep b b' j i : links_ok k b -> (forall j, in_table k j -> b.[j] <> EMPTY -> skeleton (b'.[j]) = skeleton (b.[j])) -> in_table k j -> image b j i -> image b' j i.
Proof.
  intros Hb Hs Hj.
  assert (forall j i, in_table k j -> iss_im b j i -> iss_im b' j i) as H1.
  { intros j1 i1 Hj1 [H E]. unfold iss_im. specialize (Hs j1 Hj1). destruct (b.[j1]); try done. specialize (Hs ltac:(done)). destruct (b'.[j1]); try done. cbn in Hs. by rewrite <- E, Hs. }
  assert (forall j i, in_table k j -> own_im b j i -> own_im b' j i) as H2.
  { intros j1 i1 Hj1 (p & m & l & l' & n & n' & E1 & E2 & Hi). destruct (lo_own _ _ Hb j1 _ _ _ _ Hj1 E1) as [Hl _]. specialize (Hs j1 Hj1). rewrite E1 in Hs. specialize (Hs ltac:(done)).
    destruct (b'.[j1]) as [| |p1 m1 l1 n1|] eqn:E'; try done. injection Hs as -> -> ->. exists p, m, l, l', n1, n'. split; [done|]. split; [done|]. by apply H1. }
  intros [Hi|[Hi|Hi]]; [left; by apply H1|right; left; by apply H2|right; right].
  destruct Hi as (p & m & o & o' & n & n' & E1 & E2 & Hi). destruct (lo_pos _ _ Hb j _ _ _ _ Hj E1) as [Ho _]. specialize (Hs j Hj). rewrite E1 in Hs. specialize (Hs ltac:(done)).
  destruct (b'.[j]) as [| | |p1 m1 l1 n1] eqn:E'; try done. injection Hs as -> -> ->. exists p, m, o, o', n1, n'. split; [done|]. split; [done|]. by apply H2.
Qed.
Lemma covered_step b b' i d : links_ok k b -> covered b -> step_ok k b b' i d -> in_table k i -> (exists i', in_table k i' /\ image b' i i') -> covered b'.
Proof.
  intros Hb Hc Hs Hi Him j Hj Hne. destruct (decide (j = i)) as [->|Hji]; [done|]. rewrite (st_other _ _ _ _ _ Hs j Hji) in Hne. destruct (Hc j Hj Hne) as (i' & Hi' & Him').
  exists i'. split; [done|]. apply (image_keep b b'); [done|apply Hs|done|done].
Qed.

(** ** The shares of the slots that have been processed *)
Definition iss_part (l : Z) (r : AssetRecord) : Z :=
  match r with POSSESSION _ _ o n => match a.[o] with OWNERSHIP _ _ l' _ => if l' =? l then n else 0 | _ => 0 end | _ => 0 end.
Definition done_held (q : position) (i : nat) : Z := sumZ (fun j => held_part a q (a.[j])) i.
Definition done_own (l : Z) (i : nat) : Z := sumZ (fun j => iss_part l (a.[j])) i.

Lemma iss_part_nonneg l j : in_table k j -> 0 <= iss_part l (a.[j]).
Proof. intros Hj. pose proof (uo_nonneg _ _ Ha j Hj) as Hn. destruct (a.[j]) as [| | |p m o n]; try done. cbn in *. destruct (a.[o]); try done. by destruct (_ =? _). Qed.

(** The possessions of selected ownerships add up to the ownerships. *)
Lemma possessions_by_owner (Q : AssetRecord -> bool) : (forall r, Q r = true -> is_ownership r = true) ->
  sumZ (fun j => match a.[j] with POSSESSION _ _ o n => if Q (a.[o]) then n else 0 | _ => 0 end) capn = sumZ (fun o => if Q (a.[o]) then rec_shares (a.[o]) else 0) capn.
Proof.
  intros HQ. rewrite (sumZ_ext _ (fun j => sumZ (fun o => if Q (a.[o]) then pos_part o (a.[j]) else 0) capn)).
  - rewrite sumZ_exchange. apply sumZ_ext. intros o Ho%(asset_index k Hk). destruct (Q (a.[o])) eqn:HQo; [|by rewrite sumZ_zero]. fold (pos_sum k a o). apply (uo_split _ _ Ha o Ho). by apply HQ.
  - intros j Hj%(asset_index k Hk). destruct (a.[j]) as [| | |p m o n] eqn:E; try (symmetry; apply sumZ_zero; intros; by destruct (Q _)). destruct (lo_pos _ _ (uo_links _ _ Ha) j _ _ _ _ Hj E) as [Ho _].
    rewrite (sumZ_point _ _ o); [cbn [pos_part]; by rewrite Z.eqb_refl|by apply (asset_index k Hk)|]. intros o' _ Hne. cbn [pos_part]. rewrite (proj2 (Z.eqb_neq o o')) by done. by destruct (Q _).
Qed.

Lemma own_by_possessions l : done_own l capn = own_sum k a l.
Proof.
  pose proof (possessions_by_owner (fun r => match r with OWNERSHIP _ _ l' _ => l' =? l | _ => false end)) as Hs. unfold done_own, own_sum. etransitivity; [|etransitivity; [apply Hs; by intros []|]];
    apply sumZ_ext; intros j _; [unfold iss_part; destruct (a.[j]) as [| | |p m o n]; try done|]; [by destruct (a.[o])|by destruct (a.[j])].
Qed.

Lemma done_own_bound l i : in_table k l -> (i <= capn)%nat -> done_own l i < 2 ^ 63.
Proof.
  intros Hl Hi. pose proof (uo_bound _ _ Ha l Hl) as Hb. rewrite <- own_by_possessions in Hb. eapply Z.le_lt_trans; [|exact Hb]. apply sumZ_prefix; [done|].
  intros j Hj%(asset_index k Hk). by apply iss_part_nonneg.
Qed.

(** ** The invariant of the loop *)
Record reorg_inv b (i : nat) : Prop := {
  ri_links : links_ok k b;
  ri_covered : covered b;
  ri_nonneg : nonneg k b;
  ri_pos : forall j p m o n, in_table k j -> b.[j] = POSSESSION p m o n -> 0 < n;
  ri_split : forall o, in_table k o -> is_ownership (b.[o]) = true -> pos_sum k b o = rec_shares (b.[o]);
  ri_own : forall l l', in_table k l -> in_table k l' -> iss_im b l l' -> own_sum k b l = done_own l' i;
  ri_held : forall l l' ow om po pm, in_table k l -> in_table k l' -> iss_im b l l' -> held k b (mkPosition l ow om po pm) = done_held (mkPosition l' ow om po pm) i;
  ri_absent : forall l', in_table k l' -> is_issuance (a.[l']) = true -> (forall l, in_table k l -> ~ iss_im b l l') ->
    done_own l' i = 0 /\ forall ow om po pm, done_held (mkPosition l' ow om po pm) i = 0 }.

Lemma old_issuance_unique l l' : in_table k l -> in_table k l' -> is_issuance (a.[l]) = true -> a.[l] = a.[l'] -> l = l'.
Proof. intros Hl Hl' Hi E. apply (record_slot_unique a); [apply Ha|done|done|by intros E'; rewrite E' in Hi|by rewrite E]. Qed.

Lemma iss_im_old b l l' l2 : in_table k l' -> in_table k l2 -> iss_im b l l' -> iss_im b l l2 -> l' = l2.
Proof. intros Hl' Hl2 [H1 E1] [H2 E2]. apply old_issuance_unique; [done|done|by rewrite <- E1|congruence]. Qed.

(** The records of a possession with shares *)
Lemma old_records i p m o n : in_table k i -> a.[i] = POSSESSION p m o n -> exists po mo l no pi nm dec un,
  in_table k o /\ in_table k l /\ a.[o] = OWNERSHIP po mo l no /\ a.[l] = ISSUANCE pi nm dec un.
Proof.
  intros Hi E. pose proof (uo_links _ _ Ha) as Hl. destruct (lo_pos _ _ Hl i _ _ _ _ Hi E) as [Ho Ho1]. destruct (a.[o]) as [| |po mo l no|] eqn:Eo; try done.
  destruct (lo_own _ _ Hl o _ _ _ _ Ho Eo) as [Hl1 Hl2]. destruct (a.[l]) as [|pi nm dec un| |] eqn:El; try done. by exists po, mo, l, no, pi, nm, dec, un.
Qed.

(** [b1] has no other new record than the one of slot [l'], and no more owned shares. *)
Definition grown b b1 (l' : Z) : Prop := (forall j, j <> l' -> b1.[j] = b.[j]) /\ (forall j, own_sum k b1 j = own_sum k b j).
(** Every issuance has shares, and every ownership. *)
Definition backed b : Prop := forall j, in_table k j ->
  match b.[j] with ISSUANCE _ _ _ _ => 0 < own_sum k b j | OWNERSHIP _ _ _ n => 0 < n | _ => True end.

(** Finding or copying the issuance *)
Lemma reorg_issuance b i l pi nm dec un : reorg_inv b i -> in_table k l -> a.[l] = ISSUANCE pi nm dec un ->
  exists l', asset_probe k (empty_or (match_issuance pi nm) b) (asset_home k pi) = Some l' /\ in_table k l' /\
    let b1 := if is_empty (b.[l']) then b.[l' := a.[l]] else b in reorg_inv b1 i /\ iss_im b1 l' l /\ grown b b1 l'.
Proof.
  intros [H1 H2 H3 H4 H5 H6 H7 H8] Hl El. pose proof (covered_used b H1 H2) as Hub. set (x := KIssuance (m256i_u64 pi 0) (m256i_u64 pi 1) (m256i_u64 pi 2) nm).
  assert (forall j, in_table k j -> key_of (b.[j]) = Some x -> b.[j] = a.[l]) as Hsame.
  { intros j Hj E. destruct (H2 j Hj) as (i' & Hi' & [[_ E']|[(? & ? & ? & ? & ? & ? & E' & _)|(? & ? & ? & ? & ? & ? & E' & _)]]); [by intros E'; rewrite E' in E| |by rewrite E' in E..].
    rewrite E' in E |- *. assert (i' = l) as ->; [|done]. apply (record_slot_unique a); [apply Ha|done|done|by intros E2; rewrite E2 in E|by rewrite El, E]. }
  destruct (empty_or_ok k Hk b x (match_issuance pi nm)) as (j & Hp & Hj & Hend); [|done|lia|].
  { intros j Hj. split; [|intros E%Hsame; [|done]; rewrite E, El; cbn; by rewrite !Z.eqb_refl]. destruct (b.[j]); try done. cbn. by intros [->%Z.eqb_eq ->%Z.eqb_eq]%andb_true_iff. }
  assert (key_home k x = asset_home k pi) as Hh by (rewrite (home_of_record k (a.[l]) x); by rewrite El). rewrite Hh in *.
  set (l' := nth_slot k (asset_home k pi) j) in *. assert (in_table k l') as Hl' by apply nth_slot_in. exists l'. split; [done|]. split; [done|]. cbv zeta.
  destruct Hend as [E|(E & Habs & Hbef)].
  { assert (is_empty (b.[l']) = false) as -> by (by destruct (b.[l'])). split; [done|]. specialize (Hsame l' Hl' E). split; [split; [by rewrite Hsame, El|done]|by split]. }
  rewrite E. cbn [is_empty]. set (b1 := b.[l' := a.[l]]). pose proof (lo_len _ _ H1) as Hlen. assert (forall j, b1.[j] = if decide (j = l') then a.[l] else b.[j]) as Hb1 by (intros; by apply (awrite k)).
  assert (links_ok k b1) as Hl1.
  { unfold b1, l'. rewrite <- Hh. apply (links_ok_insert k Hk b j (a.[l]) x); rewrite ?Hh; try done; rewrite El; done. }
  pose proof (issue_record k Hk b l' pi nm dec un H1 Hl' E) as Hrec. rewrite <- El in Hrec. fold b1 in Hrec. destruct Hrec as (_ & Rp & Ro & Rh).
  assert (iss_im b1 l' l) as Him by (split; rewrite Hb1, decide_True by done; [by rewrite El|done]). split; [|split; [done|split; [|apply Ro]]].
  2: { intros j' Hne. by rewrite Hb1, decide_False. }
  assert (forall j i', in_table k j -> j <> l' -> iss_im b1 j i' -> iss_im b j i') as Hold by (intros j' i' _ Hne [G1 G2]; unfold iss_im; by rewrite Hb1, decide_False in G1, G2 by done).
  assert (done_own l i = 0 /\ forall ow om po pm, done_held (mkPosition l ow om po pm) i = 0) as [A1 A2].
  { apply H8; [done|by rewrite El|]. intros j' Hj' [_ G2]. apply (Habs j' Hj'). by rewrite G2, El. }
  split; [done| | | | | | |].
  - intros j' Hj' Hne. destruct (decide (j' = l')) as [->|Hn]; [exists l; split; [done|by left]|]. rewrite Hb1, decide_False in Hne by done. destruct (H2 j' Hj' Hne) as (i' & Hi' & Hi2).
    exists i'. split; [done|]. apply (image_keep b b1); [done| |done|done]. intros j2 _ Hne2. rewrite Hb1. case_decide; [congruence|done].
  - intros j' Hj'. rewrite Hb1. case_decide; [by rewrite El|by apply H3].
  - intros j' p m o n Hj'. rewrite Hb1. case_decide; [by rewrite El|by apply H4].
  - intros o Ho. rewrite Rp, Hb1. case_decide; [by rewrite El|by apply H5].
  - intros l1 l2 Hl1' Hl2 Hi'. rewrite Ro. destruct (decide (l1 = l')) as [->|Hn]; [|apply H6; [done|done|by apply Hold]].
    assert (l2 = l) as -> by (by apply (iss_im_old b1 l')). rewrite A1. apply (own_sum_unlinked k Hk); [done|by rewrite E].
  - intros l1 l2 ow om po pm Hl1' Hl2 Hi'. rewrite Rh. destruct (decide (l1 = l')) as [->|Hn]; [|apply H7; [done|done|by apply Hold]].
    assert (l2 = l) as -> by (by apply (iss_im_old b1 l')). rewrite A2. apply (held_absent k Hk). intros j' p m o n Hj' Ej Ek _ _. cbn in Ek.
    destruct (lo_pos _ _ H1 j' _ _ _ _ Hj' Ej) as [Ho _]. destruct (b.[o]) as [| |p2 m2 i2 n2|] eqn:Eo; try done. injection Ek as -> -> ->.
    destruct (lo_own _ _ H1 o _ _ _ _ Ho Eo) as [_ G]. by rewrite E in G.
  - intros l2 Hl2 Hi2 Hno. apply H8; [done|done|]. intros j' Hj' Hi'. apply (Hno j' Hj'). destruct Hi' as [G1 G2]. unfold iss_im. rewrite Hb1, decide_False; [done|]. intros ->. by rewrite E in G1.
Qed.

(** The shares of the ownership *)
Lemma reorg_ownership b i l l' po mo o no n : reorg_inv b i -> in_table k l -> in_table k l' -> iss_im b l' l -> in_table k o -> a.[o] = OWNERSHIP po mo l no -> 0 < n -> done_own l i + n < 2 ^ 63 ->
  exists o', asset_probe k (empty_or (match_ownership po mo l') b) (asset_home k po) = Some o' /\ in_table k o' /\ rec_shares (b.[o']) + n < 2 ^ 63 /\
    (b.[o'] = EMPTY \/ key_of (b.[o']) = Some (KOwnership po mo l')) /\
    let b2 := reorg_add o' (OWNERSHIP po mo l' 0) n b in step_ok k b b2 o' n /\ key_of (b2.[o']) = Some (KOwnership po mo l') /\ covered b2 /\ own_im b2 o' o.
Proof.
  intros [H1 H2 H3 H4 H5 H6 H7 H8] Hl Hl' Him Ho Eo Hn Hb. pose proof (covered_used b H1 H2) as Hub. pose proof Him as [Hi1 Hi2].
  destruct (deposit_ok k Hk b (KOwnership po mo l') (OWNERSHIP po mo l' 0) (match_ownership po mo l')) as (o' & Hp & Ho' & Hcase & Hdep); [apply match_ownership_key|done|lia|done|done|done|done|].
  exists o'. split; [done|]. split; [done|]. assert (0 <= rec_shares (b.[o'])) as Hnn by (by apply H3). assert (rec_shares (b.[o']) + n < 2 ^ 63) as Hlt.
  { destruct Hcase as [E|E]; [rewrite E; cbn; pose proof (sumZ_nonneg (fun j => iss_part l (a.[j])) i) as Hnonneg; fold (done_own l i) in Hnonneg|].
    - assert (0 <= done_own l i); [|lia]. rewrite <- (H6 l' l Hl' Hl Him). apply sumZ_nonneg. intros j Hj%(asset_index k Hk). specialize (H3 j Hj). destruct (b.[j]); try done. cbn in *. by destruct (_ =? _).
    - destruct (b.[o']) as [| |p1 m1 l1 n1|] eqn:E'; try done. injection E as -> -> ->. pose proof (own_part_le k Hk b o' H3 Ho' ltac:(by rewrite E')) as Hle. rewrite E' in Hle. cbn in Hle.
      rewrite (H6 l' l Hl' Hl Him) in Hle. cbn. lia. }
  split; [done|]. split; [done|]. cbv zeta. destruct (Hdep n ltac:(lia) Hnn Hlt) as [Hs Hkey]. change (deposit o' (OWNERSHIP po mo l' 0) n b) with (reorg_add o' (OWNERSHIP po mo l' 0) n b) in *.
  set (b2 := reorg_add _ _ _ _) in *. assert (own_im b2 o' o) as Hown.
  { destruct (b2.[o']) as [| |p1 m1 l1 n1|] eqn:E'; try done. injection Hkey as -> -> ->. exists po, mo, l', l, n1, no. split; [done|]. split; [done|].
    destruct (image_keep b b2 l' l H1 (st_keep _ _ _ _ _ Hs) Hl' (or_introl Him)) as [G|[G|G]]; [done|..]; destruct G as (? & ? & ? & ? & ? & ? & _ & G & _); rewrite Hi2, G in Hi1; done. }
  split; [done|]. split; [done|]. split; [|done]. apply (covered_step b b2 o' n H1 H2 Hs Ho'). exists o. split; [done|]. right. by left.
Qed.

Lemma done_step q l i p m o n po mo l0 no : in_table k (Z.of_nat i) -> a.[Z.of_nat i] = POSSESSION p m o n -> a.[o] = OWNERSHIP po mo l0 no ->
  done_held q (S i) = done_held q i + (if decide (q = mkPosition l0 po mo p m) then n else 0) /\ done_own l (S i) = done_own l i + (if decide (l = l0) then n else 0).
Proof.
  intros Hi Ei Eo. unfold done_held, done_own. cbn [sumZ]. rewrite Ei. rewrite (held_part_position a q p m o n po mo l0) by (by rewrite Eo). split; [done|]. cbn [iss_part]. rewrite Eo.
  destruct (Z.eqb_spec l0 l); case_decide; congruence.
Qed.

(** [b3] is [b] with [n] shares more at the position of issuance [l'], in its ownership at [o'] and its possession at [p']. *)
Record placed b b3 (l' o' p' po mo p m n : Z) : Prop := {
  pl_links : links_ok k b3;
  pl_nonneg : nonneg k b3;
  pl_other : forall j, j <> p' -> j <> o' -> b3.[j] = b.[j];
  pl_ownership : b3.[o'] = OWNERSHIP po mo l' (rec_shares (b.[o']) + n);
  pl_possession : b3.[p'] = POSSESSION p m o' (rec_shares (b.[p']) + n);
  pl_old : is_issuance (b.[o']) = false /\ is_issuance (b.[p']) = false;
  pl_held : forall q, held k b3 q = held k b q + (if decide (q = mkPosition l' po mo p m) then n else 0);
  pl_own : forall j, own_sum k b3 j = own_sum k b j + (if decide (j = l') then n else 0);
  pl_pos : forall j, pos_sum k b3 j = pos_sum k b j + (if decide (j = o') then n else 0) }.

(** The shares of the possession *)
Lemma reorg_possession b i p m o n po mo l' o' : reorg_inv b i -> in_table k (Z.of_nat i) -> a.[Z.of_nat i] = POSSESSION p m o n -> 0 < n ->
  in_table k o' -> rec_shares (b.[o']) + n < 2 ^ 63 -> (b.[o'] = EMPTY \/ key_of (b.[o']) = Some (KOwnership po mo l')) ->
  forall b2, step_ok k b b2 o' n -> key_of (b2.[o']) = Some (KOwnership po mo l') -> covered b2 -> own_im b2 o' o ->
  exists p', asset_probe k (empty_or (match_possession p m o') b2) (asset_home k p) = Some p' /\ in_table k p' /\
    let b3 := reorg_add p' (POSSESSION p m o' 0) n b2 in placed b b3 l' o' p' po mo p m n /\ covered b3.
Proof.
  intros [H1 H2 H3 _ H5 _ _ _] Hti Ei Hn Ho' Hlt Hcase b2 Hs Hkey Hcov Hown.
  pose proof (st_links _ _ _ _ _ Hs) as L2. pose proof (covered_used b2 L2 Hcov) as Hub. assert (is_ownership (b2.[o']) = true) as Hiso by (by destruct (b2.[o'])).
  destruct (deposit_ok k Hk b2 (KPossession p m o') (POSSESSION p m o' 0) (match_possession p m o')) as (p' & Hp & Hp' & Hcase2 & Hdep); [apply match_possession_key|done|lia|done|done|done|done|].
  exists p'. split; [done|]. split; [done|]. assert (p' <> o') as Hpo by (intros ->; destruct Hcase2 as [E|E]; [by rewrite E in Hiso|rewrite E in Hkey; done]).
  pose proof (st_other _ _ _ _ _ Hs p' Hpo) as Ep'. assert (nonneg k b2) as N2 by (apply (nonneg_step k Hk b b2 o' n Hs H3); specialize (H3 o' Ho'); lia).
  assert (rec_shares (b2.[p']) + n < 2 ^ 63) as Hlt2.
  { destruct Hcase2 as [E|E]; [rewrite E; cbn; specialize (H3 o' Ho'); lia|]. rewrite Ep' in *. destruct (b.[p']) as [| | |p1 m1 o1 n1] eqn:E1; try done. injection E as -> -> ->. cbn [rec_shares].
    pose proof (pos_part_le k Hk b p' H3 Hp' ltac:(by rewrite E1) ltac:(by rewrite E1)) as Hle. rewrite E1 in Hle. cbn [rec_shares rec_link] in Hle.
    destruct (lo_pos _ _ H1 p' _ _ _ _ Hp' E1) as [_ Hio]. rewrite (H5 o' Ho' Hio) in Hle. lia. }
  destruct (Hdep n ltac:(lia) (N2 p' Hp') Hlt2) as [Hs3 Hkey3]. change (deposit p' (POSSESSION p m o' 0) n b2) with (reorg_add p' (POSSESSION p m o' 0) n b2) in *. cbv zeta.
  set (b3 := reorg_add _ _ _ _) in *. pose proof (st_links _ _ _ _ _ Hs3) as L3. pose proof (st_other _ _ _ _ _ Hs3 o' ltac:(done)) as Eo3.
  destruct (b3.[p']) as [| | |p1 m1 o1 n3] eqn:E3; try done. injection Hkey3 as -> -> ->. pose proof (st_shares _ _ _ _ _ Hs3) as Sh3. rewrite E3, Ep' in Sh3. cbn [rec_shares] in Sh3.
  destruct (b2.[o']) as [| |p2 m2 l2 n2|] eqn:E2; try done. injection Hkey as -> -> ->. pose proof (st_shares _ _ _ _ _ Hs) as Sh2. rewrite E2 in Sh2. cbn [rec_shares] in Sh2.
  split; [split|].
  - done.
  - apply (nonneg_step k Hk b2 b3 p' n Hs3 N2). specialize (N2 p' Hp'). lia.
  - intros j J1 J2. rewrite (st_other _ _ _ _ _ Hs3 j J1). by apply (st_other _ _ _ _ _ Hs).
  - by rewrite Eo3, Sh2.
  - by rewrite E3, Sh3.
  - rewrite Ep' in Hcase2. split; [destruct Hcase as [E|E]; [by rewrite E|by destruct (b.[o'])]|destruct Hcase2 as [E|E]; [by rewrite E|by destruct (b.[p'])]].
  - intros q. rewrite (st_held _ _ _ _ _ Hs3 q), (st_held _ _ _ _ _ Hs q), E2, E3. cbn [with_shares]. rewrite (held_part_position b3 q p m o' n po mo l') by (by rewrite Eo3). cbn [held_part]. lia.
  - intros j. rewrite (st_own _ _ _ _ _ Hs3 j), (st_own _ _ _ _ _ Hs j), E2, E3. cbn [with_shares own_part]. destruct (Z.eqb_spec l' j); case_decide; (congruence || lia).
  - intros j. rewrite (st_pos _ _ _ _ _ Hs3 j), (st_pos _ _ _ _ _ Hs j), E2, E3. cbn [with_shares pos_part]. destruct (Z.eqb_spec o' j); case_decide; (congruence || lia).
  - apply (covered_step b2 b3 p' n L2 Hcov Hs3 Hp'). exists (Z.of_nat i). split; [done|]. right. right. exists p, m, o', o, n3, n. split; [done|]. split; [done|].
    destruct (image_keep b2 b3 o' o L2 (st_keep _ _ _ _ _ Hs3) Ho' (or_intror (or_introl Hown))) as [[G _]|[G|G]]; [by rewrite Eo3 in G|done|].
    destruct G as (? & ? & ? & ? & ? & ? & G & _). by rewrite Eo3 in G.
Qed.

Lemma placed_issuances b b3 l' o' p' po mo p m n j j' : placed b b3 l' o' p' po mo p m n -> iss_im b3 j j' <-> iss_im b j j'.
Proof.
  intros Hp. destruct (decide (j = p')) as [->|Hjp]; [|destruct (decide (j = o')) as [->|Hjo]].
  - split; intros [G _]; [by rewrite (pl_possession _ _ _ _ _ _ _ _ _ _ Hp) in G|]. destruct (pl_old _ _ _ _ _ _ _ _ _ _ Hp) as [_ E]. by rewrite E in G.
  - split; intros [G _]; [by rewrite (pl_ownership _ _ _ _ _ _ _ _ _ _ Hp) in G|]. destruct (pl_old _ _ _ _ _ _ _ _ _ _ Hp) as [E _]. by rewrite E in G.
  - unfold iss_im. by rewrite (pl_other _ _ _ _ _ _ _ _ _ _ Hp) by done.
Qed.

Lemma reorg_inv_step b b3 i p m o n po mo l no l' o' p' : reorg_inv b i -> in_table k (Z.of_nat i) -> a.[Z.of_nat i] = POSSESSION p m o n -> a.[o] = OWNERSHIP po mo l no -> 0 < n ->
  in_table k l -> in_table k l' -> iss_im b l' l -> in_table k p' -> (b.[o'] = EMPTY \/ key_of (b.[o']) = Some (KOwnership po mo l')) ->
  placed b b3 l' o' p' po mo p m n -> covered b3 -> reorg_inv b3 (S i).
Proof.
  intros [H1 _ H3 H4 H5 H6 H7 H8] Hti Ei Eo Hn Hl Hl' Him Hp' Hcase Hpl Hcov. pose proof (fun j j' => placed_issuances _ _ _ _ _ _ _ _ _ _ j j' Hpl) as Hiss.
  destruct Hpl as [L3 N3 Eoth Eo3 E3 _ Hheld Hos Hps]. pose proof (fun q l => done_step q l i p m o n po mo _ no Hti Ei Eo) as Hdone.
  assert (forall l1 l2, in_table k l1 -> in_table k l2 -> iss_im b l1 l2 -> l1 = l' <-> l2 = l) as Hsame.
  { intros l1 l2 Hl1 Hl2 G. split; intros ->; [by apply (iss_im_old b l')|by apply (iss_im_inj b l1 l' l)]. }
  split; [done|done|done| | | | |].
  - intros j q1 m1 o1 n1 Hj Ej. destruct (decide (j = p')) as [->|Hjp]; [rewrite E3 in Ej; injection Ej as _ _ _ <-; specialize (H3 p' Hp'); lia|].
    destruct (decide (j = o')) as [->|Hjo]; [by rewrite Eo3 in Ej|]. rewrite Eoth in Ej by done. by apply (H4 j q1 m1 o1 n1).
  - intros j Hj Hio. rewrite Hps. destruct (decide (j = o')) as [->|Hjo].
    + rewrite Eo3. cbn [rec_shares]. destruct Hcase as [E|E]; [by rewrite (pos_sum_unlinked k Hk b o' H1), E by (by rewrite E)|]. by rewrite (H5 o' Hj) by (by destruct (b.[o'])).
    + assert (j <> p') by (intros ->; by rewrite E3 in Hio). rewrite Eoth in * by done. rewrite H5 by done. lia.
  - intros l1 l2 Hl1 Hl2 G%Hiss. destruct (Hdone (mkPosition 0 0 0 0 0) l2) as [_ ->]. rewrite Hos, (H6 l1 l2 Hl1 Hl2 G). f_equal. apply if_decide_ext. by apply Hsame.
  - intros l1 l2 ow om pp pm Hl1 Hl2 G%Hiss. destruct (Hdone (mkPosition l2 ow om pp pm) l2) as [-> _]. rewrite Hheld, (H7 l1 l2 ow om pp pm Hl1 Hl2 G). f_equal.
    apply if_decide_ext. specialize (Hsame l1 l2 Hl1 Hl2 G). split; intros [= E -> -> -> ->]; f_equal; by apply Hsame.
  - intros l2 Hl2 Hi2 Hno. assert (l2 <> l) as Hne by (intros ->; apply (Hno l' Hl'); by apply Hiss). destruct (H8 l2 Hl2 Hi2) as [A1 A2]; [intros j Hj G; apply (Hno j Hj); by apply Hiss|].
    split; [|intros ow om pp pm].
    + destruct (Hdone (mkPosition 0 0 0 0 0) l2) as [_ ->]. by rewrite A1, decide_False by done.
    + destruct (Hdone (mkPosition l2 ow om pp pm) l2) as [-> _]. rewrite A2, decide_False; [done|]. by intros [= ? _ _ _ _].
Qed.

Lemma backed_step b b1 b3 l' o' p' po mo p m n : nonneg k b1 -> in_table k o' -> 0 < n -> grown b b1 l' -> is_issuance (b1.[l']) = true ->
  placed b1 b3 l' o' p' po mo p m n -> backed b -> backed b3.
Proof.
  intros Hnn Ho' Hn [G1 G2] Hl' Hpl Hb j Hj. destruct Hpl as [_ _ Eoth Eo3 E3 [Oo Op] _ Hos _]. destruct (decide (j = p')) as [->|Hjp]; [by rewrite E3|].
  destruct (decide (j = o')) as [->|Hjo]; [rewrite Eo3; specialize (Hnn o' Ho'); lia|]. rewrite Eoth, Hos by done. destruct (decide (j = l')) as [->|Hjl].
  - destruct (b1.[l']); try done. assert (0 <= own_sum k b1 l'); [|lia]. apply sumZ_nonneg. intros i Hi%(asset_index k Hk). specialize (Hnn i Hi). destruct (b1.[i]); try done. cbn in *. by destruct (_ =? _).
  - rewrite G1, G2 by done. specialize (Hb j Hj). destruct (b.[j]); try done. lia.
Qed.

(** One slot *)
Lemma reorg_slot_ok b i : (i < capn)%nat -> reorg_inv b i -> backed b -> exists b', reorg_slot k a (Z.of_nat i) (Some b) = Some b' /\ reorg_inv b' (S i) /\ backed b'.
Proof.
  intros Hi Hinv Hbk. assert (in_table k (Z.of_nat i)) as Hti by (apply (asset_index k Hk); lia). assert ((forall l, iss_part l (a.[Z.of_nat i]) = 0) -> (forall q, held_part a q (a.[Z.of_nat i]) = 0) -> reorg_inv b (S i)) as Hskip.
  { intros P1 P2. destruct Hinv as [H1 H2 H3 H4 H5 H6 H7 H8]. assert (forall l, done_own l (S i) = done_own l i) as D1 by (intros l; unfold done_own; cbn [sumZ]; rewrite P1; lia).
    assert (forall q, done_held q (S i) = done_held q i) as D2 by (intros q; unfold done_held; cbn [sumZ]; rewrite P2; lia). split; [done..| | |].
    - intros l l' ? ? ?. rewrite D1. by apply H6.
    - intros. rewrite D2. by apply H7.
    - intros l' G1 G2 G3. rewrite D1. destruct (H8 l' G1 G2 G3) as [? A]. split; [done|]. intros. rewrite D2. apply A. }
  unfold reorg_slot. destruct (a.[Z.of_nat i]) as [| | |p m o n] eqn:Ei; [exists b; split; [done|split; [by apply Hskip|done]]..|].
  destruct (old_records _ _ _ _ _ Hti Ei) as (po & mo & l & no & pi & nm & dec & un & Ho & Hl & Eo & El). destruct (Z.ltb_spec 0 n) as [Hn|Hn].
  2: { pose proof (uo_nonneg _ _ Ha _ Hti) as Hnn. rewrite Ei in Hnn. cbn in Hnn. assert (n = 0) as -> by lia. exists b. split; [done|]. split; [apply Hskip|done].
       - intros l1. cbn. destruct (a.[o]); try done. by destruct (_ =? _).
       - intros q. cbn. by destruct (_ && _). }
  rewrite Eo. cbn [rec_link rec_publicKey rec_managing]. cbv zeta. rewrite El. cbn [rec_publicKey rec_name].
  destruct (reorg_issuance b i l pi nm dec un Hinv Hl El) as (l' & -> & Hl' & Hinv1 & Him & Hg). rewrite <- El. cbv zeta in Hinv1, Him, Hg. set (b1 := if is_empty (b.[l']) then _ else _) in *.
  destruct (reorg_ownership b1 i l l' po mo o no n Hinv1 Hl Hl' Him Ho Eo Hn) as (o' & -> & Ho' & Hlt & Hcase & Hs & Hkey & Hcov & Hown).
  { destruct (done_step (mkPosition 0 0 0 0 0) l i p m o n po mo l no Hti Ei Eo) as [_ E]. rewrite decide_True in E by done. rewrite <- E. apply done_own_bound; [done|lia]. }
  destruct (reorg_possession b1 i p m o n po mo l' o' Hinv1 Hti Ei Hn Ho' Hlt Hcase _ Hs Hkey Hcov Hown) as (p' & -> & Hp' & Hpl & Hcov3). eexists. split; [done|].
  split; [by apply (reorg_inv_step b1 _ i p m o n po mo l no l' o' p')|]. apply (backed_step b b1 _ l' o' p' po mo p m n); [apply Hinv1|done|done|done|apply Him|done|done].
Qed.

Lemma reorg_start : reorg_inv (replicate capn EMPTY) 0.
Proof.
  assert (forall i, (replicate capn EMPTY).[i] = EMPTY) as He.
  { intros i. destruct (decide (0 <= i < Z.of_nat capn)); [by apply aget_replicate|]. rewrite aget_out; [done|]. rewrite alen_replicate. lia. }
  pose proof (empty_universe_ok k Hk) as [U1 U2 U3 U4]. split; [done| |done| | | | |done].
  - intros j _. by rewrite He.
  - intros j p m o n _. by rewrite He.
  - intros o _. by rewrite He.
  - intros l l' _ _ [G _]. by rewrite He in G.
  - intros l l' ow om po pm _ _ [G _]. by rewrite He in G.
Qed.

Lemma reorg_all : exists b, for_loop capn 0 (reorg_slot k a) (Some (replicate capn EMPTY)) = Some b /\ reorg_inv b capn /\ backed b.
Proof.
  pose (P i (r : option (list AssetRecord)) := exists b, r = Some b /\ reorg_inv b (Z.to_nat i) /\ backed b).
  assert (P (0 + Z.of_nat capn) (for_loop capn 0 (reorg_slot k a) (Some (replicate capn EMPTY)))) as HP; [|unfold P in HP; by rewrite Z.add_0_l, Nat2Z.id in HP].
  apply (for_loop_ind P); [exists (replicate capn EMPTY); split; [done|split; [apply reorg_start|]]|].
  { intros j Hj. rewrite aget_replicate; [done|]. by apply (asset_index k Hk). }
  intros i r Hi (b & -> & Hb & Hbk). destruct (reorg_slot_ok b (Z.to_nat i) ltac:(lia) Hb Hbk) as (b' & E & Hb').
  rewrite Z2Nat.id in E by lia. exists b'. split; [done|]. by replace (Z.to_nat (i + 1)) with (S (Z.to_nat i)) by lia.
Qed.

Lemma reorg_universe b : reorg_inv b capn -> universe_ok k b.
Proof.
  intros [H1 H2 H3 H4 H5 H6 H7 H8]. split; [done|done|done|]. intros i Hi. destruct (is_issuance (b.[i])) eqn:Hii; [|rewrite (own_sum_unlinked k Hk b i H1 Hii); lia].
  destruct (H2 i Hi) as (i' & Hi' & [Him|[Him|Him]]); [by destruct (b.[i])| |by destruct Him as (? & ? & ? & ? & ? & ? & E & _); rewrite E in Hii..]. rewrite (H6 i i' Hi Hi' Him). by apply done_own_bound.
Qed.
End reorg.

(** ** The index lists *)

(** The list [l] of slots, linked from [first] by [next] *)
Fixpoint chain (next : list Z) (first : Z) (l : list Z) : Prop :=
  match l with [] => first = NO_ASSET_INDEX | i :: l => first = i /\ chain next (next.[i]) l end.
(** The ownerships of an issuance, or the possessions of an ownership *)
Definition linked_to (i : Z) (r : AssetRecord) : bool := match r with OWNERSHIP _ _ l _ | POSSESSION _ _ l _ => l =? i | _ => false end.

Section lists.
Variable k : nat.
Hypothesis Hk : (2 <= k <= 31)%nat.
Abbreviation cap := (2 ^ Z.of_nat k).
Abbreviation capn := (Z.to_nat cap).
Implicit Types (a : list AssetRecord) (l : IndexLists).

Definition slots_from a (P : AssetRecord -> bool) (n : Z) : list Z := filter (fun j => P (a.[j]) = true) (seqZ n (cap - n)).
Record listed a l (n : Z) : Prop := {
  li_first : alen (ownershipsPossessionsFirstIdx l) = cap;
  li_next : alen (nextIdx l) = cap;
  li_issuances : chain (nextIdx l) (issuancesFirstIdx l) (slots_from a is_issuance n);
  li_linked : forall i, in_table k i -> chain (nextIdx l) ((ownershipsPossessionsFirstIdx l).[i]) (slots_from a (linked_to i) n) }.

Lemma chain_write next first s i x : i ∉ s -> chain next first s -> chain (next.[i := x]) first s.
Proof.
  revert first. induction s as [|j s IH]; intros first Hi; [done|]. cbn [chain]. apply not_elem_of_cons in Hi as [Hj Hi]. intros [-> Hc]. split; [done|]. rewrite aget_aset_ne by done. by apply IH.
Qed.
Lemma slots_from_above a P n i : i < n -> i ∉ slots_from a P n.
Proof. intros Hi [_ Hr%elem_of_seqZ]%list_elem_of_filter. lia. Qed.
Lemma slots_from_step a P n : n < cap -> slots_from a P n = if P (a.[n]) then n :: slots_from a P (n + 1) else slots_from a P (n + 1).
Proof.
  intros Hn. unfold slots_from. rewrite seqZ_cons by lia. rewrite filter_cons. replace (Z.succ n) with (n + 1) by lia. replace (Z.pred (cap - n)) with (cap - (n + 1)) by lia.
  destruct (P (a.[n])); by rewrite ?decide_True, ?decide_False by done.
Qed.

(** A slot becomes the first of its list. *)
Lemma chain_push a next first P n : 0 <= n < cap -> alen next = cap -> P (a.[n]) = true -> chain next first (slots_from a P (n + 1)) -> chain (next.[n := first]) n (slots_from a P n).
Proof.
  intros Hn Hl HP Hc. rewrite slots_from_step, HP by lia. cbn [chain]. split; [done|]. rewrite aget_aset_eq by lia. apply chain_write; [apply slots_from_above; lia|done].
Qed.
Lemma chain_skip a next first P n x : 0 <= n < cap -> P (a.[n]) = false -> chain next first (slots_from a P (n + 1)) -> chain (next.[n := x]) first (slots_from a P n).
Proof. intros Hn HP Hc. rewrite slots_from_step, HP by lia. apply chain_write; [apply slots_from_above; lia|done]. Qed.

Lemma listed_link a l n i : links_ok k a -> 0 <= n < cap -> listed a l (n + 1) -> in_table k i -> is_issuance (a.[n]) = false -> linked_to i (a.[n]) = true ->
  (forall i', linked_to i' (a.[n]) = true -> i' = i) -> listed a (addOwnership i n l) n.
Proof.
  intros Ha Hn [H1 H2 H3 H4] Hi Hiss Hli Hu. unfold addOwnership. split; cbn [issuancesFirstIdx ownershipsPossessionsFirstIdx nextIdx]; [by rewrite alen_aset|by rewrite alen_aset|by apply chain_skip|].
  intros i' Hi'. unfold in_table in *. destruct (decide (i' = i)) as [->|Hne].
  - rewrite aget_aset_eq by lia. apply chain_push; [done|done|done|by apply H4].
  - rewrite aget_aset_ne by done. apply chain_skip; [done| |by apply H4]. destruct (linked_to i' (a.[n])) eqn:E; [|done]. by apply Hu in E.
Qed.

Lemma add_record_listed a l n : links_ok k a -> 0 <= n < cap -> listed a l (n + 1) -> listed a (add_record a n l) n.
Proof.
  intros Ha Hn Hl. unfold add_record. destruct (a.[n]) as [|p nm dec un|p m i s|p m i s] eqn:E.
  - destruct Hl as [H1 H2 H3 H4]. split; [done|done|by rewrite slots_from_step, E by lia|]. intros i Hi. rewrite slots_from_step, E by lia. by apply H4.
  - destruct Hl as [H1 H2 H3 H4]. unfold addIssuance. split; cbn [issuancesFirstIdx ownershipsPossessionsFirstIdx nextIdx]; [done|by rewrite alen_aset|apply chain_push; [done|done|by rewrite E|done]|].
    intros i Hi. apply chain_skip; [done|by rewrite E|by apply H4].
  - apply listed_link; [done|done|done| |by rewrite E|rewrite E; apply Z.eqb_refl|intros i'; rewrite E; by intros <-%Z.eqb_eq]. by destruct (lo_own _ _ Ha n _ _ _ _ Hn E).
  - apply (listed_link a l n i); [done|done|done| |by rewrite E|rewrite E; apply Z.eqb_refl|intros i'; rewrite E; by intros <-%Z.eqb_eq]. by destruct (lo_pos _ _ Ha n _ _ _ _ Hn E).
Qed.

Lemma rebuild_from_listed a n : links_ok k a -> forall l, (n <= capn)%nat -> listed a l (Z.of_nat n) -> listed a (rebuild_from n a l) 0.
Proof.
  intros Ha. induction n as [|n IH]; intros l Hn Hl; [done|]. cbn [rebuild_from]. apply IH; [lia|]. apply add_record_listed; [done|lia|]. by replace (Z.of_nat n + 1) with (Z.of_nat (S n)) by lia.
Qed.

Lemma rebuild_listed a : links_ok k a -> listed a (rebuild_from capn a (resetLists cap)) 0.
Proof.
  intros Ha. apply rebuild_from_listed; [done|lia|]. assert (forall P, slots_from a P (Z.of_nat capn) = []) as He.
  { intros P. unfold slots_from. replace (cap - Z.of_nat capn) with 0 by lia. done. }
  split; cbn [resetLists issuancesFirstIdx ownershipsPossessionsFirstIdx nextIdx]; [rewrite alen_replicate; lia|rewrite alen_replicate; lia|by rewrite He|].
  intros i Hi. rewrite He, aget_replicate by (unfold in_table in Hi; lia). done.
Qed.
End lists.

(** ** assetsEndEpoch *)
Section epoch.
Variable k : nat.
Hypothesis Hk : (2 <= k <= 31)%nat.
Context {D : Type}.
Abbreviation cap := (2 ^ Z.of_nat k).
Abbreviation capn := (Z.to_nat cap).
Implicit Types u : @Universe D.

(** The universe after the end of an epoch *)
Definition compacted u u' : Prop :=
  universe_ok k (assets u') /\ used k (assets u') <= used k (assets u) /\ listed k (assets u') (indexLists u') 0 /\
  assetChangeFlags u' = replicate (Z.to_nat (cap / 64)) (2 ^ 64 - 1) /\ assetDigests u' = assetDigests u /\ assetLog u' = assetLog u.

Lemma endEpoch_inv u : universe_ok k (assets u) -> used k (assets u) < cap ->
  exists u', assetsEndEpoch k u = Some u' /\ compacted u u' /\ reorg_inv k (assets u) (assets u') capn /\ backed k (assets u').
Proof.
  intros Hok Hu. unfold assetsEndEpoch. destruct (reorg_all k Hk (assets u) Hok Hu) as (b & -> & Hb & Hbk). eexists. split; [done|]. pose proof (reorg_universe k Hk (assets u) Hok b Hb) as Hub.
  split; [|done]. split; [done|]. split; [|split; [|done]]; [apply (covered_used k Hk (assets u) b); apply Hb|apply rebuild_listed; [done|apply Hb]].
Qed.

(** The issuances that survive are exactly those of which shares are owned. *)
Lemma surviving_issuances u u' i : universe_ok k (assets u) -> universe_ok k (assets u') -> used k (assets u') < cap ->
  reorg_inv k (assets u) (assets u') capn -> backed k (assets u') -> in_table k i -> is_issuance ((assets u).[i]) = true ->
  0 < own_sum k (assets u) i <-> exists j, in_table k j /\ (assets u').[j] = (assets u).[i].
Proof.
  intros Hok Hok' Hu' Hinv Hbk Hi Hii. split.
  - intros Hpos. destruct ((assets u).[i]) as [|p nm dec un| |] eqn:Ei; try done.
    destruct (lookup_ok k Hk (assets u') (match_issuance p nm) (asset_home k p)) as ([j|] & _ & Hr); [apply Hok'|lia|apply land_in_table|done|apply match_issuance_home|..].
    + destruct Hr as [Hj Hm]. exists j. split; [done|]. destruct (ri_covered _ _ _ _ Hinv j Hj) as (i' & Hi' & [[G1 G2]|[G|G]]);
        [by intros E; rewrite E in Hm| |by destruct G as (? & ? & ? & ? & ? & ? & E & _); rewrite E in Hm..].
      rewrite G2 in Hm |- *. rewrite <- Ei. f_equal. apply (match_issuance_unique k Hk (assets u) i' i p nm); [apply Hok|done|done|done|]. rewrite Ei. cbn. by rewrite !Z.eqb_refl.
    + destruct (ri_absent _ _ _ _ Hinv i Hi) as [Z0 _]; [by rewrite Ei| |rewrite (own_by_possessions k Hk _ Hok) in Z0; lia]. intros j Hj [_ E]. specialize (Hr j Hj). rewrite E, Ei in Hr. cbn in Hr. by rewrite !Z.eqb_refl in Hr.
  - intros (j & Hj & E). assert (iss_im (assets u) (assets u') j i) as Him by (split; [by rewrite E|done]). rewrite <- (own_by_possessions k Hk _ Hok), <- (ri_own _ _ _ _ Hinv j i Hj Hi Him).
    specialize (Hbk j Hj). rewrite E in Hbk. by destruct ((assets u).[i]).
Qed.

(** The records that are left have shares. *)
Definition no_empty_record (b : list AssetRecord) : Prop := forall j, in_table k j ->
  match b.[j] with EMPTY => True | ISSUANCE _ _ _ _ => 0 < own_sum k b j | OWNERSHIP _ _ _ n | POSSESSION _ _ _ n => 0 < n end.

(** C7: The end of an epoch terminates and compacts the universe: numberOfPossessedShares returns for every asset, owner, possessor and managing contracts what it returned before, although
    records have moved to other slots.  An issuance of the old universe is kept, unchanged, exactly when shares of it are owned; every issuance, ownership and possession that is left has shares, and stands for
    a record of the old universe with the same keys and managing contracts.  The new universe is well formed, has at most as many records as the old one, and index lists that enumerate, in
    ascending order, all issuances, the ownerships of each issuance and the possessions of each ownership. *)
Theorem assetsEndEpoch_compacts u : universe_ok k (assets u) -> used k (assets u) < cap ->
  exists u', assetsEndEpoch k u = Some u' /\ compacted u u' /\
    (forall name issuer owner possessor om pm,
       numberOfPossessedShares k name issuer owner possessor om pm u' = numberOfPossessedShares k name issuer owner possessor om pm u) /\
    (forall i, in_table k i -> is_issuance ((assets u).[i]) = true -> 0 < own_sum k (assets u) i <-> exists j, in_table k j /\ (assets u').[j] = (assets u).[i]) /\
    no_empty_record (assets u') /\ covered k (assets u) (assets u').
Proof.
  intros Hok Hu. destruct (endEpoch_inv u Hok Hu) as (u' & E & Hc & Hinv & Hbk). exists u'. split; [done|]. split; [done|]. destruct Hc as (Hok' & Hu' & _).
  split; [|split; [intros i; apply surviving_issuances; (done || lia)|split; [|apply Hinv]]].
  2: { intros j Hj. specialize (Hbk j Hj). pose proof (ri_pos _ _ _ _ Hinv j) as Hp. destruct ((assets u').[j]) as [| | |p m o n]; [done..|]. by apply (Hp p m o n). }
  assert (forall j, in_table k j -> is_issuance ((assets u').[j]) = true -> exists i, in_table k i /\ iss_im (assets u) (assets u') j i) as Hiss.
  { intros j Hj Hi. destruct (ri_covered _ _ _ _ Hinv j Hj) as (i & Hi' & [Him|[Him|Him]]); [by intros E'; rewrite E' in Hi|by exists i|by destruct Him as (? & ? & ? & ? & ? & ? & E' & _); rewrite E' in Hi..]. }
  intros name issuer owner possessor om pm. destruct (numberOfPossessedShares_held k Hk u name issuer owner possessor om pm Hok Hu) as (v & -> & V1 & V0).
  destruct (numberOfPossessedShares_held k Hk u' name issuer owner possessor om pm Hok' ltac:(lia)) as (v' & -> & W1 & W0). f_equal.
  destruct (lookup_ok k Hk (assets u) (match_issuance issuer name) (asset_home k issuer)) as (r & _ & Hr); [apply Hok|done|apply land_in_table|done|apply match_issuance_home|].
  assert (forall j, in_table k j -> match_issuance issuer name ((assets u').[j]) = true -> exists i, in_table k i /\ iss_im (assets u) (assets u') j i /\ match_issuance issuer name ((assets u).[i]) = true) as Hm.
  { intros j Hj Hm. destruct (Hiss j Hj) as (i & Hi & Him); [by destruct ((assets u').[j])|]. exists i. split; [done|]. split; [done|]. destruct Him as [_ E']. by rewrite <- E'. }
  destruct r as [i|].
  - destruct Hr as [Hi Hmi]. rewrite (V1 i Hi Hmi). destruct (lookup_ok k Hk (assets u') (match_issuance issuer name) (asset_home k issuer)) as (r & _ & Hr); [apply Hok'|lia|apply land_in_table|done|apply match_issuance_home|].
    destruct r as [j|].
    + destruct Hr as [Hj Hmj]. rewrite (W1 j Hj Hmj). destruct (Hm j Hj Hmj) as (i' & Hi' & Him & Hmi'). assert (i' = i) as -> by (by apply (match_issuance_unique k Hk (assets u) i' i issuer name); [apply Hok|..]).
      by apply (ri_held _ _ _ _ Hinv).
    + rewrite (W0 Hr). symmetry. apply (ri_absent _ _ _ _ Hinv i Hi); [by destruct ((assets u).[i])|]. intros j Hj [_ E']. specialize (Hr j Hj). congruence.
  - rewrite (V0 Hr). apply W0. intros j Hj. destruct (match_issuance issuer name ((assets u').[j])) eqn:Hmj; [|done]. destruct (Hm j Hj Hmj) as (i & Hi & _ & Hmi). by rewrite (Hr i Hi) in Hmi.
Qed.
End epoch.

(** ** A concrete epoch: all shares of the asset of [ex_universe] have moved from key 6 to key 9. *)
Definition ex_moved : @Universe Z := match moveShares 3 7 0 9 1 9 1 100 ex_universe with Some (u, _, _) => u | None => ex_universe end.
Lemma ex_moved_ok : universe_ok 3 (assets ex_moved).
Proof.
  destruct (moveShares_ok 3 ltac:(lia) ex_universe 7 0 100 (mkPosition 6 9 1 9 1) ex_assets_ok) as (u' & dO & dP & E & _ & _ & Heff & _);
    [unfold in_table; lia|unfold in_table; lia|vm_compute; reflexivity|lia|vm_compute; reflexivity|reflexivity|].
  unfold ex_moved. cbn [po_owner po_om po_possessor po_pm] in E. rewrite E. apply Heff.
Qed.

Lemma assetsEndEpoch_compacts_witness : used 3 (assets ex_moved) = 5 /\ exists u', assetsEndEpoch 3 ex_moved = Some u' /\ used 3 (assets u') = 3 /\
  numberOfPossessedShares 3 77 6 9 9 1 1 u' = Some 100.
Proof.
  split; [vm_compute; reflexivity|]. destruct (assetsEndEpoch_compacts 3 ltac:(lia) ex_moved ex_moved_ok) as (u' & E & _ & Hn & _); [vm_compute; reflexivity|]. exists u'. split; [exact E|]. split.
  - vm_compute in E. injection E as <-. vm_compute. reflexivity.
  - rewrite Hn. vm_compute. reflexivity.
Defined.
