(* ===== verification/AssetDigest.v ===== *)
(** * The universe digest

    getUniverseDigest hashes only the slots whose change flag is set and the nodes above
    them, skipping flag words that are zero.  This file shows that every operation flags
    every slot it changes, so that the digest is the Merkle root over all records. *)
From S2P Require Import Prelude OpenAddressing OccupationFlags Containers Merkle Spectrum Assets AssetLedger AssetEpoch.

(** ** The lowest set bit *)
Lemma tzcnt_set x : 0 < x < 2 ^ 64 -> tzcnt_u64 x < 64 /\ Z.testbit x (tzcnt_u64 x) = true.
Proof.
  intros Hx. pose proof (tzcnt_range x) as Hr. assert (tzcnt_u64 x < 64) as Hlt.
  { destruct (decide (tzcnt_u64 x < 64)) as [|Hge]; [done|]. exfalso.
    assert (x = 0); [|lia]. apply Z.bits_inj'. intros n Hn. rewrite Z.testbit_0_l.
    destruct (decide (n < 64)); [apply tzcnt_low; lia|]. apply (testbit_high x 64); lia. }
  split; [done|]. revert Hlt. clear. unfold tzcnt_u64.
  assert (forall f i, ctz_from f i x < i + Z.of_nat f -> Z.testbit x (ctz_from f i x) = true) as H.
  { induction f as [|f IH]; intros i; cbn [ctz_from]; [lia|]. destruct (Z.testbit x i) eqn:E; [done|].
    intros. apply IH. lia. }
  intros. apply H. done.
Qed.

(** [mask & (mask - 1)] removes it. *)
Lemma clear_lowest x i :
  0 < x < 2 ^ 64 -> 0 <= i ->
  Z.testbit (Z.land x (u64 (x - 1))) i = Z.testbit x i && negb (i =? tzcnt_u64 x).
Proof.
  intros Hx Hi. destruct (tzcnt_set x Hx) as [Ht Hs]. pose proof (tzcnt_range x) as Hr. set (t := tzcnt_u64 x) in *.
  rewrite u64_small by (unfold is_u64; lia). rewrite Z.land_spec.
  assert (x mod 2 ^ t = 0) as Hm.
  { apply Z.bits_inj'. intros n Hn. rewrite Z.testbit_0_l, testbit_mod_pow2 by lia.
    destruct (Z.ltb_spec n t); [|done]. cbn. apply tzcnt_low. unfold t in *. lia. }
  assert (0 < 2 ^ t) as Hpt by (apply Z.pow_pos_nonneg; lia).
  pose proof (Z.div_mod x (2 ^ t) ltac:(lia)) as Hdm. rewrite Hm in Hdm.
  assert (Z.odd (x / 2 ^ t) = true) as Hodd.
  { rewrite <- Hs, <- (Z.add_0_l t), <- Z.div_pow2_bits by lia. symmetry. apply Z.bit0_odd. }
  apply Zodd_bool_iff, Zodd_ex in Hodd as [q Hq].
  destruct (decide (i < t)) as [Hlt|Hge].
  - rewrite (tzcnt_low x i) by (unfold t in *; lia). done.
  - assert (2 ^ (t + 1) = 2 * 2 ^ t) as Hp1 by (rewrite Z.pow_add_r by lia; lia).
    assert ((x - 1) / 2 ^ (t + 1) = q /\ x / 2 ^ (t + 1) = q) as [Hq1 Hq2].
    { rewrite Hp1. split.
      - symmetry. apply (Z.div_unique _ _ _ (2 ^ t - 1)); [lia|]. rewrite Hq in Hdm. lia.
      - symmetry. apply (Z.div_unique _ _ _ (2 ^ t)); [lia|]. rewrite Hq in Hdm. lia. }
    destruct (Z.eqb_spec i t) as [->|Hne].
    + rewrite andb_false_r. apply andb_false_iff. right.
      rewrite <- (Z.add_0_l t), <- Z.div_pow2_bits by lia.
      assert ((x - 1) / 2 ^ t = 2 * q) as ->.
      { symmetry. apply (Z.div_unique _ _ _ (2 ^ t - 1)); [lia|]. rewrite Hq in Hdm. lia. }
      rewrite Z.bit0_odd, Z.odd_mul. done.
    + rewrite andb_true_r. replace i with (i - (t + 1) + (t + 1)) by lia.
      rewrite <- !(Z.div_pow2_bits _ (t + 1)) by lia. rewrite Hq1, Hq2. apply andb_diag.
Qed.

Section Digest.
Variable k : nat.
Hypothesis Hk : (6 <= k <= 31)%nat.
Context {D : Type} `{!Inhabited D}.
Variable hashAsset : AssetRecord -> D.
Variable hashNode : D -> D -> D.
Abbreviation cap := (2 ^ Z.of_nat k).
Abbreviation capn := (Z.to_nat cap).
Implicit Types (a : list AssetRecord) (u : @Universe D) (dg : list D) (fl : list Z).

Lemma Hk_table : (2 <= k <= 31)%nat.
Proof. lia. Qed.

Lemma universe_words : cap / 64 * 64 = cap /\ 64 <= cap <= 2 ^ 31.
Proof.
  split.
  - replace (Z.of_nat k) with (6 + (Z.of_nat k - 6)) by lia. rewrite Z.pow_add_r by lia. change (2 ^ 6) with 64.
    rewrite (Z.mul_comm 64), Z.div_mul by lia. lia.
  - split; [change 64 with (2 ^ 6)|]; apply Z.pow_le_mono_r; lia.
Qed.

Definition universe_root a : D := merkle_root hashNode k (fun i => hashAsset (a.[i])).

(** Unflagged leaves are up to date, unflagged inner nodes are consistent. *)
Record flags_ok u : Prop := {
  fo_digests : alen (assetDigests u) = 2 * cap - 1;
  fo_words : alen (assetChangeFlags u) = cap / 64;
  fo_u64 : forall w, 0 <= w < cap / 64 -> is_u64 ((assetChangeFlags u).[w]);
  fo_tree : tree_upto hashNode (assetDigests u) 0 k (bit_of (assetChangeFlags u));
  fo_leaf : forall i, in_table k i -> bit_of (assetChangeFlags u) i = false ->
    (assetDigests u).[i] = hashAsset ((assets u).[i])
}.

(** ** The leaves *)
Lemma rehash_mask_ok f a base mask dg :
  (f <= 64)%nat -> 0 <= base -> base + 64 <= alen dg -> is_u64 mask ->
  (forall i, 0 <= i < 64 - Z.of_nat f -> Z.testbit mask i = false) ->
  alen (rehash_mask hashAsset f a base mask dg) = alen dg /\
  forall x, (rehash_mask hashAsset f a base mask dg).[x] =
    if decide (base <= x < base + 64 /\ Z.testbit mask (x - base) = true) then hashAsset (a.[x]) else dg.[x].
Proof.
  revert mask dg. induction f as [|f IH]; intros mask dg Hf Hb Hl Hm Hlow.
  - cbn [rehash_mask]. split; [done|]. intros x. rewrite decide_False; [done|]. intros [Hx Ht].
    rewrite Hlow in Ht by lia. done.
  - cbn [rehash_mask]. destruct (Z.eqb_spec mask 0) as [->|Hne].
    { split; [done|]. intros x. rewrite decide_False; [done|]. intros [_ Ht]. by rewrite Z.testbit_0_l in Ht. }
    unfold is_u64 in Hm. assert (0 < mask < 2 ^ 64) as Hm' by lia. destruct (tzcnt_set mask Hm') as [Ht Hs].
    pose proof (tzcnt_range mask) as Htr. set (t := tzcnt_u64 mask) in *.
    assert (64 - Z.of_nat (S f) <= t) as Htf.
    { destruct (decide (64 - Z.of_nat (S f) <= t)) as [|Hlt]; [done|]. rewrite Hlow in Hs by lia. done. }
    specialize (IH (Z.land mask (u64 (mask - 1))) (dg.[base + t := hashAsset (a.[base + t])])).
    destruct IH as [IHl IHx]; [lia|done|by rewrite alen_aset| | |].
    { unfold is_u64. split; [apply Z.land_nonneg; left; lia|]. apply testbit_bound; [lia|apply Z.land_nonneg; left; lia|].
      intros i Hi. rewrite clear_lowest by lia. rewrite (testbit_high mask 64) by lia. done. }
    { intros i Hi. rewrite clear_lowest by lia. destruct (Z.eqb_spec i (tzcnt_u64 mask)) as [->|Hni]; [by rewrite andb_false_r|].
      rewrite (tzcnt_low mask i); [done|]. fold t. fold t in Hni. 
      destruct (decide (i < t)); [lia|]. exfalso. lia. }
    split; [by rewrite IHl, alen_aset|]. intros x. rewrite IHx, aget_aset.
    destruct (decide (x = base + t)) as [->|Hx].
    + rewrite decide_False.
      2:{ intros [_ Hc]. rewrite clear_lowest in Hc by lia. replace (base + t - base) with t in Hc by lia.
          unfold t in Hc. by rewrite Z.eqb_refl, andb_false_r in Hc. }
      rewrite decide_True by lia. rewrite decide_True; [done|]. split; [lia|]. by replace (base + t - base) with t by lia.
    + rewrite (decide_False (P := base + t = x /\ _)) by lia. apply if_decide_ext.
      split; intros [Hr Hc]; (split; [done|]).
      * rewrite clear_lowest in Hc by lia. by apply andb_true_iff in Hc as [? _].
      * rewrite clear_lowest by lia. rewrite Hc, (proj2 (Z.eqb_neq _ _)); [done|]. fold t. lia.
Qed.

Lemma rehash_flagged_ok a fl dg :
  cap <= alen dg -> alen fl = cap / 64 -> (forall w, 0 <= w < cap / 64 -> is_u64 (fl.[w])) ->
  alen (rehash_flagged k hashAsset a fl dg) = alen dg /\
  forall x, (rehash_flagged k hashAsset a fl dg).[x] =
    if decide (0 <= x < cap /\ bit_of fl x = true) then hashAsset (a.[x]) else dg.[x].
Proof.
  intros Hl Hf Hw. pose proof universe_words as [Hc Hcap]. unfold rehash_flagged.
  pose proof (for_loop_ind (fun c dg' => alen dg' = alen dg /\ forall x, dg'.[x] =
    if decide (0 <= x < 64 * c /\ bit_of fl x = true) then hashAsset (a.[x]) else dg.[x])
    (fun chunk dg => rehash_mask hashAsset 64 a (chunk * 64) (fl.[chunk]) dg) (Z.to_nat (cap / 64)) 0 dg) as Hi.
  rewrite Z2Nat.id in Hi by (apply Z.div_pos; lia). replace (64 * (0 + cap / 64)) with cap in Hi by lia. apply Hi; clear Hi.
  - split; [done|]. intros x. rewrite decide_False; [done|]. intros [? _]. lia.
  - intros c dg' Hcr [Hl' Hx']. destruct (rehash_mask_ok 64 a (c * 64) (fl.[c]) dg') as [Hl2 Hx2];
      [done|lia|lia|apply Hw; lia|intros; lia|].
    split; [lia|]. intros x. rewrite Hx2, Hx'.
    destruct (decide (c * 64 <= x < c * 64 + 64)) as [Hr|Hr].
    + assert (bit_of fl x = Z.testbit (fl.[c]) (x - c * 64)) as Hb.
      { unfold bit_of. rewrite bit_word_eq, bit_pos_eq. f_equal; [f_equal|]; Z.div_mod_to_equations; lia. }
      rewrite <- Hb. destruct (bit_of fl x).
      * rewrite (decide_True (P := c * 64 <= x < c * 64 + 64 /\ true = true)) by done.
        by rewrite (decide_True (P := 0 <= x < 64 * (c + 1) /\ true = true)) by (split; [lia|done]).
      * rewrite !decide_False by (by intros [_ ?]). done.
    + rewrite (decide_False (P := c * 64 <= x < c * 64 + 64 /\ _)) by (by intros [? _]). apply if_decide_ext.
      split; intros [? ?]; (split; [lia|done]).
Qed.

(** ** getUniverseDigest *)
Lemma bit_set_words fl i : words_ok fl -> words_ok (bit_set fl i).
Proof.
  intros Hf. apply words_ok_set; [done|]. intros. apply lor_u64; [by apply Hf|]. pose proof (bit_pos_range i) as Hp.
  rewrite Z.shiftl_1_l. unfold is_u64. split; [lia|]. apply Z.pow_lt_mono_r; lia.
Qed.

Lemma getUniverseDigest_ok u :
  flags_ok u ->
  let '(u', d) := getUniverseDigest k hashAsset hashNode u in
  d = universe_root (assets u) /\ assets u' = assets u /\ indexLists u' = indexLists u /\ assetLog u' = assetLog u /\
  flags_ok u' /\ (forall i, in_table k i -> bit_of (assetChangeFlags u') i = false).
Proof.
  intros [H1 H2 H3 H4 H5]. pose proof universe_words as [Hc Hcap]. unfold getUniverseDigest.
  destruct (rehash_flagged_ok (assets u) (assetChangeFlags u) (assetDigests u)) as [Hl Hx]; [lia|done|done|].
  set (dg := rehash_flagged _ _ _ _ _) in *. set (fl := assetChangeFlags u) in *.
  assert (forall i, in_table k i -> dg.[i] = hashAsset ((assets u).[i])) as Hleaf.
  { intros i Hi. rewrite Hx. case_decide as Hd; [done|]. apply H5; [done|]. fold fl. destruct (bit_of fl i) eqn:E; [|done].
    exfalso. apply Hd. done. }
  rewrite climb_chunked_eq. pose proof (climb_ok hashNode k 0 fl dg) as Hcl. rewrite Z.add_0_l in Hcl.
  pose proof (climb_words hashNode k 0 cap (fl, dg, cap)) as Hwords.
  destruct (climb _ _ _ _ _) as [[fl' dg'] di]. cbn [fst] in Hwords.
  assert (words_ok fl) as Hwf by (intros w Hw; apply H3; lia). specialize (Hwords Hwf). destruct Hcl as (L1 & L2 & L3 & L4 & L5).
  { lia. } { rewrite Hl, H1, Z.pow_add_r by lia. lia. } { lia. }
  { eapply tree_upto_change; [exact H4| |].
    - intros i Hi Hb. split; [done|]. rewrite Z.add_0_l, Hx. rewrite decide_False; [done|]. intros [_ E]. congruence.
    - intros x Hx'. rewrite Hx, decide_False; [done|]. intros [? _]. lia. }
  { intros j Hj. lia. }
  assert (forall i, in_table k i -> dg'.[i] = hashAsset ((assets u).[i])) as Hleaf'.
  { intros i Hi. rewrite L4 by (unfold in_table in Hi; lia). by apply Hleaf. }
  assert (forall j, in_table k j -> bit_of (fl'.[0 := 0]) j = false) as Hclear.
  { intros j Hj. unfold in_table in Hj. unfold bit_of. rewrite aget_aset. case_decide as Hd; [apply Z.testbit_0_l|].
    apply (L5 j). destruct (decide (j = 0)) as [->|]; [|lia]. exfalso. apply Hd. split; [done|]. lia. }
  split; [|split; [done|split; [done|split; [done|split]]]].
  - pose proof (tree_root hashNode dg' 0 k L3) as Hroot. rewrite Z.pow_add_r in Hroot by lia.
    replace (cap * 2 - 1 - 1) with (0 + cap * 2 ^ 1 - 2) by lia. rewrite Hroot. apply merkle_root_ext.
    intros i Hi. rewrite Z.add_0_l. by apply Hleaf'.
  - split; cbn [assetDigests assetChangeFlags assets].
    + lia.
    + rewrite alen_aset. lia.
    + intros w Hw. rewrite aget_aset. case_decide; [unfold is_u64; lia|].
      apply Hwords. lia.
    + by apply tree_upto_ok.
    + intros i Hi _. by apply Hleaf'.
  - exact Hclear.
Qed.

(** ** The operations flag what they change *)
Record touches u u' (l : list Z) : Prop := {
  to_digests : assetDigests u' = assetDigests u;
  to_flags : assetChangeFlags u' = flag_changes l (assetChangeFlags u);
  to_range : Forall (in_table k) l;
  to_other : forall j, ~ In j l -> (assets u').[j] = (assets u).[j]
}.

Lemma flag_changes_words l fl : words_ok fl -> words_ok (flag_changes l fl) /\ alen (flag_changes l fl) = alen fl.
Proof.
  revert fl. induction l as [|i l IH]; intros fl Hf; [done|]. cbn. destruct (IH (bit_set fl i)) as [H1 H2].
  - by apply bit_set_words.
  - split; [exact H1|]. unfold flag_changes in H2. rewrite H2. unfold bit_set. apply alen_aset.
Qed.

Lemma flag_changes_bit l fl j :
  alen fl = cap / 64 -> Forall (in_table k) l -> bit_of (flag_changes l fl) j = false ->
  bit_of fl j = false /\ ~ In j l.
Proof.
  revert fl. induction l as [|i l IH]; intros fl Hl Hf Hb; [split; [done|by intros []]|]. apply Forall_cons in Hf as [Hi Hf].
  destruct (IH (bit_set fl i)) as [H1 H2]; [unfold bit_set; by rewrite alen_aset|done|exact Hb|].
  pose proof universe_words as [Hc _]. unfold in_table in Hi. rewrite bit_set_get in H1.
  - apply orb_false_iff in H1 as [Hne Hj]. apply bool_decide_eq_false in Hne. split; [done|]. intros [E|E]; [by apply Hne|by apply H2].
  - rewrite bit_word_eq, Hl. Z.div_mod_to_equations; lia.
Qed.

Lemma touches_ok u u' l : touches u u' l -> flags_ok u -> flags_ok u'.
Proof.
  intros [E1 E2 Hr Ho] [H1 H2 H3 H4 H5].
  destruct (flag_changes_words l (assetChangeFlags u)) as [Hw Hl]; [intros w Hw; apply H3; lia|]. split.
  - by rewrite E1.
  - rewrite E2. lia.
  - intros w Hw'. rewrite E2. apply Hw. lia.
  - rewrite E1, E2. eapply tree_upto_change; [exact H4| |done]. intros i Hi Hb. split; [|done].
    by apply (flag_changes_bit l _ i H2 Hr).
  - intros i Hi. rewrite E1, E2. intros Hb. apply flag_changes_bit in Hb as [Hb Hn]; [|done|done].
    rewrite Ho by done. by apply H5.
Qed.

(** With all flags set nothing is assumed of the digests. *)
Lemma all_flags_ok u : alen (assetDigests u) = 2 * cap - 1 -> assetChangeFlags u = replicate (Z.to_nat (cap / 64)) (2 ^ 64 - 1) -> flags_ok u.
Proof.
  intros Hd Hf. pose proof universe_words as [Hc Hcap]. assert (forall i, in_table k i -> bit_of (assetChangeFlags u) i = true) as Hb.
  { intros i Hi. unfold in_table in Hi. unfold bit_of. rewrite Hf, aget_replicate by (rewrite bit_word_eq; Z.div_mod_to_equations; lia).
    replace (2 ^ 64 - 1) with (Z.ones 64) by reflexivity. apply Z.ones_spec_low. pose proof (bit_pos_range i). lia. }
  split; [done| | | |].
  - rewrite Hf, alen_replicate. lia.
  - intros w Hw. rewrite Hf, aget_replicate by lia. unfold is_u64. lia.
  - apply tree_upto_all. intros i Hi. by apply Hb.
  - intros i Hi E. by rewrite Hb in E.
Qed.

Lemma in_four (j a1 a2 a3 a4 : Z) : ~ In j [a1; a2; a3; a4] -> j <> a1 /\ j <> a2 /\ j <> a3 /\ j <> a4.
Proof. cbn. intuition. Qed.

(** One step of each operation, on a well-formed universe with free slots. *)
Inductive asset_op :=
| Issue (issuer name numberOfDecimalPlaces unitOfMeasurement numberOfShares managingContractIndex : Z)
| Transfer (sourceOwnershipIndex sourcePossessionIndex destinationPublicKey numberOfShares : Z)
| Manage (sourceOwnershipIndex sourcePossessionIndex ownershipManaging possessionManaging numberOfShares : Z)
| EndEpoch
| Digest.

Definition asset_step (o : asset_op) u : option (@Universe D * list (list AssetRecord * D)) :=
  match o with
  | Issue p nm dec un n m =>
      match issueAsset k p nm dec un n m u with Some (u', _, _, _) => Some (u', []) | None => None end
  | Transfer so sp dest n =>
      match transferShareOwnershipAndPossession k so sp dest n u with Some (u', _, _) => Some (u', []) | None => None end
  | Manage so sp om pm n =>
      match transferShareManagementRights k so sp om pm n u with Some (u', _, _) => Some (u', []) | None => None end
  | EndEpoch => match assetsEndEpoch k u with Some u' => Some (u', []) | None => None end
  | Digest => let '(u', d) := getUniverseDigest k hashAsset hashNode u in Some (u', [(assets u, d)])
  end.

Definition op_ok (o : asset_op) : Prop :=
  match o with
  | Issue _ _ _ _ n _ => 0 <= n < 2 ^ 63
  | Transfer so sp _ _ | Manage so sp _ _ _ => in_table k so /\ in_table k sp
  | EndEpoch | Digest => True
  end.

Definition step_result (u u' : @Universe D) (out : list (list AssetRecord * D)) : Prop :=
  universe_ok k (assets u') /\ flags_ok u' /\ used k (assets u') <= used k (assets u) + 3 /\
  Forall (fun '(a, d) => d = universe_root a) out.

Lemma move_step u so sp n dst :
  universe_ok k (assets u) -> flags_ok u -> used k (assets u) + 3 < cap -> in_table k so -> in_table k sp ->
  0 < n -> can_transfer so sp n (assets u) = true -> po_issuance dst = rec_link ((assets u).[so]) ->
  exists u' dO dP, moveShares k so sp (po_owner dst) (po_om dst) (po_possessor dst) (po_pm dst) n u = Some (u', dO, dP) /\
    forall m, step_result u (add_log m u') [].
Proof.
  intros Hok Hfl Hu Hso Hsp Hn Hct Hd.
  destruct (moveShares_ok k Hk_table u so sp n dst Hok Hso Hsp ltac:(lia) Hn Hct Hd) as
    (u' & dO & dP & He & HdO & HdP & Heff & Hf & Hdg).
  exists u', dO, dP. split; [done|]. intros m. destruct Heff as [Hok' _ _ Hus _ Hoth _ _]. split; [done|].
  split; [|split; [cbn; lia|done]]. eapply (touches_ok u _ [so; sp; dO; dP]); [|done]. split; cbn; try done.
  - by rewrite !Forall_cons, Forall_nil.
  - intros j (H1 & H2 & H3 & H4)%in_four. by apply Hoth.
Qed.

Lemma burn_step u so sp n dest :
  universe_ok k (assets u) -> flags_ok u -> in_table k so -> in_table k sp -> 0 < n ->
  can_transfer so sp n (assets u) = true ->
  let a := (assets u).[so := add_shares (- n) ((assets u).[so])] in
  let a := a.[sp := add_shares (- n) (a.[sp])] in
  step_result u (log_change so sp dest n
    (with_flags (flag_changes [so; sp] (assetChangeFlags u)) (with_assets a (indexLists u) u))) [].
Proof.
  intros Hok Hfl Hso Hsp Hn Hct. destruct (burn_ok k Hk_table (assets u) so sp n Hok Hso Hsp Hn Hct) as (Hok' & _ & _ & Hsk & Hoth).
  split; [exact Hok'|]. split; [|split; [|done]].
  - eapply (touches_ok u _ [so; sp]); [|done]. split; cbn; try done.
    + by rewrite !Forall_cons, Forall_nil.
    + intros j Hj. apply Hoth; intros ->; apply Hj; auto.
  - match goal with |- used k ?a <= _ => assert (used k a = used k (assets u)) as E; [|lia] end.
    apply countZ_ext. intros j Hj%(asset_index k Hk_table). f_equal.
    by destruct (skeleton_kind _ _ (Hsk j Hj)) as (E & _).
Qed.

Lemma asset_step_ok o u :
  universe_ok k (assets u) -> flags_ok u -> used k (assets u) + 3 < cap -> op_ok o ->
  exists u' out, asset_step o u = Some (u', out) /\ step_result u u' out.
Proof.
  intros Hok Hfl Hu Ho. assert (step_result u u []) as Hsame by (by repeat (split; [done || lia|])).
  destruct o as [p nm dec un n m|so sp dest n|so sp om pm n| |]; cbn [asset_step op_ok] in *.
  - destruct (issueAsset_cases k Hk_table u p nm dec un n m Hok ltac:(lia) Ho) as (i & Hi & [[He _]|(o & q & He & Hr)]);
      rewrite He; [by exists u, []|]. destruct Hr as (_ & _ & Hio & Hiq & Hus & Hok' & _ & _ & Hoth & _).
    eexists _, []. split; [done|]. split; [done|]. split; [|split; [lia|done]].
    eapply (touches_ok u _ [i; o; q]); [|done]. split; cbn [issued add_log with_flags with_assets assetDigests assetChangeFlags]; try done.
    + by rewrite !Forall_cons, Forall_nil.
    + intros j Hj. apply Hoth; intros ->; apply Hj; cbn; auto.
  - destruct Ho as [Hso Hsp]. unfold transferShareOwnershipAndPossession.
    destruct (Z.leb_spec n 0); [by exists u, []|].
    destruct (can_transfer so sp n (assets u)) eqn:Hct; cbn [negb]; [|by exists u, []].
    destruct (isZero dest).
    + destruct (isZero (rec_publicKey _)); [by exists u, []|]. eexists _, []. split; [done|]. by apply burn_step.
    + destruct (move_step u so sp n (mkPosition (rec_link ((assets u).[so])) dest (rec_managing ((assets u).[so])) dest
        (rec_managing ((assets u).[sp])))) as (u' & dO & dP & He & Hm); try done.
      cbn [po_owner po_om po_possessor po_pm] in He. rewrite He. eexists _, []. split; [done|]. apply Hm.
  - destruct Ho as [Hso Hsp]. unfold transferShareManagementRights.
    destruct (Z.leb_spec n 0); [by exists u, []|].
    destruct (can_transfer so sp n (assets u)) eqn:Hct; cbn [negb]; [|by exists u, []].
    destruct (move_step u so sp n (mkPosition (rec_link ((assets u).[so])) (rec_publicKey ((assets u).[so])) om
      (rec_publicKey ((assets u).[sp])) pm)) as (u' & dO & dP & He & Hm); try done.
    cbn [po_owner po_om po_possessor po_pm] in He. rewrite He. eexists _, []. split; [done|]. apply Hm.
  - destruct (endEpoch_inv k Hk_table u Hok ltac:(lia)) as (u' & -> & (Hok' & Hu' & _ & Hf & Hdg & _) & _). eexists _, []. split; [done|]. split; [done|]. split; [|split; [lia|done]].
    apply all_flags_ok; [by rewrite Hdg; apply Hfl|done].
  - pose proof (getUniverseDigest_ok u Hfl) as Hg. destruct (getUniverseDigest _ _ _ _) as [u' d].
    destruct Hg as (-> & E & _ & _ & Hfl' & _). eexists _, _. split; [done|]. unfold step_result. rewrite E.
    split; [done|]. split; [done|]. split; [lia|]. by constructor.
Qed.

Fixpoint asset_run (ops : list asset_op) u : option (@Universe D * list (list AssetRecord * D)) :=
  match ops with
  | [] => Some (u, [])
  | o :: ops =>
      match asset_step o u with
      | None => None
      | Some (u1, out1) =>
          match asset_run ops u1 with None => None | Some (u2, out2) => Some (u2, out1 ++ out2) end
      end
  end.

(** C4: for every sequence of issuances, transfers, burns, management transfers, ends of epochs and digests
    that fits into the free slots, all loops end, the universe stays well formed, and every
    digest is the Merkle root over all records of the universe at that moment, although
    only flagged slots and the nodes above them are hashed and empty flag words are skipped. *)
Theorem universe_digest_correct ops u :
  universe_ok k (assets u) -> flags_ok u -> Forall op_ok ops ->
  used k (assets u) + 3 * Z.of_nat (length ops) < cap ->
  exists u' out, asset_run ops u = Some (u', out) /\ universe_ok k (assets u') /\ flags_ok u' /\
    Forall (fun '(a, d) => d = universe_root a) out.
Proof.
  revert u. induction ops as [|o ops IH]; intros u Hok Hfl Hops Hu; cbn [asset_run length] in *; [by exists u, []|].
  apply Forall_cons in Hops as [Ho Hops].
  destruct (asset_step_ok o u Hok Hfl ltac:(lia) Ho) as (u1 & out1 & -> & Hok1 & Hfl1 & Hu1 & Hout1).
  destruct (IH u1 Hok1 Hfl1 Hops ltac:(lia)) as (u2 & out2 & -> & Hok2 & Hfl2 & Hout2).
  exists u2, (out1 ++ out2). split; [done|]. split; [done|]. split; [done|]. by apply Forall_app.
Qed.

(** initAssets: an empty universe with all flags set. *)
Definition emptyUniverse : @Universe D :=
  mkUniverse (replicate capn EMPTY) (replicate (Z.to_nat (2 * cap - 1)) inhabitant)
    (replicate (Z.to_nat (cap / 64)) (2 ^ 64 - 1))
    (mkLists NO_ASSET_INDEX (replicate capn NO_ASSET_INDEX) (replicate capn NO_ASSET_INDEX)) [].

Lemma emptyUniverse_ok : universe_ok k (assets emptyUniverse) /\ flags_ok emptyUniverse /\ used k (assets emptyUniverse) = 0.
Proof.
  pose proof universe_words as [Hc Hcap]. split; [apply (empty_universe_ok k), Hk_table|]. split.
  - apply all_flags_ok; [|done]. unfold emptyUniverse. cbn [assetDigests]. rewrite alen_replicate. lia.
  - unfold used, emptyUniverse. cbn [assets]. apply sumZ_zero. intros i Hi. by rewrite aget_replicate.
Qed.
End Digest.

(** ** A concrete run: 64 slots *)
Definition ex_asset_leaf (r : AssetRecord) : Z := rec_publicKey r + 3 * rec_shares r + 7 * rec_link r + 1.
Definition ex_asset_node (a b : Z) : Z := (31 * a + b + 5) mod 2 ^ 61.
Definition ex_asset_ops : list asset_op :=
  [Issue 70 77 0 0 100 1; Digest; Transfer 7 8 9 30; Manage 7 8 2 2 10; Digest; EndEpoch; Digest; Transfer 7 8 0 5; Digest].

Lemma universe_digest_correct_witness :
  exists u' out, asset_run 6 ex_asset_leaf ex_asset_node ex_asset_ops (emptyUniverse 6) = Some (u', out) /\
    Forall (fun '(a, d) => d = universe_root 6 ex_asset_leaf ex_asset_node a) out.
Proof.
  destruct (emptyUniverse_ok 6 ltac:(lia) ex_asset_leaf ex_asset_node) as (H1 & H2 & H3).
  destruct (universe_digest_correct 6 ltac:(lia) ex_asset_leaf ex_asset_node ex_asset_ops (emptyUniverse 6) H1 H2)
    as (u' & out & H & _ & _ & Ho).
  - repeat constructor; unfold in_table; lia.
  - rewrite H3. reflexivity.
  - exists u', out. split; [exact H|exact Ho].
Defined.
