(* ===== verification/AssetIterators.v ===== *)
(** * Asset iterators and numberOfShares (qpi/qpi_assets.h, qpi/impl/qpi_assets_impl.h, assets/assets.h)

    An iterator for a given owner or possessor follows the probe sequence of the hash table, the others follow the index lists.  Loops that need not end return
    [None] when they run out of steps: a walk along an index list gets one step per slot and one more. *)
From S2P Require Import Prelude OpenAddressing Containers Spectrum Assets.

Record Asset := mkAsset { issuer : Z; assetName : Z }.
Record AssetIssuanceSelect := mkIssuanceSelect { is_issuer : Z; is_assetName : Z; anyIssuer : bool; anyName : bool }.
Record AssetOwnershipSelect := mkOwnershipSelect { os_owner : Z; os_managingContract : Z; anyOwner : bool; os_anyManagingContract : bool }.
Record AssetPossessionSelect := mkPossessionSelect { ps_possessor : Z; ps_managingContract : Z; anyPossessor : bool; ps_anyManagingContract : bool }.
Definition any_issuance : AssetIssuanceSelect := mkIssuanceSelect 0 0 true true.
Definition any_ownership : AssetOwnershipSelect := mkOwnershipSelect 0 0 true true.
Definition any_possession : AssetPossessionSelect := mkPossessionSelect 0 0 true true.
Definition byIssuer (issuer : Z) : AssetIssuanceSelect := mkIssuanceSelect issuer 0 false true.
Definition byName (assetName : Z) : AssetIssuanceSelect := mkIssuanceSelect 0 assetName true false.
Definition byOwner (owner : Z) : AssetOwnershipSelect := mkOwnershipSelect owner 0 false true.
Definition os_byManagingContract (managingContract : Z) : AssetOwnershipSelect := mkOwnershipSelect 0 managingContract true false.
Definition byPossessor (possessor : Z) : AssetPossessionSelect := mkPossessionSelect possessor 0 false true.
Definition ps_byManagingContract (managingContract : Z) : AssetPossessionSelect := mkPossessionSelect 0 managingContract true false.

Record IssuanceIterator := mkIssuanceIterator { ii_issuance : AssetIssuanceSelect; ii_issuanceIdx : Z }.
Record OwnershipIterator := mkOwnershipIterator { oi_issuanceIdx : Z; oi_ownership : AssetOwnershipSelect; oi_ownershipIdx : Z }.
Record PossessionIterator := mkPossessionIterator { pi_owner : OwnershipIterator; pi_possession : AssetPossessionSelect; pi_possessionIdx : Z }.

(** The records that the search loops of the iterators accept *)
Definition select_issuance (s : AssetIssuanceSelect) (r : AssetRecord) : bool :=
  match r with ISSUANCE p n _ _ => (anyIssuer s || (p =? is_issuer s)) && (anyName s || (n =? is_assetName s)) | _ => false end.
Definition select_ownership (issuanceIdx : Z) (s : AssetOwnershipSelect) (r : AssetRecord) : bool :=
  match r with OWNERSHIP p m i _ => (i =? issuanceIdx) && (anyOwner s || (p =? os_owner s)) && (os_anyManagingContract s || (m =? os_managingContract s)) | _ => false end.
Definition select_possession (ownershipIdx : Z) (s : AssetPossessionSelect) (r : AssetRecord) : bool :=
  match r with POSSESSION p m o _ => (o =? ownershipIdx) && (anyPossessor s || (p =? ps_possessor s)) && (ps_anyManagingContract s || (m =? ps_managingContract s)) | _ => false end.

Section Iterators.
Variable k : nat.
Abbreviation ASSETS_CAPACITY := (2 ^ Z.of_nat k).
Abbreviation capn := (Z.to_nat ASSETS_CAPACITY).
Context {D : Type}.
Implicit Types u : @Universe D.

(** The next candidate in the hash table: from the home of [key], or behind the current slot, up to an empty slot *)
Definition probe_next (P : AssetRecord -> bool) (key idx : Z) u : option Z :=
  let start := if idx =? NO_ASSET_INDEX then asset_home k key else Z.land (idx + 1) (ASSETS_CAPACITY - 1) in
  asset_probe k (fun idx => if is_empty ((assets u).[idx]) then Some NO_ASSET_INDEX else if P ((assets u).[idx]) then Some idx else None) start.

(** The next candidate in an index list: [while (idx != NO_ASSET_INDEX && ...) idx = nextIdx[idx]] *)
Fixpoint skip_list (fuel : nat) (P : AssetRecord -> bool) (idx : Z) u : option Z :=
  match fuel with
  | O => None
  | S fuel => if idx =? NO_ASSET_INDEX then Some idx else if P ((assets u).[idx]) then Some idx else skip_list fuel P ((nextIdx (indexLists u)).[idx]) u
  end.
Definition list_next (P : AssetRecord -> bool) (first idx : Z) u : option Z :=
  skip_list (S capn) P (if idx =? NO_ASSET_INDEX then first else (nextIdx (indexLists u)).[idx]) u.

(** ** AssetIssuanceIterator *)
Definition issuance_next (it : IssuanceIterator) u : option (IssuanceIterator * bool) :=
  let s := ii_issuance it in
  match (if negb (anyIssuer s) then probe_next (select_issuance s) (is_issuer s) (ii_issuanceIdx it) u
         else list_next (fun r => anyName s || (rec_name r =? is_assetName s)) (issuancesFirstIdx (indexLists u)) (ii_issuanceIdx it) u) with
  | None => None
  | Some idx => Some (mkIssuanceIterator s idx, negb (idx =? NO_ASSET_INDEX))
  end.
Definition issuance_begin (s : AssetIssuanceSelect) u : option IssuanceIterator :=
  match issuance_next (mkIssuanceIterator s NO_ASSET_INDEX) u with Some (it, _) => Some it | None => None end.

(** The record an iterator is at, EMPTY if it is at no record *)
Definition record_at (idx : Z) u : AssetRecord := if idx <? ASSETS_CAPACITY then (assets u).[idx] else EMPTY.
Definition ii_issuer (it : IssuanceIterator) u : Z := rec_publicKey (record_at (ii_issuanceIdx it) u).
Definition ii_assetName (it : IssuanceIterator) u : Z := rec_name (record_at (ii_issuanceIdx it) u).
Definition ii_asset (it : IssuanceIterator) u : Asset := mkAsset (ii_issuer it u) (ii_assetName it u).

(** ** AssetOwnershipIterator *)
Definition ownership_next (it : OwnershipIterator) u : option (OwnershipIterator * bool) :=
  let s := oi_ownership it in
  match (if negb (anyOwner s) then probe_next (select_ownership (oi_issuanceIdx it) s) (os_owner s) (oi_ownershipIdx it) u
         else list_next (fun r => os_anyManagingContract s || (rec_managing r =? os_managingContract s))
                ((ownershipsPossessionsFirstIdx (indexLists u)).[oi_issuanceIdx it]) (oi_ownershipIdx it) u) with
  | None => None
  | Some idx => Some (mkOwnershipIterator (oi_issuanceIdx it) s idx, negb (idx =? NO_ASSET_INDEX))
  end.
Definition ownership_begin (a : Asset) (s : AssetOwnershipSelect) u : option OwnershipIterator :=
  match issuanceIndex k (issuer a) (assetName a) u with
  | None => None
  | Some issuanceIdx =>
      let it := mkOwnershipIterator issuanceIdx s NO_ASSET_INDEX in
      if issuanceIdx =? NO_ASSET_INDEX then Some it
      else match ownership_next it u with Some (it, _) => Some it | None => None end
  end.
Definition numberOfOwnedShares (it : OwnershipIterator) u : Z :=
  if oi_ownershipIdx it <? ASSETS_CAPACITY then rec_shares ((assets u).[oi_ownershipIdx it]) else -1.

Definition oi_issuer (it : OwnershipIterator) u : Z := rec_publicKey (record_at (oi_issuanceIdx it) u).
Definition oi_assetName (it : OwnershipIterator) u : Z := rec_name (record_at (oi_issuanceIdx it) u).
Definition oi_owner (it : OwnershipIterator) u : Z := rec_publicKey (record_at (oi_ownershipIdx it) u).
Definition ownershipManagingContract (it : OwnershipIterator) u : Z := rec_managing (record_at (oi_ownershipIdx it) u).

(** ** AssetPossessionIterator *)

(** The next possession of the current ownership *)
Definition possession_of_owner (it : PossessionIterator) u : option Z :=
  let s := pi_possession it in let o := oi_ownershipIdx (pi_owner it) in
  if negb (anyPossessor s) then probe_next (select_possession o s) (ps_possessor s) (pi_possessionIdx it) u
  else list_next (fun r => ps_anyManagingContract s || (rec_managing r =? ps_managingContract s)) ((ownershipsPossessionsFirstIdx (indexLists u)).[o]) (pi_possessionIdx it) u.

(** [do ... while (AssetOwnershipIterator::next())] *)
Fixpoint possession_next (fuel : nat) (it : PossessionIterator) u : option (PossessionIterator * bool) :=
  match fuel with
  | O => None
  | S fuel =>
      match possession_of_owner it u with
      | None => None
      | Some idx =>
          if negb (idx =? NO_ASSET_INDEX) then Some (mkPossessionIterator (pi_owner it) (pi_possession it) idx, true)
          else
            match ownership_next (pi_owner it) u with
            | None => None
            | Some (owner, more) =>
                let it := mkPossessionIterator owner (pi_possession it) NO_ASSET_INDEX in
                if more then possession_next fuel it u else Some (it, false)
            end
      end
  end.
Definition possession_begin (a : Asset) (os : AssetOwnershipSelect) (ps : AssetPossessionSelect) u : option PossessionIterator :=
  match ownership_begin a os u with
  | None => None
  | Some owner =>
      let it := mkPossessionIterator owner ps NO_ASSET_INDEX in
      if (oi_issuanceIdx owner =? NO_ASSET_INDEX) || (oi_ownershipIdx owner =? NO_ASSET_INDEX) then Some it
      else match possession_next (S capn) it u with Some (it, _) => Some it | None => None end
  end.
Definition it_numberOfPossessedShares (it : PossessionIterator) u : Z :=
  if pi_possessionIdx it <? ASSETS_CAPACITY then rec_shares ((assets u).[pi_possessionIdx it]) else -1.
Definition pi_possessor (it : PossessionIterator) u : Z := rec_publicKey (record_at (pi_possessionIdx it) u).
Definition possessionManagingContract (it : PossessionIterator) u : Z := rec_managing (record_at (pi_possessionIdx it) u).

(** ** numberOfShares *)
Fixpoint sum_ownerships (fuel : nat) (it : OwnershipIterator) (numOfShares : Z) u : option Z :=
  match fuel with
  | O => None
  | S fuel =>
      if oi_ownershipIdx it =? NO_ASSET_INDEX then Some numOfShares
      else match ownership_next it u with None => None | Some (it', _) => sum_ownerships fuel it' (s64 (numOfShares + numberOfOwnedShares it u)) u end
  end.
Fixpoint sum_possessions (fuel : nat) (it : PossessionIterator) (numOfShares : Z) u : option Z :=
  match fuel with
  | O => None
  | S fuel =>
      if pi_possessionIdx it =? NO_ASSET_INDEX then Some numOfShares
      else match possession_next (S capn) it u with None => None | Some (it', _) => sum_possessions fuel it' (s64 (numOfShares + it_numberOfPossessedShares it u)) u end
  end.
Definition numberOfShares (a : Asset) (os : AssetOwnershipSelect) (ps : AssetPossessionSelect) u : option Z :=
  if anyPossessor ps && ps_anyManagingContract ps then
    match ownership_begin a os u with None => None | Some it => sum_ownerships (S capn) it 0 u end
  else
    match possession_begin a os ps u with None => None | Some it => sum_possessions (S capn) it 0 u end.
End Iterators.
