(* ===== verification/AssetEnumeration.v ===== *)
(** * What the asset iterators visit

    In every universe that the operations reach, an iterator visits exactly the records that its filter selects, each once, and numberOfShares adds up exactly their shares.

    The lists of all issuances, of the ownerships of an issuance and of the possessions of an ownership hold exactly these records after every operation. *)
From S2P Require Import Prelude OpenAddressing OccupationFlags Containers Merkle Spectrum Assets AssetLedger AssetEpoch AssetDigest AssetIterators.

(** ** The index lists *)
Section lists.
Variable k : nat.
Hypothesis Hk : (6 <= k <= 31)%nat.
Abbreviation cap := (2 ^ Z.of_nat k).
Abbreviation capn := (Z.to_nat cap).
Implicit Types (a : list AssetRecord) (l : IndexLists) (s : list Z).

Lemma Hk_lists : (2 <= k <= 31)%nat.
Proof. lia. Qed.

(** The list from [first] holds the slots with [P], each once. *)
Definition enumerates (next : list Z) (first : Z) a (P : AssetRecord -> bool) : Prop :=
  exists s, chain next first s /\ NoDup s /\ forall j, j ∈ s <-> in_table k j /\ P (a.[j]) = true.
Record lists_ok a l : Prop := {
  ls_table : alen a = cap;
  ls_first : alen (ownershipsPossessionsFirstIdx l) = cap;
  ls_next : alen (nextIdx l) = cap;
  ls_issuances : enumerates (nextIdx l) (issuancesFirstIdx l) a is_issuance;
  ls_linked : forall i, in_table k i -> enumerates (nextIdx l) ((ownershipsPossessionsFirstIdx l).[i]) a (linked_to i) }.

Lemma slots_from_in a P j : j ∈ slots_from k a P 0 <-> in_table k j /\ P (a.[j]) = true.
Proof. unfold slots_from. rewrite list_elem_of_filter, elem_of_seqZ, Z.sub_0_r, Z.add_0_l. unfold in_table. tauto. Qed.

Lemma listed_ok a l : alen a = cap -> listed k a l 0 -> lists_ok a l.
Proof.
  intros Hl [H1 H2 H3 H4]. split; [done|done|done| |].
  - exists (slots_from k a is_issuance 0). split; [done|]. split; [apply NoDup_filter, NoDup_seqZ|]. intros j. apply slots_from_in.
  - intros i Hi. exists (slots_from k a (linked_to i) 0). split; [by apply H4|]. split; [apply NoDup_filter, NoDup_seqZ|]. intros j. apply slots_from_in.
Qed.

(** ** Changes of a table *)
Lemma enumerates_ext next first a a' (P : AssetRecord -> bool) : (forall j, P (a'.[j]) = P (a.[j])) -> enumerates next first a P -> enumerates next first a' P.
Proof. intros HP (s & Hc & Hn & Hs). exists s. split; [done|]. split; [done|]. intros j. by rewrite HP. Qed.

Lemma skeleton_linked r r' i : skeleton r = skeleton r' -> linked_to i r = linked_to i r'.
Proof. by destruct r, r'; cbn; intros [=]; subst. Qed.
Lemma lists_ok_skeleton a a' l : alen a' = alen a -> (forall j, skeleton (a'.[j]) = skeleton (a.[j])) -> lists_ok a l -> lists_ok a' l.
Proof.
  intros Hlen Hs [H1 H2 H3 H4 H5]. split; [lia|done|done| |].
  - eapply enumerates_ext; [|exact H4]. intros j. by destruct (skeleton_kind _ _ (Hs j)) as (_ & ? & _).
  - intros i Hi. eapply enumerates_ext; [|by apply H5]. intros j. by apply skeleton_linked.
Qed.
Lemma lists_ok_shares a i d l : lists_ok a l -> lists_ok (a.[i := add_shares d (a.[i])]) l.
Proof.
  intros Hl. apply (lists_ok_skeleton a); [by rewrite alen_aset| |done]. intros j. rewrite aget_aset. case_decide as Hd; [|done]. destruct Hd as [<- _]. by destruct (a.[i]).
Qed.

Lemma enumerates_push next first a n r (P : AssetRecord -> bool) : alen a = cap -> alen next = cap -> in_table k n -> P EMPTY = false -> a.[n] = EMPTY -> P r = true ->
  enumerates next first a P -> enumerates (next.[n := first]) n (a.[n := r]) P.
Proof.
  intros Ha Hl Hn He Hna Hr (s & Hc & Hnd & Hs). assert (n ∉ s) as Hns by (intros Hin; apply Hs in Hin as [_ HP]; rewrite Hna in HP; congruence). unfold in_table in Hn.
  exists (n :: s). split; [cbn [chain]; split; [done|]; rewrite aget_aset_eq by lia; by apply chain_write|]. split; [by constructor|]. intros j. rewrite elem_of_cons, Hs, (awrite k Hk_lists) by done.
  case_decide as Hd; [subst; split; [by intros _|by left]|]. split; [by intros [?|?]|by right].
Qed.
Lemma enumerates_skip next first a n r x (P : AssetRecord -> bool) : alen a = cap -> in_table k n -> P EMPTY = false -> a.[n] = EMPTY -> P r = false ->
  enumerates next first a P -> enumerates (next.[n := x]) first (a.[n := r]) P.
Proof.
  intros Ha Hn He Hna Hr (s & Hc & Hnd & Hs). assert (n ∉ s) as Hns by (intros Hin; apply Hs in Hin as [_ HP]; rewrite Hna in HP; congruence).
  exists s. split; [by apply chain_write|]. split; [done|]. intros j. rewrite Hs, (awrite k Hk_lists) by done. case_decide as Hd; [|done]. subst. rewrite Hna, He, Hr. done.
Qed.

(** A new record, entered into its list *)
Lemma lists_ok_issuance a l n p nm dec un : lists_ok a l -> in_table k n -> a.[n] = EMPTY -> lists_ok (a.[n := ISSUANCE p nm dec un]) (addIssuance n l).
Proof.
  intros [H1 H2 H3 H4 H5] Hn Hna. unfold addIssuance. split; cbn [issuancesFirstIdx ownershipsPossessionsFirstIdx nextIdx]; rewrite ?alen_aset; [done|done|done|by apply enumerates_push|].
  intros i Hi. by apply enumerates_skip; [..|apply H5].
Qed.
Lemma lists_ok_link a l n i r : lists_ok a l -> in_table k n -> in_table k i -> a.[n] = EMPTY -> is_issuance r = false -> (forall i', linked_to i' r = (i' =? i)) ->
  lists_ok (a.[n := r]) (addOwnership i n l).
Proof.
  intros [H1 H2 H3 H4 H5] Hn Hi Hna Hr Hl. unfold addOwnership. split; cbn [issuancesFirstIdx ownershipsPossessionsFirstIdx nextIdx]; rewrite ?alen_aset; [done|done|done|by apply enumerates_skip|].
  intros i' Hi'. unfold in_table in Hi. destruct (decide (i' = i)) as [->|Hne].
  - rewrite aget_aset_eq by lia. apply enumerates_push; [done|done|done|done|done|by rewrite Hl, Z.eqb_refl|by apply H5].
  - rewrite aget_aset_ne by done. apply enumerates_skip; [done|done|done|done|rewrite Hl; by apply Z.eqb_neq|by apply H5].
Qed.
Lemma lists_ok_ownership a l n i p m x : lists_ok a l -> in_table k n -> in_table k i -> a.[n] = EMPTY -> lists_ok (a.[n := OWNERSHIP p m i x]) (addOwnership i n l).
Proof. intros Hl Hn Hi Hna. apply lists_ok_link; [done|done|done|done|done|]. intros i'. cbn. apply Z.eqb_sym. Qed.
Lemma lists_ok_possession a l n i p m x : lists_ok a l -> in_table k n -> in_table k i -> a.[n] = EMPTY -> lists_ok (a.[n := POSSESSION p m i x]) (addPossession i n l).
Proof. intros Hl Hn Hi Hna. apply (lists_ok_link a l n i); [done|done|done|done|done|]. intros i'. cbn. apply Z.eqb_sym. Qed.

(** ** The operations *)
Context {D : Type} `{!Inhabited D}.
Variables (hashAsset : AssetRecord -> D) (hashNode : D -> D -> D).
Implicit Types u : @Universe D.
Definition indexed u : Prop := lists_ok (assets u) (indexLists u).

Lemma probe_slot {R} (stop : Z -> option R) h r : in_table k h -> asset_probe k stop h = Some r -> exists j, in_table k j /\ stop j = Some r.
Proof. intros Hh Hp. apply probe_Some in Hp as (j & _ & Hs & _); [|done]. eexists. split; [apply nth_slot_in|done]. Qed.

Lemma issueAsset_indexed p nm dec un n m u u' r i x : indexed u -> issueAsset k p nm dec un n m u = Some (u', r, i, x) -> indexed u'.
Proof.
  intros Hu. unfold issueAsset. destruct (asset_probe k _ (asset_home k p)) as [[i1 new]|] eqn:E1; [|done]. apply probe_slot in E1 as (j & Hj & E1); [|apply land_in_table].
  destruct new; [|by intros [= <- _ _ _]]. destruct (is_empty ((assets u).[j])) eqn:He; [|by destruct (same_issuance _ _ _)]. injection E1 as <-. apply is_empty_spec in He.
  pose proof (lists_ok_issuance _ _ j p nm dec un Hu Hj He) as L1. set (a1 := (assets u).[j := _]) in *.
  destruct (asset_probe k _ (Z.land (j + 1) _)) as [o|] eqn:E2; [|done]. apply probe_slot in E2 as (o' & Ho & E2); [|apply land_in_table].
  destruct (is_empty (a1.[o'])) eqn:He2; [|done]. injection E2 as ->. apply is_empty_spec in He2. pose proof (lists_ok_ownership _ _ o j p m n L1 Ho Hj He2) as L2. set (a2 := a1.[o := _]) in *.
  destruct (asset_probe k _ (Z.land (o + 1) _)) as [q|] eqn:E3; [|done]. apply probe_slot in E3 as (q' & Hq & E3); [|apply land_in_table].
  destruct (is_empty (a2.[q'])) eqn:He3; [|done]. injection E3 as ->. apply is_empty_spec in He3. intros [= <- _ _ _]. exact (lists_ok_possession _ _ q o p m n L2 Hq Ho He3).
Qed.

Lemma moveShares_indexed so sp ok om pk pm n u u' dO dP : indexed u -> in_table k (rec_link ((assets u).[so])) ->
  moveShares k so sp ok om pk pm n u = Some (u', dO, dP) -> indexed u'.
Proof.
  intros Hu Hi. unfold moveShares. set (i := rec_link _) in *. destruct (asset_probe k _ (asset_home k ok)) as [dO'|] eqn:E1; [|done]. apply probe_slot in E1 as (j & Hj & E1); [|apply land_in_table].
  assert (j = dO') as -> by (unfold empty_or in E1; destruct (_ || _); congruence). cbv zeta. pose proof (lists_ok_shares _ so (- n) _ Hu) as L1. set (a1 := (assets u).[so := _]) in *.
  match goal with |- context [if is_empty (a1.[dO']) then ?x else ?y] => set (st := if is_empty (a1.[dO']) then x else y) end.
  assert (lists_ok st.1 st.2) as L2 by (unfold st; destruct (is_empty (a1.[dO'])) eqn:He; [apply is_empty_spec in He; by apply lists_ok_ownership|done]).
  destruct st as [a2 l2]. cbn [fst snd] in L2. pose proof (lists_ok_shares _ dO' n _ L2) as L3. set (a3 := a2.[dO' := _]) in *.
  destruct (asset_probe k _ (asset_home k pk)) as [dP'|] eqn:E2; [|done]. apply probe_slot in E2 as (j2 & Hj2 & E2); [|apply land_in_table].
  assert (j2 = dP') as -> by (unfold empty_or in E2; destruct (_ || _); congruence). pose proof (lists_ok_shares _ sp (- n) _ L3) as L4. set (a4 := a3.[sp := _]) in *.
  match goal with |- context [if is_empty (a4.[dP']) then ?x else ?y] => set (st := if is_empty (a4.[dP']) then x else y) end.
  assert (lists_ok st.1 st.2) as L5 by (unfold st; destruct (is_empty (a4.[dP'])) eqn:He; [apply is_empty_spec in He; by apply lists_ok_possession|done]).
  destruct st as [a5 l5]. cbn [fst snd] in L5. intros [= <- _ _]. exact (lists_ok_shares _ dP' n _ L5).
Qed.

Lemma can_transfer_link so sp n u : universe_ok k (assets u) -> in_table k so -> can_transfer so sp n (assets u) = true -> in_table k (rec_link ((assets u).[so])).
Proof.
  intros Hok Hso. unfold can_transfer. destruct ((assets u).[so]) as [| |p m i x|] eqn:E; try done. intros _. cbn. by destruct (lo_own _ _ (uo_links _ _ Hok) so _ _ _ _ Hso E).
Qed.

Lemma asset_step_indexed o u u' out : universe_ok k (assets u) -> used k (assets u) < cap -> op_ok k o -> indexed u -> asset_step k hashAsset hashNode o u = Some (u', out) -> indexed u'.
Proof.
  intros Hok Hus Ho Hu. destruct o as [p nm dec un n m|so sp dest n|so sp om pm n| |]; cbn [asset_step op_ok] in *.
  - destruct (issueAsset k p nm dec un n m u) as [[[[u1 r] i] x]|] eqn:E; [|done]. intros [= <- _]. by apply (issueAsset_indexed p nm dec un n m u u1 r i x).
  - unfold transferShareOwnershipAndPossession. destruct (n <=? 0); [by intros [= <- _]|]. destruct (can_transfer so sp n (assets u)) eqn:Hct; cbn [negb]; [|by intros [= <- _]].
    destruct (isZero dest).
    + destruct (isZero _); [by intros [= <- _]|]. intros [= <- _]. apply lists_ok_shares. by apply lists_ok_shares.
    + destruct (moveShares _ _ _ _ _ _ _ _ _) as [[[u1 dO] dP]|] eqn:E; [|done]. intros [= <- _]. apply moveShares_indexed in E; [done|done|]. by apply (can_transfer_link so sp n); [|apply Ho|].
  - unfold transferShareManagementRights. destruct (n <=? 0); [by intros [= <- _]|]. destruct (can_transfer so sp n (assets u)) eqn:Hct; cbn [negb]; [|by intros [= <- _]].
    destruct (moveShares _ _ _ _ _ _ _ _ _) as [[[u1 dO] dP]|] eqn:E; [|done]. intros [= <- _]. apply moveShares_indexed in E; [done|done|]. by apply (can_transfer_link so sp n); [|apply Ho|].
  - destruct (endEpoch_inv k ltac:(lia) u Hok Hus) as (u1 & -> & (Hok' & _ & Hl & _) & _). intros [= <- _]. apply listed_ok; [apply Hok'|done].
  - unfold getUniverseDigest. destruct (climb _ _ _ _ _) as [[fl dg] x]. intros [= <- _]. done.
Qed.

Lemma empty_indexed : indexed (emptyUniverse k (D := D)).
Proof.
  assert (forall i, (replicate capn EMPTY).[i] = EMPTY) as He.
  { intros i. destruct (decide (0 <= i < Z.of_nat capn)); [by apply aget_replicate|]. rewrite aget_out; [done|]. rewrite alen_replicate. lia. }
  unfold indexed, emptyUniverse. cbn [assets indexLists]. split; cbn [issuancesFirstIdx ownershipsPossessionsFirstIdx nextIdx]; [rewrite alen_replicate; lia..| |].
  - exists []. split; [done|]. split; [constructor|]. intros j. rewrite He. set_solver.
  - intros i Hi. exists []. split; [cbn [chain]; by rewrite aget_replicate by (unfold in_table in Hi; lia)|]. split; [constructor|]. intros j. rewrite He. set_solver.
Qed.

Lemma run_indexed ops : forall u u' out, universe_ok k (assets u) -> flags_ok k hashAsset hashNode u -> Forall (op_ok k) ops -> used k (assets u) + 3 * Z.of_nat (length ops) < cap -> indexed u ->
  asset_run k hashAsset hashNode ops u = Some (u', out) -> universe_ok k (assets u') /\ used k (assets u') < cap /\ indexed u'.
Proof.
  induction ops as [|o ops IH]; intros u u' out Hok Hfl Hops Hus Hu; cbn [asset_run length] in *; [intros [= <- _]; split; [done|]; split; [lia|done]|].
  apply Forall_cons in Hops as [Ho Hops]. destruct (asset_step_ok k Hk hashAsset hashNode o u Hok Hfl ltac:(lia) Ho) as (u1 & out1 & E1 & Hok1 & Hfl1 & Hu1 & _). rewrite E1.
  destruct (asset_run _ _ _ ops u1) as [[u2 out2]|] eqn:E2; [|done]. intros [= <- _]. apply (IH u1 u2 out2); [done|done|done|lia| |done]. by apply (asset_step_indexed o u u1 out1); [|lia|..].
Qed.
End lists.

(** From [idx] on the steps of an iterator lead to the slots of [s], one after the other, and then to the end. *)
Fixpoint runs (step : Z -> option Z) (idx : Z) (s : list Z) : Prop :=
  match s with [] => step idx = Some NO_ASSET_INDEX | j :: s => step idx = Some j /\ runs step j s end.
Definition first_of (s : list Z) : Z := match s with [] => NO_ASSET_INDEX | j :: _ => j end.

(** Steps that lead to the first suitable candidate behind the current one visit all suitable candidates. *)
Lemma runs_candidates (P : Z -> Prop) `{!forall j, Decision (P j)} step L idx :
  (forall l1 j l2, L = l1 ++ j :: l2 -> step j = Some (first_of (filter P l2))) -> step idx = Some (first_of (filter P L)) -> runs step idx (filter P L).
Proof.
  intros Hstep. assert (forall l l1, L = l1 ++ l -> forall idx, step idx = Some (first_of (filter P l)) -> runs step idx (filter P l)) as Hl; [|by apply (Hl L [])].
  induction l as [|j l IH]; intros l1 E idx' Hs; [done|]. rewrite filter_cons in *. case_decide.
  - split; [done|]. apply (IH (l1 ++ [j])); [by rewrite <- app_assoc|by apply (Hstep l1)].
  - apply (IH (l1 ++ [j])); [by rewrite <- app_assoc|done].
Qed.

(** Sums over lists of slots *)
Fixpoint sum_slots (f : Z -> Z) (s : list Z) : Z := match s with [] => 0 | j :: s => f j + sum_slots f s end.
Lemma sum_slots_app f s t : sum_slots f (s ++ t) = sum_slots f s + sum_slots f t.
Proof. induction s as [|j s IH]; cbn; [done|]. rewrite IH. lia. Qed.
Lemma sum_slots_perm f s t : s ≡ₚ t -> sum_slots f s = sum_slots f t.
Proof. induction 1; cbn; lia. Qed.
Lemma sum_slots_filter f (P : Z -> bool) n : sum_slots f (filter (fun j => P j = true) (seqZ 0 (Z.of_nat n))) = sumZ (fun j => if P j then f j else 0) n.
Proof.
  induction n as [|n IH]; [done|]. cbn [sumZ]. replace (Z.of_nat (S n)) with (Z.of_nat n + 1) by lia. rewrite seqZ_app by lia. rewrite filter_app, sum_slots_app, IH.
  change (seqZ (0 + Z.of_nat n) 1) with [0 + (0 + Z.of_nat n)]. rewrite !Z.add_0_l, filter_cons, filter_nil. destruct (P (Z.of_nat n)); rewrite ?decide_True, ?decide_False by done; cbn; lia.
Qed.
Lemma sum_slots_nonneg f s : (forall j, j ∈ s -> 0 <= f j) -> 0 <= sum_slots f s.
Proof. induction s as [|j s IH]; intros Hf; cbn; [lia|]. specialize (IH ltac:(intros; apply Hf; by right)). specialize (Hf j ltac:(by left)). lia. Qed.

Section enumeration.
Variable k : nat.
Hypothesis Hk : (6 <= k <= 31)%nat.
Abbreviation cap := (2 ^ Z.of_nat k).
Abbreviation capn := (Z.to_nat cap).
Context {D : Type}.
Variable u : @Universe D.
Notation a := (assets u).
Hypothesis Hok : universe_ok k (assets u).
Hypothesis Hus : used k (assets u) < cap.
Hypothesis Hix : indexed k u.

Lemma cap_no_index : cap < NO_ASSET_INDEX.
Proof. unfold NO_ASSET_INDEX. assert (cap <= 2 ^ 31) by (apply Z.pow_le_mono_r; lia). lia. Qed.
Lemma in_table_index j : in_table k j -> j =? NO_ASSET_INDEX = false.
Proof. intros Hj. pose proof cap_no_index. unfold in_table in Hj. apply Z.eqb_neq. lia. Qed.

(** A set of slots, without duplicates *)
Definition slots_of (s : list Z) (P : AssetRecord -> bool) : Prop := NoDup s /\ forall j, j ∈ s <-> in_table k j /\ P (a.[j]) = true.

Lemma slots_of_length s P : slots_of s P -> (length s <= capn)%nat.
Proof.
  intros [Hn Hs]. transitivity (length (seqZ 0 cap)); [|by rewrite length_seqZ]. apply submseteq_length, NoDup_submseteq; [done|]. intros j Hj%Hs. apply elem_of_seqZ. destruct Hj as [Hj _]. unfold in_table in Hj. lia.
Qed.
Lemma slots_of_sum s P f : slots_of s P -> sum_slots f s = sumZ (fun j => if P (a.[j]) then f j else 0) capn.
Proof.
  intros [Hn Hs]. rewrite <- sum_slots_filter. apply sum_slots_perm, NoDup_Permutation; [done|apply NoDup_filter, NoDup_seqZ|]. intros j. rewrite Hs, list_elem_of_filter, elem_of_seqZ.
  unfold in_table. rewrite Z2Nat.id, Z.add_0_l by lia. tauto.
Qed.

(** ** Walking along an index list *)
Lemma chain_suffix next first l1 j l2 : chain next first (l1 ++ j :: l2) -> chain next (next.[j]) l2.
Proof. revert first. induction l1 as [|i l1 IH]; intros first; cbn [app chain]; [by intros [_ ?]|]. intros [_ ?]. by apply (IH (next.[i])). Qed.

Lemma skip_list_spec (P : AssetRecord -> bool) l : Forall (in_table k) l -> forall fuel first, (length l < fuel)%nat -> chain (nextIdx (indexLists u)) first l ->
  skip_list fuel P first u = Some (first_of (filter (fun j => P (a.[j]) = true) l)).
Proof.
  induction 1 as [|j l Hj _ IH]; intros fuel first Hf Hc; (destruct fuel as [|fuel]; [cbn in Hf; lia|]); cbn [skip_list chain] in *; [subst; by rewrite Z.eqb_refl|]. destruct Hc as [-> Hc].
  rewrite in_table_index by done. rewrite filter_cons. destruct (P (a.[j])); [by rewrite decide_True|]. rewrite decide_False by done. apply IH; [cbn in Hf; lia|done].
Qed.

Lemma list_runs (P Q : AssetRecord -> bool) first : enumerates k (nextIdx (indexLists u)) first a Q ->
  exists s, runs (fun idx => list_next k P first idx u) NO_ASSET_INDEX s /\ slots_of s (fun r => Q r && P r).
Proof.
  intros (L & Hc & Hn & HL). assert (Forall (in_table k) L) as Hin by (apply Forall_forall; intros j Hj; by apply HL in Hj as [? _]).
  assert (slots_of L Q) as HLs by done. pose proof (slots_of_length L Q HLs) as Hlen. exists (filter (fun j => P (a.[j]) = true) L). split.
  - apply runs_candidates.
    + intros l1 j l2 E. unfold list_next. rewrite E in Hin, Hc, Hlen. apply Forall_app in Hin as [_ Hin]. apply Forall_cons in Hin as [Hj Hin]. rewrite in_table_index by done.
      apply skip_list_spec; [done| |by apply (chain_suffix _ first l1)]. rewrite length_app in Hlen. cbn [length] in Hlen. lia.
    + unfold list_next. rewrite Z.eqb_refl. apply skip_list_spec; [done|lia|done].
  - split; [by apply NoDup_filter|]. intros j. rewrite list_elem_of_filter, HL, andb_true_iff. tauto.
Qed.

(** ** Walking along the hash table *)
Section probing.
Variables (P : AssetRecord -> bool) (key : Z).
Abbreviation h := (asset_home k key).
Abbreviation stop := (fun idx => if is_empty (a.[idx]) then Some NO_ASSET_INDEX else if P (a.[idx]) then Some idx else None).
Variable e : Z.
Hypothesis He : 0 <= e < cap.
Hypothesis Hend : a.[nth_slot k h e] = EMPTY.
Hypothesis Hused : forall c, 0 <= c < e -> a.[nth_slot k h c] <> EMPTY.

Lemma probe_from n : forall c, 0 <= c -> c + Z.of_nat n = e ->
  exists d, 0 <= d <= Z.of_nat n /\ stop (nth_slot k h (c + d)) = Some (first_of (filter (fun j => P (a.[j]) = true) (map (nth_slot k h) (seqZ c (Z.of_nat n))))) /\
    forall d', 0 <= d' < d -> stop (nth_slot k h (c + d')) = None.
Proof.
  induction n as [|n IH]; intros c Hc E; [exists 0; split; [lia|]; split; [|lia]; replace (c + 0) with e by lia; by rewrite Hend|].
  rewrite seqZ_cons by lia. replace (Z.pred (Z.of_nat (S n))) with (Z.of_nat n) by lia. replace (Z.succ c) with (c + 1) by lia. cbn [map]. rewrite filter_cons.
  assert (is_empty (a.[nth_slot k h c]) = false) as Hne by (specialize (Hused c ltac:(lia)); by destruct (a.[nth_slot k h c])). destruct (P (a.[nth_slot k h c])) eqn:HP.
  - rewrite decide_True by done. exists 0. split; [lia|]. split; [|lia]. rewrite Z.add_0_r, Hne, HP. done.
  - rewrite decide_False by done. destruct (IH (c + 1) ltac:(lia) ltac:(lia)) as (d & Hd & Hs & Hb). exists (d + 1). split; [lia|]. split; [by replace (c + (d + 1)) with (c + 1 + d) by lia|].
    intros d' Hd'. destruct (decide (d' = 0)) as [->|]; [rewrite Z.add_0_r, Hne, HP; done|]. replace (c + d') with (c + 1 + (d' - 1)) by lia. apply Hb. lia.
Qed.

Lemma nth_slot_add c d : nth_slot k (nth_slot k h c) d = nth_slot k h (c + d).
Proof. unfold nth_slot. rewrite Zplus_mod_idemp_l. f_equal. lia. Qed.

Lemma probe_spec c : 0 <= c <= e -> asset_probe k stop (nth_slot k h c) = Some (first_of (filter (fun j => P (a.[j]) = true) (map (nth_slot k h) (seqZ c (e - c))))).
Proof.
  intros Hc. destruct (probe_from (Z.to_nat (e - c)) c ltac:(lia) ltac:(lia)) as (d & Hd & Hs & Hb). rewrite Z2Nat.id in Hs, Hd by lia.
  unfold asset_probe. apply probe_intro with (j := d); [apply nth_slot_in|lia|by rewrite nth_slot_add|]. intros j' Hj'. rewrite nth_slot_add. by apply Hb.
Qed.

Lemma probe_runs : runs (fun idx => probe_next k P key idx u) NO_ASSET_INDEX (filter (fun j => P (a.[j]) = true) (map (nth_slot k h) (seqZ 0 e))).
Proof.
  assert (in_table k h) as Hh by apply land_in_table. apply runs_candidates.
  - intros l1 j l2 E. apply map_eq_app in E as (s1 & s2 & E1 & <- & E2). apply map_eq_cons in E2 as (c & s3 & -> & <- & <-).
    assert (c = alen s1 /\ s3 = seqZ (c + 1) (e - (c + 1)) /\ 0 <= c < e) as (_ & -> & Hc).
    { pose proof (f_equal length E1) as Hl. rewrite length_seqZ, length_app in Hl. cbn [length] in Hl. replace e with (alen s1 + (e - alen s1)) in E1 by lia. rewrite seqZ_app in E1 by (unfold alen; lia).
      apply app_inj_1 in E1 as [_ E1]; [|rewrite length_seqZ; unfold alen; lia]. rewrite seqZ_cons in E1 by (unfold alen in *; lia). injection E1 as <- <-. unfold alen in *.
      split; [lia|]. split; [f_equal; lia|lia]. }
    unfold probe_next. rewrite in_table_index by apply nth_slot_in. rewrite nth_slot_succ. apply probe_spec. lia.
  - unfold probe_next. rewrite Z.eqb_refl. rewrite <- (nth_slot_0 k h) at 1 by done. rewrite probe_spec by lia. by rewrite Z.sub_0_r.
Qed.
End probing.

Lemma hash_runs (P : AssetRecord -> bool) key : P EMPTY = false -> (forall r x, P r = true -> key_of r = Some x -> key_home k x = asset_home k key) ->
  exists s, runs (fun idx => probe_next k P key idx u) NO_ASSET_INDEX s /\ slots_of s P.
Proof.
  intros HP Hhome. pose proof (uo_links _ _ Hok) as Hl. set (h := asset_home k key). assert (in_table k h) as Hh by apply land_in_table.
  destruct (empty_from k ltac:(lia) a h 0 Hh ltac:(lia) ltac:(lia) Hus) as (e & He & _ & Hend & Hused). exists (filter (fun j => P (a.[j]) = true) (map (nth_slot k h) (seqZ 0 e))). split; [by apply probe_runs|].
  split.
  - apply NoDup_filter, NoDup_fmap_2_strong; [|apply NoDup_seqZ]. intros c c' Hc%elem_of_seqZ Hc'%elem_of_seqZ E. apply (nth_slot_inj k h); [lia|lia|done].
  - intros j. rewrite list_elem_of_filter. split.
    + intros [HPj (c & -> & _)%list_elem_of_fmap]. split; [apply nth_slot_in|done].
    + intros [Hj HPj]. split; [done|]. apply list_elem_of_fmap. exists (steps k h j). split; [by rewrite nth_slot_steps|]. pose proof (steps_range k h j) as Hr. apply elem_of_seqZ. split; [lia|].
      rewrite Z.add_0_l. destruct (key_of (a.[j])) as [x|] eqn:Hx; [|assert (a.[j] = EMPTY) as E by (by destruct (a.[j])); rewrite E in HPj; congruence].
      pose proof (Hhome _ _ HPj Hx) as Hxh. fold h in Hxh. assert (e < steps k h j \/ steps k h j = e \/ steps k h j < e) as [Hlt|[E|?]] by lia; [|exfalso|done].
      * exfalso. apply (tab_reach _ _ _ (lo_tab _ _ Hl) j x e); [done|by apply (aview_full k (Hk_lists k Hk))|rewrite Hxh; lia|]. rewrite Hxh. by apply aview_empty.
      * rewrite <- E, nth_slot_steps in Hend by done. rewrite Hend in HPj. congruence.
Qed.

(** ** Ownerships and possessions *)
Lemma slots_of_ext s P Q : (forall j, in_table k j -> P (a.[j]) = Q (a.[j])) -> slots_of s P -> slots_of s Q.
Proof. intros HPQ [Hn Hs]. split; [done|]. intros j. rewrite Hs. split; intros [Hj HP]; (split; [done|]); [by rewrite <- HPQ|by rewrite HPQ]. Qed.

Definition own_step (i : Z) (os : AssetOwnershipSelect) (idx : Z) : option Z :=
  if negb (anyOwner os) then probe_next k (select_ownership i os) (os_owner os) idx u
  else list_next k (fun r => os_anyManagingContract os || (rec_managing r =? os_managingContract os)) ((ownershipsPossessionsFirstIdx (indexLists u)).[i]) idx u.
Definition pos_step (o : Z) (ps : AssetPossessionSelect) (idx : Z) : option Z :=
  if negb (anyPossessor ps) then probe_next k (select_possession o ps) (ps_possessor ps) idx u
  else list_next k (fun r => ps_anyManagingContract ps || (rec_managing r =? ps_managingContract ps)) ((ownershipsPossessionsFirstIdx (indexLists u)).[o]) idx u.

Lemma own_runs i os : in_table k i -> is_issuance (a.[i]) = true -> exists s, runs (own_step i os) NO_ASSET_INDEX s /\ slots_of s (select_ownership i os).
Proof.
  intros Hi Hiss. unfold own_step. destruct (anyOwner os) eqn:Hany; cbn [negb].
  - destruct (list_runs (fun r => os_anyManagingContract os || (rec_managing r =? os_managingContract os)) (linked_to i) _ (ls_linked _ _ _ Hix i Hi)) as (s & Hr & Hs). exists s. split; [exact Hr|].
    revert Hs. apply slots_of_ext. intros j Hj. destruct (a.[j]) as [| |p m l n|p m l n] eqn:E; try done; cbn.
    + by rewrite Hany, andb_true_r.
    + destruct (Z.eqb_spec l i) as [->|]; [|done]. destruct (lo_pos _ _ (uo_links _ _ Hok) j _ _ _ _ Hj E) as [_ G]. by destruct (a.[i]).
  - apply hash_runs; [done|]. intros r x HP Hx. rewrite (home_of_record k r x Hx). destruct r; try done. cbn in HP. rewrite Hany in HP. cbn [orb] in HP. f_equal.
    apply andb_true_iff in HP as [[_ HP]%andb_true_iff _]. by apply Z.eqb_eq.
Qed.
Lemma pos_runs o ps : in_table k o -> is_ownership (a.[o]) = true -> exists s, runs (pos_step o ps) NO_ASSET_INDEX s /\ slots_of s (select_possession o ps).
Proof.
  intros Ho Hown. unfold pos_step. destruct (anyPossessor ps) eqn:Hany; cbn [negb].
  - destruct (list_runs (fun r => ps_anyManagingContract ps || (rec_managing r =? ps_managingContract ps)) (linked_to o) _ (ls_linked _ _ _ Hix o Ho)) as (s & Hr & Hs). exists s. split; [exact Hr|].
    revert Hs. apply slots_of_ext. intros j Hj. destruct (a.[j]) as [| |p m l n|p m l n] eqn:E; try done; cbn.
    + destruct (Z.eqb_spec l o) as [->|]; [|done]. destruct (lo_own _ _ (uo_links _ _ Hok) j _ _ _ _ Hj E) as [_ G]. by destruct (a.[o]).
    + by rewrite Hany, andb_true_r.
  - apply hash_runs; [done|]. intros r x HP Hx. rewrite (home_of_record k r x Hx). destruct r; try done. cbn in HP. rewrite Hany in HP. cbn [orb] in HP. f_equal.
    apply andb_true_iff in HP as [[_ HP]%andb_true_iff _]. by apply Z.eqb_eq.
Qed.

(** The iterator over issuances visits the issuances that its filter selects, each once. *)
Lemma issuance_runs s : exists l, runs (fun idx => match issuance_next k (mkIssuanceIterator s idx) u with Some (it, _) => Some (ii_issuanceIdx it) | None => None end) NO_ASSET_INDEX l /\
  slots_of l (select_issuance s).
Proof.
  assert (forall step l, (forall idx, step idx = match issuance_next k (mkIssuanceIterator s idx) u with Some (it, _) => Some (ii_issuanceIdx it) | None => None end) -> forall idx, runs step idx l ->
    runs (fun idx => match issuance_next k (mkIssuanceIterator s idx) u with Some (it, _) => Some (ii_issuanceIdx it) | None => None end) idx l) as Hext.
  { intros step l Hs. induction l as [|j l IH]; intros idx; cbn [runs]; rewrite Hs; [done|]. intros [? Hr]. split; [done|]. by apply IH. }
  unfold issuance_next in Hext |- *. cbn [ii_issuance ii_issuanceIdx] in Hext |- *. destruct (anyIssuer s) eqn:Hany; cbn [negb] in Hext |- *.
  - destruct (list_runs (fun r => anyName s || (rec_name r =? is_assetName s)) is_issuance _ (ls_issuances _ _ _ Hix)) as (l & Hr & Hs). exists l. split.
    + eapply Hext; [|exact Hr]. intros idx. cbv beta. by destruct (list_next _ _ _ _ _).
    + revert Hs. apply slots_of_ext. intros j _. destruct (a.[j]); try done. cbn. by rewrite Hany.
  - destruct (hash_runs (select_issuance s) (is_issuer s)) as (l & Hr & Hs); [done| |exists l; split; [|done]].
    + intros r x HP Hx. rewrite (home_of_record k r x Hx). destruct r; try done. cbn in HP. rewrite Hany in HP. cbn [orb] in HP. f_equal. apply andb_true_iff in HP as [HP _]. by apply Z.eqb_eq.
    + eapply Hext; [|exact Hr]. intros idx. cbv beta. by destruct (probe_next _ _ _ _ _).
Qed.

Lemma ownership_next_step i os idx : ownership_next k (mkOwnershipIterator i os idx) u =
  match own_step i os idx with Some idx => Some (mkOwnershipIterator i os idx, negb (idx =? NO_ASSET_INDEX)) | None => None end.
Proof. done. Qed.

Lemma issuance_slot issuer name : exists i, issuanceIndex k issuer name u = Some i /\
  (in_table k i /\ match_issuance issuer name (a.[i]) = true \/ i = NO_ASSET_INDEX /\ forall j, in_table k j -> match_issuance issuer name (a.[j]) = false).
Proof.
  destruct (hash_runs (match_issuance issuer name) issuer) as (s & Hr & _ & Hs); [done|apply match_issuance_home|].
  change (issuanceIndex k issuer name u) with (probe_next k (match_issuance issuer name) issuer NO_ASSET_INDEX u). destruct s as [|i s]; cbn [runs] in Hr.
  - exists NO_ASSET_INDEX. split; [done|]. right. split; [done|]. intros j Hj. destruct (match_issuance issuer name (a.[j])) eqn:E; [|done]. assert (j ∈ @nil Z) by (by apply Hs). set_solver.
  - exists i. split; [apply Hr|]. left. apply Hs. by left.
Qed.

(** An iterator visits the slots of [s], one after the other, and then is at its end. *)
Fixpoint visits (it : PossessionIterator) (s : list Z) : Prop :=
  match s with
  | [] => pi_possessionIdx it = NO_ASSET_INDEX
  | j :: s => pi_possessionIdx it = j /\ in_table k j /\ rec_link (a.[j]) = oi_ownershipIdx (pi_owner it) /\ exists it' more, possession_next k (S capn) it u = Some (it', more) /\ visits it' s
  end.

(** ** The possessions of several ownerships *)
Section possessions.
Variables (i : Z) (os : AssetOwnershipSelect) (ps : AssetPossessionSelect) (t : Z -> list Z).
Notation own o := (in_table k o /\ is_ownership (a.[o]) = true).
Hypothesis Ht : forall o, own o -> runs (pos_step o ps) NO_ASSET_INDEX (t o) /\ slots_of (t o) (select_possession o ps).
Definition pairs (s : list Z) : list (Z * Z) := s ≫= fun o => map (pair o) (t o).
Definition pstate (o idx : Z) : PossessionIterator := mkPossessionIterator (mkOwnershipIterator i os o) ps idx.

(** A possession of the ownership [o] *)
Definition of_owner (o j : Z) : Prop := in_table k j /\ rec_link (a.[j]) = o.

(** The pairs of ownerships and possessions that are still to be visited *)
Definition pending (o idx : Z) (R : list (Z * Z)) : Prop := exists s' t', runs (own_step i os) o s' /\ runs (pos_step o ps) idx t' /\ Forall (fun o => own o) s' /\ Forall (of_owner o) t' /\
  (length s' <= capn)%nat /\ R = map (pair o) t' ++ pairs s'.

Lemma t_of_owner o : own o -> Forall (of_owner o) (t o).
Proof.
  intros Ho. apply Forall_forall. intros j Hj. apply (proj2 (Ht o Ho)) in Hj as [Hj HP]. split; [done|]. destruct (a.[j]); try done. cbn in HP. by apply andb_true_iff in HP as [[->%Z.eqb_eq _]%andb_true_iff _].
Qed.

Lemma possession_next_spec s' : Forall (fun o => own o) s' -> forall fuel o idx t', (length s' < fuel)%nat -> (length s' <= capn)%nat -> runs (own_step i os) o s' -> runs (pos_step o ps) idx t' -> Forall (of_owner o) t' ->
  match map (pair o) t' ++ pairs s' with
  | [] => possession_next k fuel (pstate o idx) u = Some (pstate NO_ASSET_INDEX NO_ASSET_INDEX, false)
  | (o', j) :: R => possession_next k fuel (pstate o idx) u = Some (pstate o' j, true) /\ of_owner o' j /\ pending o' j R
  end.
Proof.
  induction 1 as [|o1 s' Ho1 Hs' IH]; intros fuel o idx t' Hf Hlen Hro Hrp Hin; (destruct fuel as [|fuel]; [cbn in Hf; lia|]); cbn [possession_next];
    change (possession_of_owner k (pstate o idx) u) with (pos_step o ps idx); destruct t' as [|j t']; cbn [runs] in Hrp; cbn [map app].
  - rewrite Hrp. cbn [pi_owner pstate]. rewrite ownership_next_step. cbn [runs] in Hro. rewrite Hro. cbn [negb]. by rewrite Z.eqb_refl.
  - apply Forall_cons in Hin as [Hj Hin]. destruct Hrp as [-> Hrp]. rewrite in_table_index by apply Hj. split; [done|]. split; [done|]. by exists [], t'.
  - rewrite Hrp. rewrite Z.eqb_refl. cbn [negb pi_owner pstate]. rewrite ownership_next_step. cbn [runs] in Hro. destruct Hro as [-> Hro]. rewrite in_table_index by apply Ho1. cbn [negb].
    specialize (IH fuel o1 NO_ASSET_INDEX (t o1) ltac:(cbn in Hf; lia) ltac:(cbn in Hlen; lia) Hro (proj1 (Ht o1 Ho1)) (t_of_owner o1 Ho1)). exact IH.
  - apply Forall_cons in Hin as [Hj Hin]. destruct Hrp as [-> Hrp]. rewrite in_table_index by apply Hj. split; [done|]. split; [done|]. exists (o1 :: s'), t'. split_and!; (done || by constructor).
Qed.

(** What is pending is visited. *)
Lemma pending_visits R : forall o idx, of_owner o idx -> pending o idx R -> visits (pstate o idx) (idx :: map snd R).
Proof.
  induction R as [|[o1 j1] R IH]; intros o idx Hidx Hp; (split; [done|]; split; [apply Hidx|]; split; [apply Hidx|]);
    pose proof Hp as (s' & t' & Hro & Hrp & Hs & Hin & Hlen & E); pose proof (possession_next_spec s' Hs (S capn) o idx t' ltac:(lia) Hlen Hro Hrp Hin) as Hn; rewrite <- E in Hn.
  - by exists (pstate NO_ASSET_INDEX NO_ASSET_INDEX), false.
  - destruct Hn as (Hn & Hj1 & Hp1). exists (pstate o1 j1), true. split; [done|]. by apply IH.
Qed.

(** All pairs together *)
Definition selected (r : AssetRecord) : bool := match r with POSSESSION _ _ o _ => select_ownership i os (a.[o]) && select_possession o ps r | _ => false end.

Lemma pairs_in s o j : (o, j) ∈ pairs s <-> o ∈ s /\ j ∈ t o.
Proof.
  unfold pairs. rewrite list_elem_of_bind. split.
  - intros (o' & (j' & [= -> ->] & Hj)%list_elem_of_fmap & Ho). done.
  - intros [Ho Hj]. exists o. split; [|done]. apply list_elem_of_fmap. by exists j.
Qed.
Lemma pairs_slots s : slots_of s (select_ownership i os) -> slots_of (map snd (pairs s)) selected.
Proof.
  intros [Hn Hs]. assert (forall o, o ∈ s -> own o /\ select_ownership i os (a.[o]) = true) as Hso.
  { intros o Ho. apply Hs in Ho as [Ho HP]. split; [|done]. split; [done|]. by destruct (a.[o]). }
  assert (forall o j, j ∈ t o -> own o -> in_table k j /\ exists p m n, a.[j] = POSSESSION p m o n) as Hlink.
  { intros o j Hj Ho. apply (proj2 (Ht o Ho)) in Hj as [Hj HP]. split; [done|]. destruct (a.[j]) as [| | |p m o' n]; try done. cbn in HP.
    apply andb_true_iff in HP as [[->%Z.eqb_eq _]%andb_true_iff _]. by exists p, m, n. }
  split.
  - apply NoDup_fmap_2_strong.
    + intros [o j] [o' j'] [Ho Hj]%pairs_in [Ho' Hj']%pairs_in. cbn. intros <-. destruct (Hlink o j Hj (proj1 (Hso o Ho))) as (_ & p & m & n & E). destruct (Hlink o' j Hj' (proj1 (Hso o' Ho'))) as (_ & p' & m' & n' & E').
      rewrite E in E'. injection E' as _ _ -> _. done.
    + unfold pairs. apply NoDup_bind; [|intros o Ho; apply NoDup_fmap_2; [by intros ? ? [=]|]; apply Ht, Hso, Ho|done].
      intros o o' x Ho Ho' (j & -> & _)%list_elem_of_fmap (j' & [= -> _] & _)%list_elem_of_fmap. done.
  - intros j. rewrite list_elem_of_fmap. split.
    + intros ([o j'] & -> & [Ho Hj]%pairs_in). destruct (Hso o Ho) as [Hown HP]. destruct (Hlink o j' Hj Hown) as (Hj1 & p & m & n & E). split; [done|]. cbn. rewrite E. cbn [selected]. rewrite HP.
      apply (proj2 (Ht o Hown)) in Hj as [_ HPj]. by rewrite E in HPj.
    + intros [Hj HP]. destruct (a.[j]) as [| | |p m o n] eqn:E; try done. cbn [selected] in HP. apply andb_true_iff in HP as [HP1 HP2]. destruct (lo_pos _ _ (uo_links _ _ Hok) j _ _ _ _ Hj E) as [Ho Hown].
      exists (o, j). split; [done|]. apply pairs_in. split; [by apply Hs|]. apply (proj2 (Ht o (conj Ho Hown))). by rewrite E.
Qed.
End possessions.

(** ** numberOfShares *)
Abbreviation shares := (fun j => rec_shares (a.[j])).
Lemma shares_nonneg j : in_table k j -> 0 <= rec_shares (a.[j]).
Proof. apply Hok. Qed.
Lemma visits_table it s : visits it s -> Forall (in_table k) s.
Proof. revert it. induction s as [|j s IH]; intros it; [constructor|]. intros (_ & Hj & _ & it' & more & _ & Hv). constructor; [done|]. by apply (IH it'). Qed.

Lemma sum_possessions_spec s : forall fuel it acc, visits it s -> (length s < fuel)%nat -> 0 <= acc -> acc + sum_slots shares s < 2 ^ 63 ->
  sum_possessions k fuel it acc u = Some (acc + sum_slots shares s).
Proof.
  induction s as [|j s IH]; intros fuel it acc Hv Hf Hacc Hb; (destruct fuel as [|fuel]; [cbn in Hf; lia|]); pose proof (visits_table _ _ Hv) as Hin; cbn [sum_possessions visits sum_slots] in *.
  - rewrite Hv, Z.eqb_refl. f_equal. lia.
  - destruct Hv as (<- & Hj & _ & it' & more & -> & Hv). apply Forall_cons in Hin as [_ Hin]. rewrite in_table_index by done. pose proof (shares_nonneg _ Hj).
    assert (0 <= sum_slots shares s) by (apply sum_slots_nonneg; intros j Hj'; rewrite Forall_forall in Hin; by apply shares_nonneg, Hin).
    assert (it_numberOfPossessedShares k it u = shares (pi_possessionIdx it)) as -> by (unfold it_numberOfPossessedShares; unfold in_table in Hj; by rewrite (proj2 (Z.ltb_lt _ _)) by lia).
    rewrite s64_small by (unfold is_s64; lia). rewrite IH; [f_equal; lia|done|cbn in Hf; lia|lia|lia].
Qed.

(** The slots that the steps lead to, computed *)
Fixpoint unroll (fuel : nat) (step : Z -> option Z) (idx : Z) : list Z :=
  match fuel with
  | O => []
  | S fuel => match step idx with Some j => if j =? NO_ASSET_INDEX then [] else j :: unroll fuel step j | None => [] end
  end.
Lemma unroll_runs step s : Forall (in_table k) s -> forall fuel idx, (length s < fuel)%nat -> runs step idx s -> unroll fuel step idx = s.
Proof.
  induction 1 as [|j s Hj _ IH]; intros fuel idx Hf Hr; (destruct fuel as [|fuel]; [cbn in Hf; lia|]); cbn [unroll runs] in *; [by rewrite Hr|]. destruct Hr as [-> Hr].
  rewrite in_table_index by done. f_equal. apply IH; [cbn in Hf; lia|done].
Qed.
Lemma slots_of_table s P : slots_of s P -> Forall (in_table k) s.
Proof. intros [_ Hs]. apply Forall_forall. by intros j [? _]%Hs. Qed.
Definition possessions_of (ps : AssetPossessionSelect) (o : Z) : list Z := unroll (S capn) (pos_step o ps) NO_ASSET_INDEX.
Lemma possessions_of_spec ps o : in_table k o /\ is_ownership (a.[o]) = true -> runs (pos_step o ps) NO_ASSET_INDEX (possessions_of ps o) /\ slots_of (possessions_of ps o) (select_possession o ps).
Proof.
  intros [Ho Hown]. destruct (pos_runs o ps Ho Hown) as (s & Hr & Hs). unfold possessions_of. rewrite (unroll_runs _ s); [done|by apply (slots_of_table s (select_possession o ps))| |done].
  pose proof (slots_of_length s _ Hs). lia.
Qed.

Lemma sum_ownerships_spec i os s : Forall (in_table k) s -> forall fuel idx acc, in_table k idx -> runs (own_step i os) idx s -> (length s + 2 <= fuel)%nat -> 0 <= acc -> acc + shares idx + sum_slots shares s < 2 ^ 63 ->
  sum_ownerships k fuel (mkOwnershipIterator i os idx) acc u = Some (acc + shares idx + sum_slots shares s).
Proof.
  induction 1 as [|j s Hj Hs IH]; intros fuel idx acc Hidx Hr Hf Hacc Hb; (destruct fuel as [|fuel]; [cbn in Hf; lia|]); cbn [sum_ownerships oi_ownershipIdx]; rewrite in_table_index by done;
    rewrite ownership_next_step; pose proof (shares_nonneg idx Hidx) as Hnn;
    assert (numberOfOwnedShares k (mkOwnershipIterator i os idx) u = shares idx) as -> by (unfold numberOfOwnedShares; cbn [oi_ownershipIdx]; unfold in_table in Hidx; by rewrite (proj2 (Z.ltb_lt _ _)) by lia); cbn [runs] in Hr.
  - rewrite Hr. destruct fuel as [|fuel]; [cbn in Hf; lia|]. cbn [sum_ownerships oi_ownershipIdx sum_slots] in *. rewrite Z.eqb_refl. f_equal. rewrite s64_small by (unfold is_s64; lia). lia.
  - destruct Hr as [-> Hr]. cbn [sum_slots] in *. pose proof (shares_nonneg j Hj). assert (0 <= sum_slots shares s) by (apply sum_slots_nonneg; intros j' Hj'; rewrite Forall_forall in Hs; by apply shares_nonneg, Hs).
    rewrite s64_small by (unfold is_s64; lia). rewrite IH; [f_equal; lia|done|done|cbn in Hf; lia|lia|lia].
Qed.

(** The shares of the possessions with the asset, owner, possessor and managing contracts that are asked for *)
Definition shares_selected (A : Asset) (os : AssetOwnershipSelect) (ps : AssetPossessionSelect) : Z :=
  sumZ (fun j => match a.[j] with
    | POSSESSION p m o n => match a.[o] with
        | OWNERSHIP po mo i _ => if match_issuance (issuer A) (assetName A) (a.[i]) && (anyOwner os || (po =? os_owner os)) && (os_anyManagingContract os || (mo =? os_managingContract os)) &&
                                    (anyPossessor ps || (p =? ps_possessor ps)) && (ps_anyManagingContract ps || (m =? ps_managingContract ps)) then n else 0
        | _ => 0 end
    | _ => 0 end) capn.

Lemma shares_selected_absent A os ps : (forall j, in_table k j -> match_issuance (issuer A) (assetName A) (a.[j]) = false) -> shares_selected A os ps = 0.
Proof.
  intros Hno. apply sumZ_zero. intros j Hj%(asset_index k (Hk_lists k Hk)). destruct (a.[j]) as [| | |p m o n] eqn:E; try done. destruct (lo_pos _ _ (uo_links _ _ Hok) j _ _ _ _ Hj E) as [Ho _].
  destruct (a.[o]) as [| |po mo i no|] eqn:Eo; try done. destruct (lo_own _ _ (uo_links _ _ Hok) o _ _ _ _ Ho Eo) as [Hi _]. by rewrite Hno.
Qed.
Lemma shares_selected_at A os ps i : in_table k i -> match_issuance (issuer A) (assetName A) (a.[i]) = true ->
  shares_selected A os ps = sumZ (fun j => if selected i os ps (a.[j]) then shares j else 0) capn.
Proof.
  intros Hi Hm. apply sumZ_ext. intros j Hj%(asset_index k (Hk_lists k Hk)). destruct (a.[j]) as [| | |p m o n] eqn:E; try done. destruct (lo_pos _ _ (uo_links _ _ Hok) j _ _ _ _ Hj E) as [Ho _].
  cbn [selected select_possession]. rewrite Z.eqb_refl. destruct (a.[o]) as [| |po mo i' no|] eqn:Eo; try done. destruct (lo_own _ _ (uo_links _ _ Hok) o _ _ _ _ Ho Eo) as [Hi' _]. cbn [select_ownership rec_shares].
  assert (match_issuance (issuer A) (assetName A) (a.[i']) = (i' =? i)) as ->.
  { destruct (Z.eqb_spec i' i) as [->|Hne]; [done|]. destruct (match_issuance _ _ (a.[i'])) eqn:Hm'; [|done]. destruct Hne. by apply (match_issuance_unique k (Hk_lists k Hk) a i' i (issuer A) (assetName A) (uo_links _ _ Hok)). }
  rewrite !andb_true_l, !andb_assoc. done.
Qed.

Lemma selected_owner_sum i os : sumZ (fun j => if selected i os any_possession (a.[j]) then shares j else 0) capn = sumZ (fun o => if select_ownership i os (a.[o]) then shares o else 0) capn.
Proof.
  etransitivity; [|apply (possessions_by_owner k (Hk_lists k Hk) a Hok (select_ownership i os)); by intros []]. apply sumZ_ext. intros j _. destruct (a.[j]) as [| | |p m o n]; try done.
  cbn [selected select_possession rec_shares]. cbn. by rewrite Z.eqb_refl, !andb_true_r.
Qed.

Lemma selected_bound i os ps : in_table k i -> sumZ (fun j => if selected i os ps (a.[j]) then shares j else 0) capn < 2 ^ 63.
Proof.
  intros Hi. eapply Z.le_lt_trans; [|exact (uo_bound _ _ Hok i Hi)]. transitivity (sumZ (fun j => if selected i os any_possession (a.[j]) then shares j else 0) capn).
  - apply sumZ_le. intros j Hj%(asset_index k (Hk_lists k Hk)). pose proof (shares_nonneg j Hj) as Hn. destruct (a.[j]) as [| | |p m o n]; try done. cbn [selected select_possession rec_shares any_possession anyPossessor ps_anyManagingContract orb] in *.
    rewrite !andb_true_r. destruct (select_ownership i os (a.[o])); [|done]. rewrite Z.eqb_refl. cbn [andb]. destruct (_ && _); lia.
  - rewrite selected_owner_sum. apply sumZ_le. intros o Ho%(asset_index k (Hk_lists k Hk)). pose proof (shares_nonneg o Ho) as Hn. destruct (a.[o]) as [| |p m l n|]; try done. cbn [select_ownership own_part rec_shares] in *.
    destruct (l =? i); [|done]. cbn [andb]. destruct (_ && _); lia.
Qed.

Lemma selected_any i os ps r : anyPossessor ps && ps_anyManagingContract ps = true -> selected i os ps r = selected i os any_possession r.
Proof. intros [H1 H2]%andb_true_iff. destruct r; try done. cbn [selected select_possession any_possession anyPossessor ps_anyManagingContract orb]. by rewrite H1, H2. Qed.

Lemma ownership_begin_spec A os i s : issuanceIndex k (issuer A) (assetName A) u = Some i -> in_table k i -> runs (own_step i os) NO_ASSET_INDEX s ->
  ownership_begin k A os u = Some (mkOwnershipIterator i os (first_of s)).
Proof.
  intros Ei Hi Hr. unfold ownership_begin. rewrite Ei, in_table_index by done. rewrite ownership_next_step. destruct s as [|o s]; cbn [runs first_of] in *; [by rewrite Hr|]. by destruct Hr as [-> _].
Qed.

Lemma owner_sum A os i s : in_table k i -> issuanceIndex k (issuer A) (assetName A) u = Some i -> runs (own_step i os) NO_ASSET_INDEX s -> slots_of s (select_ownership i os) ->
  match ownership_begin k A os u with None => None | Some it => sum_ownerships k (S capn) it 0 u end = Some (sumZ (fun o => if select_ownership i os (a.[o]) then shares o else 0) capn).
Proof.
  intros Hi Ei Hr Hs. rewrite (ownership_begin_spec A os i s Ei Hi Hr). rewrite <- (slots_of_sum s (select_ownership i os) shares Hs). destruct s as [|o s]; cbn [first_of]; [cbn [sum_ownerships oi_ownershipIdx]; by rewrite Z.eqb_refl|].
  pose proof (slots_of_length _ _ Hs) as Hlen. pose proof (slots_of_table _ _ Hs) as Hin. apply Forall_cons in Hin as [Ho Hin]. destruct Hr as [_ Hr].
  rewrite (sum_ownerships_spec i os s Hin); [cbn [sum_slots]; f_equal; lia|done|done|cbn [length] in Hlen; lia|lia|].
  pose proof (selected_bound i os any_possession Hi) as Hb. rewrite selected_owner_sum, <- (slots_of_sum (o :: s) (select_ownership i os) shares Hs) in Hb. cbn [sum_slots] in Hb. lia.
Qed.

(** The possession iterator of an issued asset *)
Lemma possession_begin_visits A os ps i : in_table k i -> match_issuance (issuer A) (assetName A) (a.[i]) = true -> issuanceIndex k (issuer A) (assetName A) u = Some i ->
  exists it s, possession_begin k A os ps u = Some it /\ visits it s /\ slots_of s (selected i os ps).
Proof.
  intros Hi Hm Ei. destruct (own_runs i os Hi ltac:(by destruct (a.[i]))) as (s & Hr & Hs). pose proof (pairs_slots i os ps (possessions_of ps) (possessions_of_spec ps) s Hs) as Hps.
  unfold possession_begin. rewrite (ownership_begin_spec A os i s Ei Hi Hr). cbn [oi_issuanceIdx oi_ownershipIdx]. rewrite in_table_index by done. cbn [orb].
  destruct s as [|o s]; cbn [first_of]; [rewrite Z.eqb_refl; by eexists _, []|]. pose proof (slots_of_length _ _ Hs) as Hlen.
  assert (Forall (fun o => in_table k o /\ is_ownership (a.[o]) = true) (o :: s)) as Hown.
  { apply Forall_forall. intros o' Ho'. apply (proj2 Hs) in Ho' as [Ho' HP]. split; [done|]. by destruct (a.[o']). }
  apply Forall_cons in Hown as [Ho Hown]. destruct Hr as [_ Hr]. rewrite in_table_index by apply Ho.
  pose proof (possession_next_spec i os ps (possessions_of ps) (possessions_of_spec ps) s Hown (S capn) o NO_ASSET_INDEX (possessions_of ps o) ltac:(cbn in Hlen; lia) ltac:(cbn in Hlen; lia) Hr
    (proj1 (possessions_of_spec ps o Ho)) (t_of_owner ps (possessions_of ps) (possessions_of_spec ps) o Ho)) as Hn.
  change (map (pair o) (possessions_of ps o) ++ pairs (possessions_of ps) s) with (pairs (possessions_of ps) (o :: s)) in Hn.
  change (mkPossessionIterator (mkOwnershipIterator i os o) ps NO_ASSET_INDEX) with (pstate i os ps o NO_ASSET_INDEX).
  exists (match pairs (possessions_of ps) (o :: s) with [] => pstate i os ps NO_ASSET_INDEX NO_ASSET_INDEX | (o', j) :: _ => pstate i os ps o' j end), (map snd (pairs (possessions_of ps) (o :: s))).
  split; [|split; [|exact Hps]]; destruct (pairs (possessions_of ps) (o :: s)) as [|[o' j] R]; [by rewrite Hn|by destruct Hn as (-> & _)|done|].
  destruct Hn as (_ & Hj & Hp). by apply (pending_visits i os ps (possessions_of ps) (possessions_of_spec ps) R o' j).
Qed.
Lemma possession_begin_absent A os ps : issuanceIndex k (issuer A) (assetName A) u = Some NO_ASSET_INDEX -> exists it, possession_begin k A os ps u = Some it /\ visits it [].
Proof. intros Ei. unfold possession_begin, ownership_begin. rewrite Ei, Z.eqb_refl. cbn [oi_issuanceIdx]. rewrite Z.eqb_refl. by eexists. Qed.

Lemma possessor_sum A os ps i : in_table k i -> match_issuance (issuer A) (assetName A) (a.[i]) = true -> issuanceIndex k (issuer A) (assetName A) u = Some i ->
  match possession_begin k A os ps u with None => None | Some it => sum_possessions k (S capn) it 0 u end = Some (sumZ (fun j => if selected i os ps (a.[j]) then shares j else 0) capn).
Proof.
  intros Hi Hm Ei. destruct (possession_begin_visits A os ps i Hi Hm Ei) as (it & s & -> & Hv & Hs). pose proof (slots_of_length _ _ Hs). pose proof (slots_of_sum _ _ shares Hs) as Es.
  pose proof (selected_bound i os ps Hi) as Hb. cbv beta in Es, Hb |- *. rewrite <- Es in Hb |- *. rewrite (sum_possessions_spec s _ _ _ Hv); [done|lia|lia|lia].
Qed.

Lemma numberOfShares_spec A os ps : numberOfShares k A os ps u = Some (shares_selected A os ps).
Proof.
  unfold numberOfShares. destruct (issuance_slot (issuer A) (assetName A)) as (i & Ei & [[Hi Hm]|[-> Hno]]).
  - rewrite (shares_selected_at A os ps i Hi Hm). destruct (anyPossessor ps && ps_anyManagingContract ps) eqn:Hany.
    + destruct (own_runs i os Hi ltac:(by destruct (a.[i]))) as (s & Hr & Hs). rewrite (owner_sum A os i s Hi Ei Hr Hs). rewrite <- selected_owner_sum. f_equal. apply sumZ_ext. intros j _. by rewrite (selected_any i os ps) by done.
    + by apply possessor_sum.
  - rewrite (shares_selected_absent A os ps Hno). unfold possession_begin, ownership_begin. rewrite Ei, Z.eqb_refl. cbn [orb oi_issuanceIdx]. rewrite Z.eqb_refl. cbn [orb].
    destruct (_ && _); cbn [sum_ownerships sum_possessions oi_ownershipIdx pi_possessionIdx]; by rewrite Z.eqb_refl.
Qed.

(** The selection of one position *)
Lemma shares_selected_held i iss nm ow om po pm : in_table k i -> match_issuance iss nm (a.[i]) = true ->
  shares_selected (mkAsset iss nm) (mkOwnershipSelect ow om false false) (mkPossessionSelect po pm false false) = held k a (mkPosition i ow om po pm).
Proof.
  intros Hi Hm. rewrite (shares_selected_at (mkAsset iss nm) _ _ i Hi Hm). apply sumZ_ext. intros j Hj. destruct (a.[j]) as [| | |p m o n]; try done. cbn [selected select_possession held_part po_possessor po_pm po_owner po_om po_issuance rec_shares].
  cbn [anyPossessor ps_anyManagingContract ps_possessor ps_managingContract orb]. rewrite Z.eqb_refl. destruct (a.[o]) as [| |q mo l x|]; cbn [select_ownership match_ownership andb]; try (by rewrite andb_false_r).
  cbn [anyOwner os_anyManagingContract os_owner os_managingContract orb]. destruct (l =? i), (q =? ow), (mo =? om), (p =? po), (m =? pm); done.
Qed.
Lemma numberOfShares_position iss nm ow om po pm :
  numberOfShares k (mkAsset iss nm) (mkOwnershipSelect ow om false false) (mkPossessionSelect po pm false false) u = numberOfPossessedShares k nm iss ow po om pm u.
Proof.
  rewrite numberOfShares_spec. destruct (numberOfPossessedShares_held k (Hk_lists k Hk) u nm iss ow po om pm Hok Hus) as (v & -> & V1 & V0). f_equal.
  destruct (issuance_slot iss nm) as (i & _ & [[Hi Hm]|[_ Hno]]); [rewrite (V1 i Hi Hm); by apply shares_selected_held|]. rewrite (V0 Hno). by apply (shares_selected_absent (mkAsset iss nm)).
Qed.
End enumeration.

(** ** Universes that the operations reach *)
Section reached.
Variable k : nat.
Hypothesis Hk : (6 <= k <= 31)%nat.
Context {D : Type} `{!Inhabited D}.
Variables (hashAsset : AssetRecord -> D) (hashNode : D -> D -> D).

(** C8: After every sequence of issuances, transfers, burns, management transfers, ends of epochs and digests that fits into the universe, numberOfShares terminates for every asset and every filter of owners,
    possessors and managing contracts, and returns exactly the sum of the shares of the possessions that the filters select, whether its iterators follow the hash table or the index lists, and without
    overflow.  For a given owner and possessor with given managing contracts it returns the same as numberOfPossessedShares. *)
Theorem numberOfShares_sums ops u out : Forall (op_ok k) ops -> 3 * Z.of_nat (length ops) < 2 ^ Z.of_nat k -> asset_run k hashAsset hashNode ops (emptyUniverse k) = Some (u, out) ->
  (forall A os ps, numberOfShares k A os ps u = Some (shares_selected k u A os ps)) /\
  forall iss nm ow om po pm, numberOfShares k (mkAsset iss nm) (mkOwnershipSelect ow om false false) (mkPossessionSelect po pm false false) u = numberOfPossessedShares k nm iss ow po om pm u.
Proof.
  intros Hops Hlen Hrun. destruct (emptyUniverse_ok k Hk hashAsset hashNode) as (H1 & H2 & H3).
  destruct (run_indexed k Hk hashAsset hashNode ops (emptyUniverse k) u out H1 H2 Hops ltac:(lia) (empty_indexed k Hk) Hrun) as (Hok & Hus & Hix).
  split; [intros; by apply numberOfShares_spec|intros; by apply numberOfShares_position].
Qed.
End reached.

Lemma numberOfShares_sums_witness : exists u out, asset_run 6 ex_asset_leaf ex_asset_node [Issue 70 77 0 0 100 1; Transfer 7 8 9 30; EndEpoch; Manage 7 8 2 2 10] (emptyUniverse 6) = Some (u, out) /\
  numberOfShares 6 (mkAsset 70 77) any_ownership any_possession u = Some 100 /\ numberOfShares 6 (mkAsset 70 77) any_ownership (mkPossessionSelect 70 0 false true) u = Some 70.
Proof.
  destruct (asset_run 6 ex_asset_leaf ex_asset_node [Issue 70 77 0 0 100 1; Transfer 7 8 9 30; EndEpoch; Manage 7 8 2 2 10] (emptyUniverse 6)) as [[u out]|] eqn:E; [|exfalso; revert E; vm_compute; discriminate].
  exists u, out. split; [reflexivity|]. destruct (numberOfShares_sums 6 ltac:(lia) ex_asset_leaf ex_asset_node [Issue 70 77 0 0 100 1; Transfer 7 8 9 30; EndEpoch; Manage 7 8 2 2 10] u out ltac:(repeat constructor; unfold in_table; lia) ltac:(vm_compute; reflexivity) E) as [Hs _].
  rewrite !Hs. vm_compute in E. injection E as <- _. split; vm_compute; reflexivity.
Defined.
