(* ===== verification/ProposalData.v ===== *)
(** * Proposals and their votes

    The proposal types and proposal data of qpi/qpi_proposals.h and the three ways of storing the votes of a proposal of
    qpi/impl/qpi_proposals_impl.h: one byte per vote, one [sint64] per vote if scalar votes are supported, and two bits per vote for yes/no proposals.
    The template parameter of ProposalVoting that selects the data and its storage is the class [ProposalDataType]; its laws are [ProposalDataLaws]. *)
From S2P Require Import Prelude Containers.

Definition INVALID_PROPOSAL_INDEX : Z := 0xffff.
Definition INVALID_VOTE_INDEX : Z := 0xffffffff.
Definition NO_VOTE_VALUE : Z := - 2 ^ 63.
Definition NULL_ID : Z := 0.

(** ** Types of proposals *)
Definition GeneralOptions : Z := 0.
Definition Transfer : Z := 0x100.
Definition Variable_ : Z := 0x200.
Definition MultiVariables : Z := 0x300.
Definition TransferInEpoch : Z := 0x400.
Definition VariableScalarMean : Z := Z.lor Variable_ 0.

Definition optionCount (proposalType : Z) : Z := Z.land proposalType 0x00ff.
Definition cls (proposalType : Z) : Z := Z.land proposalType 0xff00.

Definition isValidType (proposalType : Z) : bool :=
  let cls := cls proposalType in let options := optionCount proposalType in
  if (cls =? GeneralOptions) || (cls =? MultiVariables) then (2 <=? options) && (options <=? 8)
  else if cls =? Transfer then (2 <=? options) && (options <=? 5)
  else if cls =? TransferInEpoch then options =? 2
  else if cls =? Variable_ then ((2 <=? options) && (options <=? 5)) || (options =? 0)
  else false.

(** ** Proposal data; the union [data] is its 64-bit words *)
Record ProposalData := mkProposal {
  p_url : list Z;
  p_epoch : Z;
  p_type : Z;
  p_tick : Z;
  p_data : list Z
}.
#[export] Instance ProposalData_inhabited : Inhabited ProposalData := populate (mkProposal [] 0 0 0 []).

Definition with_tick_epoch (tick epoch : Z) (p : ProposalData) : ProposalData := mkProposal (p_url p) epoch (p_type p) tick (p_data p).

Definition word (p : ProposalData) (i : Z) : Z := (p_data p).[i].
(** [transfer.destination] and [transferInEpoch.destination], four words *)
Definition destination (p : ProposalData) : Z := word p 0 + 2 ^ 64 * word p 1 + 2 ^ 128 * word p 2 + 2 ^ 192 * word p 3.
(** [transfer.amounts] *)
Definition amounts (p : ProposalData) : list Z := map (fun i => s64 (word p i)) [4; 5; 6; 7].
(** [transfer.amount] of the yes/no data and [transferInEpoch] *)
Definition amount (p : ProposalData) : Z := s64 (word p 4).
Definition targetEpoch (p : ProposalData) : Z := u16 (word p 5).
(** [variableOptions.values] and [variableScalar] *)
Definition values (p : ProposalData) : list Z := map (fun i => s64 (word p i)) [1; 2; 3; 4].
Definition minValue (p : ProposalData) : Z := s64 (word p 1).
Definition maxValue (p : ProposalData) : Z := s64 (word p 2).
Definition proposedValue (p : ProposalData) : Z := s64 (word p 3).
Definition minSupportedValue : Z := - 2 ^ 63 + 1.
Definition maxSupportedValue : Z := 2 ^ 63 - 1.

(** ProposalDataV1::checkValidity *)
Definition checkValidityV1 (supportScalarVotes : bool) (p : ProposalData) : bool :=
  let cls := cls (p_type p) in let options := optionCount (p_type p) in
  if (cls =? GeneralOptions) || (cls =? MultiVariables) then (2 <=? options) && (options <=? 8)
  else if cls =? Transfer then
    if negb (destination p =? NULL_ID) && (2 <=? options) && (options <=? 5) then
      let proposedAmounts := options - 1 in
      forallb (fun i => negb ((amounts p).[i] <? 0)) (seqZ 0 proposedAmounts) &&
      Sorted.isArraySortedWithoutDuplicates 2 (amounts p) 0 proposedAmounts && Array.rangeEquals 2 (amounts p) proposedAmounts 4 0
    else false
  else if cls =? TransferInEpoch then (options =? 2) && negb (destination p =? NULL_ID) && (0 <=? amount p)
  else if cls =? Variable_ then
    if (2 <=? options) && (options <=? 5) then
      let proposedValues := options - 1 in
      Sorted.isArraySortedWithoutDuplicates 2 (values p) 0 proposedValues && Array.rangeEquals 2 (values p) proposedValues 4 0
    else if options =? 0 then
      if supportScalarVotes then (minValue p <=? proposedValue p) && (proposedValue p <=? maxValue p) && (NO_VOTE_VALUE <? minValue p) else false
    else false
  else false.

(** ProposalDataYesNo::checkValidity *)
Definition checkValidityYesNo (p : ProposalData) : bool :=
  let cls := cls (p_type p) in let options := optionCount (p_type p) in
  if (cls =? GeneralOptions) || (cls =? MultiVariables) then (2 <=? options) && (options <=? 3)
  else if cls =? Transfer then (options =? 2) && negb (destination p =? NULL_ID) && (0 <=? amount p)
  else if cls =? Variable_ then options =? 2
  else false.

(** ** Votes *)

(** ProposalWithAllVoteData *)
Record ProposalWithAllVoteData := mkStored { s_proposal : ProposalData; s_votes : list Z }.
#[export] Instance Stored_inhabited : Inhabited ProposalWithAllVoteData := populate (mkStored inhabitant []).

Section storage.
Variable numOfVotes : Z.

(** ProposalWithAllVoteData::set of the general template *)
Definition setV1 (supportScalarVotes : bool) (proposal : ProposalData) (s : ProposalWithAllVoteData) : ProposalWithAllVoteData * bool :=
  if negb supportScalarVotes && (p_type proposal =? VariableScalarMean) then (s, false)
  else (mkStored proposal (replicate (Z.to_nat numOfVotes) (if negb supportScalarVotes then 0xff else NO_VOTE_VALUE)), true).

Definition setVoteValueV1 (supportScalarVotes : bool) (voteIndex voteValue : Z) (s : ProposalWithAllVoteData) : ProposalWithAllVoteData * bool :=
  let p := s_proposal s in
  let store v := mkStored p ((s_votes s).[voteIndex := v]) in
  if voteIndex <? numOfVotes then
    if voteValue =? NO_VOTE_VALUE then (store (if supportScalarVotes then NO_VOTE_VALUE else 0xff), true)
    else if p_type p =? VariableScalarMean then
      if supportScalarVotes then
        if (minValue p <=? voteValue) && (voteValue <=? maxValue p) then (store voteValue, true) else (s, false)
      else (s, false)
    else
      let numOptions := optionCount (p_type p) in
      if (0 <=? voteValue) && (voteValue <? numOptions) then (store (if supportScalarVotes then voteValue else u8 voteValue), true) else (s, false)
  else (s, false).

Definition getVoteValueV1 (supportScalarVotes : bool) (voteIndex : Z) (s : ProposalWithAllVoteData) : Z :=
  if voteIndex <? numOfVotes then
    if supportScalarVotes then (s_votes s).[voteIndex]
    else if negb ((s_votes s).[voteIndex] =? 0xff) then (s_votes s).[voteIndex] else NO_VOTE_VALUE
  else NO_VOTE_VALUE.

(** The specialisation for ProposalDataYesNo: four votes per byte *)
Definition setYesNo (proposal : ProposalData) (s : ProposalWithAllVoteData) : ProposalWithAllVoteData * bool :=
  if p_type proposal =? VariableScalarMean then (s, false)
  else (mkStored proposal (replicate (Z.to_nat ((2 * numOfVotes + 7) / 8)) 0xff), true).

Definition setVoteValueYesNo (voteIndex voteValue : Z) (s : ProposalWithAllVoteData) : ProposalWithAllVoteData * bool :=
  let votes := s_votes s in let i := Z.shiftr voteIndex 2 in
  if voteIndex <? numOfVotes then
    if voteValue =? NO_VOTE_VALUE then
      let bits := u8 (Z.shiftl 3 (Z.land voteIndex 3 * 2)) in
      (mkStored (s_proposal s) (votes.[i := Z.lor (votes.[i]) bits]), true)
    else
      let numOptions := optionCount (p_type (s_proposal s)) in
      if (0 <=? voteValue) && (voteValue <? numOptions) then
        let bitMask := u8 (Z.shiftl 3 (Z.land voteIndex 3 * 2)) in
        let bitNum := u8 (Z.shiftl (u8 voteValue) (Z.land voteIndex 3 * 2)) in
        let votes := votes.[i := u8 (Z.land (votes.[i]) (Z.lnot bitMask))] in
        (mkStored (s_proposal s) (votes.[i := Z.lor (votes.[i]) bitNum]), true)
      else (s, false)
  else (s, false).

Definition getVoteValueYesNo (voteIndex : Z) (s : ProposalWithAllVoteData) : Z :=
  if voteIndex <? numOfVotes then
    let value := Z.land (Z.shiftr ((s_votes s).[Z.shiftr voteIndex 2]) (Z.land voteIndex 3 * 2)) 3 in
    if negb (value =? 3) then value else NO_VOTE_VALUE
  else NO_VOTE_VALUE.
End storage.

(** ** The interface of the template parameter *)
Class ProposalDataType := {
  checkValidity : ProposalData -> bool;
  (* the number of words of the union and of elements of the vote storage *)
  data_words : nat;
  votes_length : Z -> nat;
  set : Z -> ProposalData -> ProposalWithAllVoteData -> ProposalWithAllVoteData * bool;
  setVoteValue : Z -> Z -> Z -> ProposalWithAllVoteData -> ProposalWithAllVoteData * bool;
  getVoteValue : Z -> Z -> ProposalWithAllVoteData -> Z;
  (* __getVotingSummaryScalarVotes is specialised to return false *)
  noScalarSummary : bool
}.

Definition DataV1 (supportScalarVotes : bool) : ProposalDataType := {|
  checkValidity := checkValidityV1 supportScalarVotes;
  data_words := 8;
  votes_length n := Z.to_nat n;
  set n := setV1 n supportScalarVotes;
  setVoteValue n := setVoteValueV1 n supportScalarVotes;
  getVoteValue n := getVoteValueV1 n supportScalarVotes;
  noScalarSummary := false
|}.

Definition DataYesNo : ProposalDataType := {|
  checkValidity := checkValidityYesNo;
  data_words := 5;
  votes_length n := Z.to_nat ((2 * n + 7) / 8);
  set := setYesNo;
  setVoteValue := setVoteValueYesNo;
  getVoteValue := getVoteValueYesNo;
  noScalarSummary := true
|}.

(** ** What a data type promises to the voting *)

(** The values a voter may choose *)
Definition valid_vote (p : ProposalData) (v : Z) : Prop :=
  v <> NO_VOTE_VALUE /\ if decide (p_type p = VariableScalarMean) then minValue p <= v <= maxValue p else 0 <= v < optionCount (p_type p).
#[export] Instance valid_vote_dec p v : Decision (valid_vote p v).
Proof. unfold valid_vote. destruct (decide (p_type p = VariableScalarMean)); apply _. Defined.

Definition castable (p : ProposalData) (v : Z) : Prop := v = NO_VOTE_VALUE \/ valid_vote p v.

(** The outcome [r] of storing the vote [v] at index [i] of [s], in a storage with [n] votes that is read by [get] *)
Definition casts (n : Z) (okay : ProposalWithAllVoteData -> Prop) (get : Z -> ProposalWithAllVoteData -> Z) (i v : Z) (s : ProposalWithAllVoteData)
    (r : ProposalWithAllVoteData * bool) : Prop :=
  okay r.1 /\ s_proposal r.1 = s_proposal s /\ (r.2 = true <-> i < n /\ castable (s_proposal s) v) /\ (r.2 = false -> r.1 = s) /\
  (r.2 = true -> forall j, 0 <= j -> get j r.1 = if decide (j = i) then v else get j s).

Lemma casts_refused n (okay : ProposalWithAllVoteData -> Prop) get i v s : okay s -> ~ (i < n /\ castable (s_proposal s) v) -> casts n okay get i v s (s, false).
Proof. intros Hs Hno. split; [done|]. split; [done|]. split; [split; [done|tauto]|]. done. Qed.

Class ProposalDataLaws (D : ProposalDataType) (n : Z) := {
  stored_ok : ProposalWithAllVoteData -> Prop;
  checkValidity_tick_epoch p t e : checkValidity (with_tick_epoch t e p) = checkValidity p;
  checkValidity_options p : checkValidity p = true -> optionCount (p_type p) <= 8;
  scalar_law p : checkValidity p = true -> p_type p = VariableScalarMean -> noScalarSummary = false /\ minSupportedValue <= minValue p;
  zero_ok p : stored_ok (mkStored p (replicate (votes_length n) 0));
  stored_ok_proposal s p : stored_ok s -> stored_ok (mkStored p (s_votes s));
  get_proposal i s p : getVoteValue n i (mkStored p (s_votes s)) = getVoteValue n i s;
  set_law p s : checkValidity p = true ->
    exists s', set n p s = (s', true) /\ stored_ok s' /\ s_proposal s' = p /\ forall i, 0 <= i -> getVoteValue n i s' = NO_VOTE_VALUE;
  setVoteValue_law i v s : stored_ok s -> checkValidity (s_proposal s) = true -> 0 <= i ->
    casts n stored_ok (getVoteValue n) i v s (setVoteValue n i v s)
}.

Lemma optionCount_range t : 0 <= optionCount t <= 255.
Proof. unfold optionCount. change 0xff with (2 ^ 8 - 1). rewrite land_mask by lia. pose proof (Z.mod_pos_bound t (2 ^ 8)). lia. Qed.

(** *** One byte or one [sint64] per vote *)
Section V1.
Context (supportScalarVotes : bool) (n : Z).
Hypothesis Hn : 0 <= n.

Lemma checkValidityV1_options p : checkValidityV1 supportScalarVotes p = true -> optionCount (p_type p) <= 8.
Proof. unfold checkValidityV1. intros H. repeat case_match; try done; rewrite ?andb_true_iff, ?Z.leb_le, ?Z.eqb_eq in *; lia. Qed.

(** A scalar proposal is valid only where scalar votes are supported. *)
Lemma checkValidityV1_scalar p : checkValidityV1 supportScalarVotes p = true -> p_type p = VariableScalarMean -> supportScalarVotes = true.
Proof. unfold checkValidityV1. intros H Ht. rewrite Ht in H. cbn in H. by destruct supportScalarVotes. Qed.

Lemma checkValidityV1_min p : checkValidityV1 supportScalarVotes p = true -> p_type p = VariableScalarMean -> minSupportedValue <= minValue p.
Proof.
  unfold checkValidityV1. intros H Ht. rewrite Ht in H. cbn [cls optionCount VariableScalarMean] in H. destruct supportScalarVotes; [|done].
  apply andb_true_iff in H as [_ H%Z.ltb_lt]. unfold NO_VOTE_VALUE, minSupportedValue in *. lia.
Qed.

Definition storedV1 (s : ProposalWithAllVoteData) : Prop := alen (s_votes s) = n.

Lemma setV1_spec p s : checkValidityV1 supportScalarVotes p = true ->
  exists s', setV1 n supportScalarVotes p s = (s', true) /\ storedV1 s' /\ s_proposal s' = p /\
  forall i, 0 <= i -> getVoteValueV1 n supportScalarVotes i s' = NO_VOTE_VALUE.
Proof.
  intros Hv. unfold setV1. assert (negb supportScalarVotes && (p_type p =? VariableScalarMean) = false) as ->.
  { destruct (Z.eqb_spec (p_type p) VariableScalarMean) as [Ht|]; [|apply andb_false_r]. by rewrite (checkValidityV1_scalar p Hv Ht). }
  eexists. split; [done|]. split; [unfold storedV1; simpl; rewrite alen_replicate; lia|]. split; [done|].
  intros i Hi. unfold getVoteValueV1. cbn [s_votes]. destruct (Z.ltb_spec i n); [|done]. rewrite aget_replicate by lia. by destruct supportScalarVotes.
Qed.

Lemma setVoteValueV1_spec i v s : storedV1 s -> checkValidityV1 supportScalarVotes (s_proposal s) = true -> 0 <= i ->
  casts n storedV1 (getVoteValueV1 n supportScalarVotes) i v s (setVoteValueV1 n supportScalarVotes i v s).
Proof.
  intros Hs Hv Hi. pose proof (checkValidityV1_options _ Hv) as Ho. pose proof (checkValidityV1_scalar _ Hv) as Hsc. unfold storedV1 in *.
  unfold setVoteValueV1. set (p := s_proposal s) in *.
  assert (forall x, i < n -> (supportScalarVotes = true -> x = v) -> (supportScalarVotes = false -> x = (if decide (v = NO_VOTE_VALUE) then 0xff else v) /\ v <> 0xff) -> castable p v ->
    casts n storedV1 (getVoteValueV1 n supportScalarVotes) i v s (mkStored p ((s_votes s).[i := x]), true)) as Hstore.
  { intros x Hin H1 H2 Hc. split; [by unfold storedV1; simpl; rewrite alen_aset|]. split; [done|]. split; [done|]. split; [done|]. intros _ j Hj.
    unfold getVoteValueV1. cbn [fst s_votes]. destruct (decide (j = i)) as [->|E].
    - rewrite (proj2 (Z.ltb_lt i n)), aget_aset_eq by lia. destruct supportScalarVotes; [by apply H1|]. destruct (H2 eq_refl) as [-> Hne].
      case_decide as E; [by subst v|]. rewrite (proj2 (Z.eqb_neq _ _)) by done. done.
    - by rewrite aget_aset_ne. }
  pose proof (casts_refused n storedV1 (getVoteValueV1 n supportScalarVotes) i v s Hs) as Hbad. fold p in Hbad.
  destruct (Z.ltb_spec i n); [|apply Hbad; lia]. destruct (Z.eqb_spec v NO_VOTE_VALUE) as [->|Hne].
  { apply Hstore; [done|by intros ->|intros ->; by rewrite decide_True|by left]. }
  destruct (Z.eqb_spec (p_type p) VariableScalarMean) as [Ht|Ht].
  - rewrite (Hsc Ht) in *. destruct (Z.leb_spec (minValue p) v), (Z.leb_spec v (maxValue p)); cbn [andb];
      try (apply Hbad; intros [_ [?|[_ Hr]]]; [done|]; rewrite decide_True in Hr by done; lia).
    apply Hstore; [done|done|done|]. right. split; [done|]. by rewrite decide_True.
  - destruct (Z.leb_spec 0 v), (Z.ltb_spec v (optionCount (p_type p))); cbn [andb];
      try (apply Hbad; intros [_ [?|[_ Hr]]]; [done|]; rewrite decide_False in Hr by done; lia).
    apply Hstore; [done|by intros ->| |].
    + intros ->. rewrite decide_False by done. unfold u8. rewrite Z.mod_small by lia. lia.
    + right. split; [done|]. by rewrite decide_False.
Qed.

#[export] Instance DataV1_laws : ProposalDataLaws (DataV1 supportScalarVotes) n.
Proof.
  refine {| stored_ok := storedV1 |}.
  - done.
  - apply checkValidityV1_options.
  - intros p Hv Ht. split; [done|]. by apply (checkValidityV1_min p).
  - intros p. unfold storedV1. cbn. rewrite alen_replicate. lia.
  - done.
  - done.
  - apply setV1_spec.
  - apply setVoteValueV1_spec.
Defined.
End V1.

(** *** Two bits per vote *)

(** A byte of four votes *)
Definition field (b k : Z) : Z := Z.land (Z.shiftr b (k * 2)) 3.
Definition clear_field (b k : Z) : Z := u8 (Z.land b (Z.lnot (u8 (Z.shiftl 3 (k * 2))))).
Definition put_field (b k v : Z) : Z := Z.lor (clear_field b k) (u8 (Z.shiftl (u8 v) (k * 2))).
Definition fill_field (b k : Z) : Z := Z.lor b (u8 (Z.shiftl 3 (k * 2))).

Lemma fields_checked :
  forallb (fun b => forallb (fun k => forallb (fun v => forallb (fun j =>
    (field (put_field b k v) j =? (if j =? k then v else field b j)) && (field (fill_field b k) j =? (if j =? k then 3 else field b j)) &&
    (0 <=? put_field b k v) && (put_field b k v <? 256) && (0 <=? fill_field b k) && (fill_field b k <? 256)) (seqZ 0 4)) (seqZ 0 4)) (seqZ 0 4)) (seqZ 0 256) = true.
Proof. vm_compute. reflexivity. Qed.

Lemma forallb_seqZ f n i : forallb f (seqZ 0 n) = true -> 0 <= i < n -> f i = true.
Proof. rewrite forallb_forall. intros H Hi. apply H, list_elem_of_In, elem_of_seqZ. lia. Qed.

Lemma field_laws b k v j : 0 <= b < 256 -> 0 <= k < 4 -> 0 <= v < 4 -> 0 <= j < 4 ->
  field (put_field b k v) j = (if decide (j = k) then v else field b j) /\ field (fill_field b k) j = (if decide (j = k) then 3 else field b j) /\
  0 <= put_field b k v < 256 /\ 0 <= fill_field b k < 256.
Proof.
  intros Hb Hk Hv Hj. pose proof fields_checked as H. eapply forallb_seqZ in H; [|exact Hb]. eapply forallb_seqZ in H; [|exact Hk].
  eapply forallb_seqZ in H; [|exact Hv]. eapply forallb_seqZ in H; [|exact Hj].
  rewrite !andb_true_iff, !Z.eqb_eq, !Z.leb_le, !Z.ltb_lt in H. destruct H as [[[[[H1 H2] H3] H4] H5] H6]. rewrite H1, H2.
  destruct (Z.eqb_spec j k); [rewrite !decide_True by done|rewrite !decide_False by done]; done.
Qed.

Section yes_no.
Variable n : Z.
Hypothesis Hn : 0 <= n.

Definition storedYesNo (s : ProposalWithAllVoteData) : Prop :=
  alen (s_votes s) = (2 * n + 7) / 8 /\ forall i, 0 <= i < alen (s_votes s) -> 0 <= (s_votes s).[i] < 256.

Lemma checkValidityYesNo_options p : checkValidityYesNo p = true -> optionCount (p_type p) <= 3.
Proof. unfold checkValidityYesNo. intros H. repeat case_match; try done; rewrite ?andb_true_iff, ?Z.leb_le, ?Z.eqb_eq in *; lia. Qed.
Lemma checkValidityYesNo_scalar p : checkValidityYesNo p = true -> p_type p <> VariableScalarMean.
Proof. unfold checkValidityYesNo. intros H Ht. rewrite Ht in H. done. Qed.

(** Where vote [i] is stored *)
Lemma vote_position i : 0 <= i < n -> Z.shiftr i 2 = i / 4 /\ Z.land i 3 = i mod 4 /\ 0 <= i / 4 < (2 * n + 7) / 8 /\ 0 <= i mod 4 < 4.
Proof.
  intros Hi. rewrite Z.shiftr_div_pow2 by lia. change 3 with (2 ^ 2 - 1). rewrite land_mask by lia. change (2 ^ 2) with 4.
  split; [done|]. split; [done|]. Z.div_mod_to_equations. lia.
Qed.

Lemma getVoteValueYesNo_eq i s : 0 <= i -> getVoteValueYesNo n i s =
  if decide (i < n) then if decide (field ((s_votes s).[i / 4]) (i mod 4) = 3) then NO_VOTE_VALUE else field ((s_votes s).[i / 4]) (i mod 4) else NO_VOTE_VALUE.
Proof.
  intros Hi. unfold getVoteValueYesNo. destruct (Z.ltb_spec i n); [rewrite decide_True by done|by rewrite decide_False by lia].
  destruct (vote_position i) as (-> & -> & _); [lia|]. fold (field ((s_votes s).[i / 4]) (i mod 4)).
  destruct (Z.eqb_spec (field ((s_votes s).[i / 4]) (i mod 4)) 3) as [->|Hne]; [done|]. cbn [negb]. by rewrite decide_False.
Qed.

Lemma setYesNo_spec p s : checkValidityYesNo p = true ->
  exists s', setYesNo n p s = (s', true) /\ storedYesNo s' /\ s_proposal s' = p /\ forall i, 0 <= i -> getVoteValueYesNo n i s' = NO_VOTE_VALUE.
Proof.
  intros Hv. unfold setYesNo. rewrite (proj2 (Z.eqb_neq _ _)) by (by apply checkValidityYesNo_scalar). eexists. split; [done|].
  assert (0 <= (2 * n + 7) / 8) by (apply Z.div_pos; lia). split; [|split; [done|]].
  - split; cbn [s_votes]; [rewrite alen_replicate; lia|]. intros i Hi. rewrite alen_replicate in Hi. by rewrite aget_replicate by lia.
  - intros i Hi. rewrite getVoteValueYesNo_eq by done. case_decide; [|done]. cbn [s_votes]. destruct (vote_position i) as (_ & _ & H1 & H2); [lia|].
    rewrite aget_replicate by lia. assert (i mod 4 = 0 \/ i mod 4 = 1 \/ i mod 4 = 2 \/ i mod 4 = 3) as [->|[->|[->| ->]]] by lia; done.
Qed.

(** Changing the field of one vote *)
Lemma get_after_field i s b x : 0 <= i < n -> storedYesNo s -> 0 <= b < 256 ->
  (forall j, 0 <= j < 4 -> field b j = if decide (j = i mod 4) then x else field ((s_votes s).[i / 4]) j) ->
  let s' := mkStored (s_proposal s) ((s_votes s).[i / 4 := b]) in
  storedYesNo s' /\ forall j, 0 <= j -> getVoteValueYesNo n j s' = if decide (j = i) then (if decide (x = 3) then NO_VOTE_VALUE else x) else getVoteValueYesNo n j s.
Proof.
  intros Hi [Hl Hb] Hbyte Hf s'. destruct (vote_position i Hi) as (_ & _ & Hq & Hr). split.
  - split; cbn [s' s_votes]; rewrite alen_aset; [done|]. intros j Hj. rewrite aget_aset. case_decide; [done|]. apply Hb. lia.
  - intros j Hj. rewrite !getVoteValueYesNo_eq by done. destruct (decide (j < n)) as [Hjn|Hjn]; [|by rewrite decide_False by lia].
    destruct (vote_position j) as (_ & _ & Hqj & Hrj); [lia|]. unfold s'. cbn [s_votes].
    destruct (decide (j / 4 = i / 4)) as [E|E].
    + rewrite E, aget_aset_eq, Hf by (done || lia). destruct (decide (j mod 4 = i mod 4)) as [Em|Em].
      * rewrite (decide_True (P := j = i)) by (pose proof (Z.div_mod i 4); pose proof (Z.div_mod j 4); lia). done.
      * rewrite (decide_False (P := j = i)) by (intros ->; done). done.
    + rewrite aget_aset_ne by done. rewrite (decide_False (P := j = i)) by (intros ->; done). done.
Qed.

Lemma setVoteValueYesNo_spec i v s : storedYesNo s -> checkValidityYesNo (s_proposal s) = true -> 0 <= i ->
  casts n storedYesNo (getVoteValueYesNo n) i v s (setVoteValueYesNo n i v s).
Proof.
  intros Hs Hv Hi. pose proof (checkValidityYesNo_options _ Hv) as Ho. pose proof (checkValidityYesNo_scalar _ Hv) as Hsc.
  pose proof (casts_refused n storedYesNo (getVoteValueYesNo n) i v s Hs) as Hbad. unfold setVoteValueYesNo.
  destruct (Z.ltb_spec i n) as [Hin|]; [|apply Hbad; lia]. destruct (vote_position i) as (-> & -> & Hq & Hr); [lia|]. pose proof Hs as [Hl Hb].
  specialize (Hb (i / 4) ltac:(lia)). destruct (Z.eqb_spec v NO_VOTE_VALUE) as [->|Hne].
  - fold (fill_field ((s_votes s).[i / 4]) (i mod 4)). destruct (get_after_field i s (fill_field ((s_votes s).[i / 4]) (i mod 4)) 3) as [H1 H2]; [lia|done| | |].
    + by apply (field_laws _ _ 0 0).
    + intros j Hj. by apply (field_laws _ _ 0 j).
    + split; [done|]. split; [done|]. split; [split; [intros _; split; [done|by left]|done]|]. split; [done|]. intros _ j Hj. cbn [fst]. rewrite H2 by done. done.
  - destruct (Z.leb_spec 0 v), (Z.ltb_spec v (optionCount (p_type (s_proposal s)))); cbn [andb];
      try (apply Hbad; intros [_ [?|[_ Hr']]]; [done|]; rewrite decide_False in Hr' by done; lia).
    rewrite aget_aset_eq, aset_aset by lia. fold (clear_field ((s_votes s).[i / 4]) (i mod 4)). fold (put_field ((s_votes s).[i / 4]) (i mod 4) v).
    destruct (get_after_field i s (put_field ((s_votes s).[i / 4]) (i mod 4) v) v) as [H1 H2]; [lia|done| | |].
    + apply (field_laws _ _ v 0); lia.
    + intros j Hj. apply (field_laws _ _ v j); lia.
    + split; [done|]. split; [done|]. split; [split; [intros _; split; [done|right; split; [done|by rewrite decide_False]]|done]|]. split; [done|].
      intros _ j Hj. cbn [fst]. rewrite H2 by done. by rewrite (decide_False (P := v = 3)) by lia.
Qed.

#[export] Instance DataYesNo_laws : ProposalDataLaws DataYesNo n.
Proof.
  refine {| stored_ok := storedYesNo |}.
  - done.
  - intros p Hp%checkValidityYesNo_options. lia.
  - intros p Hv Ht. by apply checkValidityYesNo_scalar in Hv.
  - intros p. assert (0 <= (2 * n + 7) / 8) by (apply Z.div_pos; lia). split; cbn [s_votes votes_length DataYesNo]; rewrite alen_replicate; [lia|].
    intros i Hi. rewrite aget_replicate by lia. lia.
  - done.
  - done.
  - apply setYesNo_spec.
  - apply setVoteValueYesNo_spec.
Defined.
End yes_no.
