(* ===== verification/ProposalVoters.v ===== *)
(** * Who may propose and vote

    The classes ProposalAndVotingByComputors, ProposalByAnyoneVotingByComputors and ProposalAndVotingByShareholders of
    qpi/impl/qpi_proposals_impl.h, as instances of one interface: [VoterHandling] has the methods that ProposalVoting calls and
    [VoterLaws] what it may rely on.  Each slot has a roll that gives the owner of every vote. *)
From S2P Require Import Prelude ProposalData.
From S2P Require Assets.

(** What the classes ask the context of the contract call; [possessions] is what AssetPossessionIterator visits, possessor and number of shares,
    and [numberOfShares] the shares of the contract that an identity both owns and possesses. *)
Record QpiContext := mkContext {
  q_epoch : Z;
  q_tick : Z;
  computor : Z -> Z;
  numberOfShares : Z -> Z;
  possessions : list (Z * Z)
}.

(** [operator<] of m256i: word by word, from the first *)
Fixpoint m256i_lt_from (n : nat) (i a b : Z) : bool :=
  match n with
  | O => false
  | S n =>
      if Assets.m256i_u64 a i <? Assets.m256i_u64 b i then true
      else if Assets.m256i_u64 b i <? Assets.m256i_u64 a i then false
      else m256i_lt_from n (i + 1) a b
  end.
Definition m256i_lt (a b : Z) : bool := m256i_lt_from 4 0 a b.

(** [for (i = 0; i < n; ++i) if (P(i)) return i; return notFound] *)
Fixpoint search (P : Z -> bool) (n : nat) (i notFound : Z) : Z :=
  match n with O => notFound | S n => if P i then i else search P n (i + 1) notFound end.

(** The methods; slots and votes are numbered from 0. *)
Class VoterHandling (S : Type) := {
  isValidProposer : QpiContext -> S -> Z -> bool;
  getNewProposalIndex : QpiContext -> Z -> S -> S * Z;
  freeProposalByIndex : Z -> S -> S;
  getProposerId : S -> Z -> Z;
  getExistingProposalIndex : S -> Z -> Z;
  getVoteIndex : QpiContext -> S -> Z -> Z -> Z;
  getVoteCount : QpiContext -> S -> Z -> Z -> Z;
  getVoterId : QpiContext -> S -> Z -> Z -> Z
}.

Section handlers.
Variables maxProposals maxVotes : Z.

(** The methods on [currentProposalProposers] that the classes share *)
Definition proposers_existing (currentProposalProposers : list Z) (proposerId : Z) : Z :=
  if proposerId =? NULL_ID then INVALID_PROPOSAL_INDEX
  else search (fun i => currentProposalProposers.[i] =? proposerId) (Z.to_nat maxProposals) 0 INVALID_PROPOSAL_INDEX.
Definition proposers_empty (currentProposalProposers : list Z) : Z :=
  search (fun i => currentProposalProposers.[i] =? NULL_ID) (Z.to_nat maxProposals) 0 INVALID_PROPOSAL_INDEX.
Definition proposers_get (currentProposalProposers : list Z) (proposalIndex : Z) : Z :=
  if maxProposals <=? proposalIndex then NULL_ID else currentProposalProposers.[proposalIndex].

(** ** ProposalAndVotingByComputors *)
Definition computors_getVoteIndex (q : QpiContext) (voterId : Z) : Z :=
  if voterId =? NULL_ID then INVALID_VOTE_INDEX
  else search (fun compIdx => computor q compIdx =? voterId) (Z.to_nat maxVotes) 0 INVALID_VOTE_INDEX.
Definition computors_isValidProposer (q : QpiContext) (proposerId : Z) : bool := computors_getVoteIndex q proposerId <? maxVotes.
Definition computors_getNewProposalIndex (proposerId : Z) (proposers : list Z) : list Z * Z :=
  let idx := proposers_existing proposers proposerId in
  if idx <? maxProposals then (proposers.[idx := proposerId], idx)
  else
    let idx := proposers_empty proposers in
    if idx <? maxProposals then (proposers.[idx := proposerId], idx) else (proposers, INVALID_PROPOSAL_INDEX).
Definition computors_freeProposalByIndex (proposalIndex : Z) (proposers : list Z) : list Z :=
  if proposalIndex <? maxProposals then proposers.[proposalIndex := NULL_ID] else proposers.
Definition computors_getVoteCount (voteIndex : Z) : Z := if maxVotes <=? voteIndex then 0 else 1.
Definition computors_getVoterId (q : QpiContext) (voteIndex : Z) : Z := if maxVotes <=? voteIndex then NULL_ID else computor q voteIndex.

(** The class with its [isValidProposer], which the derived class replaces *)
Definition computors_handling (valid : QpiContext -> Z -> bool) : VoterHandling (list Z) := {|
  isValidProposer q _ proposerId := valid q proposerId;
  getNewProposalIndex _ proposerId proposers := computors_getNewProposalIndex proposerId proposers;
  freeProposalByIndex := computors_freeProposalByIndex;
  getProposerId := proposers_get;
  getExistingProposalIndex := proposers_existing;
  getVoteIndex q _ voterId _ := computors_getVoteIndex q voterId;
  getVoteCount _ _ voteIndex _ := computors_getVoteCount voteIndex;
  getVoterId q _ voteIndex _ := computors_getVoterId q voteIndex
|}.
Definition handling_by_computors : VoterHandling (list Z) := computors_handling computors_isValidProposer.

(** ** ProposalByAnyoneVotingByComputors *)
Definition isValidProposer_anyone (proposerId : Z) : bool := negb (proposerId =? NULL_ID).
Definition handling_by_anyone : VoterHandling (list Z) := computors_handling (fun _ => isValidProposer_anyone).

(** ** ProposalAndVotingByShareholders *)
Record rolls := mkRolls { currentProposalProposers : list Z; currentProposalShareholders : list (list Z) }.

Definition shareholders_isValidProposer (q : QpiContext) (proposerId : Z) : bool := 0 <? numberOfShares q proposerId.

(** The search in the sorted array, backwards from position [n - 1]; the result is the index before the place of [possessor]. *)
Fixpoint search_back (n : nat) (shareholders : list (Z * Z)) (possessor : Z) : Z :=
  match n with
  | O => -1
  | S idx => if negb (m256i_lt (shareholders.[Z.of_nat idx]).1 possessor) then search_back idx shareholders possessor else Z.of_nat idx
  end.

(** [n] items are moved one place up, from [idxMove] downwards. *)
Fixpoint move_up {A} `{Inhabited A} (n : nat) (idxMove : Z) (shareholders : list A) : list A :=
  match n with
  | O => shareholders
  | S n => move_up n (idxMove - 1) (shareholders.[idxMove + 1 := shareholders.[idxMove]])
  end.

(** One possession; the array and [lastShareholderIdx] *)
Definition gather (st : list (Z * Z) * Z) (possession : Z * Z) : list (Z * Z) * Z :=
  let '(shareholders, lastShareholderIdx) := st in let '(possessor, shares) := possession in
  if 0 <? shares then
    let idx := search_back (Z.to_nat (lastShareholderIdx + 1)) shareholders possessor + 1 in
    if (idx <=? lastShareholderIdx) && ((shareholders.[idx]).1 =? possessor) then
      (shareholders.[idx := ((shareholders.[idx]).1, (shareholders.[idx]).2 + shares)], lastShareholderIdx)
    else
      let shareholders := move_up (Z.to_nat (lastShareholderIdx - idx + 1)) lastShareholderIdx shareholders in
      (shareholders.[idx := (possessor, shares)], lastShareholderIdx + 1)
  else st.

(** The votes of one shareholder; the array and [voteIdx] *)
Definition enter_votes (st : list Z * Z) (shareholder : Z * Z) : list Z * Z :=
  for_loop (Z.to_nat shareholder.2) 0 (fun _ '(votes, voteIdx) => (votes.[voteIdx := shareholder.1], voteIdx + 1)) st.

Definition setupNewProposal (q : QpiContext) (proposerId proposalIdx : Z) (s : rolls) : rolls :=
  if (maxProposals <=? proposalIdx) || (proposerId =? NULL_ID) then s
  else
    let '(shareholders, lastShareholderIdx) := fold_left gather (possessions q) (replicate (Z.to_nat maxVotes) (0, 0), -1) in
    let votes := (for_loop (Z.to_nat (lastShareholderIdx + 1)) 0 (fun i st => enter_votes st (shareholders.[i]))
                    ((currentProposalShareholders s).[proposalIdx], 0)).1 in
    mkRolls ((currentProposalProposers s).[proposalIdx := proposerId]) ((currentProposalShareholders s).[proposalIdx := votes]).

Definition shareholders_getNewProposalIndex (q : QpiContext) (proposerId : Z) (s : rolls) : rolls * Z :=
  let idx := proposers_existing (currentProposalProposers s) proposerId in
  if idx <? maxProposals then (setupNewProposal q proposerId idx s, idx)
  else
    let idx := proposers_empty (currentProposalProposers s) in
    if idx <? maxProposals then (setupNewProposal q proposerId idx s, idx) else (s, INVALID_PROPOSAL_INDEX).

Definition shareholders_freeProposalByIndex (proposalIndex : Z) (s : rolls) : rolls :=
  if proposalIndex <? maxProposals then
    mkRolls ((currentProposalProposers s).[proposalIndex := NULL_ID]) ((currentProposalShareholders s).[proposalIndex := replicate (Z.to_nat maxVotes) NULL_ID])
  else s.

Definition shareholders_getVoteIndex (s : rolls) (voterId proposalIndex : Z) : Z :=
  if (voterId =? NULL_ID) || (maxProposals <=? proposalIndex) then INVALID_VOTE_INDEX
  else search (fun voteIdx => ((currentProposalShareholders s).[proposalIndex]).[voteIdx] =? voterId) (Z.to_nat maxVotes) 0 INVALID_VOTE_INDEX.

(** The votes of [voterId] from index [idx] on, without a gap *)
Fixpoint count_equal (n : nat) (shareholders : list Z) (idx voterId : Z) : Z :=
  match n with O => 0 | S n => if shareholders.[idx] =? voterId then 1 + count_equal n shareholders (idx + 1) voterId else 0 end.

Definition shareholders_getVoteCount (s : rolls) (voteIndex proposalIndex : Z) : Z :=
  if (maxVotes <=? voteIndex) || (maxProposals <=? proposalIndex) then 0
  else
    let shareholders := (currentProposalShareholders s).[proposalIndex] in
    1 + count_equal (Z.to_nat (maxVotes - (voteIndex + 1))) shareholders (voteIndex + 1) (shareholders.[voteIndex]).

Definition shareholders_getVoterId (s : rolls) (voteIndex proposalIndex : Z) : Z :=
  if (maxVotes <=? voteIndex) || (maxProposals <=? proposalIndex) then NULL_ID else ((currentProposalShareholders s).[proposalIndex]).[voteIndex].

Definition handling_by_shareholders : VoterHandling rolls := {|
  isValidProposer q _ proposerId := shareholders_isValidProposer q proposerId;
  getNewProposalIndex := shareholders_getNewProposalIndex;
  freeProposalByIndex := shareholders_freeProposalByIndex;
  getProposerId s := proposers_get (currentProposalProposers s);
  getExistingProposalIndex s := proposers_existing (currentProposalProposers s);
  getVoteIndex _ := shareholders_getVoteIndex;
  getVoteCount _ := shareholders_getVoteCount;
  getVoterId _ := shareholders_getVoterId
|}.
End handlers.
