(* ===== verification/ProposalRolls.v ===== *)
(** * The roll of a shareholder vote

    setupNewProposal of ProposalAndVotingByShareholders collects the shareholders in a sorted array and writes one vote per share.
    The roll it leaves has one block of votes per shareholder, as long as the number of shares. *)
From S2P Require Import Prelude ProposalData ProposalVoters.
From S2P Require Assets.

(** ** The order of identities *)
Definition id_key (a : Z) : Z :=
  ((Assets.m256i_u64 a 0 * 2 ^ 64 + Assets.m256i_u64 a 1) * 2 ^ 64 + Assets.m256i_u64 a 2) * 2 ^ 64 + Assets.m256i_u64 a 3.
Definition is_id (a : Z) : Prop := 0 <= a < 2 ^ 256.

Lemma m256i_lt_key a b : m256i_lt a b = true <-> id_key a < id_key b.
Proof.
  unfold m256i_lt, id_key. assert (forall x i, 0 <= Assets.m256i_u64 x i < 2 ^ 64) as Hr by (intros; apply u64_range).
  rewrite !digit_lt by done. cbn [m256i_lt_from]. change (0 + 1) with 1. change (1 + 1) with 2. change (2 + 1) with 3.
  pose proof (Hr a 0). pose proof (Hr a 1). pose proof (Hr a 2). pose proof (Hr b 0). pose proof (Hr b 1). pose proof (Hr b 2).
  repeat match goal with
  | |- context [if ?x <? ?y then _ else _] => destruct (Z.ltb_spec x y); [split; intros ?; first [done|lia|exfalso; lia]|]
  end.  split; intros ?; [done|lia].
Qed.
Lemma m256i_lt_key_false a b : m256i_lt a b = false <-> id_key b <= id_key a.
Proof. rewrite <- not_true_iff_false, m256i_lt_key. lia. Qed.

(** A number below 2^256 is made of its words. *)
Lemma id_words a : is_id a -> a = Assets.m256i_u64 a 0 + 2 ^ 64 * (Assets.m256i_u64 a 1 + 2 ^ 64 * (Assets.m256i_u64 a 2 + 2 ^ 64 * Assets.m256i_u64 a 3)).
Proof.
  intros Ha. unfold is_id in Ha. unfold Assets.m256i_u64, u64. rewrite !Z.shiftr_div_pow2 by lia. change (2 ^ (64 * 0)) with 1. rewrite Z.div_1_r.
  change (2 ^ (64 * 1)) with (2 ^ 64). replace (2 ^ (64 * 2)) with (2 ^ 64 * 2 ^ 64) by lia. replace (2 ^ (64 * 3)) with (2 ^ 64 * 2 ^ 64 * 2 ^ 64) by lia.
  rewrite <- !Z.div_div by lia. set (a1 := a / 2 ^ 64). set (a2 := a1 / 2 ^ 64). set (a3 := a2 / 2 ^ 64).
  assert (a3 mod 2 ^ 64 = a3) as ->.
  { apply Z.mod_small. unfold a3, a2, a1. split; [repeat (apply Z.div_pos; [|lia]); lia|]. repeat (apply Z.div_lt_upper_bound; [lia|]). lia. }
  pose proof (Z.div_mod a (2 ^ 64) ltac:(lia)) as H. pose proof (Z.div_mod a1 (2 ^ 64) ltac:(lia)) as H0. pose proof (Z.div_mod a2 (2 ^ 64) ltac:(lia)) as H1.
  fold a1 in H. fold a2 in H0. fold a3 in H1. lia.
Qed.

Lemma id_key_inj a b : is_id a -> is_id b -> id_key a = id_key b -> a = b.
Proof.
  intros Ha Hb E. unfold id_key in E. assert (forall x i, 0 <= Assets.m256i_u64 x i < 2 ^ 64) as Hr by (intros; apply u64_range).
  apply digit_inj in E as [E E3]; [|done..]. apply digit_inj in E as [E E2]; [|done..]. apply digit_inj in E as [E0 E1]; [|done..].
  rewrite (id_words a Ha), (id_words b Hb). congruence.
Qed.

(** ** The sorted array *)
Definition id_before (x y : Z * Z) : Prop := id_key x.1 < id_key y.1.
Definition holders (l : list (Z * Z)) : Prop := StronglySorted id_before l /\ Forall (fun x => is_id x.1 /\ 0 < x.2) l.

(** The shares of [x] in a list of possessions *)
Definition shares_of (x : Z) (l : list (Z * Z)) : Z := foldr (fun e n => (if decide (e.1 = x) then Z.max 0 e.2 else 0) + n) 0 l.
Definition all_shares (l : list (Z * Z)) : Z := foldr (fun e n => Z.max 0 e.2 + n) 0 l.

Fixpoint add_shares (x n : Z) (l : list (Z * Z)) : list (Z * Z) :=
  match l with
  | [] => [(x, n)]
  | (y, m) :: l' => if m256i_lt y x then (y, m) :: add_shares x n l' else if y =? x then (y, m + n) :: l' else (x, n) :: l
  end.

(** Sorted insertion *)
Lemma add_shares_elem x n l e : e ∈ add_shares x n l -> e.1 = x \/ e ∈ l.
Proof.
  induction l as [|[y m] l IH]; cbn [add_shares].
  - intros ->%list_elem_of_singleton. by left.
  - destruct (m256i_lt y x); [|destruct (Z.eqb_spec y x) as [->|]].
    + intros [->|He]%elem_of_cons; [right; left|]. destruct (IH He); [by left|right; by right].
    + intros [->|He]%elem_of_cons; [by left|right; by right].
    + intros [->|He]%elem_of_cons; [by left|by right].
Qed.

Lemma add_shares_holders x n l : holders l -> is_id x -> 0 < n -> holders (add_shares x n l).
Proof.
  intros [Hs Hf] Hx Hn. split.
  - induction Hs as [|[y m] l Hs IH Hlt]; cbn [add_shares]; [repeat constructor|]. apply Forall_cons in Hf as [[Hy Hm] Hf].
    destruct (m256i_lt y x) eqn:E; [|destruct (Z.eqb_spec y x) as [->|Hne]].
    + apply m256i_lt_key in E. constructor; [by apply IH|]. rewrite Forall_forall. intros e [He|He]%add_shares_elem; unfold id_before; cbn [fst].
      * by rewrite He.
      * rewrite Forall_forall in Hlt. by apply Hlt.
    + constructor; [done|]. done.
    + apply m256i_lt_key_false in E. assert (id_key x < id_key y) as Hk by (destruct (decide (id_key x = id_key y)) as [Ek|]; [apply id_key_inj in Ek; [congruence|done|done]|lia]).
      constructor; [by constructor|]. constructor; [done|]. eapply Forall_impl; [exact Hlt|]. unfold id_before. cbn [fst]. intros e He. lia.
  - clear Hs. induction l as [|[y m] l IH]; cbn [add_shares]; [by apply Forall_singleton|]. apply Forall_cons in Hf as [Hy Hf].
    destruct (m256i_lt y x); [|destruct (Z.eqb_spec y x) as [->|Hne]].
    + constructor; [done|]. by apply IH.
    + constructor; [split; [apply Hy|cbn in *; lia]|done].
    + by rewrite !Forall_cons.
Qed.

Lemma add_shares_of x n l z : 0 < n -> Forall (fun e => 0 < e.2) l -> shares_of z (add_shares x n l) = shares_of z l + if decide (x = z) then n else 0.
Proof.
  intros Hn Hf. induction Hf as [|[y m] l Hm Hf IH]; cbn [add_shares shares_of foldr fst snd]; [case_decide; lia|]. cbn [fst snd] in Hm.
  destruct (m256i_lt y x); [|destruct (Z.eqb_spec y x) as [->|Hne]].
  - cbn [shares_of foldr fst snd]. fold (shares_of z (add_shares x n l)). fold (shares_of z l). rewrite IH. lia.
  - cbn [shares_of foldr fst snd]. case_decide; lia.
  - cbn [shares_of foldr fst snd]. repeat case_decide; lia.
Qed.

Lemma add_shares_all x n l : 0 < n -> Forall (fun e => 0 < e.2) l -> all_shares (add_shares x n l) = all_shares l + n.
Proof.
  intros Hn Hf. induction Hf as [|[y m] l Hm Hf IH]; cbn [add_shares all_shares foldr fst snd]; [lia|]. cbn [fst snd] in Hm.
  destruct (m256i_lt y x); [|destruct (Z.eqb_spec y x) as [->|Hne]]; cbn [all_shares foldr fst snd]; [|lia|lia].
  fold (all_shares (add_shares x n l)). fold (all_shares l). rewrite IH. lia.
Qed.

Lemma holders_length l : Forall (fun e => 0 < e.2) l -> alen l <= all_shares l.
Proof. induction 1 as [|e l He Hf IH]; [done|]. cbn [all_shares foldr]. fold (all_shares l). unfold alen in *. cbn [length]. lia. Qed.

(** The place of a possessor *)
Lemma holders_split x l : holders l -> exists l1 l2, l = l1 ++ l2 /\ Forall (fun e => m256i_lt e.1 x = true) l1 /\ Forall (fun e => m256i_lt e.1 x = false) l2 /\
  forall n, add_shares x n l = l1 ++ match l2 with (y, m) :: l2' => if y =? x then (y, m + n) :: l2' else (x, n) :: l2 | [] => [(x, n)] end.
Proof.
  intros [Hs _]. induction Hs as [|[y m] l Hs IH Hlt]; [by exists [], []|]. destruct (m256i_lt y x) eqn:E.
  - destruct IH as (l1 & l2 & -> & H1 & H2 & H3). exists ((y, m) :: l1), l2. split; [done|]. split; [by constructor|]. split; [done|].
    intros n. cbn [add_shares]. rewrite E, H3. done.
  - exists [], ((y, m) :: l). split; [done|]. split; [done|]. split.
    + constructor; [done|]. eapply Forall_impl; [exact Hlt|]. unfold id_before. cbn [fst]. intros e He. apply m256i_lt_key_false in E. apply m256i_lt_key_false. lia.
    + intros n. cbn [add_shares app]. by rewrite E.
Qed.

Lemma search_back_spec x l1 l2 pad : Forall (fun e => m256i_lt e.1 x = true) l1 -> Forall (fun e => m256i_lt e.1 x = false) l2 ->
  search_back (length (l1 ++ l2)) (l1 ++ l2 ++ pad) x = alen l1 - 1.
Proof.
  intros H1 H2. revert pad. induction l2 as [|e l2 IH] using rev_ind; intros pad.
  - rewrite app_nil_r. destruct l1 as [|e l1 _] using rev_ind; [done|]. rewrite length_app, Nat.add_1_r. cbn [search_back].
    rewrite <- app_assoc. cbn [app]. fold (alen l1). rewrite aget_middle. apply Forall_app in H1 as [_ H1]. rewrite Forall_singleton in H1. rewrite H1. cbn [negb]. rewrite alen_app. unfold alen at 3. cbn [length]. lia.
  - apply Forall_app in H2 as [H2 He]. rewrite Forall_singleton in He. rewrite app_assoc, length_app, Nat.add_1_r. cbn [search_back].
    rewrite <- (app_assoc l2), (app_assoc l1). cbn [app]. fold (alen (l1 ++ l2)). rewrite aget_middle, He. cbn [negb]. rewrite <- app_assoc. by apply IH.
Qed.

Lemma move_up_spec {A} `{Inhabited A} (l1 l2 : list A) : forall p pad, exists h, move_up (length l2) (alen (l1 ++ l2) - 1) (l1 ++ l2 ++ p :: pad) = l1 ++ h :: l2 ++ pad.
Proof.
  induction l2 as [|y l2 IH] using rev_ind; intros p pad; [by exists p|]. rewrite length_app, Nat.add_1_r. cbn [move_up].
  rewrite app_assoc, alen_app. change (alen [y]) with 1. replace (alen (l1 ++ l2) + 1 - 1) with (alen (l1 ++ l2)) by lia.
  replace (l1 ++ (l2 ++ [y]) ++ p :: pad) with ((l1 ++ l2) ++ y :: p :: pad) by (by rewrite <- !app_assoc). rewrite aget_middle.
  replace (((l1 ++ l2) ++ y :: p :: pad).[alen (l1 ++ l2) + 1 := y]) with (l1 ++ l2 ++ y :: (y :: pad)).
  - destruct (IH y (y :: pad)) as [h ->]. exists h. by rewrite <- app_assoc.
  - replace ((l1 ++ l2) ++ y :: p :: pad) with ((l1 ++ l2 ++ [y]) ++ p :: pad) by (by rewrite <- !app_assoc).
    replace (alen (l1 ++ l2) + 1) with (alen (l1 ++ l2 ++ [y])) by (rewrite !alen_app; unfold alen at 3; cbn [length]; lia).
    rewrite aset_middle. by rewrite <- !app_assoc.
Qed.

(** One possession enters the array as it enters the sorted list. *)
Lemma gather_spec l pad x n : holders l -> 0 < n -> is_id x -> alen l < alen (l ++ pad) ->
  exists pad', gather (l ++ pad, alen l - 1) (x, n) = (add_shares x n l ++ pad', alen (add_shares x n l) - 1) /\ alen (add_shares x n l ++ pad') = alen (l ++ pad).
Proof.
  intros Hl Hn Hx Hlen. destruct (holders_split x l Hl) as (l1 & l2 & -> & H1 & H2 & Hadd). rewrite Hadd. unfold gather. rewrite (proj2 (Z.ltb_lt 0 n)) by done.
  replace (Z.to_nat (alen (l1 ++ l2) - 1 + 1)) with (length (l1 ++ l2)) by (unfold alen; lia). rewrite <- app_assoc, search_back_spec by done.
  replace (alen l1 - 1 + 1) with (alen l1) by lia.
  assert (forall rest, (alen l1 <=? alen (l1 ++ l2) - 1) && ((rest.[alen l1]).1 =? x) = false -> rest = l1 ++ l2 ++ pad ->
    exists pad', (move_up (Z.to_nat (alen (l1 ++ l2) - 1 - alen l1 + 1)) (alen (l1 ++ l2) - 1) rest).[alen l1 := (x, n)] = (l1 ++ (x, n) :: l2) ++ pad' /\ alen ((l1 ++ (x, n) :: l2) ++ pad') = alen (l1 ++ l2 ++ pad)) as Hmove.
  { intros rest _ ->. destruct pad as [|p pad]; [rewrite app_nil_r in Hlen; lia|].
    replace (Z.to_nat (alen (l1 ++ l2) - 1 - alen l1 + 1)) with (length l2) by (rewrite alen_app; unfold alen; lia).
    destruct (move_up_spec l1 l2 p pad) as [h ->]. rewrite aset_middle. exists pad. split; [by rewrite <- app_assoc|]. unfold alen. rewrite !length_app. cbn [length]. lia. }
  destruct l2 as [|[y m] l2].
  - replace (alen l1 <=? alen (l1 ++ []) - 1) with false by (symmetry; apply Z.leb_gt; rewrite app_nil_r; lia). cbn [andb].
    destruct (Hmove (l1 ++ [] ++ pad)) as (pad' & E & E2); [|done|].
    { replace (alen l1 <=? alen (l1 ++ []) - 1) with false by (symmetry; apply Z.leb_gt; rewrite app_nil_r; lia). done. }
    exists pad'. rewrite E. split; [|done]. f_equal. rewrite app_nil_r, !alen_app. unfold alen. cbn [length]. lia.
  - replace (alen l1 <=? alen (l1 ++ (y, m) :: l2) - 1) with true by (symmetry; apply Z.leb_le; rewrite alen_app; unfold alen; cbn [length]; lia).
    cbn [andb app]. rewrite aget_middle. cbn [fst snd]. destruct (Z.eqb_spec y x) as [->|Hne].
    + exists pad. rewrite aset_middle, <- app_assoc. cbn [app]. rewrite !alen_app. unfold alen. cbn [length]. done.
    + destruct (Hmove (l1 ++ ((y, m) :: l2) ++ pad)) as (pad' & E & E2); [|done|].
      { cbn [app]. rewrite aget_middle. cbn [fst]. rewrite (proj2 (Z.eqb_neq y x)) by done. apply andb_false_r. }
      exists pad'. cbn [app] in E. rewrite E. split; [|done]. f_equal. rewrite !alen_app. unfold alen. cbn [length]. lia.
Qed.

(** All possessions *)
Definition shareholders_of (ps : list (Z * Z)) : list (Z * Z) := fold_left (fun l e => if 0 <? e.2 then add_shares e.1 e.2 l else l) ps [].

Lemma gather_all ps : forall l pad,
  holders l -> Forall (fun e => is_id e.1) ps -> all_shares l + all_shares ps <= alen (l ++ pad) ->
  let l' := fold_left (fun l e => if 0 <? e.2 then add_shares e.1 e.2 l else l) ps l in
  exists pad', fold_left gather ps (l ++ pad, alen l - 1) = (l' ++ pad', alen l' - 1) /\ holders l' /\ all_shares l' = all_shares l + all_shares ps /\
    forall x, shares_of x l' = shares_of x l + shares_of x ps.
Proof.
  induction ps as [|[x n] ps IH]; intros l pad Hl Hps Hlen; cbn [fold_left fst snd].
  { exists pad. split; [done|]. split; [done|]. cbn [all_shares shares_of foldr]. split; [lia|]. intros. lia. }
  apply Forall_cons in Hps as [Hx Hps]. cbn [all_shares foldr fst snd] in *. fold (all_shares ps) in *. fold (all_shares l) in *.
  assert (0 <= all_shares ps) as Hpos by (clear; induction ps as [|e ps IH]; cbn [all_shares foldr] in *; [done|]; fold (all_shares ps) in *; lia).
  destruct (Z.ltb_spec 0 n) as [Hn|Hn].
  - assert (Forall (fun e => 0 < e.2) l) as Hf by (eapply Forall_impl; [apply Hl|]; by intros ? []). pose proof (holders_length l Hf).
    destruct (gather_spec l pad x n Hl Hn Hx ltac:(lia)) as (pad' & -> & Hlen').
    destruct (IH (add_shares x n l) pad') as (pad'' & E & H1 & H2 & H3); [by apply add_shares_holders|done|rewrite add_shares_all by done; lia|].
    exists pad''. rewrite E. split; [done|]. split; [done|]. rewrite H2, add_shares_all by done. split; [lia|]. intros z. rewrite H3, add_shares_of by done.
    cbn [shares_of foldr fst snd]. fold (shares_of z ps). case_decide; lia.
  - unfold gather at 2. rewrite (proj2 (Z.ltb_ge 0 n)) by done. destruct (IH l pad) as (pad'' & E & H1 & H2 & H3); [done|done|lia|].
    exists pad''. rewrite E. split; [done|]. split; [done|]. split; [lia|]. intros z. rewrite H3. cbn [shares_of foldr fst snd]. fold (shares_of z ps). case_decide; lia.
Qed.

(** ** The roll *)
Definition votes_of (l : list (Z * Z)) : list Z := concat (map (fun e => replicate (Z.to_nat e.2) e.1) l).

Lemma enter_votes_spec e r : forall d, 0 <= e.2 <= alen r -> enter_votes (d ++ r, alen d) e = ((d ++ replicate (Z.to_nat e.2) e.1) ++ drop (Z.to_nat e.2) r, alen d + e.2).
Proof.
  destruct e as [x n]. unfold enter_votes. cbn [fst snd]. intros d Hn. replace n with (Z.of_nat (Z.to_nat n)) in * by lia. rewrite Nat2Z.id.
  generalize dependent (Z.to_nat n). clear n. intros n Hn. generalize 0. revert d r Hn. induction n as [|n IH]; intros d r Hn i; cbn [for_loop].
  - rewrite app_nil_r, Z.add_0_r. done.
  - destruct r as [|y r]; [unfold alen in Hn; cbn [length] in Hn; lia|]. rewrite aset_middle.
    replace (d ++ x :: r) with ((d ++ [x]) ++ r) by (by rewrite <- app_assoc). replace (alen d + 1) with (alen (d ++ [x])) by (rewrite alen_app; done).
    rewrite IH by (unfold alen in *; cbn [length] in Hn; lia). rewrite alen_app. change (alen [x]) with 1. f_equal; [|lia].
    cbn [replicate skipn]. by rewrite <- !app_assoc.
Qed.

Lemma enter_all l : forall d r, Forall (fun e => 0 < e.2) l -> all_shares l <= alen r ->
  fold_left enter_votes l (d ++ r, alen d) = (d ++ votes_of l ++ drop (Z.to_nat (all_shares l)) r, alen d + all_shares l).
Proof.
  induction l as [|e l IH]; intros d r Hf Hlen; cbn [fold_left].
  - cbn [all_shares foldr votes_of map concat app]. rewrite Z.add_0_r. done.
  - apply Forall_cons in Hf as [He Hf]. cbn [all_shares foldr] in *. fold (all_shares l) in *.
    assert (0 <= all_shares l) as Hpos by (pose proof (holders_length l Hf); unfold alen in *; lia).
    rewrite enter_votes_spec by lia. replace (alen d + e.2) with (alen (d ++ replicate (Z.to_nat e.2) e.1)) by (rewrite alen_app, alen_replicate; lia).
    rewrite IH; [|done|unfold alen in *; rewrite length_drop; lia]. rewrite alen_app, alen_replicate, drop_drop. f_equal; [|lia].
    unfold votes_of. cbn [map concat]. rewrite <- !app_assoc. do 4 f_equal. lia.
Qed.

Lemma votes_of_length l : Forall (fun e => 0 < e.2) l -> alen (votes_of l) = all_shares l.
Proof.
  induction 1 as [|e l He Hf IH]; [done|]. unfold votes_of in *. cbn [map concat all_shares foldr]. fold (all_shares l). rewrite alen_app, alen_replicate, IH. lia.
Qed.

(** Every owner's votes are one block. *)
Definition blocks (n : Z) (r : Z -> Z) : Prop :=
  forall x, exists b c, 0 <= b /\ 0 <= c /\ b + c <= n /\ forall i, 0 <= i < n -> r i = x <-> b <= i < b + c.

Lemma shares_of_nonneg x l : 0 <= shares_of x l.
Proof. induction l as [|e l IH]; [done|]. cbn [shares_of foldr]. fold (shares_of x l). case_decide; lia. Qed.

Lemma votes_block l : holders l -> forall x, exists b, 0 <= b /\ b + shares_of x l <= all_shares l /\
  forall i, 0 <= i < all_shares l -> (votes_of l).[i] = x <-> b <= i < b + shares_of x l.
Proof.
  intros [Hs Hf]. induction Hs as [|[y m] l Hs IH Hlt]; intros x.
  - exists 0. cbn [shares_of all_shares foldr]. split; [lia|]. split; [lia|]. lia.
  - apply Forall_cons in Hf as [[Hy Hm] Hf]. cbn [fst snd] in *. destruct (IH Hf x) as (b & Hb & Hle & Hblk).
    assert (y = x -> shares_of x l = 0) as Hzero.
    { intros ->. clear - Hlt. induction Hlt as [|e l He Hlt IH]; [done|]. cbn [shares_of foldr]. fold (shares_of x l). rewrite IH.
      unfold id_before in He. cbn [fst] in He. rewrite decide_False; [done|]. intros E. rewrite E in He. lia. }
    cbn [shares_of all_shares foldr fst snd]. fold (shares_of x l). fold (all_shares l).
    assert (forall i, 0 <= i < Z.max 0 m + all_shares l -> (votes_of ((y, m) :: l)).[i] = if decide (i < m) then y else (votes_of l).[i - m]) as Hget.
    { intros i Hi. unfold votes_of. cbn [map concat fst snd]. case_decide.
      - rewrite aget_app_l by (rewrite alen_replicate; lia). apply aget_replicate. lia.
      - rewrite aget_app_r by (rewrite alen_replicate; lia). rewrite alen_replicate. f_equal. lia. }
    destruct (decide (y = x)) as [->|Hne].
    + rewrite (Hzero eq_refl) in *. exists 0. split; [lia|]. split; [lia|]. intros i Hi. rewrite Hget by done. case_decide; [split; [lia|done]|]. rewrite Hblk by lia. lia.
    + exists (b + m). split; [lia|]. split; [lia|]. intros i Hi. rewrite Hget by done. case_decide; [split; [done|lia]|]. rewrite Hblk by lia. lia.
Qed.

(** The roll that a new proposal gets: one vote per share *)
Definition shareholder_roll (q : QpiContext) : list Z := votes_of (shareholders_of (possessions q)).

Definition shares_ok (n : Z) (q : QpiContext) : Prop :=
  Forall (fun e => is_id e.1) (possessions q) /\ all_shares (possessions q) = n /\ numberOfShares q NULL_ID <= 0.

Lemma shareholder_roll_spec n q : shares_ok n q -> alen (shareholder_roll q) = n /\
  forall x, exists b, 0 <= b /\ b + shares_of x (possessions q) <= n /\ forall i, 0 <= i < n -> (shareholder_roll q).[i] = x <-> b <= i < b + shares_of x (possessions q).
Proof.
  intros (Hid & Htot & _). destruct (gather_all (possessions q) [] (replicate (Z.to_nat n) (0, 0))) as (pad & _ & Hl & Hall & Hsh); [by split; constructor|done| |].
  { cbn [app]. rewrite alen_replicate. change (all_shares []) with 0. lia. }
  fold (shareholders_of (possessions q)) in *. change (all_shares []) with 0 in Hall.
  assert (Forall (fun e => 0 < e.2) (shareholders_of (possessions q))) as Hf by (eapply Forall_impl; [apply Hl|]; by intros ? []).
  unfold shareholder_roll. rewrite votes_of_length by done. split; [lia|]. intros x. destruct (votes_block _ Hl x) as (b & Hb & Hle & Hblk).
  rewrite Hsh, Hall, Htot in *. change (shares_of x []) with 0 in *. exists b. done.
Qed.

(** The array code computes it, whatever the slot held before. *)
Lemma setup_votes n q old : 0 <= n -> alen old = n -> shares_ok n q ->
  let '(shareholders, lastShareholderIdx) := fold_left gather (possessions q) (replicate (Z.to_nat n) (0, 0), -1) in
  (for_loop (Z.to_nat (lastShareholderIdx + 1)) 0 (fun i st => enter_votes st (shareholders.[i])) (old, 0)).1 = shareholder_roll q.
Proof.
  intros Hn Hold (Hid & Htot & _). destruct (gather_all (possessions q) [] (replicate (Z.to_nat n) (0, 0))) as (pad & E & Hl & Hall & Hsh); [by split; constructor|done| |].
  { cbn [app]. rewrite alen_replicate. change (all_shares []) with 0. lia. }
  fold (shareholders_of (possessions q)) in *. change (all_shares []) with 0 in Hall. cbn [app] in E. change (alen [] - 1) with (-1) in E. rewrite E.
  replace (Z.to_nat (alen (shareholders_of (possessions q)) - 1 + 1)) with (length (shareholders_of (possessions q))) by (unfold alen; lia).
  pose proof (for_loop_fold enter_votes (shareholders_of (possessions q)) pad [] (old, 0)) as Hfold. cbn [app] in Hfold. change (alen []) with 0 in Hfold. rewrite Hfold.
  assert (Forall (fun e => 0 < e.2) (shareholders_of (possessions q))) as Hf by (eapply Forall_impl; [apply Hl|]; by intros ? []).
  pose proof (enter_all (shareholders_of (possessions q)) [] old Hf) as Hent. cbn [app] in Hent. change (alen []) with 0 in Hent. rewrite Hent by lia.
  cbn [fst]. rewrite drop_ge by (unfold alen in Hold; lia). by rewrite app_nil_r.
Qed.
