(* ===== verification/ProposalElectorate.v ===== *)
(** * What the voter handling promises

    [VoterLaws] is the contract between the classes of proposers and voters and ProposalVoting: every proposer has at most one slot, a slot is
    found, taken and given back, and the votes of every voter in a slot are one block of indices.  The three classes satisfy it. *)
From S2P Require Import Prelude ProposalData ProposalVoters ProposalRolls.

Lemma search_first P n notFound : forall i, 
  (exists j, search P n i notFound = j /\ i <= j < i + Z.of_nat n /\ P j = true /\ forall k, i <= k < j -> P k = false) \/
  (search P n i notFound = notFound /\ forall k, i <= k < i + Z.of_nat n -> P k = false).
Proof.
  induction n as [|n IH]; intros i; cbn [search]; [right; split; [done|lia]|]. destruct (P i) eqn:E.
  - left. exists i. split; [done|]. split; [lia|]. split; [done|lia].
  - destruct (IH (i + 1)) as [(j & -> & Hj & HP & Hk)|[-> Hk]].
    + left. exists j. split; [done|]. split; [lia|]. split; [done|]. intros k Hk'. destruct (decide (k = i)) as [->|]; [done|]. apply Hk. lia.
    + right. split; [done|]. intros k Hk'. destruct (decide (k = i)) as [->|]; [done|]. apply Hk. lia.
Qed.

(** The block of votes [[b, b + c)] of a voter in a roll *)
Definition is_block (n : Z) (r : Z -> Z) (x b c : Z) : Prop := 0 <= b /\ b + c <= n /\ forall i, 0 <= i < n -> r i = x <-> b <= i < b + c.

Class VoterLaws {S : Type} (H : VoterHandling S) (maxProposals maxVotes : Z) := {
  voters_ok : S -> Prop;
  context_ok : QpiContext -> Prop;
  (* the owner of a vote in a slot, and in a slot that gets a new proposal *)
  roll : QpiContext -> S -> Z -> Z -> Z;
  new_roll : QpiContext -> Z -> Z;
  proposer_nonzero q s x : context_ok q -> isValidProposer q s x = true -> x <> NULL_ID;
  proposers_distinct s i j : voters_ok s -> 0 <= i < maxProposals -> 0 <= j < maxProposals -> getProposerId s i = getProposerId s j -> getProposerId s i <> NULL_ID -> i = j;
  existing_law s x : voters_ok s ->
    (getExistingProposalIndex s x = INVALID_PROPOSAL_INDEX /\ forall j, 0 <= j < maxProposals -> getProposerId s j = x -> x = NULL_ID) \/
    (0 <= getExistingProposalIndex s x < maxProposals /\ x <> NULL_ID /\ getProposerId s (getExistingProposalIndex s x) = x);
  new_law q s x : voters_ok s -> context_ok q -> x <> NULL_ID ->
    let '(s', i) := getNewProposalIndex q x s in
    (i = INVALID_PROPOSAL_INDEX /\ s' = s /\ forall j, 0 <= j < maxProposals -> getProposerId s j <> x /\ getProposerId s j <> NULL_ID) \/
    (0 <= i < maxProposals /\ voters_ok s' /\
     (getProposerId s i = x \/ getProposerId s i = NULL_ID /\ forall j, 0 <= j < maxProposals -> getProposerId s j <> x) /\
     (forall j, 0 <= j < maxProposals -> getProposerId s' j = if decide (j = i) then x else getProposerId s j) /\
     (forall q' j v, 0 <= j < maxProposals -> j <> i -> roll q' s' j v = roll q' s j v) /\ (forall v, 0 <= v < maxVotes -> roll q s' i v = new_roll q v));
  free_law s i : voters_ok s -> 0 <= i < maxProposals -> let s' := freeProposalByIndex i s in
    voters_ok s' /\ (forall j, 0 <= j < maxProposals -> getProposerId s' j = if decide (j = i) then NULL_ID else getProposerId s j) /\
    (forall q j v, 0 <= j < maxProposals -> j <> i -> roll q s' j v = roll q s j v);
  block_law q s p x : voters_ok s -> context_ok q -> 0 <= p < maxProposals ->
    (getVoteIndex q s x p = INVALID_VOTE_INDEX /\ forall i, 0 <= i < maxVotes -> roll q s p i = x -> x = NULL_ID) \/
    (x <> NULL_ID /\ 1 <= getVoteCount q s (getVoteIndex q s x p) p /\
     is_block maxVotes (roll q s p) x (getVoteIndex q s x p) (getVoteCount q s (getVoteIndex q s x p) p));
  voter_law q s p i : voters_ok s -> 0 <= p < maxProposals -> 0 <= i < maxVotes -> getVoterId q s i p = roll q s p i
}.

Section electorate.
Variables maxProposals maxVotes : Z.
Hypothesis Hmp : 0 <= maxProposals <= INVALID_PROPOSAL_INDEX.
Hypothesis Hmv : 0 <= maxVotes <= INVALID_VOTE_INDEX.

(** ** The array of proposers *)
Definition proposers_ok (l : list Z) : Prop :=
  alen l = maxProposals /\ forall i j, 0 <= i < maxProposals -> 0 <= j < maxProposals -> l.[i] = l.[j] -> l.[i] <> NULL_ID -> i = j.

Lemma proposers_get_in l i : 0 <= i < maxProposals -> proposers_get maxProposals l i = l.[i].
Proof. intros Hi. unfold proposers_get. by rewrite (proj2 (Z.leb_gt _ _)) by lia. Qed.

Lemma proposers_existing_spec l x :
  (proposers_existing maxProposals l x = INVALID_PROPOSAL_INDEX /\ forall j, 0 <= j < maxProposals -> l.[j] = x -> x = NULL_ID) \/
  (0 <= proposers_existing maxProposals l x < maxProposals /\ x <> NULL_ID /\ l.[proposers_existing maxProposals l x] = x).
Proof.
  unfold proposers_existing. destruct (Z.eqb_spec x NULL_ID) as [->|Hne]; [by left|].
  destruct (search_first (fun i => l.[i] =? x) (Z.to_nat maxProposals) INVALID_PROPOSAL_INDEX 0) as [(j & -> & Hj & E%Z.eqb_eq & _)|[-> Hk]].
  - right. split; [lia|]. done.
  - left. split; [done|]. intros j Hj E. specialize (Hk j ltac:(lia)). apply Z.eqb_neq in Hk. done.
Qed.

Lemma proposers_empty_spec l :
  (proposers_empty maxProposals l = INVALID_PROPOSAL_INDEX /\ forall j, 0 <= j < maxProposals -> l.[j] <> NULL_ID) \/
  (0 <= proposers_empty maxProposals l < maxProposals /\ l.[proposers_empty maxProposals l] = NULL_ID).
Proof.
  unfold proposers_empty. destruct (search_first (fun i => l.[i] =? NULL_ID) (Z.to_nat maxProposals) INVALID_PROPOSAL_INDEX 0) as [(j & -> & Hj & E%Z.eqb_eq & _)|[-> Hk]].
  - right. split; [lia|done].
  - left. split; [done|]. intros j Hj. specialize (Hk j ltac:(lia)). by apply Z.eqb_neq in Hk.
Qed.

(** The slot of a proposer, taken or found *)
Lemma new_slot l x : x <> NULL_ID ->
  let e := proposers_existing maxProposals l x in let i := if e <? maxProposals then e else proposers_empty maxProposals l in
  (i <? maxProposals = false /\ forall j, 0 <= j < maxProposals -> l.[j] <> x /\ l.[j] <> NULL_ID) \/
  (0 <= i < maxProposals /\ (l.[i] = x \/ l.[i] = NULL_ID /\ forall j, 0 <= j < maxProposals -> l.[j] <> x)).
Proof.
  intros Hx. cbv zeta. destruct (proposers_existing_spec l x) as [[-> Hno]|(He & _ & E)].
  - rewrite (proj2 (Z.ltb_ge INVALID_PROPOSAL_INDEX maxProposals)) by lia. assert (forall j, 0 <= j < maxProposals -> l.[j] <> x) as Hno' by (intros j Hj E; apply Hx, (Hno j Hj E)).
    destruct (proposers_empty_spec l) as [[-> Hfull]|[Hi E]].
    + left. split; [apply Z.ltb_ge; lia|]. intros j Hj. split; [by apply Hno'|by apply Hfull].
    + right. split; [done|]. by right.
  - rewrite (proj2 (Z.ltb_lt (proposers_existing maxProposals l x) maxProposals)) by lia. right. split; [done|]. by left.
Qed.

Lemma take_slot l x i : proposers_ok l -> x <> NULL_ID -> 0 <= i < maxProposals -> (l.[i] = x \/ l.[i] = NULL_ID /\ forall j, 0 <= j < maxProposals -> l.[j] <> x) ->
  proposers_ok (l.[i := x]) /\ forall j, 0 <= j < maxProposals -> (l.[i := x]).[j] = if decide (j = i) then x else l.[j].
Proof.
  intros [Hl Hd] Hx Hi Hcase. assert (forall j, 0 <= j < maxProposals -> (l.[i := x]).[j] = if decide (j = i) then x else l.[j]) as Hget.
  { intros j Hj. case_decide as E; [rewrite E; apply aget_aset_eq; lia|by apply aget_aset_ne]. }
  split; [|done]. split; [by rewrite alen_aset|]. intros j k Hj Hk. rewrite !Hget by done.
  assert (forall j, 0 <= j < maxProposals -> l.[j] = x -> j = i) as Hu.
  { intros k' Hk' E. destruct Hcase as [Ei|[_ Hno]]; [|by destruct (Hno k' Hk')]. apply Hd; [done|done|congruence|congruence]. }
  repeat case_decide; subst; try done.
  - intros E _. symmetry. by apply Hu.
  - intros E _. by apply Hu.
  - by apply Hd.
Qed.

Lemma release_slot l i : proposers_ok l -> 0 <= i < maxProposals ->
  proposers_ok (l.[i := NULL_ID]) /\ forall j, 0 <= j < maxProposals -> (l.[i := NULL_ID]).[j] = if decide (j = i) then NULL_ID else l.[j].
Proof.
  intros [Hl Hd] Hi. assert (forall j, 0 <= j < maxProposals -> (l.[i := NULL_ID]).[j] = if decide (j = i) then NULL_ID else l.[j]) as Hget.
  { intros j Hj. case_decide as E; [rewrite E; apply aget_aset_eq; lia|by apply aget_aset_ne]. }
  split; [|done]. split; [by rewrite alen_aset|]. intros j k Hj Hk. rewrite !Hget by done. repeat case_decide; subst; try done. by apply Hd.
Qed.

(** ** Computors *)
Definition distinct_computors (q : QpiContext) : Prop := forall i j, 0 <= i < maxVotes -> 0 <= j < maxVotes -> computor q i = computor q j -> i = j.

Lemma computors_block q x : distinct_computors q ->
  (computors_getVoteIndex maxVotes q x = INVALID_VOTE_INDEX /\ forall i, 0 <= i < maxVotes -> computor q i = x -> x = NULL_ID) \/
  (x <> NULL_ID /\ computors_getVoteCount maxVotes (computors_getVoteIndex maxVotes q x) = 1 /\ is_block maxVotes (computor q) x (computors_getVoteIndex maxVotes q x) 1).
Proof.
  intros Hd. unfold computors_getVoteIndex. destruct (Z.eqb_spec x NULL_ID) as [->|Hne]; [by left|].
  destruct (search_first (fun i => computor q i =? x) (Z.to_nat maxVotes) INVALID_VOTE_INDEX 0) as [(j & -> & Hj & E%Z.eqb_eq & _)|[-> Hk]].
  - right. split; [done|]. split; [unfold computors_getVoteCount; by rewrite (proj2 (Z.leb_gt _ _)) by lia|]. split; [lia|]. split; [lia|].
    intros i Hi. split; [intros E'; rewrite (Hd i j) by (lia || congruence); lia|]. intros Hi'. by replace i with j by lia.
  - left. split; [done|]. intros j Hj E. specialize (Hk j ltac:(lia)). apply Z.eqb_neq in Hk. done.
Qed.

Lemma computors_new_spec l x : proposers_ok l -> x <> NULL_ID ->
  let '(l', i) := computors_getNewProposalIndex maxProposals x l in
  (i = INVALID_PROPOSAL_INDEX /\ l' = l /\ forall j, 0 <= j < maxProposals -> l.[j] <> x /\ l.[j] <> NULL_ID) \/
  (0 <= i < maxProposals /\ l' = l.[i := x] /\ (l.[i] = x \/ l.[i] = NULL_ID /\ forall j, 0 <= j < maxProposals -> l.[j] <> x)).
Proof.
  intros Hl Hx. unfold computors_getNewProposalIndex. pose proof (new_slot l x Hx) as Hs. cbv zeta in Hs.
  destruct (proposers_existing maxProposals l x <? maxProposals) eqn:E.
  - destruct Hs as [[E' _]|Hs]; [congruence|]. right. tauto.
  - destruct Hs as [[-> Hno]|Hs]; [by left|]. rewrite (proj2 (Z.ltb_lt _ _)) by lia. right. tauto.
Qed.

Definition computors_laws valid (Hvalid : forall q x, distinct_computors q -> valid q x = true -> x <> NULL_ID) :
  VoterLaws (computors_handling maxProposals maxVotes valid) maxProposals maxVotes.
Proof.
  refine {| voters_ok := proposers_ok : list Z -> Prop; context_ok := distinct_computors; roll q s p i := computor q i; new_roll q i := computor q i |}; cbn.
  - intros q _ x. apply Hvalid.
  - intros s i j Hs Hi Hj. rewrite !proposers_get_in by done. by apply Hs.
  - intros s x Hs. destruct (proposers_existing_spec s x) as [[-> Hno]|(Hi & Hx & E)].
    + left. split; [done|]. intros j Hj. rewrite proposers_get_in by done. by apply Hno.
    + right. by rewrite proposers_get_in.
  - intros q s x Hs Hq Hx. pose proof (computors_new_spec s x Hs Hx) as Hn. destruct (computors_getNewProposalIndex maxProposals x s) as [s' i].
    destruct Hn as [(-> & -> & Hno)|(Hi & -> & Hcase)].
    + left. split; [done|]. split; [done|]. intros j Hj. rewrite proposers_get_in by done. by apply Hno.
    + right. destruct (take_slot s x i Hs Hx Hi Hcase) as [Hok Hget]. split; [done|]. split; [done|]. rewrite proposers_get_in by done. split.
      * destruct Hcase as [?|[? Hno]]; [by left|right]. split; [done|]. intros j Hj. rewrite proposers_get_in by done. by apply Hno.
      * split; [|done]. intros j Hj. rewrite !proposers_get_in by done. by apply Hget.
  - intros s i Hs Hi. unfold computors_freeProposalByIndex. rewrite (proj2 (Z.ltb_lt _ _)) by lia. destruct (release_slot s i Hs Hi) as [Hok Hget].
    split; [done|]. split; [|done]. intros j Hj. rewrite !proposers_get_in by done. by apply Hget.
  - intros q s p x Hs Hq Hp. destruct (computors_block q x Hq) as [?|(Hx & E & Hb)]; [by left|right]. rewrite E. done.
  - intros q s p i Hs Hp Hi. unfold computors_getVoterId. by rewrite (proj2 (Z.leb_gt _ _)) by lia.
Defined.

#[export] Instance by_computors_laws : VoterLaws (handling_by_computors maxProposals maxVotes) maxProposals maxVotes.
Proof.
  apply computors_laws. intros q x Hd Hv%Z.ltb_lt ->. unfold computors_getVoteIndex in Hv. cbn in Hv. lia.
Defined.
#[export] Instance by_anyone_laws : VoterLaws (handling_by_anyone maxProposals maxVotes) maxProposals maxVotes.
Proof. apply computors_laws. intros q x _ Hv%negb_true_iff%Z.eqb_neq. done. Defined.

(** ** Shareholders *)
Definition roll_ok (r : list Z) : Prop := alen r = maxVotes /\ forall x, exists b c, 0 <= c /\ is_block maxVotes (fun i => r.[i]) x b c.
Definition rolls_ok (s : rolls) : Prop :=
  proposers_ok (currentProposalProposers s) /\ alen (currentProposalShareholders s) = maxProposals /\
  forall p, 0 <= p < maxProposals -> roll_ok ((currentProposalShareholders s).[p]).

Lemma null_roll_ok : roll_ok (replicate (Z.to_nat maxVotes) NULL_ID).
Proof.
  split; [rewrite alen_replicate; lia|]. intros x. destruct (decide (x = NULL_ID)) as [->|Hne].
  - exists 0, maxVotes. split; [lia|]. split; [lia|]. split; [lia|]. intros i Hi. rewrite aget_replicate by lia. split; [lia|done].
  - exists 0, 0. split; [lia|]. split; [lia|]. split; [lia|]. intros i Hi. rewrite aget_replicate by lia. split; [congruence|lia].
Qed.

Lemma shareholder_roll_ok q : shares_ok maxVotes q -> roll_ok (shareholder_roll q).
Proof.
  intros Hq. destruct (shareholder_roll_spec maxVotes q Hq) as [Hl Hb]. split; [done|]. intros x. destruct (Hb x) as (b & Hb1 & Hb2 & Hb3).
  exists b, (shares_of x (possessions q)). split; [apply shares_of_nonneg|done].
Qed.

Lemma setup_spec q x i s : rolls_ok s -> shares_ok maxVotes q -> x <> NULL_ID -> 0 <= i < maxProposals ->
  setupNewProposal maxProposals maxVotes q x i s = mkRolls ((currentProposalProposers s).[i := x]) ((currentProposalShareholders s).[i := shareholder_roll q]).
Proof.
  intros (Hp & Hl & Hr) Hq Hx Hi. unfold setupNewProposal. rewrite (proj2 (Z.leb_gt _ _)), (proj2 (Z.eqb_neq _ _)) by (done || lia). cbn [orb].
  pose proof (setup_votes maxVotes q ((currentProposalShareholders s).[i]) ltac:(lia) (proj1 (Hr i Hi)) Hq) as E.
  destruct (fold_left gather (possessions q) (replicate (Z.to_nat maxVotes) (0, 0), -1)) as [sh last]. by rewrite E.
Qed.

Lemma count_equal_spec r x b c : is_block maxVotes (fun i => r.[i]) x b c -> forall n j, b <= j -> j + Z.of_nat n = maxVotes ->
  count_equal n r j x = Z.max 0 (b + c - j).
Proof.
  intros (Hb & Hc & Hblk). induction n as [|n IH]; intros j Hj Hn; cbn [count_equal]; [lia|].
  destruct (Z.eqb_spec (r.[j]) x) as [E|E].
  - apply Hblk in E; [|lia]. rewrite IH by lia. lia.
  - assert (~ (b <= j < b + c)) by (rewrite <- Hblk by lia; done). lia.
Qed.

Lemma shareholders_block s p x : rolls_ok s -> 0 <= p < maxProposals ->
  (shareholders_getVoteIndex maxProposals maxVotes s x p = INVALID_VOTE_INDEX /\ forall i, 0 <= i < maxVotes -> ((currentProposalShareholders s).[p]).[i] = x -> x = NULL_ID) \/
  (x <> NULL_ID /\ let b := shareholders_getVoteIndex maxProposals maxVotes s x p in
   1 <= shareholders_getVoteCount maxProposals maxVotes s b p /\ is_block maxVotes (fun i => ((currentProposalShareholders s).[p]).[i]) x b (shareholders_getVoteCount maxProposals maxVotes s b p)).
Proof.
  intros (_ & _ & Hr) Hp. destruct (Hr p Hp) as [Hl Hblk]. set (r := (currentProposalShareholders s).[p]) in *. unfold shareholders_getVoteIndex. fold r.
  rewrite (proj2 (Z.leb_gt _ _)) by lia. rewrite orb_false_r. destruct (Z.eqb_spec x NULL_ID) as [->|Hne]; [by left|].
  destruct (search_first (fun i => r.[i] =? x) (Z.to_nat maxVotes) INVALID_VOTE_INDEX 0) as [(j & -> & Hj & E%Z.eqb_eq & Hlow)|[-> Hk]].
  - right. split; [done|]. cbv zeta. destruct (Hblk x) as (b & c & Hc & Hb). pose proof Hb as (Hb0 & Hbc & Hiff). pose proof (proj1 (Hiff j ltac:(lia)) E) as Hjb.
    assert (j = b) as ->.
    { destruct (decide (b < j)); [|lia]. specialize (Hlow b ltac:(lia)). apply Z.eqb_neq in Hlow. destruct Hlow. apply Hiff; lia. }
    unfold shareholders_getVoteCount. fold r. rewrite (proj2 (Z.leb_gt maxVotes b)), (proj2 (Z.leb_gt maxProposals p)) by lia. cbn [orb]. rewrite E.
    rewrite (count_equal_spec r x b c Hb) by lia. replace (1 + Z.max 0 (b + c - (b + 1))) with c by lia. split; [lia|done].
  - left. split; [done|]. intros j Hj E. specialize (Hk j ltac:(lia)). apply Z.eqb_neq in Hk. done.
Qed.

#[export] Instance by_shareholders_laws : VoterLaws (handling_by_shareholders maxProposals maxVotes) maxProposals maxVotes.
Proof.
  refine {| voters_ok := rolls_ok; context_ok := shares_ok maxVotes; roll q s p i := ((currentProposalShareholders s).[p]).[i]; new_roll q i := (shareholder_roll q).[i] |}; cbn.
  - intros q _ x (_ & _ & Hz) Hv%Z.ltb_lt ->. lia.
  - intros s i j Hs Hi Hj. rewrite !proposers_get_in by done. by apply Hs.
  - intros s x Hs. destruct (proposers_existing_spec (currentProposalProposers s) x) as [[-> Hno]|(Hi & Hx & E)].
    + left. split; [done|]. intros j Hj. rewrite proposers_get_in by done. by apply Hno.
    + right. by rewrite proposers_get_in.
  - intros q s x Hs Hq Hx. pose proof (new_slot (currentProposalProposers s) x Hx) as Hn. cbv zeta in Hn. unfold shareholders_getNewProposalIndex.
    set (e := proposers_existing maxProposals (currentProposalProposers s) x) in *. set (f := proposers_empty maxProposals (currentProposalProposers s)) in *.
    set (i := if e <? maxProposals then e else f) in Hn.
    assert ((if e <? maxProposals then (setupNewProposal maxProposals maxVotes q x e s, e)
      else if f <? maxProposals then (setupNewProposal maxProposals maxVotes q x f s, f) else (s, INVALID_PROPOSAL_INDEX)) =
      if i <? maxProposals then (setupNewProposal maxProposals maxVotes q x i s, i) else (s, INVALID_PROPOSAL_INDEX)) as ->.
    { unfold i. destruct (e <? maxProposals) eqn:E; [by rewrite E|done]. }
    clearbody i. destruct Hn as [[-> Hno]|[Hi Hcase]].
    + left. split; [done|]. split; [done|]. intros j Hj. rewrite proposers_get_in by done. by apply Hno.
    + rewrite (proj2 (Z.ltb_lt _ _)) by lia. right. rewrite setup_spec by done. pose proof Hs as (Hp & Hl & Hr).
      destruct (take_slot (currentProposalProposers s) x i Hp Hx Hi Hcase) as [Hok Hget]. cbn [currentProposalProposers currentProposalShareholders].
      split; [done|]. split; [|split; [|split; [|split]]].
      * split; [done|]. cbn [currentProposalShareholders]. split; [by rewrite alen_aset|]. intros p Hp'. destruct (decide (p = i)) as [->|Hne].
        -- rewrite aget_aset_eq by lia. by apply shareholder_roll_ok.
        -- rewrite aget_aset_ne by done. by apply Hr.
      * rewrite proposers_get_in by done. destruct Hcase as [?|[? Hno]]; [by left|right]. split; [done|]. intros j Hj. rewrite proposers_get_in by done. by apply Hno.
      * intros j Hj. rewrite !proposers_get_in by done. by apply Hget.
      * intros _ j v Hj Hne. by rewrite aget_aset_ne.
      * intros v Hv. by rewrite aget_aset_eq by lia.
  - intros s i (Hp & Hl & Hr) Hi. unfold shareholders_freeProposalByIndex. rewrite (proj2 (Z.ltb_lt _ _)) by lia. cbn [currentProposalProposers currentProposalShareholders].
    destruct (release_slot (currentProposalProposers s) i Hp Hi) as [Hok Hget]. split; [|split].
    + split; [done|]. cbn [currentProposalShareholders]. split; [by rewrite alen_aset|]. intros p Hp'. destruct (decide (p = i)) as [->|Hne].
      * rewrite aget_aset_eq by lia. apply null_roll_ok.
      * rewrite aget_aset_ne by done. by apply Hr.
    + intros j Hj. rewrite !proposers_get_in by done. by apply Hget.
    + intros _ j v Hj Hne. by rewrite aget_aset_ne.
  - intros q s p x Hs _ Hp. by apply shareholders_block.
  - intros q s p i Hs Hp Hi. unfold shareholders_getVoterId. by rewrite (proj2 (Z.leb_gt maxVotes i)), (proj2 (Z.leb_gt maxProposals p)) by lia.
Defined.
End electorate.
