(* ===== verification/ProposalVoting.v ===== *)
(** * ProposalVoting

    The proposal slots of a contract with their votes, and the calls of QpiContextProposalProcedureCall and QpiContextProposalFunctionCall
    (qpi/impl/qpi_proposals_impl.h) on them.  Who may propose and vote, and how proposals and votes are stored, are the two interfaces
    [VoterHandling] and [ProposalDataType].  An output parameter is passed in and returned. *)
From S2P Require Import Prelude Containers ProposalData ProposalVoters.

(** ProposalSingleVoteDataV1, ProposalMultiVoteDataV1 *)
Record SingleVote := mkVote { v_proposalIndex : Z; v_proposalType : Z; v_proposalTick : Z; v_voteValue : Z }.
Record MultiVote := mkMulti { m_proposalIndex : Z; m_proposalType : Z; m_proposalTick : Z; m_voteValues : list Z; m_voteCounts : list Z }.

(** ProposalSummarizedVotingDataV1; the union is its eight [uint32] words *)
Record Summary := mkSummary {
  s_proposalIndex : Z; s_optionCount : Z; s_proposalTick : Z; s_totalVotesAuthorized : Z; s_totalVotesCasted : Z; s_union : list Z }.
Definition with_authorized (n : Z) (s : Summary) : Summary :=
  mkSummary (s_proposalIndex s) (s_optionCount s) (s_proposalTick s) n (s_totalVotesCasted s) (s_union s).
Definition with_results (casted : Z) (u : list Z) (s : Summary) : Summary :=
  mkSummary (s_proposalIndex s) (s_optionCount s) (s_proposalTick s) (s_totalVotesAuthorized s) casted u.
Definition optionVoteCount (s : Summary) (i : Z) : Z := Array.get 3 (s_union s) i.
Definition scalarVotingResult (s : Summary) : Z := s64 ((s_union s).[0] + 2 ^ 32 * (s_union s).[1]).
(** [setMemory(optionVoteCount, 0)] and the assignment of [scalarVotingResult] *)
Definition scalar_words (v : Z) : list Z := [u64 v mod 2 ^ 32; u64 v / 2 ^ 32; 0; 0; 0; 0; 0; 0].

Definition getMostVotedOption (s : Summary) : Z :=
  if s_optionCount s =? 0 then -1
  else (for_loop (Z.to_nat (s_optionCount s - 1)) 1 (fun optionIndex '(mostVotedOptionIndex, mostVotedOptionVotes) =>
          let optionVotes := optionVoteCount s optionIndex in
          if mostVotedOptionVotes <? optionVotes then (optionIndex, optionVotes) else (mostVotedOptionIndex, mostVotedOptionVotes))
        (0, optionVoteCount s 0)).1.

Definition getAcceptedOption (s : Summary) (totalVotesThresh mostVotedThreshold : Z) : Z :=
  if totalVotesThresh <=? s_totalVotesCasted s then
    let opt := getMostVotedOption s in
    if (0 <=? opt) && (mostVotedThreshold <? optionVoteCount s opt) then opt else -1
  else -1.

Section voting.
Context {V : Type} {H : VoterHandling V} {D : ProposalDataType}.
Variables maxProposals maxVotes : Z.

Record ProposalVoting := mkVoting { proposersAndVoters : V; proposals : list ProposalWithAllVoteData }.
Implicit Types pv : ProposalVoting.

Definition stored pv (i : Z) : ProposalWithAllVoteData := (proposals pv).[i].
Definition with_stored (i : Z) (s : ProposalWithAllVoteData) pv : ProposalVoting := mkVoting (proposersAndVoters pv) ((proposals pv).[i := s]).
Definition epoch_of pv (i : Z) : Z := p_epoch (s_proposal (stored pv i)).

Definition zero_proposal : ProposalWithAllVoteData :=
  mkStored (mkProposal (replicate 256 0) 0 0 0 (replicate data_words 0)) (replicate (votes_length maxVotes) 0).

(** ** Procedures *)
Definition clearProposal (proposalIndex : Z) pv : ProposalVoting * bool :=
  if maxProposals <=? proposalIndex then (pv, false)
  else (mkVoting (freeProposalByIndex proposalIndex (proposersAndVoters pv)) ((proposals pv).[proposalIndex := zero_proposal]), true).

(** The oldest proposal before [epoch]; [proposalIndex] if there is none *)
Definition oldest_before (epoch : Z) pv (proposalIndex : Z) : Z :=
  (for_loop (Z.to_nat maxProposals) 0 (fun i '(proposalIndex, minEpoch) =>
     if epoch_of pv i <? minEpoch then (i, epoch_of pv i) else (proposalIndex, minEpoch)) (proposalIndex, epoch)).1.

(** Storing the proposal in its slot *)
Definition enter_proposal (q : QpiContext) (proposal : ProposalData) (proposalIndex : Z) pv : ProposalVoting * Z :=
  let '(s, okay) := set maxVotes proposal (stored pv proposalIndex) in
  if okay then (with_stored proposalIndex (mkStored (with_tick_epoch (q_tick q) (q_epoch q) (s_proposal s)) (s_votes s)) pv, proposalIndex)
  else (mkVoting (freeProposalByIndex proposalIndex (proposersAndVoters pv)) ((proposals pv).[proposalIndex := s]), INVALID_PROPOSAL_INDEX).

Definition setProposal (q : QpiContext) (proposer : Z) (proposal : ProposalData) pv : ProposalVoting * Z :=
  if p_epoch proposal =? 0 then
    let proposalIndex := getExistingProposalIndex (proposersAndVoters pv) proposer in
    let '(pv, okay) := clearProposal proposalIndex pv in (pv, if okay then proposalIndex else INVALID_PROPOSAL_INDEX)
  else if negb (checkValidity proposal) then (pv, INVALID_PROPOSAL_INDEX)
  else if negb (isValidProposer q (proposersAndVoters pv) proposer) then (pv, INVALID_PROPOSAL_INDEX)
  else
    let '(voters, proposalIndex) := getNewProposalIndex q proposer (proposersAndVoters pv) in
    let pv := mkVoting voters (proposals pv) in
    if maxProposals <=? proposalIndex then
      let proposalIndex := oldest_before (q_epoch q) pv proposalIndex in
      if maxProposals <=? proposalIndex then (pv, INVALID_PROPOSAL_INDEX)
      else
        let '(pv, _) := clearProposal proposalIndex pv in
        let '(voters, proposalIndex) := getNewProposalIndex q proposer (proposersAndVoters pv) in
        enter_proposal q proposal proposalIndex (mkVoting voters (proposals pv))
    else enter_proposal q proposal proposalIndex pv.

(** The checks that both kinds of votes share: the vote must be for the proposal in the slot. *)
Definition vote_matches (q : QpiContext) (proposalIndex proposalType proposalTick : Z) pv : bool :=
  if maxProposals <=? proposalIndex then false
  else
    let proposal := s_proposal (stored pv proposalIndex) in
    if negb (proposalType =? p_type proposal) then false
    else if negb (q_epoch q =? p_epoch proposal) then false
    else if negb (proposalTick =? p_tick proposal) then false
    else true.

(** [n] votes with the same value from [voteIndex] on, up to the first that is refused *)
Fixpoint set_equal_votes (n : nat) (voteIndex voteValue : Z) (s : ProposalWithAllVoteData) : ProposalWithAllVoteData * bool :=
  match n with
  | O => (s, true)
  | S n => let '(s, okay) := setVoteValue maxVotes voteIndex voteValue s in
           if negb okay then (s, okay) else set_equal_votes n (voteIndex + 1) voteValue s
  end.

Definition vote (q : QpiContext) (voter : Z) (v : SingleVote) pv : ProposalVoting * bool :=
  if negb (vote_matches q (v_proposalIndex v) (v_proposalType v) (v_proposalTick v) pv) then (pv, false)
  else
    let voteIndex := getVoteIndex q (proposersAndVoters pv) voter (v_proposalIndex v) in
    if voteIndex =? INVALID_VOTE_INDEX then (pv, false)
    else
      let voteCount := getVoteCount q (proposersAndVoters pv) voteIndex (v_proposalIndex v) in
      let '(s, okay) := set_equal_votes (Z.to_nat voteCount) voteIndex (v_voteValue v) (stored pv (v_proposalIndex v)) in
      (with_stored (v_proposalIndex v) s pv, okay).

(** The loop over the votes of one value: [j], [voteIndex], the proposal, [okay] *)
Record cast_state := mkCast { c_count : Z; c_voteIndex : Z; c_stored : ProposalWithAllVoteData; c_okay : bool }.
Definition cast_votes (voteValue voteCount : Z) (c : cast_state) : cast_state :=
  while_loop (fun c => (c_count c <? voteCount) && c_okay c)
    (fun c => let '(s, okay) := setVoteValue maxVotes (c_voteIndex c) voteValue (c_stored c) in
              mkCast (c_count c + 1) (u32 (c_voteIndex c + 1)) s okay)
    (2 ^ 32) (mkCast 0 (c_voteIndex c) (c_stored c) (c_okay c)).

(** The remaining votes from [voteIndex] to [voteIndexEnd] become no votes. *)
Definition fill_no_votes (voteIndex voteIndexEnd : Z) (s : ProposalWithAllVoteData) : ProposalWithAllVoteData :=
  for_loop (Z.to_nat (voteIndexEnd - voteIndex)) voteIndex (fun i s => (setVoteValue maxVotes i NO_VOTE_VALUE s).1) s.

Definition voteMulti (q : QpiContext) (voter : Z) (v : MultiVote) pv : ProposalVoting * bool :=
  if negb (vote_matches q (m_proposalIndex v) (m_proposalType v) (m_proposalTick v) pv) then (pv, false)
  else
    let voteIndexBegin := getVoteIndex q (proposersAndVoters pv) voter (m_proposalIndex v) in
    if voteIndexBegin =? INVALID_VOTE_INDEX then (pv, false)
    else
      let voteCountTotal := getVoteCount q (proposersAndVoters pv) voteIndexBegin (m_proposalIndex v) in
      let voteCountSent := for_loop 8 0 (fun i n => u32 (n + Array.get 3 (m_voteCounts v) i)) 0 in
      if voteCountTotal <? voteCountSent then (pv, false)
      else
        let voteIndexEnd := u32 (voteIndexBegin + voteCountTotal) in
        let s := stored pv (m_proposalIndex v) in
        if voteCountSent =? 0 then
          let '(s, okay) := set_equal_votes (Z.to_nat (voteIndexEnd - voteIndexBegin)) voteIndexBegin (Array.get 3 (m_voteValues v) 0) s in
          let s := if okay then s else fill_no_votes voteIndexBegin voteIndexEnd s in
          (with_stored (m_proposalIndex v) s pv, okay)
        else
          let c := for_loop 8 0 (fun i c => if c_okay c then cast_votes (Array.get 3 (m_voteValues v) i) (Array.get 3 (m_voteCounts v) i) c else c)
                     (mkCast 0 voteIndexBegin s true) in
          let voteIndex := if c_okay c then c_voteIndex c else voteIndexBegin in
          (with_stored (m_proposalIndex v) (fill_no_votes voteIndex voteIndexEnd (c_stored c)) pv, c_okay c).

(** ** Functions *)
Definition unknown_proposal (proposalIndex : Z) pv : bool := (maxProposals <=? proposalIndex) || (epoch_of pv proposalIndex =? 0).

Definition getProposal (proposalIndex : Z) (proposal : ProposalData) pv : ProposalData * bool :=
  if unknown_proposal proposalIndex pv then (mkProposal (p_url proposal) (p_epoch proposal) 0 (p_tick proposal) (p_data proposal), false)
  else (s_proposal (stored pv proposalIndex), true).

Definition getVote (proposalIndex voteIndex : Z) (v : SingleVote) pv : SingleVote * bool :=
  if (maxProposals <=? proposalIndex) || (maxVotes <=? voteIndex) || (epoch_of pv proposalIndex =? 0) then
    (mkVote (v_proposalIndex v) 0 (v_proposalTick v) (v_voteValue v), false)
  else
    let s := stored pv proposalIndex in
    (mkVote proposalIndex (p_type (s_proposal s)) (p_tick (s_proposal s)) (getVoteValue maxVotes voteIndex s), true).

(** The histogram of arbitrary values, false when there are more values than places.  The HashMap from values to places is a finite map. *)
Fixpoint scalar_histogram (n : nat) (voteIndex : Z) (s : ProposalWithAllVoteData) (valueIdx : gmap Z Z) (uniqueVoteValues : Z) (voteValues voteCounts : list Z) : list Z * list Z * bool :=
  match n with
  | O => (voteValues, voteCounts, true)
  | S n =>
      let voteValue := getVoteValue maxVotes voteIndex s in
      if negb (voteValue =? NO_VOTE_VALUE) then
        match valueIdx !! voteValue with
        | Some voteValueIdx =>
            scalar_histogram n (voteIndex + 1) s valueIdx uniqueVoteValues voteValues
              (Array.set 3 voteCounts voteValueIdx (u32 (Array.get 3 voteCounts voteValueIdx + 1)))
        | None =>
            let voteValueIdx := uniqueVoteValues in
            if 8 <=? voteValueIdx then (voteValues, voteCounts, false)
            else scalar_histogram n (voteIndex + 1) s (<[voteValue := voteValueIdx]> valueIdx) (uniqueVoteValues + 1)
                   (Array.set 3 voteValues voteValueIdx voteValue) (Array.set 3 voteCounts voteValueIdx (u32 (Array.get 3 voteCounts voteValueIdx + 1)))
        end
      else scalar_histogram n (voteIndex + 1) s valueIdx uniqueVoteValues voteValues voteCounts
  end.

(** One vote of an option histogram *)
Definition count_option (s : ProposalWithAllVoteData) (options voteIndex : Z) (hist : list Z) : list Z :=
  let value := getVoteValue maxVotes voteIndex s in
  if negb (value =? NO_VOTE_VALUE) && (0 <=? value) && (value <? options) then Array.set 3 hist value (u32 (Array.get 3 hist value + 1)) else hist.

Definition getVotes (q : QpiContext) (proposalIndex voter : Z) (votes : MultiVote) pv : MultiVote * bool :=
  let votes := mkMulti (m_proposalIndex votes) 0 (m_proposalTick votes) (m_voteValues votes) (m_voteCounts votes) in
  if unknown_proposal proposalIndex pv then (votes, false)
  else
    let s := stored pv proposalIndex in
    let voteIndexBegin := getVoteIndex q (proposersAndVoters pv) voter proposalIndex in
    if voteIndexBegin =? INVALID_VOTE_INDEX then (votes, false)
    else
      let voteCountTotal := getVoteCount q (proposersAndVoters pv) voteIndexBegin proposalIndex in
      let success voteValues voteCounts := (mkMulti proposalIndex (p_type (s_proposal s)) (p_tick (s_proposal s)) voteValues voteCounts, true) in
      let zeros := replicate 8 0 in
      if p_type (s_proposal s) =? VariableScalarMean then
        let '(voteValues, voteCounts, okay) := scalar_histogram (Z.to_nat voteCountTotal) voteIndexBegin s ∅ 0 zeros zeros in
        if okay then success voteValues voteCounts else (mkMulti (m_proposalIndex votes) 0 (m_proposalTick votes) voteValues voteCounts, false)
      else
        let options := optionCount (p_type (s_proposal s)) in
        let hist := for_loop (Z.to_nat voteCountTotal) voteIndexBegin (count_option s options) zeros in
        success (for_loop (Z.to_nat options) 0 (fun i l => Array.set 3 l i i) zeros) hist.

(** __getVotingSummaryScalarVotes: the mean of the votes *)
Definition vote_or_skip (s : ProposalWithAllVoteData) (i : Z) {T} (f : Z -> T -> T) (t : T) : T :=
  let value := getVoteValue maxVotes i s in if negb (value =? NO_VOTE_VALUE) then f value t else t.
Definition all_votes (s : ProposalWithAllVoteData) {T} (f : Z -> T -> T) (t : T) : T :=
  for_loop (Z.to_nat maxVotes) 0 (fun i t => vote_or_skip s i f t) t.

Definition mean_large (s : ProposalWithAllVoteData) : Z * Z :=
  let totalVotesCasted := all_votes s (fun _ n => u32 (n + 1)) 0 in
  (totalVotesCasted,
   if negb (totalVotesCasted =? 0) then
     let '(accumulation, acc2) := all_votes s (fun value '(accumulation, acc2) =>
       (s64 (accumulation + Z.quot value totalVotesCasted), s64 (acc2 + Z.rem value totalVotesCasted))) (0, 0) in
     s64 (accumulation + Z.quot acc2 totalVotesCasted)
   else 0).
Definition mean_small (s : ProposalWithAllVoteData) : Z * Z :=
  let '(totalVotesCasted, accumulation) := all_votes s (fun value '(n, accumulation) => (u32 (n + 1), s64 (accumulation + value))) (0, 0) in
  (totalVotesCasted, if negb (totalVotesCasted =? 0) then Z.quot accumulation totalVotesCasted else accumulation).

Definition getVotingSummaryScalarVotes (s : ProposalWithAllVoteData) (summary : Summary) : Summary * bool :=
  if noScalarSummary then (summary, false)
  else if negb (p_type (s_proposal s) =? VariableScalarMean) then (summary, false)
  else
    let p := s_proposal s in
    let '(casted, accumulation) :=
      if (Z.quot maxSupportedValue maxVotes <? maxValue p) || (minValue p <? Z.quot minSupportedValue maxVotes) then mean_large s else mean_small s in
    (with_results casted (scalar_words accumulation) summary, true).

Definition getVotingSummary (proposalIndex : Z) (summary : Summary) pv : Summary * bool :=
  let summary := with_authorized 0 summary in
  if unknown_proposal proposalIndex pv then (summary, false)
  else
    let s := stored pv proposalIndex in
    let p := s_proposal s in
    let summary := mkSummary proposalIndex (optionCount (p_type p)) (p_tick p) 0 0 (s_union summary) in
    if p_type p =? VariableScalarMean then
      let '(summary, okay) := getVotingSummaryScalarVotes s summary in
      if negb okay then (summary, false) else (with_authorized maxVotes summary, true)
    else
      let '(casted, hist) := for_loop (Z.to_nat maxVotes) 0 (fun i '(casted, hist) =>
        let value := getVoteValue maxVotes i s in
        if negb (value =? NO_VOTE_VALUE) && (0 <=? value) && (value <? s_optionCount summary) then
          (u32 (casted + 1), Array.set 3 hist value (u32 (Array.get 3 hist value + 1)))
        else (casted, hist)) (0, replicate 8 0) in
      (with_authorized maxVotes (with_results casted hist summary), true).

Definition proposalIndex pv (proposer : Z) : Z := getExistingProposalIndex (proposersAndVoters pv) proposer.
Definition proposerId pv (proposalIndex : Z) : Z :=
  if unknown_proposal proposalIndex pv then NULL_ID else getProposerId (proposersAndVoters pv) proposalIndex.
Definition voteIndex (q : QpiContext) pv (voter proposalIndex : Z) : Z := getVoteIndex q (proposersAndVoters pv) voter proposalIndex.
Definition voterId (q : QpiContext) pv (voteIndex proposalIndex : Z) : Z := getVoterId q (proposersAndVoters pv) voteIndex proposalIndex.
Definition voteCount (q : QpiContext) pv (voteIndex proposalIndex : Z) : Z := getVoteCount q (proposersAndVoters pv) voteIndex proposalIndex.

(** The next slot with the property, or -1 *)
Definition next_index (P : Z -> bool) (prevProposalIndex : Z) : Z :=
  if maxProposals <=? prevProposalIndex then -1
  else
    let idx := if prevProposalIndex <? 0 then 0 else u16 (prevProposalIndex + 1) in
    search P (Z.to_nat (maxProposals - idx)) idx (-1).
Definition nextProposalIndex (q : QpiContext) pv (prevProposalIndex epoch : Z) : Z :=
  let epoch := if epoch =? 0 then q_epoch q else epoch in
  next_index (fun idx => epoch_of pv idx =? epoch) prevProposalIndex.
Definition nextFinishedProposalIndex (q : QpiContext) pv (prevProposalIndex : Z) : Z :=
  next_index (fun idx => negb (epoch_of pv idx =? q_epoch q) && negb (epoch_of pv idx =? 0)) prevProposalIndex.
End voting.
Arguments ProposalVoting V : clear implicits.
