(* ===== verification/Proposals.v ===== *)
(** * Proposals and votes: the theorems

    What the calls on a ProposalVoting object do, for every kind of proposer, voter and vote storage: they are proved against the interfaces [VoterLaws] and
    [ProposalDataLaws].  The vote with index [i] of slot [p] belongs to [roll q voters p i]; its value is [ballot pv p i]. *)
From S2P Require Import Prelude Containers ProposalData ProposalVoters ProposalRolls ProposalElectorate ProposalVoting.

Section proposals.
Context {V : Type} {H : VoterHandling V} {D : ProposalDataType}.
Variables maxProposals maxVotes : Z.
Context {HL : VoterLaws H maxProposals maxVotes} {DL : ProposalDataLaws D maxVotes}.
Hypothesis Hmp : 0 <= maxProposals <= INVALID_PROPOSAL_INDEX.
Hypothesis Hmv : 0 < maxVotes < INVALID_VOTE_INDEX.
Implicit Types pv : ProposalVoting V.
Notation in_slots i := (0 <= i < maxProposals).
Notation in_votes i := (0 <= i < maxVotes).

Definition ballot pv (p i : Z) : Z := getVoteValue maxVotes i (stored pv p).
Definition proposal_in pv (p : Z) : ProposalData := s_proposal (stored pv p).
Definition proposer_in pv (p : Z) : Z := getProposerId (proposersAndVoters pv) p.
Definition owner (q : QpiContext) pv (p i : Z) : Z := roll q (proposersAndVoters pv) p i.

(** A slot is empty, or holds a valid proposal of somebody with votes that its type allows. *)
Definition slot_ok pv (p : Z) : Prop :=
  stored_ok (stored pv p) /\
  if decide (epoch_of pv p = 0) then proposer_in pv p = NULL_ID
  else proposer_in pv p <> NULL_ID /\ checkValidity (proposal_in pv p) = true /\ forall i, in_votes i -> castable (proposal_in pv p) (ballot pv p i).

Definition voting_ok pv : Prop :=
  voters_ok (proposersAndVoters pv) /\ alen (proposals pv) = maxProposals /\ forall p, in_slots p -> slot_ok pv p.

(** Slot [p] is the same in two states, with its proposer and its electorate. *)
Definition same_slot pv pv' (p : Z) : Prop :=
  stored pv' p = stored pv p /\ proposer_in pv' p = proposer_in pv p /\ forall q i, owner q pv' p i = owner q pv p i.

Lemma same_slot_ok pv pv' p : same_slot pv pv' p -> slot_ok pv p -> slot_ok pv' p.
Proof. intros (E1 & E2 & _). unfold slot_ok, epoch_of, proposal_in, ballot. by rewrite E1, E2. Qed.

(** ** Storing votes *)
Section storing.
Variable s : ProposalWithAllVoteData.
Hypothesis Hs : stored_ok s.
Hypothesis Hvalid : checkValidity (s_proposal s) = true.

(** [s'] differs from [s] in the votes [[a, b)], which have the values [f]. *)
Definition updated (a b : Z) (f : Z -> Z) (s' : ProposalWithAllVoteData) : Prop :=
  stored_ok s' /\ s_proposal s' = s_proposal s /\
  forall j, 0 <= j -> getVoteValue maxVotes j s' = if decide (a <= j < b) then f j else getVoteValue maxVotes j s.

Lemma updated_refl a f : updated a a f s.
Proof. split; [done|]. split; [done|]. intros j Hj. by rewrite decide_False by lia. Qed.

Lemma updated_ext a b f g s' : updated a b f s' -> (forall j, a <= j < b -> f j = g j) -> updated a b g s'.
Proof. intros (H1 & H2 & H3) Heq. split; [done|]. split; [done|]. intros j Hj. rewrite H3 by done. case_decide; [by apply Heq|done]. Qed.

(** One more vote *)
Lemma updated_next a b f v s' : 0 <= a <= b -> b < maxVotes -> castable (s_proposal s) v -> updated a b f s' ->
  exists s'', setVoteValue maxVotes b v s' = (s'', true) /\ updated a (b + 1) (fun j => if decide (j = b) then v else f j) s''.
Proof.
  intros Hab Hb Hc (H1 & H2 & H3). rewrite <- H2 in Hvalid, Hc. pose proof (setVoteValue_law b v s' H1 Hvalid ltac:(lia)) as (L1 & L2 & L3 & _ & L5).
  destruct (setVoteValue maxVotes b v s') as [s'' ok]. cbn [fst snd] in *. assert (ok = true) as -> by (apply L3; split; [lia|done]).
  exists s''. split; [done|]. split; [done|]. split; [congruence|]. intros j Hj. rewrite L5, H3 by done. repeat case_decide; done || lia.
Qed.

Lemma refused_vote v i : 0 <= i -> ~ castable (s_proposal s) v -> setVoteValue maxVotes i v s = (s, false).
Proof.
  intros Hi Hc. pose proof (setVoteValue_law i v s Hs Hvalid Hi) as (_ & _ & L3 & L4 & _). destruct (setVoteValue maxVotes i v s) as [s' ok]. cbn [fst snd] in *.
  destruct ok; [destruct (proj1 L3 eq_refl); done|]. by rewrite L4.
Qed.

Lemma set_equal_votes_from v : castable (s_proposal s) v -> forall n a b f s', 0 <= a <= b -> b + Z.of_nat n <= maxVotes -> updated a b f s' ->
  exists s'', set_equal_votes maxVotes n b v s' = (s'', true) /\ updated a (b + Z.of_nat n) (fun j => if decide (b <= j) then v else f j) s''.
Proof.
  intros Hc. induction n as [|n IH]; intros a b f s' Hab Hn Hu; cbn [set_equal_votes].
  - exists s'. split; [done|]. rewrite Z.add_0_r. apply (updated_ext _ _ f); [done|]. intros j Hj. by rewrite decide_False by lia.
  - destruct (updated_next a b f v s' Hab ltac:(lia) Hc Hu) as (s1 & -> & Hu1). cbn [negb].
    destruct (IH a (b + 1) _ s1 ltac:(lia) ltac:(lia) Hu1) as (s2 & -> & Hu2). exists s2. split; [done|].
    replace (b + Z.of_nat (S n)) with (b + 1 + Z.of_nat n) by lia. apply (updated_ext _ _ _ _ _ Hu2). intros j Hj. repeat case_decide; done || lia.
Qed.

Lemma set_equal_votes_spec v n b : 0 <= b -> b + Z.of_nat n <= maxVotes -> (0 < n)%nat ->
  if decide (castable (s_proposal s) v) then exists s', set_equal_votes maxVotes n b v s = (s', true) /\ updated b (b + Z.of_nat n) (fun _ => v) s'
  else set_equal_votes maxVotes n b v s = (s, false).
Proof.
  intros Hb Hn Hpos. case_decide as Hc.
  - destruct (set_equal_votes_from v Hc n b b (fun _ => v) s) as (s' & E & Hu); [lia|done|apply updated_refl|]. exists s'. split; [done|].
    apply (updated_ext _ _ _ _ _ Hu). intros j Hj. by case_decide.
  - destruct n as [|n]; [lia|]. cbn [set_equal_votes]. by rewrite refused_vote.
Qed.

(** The rest of the votes becomes no votes. *)
Lemma fill_no_votes_spec a b f s' e : 0 <= a <= b -> b <= e <= maxVotes -> updated a b f s' ->
  updated a e (fun j => if decide (j < b) then f j else NO_VOTE_VALUE) (fill_no_votes maxVotes b e s').
Proof.
  intros Hab He Hu. unfold fill_no_votes. replace e with (b + Z.of_nat (Z.to_nat (e - b))) at 1 by lia.
  apply (for_loop_ind (fun i s'' => updated a i (fun j => if decide (j < b) then f j else NO_VOTE_VALUE) s'')).
  - apply (updated_ext _ _ _ _ _ Hu). intros j Hj. by rewrite decide_True by lia.
  - intros i s'' Hi Hu'. destruct (updated_next a i _ NO_VOTE_VALUE s'' ltac:(lia) ltac:(lia) ltac:(by left) Hu') as (s3 & -> & Hu3). cbn [fst].
    apply (updated_ext _ _ _ _ _ Hu3). intros j Hj. repeat case_decide; done || lia.
Qed.

(** *** Votes of several values *)
Lemma cast_votes_ok v k a c f : castable (s_proposal s) v -> 0 <= k < 2 ^ 32 -> c_okay c = true -> 0 <= a <= c_voteIndex c -> c_voteIndex c + k <= maxVotes ->
  updated a (c_voteIndex c) f (c_stored c) ->
  let c' := cast_votes maxVotes v k c in
  c_okay c' = true /\ c_voteIndex c' = c_voteIndex c + k /\ updated a (c_voteIndex c + k) (fun j => if decide (c_voteIndex c <= j) then v else f j) (c_stored c').
Proof.
  intros Hc Hk Hok Ha Hend Hu. cbv zeta. unfold cast_votes. match goal with |- context [while_loop ?C ?B ?F ?c0] => set (cond := C); set (body := B); set (start := c0) end.
  set (I := fun c' => c_okay c' = true /\ 0 <= c_count c' <= k /\ c_voteIndex c' = c_voteIndex c + c_count c' /\
    updated a (c_voteIndex c') (fun j => if decide (c_voteIndex c <= j) then v else f j) (c_stored c')).
  destruct (while_loop_total cond body I (fun c' => k - c_count c') (2 ^ 32) start) as [(I1 & I2 & I3 & I4) Hdone].
  - intros c' (I1 & I2 & I3 & I4) [Hlt%Z.ltb_lt _]%andb_true_iff. split; [lia|].
    destruct (updated_next a (c_voteIndex c') _ v (c_stored c') ltac:(lia) ltac:(lia) Hc I4) as (s' & E & Hu'). unfold I, body. rewrite E. cbn [c_okay c_count c_voteIndex c_stored].
    rewrite u32_small by (unfold is_u32, INVALID_VOTE_INDEX in *; lia). split; [|lia]. split; [done|]. split; [lia|]. split; [lia|].
    apply (updated_ext _ _ _ _ _ Hu'). intros j Hj. repeat case_decide; done || lia.
  - unfold I, start. cbn [c_okay c_count c_voteIndex c_stored]. split; [done|]. split; [lia|]. split; [lia|]. apply (updated_ext _ _ _ _ _ Hu). intros j Hj. by rewrite decide_False by lia.
  - cbn [c_count start]. lia.
  - change (cond ?x) with ((c_count x <? k) && c_okay x) in Hdone. rewrite I1, andb_true_r in Hdone. apply Z.ltb_ge in Hdone. split; [done|]. rewrite I3 in *. replace (c_count _) with k in * by lia. done.
Qed.

Lemma cast_votes_refused v k c : ~ castable (s_proposal s) v -> 0 < k -> c_okay c = true -> 0 <= c_voteIndex c -> stored_ok (c_stored c) -> s_proposal (c_stored c) = s_proposal s ->
  let c' := cast_votes maxVotes v k c in c_okay c' = false /\ c_stored c' = c_stored c.
Proof.
  intros Hc Hk Hok Hi Hst Hp. cbv zeta. unfold cast_votes. match goal with |- context [while_loop ?C ?B ?F ?c0] => set (cond := C); set (body := B); set (start := c0) end.
  set (I := fun c' => c_stored c' = c_stored c /\ 0 <= c_voteIndex c' /\ (c_okay c' = true -> c_count c' = 0)).
  destruct (while_loop_total cond body I (fun c' => Z.b2z (c_okay c')) (2 ^ 32) start) as [(I1 & I2 & I3) Hdone].
  - intros c' (I1 & I2 & I3) [_ Ho]%andb_true_iff. split; [rewrite Ho; done|]. unfold I, body. rewrite I1, Ho.
    assert (setVoteValue maxVotes (c_voteIndex c') v (c_stored c) = (c_stored c, false)) as ->.
    { pose proof (setVoteValue_law (c_voteIndex c') v (c_stored c) Hst ltac:(by rewrite Hp) ltac:(lia)) as (_ & _ & L3 & L4 & _).
      destruct (setVoteValue maxVotes (c_voteIndex c') v (c_stored c)) as [s' ok]. cbn [fst snd] in *. rewrite Hp in L3.
      destruct ok; [destruct (proj1 L3 eq_refl); done|]. by rewrite L4. }
    cbn [c_okay c_count c_voteIndex c_stored]. split; [|done]. split; [done|]. split; [apply u32_range|done].
  - done.
  - destruct (c_okay start); cbn; lia.
  - split; [|done]. destruct (c_okay (while_loop cond body (2 ^ 32) start)) eqn:E; [|done]. exfalso. change (cond ?x) with ((c_count x <? k) && c_okay x) in Hdone. rewrite E, (I3 eq_refl), andb_true_r in Hdone. apply Z.ltb_ge in Hdone. lia.
Qed.

(** More votes than there are: they are set up to the last one, and then the loop ends in an error. *)
Lemma cast_votes_over v k a c f : castable (s_proposal s) v -> 0 <= k < 2 ^ 32 -> c_okay c = true -> 0 <= a <= c_voteIndex c -> c_voteIndex c <= maxVotes -> maxVotes < c_voteIndex c + k ->
  updated a (c_voteIndex c) f (c_stored c) ->
  let c' := cast_votes maxVotes v k c in c_okay c' = false /\ updated a maxVotes (fun j => if decide (c_voteIndex c <= j) then v else f j) (c_stored c').
Proof.
  intros Hc Hk Hok Ha Hle Hend Hu. cbv zeta. unfold cast_votes. match goal with |- context [while_loop ?C ?B ?F ?c0] => set (cond := C); set (body := B); set (start := c0) end.
  set (g := fun j => if decide (c_voteIndex c <= j) then v else f j).
  set (I := fun c' => c_okay c' = true /\ 0 <= c_count c' /\ c_voteIndex c' = c_voteIndex c + c_count c' /\ c_voteIndex c' <= maxVotes /\ updated a (c_voteIndex c') g (c_stored c') \/
    c_okay c' = false /\ updated a maxVotes g (c_stored c')).
  destruct (while_loop_total cond body I (fun c' => k - c_count c') (2 ^ 32) start) as [HI Hdone].
  - intros c' HI [Hlt%Z.ltb_lt Ho]%andb_true_iff. split; [lia|]. destruct HI as [(I1 & I2 & I3 & I4 & I5)|[I1 _]]; [|congruence]. unfold I, body. destruct (decide (c_voteIndex c' = maxVotes)) as [E|Hne].
    + assert (setVoteValue maxVotes (c_voteIndex c') v (c_stored c') = (c_stored c', false)) as ->.
      { destruct I5 as (Hst & Hp & _). pose proof (setVoteValue_law (c_voteIndex c') v (c_stored c') Hst ltac:(by rewrite Hp) ltac:(lia)) as (_ & _ & L3 & L4 & _).
        destruct (setVoteValue maxVotes (c_voteIndex c') v (c_stored c')) as [s' ok]. cbn [fst snd] in *. destruct ok; [destruct (proj1 L3 eq_refl); lia|]. by rewrite L4. }
      cbn [c_okay c_count c_voteIndex c_stored]. split; [|lia]. right. split; [done|]. by rewrite <- E.
    + destruct (updated_next a (c_voteIndex c') _ v (c_stored c') ltac:(lia) ltac:(lia) Hc I5) as (s' & -> & Hu'). cbn [c_okay c_count c_voteIndex c_stored].
      rewrite u32_small by (unfold is_u32, INVALID_VOTE_INDEX in *; lia). split; [|lia]. left. split; [done|]. split; [lia|]. split; [lia|]. split; [lia|].
      apply (updated_ext _ _ _ _ _ Hu'). intros j Hj. unfold g. repeat case_decide; done || lia.
  - left. unfold start. cbn [c_okay c_count c_voteIndex c_stored]. split; [done|]. split; [lia|]. split; [lia|]. split; [lia|]. apply (updated_ext _ _ _ _ _ Hu). intros j Hj. unfold g. by rewrite decide_False by lia.
  - cbn [c_count start]. lia.
  - destruct HI as [(I1 & _ & I3 & I4 & _)|HI]; [|exact HI]. exfalso. change (cond ?x) with ((c_count x <? k) && c_okay x) in Hdone. rewrite I1, andb_true_r in Hdone. apply Z.ltb_ge in Hdone. lia.
Qed.

(** The value of the vote with offset [d] when [counts.[i]] votes have the value [values.[i]] *)
Definition prefix (counts : list Z) (i : Z) : Z := sumZ (fun k => Array.get 3 counts k) (Z.to_nat i).
Fixpoint nth_value (values counts : list Z) (n : nat) (d : Z) : Z :=
  match n with
  | O => NO_VOTE_VALUE
  | S n => if decide (prefix counts (Z.of_nat n) <= d) then Array.get 3 values (Z.of_nat n) else nth_value values counts n d
  end.

Definition all_castable (p : ProposalData) (values counts : list Z) (n : Z) : Prop :=
  forall i, 0 <= i < n -> 0 < Array.get 3 counts i -> castable p (Array.get 3 values i).

Lemma prefix_next counts i : 0 <= i -> prefix counts (i + 1) = prefix counts i + Array.get 3 counts i.
Proof. intros Hi. unfold prefix. rewrite Z2Nat.inj_add by lia. rewrite Nat.add_1_r. cbn [sumZ]. rewrite Z2Nat.id by lia. lia. Qed.

(** Nothing is counted twice: the vote with offset [d] keeps its value when more counts are taken into account. *)
Lemma nth_value_more values counts i d : 0 <= i -> d < prefix counts i -> nth_value values counts (Z.to_nat (i + 1)) d = nth_value values counts (Z.to_nat i) d.
Proof. intros Hi Hd. rewrite Z2Nat.inj_add by lia. rewrite Nat.add_1_r. cbn [nth_value]. rewrite Z2Nat.id by lia. by rewrite decide_False by lia. Qed.
Lemma nth_value_last values counts i d : 0 <= i -> prefix counts i <= d -> nth_value values counts (Z.to_nat (i + 1)) d = Array.get 3 values i.
Proof. intros Hi Hd. rewrite Z2Nat.inj_add by lia. rewrite Nat.add_1_r. cbn [nth_value]. rewrite Z2Nat.id by lia. by rewrite decide_True by lia. Qed.

(** The first vote from [b] on that is refused: its value is not allowed, or it would be behind the last one. *)
Definition stops (n : nat) (p : ProposalData) (values counts : list Z) (b e : Z) : Prop :=
  b <= e <= maxVotes /\ (forall d, 0 <= d < e - b -> castable p (nth_value values counts n d)) /\ (e = maxVotes \/ ~ castable p (nth_value values counts n (e - b))).

Lemma cast_all_over values counts b : (forall i, 0 <= i < 8 -> is_u32 (Array.get 3 counts i)) -> 0 <= b <= maxVotes -> maxVotes < b + prefix counts 8 ->
  let c := for_loop 8 0 (fun i c => if c_okay c then cast_votes maxVotes (Array.get 3 values i) (Array.get 3 counts i) c else c) (mkCast 0 b s true) in
  c_okay c = false /\ exists e, stops 8 (s_proposal s) values counts b e /\ updated b e (fun j => nth_value values counts 8 (j - b)) (c_stored c).
Proof.
  intros Hpos Hb Hend c.
  pose (P := fun i c => c_okay c = true /\ (forall d, 0 <= d < prefix counts i -> castable (s_proposal s) (nth_value values counts (Z.to_nat i) d)) /\ c_voteIndex c = b + prefix counts i /\ c_voteIndex c <= maxVotes /\
       0 <= prefix counts i /\ updated b (c_voteIndex c) (fun j => nth_value values counts (Z.to_nat i) (j - b)) (c_stored c) \/
    c_okay c = false /\ exists e, e - b < prefix counts i /\ stops (Z.to_nat i) (s_proposal s) values counts b e /\ updated b e (fun j => nth_value values counts (Z.to_nat i) (j - b)) (c_stored c)).
  assert (P 8 c) as HP; [|destruct HP as [(_ & _ & E & ? & _)|[E (e & _ & He)]]; [lia|]; split; [done|]; by exists e].
  change 8 with (0 + Z.of_nat 8). apply (for_loop_ind P).
  - left. split; [done|]. change (prefix counts 0) with 0. split; [intros d Hd; lia|]. cbn [c_voteIndex c_stored]. split; [lia|]. split; [lia|]. split; [lia|]. apply updated_refl.
  - intros i c0 Hi Hc0. change (0 + Z.of_nat 8) with 8 in Hi. pose proof (prefix_next counts i ltac:(lia)) as Hpre. pose proof (Hpos i Hi) as Hpi. unfold is_u32 in Hpi.
    destruct Hc0 as [(Hok & Hall & Hidx & Hle & H0 & Hu)|(Hok & e & He & (S1 & S2 & S3) & Hu)]; rewrite Hok.
    2: { right. split; [done|]. exists e. split; [lia|]. split; [|apply (updated_ext _ _ _ _ _ Hu); intros j Hj; by rewrite nth_value_more by lia].
         split; [done|]. split; [intros d Hd; rewrite nth_value_more by lia; by apply S2|]. rewrite nth_value_more by lia. done. }
    set (v := Array.get 3 values i) in *. set (k := Array.get 3 counts i) in *. pose proof Hu as (Hu1 & Hu2 & _).
    destruct (decide (0 < k)) as [Hk|Hk].
    2: { left. assert (k = 0) as Ek by lia. unfold cast_votes. rewrite while_loop_done by (cbn [c_count]; rewrite Ek; done). cbn [c_okay c_voteIndex c_stored]. rewrite Hpre, Ek, Z.add_0_r. split; [done|].
         split; [intros d Hd; rewrite nth_value_more by lia; by apply Hall|]. split; [done|]. split; [done|]. split; [done|]. apply (updated_ext _ _ _ _ _ Hu). intros j Hj. by rewrite nth_value_more by lia. }
    destruct (decide (castable (s_proposal s) v)) as [Hcv|Hnc].
    2: { destruct (cast_votes_refused v k c0 Hnc Hk Hok ltac:(lia) Hu1 Hu2) as [E1 E2]. right. split; [done|]. exists (b + prefix counts i). split; [lia|]. rewrite E2. split.
         - split; [lia|]. split; [intros d Hd; rewrite nth_value_more by lia; apply Hall; lia|right; by rewrite nth_value_last by lia].
         - rewrite <- Hidx. apply (updated_ext _ _ _ _ _ Hu). intros j Hj. by rewrite nth_value_more by lia. }
    assert (forall d, 0 <= d < prefix counts (i + 1) -> castable (s_proposal s) (nth_value values counts (Z.to_nat (i + 1)) d)) as Hall'.
    { intros d Hd. destruct (decide (d < prefix counts i)); [rewrite nth_value_more by lia; apply Hall; lia|]. by rewrite nth_value_last by lia. }
    assert (forall j, b <= j -> (if decide (c_voteIndex c0 <= j) then v else nth_value values counts (Z.to_nat i) (j - b)) = nth_value values counts (Z.to_nat (i + 1)) (j - b)) as Hval.
    { intros j Hj. case_decide; [by rewrite nth_value_last by lia|]. by rewrite nth_value_more by lia. }
    destruct (decide (c_voteIndex c0 + k <= maxVotes)) as [Hfit|Hover].
    + destruct (cast_votes_ok v k b c0 _ Hcv ltac:(lia) Hok ltac:(lia) Hfit Hu) as (E1 & E2 & E3). left. split; [done|]. split; [done|]. rewrite E2. split; [lia|]. split; [done|]. split; [lia|].
      apply (updated_ext _ _ _ _ _ E3). intros j Hj. apply Hval. lia.
    + destruct (cast_votes_over v k b c0 _ Hcv ltac:(lia) Hok ltac:(lia) Hle ltac:(lia) Hu) as [E1 E2]. right. split; [done|]. exists maxVotes. split; [lia|]. split.
      * split; [lia|]. split; [intros d Hd; apply Hall'; lia|by left].
      * apply (updated_ext _ _ _ _ _ E2). intros j Hj. apply Hval. lia.
Qed.

Lemma cast_all values counts b : (forall i, 0 <= i < 8 -> 0 <= Array.get 3 counts i) -> 0 <= b -> b + prefix counts 8 <= maxVotes ->
  let c := for_loop 8 0 (fun i c => if c_okay c then cast_votes maxVotes (Array.get 3 values i) (Array.get 3 counts i) c else c) (mkCast 0 b s true) in
  (all_castable (s_proposal s) values counts 8 /\ c_okay c = true /\ c_voteIndex c = b + prefix counts 8 /\
   updated b (b + prefix counts 8) (fun j => nth_value values counts 8 (j - b)) (c_stored c)) \/
  (~ all_castable (s_proposal s) values counts 8 /\ c_okay c = false /\ exists e f, b <= e <= b + prefix counts 8 /\ updated b e f (c_stored c)).
Proof.
  intros Hpos Hb Hend c.
  assert (forall i j, 0 <= i <= j -> j <= 8 -> prefix counts i <= prefix counts j) as Hmono.
  { intros i j Hij Hj. apply (up_to_ind (fun j => prefix counts i <= prefix counts j) i); [lia|lia|]. intros k Hk IH. rewrite prefix_next by lia. specialize (Hpos k ltac:(lia)). lia. }
  pose (P := fun i c => (all_castable (s_proposal s) values counts i /\ c_okay c = true /\ c_voteIndex c = b + prefix counts i /\
     updated b (b + prefix counts i) (fun j => nth_value values counts (Z.to_nat i) (j - b)) (c_stored c)) \/
    (~ all_castable (s_proposal s) values counts i /\ c_okay c = false /\ exists e f, b <= e <= b + prefix counts i /\ updated b e f (c_stored c))).
  change 8 with (0 + Z.of_nat 8). apply (for_loop_ind P).
  - left. split; [intros i Hi; lia|]. split; [done|]. change (prefix counts 0) with 0. rewrite Z.add_0_r. split; [done|]. apply updated_refl.
  - intros i c0 Hi Hc0. change (0 + Z.of_nat 8) with 8 in Hi. pose proof (Hmono i (i + 1) ltac:(lia) ltac:(lia)). pose proof (Hmono (i + 1) 8 ltac:(lia) ltac:(lia)).
    pose proof (Hmono 0 i ltac:(lia) ltac:(lia)) as H0i. change (prefix counts 0) with 0 in H0i. pose proof (Hpos i Hi) as Hpi. pose proof (prefix_next counts i ltac:(lia)) as Hpre.
    destruct Hc0 as [(Hall & Hok & Hidx & Hu)|(Hno & Hok & e & f & He & Hu)].
    + rewrite Hok. destruct (decide (0 < Array.get 3 counts i /\ ~ castable (s_proposal s) (Array.get 3 values i))) as [[Hp Hnc]|Hyes].
      * right. split; [intros Hall'; apply Hnc, Hall'; [lia|done]|]. pose proof Hu as (Hu1 & Hu2 & _).
        destruct (cast_votes_refused (Array.get 3 values i) (Array.get 3 counts i) c0 Hnc Hp Hok ltac:(lia) Hu1 Hu2) as [E1 E2]. split; [done|]. rewrite E2.
        exists (b + prefix counts i), (fun j => nth_value values counts (Z.to_nat i) (j - b)). split; [lia|done].
      * left. rewrite <- Hidx in Hu. split; [|].
        { intros k Hk Hkp. destruct (decide (k = i)) as [->|]; [|apply Hall; [lia|done]]. destruct (decide (castable (s_proposal s) (Array.get 3 values i))); [done|tauto]. }
        assert (c_okay (cast_votes maxVotes (Array.get 3 values i) (Array.get 3 counts i) c0) = true /\
          c_voteIndex (cast_votes maxVotes (Array.get 3 values i) (Array.get 3 counts i) c0) = c_voteIndex c0 + Array.get 3 counts i /\
          updated b (c_voteIndex c0 + Array.get 3 counts i) (fun j => if decide (c_voteIndex c0 <= j) then Array.get 3 values i else nth_value values counts (Z.to_nat i) (j - b))
            (c_stored (cast_votes maxVotes (Array.get 3 values i) (Array.get 3 counts i) c0))) as (E1 & E2 & E3).
        { destruct (decide (0 < Array.get 3 counts i)) as [Hp|Hz].
          - apply cast_votes_ok; [destruct (decide (castable (s_proposal s) (Array.get 3 values i))); [done|tauto]|unfold INVALID_VOTE_INDEX in *; lia|done|lia|lia|done].
          - replace (Array.get 3 counts i) with 0 by lia. unfold cast_votes. rewrite while_loop_done by done. cbn [c_okay c_voteIndex c_stored]. rewrite Z.add_0_r. split; [done|]. split; [done|].
            apply (updated_ext _ _ _ _ _ Hu). intros j Hj. by rewrite decide_False by lia. }
        split; [done|]. split; [lia|]. replace (b + prefix counts (i + 1)) with (c_voteIndex c0 + Array.get 3 counts i) by lia.
        apply (updated_ext _ _ _ _ _ E3). intros j Hj. rewrite Z2Nat.inj_add by lia. rewrite Nat.add_1_r. cbn [nth_value]. rewrite Z2Nat.id by lia. repeat case_decide; done || lia.
    + rewrite Hok. right. split; [intros Hall; apply Hno; intros k Hk; apply Hall; lia|]. split; [done|]. exists e, f. split; [lia|done].
Qed.
End storing.

(** ** Changing the votes of one slot *)
Lemma stored_with_stored p s pv p' : alen (proposals pv) = maxProposals -> in_slots p -> stored (with_stored p s pv) p' = if decide (p' = p) then s else stored pv p'.
Proof.
  intros Hl Hp. unfold stored, with_stored. cbn [proposals]. case_decide as E; [rewrite E; apply aget_aset_eq; lia|by apply aget_aset_ne].
Qed.

Lemma with_stored_id p pv : with_stored p (stored pv p) pv = pv.
Proof. unfold with_stored, stored. rewrite aset_aget_id. by destruct pv. Qed.

(** Only the votes of slot [p] have changed, to [f]. *)
Definition revoted pv pv' (p : Z) (f : Z -> Z) : Prop :=
  voting_ok pv' /\ proposersAndVoters pv' = proposersAndVoters pv /\ (forall p', in_slots p' -> p' <> p -> stored pv' p' = stored pv p') /\
  proposal_in pv' p = proposal_in pv p /\ forall i, in_votes i -> ballot pv' p i = f i.

Lemma updated_revoted p a e f s' pv : voting_ok pv -> in_slots p -> epoch_of pv p <> 0 -> 0 <= a ->
  updated (stored pv p) a e f s' -> (forall i, in_votes i -> a <= i < e -> castable (proposal_in pv p) (f i)) ->
  revoted pv (with_stored p s' pv) p (fun i => if decide (a <= i < e) then f i else ballot pv p i).
Proof.
  intros (Hv & Hl & Hslots) Hp He Ha (Hu1 & Hu2 & Hu3) Hf.
  assert (forall p', stored (with_stored p s' pv) p' = if decide (p' = p) then s' else stored pv p') as Hst by (intros; by apply stored_with_stored).
  assert (forall i, in_votes i -> ballot (with_stored p s' pv) p i = if decide (a <= i < e) then f i else ballot pv p i) as Hb.
  { intros i Hi. unfold ballot. rewrite Hst, decide_True by done. apply Hu3. lia. }
  assert (proposal_in (with_stored p s' pv) p = proposal_in pv p) as Hprop by (unfold proposal_in; by rewrite Hst, decide_True by done).
  split; [|split; [done|split; [intros p' _ Hne; by rewrite Hst, decide_False|split; [done|done]]]].
  split; [done|]. split; [unfold with_stored; cbn [proposals]; by rewrite alen_aset|]. intros p' Hp'. destruct (decide (p' = p)) as [->|Hne].
  - destruct (Hslots p Hp) as [_ Hslot]. unfold slot_ok. rewrite Hst, decide_True by done. split; [done|].
    assert (epoch_of (with_stored p s' pv) p = epoch_of pv p) as Hep by (unfold epoch_of; fold (proposal_in (with_stored p s' pv) p); by rewrite Hprop).
    rewrite Hep, Hprop. rewrite !decide_False in * by done. destruct Hslot as (H1 & H2 & H3). split; [done|]. split; [done|]. intros i Hi. rewrite Hb by done. case_decide; [by apply Hf|by apply H3].
  - apply (same_slot_ok pv); [|by apply Hslots]. split; [by rewrite Hst, decide_False|]. done.
Qed.

(** What a vote must match *)
Definition open_for (q : QpiContext) pv (p type tick : Z) : Prop :=
  p < maxProposals /\ p_type (proposal_in pv p) = type /\ p_epoch (proposal_in pv p) = q_epoch q /\ p_tick (proposal_in pv p) = tick.
Lemma vote_matches_spec q pv p type tick : vote_matches maxProposals q p type tick pv = true <-> open_for q pv p type tick.
Proof.
  unfold vote_matches, open_for, proposal_in. destruct (Z.leb_spec maxProposals p); [split; [done|lia]|].
  destruct (Z.eqb_spec type (p_type (s_proposal (stored pv p)))), (Z.eqb_spec (q_epoch q) (p_epoch (s_proposal (stored pv p)))),
    (Z.eqb_spec tick (p_tick (s_proposal (stored pv p)))); cbn [negb]; split; intros; done || lia.
Qed.

(** The voter has votes in the slot. *)
Definition has_votes (q : QpiContext) pv (p voter : Z) : Prop := voter <> NULL_ID /\ exists i, in_votes i /\ owner q pv p i = voter.

(** The votes of a voter: the first index and the number *)
Definition first_vote (q : QpiContext) pv (p voter : Z) : Z := getVoteIndex q (proposersAndVoters pv) voter p.
Definition vote_total (q : QpiContext) pv (p voter : Z) : Z := getVoteCount q (proposersAndVoters pv) (first_vote q pv p voter) p.

Lemma voter_block q pv p voter : voting_ok pv -> context_ok q -> in_slots p ->
  (first_vote q pv p voter = INVALID_VOTE_INDEX /\ ~ has_votes q pv p voter) \/
  (first_vote q pv p voter <> INVALID_VOTE_INDEX /\ has_votes q pv p voter /\ let b := first_vote q pv p voter in let c := vote_total q pv p voter in
   0 <= b /\ 1 <= c /\ b + c <= maxVotes /\ forall i, in_votes i -> owner q pv p i = voter <-> b <= i < b + c).
Proof.
  intros (Hv & _) Hq Hp. destruct (block_law q (proposersAndVoters pv) p voter Hv Hq Hp) as [[E Hno]|(Hx & Hc & Hb0 & Hb1 & Hb2)].
  - left. split; [done|]. intros (Hne & i & Hi & Ho). apply Hne, (Hno i Hi Ho).
  - right. fold (first_vote q pv p voter) in *. fold (vote_total q pv p voter) in *. split; [unfold INVALID_VOTE_INDEX in *; lia|]. split; [|done].
    split; [done|]. exists (first_vote q pv p voter). split; [lia|]. apply Hb2; lia.
Qed.

Lemma open_slot q pv p type tick : voting_ok pv -> 0 < q_epoch q -> 0 <= p -> open_for q pv p type tick ->
  in_slots p /\ epoch_of pv p <> 0 /\ stored_ok (stored pv p) /\ checkValidity (proposal_in pv p) = true /\ forall i, in_votes i -> castable (proposal_in pv p) (ballot pv p i).
Proof.
  intros (_ & _ & Hslots) Hq Hp (Hlt & _ & He & _). assert (in_slots p) as Hin by lia. destruct (Hslots p Hin) as [H1 H2].
  assert (epoch_of pv p <> 0) as Hne by (unfold epoch_of; fold (proposal_in pv p); lia). rewrite decide_False in H2 by done. tauto.
Qed.

(** The effect of a vote with one value *)
Lemma vote_effect q voter v pv : voting_ok pv -> context_ok q -> 0 < q_epoch q -> 0 <= v_proposalIndex v ->
  let p := v_proposalIndex v in let '(pv', okay) := vote maxProposals maxVotes q voter v pv in
  (okay = true <-> open_for q pv p (v_proposalType v) (v_proposalTick v) /\ has_votes q pv p voter /\ castable (proposal_in pv p) (v_voteValue v)) /\
  (okay = false -> pv' = pv) /\ (okay = true -> revoted pv pv' p (fun i => if decide (owner q pv p i = voter) then v_voteValue v else ballot pv p i)).
Proof.
  intros Hok Hq He Hp0. cbv zeta. unfold vote. destruct (vote_matches maxProposals q (v_proposalIndex v) (v_proposalType v) (v_proposalTick v) pv) eqn:Hm; cbn [negb].
  2: { split; [|done]. rewrite <- vote_matches_spec, Hm. split; [done|]. tauto. }
  apply vote_matches_spec in Hm. destruct (open_slot _ _ _ _ _ Hok He Hp0 Hm) as (Hp & Hep & Hst & Hval & Hcast). set (p := v_proposalIndex v) in *.
  fold (first_vote q pv p voter). fold (vote_total q pv p voter).
  destruct (voter_block q pv p voter Hok Hq Hp) as [[-> Hno]|(Hne & Hhas & Hb & Hc & Hbc & Hown)]; [rewrite Z.eqb_refl; split; [split; [done|tauto]|done]|].
  rewrite (proj2 (Z.eqb_neq _ _)) by done. pose proof (set_equal_votes_spec (stored pv p) Hst Hval (v_voteValue v) (Z.to_nat (vote_total q pv p voter)) (first_vote q pv p voter)
    Hb ltac:(lia) ltac:(lia)) as Hset. case_decide as Hcv.
  - destruct Hset as (s' & -> & Hu). split; [split; [|done]; intros _; tauto|]. split; [done|]. intros _.
    rewrite Z2Nat.id in Hu by lia. destruct (updated_revoted p _ _ _ s' pv Hok Hp Hep Hb Hu ltac:(done)) as (R1 & R2 & R3 & R4 & R5).
    split; [done|]. split; [done|]. split; [done|]. split; [done|]. intros i Hi. rewrite R5 by done. specialize (Hown i Hi). repeat case_decide; tauto.
  - rewrite Hset. rewrite with_stored_id. split; [split; [done|tauto]|]. done.
Qed.

(** The effect of votes with several values.  The counts are 32-bit numbers; those of [counts_ok] add up to one. *)
Definition counts_typed (counts : list Z) : Prop := forall i, 0 <= i < 8 -> is_u32 (Array.get 3 counts i).
Definition counts_ok (counts : list Z) : Prop := counts_typed counts /\ prefix counts 8 < 2 ^ 32.

(** The sum that the code computes *)
Definition sent (v : MultiVote) : Z := u32 (prefix (m_voteCounts v) 8).
Lemma sent_votes v : for_loop 8 0 (fun i n => u32 (n + Array.get 3 (m_voteCounts v) i)) 0 = sent v.
Proof.
  apply (for_loop_ind (fun i n => n = u32 (prefix (m_voteCounts v) i)) _ 8 0); [done|]. intros i n Hi ->. rewrite prefix_next by lia. unfold u32. by rewrite Zplus_mod_idemp_l.
Qed.
Lemma sent_small v : counts_ok (m_voteCounts v) -> sent v = prefix (m_voteCounts v) 8.
Proof.
  intros [Hpos Hsum]. apply u32_small. unfold is_u32. split; [|done]. apply sumZ_nonneg. intros k Hk. by apply Hpos.
Qed.

(** The values are allowed; without any count the first value is for all votes. *)
Definition values_ok (p : ProposalData) (v : MultiVote) : Prop :=
  if decide (sent v = 0) then castable p (Array.get 3 (m_voteValues v) 0) else all_castable p (m_voteValues v) (m_voteCounts v) 8.

(** What the [d]-th vote of the voter becomes *)
Definition multi_value (v : MultiVote) (d : Z) : Z :=
  if decide (sent v = 0) then Array.get 3 (m_voteValues v) 0
  else if decide (d < sent v) then nth_value (m_voteValues v) (m_voteCounts v) 8 d else NO_VOTE_VALUE.

Lemma nth_value_castable p values counts n d : all_castable p values counts (Z.of_nat n) -> (forall i, 0 <= i < Z.of_nat n -> 0 <= Array.get 3 counts i) ->
  0 <= d < prefix counts (Z.of_nat n) -> castable p (nth_value values counts n d).
Proof.
  induction n as [|n IH]; intros Hall Hpos Hd; cbn [nth_value]; [by left|].
  replace (Z.of_nat (S n)) with (Z.of_nat n + 1) in * by lia. rewrite prefix_next in Hd by lia. case_decide.
  - apply Hall; lia.
  - apply IH; [intros k Hk; apply Hall; lia|intros k Hk; apply Hpos; lia|lia].
Qed.

(** No vote is valid for every proposal. *)
Lemma no_votes_updated s a e f s' e' : 0 <= a -> updated s a e f s' -> stored_ok s -> checkValidity (s_proposal s) = true -> a <= e <= e' -> e' <= maxVotes ->
  updated s a e' (fun _ => NO_VOTE_VALUE) (fill_no_votes maxVotes a e' s').
Proof.
  intros Ha (Hu1 & Hu2 & Hu3) Hs Hval He He'. rewrite <- Hu2 in Hval.
  pose proof (fill_no_votes_spec s' Hval a a (fun _ => NO_VOTE_VALUE) s' e' ltac:(lia) ltac:(lia) (updated_refl s' Hu1 a _)) as (F1 & F2 & F3).
  split; [done|]. split; [congruence|]. intros j Hj. rewrite F3, Hu3 by done. repeat case_decide; done || lia.
Qed.

(** The voter may cast [n] votes of the slot. *)
Definition entitled (q : QpiContext) pv (p type tick voter n : Z) : Prop := open_for q pv p type tick /\ has_votes q pv p voter /\ n <= vote_total q pv p voter.

Lemma multi_refused q voter v pv : voting_ok pv -> context_ok q -> 0 < q_epoch q -> 0 <= m_proposalIndex v ->
  ~ entitled q pv (m_proposalIndex v) (m_proposalType v) (m_proposalTick v) voter (sent v) -> voteMulti maxProposals maxVotes q voter v pv = (pv, false).
Proof.
  intros Hok Hq He Hp0 Hno. unfold voteMulti. destruct (vote_matches maxProposals q (m_proposalIndex v) (m_proposalType v) (m_proposalTick v) pv) eqn:Hm; cbn [negb]; [|done].
  apply vote_matches_spec in Hm. destruct (open_slot _ _ _ _ _ Hok He Hp0 Hm) as (Hp & _). fold (first_vote q pv (m_proposalIndex v) voter). fold (vote_total q pv (m_proposalIndex v) voter). rewrite sent_votes.
  destruct (voter_block q pv (m_proposalIndex v) voter Hok Hq Hp) as [[-> _]|(Hne & Hhas & _)]; [by rewrite Z.eqb_refl|]. rewrite (proj2 (Z.eqb_neq _ _)) by done.
  destruct (Z.ltb_spec (vote_total q pv (m_proposalIndex v) voter) (sent v)); [done|]. by destruct Hno.
Qed.

(** What an entitled voter's call does, by the sum of the counts *)
Section entitled.
Variables (q : QpiContext) (voter : Z) (v : MultiVote).
Variable pv : ProposalVoting V.
Notation p := (m_proposalIndex v).
Hypothesis Hok : voting_ok pv.
Hypothesis Hq : context_ok q.
Hypothesis He : 0 < q_epoch q.
Hypothesis Hp0 : 0 <= m_proposalIndex v.
Hypothesis Hent : entitled q pv p (m_proposalType v) (m_proposalTick v) voter (sent v).
Notation b := (first_vote q pv p voter).
Notation c := (vote_total q pv p voter).

Lemma entitled_slot : in_slots p /\ epoch_of pv p <> 0 /\ stored_ok (stored pv p) /\ checkValidity (proposal_in pv p) = true /\
  0 <= b /\ 1 <= c /\ b + c <= maxVotes /\ (forall i, in_votes i -> owner q pv p i = voter <-> b <= i < b + c) /\
  voteMulti maxProposals maxVotes q voter v pv =
    if sent v =? 0 then
      let '(s, okay) := set_equal_votes maxVotes (Z.to_nat c) b (Array.get 3 (m_voteValues v) 0) (stored pv p) in
      (with_stored p (if okay then s else fill_no_votes maxVotes b (b + c) s) pv, okay)
    else
      let c' := for_loop 8 0 (fun i c => if c_okay c then cast_votes maxVotes (Array.get 3 (m_voteValues v) i) (Array.get 3 (m_voteCounts v) i) c else c) (mkCast 0 b (stored pv p) true) in
      (with_stored p (fill_no_votes maxVotes (if c_okay c' then c_voteIndex c' else b) (b + c) (c_stored c')) pv, c_okay c').
Proof.
  destruct Hent as (Hopen & Hhas & Hle). destruct (open_slot _ _ _ _ _ Hok He Hp0 Hopen) as (Hp & Hep & Hst & Hval & _).
  destruct (voter_block q pv p voter Hok Hq Hp) as [[_ Hno]|(Hne & _ & Hb & Hc & Hbc & Hown)]; [done|]. do 8 (split; [done|]).
  unfold voteMulti. rewrite (proj2 (vote_matches_spec q pv p (m_proposalType v) (m_proposalTick v)) Hopen). cbn [negb]. fold (first_vote q pv p voter). fold (vote_total q pv p voter). rewrite sent_votes.
  rewrite (proj2 (Z.eqb_neq _ _)) by done. rewrite (proj2 (Z.ltb_ge _ _)) by done. rewrite u32_small by (unfold is_u32, INVALID_VOTE_INDEX in *; lia). replace (b + c - b) with c by lia. done.
Qed.

(** The ballots of the voter become [f], those up to [e] as well. *)
Lemma voter_revoted e f s' : b + c <= e -> updated (stored pv p) b e f s' -> (forall i, in_votes i -> b <= i < e -> castable (proposal_in pv p) (f i)) ->
  revoted pv (with_stored p s' pv) p (fun i => if decide (owner q pv p i = voter) then f i else if decide (b <= i < e) then f i else ballot pv p i).
Proof.
  destruct entitled_slot as (Hp & Hep & _ & _ & Hb & _ & _ & Hown & _). intros Hle Hu Hf. destruct (updated_revoted p b e f s' pv Hok Hp Hep Hb Hu Hf) as (R1 & R2 & R3 & R4 & R5).
  split; [done|]. split; [done|]. split; [done|]. split; [done|]. intros i Hi. rewrite R5 by done. specialize (Hown i Hi). repeat case_decide; tauto || lia.
Qed.
Lemma own_revoted f s' : updated (stored pv p) b (b + c) f s' -> (forall i, in_votes i -> b <= i < b + c -> castable (proposal_in pv p) (f i)) ->
  revoted pv (with_stored p s' pv) p (fun i => if decide (owner q pv p i = voter) then f i else ballot pv p i).
Proof.
  intros Hu Hf. destruct (voter_revoted (b + c) f s' ltac:(lia) Hu Hf) as (R1 & R2 & R3 & R4 & R5). destruct entitled_slot as (_ & _ & _ & _ & _ & _ & _ & Hown & _).
  split; [done|]. split; [done|]. split; [done|]. split; [done|]. intros i Hi. rewrite R5 by done. specialize (Hown i Hi). repeat case_decide; tauto.
Qed.

(** A sum of 0 stands for all votes, with the first value. *)
Lemma multi_equal : sent v = 0 -> let '(pv', okay) := voteMulti maxProposals maxVotes q voter v pv in
  (okay = true <-> castable (proposal_in pv p) (Array.get 3 (m_voteValues v) 0)) /\
  revoted pv pv' p (fun i => if decide (owner q pv p i = voter) then (if okay then Array.get 3 (m_voteValues v) 0 else NO_VOTE_VALUE) else ballot pv p i).
Proof.
  intros Hz. destruct entitled_slot as (Hp & Hep & Hst & Hval & Hb & Hc & Hbc & Hown & ->). rewrite Hz, Z.eqb_refl.
  pose proof (set_equal_votes_spec (stored pv p) Hst Hval (Array.get 3 (m_voteValues v) 0) (Z.to_nat c) b Hb ltac:(lia) ltac:(lia)) as Hset. rewrite Z2Nat.id in Hset by lia. case_decide as Hcv.
  - destruct Hset as (s' & -> & Hu). split; [by split|]. by apply (own_revoted (fun _ => Array.get 3 (m_voteValues v) 0)).
  - rewrite Hset. split; [by split|]. apply (own_revoted (fun _ => NO_VOTE_VALUE)); [|intros; by left].
    exact (no_votes_updated _ b b _ _ (b + c) Hb (updated_refl _ Hst b (fun _ => NO_VOTE_VALUE)) Hst Hval ltac:(lia) Hbc).
Qed.

(** The counts add up to at most the votes of the voter. *)
Lemma multi_distinct : counts_ok (m_voteCounts v) -> sent v <> 0 -> let '(pv', okay) := voteMulti maxProposals maxVotes q voter v pv in
  (okay = true <-> all_castable (proposal_in pv p) (m_voteValues v) (m_voteCounts v) 8) /\
  revoted pv pv' p (fun i => if decide (owner q pv p i = voter) then (if okay then (if decide (i - b < sent v) then nth_value (m_voteValues v) (m_voteCounts v) 8 (i - b) else NO_VOTE_VALUE) else NO_VOTE_VALUE) else ballot pv p i).
Proof.
  intros Hcounts Hnz. destruct entitled_slot as (Hp & Hep & Hst & Hval & Hb & Hc & Hbc & Hown & ->). rewrite (proj2 (Z.eqb_neq _ _)) by done. pose proof (sent_small v Hcounts) as Esent. destruct Hent as (_ & _ & Hle).
  assert (forall i, 0 <= i < 8 -> 0 <= Array.get 3 (m_voteCounts v) i) as Hpos by (intros i Hi; by apply Hcounts). assert (0 <= sent v) as Hs0 by apply u32_range.
  cbv zeta. destruct (cast_all (stored pv p) Hst Hval (m_voteValues v) (m_voteCounts v) b Hpos Hb ltac:(lia)) as [(Hall & -> & -> & Hu)|(Hnall & -> & e & f & Hle' & Hu)]; rewrite <- Esent in *.
  - split; [by split|]. pose proof (fill_no_votes_spec (stored pv p) Hval b (b + sent v) _ _ (b + c) ltac:(lia) ltac:(lia) Hu) as Hfill.
    apply own_revoted.
    + apply (updated_ext _ _ _ _ _ _ Hfill). intros j Hj. repeat case_decide; done || lia.
    + intros i _ Hi. case_decide; [|by left]. apply nth_value_castable; [done|done|]. change (Z.of_nat 8) with 8. lia.
  - split; [by split|]. apply (own_revoted (fun _ => NO_VOTE_VALUE)); [|intros; by left]. exact (no_votes_updated _ b e f _ (b + c) Hb Hu Hst Hval ltac:(lia) Hbc).
Qed.

Lemma multi_effect : counts_typed (m_voteCounts v) -> prefix (m_voteCounts v) 8 < 2 ^ 32 \/ sent v = 0 -> let '(pv', okay) := voteMulti maxProposals maxVotes q voter v pv in
  (okay = true <-> values_ok (proposal_in pv p) v) /\
  revoted pv pv' p (fun i => if decide (owner q pv p i = voter) then (if okay then multi_value v (i - b) else NO_VOTE_VALUE) else ballot pv p i).
Proof.
  intros Hty Hsum. unfold values_ok, multi_value. case_decide as Hz; [by apply multi_equal|]. apply multi_distinct; [|done]. split; [done|]. destruct Hsum; [done|congruence].
Qed.

(** The counts add up to 2^32 or more, and the sum modulo 2^32 passes: the votes are set, beyond those of the voter, up to the first that is refused, and then those of the voter are taken back. *)
Lemma multi_overflow : counts_typed (m_voteCounts v) -> 2 ^ 32 <= prefix (m_voteCounts v) 8 -> sent v <> 0 ->
  exists pv' e, voteMulti maxProposals maxVotes q voter v pv = (pv', false) /\ stops 8 (proposal_in pv p) (m_voteValues v) (m_voteCounts v) b e /\
    revoted pv pv' p (fun i => if decide (owner q pv p i = voter) then NO_VOTE_VALUE else if decide (b <= i < e) then nth_value (m_voteValues v) (m_voteCounts v) 8 (i - b) else ballot pv p i).
Proof.
  intros Hty Hbig Hnz. destruct entitled_slot as (Hp & Hep & Hst & Hval & Hb & Hc & Hbc & Hown & ->). rewrite (proj2 (Z.eqb_neq _ _)) by done.
  cbv zeta. destruct (cast_all_over (stored pv p) Hst Hval (m_voteValues v) (m_voteCounts v) b Hty ltac:(lia)) as (-> & e & Hstop & Hu); [unfold INVALID_VOTE_INDEX in *; lia|].
  eexists _, e. split; [done|]. split; [exact Hstop|]. destruct Hstop as (S1 & S2 & _). set (s1 := c_stored _) in *. destruct Hu as (U1 & U2 & U3).
  pose proof (fill_no_votes_spec s1 ltac:(by rewrite U2) b b (fun _ => NO_VOTE_VALUE) s1 (b + c) ltac:(lia) ltac:(lia) (updated_refl s1 U1 b _)) as (F1 & F2 & F3).
  set (f := fun j => if decide (j < b + c) then NO_VOTE_VALUE else nth_value (m_voteValues v) (m_voteCounts v) 8 (j - b)).
  destruct (voter_revoted (Z.max e (b + c)) f (fill_no_votes maxVotes b (b + c) s1)) as (R1 & R2 & R3 & R4 & R5); [lia| | |].
  - split; [done|]. split; [congruence|]. intros j Hj. rewrite F3, U3 by done. unfold f. repeat case_decide; done || lia.
  - intros i Hi Hr. unfold f. case_decide; [by left|]. apply S2. lia.
  - split; [done|]. split; [done|]. split; [done|]. split; [done|]. intros i Hi. rewrite R5 by done. specialize (Hown i Hi). unfold f. repeat case_decide; (done || tauto || lia).
Qed.
End entitled.

(** ** Proposals *)
Lemma clear_effect p pv : voting_ok pv -> in_slots p ->
  exists pv', clearProposal maxProposals maxVotes p pv = (pv', true) /\ voting_ok pv' /\ epoch_of pv' p = 0 /\ proposer_in pv' p = NULL_ID /\
    forall j, in_slots j -> j <> p -> same_slot pv pv' j.
Proof.
  intros (Hv & Hl & Hslots) Hp. unfold clearProposal. rewrite (proj2 (Z.leb_gt _ _)) by lia. eexists. split; [done|].
  destruct (free_law (proposersAndVoters pv) p Hv Hp) as (F1 & F2 & F3).
  assert (forall j, in_slots j -> j <> p -> same_slot pv (mkVoting (freeProposalByIndex p (proposersAndVoters pv)) ((proposals pv).[p := zero_proposal maxVotes])) j) as Hsame.
  { intros j Hj Hne. split; [unfold stored; cbn [proposals]; by rewrite aget_aset_ne|]. split; [unfold proposer_in; cbn [proposersAndVoters]; rewrite F2 by done; by rewrite decide_False|].
    intros q i. unfold owner. cbn [proposersAndVoters]. by apply F3. }
  assert (stored (mkVoting (freeProposalByIndex p (proposersAndVoters pv)) ((proposals pv).[p := zero_proposal maxVotes])) p = zero_proposal maxVotes) as Hz.
  { unfold stored. cbn [proposals]. apply aget_aset_eq. lia. }
  assert (proposer_in (mkVoting (freeProposalByIndex p (proposersAndVoters pv)) ((proposals pv).[p := zero_proposal maxVotes])) p = NULL_ID) as Hn.
  { unfold proposer_in. cbn [proposersAndVoters]. rewrite F2 by done. by rewrite decide_True. }
  split; [|split; [unfold epoch_of; by rewrite Hz|split; [done|done]]].
  split; [done|]. split; [cbn [proposals]; by rewrite alen_aset|]. intros j Hj. destruct (decide (j = p)) as [->|Hne].
  - unfold slot_ok, epoch_of. rewrite Hz, Hn. split; [apply zero_ok|]. by rewrite decide_True.
  - apply (same_slot_ok pv); [by apply Hsame|by apply Hslots].
Qed.

(** A slot whose proposer has been registered gets the proposal. *)
Definition new_poll (q : QpiContext) (proposer : Z) (proposal : ProposalData) pv (p : Z) : Prop :=
  proposal_in pv p = with_tick_epoch (q_tick q) (q_epoch q) proposal /\ proposer_in pv p = proposer /\
  forall i, in_votes i -> ballot pv p i = NO_VOTE_VALUE /\ owner q pv p i = new_roll q i.

Lemma enter_effect q proposer proposal pv voters p : voting_ok pv -> context_ok q -> 0 < q_epoch q -> proposer <> NULL_ID -> checkValidity proposal = true ->
  getNewProposalIndex q proposer (proposersAndVoters pv) = (voters, p) -> p <> INVALID_PROPOSAL_INDEX ->
  exists pv', enter_proposal maxVotes q proposal p (mkVoting voters (proposals pv)) = (pv', p) /\ in_slots p /\ voting_ok pv' /\ new_poll q proposer proposal pv' p /\
    (forall j, in_slots j -> j <> p -> same_slot pv pv' j) /\ (proposer_in pv p = proposer \/ proposer_in pv p = NULL_ID /\ forall j, in_slots j -> proposer_in pv j <> proposer).
Proof.
  intros (Hv & Hl & Hslots) Hq He Hx Hval Hnew Hp. pose proof (new_law q (proposersAndVoters pv) proposer Hv Hq Hx) as Hlaw. rewrite Hnew in Hlaw.
  destruct Hlaw as [[E _]|(Hin & Hv' & Hcase & Hprop & Hroll & Hnr)]; [done|]. unfold enter_proposal.
  destruct (set_law proposal (stored (mkVoting voters (proposals pv)) p) Hval) as (s' & -> & Hs1 & Hs2 & Hs3).
  set (s1 := mkStored (with_tick_epoch (q_tick q) (q_epoch q) (s_proposal s')) (s_votes s')). eexists. split; [done|]. split; [done|].
  assert (forall j, stored (with_stored p s1 (mkVoting voters (proposals pv))) j = if decide (j = p) then s1 else stored pv j) as Hst.
  { intros j. rewrite stored_with_stored by done. done. }
  assert (forall j, in_slots j -> j <> p -> same_slot pv (with_stored p s1 (mkVoting voters (proposals pv))) j) as Hsame.
  { intros j Hj Hne. split; [by rewrite Hst, decide_False|]. split; [unfold proposer_in; cbn [with_stored proposersAndVoters]; rewrite Hprop by done; by rewrite decide_False|].
    intros q' i. unfold owner. cbn [with_stored proposersAndVoters]. by apply Hroll. }
  assert (new_poll q proposer proposal (with_stored p s1 (mkVoting voters (proposals pv))) p) as Hpoll.
  { split; [unfold proposal_in; rewrite Hst, decide_True by done; unfold s1; cbn [s_proposal]; by rewrite Hs2|].
    split; [unfold proposer_in; cbn [with_stored proposersAndVoters]; rewrite Hprop by done; by rewrite decide_True|].
    intros i Hi. split; [|unfold owner; cbn [with_stored proposersAndVoters]; by apply Hnr]. unfold ballot. rewrite Hst, decide_True by done. unfold s1. rewrite get_proposal. apply Hs3. lia. }
  split; [|split; [done|split; [done|done]]]. split; [done|]. split; [cbn [with_stored proposals]; by rewrite alen_aset|].
  intros j Hj. destruct (decide (j = p)) as [->|Hne]; [|apply (same_slot_ok pv); [by apply Hsame|by apply Hslots]].
  destruct Hpoll as (P1 & P2 & P3). unfold slot_ok, epoch_of. fold (proposal_in (with_stored p s1 (mkVoting voters (proposals pv))) p). rewrite P1, P2.
  split; [rewrite Hst, decide_True by done; unfold s1; by apply stored_ok_proposal|]. cbn [with_tick_epoch p_epoch]. rewrite decide_False by lia. split; [done|].
  rewrite checkValidity_tick_epoch. split; [done|]. intros i Hi. destruct (P3 i Hi) as [-> _]. by left.
Qed.

Lemma oldest_before_spec epoch pv none : maxProposals <= none -> let r := oldest_before maxProposals epoch pv none in
  (r = none /\ forall j, in_slots j -> epoch <= epoch_of pv j) \/ (in_slots r /\ epoch_of pv r < epoch /\ forall j, in_slots j -> epoch_of pv r <= epoch_of pv j).
Proof.
  intros Hnone r. unfold r, oldest_before.
  pose (P := fun i (st : Z * Z) => (st = (none, epoch) /\ forall j, 0 <= j < i -> epoch <= epoch_of pv j) \/
    (0 <= st.1 < i /\ st.2 = epoch_of pv st.1 /\ st.2 < epoch /\ forall j, 0 <= j < i -> st.2 <= epoch_of pv j)).
  assert (P (0 + Z.of_nat (Z.to_nat maxProposals)) (for_loop (Z.to_nat maxProposals) 0 (fun i '(proposalIndex, minEpoch) =>
     if epoch_of pv i <? minEpoch then (i, epoch_of pv i) else (proposalIndex, minEpoch)) (none, epoch))) as Hend.
  { apply (for_loop_ind P).
    - left. split; [done|lia].
    - intros i [pi me] Hi HP. unfold P in *. cbn [fst snd] in *. destruct (Z.ltb_spec (epoch_of pv i) me) as [Hlt|Hge]; cbn [fst snd].
      + right. split; [lia|]. split; [done|]. destruct HP as [[[= -> ->] Hj]|(H1 & H2 & H3 & H4)].
        * split; [done|]. intros j Hj'. destruct (decide (j = i)) as [->|]; [lia|]. specialize (Hj j ltac:(lia)). lia.
        * split; [lia|]. intros j Hj'. destruct (decide (j = i)) as [->|]; [lia|]. specialize (H4 j ltac:(lia)). lia.
      + destruct HP as [[[= -> ->] Hj]|(H1 & H2 & H3 & H4)].
        * left. split; [done|]. intros j Hj'. destruct (decide (j = i)) as [->|]; [done|]. apply Hj. lia.
        * right. split; [lia|]. split; [done|]. split; [done|]. intros j Hj'. destruct (decide (j = i)) as [->|]; [done|]. apply H4. lia. }
  destruct (for_loop _ _ _ _) as [r' me]. unfold P in Hend. cbn [fst snd] in *. rewrite Z.add_0_l, Z2Nat.id in Hend by lia.
  destruct Hend as [[[= -> ->] Hj]|(H1 & H2 & H3 & H4)]; [by left|]. right. split; [done|]. split; [lia|]. intros j Hj. rewrite <- H2. by apply H4.
Qed.

(** No slot can be had: every one holds a proposal of somebody else from the current epoch. *)
Definition no_slot (q : QpiContext) (proposer : Z) pv : Prop :=
  forall j, in_slots j -> proposer_in pv j <> proposer /\ proposer_in pv j <> NULL_ID /\ q_epoch q <= epoch_of pv j.
(** The slot that a proposal gets: the proposer's own, else an empty one, else one of the oldest epoch before the current *)
Definition chosen (q : QpiContext) (proposer : Z) pv (p : Z) : Prop :=
  proposer_in pv p = proposer \/
  (forall j, in_slots j -> proposer_in pv j <> proposer) /\
  (proposer_in pv p = NULL_ID \/ (forall j, in_slots j -> proposer_in pv j <> NULL_ID) /\ epoch_of pv p < q_epoch q /\ forall j, in_slots j -> epoch_of pv p <= epoch_of pv j).

Lemma set_effect q proposer proposal pv : voting_ok pv -> context_ok q -> 0 < q_epoch q -> p_epoch proposal <> 0 ->
  let '(pv', p) := setProposal maxProposals maxVotes q proposer proposal pv in
  (p = INVALID_PROPOSAL_INDEX /\ pv' = pv /\
   (checkValidity proposal = false \/ isValidProposer q (proposersAndVoters pv) proposer = false \/ no_slot q proposer pv)) \/
  (in_slots p /\ checkValidity proposal = true /\ isValidProposer q (proposersAndVoters pv) proposer = true /\ voting_ok pv' /\ chosen q proposer pv p /\
   new_poll q proposer proposal pv' p /\ forall j, in_slots j -> j <> p -> same_slot pv pv' j).
Proof.
  intros Hok Hq He Hep. unfold setProposal. rewrite (proj2 (Z.eqb_neq _ _)) by done.
  destruct (checkValidity proposal) eqn:Hval; cbn [negb]; [|left; tauto].
  destruct (isValidProposer q (proposersAndVoters pv) proposer) eqn:Hvp; cbn [negb]; [|left; tauto].
  pose proof (proposer_nonzero q (proposersAndVoters pv) proposer Hq Hvp) as Hx. pose proof Hok as (Hv & Hl & Hslots).
  pose proof (new_law q (proposersAndVoters pv) proposer Hv Hq Hx) as Hlaw. destruct (getNewProposalIndex q proposer (proposersAndVoters pv)) as [voters p] eqn:Hnew.
  destruct Hlaw as [(-> & -> & Hfull)|(Hin & _ & _)].
  - rewrite (proj2 (Z.leb_le _ _)) by lia. replace (mkVoting (proposersAndVoters pv) (proposals pv)) with pv by (by destruct pv).
    destruct (oldest_before_spec (q_epoch q) pv INVALID_PROPOSAL_INDEX) as [[-> Hold]|(Hin & Hlt & Hmin)]; [lia| |].
    + rewrite (proj2 (Z.leb_le _ _)) by lia. left. split; [done|]. split; [done|]. right. right. intros j Hj. destruct (Hfull j Hj). split; [done|]. split; [done|]. by apply Hold.
    + set (o := oldest_before maxProposals (q_epoch q) pv INVALID_PROPOSAL_INDEX) in *. rewrite (proj2 (Z.leb_gt _ _)) by lia.
      destruct (clear_effect o pv Hok Hin) as (pv1 & -> & Hok1 & He1 & Hn1 & Hsame1).
      pose proof (new_law q (proposersAndVoters pv1) proposer (proj1 Hok1) Hq Hx) as Hlaw1. destruct (getNewProposalIndex q proposer (proposersAndVoters pv1)) as [voters1 p1] eqn:Hnew1.
      destruct Hlaw1 as [(-> & -> & Hfull1)|(Hin1 & _ & Hcase1 & _)]; [destruct (Hfull1 o Hin) as [_ []]; exact Hn1|].
      assert (p1 = o) as ->.
      { destruct (decide (p1 = o)) as [|Hne]; [done|]. destruct (Hsame1 p1 Hin1 Hne) as (_ & E & _). unfold proposer_in in E. destruct (Hfull p1 Hin1) as [N1 N2]. rewrite E in Hcase1. tauto. }
      destruct (enter_effect q proposer proposal pv1 voters1 o Hok1 Hq He Hx Hval Hnew1 ltac:(lia)) as (pv2 & -> & _ & Hok2 & Hpoll & Hsame2 & _).
      right. split; [done|]. split; [done|]. split; [done|]. split; [done|]. split; [|split; [done|]].
      * right. split; [intros j Hj; by apply Hfull|]. right. split; [intros j Hj; by apply Hfull|]. done.
      * intros j Hj Hne. destruct (Hsame1 j Hj Hne) as (A1 & A2 & A3), (Hsame2 j Hj Hne) as (B1 & B2 & B3).
        split; [congruence|]. split; [congruence|]. intros q' i. rewrite B3. apply A3.
  - rewrite (proj2 (Z.leb_gt _ _)) by lia. destruct (enter_effect q proposer proposal pv voters p Hok Hq He Hx Hval Hnew ltac:(lia)) as (pv2 & -> & _ & Hok2 & Hpoll & Hsame & Hcase).
    right. split; [done|]. split; [done|]. split; [done|]. split; [done|]. split; [|done]. destruct Hcase as [?|[? ?]]; [by left|right]. split; [done|]. by left.
Qed.

Lemma clear_by_proposer q proposer proposal pv : voting_ok pv -> p_epoch proposal = 0 ->
  let '(pv', p) := setProposal maxProposals maxVotes q proposer proposal pv in
  (p = INVALID_PROPOSAL_INDEX /\ pv' = pv /\ forall j, in_slots j -> proposer_in pv j = proposer -> proposer = NULL_ID) \/
  (in_slots p /\ proposer <> NULL_ID /\ proposer_in pv p = proposer /\ voting_ok pv' /\ epoch_of pv' p = 0 /\ proposer_in pv' p = NULL_ID /\
   forall j, in_slots j -> j <> p -> same_slot pv pv' j).
Proof.
  intros Hok Hep. unfold setProposal. rewrite Hep. cbn [Z.eqb]. destruct (existing_law (proposersAndVoters pv) proposer (proj1 Hok)) as [[-> Hno]|(Hin & Hx & E)].
  - unfold clearProposal. rewrite (proj2 (Z.leb_le _ _)) by lia. left. done.
  - destruct (clear_effect _ pv Hok Hin) as (pv1 & -> & Hok1 & He1 & Hn1 & Hsame1). right. done.
Qed.
End proposals.
