(* ===== verification/ProposalResults.v ===== *)
(** * Voting results

    The voting summary counts every vote once; the option it accepts is the first of the most voted; the mean of scalar votes is
    computed without overflow, lies between the allowed values, and differs from the exact mean by less than one. *)
From S2P Require Import Prelude Containers ProposalData ProposalVoters ProposalRolls ProposalElectorate ProposalVoting Proposals.

(** ** The most voted option *)
Section options.
Variable s : Summary.
Hypothesis Hoptions : 0 <= s_optionCount s.
Notation votes o := (optionVoteCount s o).

Definition most_voted (o : Z) : Prop :=
  0 <= o < s_optionCount s /\ (forall j, 0 <= j < s_optionCount s -> votes j <= votes o) /\ forall j, 0 <= j < o -> votes j < votes o.

(** The loop over the options, with the votes of the option *)
Lemma most_voted_loop : s_optionCount s <> 0 -> exists o, most_voted o /\
  for_loop (Z.to_nat (s_optionCount s - 1)) 1 (fun optionIndex '(mostVotedOptionIndex, mostVotedOptionVotes) =>
    let optionVotes := votes optionIndex in if mostVotedOptionVotes <? optionVotes then (optionIndex, optionVotes) else (mostVotedOptionIndex, mostVotedOptionVotes)) (0, votes 0) = (o, votes o).
Proof.
  intros Hne. pose (P := fun i (st : Z * Z) => 0 <= st.1 < i /\ st.2 = votes st.1 /\ (forall j, 0 <= j < i -> votes j <= st.2) /\ forall j, 0 <= j < st.1 -> votes j < st.2).
  assert (P (1 + Z.of_nat (Z.to_nat (s_optionCount s - 1))) (for_loop (Z.to_nat (s_optionCount s - 1)) 1 (fun optionIndex '(mostVotedOptionIndex, mostVotedOptionVotes) =>
    let optionVotes := votes optionIndex in if mostVotedOptionVotes <? optionVotes then (optionIndex, optionVotes) else (mostVotedOptionIndex, mostVotedOptionVotes)) (0, votes 0))) as HP.
  { apply (for_loop_ind P).
    - unfold P. cbn [fst snd]. split; [lia|]. split; [done|]. split; [|lia]. intros j Hj. replace j with 0 by lia. lia.
    - intros i [o n] Hi (H1 & H2 & H3 & H4). unfold P. cbn [fst snd] in *. destruct (Z.ltb_spec n (votes i)) as [Hlt|Hge]; cbn [fst snd].
      + split; [lia|]. split; [done|]. split.
        * intros j Hj. destruct (decide (j = i)) as [->|]; [lia|]. specialize (H3 j ltac:(lia)). lia.
        * intros j Hj. specialize (H3 j ltac:(lia)). lia.
      + split; [lia|]. split; [done|]. split; [|done]. intros j Hj. destruct (decide (j = i)) as [->|]; [done|]. apply H3. lia. }
  destruct (for_loop _ _ _ _) as [o n]. unfold P in HP. cbn [fst snd] in *. replace (1 + Z.of_nat (Z.to_nat (s_optionCount s - 1))) with (s_optionCount s) in HP by lia.
  destruct HP as (H1 & -> & H3 & H4). by exists o.
Qed.

Lemma getMostVotedOption_spec : if decide (s_optionCount s = 0) then getMostVotedOption s = -1 else most_voted (getMostVotedOption s).
Proof.
  unfold getMostVotedOption. destruct (Z.eqb_spec (s_optionCount s) 0) as [E|Hne]; [by rewrite decide_True|rewrite decide_False by done].
  destruct (most_voted_loop Hne) as (o & Ho & E). cbv zeta in E. by rewrite E.
Qed.

Lemma most_voted_unique o o' : most_voted o -> most_voted o' -> o = o'.
Proof.
  intros (H1 & H2 & H3) (H1' & H2' & H3'). destruct (decide (o < o')) as [Hlt|]; [specialize (H3' o ltac:(lia)); specialize (H2 o' H1'); lia|].
  destruct (decide (o' < o)) as [Hlt|]; [specialize (H3 o' ltac:(lia)); specialize (H2' o H1); lia|]. lia.
Qed.

Lemma getAcceptedOption_spec T M : let o := getAcceptedOption s T M in
  (o = -1 \/ most_voted o) /\ forall o', most_voted o' -> o = o' <-> T <= s_totalVotesCasted s /\ M < votes o'.
Proof.
  cbv zeta. unfold getAcceptedOption. pose proof getMostVotedOption_spec as Hm. destruct (Z.leb_spec T (s_totalVotesCasted s)) as [Ht|Ht].
  - case_decide as E.
    + rewrite Hm. cbn [Z.leb andb]. split; [by left|]. intros o' (H1 & _). lia.
    + pose proof Hm as (H1 & _). rewrite (proj2 (Z.leb_le 0 _)) by lia. cbn [andb]. destruct (Z.ltb_spec M (votes (getMostVotedOption s))) as [Hv|Hv].
      * split; [by right|]. intros o' Ho'. rewrite (most_voted_unique _ _ Hm Ho') in *. tauto.
      * split; [by left|]. intros o' Ho'. rewrite (most_voted_unique _ _ Hm Ho') in *. destruct Ho' as (? & _). lia.
  - split; [by left|]. intros o' (H1 & _). lia.
Qed.
End options.

(** ** Counting *)
Lemma array3 i : 0 <= i < 8 -> Z.land i (2 ^ Z.of_nat 3 - 1) = i.
Proof. intros Hi. rewrite land_mask by lia. apply Z.mod_small. change (2 ^ Z.of_nat 3) with 8. lia. Qed.

Section counting.
(** [n] votes with values [w], of which at most [options] are options *)
Variables (w : Z -> Z) (options n : Z).
Hypothesis Hoptions : 0 <= options <= 8.
Hypothesis Hn : 0 <= n < 2 ^ 32.
Hypothesis Hw : forall i, 0 <= i < n -> w i = NO_VOTE_VALUE \/ 0 <= w i < options.

Definition tally (i : Z) (st : Z * list Z) : Z * list Z :=
  let '(casted, hist) := st in let value := w i in
  if negb (value =? NO_VOTE_VALUE) && (0 <=? value) && (value <? options) then (u32 (casted + 1), Array.set 3 hist value (u32 (Array.get 3 hist value + 1))) else (casted, hist).

Lemma tally_all : let '(casted, hist) := for_loop (Z.to_nat n) 0 tally (0, replicate 8 0) in
  alen hist = 8 /\ casted = countZ (fun i => negb (w i =? NO_VOTE_VALUE)) (Z.to_nat n) /\
  (forall o, 0 <= o < 8 -> hist.[o] = countZ (fun i => w i =? o) (Z.to_nat n)) /\ sumZ (fun o => hist.[o]) (Z.to_nat options) = casted.
Proof.
  pose (P := fun i (st : Z * list Z) => alen st.2 = 8 /\ st.1 = countZ (fun i => negb (w i =? NO_VOTE_VALUE)) (Z.to_nat i) /\
    (forall o, 0 <= o < 8 -> (st.2).[o] = countZ (fun i => w i =? o) (Z.to_nat i)) /\ sumZ (fun o => (st.2).[o]) (Z.to_nat options) = st.1).
  assert (P (0 + Z.of_nat (Z.to_nat n)) (for_loop (Z.to_nat n) 0 tally (0, replicate 8 0))) as HP.
  { apply (for_loop_ind P).
    - split; [done|]. split; [done|]. cbn [fst snd]. split; [intros o Ho; rewrite aget_replicate by lia; done|]. apply sumZ_zero. intros i Hi. rewrite aget_replicate by lia. done.
    - intros i [casted hist] Hi (H1 & H2 & H3 & H4). cbn [fst snd] in *. unfold tally, P. rewrite !countZ_S by lia. rewrite <- H2.
      pose proof (countZ_range (fun i => negb (w i =? NO_VOTE_VALUE)) (Z.to_nat i)) as Hr.
      destruct (Hw i ltac:(lia)) as [E|Hv].
      + rewrite E. cbn [Z.eqb negb andb fst snd]. rewrite Z.eqb_refl. cbn [negb andb Z.b2z fst snd]. split; [done|]. split; [lia|]. split; [|done].
        intros o Ho. rewrite countZ_S, E, H3 by lia. unfold NO_VOTE_VALUE. rewrite (proj2 (Z.eqb_neq _ _)) by lia. cbn [Z.b2z]. lia.
      + rewrite (proj2 (Z.eqb_neq (w i) NO_VOTE_VALUE)), (proj2 (Z.leb_le 0 (w i))), (proj2 (Z.ltb_lt (w i) options)) by (unfold NO_VOTE_VALUE; lia).
        cbn [negb andb fst snd Z.b2z]. unfold Array.set, Array.get. rewrite array3 by lia. rewrite (u32_small (casted + 1)) by (unfold is_u32; lia).
        assert (hist.[w i] + 1 < 2 ^ 32) as Hh by (rewrite H3 by lia; pose proof (countZ_range (fun k => w k =? w i) (Z.to_nat i)); lia).
        assert (0 <= hist.[w i]) as Hh0 by (rewrite H3 by lia; apply countZ_range). rewrite (u32_small (hist.[w i] + 1)) by (unfold is_u32; lia).
        split; [by rewrite alen_aset|]. split; [done|]. split.
        * intros o Ho. rewrite countZ_S by lia. destruct (decide (o = w i)) as [->|Hne].
          -- rewrite aget_aset_eq, Z.eqb_refl, <- H3 by lia. done.
          -- rewrite aget_aset_ne, (proj2 (Z.eqb_neq (w i) o)), H3 by lia. cbn [Z.b2z]. lia.
        * rewrite (sumZ_update (fun o => hist.[o]) _ _ (w i)); [|lia|].
          -- rewrite aget_aset_eq by lia. lia.
          -- intros j Hj Hne. by apply aget_aset_ne. }
  destruct (for_loop _ _ _ _) as [casted hist]. rewrite Z.add_0_l, Z2Nat.id in HP by lia. exact HP.
Qed.
End counting.

(** ** The mean of scalar votes *)
Definition sum_list (l : list Z) : Z := foldr Z.add 0 l.

Lemma sum_list_bounds lo hi l : Forall (fun v => lo <= v <= hi) l -> alen l * lo <= sum_list l <= alen l * hi.
Proof. induction 1 as [|v l Hv Hf IH]; [done|]. cbn [sum_list foldr]. fold (sum_list l). unfold alen in *. cbn [length]. lia. Qed.

(** Partial sums of numbers that stay within the 64 bits are exact. *)
Lemma fold_s64 (f : Z -> Z) B l : (forall v, v ∈ l -> - B <= f v <= B) -> 0 <= B -> forall acc, - 2 ^ 63 + 1 <= acc - alen l * B -> acc + alen l * B <= 2 ^ 63 - 1 ->
  fold_left (fun acc v => s64 (acc + f v)) l acc = acc + sum_list (map f l).
Proof.
  intros Hf HB. induction l as [|v l IH]; intros acc H1 H2; cbn [fold_left map sum_list foldr]; [lia|]. fold (sum_list (map f l)).
  assert (alen (v :: l) = alen l + 1) as El by (unfold alen; cbn [length]; lia). rewrite El in *. pose proof (Hf v ltac:(left)) as Hv. assert (0 <= alen l) by (unfold alen; lia).
  rewrite s64_small by (unfold is_s64; nia). rewrite IH; [lia|intros x Hx; apply Hf; by right|lia|lia].
Qed.

Lemma fold_count l : forall n, 0 <= n -> n + alen l < 2 ^ 32 -> fold_left (fun n (_ : Z) => u32 (n + 1)) l n = n + alen l.
Proof.
  induction l as [|v l IH]; intros n Hn Hl; cbn [fold_left]; [change (alen (@nil Z)) with 0; lia|]. assert (alen (v :: l) = alen l + 1) as El by (unfold alen; cbn [length]; lia). rewrite El in *.
  assert (0 <= alen l) by (unfold alen; lia). rewrite u32_small by (unfold is_u32; lia). rewrite IH by lia. lia.
Qed.

Lemma fold_pair {A B C} (f : A -> C -> A) (g : B -> C -> B) l : forall a b, fold_left (fun t x => let '(a, b) := t in (f a x, g b x)) l (a, b) = (fold_left f l a, fold_left g l b).
Proof. induction l as [|x l IH]; intros a b; [done|]. cbn [fold_left]. apply IH. Qed.

Section mean.
Context {D : ProposalDataType} (maxVotes : Z) (s : ProposalWithAllVoteData).
Hypothesis Hmv : 0 < maxVotes <= 2 ^ 31.
Hypothesis Hvotes : forall i, 0 <= i < maxVotes -> castable (s_proposal s) (getVoteValue maxVotes i s).
Hypothesis Htype : p_type (s_proposal s) = VariableScalarMean.
Hypothesis Hmin : minSupportedValue <= minValue (s_proposal s).

Definition cast_values : list Z := filter (fun v => v <> NO_VOTE_VALUE) (map (fun i => getVoteValue maxVotes i s) (seqZ 0 maxVotes)).
Notation n := (alen cast_values).
Notation lo := (minValue (s_proposal s)).
Notation hi := (maxValue (s_proposal s)).

Lemma votes_fold_from {T} (f : Z -> T -> T) k : forall i t, for_loop k i (fun i t => vote_or_skip maxVotes s i f t) t =
  fold_left (fun t v => f v t) (filter (fun v => v <> NO_VOTE_VALUE) (map (fun i => getVoteValue maxVotes i s) (seqZ i (Z.of_nat k)))) t.
Proof.
  induction k as [|k IH]; intros i t; [done|]. cbn [for_loop]. rewrite IH.
  rewrite (seqZ_cons i) by lia. cbn [map]. replace (Z.succ i) with (i + 1) by lia. replace (Z.pred (Z.of_nat (S k))) with (Z.of_nat k) by lia.
  unfold vote_or_skip. rewrite filter_cons. destruct (Z.eqb_spec (getVoteValue maxVotes i s) NO_VOTE_VALUE) as [E|E]; cbn [negb].
  - by rewrite decide_False by tauto.
  - by rewrite decide_True by done.
Qed.
Lemma all_votes_fold {T} (f : Z -> T -> T) t : all_votes maxVotes s f t = fold_left (fun t v => f v t) cast_values t.
Proof. unfold all_votes, cast_values. rewrite votes_fold_from, Z2Nat.id by lia. done. Qed.

Lemma cast_values_range : Forall (fun v => lo <= v <= hi) cast_values.
Proof.
  rewrite Forall_forall. intros v [Hv (i & -> & Hi)%list_elem_of_fmap]%list_elem_of_filter. apply elem_of_seqZ in Hi.
  destruct (Hvotes i ltac:(lia)) as [?|[_ Hr]]; [done|]. by rewrite decide_True in Hr.
Qed.

Lemma cast_values_length : 0 <= n <= maxVotes.
Proof.
  unfold alen, cast_values. pose proof (length_filter (fun v => v <> NO_VOTE_VALUE) (map (fun i => getVoteValue maxVotes i s) (seqZ 0 maxVotes))) as Hl.
  rewrite length_map, length_seqZ in Hl. lia.
Qed.

(** The result of a mean: the number of votes and a number less than one from their mean *)
Definition is_mean (r : Z * Z) : Prop :=
  r.1 = n /\ if decide (n = 0) then r.2 = 0 else Z.abs (n * r.2 - sum_list cast_values) < n /\ lo <= r.2 <= hi.

Lemma mean_range m : 0 < n -> Z.abs (n * m - sum_list cast_values) < n -> lo <= m <= hi.
Proof. intros Hn Hm. pose proof (sum_list_bounds lo hi cast_values cast_values_range). nia. Qed.

Lemma hi_range : - 2 ^ 63 <= hi < 2 ^ 63.
Proof. unfold maxValue. apply s64_range. Qed.

Lemma mean_small_spec : hi <= Z.quot maxSupportedValue maxVotes -> Z.quot minSupportedValue maxVotes <= lo -> is_mean (mean_small maxVotes s).
Proof.
  intros Hhi Hlo. unfold mean_small. rewrite all_votes_fold. pose proof cast_values_length as Hl.
  assert (fold_left (fun t v => (let '(n, accumulation) := t in (u32 (n + 1), s64 (accumulation + v)))) cast_values (0, 0) = (n, sum_list cast_values)) as E.
  { etransitivity; [apply (fold_pair (fun n _ => u32 (n + 1)) (fun acc v => s64 (acc + v)))|]. rewrite fold_count by lia.
    rewrite (fold_s64 (fun v => v) (Z.quot maxSupportedValue maxVotes)).
    - rewrite map_id. f_equal; lia.
    - intros v Hv. pose proof cast_values_range as Hr. rewrite Forall_forall in Hr. specialize (Hr v Hv).
      assert (Z.quot minSupportedValue maxVotes = - Z.quot maxSupportedValue maxVotes) as Eq by (rewrite <- Z.quot_opp_l by lia; done). lia.
    - apply Z.quot_pos; unfold maxSupportedValue; lia.
    - rewrite Z.quot_div_nonneg by (unfold maxSupportedValue; lia). assert (maxVotes * (maxSupportedValue / maxVotes) <= maxSupportedValue) by (apply Z.mul_div_le; lia).
      unfold maxSupportedValue in *. assert (0 <= (2 ^ 63 - 1) / maxVotes) by (apply Z.div_pos; lia). nia.
    - rewrite Z.quot_div_nonneg by (unfold maxSupportedValue; lia). assert (maxVotes * (maxSupportedValue / maxVotes) <= maxSupportedValue) by (apply Z.mul_div_le; lia).
      unfold maxSupportedValue in *. assert (0 <= (2 ^ 63 - 1) / maxVotes) by (apply Z.div_pos; lia). nia. }
  rewrite E. split; [done|]. cbn [fst snd]. destruct (Z.eqb_spec n 0) as [E0|Hne]; cbn [negb].
  - rewrite decide_True by done. assert (cast_values = []) as -> by (apply length_zero_iff_nil; unfold alen in E0; lia). done.
  - rewrite decide_False by done. assert (Z.abs (n * Z.quot (sum_list cast_values) n - sum_list cast_values) < n) as Hm.
    { pose proof (Z.quot_rem' (sum_list cast_values) n). pose proof (Z.rem_bound_abs (sum_list cast_values) n Hne). lia. }
    split; [done|]. apply mean_range; [lia|done].
Qed.

Lemma quot_rem_sum m l : m <> 0 -> sum_list l = m * sum_list (map (fun v => Z.quot v m) l) + sum_list (map (fun v => Z.rem v m) l).
Proof.
  intros Hm. induction l as [|v l IH]; [cbn; lia|]. cbn [map sum_list foldr]. fold (sum_list l). fold (sum_list (map (fun v => Z.quot v m) l)). fold (sum_list (map (fun v => Z.rem v m) l)).
  pose proof (Z.quot_rem' v m). lia.
Qed.

Lemma mean_large_spec : is_mean (mean_large maxVotes s).
Proof.
  unfold mean_large. rewrite !all_votes_fold, fold_count by (pose proof cast_values_length; lia). rewrite Z.add_0_l. pose proof cast_values_length as Hl. split; [done|]. cbn [snd].
  destruct (Z.eqb_spec n 0) as [E0|Hne]; cbn [negb]; [by rewrite decide_True|]. rewrite decide_False by done.
  assert (fold_left (fun t v => (let '(accumulation, acc2) := t in (s64 (accumulation + Z.quot v n), s64 (acc2 + Z.rem v n)))) cast_values (0, 0) =
    (sum_list (map (fun v => Z.quot v n) cast_values), sum_list (map (fun v => Z.rem v n) cast_values))) as ->.
  { etransitivity; [apply (fold_pair (fun acc v => s64 (acc + Z.quot v n)) (fun acc v => s64 (acc + Z.rem v n)))|].
    assert (n * (maxSupportedValue / n) <= maxSupportedValue) as Hd by (apply Z.mul_div_le; lia). assert (0 <= maxSupportedValue / n) by (apply Z.div_pos; unfold maxSupportedValue; lia).
    unfold maxSupportedValue in *. f_equal.
    - rewrite (fold_s64 (fun v => Z.quot v n) ((2 ^ 63 - 1) / n)); [lia| |done|lia|lia]. intros v Hv. pose proof cast_values_range as Hr. rewrite Forall_forall in Hr. specialize (Hr v Hv).
      pose proof hi_range. unfold minSupportedValue in Hmin. rewrite <- Z.quot_div_nonneg by lia. rewrite <- Z.quot_opp_l by lia. split; apply Z.quot_le_mono; lia.
    - rewrite (fold_s64 (fun v => Z.rem v n) n); [lia| |lia|nia|nia]. intros v Hv. pose proof (Z.rem_bound_abs v n Hne). lia. }
  pose proof (quot_rem_sum n cast_values Hne) as Hsum. set (Q := sum_list (map (fun v => Z.quot v n) cast_values)) in *. set (R := sum_list (map (fun v => Z.rem v n) cast_values)) in *.
  assert (Z.abs (n * (Q + Z.quot R n) - sum_list cast_values) < n) as Hm.
  { pose proof (Z.quot_rem' R n). pose proof (Z.rem_bound_abs R n Hne). lia. }
  pose proof (mean_range _ ltac:(lia) Hm). pose proof hi_range. unfold minSupportedValue in Hmin. rewrite s64_small by (unfold is_s64; lia). done.
Qed.
End mean.

(** ** The summary of a proposal *)
Lemma scalar_words_result s v : is_s64 v -> s_union s = scalar_words v -> scalarVotingResult s = v.
Proof.
  intros Hv E. unfold scalarVotingResult. rewrite E. change ((scalar_words v).[0]) with (u64 v mod 2 ^ 32). change ((scalar_words v).[1]) with (u64 v / 2 ^ 32).
  rewrite Z.add_comm, <- Z.div_mod by lia. rewrite s64_u64. by apply s64_small.
Qed.

Lemma filter_count (g : Z -> Z) x k : alen (filter (fun v => v <> x) (map g (seqZ 0 (Z.of_nat k)))) = countZ (fun i => negb (g i =? x)) k.
Proof.
  induction k as [|k IH]; [done|]. rewrite seqZ_S, map_app, filter_app, alen_app, IH. cbn [map]. rewrite filter_cons, Z.add_0_l.
  replace (S k) with (Z.to_nat (Z.of_nat k + 1)) by lia. rewrite countZ_S, Nat2Z.id by lia. f_equal.
  destruct (Z.eqb_spec (g (Z.of_nat k)) x) as [E|E]; [rewrite decide_False by tauto|rewrite decide_True by done]; done.
Qed.

Lemma cast_values_count {D : ProposalDataType} maxVotes s : 0 <= maxVotes ->
  alen (cast_values maxVotes s) = countZ (fun i => negb (getVoteValue maxVotes i s =? NO_VOTE_VALUE)) (Z.to_nat maxVotes).
Proof. intros Hn. unfold cast_values. rewrite <- filter_count, Z2Nat.id by done. done. Qed.

Section summary.
Context {V : Type} {H : VoterHandling V} {D : ProposalDataType}.
Variables maxProposals maxVotes : Z.
Context {HL : VoterLaws H maxProposals maxVotes} {DL : ProposalDataLaws D maxVotes}.
Hypothesis Hmv : 0 < maxVotes <= 2 ^ 31.
Implicit Types pv : ProposalVoting V.
Notation ballot := (ballot maxVotes).

Definition votes_for pv (p o : Z) : Z := countZ (fun i => ballot pv p i =? o) (Z.to_nat maxVotes).
Definition votes_cast pv (p : Z) : Z := countZ (fun i => negb (ballot pv p i =? NO_VOTE_VALUE)) (Z.to_nat maxVotes).
Definition known pv (p : Z) : Prop := p < maxProposals /\ epoch_of pv p <> 0.

Lemma unknown_proposal_spec p pv : unknown_proposal maxProposals p pv = false <-> known pv p.
Proof. unfold unknown_proposal, known. rewrite orb_false_iff, Z.leb_gt, Z.eqb_neq. done. Qed.

Lemma known_slot pv p : voting_ok maxProposals maxVotes pv -> 0 <= p -> known pv p ->
  checkValidity (proposal_in pv p) = true /\ forall i, 0 <= i < maxVotes -> castable (proposal_in pv p) (ballot pv p i).
Proof. intros (_ & _ & Hslots) Hp [Hlt He]. destruct (Hslots p ltac:(lia)) as [_ Hs]. rewrite decide_False in Hs by done. tauto. Qed.

(** The heading of a summary *)
Definition summarizes pv (p : Z) (s : Summary) : Prop :=
  s_proposalIndex s = p /\ s_optionCount s = optionCount (p_type (proposal_in pv p)) /\ s_proposalTick s = p_tick (proposal_in pv p) /\
  s_totalVotesAuthorized s = maxVotes /\ s_totalVotesCasted s = votes_cast pv p.

Lemma summary_unknown p summary pv : ~ known pv p -> getVotingSummary maxProposals maxVotes p summary pv = (with_authorized 0 summary, false).
Proof. intros Hk. unfold getVotingSummary. destruct (unknown_proposal maxProposals p pv) eqn:E; [done|]. by apply unknown_proposal_spec in E. Qed.

Lemma summary_options p summary pv : voting_ok maxProposals maxVotes pv -> 0 <= p -> known pv p -> p_type (proposal_in pv p) <> VariableScalarMean ->
  exists s, getVotingSummary maxProposals maxVotes p summary pv = (s, true) /\ summarizes pv p s /\ (forall o, 0 <= o < 8 -> optionVoteCount s o = votes_for pv p o) /\
    sumZ (votes_for pv p) (Z.to_nat (s_optionCount s)) = votes_cast pv p.
Proof.
  intros Hok Hp Hk Ht. destruct (known_slot pv p Hok Hp Hk) as [Hval Hcast]. unfold getVotingSummary. rewrite (proj2 (unknown_proposal_spec p pv) Hk).
  fold (proposal_in pv p). rewrite (proj2 (Z.eqb_neq _ _)) by done. cbn [s_optionCount]. pose proof (checkValidity_options _ Hval) as Ho. pose proof (optionCount_range (p_type (proposal_in pv p))) as Hr.
  set (options := optionCount (p_type (proposal_in pv p))) in *.
  pose proof (tally_all (fun i => ballot pv p i) options maxVotes ltac:(lia) ltac:(lia)) as Htally. cbv beta in Htally.
  assert (forall i, 0 <= i < maxVotes -> ballot pv p i = NO_VOTE_VALUE \/ 0 <= ballot pv p i < options) as Hb.
  { intros i Hi. destruct (Hcast i Hi) as [?|[_ Hc]]; [by left|right]. by rewrite decide_False in Hc. }
  specialize (Htally Hb). unfold tally in Htally. unfold Proposals.ballot in Htally.
  cbv zeta.
  destruct (for_loop _ _ _ _) as [casted hist]. destruct Htally as (Hlen & Hc & Hh & Hs). eexists. split; [done|].
  split; [by repeat split|]. cbn [with_authorized with_results s_union s_optionCount]. split.
  - intros o Ho'. unfold optionVoteCount, Array.get. cbn [s_union with_authorized with_results]. rewrite array3 by done. by apply Hh.
  - transitivity casted; [|done]. rewrite <- Hs. apply sumZ_ext. intros o Ho'. symmetry. apply Hh. lia.
Qed.

Lemma summary_scalar p summary pv : voting_ok maxProposals maxVotes pv -> 0 <= p -> known pv p -> p_type (proposal_in pv p) = VariableScalarMean ->
  exists s, getVotingSummary maxProposals maxVotes p summary pv = (s, true) /\ summarizes pv p s /\ is_mean maxVotes (stored pv p) (votes_cast pv p, scalarVotingResult s).
Proof.
  intros Hok Hp Hk Ht. destruct (known_slot pv p Hok Hp Hk) as [Hval Hcast]. unfold getVotingSummary. rewrite (proj2 (unknown_proposal_spec p pv) Hk).
  destruct (scalar_law _ Hval Ht) as [Hns Hmin].
  fold (proposal_in pv p). rewrite (proj2 (Z.eqb_eq _ _) Ht). unfold getVotingSummaryScalarVotes. rewrite Hns. fold (proposal_in pv p). rewrite (proj2 (Z.eqb_eq _ _) Ht). cbn [negb].
  pose proof (mean_large_spec maxVotes (stored pv p) Hmv Hcast Ht Hmin) as Hlarge. pose proof (mean_small_spec maxVotes (stored pv p) Hmv Hcast Ht) as Hsmall.
  match goal with |- context [if ?c then mean_large _ _ else mean_small _ _] => assert (is_mean maxVotes (stored pv p) (if c then mean_large maxVotes (stored pv p) else mean_small maxVotes (stored pv p))) as Hmean;
    [|destruct (if c then mean_large maxVotes (stored pv p) else mean_small maxVotes (stored pv p)) as [casted v]] end.
  { destruct (Z.ltb_spec (Z.quot maxSupportedValue maxVotes) (maxValue (proposal_in pv p))), (Z.ltb_spec (minValue (proposal_in pv p)) (Z.quot minSupportedValue maxVotes)); cbn [orb]; auto. }
  cbn [negb]. eexists. split; [done|]. pose proof Hmean as [Hc Hv]. cbn [fst snd] in *. assert (casted = votes_cast pv p) as Hcc by (rewrite Hc; by apply cast_values_count; lia).
  split; [by repeat split|]. unfold is_mean. cbn [fst snd]. rewrite <- Hcc. split; [done|]. assert (is_s64 v) as Hv64.
  { case_decide; [subst v; done|]. pose proof (hi_range (stored pv p)). destruct Hv as [_ ?]. unfold is_s64, minSupportedValue in *. fold (proposal_in pv p) in *. lia. }
  by rewrite (scalar_words_result _ v).
Qed.
(** The option with the most votes, the first of several *)
Definition leads pv (p o : Z) : Prop :=
  let n := optionCount (p_type (proposal_in pv p)) in
  0 <= o < n /\ (forall j, 0 <= j < n -> votes_for pv p j <= votes_for pv p o) /\ forall j, 0 <= j < o -> votes_for pv p j < votes_for pv p o.

Lemma leads_most_voted pv p o s : s_optionCount s = optionCount (p_type (proposal_in pv p)) -> s_optionCount s <= 8 -> (forall o, 0 <= o < 8 -> optionVoteCount s o = votes_for pv p o) ->
  leads pv p o <-> most_voted s o.
Proof.
  intros Es Ho Hc. unfold leads, most_voted. cbv zeta. rewrite <- Es. split; intros (H1 & H2 & H3); (split; [done|]; split; intros j Hj).
  - rewrite !Hc by lia. by apply H2.
  - rewrite !Hc by lia. by apply H3.
  - rewrite <- !Hc by lia. by apply H2.
  - rewrite <- !Hc by lia. by apply H3.
Qed.

Lemma leads_unique pv p o o' : leads pv p o -> leads pv p o' -> o = o'.
Proof.
  intros (H1 & H2 & H3) (H1' & H2' & H3'). destruct (decide (o < o')) as [Hlt|]; [specialize (H3' o ltac:(lia)); specialize (H2 o' H1'); lia|].
  destruct (decide (o' < o)) as [Hlt|]; [specialize (H3 o' ltac:(lia)); specialize (H2' o H1); lia|]. lia.
Qed.
End summary.
