(* ===== verification/ProposalReads.v ===== *)
(** * Reading votes back

    getVotes gives the histogram of the ballots of one voter: per option, or per value for scalar votes, of which eight different ones can be reported.
    nextProposalIndex and nextFinishedProposalIndex enumerate the slots. *)
From S2P Require Import Prelude Containers ProposalData ProposalVoters ProposalRolls ProposalElectorate ProposalVoting Proposals ProposalResults.

(** The number of the indices in [[i, i + n)] with value [v] *)
Fixpoint occ (w : Z -> Z) (v : Z) (n : nat) (i : Z) : Z :=
  match n with O => 0 | S n => (if decide (w i = v) then 1 else 0) + occ w v n (i + 1) end.

Lemma occ_range w v n : forall i, 0 <= occ w v n i <= Z.of_nat n.
Proof. induction n as [|n IH]; intros i; cbn [occ]; [lia|]. specialize (IH (i + 1)). case_decide; lia. Qed.

Lemma aget_lookup_nat (l : list Z) n x : l !! n = Some x -> x = l.[Z.of_nat n].
Proof. intros E. rewrite aget_nonneg, Nat2Z.id by lia. symmetry. by apply list_lookup_total_correct. Qed.

Section histogram.
Context {D : ProposalDataType} (maxVotes : Z) (s : ProposalWithAllVoteData).
Notation w i := (getVoteValue maxVotes i s).
Notation occ v n i := (occ (fun j => w j) v n i).

(** ** Options *)
Lemma count_option_all options n : 0 <= options <= 8 -> forall i hist, (forall j, i <= j < i + Z.of_nat n -> w j = NO_VOTE_VALUE \/ 0 <= w j < options) -> alen hist = 8 ->
  (forall o, 0 <= o < 8 -> 0 <= hist.[o] /\ hist.[o] + Z.of_nat n < 2 ^ 32) ->
  let hist' := for_loop n i (count_option maxVotes s options) hist in alen hist' = 8 /\ forall o, 0 <= o < 8 -> hist'.[o] = hist.[o] + occ o n i.
Proof.
  intros Ho. induction n as [|n IH]; intros i hist Hw Hl Hr; cbn [for_loop occ]; [split; [done|]; intros; lia|].
  assert (alen (count_option maxVotes s options i hist) = 8 /\ forall o, 0 <= o < 8 -> (count_option maxVotes s options i hist).[o] = hist.[o] + (if decide (w i = o) then 1 else 0)) as [Hl' Hstep].
  { unfold count_option. destruct (Hw i ltac:(lia)) as [E|Hv].
    - rewrite E. cbn [Z.eqb negb andb]. rewrite Z.eqb_refl. cbn [negb andb]. split; [done|]. intros o Ho'. rewrite decide_False by (unfold NO_VOTE_VALUE; lia). lia.
    - rewrite (proj2 (Z.eqb_neq _ NO_VOTE_VALUE)), (proj2 (Z.leb_le 0 _)), (proj2 (Z.ltb_lt _ options)) by (unfold NO_VOTE_VALUE; lia). cbn [negb andb].
      unfold Array.set, Array.get. rewrite array3 by lia. split; [by rewrite alen_aset|]. intros o Ho'. destruct (Hr o Ho') as [H1 H2]. destruct (decide (w i = o)) as [E|Hne].
      + rewrite E, aget_aset_eq by lia. apply u32_small. unfold is_u32. lia.
      + rewrite aget_aset_ne by done. lia. }
  destruct (IH (i + 1) (count_option maxVotes s options i hist) ltac:(intros j Hj; apply Hw; lia) Hl') as [H1 H2].
  - intros o Ho'. rewrite Hstep by done. specialize (Hr o Ho'). case_decide; lia.
  - split; [done|]. intros o Ho'. rewrite H2, Hstep by done. lia.
Qed.

(** ** Arbitrary values *)

(** [m] gives the places of the values seen, of which there are [u]; [cnt] counts the votes seen *)
Definition hist_ok (cnt : Z -> Z) (m : gmap Z Z) (u : Z) (vals counts : list Z) : Prop :=
  0 <= u <= 8 /\ alen vals = 8 /\ alen counts = 8 /\
  (forall v k, m !! v = Some k -> 0 <= k < u /\ vals.[k] = v /\ counts.[k] = cnt v /\ 0 < cnt v /\ v <> NO_VOTE_VALUE) /\
  (forall v, m !! v = None -> v <> NO_VOTE_VALUE -> cnt v = 0) /\
  (forall k, 0 <= k < u -> m !! (vals.[k]) = Some k) /\ (forall k, u <= k < 8 -> counts.[k] = 0).

(** One more vote for a value that has a place, or gets the next one *)
Lemma hist_ok_known cnt m u vals counts v k : hist_ok cnt m u vals counts -> m !! v = Some k -> 0 <= cnt v -> cnt v + 1 < 2 ^ 32 ->
  hist_ok (fun x => cnt x + if decide (v = x) then 1 else 0) m u vals (Array.set 3 counts k (u32 (Array.get 3 counts k + 1))).
Proof.
  intros (Hu & Hl1 & Hl2 & Hs & Hn & Hp & Hz) Hk Hc0 Hc. destruct (Hs v k Hk) as (Hk1 & Hk2 & Hk3 & Hk4 & Hk5). unfold Array.set, Array.get. rewrite array3 by lia.
  split; [done|]. split; [done|]. split; [by rewrite alen_aset|]. split; [|split; [|split; [done|]]].
  - intros x j Hj. destruct (Hs x j Hj) as (J1 & J2 & J3 & J4 & J5). split; [done|]. split; [done|]. destruct (decide (v = x)) as [<-|Hne].
    + assert (j = k) as -> by congruence. rewrite aget_aset_eq, Hk3, u32_small by (unfold is_u32; lia). split; [done|]. split; [lia|done].
    + rewrite aget_aset_ne by congruence. split; [lia|]. split; [lia|done].
  - intros x Hx Hne. rewrite decide_False by congruence. rewrite Hn by done. lia.
  - intros j Hj. rewrite aget_aset_ne by lia. by apply Hz.
Qed.

Lemma hist_ok_new cnt m u vals counts v : hist_ok cnt m u vals counts -> m !! v = None -> v <> NO_VOTE_VALUE -> u < 8 ->
  hist_ok (fun x => cnt x + if decide (v = x) then 1 else 0) (<[v := u]> m) (u + 1) (Array.set 3 vals u v) (Array.set 3 counts u (u32 (Array.get 3 counts u + 1))).
Proof.
  intros (Hu & Hl1 & Hl2 & Hs & Hn & Hp & Hz) Hk Hv Hlt. unfold Array.set, Array.get. rewrite array3 by lia. rewrite (Hz u) by lia. change (u32 (0 + 1)) with 1.
  split; [lia|]. split; [by rewrite alen_aset|]. split; [by rewrite alen_aset|]. split; [|split; [|split]].
  - intros x j [[<- <-]|[Hne Hj]]%lookup_insert_Some.
    + rewrite !aget_aset_eq, decide_True by (done || lia). rewrite Hn by done. split; [lia|]. split; [done|]. split; [done|]. split; [lia|done].
    + destruct (Hs x j Hj) as (J1 & J2 & J3 & J4 & J5). rewrite !aget_aset_ne, decide_False by (done || lia). split; [lia|]. split; [done|]. split; [lia|]. split; [lia|done].
  - intros x [Hx Hne]%lookup_insert_None Hx'. rewrite decide_False by done. rewrite Hn by done. lia.
  - intros j Hj. destruct (decide (j = u)) as [->|Hne].
    + rewrite aget_aset_eq by lia. apply lookup_insert_eq.
    + rewrite aget_aset_ne by done. rewrite lookup_insert_ne; [apply Hp; lia|]. intros ->. rewrite Hp in Hk by lia. done.
  - intros j Hj. rewrite aget_aset_ne by lia. apply Hz. lia.
Qed.

(** Too many values *)
Definition too_many (P : Z -> Prop) : Prop := exists l : list Z, NoDup l /\ length l = 9%nat /\ forall v, v ∈ l -> P v.

Lemma hist_ok_full cnt m vals counts v : hist_ok cnt m 8 vals counts -> m !! v = None -> v <> NO_VOTE_VALUE -> 
  NoDup (v :: vals) /\ length (v :: vals) = 9%nat /\ forall x, x ∈ vals -> 0 < cnt x /\ x <> NO_VOTE_VALUE.
Proof.
  intros (_ & Hl1 & _ & Hs & _ & Hp & _) Hk Hv.
  assert (forall x, x ∈ vals -> exists k, 0 <= k < 8 /\ m !! x = Some k) as Hin.
  { intros x (n & Hn)%list_elem_of_lookup. pose proof (lookup_lt_Some _ _ _ Hn). exists (Z.of_nat n). assert (0 <= Z.of_nat n < 8) as Hr by (unfold alen in Hl1; lia). split; [done|].
    rewrite <- (Hp _ Hr). f_equal. by apply aget_lookup_nat. }
  split; [|split; [unfold alen in Hl1; cbn [length]; lia|]].
  - constructor; [intros Hx; destruct (Hin _ Hx) as (k & _ & E); congruence|]. apply NoDup_alt. intros i j x Hi Hj.
    pose proof (lookup_lt_Some _ _ _ Hi). pose proof (lookup_lt_Some _ _ _ Hj).
    assert (forall n, (n < length vals)%nat -> vals !! n = Some x -> m !! x = Some (Z.of_nat n)) as Hu.
    { intros n Hn E. rewrite <- (Hp (Z.of_nat n)) by (unfold alen in Hl1; lia). f_equal. by apply aget_lookup_nat. }
    pose proof (Hu i ltac:(done) Hi). pose proof (Hu j ltac:(done) Hj). assert (Z.of_nat i = Z.of_nat j) by congruence. lia.
  - intros x (k & _ & E)%Hin. destruct (Hs x k E) as (_ & _ & _ & ? & ?). done.
Qed.
Lemma hist_ok_ext cnt cnt' m u vals counts : (forall v, v <> NO_VOTE_VALUE -> cnt v = cnt' v) -> hist_ok cnt m u vals counts -> hist_ok cnt' m u vals counts.
Proof.
  intros He (Hu & Hl1 & Hl2 & Hs & Hn & Hp & Hz). split; [done|]. split; [done|]. split; [done|]. split; [|split; [|done]].
  - intros v k E. destruct (Hs v k E) as (? & ? & ? & ? & ?). by rewrite <- He.
  - intros v E Hv. rewrite <- He by done. by apply Hn.
Qed.

Lemma scalar_histogram_spec n : forall i m u vals counts cnt, hist_ok cnt m u vals counts -> (forall v, 0 <= cnt v /\ cnt v + Z.of_nat n < 2 ^ 32) ->
  let '(vals', counts', okay) := scalar_histogram maxVotes n i s m u vals counts in
  if okay then exists m' u', hist_ok (fun v => cnt v + occ v n i) m' u' vals' counts' else too_many (fun v => v <> NO_VOTE_VALUE /\ 0 < cnt v + occ v n i).
Proof.
  induction n as [|n IH]; intros i m u vals counts cnt Hh Hc; cbn [scalar_histogram ProposalReads.occ].
  { exists m, u. apply (hist_ok_ext cnt); [intros; lia|done]. }
  destruct (Z.eqb_spec (w i) NO_VOTE_VALUE) as [E|E]; cbn [negb].
  - specialize (IH (i + 1) m u vals counts cnt Hh ltac:(intros v; specialize (Hc v); lia)). destruct (scalar_histogram _ _ _ _ _ _ _ _) as [[vals' counts'] okay]. destruct okay.
    + destruct IH as (m' & u' & H'). exists m', u'. eapply hist_ok_ext; [|exact H']. intros v Hv. rewrite decide_False by congruence. lia.
    + destruct IH as (l & Hd & Hl & Hin). exists l. split; [done|]. split; [done|]. intros v Hv. destruct (Hin v Hv). split; [done|]. case_decide; lia.
  - assert (forall m' u' vals1 counts1, hist_ok (fun x => cnt x + if decide (w i = x) then 1 else 0) m' u' vals1 counts1 ->
      let '(vals', counts', okay) := scalar_histogram maxVotes n (i + 1) s m' u' vals1 counts1 in
      if okay then exists m' u', hist_ok (fun v => cnt v + ((if decide (w i = v) then 1 else 0) + occ v n (i + 1))) m' u' vals' counts'
      else too_many (fun v => v <> NO_VOTE_VALUE /\ 0 < cnt v + ((if decide (w i = v) then 1 else 0) + occ v n (i + 1)))) as Hnext.
    { intros m' u' vals1 counts1 H1. assert (forall v, 0 <= cnt v + (if decide (w i = v) then 1 else 0) /\ cnt v + (if decide (w i = v) then 1 else 0) + Z.of_nat n < 2 ^ 32) as Hc1
        by (intros v; specialize (Hc v); case_decide; lia).
      specialize (IH (i + 1) m' u' vals1 counts1 _ H1 Hc1).
      destruct (scalar_histogram _ _ _ _ _ _ _ _) as [[vals' counts'] okay]. destruct okay.
      - destruct IH as (m'' & u'' & H'). exists m'', u''. eapply hist_ok_ext; [|exact H']. intros v _. cbv beta. lia.
      - destruct IH as (l & Hd & Hl & Hin). exists l. split; [done|]. split; [done|]. intros v Hv. destruct (Hin v Hv). split; [done|]. lia. }
    destruct (m !! w i) as [k|] eqn:Ek.
    + apply Hnext. destruct (Hc (w i)). apply hist_ok_known; [done|done|lia|lia].
    + destruct (Z.leb_spec 8 u) as [Hfull|Hlt]; [|by apply Hnext, hist_ok_new]. pose proof Hh as (Hu & _). replace u with 8 in Hh by lia.
      destruct (hist_ok_full _ _ _ _ _ Hh Ek E) as (Hd & Hl & Hin). exists (w i :: vals). split; [done|]. split; [done|]. intros v [->|Hv]%elem_of_cons.
      * split; [done|]. rewrite decide_True by done. pose proof (occ_range (fun i => w i) (w i) n (i + 1)). destruct (Hc (w i)). lia.
      * destruct (Hin v Hv). split; [done|]. pose proof (occ_range (fun i => w i) v n (i + 1)). case_decide; lia.
Qed.

(** The values and counts are the histogram of the votes [[i, i + n)]: every value that occurs has one place, with its number. *)
Definition histogram_of (n : nat) (i : Z) (vals counts : list Z) : Prop :=
  (forall k, 0 <= k < 8 -> counts.[k] <> 0 -> vals.[k] <> NO_VOTE_VALUE /\ counts.[k] = occ (vals.[k]) n i) /\
  (forall v, v <> NO_VOTE_VALUE -> 0 < occ v n i -> exists k, 0 <= k < 8 /\ vals.[k] = v /\ counts.[k] = occ v n i) /\
  (forall k k', 0 <= k < 8 -> 0 <= k' < 8 -> counts.[k] <> 0 -> counts.[k'] <> 0 -> vals.[k] = vals.[k'] -> k = k').

Lemma hist_ok_histogram n i m u vals counts : hist_ok (fun v => occ v n i) m u vals counts -> histogram_of n i vals counts.
Proof.
  intros (Hu & Hl1 & Hl2 & Hs & Hn & Hp & Hz).
  assert (forall k, 0 <= k < 8 -> counts.[k] <> 0 -> m !! (vals.[k]) = Some k) as Hk.
  { intros k Hk Hne. destruct (decide (k < u)); [apply Hp; lia|]. rewrite Hz in Hne by lia. done. }
  split; [|split].
  - intros k Hk' Hne. destruct (Hs _ _ (Hk k Hk' Hne)) as (_ & _ & ? & _ & ?). done.
  - intros v Hv Hpos. destruct (m !! v) as [k|] eqn:E; [|rewrite Hn in Hpos by done; lia]. destruct (Hs v k E) as (? & ? & ? & _). exists k. split; [lia|done].
  - intros k k' Hk1 Hk2 H1 H2 E. pose proof (Hk k Hk1 H1) as E1. rewrite E, (Hk k' Hk2 H2) in E1. congruence.
Qed.
End histogram.

Lemma identity_values n : 0 <= n <= 8 -> forall k, 0 <= k < 8 -> (for_loop (Z.to_nat n) 0 (fun i l => Array.set 3 l i i) (replicate 8 0)).[k] = if decide (k < n) then k else 0.
Proof.
  intros Hn. pose (P := fun i (l : list Z) => alen l = 8 /\ forall k, 0 <= k < 8 -> l.[k] = if decide (k < i) then k else 0).
  assert (P (0 + Z.of_nat (Z.to_nat n)) (for_loop (Z.to_nat n) 0 (fun i l => Array.set 3 l i i) (replicate 8 0))) as HP.
  { apply (for_loop_ind P).
    - split; [done|]. intros k Hk. rewrite aget_replicate by lia. case_decide; lia.
    - intros i l Hi [Hl Hk]. unfold P, Array.set. rewrite array3 by lia. split; [by rewrite alen_aset|]. intros k Hk'. destruct (decide (k = i)) as [->|Hne].
      + rewrite aget_aset_eq, decide_True by lia. done.
      + rewrite aget_aset_ne, Hk by done. repeat case_decide; lia. }
  rewrite Z.add_0_l, Z2Nat.id in HP by lia. apply HP.
Qed.

Section reads.
Context {V : Type} {H : VoterHandling V} {D : ProposalDataType}.
Variables maxProposals maxVotes : Z.
Context {HL : VoterLaws H maxProposals maxVotes} {DL : ProposalDataLaws D maxVotes}.
Hypothesis Hmp : 0 <= maxProposals <= INVALID_PROPOSAL_INDEX.
Hypothesis Hmv : 0 < maxVotes <= 2 ^ 31.
Implicit Types pv : ProposalVoting V.
Notation ballot := (ballot maxVotes).
Notation known := (known maxProposals).
Notation has_votes := (has_votes maxProposals maxVotes).
Notation own_count q pv p voter v := (occ (fun i => getVoteValue maxVotes i (stored pv p)) v (Z.to_nat (vote_total q pv p voter)) (first_vote q pv p voter)).

(** The histogram of a proposal with options *)
Lemma option_histogram pv p b c : voting_ok maxProposals maxVotes pv -> 0 <= p -> known pv p -> p_type (proposal_in pv p) <> VariableScalarMean -> 0 <= b -> 0 <= c -> b + c <= maxVotes ->
  let options := optionCount (p_type (proposal_in pv p)) in
  histogram_of maxVotes (stored pv p) (Z.to_nat c) b (for_loop (Z.to_nat options) 0 (fun i l => Array.set 3 l i i) (replicate 8 0))
    (for_loop (Z.to_nat c) b (count_option maxVotes (stored pv p) options) (replicate 8 0)).
Proof.
  intros Hok Hp Hk Ht Hb Hc Hbc options. destruct (known_slot maxProposals maxVotes Hmv pv p Hok Hp Hk) as [Hval Hcast].
  assert (0 <= options <= 8) as Ho by (pose proof (checkValidity_options _ Hval); pose proof (optionCount_range (p_type (proposal_in pv p))); unfold options; lia).
  assert (forall j, b <= j < b + Z.of_nat (Z.to_nat c) -> getVoteValue maxVotes j (stored pv p) = NO_VOTE_VALUE \/ 0 <= getVoteValue maxVotes j (stored pv p) < options) as Hw.
  { intros j Hj. destruct (Hcast j ltac:(lia)) as [?|[_ Hv]]; [by left|right]. by rewrite decide_False in Hv. }
  destruct (count_option_all maxVotes (stored pv p) options (Z.to_nat c) Ho b (replicate 8 0) Hw) as [_ Hh]; [done| |].
  { intros o Ho'. rewrite aget_replicate by lia. lia. }
  set (counts := for_loop (Z.to_nat c) b _ _) in *. set (vals := for_loop (Z.to_nat options) 0 _ _).
  assert (forall k, 0 <= k < 8 -> counts.[k] = occ (fun j => getVoteValue maxVotes j (stored pv p)) k (Z.to_nat c) b) as Hcount.
  { intros k Hk'. rewrite Hh by done. rewrite aget_replicate by lia. lia. }
  assert (forall v, 0 < occ (fun j => getVoteValue maxVotes j (stored pv p)) v (Z.to_nat c) b -> v = NO_VOTE_VALUE \/ 0 <= v < options) as Hocc.
  { clear - Hw. intros v. revert Hw. generalize b. induction (Z.to_nat c) as [|n IH]; intros b0 Hw; cbn [occ]; [lia|]. case_decide as E; [intros _; rewrite <- E; apply Hw; lia|].
    intros Hpos. apply (IH (b0 + 1)); [intros j Hj; apply Hw; lia|lia]. }
  assert (forall k, 0 <= k < 8 -> counts.[k] <> 0 -> vals.[k] = k) as Hid.
  { intros k Hk' Hne. unfold vals. rewrite identity_values by done. case_decide; [done|]. rewrite Hcount in Hne by done.
    pose proof (occ_range (fun j => getVoteValue maxVotes j (stored pv p)) k (Z.to_nat c) b). destruct (Hocc k ltac:(lia)); unfold NO_VOTE_VALUE in *; lia. }
  split; [|split].
  - intros k Hk' Hne. rewrite (Hid k Hk' Hne). split; [unfold NO_VOTE_VALUE; lia|by apply Hcount].
  - intros v Hv Hpos. destruct (Hocc v Hpos) as [?|Hr]; [done|]. exists v. split; [lia|]. unfold vals. rewrite identity_values, decide_True by lia. split; [done|]. apply Hcount. lia.
  - intros k k' Hk1 Hk2 H1 H2. rewrite !Hid by done. done.
Qed.

Lemma getVotes_spec q p voter votes pv : voting_ok maxProposals maxVotes pv -> context_ok q -> 0 <= p ->
  let '(r, okay) := getVotes maxProposals maxVotes q p voter votes pv in
  (okay = true -> known pv p /\ has_votes q pv p voter /\ m_proposalIndex r = p /\ m_proposalType r = p_type (proposal_in pv p) /\ m_proposalTick r = p_tick (proposal_in pv p) /\
     histogram_of maxVotes (stored pv p) (Z.to_nat (vote_total q pv p voter)) (first_vote q pv p voter) (m_voteValues r) (m_voteCounts r)) /\
  (okay = false -> m_proposalType r = 0 /\ (~ known pv p \/ ~ has_votes q pv p voter \/
     p_type (proposal_in pv p) = VariableScalarMean /\ too_many (fun v => v <> NO_VOTE_VALUE /\ 0 < own_count q pv p voter v))).
Proof.
  intros Hok Hq Hp. unfold getVotes. destruct (unknown_proposal maxProposals p pv) eqn:Eu.
  { split; [done|]. intros _. split; [done|]. left. intros Hk%unknown_proposal_spec. congruence. }
  apply unknown_proposal_spec in Eu. fold (first_vote q pv p voter). fold (vote_total q pv p voter). fold (proposal_in pv p).
  destruct (voter_block maxProposals maxVotes ltac:(unfold INVALID_VOTE_INDEX; lia) q pv p voter Hok Hq ltac:(destruct Eu; lia)) as [[-> Hno]|(Hne & Hhas & Hb & Hc & Hbc & _)].
  { rewrite Z.eqb_refl. split; [done|]. intros _. split; [done|]. tauto. }
  rewrite (proj2 (Z.eqb_neq _ _)) by done. destruct (Z.eqb_spec (p_type (proposal_in pv p)) VariableScalarMean) as [Et|Et].
  - assert (hist_ok (fun _ => 0) ∅ 0 (replicate 8 0) (replicate 8 0)) as H0.
    { split; [lia|]. split; [done|]. split; [done|]. split; [intros v k Hv; by rewrite lookup_empty in Hv|]. split; [done|]. split; [lia|]. intros k Hk. by rewrite aget_replicate by lia. }
    pose proof (scalar_histogram_spec maxVotes (stored pv p) (Z.to_nat (vote_total q pv p voter)) (first_vote q pv p voter) ∅ 0 _ _ _ H0 ltac:(intros; lia)) as Hs.
    destruct (scalar_histogram _ _ _ _ _ _ _ _) as [[vals counts] okay]. destruct okay.
    + destruct Hs as (m & u & Hh). split; [|done]. intros _. cbn [m_proposalIndex m_proposalType m_proposalTick m_voteValues m_voteCounts]. do 5 (split; [done|]).
      by apply (hist_ok_histogram _ _ _ _ m u).
    + split; [done|]. intros _. split; [done|]. right. right. done.
  - split; [|done]. intros _. cbn [m_proposalIndex m_proposalType m_proposalTick m_voteValues m_voteCounts]. do 5 (split; [done|]). apply option_histogram; [done|done|done|done|lia|lia|lia].
Qed.

(** The next slot with a property behind [prev], -1 if there is none *)
Lemma next_index_spec P prev : let r := next_index maxProposals P prev in let from := Z.max 0 (prev + 1) in
  (from <= r < maxProposals /\ P r = true /\ forall i, from <= i < r -> P i = false) \/ (r = -1 /\ forall i, from <= i < maxProposals -> P i = false).
Proof.
  cbv zeta. unfold next_index. destruct (Z.leb_spec maxProposals prev); [right; split; [done|lia]|].
  assert ((if prev <? 0 then 0 else u16 (prev + 1)) = Z.max 0 (prev + 1)) as ->.
  { destruct (Z.ltb_spec prev 0); [lia|]. unfold u16. rewrite Z.mod_small; [lia|]. unfold INVALID_PROPOSAL_INDEX in *. lia. }
  set (from := Z.max 0 (prev + 1)). destruct (search_first P (Z.to_nat (maxProposals - from)) (-1) from) as [(j & -> & Hj & HP & Hlow)|[-> Hno]].
  - left. split; [lia|]. done.
  - right. split; [done|]. intros i Hi. apply Hno. lia.
Qed.
End reads.
