(* ===== verification/ProposalRuns.v ===== *)
(** * Runs of calls on the proposals of a contract

    The procedures setProposal, vote and voteMulti are interleaved in any order, by any callers, over any number of ticks and epochs.
    The state stays well formed, and every ballot of a poll was cast in its epoch by the owner of the ballot, or overrun by a vote whose counts overflow. *)
From S2P Require Import Prelude Containers ProposalData ProposalVoters ProposalRolls ProposalElectorate ProposalVoting Proposals ProposalResults.

Inductive call := SetProposal (proposer : Z) (proposal : ProposalData) | Vote (voter : Z) (v : SingleVote) | VoteMulti (voter : Z) (v : MultiVote).

Section runs.
Context {V : Type} {H : VoterHandling V} {D : ProposalDataType}.
Variables maxProposals maxVotes : Z.
Context {HL : VoterLaws H maxProposals maxVotes} {DL : ProposalDataLaws D maxVotes}.
Hypothesis Hmp : 0 <= maxProposals <= INVALID_PROPOSAL_INDEX.
Hypothesis Hmv : 0 < maxVotes < INVALID_VOTE_INDEX.
Implicit Types pv : ProposalVoting V.
Notation in_slots i := (0 <= i < maxProposals).
Notation in_votes i := (0 <= i < maxVotes).
Notation voting_ok := (voting_ok maxProposals maxVotes).
Notation ballot := (ballot maxVotes).
Notation owner := (owner maxProposals maxVotes).
Notation same_slot := (same_slot maxProposals maxVotes).
Notation open_for := (open_for maxProposals).
Notation has_votes := (has_votes maxProposals maxVotes).
Notation entitled := (entitled maxProposals maxVotes).
Notation revoted := (revoted maxProposals maxVotes).

Definition perform (qc : QpiContext * call) pv : ProposalVoting V :=
  match qc.2 with
  | SetProposal proposer proposal => (setProposal maxProposals maxVotes qc.1 proposer proposal pv).1
  | Vote voter v => (vote maxProposals maxVotes qc.1 voter v pv).1
  | VoteMulti voter v => (voteMulti maxProposals maxVotes qc.1 voter v pv).1
  end.
Definition run (l : list (QpiContext * call)) pv : ProposalVoting V := fold_left (fun pv qc => perform qc pv) l pv.

(** Indices are unsigned, the counts of a vote 32-bit numbers. *)
Definition call_ok (qc : QpiContext * call) : Prop :=
  context_ok qc.1 /\ 0 < q_epoch qc.1 /\
  match qc.2 with SetProposal _ _ => True | Vote _ v => 0 <= v_proposalIndex v | VoteMulti _ v => 0 <= m_proposalIndex v /\ counts_typed (m_voteCounts v) end.

(** The call [c] of [voter] asks for the value [b] in slot [p], for the proposal of tick [tick]. *)
Definition asks_for (c : call) (voter p tick b : Z) : Prop :=
  match c with
  | SetProposal _ _ => False
  | Vote x v => x = voter /\ v_proposalIndex v = p /\ v_proposalTick v = tick /\ v_voteValue v = b
  | VoteMulti x v => x = voter /\ m_proposalIndex v = p /\ m_proposalTick v = tick /\ exists k, 0 <= k < 8 /\ Array.get 3 (m_voteValues v) k = b
  end.

(** The call [c], by whomever, gives the value [b] in slot [p] with counts that add up to 2^32 or more. *)
Definition overruns (c : call) (p tick b : Z) : Prop :=
  match c with
  | VoteMulti _ v => m_proposalIndex v = p /\ m_proposalTick v = tick /\ 2 ^ 32 <= prefix (m_voteCounts v) 8 /\ exists k, 0 <= k < 8 /\ Array.get 3 (m_voteValues v) k = b
  | _ => False
  end.
Definition caused (c : call) (voter p tick b : Z) : Prop := asks_for c voter p tick b \/ overruns c p tick b.

(** Every ballot that is set was cast by its owner, or overrun, in the epoch of the proposal. *)
Definition authentic (l : list (QpiContext * call)) pv (p : Z) : Prop :=
  forall i, in_votes i -> epoch_of pv p <> 0 -> ballot pv p i <> NO_VOTE_VALUE ->
    exists q c, (q, c) ∈ l /\ q_epoch q = epoch_of pv p /\ caused c (owner q pv p i) p (p_tick (proposal_in pv p)) (ballot pv p i).

Lemma authentic_same l qc pv pv' p : same_slot pv pv' p -> authentic l pv p -> authentic (l ++ [qc]) pv' p.
Proof.
  intros (E1 & E2 & E3) Ha i Hi. unfold epoch_of, Proposals.ballot, proposal_in. rewrite E1. intros He Hb. destruct (Ha i Hi He Hb) as (q & c & Hin & Hq & Hask).
  exists q, c. split; [apply elem_of_app; by left|]. split; [done|]. rewrite E3. done.
Qed.

Lemma revoted_same pv pv' p f j : revoted pv pv' p f -> in_slots j -> j <> p -> same_slot pv pv' j.
Proof. intros (_ & E & Hst & _) Hj Hne. split; [by apply Hst|]. unfold proposer_in, Proposals.owner. by rewrite E. Qed.

(** Votes on slot [p] *)
Lemma authentic_revoted l q c pv pv' p f tick : revoted pv pv' p f -> q_epoch q = epoch_of pv p -> p_tick (proposal_in pv p) = tick ->
  (forall i, in_votes i -> f i <> NO_VOTE_VALUE -> f i = ballot pv p i \/ caused c (owner q pv p i) p tick (f i)) -> authentic l pv p -> authentic (l ++ [(q, c)]) pv' p.
Proof.
  intros (_ & Eo & _ & Ep & Hb) He Ht Hf Ha i Hi. assert (epoch_of pv' p = epoch_of pv p) as Ee by (unfold epoch_of; fold (proposal_in pv' p); by rewrite Ep).
  rewrite Ee, Ep, Hb by done. intros Hne Hcast. assert (forall q', owner q' pv' p i = owner q' pv p i) as Eown by (intros q'; unfold Proposals.owner; by rewrite Eo).
  destruct (Hf i Hi Hcast) as [E|Hc].
  - rewrite E in Hcast |- *. destruct (Ha i Hi Hne Hcast) as (q' & c' & Hin & Hq & Hask). exists q', c'. split; [apply elem_of_app; by left|]. split; [done|]. by rewrite Eown.
  - exists q, c. split; [apply elem_of_app; right; by apply list_elem_of_singleton|]. split; [done|]. by rewrite Eown, Ht.
Qed.

Lemma nth_value_in values counts n d : nth_value values counts n d <> NO_VOTE_VALUE -> exists k, 0 <= k < Z.of_nat n /\ Array.get 3 values k = nth_value values counts n d.
Proof.
  induction n as [|n IH]; cbn [nth_value]; intros Hne; [done|]. case_decide; [exists (Z.of_nat n); split; [lia|done]|]. destruct (IH Hne) as (k & Hk & E). exists k. split; [lia|done].
Qed.
Lemma multi_value_in v d : multi_value v d <> NO_VOTE_VALUE -> exists k, 0 <= k < 8 /\ Array.get 3 (m_voteValues v) k = multi_value v d.
Proof.
  unfold multi_value. case_decide; [exists 0; split; [lia|done]|]. case_decide; [|done]. intros Hne. apply (nth_value_in _ _ 8 d Hne).
Qed.

Definition run_ok (l : list (QpiContext * call)) pv : Prop := voting_ok pv /\ forall p, in_slots p -> authentic l pv p.

Lemma perform_set l q proposer proposal pv : run_ok l pv -> context_ok q -> 0 < q_epoch q ->
  run_ok (l ++ [(q, SetProposal proposer proposal)]) (perform (q, SetProposal proposer proposal) pv).
Proof.
  intros [Hok Ha] Hq He. cbn [perform fst snd]. assert (run_ok (l ++ [(q, SetProposal proposer proposal)]) pv) as Hsame.
  { split; [done|]. intros p Hp. by apply (authentic_same l _ pv); [|apply Ha]. }
  destruct (decide (p_epoch proposal = 0)) as [E|E].
  - pose proof (clear_by_proposer maxProposals maxVotes Hmp q proposer proposal pv Hok E) as Hc. destruct (setProposal _ _ _ _ _ _) as [pv' p].
    destruct Hc as [(_ & -> & _)|(Hp & _ & _ & Hok' & He' & _ & Hs)]; [done|]. split; [done|]. intros j Hj. destruct (decide (j = p)) as [->|Hne]; [by intros i _|].
    apply (authentic_same l _ pv); [by apply Hs|by apply Ha].
  - pose proof (set_effect maxProposals maxVotes Hmp Hmv q proposer proposal pv Hok Hq He E) as Hc. destruct (setProposal _ _ _ _ _ _) as [pv' p].
    destruct Hc as [(_ & -> & _)|(Hp & _ & _ & Hok' & _ & (_ & _ & Hpoll) & Hs)]; [done|]. split; [done|]. intros j Hj. destruct (decide (j = p)) as [->|Hne].
    + intros i Hi _ []. by apply Hpoll.
    + apply (authentic_same l _ pv); [by apply Hs|by apply Ha].
Qed.

Lemma perform_votes l q c pv pv' p type tick f : run_ok l pv -> revoted pv pv' p f -> 0 <= p -> open_for q pv p type tick ->
  (forall i, in_votes i -> f i <> NO_VOTE_VALUE -> f i = ballot pv p i \/ caused c (owner q pv p i) p tick (f i)) -> run_ok (l ++ [(q, c)]) pv'.
Proof.
  intros [Hok Ha] Hre Hp0 (Hlt & _ & He & Ht) Hf. split; [apply Hre|]. intros j Hj. destruct (decide (j = p)) as [->|Hne].
  - by apply (authentic_revoted l q c pv pv' p f tick); [..|apply Ha].
  - apply (authentic_same l _ pv); [by eapply revoted_same|by apply Ha].
Qed.

(** Whether a voter may cast [n] votes *)
Lemma entitled_or_not q pv p type tick voter n : voting_ok pv -> context_ok q -> 0 <= p -> entitled q pv p type tick voter n \/ ~ entitled q pv p type tick voter n.
Proof.
  intros Hok Hq Hp. unfold Proposals.entitled. destruct (vote_matches maxProposals q p type tick pv) eqn:E.
  - apply vote_matches_spec in E. destruct (voter_block maxProposals maxVotes Hmv q pv p voter Hok Hq ltac:(destruct E; lia)) as [[_ ?]|(_ & ? & _)]; [tauto|].
    destruct (decide (n <= vote_total q pv p voter)); tauto.
  - right. intros [E' _]. apply vote_matches_spec in E'. congruence.
Qed.

Lemma run_ok_same l qc pv : run_ok l pv -> run_ok (l ++ [qc]) pv.
Proof. intros [Hok Ha]. split; [done|]. intros p Hp. by apply (authentic_same l _ pv); [|apply Ha]. Qed.

Lemma perform_multi l q x v pv : run_ok l pv -> context_ok q -> 0 < q_epoch q -> 0 <= m_proposalIndex v -> counts_typed (m_voteCounts v) -> run_ok (l ++ [(q, VoteMulti x v)]) (perform (q, VoteMulti x v) pv).
Proof.
  intros Hr Hq He Hp0 Hty. unfold perform. cbn [fst snd]. destruct (entitled_or_not q pv (m_proposalIndex v) (m_proposalType v) (m_proposalTick v) x (sent v) (proj1 Hr) Hq Hp0) as [Hent|Hno].
  2: { rewrite (multi_refused maxProposals maxVotes Hmp Hmv q x v pv (proj1 Hr) Hq He Hp0 Hno). by apply run_ok_same. }
  destruct (decide (prefix (m_voteCounts v) 8 < 2 ^ 32 \/ sent v = 0)) as [Hsum|Hover].
  - pose proof (multi_effect maxProposals maxVotes Hmp Hmv q x v pv (proj1 Hr) Hq He Hp0 Hent Hty Hsum) as Hv. destruct (voteMulti _ _ _ _ _ _) as [pv' okay]. cbn [fst]. destruct Hv as [_ V3].
    apply (perform_votes l q _ pv pv' _ (m_proposalType v) (m_proposalTick v) _ Hr V3 Hp0 (proj1 Hent)). intros i _ Hne. case_decide as Hw; [|by left]. right. left. destruct okay; [|done].
    split; [done|]. split; [done|]. split; [done|]. by apply multi_value_in.
  - destruct (multi_overflow maxProposals maxVotes Hmp Hmv q x v pv (proj1 Hr) Hq He Hp0 Hent Hty ltac:(lia) ltac:(lia)) as (pv' & e & -> & _ & V3). cbn [fst].
    apply (perform_votes l q _ pv pv' _ (m_proposalType v) (m_proposalTick v) _ Hr V3 Hp0 (proj1 Hent)). intros i _ Hne. case_decide as Hw; [done|]. case_decide; [|by left]. right. right.
    split; [done|]. split; [done|]. split; [lia|]. apply (nth_value_in _ _ 8 _ Hne).
Qed.

Lemma perform_ok l qc pv : run_ok l pv -> call_ok qc -> run_ok (l ++ [qc]) (perform qc pv).
Proof.
  intros Hr (Hq & He & Hc). destruct qc as [q [x proposal|x v|x v]]; cbn [fst snd] in *; [by apply perform_set| |by apply perform_multi; [..|apply Hc|apply Hc]].
  pose proof (vote_effect maxProposals maxVotes Hmp Hmv q x v pv (proj1 Hr) Hq He Hc) as Hv. cbv zeta in Hv. unfold perform. cbn [fst snd].
  destruct (vote _ _ _ _ _ _) as [pv' okay]. cbn [fst]. destruct Hv as (V1 & V2 & V3). destruct okay; [|rewrite V2 by done; by apply run_ok_same].
  destruct (proj1 V1 eq_refl) as (Ho & _). apply (perform_votes l q _ pv pv' _ _ _ _ Hr (V3 eq_refl) Hc Ho). intros i _ _. case_decide as Hw; [right; left|by left]. done.
Qed.

Definition empty_slots pv : Prop := voting_ok pv /\ forall p, in_slots p -> epoch_of pv p = 0.

Lemma run_run_ok l pv : empty_slots pv -> Forall call_ok l -> run_ok l (run l pv).
Proof.
  intros [Hok He] Hl. induction l as [|qc l IH] using rev_ind.
  - split; [done|]. intros p Hp i Hi Hne. by rewrite He in Hne.
  - apply Forall_app in Hl as [Hl Hc]. unfold run. rewrite fold_left_app. cbn [fold_left]. apply perform_ok; [by apply IH|]. by inversion Hc.
Qed.
End runs.
