(* ===== verification/ProposalTheorems.v ===== *)
(** * Proposals and voting: the theorems

    The properties of the proposal and voting calls, for every kind of proposer, voter and vote storage, and their instances at concrete contracts. *)
From S2P Require Import Prelude Containers ProposalData ProposalVoters ProposalRolls ProposalElectorate ProposalVoting Proposals ProposalResults ProposalReads ProposalRuns.

Section theorems.
Context {V : Type} {H : VoterHandling V} {D : ProposalDataType}.
Variables maxProposals maxVotes : Z.
Context {HL : VoterLaws H maxProposals maxVotes} {DL : ProposalDataLaws D maxVotes}.
Hypothesis Hmp : 0 <= maxProposals <= INVALID_PROPOSAL_INDEX.
Hypothesis Hmv : 0 < maxVotes <= 2 ^ 31.
Implicit Types pv : ProposalVoting V.
Notation in_slots i := (0 <= i < maxProposals).
Notation in_votes i := (0 <= i < maxVotes).
Notation voting_ok := (voting_ok maxProposals maxVotes).
Notation ballot := (ballot maxVotes).
Notation owner := (owner maxProposals maxVotes).
Notation same_slot := (same_slot maxProposals maxVotes).
Notation open_for := (open_for maxProposals).
Notation has_votes := (has_votes maxProposals maxVotes).
Notation revoted := (revoted maxProposals maxVotes).
Notation known := (known maxProposals).
Notation votes_for := (votes_for maxVotes).
Notation votes_cast := (votes_cast maxVotes).
Notation leads := (leads maxVotes).

Lemma max_votes_invalid : 0 < maxVotes < INVALID_VOTE_INDEX.
Proof. unfold INVALID_VOTE_INDEX. lia. Qed.
Hint Resolve max_votes_invalid : core.

(** The zeroed state of a new contract *)
Definition initial (voters : V) : ProposalVoting V := mkVoting voters (replicate (Z.to_nat maxProposals) (zero_proposal maxVotes)).

Lemma initial_empty voters : voters_ok voters -> (forall p, in_slots p -> getProposerId voters p = NULL_ID) -> empty_slots maxProposals maxVotes (initial voters).
Proof.
  intros Hv Hn. assert (forall p, in_slots p -> stored (initial voters) p = zero_proposal maxVotes) as Hst by (intros p Hp; apply aget_replicate; lia).
  assert (forall p, in_slots p -> epoch_of (initial voters) p = 0) as He by (intros p Hp; unfold epoch_of; by rewrite Hst).
  split; [|done]. split; [done|]. split; [cbn [initial proposals]; rewrite alen_replicate; lia|]. intros p Hp. split; [rewrite Hst by done; apply zero_ok|].
  rewrite He, decide_True by done. by apply Hn.
Qed.

(** C20: setProposal with an epoch of 0 empties the slot of the caller's proposal.  Any other proposal is entered exactly when it is valid, its proposer is allowed and a slot can be had:
    the proposer's own, else an empty one, else one of the oldest epoch before the current.  The slot then holds the proposal with the current tick and epoch,
    no votes, and the electorate of the moment; all other slots keep their proposal, votes and electorate.  A refused call changes nothing. *)
Theorem set_proposal q proposer proposal pv : voting_ok pv -> context_ok q -> 0 < q_epoch q ->
  let '(pv', p) := setProposal maxProposals maxVotes q proposer proposal pv in
  (p = INVALID_PROPOSAL_INDEX /\ pv' = pv /\
   if decide (p_epoch proposal = 0) then forall j, in_slots j -> proposer_in pv j = proposer -> proposer = NULL_ID
   else checkValidity proposal = false \/ isValidProposer q (proposersAndVoters pv) proposer = false \/ no_slot maxProposals q proposer pv) \/
  (in_slots p /\ voting_ok pv' /\ (forall j, in_slots j -> j <> p -> same_slot pv pv' j) /\
   if decide (p_epoch proposal = 0) then proposer <> NULL_ID /\ proposer_in pv p = proposer /\ epoch_of pv' p = 0 /\ proposer_in pv' p = NULL_ID
   else checkValidity proposal = true /\ isValidProposer q (proposersAndVoters pv) proposer = true /\ chosen maxProposals q proposer pv p /\
     new_poll maxProposals maxVotes q proposer proposal pv' p).
Proof.
  intros Hok Hq He. case_decide as E.
  - pose proof (clear_by_proposer maxProposals maxVotes Hmp q proposer proposal pv Hok E) as Hc. destruct (setProposal _ _ _ _ _ _). tauto.
  - pose proof (set_effect maxProposals maxVotes Hmp max_votes_invalid q proposer proposal pv Hok Hq He E) as Hc. destruct (setProposal _ _ _ _ _ _). tauto.
Qed.


(** C22: However setProposal, vote and voteMulti are interleaved, by whomever and over whatever ticks and epochs, the proposals stay well formed (valid proposals, one per proposer, allowed votes),
    and every ballot that is set in a slot was asked for by a call of the ballot's owner, for the proposal of that tick, in its epoch, with the only exception of ballots that a call of voteMulti of that epoch, for the same proposal,
    has overrun, whose numbers add up to 2^32 or more.  Without such calls every ballot is its owner's. *)
Theorem ballots_authentic l pv : empty_slots maxProposals maxVotes pv -> Forall (call_ok maxProposals maxVotes) l ->
  let pv' := run maxProposals maxVotes l pv in voting_ok pv' /\
  (forall p p', in_slots p -> in_slots p' -> epoch_of pv' p <> 0 -> proposer_in pv' p = proposer_in pv' p' -> p = p') /\
  forall p i, in_slots p -> in_votes i -> epoch_of pv' p <> 0 -> ballot pv' p i <> NO_VOTE_VALUE ->
    exists q c, (q, c) ∈ l /\ q_epoch q = epoch_of pv' p /\
      (asks_for c (owner q pv' p i) p (p_tick (proposal_in pv' p)) (ballot pv' p i) \/ overruns c p (p_tick (proposal_in pv' p)) (ballot pv' p i)).
Proof.
  intros He Hl. destruct (run_run_ok maxProposals maxVotes Hmp max_votes_invalid l pv He Hl) as [Hok Ha]. split; [done|]. split; [|intros p i Hp; by apply Ha].
  intros p p' Hp Hp' Hne E. destruct (proj2 (proj2 Hok) p Hp) as [_ Hs]. rewrite decide_False in Hs by done.
  apply (proposers_distinct _ _ _ (proj1 Hok)); [done|done|done|apply Hs].
Qed.

(** C23: getVotingSummary fails for an empty slot.  For a proposal with options it counts every ballot once: the votes of each option, and the votes cast, which are their sum.
    getAcceptedOption of this summary is the leading option if at least the required votes were cast and more than the required votes are for it, and -1 otherwise. *)
Theorem accepted_option p summary required majority pv : voting_ok pv -> 0 <= p ->
  (~ known pv p -> (getVotingSummary maxProposals maxVotes p summary pv).2 = false) /\
  (known pv p -> p_type (proposal_in pv p) <> VariableScalarMean ->
   exists s, getVotingSummary maxProposals maxVotes p summary pv = (s, true) /\ summarizes maxVotes pv p s /\
     (forall o, 0 <= o < 8 -> optionVoteCount s o = votes_for pv p o) /\ sumZ (votes_for pv p) (Z.to_nat (s_optionCount s)) = votes_cast pv p /\
     (getAcceptedOption s required majority = -1 \/ leads pv p (getAcceptedOption s required majority)) /\
     forall o, leads pv p o -> getAcceptedOption s required majority = o <-> required <= votes_cast pv p /\ majority < votes_for pv p o).
Proof.
  intros Hok Hp. split; [intros Hk; by rewrite summary_unknown|]. intros Hk Ht. destruct (summary_options maxProposals maxVotes Hmv p summary pv Hok Hp Hk Ht) as (s & Es & Hs & Hc & Hsum).
  exists s. split; [done|]. split; [done|]. split; [done|]. split; [done|]. pose proof Hs as (_ & Eo & _ & _ & Ec).
  destruct (known_slot maxProposals maxVotes Hmv pv p Hok Hp Hk) as [Hval _]. pose proof (checkValidity_options _ Hval) as H8. pose proof (optionCount_range (p_type (proposal_in pv p))) as Hr.
  rewrite <- Eo in H8, Hr. destruct (getAcceptedOption_spec s ltac:(lia) required majority) as [H1 H2]. split.
  - destruct H1 as [?|H1]; [by left|right]. by apply (leads_most_voted maxVotes pv p _ s).
  - intros o Ho. rewrite H2 by (by apply (leads_most_voted maxVotes pv p o s)). rewrite Ec, Hc; [done|]. destruct Ho as (Ho & _). lia.
Qed.

(** C24: The result of a scalar vote is computed without overflow, for whatever limits of the values a proposal may have: it is less than one from the exact mean of the votes cast, and within the limits;
    0 without votes. *)
Theorem scalar_mean p summary pv : voting_ok pv -> 0 <= p -> known pv p -> p_type (proposal_in pv p) = VariableScalarMean ->
  exists s, getVotingSummary maxProposals maxVotes p summary pv = (s, true) /\ summarizes maxVotes pv p s /\
    let votes := cast_values maxVotes (stored pv p) in votes_cast pv p = alen votes /\
    if decide (votes = []) then scalarVotingResult s = 0
    else Z.abs (alen votes * scalarVotingResult s - sum_list votes) < alen votes /\ minValue (proposal_in pv p) <= scalarVotingResult s <= maxValue (proposal_in pv p).
Proof.
  intros Hok Hp Hk Ht. destruct (summary_scalar maxProposals maxVotes Hmv p summary pv Hok Hp Hk Ht) as (s & Es & Hs & Hm1 & Hm2). exists s. split; [done|]. split; [done|].
  cbv zeta. split; [done|]. cbn [fst snd] in *. destruct (decide (cast_values maxVotes (stored pv p) = [])) as [E|E].
  - by rewrite E in Hm2.
  - rewrite decide_False in Hm2; [done|]. intros E'. apply E, length_zero_iff_nil. unfold alen in E'. lia.
Qed.

(** getVotes gives the histogram of the ballots of one voter: every value that the voter's ballots have is in one place, with the number of these ballots, and there is nothing else.
    It fails, with type 0, only for an empty slot, for somebody without votes, and for more than eight different scalar values. *)
Theorem voter_histogram q p voter votes pv : voting_ok pv -> context_ok q -> 0 <= p ->
  let '(r, okay) := getVotes maxProposals maxVotes q p voter votes pv in let n := Z.to_nat (vote_total q pv p voter) in let b := first_vote q pv p voter in
  (okay = true -> known pv p /\ has_votes q pv p voter /\ m_proposalIndex r = p /\ m_proposalType r = p_type (proposal_in pv p) /\ m_proposalTick r = p_tick (proposal_in pv p) /\
     histogram_of maxVotes (stored pv p) n b (m_voteValues r) (m_voteCounts r)) /\
  (okay = false -> m_proposalType r = 0 /\ (~ known pv p \/ ~ has_votes q pv p voter \/
     p_type (proposal_in pv p) = VariableScalarMean /\ too_many (fun v => v <> NO_VOTE_VALUE /\ 0 < occ (ballot pv p) v n b))).
Proof. intros Hok Hq Hp. apply (getVotes_spec maxProposals maxVotes Hmp Hmv q p voter votes pv Hok Hq Hp). Qed.
End theorems.

(** ** Shareholders *)
Lemma block_unique n r x b c b' c' : is_block n r x b c -> is_block n r x b' c' -> 1 <= c -> b = b' /\ c = c'.
Proof.
  intros (H1 & H2 & H3) (H1' & H2' & H3') Hc.
  assert (forall i, 0 <= i < n -> b <= i < b + c <-> b' <= i < b' + c') as Hiff by (intros i Hi; by rewrite <- H3, <- H3').
  pose proof (proj1 (Hiff b ltac:(lia)) ltac:(lia)). pose proof (proj1 (Hiff (b + c - 1) ltac:(lia)) ltac:(lia)).
  pose proof (proj2 (Hiff b' ltac:(lia)) ltac:(lia)). pose proof (proj2 (Hiff (b' + c' - 1) ltac:(lia)) ltac:(lia)). lia.
Qed.

Section shareholders.
Context {D : ProposalDataType} (maxProposals maxVotes : Z) {DL : ProposalDataLaws D maxVotes}.
Hypothesis Hmp : 0 <= maxProposals <= INVALID_PROPOSAL_INDEX.
Hypothesis Hmv : 0 < maxVotes < INVALID_VOTE_INDEX.
#[local] Instance shareholder_handling : VoterHandling rolls := handling_by_shareholders maxProposals maxVotes.
#[local] Instance shareholder_laws : VoterLaws shareholder_handling maxProposals maxVotes := by_shareholders_laws maxProposals maxVotes Hmp ltac:(lia).

(** C25: A proposal of shareholders is voted on with one vote per share that existed when it was set: everybody with shares, over however many possession records, has that many votes,
    one after the other, whoever has the shares later; everybody else has none. *)
Theorem one_vote_per_share q q' proposer proposal pv pv' p : voting_ok maxProposals maxVotes pv -> shares_ok maxVotes q -> 0 < q_epoch q -> p_epoch proposal <> 0 ->
  setProposal maxProposals maxVotes q proposer proposal pv = (pv', p) -> p <> INVALID_PROPOSAL_INDEX ->
  forall x, x <> NULL_ID -> let shares := shares_of x (possessions q) in let b := voteIndex q' pv' x p in
  if decide (shares = 0) then b = INVALID_VOTE_INDEX
  else 0 <= b /\ b + shares <= maxVotes /\ voteCount q' pv' b p = shares /\ forall i, 0 <= i < maxVotes -> voterId q' pv' i p = x <-> b <= i < b + shares.
Proof.
  intros Hok Hq He Hep Hset Hp x Hx shares b. pose proof (set_effect maxProposals maxVotes Hmp Hmv q proposer proposal pv Hok Hq He Hep) as Heff. rewrite Hset in Heff.
  destruct Heff as [[E _]|(Hin & _ & _ & (Hv & _) & _ & (_ & _ & Hpoll) & _)]; [done|]. destruct (shareholder_roll_spec maxVotes q Hq) as [_ Hroll]. destruct (Hroll x) as (b0 & Hb0 & Hb1 & Hb2).
  assert (is_block maxVotes (fun i => ((currentProposalShareholders (proposersAndVoters pv')).[p]).[i]) x b0 shares) as Hblk.
  { split; [done|]. split; [done|]. intros i Hi. unfold shares. rewrite <- Hb2 by done. destruct (Hpoll i Hi) as [_ E]. cbn in E. by rewrite E. }
  assert (forall i, 0 <= i < maxVotes -> voterId q' pv' i p = ((currentProposalShareholders (proposersAndVoters pv')).[p]).[i]) as Hid.
  { intros i Hi. by apply (voter_law q' (proposersAndVoters pv') p i Hv Hin Hi). }
  destruct (shareholders_block maxProposals maxVotes (proposersAndVoters pv') p x Hv Hin) as [[Eb Hno]|(_ & Hc & Hblk')].
  - fold (voteIndex q' pv' x p) in Eb. rewrite decide_True; [done|]. destruct Hblk as (_ & _ & Hiff). pose proof (shares_of_nonneg x (possessions q)) as Hn. change (0 <= shares) in Hn. destruct (decide (0 < shares)); [|lia].
    exfalso. apply Hx, (Hno b0 ltac:(lia)). apply Hiff; lia.
  - destruct (block_unique _ _ _ _ _ _ _ Hblk' Hblk Hc) as [E1 E2]. change (shareholders_getVoteIndex maxProposals maxVotes (proposersAndVoters pv') x p) with b in *.
    rewrite decide_False by lia. rewrite E1. split; [done|]. split; [done|]. rewrite <- E1 at 1. split; [done|]. intros i Hi. rewrite Hid by done. rewrite E1 in *. apply Hblk; done.
Qed.
End shareholders.

(** ** Concrete contracts: four slots and eight votes *)
Definition w_context (epoch tick : Z) : QpiContext := mkContext epoch tick (fun i => 100 + i) (fun x => if x =? NULL_ID then 0 else 1) [(7, 3); (5, 2); (7, 3)].
Definition w_options : ProposalData := mkProposal (replicate 256 0) 1 (Z.lor GeneralOptions 2) 0 (replicate 8 0).
Definition w_scalar : ProposalData := mkProposal (replicate 256 0) 1 VariableScalarMean 0 [0; u64 (-10); 10; 1; 0; 0; 0; 0].
#[local] Instance w_data : ProposalDataType := DataV1 true.
#[local] Instance w_data_laws : ProposalDataLaws w_data 8 := DataV1_laws true 8 ltac:(lia).
#[local] Instance w_handling : VoterHandling (list Z) := handling_by_computors 4 8.
#[local] Instance w_laws : VoterLaws w_handling 4 8 := by_computors_laws 4 8 ltac:(unfold INVALID_PROPOSAL_INDEX; lia) ltac:(unfold INVALID_VOTE_INDEX; lia).
Definition w_start : ProposalVoting (list Z) := initial 4 8 (replicate 4 NULL_ID).
Definition w_zero : Summary := mkSummary 0 0 0 0 0 (replicate 8 0).

Definition w_calls : list (QpiContext * call) :=
  [(w_context 1 10, SetProposal 100 w_options); (w_context 1 11, Vote 101 (mkVote 0 2 10 1)); (w_context 1 12, Vote 105 (mkVote 0 2 10 1));
   (w_context 1 12, VoteMulti 102 (mkMulti 0 2 10 (replicate 8 0) [1; 0; 0; 0; 0; 0; 0; 0])); (w_context 1 13, SetProposal 103 w_scalar);
   (w_context 1 14, Vote 101 (mkVote 1 VariableScalarMean 13 5)); (w_context 1 14, Vote 104 (mkVote 1 VariableScalarMean 13 (-2)))].
Definition w_state : ProposalVoting (list Z) := run 4 8 w_calls w_start.

Lemma w_slots : 0 <= 4 <= INVALID_PROPOSAL_INDEX.
Proof. unfold INVALID_PROPOSAL_INDEX. lia. Qed.
Lemma w_votes : 0 < 8 < INVALID_VOTE_INDEX.
Proof. unfold INVALID_VOTE_INDEX. lia. Qed.
Lemma null_proposers n : proposers_ok n (replicate (Z.to_nat n) NULL_ID) \/ n < 0.
Proof.
  destruct (decide (n < 0)); [by right|left]. split; [rewrite alen_replicate; lia|]. intros i j Hi Hj. rewrite !aget_replicate by lia. done.
Qed.
Lemma w_start_empty : empty_slots 4 8 w_start.
Proof.
  apply initial_empty; [apply w_slots| |].
  - destruct (null_proposers 4) as [?|]; [done|lia].
  - intros p Hp. cbn. rewrite proposers_get_in by done. by apply (aget_replicate 4 NULL_ID p).
Qed.
Lemma w_context_ok epoch tick : context_ok (w_context epoch tick).
Proof. intros i j Hi Hj E. cbn in E. lia. Qed.
Lemma w_counts_typed : counts_typed [1; 0; 0; 0; 0; 0; 0; 0].
Proof.
  intros i Hi. assert (i = 0 \/ i = 1 \/ i = 2 \/ i = 3 \/ i = 4 \/ i = 5 \/ i = 6 \/ i = 7) as Hc by lia.
  repeat destruct Hc as [->|Hc]; try subst i; vm_compute; split; (discriminate || reflexivity).
Qed.
Lemma w_calls_ok : Forall (call_ok 4 8) w_calls.
Proof.
  repeat apply Forall_cons_2; [..|constructor]; (split; [apply w_context_ok|split; [cbn; lia|]]); try done; try (cbn; lia). split; [cbn; lia|apply w_counts_typed].
Qed.
Lemma w_state_ok : voting_ok 4 8 w_state.
Proof. apply (run_run_ok 4 8 w_slots w_votes w_calls w_start w_start_empty w_calls_ok). Qed.

Lemma set_proposal_witness : voting_ok 4 8 w_start /\ exists pv', setProposal 4 8 (w_context 1 10) 100 w_options w_start = (pv', 0) /\ new_poll 4 8 (w_context 1 10) 100 w_options pv' 0.
Proof.
  split; [apply w_start_empty|]. pose proof (set_proposal 4 8 w_slots ltac:(lia) (w_context 1 10) 100 w_options w_start (proj1 w_start_empty) (w_context_ok 1 10) ltac:(cbn; lia)) as Hs.
  assert ((setProposal 4 8 (w_context 1 10) 100 w_options w_start).2 = 0) as E by (vm_compute; reflexivity).
  destruct (setProposal 4 8 (w_context 1 10) 100 w_options w_start) as [pv' p]. cbn [snd] in E. subst p. exists pv'. split; [done|].
  destruct Hs as [[Hbad _]|(_ & _ & _ & Hs)]; [discriminate Hbad|]. apply Hs.
Defined.


Lemma ballots_authentic_witness : empty_slots 4 8 w_start /\ Forall (call_ok 4 8) w_calls /\ ballot 8 w_state 0 5 = 1 /\
  exists q c, (q, c) ∈ w_calls /\ q_epoch q = 1 /\ (asks_for c (computor q 5) 0 10 1 \/ overruns c 0 10 1).
Proof.
  split; [apply w_start_empty|]. split; [apply w_calls_ok|]. split; [vm_compute; reflexivity|].
  destruct (ballots_authentic 4 8 w_slots ltac:(lia) w_calls w_start w_start_empty w_calls_ok) as (_ & _ & Ha).
  destruct (Ha 0 5 ltac:(lia) ltac:(lia)) as (q & c & H1 & H2 & H3); [vm_compute; discriminate|vm_compute; discriminate|].
  exists q, c. split; [exact H1|]. split; [exact H2|]. exact H3.
Defined.

Lemma accepted_option_witness : voting_ok 4 8 w_state /\ known 4 w_state 0 /\
  exists s, getVotingSummary 4 8 0 w_zero w_state = (s, true) /\ optionVoteCount s 1 = 2 /\ getAcceptedOption s 3 1 = 1.
Proof.
  split; [apply w_state_ok|]. assert (known 4 w_state 0) as Hk by (split; [lia|vm_compute; discriminate]). split; [exact Hk|].
  destruct (accepted_option 4 8 ltac:(lia) 0 w_zero 3 1 w_state w_state_ok ltac:(lia)) as [_ Ha].
  destruct (Ha Hk) as (s & Es & _ & Hc & _ & _ & Hl); [vm_compute; discriminate|]. exists s. split; [exact Es|]. split; [rewrite Hc by lia; vm_compute; reflexivity|].
  apply Hl; [|split; vm_compute; [discriminate|reflexivity]]. split; [split; vm_compute; [discriminate|reflexivity]|]. split; intros j Hj.
  - change (optionCount (p_type (proposal_in w_state 0))) with 2 in Hj. assert (j = 0 \/ j = 1) as [-> | ->] by lia; vm_compute; discriminate.
  - replace j with 0 by lia. vm_compute. reflexivity.
Defined.

Lemma scalar_mean_witness : voting_ok 4 8 w_state /\ known 4 w_state 1 /\ cast_values 8 (stored w_state 1) = [5; -2] /\
  exists s, getVotingSummary 4 8 1 w_zero w_state = (s, true) /\ Z.abs (2 * scalarVotingResult s - 3) < 2.
Proof.
  split; [apply w_state_ok|]. assert (known 4 w_state 1) as Hk by (split; [lia|vm_compute; discriminate]). split; [exact Hk|]. split; [vm_compute; reflexivity|].
  destruct (scalar_mean 4 8 ltac:(lia) 1 w_zero w_state w_state_ok ltac:(lia) Hk) as (s & Es & _ & _ & Hm); [vm_compute; reflexivity|]. exists s. split; [exact Es|].
  assert (cast_values 8 (stored w_state 1) = [5; -2]) as E by (vm_compute; reflexivity). rewrite E in Hm. rewrite decide_False in Hm by discriminate. exact (proj1 Hm).
Defined.

Lemma voter_histogram_witness : voting_ok 4 8 w_state /\ exists r, getVotes 4 8 (w_context 1 15) 1 104 (mkMulti 0 0 0 [] []) w_state = (r, true) /\
  exists k, 0 <= k < 8 /\ (m_voteValues r).[k] = -2 /\ (m_voteCounts r).[k] = 1.
Proof.
  split; [apply w_state_ok|]. pose proof (voter_histogram 4 8 w_slots ltac:(lia) (w_context 1 15) 1 104 (mkMulti 0 0 0 [] []) w_state w_state_ok (w_context_ok 1 15) ltac:(lia)) as Hv.
  assert ((getVotes 4 8 (w_context 1 15) 1 104 (mkMulti 0 0 0 [] []) w_state).2 = true) as E by (vm_compute; reflexivity).
  destruct (getVotes 4 8 (w_context 1 15) 1 104 (mkMulti 0 0 0 [] []) w_state) as [r okay]. cbn [snd] in E. subst okay. exists r. split; [reflexivity|].
  destruct Hv as [Hv _]. destruct (Hv eq_refl) as (_ & _ & _ & _ & _ & _ & Hh & _). apply Hh; [vm_compute; discriminate|vm_compute; reflexivity].
Defined.

Definition w_rolls : rolls := mkRolls (replicate 4 NULL_ID) (replicate 4 (replicate 8 NULL_ID)).
Definition w_company : ProposalVoting rolls := initial 4 8 w_rolls.
Lemma w_rolls_ok : rolls_ok 4 8 w_rolls.
Proof.
  split; [destruct (null_proposers 4) as [?|]; [done|lia]|]. split; [done|]. intros p Hp. cbn [w_rolls currentProposalShareholders].
  rewrite (aget_replicate 4 (replicate 8 NULL_ID) p) by done. apply (null_roll_ok 8). unfold INVALID_VOTE_INDEX. lia.
Qed.
Lemma w_shares_ok epoch tick : shares_ok 8 (w_context epoch tick).
Proof. split; [|split; [reflexivity|vm_compute; discriminate]]. repeat constructor; vm_compute; done. Qed.

Lemma one_vote_per_share_witness : shares_ok 8 (w_context 1 10) /\
  exists pv', @setProposal _ (handling_by_shareholders 4 8) w_data 4 8 (w_context 1 10) 7 w_options w_company = (pv', 0) /\
    let H := handling_by_shareholders 4 8 in voteIndex (w_context 1 11) pv' 7 0 = 2 /\ voteCount (w_context 1 11) pv' 2 0 = 6.
Proof.
  split; [apply w_shares_ok|]. set (r := @setProposal _ (handling_by_shareholders 4 8) w_data 4 8 (w_context 1 10) 7 w_options w_company).
  assert (r.2 = 0 /\ @voteIndex _ (handling_by_shareholders 4 8) (w_context 1 11) r.1 7 r.2 = 2) as [Ep Ei] by (split; vm_compute; reflexivity).
  destruct r as [pv' p] eqn:E. cbn [fst snd] in *. subst p.
  exists pv'. split; [reflexivity|]. split; [exact Ei|].
  pose proof (one_vote_per_share 4 8 w_slots w_votes (w_context 1 10) (w_context 1 11) 7 w_options w_company pv' 0) as Hs.
  destruct (Hs) with (x := 7) as (_ & _ & Hc & _); [|apply w_shares_ok|cbn; lia|cbn; lia|exact E|vm_compute; discriminate|vm_compute; discriminate|].
  - apply (initial_empty (HL := shareholder_laws 4 8 w_slots w_votes) 4 8 w_slots w_rolls w_rolls_ok). intros p Hp. cbn. rewrite proposers_get_in by exact Hp.
    by apply (aget_replicate 4 NULL_ID p).
  - cbv zeta in Hc. change (shareholder_handling 4 8) with (handling_by_shareholders 4 8) in Hc. rewrite Ei in Hc. exact Hc.
Defined.

(** The counts of voteMulti are summed in 32 bits: one voter with counts that wrap around overwrites the ballots of all voters with higher indices. *)
Definition w_all_no : ProposalVoting (list Z) :=
  run 4 8 ((w_context 1 10, SetProposal 100 w_options) :: map (fun i => (w_context 1 11, Vote (100 + i) (mkVote 0 2 10 0))) (seqZ 0 8)) w_start.
Definition w_wrapping : MultiVote := mkMulti 0 2 10 (replicate 8 1) [2 ^ 32 - 1; 2; 0; 0; 0; 0; 0; 0].
Example voteMulti_wraps_around :
  votes_for 8 w_all_no 0 0 = 8 /\ (voteMulti 4 8 (w_context 1 12) 100 w_wrapping w_all_no).2 = false /\
  votes_for 8 (voteMulti 4 8 (w_context 1 12) 100 w_wrapping w_all_no).1 0 1 = 7.
Proof. vm_compute. done. Qed.
