(* ===== verification/VoteCounter.v ===== *)
(** * The vote counter (src/vote_counter.h)

    Votes are registered per tick and computor; the counts of a range of ticks are packed as
    10-bit numbers into the vote packet of a transaction, and the counts of accepted packets
    are accumulated.  The packet is a stream of bits, most significant bit of each byte
    first: number [idx] takes the bits from [10 * idx] on. *)
From S2P Require Import Prelude.

(** ** 10-bit numbers in a byte array *)
Definition extract10Bit (data : list Z) (idx : Z) : Z :=
  let byte0 := data.[idx + Z.shiftr idx 2] in
  let byte1 := data.[idx + Z.shiftr idx 2 + 1] in
  let last_bit0 := 8 - Z.land idx 3 * 2 in
  let first_bit1 := 10 - last_bit0 in
  let res := u32 (Z.shiftl (Z.land byte0 (Z.shiftl 1 last_bit0 - 1)) first_bit1) in
  Z.lor res (Z.shiftr byte1 (8 - first_bit1)).

Definition update10Bit (data : list Z) (idx value : Z) : list Z :=
  let i0 := idx + Z.shiftr idx 2 in
  let i1 := idx + Z.shiftr idx 2 + 1 in
  let last_bit0 := 8 - Z.land idx 3 * 2 in
  let first_bit1 := 10 - last_bit0 in
  let mask0 := u8 (Z.lnot (Z.shiftl 1 last_bit0 - 1)) in
  let mask1 := u8 (Z.shiftl 1 (8 - first_bit1) - 1) in
  let data := data.[i0 := Z.land (data.[i0]) mask0] in
  let data := data.[i1 := Z.land (data.[i1]) mask1] in
  let ubyte0 := u8 (Z.shiftr value first_bit1) in
  let ubyte1 := u8 (Z.shiftl (Z.land value (Z.shiftl 1 first_bit1 - 1)) (8 - first_bit1)) in
  let data := data.[i0 := Z.lor (data.[i0]) ubyte0] in
  data.[i1 := Z.lor (data.[i1]) ubyte1].

(** Bit [b] of the stream. *)
Definition stream_bit (data : list Z) (b : Z) : bool := Z.testbit (data.[b / 8]) (7 - b mod 8).

Definition bytes_ok (data : list Z) : Prop := forall i, 0 <= i < alen data -> 0 <= data.[i] < 2 ^ 8.

(** The four positions of a number in its five bytes. *)
Lemma position_cases idx :
  0 <= idx ->
  exists q r, idx = 4 * q + r /\ 0 <= r < 4 /\ 0 <= q /\ idx + Z.shiftr idx 2 = 5 * q + r /\ Z.land idx 3 = r.
Proof.
  intros Hi. exists (idx / 4), (idx mod 4). rewrite Z.shiftr_div_pow2 by lia. change (2 ^ 2) with 4.
  replace (Z.land idx 3) with (idx mod 4) by (symmetry; apply (land_mask idx 2); lia).
  Z.div_mod_to_equations. lia.
Qed.

Lemma stream_index q r b :
  0 <= r < 4 -> 10 * (4 * q + r) <= b < 10 * (4 * q + r) + 10 ->
  (b < 10 * (4 * q + r) + (8 - r * 2) /\ b / 8 = 5 * q + r /\ b mod 8 = b - 10 * (4 * q + r) + r * 2) \/
  (10 * (4 * q + r) + (8 - r * 2) <= b /\ b / 8 = 5 * q + r + 1 /\ b mod 8 = b - 10 * (4 * q + r) - (8 - r * 2)).
Proof. intros Hr Hb. Z.div_mod_to_equations. lia. Qed.

(** Bits of an extracted number, most significant first. *)
Lemma extract10Bit_bits data idx t :
  bytes_ok data -> 0 <= idx -> idx + Z.shiftr idx 2 + 1 < alen data -> 0 <= t ->
  Z.testbit (extract10Bit data idx) t = if decide (t < 10) then stream_bit data (10 * idx + 9 - t) else false.
Proof.
  intros Hok Hi Hlen Ht. destruct (position_cases idx Hi) as (q & r & Hidx & Hr & Hq & Hp & Hl).
  unfold extract10Bit. rewrite Hp, Hl in *. set (c := r * 2). rewrite Z.lor_spec, Z.shiftr_spec by lia.
  rewrite Z.shiftl_1_l, land_mask by lia. unfold u32. rewrite testbit_mod_pow2 by lia.
  rewrite Z.shiftl_spec by lia.
  pose proof (Hok (5 * q + r) ltac:(lia)) as H0. pose proof (Hok (5 * q + r + 1) ltac:(lia)) as H1.
  replace (10 - (8 - c)) with (2 + c) by lia. replace (8 - (2 + c)) with (6 - c) by lia.
  destruct (decide (t < 10)) as [Hlt|Hge].
  - unfold stream_bit. subst idx.
    destruct (stream_index q r (10 * (4 * q + r) + 9 - t) Hr ltac:(lia)) as [(Hb & -> & ->)|(Hb & -> & ->)].
    + rewrite testbit_mod_pow2 by lia. rewrite (proj2 (Z.ltb_lt t 32)) by lia.
      rewrite (testbit_high (data.[5 * q + r + 1]) 8) by lia. rewrite orb_false_r. cbn [andb].
      rewrite (proj2 (Z.ltb_lt _ _)) by lia. cbn [andb]. f_equal. lia.
    + rewrite (Z.testbit_neg_r _ (t - (2 + c))) by lia. rewrite andb_false_r. cbn [orb]. f_equal. lia.
  - rewrite (testbit_high (data.[5 * q + r + 1]) 8) by lia. rewrite orb_false_r.
    rewrite testbit_mod_pow2 by lia. rewrite (proj2 (Z.ltb_ge (t - (2 + c)) (8 - c))) by lia. cbn [andb]. by rewrite andb_false_r.
Qed.

Lemma extract10Bit_range data idx :
  bytes_ok data -> 0 <= idx -> idx + Z.shiftr idx 2 + 1 < alen data -> 0 <= extract10Bit data idx < 2 ^ 10.
Proof.
  intros Hok Hi Hlen. destruct (position_cases idx Hi) as (q & r & Hidx & Hr & Hq & Hp & Hl).
  assert (0 <= extract10Bit data idx) as H0.
  { unfold extract10Bit. apply Z.lor_nonneg. split; [apply u32_range|]. apply Z.shiftr_nonneg.
    rewrite Hp in *. pose proof (Hok (5 * q + r + 1) ltac:(lia)). lia. }
  split; [done|]. apply testbit_bound; [lia|done|]. intros t Ht. rewrite extract10Bit_bits by (done || lia).
  by rewrite decide_False by lia.
Qed.

(** ** Writing a number *)
Lemma update10Bit_bytes data idx v q r :
  idx = 4 * q + r -> 0 <= r < 4 -> 0 <= q -> idx + Z.shiftr idx 2 = 5 * q + r -> Z.land idx 3 = r ->
  5 * q + r + 1 < alen data ->
  forall B, (update10Bit data idx v).[B] =
    if decide (B = 5 * q + r) then Z.lor (Z.land (data.[B]) (u8 (Z.lnot (2 ^ (8 - r * 2) - 1)))) (u8 (Z.shiftr v (2 + r * 2)))
    else if decide (B = 5 * q + r + 1)
    then Z.lor (Z.land (data.[B]) (u8 (2 ^ (6 - r * 2) - 1))) (u8 (Z.shiftl (v mod 2 ^ (2 + r * 2)) (6 - r * 2)))
    else data.[B].
Proof.
  intros Hidx Hr Hq Hp Hl Hlen B. unfold update10Bit. rewrite Hp, Hl.
  replace (10 - (8 - r * 2)) with (2 + r * 2) by lia. replace (8 - (2 + r * 2)) with (6 - r * 2) by lia.
  rewrite !Z.shiftl_1_l, land_mask by lia. rewrite !aget_aset, !alen_aset.
  destruct (decide (B = 5 * q + r)) as [->|H0].
  - rewrite (decide_False (P := 5 * q + r + 1 = 5 * q + r /\ _)) by lia.
    rewrite !(decide_True (P := 5 * q + r = 5 * q + r /\ _)) by lia.
    rewrite (decide_False (P := 5 * q + r + 1 = 5 * q + r /\ _)) by lia. done.
  - destruct (decide (B = 5 * q + r + 1)) as [->|H1].
    + rewrite !(decide_True (P := 5 * q + r + 1 = 5 * q + r + 1 /\ _)) by lia.
      rewrite !(decide_False (P := 5 * q + r = 5 * q + r + 1 /\ _)) by lia. done.
    + rewrite !decide_False by lia. done.
Qed.

Lemma alen_update10Bit data idx v : alen (update10Bit data idx v) = alen data.
Proof. unfold update10Bit. by rewrite !alen_aset. Qed.

Lemma u8_range x : 0 <= u8 x < 2 ^ 8.
Proof. unfold u8. apply Z.mod_pos_bound. lia. Qed.

Lemma update10Bit_ok data idx v :
  bytes_ok data -> 0 <= idx -> idx + Z.shiftr idx 2 + 1 < alen data -> 0 <= v < 2 ^ 10 ->
  bytes_ok (update10Bit data idx v) /\
  forall b, 0 <= b < 8 * alen data ->
    stream_bit (update10Bit data idx v) b =
    if decide (10 * idx <= b < 10 * idx + 10) then Z.testbit v (9 - (b - 10 * idx)) else stream_bit data b.
Proof.
  intros Hok Hi Hlen Hv. destruct (position_cases idx Hi) as (q & r & Hidx & Hr & Hq & Hp & Hl). rewrite Hp in Hlen.
  pose proof (update10Bit_bytes data idx v q r Hidx Hr Hq Hp Hl ltac:(lia)) as HB.
  assert (forall B y z, 0 <= B < alen data -> 0 <= Z.lor (Z.land (data.[B]) (u8 y)) (u8 z) < 2 ^ 8) as Hbyte.
  { intros B y z HBr. pose proof (u8_range z). pose proof (u8_range y). pose proof (Hok B HBr).
    assert (0 <= Z.land (data.[B]) (u8 y)) by (apply Z.land_nonneg; lia).
    split; [apply Z.lor_nonneg; lia|]. apply testbit_bound; [lia|apply Z.lor_nonneg; lia|]. intros i Hi8.
    rewrite Z.lor_spec, Z.land_spec, (testbit_high (data.[B]) 8), (testbit_high (u8 z) 8) by lia. done. }
  split.
  - intros B HBr. rewrite alen_update10Bit in HBr. rewrite HB. repeat case_decide; [by apply Hbyte..|by apply Hok].
  - intros b Hb. unfold stream_bit. rewrite HB. set (s := 7 - b mod 8).
    assert (0 <= s < 8) as Hs by (unfold s; Z.div_mod_to_equations; lia).
    destruct (decide (b / 8 = 5 * q + r)) as [E|E].
    + rewrite Z.lor_spec, Z.land_spec. unfold u8. rewrite !testbit_mod_pow2, Z.lnot_spec by lia.
      rewrite Z.shiftr_spec by lia.
      replace (2 ^ (8 - r * 2) - 1) with (Z.ones (8 - r * 2)) by (rewrite Z.ones_equiv; lia).
      rewrite Z.testbit_ones_nonneg by lia. rewrite (proj2 (Z.ltb_lt s 8)) by lia. cbn [andb].
      destruct (Z.ltb_spec s (8 - r * 2)) as [Hlt|Hge]; cbn [negb].
      * rewrite andb_false_r. cbn [orb]. rewrite decide_True by (unfold s in *; Z.div_mod_to_equations; lia).
        f_equal. unfold s in *. Z.div_mod_to_equations; lia.
      * rewrite andb_true_r, (testbit_high v 10), orb_false_r by lia.
        rewrite decide_False by (unfold s in *; Z.div_mod_to_equations; lia). done.
    + destruct (decide (b / 8 = 5 * q + r + 1)) as [E1|E1].
      * rewrite Z.lor_spec, Z.land_spec. unfold u8. rewrite !testbit_mod_pow2 by lia.
        rewrite Z.shiftl_spec by lia.
        replace (2 ^ (6 - r * 2) - 1) with (Z.ones (6 - r * 2)) by (rewrite Z.ones_equiv; lia).
        rewrite Z.testbit_ones_nonneg by lia. rewrite (proj2 (Z.ltb_lt s 8)) by lia. cbn [andb].
        destruct (Z.ltb_spec s (6 - r * 2)) as [Hlt|Hge].
        -- rewrite (Z.testbit_neg_r _ (s - (6 - r * 2))) by lia. rewrite andb_true_r, orb_false_r.
           rewrite decide_False by (unfold s in *; Z.div_mod_to_equations; lia). done.
        -- rewrite andb_false_r. cbn [orb]. rewrite testbit_mod_pow2 by lia.
           rewrite (proj2 (Z.ltb_lt _ _)) by lia. cbn [andb].
           rewrite decide_True by (unfold s in *; Z.div_mod_to_equations; lia).
           f_equal. unfold s in *. Z.div_mod_to_equations; lia.
      * rewrite decide_False; [done|]. Z.div_mod_to_equations; lia.
Qed.

(** Reading back: the number written, and every other number unchanged. *)
Lemma extract_update data idx v j :
  bytes_ok data -> 0 <= idx -> idx + Z.shiftr idx 2 + 1 < alen data -> 0 <= v < 2 ^ 10 ->
  0 <= j -> j + Z.shiftr j 2 + 1 < alen data ->
  extract10Bit (update10Bit data idx v) j = if decide (j = idx) then v else extract10Bit data j.
Proof.
  intros Hok Hi Hlen Hv Hj Hjlen. destruct (update10Bit_ok data idx v Hok Hi Hlen Hv) as [Hok' Hbits].
  apply Z.bits_inj'. intros t Ht. rewrite extract10Bit_bits by (rewrite ?alen_update10Bit; done).
  destruct (position_cases j Hj) as (q & r & Hidx & Hr & Hq & Hp & Hl). rewrite Hp in Hjlen.
  destruct (decide (t < 10)) as [Hlt|Hge].
  - rewrite Hbits by lia. destruct (decide (j = idx)) as [->|Hne].
    + rewrite decide_True by lia. f_equal. lia.
    + rewrite decide_False by lia. rewrite extract10Bit_bits by (rewrite ?Hp; done). by rewrite decide_True.
  - destruct (decide (j = idx)) as [->|Hne]; [symmetry; apply (testbit_high v 10); lia|].
    rewrite extract10Bit_bits by (rewrite ?Hp; done). by rewrite decide_False.
Qed.

(** ** The counter *)
Section VoteCounter.
(** [NUMBER_OF_COMPUTORS], [QUORUM] and [VOTE_COUNTER_DATA_SIZE_IN_BYTES], with the two static
    assertions of the header. *)
Variables N QUORUM DATA_SIZE : Z.
Hypothesis HN : 0 < N <= 2 ^ 10.
Hypothesis Hsize : N * 10 <= DATA_SIZE * 8.

Record VoteCounter := mkCounter {
  votes : list (list Z);
  accumulatedVoteCount : list Z;
  buffer : list Z
}.

Definition init (c : VoteCounter) : VoteCounter :=
  mkCounter (replicate (Z.to_nat (N * 2)) (replicate (Z.to_nat N) 0)) (replicate (Z.to_nat N) 0) (buffer c).

Definition registerNewVote (tick computorIdx : Z) (c : VoteCounter) : VoteCounter :=
  let slotId := tick mod (N * 2) in
  mkCounter ((votes c).[slotId := (votes c).[slotId].[computorIdx := tick]]) (accumulatedVoteCount c) (buffer c).

(** [for (j < NUMBER_OF_COMPUTORS) if (votes[slotId][j] == i) buffer[j]++] *)
Definition count_tick (vs : list (list Z)) (i : Z) (b : list Z) : list Z :=
  let slotId := i mod (N * 2) in
  for_loop (Z.to_nat N) 0 (fun j b => if vs.[slotId].[j] =? i then b.[j := u32 (b.[j] + 1)] else b) b.

(** [setMem(votePacket, sizeof(votePacket), 0)]: the parameter is a pointer, 8 bytes are cleared. *)
Definition clear8 (packet : list Z) : list Z := for_loop 8 0 (fun i p => p.[i := 0]) packet.

Definition compressNewVotesPacket (fromTick toTick computorIdx : Z) (votePacket : list Z) (c : VoteCounter) :
    VoteCounter * list Z :=
  let b := for_loop (Z.to_nat (toTick - fromTick)) fromTick (count_tick (votes c)) (replicate (Z.to_nat N) 0) in
  let b := b.[computorIdx := 0] in
  (mkCounter (votes c) (accumulatedVoteCount c) b,
   for_loop (Z.to_nat N) 0 (fun i p => update10Bit p i (b.[i])) (clear8 votePacket)).

(** The loop of validateNewVotesPacket: buffer and sum, [None] at the early return. *)
Fixpoint validate_loop (n : nat) (i : Z) (packet b : list Z) (sum : Z) : list Z * option Z :=
  match n with
  | O => (b, Some sum)
  | S n' =>
      let v := extract10Bit packet i in
      let b := b.[i := v] in
      if N <? v then (b, None) else validate_loop n' (i + 1) packet b (u64 (sum + v))
  end.

Definition validateNewVotesPacket (votePacket : list Z) (computorIdx : Z) (c : VoteCounter) : VoteCounter * bool :=
  let '(b, sum) := validate_loop (Z.to_nat N) 0 votePacket (buffer c) 0 in
  (mkCounter (votes c) (accumulatedVoteCount c) b,
   match sum with
   | None => false
   | Some sum => negb (sum <? (N - 1) * QUORUM) && (b.[computorIdx] =? 0)
   end).

Definition accumulateVoteCount (computorIdx value : Z) (c : VoteCounter) : VoteCounter :=
  mkCounter (votes c)
    ((accumulatedVoteCount c).[computorIdx := u64 ((accumulatedVoteCount c).[computorIdx] + value)]) (buffer c).

Definition addVotes (newVotePacket : list Z) (computorIdx : Z) (c : VoteCounter) : VoteCounter :=
  let '(c, ok) := validateNewVotesPacket newVotePacket computorIdx c in
  if ok then for_loop (Z.to_nat N) 0 (fun i c => accumulateVoteCount i (extract10Bit newVotePacket i) c) c else c.

Definition getVoteCount (computorIdx : Z) (c : VoteCounter) : Z := (accumulatedVoteCount c).[computorIdx].

(** ** What the packet holds *)

(** Number of ticks of [from, to) in which [j] voted, as far as the slots still show it. *)
Definition votes_between (vs : list (list Z)) (fromTick toTick j : Z) : Z :=
  countZ (fun n => vs.[(fromTick + n) mod (N * 2)].[j] =? fromTick + n) (Z.to_nat (toTick - fromTick)).

Lemma index_in_packet j : 0 <= j < N -> 0 <= j + Z.shiftr j 2 + 1 < DATA_SIZE.
Proof.
  intros Hj. rewrite Z.shiftr_div_pow2 by lia. change (2 ^ 2) with 4. Z.div_mod_to_equations. lia.
Qed.

Lemma count_tick_ok vs i b :
  alen b = N -> (forall j, 0 <= j < N -> 0 <= b.[j] < 2 ^ 31) ->
  alen (count_tick vs i b) = N /\
  forall j, 0 <= j < N -> (count_tick vs i b).[j] = b.[j] + Z.b2z (vs.[i mod (N * 2)].[j] =? i).
Proof.
  intros Hl Hb. unfold count_tick.
  match goal with |- context [for_loop ?n 0 ?f b] =>
    pose proof (for_loop_ind (fun m b' => alen b' = N /\ forall j, 0 <= j < N ->
      b'.[j] = b.[j] + (if decide (j < m) then Z.b2z (vs.[i mod (N * 2)].[j] =? i) else 0)) f n 0 b) as Hf end.
  rewrite Z2Nat.id in Hf by lia. destruct Hf as [Hl' Hf].
  - split; [done|]. intros j Hj. rewrite decide_False by lia. lia.
  - intros m b' Hm [Hl' Hj']. destruct (Z.eqb_spec (vs.[i mod (N * 2)].[m]) i) as [E|E].
    + split; [by rewrite alen_aset|]. intros j Hj. rewrite aget_aset.
      destruct (decide (j = m)) as [->|Hne].
      * rewrite decide_True by lia. rewrite Hj', decide_False by lia. rewrite decide_True by lia.
        rewrite E, Z.eqb_refl. cbn. pose proof (Hb m ltac:(lia)). rewrite u32_small by (unfold is_u32; lia). lia.
      * rewrite decide_False by lia. rewrite Hj' by done. f_equal. repeat case_decide; (done || lia).
    + split; [done|]. intros j Hj. rewrite Hj' by done. f_equal. destruct (decide (j = m)) as [->|Hne].
      * rewrite decide_False, decide_True by lia. by rewrite (proj2 (Z.eqb_neq _ _) E).
      * repeat case_decide; (done || lia).
  - split; [done|]. intros j Hj. rewrite Hf, decide_True by lia. done.
Qed.

Lemma count_ticks_ok vs fromTick toTick :
  toTick - fromTick < 2 ^ 10 ->
  let b := for_loop (Z.to_nat (toTick - fromTick)) fromTick (count_tick vs) (replicate (Z.to_nat N) 0) in
  alen b = N /\ forall j, 0 <= j < N -> b.[j] = votes_between vs fromTick toTick j.
Proof.
  intros Hr. unfold votes_between. set (n := Z.to_nat (toTick - fromTick)).
  pose proof (for_loop_ind (fun i b => alen b = N /\ forall j, 0 <= j < N ->
    b.[j] = countZ (fun n => vs.[(fromTick + n) mod (N * 2)].[j] =? fromTick + n) (Z.to_nat (i - fromTick)))
    (count_tick vs) n fromTick (replicate (Z.to_nat N) 0)) as Hf.
  cbn beta in Hf. replace (Z.to_nat (fromTick + Z.of_nat n - fromTick)) with n in Hf by lia. apply Hf; clear Hf.
  - split; [rewrite alen_replicate; lia|]. intros j Hj. rewrite aget_replicate by lia. by rewrite Z.sub_diag.
  - intros i b Hi [Hl Hb]. destruct (count_tick_ok vs i b Hl) as [Hl' Hb'].
    { intros j Hj. rewrite Hb by done.
      pose proof (countZ_range (fun n => vs.[(fromTick + n) mod (N * 2)].[j] =? fromTick + n) (Z.to_nat (i - fromTick))). lia. }
    split; [done|]. intros j Hj. rewrite Hb', Hb by done.
    replace (i + 1 - fromTick) with (i - fromTick + 1) by lia. rewrite countZ_S by lia.
    by replace (fromTick + (i - fromTick)) with i by lia.
Qed.

Lemma clear8_ok packet : bytes_ok packet -> bytes_ok (clear8 packet) /\ alen (clear8 packet) = alen packet.
Proof.
  intros Hok. unfold clear8. pose proof (for_loop_ind (fun _ p => bytes_ok p /\ alen p = alen packet)
    (fun i p => p.[i := 0]) 8 0 packet) as Hf. apply Hf; [done|]. intros i p _ [Hp Hl]. split; [|by rewrite alen_aset].
  intros x Hx. rewrite alen_aset in Hx. rewrite aget_aset. case_decide; [lia|]. by apply Hp.
Qed.

Lemma write_numbers b packet n :
  bytes_ok packet -> alen packet = DATA_SIZE -> Z.of_nat n <= N -> (forall i, 0 <= i < N -> 0 <= b.[i] < 2 ^ 10) ->
  let p := for_loop n 0 (fun i p => update10Bit p i (b.[i])) packet in
  bytes_ok p /\ alen p = DATA_SIZE /\ forall j, 0 <= j < N ->
    extract10Bit p j = if decide (j < Z.of_nat n) then b.[j] else extract10Bit packet j.
Proof.
  intros Hok Hl Hn Hb. pose proof (for_loop_ind (fun m p => bytes_ok p /\ alen p = DATA_SIZE /\ forall j, 0 <= j < N ->
    extract10Bit p j = if decide (j < m) then b.[j] else extract10Bit packet j)
    (fun i p => update10Bit p i (b.[i])) n 0 packet) as Hf. rewrite Z.add_0_l in Hf. apply Hf; clear Hf.
  - split; [done|]. split; [done|]. intros j Hj. by rewrite decide_False by lia.
  - intros i p Hi (Hp & Hpl & Hx). pose proof (index_in_packet i ltac:(lia)).
    destruct (update10Bit_ok p i (b.[i]) Hp ltac:(lia) ltac:(lia) (Hb i ltac:(lia))) as [Hp' _].
    split; [done|]. split; [by rewrite alen_update10Bit|]. intros j Hj. pose proof (index_in_packet j Hj).
    rewrite extract_update by (done || lia || (apply Hb; lia)). rewrite Hx by done.
    destruct (decide (j = i)) as [->|]; [by rewrite decide_True by lia|]. repeat case_decide; (done || lia).
Qed.

Lemma compress_ok c fromTick toTick computorIdx packet :
  bytes_ok packet -> alen packet = DATA_SIZE -> 0 <= computorIdx < N -> toTick - fromTick < 2 ^ 10 ->
  let '(c', p) := compressNewVotesPacket fromTick toTick computorIdx packet c in
  votes c' = votes c /\ accumulatedVoteCount c' = accumulatedVoteCount c /\ bytes_ok p /\ alen p = DATA_SIZE /\
  forall j, 0 <= j < N ->
    extract10Bit p j = if decide (j = computorIdx) then 0 else votes_between (votes c) fromTick toTick j.
Proof.
  intros Hok Hl Hc Hr. unfold compressNewVotesPacket. cbn [votes accumulatedVoteCount].
  destruct (count_ticks_ok (votes c) fromTick toTick Hr) as [Hbl Hb]. set (b := for_loop _ _ (count_tick _) _) in *.
  destruct (clear8_ok packet Hok) as [Hok8 Hl8].
  assert (forall i, 0 <= i < N -> (b.[computorIdx := 0]).[i] = if decide (i = computorIdx) then 0 else votes_between (votes c) fromTick toTick i) as Hb0.
  { intros i Hi. rewrite aget_aset. destruct (decide (i = computorIdx)) as [->|]; [by rewrite decide_True by lia|].
    rewrite decide_False by lia. by apply Hb. }
  split; [done|]. split; [done|].
  destruct (write_numbers (b.[computorIdx := 0]) (clear8 packet) (Z.to_nat N)) as (H1 & H2 & H3); [done|lia|lia| |].
  { intros i Hi. rewrite Hb0 by done. case_decide; [lia|]. unfold votes_between.
    match goal with |- 0 <= countZ ?P ?n < _ => pose proof (countZ_range P n) end. lia. }
  split; [done|]. split; [done|]. intros j Hj. rewrite H3 by done. rewrite decide_True by lia. by apply Hb0.
Qed.

(** *** Registration *)
Definition register_all (regs : list (Z * Z)) (c : VoteCounter) : VoteCounter :=
  foldl (fun c '(tick, computorIdx) => registerNewVote tick computorIdx c) c regs.

(** What the slots hold after some registrations. *)
Definition slots_show (regs : list (Z * Z)) (vs : list (list Z)) : Prop :=
  alen vs = N * 2 /\ (forall s, 0 <= s < N * 2 -> alen (vs.[s]) = N) /\
  (forall t j, In (t, j) regs -> vs.[t mod (N * 2)].[j] = t) /\
  (forall s j, 0 <= s < N * 2 -> 0 <= j < N -> vs.[s].[j] = 0 \/ In (vs.[s].[j], j) regs).

Lemma same_slot lo t t' : lo <= t < lo + N * 2 -> lo <= t' < lo + N * 2 -> t mod (N * 2) = t' mod (N * 2) -> t = t'.
Proof.
  intros Ht Ht' He.
  pose proof (Z.div_mod t (N * 2) ltac:(lia)). pose proof (Z.div_mod t' (N * 2) ltac:(lia)).
  assert (t / (N * 2) = t' / (N * 2)); [|nia]. rewrite He in *. nia.
Qed.

Lemma register_ok lo done_ t j vs acc b :
  (forall t' j', In (t', j') done_ -> lo <= t' < lo + N * 2) -> lo <= t < lo + N * 2 -> 0 <= j < N ->
  slots_show done_ vs ->
  slots_show (done_ ++ [(t, j)]) (votes (registerNewVote t j (mkCounter vs acc b))).
Proof.
  intros Hwin Ht Hj (Hl & Hrow & Hin & Hfrom). cbn [registerNewVote votes].
  assert (0 <= t mod (N * 2) < N * 2) as Hs by (apply Z.mod_pos_bound; lia).
  set (s := t mod (N * 2)) in *.
  assert (forall s' j', (vs.[s := vs.[s].[j := t]]).[s'].[j'] = if decide (s' = s /\ j' = j) then t else vs.[s'].[j']) as Hget.
  { intros s' j'. rewrite aget_aset. destruct (decide (s' = s)) as [->|Hne].
    - rewrite decide_True by lia. rewrite aget_aset. destruct (decide (j' = j)) as [->|Hnj].
      + rewrite decide_True by (rewrite Hrow by done; lia). by rewrite decide_True.
      + rewrite !decide_False by lia. done.
    - rewrite !decide_False by lia. done. }
  split; [by rewrite alen_aset|]. split; [|split].
  - intros s' Hs'. rewrite aget_aset. case_decide as Hd; [|by apply Hrow]. rewrite alen_aset. by apply Hrow.
  - intros t' j' Hin'. rewrite Hget. case_decide as Hd.
    + destruct Hd as [E ->]. apply in_app_or in Hin' as [Hin'|[E'|[]]]; [|by injection E' as ->].
      eapply (same_slot lo); [done|by eapply Hwin|by rewrite E].
    + apply in_app_or in Hin' as [Hin'|[[= -> ->]|[]]]; [by apply Hin|]. by destruct Hd.
  - intros s' j' Hs' Hj'. rewrite Hget. case_decide as Hd.
    + right. destruct Hd as [_ ->]. apply in_or_app. right. by left.
    + destruct (Hfrom s' j' Hs' Hj') as [E|E]; [by left|right]. apply in_or_app. by left.
Qed.

Lemma register_all_ok lo regs done_ c :
  (forall t j, In (t, j) (done_ ++ regs) -> lo <= t < lo + N * 2 /\ 0 <= j < N) -> slots_show done_ (votes c) ->
  slots_show (done_ ++ regs) (votes (register_all regs c)) /\
  accumulatedVoteCount (register_all regs c) = accumulatedVoteCount c.
Proof.
  revert done_ c. induction regs as [|[t j] regs IH]; intros done_ c Hall Hs; cbn [register_all foldl].
  - by rewrite app_nil_r.
  - replace (done_ ++ (t, j) :: regs) with ((done_ ++ [(t, j)]) ++ regs) in * by (by rewrite <- app_assoc).
    destruct (Hall t j) as [Ht Hj].
    { apply in_or_app. left. apply in_or_app. right. by left. }
    apply (IH (done_ ++ [(t, j)]) (registerNewVote t j c)); [done|]. destruct c as [vs acc b].
    apply (register_ok lo); [|done|done|done]. intros t' j' Hin. apply (Hall t' j'). apply in_or_app. left. apply in_or_app. by left.
Qed.

(** after [init] and any sequence of registered votes whose ticks lie in a window of
    2 * NUMBER_OF_COMPUTORS ticks, the packet that compressNewVotesPacket builds for a range
    of fewer than 1024 positive ticks of that window holds, for every computor but the sender,
    the number of ticks of the range in which a vote was registered, and 0 for the sender;
    every count is read back with extract10Bit. *)
Theorem vote_packet_counts regs c lo fromTick toTick computorIdx packet :
  (forall t j, In (t, j) regs -> lo <= t < lo + N * 2 /\ 0 <= j < N) ->
  bytes_ok packet -> alen packet = DATA_SIZE -> 0 <= computorIdx < N ->
  0 < fromTick -> lo <= fromTick -> toTick <= lo + N * 2 -> toTick - fromTick < 2 ^ 10 ->
  let '(_, p) := compressNewVotesPacket fromTick toTick computorIdx packet (register_all regs (init c)) in
  forall j, 0 <= j < N ->
    extract10Bit p j =
      if decide (j = computorIdx) then 0
      else countZ (fun n => bool_decide ((fromTick + n, j) ∈ regs)) (Z.to_nat (toTick - fromTick)).
Proof.
  intros Hregs Hok Hl Hc H0 Hlo Hto Hr.
  destruct (register_all_ok lo regs [] (init c)) as [(_ & _ & Hin & Hfrom) _]; [done| |].
  { cbn [init votes]. split; [rewrite alen_replicate; lia|]. split; [|split; [done|]].
    - intros s Hs. rewrite aget_replicate by lia. rewrite alen_replicate. lia.
    - intros s j Hs Hj. left. rewrite !aget_replicate by lia. done. }
  cbn [app] in Hin, Hfrom.
  pose proof (compress_ok (register_all regs (init c)) fromTick toTick computorIdx packet Hok Hl Hc Hr) as Hcmp.
  destruct (compressNewVotesPacket _ _ _ _ _) as [c' p]. destruct Hcmp as (_ & _ & _ & _ & Hx).
  intros j Hj. rewrite Hx by done. case_decide; [done|]. unfold votes_between. apply countZ_ext. intros n Hn.
  apply eq_true_iff_eq. rewrite Z.eqb_eq, bool_decide_eq_true, list_elem_of_In. split; [|by apply Hin].
  intros E. destruct (Hfrom ((fromTick + n) mod (N * 2)) j) as [Hz|Hz]; [apply Z.mod_pos_bound; lia|done| |].
  - lia.
  - by rewrite E in Hz.
Qed.

(** *** Validation and accumulation *)
Definition packet_ok (packet : list Z) (computorIdx : Z) : Prop :=
  (forall i, 0 <= i < N -> extract10Bit packet i <= N) /\
  (N - 1) * QUORUM <= sumZ (extract10Bit packet) (Z.to_nat N) /\ extract10Bit packet computorIdx = 0.

Lemma packet_number packet i :
  bytes_ok packet -> alen packet = DATA_SIZE -> 0 <= i < N -> 0 <= extract10Bit packet i < 2 ^ 10.
Proof. intros Hok Hl Hi. pose proof (index_in_packet i Hi). apply extract10Bit_range; [done|lia|lia]. Qed.

Lemma validate_loop_ok packet n i b :
  bytes_ok packet -> alen packet = DATA_SIZE -> alen b = N -> 0 <= i -> i + Z.of_nat n = N ->
  let '(b', r) := validate_loop n i packet b (sumZ (extract10Bit packet) (Z.to_nat i)) in
  alen b' = N /\ (forall j, j < i -> b'.[j] = b.[j]) /\
  match r with
  | None => exists j, i <= j < N /\ N < extract10Bit packet j
  | Some sum => sum = sumZ (extract10Bit packet) (Z.to_nat N) /\
      forall j, i <= j < N -> extract10Bit packet j <= N /\ b'.[j] = extract10Bit packet j
  end.
Proof.
  intros Hok Hl. revert i b. induction n as [|n IH]; intros i b Hb Hi Hn; cbn [validate_loop].
  - split; [done|]. split; [done|]. split; [f_equal; lia|]. intros j Hj. lia.
  - pose proof (packet_number packet i Hok Hl ltac:(lia)) as Hv. set (v := extract10Bit packet i) in *.
    destruct (Z.ltb_spec N v) as [Hlt|Hge].
    { split; [by rewrite alen_aset|]. split; [intros j Hj; apply aget_aset_ne; lia|]. exists i. split; [lia|done]. }
    assert (u64 (sumZ (extract10Bit packet) (Z.to_nat i) + v) = sumZ (extract10Bit packet) (Z.to_nat (i + 1))) as ->.
    { replace (Z.to_nat (i + 1)) with (S (Z.to_nat i)) by lia. cbn [sumZ]. rewrite Z2Nat.id by lia. fold v. apply u64_small.
      assert (forall m, Z.of_nat m <= N -> 0 <= sumZ (extract10Bit packet) m <= 2 ^ 10 * Z.of_nat m) as Hs.
      { induction m as [|m IHm]; intros Hm; cbn [sumZ]; [lia|].
        pose proof (packet_number packet (Z.of_nat m) Hok Hl ltac:(lia)). specialize (IHm ltac:(lia)). lia. }
      specialize (Hs (Z.to_nat i) ltac:(lia)). unfold is_u64. lia. }
    specialize (IH (i + 1) (b.[i := v])). rewrite alen_aset in IH. specialize (IH Hb ltac:(lia) ltac:(lia)).
    destruct (validate_loop n (i + 1) packet _ _) as [b' r]. destruct IH as (H1 & H2 & H3).
    split; [done|]. split; [intros j Hj; rewrite H2 by lia; apply aget_aset_ne; lia|].
    destruct r as [sum|].
    + destruct H3 as [-> H3]. split; [done|]. intros j Hj. destruct (decide (j = i)) as [->|]; [|apply H3; lia].
      split; [done|]. rewrite H2 by lia. apply aget_aset_eq. lia.
    + destruct H3 as (j & Hj & Hlt). exists j. split; [lia|done].
Qed.

Lemma validate_ok packet computorIdx c :
  bytes_ok packet -> alen packet = DATA_SIZE -> alen (buffer c) = N -> 0 <= computorIdx < N ->
  let '(c', ok) := validateNewVotesPacket packet computorIdx c in
  votes c' = votes c /\ accumulatedVoteCount c' = accumulatedVoteCount c /\ alen (buffer c') = N /\
  (ok = true <-> packet_ok packet computorIdx).
Proof.
  intros Hok Hl Hb Hc. unfold validateNewVotesPacket.
  pose proof (validate_loop_ok packet (Z.to_nat N) 0 (buffer c) Hok Hl Hb ltac:(lia) ltac:(lia)) as Hv.
  cbn [sumZ Z.to_nat] in Hv. destruct (validate_loop _ _ _ _ _) as [b r]. destruct Hv as (Hbl & _ & Hr).
  cbn [votes accumulatedVoteCount buffer]. split; [done|]. split; [done|]. split; [done|]. destruct r as [sum|].
  - destruct Hr as [-> Hr]. destruct (Hr computorIdx ltac:(lia)) as [_ ->].
    rewrite andb_true_iff, negb_true_iff, Z.ltb_ge, Z.eqb_eq. unfold packet_ok. split; [|tauto].
    intros [? ?]. split; [|done]. intros i Hi. by apply Hr.
  - destruct Hr as (j & Hj & Hlt). split; [done|]. intros [Hall _]. specialize (Hall j ltac:(lia)). lia.
Qed.

(** addVotes accepts a packet exactly if no count exceeds NUMBER_OF_COMPUTORS, the counts
    add up to at least (NUMBER_OF_COMPUTORS - 1) * QUORUM and the count of the sender is 0.
    An accepted packet adds each count to the accumulated votes of its computor (modulo
    2^64); a rejected packet changes neither the votes nor the accumulated counts. *)
Theorem addVotes_accumulates packet computorIdx c :
  bytes_ok packet -> alen packet = DATA_SIZE -> alen (buffer c) = N -> alen (accumulatedVoteCount c) = N ->
  0 <= computorIdx < N ->
  let c' := addVotes packet computorIdx c in
  votes c' = votes c /\
  ((packet_ok packet computorIdx /\
    forall j, 0 <= j < N -> getVoteCount j c' = u64 (getVoteCount j c + extract10Bit packet j)) \/
   (~ packet_ok packet computorIdx /\ accumulatedVoteCount c' = accumulatedVoteCount c)).
Proof.
  intros Hok Hl Hb Ha Hc. unfold addVotes. pose proof (validate_ok packet computorIdx c Hok Hl Hb Hc) as Hv.
  destruct (validateNewVotesPacket packet computorIdx c) as [c1 ok]. destruct Hv as (Hvotes & Hacc & _ & Hiff).
  destruct ok; [|split; [done|]; right; split; [by rewrite <- Hiff|done]].
  pose proof (for_loop_ind (fun i c2 => votes c2 = votes c /\ alen (accumulatedVoteCount c2) = N /\
    forall j, 0 <= j < N -> getVoteCount j c2 =
      if decide (j < i) then u64 (getVoteCount j c + extract10Bit packet j) else getVoteCount j c)
    (fun i c => accumulateVoteCount i (extract10Bit packet i) c) (Z.to_nat N) 0 c1) as Hf.
  rewrite Z2Nat.id in Hf by lia. destruct Hf as (H1 & _ & H3).
  - split; [done|]. split; [congruence|]. intros j Hj. rewrite decide_False by lia. unfold getVoteCount. congruence.
  - intros i c2 Hi (H1 & H2 & H3). cbn [accumulateVoteCount votes accumulatedVoteCount].
    split; [done|]. split; [by rewrite alen_aset|]. intros j Hj. unfold getVoteCount in *. cbn [accumulateVoteCount accumulatedVoteCount].
    rewrite aget_aset. destruct (decide (j = i)) as [->|Hne].
    + rewrite decide_True by lia. rewrite (decide_True (P := i < i + 1)) by lia. by rewrite H3, decide_False by lia.
    + rewrite decide_False by lia. rewrite H3 by done. repeat case_decide; (done || lia).
  - split; [done|]. left. split; [by apply Hiff|]. intros j Hj. rewrite H3, decide_True by lia. done.
Qed.
End VoteCounter.

(** ** Concrete runs: 8 computors, quorum 6, packets of 12 bytes *)
Definition ex_counter : VoteCounter := mkCounter [] (replicate 8 0) (replicate 8 0).
Definition ex_regs : list (Z * Z) := [(21, 1); (20, 1); (22, 3); (20, 7); (21, 0); (21, 1)].

Lemma vote_packet_counts_witness :
  let '(_, p) := compressNewVotesPacket 8 20 23 7 (replicate 12 255) (register_all 8 ex_regs (init 8 ex_counter)) in
  extract10Bit p 1 = 2 /\ extract10Bit p 7 = 0.
Proof.
  pose proof (vote_packet_counts 8 12 ltac:(lia) ltac:(lia) ex_regs ex_counter 16 20 23 7 (replicate 12 255)) as H.
  destruct (compressNewVotesPacket _ _ _ _ _ _) as [c p].
  assert (forall j, 0 <= j < 8 -> extract10Bit p j =
      if decide (j = 7) then 0 else countZ (fun n => bool_decide ((20 + n, j) ∈ ex_regs)) (Z.to_nat (23 - 20))) as H'.
  { apply H; try lia; try reflexivity.
    - intros t j Hin. cbn in Hin. repeat (destruct Hin as [[= <- <-]|Hin]; [lia|]). destruct Hin.
    - intros i Hi. change (alen (replicate 12 255)) with 12 in Hi. rewrite aget_replicate by lia. lia. }
  split; [rewrite (H' 1) by lia|rewrite (H' 7) by lia]; vm_compute; reflexivity.
Defined.

Lemma addVotes_accumulates_witness :
  votes (addVotes 8 6 (replicate 12 0) 7 ex_counter) = votes ex_counter.
Proof.
  apply (addVotes_accumulates 8 6 12 ltac:(lia) ltac:(lia) (replicate 12 0) 7 ex_counter); try reflexivity; [|lia].
  intros i Hi. change (alen (replicate 12 0)) with 12 in Hi. rewrite aget_replicate by lia. lia.
Defined.

(** The constants of the node satisfy the assertions. *)
Example node_constants : 0 < 676 <= 2 ^ 10 /\ 676 * 10 <= 848 * 8 /\ 676 * 2 / 3 + 1 = 451.
Proof. vm_compute. intuition congruence. Qed.
