(* ===== verification/FeeReserve.v ===== *)
(** * Execution fee reserves (src/qpi/impl/qpi_spectrum_impl.h)

    The reserves of all contracts are the state of contract 0.  Amounts saturate. *)
From S2P Require Import Prelude MathLib Containers.

(** [Contract0State::contractFeeReserves] and the change flags of the contract states. *)
Record FeeReserves := mkReserves { contractFeeReserves : list Z; contractStateChangeFlags : list Z }.

Definition getContractFeeReserve (contractIndex : Z) (s : FeeReserves) : Z := (contractFeeReserves s).[contractIndex].

Definition setContractFeeReserve (contractIndex newValue : Z) (s : FeeReserves) : FeeReserves :=
  mkReserves ((contractFeeReserves s).[contractIndex := newValue]) (bit_set (contractStateChangeFlags s) 0).

Definition addToContractFeeReserve (contractIndex addAmount : Z) (s : FeeReserves) : FeeReserves :=
  let addAmount := if INT64_MAX <? addAmount then INT64_MAX else addAmount in
  mkReserves ((contractFeeReserves s).[contractIndex := sadd_s64 ((contractFeeReserves s).[contractIndex]) addAmount])
    (bit_set (contractStateChangeFlags s) 0).

Definition subtractFromContractFeeReserve (contractIndex subtractAmount : Z) (s : FeeReserves) : FeeReserves :=
  let negativeAddAmount := if INT64_MAX <? subtractAmount then INT64_MIN else s64 (-1 * subtractAmount) in
  mkReserves ((contractFeeReserves s).[contractIndex := sadd_s64 ((contractFeeReserves s).[contractIndex]) negativeAddAmount])
    (bit_set (contractStateChangeFlags s) 0).

Lemma addToContractFeeReserve_value c amount s :
  is_s64 (getContractFeeReserve c s) -> is_u64 amount -> 0 <= c < alen (contractFeeReserves s) ->
  getContractFeeReserve c (addToContractFeeReserve c amount s) = Z.min INT64_MAX (getContractFeeReserve c s + Z.min amount INT64_MAX).
Proof.
  unfold getContractFeeReserve, addToContractFeeReserve, is_s64, is_u64. intros Hr Ha Hc. cbn [contractFeeReserves].
  rewrite aget_aset_eq by done.
  rewrite sadd_s64_clamp by (unfold is_s64, INT64_MAX; try destruct (Z.ltb_spec (2 ^ 63 - 1) amount); lia).
  unfold clamp, INT64_MIN, INT64_MAX in *. destruct (Z.ltb_spec (2 ^ 63 - 1) amount); case_decide; lia.
Qed.

(** Amounts above 2^63 count as 2^63; the exception is [sadd(INT64_MIN, INT64_MIN)]. *)
Lemma subtractFromContractFeeReserve_value c amount s :
  is_s64 (getContractFeeReserve c s) -> is_u64 amount -> 0 <= c < alen (contractFeeReserves s) ->
  getContractFeeReserve c (subtractFromContractFeeReserve c amount s) =
    if decide (getContractFeeReserve c s = INT64_MIN /\ INT64_MAX < amount) then 0
    else Z.max INT64_MIN (getContractFeeReserve c s - Z.min amount (2 ^ 63)).
Proof.
  unfold getContractFeeReserve, subtractFromContractFeeReserve, is_s64, is_u64. intros Hr Ha Hc. cbn [contractFeeReserves].
  rewrite aget_aset_eq by done. unfold INT64_MAX in *.
  assert ((if 2 ^ 63 - 1 <? amount then INT64_MIN else s64 (-1 * amount)) = Z.max INT64_MIN (- amount)) as ->.
  { unfold INT64_MIN. destruct (Z.ltb_spec (2 ^ 63 - 1) amount); [lia|]. rewrite s64_small by (unfold is_s64; lia). lia. }
  rewrite sadd_s64_clamp by (unfold is_s64, INT64_MIN; lia). unfold clamp, INT64_MIN, INT64_MAX in *.
  destruct (decide _), (decide _); lia.
Qed.

Lemma reserve_other_set c d v s : c <> d -> getContractFeeReserve d (setContractFeeReserve c v s) = getContractFeeReserve d s.
Proof. intros. by apply aget_aset_ne. Qed.
Lemma reserve_other_add c d v s : c <> d -> getContractFeeReserve d (addToContractFeeReserve c v s) = getContractFeeReserve d s.
Proof. intros. by apply aget_aset_ne. Qed.
Lemma reserve_other_subtract c d v s :
  c <> d -> getContractFeeReserve d (subtractFromContractFeeReserve c v s) = getContractFeeReserve d s.
Proof. intros. by apply aget_aset_ne. Qed.
#[export] Hint Rewrite reserve_other_set reserve_other_add reserve_other_subtract using lia : arr.
