(* ===== verification/ExecutionFees.v ===== *)
(** * Execution fees: measuring, reporting, charging

    Each computor measures the execution time of every contract per phase
    (contract_core/execution_time_accumulator.h), sends a report of the fees as a transaction
    (network_messages/execution_fees.h), and all nodes collect the reports and deduct the
    quorum value from the contract's fee reserve (ticking/execution_fee_report_collector.h).
    The transaction payload is modelled byte by byte from [inputPtr()] on. *)
From S2P Require Import Prelude Bytes MathLib Containers Sorting QuorumValue FeeReserve.

(** ** Measuring *)
Record ExecutionTimeAccumulator := mkAcc {
  contractExecutionTimePerPhase : list (list Z);
  contractExecutionTimeActiveArrayIndex : bool
}.

Section ExecutionFees.
(** [contractCount] and [NUMBER_OF_COMPUTORS] *)
Variable contractCount : nat.
Variable NC : nat.
Abbreviation cc := (Z.of_nat contractCount).
Abbreviation NUMBER_OF_COMPUTORS := (Z.of_nat NC).

Definition active (a : ExecutionTimeAccumulator) : Z := if contractExecutionTimeActiveArrayIndex a then 1 else 0.
Definition inactive (a : ExecutionTimeAccumulator) : Z := if contractExecutionTimeActiveArrayIndex a then 0 else 1.

Definition acc_init : ExecutionTimeAccumulator := mkAcc (replicate 2 (replicate contractCount 0)) false.

Definition startNewAccumulation (a : ExecutionTimeAccumulator) : ExecutionTimeAccumulator :=
  let index := negb (contractExecutionTimeActiveArrayIndex a) in
  mkAcc ((contractExecutionTimePerPhase a).[if index then 1 else 0 := replicate contractCount 0]) index.

Definition addTime (frequency contractIndex time : Z) (a : ExecutionTimeAccumulator) : ExecutionTimeAccumulator :=
  let timeMicroSeconds := if 0 <? frequency then u64 (time * 1000000) / frequency else time in
  let row := (contractExecutionTimePerPhase a).[active a] in
  mkAcc ((contractExecutionTimePerPhase a).[active a := row.[contractIndex := sadd_u64 (row.[contractIndex]) timeMicroSeconds]])
    (contractExecutionTimeActiveArrayIndex a).

Definition getCurrentPhaseAccumulatedTime (contractIndex : Z) (a : ExecutionTimeAccumulator) : Z :=
  (contractExecutionTimePerPhase a).[active a].[contractIndex].

Definition getPrevPhaseAccumulatedTimes (a : ExecutionTimeAccumulator) : list Z :=
  (contractExecutionTimePerPhase a).[inactive a].

(** ** The report transaction

    [tx_input] holds the bytes behind the transaction header: phaseNumber at 0, numEntries at
    4, the contract indices from 8 on, the fees after them (8-byte aligned), the data lock
    in the last 32 of the [tx_inputSize] bytes. *)
Record Transaction := mkTx {
  tx_sourcePublicKey : Z;
  tx_amount : Z;
  tx_tick : Z;
  tx_inputSize : Z;
  tx_input : list Z
}.

Definition alignmentPadding (n : Z) : Z := if n mod 2 =? 1 then 4 else 0.
Definition getNumEntries (tx : Transaction) : Z := le_read 4 (tx_input tx) 4.
Definition getContractIndex (tx : Transaction) (i : Z) : Z := le_read 4 (tx_input tx) (8 + 4 * i).
Definition getExecutionFee (tx : Transaction) (i : Z) : Z :=
  let numEntries := getNumEntries tx in
  le_read 8 (tx_input tx) (8 + (u32 (numEntries * 4) + alignmentPadding numEntries) + 8 * i).

Definition minInputSize : Z := 4 + 4 + 32.
Definition maxInputSize : Z := u16 (4 + 4 + cc * 4 + alignmentPadding cc + cc * 8 + 32).

Definition isValidExecutionFeeReport (tx : Transaction) : bool :=
  (tx_amount tx =? 0) && (minInputSize <=? tx_inputSize tx) && (tx_inputSize tx <=? maxInputSize) &&
  (getNumEntries tx <=? cc).

Definition isValidEntryAlignment (tx : Transaction) : bool :=
  let numEntries := getNumEntries tx in
  if cc <? numEntries then false
  else u64 (tx_inputSize tx - 4 - 4 - 32) =? numEntries * 4 + alignmentPadding numEntries + numEntries * 8.

(** The loop over the contracts: appends an entry to the two arrays of the payload. *)
Definition FEES_OFFSET : Z := 8 + cc * 4 + alignmentPadding cc.
Definition add_entry (contractExecutionTimes : list Z) (num den contractIndex : Z) (st : list Z * Z) : list Z * Z :=
  let '(buf, entryCount) := st in
  let executionTime := contractExecutionTimes.[contractIndex] in
  if 0 <? executionTime then
    let executionFee := u64 (executionTime * num) / den in
    if 0 <? executionFee then
      (le_write 8 (le_write 4 buf (8 + 4 * entryCount) contractIndex) (FEES_OFFSET + 8 * entryCount) executionFee,
       u32 (entryCount + 1))
    else st
  else st.

(** Result: the payload and the number of entries. *)
Definition buildExecutionFeeReportPayload (payload : Transaction) (contractExecutionTimes : list Z)
    (phaseNumber multiplierNumerator multiplierDenominator : Z) : Transaction * Z :=
  if (multiplierDenominator =? 0) || (multiplierNumerator =? 0) then (payload, 0)
  else
    let buf := le_write 4 (tx_input payload) 0 phaseNumber in
    let '(buf, entryCount) :=
      for_loop (contractCount - 1) 1 (add_entry contractExecutionTimes multiplierNumerator multiplierDenominator) (buf, 0) in
    let buf := le_write 4 buf 4 entryCount in
    if entryCount =? 0 then
      (mkTx (tx_sourcePublicKey payload) (tx_amount payload) (tx_tick payload) (tx_inputSize payload) buf, 0)
    else
      let compactFeesPosition := 8 + entryCount * 4 + alignmentPadding entryCount in
      let buf := copyMem buf compactFeesPosition FEES_OFFSET (Z.to_nat (entryCount * 8)) in
      (mkTx (tx_sourcePublicKey payload) (tx_amount payload) (tx_tick payload)
         (u16 (4 + 4 + entryCount * 4 + alignmentPadding entryCount + entryCount * 8 + 32)) buf, entryCount).

(** The caller writes the data lock at the end of the input (qubic.cpp). *)
Definition setDataLock (dataLock : Z) (tx : Transaction) : Transaction :=
  mkTx (tx_sourcePublicKey tx) (tx_amount tx) (tx_tick tx) (tx_inputSize tx)
    (le_write 32 (tx_input tx) (tx_inputSize tx - 32) dataLock).

(** ** Collecting *)
Definition reports : Type := list (list Z).

Definition reset_reports : reports := replicate contractCount (replicate NC 0).

Definition storeReport (contractIndex computorIndex executionFee : Z) (r : reports) : reports :=
  if (0 <? contractIndex) && (contractIndex <? cc) && (computorIndex <? NUMBER_OF_COMPUTORS)
  then r.[contractIndex := (r.[contractIndex]).[computorIndex := executionFee]] else r.

Definition getReportsForContract (contractIndex : Z) (r : reports) : option (list Z) :=
  if contractIndex <? cc then Some (r.[contractIndex]) else None.

Fixpoint entries_valid (n : nat) (i : Z) (tx : Transaction) : bool :=
  match n with
  | O => true
  | S n' =>
      if (getContractIndex tx i =? 0) || (cc <=? getContractIndex tx i) || (getExecutionFee tx i =? 0) then false
      else entries_valid n' (i + 1) tx
  end.
Definition validateReportEntries (tx : Transaction) : bool :=
  if cc <? getNumEntries tx then false else entries_valid (Z.to_nat (getNumEntries tx)) 0 tx.

Definition storeReportEntries (tx : Transaction) (computorIndex : Z) (r : reports) : reports :=
  for_loop (Z.to_nat (getNumEntries tx)) 0
    (fun i r => storeReport (getContractIndex tx i) computorIndex (getExecutionFee tx i) r) r.

(** [computors] is [broadcastedComputors.computors.publicKeys]. *)
Definition processTransactionData (computors : list Z) (tx : Transaction) (dataLock : Z) (r : reports) : reports :=
  let computorIndex := tx_tick tx mod NUMBER_OF_COMPUTORS in
  if negb (tx_sourcePublicKey tx =? computors.[computorIndex]) then r
  else if negb (isValidExecutionFeeReport tx) then r
  else if negb (le_read 32 (tx_input tx) (tx_inputSize tx - 32) =? dataLock) then r
  else if negb (isValidEntryAlignment tx) then r
  else if negb (validateReportEntries tx) then r
  else storeReportEntries tx computorIndex r.

(** ** Charging *)
Inductive FeeLog := ContractReserveDeduction (deductedAmount remainingAmount contractIndex : Z).

Definition process_contract (contractIndex : Z) (st : reports * FeeReserves * list FeeLog) :
    reports * FeeReserves * list FeeLog :=
  let '(r, s, log) := st in
  let '(values, quorumValue) := calculateAscendingQuorumValue (r.[contractIndex]) NUMBER_OF_COMPUTORS in
  let r := r.[contractIndex := values] in
  if 0 <? quorumValue then
    let s := subtractFromContractFeeReserve contractIndex quorumValue s in
    (r, s, log ++ [ContractReserveDeduction quorumValue (getContractFeeReserve contractIndex s) contractIndex])
  else (r, s, log).

Definition processReports (r : reports) (s : FeeReserves) (log : list FeeLog) : reports * FeeReserves * list FeeLog :=
  let '(_, s, log) := for_loop (contractCount - 1) 1 process_contract (r, s, log) in
  (reset_reports, s, log).

(** ** The accumulator keeps two phases *)
Definition acc_ok (a : ExecutionTimeAccumulator) : Prop :=
  alen (contractExecutionTimePerPhase a) = 2 /\
  forall p, 0 <= p < 2 -> alen ((contractExecutionTimePerPhase a).[p]) = cc.

Lemma addTime_current frequency c time a d :
  acc_ok a -> 0 <= c < cc -> 0 <= d < cc ->
  acc_ok (addTime frequency c time a) /\
  getPrevPhaseAccumulatedTimes (addTime frequency c time a) = getPrevPhaseAccumulatedTimes a /\
  getCurrentPhaseAccumulatedTime d (addTime frequency c time a) =
    (if decide (d = c) then sadd_u64 (getCurrentPhaseAccumulatedTime c a) (if 0 <? frequency then u64 (time * 1000000) / frequency else time)
     else getCurrentPhaseAccumulatedTime d a).
Proof.
  destruct a as [rows [|]]; intros [H2 Hrows] Hc Hd; cbn [contractExecutionTimePerPhase] in H2, Hrows;
    unfold acc_ok, getPrevPhaseAccumulatedTimes, getCurrentPhaseAccumulatedTime, addTime, active, inactive;
    cbn [contractExecutionTimePerPhase contractExecutionTimeActiveArrayIndex];
    rewrite alen_aset; (split; [split; [done|]; intros p Hp|split]);
    rewrite ?(aget_aset_ne _ 1 0), ?(aget_aset_ne _ 0 1), ?aget_aset_eq by lia; try done.
  - destruct (decide (p = 1)) as [->|]; [rewrite aget_aset_eq, alen_aset by lia|rewrite aget_aset_ne by lia]; by apply Hrows.
  - destruct (decide (d = c)) as [->|]; [by rewrite aget_aset_eq by (rewrite Hrows; lia)|]. by rewrite aget_aset_ne by lia.
  - destruct (decide (p = 0)) as [->|]; [rewrite aget_aset_eq, alen_aset by lia|rewrite aget_aset_ne by lia]; by apply Hrows.
  - destruct (decide (d = c)) as [->|]; [by rewrite aget_aset_eq by (rewrite Hrows; lia)|]. by rewrite aget_aset_ne by lia.
Qed.

Lemma startNewAccumulation_phases a c :
  acc_ok a -> 0 <= c < cc ->
  acc_ok (startNewAccumulation a) /\
  (getPrevPhaseAccumulatedTimes (startNewAccumulation a)).[c] = getCurrentPhaseAccumulatedTime c a /\
  getCurrentPhaseAccumulatedTime c (startNewAccumulation a) = 0.
Proof.
  destruct a as [rows [|]]; intros [H2 Hrows] Hc; cbn [contractExecutionTimePerPhase] in H2, Hrows;
    unfold acc_ok, getPrevPhaseAccumulatedTimes, getCurrentPhaseAccumulatedTime, startNewAccumulation, active, inactive;
    cbn [contractExecutionTimePerPhase contractExecutionTimeActiveArrayIndex negb];
    rewrite alen_aset; (split; [split; [done|]; intros p Hp|split]);
    rewrite ?(aget_aset_ne _ 1 0), ?(aget_aset_ne _ 0 1), ?aget_aset_eq, ?aget_replicate by lia; try done.
  - destruct (decide (p = 0)) as [->|]; [by rewrite aget_aset_eq, alen_replicate by lia|]. rewrite aget_aset_ne by lia. by apply Hrows.
  - destruct (decide (p = 1)) as [->|]; [by rewrite aget_aset_eq, alen_replicate by lia|]. rewrite aget_aset_ne by lia. by apply Hrows.
Qed.

(** ** Building a report *)
Section Build.
Variable times : list Z.
Variable num den : Z.
Hypothesis Hcc : 1 <= cc <= 82.
Hypothesis Hden : 0 < den.

Definition fee_of (c : Z) : Z := if 0 <? times.[c] then u64 (times.[c] * num) / den else 0.

(** The contracts below [i] that are reported. *)
Definition reported (i : Z) : list Z := filter (fun c => 0 < fee_of c) (seqZ 1 (i - 1)).

Lemma fee_range c : 0 <= fee_of c < 2 ^ 64.
Proof.
  unfold fee_of. destruct (_ <? _); [|lia]. pose proof (u64_range (times.[c] * num)) as Hu. unfold is_u64 in Hu.
  split; [apply Z.div_pos; lia|]. apply Z.div_lt_upper_bound; nia.
Qed.

Lemma reported_next i : 1 <= i -> reported (i + 1) = reported i ++ (if decide (0 < fee_of i) then [i] else []).
Proof.
  intros Hi. unfold reported. replace (i + 1 - 1) with ((i - 1) + 1) by lia. rewrite seqZ_app by lia.
  rewrite filter_app. f_equal. replace (1 + (i - 1)) with i by lia. assert (seqZ i 1 = [i]) as -> by (unfold seqZ; cbn; by rewrite ?Z.add_0_l).
  case_decide; [by rewrite filter_cons_True|by rewrite filter_cons_False].
Qed.

Lemma reported_in i c : c ∈ reported i <-> 1 <= c < i /\ 0 < fee_of c.
Proof. unfold reported. rewrite list_elem_of_filter, elem_of_seqZ. lia. Qed.

Lemma reported_len i : 1 <= i -> alen (reported i) <= i - 1.
Proof.
  intros. unfold alen, reported. etrans; [apply inj_le, length_filter|]. rewrite length_seqZ. lia.
Qed.

Lemma aget_snoc {A} `{Inhabited A} (l : list A) x : (l ++ [x]).[alen l] = x.
Proof. unfold alen. rewrite aget_nonneg, Nat2Z.id by lia. rewrite lookup_total_app_r by lia. by rewrite Nat.sub_diag. Qed.

Lemma padding_range n : 0 <= alignmentPadding n <= 4.
Proof. unfold alignmentPadding. destruct (_ =? _); lia. Qed.

(** The fees behind [n] indices do not start later than those behind [cc] indices. *)
Lemma fees_offset_mono n : 0 <= n < cc -> 8 + n * 4 + alignmentPadding n <= FEES_OFFSET.
Proof. intros Hn. pose proof (padding_range n). pose proof (padding_range cc). unfold FEES_OFFSET. lia. Qed.

Record entries_in (L : Z) (ent : list Z) (idx fees : Z) (buf : list Z) : Prop := {
  ei_len : alen buf = L;
  ei_index : forall k, 0 <= k < alen ent -> le_read 4 buf (idx + 4 * k) = ent.[k];
  ei_fee : forall k, 0 <= k < alen ent -> le_read 8 buf (fees + 8 * k) = fee_of (ent.[k])
}.

(** A write outside the two arrays. *)
Lemma entries_write L ent idx fees buf n off v :
  entries_in L ent idx fees buf ->
  off + Z.of_nat n <= idx \/ idx + 4 * alen ent <= off -> off + Z.of_nat n <= fees \/ fees + 8 * alen ent <= off ->
  entries_in L ent idx fees (le_write n buf off v).
Proof.
  intros [H1 H2 H3] Hi Hfe. split; [by rewrite alen_le_write| |]; intros k Hk; rewrite le_read_other by lia; auto.
Qed.

Lemma add_entry_ok L i buf e :
  FEES_OFFSET + 8 * cc <= L -> 1 <= i < cc ->
  entries_in L (reported i) 8 FEES_OFFSET buf -> e = alen (reported i) ->
  let st := add_entry times num den i (buf, e) in
  entries_in L (reported (i + 1)) 8 FEES_OFFSET st.1 /\ st.2 = alen (reported (i + 1)).
Proof.
  intros HL Hi Hent ->. unfold add_entry. rewrite reported_next by lia.
  pose proof (reported_len i ltac:(lia)) as Hlen. pose proof (padding_range cc) as Hpad. pose proof (fee_range i) as Hfee.
  assert (0 <= alen (reported i)) by (unfold alen; lia).
  fold (fee_of i). assert ((if 0 <? times.[i] then if 0 <? u64 (times.[i] * num) / den then true else false else false) = bool_decide (0 < fee_of i)) as Htest.
  { unfold fee_of. destruct (0 <? times.[i]); [|by rewrite bool_decide_false by lia].
    destruct (Z.ltb_spec 0 (u64 (times.[i] * num) / den)); [by rewrite bool_decide_true|by rewrite bool_decide_false by lia]. }
  destruct (decide (0 < fee_of i)) as [Hpos|Hz].
  2: { rewrite bool_decide_false in Htest by done. rewrite app_nil_r.
    destruct (0 <? times.[i]); [|done]. by destruct (0 <? u64 (times.[i] * num) / den). }
  rewrite bool_decide_true in Htest by done. assert (u64 (times.[i] * num) / den = fee_of i) as Hval.
  { unfold fee_of. by destruct (0 <? times.[i]). }
  destruct (0 <? times.[i]); [|done]. rewrite Hval in *. destruct (0 <? fee_of i); [|done]. cbn [fst snd].
  set (e := alen (reported i)) in *.
  assert (alen (reported i ++ [i]) = e + 1) as Hsnoc by (unfold e, alen; rewrite length_app; cbn; lia).
  assert ((reported i ++ [i]).[e] = i) as Hlast by apply aget_snoc.
  split; [|rewrite Hsnoc; apply u32_small; unfold is_u32; lia]. unfold FEES_OFFSET in *.
  destruct Hent as [H1 H2 H3]. split; [by rewrite !alen_le_write| |]; intros k Hk; rewrite Hsnoc in Hk;
    destruct (decide (k = e)) as [->|].
  - rewrite (le_read_other 4 8) by lia. rewrite Hlast. apply le_read_write; [lia|lia|].
    change (8 * Z.of_nat 4) with 32. lia.
  - rewrite !le_read_other by lia. rewrite aget_app_l by lia. apply H2. lia.
  - rewrite Hlast. apply le_read_write; [lia|rewrite alen_le_write; lia|]. change (8 * Z.of_nat 8) with 64. lia.
  - rewrite !le_read_other by lia. rewrite aget_app_l by lia. apply H3. lia.
Qed.

Lemma loop_entries L buf :
  FEES_OFFSET + 8 * cc <= L -> alen buf = L ->
  let st := for_loop (contractCount - 1) 1 (add_entry times num den) (buf, 0) in
  entries_in L (reported cc) 8 FEES_OFFSET st.1 /\ st.2 = alen (reported cc).
Proof.
  intros HL Hb. pose (P i (st : list Z * Z) := entries_in L (reported i) 8 FEES_OFFSET st.1 /\ st.2 = alen (reported i)).
  enough (P (1 + Z.of_nat (contractCount - 1)) (for_loop (contractCount - 1) 1 (add_entry times num den) (buf, 0))) as HP.
  { by replace (1 + Z.of_nat (contractCount - 1)) with cc in HP by lia. }
  apply (for_loop_ind P).
  - unfold P. change (reported 1) with (@nil Z). split; [|done].
    split; [done| |]; intros k Hk; unfold alen in Hk; cbn in Hk; lia.
  - intros i [buf' e] Hi [Hent He]. apply add_entry_ok; (done || lia).
Qed.

(** A transaction that holds the entries, as the receiver reads it. *)
Record report_tx (tx : Transaction) : Prop := {
  rt_num : getNumEntries tx = alen (reported cc);
  rt_size : tx_inputSize tx = 8 + alen (reported cc) * 4 + alignmentPadding (alen (reported cc)) + alen (reported cc) * 8 + 32;
  rt_index : forall k, 0 <= k < alen (reported cc) -> getContractIndex tx k = (reported cc).[k];
  rt_fee : forall k, 0 <= k < alen (reported cc) -> getExecutionFee tx k = fee_of ((reported cc).[k])
}.

Lemma reported_bounds : 0 <= alen (reported cc) < cc.
Proof. pose proof (reported_len cc ltac:(lia)). unfold alen in *. lia. Qed.

Lemma build_ok payload phase dataLock :
  num <> 0 -> FEES_OFFSET + 8 * cc + 32 <= alen (tx_input payload) -> 0 <= dataLock < 2 ^ 256 ->
  let '(tx, n) := buildExecutionFeeReportPayload payload times phase num den in
  n = alen (reported cc) /\
  (0 < n -> report_tx (setDataLock dataLock tx) /\
    le_read 32 (tx_input (setDataLock dataLock tx)) (tx_inputSize tx - 32) = dataLock /\
    tx_sourcePublicKey tx = tx_sourcePublicKey payload /\ tx_amount tx = tx_amount payload /\ tx_tick tx = tx_tick payload).
Proof.
  intros Hnum HL Hlock. unfold buildExecutionFeeReportPayload.
  replace ((den =? 0) || (num =? 0)) with false by lia. set (L := alen (tx_input payload)) in *.
  pose proof (loop_entries L (le_write 4 (tx_input payload) 0 phase) ltac:(lia) ltac:(by rewrite alen_le_write)) as Hloop.
  destruct (for_loop _ 1 _ _) as [buf e]. cbn in Hloop. destruct Hloop as [Hent ->].
  pose proof reported_bounds as Hn. set (n := alen (reported cc)) in *.
  destruct (Z.eqb_spec n 0) as [Hz|Hz]; [split; [done|lia]|]. split; [done|]. intros _.
  pose proof (fees_offset_mono n ltac:(lia)) as Hmono. pose proof (padding_range n) as Hpad. pose proof (padding_range cc) as Hpadc.
  unfold FEES_OFFSET in *. set (pos := 8 + n * 4 + alignmentPadding n) in *.
  assert (entries_in L (reported cc) 8 (8 + cc * 4 + alignmentPadding cc) (le_write 4 buf 4 n)) as [H1 H2 H3].
  { apply entries_write; [done|lia|lia]. }
  assert (u16 (4 + 4 + n * 4 + alignmentPadding n + n * 8 + 32) = pos + n * 8 + 32) as Hsize.
  { unfold u16. rewrite Z.mod_small; unfold pos; lia. }
  cbn [tx_input tx_inputSize setDataLock tx_sourcePublicKey tx_amount tx_tick]. rewrite Hsize.
  set (buf1 := le_write 4 buf 4 n) in *. set (len := Z.to_nat (n * 8)) in *.
  destruct (copyMem_spec buf1 pos (8 + cc * 4 + alignmentPadding cc) len) as [Hcl _]; [lia|lia|].
  set (buf2 := copyMem buf1 pos (8 + cc * 4 + alignmentPadding cc) len) in *.
  assert (le_read 4 buf2 4 = n) as Hnum2.
  { unfold buf2. rewrite copyMem_read_other by lia. apply le_read_write; [lia|apply ei_len in Hent; lia|].
    change (8 * Z.of_nat 4) with 32. lia. }
  split_and!; [|replace (pos + n * 8 + 32 - 32) with (pos + n * 8) by lia; apply le_read_write; [lia|lia|done]|done..].
  split; unfold getExecutionFee, getContractIndex, getNumEntries, setDataLock; cbn [tx_input tx_inputSize]; rewrite ?Hsize;
    replace (pos + n * 8 + 32 - 32) with (pos + n * 8) by lia.
  - by rewrite le_read_other by lia.
  - reflexivity.
  - intros k Hk. fold n in Hk. rewrite le_read_other by lia. unfold buf2. rewrite copyMem_read_other by lia. by apply H2.
  - intros k Hk. fold n in Hk. rewrite (le_read_other 4) by lia. rewrite Hnum2.
    rewrite u32_small by (unfold is_u32; lia). rewrite le_read_other by lia.
    replace (8 + (n * 4 + alignmentPadding n) + 8 * k) with (pos + 8 * k) by (unfold pos; lia).
    unfold buf2. rewrite copyMem_read by lia. rewrite <- H3 by done. f_equal. lia.
Qed.

(** ** Receiving a report *)
Lemma reported_get k : 0 <= k < alen (reported cc) -> 1 <= (reported cc).[k] < cc /\ 0 < fee_of ((reported cc).[k]).
Proof.
  intros Hk. apply reported_in. rewrite aget_nonneg by lia.
  apply (list_elem_of_lookup_2 _ (Z.to_nat k)), list_lookup_lookup_total_lt. unfold alen in Hk. lia.
Qed.

Lemma entries_valid_ok tx n : forall i,
  report_tx tx -> 0 <= i -> i + Z.of_nat n = alen (reported cc) -> entries_valid n i tx = true.
Proof.
  induction n as [|n IH]; intros i Htx Hi Hn; cbn [entries_valid]; [done|].
  rewrite (rt_index _ Htx), (rt_fee _ Htx) by lia. pose proof (reported_get i ltac:(lia)).
  replace (_ || _ || _) with false by lia. apply IH; (done || lia).
Qed.

Definition reports_ok (r : reports) : Prop := alen r = cc /\ forall c, 0 <= c < cc -> alen (r.[c]) = NUMBER_OF_COMPUTORS.

Lemma store_all tx comp r :
  report_tx tx -> reports_ok r -> 0 <= comp < NUMBER_OF_COMPUTORS ->
  let r' := storeReportEntries tx comp r in
  reports_ok r' /\ forall c j, 0 <= c < cc -> 0 <= j < NUMBER_OF_COMPUTORS ->
    r'.[c].[j] = if decide (j = comp /\ 1 <= c /\ 0 < fee_of c) then fee_of c else r.[c].[j].
Proof.
  intros Htx [Hr1 Hr2] Hcomp. unfold storeReportEntries. rewrite (rt_num _ Htx).
  pose proof reported_bounds as Hn. set (n := alen (reported cc)) in *.
  pose (P i r' := reports_ok r' /\ forall c j, 0 <= c < cc -> 0 <= j < NUMBER_OF_COMPUTORS ->
    r'.[c].[j] = if decide (j = comp /\ c ∈ take (Z.to_nat i) (reported cc)) then fee_of c else r.[c].[j]).
  assert (P (0 + Z.of_nat (Z.to_nat n)) (for_loop (Z.to_nat n) 0
    (fun i r => storeReport (getContractIndex tx i) comp (getExecutionFee tx i) r) r)) as [Hok HP].
  - apply (for_loop_ind P).
    + split; [done|]. intros c j Hc Hj. rewrite decide_False; [done|]. cbn. intros [_ []%elem_of_nil].
    + intros i r' Hi [[Ha Hb] Hget]. rewrite (rt_index _ Htx), (rt_fee _ Htx) by lia.
      pose proof (reported_get i ltac:(lia)) as [Hx Hfx]. set (x := (reported cc).[i]) in *.
      unfold storeReport. replace (_ && _ && _) with true by lia.
      assert (forall c, c ∈ take (Z.to_nat (i + 1)) (reported cc) <-> c = x \/ c ∈ take (Z.to_nat i) (reported cc)) as Htake.
      { intros c. replace (Z.to_nat (i + 1)) with (S (Z.to_nat i)) by lia.
        rewrite (take_S_r _ _ x); [rewrite elem_of_app, list_elem_of_singleton; tauto|].
        unfold x. rewrite aget_nonneg by lia. apply list_lookup_lookup_total_lt. unfold n, alen in Hi. lia. }
      split; [split; [by rewrite alen_aset|]|].
      * intros c Hc. destruct (decide (c = x)) as [->|]; [rewrite aget_aset_eq, alen_aset by lia; by apply Hb|].
        rewrite aget_aset_ne by lia. by apply Hb.
      * intros c j Hc Hj. destruct (decide (c = x)) as [->|Hcx].
        -- rewrite aget_aset_eq by lia. destruct (decide (j = comp)) as [->|].
           ++ rewrite aget_aset_eq by (rewrite Hb; lia). rewrite decide_True; [done|]. split; [done|]. apply Htake. by left.
           ++ rewrite aget_aset_ne by lia. rewrite Hget by lia. by rewrite !decide_False by tauto.
        -- rewrite aget_aset_ne by lia. rewrite Hget by lia.
           apply decide_ext. rewrite Htake. tauto.
  - split; [done|]. intros c j Hc Hj. rewrite HP by done. apply decide_ext.
    rewrite take_ge by (unfold n, alen; lia). rewrite reported_in. lia.
Qed.
End Build.

(** a report that a computor builds from its execution times reaches the other nodes intact: it
    has one entry per contract with a positive fee (contract 0 excluded), and, sent with the
    expected data lock by the computor that leads the tick of the transaction, it passes
    every check of processTransactionData and stores exactly those fees in the reports of that
    computor; all other reports stay.  The in-place compaction of the fee array overlaps its
    source. *)
Theorem fee_report_roundtrip times num den payload phase dataLock computors r :
  1 <= cc <= 82 -> 0 < den -> num <> 0 -> FEES_OFFSET + 8 * cc + 32 <= alen (tx_input payload) ->
  0 <= dataLock < 2 ^ 256 -> 0 < NUMBER_OF_COMPUTORS -> reports_ok r -> tx_amount payload = 0 ->
  let comp := tx_tick payload mod NUMBER_OF_COMPUTORS in
  tx_sourcePublicKey payload = computors.[comp] ->
  let '(tx, n) := buildExecutionFeeReportPayload payload times phase num den in
  n = Z.of_nat (length (filter (fun c => 0 < fee_of times num den c) (seqZ 1 (cc - 1)))) /\
  (0 < n -> let r' := processTransactionData computors (setDataLock dataLock tx) dataLock r in
     reports_ok r' /\ forall c j, 0 <= c < cc -> 0 <= j < NUMBER_OF_COMPUTORS ->
       r'.[c].[j] = if decide (j = comp /\ 1 <= c /\ 0 < fee_of times num den c) then fee_of times num den c else r.[c].[j]).
Proof.
  intros Hcc Hden Hnum HL Hlock HN Hr Ham comp Hsrc.
  pose proof (build_ok times num den Hcc Hden payload phase dataLock Hnum HL Hlock) as Hb.
  destruct (buildExecutionFeeReportPayload payload times phase num den) as [tx n]. destruct Hb as [-> Hb].
  split; [done|]. intros Hpos. destruct (Hb Hpos) as (Htx & Hrd & Hs & Ha & Ht). clear Hb.
  unfold processTransactionData. cbn [setDataLock tx_tick tx_sourcePublicKey]. rewrite Hs, Ht. fold comp. rewrite Hsrc, Z.eqb_refl. cbn [negb].
  pose proof (reported_bounds times num den Hcc) as Hn. pose proof (padding_range (alen (reported times num den cc))) as Hpad.
  pose proof (rt_size _ _ _ _ Htx) as Hsz. cbn [tx_inputSize setDataLock] in Hsz.
  assert (isValidExecutionFeeReport (setDataLock dataLock tx) = true) as ->.
  { unfold isValidExecutionFeeReport. rewrite (rt_num _ _ _ _ Htx). cbn [tx_amount setDataLock tx_inputSize]. rewrite Ha, Ham, Hsz.
    unfold minInputSize, maxInputSize, u16. pose proof (padding_range cc).
    pose proof (fees_offset_mono (alen (reported times num den cc)) ltac:(lia)) as Hmono. unfold FEES_OFFSET in Hmono.
    rewrite Z.mod_small by lia. lia. }
  cbn [negb]. cbn [tx_inputSize setDataLock]. rewrite Hrd, Z.eqb_refl. cbn [negb].
  assert (isValidEntryAlignment (setDataLock dataLock tx) = true) as ->.
  { unfold isValidEntryAlignment. rewrite (rt_num _ _ _ _ Htx). replace (cc <? _) with false by lia.
    cbn [tx_inputSize setDataLock]. rewrite Hsz. rewrite u64_small by (unfold is_u64; lia). lia. }
  assert (validateReportEntries (setDataLock dataLock tx) = true) as ->.
  { unfold validateReportEntries. rewrite (rt_num _ _ _ _ Htx). replace (cc <? _) with false by lia.
    apply (entries_valid_ok times num den); (done || lia). }
  cbn [negb]. apply (store_all times num den Hcc); try done. apply Z.mod_pos_bound. lia.
Qed.

(** ** Charging the quorum value *)

(** The new reserve after a deduction of [q]. *)
Definition charged (reserve q : Z) : Z :=
  if decide (reserve = INT64_MIN /\ INT64_MAX < q) then 0 else Z.max INT64_MIN (reserve - Z.min q (2 ^ 63)).

Definition quorum_of (r : reports) (c : Z) : Z := (calculateAscendingQuorumValue (r.[c]) NUMBER_OF_COMPUTORS).2.

(** What is logged for contract [c]. *)
Definition deduction (r : reports) (s : FeeReserves) (c : Z) : list FeeLog :=
  if 0 <? quorum_of r c
  then [ContractReserveDeduction (quorum_of r c) (charged (getContractFeeReserve c s) (quorum_of r c)) c] else [].

Definition reserve_after (r : reports) (s : FeeReserves) (upto c : Z) : Z :=
  if decide (1 <= c < upto /\ 0 < quorum_of r c) then charged (getContractFeeReserve c s) (quorum_of r c)
  else getContractFeeReserve c s.

Lemma process_contract_ok r s log r1 s1 i :
  1 <= i < cc -> cc <= alen (contractFeeReserves s) ->
  (forall c, 0 <= c < alen (contractFeeReserves s) -> is_s64 (getContractFeeReserve c s)) ->
  is_u64 (quorum_of r i) ->
  alen (contractFeeReserves s1) = alen (contractFeeReserves s) ->
  (forall c, i <= c < cc -> r1.[c] = r.[c]) -> alen r1 = alen r ->
  (forall c, getContractFeeReserve c s1 = reserve_after r s i c) ->
  let '(r2, s2, log2) := process_contract i (r1, s1, log) in
  alen (contractFeeReserves s2) = alen (contractFeeReserves s) /\
  (forall c, i + 1 <= c < cc -> r2.[c] = r.[c]) /\ alen r2 = alen r /\
  (forall c, getContractFeeReserve c s2 = reserve_after r s (i + 1) c) /\ log2 = log ++ deduction r s i.
Proof.
  intros Hi Hlen Hs64 Hq Hl1 Hr1 Hlr Hget. unfold process_contract, deduction. rewrite Hr1 by lia.
  assert (forall c, c <> i -> reserve_after r s i c = reserve_after r s (i + 1) c) as Hsame.
  { intros c Hc. unfold reserve_after. apply decide_ext. lia. }
  assert (reserve_after r s i i = getContractFeeReserve i s) as Hii by (unfold reserve_after; by rewrite decide_False by lia).
  unfold quorum_of in *. destruct (calculateAscendingQuorumValue (r.[i]) NUMBER_OF_COMPUTORS) as [values q] eqn:Hquorum. cbn [snd] in *.
  destruct (Z.ltb_spec 0 q) as [Hpos|Hz].
  - assert (getContractFeeReserve i (subtractFromContractFeeReserve i q s1) = charged (getContractFeeReserve i s) q) as Hval.
    { rewrite subtractFromContractFeeReserve_value; rewrite ?Hget, ?Hii; [done|apply Hs64; lia|done|lia]. }
    split_and!; [cbn; by rewrite alen_aset|intros c Hc; rewrite aget_aset_ne by lia; apply Hr1; lia|by rewrite alen_aset| |by rewrite Hval].
    intros c. destruct (decide (c = i)) as [->|Hne].
    + rewrite Hval. unfold reserve_after, quorum_of. rewrite Hquorum. by rewrite decide_True by (cbn; lia).
    + rewrite reserve_other_subtract by done. rewrite Hget. by apply Hsame.
  - split_and!; [done|intros c Hc; rewrite aget_aset_ne by lia; apply Hr1; lia|by rewrite alen_aset| |by rewrite app_nil_r].
    intros c. rewrite Hget. destruct (decide (c = i)) as [->|Hne]; [|by apply Hsame].
    rewrite Hii. unfold reserve_after, quorum_of. rewrite Hquorum. by rewrite decide_False by (cbn; lia).
Qed.

Lemma quorum_of_in r c :
  0 < NUMBER_OF_COMPUTORS < 2 ^ 31 -> reports_ok r -> 0 <= c < cc ->
  quorum_of r c ∈ r.[c] /\
  NUMBER_OF_COMPUTORS * 2 / 3 + 1 <= votes (fun x => x <= quorum_of r c) (r.[c]) /\
  NUMBER_OF_COMPUTORS - NUMBER_OF_COMPUTORS * 2 / 3 <= votes (fun x => quorum_of r c <= x) (r.[c]).
Proof.
  intros HN [_ Hr] Hc. pose proof (Hr c Hc) as Hrow.
  destruct (percentile_value_votes 2 3 (r.[c]) NUMBER_OF_COMPUTORS) as (_ & Hin & Hlo & Hhi); [lia|done|lia|lia|].
  by split_and!.
Qed.

(** C33: processReports charges every contract but contract 0 with the quorum value of its reports, which is
    one of the reports, is not exceeded by more than two thirds of them and is reached by at
    least a third: the reserve decreases by it and saturates at INT64_MIN (except that
    INT64_MIN becomes 0 for a deduction above INT64_MAX, and a deduction counts for at most
    2^63); contracts with quorum value 0 and all others keep their reserves; every deduction is logged
    in the order of the contracts, and the reports are cleared. *)
Theorem processReports_charges r s log :
  1 <= cc -> 0 < NUMBER_OF_COMPUTORS < 2 ^ 31 -> reports_ok r ->
  (forall c j, 0 <= c < cc -> 0 <= j < NUMBER_OF_COMPUTORS -> is_u64 (r.[c].[j])) ->
  cc <= alen (contractFeeReserves s) ->
  (forall c, 0 <= c < alen (contractFeeReserves s) -> is_s64 (getContractFeeReserve c s)) ->
  let '(r', s', log') := processReports r s log in
  r' = reset_reports /\
  (forall c, getContractFeeReserve c s' =
     if decide (1 <= c < cc /\ 0 < quorum_of r c) then charged (getContractFeeReserve c s) (quorum_of r c)
     else getContractFeeReserve c s) /\
  log' = log ++ concat (map (deduction r s) (seqZ 1 (cc - 1))) /\
  (forall c, 1 <= c < cc -> quorum_of r c ∈ r.[c] /\
     NUMBER_OF_COMPUTORS * 2 / 3 + 1 <= votes (fun x => x <= quorum_of r c) (r.[c]) /\
     NUMBER_OF_COMPUTORS - NUMBER_OF_COMPUTORS * 2 / 3 <= votes (fun x => quorum_of r c <= x) (r.[c])).
Proof.
  intros Hcc HN Hr Hu64 Hlen Hs64. unfold processReports.
  assert (forall i, 1 <= i < cc -> is_u64 (quorum_of r i)) as Hq.
  { intros i Hi. destruct (quorum_of_in r i HN Hr ltac:(lia)) as [Hin _].
    apply list_elem_of_lookup in Hin as [j Hj]. pose proof (lookup_lt_Some _ _ _ Hj) as Hlt.
    pose proof (proj2 Hr i ltac:(lia)) as Hrow. unfold alen in Hrow. apply list_lookup_total_correct in Hj.
    specialize (Hu64 i (Z.of_nat j) ltac:(lia) ltac:(lia)). rewrite aget_nonneg, Nat2Z.id in Hu64 by lia. by rewrite Hj in Hu64. }
  pose (P i (st : reports * FeeReserves * list FeeLog) :=
    alen (contractFeeReserves st.1.2) = alen (contractFeeReserves s) /\
    (forall c, i <= c < cc -> st.1.1.[c] = r.[c]) /\ alen st.1.1 = alen r /\
    (forall c, getContractFeeReserve c st.1.2 = reserve_after r s i c) /\
    st.2 = log ++ concat (map (deduction r s) (seqZ 1 (i - 1)))).
  assert (P (1 + Z.of_nat (contractCount - 1)) (for_loop (contractCount - 1) 1 process_contract (r, s, log))) as HP.
  { apply (for_loop_ind P).
    - unfold P. cbn [fst snd]. split_and!; try done; [|by rewrite app_nil_r].
      intros c. unfold reserve_after. by rewrite decide_False by lia.
    - intros i [[r1 s1] log1] Hi (H1 & H2 & H3 & H4 & H5). cbn [fst snd] in *. subst log1.
      pose proof (process_contract_ok r s (log ++ concat (map (deduction r s) (seqZ 1 (i - 1)))) r1 s1 i
        ltac:(lia) Hlen Hs64 (Hq i ltac:(lia)) H1 H2 H3 H4) as Hstep.
      destruct (process_contract i _) as [[r2 s2] log2]. destruct Hstep as (K1 & K2 & K3 & K4 & ->).
      unfold P. cbn [fst snd]. split_and!; try done. rewrite <- app_assoc. f_equal.
      replace (i + 1 - 1) with ((i - 1) + 1) by lia. rewrite seqZ_app, map_app, concat_app by lia. f_equal.
      replace (1 + (i - 1)) with i by lia. assert (seqZ i 1 = [i]) as -> by (unfold seqZ; cbn; by rewrite ?Z.add_0_l).
      cbn. by rewrite app_nil_r. }
  replace (1 + Z.of_nat (contractCount - 1)) with cc in HP by lia.
  destruct (for_loop _ 1 _ _) as [[r1 s1] log1]. destruct HP as (_ & _ & _ & Hres & Hlog). cbn [fst snd] in *.
  split_and!; [done|exact Hres|exact Hlog|]. intros c Hc. apply quorum_of_in; (done || lia).
Qed.
End ExecutionFees.

(** ** Concrete runs: 4 contracts, 3 computors *)
Definition ex_payload : Transaction := mkTx 77 0 10 0 (replicate 200 9).
Definition ex_reports : reports := replicate 4 (replicate 3 0).

Lemma ex_reports_ok : reports_ok 4 3 ex_reports.
Proof. split; [reflexivity|]. intros c Hc. unfold ex_reports. by rewrite aget_replicate by lia. Qed.

Lemma fee_report_roundtrip_witness :
  let '(tx, n) := buildExecutionFeeReportPayload 4 ex_payload [0; 500; 0; 3000] 7 2 100 in
  n = 2 /\ (processTransactionData 4 3 [5; 77; 6] (setDataLock 12345 tx) 12345 ex_reports).[3].[1] = 60.
Proof.
  pose proof (fee_report_roundtrip 4 3 [0; 500; 0; 3000] 2 100 ex_payload 7 12345 [5; 77; 6] ex_reports
    ltac:(lia) ltac:(lia) ltac:(lia) ltac:(vm_compute; discriminate) ltac:(lia) ltac:(lia) ex_reports_ok eq_refl eq_refl) as H.
  destruct (buildExecutionFeeReportPayload 4 ex_payload [0; 500; 0; 3000] 7 2 100) as [tx n].
  destruct H as [Hn H]. assert (n = 2) as -> by (rewrite Hn; vm_compute; reflexivity). split; [reflexivity|].
  destruct (H ltac:(lia)) as [_ Hget]. rewrite Hget by lia. vm_compute. reflexivity.
Defined.

Lemma processReports_charges_witness :
  getContractFeeReserve 1 (processReports 3 3 [[0;0;0]; [5;7;6]; [0;0;9]] (mkReserves [10; 100; 50; 1] [0]) []).1.2 = 93.
Proof.
  pose proof (processReports_charges 3 3 [[0;0;0]; [5;7;6]; [0;0;9]] (mkReserves [10; 100; 50; 1] [0]) []
    ltac:(lia) ltac:(lia)) as H.
  destruct (processReports 3 3 [[0;0;0]; [5;7;6]; [0;0;9]] (mkReserves [10; 100; 50; 1] [0]) []) as [[r' s'] log'].
  destruct H as (_ & H & _).
  - split; [reflexivity|]. intros c Hc. assert (c = 0 \/ c = 1 \/ c = 2) as [->|[->| ->]] by lia; reflexivity.
  - intros c j Hc Hj. assert (c = 0 \/ c = 1 \/ c = 2) as [->|[->| ->]] by lia;
      (assert (j = 0 \/ j = 1 \/ j = 2) as [->|[->| ->]] by lia); (split; [discriminate|reflexivity]).
  - vm_compute. discriminate.
  - intros c Hc. change (alen _) with 4 in Hc.
    assert (c = 0 \/ c = 1 \/ c = 2 \/ c = 3) as [->|[->|[->| ->]]] by lia; (split; [discriminate|reflexivity]).
  - cbn [fst snd]. rewrite H. vm_compute. reflexivity.
Defined.
