(* ===== verification/EntityLedger.v ===== *)
(** * The ledger interface

    What the parts of the node that move money (contract funds, IPO) use of the spectrum: look
    up an entity, credit it, debit it.  The clients are proved against the class; the
    spectrum discharges it.  Credits open new entities; the laws hold while there is room
    for a new entity without burning dust, which is what [free_entities] counts. *)
From S2P Require Import Prelude OpenAddressing Spectrum SpectrumLedger.

Class LedgerOps (S : Type) := {
  credit_entity : Z -> Z -> S -> option S;       (* increaseEnergy(publicKey, amount) *)
  entity_index : Z -> S -> option Z;             (* spectrumIndex(publicKey) *)
  entity_energy : Z -> S -> Z;                   (* energy(index) *)
  debit_entity : Z -> Z -> S -> S * bool         (* decreaseEnergy(index, amount) *)
}.

Class Ledger (S : Type) `{!LedgerOps S} := {
  ledger_ok : S -> Prop;
  balance_of : S -> Z -> Z;
  total_of : S -> Z;
  total_limit : Z;
  free_entities : S -> Z;
  balance_range s x : ledger_ok s -> x <> 0 -> 0 <= balance_of s x <= total_of s;
  total_below s : ledger_ok s -> total_of s < total_limit <= 2 ^ 63;
  credit_law s x a :
    ledger_ok s -> x <> 0 -> 0 <= a -> total_of s + a < total_limit -> 0 < free_entities s ->
    exists s', credit_entity x a s = Some s' /\ ledger_ok s' /\ total_of s' = total_of s + a /\
      free_entities s - 1 <= free_entities s' /\
      forall y, y <> 0 -> balance_of s' y = balance_of s y + (if decide (y = x) then a else 0);
  index_law s x :
    ledger_ok s -> exists i, entity_index x s = Some i /\
      if decide (0 <= i) then x <> 0 /\ entity_energy i s = balance_of s x
      else i = -1 /\ (x <> 0 -> balance_of s x = 0);
  debit_law s x i a :
    ledger_ok s -> entity_index x s = Some i -> 0 <= i ->
    let '(s', r) := debit_entity i a s in
    ledger_ok s' /\ r = bool_decide (0 <= a <= balance_of s x) /\
    if r then total_of s' = total_of s - a /\ free_entities s' = free_entities s /\
      forall y, y <> 0 -> balance_of s' y = balance_of s y - (if decide (y = x) then a else 0)
    else s' = s
}.

Section SpectrumLedgerInstance.
Variable k : nat.
Hypothesis Hk : (2 <= k <= 31)%nat.
Variable LOG_SPECTRUM : bool.
Context {D : Type} `{!Inhabited D}.
Variable hashEntity : EntityRecord -> D.
Variable hashNode : D -> D -> D.
Variable tick : Z.
Abbreviation cap := (2 ^ Z.of_nat k).

#[local] Instance spectrum_ops : LedgerOps (@SpectrumState D) := {
  credit_entity x a s := increaseEnergy k LOG_SPECTRUM hashEntity hashNode x a tick true s;
  entity_index := spectrumIndex k;
  entity_energy := energy;
  debit_entity i a s := decreaseEnergy i a tick s
}.

Lemma decrease_entities (s : @SpectrumState D) i a : numberOfEntities (decreaseEnergy i a tick s).1 = numberOfEntities s.
Proof.
  unfold decreaseEnergy. destruct (0 <=? a); [|done]. destruct (a <=? energy i s); [|done]. cbn [fst with_info numberOfEntities].
  by destruct (spectrumMarkDirty_core i (with_spectrum ((spectrum s).[i := debit a tick ((spectrum s).[i])]) s)) as (_ & -> & _).
Qed.

Lemma spectrum_credit_law (s : @SpectrumState D) x a :
  spectrum_ok k s -> x <> 0 -> 0 <= a -> totalAmount s + a < 2 ^ 48 -> 0 < cap / 2 + cap / 4 - numberOfEntities s ->
  exists s', increaseEnergy k LOG_SPECTRUM hashEntity hashNode x a tick true s = Some s' /\ spectrum_ok k s' /\
    totalAmount s' = totalAmount s + a /\ numberOfEntities s' <= numberOfEntities s + 1 /\
    forall y, y <> 0 -> ledger k (spectrum s') y = ledger k (spectrum s) y + (if decide (y = x) then a else 0).
Proof.
  intros Hok Hx Ha Hlim Hfree. unfold increaseEnergy, isZero. rewrite (proj2 (Z.eqb_neq x 0) Hx), (proj2 (Z.leb_le 0 a) Ha). cbn [negb andb].
  destruct (Z.leb_spec (cap / 2 + cap / 4) (numberOfEntities s)); [lia|].
  destruct (increase_loop_ok k Hk LOG_SPECTRUM s x a tick true Hok ltac:(lia) Hx Ha Hlim) as (s' & -> & H1 & H2 & H3 & H4).
  exists s'. by split_and!.
Qed.

Lemma spectrum_index_law (s : @SpectrumState D) x :
  spectrum_ok k s -> exists i, spectrumIndex k x s = Some i /\
    if decide (0 <= i) then x <> 0 /\ in_table k i /\ publicKey ((spectrum s).[i]) = x /\ energy i s = ledger k (spectrum s) x
    else i = -1 /\ (x <> 0 -> ledger k (spectrum s) x = 0).
Proof.
  intros Hok. destruct (decide (x = 0)) as [->|Hx]; [exists (-1); by split|].
  destruct (spectrumIndex_ok k Hk s x Hok Hx) as [(i & -> & Hi & Hp & He)|(-> & _ & Hl)]; eexists; (split; [done|]).
  - rewrite decide_True by (unfold in_table in Hi; lia). done.
  - done.
Qed.

#[local] Instance spectrum_ledger : Ledger (@SpectrumState D).
Proof using Hk.
  refine {| ledger_ok := spectrum_ok k; balance_of s := ledger k (spectrum s); total_of := totalAmount; total_limit := 2 ^ 48;
            free_entities s := cap / 2 + cap / 4 - numberOfEntities s |}; cbn [credit_entity entity_index entity_energy debit_entity spectrum_ops].
  - intros s x Hok Hx. rewrite (co_total _ _ _ _ Hok). apply ledger_range; [done|apply Hok|done].
  - intros s Hok. pose proof (co_supply _ _ _ _ Hok) as Hs. change (Z.of_nat entityCategoryCount) with 48 in Hs. lia.
  - intros s x a Hok Hx Ha Hlim Hfree. destruct (spectrum_credit_law s x a Hok Hx Ha Hlim Hfree) as (s' & H1 & H2 & H3 & H4 & H5).
    exists s'. split_and!; try done. lia.
  - intros s x Hok. destruct (spectrum_index_law s x Hok) as (i & Hi & Hc). exists i. split; [done|].
    destruct (decide (0 <= i)); [|done]. tauto.
  - intros s x i a Hok Hi Hpos. destruct (spectrum_index_law s x Hok) as (i' & Hi' & Hc).
    assert (i' = i) as -> by congruence. rewrite decide_True in Hc by done. destruct Hc as (Hx & Hin & Hp & He).
    pose proof (decrease_ok k Hk s i a tick Hok Hin ltac:(congruence)) as Hd. pose proof (decrease_entities s i a) as Hn.
    rewrite Hp, He in Hd. destruct (decreaseEnergy i a tick s) as [s' r]. cbn in Hn. destruct Hd as (H1 & H2 & H3).
    split_and!; [done|done|]. destruct r; [|done]. destruct H3 as [H3 H4]. split_and!; [done|lia|done].
Defined.
End SpectrumLedgerInstance.

(** ** A concrete ledger of 16 slots *)
Definition bank_ops : LedgerOps (@SpectrumState Z) := spectrum_ops 4 true ex_leaf ex_node 9.
Definition bank_ledger : @Ledger (@SpectrumState Z) bank_ops := spectrum_ledger 4 ltac:(lia) true ex_leaf ex_node 9.

Definition bank_credit (x a : Z) (s : @SpectrumState Z) : @SpectrumState Z :=
  default s (increaseEnergy 4 true ex_leaf ex_node x a 9 true s).
Definition ex_bank : @SpectrumState Z := bank_credit 1000 40 (bank_credit 2 500 (emptySpectrum 4)).

Lemma bank_credit_ok x a s :
  spectrum_ok 4 s -> totalAmount s + a < 2 ^ 48 -> spectrum_ok 4 (bank_credit x a s).
Proof.
  intros Hok Hl. destruct (increaseEnergy_keeps 4 ltac:(lia) true ex_leaf ex_node s x a 9 true Hok Hl)
    as (s' & He & Hok' & _). unfold bank_credit. by rewrite He.
Qed.

Lemma ex_bank_ok : spectrum_ok 4 ex_bank.
Proof.
  unfold ex_bank. repeat (apply bank_credit_ok; [|vm_compute; reflexivity]). apply emptySpectrum_ok. lia.
Qed.
