(* ===== verification/PendingTxsPool.v ===== *)
(** * The pool of pending transactions

    PendingTxsPool (ticking/pending_txs_pool.h) stores the transactions received for the next [PENDING_TXS_POOL_NUM_TICKS] ticks in a
    ring of ticks.  Each tick has a fixed number of slots; if they are used up, a transaction of higher priority takes the slot of the one
    with the lowest, found through a Collection with one priority queue per place of the ring.  A transaction is the
    array of its bytes, as in memory.  The lock around the operations is left out. *)
From S2P Require Import Prelude Bytes MathLib Spectrum PriorityQueues.

(** ** Transactions (network_messages/transactions.h) *)
Definition SIGNATURE_SIZE : Z := 64.
Definition MAX_INPUT_SIZE : Z := 1024.
Definition ISSUANCE_RATE : Z := 1000000000000.
Definition MAX_AMOUNT : Z := ISSUANCE_RATE * 1000.
(** [sizeof(Transaction)] *)
Definition TRANSACTION_SIZE : Z := 32 + 32 + 8 + 4 + 2 + 2.
Definition MAX_TRANSACTION_SIZE : Z := MAX_INPUT_SIZE + TRANSACTION_SIZE + SIGNATURE_SIZE.

Definition VOTE_COUNTER_INPUT_TYPE : Z := 1.
Definition DOGE_MINING_SHARE_COUNTER_INPUT_TYPE : Z := 11.
Definition EXECUTION_FEE_REPORT_INPUT_TYPE : Z := 9.

(** The fields of [struct Transaction] at their offsets *)
Definition sourcePublicKey (tx : list Z) : Z := le_read 32 tx 0.
Definition destinationPublicKey (tx : list Z) : Z := le_read 32 tx 32.
Definition amount (tx : list Z) : Z := s64 (le_read 8 tx 64).
Definition tick (tx : list Z) : Z := le_read 4 tx 72.
Definition inputType (tx : list Z) : Z := le_read 2 tx 76.
Definition inputSize (tx : list Z) : Z := le_read 2 tx 78.

Definition totalSize (tx : list Z) : Z := u32 (TRANSACTION_SIZE + inputSize tx + SIGNATURE_SIZE).
Definition checkValidity (tx : list Z) : bool := (0 <=? amount tx) && (amount tx <=? MAX_AMOUNT) && (inputSize tx <=? MAX_INPUT_SIZE).

(** [computorIndex] (spectrum/special_entities.h) *)
Fixpoint computorIndex_from (n : nat) (i : Z) (publicKeys : list Z) (computor : Z) : Z :=
  match n with
  | O => -1
  | S n => if publicKeys.[i] =? computor then i else computorIndex_from n (i + 1) publicKeys computor
  end.
Definition computorIndex (publicKeys : list Z) (computor : Z) : Z := computorIndex_from (length publicKeys) 0 publicKeys computor.

(** ** The pool *)
Record Pool (Q : Type) := mkPool {
  firstStoredTick : Z;
  tickTransactionsBuffer : list (list Z);   (* one array of MAX_TRANSACTION_SIZE bytes per slot *)
  txsDigestsBuffer : list Z;
  numSavedTxsPerTick : list Z;
  buffersBeginIndex : Z;
  txsPriorities : Q
}.
Arguments mkPool {_} _ _ _ _ _ _.
Arguments firstStoredTick {_} _.
Arguments tickTransactionsBuffer {_} _.
Arguments txsDigestsBuffer {_} _.
Arguments numSavedTxsPerTick {_} _.
Arguments buffersBeginIndex {_} _.
Arguments txsPriorities {_} _.

Section PendingTxsPool.
(** [PENDING_TXS_POOL_NUM_TICKS], a 64-bit constant, and [maxNumTxsPerTick], a 32-bit one *)
Variables NUM_TICKS maxNumTxsPerTick : Z.
(** KangarooTwelve with a 32-byte output *)
Variable KangarooTwelve : list Z -> Z.
Context {Q : Type} `{!QueueOps Q}.
(** The spectrum and the public keys of the computors, global variables of the node *)
Variable k : nat.
Context {D : Type}.
Implicit Types (p : Pool Q) (tx : list Z) (s : @SpectrumState D).

Definition maxNumTxsTotal : Z := NUM_TICKS * maxNumTxsPerTick.
Definition txsPrioritiesCapacity : Z := findNextPowerOf2 maxNumTxsTotal.

Definition with_priorities (q : Q) p : Pool Q :=
  mkPool (firstStoredTick p) (tickTransactionsBuffer p) (txsDigestsBuffer p) (numSavedTxsPerTick p) (buffersBeginIndex p) q.
Definition with_saved (n : list Z) p : Pool Q :=
  mkPool (firstStoredTick p) (tickTransactionsBuffer p) (txsDigestsBuffer p) n (buffersBeginIndex p) (txsPriorities p).
Definition with_buffers (txs : list (list Z)) (digests : list Z) p : Pool Q :=
  mkPool (firstStoredTick p) txs digests (numSavedTxsPerTick p) (buffersBeginIndex p) (txsPriorities p).
Definition with_begin (first begin : Z) p : Pool Q :=
  mkPool first (tickTransactionsBuffer p) (txsDigestsBuffer p) (numSavedTxsPerTick p) begin (txsPriorities p).

(** A slot of zeroed memory *)
Definition zero_slot : list Z := replicate (Z.to_nat MAX_TRANSACTION_SIZE) 0.

Fixpoint remove_all (n : nat) (q : Q) (elementIndex : Z) : option Q :=
  match n with
  | O => Some q
  | S n =>
      if negb (elementIndex =? NULL_INDEX) then '(q, elementIndex) ← queue_remove q elementIndex; remove_all n q elementIndex
      else Some q
  end.
Definition cleanupTxsPriorities (q : Q) (tickIndex : Z) : option Q :=
  q ← remove_all (Z.to_nat maxNumTxsPerTick) q (queue_head q tickIndex); queue_cleanupIfNeeded q.

Definition isProtocolTx (tx : list Z) : bool :=
  isZero (destinationPublicKey tx) && (amount tx =? 0) &&
  ((inputType tx =? VOTE_COUNTER_INPUT_TYPE) || (inputType tx =? DOGE_MINING_SHARE_COUNTER_INPUT_TYPE) ||
   (inputType tx =? EXECUTION_FEE_REPORT_INPUT_TYPE)).
(** [None] stands for a lookup in the spectrum that does not end. *)
Definition calculateTxPriority s (computors : list Z) tx : option Z :=
  sourceIndex ← spectrumIndex k (sourcePublicKey tx) s;
  if 0 <=? sourceIndex then
    let balance := energy sourceIndex s in
    if 0 <? balance then
      if (0 <=? computorIndex computors (sourcePublicKey tx)) && isProtocolTx tx then Some INT64_MAX
      else
        let entity := (spectrum s).[sourceIndex] in
        let latestTransferTick :=
          if negb (latestOutgoingTransferTick entity =? 0) then latestOutgoingTransferTick entity else latestIncomingTransferTick entity in
        Some (s64 (smul_s64 balance (u32 (tick tx - latestTransferTick + 1)) - 1))
    else Some 0
  else Some 0.

(** The positions of a slot in the two buffers *)
Definition getTxPtr (tickIndex transactionIndex : Z) : Z := u32 (tickIndex * maxNumTxsPerTick + transactionIndex).
Definition getDigestPtr (tickIndex transactionIndex : Z) : Z := u32 (tickIndex * maxNumTxsPerTick + transactionIndex).

Definition tickInStorage p (tick : Z) : bool := (firstStoredTick p <=? tick) && (tick <? firstStoredTick p + NUM_TICKS).
Definition tickToIndex p (tick : Z) : Z := u32 (tick - firstStoredTick p + buffersBeginIndex p) mod NUM_TICKS.

(** [init()] if the memory can be allocated *)
Definition init : Pool Q :=
  mkPool 0 (replicate (Z.to_nat maxNumTxsTotal) zero_slot) (replicate (Z.to_nat maxNumTxsTotal) 0) (replicate (Z.to_nat NUM_TICKS) 0) 0 queues_zero.

Definition getNumberOfPendingTickTxs p (tick : Z) : Z :=
  if tickInStorage p tick then (numSavedTxsPerTick p).[tickToIndex p tick] else 0.

(** [for (t = from; t < to; ++t) res += numSavedTxsPerTick[t]] *)
Definition sum_saved p (from to res : Z) : Z :=
  for_loop (Z.to_nat (to - from)) from (fun t res => u32 (res + (numSavedTxsPerTick p).[t])) res.
Definition getTotalNumberOfPendingTxs p (tick : Z) : Z :=
  if tickInStorage p (u32 (tick + 1)) then
    let startIndex := tickToIndex p (u32 (tick + 1)) in
    if startIndex <? buffersBeginIndex p then sum_saved p startIndex (buffersBeginIndex p) 0
    else sum_saved p 0 (buffersBeginIndex p) (sum_saved p startIndex NUM_TICKS 0)
  else 0.

(** The loop of [add] over the digests of a tick *)
Fixpoint digest_exists (n : nat) p (tickIndex txIndex digest : Z) : bool :=
  match n with
  | O => false
  | S n => if (txsDigestsBuffer p).[getDigestPtr tickIndex txIndex] =? digest then true else digest_exists n p tickIndex (txIndex + 1) digest
  end.

(** The two [copyMem] of [add]: digest and bytes go to a slot. *)
Definition write_slot p (tickIndex txIndex digest : Z) tx (transactionSize : Z) : Pool Q :=
  let n := Z.to_nat transactionSize in
  let i := getTxPtr tickIndex txIndex in
  with_buffers ((tickTransactionsBuffer p).[i := take n tx ++ drop n ((tickTransactionsBuffer p).[i])])
    ((txsDigestsBuffer p).[getDigestPtr tickIndex txIndex := digest]) p.
(** [numSavedTxsPerTick[tickIndex]++] *)
Definition count_saved p (tickIndex : Z) : Pool Q :=
  with_saved ((numSavedTxsPerTick p).[tickIndex := u32 ((numSavedTxsPerTick p).[tickIndex] + 1)]) p.

Definition add s (computors : list Z) p tx (buildPriorityIndex : bool) : option (Pool Q * bool) :=
  if checkValidity tx && tickInStorage p (tick tx) then
    let transactionSize := totalSize tx in
    let digest := KangarooTwelve (take (Z.to_nat transactionSize) tx) in
    let tickIndex := tickToIndex p (tick tx) in
    let saved := (numSavedTxsPerTick p).[tickIndex] in
    if digest_exists (Z.to_nat saved) p tickIndex 0 digest then Some (p, false)
    else if negb buildPriorityIndex then
      if saved <? maxNumTxsPerTick then Some (count_saved (write_slot p tickIndex saved digest tx transactionSize) tickIndex, true)
      else Some (p, false)
    else
      priority ← calculateTxPriority s computors tx;
      if 0 <? priority then
        if saved <? maxNumTxsPerTick then
          '(q, _) ← queue_add (txsPriorities p) tickIndex saved priority;
          Some (count_saved (with_priorities q (write_slot p tickIndex saved digest tx transactionSize)) tickIndex, true)
        else
          let q := txsPriorities p in
          let lowestElementIndex := queue_tail q tickIndex in
          if negb (lowestElementIndex =? NULL_INDEX) then
            if queue_priority q lowestElementIndex <? priority then
              let replacedTxIndex := queue_element q lowestElementIndex in
              '(q, _) ← queue_remove q lowestElementIndex;
              '(q, _) ← queue_add q tickIndex replacedTxIndex priority;
              Some (write_slot (with_priorities q p) tickIndex replacedTxIndex digest tx transactionSize, true)
            else Some (p, false)
          else Some (p, false)
      else Some (p, false)
  else Some (p, false).

(** [None] is [nullptr], [Some] the memory that the returned pointer points to. *)
Definition getTx p (tick index : Z) : option (list Z) :=
  if tickInStorage p tick then
    let tickIndex := tickToIndex p tick in
    if index <? (numSavedTxsPerTick p).[tickIndex] then Some ((tickTransactionsBuffer p).[getTxPtr tickIndex index]) else None
  else None.
Definition getDigest p (tick index : Z) : option Z :=
  if tickInStorage p tick then
    let tickIndex := tickToIndex p tick in
    if index <? (numSavedTxsPerTick p).[tickIndex] then Some ((txsDigestsBuffer p).[getDigestPtr tickIndex index]) else None
  else None.

(** Zeroing the slots and counters of the places [from .. to - 1] of the ring *)
Definition zero_ticks p (from to : Z) : Pool Q :=
  let start := u32 (from * maxNumTxsPerTick) in
  let n := Z.to_nat ((to - from) * maxNumTxsPerTick) in
  with_saved (for_loop (Z.to_nat (to - from)) from (fun i l => l.[i := 0]) (numSavedTxsPerTick p))
    (with_buffers (for_loop n start (fun i l => l.[i := zero_slot]) (tickTransactionsBuffer p))
       (for_loop n start (fun i l => l.[i := 0]) (txsDigestsBuffer p)) p).
(** [for (tickIndex = from; tickIndex < to; ++tickIndex) cleanupTxsPriorities(tickIndex)] *)
Fixpoint cleanup_ticks (n : nat) (q : Q) (tickIndex : Z) : option Q :=
  match n with
  | O => Some q
  | S n => q ← cleanupTxsPriorities q tickIndex; cleanup_ticks n q (tickIndex + 1)
  end.
Definition discard p (from to : Z) : option (Pool Q) :=
  let p := zero_ticks p from to in
  q ← cleanup_ticks (Z.to_nat (to - from)) (txsPriorities p) from; Some (with_priorities q p).

Definition incrementFirstStoredTick p : option (Pool Q) :=
  let p := zero_ticks p (buffersBeginIndex p) (buffersBeginIndex p + 1) in
  q ← cleanupTxsPriorities (txsPriorities p) (tickToIndex p (firstStoredTick p));
  Some (with_begin (u32 (firstStoredTick p + 1)) (u32 (buffersBeginIndex p + 1) mod NUM_TICKS) (with_priorities q p)).

Definition beginEpoch p (newInitialTick : Z) : option (Pool Q) :=
  if tickInStorage p newInitialTick then
    let newInitialIndex := tickToIndex p newInitialTick in
    p ← (if newInitialIndex <? buffersBeginIndex p then
           p ← discard p 0 newInitialIndex; discard p (buffersBeginIndex p) NUM_TICKS
         else discard p (buffersBeginIndex p) newInitialIndex);
    Some (with_begin newInitialTick newInitialIndex p)
  else Some (with_begin newInitialTick 0 init).

(** The assertions of [checkStateConsistencyWithAssert]; the tests for null pointers concern the allocation. *)
Fixpoint txs_consistent (n : nat) p (tick' tickIndex txIndex : Z) : bool :=
  match n with
  | O => true
  | S n =>
      let transaction := (tickTransactionsBuffer p).[u32 (tickIndex * maxNumTxsPerTick + txIndex)] in
      checkValidity transaction && (tick transaction =? tick') && txs_consistent n p tick' tickIndex (txIndex + 1)
  end.
Fixpoint ticks_consistent (n : nat) p (tick' : Z) : bool :=
  match n with
  | O => true
  | S n =>
      let tickIndex := tickToIndex p tick' in
      let numSavedForTick := (numSavedTxsPerTick p).[tickIndex] in
      tickInStorage p tick' && (numSavedForTick <=? maxNumTxsPerTick) && txs_consistent (Z.to_nat numSavedForTick) p tick' tickIndex 0 &&
      ticks_consistent n p (tick' + 1)
  end.
Definition checkStateConsistencyWithAssert p : bool :=
  (0 <=? buffersBeginIndex p) && (buffersBeginIndex p <? NUM_TICKS) && ticks_consistent (Z.to_nat NUM_TICKS) p (firstStoredTick p).
End PendingTxsPool.
