(* ===== verification/PoolRing.v ===== *)
(** * The ring of the pending transactions: invariant and single steps

    Slot [j] of place [i] of the ring is entry [i * maxNumTxsPerTick + j] of the buffers.  [place_txs] reads the transactions of
    a place, [queue_of] their priorities; the lemmas describe what writing a slot, counting it, and discarding places do to
    them. *)
From S2P Require Import Prelude Bytes Spectrum CollectionTree CollectionQueues PriorityQueues PendingTxsPool.

(** ** Queues as lists *)
Section enqueue.
Implicit Types (x : Z * Z) (q : list (Z * Z)).

Lemma enqueue_perm x q : enqueue x q ≡ₚ x :: q.
Proof. induction q as [|y q IH]; [done|]. cbn [enqueue]. destruct (_ <=? _); [|done]. rewrite IH. by constructor. Qed.

Lemma enqueue_length x q : length (enqueue x q) = S (length q).
Proof. by rewrite (Permutation_length (enqueue_perm x q)). Qed.

Definition descending q : Prop := StronglySorted (fun x y => y.1 <= x.1) q.

Lemma enqueue_descending x q : descending q -> descending (enqueue x q).
Proof.
  unfold descending. induction 1 as [|y q Hs IH Hy]; [repeat constructor|]. cbn [enqueue]. destruct (Z.leb_spec x.1 y.1) as [Hle|Hlt].
  - constructor; [done|]. rewrite enqueue_perm. by constructor.
  - constructor; [by constructor|]. constructor; [lia|]. eapply Forall_impl; [exact Hy|]. simpl. lia.
Qed.

Lemma delete_descending i q : descending q -> descending (delete i q).
Proof.
  unfold descending. intros Hs. revert i. induction Hs as [|y q Hs IH Hy]; intros [|i]; simpl; [constructor..|done|].
  constructor; [done|]. apply Forall_delete. done.
Qed.

Lemma descending_last q x y : descending q -> last q = Some x -> y ∈ q -> x.1 <= y.1.
Proof.
  unfold descending. induction 1 as [|z q Hs IH Hz]; [done|]. destruct q as [|z' q].
  - intros [= ->] ->%list_elem_of_singleton. lia.
  - rewrite last_cons_cons. intros Hl [->|Hy]%elem_of_cons; [|by apply IH].
    rewrite Forall_forall in Hz. apply Hz. by apply last_Some_elem_of in Hl.
Qed.
End enqueue.

(** ** What the pool promises for a tick

    The transactions of a tick by slot, and the queue of the slots by priority *)
Record tick_state := mkTick { ts_txs : list (list Z); ts_queue : list (Z * Z) }.
Definition no_txs : tick_state := mkTick [] [].

(** Offering the transaction [bytes] of priority [pri], with a limit of [M] per tick and the digest function [K].  If the tick is full, it
    takes the slot of the lowest priority (the latest among equals), provided its own priority is higher. *)
Definition offer (M : Z) (K : list Z -> Z) (pri : Z) (build : bool) (bytes : list Z) (st : tick_state) : tick_state * bool :=
  if bool_decide (K bytes ∈ K <$> ts_txs st) || (build && (pri <=? 0)) then (st, false)
  else if alen (ts_txs st) <? M then
    (mkTick (ts_txs st ++ [bytes]) (if build then enqueue (pri, alen (ts_txs st)) (ts_queue st) else ts_queue st), true)
  else if build then
    match last (ts_queue st) with
    | Some (lowest, j) =>
        if lowest <? pri then
          (mkTick (<[Z.to_nat j := bytes]> (ts_txs st)) (enqueue (pri, j) (delete (pred (length (ts_queue st))) (ts_queue st))), true)
        else (st, false)
    | None => (st, false)
    end
  else (st, false).

(** ** Bytes of a transaction *)
Definition is_byte (b : Z) : Prop := 0 <= b < 2 ^ 8.
(** The memory [add] reads *)
Definition tx_memory (tx : list Z) : Prop := Forall is_byte tx /\ totalSize tx <= alen tx.
(** The bytes of the transaction at the start of some memory *)
Definition tx_of (mem : list Z) : list Z := take (Z.to_nat (totalSize mem)) mem.

Lemma byte_at l i : Forall is_byte l -> 0 <= l.[i] < 2 ^ 8.
Proof.
  intros Hl. destruct (decide (0 <= i < alen l)) as [Hi|Hi].
  - rewrite aget_nonneg by lia. rewrite Forall_forall in Hl. apply Hl. apply list_elem_of_lookup_total_2. unfold alen in Hi. lia.
  - rewrite aget_out by lia. simpl. lia.
Qed.

Lemma inputSize_range l : Forall is_byte l -> 0 <= inputSize l < 2 ^ 16.
Proof. intros Hl. apply (le_read_range 2). intros. by apply byte_at. Qed.

Lemma totalSize_eq l : Forall is_byte l -> totalSize l = 144 + inputSize l.
Proof.
  intros Hl. pose proof (inputSize_range l Hl). unfold totalSize, TRANSACTION_SIZE, SIGNATURE_SIZE.
  rewrite u32_small; [lia|]. unfold is_u32. lia.
Qed.

Lemma aget_app_take (l r : list Z) n i : 0 <= i < Z.of_nat n -> (n <= length l)%nat -> (take n l ++ r).[i] = l.[i].
Proof.
  intros Hi Hn. rewrite !aget_nonneg by lia. rewrite lookup_total_app_l by (rewrite length_take; lia).
  rewrite lookup_total_take. by rewrite decide_True by lia.
Qed.

(** The header decides all fields. *)
Lemma header_ext l l' :
  (forall i, 0 <= i < 80 -> l'.[i] = l.[i]) ->
  sourcePublicKey l' = sourcePublicKey l /\ destinationPublicKey l' = destinationPublicKey l /\ amount l' = amount l /\
  tick l' = tick l /\ inputType l' = inputType l /\ inputSize l' = inputSize l.
Proof.
  intros H. unfold sourcePublicKey, destinationPublicKey, amount, tick, inputType, inputSize.
  split_and!; first [apply le_read_ext|f_equal; apply le_read_ext]; intros; apply H; lia.
Qed.

Lemma header_valid l l' :
  (forall i, 0 <= i < 80 -> l'.[i] = l.[i]) -> checkValidity l' = checkValidity l /\ totalSize l' = totalSize l.
Proof.
  intros H. destruct (header_ext l l' H) as (_ & _ & Ha & _ & _ & Hs). unfold checkValidity, totalSize. by rewrite Ha, Hs.
Qed.

Lemma copied_header tx rest :
  tx_memory tx -> forall i, 0 <= i < 80 -> (take (Z.to_nat (totalSize tx)) tx ++ rest).[i] = tx.[i].
Proof.
  intros [Hb Hl] i Hi. rewrite totalSize_eq in * by done. pose proof (inputSize_range tx Hb). unfold alen in Hl.
  apply aget_app_take; lia.
Qed.

Lemma tx_of_copied tx rest : tx_memory tx -> tx_of (take (Z.to_nat (totalSize tx)) tx ++ rest) = tx_of tx.
Proof.
  intros Htx. unfold tx_of. rewrite (proj2 (header_valid tx _ (copied_header tx rest Htx))).
  destruct Htx as [_ Hl]. unfold alen in Hl. rewrite take_app_le by (rewrite length_take; lia). rewrite take_take. f_equal. lia.
Qed.

Lemma tx_of_memory mem : tx_memory mem -> tx_memory (tx_of mem) /\ tx_of (tx_of mem) = tx_of mem /\ tick (tx_of mem) = tick mem /\
  checkValidity (tx_of mem) = checkValidity mem.
Proof.
  intros Hm. pose proof (copied_header mem [] Hm) as Hh. rewrite app_nil_r in Hh. fold (tx_of mem) in Hh.
  destruct (header_valid _ _ Hh) as [Hv Ht]. destruct (header_ext _ _ Hh) as (_ & _ & _ & Hk & _).
  pose proof (tx_of_copied mem [] Hm) as Hc. rewrite app_nil_r in Hc. split_and!; try done.
  split; [apply Forall_take, Hm|]. rewrite Ht. destruct Hm as [_ Hl]. unfold tx_of, alen in *. rewrite length_take. lia.
Qed.

Lemma tx_of_header mem : Forall is_byte mem -> 80 <= alen mem -> checkValidity (tx_of mem) = checkValidity mem /\ tick (tx_of mem) = tick mem.
Proof.
  intros Hb Hl. pose proof (totalSize_eq mem Hb) as Hs. pose proof (inputSize_range mem Hb).
  assert (forall i, 0 <= i < 80 -> (tx_of mem).[i] = mem.[i]) as Hh.
  { intros i Hi. unfold tx_of. rewrite !aget_nonneg, lookup_total_take, decide_True by lia. done. }
  split; [by apply (header_valid mem)|by apply (header_ext mem)].
Qed.

Lemma valid_size tx : Forall is_byte tx -> checkValidity tx = true -> 144 <= totalSize tx <= MAX_TRANSACTION_SIZE.
Proof.
  intros Hb Hv. rewrite totalSize_eq by done. pose proof (inputSize_range tx Hb). unfold checkValidity in Hv.
  apply andb_true_iff in Hv as [_ Hv%Z.leb_le]. unfold MAX_TRANSACTION_SIZE, TRANSACTION_SIZE, SIGNATURE_SIZE, MAX_INPUT_SIZE in *. lia.
Qed.

(** ** The invariant of the ring *)
Section ring.
Variables NUM_TICKS maxNumTxsPerTick : Z.
Abbreviation N := NUM_TICKS.
Abbreviation M := maxNumTxsPerTick.
Variable KangarooTwelve : list Z -> Z.
Context {Q : Type} `{!QueueOps Q} `{HQ : !Queues Q}.
Hypothesis N_pos : 0 < N.
Hypothesis M_pos : 0 < M.
Hypothesis NM_small : N * M < 2 ^ 32.
Hypothesis NM_fits : N * M <= queues_capacity.
Hypothesis N_half : 2 * N <= 2 ^ 32.
Implicit Types (p : Pool Q) (i j : Z) (q : Q).
#[local] Set Default Proof Using "All".

Definition place i : Prop := 0 <= i < N.
Definition slot i j : Z := i * M + j.

Lemma slot_range i j : place i -> 0 <= j < M -> 0 <= slot i j < N * M.
Proof. unfold place, slot. intros. nia. Qed.

Lemma pool_slot_inj i j i' j' : 0 <= j < M -> 0 <= j' < M -> slot i j = slot i' j' -> i = i' /\ j = j'.
Proof.
  unfold slot. intros Hj Hj' He. apply (Z.div_mod_unique M); lia.
Qed.

Lemma slot_ptr i j : place i -> 0 <= j < M -> getTxPtr M i j = slot i j /\ getDigestPtr M i j = slot i j.
Proof.
  intros Hi Hj. pose proof (slot_range i j Hi Hj). unfold getTxPtr, getDigestPtr, slot in *. rewrite u32_small; [done|]. unfold is_u32. lia.
Qed.

Definition saved p i : Z := (numSavedTxsPerTick p).[i].
Definition slot_tx p i j : list Z := tx_of ((tickTransactionsBuffer p).[slot i j]).
Definition place_txs p i : list (list Z) := (fun j : nat => slot_tx p i (Z.of_nat j)) <$> seq 0 (Z.to_nat (saved p i)).
Definition place_queue p i : list (Z * Z) := queue_of (txsPriorities p) i.

Lemma place_txs_length p i : length (place_txs p i) = Z.to_nat (saved p i).
Proof. unfold place_txs. by rewrite length_fmap, length_seq. Qed.

Lemma place_txs_lookup p i j : 0 <= j < saved p i -> place_txs p i !! Z.to_nat j = Some (slot_tx p i j).
Proof.
  intros Hj. unfold place_txs. rewrite list_lookup_fmap, lookup_seq_lt by lia. simpl. by rewrite Z2Nat.id by lia.
Qed.

Lemma place_txs_elem p i tx : tx ∈ place_txs p i <-> exists j, 0 <= j < saved p i /\ tx = slot_tx p i j.
Proof.
  unfold place_txs. rewrite list_elem_of_fmap. split.
  - intros (j & -> & Hj%elem_of_seq). exists (Z.of_nat j). split; [lia|done].
  - intros (j & Hj & ->). exists (Z.to_nat j). rewrite Z2Nat.id, elem_of_seq by lia. split; [done|lia].
Qed.

(** What a place holds: valid transactions of one tick with different digests, and a queue of some of their slots. *)
Record place_ok p i : Prop := {
  po_saved : 0 <= saved p i <= M;
  po_valid : forall j, 0 <= j < saved p i -> checkValidity (slot_tx p i j) = true;
  po_digest : forall j, 0 <= j < saved p i -> (txsDigestsBuffer p).[slot i j] = KangarooTwelve (slot_tx p i j);
  po_nodup : NoDup (KangarooTwelve <$> place_txs p i);
  po_entries : NoDup (snd <$> place_queue p i);
  po_entry : forall e, e ∈ place_queue p i -> 0 <= e.2 < saved p i;
  po_sorted : descending (place_queue p i) }.

Record ring_ok p : Prop := {
  ro_txs : alen (tickTransactionsBuffer p) = N * M;
  ro_digests : alen (txsDigestsBuffer p) = N * M;
  ro_nums : alen (numSavedTxsPerTick p) = N;
  ro_slots : forall x, 0 <= x < N * M ->
    alen ((tickTransactionsBuffer p).[x]) = MAX_TRANSACTION_SIZE /\ Forall is_byte ((tickTransactionsBuffer p).[x]);
  ro_places : forall i, place i -> place_ok p i;
  ro_queues : queues_ok (txsPriorities p);
  ro_count : queues_count (txsPriorities p) = sumZ (fun i => alen (place_queue p i)) (Z.to_nat N) }.

(** A place looks the same in two pools. *)
Definition same_place p p' i : Prop :=
  saved p' i = saved p i /\ place_queue p' i = place_queue p i /\
  forall j, 0 <= j < M -> (tickTransactionsBuffer p').[slot i j] = (tickTransactionsBuffer p).[slot i j] /\
    (txsDigestsBuffer p').[slot i j] = (txsDigestsBuffer p).[slot i j].

Lemma same_place_txs p p' i : saved p i <= M -> same_place p p' i -> place_txs p' i = place_txs p i.
Proof.
  intros Hs (Hn & _ & Hb). unfold place_txs. rewrite Hn. apply list_fmap_ext. intros x j Hj%list_elem_of_lookup_2%elem_of_seq.
  unfold slot_tx. by rewrite (proj1 (Hb (Z.of_nat j) ltac:(lia))).
Qed.

Lemma same_place_ok p p' i : place_ok p i -> same_place p p' i -> place_ok p' i.
Proof.
  intros Hok Hsame. pose proof (po_saved _ _ Hok) as Hs. pose proof (same_place_txs p p' i ltac:(lia) Hsame) as Ht.
  destruct Hsame as (Hn & Hq & Hb).
  assert (forall j, 0 <= j < saved p i -> slot_tx p' i j = slot_tx p i j) as Htx.
  { intros j Hj. unfold slot_tx. by rewrite (proj1 (Hb j ltac:(lia))). }
  split; rewrite ?Hn, ?Hq, ?Ht; try apply Hok.
  - intros j Hj. rewrite Htx by done. by apply Hok.
  - intros j Hj. rewrite (proj2 (Hb j ltac:(lia))), Htx by done. by apply Hok.
Qed.

Lemma empty_place_ok p i : saved p i = 0 -> place_queue p i = [] -> place_ok p i.
Proof.
  intros Hs Hq. assert (place_txs p i = []) as Ht by (apply length_zero_iff_nil; rewrite place_txs_length, Hs; done).
  split; rewrite ?Hs, ?Hq, ?Ht; simpl; try lia; try (intros e He; by apply elem_of_nil in He); constructor.
Qed.

Lemma place_queue_length p i : place_ok p i -> (length (place_queue p i) <= Z.to_nat (saved p i))%nat.
Proof.
  intros Hp. rewrite <- (length_fmap snd).
  enough ((snd <$> place_queue p i) ⊆+ seqZ 0 (saved p i)) as Hsub%submseteq_length by (rewrite length_seqZ in Hsub; lia).
  apply NoDup_submseteq; [apply Hp|]. intros x (e & -> & He)%list_elem_of_fmap. apply (po_entry _ _ Hp) in He. apply elem_of_seqZ. lia.
Qed.

(** There is room in the queues as long as some place is not full. *)
Lemma queues_room p i : ring_ok p -> place i -> alen (place_queue p i) < M -> queues_count (txsPriorities p) < queues_capacity.
Proof.
  intros Hok Hi Hlt. rewrite (ro_count _ Hok). unfold place in *. eapply Z.lt_le_trans; [|exact NM_fits].
  assert (forall i, place i -> alen (place_queue p i) <= M) as Hb.
  { intros i' Hi'. pose proof (ro_places _ Hok i' Hi') as Hp. pose proof (po_saved _ _ Hp) as Hs.
    pose proof (place_queue_length p i' Hp). unfold alen. lia. }
  pose proof (sumZ_update (fun j => alen (place_queue p j)) (fun j => if decide (j = i) then M else alen (place_queue p j)) (Z.to_nat N) i) as Hu.
  cbv beta in Hu. rewrite decide_True in Hu by done.
  assert (sumZ (fun j => if decide (j = i) then M else alen (place_queue p j)) (Z.to_nat N) <= N * M) as Hle.
  { etrans; [apply (sumZ_le _ (fun _ => M))|rewrite sumZ_const; lia]. intros j Hj. case_decide; [lia|]. apply Hb. unfold place. lia. }
  rewrite Hu in Hle; [lia|lia|]. intros j _ Hj. by rewrite decide_False.
Qed.

(** ** Changing one place *)
Lemma ring_ok_update p p' i :
  ring_ok p -> place i ->
  alen (tickTransactionsBuffer p') = N * M -> alen (txsDigestsBuffer p') = N * M -> alen (numSavedTxsPerTick p') = N ->
  (forall x, 0 <= x < N * M ->
     alen ((tickTransactionsBuffer p').[x]) = MAX_TRANSACTION_SIZE /\ Forall is_byte ((tickTransactionsBuffer p').[x])) ->
  (forall i', place i' -> i' <> i -> same_place p p' i') -> place_ok p' i -> queues_ok (txsPriorities p') ->
  queues_count (txsPriorities p') = queues_count (txsPriorities p) + alen (place_queue p' i) - alen (place_queue p i) -> ring_ok p'.
Proof.
  intros Hok Hi Ht Hd Hn Hs Hsame Hplace Hq Hc. split; try done.
  - intros i' Hi'. destruct (decide (i' = i)) as [->|Hne]; [done|]. apply (same_place_ok p); [by apply Hok|by apply Hsame].
  - rewrite Hc, (ro_count _ Hok). symmetry. unfold place in *. apply (sumZ_update (fun i => alen (place_queue p i)) (fun i => alen (place_queue p' i))); [lia|]. intros j Hj Hne.
    by rewrite (proj1 (proj2 (Hsame j ltac:(unfold place; lia) Hne))).
Qed.

Lemma append_place_ok p p' i tx :
  place_ok p i -> saved p i < M -> saved p' i = saved p i + 1 ->
  (forall j, 0 <= j < saved p i -> slot_tx p' i j = slot_tx p i j /\ (txsDigestsBuffer p').[slot i j] = (txsDigestsBuffer p).[slot i j]) ->
  slot_tx p' i (saved p i) = tx -> (txsDigestsBuffer p').[slot i (saved p i)] = KangarooTwelve tx ->
  checkValidity tx = true -> KangarooTwelve tx ∉ KangarooTwelve <$> place_txs p i ->
  (place_queue p' i = place_queue p i \/ exists pri, place_queue p' i = enqueue (pri, saved p i) (place_queue p i)) ->
  place_ok p' i /\ place_txs p' i = place_txs p i ++ [tx].
Proof.
  intros Hok Hlt Hsv Hold Hnew Hdig Hv Hdup Hq. pose proof (po_saved _ _ Hok) as Hs.
  assert (place_txs p' i = place_txs p i ++ [tx]) as Htxs.
  { unfold place_txs. rewrite Hsv. replace (Z.to_nat (saved p i + 1)) with (S (Z.to_nat (saved p i))) by lia.
    rewrite seq_S, fmap_app. f_equal.
    - apply list_fmap_ext. intros _ j Hj%list_elem_of_lookup_2%elem_of_seq. apply Hold. lia.
    - simpl. by rewrite Z2Nat.id, Hnew by lia. }
  assert (forall j, 0 <= j < saved p i + 1 -> j = saved p i \/ 0 <= j < saved p i) as Hcase by (intros; lia).
  assert (snd <$> place_queue p' i ≡ₚ snd <$> place_queue p i \/ snd <$> place_queue p' i ≡ₚ saved p i :: (snd <$> place_queue p i)) as Hperm.
  { destruct Hq as [->|(pri & ->)]; [by left|right]. by rewrite enqueue_perm. }
  assert (forall e, e ∈ place_queue p i -> 0 <= e.2 < saved p i) as He by apply Hok.
  split; [|done]. split; rewrite ?Hsv, ?Htxs.
  - lia.
  - intros j [->|Hj]%Hcase; [by rewrite Hnew|]. rewrite (proj1 (Hold j Hj)). by apply Hok.
  - intros j [->|Hj]%Hcase; [by rewrite Hnew|]. destruct (Hold j Hj) as [-> ->]. by apply Hok.
  - rewrite fmap_app. apply NoDup_app. split; [apply Hok|]. split; [|apply NoDup_singleton].
    intros x Hx Hx'%list_elem_of_singleton. by subst x.
  - destruct Hperm as [->| ->]; [apply Hok|]. apply NoDup_cons. split; [|apply Hok].
    intros (e & Heq & Hin%He)%list_elem_of_fmap. lia.
  - intros e Hin. destruct Hq as [E|(pri & E)]; rewrite E in Hin; [apply He in Hin; lia|].
    rewrite enqueue_perm in Hin. apply elem_of_cons in Hin as [->|Hin%He]; simpl; lia.
  - destruct Hq as [->|(pri & ->)]; [apply Hok|]. apply enqueue_descending, Hok.
Qed.

Lemma replace_place_ok p p' i tx lowest j pri :
  place_ok p i -> saved p' i = saved p i -> last (place_queue p i) = Some (lowest, j) ->
  place_queue p' i = enqueue (pri, j) (delete (pred (length (place_queue p i))) (place_queue p i)) ->
  (forall j', 0 <= j' < saved p i -> j' <> j ->
     slot_tx p' i j' = slot_tx p i j' /\ (txsDigestsBuffer p').[slot i j'] = (txsDigestsBuffer p).[slot i j']) ->
  slot_tx p' i j = tx -> (txsDigestsBuffer p').[slot i j] = KangarooTwelve tx ->
  checkValidity tx = true -> KangarooTwelve tx ∉ KangarooTwelve <$> place_txs p i ->
  place_ok p' i /\ place_txs p' i = <[Z.to_nat j := tx]> (place_txs p i).
Proof.
  intros Hok Hsv Hlast Hq Hold Hnew Hdig Hv Hdup. pose proof (po_saved _ _ Hok) as Hs. pose proof (last_delete _ _ Hlast) as Hdel.
  set (rest := delete _ _) in *. assert (0 <= j < saved p i) as Hj.
  { apply (po_entry _ _ Hok (lowest, j)). by apply last_Some_elem_of. }
  assert (place_txs p' i = <[Z.to_nat j := tx]> (place_txs p i)) as Htxs.
  { apply list_eq. intros n. destruct (decide (n < Z.to_nat (saved p i))%nat) as [Hn|Hn].
    - replace n with (Z.to_nat (Z.of_nat n)) by lia. rewrite place_txs_lookup by lia. destruct (decide (Z.of_nat n = j)) as [->|Hne].
      + rewrite list_lookup_insert_eq by (rewrite place_txs_length; lia). by rewrite Hnew.
      + rewrite list_lookup_insert_ne, place_txs_lookup by lia. by rewrite (proj1 (Hold (Z.of_nat n) ltac:(lia) Hne)).
    - rewrite !lookup_ge_None_2; [done|rewrite length_insert|]; rewrite place_txs_length; lia. }
  assert (place_queue p' i ≡ₚ (pri, j) :: rest) as Hperm by (by rewrite Hq, enqueue_perm).
  assert (snd <$> place_queue p i ≡ₚ j :: (snd <$> rest)) as Hperm0.
  { rewrite Hdel, fmap_app. simpl. by rewrite Permutation_app_comm. }
  split; [|done]. split; rewrite ?Hsv, ?Htxs.
  - lia.
  - intros j' Hj'. destruct (decide (j' = j)) as [->|Hne]; [by rewrite Hnew|]. rewrite (proj1 (Hold j' Hj' Hne)). by apply Hok.
  - intros j' Hj'. destruct (decide (j' = j)) as [->|Hne]; [by rewrite Hnew|]. destruct (Hold j' Hj' Hne) as [-> ->]. by apply Hok.
  - rewrite list_fmap_insert. apply NoDup_insert_fresh; [apply Hok|done].
  - rewrite Hperm. simpl. rewrite <- Hperm0. apply Hok.
  - intros e [-> | He]%(elem_of_Permutation_proper e _ _ Hperm)%elem_of_cons; [done|]. apply (po_entry _ _ Hok). rewrite Hdel. set_solver.
  - rewrite Hq. apply enqueue_descending, delete_descending, Hok.
Qed.

(** ** Emptying queues *)
Lemma remove_all_spec n q i :
  queues_ok q -> (length (queue_of q i) <= n)%nat ->
  exists q', remove_all n q (queue_head q i) = Some q' /\ queues_ok q' /\ queue_of q' i = [] /\
    queues_count q' = queues_count q - alen (queue_of q i) /\ forall i', i' <> i -> queue_of q' i' = queue_of q i'.
Proof.
  revert q. induction n as [|n IH]; intros q Hok Hn.
  - destruct (queue_of q i) eqn:Hq; [|simpl in Hn; lia]. exists q. split; [done|]. split; [done|]. split; [done|]. split; [|done].
    unfold alen. simpl. lia.
  - cbn [remove_all]. rewrite (queue_head_law q i Hok). pose proof (queue_place_law q i Hok) as Hpl.
    destruct (queue_places q i) as [|x l] eqn:Hp.
    + rewrite Hpl. simpl. exists q. split; [done|]. split; [done|]. split; [by rewrite Hpl|]. split; [unfold alen; simpl; lia|done].
    + change (first_index (x :: l)) with x.
      assert (x <> NULL_INDEX) as Hx by (apply (queue_index_law q i); [done|rewrite Hp; left]).
      rewrite (proj2 (Z.eqb_neq _ _) Hx). cbn [negb].
      destruct (queue_remove_law q i 0 x Hok) as (q1 & Hrem & Hok1 & Hc1 & Hq1 & Ho1); [by rewrite Hp|].
      rewrite Hrem. cbn [mbind option_bind]. rewrite <- head_lookup. fold (first_index (queue_places q1 i)).
      rewrite <- (queue_head_law q1 i Hok1).
      assert (length (queue_of q i) = S (length (queue_of q1 i))) as Hlen by (rewrite Hq1, Hpl; done).
      destruct (IH q1 Hok1) as (q' & -> & Hok' & He & Hc & Ho); [lia|].
      exists q'. split; [done|]. split; [done|]. split; [done|]. split.
      * rewrite Hc, Hc1. unfold alen. lia.
      * intros i' Hi'. by rewrite Ho, Ho1.
Qed.

Lemma cleanupTxsPriorities_spec q i :
  queues_ok q -> (length (queue_of q i) <= Z.to_nat M)%nat ->
  exists q', cleanupTxsPriorities M q i = Some q' /\ queues_ok q' /\ queue_of q' i = [] /\
    queues_count q' = queues_count q - alen (queue_of q i) /\ forall i', i' <> i -> queue_of q' i' = queue_of q i'.
Proof.
  intros Hok Hl. destruct (remove_all_spec _ q i Hok Hl) as (q1 & Hrem & Hok1 & Hq1 & Hc1 & Ho1).
  destruct (queue_cleanup_law q1 Hok1) as (q' & Hcl & Hok' & Hc & Hq).
  unfold cleanupTxsPriorities. rewrite Hrem. cbn [mbind option_bind]. rewrite Hcl. exists q'.
  split; [done|]. split; [done|]. split; [by rewrite Hq|]. split; [lia|]. intros i' Hi'. by rewrite Hq, Ho1.
Qed.



(** Good queues: as many elements as the queues of the places have. *)
Definition queues_good q : Prop :=
  queues_ok q /\ queues_count q = sumZ (fun i => alen (queue_of q i)) (Z.to_nat N) /\
  forall i, place i -> (length (queue_of q i) <= Z.to_nat M)%nat.

Lemma cleanup_ticks_spec n q from :
  queues_good q -> 0 <= from -> from + Z.of_nat n <= N ->
  exists q', cleanup_ticks M n q from = Some q' /\ queues_good q' /\
    forall i, place i -> queue_of q' i = if decide (from <= i < from + Z.of_nat n) then [] else queue_of q i.
Proof.
  revert q from. induction n as [|n IH]; intros q from Hg Hf Hn.
  - exists q. split; [done|]. split; [done|]. intros i Hi. by rewrite decide_False by lia.
  - destruct Hg as (Hok & Hc & Hl). destruct (cleanupTxsPriorities_spec q from Hok) as (q1 & Hcl & Hok1 & Hq1 & Hc1 & Ho1); [apply Hl; unfold place; lia|].
    cbn [cleanup_ticks]. rewrite Hcl. cbn [mbind option_bind]. destruct (IH q1 (from + 1)) as (q' & -> & Hg' & Hq'); [|lia|lia|].
    + split; [done|]. split.
      * rewrite Hc1, Hc. symmetry. rewrite (sumZ_update (fun i => alen (queue_of q i)) (fun i => alen (queue_of q1 i)) _ from); [|lia|].
        -- rewrite Hq1. unfold alen at 2. simpl. lia.
        -- intros j _ Hj. by rewrite Ho1.
      * intros i Hi. destruct (decide (i = from)) as [->|]; [rewrite Hq1; simpl; lia|]. rewrite Ho1 by done. by apply Hl.
    + exists q'. split; [done|]. split; [done|]. intros i Hi. rewrite Hq' by done.
      destruct (decide (i = from)) as [->|Hne]; [rewrite decide_False, decide_True by lia; done|].
      rewrite Ho1 by done. by repeat destruct (decide _); try lia.
Qed.

Lemma ring_queues_good p : ring_ok p -> queues_good (txsPriorities p).
Proof.
  intros Hok. split; [apply Hok|]. split; [apply Hok|]. intros i Hi. pose proof (ro_places _ Hok i Hi) as Hp.
  pose proof (place_queue_length p i Hp). pose proof (po_saved _ _ Hp). unfold place_queue in *. lia.
Qed.

(** ** Discarding places *)
Lemma zero_ticks_same p from to i :
  ring_ok p -> 0 <= from <= to -> to <= N -> place i -> ~ from <= i < to -> same_place p (zero_ticks M p from to) i.
Proof.
  intros Hok Hf Ht Hi Hout. unfold place in Hi. assert (is_u32 (from * M)) as Hu by (unfold is_u32; nia).
  unfold same_place, saved, place_queue, zero_ticks. simpl. rewrite u32_small by done.
  assert (from * M + Z.of_nat (Z.to_nat ((to - from) * M)) = to * M) as Hend by nia. assert (to * M <= N * M) as HtM by nia.
  destruct (for_fill (fun _ => 0) (Z.to_nat (to - from)) from (numSavedTxsPerTick p)) as [_ Hn]; [lia|rewrite (ro_nums _ Hok); lia|].
  destruct (for_fill (fun _ => zero_slot) (Z.to_nat ((to - from) * M)) (from * M) (tickTransactionsBuffer p)) as [_ Htx];
    [unfold is_u32 in Hu; lia|rewrite (ro_txs _ Hok); lia|].
  destruct (for_fill (fun _ => 0) (Z.to_nat ((to - from) * M)) (from * M) (txsDigestsBuffer p)) as [_ Hd];
    [unfold is_u32 in Hu; lia|rewrite (ro_digests _ Hok); lia|].
  split; [rewrite Hn; by rewrite decide_False by lia|]. split; [done|]. intros j Hj.
  assert (~ from * M <= slot i j < to * M) as Hs by (unfold slot; nia).
  by rewrite Htx, Hd, Hend, !decide_False by done.
Qed.

Lemma zero_ticks_zero p from to i : ring_ok p -> 0 <= from <= to -> to <= N -> from <= i < to -> saved (zero_ticks M p from to) i = 0.
Proof.
  intros Hok Hf Ht Hi. unfold saved, zero_ticks. simpl.
  destruct (for_fill (fun _ => 0) (Z.to_nat (to - from)) from (numSavedTxsPerTick p)) as [_ Hn]; [lia|rewrite (ro_nums _ Hok); lia|].
  rewrite Hn. by rewrite decide_True by lia.
Qed.

Lemma zero_slot_ok : alen zero_slot = MAX_TRANSACTION_SIZE /\ Forall is_byte zero_slot.
Proof. split; [done|]. apply Forall_replicate. done. Qed.

Lemma zero_ticks_shape p from to :
  ring_ok p -> 0 <= from <= to -> to <= N -> let p' := zero_ticks M p from to in
  alen (tickTransactionsBuffer p') = N * M /\ alen (txsDigestsBuffer p') = N * M /\ alen (numSavedTxsPerTick p') = N /\
  forall x, 0 <= x < N * M -> alen ((tickTransactionsBuffer p').[x]) = MAX_TRANSACTION_SIZE /\ Forall is_byte ((tickTransactionsBuffer p').[x]).
Proof.
  intros Hok Hf Ht. assert (is_u32 (from * M)) as Hu by (unfold is_u32; nia). cbv zeta. unfold zero_ticks. simpl. rewrite u32_small by done.
  assert (from * M + Z.of_nat (Z.to_nat ((to - from) * M)) = to * M) as Hend by nia. assert (to * M <= N * M) as HtM by nia. unfold is_u32 in Hu.
  destruct (for_fill (fun _ => 0) (Z.to_nat (to - from)) from (numSavedTxsPerTick p)) as [Hn _]; [lia|rewrite (ro_nums _ Hok); lia|].
  destruct (for_fill (fun _ => zero_slot) (Z.to_nat ((to - from) * M)) (from * M) (tickTransactionsBuffer p)) as [Htx Hslot];
    [lia|rewrite (ro_txs _ Hok); lia|].
  destruct (for_fill (fun _ => 0) (Z.to_nat ((to - from) * M)) (from * M) (txsDigestsBuffer p)) as [Hd _];
    [lia|rewrite (ro_digests _ Hok); lia|].
  rewrite Hn, Htx, Hd. split; [apply Hok|]. split; [apply Hok|]. split; [apply Hok|]. intros x Hx. rewrite Hslot.
  case_decide; [apply zero_slot_ok|by apply Hok].
Qed.

(** The places of a range are empty, the others unchanged. *)
Definition cleared p p' from to : Prop :=
  firstStoredTick p' = firstStoredTick p /\ buffersBeginIndex p' = buffersBeginIndex p /\
  forall i, place i -> if decide (from <= i < to) then saved p' i = 0 /\ place_queue p' i = [] else same_place p p' i.

Lemma discard_spec p from to :
  ring_ok p -> 0 <= from <= to -> to <= N -> exists p', discard M p from to = Some p' /\ ring_ok p' /\ cleared p p' from to.
Proof.
  intros Hok Hf Ht. destruct (zero_ticks_shape p from to Hok Hf Ht) as (H1 & H2 & H3 & H4).
  pose proof (ring_queues_good p Hok) as Hg.
  destruct (cleanup_ticks_spec (Z.to_nat (to - from)) (txsPriorities p) from Hg) as (q' & Hcl & (Hq1 & Hq2 & Hq3) & Hq); [lia|lia|].
  unfold discard. change (txsPriorities (zero_ticks M p from to)) with (txsPriorities p). rewrite Hcl. cbn [mbind option_bind].
  set (p' := with_priorities q' (zero_ticks M p from to)).
  assert (cleared p p' from to) as Hcd.
  { split; [done|]. split; [done|]. intros i Hi. specialize (Hq i Hi). replace (from + Z.of_nat (Z.to_nat (to - from))) with to in Hq by lia.
    case_decide as Hd.
    - split; [by apply (zero_ticks_zero p from to)|done].
    - destruct (zero_ticks_same p from to i Hok Hf Ht Hi Hd) as (Hs & _ & Hb). by split. }
  exists p'. split; [done|]. split; [|done]. split; try done.
  intros i Hi. destruct Hcd as (_ & _ & Hcd). specialize (Hcd i Hi). case_decide.
  - destruct Hcd. by apply empty_place_ok.
  - apply (same_place_ok p); [by apply Hok|done].
Qed.

(** ** Writing a slot *)
Record written p p' i j tx : Prop := {
  wr_first : firstStoredTick p' = firstStoredTick p;
  wr_begin : buffersBeginIndex p' = buffersBeginIndex p;
  wr_txs : alen (tickTransactionsBuffer p') = N * M;
  wr_digests : alen (txsDigestsBuffer p') = N * M;
  wr_slots : forall x, 0 <= x < N * M ->
    alen ((tickTransactionsBuffer p').[x]) = MAX_TRANSACTION_SIZE /\ Forall is_byte ((tickTransactionsBuffer p').[x]);
  wr_here : slot_tx p' i j = tx_of tx;
  wr_digest : (txsDigestsBuffer p').[slot i j] = KangarooTwelve (tx_of tx);
  wr_other : forall i' j', 0 <= j' < M -> i' <> i \/ j' <> j ->
    (tickTransactionsBuffer p').[slot i' j'] = (tickTransactionsBuffer p).[slot i' j'] /\
    (txsDigestsBuffer p').[slot i' j'] = (txsDigestsBuffer p).[slot i' j'] }.

Lemma write_slot_spec p p0 i j tx :
  ring_ok p -> place i -> 0 <= j < M -> tx_memory tx -> checkValidity tx = true ->
  tickTransactionsBuffer p0 = tickTransactionsBuffer p -> txsDigestsBuffer p0 = txsDigestsBuffer p ->
  firstStoredTick p0 = firstStoredTick p -> buffersBeginIndex p0 = buffersBeginIndex p ->
  written p (write_slot M p0 i j (KangarooTwelve (tx_of tx)) tx (totalSize tx)) i j tx.
Proof.
  intros Hok Hi Hj Htx Hv Ht Hd Hf Hb. pose proof (slot_range i j Hi Hj) as Hs. destruct (slot_ptr i j Hi Hj) as [P1 P2].
  pose proof (ro_txs _ Hok) as L1. pose proof (ro_digests _ Hok) as L2. pose proof (valid_size tx (proj1 Htx) Hv) as Hsz.
  destruct (ro_slots _ Hok _ Hs) as [S1 S2].
  unfold write_slot. rewrite P1, P2, Ht, Hd. split; simpl; rewrite ?alen_aset; try done.
  - intros x Hx. rewrite aget_aset. case_decide; [|by apply Hok]. split.
    + unfold alen in *. rewrite length_app, length_take, length_drop. destruct Htx as [_ Hl]. unfold alen in Hl. lia.
    + apply Forall_app. split; [apply Forall_take, Htx|apply Forall_drop, S2].
  - unfold slot_tx. simpl. rewrite aget_aset_eq by lia. by apply tx_of_copied.
  - by rewrite aget_aset_eq by lia.
  - intros i' j' Hj' Hne. assert (slot i j <> slot i' j') as Hs' by (intros E; apply pool_slot_inj in E as [-> ->]; [|done|done]; tauto).
    by rewrite !aget_aset_ne by done.
Qed.

Lemma digest_exists_spec n p i j d :
  place i -> 0 <= j -> j + Z.of_nat n <= M ->
  digest_exists M n p i j d = true <-> exists j', j <= j' < j + Z.of_nat n /\ (txsDigestsBuffer p).[slot i j'] = d.
Proof.
  intros Hi. revert j. induction n as [|n IH]; intros j Hj Hn; cbn [digest_exists]; [split; [done|intros (j' & ? & _); lia]|].
  rewrite (proj2 (slot_ptr i j Hi ltac:(lia))). destruct (Z.eqb_spec ((txsDigestsBuffer p).[slot i j]) d) as [He|He].
  - split; [|done]. intros _. exists j. split; [lia|done].
  - rewrite IH by lia. split; intros (j' & Hj' & Hd); exists j'; (split; [|done]); [lia|].
    destruct (decide (j' = j)) as [->|]; [done|lia].
Qed.

Lemma digest_exists_place p i d :
  ring_ok p -> place i -> digest_exists M (Z.to_nat (saved p i)) p i 0 d = bool_decide (d ∈ KangarooTwelve <$> place_txs p i).
Proof.
  intros Hok Hi. pose proof (ro_places _ Hok i Hi) as Hp. pose proof (po_saved _ _ Hp) as Hs.
  apply eq_true_iff_eq. rewrite digest_exists_spec, bool_decide_eq_true, list_elem_of_fmap by (done || lia). split.
  - intros (j & Hj & Hd). exists (slot_tx p i j). rewrite <- Hd. split; [apply Hp; lia|]. apply place_txs_elem. exists j. split; [lia|done].
  - intros (x & -> & (j & Hj & ->)%place_txs_elem). exists j. split; [lia|]. apply Hp. lia.
Qed.

(** ** Adding a transaction to its place *)
Definition place_state p i : tick_state := mkTick (place_txs p i) (place_queue p i).

Lemma saved_length p i : place_ok p i -> saved p i = alen (place_txs p i).
Proof. intros Hp. unfold alen. rewrite place_txs_length. pose proof (po_saved _ _ Hp). lia. Qed.

(** Reaching the same result as the specification, at one place only *)
Definition place_step p i (p' : Pool Q) (st : tick_state) : Prop :=
  ring_ok p' /\ place_state p' i = st /\ (forall i', place i' -> i' <> i -> same_place p p' i') /\
  firstStoredTick p' = firstStoredTick p /\ buffersBeginIndex p' = buffersBeginIndex p.

Lemma same_place_refl p i : same_place p p i.
Proof. by split. Qed.
Lemma place_step_refl p i : ring_ok p -> place_step p i p (place_state p i).
Proof. intros Hok. split; [done|]. split; [done|]. split; [|done]. intros. apply same_place_refl. Qed.

Lemma written_same p p' i j tx i' :
  written p p' i j tx -> i' <> i -> saved p' i' = saved p i' -> place_queue p' i' = place_queue p i' -> same_place p p' i'.
Proof. intros Hw Hne Hs Hq. split; [done|]. split; [done|]. intros j' Hj'. apply (wr_other _ _ _ _ _ Hw); [done|by left]. Qed.

(** The slot after the last one is written and counted; [q'] are the new queues. *)
Lemma append_step p i tx q' :
  ring_ok p -> place i -> saved p i < M -> tx_memory tx -> checkValidity tx = true ->
  KangarooTwelve (tx_of tx) ∉ KangarooTwelve <$> place_txs p i ->
  queues_ok q' -> (forall i', i' <> i -> queue_of q' i' = place_queue p i') ->
  queues_count q' = queues_count (txsPriorities p) + alen (queue_of q' i) - alen (place_queue p i) ->
  (queue_of q' i = place_queue p i \/ exists pri, queue_of q' i = enqueue (pri, saved p i) (place_queue p i)) ->
  place_step p i
    (count_saved (with_priorities q' (write_slot M p i (saved p i) (KangarooTwelve (tx_of tx)) tx (totalSize tx))) i)
    (mkTick (place_txs p i ++ [tx_of tx]) (queue_of q' i)).
Proof.
  intros Hok Hi Hlt Htx Hv Hdup Hq Ho Hc Hnew. pose proof (ro_places _ Hok i Hi) as Hp. pose proof (po_saved _ _ Hp) as Hs.
  pose proof (write_slot_spec p p i (saved p i) tx Hok Hi ltac:(lia) Htx Hv eq_refl eq_refl eq_refl eq_refl) as Hw.
  set (p1 := write_slot _ _ _ _ _ _ _) in *. set (p' := count_saved _ i).
  assert (written p p' i (saved p i) tx) as Hw' by (destruct Hw; by split).
  pose proof (ro_nums _ Hok) as Hn. unfold place in Hi.
  assert (numSavedTxsPerTick p' = (numSavedTxsPerTick p).[i := saved p i + 1]) as Hnums.
  { unfold p'. simpl. fold (saved p i). rewrite u32_small; [done|]. unfold is_u32. assert (M <= N * M) by nia. lia. }
  assert (saved p' i = saved p i + 1) as Hsv by (unfold saved; rewrite Hnums; by rewrite aget_aset_eq by lia).
  assert (forall i', i' <> i -> same_place p p' i') as Hother.
  { intros i' Hne. apply (written_same p p' i (saved p i) tx); try done; [|by apply Ho].
    unfold saved. rewrite Hnums. by rewrite aget_aset_ne by done. }
  destruct (append_place_ok p p' i (tx_of tx)) as [Hp' Ht]; try done.
  - intros j Hj. destruct (wr_other _ _ _ _ _ Hw' i j) as [E1 E2]; [lia|right; lia|]. unfold slot_tx. by rewrite E1.
  - apply Hw'.
  - apply Hw'.
  - destruct (tx_of_memory tx Htx) as (_ & _ & _ & E). by rewrite E.
  - split; [|split; [|split; [auto|split; apply Hw']]].
    + apply (ring_ok_update p p' i); try done; try apply Hw'; [|auto]. by rewrite Hnums, alen_aset.
    + unfold place_state. by rewrite Ht.
Qed.

(** The slot of the lowest priority is overwritten. *)
Lemma slot_replace_step p i tx lowest j pri q' :
  ring_ok p -> place i -> tx_memory tx -> checkValidity tx = true ->
  KangarooTwelve (tx_of tx) ∉ KangarooTwelve <$> place_txs p i -> last (place_queue p i) = Some (lowest, j) ->
  queues_ok q' -> (forall i', i' <> i -> queue_of q' i' = place_queue p i') -> queues_count q' = queues_count (txsPriorities p) ->
  queue_of q' i = enqueue (pri, j) (delete (pred (length (place_queue p i))) (place_queue p i)) ->
  place_step p i (write_slot M (with_priorities q' p) i j (KangarooTwelve (tx_of tx)) tx (totalSize tx))
    (mkTick (<[Z.to_nat j := tx_of tx]> (place_txs p i)) (queue_of q' i)).
Proof.
  intros Hok Hi Htx Hv Hdup Hlast Hq Ho Hc Hnew. pose proof (ro_places _ Hok i Hi) as Hp. pose proof (po_saved _ _ Hp) as Hs.
  assert (0 <= j < saved p i) as Hj by (apply (po_entry _ _ Hp (lowest, j)); by apply last_Some_elem_of).
  pose proof (write_slot_spec p (with_priorities q' p) i j tx Hok Hi ltac:(lia) Htx Hv eq_refl eq_refl eq_refl eq_refl) as Hw.
  set (p' := write_slot _ _ _ _ _ _ _) in *.
  assert (forall i', i' <> i -> same_place p p' i') as Hother.
  { intros i' Hne. apply (written_same p p' i j tx); try done. by apply Ho. }
  assert (alen (place_queue p' i) = alen (place_queue p i)) as Hlen.
  { change (place_queue p' i) with (queue_of q' i). rewrite Hnew. unfold alen. rewrite enqueue_length, length_delete.
    - apply last_Some_elem_of, elem_of_not_nil in Hlast. destruct (place_queue p i); [done|simpl; lia].
    - rewrite last_lookup in Hlast. by eexists. }
  destruct (replace_place_ok p p' i (tx_of tx) lowest j pri) as [Hp' Ht]; try done.
  - intros j' Hj' Hne. destruct (wr_other _ _ _ _ _ Hw i j') as [E1 E2]; [lia|by right|]. unfold slot_tx. by rewrite E1.
  - apply Hw.
  - apply Hw.
  - destruct (tx_of_memory tx Htx) as (_ & _ & _ & E). by rewrite E.
  - split; [|split; [|split; [auto|split; apply Hw]]].
    + apply (ring_ok_update p p' i); try done; try apply Hw; [apply Hok|auto|]. rewrite Hlen. simpl. lia.
    + unfold place_state. by rewrite Ht.
Qed.

Lemma queue_tail_spec p i : queues_ok (txsPriorities p) ->
  match last (place_queue p i) with
  | Some e => exists x, queue_tail (txsPriorities p) i = x /\ x <> NULL_INDEX /\
      queue_places (txsPriorities p) i !! pred (length (place_queue p i)) = Some x /\
      e = (queue_priority (txsPriorities p) x, queue_element (txsPriorities p) x)
  | None => queue_tail (txsPriorities p) i = NULL_INDEX
  end.
Proof.
  intros Hok. rewrite queue_tail_law by done. unfold place_queue. rewrite (queue_place_law _ i Hok), fmap_last, length_fmap.
  unfold last_index. destruct (last (queue_places _ i)) as [x|] eqn:Hl; simpl; [|done].
  exists x. split; [done|]. split; [|split; [by rewrite <- last_lookup|done]].
  apply (queue_index_law (txsPriorities p) i); [done|]. by apply last_Some_elem_of.
Qed.

(** Appending with and without an entry in the queue *)
Lemma append_offer p i tx pri (build : bool) :
  ring_ok p -> place i -> tx_memory tx -> checkValidity tx = true -> saved p i < M ->
  KangarooTwelve (tx_of tx) ∉ KangarooTwelve <$> place_txs p i ->
  exists q', (if build then exists x, queue_add (txsPriorities p) i (saved p i) pri = Some (q', x) else q' = txsPriorities p) /\
    place_step p i (count_saved (with_priorities q' (write_slot M p i (saved p i) (KangarooTwelve (tx_of tx)) tx (totalSize tx))) i)
      (mkTick (place_txs p i ++ [tx_of tx]) (if build then enqueue (pri, saved p i) (place_queue p i) else place_queue p i)).
Proof.
  intros Hok Hi Htx Hv Hlt Hdup. pose proof (ro_places _ Hok i Hi) as Hp. destruct build.
  - pose proof (place_queue_length p i Hp). destruct (queue_add_law (txsPriorities p) i (saved p i) pri) as (q' & x & Hadd & Hq & Hc & Hnew & Ho);
      [apply Hok|apply (queues_room p i); unfold alen; (done || lia)|].
    exists q'. split; [by exists x|]. change (enqueue (pri, saved p i) (place_queue p i)) with (enqueue (pri, saved p i) (queue_of (txsPriorities p) i)).
    rewrite <- Hnew. apply append_step; try done.
    + rewrite Hc. unfold place_queue. rewrite Hnew. unfold alen. rewrite enqueue_length. lia.
    + right. by exists pri.
  - exists (txsPriorities p). split; [done|]. apply append_step; try done; [apply Hok|unfold place_queue; lia|by left].
Qed.

Lemma replace_offer p i tx pri lowest j x :
  ring_ok p -> place i -> tx_memory tx -> checkValidity tx = true ->
  KangarooTwelve (tx_of tx) ∉ KangarooTwelve <$> place_txs p i -> last (place_queue p i) = Some (lowest, j) ->
  queue_places (txsPriorities p) i !! pred (length (place_queue p i)) = Some x ->
  exists q1 y q' z, queue_remove (txsPriorities p) x = Some (q1, y) /\ queue_add q1 i j pri = Some (q', z) /\
    place_step p i (write_slot M (with_priorities q' p) i j (KangarooTwelve (tx_of tx)) tx (totalSize tx))
      (mkTick (<[Z.to_nat j := tx_of tx]> (place_txs p i)) (enqueue (pri, j) (delete (pred (length (place_queue p i))) (place_queue p i)))).
Proof.
  intros Hok Hi Htx Hv Hdup Hlast Hx. pose proof (ro_places _ Hok i Hi) as Hp.
  destruct (queue_remove_law (txsPriorities p) i _ x (ro_queues _ Hok) Hx) as (q1 & Hrem & Hok1 & Hc1 & Hq1 & Ho1).
  assert (queues_count q1 < queues_capacity) as Hroom.
  { rewrite Hc1, (ro_count _ Hok). eapply Z.lt_le_trans; [|exact NM_fits].
    enough (sumZ (fun i => alen (place_queue p i)) (Z.to_nat N) <= N * M) by lia.
    etrans; [apply (sumZ_le _ (fun _ => M))|rewrite sumZ_const; lia]. intros i' Hi'.
    assert (place i') as Hpl by (unfold place; lia). pose proof (ro_places _ Hok i' Hpl) as Hp'.
    pose proof (place_queue_length p i' Hp'). pose proof (po_saved _ _ Hp'). unfold alen. lia. }
  destruct (queue_add_law q1 i j pri Hok1 Hroom) as (q' & z & Hadd & Hq & Hc & Hnew & Ho).
  exists q1, (default NULL_INDEX (queue_places q1 i !! pred (length (place_queue p i)))), q', z. split; [done|]. split; [done|].
  rewrite Hq1 in Hnew. fold (place_queue p i) in Hnew. rewrite <- Hnew. apply (slot_replace_step p i tx lowest j pri); try done.
  - intros i' Hne. by rewrite Ho, Ho1.
  - lia.
Qed.

Section add.
Context {D : Type} (k : nat) (s : @Spectrum.SpectrumState D) (computors : list Z).

Lemma add_place p tx build pri :
  ring_ok p -> place (tickToIndex N p (tick tx)) -> tx_memory tx -> calculateTxPriority k s computors tx = Some pri ->
  checkValidity tx && tickInStorage N p (tick tx) = true ->
  let i := tickToIndex N p (tick tx) in
  let '(st, r) := offer M KangarooTwelve pri build (tx_of tx) (place_state p i) in
  exists p', add N M KangarooTwelve k s computors p tx build = Some (p', r) /\ place_step p i p' st.
Proof.
  intros Hok Hi Htx Hpri Hin. cbv zeta. set (i := tickToIndex N p (tick tx)) in *. pose proof (ro_places _ Hok i Hi) as Hp.
  pose proof Hin as [Hv _]%andb_true_iff. unfold add. rewrite Hin. fold i. fold (tx_of tx). fold (saved p i).
  rewrite (digest_exists_place p i (KangarooTwelve (tx_of tx)) Hok Hi). unfold offer. cbn [ts_txs ts_queue place_state].
  rewrite <- (saved_length p i Hp).
  assert (place_step p i p (place_state p i)) as Hrefl by (by apply place_step_refl).
  destruct (bool_decide _) eqn:Hdup; [by eexists|]. apply bool_decide_eq_false in Hdup. cbn [orb].
  rewrite Hpri. cbn [mbind option_bind]. destruct build; cbn [andb negb].
  - destruct (Z.leb_spec pri 0) as [Hle|Hgt].
    { rewrite (proj2 (Z.ltb_ge 0 pri)) by lia. by eexists. }
    rewrite (proj2 (Z.ltb_lt 0 pri)) by lia. destruct (Z.ltb_spec (saved p i) M) as [Hlt|Hge].
    + destruct (append_offer p i tx pri true Hok Hi Htx Hv Hlt Hdup) as (q' & (x & Hadd) & Hst). rewrite Hadd. by eexists.
    + pose proof (queue_tail_spec p i (ro_queues _ Hok)) as Ht. destruct (last (place_queue p i)) as [[lowest j]|] eqn:Hlast.
      * destruct Ht as (x & -> & Hx & Hpl & [= Hlow Hj]). rewrite (proj2 (Z.eqb_neq _ _) Hx). cbn [negb]. rewrite <- Hlow, <- Hj.
        destruct (lowest <? pri); [|by eexists].
        destruct (replace_offer p i tx pri lowest j x Hok Hi Htx Hv Hdup Hlast Hpl) as (q1 & y & q' & z & Hrem & Hadd & Hst).
        rewrite Hrem. cbn [mbind option_bind]. rewrite Hadd. by eexists.
      * rewrite Ht. by eexists.
  - destruct (Z.ltb_spec (saved p i) M) as [Hlt|Hge]; [|by eexists].
    destruct (append_offer p i tx pri false Hok Hi Htx Hv Hlt Hdup) as (q' & -> & Hst). by eexists.
Qed.
End add.

(** ** Ticks and places *)
Definition in_window p (t : Z) : Prop := firstStoredTick p <= t < firstStoredTick p + N.
(** The distance of a place from the begin of the ring, and the tick stored there *)
Definition offset p i : Z := (i - buffersBeginIndex p) mod N.
Definition tick_at p i : Z := firstStoredTick p + offset p i.

Record pool_ok p : Prop := {
  pk_ring : ring_ok p;
  pk_begin : place (buffersBeginIndex p);
  pk_first : 0 <= firstStoredTick p /\ firstStoredTick p + N <= 2 ^ 32;
  pk_ticks : forall i x, place i -> x ∈ place_txs p i -> tick x = tick_at p i }.

Lemma tickInStorage_spec p t : tickInStorage N p t = bool_decide (in_window p t).
Proof.
  unfold tickInStorage, in_window. apply eq_true_iff_eq. rewrite bool_decide_eq_true, andb_true_iff, Z.leb_le, Z.ltb_lt. done.
Qed.

Lemma offset_range p i : 0 <= offset p i < N.
Proof. unfold offset. apply Z.mod_pos_bound. lia. Qed.

Lemma index_mod p t : pool_ok p -> in_window p t -> tickToIndex N p t = (t - firstStoredTick p + buffersBeginIndex p) mod N.
Proof.
  intros Hok Ht. unfold in_window in Ht. pose proof (pk_begin _ Hok) as Hb. unfold place in Hb.
  unfold tickToIndex. rewrite u32_small; [done|]. unfold is_u32. lia.
Qed.

Lemma index_spec p t : pool_ok p -> in_window p t -> place (tickToIndex N p t) /\ offset p (tickToIndex N p t) = t - firstStoredTick p.
Proof.
  intros Hok Ht. rewrite index_mod by done. unfold in_window in Ht. split; [apply Z.mod_pos_bound; lia|].
  unfold offset. rewrite Zminus_mod_idemp_l. replace (_ - buffersBeginIndex p) with (t - firstStoredTick p) by lia. apply Z.mod_small. lia.
Qed.

Lemma index_tick_at p t : pool_ok p -> in_window p t -> tick_at p (tickToIndex N p t) = t.
Proof. intros Hok Ht. unfold tick_at. rewrite (proj2 (index_spec p t Hok Ht)). lia. Qed.

Lemma tick_at_window p i : in_window p (tick_at p i).
Proof. pose proof (offset_range p i). unfold in_window, tick_at. lia. Qed.

Lemma tick_at_index p i : pool_ok p -> place i -> tickToIndex N p (tick_at p i) = i.
Proof.
  intros Hok Hi. rewrite index_mod by (done || apply tick_at_window). unfold tick_at, offset.
  replace (_ - firstStoredTick p + _) with ((i - buffersBeginIndex p) mod N + buffersBeginIndex p) by lia.
  rewrite Zplus_mod_idemp_l. replace (i - _ + _) with i by lia. by apply Z.mod_small.
Qed.

(** What the pool holds for a tick *)
Definition view p (t : Z) : tick_state := if decide (in_window p t) then place_state p (tickToIndex N p t) else no_txs.

Lemma same_place_state p p' i : place_ok p i -> same_place p p' i -> place_state p' i = place_state p i.
Proof.
  intros Hp Hs. unfold place_state. rewrite (same_place_txs p p' i) by (apply Hp || done). by destruct Hs as (_ & -> & _).
Qed.

Lemma place_step_pool p t p' st :
  pool_ok p -> in_window p t -> place_step p (tickToIndex N p t) p' st -> (forall x, x ∈ ts_txs st -> tick x = t) ->
  pool_ok p' /\ view p' t = st /\ (forall t', t' <> t -> view p' t' = view p t') /\ firstStoredTick p' = firstStoredTick p.
Proof.
  intros Hok Ht (Hr & Hst & Ho & Hf & Hb) Hticks. destruct (index_spec p t Hok Ht) as [Hi _].
  assert (forall t', tickToIndex N p' t' = tickToIndex N p t') as Hidx by (intros; unfold tickToIndex; by rewrite Hf, Hb).
  assert (forall t', in_window p' t' <-> in_window p t') as Hwin by (intros; unfold in_window; by rewrite Hf).
  assert (forall i, tick_at p' i = tick_at p i) as Hta by (intros; unfold tick_at, offset; by rewrite Hf, Hb).
  split; [|split; [|split; [|done]]].
  - split; [done|rewrite Hb; apply Hok|rewrite Hf; apply Hok|]. intros i x Hpl Hx. rewrite Hta.
    destruct (decide (i = tickToIndex N p t)) as [->|Hne].
    + rewrite index_tick_at by done. apply Hticks. by rewrite <- Hst.
    + apply (pk_ticks _ Hok i x Hpl). rewrite <- (same_place_txs p p' i); [done|apply (ro_places _ (pk_ring _ Hok) i Hpl)|by apply Ho].
  - unfold view. rewrite decide_True by (by apply Hwin). by rewrite Hidx.
  - intros t' Hne. unfold view. rewrite Hidx. destruct (decide (in_window p' t')) as [Hw|Hw].
    + rewrite decide_True by (by apply Hwin). apply Hwin in Hw. destruct (index_spec p t' Hok Hw) as [Hi' _].
      apply same_place_state; [by apply (ro_places _ (pk_ring _ Hok))|]. apply Ho; [done|].
      intros He. apply Hne. rewrite <- (index_tick_at p t'), He by done. by apply index_tick_at.
    + by rewrite decide_False by (by rewrite <- Hwin).
Qed.

(** Moving the window by [d] ticks *)
Lemma shift_pool p p1 d :
  pool_ok p -> 0 <= d <= N -> firstStoredTick p + d + N <= 2 ^ 32 -> ring_ok p1 ->
  (forall i, place i -> if decide (offset p i < d) then saved p1 i = 0 /\ place_queue p1 i = [] else same_place p p1 i) ->
  let p' := with_begin (firstStoredTick p + d) ((buffersBeginIndex p + d) mod N) p1 in
  pool_ok p' /\ forall t, view p' t = if decide (firstStoredTick p + d <= t) then view p t else no_txs.
Proof.
  intros Hok Hd Hlim Hr Hpl p'.
  assert (forall i, place i -> offset p' i = if decide (d <= offset p i) then offset p i - d else offset p i - d + N) as Hoff.
  { intros i Hi. pose proof (offset_range p i) as He. unfold offset at 1. cbn [buffersBeginIndex p' with_begin]. rewrite Zminus_mod_idemp_r.
    replace (i - (buffersBeginIndex p + d)) with ((i - buffersBeginIndex p) - d) by lia. rewrite Zminus_mod. fold (offset p i).
    rewrite Zminus_mod_idemp_r. case_decide; [apply Z.mod_small; lia|]. rewrite <- (Z_mod_plus_full _ 1). rewrite Z.mod_small; lia. }
  assert (forall i, place i -> d <= offset p i -> tick_at p' i = tick_at p i) as Hta.
  { intros i Hi Hge. unfold tick_at. rewrite Hoff, decide_True by done. cbn [firstStoredTick p' with_begin]. lia. }
  assert (forall i, place i -> offset p i < d -> place_state p' i = no_txs) as Hempty.
  { intros i Hi Hlt. specialize (Hpl i Hi). rewrite decide_True in Hpl by done. destruct Hpl as [H0 Hq].
    unfold place_state. change (place_queue p' i) with (place_queue p1 i). rewrite Hq.
    assert (place_txs p' i = []) as ->; [|done]. apply length_zero_iff_nil. rewrite place_txs_length. change (saved p' i) with (saved p1 i). by rewrite H0. }
  assert (forall i, place i -> d <= offset p i -> place_state p' i = place_state p i) as Hkeep.
  { intros i Hi Hge. specialize (Hpl i Hi). rewrite decide_False in Hpl by lia.
    apply same_place_state; [by apply (ro_places _ (pk_ring _ Hok))|exact Hpl]. }
  assert (pool_ok p') as Hok'.
  { split.
    - destruct Hr. split; try done. intros i Hi. apply (same_place_ok p1); [auto|exact (same_place_refl p1 i)].
    - apply Z.mod_pos_bound. lia.
    - destruct (pk_first _ Hok). cbn [firstStoredTick p' with_begin]. lia.
    - intros i x Hi Hx. destruct (decide (d <= offset p i)) as [Hge|Hlt].
      + rewrite Hta by done. apply (pk_ticks _ Hok i x Hi). change (place_txs p' i) with (ts_txs (place_state p' i)) in Hx.
        by rewrite Hkeep in Hx.
      + change (place_txs p' i) with (ts_txs (place_state p' i)) in Hx. rewrite Hempty in Hx by (done || lia). by apply elem_of_nil in Hx. }
  split; [done|]. intros t. unfold view. destruct (decide (in_window p' t)) as [Hw|Hw].
  - destruct (index_spec p' t Hok' Hw) as [Hi Ho]. pose proof (index_tick_at p' t Hok' Hw) as Ht. unfold in_window in Hw.
    cbn [firstStoredTick p' with_begin] in Hw. rewrite decide_True by lia.
    remember (tickToIndex N p' t) as i eqn:Hidx. clear Hidx.
    destruct (decide (d <= offset p i)) as [Hge|Hlt].
    + rewrite Hta in Ht by done. rewrite Hkeep by done. rewrite <- Ht.
      rewrite decide_True by apply tick_at_window. by rewrite tick_at_index by done.
    + rewrite Hempty by (done || lia). rewrite decide_False; [done|]. intros Hw'.
      rewrite Hoff, decide_False in Ho by done. cbn [firstStoredTick p' with_begin] in Ho. unfold in_window in Hw'.
      pose proof (offset_range p i). lia.
  - unfold in_window in *. cbn [firstStoredTick p' with_begin] in Hw. repeat case_decide; try done; lia.
Qed.

Lemma offset_cases p i : pool_ok p -> place i ->
  (buffersBeginIndex p <= i /\ offset p i = i - buffersBeginIndex p) \/ (i < buffersBeginIndex p /\ offset p i = i - buffersBeginIndex p + N).
Proof.
  intros Hok Hi. pose proof (pk_begin _ Hok) as Hb. unfold place, offset in *. destruct (decide (buffersBeginIndex p <= i)); [left|right]; (split; [lia|]).
  - apply Z.mod_small. lia.
  - rewrite <- (Z_mod_plus_full _ 1). rewrite Z.mod_small; lia.
Qed.

Lemma increment_spec p :
  pool_ok p -> firstStoredTick p + 1 + N <= 2 ^ 32 ->
  exists p', incrementFirstStoredTick N M p = Some p' /\ pool_ok p' /\ firstStoredTick p' = firstStoredTick p + 1 /\
    forall t, view p' t = if decide (firstStoredTick p + 1 <= t) then view p t else no_txs.
Proof.
  intros Hok Hlim. pose proof (pk_begin _ Hok) as Hb. pose proof Hb as Hb'. unfold place in Hb. set (b := buffersBeginIndex p) in *.
  destruct (discard_spec p b (b + 1) (pk_ring _ Hok)) as (p1 & Hd & Hr & Hf1 & Hb1 & Hcl); [lia|lia|].
  destruct (shift_pool p p1 1 Hok) as [Hok' Hv]; [lia|lia|done| |].
  { intros i Hi. specialize (Hcl i Hi). destruct (offset_cases p i Hok Hi) as [[H1 H2]|[H1 H2]]; fold b in H1, H2; unfold place in Hi;
      repeat case_decide; done || lia. }
  exists (with_begin (firstStoredTick p + 1) ((b + 1) mod N) p1). split; [|done].
  unfold incrementFirstStoredTick. unfold discard in Hd. replace (Z.to_nat (b + 1 - b)) with 1%nat in Hd by lia. fold b.
  cbn [cleanup_ticks] in Hd. set (p0 := zero_ticks M p b (b + 1)) in *.
  assert (tickToIndex N p0 (firstStoredTick p0) = b) as ->.
  { change (tickToIndex N p0 (firstStoredTick p0)) with (tickToIndex N p (firstStoredTick p)).
    rewrite index_mod by (done || unfold in_window; lia). fold b. rewrite Z.sub_diag. apply Z.mod_small. lia. }
  destruct (cleanupTxsPriorities M (txsPriorities p0) b) as [q|]; [|done]. cbn [mbind option_bind] in Hd |- *. injection Hd as <-.
  change (firstStoredTick p0) with (firstStoredTick p). change (buffersBeginIndex p0) with b. destruct (pk_first _ Hok).
  rewrite !u32_small by (unfold is_u32; lia). done.
Qed.

Lemma init_ring : ring_ok (init N M).
Proof.
  destruct (zero_slot_ok) as [Z1 Z2]. destruct queue_zero_law as (Q1 & Q2 & Q3). unfold init, maxNumTxsTotal.
  assert (0 <= N * M) by nia. split; cbn [tickTransactionsBuffer txsDigestsBuffer numSavedTxsPerTick txsPriorities]; rewrite ?alen_replicate; try lia.
  - intros x Hx. by rewrite aget_replicate by lia.
  - intros i Hi. apply empty_place_ok; [|apply Q3]. unfold saved, place in *. simpl. apply aget_replicate. lia.
  - done.
  - rewrite Q2. symmetry. apply sumZ_zero. intros i _. unfold place_queue. simpl. by rewrite Q3.
Qed.

Lemma empty_pool_ok t : 0 <= t -> t + N <= 2 ^ 32 -> pool_ok (with_begin t 0 (init N M)) /\ forall u, view (with_begin t 0 (init N M)) u = no_txs.
Proof.
  intros Ht Hlim. set (p := with_begin t 0 (init N M)). pose proof init_ring as Hr. destruct queue_zero_law as (_ & _ & Hq).
  assert (forall i, place i -> place_txs p i = []) as Htx.
  { intros i Hi. apply length_zero_iff_nil. rewrite place_txs_length. unfold saved, place in *. simpl. rewrite aget_replicate by lia. done. }
  assert (pool_ok p) as Hok.
  { split; [|unfold place; simpl; lia|simpl; lia|].
    - destruct Hr. split; try done. intros i Hi. apply (same_place_ok (init N M)); [auto|exact (same_place_refl (init N M) i)].
    - intros i x Hi Hx. rewrite Htx in Hx by done. by apply elem_of_nil in Hx. }
  split; [done|]. intros u. unfold view. case_decide as Hw; [|done]. destruct (index_spec p u Hok Hw) as [Hi _].
  unfold place_state. rewrite Htx by done. unfold place_queue. simpl. by rewrite Hq.
Qed.

Lemma cleared_union p p1 p2 a b c d :
  ring_ok p -> cleared p p1 a b -> cleared p1 p2 c d ->
  forall i, place i -> if decide (a <= i < b \/ c <= i < d) then saved p2 i = 0 /\ place_queue p2 i = [] else same_place p p2 i.
Proof.
  intros Hok (_ & _ & H1) (_ & _ & H2) i Hi. specialize (H1 i Hi). specialize (H2 i Hi).
  destruct (decide (c <= i < d)); [rewrite decide_True by (by right); done|]. destruct H2 as (S2 & Q2 & B2).
  destruct (decide (a <= i < b)); [rewrite decide_True by (by left); rewrite S2, Q2; done|]. rewrite decide_False by tauto.
  destruct H1 as (S1 & Q1 & B1). split; [congruence|]. split; [congruence|]. intros j Hj.
  destruct (B1 j Hj) as [E1 E2], (B2 j Hj) as [E3 E4]. by rewrite E3, E4.
Qed.

Lemma beginEpoch_spec p t :
  pool_ok p -> 0 <= t -> t + N <= 2 ^ 32 ->
  exists p', beginEpoch N M p t = Some p' /\ pool_ok p' /\ firstStoredTick p' = t /\
    forall u, view p' u = if decide (in_window p t /\ t <= u) then view p u else no_txs.
Proof.
  intros Hok Ht Hlim. unfold beginEpoch. rewrite tickInStorage_spec. case_bool_decide as Hw.
  2:{ destruct (empty_pool_ok t Ht Hlim) as [Hok' Hv]. exists (with_begin t 0 (init N M)). split; [done|]. split; [done|]. split; [done|].
      intros u. rewrite Hv, decide_False by tauto. done. }
  pose proof (pk_begin _ Hok) as Hb. unfold place in Hb. pose proof Hw as Hw'. unfold in_window in Hw'.
  set (b := buffersBeginIndex p) in *. set (d := t - firstStoredTick p).
  assert (tickToIndex N p t = (b + d) mod N) as Hidx by (rewrite index_mod by done; unfold d; f_equal; lia). rewrite Hidx.
  assert (exists p1, (if (b + d) mod N <? b then p1 ← discard M p 0 ((b + d) mod N); discard M p1 (buffersBeginIndex p1) N
                      else discard M p b ((b + d) mod N)) = Some p1 /\ ring_ok p1 /\
    forall i, place i -> if decide (offset p i < d) then saved p1 i = 0 /\ place_queue p1 i = [] else same_place p p1 i) as (p1 & -> & Hr & Hcl).
  { destruct (wrap_cases N (b + d)) as [[Hlt ->]|[Hge ->]]; [lia|..].
    - rewrite (proj2 (Z.ltb_ge _ _)) by lia. destruct (discard_spec p b (b + d) (pk_ring _ Hok)) as (p1 & Hd & Hr & _ & _ & Hcl); [lia|lia|].
      exists p1. split; [done|]. split; [done|]. intros i Hi. specialize (Hcl i Hi).
      destruct (offset_cases p i Hok Hi) as [[H1 H2]|[H1 H2]]; fold b in H1, H2; unfold place in Hi; repeat case_decide; done || lia.
    - rewrite (proj2 (Z.ltb_lt _ _)) by lia. destruct (discard_spec p 0 (b + d - N) (pk_ring _ Hok)) as (p1 & -> & Hr & Hcl); [lia|lia|].
      cbn [mbind option_bind]. rewrite (proj1 (proj2 Hcl)). fold b.
      destruct (discard_spec p1 b N Hr) as (p2 & -> & Hr2 & Hcl2); [lia|lia|]. exists p2. split; [done|]. split; [done|]. intros i Hi.
      pose proof (cleared_union p p1 p2 _ _ _ _ (pk_ring _ Hok) Hcl Hcl2 i Hi) as Hu.
      destruct (offset_cases p i Hok Hi) as [[H1 H2]|[H1 H2]]; fold b in H1, H2; unfold place in Hi; repeat case_decide; done || lia. }
  cbn [mbind option_bind]. destruct (shift_pool p p1 d Hok) as [Hok' Hv]; [lia|lia|done|done|]. fold b in Hok', Hv.
  replace (firstStoredTick p + d) with t in * by lia. eexists. split; [done|]. split; [done|]. split; [done|].
  intros u. rewrite Hv. repeat case_decide; tauto || done.
Qed.

(** ** Reading *)
Lemma getTx_spec p t n : pool_ok p -> tx_of <$> getTx N M p t (Z.of_nat n) = ts_txs (view p t) !! n.
Proof.
  intros Hok. unfold getTx, view. rewrite tickInStorage_spec. case_bool_decide as Hw; [|by rewrite decide_False].
  rewrite decide_True by done. destruct (index_spec p t Hok Hw) as [Hi _]. pose proof (ro_places _ (pk_ring _ Hok) _ Hi) as Hp.
  pose proof (po_saved _ _ Hp) as Hs. fold (saved p (tickToIndex N p t)). cbn [ts_txs place_state]. destruct (Z.ltb_spec (Z.of_nat n) (saved p (tickToIndex N p t))).
  - rewrite (proj1 (slot_ptr _ (Z.of_nat n) Hi ltac:(lia))). rewrite <- (Nat2Z.id n) at 2. by rewrite place_txs_lookup by lia.
  - rewrite lookup_ge_None_2; [done|]. rewrite place_txs_length. lia.
Qed.

Lemma getDigest_spec p t n : pool_ok p -> getDigest N M p t (Z.of_nat n) = KangarooTwelve <$> ts_txs (view p t) !! n.
Proof.
  intros Hok. unfold getDigest, view. rewrite tickInStorage_spec. case_bool_decide as Hw; [|by rewrite decide_False].
  rewrite decide_True by done. destruct (index_spec p t Hok Hw) as [Hi _]. pose proof (ro_places _ (pk_ring _ Hok) _ Hi) as Hp.
  pose proof (po_saved _ _ Hp) as Hs. fold (saved p (tickToIndex N p t)). cbn [ts_txs place_state]. destruct (Z.ltb_spec (Z.of_nat n) (saved p (tickToIndex N p t))).
  - rewrite (proj2 (slot_ptr _ (Z.of_nat n) Hi ltac:(lia))). rewrite <- (Nat2Z.id n) at 2. rewrite place_txs_lookup by lia. simpl.
    f_equal. apply Hp. lia.
  - rewrite lookup_ge_None_2; [done|]. rewrite place_txs_length. lia.
Qed.

Lemma count_spec p t : pool_ok p -> getNumberOfPendingTickTxs N p t = alen (ts_txs (view p t)).
Proof.
  intros Hok. unfold getNumberOfPendingTickTxs, view. rewrite tickInStorage_spec. case_bool_decide as Hw; [|by rewrite decide_False].
  rewrite decide_True by done. destruct (index_spec p t Hok Hw) as [Hi _]. by apply saved_length, (ro_places _ (pk_ring _ Hok)).
Qed.

Lemma sum_saved_spec p from to res :
  ring_ok p -> 0 <= from <= to -> to <= N -> 0 <= res -> res + (to - from) * M < 2 ^ 32 ->
  sum_saved p from to res = res + sumZ (fun d => saved p (from + d)) (Z.to_nat (to - from)).
Proof.
  intros Hok Hf Ht Hr Hlim. unfold sum_saved. set (n := Z.to_nat (to - from)).
  pose (P i r := r = res + sumZ (fun d => saved p (from + d)) (Z.to_nat (i - from))).
  assert (P (from + Z.of_nat n) (for_loop n from (fun t r => u32 (r + (numSavedTxsPerTick p).[t])) res)) as HP.
  { apply (for_loop_ind P); [unfold P; rewrite Z.sub_diag; simpl; lia|]. intros i r Hi ->. unfold P.
    replace (Z.to_nat (i + 1 - from)) with (S (Z.to_nat (i - from))) by lia. cbn [sumZ]. replace (from + Z.of_nat (Z.to_nat (i - from))) with i by lia.
    fold (saved p i). assert (forall i, from <= i < to -> 0 <= saved p i <= M) as Hs.
    { intros j Hj. apply (ro_places _ Hok). unfold place. lia. }
    pose proof (sumZ_le (fun d => saved p (from + d)) (fun _ => M) (Z.to_nat (i - from))) as Hle. rewrite sumZ_const in Hle.
    pose proof (sumZ_nonneg (fun d => saved p (from + d)) (Z.to_nat (i - from))) as Hge. cbv beta in *.
    assert (sumZ (fun d => saved p (from + d)) (Z.to_nat (i - from)) <= M * Z.of_nat (Z.to_nat (i - from))) by (apply Hle; intros; apply Hs; lia).
    assert (0 <= sumZ (fun d => saved p (from + d)) (Z.to_nat (i - from))) by (apply Hge; intros; apply Hs; lia).
    specialize (Hs i ltac:(lia)). rewrite u32_small; [lia|]. unfold is_u32. nia. }
  unfold P in HP. replace (Z.to_nat (from + Z.of_nat n - from)) with n in HP by lia. exact HP.
Qed.

Lemma total_spec p t : pool_ok p -> 0 <= t -> t + 1 < 2 ^ 32 ->
  getTotalNumberOfPendingTxs N p t =
    if decide (in_window p (t + 1)) then sumZ (fun d => alen (ts_txs (view p (t + 1 + d)))) (Z.to_nat (firstStoredTick p + N - (t + 1))) else 0.
Proof.
  intros Hok Ht Hlim. unfold getTotalNumberOfPendingTxs. rewrite u32_small by (unfold is_u32; lia). rewrite tickInStorage_spec.
  case_bool_decide as Hw; [|by rewrite decide_False]. rewrite decide_True by done. pose proof (pk_ring _ Hok) as Hr.
  pose proof (pk_begin _ Hok) as Hb. unfold place in Hb. set (b := buffersBeginIndex p) in *. set (st := tickToIndex N p (t + 1)).
  assert (forall d, 0 <= d < firstStoredTick p + N - (t + 1) -> alen (ts_txs (view p (t + 1 + d))) = saved p ((st + d) mod N)) as Hview.
  { intros d Hd. unfold in_window in Hw. assert (in_window p (t + 1 + d)) as Hwd by (unfold in_window; lia).
    unfold view. rewrite decide_True by done. destruct (index_spec p (t + 1 + d) Hok Hwd) as [Hi _]. cbn [ts_txs place_state].
    rewrite <- saved_length by (by apply Hr). f_equal. unfold st. rewrite !index_mod by (done || unfold in_window; lia).
    rewrite Zplus_mod_idemp_l. f_equal. lia. }
  rewrite (sumZ_ext _ (fun d => saved p ((st + d) mod N))) by (intros; apply Hview; lia).
  assert (st = (t + 1 - firstStoredTick p + b) mod N) as Hst by (unfold st; by rewrite index_mod). unfold in_window in Hw.
  assert (N * M = M * N) as Hcomm by lia.
  destruct (wrap_cases N (t + 1 - firstStoredTick p + b)) as [[Hlt E]|[Hge E]]; [lia|rewrite E in Hst..].
  - rewrite (proj2 (Z.ltb_ge _ _)) by lia. rewrite (sum_saved_spec p st N 0), (sum_saved_spec p 0 b); try done; try lia; try nia.
    + replace (Z.to_nat (firstStoredTick p + N - (t + 1))) with (Z.to_nat (N - st) + Z.to_nat (b - 0))%nat by lia. rewrite sumZ_split.
      f_equal; [|apply sumZ_ext; intros d Hd; f_equal; rewrite <- (Z_mod_plus_full _ (-1)); rewrite Z.mod_small; lia].
      rewrite Z.add_0_l. apply sumZ_ext. intros d Hd. f_equal. rewrite Z.mod_small; lia.
    + apply Z.add_nonneg_nonneg; [lia|]. apply sumZ_nonneg. intros d Hd. apply Hr. unfold place. lia.
    + assert (sumZ (fun d => saved p (st + d)) (Z.to_nat (N - st)) <= M * (N - st)); [|nia].
      etrans; [apply (sumZ_le _ (fun _ => M))|rewrite sumZ_const; nia]. intros d Hd. apply Hr. unfold place. lia.
  - rewrite (proj2 (Z.ltb_lt _ _)) by lia. rewrite sum_saved_spec by (done || lia || nia). rewrite Z.add_0_l.
    replace (Z.to_nat (firstStoredTick p + N - (t + 1))) with (Z.to_nat (b - st)) by lia. apply sumZ_ext. intros d Hd. f_equal. rewrite Z.mod_small; lia.
Qed.

(** ** The assertions *)
Lemma slot_checks p i j : ring_ok p -> place i -> 0 <= j < saved p i ->
  checkValidity ((tickTransactionsBuffer p).[slot i j]) = true /\ tick ((tickTransactionsBuffer p).[slot i j]) = tick (slot_tx p i j).
Proof.
  intros Hr Hi Hj. pose proof (ro_places _ Hr i Hi) as Hp. pose proof (po_saved _ _ Hp). destruct (ro_slots _ Hr (slot i j)) as [Hl Hb]; [apply slot_range; (done || lia)|].
  destruct (tx_of_header _ Hb) as [Hv Ht]; [rewrite Hl; done|]. split; [|done]. rewrite <- Hv. by apply Hp.
Qed.

Lemma txs_consistent_spec n p t i j :
  pool_ok p -> place i -> tick_at p i = t -> 0 <= j -> j + Z.of_nat n <= saved p i -> txs_consistent M n p t i j = true.
Proof.
  intros Hok Hi Ht. revert j. induction n as [|n IH]; intros j Hj Hn; [done|]. cbn [txs_consistent].
  pose proof (pk_ring _ Hok) as Hr. pose proof (po_saved _ _ (ro_places _ Hr i Hi)) as Hs.
  fold (getTxPtr M i j). rewrite (proj1 (slot_ptr i j Hi ltac:(lia))). destruct (slot_checks p i j Hr Hi ltac:(lia)) as [-> ->].
  rewrite (pk_ticks _ Hok i (slot_tx p i j) Hi), Ht, Z.eqb_refl, IH by (lia || (apply place_txs_elem; exists j; split; [lia|done])). done.
Qed.

Lemma check_spec p : pool_ok p -> checkStateConsistencyWithAssert N M p = true.
Proof.
  intros Hok. pose proof (pk_begin _ Hok) as Hb. unfold place in Hb. unfold checkStateConsistencyWithAssert.
  rewrite (proj2 (Z.leb_le _ _)), (proj2 (Z.ltb_lt _ _)) by lia. cbn [andb].
  assert (forall n t, firstStoredTick p <= t -> t + Z.of_nat n <= firstStoredTick p + N -> ticks_consistent N M n p t = true) as Hall.
  { induction n as [|n IH]; intros t Ht Hn; [done|]. cbn [ticks_consistent]. assert (in_window p t) as Hw by (unfold in_window; lia).
    rewrite tickInStorage_spec, bool_decide_true by done. destruct (index_spec p t Hok Hw) as [Hi _].
    fold (saved p (tickToIndex N p t)). pose proof (po_saved _ _ (ro_places _ (pk_ring _ Hok) _ Hi)) as Hs.
    rewrite (proj2 (Z.leb_le _ _)) by lia. rewrite txs_consistent_spec, IH by (done || lia || by apply index_tick_at). done. }
  apply Hall; lia.
Qed.
End ring.
