(* ===== verification/PendingTxs.v ===== *)
(** * What the pool of pending transactions promises

    The abstract pool has, for every tick of a window, the list of its transactions and the queue of their slots by priority.  Every sequence of
    operations on the ring of slots returns what the abstract pool returns; of the transactions offered for a tick the pool keeps those
    of the highest priority; and the priority of a transaction follows the balance of its source and the time since its last
    transfer. *)
From S2P Require Import Prelude Bytes MathLib OpenAddressing Spectrum SpectrumLedger EntityLedger CollectionQueues PriorityQueues PendingTxsPool PoolRing.

(** ** The abstract pool *)
Record apool := mkAPool { a_first : Z; a_tick : Z -> tick_state }.

Section spec.
Variables NUM_TICKS maxNumTxsPerTick : Z.
Abbreviation N := NUM_TICKS.
Abbreviation M := maxNumTxsPerTick.
Variable KangarooTwelve : list Z -> Z.
Variable k : nat.
Context {D : Type}.

Inductive pool_op :=
  | P_add (s : @SpectrumState D) (computors tx : list Z) (build : bool) | P_increment | P_beginEpoch (t : Z)
  | P_getTx (t : Z) (i : nat) | P_getDigest (t : Z) (i : nat) | P_count (t : Z) | P_total (t : Z) | P_check.
Inductive pool_obs :=
  | R_bool (b : bool) | R_bytes (tx : option (list Z)) | R_digest (d : option Z) | R_num (n : Z) | R_done.

Definition priority_of (s : @SpectrumState D) (computors tx : list Z) : Z := default 0 (calculateTxPriority k s computors tx).
Definition a_window (a : apool) (t : Z) : Prop := a_first a <= t < a_first a + N.

(** The number of stored transactions that are scheduled later than a tick *)
Definition scheduled_later (a : apool) (t : Z) : Z := sumZ (fun d => let u := a_first a + d in if t <? u then alen (ts_txs (a_tick a u)) else 0) (Z.to_nat N).

Definition pool_spec (o : pool_op) (a : apool) : apool * pool_obs :=
  match o with
  | P_add s computors tx build =>
      let t := tick tx in
      if checkValidity tx && bool_decide (a_window a t) then
        let '(st, r) := offer M KangarooTwelve (priority_of s computors tx) build (tx_of tx) (a_tick a t) in
        (mkAPool (a_first a) (fun u => if u =? t then st else a_tick a u), R_bool r)
      else (a, R_bool false)
  | P_increment => (mkAPool (a_first a + 1) (fun u => if a_first a + 1 <=? u then a_tick a u else no_txs), R_done)
  | P_beginEpoch t => (mkAPool t (fun u => if bool_decide (a_window a t /\ t <= u) then a_tick a u else no_txs), R_done)
  | P_getTx t i => (a, R_bytes (ts_txs (a_tick a t) !! i))
  | P_getDigest t i => (a, R_digest (KangarooTwelve <$> ts_txs (a_tick a t) !! i))
  | P_count t => (a, R_num (alen (ts_txs (a_tick a t))))
  | P_total t =>
      (* The documented number is [scheduled_later a t]; for a tick more than one before the window the code gives 0. *)
      (a, R_num (if t + 1 <? a_first a then 0 else scheduled_later a t))
  | P_check => (a, R_bool true)
  end.

Fixpoint pool_spec_run (ops : list pool_op) (a : apool) : apool * list pool_obs :=
  match ops with
  | [] => (a, [])
  | o :: ops => let '(a', r) := pool_spec o a in let '(a'', l) := pool_spec_run ops a' in (a'', r :: l)
  end.

(** The callers pass complete transactions and a consistent spectrum, and ticks stay below 2^32. *)
Definition admissible (o : pool_op) (a : apool) : Prop :=
  match o with
  | P_add s _ tx _ => spectrum_ok k s /\ tx_memory tx
  | P_increment => a_first a + 1 + N <= 2 ^ 32
  | P_beginEpoch t => 0 <= t /\ t + N <= 2 ^ 32
  | P_total t => 0 <= t /\ t + 1 < 2 ^ 32
  | _ => True
  end.
Fixpoint admissible_run (ops : list pool_op) (a : apool) : Prop :=
  match ops with
  | [] => True
  | o :: ops => admissible o a /\ admissible_run ops (pool_spec o a).1
  end.

Context {Q : Type} `{!QueueOps Q}.
Definition pool_exec (o : pool_op) (p : Pool Q) : option (Pool Q * pool_obs) :=
  match o with
  | P_add s computors tx build => '(p', r) ← add N M KangarooTwelve k s computors p tx build; Some (p', R_bool r)
  | P_increment => p' ← incrementFirstStoredTick N M p; Some (p', R_done)
  | P_beginEpoch t => p' ← beginEpoch N M p t; Some (p', R_done)
  | P_getTx t i => Some (p, R_bytes (tx_of <$> getTx N M p t (Z.of_nat i)))
  | P_getDigest t i => Some (p, R_digest (getDigest N M p t (Z.of_nat i)))
  | P_count t => Some (p, R_num (getNumberOfPendingTickTxs N p t))
  | P_total t => Some (p, R_num (getTotalNumberOfPendingTxs N p t))
  | P_check => Some (p, R_bool (checkStateConsistencyWithAssert N M p))
  end.
Fixpoint pool_exec_run (ops : list pool_op) (p : Pool Q) : option (Pool Q * list pool_obs) :=
  match ops with
  | [] => Some (p, [])
  | o :: ops => '(p', r) ← pool_exec o p; '(p'', l) ← pool_exec_run ops p'; Some (p'', r :: l)
  end.
End spec.
Arguments pool_op _ : clear implicits.

(** ** Refinement *)
Section refinement.
Variables NUM_TICKS maxNumTxsPerTick : Z.
Abbreviation N := NUM_TICKS.
Abbreviation M := maxNumTxsPerTick.
Variable KangarooTwelve : list Z -> Z.
Context {Q : Type} `{!QueueOps Q} `{HQ : !Queues Q}.
Hypothesis N_pos : 0 < N.
Hypothesis M_pos : 0 < M.
Hypothesis NM_small : N * M < 2 ^ 32.
Hypothesis NM_fits : N * M <= queues_capacity.
Hypothesis N_half : 2 * N <= 2 ^ 32.
Variable k : nat.
Hypothesis Hk : (2 <= k <= 31)%nat.
Context {D : Type}.
Implicit Types (p : Pool Q) (a : apool) (s : @SpectrumState D) (o : pool_op D) (ops : list (pool_op D)).
Abbreviation pool_ok := (pool_ok N M KangarooTwelve).
Abbreviation view := (view N M).

Lemma priority_total s computors tx : spectrum_ok k s -> calculateTxPriority k s computors tx = Some (priority_of k s computors tx).
Proof.
  intros Hok. unfold priority_of.
  assert (is_Some (spectrumIndex k (sourcePublicKey tx) s)) as [i Hi].
  { destruct (decide (sourcePublicKey tx = 0)) as [E|Hne].
    - unfold spectrumIndex. rewrite E. by eexists.
    - destruct (spectrumIndex_ok k Hk s (sourcePublicKey tx) Hok Hne) as [(i & -> & _)|(-> & _)]; by eexists. }
  unfold calculateTxPriority. rewrite Hi. cbn [mbind option_bind]. repeat destruct (if _ then _ else _) eqn:?; done || (by repeat case_match).
Qed.

Lemma offer_subset pri build bytes st x : x ∈ ts_txs (offer M KangarooTwelve pri build bytes st).1 -> x = bytes \/ x ∈ ts_txs st.
Proof.
  unfold offer. destruct (_ || _); [by right|]. destruct (_ <? M).
  { simpl. intros [?|?%list_elem_of_singleton]%elem_of_app; auto. }
  destruct build; [|by right]. destruct (last _) as [[lowest j]|]; [|by right]. destruct (_ <? _); [|by right]. simpl.
  intros (i & Hi)%list_elem_of_lookup. apply list_lookup_insert_Some in Hi as [(_ & <- & _)|(_ & Hi%list_elem_of_lookup_2)]; auto.
Qed.

Lemma view_ticks p t x : pool_ok p -> x ∈ ts_txs (view p t) -> tick x = t.
Proof.
  intros Hok. unfold PoolRing.view. case_decide as Hw; [|intros Hx; by apply elem_of_nil in Hx].
  destruct (index_spec N M KangarooTwelve N_pos M_pos NM_small NM_fits N_half p t Hok Hw) as [Hi _]. intros Hx.
  rewrite (pk_ticks _ _ _ _ Hok _ x Hi Hx). by apply (index_tick_at N M KangarooTwelve N_pos M_pos NM_small NM_fits N_half).
Qed.

Lemma pool_add_spec p s computors tx build :
  pool_ok p -> spectrum_ok k s -> tx_memory tx ->
  exists p' r, add N M KangarooTwelve k s computors p tx build = Some (p', r) /\ pool_ok p' /\ firstStoredTick p' = firstStoredTick p /\
    if checkValidity tx && bool_decide (in_window N p (tick tx)) then
      (view p' (tick tx), r) = offer M KangarooTwelve (priority_of k s computors tx) build (tx_of tx) (view p (tick tx)) /\
      forall t, t <> tick tx -> view p' t = view p t
    else p' = p /\ r = false.
Proof.
  intros Hok Hs Htx. destruct (checkValidity tx && bool_decide (in_window N p (tick tx))) eqn:Hin.
  2:{ exists p, false. unfold add. by rewrite (tickInStorage_spec N M KangarooTwelve N_pos M_pos NM_small NM_fits N_half), Hin. }
  pose proof Hin as [_ Hw%bool_decide_eq_true]%andb_true_iff. rewrite <- (tickInStorage_spec N M KangarooTwelve N_pos M_pos NM_small NM_fits N_half) in Hin.
  destruct (index_spec N M KangarooTwelve N_pos M_pos NM_small NM_fits N_half p (tick tx) Hok Hw) as [Hi _].
  pose proof (add_place N M KangarooTwelve N_pos M_pos NM_small NM_fits N_half k s computors p tx build _ (pk_ring _ _ _ _ Hok) Hi Htx (priority_total s computors tx Hs) Hin) as Hadd.
  cbv zeta in Hadd. assert (view p (tick tx) = place_state M p (tickToIndex N p (tick tx))) as Hv by (unfold PoolRing.view; by rewrite decide_True).
  rewrite <- Hv in Hadd. pose proof (offer_subset (priority_of k s computors tx) build (tx_of tx) (view p (tick tx))) as Hsub.
  destruct (offer _ _ _ _ _ _) as [st r]. destruct Hadd as (p' & -> & Hstep).
  destruct (place_step_pool N M KangarooTwelve N_pos M_pos NM_small NM_fits N_half p (tick tx) p' st Hok Hw Hstep) as (Hok' & Hst & Ho & Hf).
  { intros x [->|Hx]%Hsub; [by destruct (tx_of_memory tx Htx) as (_ & _ & -> & _)|]. by apply (view_ticks p). }
  exists p', r. split; [done|]. split; [done|]. split; [done|]. by rewrite Hst.
Qed.

(** The abstract pool a pool stands for *)
Definition stands_for p a : Prop := pool_ok p /\ a_first a = firstStoredTick p /\ forall t, view p t = a_tick a t.

Lemma scheduled_later_window a t : 0 <= N -> (if bool_decide (a_window N a (t + 1)) then sumZ (fun d => alen (ts_txs (a_tick a (t + 1 + d)))) (Z.to_nat (a_first a + N - (t + 1))) else 0) =
  if t + 1 <? a_first a then 0 else scheduled_later N a t.
Proof.
  intros HN. unfold a_window, scheduled_later. destruct (Z.ltb_spec (t + 1) (a_first a)); [by rewrite bool_decide_false by lia|]. case_bool_decide as Hw.
  - replace (Z.to_nat N) with (Z.to_nat (t + 1 - a_first a) + Z.to_nat (a_first a + N - (t + 1)))%nat by lia. rewrite sumZ_split, (sumZ_zero _ (Z.to_nat (t + 1 - a_first a))).
    + rewrite Z.add_0_l. apply sumZ_ext. intros d Hd. cbv zeta. replace (a_first a + (Z.of_nat (Z.to_nat (t + 1 - a_first a)) + d)) with (t + 1 + d) by lia. by rewrite (proj2 (Z.ltb_lt t (t + 1 + d))) by lia.
    + intros d Hd. cbv zeta. by rewrite (proj2 (Z.ltb_ge t (a_first a + d))) by lia.
  - symmetry. apply sumZ_zero. intros d Hd. cbv zeta. by rewrite (proj2 (Z.ltb_ge t (a_first a + d))) by lia.
Qed.

Lemma pool_step p a o :
  stands_for p a -> admissible N k o a ->
  exists p' r, pool_exec N M KangarooTwelve k o p = Some (p', r) /\ (pool_spec N M KangarooTwelve k o a).2 = r /\ stands_for p' (pool_spec N M KangarooTwelve k o a).1.
Proof.
  intros (Hok & Hf & Hv) Hadm. assert (forall t, a_window N a t <-> in_window N p t) as Hwin by (intros; unfold a_window, in_window; by rewrite Hf).
  destruct o as [s computors tx build| |t|t i|t i|t|t|]; simpl in Hadm.
  - destruct Hadm as [Hs Htx]. destruct (pool_add_spec p s computors tx build Hok Hs Htx) as (p' & r & Hadd & Hok' & Hf' & Hcase).
    cbn [pool_exec pool_spec]. rewrite Hadd. cbn [mbind option_bind]. rewrite (bool_decide_ext _ _ (Hwin (tick tx))). rewrite <- Hv.
    exists p', (R_bool r). split; [done|]. destruct (checkValidity tx && _).
    + destruct Hcase as [Ho Hother]. destruct (offer _ _ _ _ _ _) as [st r']. injection Ho as Hst ->. split; [done|].
      split; [done|]. split; [simpl; congruence|]. intros u. simpl. destruct (Z.eqb_spec u (tick tx)) as [->|Hne]; [done|]. by rewrite Hother.
    + destruct Hcase as [-> ->]. split; [done|]. by split.
  - destruct (increment_spec N M KangarooTwelve N_pos M_pos NM_small NM_fits N_half p Hok) as (p' & Hi & Hok' & Hf' & Hv'); [lia|].
    simpl. rewrite Hi. exists p', R_done. split; [done|]. split; [done|]. split; [done|]. split; [simpl; lia|]. intros u. simpl. rewrite Hv', Hf, <- Hv.
    destruct (Z.leb_spec (firstStoredTick p + 1) u); case_decide; done || lia.
  - destruct (beginEpoch_spec N M KangarooTwelve N_pos M_pos NM_small NM_fits N_half p t Hok) as (p' & Hi & Hok' & Hf' & Hv'); [tauto|tauto|].
    simpl. rewrite Hi. exists p', R_done. split; [done|]. split; [done|]. split; [done|]. split; [done|]. intros u. simpl. rewrite Hv', <- Hv.
    rewrite (bool_decide_ext (a_window N a t /\ t <= u) (in_window N p t /\ t <= u)) by (by rewrite Hwin). by destruct (decide (in_window N p t /\ t <= u)); rewrite ?bool_decide_true, ?bool_decide_false by done.
  - exists p, (R_bytes (tx_of <$> getTx N M p t (Z.of_nat i))). split; [done|]. split; [|done]. simpl.
    rewrite (getTx_spec N M KangarooTwelve N_pos M_pos NM_small NM_fits N_half) by done. by rewrite Hv.
  - exists p, (R_digest (getDigest N M p t (Z.of_nat i))). split; [done|]. split; [|done]. simpl.
    rewrite (getDigest_spec N M KangarooTwelve N_pos M_pos NM_small NM_fits N_half) by done. by rewrite Hv.
  - exists p, (R_num (getNumberOfPendingTickTxs N p t)). split; [done|]. split; [|done]. simpl.
    rewrite (count_spec N M KangarooTwelve N_pos M_pos NM_small NM_fits N_half) by done. by rewrite Hv.
  - exists p, (R_num (getTotalNumberOfPendingTxs N p t)). split; [done|]. split; [|done]. cbn [pool_spec snd]. rewrite <- scheduled_later_window by lia.
    rewrite (total_spec N M KangarooTwelve N_pos M_pos NM_small NM_fits N_half) by (done || tauto). rewrite (bool_decide_ext _ _ (Hwin (t + 1))), Hf.
    case_bool_decide; case_decide; try done. f_equal. apply sumZ_ext. intros d _. by rewrite Hv.
  - exists p, (R_bool (checkStateConsistencyWithAssert N M p)). split; [done|]. split; [|done]. simpl.
    by rewrite (check_spec N M KangarooTwelve N_pos M_pos NM_small NM_fits N_half) by done.
Qed.

Lemma pool_run ops p a :
  stands_for p a -> admissible_run N M KangarooTwelve k ops a ->
  exists p', pool_exec_run N M KangarooTwelve k ops p = Some (p', (pool_spec_run N M KangarooTwelve k ops a).2) /\
    stands_for p' (pool_spec_run N M KangarooTwelve k ops a).1.
Proof.
  revert p a. induction ops as [|o ops IH]; intros p a Hst Hadm; [by exists p|]. destruct Hadm as [Ho Hadm].
  destruct (pool_step p a o Hst Ho) as (p' & r & He & Hr & Hst'). cbn [pool_exec_run pool_spec_run]. rewrite He. cbn [mbind option_bind].
  destruct (pool_spec N M KangarooTwelve k o a) as [a' r']. simpl in *. subst r'.
  destruct (IH p' a' Hst' Hadm) as (p'' & -> & Hst''). cbn [mbind option_bind]. destruct (pool_spec_run _ _ _ _ ops a') as [a'' l]. by exists p''.
Qed.
End refinement.

(** ** The best transactions are kept *)
Section best.
Variables (M : Z) (K pri : list Z -> Z).
Hypothesis M_pos : 0 < M.
Implicit Types (st : tick_state) (seen : list (list Z)) (x y : list Z).

(** [st] holds the best of the transactions [seen] so far, and its queue holds all of them. *)
Record best seen st : Prop := {
  be_seen : forall x, x ∈ ts_txs st -> x ∈ seen;
  be_nodup : NoDup (ts_txs st);
  be_length : alen (ts_txs st) <= M;
  be_sorted : descending (ts_queue st);
  be_slots : NoDup (snd <$> ts_queue st);
  be_entry : forall e, e ∈ ts_queue st -> 0 <= e.2 /\ exists x, ts_txs st !! Z.to_nat e.2 = Some x /\ e.1 = pri x;
  be_indexed : forall j x, ts_txs st !! j = Some x -> (pri x, Z.of_nat j) ∈ ts_queue st;
  be_best : forall x, x ∈ seen -> x ∈ ts_txs st \/ alen (ts_txs st) = M /\ forall y, y ∈ ts_txs st -> pri x <= pri y }.

Lemma best_empty : best [] no_txs.
Proof. split; simpl; try done; try constructor; try (intros; by apply elem_of_nil in H); try (unfold alen; simpl; lia); intros ? ?%elem_of_nil; done. Qed.

Lemma best_more seen st x :
  best seen st -> x ∈ ts_txs st \/ (alen (ts_txs st) = M /\ forall y, y ∈ ts_txs st -> pri x <= pri y) -> best (x :: seen) st.
Proof.
  intros [] Hx. split; try done; [intros; right; auto|]. intros y [->|Hy]%elem_of_cons; auto.
Qed.

Lemma best_append seen st x :
  best seen st -> x ∉ ts_txs st -> alen (ts_txs st) < M ->
  best (x :: seen) (mkTick (ts_txs st ++ [x]) (enqueue (pri x, alen (ts_txs st)) (ts_queue st))).
Proof.
  intros Hb Hx Hlt. assert (forall e, e ∈ ts_queue st -> 0 <= e.2 < alen (ts_txs st)) as Hr.
  { intros e (H0 & y & Hy%lookup_lt_Some & _)%(be_entry _ _ Hb). unfold alen. lia. }
  split; cbn [ts_txs ts_queue].
  - intros y [Hy|Hy%list_elem_of_singleton]%elem_of_app; [right; by apply Hb|subst; left].
  - apply NoDup_app. split; [apply Hb|]. split; [|apply NoDup_singleton]. intros y Hy Hy'%list_elem_of_singleton. by subst.
  - unfold alen in *. rewrite length_app. simpl. lia.
  - apply enqueue_descending, Hb.
  - rewrite enqueue_perm. simpl. apply NoDup_cons. split; [|apply Hb]. intros (e & He & Hin%Hr)%list_elem_of_fmap. lia.
  - intros e. rewrite enqueue_perm. intros [->|He]%elem_of_cons; simpl.
    + unfold alen. split; [lia|]. exists x. rewrite Nat2Z.id. split; [by apply list_lookup_middle|done].
    + destruct (be_entry _ _ Hb e He) as (H0 & y & Hy & Hp). split; [done|]. exists y. split; [by apply lookup_app_l_Some|done].
  - intros j y [Hy|[Hj [Hj' <-]%list_lookup_singleton_Some]]%lookup_app_Some; rewrite enqueue_perm.
    + right. by apply Hb.
    + replace (Z.of_nat j) with (alen (ts_txs st)) by (unfold alen; lia). left.
  - intros y [->|Hy]%elem_of_cons; [left; set_solver|]. destruct (be_best _ _ Hb y Hy) as [?|[? _]]; [left; set_solver|lia].
Qed.

Lemma best_replace seen st x lowest j :
  best seen st -> x ∉ ts_txs st -> last (ts_queue st) = Some (lowest, j) -> lowest < pri x -> alen (ts_txs st) = M ->
  best (x :: seen) (mkTick (<[Z.to_nat j := x]> (ts_txs st)) (enqueue (pri x, j) (delete (pred (length (ts_queue st))) (ts_queue st)))).
Proof.
  intros Hb Hx Hlast Hlow HM. pose proof (last_delete _ _ Hlast) as Hdel. set (rest := delete _ _) in *.
  assert ((lowest, j) ∈ ts_queue st) as Hin by (by apply last_Some_elem_of).
  destruct (be_entry _ _ Hb _ Hin) as (H0 & z & Hz & Hpz). simpl in H0, Hz, Hpz. pose proof (lookup_lt_Some _ _ _ Hz) as Hlt.
  assert (snd <$> ts_queue st ≡ₚ j :: (snd <$> rest)) as Hperm by (rewrite Hdel, fmap_app; simpl; by rewrite Permutation_app_comm).
  assert (j ∉ snd <$> rest /\ NoDup (snd <$> rest)) as [Hj Hnd] by (apply NoDup_cons; rewrite <- Hperm; apply Hb).
  assert (forall e, e ∈ rest -> e ∈ ts_queue st /\ e.2 <> j) as Hrest.
  { intros e He. split; [rewrite Hdel; set_solver|]. intros <-. apply Hj, list_elem_of_fmap. by exists e. }
  assert (forall y, y ∈ ts_txs st -> lowest <= pri y) as Hmin.
  { intros y (i & Hy%(be_indexed _ _ Hb))%list_elem_of_lookup. exact (descending_last _ _ _ (be_sorted _ _ Hb) Hlast Hy). }
  assert (forall y, y ∈ <[Z.to_nat j := x]> (ts_txs st) -> y = x \/ y ∈ ts_txs st) as Hnew.
  { intros y (i & Hi)%list_elem_of_lookup. apply list_lookup_insert_Some in Hi as [(_ & <- & _)|(_ & Hi%list_elem_of_lookup_2)]; auto. }
  split; cbn [ts_txs ts_queue].
  - intros y [->|Hy]%Hnew; [left|right; by apply Hb].
  - apply NoDup_insert_fresh; [apply Hb|done].
  - unfold alen in *. rewrite length_insert. lia.
  - apply enqueue_descending, delete_descending, Hb.
  - rewrite enqueue_perm. simpl. by apply NoDup_cons.
  - intros e. rewrite enqueue_perm. intros [->|He]%elem_of_cons; simpl.
    + split; [done|]. exists x. by rewrite list_lookup_insert_eq.
    + destruct (Hrest e He) as [He' Hne]. destruct (be_entry _ _ Hb e He') as (He0 & y & Hy & Hp). split; [done|]. exists y.
      by rewrite list_lookup_insert_ne by lia.
  - intros i y Hy. rewrite enqueue_perm. apply list_lookup_insert_Some in Hy as [(<- & <- & _)|(Hne & Hy)].
    + rewrite Z2Nat.id by done. left.
    + right. apply (be_indexed _ _ Hb) in Hy. rewrite Hdel in Hy. apply elem_of_app in Hy as [Hy|Hy%list_elem_of_singleton]; [done|].
      injection Hy as _ Hy. lia.
  - assert (alen (<[Z.to_nat j := x]> (ts_txs st)) = M) as HM' by (unfold alen in *; by rewrite length_insert).
    intros y [->|Hy]%elem_of_cons; [left; by apply list_elem_of_insert|].
    assert (forall b, b <= lowest -> forall y, y ∈ <[Z.to_nat j := x]> (ts_txs st) -> b <= pri y) as Hb'.
    { intros b Hbl y' [->|Hy']%Hnew; [lia|]. specialize (Hmin y' Hy'). lia. }
    destruct (be_best _ _ Hb y Hy) as [(i & Hi)%list_elem_of_lookup|[_ Hall]].
    + destruct (decide (i = Z.to_nat j)) as [->|Hne]; [right; split; [done|]|left].
      * assert (y = z) as -> by congruence. apply Hb'. lia.
      * apply (list_elem_of_lookup_2 _ i). by rewrite list_lookup_insert_ne by done.
    + right. split; [done|]. apply Hb'. rewrite Hpz. apply Hall. by eapply list_elem_of_lookup_2.
Qed.

Lemma best_step seen st x :
  (forall y, y ∈ seen -> K x = K y -> x = y) -> 0 < pri x -> best seen st -> best (x :: seen) (offer M K (pri x) true x st).1.
Proof.
  intros Hinj Hpos Hb. unfold offer. cbn [andb]. rewrite (proj2 (Z.leb_gt _ _)), orb_false_r by done. case_bool_decide as Hdup.
  { apply list_elem_of_fmap in Hdup as (y & He & Hy). apply best_more; [done|]. left. by rewrite (Hinj y (be_seen _ _ Hb y Hy) He). }
  assert (x ∉ ts_txs st) as Hx by (intros Hx; apply Hdup, list_elem_of_fmap; by exists x).
  pose proof (be_length _ _ Hb) as Hl. destruct (Z.ltb_spec (alen (ts_txs st)) M) as [Hlt|Hge]; [by apply best_append|].
  assert (alen (ts_txs st) = M) as HM by lia. destruct (last (ts_queue st)) as [[lowest j]|] eqn:Hlast.
  - destruct (Z.ltb_spec lowest (pri x)); [by apply (best_replace seen st x lowest)|]. apply best_more; [done|]. right. split; [done|].
    intros y (i & Hy%(be_indexed _ _ Hb))%list_elem_of_lookup. pose proof (descending_last _ _ _ (be_sorted _ _ Hb) Hlast Hy). simpl in *. lia.
  - exfalso. apply last_None in Hlast. destruct (ts_txs st) as [|y l] eqn:Ht; [unfold alen in HM; simpl in HM; lia|].
    pose proof (be_indexed _ _ Hb 0%nat y ltac:(by rewrite Ht)) as Hin. rewrite Hlast in Hin. by apply elem_of_nil in Hin.
Qed.
End best.

(** ** Offering a list of transactions *)
Section offers.
Variables (N M : Z) (K : list Z -> Z) (k : nat).
Hypothesis M_pos : 0 < M.
Context {D : Type}.
Variables (s : @SpectrumState D) (computors : list Z) (t : Z).
Abbreviation pri := (priority_of k s computors).
Abbreviation offers := (fmap (fun tx => P_add s computors tx true)).

Definition relevant (tx : list Z) : Prop := checkValidity tx = true /\ tick tx = t /\ 0 < pri tx.

Lemma priority_bytes tx : tx_memory tx -> pri (tx_of tx) = pri tx.
Proof.
  intros Htx. pose proof (copied_header tx [] Htx) as Hh. rewrite app_nil_r in Hh. fold (tx_of tx) in Hh.
  destruct (header_ext _ _ Hh) as (E1 & E2 & E3 & E4 & E5 & _).
  unfold priority_of, calculateTxPriority, isProtocolTx. by rewrite E1, E2, E3, E4, E5.
Qed.

Lemma offer_tick a tx : let a' := (pool_spec N M K k (P_add s computors tx true) a).1 in a_first a' = a_first a /\
  a_tick a' t = if checkValidity tx && bool_decide (a_window N a (tick tx)) && (tick tx =? t)
                then (offer M K (pri tx) true (tx_of tx) (a_tick a t)).1 else a_tick a t.
Proof.
  cbn [pool_spec]. destruct (_ && _); [|done]. cbn [andb]. destruct (Z.eqb_spec (tick tx) t) as [->|Hne].
  - destruct (offer _ _ _ _ _ _) as [st r]. simpl. by rewrite Z.eqb_refl.
  - destruct (offer _ _ _ _ _ _) as [st r]. simpl. by rewrite (proj2 (Z.eqb_neq t _)) by done.
Qed.

Lemma pool_spec_run_cons (o : pool_op D) ops a : (pool_spec_run N M K k (o :: ops) a).1 = (pool_spec_run N M K k ops (pool_spec N M K k o a).1).1.
Proof. cbn [pool_spec_run]. destruct (pool_spec N M K k o a) as [a' r]. simpl. by destruct (pool_spec_run N M K k ops a'). Qed.

Lemma offers_best txs a seen :
  a_window N a t -> Forall tx_memory txs ->
  (forall x y, (x ∈ seen \/ x ∈ tx_of <$> txs) -> (y ∈ seen \/ y ∈ tx_of <$> txs) -> K x = K y -> x = y) ->
  best M pri seen (a_tick a t) ->
  exists seen', best M pri seen' (a_tick (pool_spec_run N M K k (offers txs) a).1 t) /\
    forall x, x ∈ seen' <-> x ∈ seen \/ exists tx, tx ∈ txs /\ relevant tx /\ x = tx_of tx.
Proof.
  intros Hw Hmem. revert a seen Hw. induction Hmem as [|tx txs Htx _ IH]; intros a seen Hw Hinj Hb.
  { exists seen. split; [done|]. intros x. split; [by left|]. intros [?|(tx & Hn & _)]; [done|by apply elem_of_nil in Hn]. }
  rewrite fmap_cons, pool_spec_run_cons. destruct (offer_tick a tx) as [Hf Ht]. set (a' := (pool_spec _ _ _ _ _ a).1) in *.
  assert (a_window N a' t) as Hw' by (unfold a_window in *; by rewrite Hf).
  assert (forall x, x ∈ tx_of <$> txs -> x ∈ tx_of <$> tx :: txs) as Hsub by (intros; rewrite fmap_cons; by right).
  assert (tx_of tx ∈ tx_of <$> tx :: txs) as Hhere by (rewrite fmap_cons; left).
  destruct (decide (checkValidity tx = true /\ tick tx = t)) as [[Hv Htick]|Hirr].
  - rewrite Hv, Htick, Z.eqb_refl, bool_decide_true in Ht by done. cbn [andb] in Ht. destruct (decide (0 < pri tx)) as [Hpos|Hneg].
    + assert (best M pri (tx_of tx :: seen) (a_tick a' t)) as Hb'.
      { rewrite Ht, <- (priority_bytes tx Htx). apply best_step; [done| |by rewrite priority_bytes|done]. intros y Hy. apply Hinj; [by right|by left]. }
      destruct (IH a' (tx_of tx :: seen) Hw') as (seen' & Hb'' & Hs); [|done|].
      { intros x y Hx Hy. apply Hinj; [destruct Hx as [[->|?]%elem_of_cons|?]|destruct Hy as [[->|?]%elem_of_cons|?]]; auto. }
      exists seen'. split; [done|]. intros x. rewrite Hs, elem_of_cons. split.
      * intros [[->|?]|(tx' & ? & ?)]; [right; exists tx|by left|right; exists tx']; (split; [set_solver|done]).
      * intros [?|(tx' & [->|?]%elem_of_cons & ? & ->)]; [left; by right|left; by left|right; by exists tx'].
    + destruct (IH a' seen Hw') as (seen' & Hb'' & Hs).
      * intros x y Hx Hy. apply Hinj; [destruct Hx|destruct Hy]; auto.
      * rewrite Ht. unfold offer. rewrite (proj2 (Z.leb_le _ _)) by lia. by rewrite orb_true_r.
      * exists seen'. split; [done|]. intros x. rewrite Hs. split; intros [?|(tx' & Hin & Hr & ->)]; [by left|right; exists tx'; set_solver|by left|right].
        apply elem_of_cons in Hin as [->|Hin]; [destruct Hr as (_ & _ & ?); lia|by exists tx'].
  - destruct (IH a' seen Hw') as (seen' & Hb'' & Hs).
    + intros x y Hx Hy. apply Hinj; [destruct Hx|destruct Hy]; auto.
    + rewrite Ht. destruct (checkValidity tx); [|done]. destruct (Z.eqb_spec (tick tx) t); [tauto|]. by rewrite andb_false_r.
    + exists seen'. split; [done|]. intros x. rewrite Hs. split; intros [?|(tx' & Hin & Hr & ->)]; [by left|right; exists tx'; set_solver|by left|right].
      apply elem_of_cons in Hin as [->|Hin]; [destruct Hr as (? & ? & _); tauto|by exists tx'].
Qed.
End offers.

(** ** Priorities *)
Lemma computorIndex_from_spec n i (publicKeys : list Z) x :
  0 <= i -> i + Z.of_nat n = alen publicKeys ->
  0 <= computorIndex_from n i publicKeys x <-> x ∈ drop (Z.to_nat i) publicKeys.
Proof.
  revert i. induction n as [|n IH]; intros i Hi Hn; cbn [computorIndex_from].
  - rewrite drop_ge by (unfold alen in Hn; lia). split; [lia|]. intros Hx. by apply elem_of_nil in Hx.
  - destruct (lookup_lt_is_Some_2 publicKeys (Z.to_nat i)) as [y Hy]; [unfold alen in Hn; lia|].
    rewrite (drop_S _ _ _ Hy), elem_of_cons. rewrite aget_nonneg, (list_lookup_total_correct _ _ _ Hy) by lia.
    destruct (Z.eqb_spec y x) as [->|Hne]; [split; [by left|lia]|]. rewrite IH by lia. replace (Z.to_nat (i + 1)) with (S (Z.to_nat i)) by lia.
    split; [by right|]. intros [?|?]; [congruence|done].
Qed.

Lemma computorIndex_spec publicKeys x : (0 <=? computorIndex publicKeys x) = bool_decide (x ∈ publicKeys).
Proof.
  apply eq_true_iff_eq. unfold computorIndex. rewrite Z.leb_le, bool_decide_eq_true, computorIndex_from_spec; [done|lia|unfold alen; lia].
Qed.

(** The age of a transaction: ticks since the last outgoing transfer of its source, or since the last incoming one if there is none *)
Definition latestTransferTick (e : EntityRecord) : Z :=
  if latestOutgoingTransferTick e =? 0 then latestIncomingTransferTick e else latestOutgoingTransferTick e.

Section properties.
Variables NUM_TICKS maxNumTxsPerTick : Z.
Abbreviation N := NUM_TICKS.
Abbreviation M := maxNumTxsPerTick.
Variable KangarooTwelve : list Z -> Z.
Variables (lg : nat) (scratch : bool) (k : nat).
Hypothesis N_pos : 0 < N.
Hypothesis M_pos : 0 < M.
Hypothesis NM_small : N * M < 2 ^ 32.
Hypothesis N_half : 2 * N <= 2 ^ 32.
Hypothesis lg_small : (lg < 64)%nat.
Hypothesis lg_capacity : 2 ^ Z.of_nat lg = txsPrioritiesCapacity N M.
Hypothesis Hk : (2 <= k <= 31)%nat.
Context {D : Type}.
Implicit Types s : @SpectrumState D.
#[local] Instance pool_queue_ops : QueueOps (Collection.Collection Z) := collection_ops lg scratch.
#[local] Instance pool_queues : Queues (Collection.Collection Z) := collection_queues lg lg_small scratch.

Lemma pool_fits : N * M <= queues_capacity.
Proof.
  change queues_capacity with (2 ^ Z.of_nat lg). rewrite lg_capacity. unfold txsPrioritiesCapacity, maxNumTxsTotal.
  rewrite findNextPowerOf2_spec by (unfold is_u64; nia). rewrite decide_True by nia.
  destruct (decide (N * M = 1)) as [->|]; [done|]. apply Z.log2_up_spec. nia.
Qed.

Lemma init_stands_for : stands_for N M KangarooTwelve (init N M) (mkAPool 0 (fun _ => no_txs)).
Proof.
  destruct (empty_pool_ok N M KangarooTwelve N_pos M_pos NM_small pool_fits N_half 0) as [Hok Hv]; [lia|lia|].
  split; [exact Hok|]. split; [done|]. exact Hv.
Qed.

(** C35: Every sequence of operations on the pool after [init] (adding with and without the priority index, moving the window, starting an
    epoch, reading transactions, digests and counts) ends, returns what the abstract pool returns, and finds all assertions of
    checkStateConsistencyWithAssert true.  The count for one tick and the transactions are those of the abstract pool.  The total number of transactions after a tick is the number of stored transactions scheduled later if
    the tick is at most one before the window; for earlier ticks it is 0, although the comment of getTotalNumberOfPendingTxs promises the number of transactions scheduled later.
    (Transactions come complete and with a well-formed spectrum, the window stays below tick 2^32, and totals are asked for ticks below 2^32 - 1.) *)
Theorem pool_refines (ops : list (pool_op D)) :
  admissible_run N M KangarooTwelve k ops (mkAPool 0 (fun _ => no_txs)) ->
  exists p, pool_exec_run N M KangarooTwelve k ops (init N M) = Some (p, (pool_spec_run N M KangarooTwelve k ops (mkAPool 0 (fun _ => no_txs))).2).
Proof.
  intros Hadm. destruct (pool_run N M KangarooTwelve N_pos M_pos NM_small pool_fits N_half k Hk ops _ _ init_stands_for Hadm) as (p & Hrun & _).
  by exists p.
Qed.

(** C36: Of the transactions offered for a tick the pool keeps the best: it holds only valid offered transactions of that tick with a positive
    priority, none twice, and one that is missing has at most the priority of every kept one, of which there are then
    [maxNumTxsPerTick].  The digests of the offered transactions must not collide. *)
Theorem pool_keeps_best s (computors : list Z) (first t : Z) (txs : list (list Z)) :
  0 <= first -> first + N <= 2 ^ 32 -> first <= t < first + N -> spectrum_ok k s -> Forall tx_memory txs ->
  (forall x y, x ∈ tx_of <$> txs -> y ∈ tx_of <$> txs -> KangarooTwelve x = KangarooTwelve y -> x = y) ->
  exists p obs kept,
    pool_exec_run N M KangarooTwelve k (P_beginEpoch first :: ((fun tx => P_add s computors tx true) <$> txs)) (init N M) = Some (p, obs) /\
    (forall i, tx_of <$> getTx N M p t (Z.of_nat i) = kept !! i) /\ NoDup kept /\
    (forall x, x ∈ kept -> exists tx, tx ∈ txs /\ relevant k s computors t tx /\ x = tx_of tx) /\
    (forall tx, tx ∈ txs -> relevant k s computors t tx ->
       tx_of tx ∈ kept \/ alen kept = M /\ forall x, x ∈ kept -> priority_of k s computors tx <= priority_of k s computors x).
Proof.
  intros Hf Hlim Ht Hs Hmem Hinj. set (offers := (fun tx => P_add s computors tx true) <$> txs).
  set (a0 := mkAPool 0 (fun _ => no_txs)). set (a1 := (pool_spec N M KangarooTwelve k (P_beginEpoch first : pool_op D) a0).1).
  assert (a_tick a1 t = no_txs) as Ha1 by (simpl; by case_bool_decide).
  assert (admissible_run N M KangarooTwelve k (P_beginEpoch first :: offers) a0) as Hadm.
  { split; [done|]. fold a1. generalize a1. subst offers. clear -Hmem Hs. induction Hmem as [|tx txs Htx _ IH]; intros a; [done|].
    split; [done|]. apply IH. }
  destruct (pool_run N M KangarooTwelve N_pos M_pos NM_small pool_fits N_half k Hk _ _ _ init_stands_for Hadm) as (p & Hrun & Hok & _ & Hv).
  destruct (offers_best N M KangarooTwelve k M_pos s computors t txs a1 []) as (seen & Hb & Hseen).
  { done. } { done. } { intros x y [Hx|Hx] [Hy|Hy]; try (by apply elem_of_nil in Hx); try (by apply elem_of_nil in Hy). by apply Hinj. }
  { rewrite Ha1. by apply best_empty. }
  rewrite pool_spec_run_cons in Hv. fold a1 in Hv. fold offers in Hb.
  exists p, (pool_spec_run N M KangarooTwelve k (P_beginEpoch first :: offers) a0).2, (ts_txs (view N M p t)). split; [done|].
  split; [intros i; by apply (getTx_spec N M KangarooTwelve N_pos M_pos NM_small pool_fits N_half)|]. rewrite Hv.
  split; [apply Hb|]. split.
  - intros x Hx%(be_seen _ _ _ _ Hb). apply Hseen in Hx as [Hx|Hx]; [by apply elem_of_nil in Hx|done].
  - intros tx Hin Hr. rewrite <- (priority_bytes k s computors tx) by (by eapply Forall_forall in Hmem). apply (be_best _ _ _ _ Hb), Hseen.
    right. by exists tx.
Qed.

(** The priority of a transaction is 0 if its source is unknown or has no balance, INT64_MAX for a protocol transaction of a
    computor, and otherwise the balance times the age of the last transfer, saturating, minus one, so below INT64_MAX. *)
Theorem priority_rule s (computors tx : list Z) :
  spectrum_ok k s -> let x := sourcePublicKey tx in
  ((x = 0 \/ forall i, in_table k i -> publicKey ((spectrum s).[i]) <> x) -> calculateTxPriority k s computors tx = Some 0) /\
  forall i, in_table k i -> x <> 0 -> publicKey ((spectrum s).[i]) = x ->
    let e := (spectrum s).[i] in
    calculateTxPriority k s computors tx =
      Some (if balance e =? 0 then 0
            else if bool_decide (x ∈ computors) && isProtocolTx tx then INT64_MAX
            else Z.min (balance e * u32 (tick tx - latestTransferTick e + 1)) INT64_MAX - 1).
Proof using Hk.
  clear N_pos M_pos NM_small N_half lg_small lg_capacity. intros Hok x. split.
  - intros Hx. unfold calculateTxPriority. fold x. assert (spectrumIndex k x s = Some (-1)) as ->; [|done]. destruct (decide (x = 0)) as [->|Hne]; [done|].
    destruct Hx as [?|Hx]; [done|]. destruct (spectrumIndex_ok k Hk s x Hok Hne) as [(i & _ & Hi & Hp & _)|(-> & _)]; [|done]. by apply Hx in Hp.
  - intros i Hi Hne Hp e. unfold calculateTxPriority. fold x. destruct (spectrumIndex_ok k Hk s x Hok Hne) as [(j & -> & Hj & Hpj & _)|(_ & Ha & _)]; [|by apply Ha in Hp].
    assert (j = i) as ->.
    { eapply (table_key_inj k); [apply Hok|done|done| |congruence]. congruence. }
    cbn [mbind option_bind]. unfold in_table in Hi. rewrite (proj2 (Z.leb_le 0 i)) by lia. unfold energy. fold e.
    pose proof (sp_bal k _ (co_table _ _ _ _ Hok) i Hi) as Hb. fold e in Hb. pose proof (s64_range (incomingAmount e - outgoingAmount e)) as Hr.
    fold (balance e) in Hr. unfold is_s64 in Hr. rewrite computorIndex_spec. destruct (Z.eqb_spec (balance e) 0) as [->|H0]; [done|].
    rewrite (proj2 (Z.ltb_lt 0 (balance e))) by lia. destruct (_ && _); [done|]. f_equal.
    replace (if negb _ then _ else _) with (latestTransferTick e) by (unfold latestTransferTick; by destruct (_ =? 0)).
    pose proof (u32_range (tick tx - latestTransferTick e + 1)) as Hu. unfold is_u32 in Hu.
    rewrite smul_s64_clamp by (unfold is_s64; lia). unfold clamp, INT64_MIN, INT64_MAX.
    set (v := balance e * _). assert (0 <= v) by (unfold v; nia). rewrite s64_small by (unfold is_s64; lia). lia.
Qed.
End properties.

#[local] Instance ex_queue_ops : QueueOps (Collection.Collection Z) := collection_ops 3 true.

(** ** Examples: a window of four ticks with two transactions each *)
Definition ex_tx (source tick inputType : Z) : list Z :=
  le_write 32 (le_write 4 (le_write 2 (replicate 144 0) 76 inputType) 72 tick) 0 source.
(** A digest without collisions on transactions of the same size *)
Definition ex_digest (bytes : list Z) : Z := le_read (length bytes) bytes 0.
(** Entity 2 has 500, entity 1000, a computor, has 40; both received it in tick 9. *)
Definition ex_txs : list (list Z) := [ex_tx 1000 10 5; ex_tx 2 10 5; ex_tx 2 10 6; ex_tx 2 11 6; ex_tx 1000 10 1; ex_tx 2 10 7].

Lemma ex_txs_memory : Forall tx_memory ex_txs.
Proof.
  assert (forallb (fun tx => forallb (fun b => (0 <=? b) && (b <? 2 ^ 8)) tx && (totalSize tx <=? alen tx)) ex_txs = true) as H by (vm_compute; reflexivity).
  rewrite forallb_forall in H. apply Forall_forall. intros tx Htx%list_elem_of_In. apply H, andb_true_iff in Htx as [Hb Hl%Z.leb_le]. split; [|done].
  apply Forall_forall. intros b Hin%list_elem_of_In. rewrite forallb_forall in Hb. apply Hb, andb_true_iff in Hin as [?%Z.leb_le ?%Z.ltb_lt]. done.
Qed.

Lemma ex_digest_inj x y : x ∈ tx_of <$> ex_txs -> y ∈ tx_of <$> ex_txs -> ex_digest x = ex_digest y -> x = y.
Proof.
  assert (forallb (fun x => forallb (fun y => negb (ex_digest x =? ex_digest y) || bool_decide (x = y)) (tx_of <$> ex_txs)) (tx_of <$> ex_txs) = true)
    as H by (vm_compute; reflexivity).
  rewrite forallb_forall in H. intros Hx%list_elem_of_In Hy%list_elem_of_In Hd. apply H in Hx. rewrite forallb_forall in Hx. apply Hx in Hy.
  rewrite Hd, Z.eqb_refl in Hy. by apply bool_decide_eq_true in Hy.
Qed.

Definition ex_pool_ops : list (pool_op Z) :=
  [P_beginEpoch 8] ++ ((fun tx => P_add ex_bank [1000] tx true) <$> ex_txs) ++
  [P_count 10; P_getTx 10 0; P_total 9; P_check; P_increment; P_increment; P_add ex_bank [1000] (ex_tx 2 13 5) false; P_total 9;
   P_beginEpoch 11; P_count 10; P_count 11; P_getDigest 11 0; P_check].

Lemma ex_pool_admissible : admissible_run 4 2 ex_digest 4 ex_pool_ops (mkAPool 0 (fun _ => no_txs)).
Proof.
  pose proof ex_txs_memory as Hm. pose proof ex_bank_ok as Hb. unfold ex_txs in Hm. rewrite !Forall_cons in Hm. destruct Hm as (H1 & H2 & H3 & H4 & H5 & H6 & _).
  assert (tx_memory (ex_tx 2 13 5)) as H7.
  { split; [|vm_compute; discriminate]. apply (Forall_impl (fun b => 0 <= b < 256)); [|done].
    repeat (apply Forall_cons; split; [vm_compute; split; [discriminate|reflexivity]|]). constructor. }
  unfold ex_pool_ops, ex_txs. cbn [fmap list_fmap app].
  repeat (split; [first [exact I|split; [exact Hb|assumption]|vm_compute; repeat split; discriminate]|]). exact I.
Qed.

Lemma pool_refines_witness :
  exists p, pool_exec_run 4 2 ex_digest 4 ex_pool_ops (init 4 2 : Pool (Collection.Collection Z)) =
    Some (p, [R_done; R_bool true; R_bool true; R_bool true; R_bool true; R_bool true; R_bool false;
              R_num 2; R_bytes (Some (ex_tx 1000 10 1)); R_num 3; R_bool true; R_done; R_done; R_bool true; R_num 4;
              R_done; R_num 0; R_num 1; R_digest (Some (ex_digest (ex_tx 2 11 6))); R_bool true]).
Proof.
  destruct (pool_refines 4 2 ex_digest 3 true 4 ltac:(lia) ltac:(lia) ltac:(lia) ltac:(lia) ltac:(lia) ltac:(reflexivity) ltac:(lia) ex_pool_ops ex_pool_admissible) as (p & Hrun).
  exists p. etransitivity; [exact Hrun|]. vm_compute. reflexivity.
Defined.

Lemma pool_keeps_best_witness :
  exists p obs kept,
    pool_exec_run 4 2 ex_digest 4 (P_beginEpoch 8 :: ((fun tx => P_add ex_bank [1000] tx true) <$> ex_txs)) (init 4 2 : Pool (Collection.Collection Z)) = Some (p, obs) /\
    (forall i, tx_of <$> getTx 4 2 p 10 (Z.of_nat i) = kept !! i) /\ (ex_tx 2 10 6 ∈ kept \/ alen kept = 2).
Proof.
  destruct (pool_keeps_best 4 2 ex_digest 3 true 4 ltac:(lia) ltac:(lia) ltac:(lia) ltac:(lia) ltac:(lia) ltac:(reflexivity) ltac:(lia)
    ex_bank [1000] 8 10 ex_txs ltac:(lia) ltac:(lia) ltac:(lia) ex_bank_ok ex_txs_memory) as (p & obs & kept & Hrun & Hget & _ & _ & Hbest).
  - exact ex_digest_inj.
  - exists p, obs, kept. split; [exact Hrun|]. split; [exact Hget|].
    destruct (Hbest (ex_tx 2 10 6)) as [Hin|[Hlen _]].
    + unfold ex_txs. right. right. left.
    + split; [vm_compute; reflexivity|]. split; [vm_compute; reflexivity|vm_compute; reflexivity].
    + left. exact Hin.
    + right. exact Hlen.
Defined.

Lemma priority_rule_witness :
  calculateTxPriority 4 ex_bank [1000] (ex_tx 7 10 5) = Some 0 /\
  calculateTxPriority 4 ex_bank [1000] (ex_tx 2 10 5) = Some (Z.min (500 * (10 - 9 + 1)) INT64_MAX - 1) /\
  calculateTxPriority 4 ex_bank [1000] (ex_tx 1000 10 1) = Some INT64_MAX.
Proof.
  split; [|split].
  - apply (priority_rule 4 ltac:(lia) ex_bank [1000] (ex_tx 7 10 5) ex_bank_ok). right. intros i Hi. unfold in_table in Hi.
    assert (i ∈ seqZ 0 16) as Hin by (apply elem_of_seqZ; lia). clear Hi. revert i Hin. apply Forall_forall.
    repeat (apply Forall_cons; split; [vm_compute; discriminate|]). constructor.
  - exact (proj2 (priority_rule 4 ltac:(lia) ex_bank [1000] (ex_tx 2 10 5) ex_bank_ok) 2 ltac:(vm_compute; split; [discriminate|reflexivity])
             ltac:(vm_compute; discriminate) ltac:(vm_compute; reflexivity)).
  - exact (proj2 (priority_rule 4 ltac:(lia) ex_bank [1000] (ex_tx 1000 10 1) ex_bank_ok) 8 ltac:(vm_compute; split; [discriminate|reflexivity])
             ltac:(vm_compute; discriminate) ltac:(vm_compute; reflexivity)).
Defined.

(** For a tick more than one before the window the total is 0, although all pending transactions are scheduled later. *)
Example total_before_window :
  snd <$> pool_exec_run 4 2 ex_digest 4 [P_beginEpoch 8; P_add ex_bank [1000] (ex_tx 2 10 5) true; P_total 6; P_total 7]
            (init 4 2 : Pool (Collection.Collection Z)) = Some [R_done; R_bool true; R_num 0; R_num 1].
Proof. vm_compute. reflexivity. Qed.
