(* ===== verification/ContractMoney.v ===== *)
(** * Money moved by contracts (src/qpi/impl/qpi_spectrum_impl.h)

    The procedures a contract calls to transfer and burn funds, with the tracker of the
    transfers of one invocation (contract_core/contract_action_tracker.h) and the notification of
    contracts that receive money (contract_core/contract_exec.h, qubic.cpp).  The code of the
    contracts themselves is a parameter: what runs when a contract is notified.  [None] stands
    for an invocation that does not return ([__qpiAbort]). *)
From S2P Require Import Prelude OpenAddressing MathLib Containers FeeReserve Spectrum Assets EntityLedger.

Definition MAX_AMOUNT : Z := 1000000000000 * 1000.
Definition INVALID_AMOUNT : Z := s64 (2 ^ 63).
Definition NoContractError : Z := 0.
Definition ContractErrorIPOFailed : Z := 8.
Definition ContractCallbackManagementRightsTransfer : Z := 1.
Definition ContractCallbackPostIncomingTransfer : Z := 2.

(** The constant tables about the contracts, and the current epoch. *)
Record ContractEnv := mkEnv {
  contractCount : Z;
  epoch : Z;
  constructionEpoch : Z -> Z;
  destructionEpoch : Z -> Z;
  hasPostIncomingTransfer : Z -> bool  (* contractSystemProcedures[i][POST_INCOMING_TRANSFER] *)
}.

(** Messages given to the logger. *)
Inductive MoneyLog :=
  | QuTransfer (source destination amount : Z)
  | Burning (source amount contractIndexBurnedFor : Z)
  | CustomMessage (customMessage : Z).

(** ** ContractActionTracker *)
Inductive ActionType := none | quTransferType.

Record ContractAction := mkAction {
  actionType : ActionType;
  sourcePublicKey : Z;
  destinationPublicKey : Z;
  amount : Z
}.

#[global] Instance action_inhabited : Inhabited ContractAction := populate (mkAction none 0 0 0).

Record ContractActionTracker := mkTracker { actions : list ContractAction; numActions : Z }.

Definition tracker_init (t : ContractActionTracker) : ContractActionTracker := mkTracker (actions t) 0.

Definition addQuTransfer (maxActions source destination a : Z) (t : ContractActionTracker) : ContractActionTracker * bool :=
  if numActions t =? maxActions then (t, false)
  else (mkTracker ((actions t).[numActions t := mkAction quTransferType source destination a]) (numActions t + 1), true).

Definition getOverallQuTransferBalance (publicKey : Z) (t : ContractActionTracker) : Z :=
  for_loop (Z.to_nat (numActions t)) 0
    (fun i total =>
       let qa := (actions t).[i] in
       match actionType qa with
       | quTransferType =>
           let total := if sourcePublicKey qa =? publicKey then s64 (total - amount qa) else total in
           if destinationPublicKey qa =? publicKey then s64 (total + amount qa) else total
       | none => total
       end) 0.

(** ** The node's money *)
Section ContractMoney.
Variable env : ContractEnv.
Variable maxActions : Z.
Context {S : Type} `{!LedgerOps S}.

Record World := mkWorld {
  w_ledger : S;
  w_reserves : FeeReserves;
  contractError : list Z;
  contractActionTracker : ContractActionTracker;
  w_log : list MoneyLog
}.

Definition with_ledger (s : S) (w : World) : World :=
  mkWorld s (w_reserves w) (contractError w) (contractActionTracker w) (w_log w).
Definition with_reserves (r : FeeReserves) (w : World) : World :=
  mkWorld (w_ledger w) r (contractError w) (contractActionTracker w) (w_log w).
Definition with_tracker (t : ContractActionTracker) (w : World) : World :=
  mkWorld (w_ledger w) (w_reserves w) (contractError w) t (w_log w).
Definition log_money (l : MoneyLog) (w : World) : World :=
  mkWorld (w_ledger w) (w_reserves w) (contractError w) (contractActionTracker w) (w_log w ++ [l]).

(** [__qpiCallSystemProc<POST_INCOMING_TRANSFER>] on a contract, and the POST_INCOMING_TRANSFER
    phase of the contract processor: arguments source, contract index, amount, type. *)
Variable callSystemProc : Z -> Z -> Z -> Z -> World -> option World.
Variable contractProcessor : Z -> Z -> Z -> Z -> World -> option World.

Definition isPublicKeyOfContract (publicKey : Z) : bool :=
  (m256i_u64 publicKey 3 =? 0) && (m256i_u64 publicKey 2 =? 0) && (m256i_u64 publicKey 1 =? 0) &&
  (m256i_u64 publicKey 0 <? contractCount env).

(** In an error state, not yet constructed, or past destruction. *)
Definition cannot_run (contractIndex : Z) (w : World) : bool :=
  negb ((contractError w).[contractIndex] =? NoContractError) || (epoch env <? constructionEpoch env contractIndex) ||
  (destructionEpoch env contractIndex <=? epoch env).

Definition qpiNotifyPostIncomingTransfer (source dest a type : Z) (w : World) : option World :=
  if negb (isPublicKeyOfContract dest) || (a <=? 0) then Some w
  else
    let destContractIndex := u32 (m256i_u64 dest 0) in
    if negb (hasPostIncomingTransfer env destContractIndex) then Some w
    else if cannot_run destContractIndex w then Some w
    else callSystemProc source destContractIndex a type w.

Definition notifyContractOfIncomingTransfer (source dest a type : Z) (w : World) : option World :=
  if (a <=? 0) || negb (isPublicKeyOfContract dest) then Some w
  else if negb (hasPostIncomingTransfer env (m256i_u64 dest 0)) then Some w
  else contractProcessor source (m256i_u64 dest 0) a type w.

(** ** The calls of a contract [self] (its index) with entity [id]; the result is the return value. *)
Definition queryFeeReserve (self contractIndex : Z) (w : World) : Z :=
  let contractIndex := if (contractIndex <? 1) || (contractCount env <=? contractIndex) then self else contractIndex in
  getContractFeeReserve contractIndex (w_reserves w).

Definition burn (self id a contractIndexBurnedFor : Z) (w : World) : option (World * Z) :=
  if (a <? 0) || (MAX_AMOUNT <? a) then Some (w, - (MAX_AMOUNT + 1))
  else
    match entity_index id (w_ledger w) with
    | None => None
    | Some index =>
        if index <? 0 then Some (w, - a)
        else
          let contractIndexBurnedFor :=
            if (contractIndexBurnedFor <? 1) || (contractCount env <=? contractIndexBurnedFor) then self else contractIndexBurnedFor in
          if (contractError w).[contractIndexBurnedFor] =? ContractErrorIPOFailed then Some (w, - a)
          else
            let remainingAmount := s64 (entity_energy index (w_ledger w) - a) in
            if remainingAmount <? 0 then Some (w, remainingAmount)
            else
              let '(s, ok) := debit_entity index a (w_ledger w) in
              let w := with_ledger s w in
              let w :=
                if ok then
                  log_money (Burning id a contractIndexBurnedFor)
                    (with_reserves (addToContractFeeReserve contractIndexBurnedFor (u64 a) (w_reserves w)) w)
                else w in
              Some (w, remainingAmount)
    end.

(** [__transfer] past its checks of destination and amount. *)
Definition transfer_funds (id destination a transferType : Z) (w : World) : option (World * Z) :=
  match entity_index id (w_ledger w) with
  | None => None
  | Some index =>
      if index <? 0 then Some (w, - a)
      else
        let remainingAmount := s64 (entity_energy index (w_ledger w) - a) in
        if remainingAmount <? 0 then Some (w, remainingAmount)
        else
          let '(s, ok) := debit_entity index a (w_ledger w) in
          if ok then
            match credit_entity destination a s with
            | None => None
            | Some s =>
                let '(t, added) := addQuTransfer maxActions id destination a (contractActionTracker w) in
                if added then
                  match qpiNotifyPostIncomingTransfer id destination a transferType (with_tracker t (with_ledger s w)) with
                  | None => None
                  | Some w => Some (log_money (QuTransfer id destination a) w, remainingAmount)
                  end
                else None
            end
          else Some (with_ledger s w, remainingAmount)
  end.

Definition qpi_transfer (contractCallbacksRunning id destination a transferType : Z) (w : World) : option (World * Z) :=
  if negb (Z.land contractCallbacksRunning ContractCallbackPostIncomingTransfer =? 0) && isPublicKeyOfContract destination
  then Some (w, INVALID_AMOUNT)
  else if isPublicKeyOfContract destination && cannot_run (u32 (m256i_u64 destination 0)) w then Some (w, INVALID_AMOUNT)
  else if (a <? 0) || (MAX_AMOUNT <? a) then Some (w, - (MAX_AMOUNT + 1))
  else transfer_funds id destination a transferType w.

(** ** The tracker *)
Record tracker_ok (t : ContractActionTracker) : Prop := {
  tr_size : alen (actions t) = maxActions;
  tr_num : 0 <= numActions t <= maxActions
}.

Lemma overall_s64 y t : is_s64 (getOverallQuTransferBalance y t).
Proof.
  unfold getOverallQuTransferBalance. apply (for_loop_ind (fun _ v => is_s64 v)); [unfold is_s64; lia|].
  intros i v _ Hv. destruct (actionType _); [done|]. repeat destruct (_ =? _); (done || apply s64_range).
Qed.

Lemma addQuTransfer_ok source destination a t :
  tracker_ok t -> numActions t < maxActions ->
  exists t', addQuTransfer maxActions source destination a t = (t', true) /\ tracker_ok t' /\
    numActions t' = numActions t + 1 /\
    forall y, getOverallQuTransferBalance y t' =
      s64 (getOverallQuTransferBalance y t - (if decide (source = y) then a else 0) + (if decide (destination = y) then a else 0)).
Proof.
  intros [Hs Hn] Hlt. unfold addQuTransfer. rewrite (proj2 (Z.eqb_neq _ _)) by lia. eexists. split; [done|].
  split_and!; [split; cbn; rewrite ?alen_aset; (done || lia)|done|]. intros y.
  unfold getOverallQuTransferBalance at 1. cbn [numActions actions].
  replace (Z.to_nat (numActions t + 1)) with (Datatypes.S (Z.to_nat (numActions t))) by lia. rewrite for_loop_snoc.
  rewrite Z2Nat.id, Z.add_0_l, aget_aset_eq by lia. cbn [actionType sourcePublicKey destinationPublicKey amount].
  match goal with |- context [for_loop ?n 0 ?b 0] => assert (for_loop n 0 b 0 = getOverallQuTransferBalance y t) as -> end.
  { apply for_loop_ext. intros j v Hj. by rewrite aget_aset_ne by lia. }
  pose proof (overall_s64 y t) as Hr. destruct (Z.eqb_spec source y), (Z.eqb_spec destination y);
    destruct (decide (source = y)), (decide (destination = y)); try congruence.
  - rewrite s64_add_l. f_equal; lia.
  - f_equal; lia.
  - f_equal; lia.
  - rewrite s64_small; [lia|]. unfold is_s64 in *. lia.
Qed.

(** ** The effect of the calls *)
Context `{!Ledger S}.

Record world_ok (w : World) : Prop := {
  wo_ledger : ledger_ok (w_ledger w);
  wo_tracker : tracker_ok (contractActionTracker w)
}.

(** A transfer to this destination is not accepted now. *)
Definition refuses (callbacks destination : Z) (w : World) : bool :=
  isPublicKeyOfContract destination &&
  (negb (Z.land callbacks ContractCallbackPostIncomingTransfer =? 0) || cannot_run (u32 (m256i_u64 destination 0)) w).

Lemma null_refused callbacks w :
  0 < contractCount env -> destructionEpoch env 0 <= epoch env -> refuses callbacks 0 w = true.
Proof.
  intros Hc Hd. unfold refuses, isPublicKeyOfContract, cannot_run. change (m256i_u64 0 _) with 0 at 1 2 3.
  change (m256i_u64 0 0) with 0. change (u32 0) with 0.
  rewrite (proj2 (Z.ltb_lt 0 _) Hc), (proj2 (Z.leb_le _ _) Hd). rewrite !orb_true_r. done.
Qed.

Lemma remaining_small w id : ledger_ok (w_ledger w) -> id <> 0 ->
  forall a, 0 <= a <= MAX_AMOUNT -> s64 (balance_of (w_ledger w) id - a) = balance_of (w_ledger w) id - a.
Proof.
  intros Hok Hid a Ha. pose proof (balance_range _ id Hok Hid). pose proof (total_below _ Hok). unfold MAX_AMOUNT in *.
  apply s64_small. unfold is_s64. lia.
Qed.

(** Exactly the money moves from [id] to [destination]: the total stays, the tracker records the change of
    every balance, and nothing else of the node's money changes. *)
Record moved (id destination a : Z) (w w' : World) : Prop := {
  mv_ok : world_ok w';
  mv_balance : forall y, y <> 0 -> balance_of (w_ledger w') y =
    balance_of (w_ledger w) y - (if decide (y = id) then a else 0) + (if decide (y = destination) then a else 0);
  mv_total : total_of (w_ledger w') = total_of (w_ledger w);
  mv_track : forall y, y <> 0 -> getOverallQuTransferBalance y (contractActionTracker w') =
    s64 (getOverallQuTransferBalance y (contractActionTracker w) + (balance_of (w_ledger w') y - balance_of (w_ledger w) y));
  mv_rest : w_reserves w' = w_reserves w /\ contractError w' = contractError w /\ w_log w' = w_log w
}.

Lemma transfer_funds_ok id destination a type w :
  world_ok w -> 0 < free_entities (w_ledger w) -> destination <> 0 -> 0 <= a <= MAX_AMOUNT ->
  let r := transfer_funds id destination a type w in
  let balance := if decide (id = 0) then 0 else balance_of (w_ledger w) id in
  if decide (balance < a \/ entity_index id (w_ledger w) = Some (-1)) then r = Some (w, balance - a)
  else if decide (numActions (contractActionTracker w) < maxActions) then
    exists w1, moved id destination a w w1 /\
      r = match qpiNotifyPostIncomingTransfer id destination a type w1 with
          | None => None
          | Some w2 => Some (log_money (QuTransfer id destination a) w2, balance - a)
          end
  else r = None.
Proof.
  intros [Hok Htr] Hfree Hnz Ha r balance. unfold r, transfer_funds. clear r.
  destruct (index_law (w_ledger w) id Hok) as (i & Hi & Hcase). rewrite Hi. destruct (Z.ltb_spec i 0) as [Hneg|Hpos].
  { rewrite decide_False in Hcase by lia. destruct Hcase as [-> Hz].
    rewrite decide_True by auto. do 2 f_equal. unfold balance. case_decide; [done|]. rewrite Hz; done. }
  rewrite decide_True in Hcase by done. destruct Hcase as [Hid He]. unfold balance. clear balance. rewrite (decide_False (P := id = 0)) by done.
  rewrite He, (remaining_small w id Hok Hid a Ha). pose proof (balance_range _ id Hok Hid) as Hbr.
  destruct (Z.ltb_spec (balance_of (w_ledger w) id - a) 0) as [Hlt|Hge]; [by rewrite decide_True by lia|].
  rewrite decide_False. 2: { intros [?|Heq]; [lia|]. injection Heq. lia. }
  pose proof (debit_law _ id i a Hok Hi Hpos) as Hd. destruct (debit_entity i a (w_ledger w)) as [s1 ok].
  destruct Hd as (Hok1 & -> & Hd). rewrite bool_decide_true in * by lia. destruct Hd as (Ht1 & Hf1 & Hb1).
  pose proof (total_below _ Hok). destruct (credit_law s1 destination a Hok1 Hnz ltac:(lia) ltac:(lia) ltac:(lia))
    as (s2 & -> & Hok2 & Ht2 & Hf2 & Hb2).
  destruct (decide (numActions (contractActionTracker w) < maxActions)) as [Hroom|Hfull].
  - destruct (addQuTransfer_ok id destination a _ Htr Hroom) as (t & -> & Htr2 & _ & Hbal). eexists. split; [|done].
    split; cbn [w_ledger contractActionTracker with_tracker with_ledger]; [by split| |lia| |done].
    + intros y Hy. rewrite Hb2, Hb1 by done. lia.
    + intros y Hy. rewrite Hbal, Hb2, Hb1 by done. f_equal. destruct (decide (y = id)), (decide (id = y)); try congruence;
        destruct (decide (y = destination)), (decide (destination = y)); try congruence; lia.
  - unfold addQuTransfer. destruct Htr as [_ Hn]. by rewrite (proj2 (Z.eqb_eq _ _)) by lia.
Qed.

(** C18: a transfer by a contract.  A destination that is a contract which cannot take money now
    (the null id included) gives INVALID_AMOUNT, an amount out of range its own error value, and an
    amount above the balance the negative difference; each of these leaves everything as it
    was.  Otherwise, as long as the tracker has room, the amount moves from the contract's
    entity to the destination, the tracker's balance of every entity changes by what its
    balance changes, the destination is notified after the money has moved, and the new
    balance is returned; with a full tracker the call does not return. *)
Theorem transfer_effect callbacks id destination a type w :
  world_ok w -> 0 < contractCount env -> destructionEpoch env 0 <= epoch env -> 0 < free_entities (w_ledger w) ->
  let r := qpi_transfer callbacks id destination a type w in
  let balance := if decide (id = 0) then 0 else balance_of (w_ledger w) id in
  if refuses callbacks destination w then r = Some (w, INVALID_AMOUNT)
  else if decide (0 <= a <= MAX_AMOUNT) then
    if decide (balance < a \/ entity_index id (w_ledger w) = Some (-1)) then r = Some (w, balance - a)
    else if decide (numActions (contractActionTracker w) < maxActions) then
      exists w1, moved id destination a w w1 /\
        r = match qpiNotifyPostIncomingTransfer id destination a type w1 with
            | None => None
            | Some w2 => Some (log_money (QuTransfer id destination a) w2, balance - a)
            end
    else r = None
  else r = Some (w, - (MAX_AMOUNT + 1)).
Proof.
  intros Hok Hcc Hd0 Hfree r balance. unfold r, qpi_transfer. clear r.
  assert (refuses callbacks destination w = false -> destination <> 0) as Hnz.
  { intros Hr ->. rewrite null_refused in Hr by done. done. }
  destruct (refuses callbacks destination w) eqn:Href; unfold refuses in Href.
  - apply andb_true_iff in Href as [-> Hor]. cbn [andb]. rewrite andb_true_r. destruct (negb _); [done|]. cbn [orb] in Hor. by rewrite Hor.
  - assert (forall T (x y z : T), (if negb (Z.land callbacks ContractCallbackPostIncomingTransfer =? 0) && isPublicKeyOfContract destination
      then x else if isPublicKeyOfContract destination && cannot_run (u32 (m256i_u64 destination 0)) w then y else z) = z) as ->.
    { intros. destruct (isPublicKeyOfContract destination); [|by rewrite andb_false_r]. cbn [andb] in *. rewrite andb_true_r.
      apply orb_false_iff in Href as [-> ->]. done. }
    case_decide as Ha.
    + replace ((a <? 0) || (MAX_AMOUNT <? a)) with false by lia. by apply transfer_funds_ok; auto.
    + by replace ((a <? 0) || (MAX_AMOUNT <? a)) with true by lia.
Qed.

(** Burning.  The amount leaves the balance of the contract and the total supply and is
    added (saturating) to the fee reserve of the contract it is burned for: the one named, or
    the caller if the index is 0 or out of range.  Out-of-range amounts, a missing entity, a
    beneficiary whose IPO failed and insufficient funds give the error value of each case and
    change nothing. *)
Theorem burn_effect self id a c w :
  world_ok w -> 0 <= self < contractCount env -> contractCount env <= alen (contractFeeReserves (w_reserves w)) ->
  let c' := if decide (1 <= c < contractCount env) then c else self in
  let s := w_ledger w in
  is_s64 (getContractFeeReserve c' (w_reserves w)) ->
  let r := burn self id a c w in
  if decide (0 <= a <= MAX_AMOUNT) then
    if decide (entity_index id s = Some (-1) \/ (contractError w).[c'] = ContractErrorIPOFailed) then r = Some (w, - a)
    else if decide (balance_of s id < a) then r = Some (w, balance_of s id - a)
    else exists w', r = Some (w', balance_of s id - a) /\ world_ok w' /\
      (forall y, y <> 0 -> balance_of (w_ledger w') y = balance_of s y - (if decide (y = id) then a else 0)) /\
      total_of (w_ledger w') = total_of s - a /\
      getContractFeeReserve c' (w_reserves w') = Z.min INT64_MAX (getContractFeeReserve c' (w_reserves w) + a) /\
      (forall d, d <> c' -> getContractFeeReserve d (w_reserves w') = getContractFeeReserve d (w_reserves w)) /\
      contractError w' = contractError w /\ contractActionTracker w' = contractActionTracker w /\
      w_log w' = w_log w ++ [Burning id a c']
  else r = Some (w, - (MAX_AMOUNT + 1)).
Proof.
  intros [Hok Htr] Hself Hlen c' s Hres r. unfold r, burn. clear r. fold s.
  destruct (decide (0 <= a <= MAX_AMOUNT)) as [Ha|Ha].
  2: by replace ((a <? 0) || (MAX_AMOUNT <? a)) with true by lia.
  replace ((a <? 0) || (MAX_AMOUNT <? a)) with false by lia.
  assert ((if (c <? 1) || (contractCount env <=? c) then self else c) = c') as ->.
  { unfold c'. destruct (Z.ltb_spec c 1), (Z.leb_spec (contractCount env) c); cbn; case_decide; lia. }
  assert (0 <= c' < contractCount env) as Hc by (unfold c'; case_decide; lia).
  destruct (index_law s id Hok) as (i & Hi & Hcase). rewrite Hi. destruct (Z.ltb_spec i 0) as [Hneg|Hpos].
  { rewrite decide_False in Hcase by lia. destruct Hcase as [-> _]. by rewrite decide_True by auto. }
  rewrite decide_True in Hcase by done. destruct Hcase as [Hid He].
  destruct (Z.eqb_spec ((contractError w).[c']) ContractErrorIPOFailed) as [Hf|Hf]; [by rewrite decide_True by auto|].
  rewrite decide_False by (intros [Heq|]; [injection Heq; lia|done]).
  pose proof (remaining_small w id Hok Hid a Ha) as Hrem. fold s in Hrem. rewrite He, Hrem.
  pose proof (balance_range _ id Hok Hid) as Hbr.
  destruct (Z.ltb_spec (balance_of s id - a) 0) as [Hlt|Hge]; [by rewrite decide_True by lia|].
  rewrite decide_False by lia. pose proof (debit_law _ id i a Hok Hi Hpos) as Hd. fold s in Hd.
  destruct (debit_entity i a s) as [s1 ok]. destruct Hd as (Hok1 & -> & Hd). rewrite bool_decide_true in * by lia.
  destruct Hd as (Ht1 & Hf1 & Hb1). eexists. split; [done|].
  cbn [w_ledger w_reserves contractError contractActionTracker w_log log_money with_reserves with_ledger].
  assert (is_u64 a) as Hu by (unfold is_u64, MAX_AMOUNT in *; lia). split_and!; try done.
  - rewrite addToContractFeeReserve_value, u64_small by (rewrite ?u64_small by done; done || lia).
    f_equal. unfold INT64_MAX, MAX_AMOUNT in *. lia.
  - intros d Hd. apply reserve_other_add. congruence.
Qed.
End ContractMoney.

(** ** A concrete run: contract 2 with 500 qu, a user with 40, on a spectrum of 16 slots *)
Definition ex_env : ContractEnv := mkEnv 4 100 (fun i => 10 * i) (fun i => if i =? 0 then 0 else 1000) (fun i => i =? 3).
Definition ex_world : @World (@SpectrumState Z) :=
  mkWorld ex_bank (mkReserves [0; 7; 8; 9] [0]) [0; 0; 0; 0] (mkTracker (replicate 2 inhabitant) 0) [].
(** A contract that does nothing when it is notified. *)
Definition ex_call (source contractIndex a type : Z) (w : @World (@SpectrumState Z)) : option (@World (@SpectrumState Z)) := Some w.

Section Run.
#[local] Instance run_ops : LedgerOps (@SpectrumState Z) := bank_ops.
#[local] Instance run_ledger : Ledger (@SpectrumState Z) := bank_ledger.

Lemma ex_world_ok : world_ok 2 ex_world.
Proof. split; [exact ex_bank_ok|]. split; [reflexivity|cbn; lia]. Qed.

Lemma transfer_effect_witness :
  exists w', moved 2 2 1000 300 ex_world w' /\
    qpi_transfer ex_env 2 ex_call 0 2 1000 300 2 ex_world = Some (log_money (QuTransfer 2 1000 300) w', 200).
Proof.
  pose proof (transfer_effect ex_env 2 ex_call 0 2 1000 300 2 ex_world ex_world_ok ltac:(reflexivity) ltac:(vm_compute; discriminate) ltac:(reflexivity)) as H.
  assert (refuses ex_env 0 1000 ex_world = false) as Hr by (vm_compute; reflexivity). cbv zeta in H. rewrite Hr in H. clear Hr.
  rewrite decide_True in H by (split; vm_compute; discriminate).
  rewrite decide_False in H by (vm_compute; intros [?|?]; discriminate).
  rewrite decide_True in H by reflexivity. destruct H as (w1 & H1 & H2). exists w1. split; [exact H1|]. rewrite H2. reflexivity.
Defined.

Lemma burn_effect_witness :
  exists w', burn ex_env 2 2 300 0 ex_world = Some (w', 200) /\ getContractFeeReserve 2 (w_reserves w') = 308.
Proof.
  pose proof (burn_effect ex_env 2 2 2 300 0 ex_world ex_world_ok ltac:(split; vm_compute; (done || discriminate)) ltac:(vm_compute; discriminate)) as H.
  cbv zeta in H. rewrite (decide_False (P := 1 <= 0 < contractCount ex_env)) in H by (cbn; lia). specialize (H ltac:(split; vm_compute; (done || discriminate))).
  rewrite decide_True in H by (split; vm_compute; discriminate).
  rewrite decide_False in H by (vm_compute; intros [?|?]; discriminate).
  rewrite decide_False in H by (vm_compute; discriminate). destruct H as (w' & H1 & _ & _ & _ & H2 & _).
  exists w'. split; [exact H1|]. rewrite H2. reflexivity.
Defined.
End Run.
