(* ===== verification/QpiAssets.v ===== *)
(** * The asset calls of contracts (qpi/impl/qpi_assets_impl.h)

    Issuing, transferring, acquiring and releasing shares, and the distribution of dividends.  The contracts that are called back are parameters; [None] stands for an
    invocation that does not return.  While dividends are distributed the universe is locked, so it is read only there. *)
From S2P Require Import Prelude OpenAddressing MathLib Containers FeeReserve Spectrum Assets EntityLedger ContractMoney AssetIterators.

Definition NUMBER_OF_COMPUTORS : Z := 676.
Definition CUSTOM_MESSAGE_OP_START_DISTRIBUTE_DIVIDENDS : Z := 6217575821008262227.
Definition CUSTOM_MESSAGE_OP_END_DISTRIBUTE_DIVIDENDS : Z := 6217575821008457285.
Definition qpiTransfer : Z := 2.
Definition qpiDistributeDividends : Z := 3.

(** ** Names of assets: [(unsigned char)(name >> (i * 8))] *)
Definition name_byte (name i : Z) : Z := Z.land (Z.shiftr name (i * 8)) 255.
Definition is_upper (c : Z) : bool := (65 <=? c) && (c <=? 90).
Definition is_digit (c : Z) : bool := (48 <=? c) && (c <=? 57).
(** The first loop: behind a zero byte there are only zero bytes. *)
Fixpoint zero_tail (l : list Z) : bool :=
  match l with [] => true | c :: l => if c =? 0 then forallb (fun c => c =? 0) l else zero_tail l end.
Definition valid_name (name : Z) : bool :=
  let tail := map (name_byte name) [1; 2; 3; 4; 5; 6] in
  is_upper (name_byte name 0) && (name <=? 0xFFFFFFFFFFFFFF) && zero_tail tail && forallb (fun c => (c =? 0) || is_digit c || is_upper c) tail.

Section QpiAssets.
Variable k : nat.
Abbreviation ASSETS_CAPACITY := (2 ^ Z.of_nat k).
Abbreviation capn := (Z.to_nat ASSETS_CAPACITY).
Context {D : Type} `{!Inhabited D}.
Implicit Types u : @Universe D.

(** A search loop over the hash table: the first record that [P] accepts, NO_ASSET_INDEX at an empty slot *)
Definition find_record (P : AssetRecord -> bool) (key : Z) u : option Z :=
  asset_probe k (fun idx => if is_empty ((assets u).[idx]) then Some NO_ASSET_INDEX else if P ((assets u).[idx]) then Some idx else None) (asset_home k key).

(** ** The calls of a contract [self] with entity [id] *)
Definition qpi_issueAsset (self id invocator name issuer numberOfDecimalPlaces numberOfShares unitOfMeasurement : Z) u : option (Universe * Z) :=
  if negb (valid_name name) then Some (u, 0)
  else if isZero issuer || (negb (issuer =? id) && negb (issuer =? invocator)) then Some (u, 0)
  else if (numberOfShares <=? 0) || (MAX_AMOUNT <? numberOfShares) then Some (u, 0)
  else if 0xFFFFFFFFFFFFFF <? unitOfMeasurement then Some (u, 0)
  else match issueAsset k issuer name numberOfDecimalPlaces unitOfMeasurement numberOfShares self u with None => None | Some (u, r, _, _) => Some (u, r) end.

Definition isAssetIssued (issuer assetName : Z) u : option bool :=
  match issuanceIndex k issuer assetName u with None => None | Some i => Some (negb (i =? NO_ASSET_INDEX)) end.

Definition match_possessor (possessor ownershipIndex : Z) (r : AssetRecord) : bool :=
  match r with POSSESSION p _ o _ => (o =? ownershipIndex) && (p =? possessor) | _ => false end.

Definition qpi_transferShares (self assetName issuer owner possessor numberOfShares newOwnerAndPossessor : Z) u : option (Universe * Z) :=
  if (numberOfShares <=? 0) || (MAX_AMOUNT <? numberOfShares) then Some (u, - (MAX_AMOUNT + 1))
  else
    match find_record (match_issuance issuer assetName) issuer u with
    | None => None
    | Some issuanceIndex =>
        if issuanceIndex =? NO_ASSET_INDEX then Some (u, - numberOfShares)
        else
          match find_record (match_ownership owner self issuanceIndex) owner u with
          | None => None
          | Some ownershipIndex =>
              if ownershipIndex =? NO_ASSET_INDEX then Some (u, - numberOfShares)
              else
                match find_record (match_possessor possessor ownershipIndex) possessor u with
                | None => None
                | Some possessionIndex =>
                    if possessionIndex =? NO_ASSET_INDEX then Some (u, - numberOfShares)
                    else
                      let possession := (assets u).[possessionIndex] in
                      if rec_managing possession =? self then
                        if numberOfShares <=? rec_shares possession then
                          match transferShareOwnershipAndPossession k ownershipIndex possessionIndex newOwnerAndPossessor numberOfShares u with
                          | None => None
                          | Some (u, false, _) => Some (u, INVALID_AMOUNT)
                          | Some (u, true, _) => Some (u, rec_shares ((assets u).[possessionIndex]))
                          end
                        else Some (u, rec_shares possession - numberOfShares)
                      else Some (u, - numberOfShares)
                end
          end
    end.

(** ** Money and shares *)
Variable env : ContractEnv.
Variable maxActions : Z.
Context {S : Type} `{!LedgerOps S}.
Variable callSystemProc : Z -> Z -> Z -> Z -> @World S -> option (@World S).
(** The 8 bytes of [contractDescriptions[contractIndex].assetName], as a number *)
Variable contractAssetName : Z -> Z.

(** One dividend: credit the possessor, track the transfer, notify and log *)
Definition pay_dividend (id destination dividend : Z) (w : @World S) : option (@World S) :=
  match credit_entity destination dividend (w_ledger w) with
  | None => None
  | Some s =>
      let '(t, added) := addQuTransfer maxActions id destination dividend (contractActionTracker w) in
      if added then
        match qpiNotifyPostIncomingTransfer env callSystemProc id destination dividend qpiDistributeDividends (with_tracker t (with_ledger s w)) with
        | None => None
        | Some w => Some (log_money (QuTransfer id destination dividend) w)
        end
      else None
  end.

Fixpoint pay_dividends (fuel : nat) (id amountPerShare : Z) (iter : PossessionIterator) u (w : @World S) : option (@World S) :=
  match fuel with
  | O => None
  | Datatypes.S fuel =>
      if pi_possessionIdx iter =? NO_ASSET_INDEX then Some w
      else
        let possession := (assets u).[pi_possessionIdx iter] in
        match (if negb (rec_shares possession =? 0) then pay_dividend id (rec_publicKey possession) (s64 (amountPerShare * rec_shares possession)) w else Some w) with
        | None => None
        | Some w =>
            match possession_next k (Datatypes.S capn) iter u with
            | None => None
            | Some (iter, _) => pay_dividends fuel id amountPerShare iter u w
            end
        end
  end.

Definition distributeDividends (contractCallbacksRunning self id amountPerShare : Z) u (w : @World S) : option (@World S * bool) :=
  if negb (Z.land contractCallbacksRunning ContractCallbackPostIncomingTransfer =? 0) then Some (w, false)
  else if (amountPerShare <? 0) || (MAX_AMOUNT <? s64 (amountPerShare * NUMBER_OF_COMPUTORS)) then Some (w, false)
  else
    match entity_index id (w_ledger w) with
    | None => None
    | Some index =>
        if index <? 0 then Some (w, false)
        else
          let remainingAmount := s64 (entity_energy index (w_ledger w) - s64 (amountPerShare * NUMBER_OF_COMPUTORS)) in
          if remainingAmount <? 0 then Some (w, false)
          else
            let w := log_money (CustomMessage CUSTOM_MESSAGE_OP_START_DISTRIBUTE_DIVIDENDS) w in
            let '(s, ok) := debit_entity index (s64 (amountPerShare * NUMBER_OF_COMPUTORS)) (w_ledger w) in
            let w := with_ledger s w in
            match (if ok then
                     match possession_begin k (mkAsset 0 (contractAssetName self)) any_ownership any_possession u with
                     | None => None
                     | Some iter => pay_dividends (Datatypes.S capn) id amountPerShare iter u w
                     end
                   else Some w) with
            | None => None
            | Some w => Some (log_money (CustomMessage CUSTOM_MESSAGE_OP_END_DISTRIBUTE_DIVIDENDS) w, true)
            end
    end.

(** ** Management rights *)
Record PreManagementRightsTransfer_input := mkPreInput {
  pre_asset : Asset; pre_owner : Z; pre_possessor : Z; pre_numberOfShares : Z; pre_offeredFee : Z; pre_otherContractIndex : Z }.
Record PreManagementRightsTransfer_output := mkPreOutput { allowTransfer : bool; requestedFee : Z }.
Record PostManagementRightsTransfer_input := mkPostInput {
  post_asset : Asset; post_owner : Z; post_possessor : Z; post_numberOfShares : Z; post_receivedFee : Z; post_otherContractIndex : Z }.

(** The spectrum and the universe together, so that a contract that is called back may change both: the money is that of the spectrum. *)
Definition node_ops : LedgerOps (S * @Universe D) := {|
  credit_entity x a s := match credit_entity x a s.1 with None => None | Some s1 => Some (s1, s.2) end;
  entity_index x s := entity_index x s.1;
  entity_energy i s := entity_energy i s.1;
  debit_entity i a s := let '(s1, ok) := debit_entity i a s.1 in ((s1, s.2), ok) |}.
#[local] Existing Instance node_ops.
Abbreviation Node := (@World (S * @Universe D)).
Definition node_universe (w : Node) : @Universe D := (w_ledger w).2.
Definition with_universe u (w : Node) : Node := with_ledger ((w_ledger w).1, u) w.

(** [__qpiCallSystemProc<POST_INCOMING_TRANSFER>] for the recipient of the fee *)
Variable notifyProc : Z -> Z -> Z -> Z -> Node -> option Node.
(** [__qpiCallSystemProc<PRE_RELEASE_SHARES>] (or PRE_ACQUIRE_SHARES), and the call afterwards *)
Variable callPre : Z -> PreManagementRightsTransfer_input -> Node -> option (Node * PreManagementRightsTransfer_output).
Variable callPost : Z -> PostManagementRightsTransfer_input -> Node -> option Node.

(** [id(contractIndex, 0, 0, 0)] *)
Definition contract_id (contractIndex : Z) : Z := contractIndex.

(** What acquireShares and releaseShares have in common: the shares are managed by [source], the rights go to [destination], and [other] is the contract that is not the caller. *)
Definition transfer_rights (contractCallbacksRunning self id : Z) (asset : Asset) (owner possessor numberOfShares source destination other offeredTransferFee : Z) (w : Node) : option (Node * Z) :=
  match possession_begin k asset (mkOwnershipSelect owner source false false) (mkPossessionSelect possessor source false false) (node_universe w) with
  | None => None
  | Some it =>
      if it_numberOfPossessedShares k it (node_universe w) <? numberOfShares then Some (w, INVALID_AMOUNT)
      else
        match callPre other (mkPreInput asset owner possessor numberOfShares offeredTransferFee self) w with
        | None => None
        | Some (w, out) =>
            if negb (allowTransfer out) || (requestedFee out <? 0) || (MAX_AMOUNT <? requestedFee out) then Some (w, INVALID_AMOUNT)
            else if offeredTransferFee <? requestedFee out then Some (w, - requestedFee out)
            else
              match qpi_transfer env maxActions notifyProc contractCallbacksRunning id (contract_id other) (requestedFee out) qpiTransfer w with
              | None => None
              | Some (w, remaining) =>
                  if remaining <? 0 then Some (w, if negb (requestedFee out =? 0) then - requestedFee out else INVALID_AMOUNT)
                  else
                    match transferShareManagementRights k (oi_ownershipIdx (pi_owner it)) (pi_possessionIdx it) destination destination numberOfShares (node_universe w) with
                    | None => None
                    | Some (u, false, _) => Some (with_universe u w, INVALID_AMOUNT)
                    | Some (u, true, _) =>
                        match callPost other (mkPostInput asset owner possessor numberOfShares (requestedFee out) self) (with_universe u w) with
                        | None => None
                        | Some w => Some (w, requestedFee out)
                        end
                    end
              end
        end
  end.

(** The checks of the arguments: [ownershipContract] and [possessionContract] are the contracts named by the caller. *)
Definition rights_refused (contractCallbacksRunning self owner possessor numberOfShares ownershipContract possessionContract offeredTransferFee : Z) : bool :=
  negb (Z.land contractCallbacksRunning ContractCallbackManagementRightsTransfer =? 0) ||
  (negb (ownershipContract =? possessionContract) || negb (owner =? possessor)) ||
  ((possessionContract =? self) || (possessionContract =? 0) || (contractCount env <=? possessionContract) || (epoch env <? constructionEpoch env possessionContract) ||
   (destructionEpoch env possessionContract <=? epoch env) || (numberOfShares <=? 0) || (offeredTransferFee <? 0)) ||
  ((0xffff <? self) || (contractCount env <=? self)).

Definition acquireShares (contractCallbacksRunning self id : Z) (asset : Asset) (owner possessor numberOfShares sourceOwnershipManagingContractIndex sourcePossessionManagingContractIndex offeredTransferFee : Z) (w : Node) : option (Node * Z) :=
  if rights_refused contractCallbacksRunning self owner possessor numberOfShares sourceOwnershipManagingContractIndex sourcePossessionManagingContractIndex offeredTransferFee then Some (w, INVALID_AMOUNT)
  else transfer_rights contractCallbacksRunning self id asset owner possessor numberOfShares sourceOwnershipManagingContractIndex self sourceOwnershipManagingContractIndex offeredTransferFee w.

Definition releaseShares (contractCallbacksRunning self id : Z) (asset : Asset) (owner possessor numberOfShares destinationOwnershipManagingContractIndex destinationPossessionManagingContractIndex offeredTransferFee : Z) (w : Node) : option (Node * Z) :=
  if rights_refused contractCallbacksRunning self owner possessor numberOfShares destinationOwnershipManagingContractIndex destinationPossessionManagingContractIndex offeredTransferFee then Some (w, INVALID_AMOUNT)
  else transfer_rights contractCallbacksRunning self id asset owner possessor numberOfShares self destinationOwnershipManagingContractIndex destinationOwnershipManagingContractIndex offeredTransferFee w.
End QpiAssets.
