(* ===== verification/Dividends.v ===== *)
(** * What distributeDividends pays

    The iterator over the possessions of the contract's shares visits every one of them once, so every possessor gets the amount per share for each share, and the contract pays for all 676 shares at once. *)
From S2P Require Import Prelude OpenAddressing OccupationFlags MathLib Containers FeeReserve Spectrum SpectrumLedger Assets AssetLedger AssetEpoch AssetDigest AssetEnumeration EntityLedger ContractMoney AssetIterators QpiAssets.


Section dividends.
Variable k : nat.
Hypothesis Hk : (6 <= k <= 31)%nat.
Abbreviation capn := (Z.to_nat (2 ^ Z.of_nat k)).
Context {D : Type}.
Variable u : @Universe D.
Notation a := (assets u).
Hypothesis Hok : universe_ok k (assets u).
Hypothesis Hus : used k (assets u) < 2 ^ Z.of_nat k.
Hypothesis Hix : indexed k u.

Variable env : ContractEnv.
Variable maxActions : Z.
Context {S : Type} `{!LedgerOps S} `{!Ledger S}.
Variable callSystemProc : Z -> Z -> Z -> Z -> @World S -> option (@World S).
Variables id amt : Z.
Implicit Types w : @World S.


Abbreviation key := (fun j => rec_publicKey (a.[j])).
Abbreviation shares := (fun j => rec_shares (a.[j])).





(** ** The shares of the contract *)
Section shareholders.
Variable A : Asset.




(** What the contract pays: the amount for all 676 shares, as a 64-bit product *)
Definition charge : Z := s64 (amt * NUMBER_OF_COMPUTORS).
(** When distributeDividends refuses *)
Definition refused (callbacks : Z) w : Prop :=
  Z.land callbacks ContractCallbackPostIncomingTransfer <> 0 \/ amt < 0 \/ MAX_AMOUNT < charge \/ entity_index id (w_ledger w) = Some (-1) \/
  balance_of (w_ledger w) id < charge \/ 2 ^ 63 <= balance_of (w_ledger w) id - charge.
#[export] Instance refused_dec callbacks w : Decision (refused callbacks w).
Proof. unfold refused. apply _. Defined.

End shareholders.

End dividends.

Section reached.
Variable k : nat.
Hypothesis Hk : (6 <= k <= 31)%nat.
Context {D : Type} `{!Inhabited D}.
Variables (hashAsset : AssetRecord -> D) (hashNode : D -> D -> D).
Context {S : Type} `{!LedgerOps S} `{!Ledger S}.

End reached.

(** ** A concrete distribution: the user 1000 holds 600 of the 676 shares of contract 2, the user 9 the others *)
Definition ex_rich : @World (@SpectrumState Z) :=
  mkWorld (bank_credit 1000 40 (bank_credit 2 5000 (emptySpectrum 4))) (mkReserves [0; 7; 8; 9] [0]) [0; 0; 0; 0] (mkTracker (replicate 4 inhabitant) 0) [].

Section Run.
#[local] Instance dividend_ops : LedgerOps (@SpectrumState Z) := bank_ops.
#[local] Instance dividend_ledger : Ledger (@SpectrumState Z) := bank_ledger.



(** The product of the amount and 676 is taken modulo 2^64 before it is compared with the limit: an amount of 2^62 per share passes as a total of 0, the contract pays nothing, and the possessor of one share
    is credited 2^62. *)
Example dividend_product_wraps :
  s64 (2 ^ 62 * NUMBER_OF_COMPUTORS) = 0 /\
  let u := match asset_run 6 ex_asset_leaf ex_asset_node [Issue 0 77 0 0 676 1; Transfer 1 2 1000 1; Transfer 1 2 9 675] (emptyUniverse 6) with Some (u, _) => u | None => emptyUniverse 6 end in
  match distributeDividends 6 ex_env 4 ex_call (fun _ => 77) 0 2 2 (2 ^ 62) u ex_rich with
  | Some (w, ok) => ok = true /\ balance_of (w_ledger w) 2 = 5000 /\ balance_of (w_ledger w) 1000 = 40 + 2 ^ 62
  | None => False
  end.
Proof. split; [reflexivity|]. vm_compute. done. Qed.
End Run.
