(* ===== verification/QpiShares.v ===== *)
(** * What the share calls of contracts do (qpi/impl/qpi_assets_impl.h)

    The transfer a contract calls searches the possession without looking at its managing contract.  In an [aligned] universe, in which possessions are managed by the contract that manages the ownership, it finds
    the right record, and the effect can be told by numberOfPossessedShares alone.  Acquiring and releasing
    management rights, and the names that issueAsset accepts, follow below. *)
From S2P Require Import Prelude OpenAddressing OccupationFlags Containers Merkle Spectrum Assets AssetLedger AssetIterators EntityLedger ContractMoney QpiAssets FeeReserve AssetEpoch AssetDigest AssetEnumeration.

Section shares.
Variable k : nat.
Hypothesis Hk : (2 <= k <= 31)%nat.
Abbreviation cap := (2 ^ Z.of_nat k).
Abbreviation capn := (Z.to_nat cap).
Context {D : Type}.
Implicit Types u : @Universe D.

Definition aligned (a : list AssetRecord) : Prop := forall j p m o n, in_table k j -> a.[j] = POSSESSION p m o n -> rec_managing (a.[o]) = m.

Lemma probe_map {R T} (f : R -> T) (stop : Z -> option R) (stop' : Z -> option T) mask fuel : (forall i, stop' i = option_map f (stop i)) ->
  forall index, probe mask stop' fuel index = option_map f (probe mask stop fuel index).
Proof. intros Hs. induction fuel as [|fuel IH]; intros index; [done|]. cbn. rewrite Hs. destruct (stop index); [done|]. apply IH. Qed.

Lemma table_no_index j : in_table k j -> j =? NO_ASSET_INDEX = false.
Proof. unfold in_table, NO_ASSET_INDEX. intros Hj. assert (cap <= 2 ^ 31) by (apply Z.pow_le_mono_r; lia). apply Z.eqb_neq. lia. Qed.

Lemma find_record_ok P key u : universe_ok k (assets u) -> used k (assets u) < cap -> P EMPTY = false -> (forall r x, P r = true -> key_of r = Some x -> key_home k x = asset_home k key) ->
  exists i, find_record k P key u = Some i /\
    if i =? NO_ASSET_INDEX then forall j, in_table k j -> P ((assets u).[j]) = false else in_table k i /\ P ((assets u).[i]) = true.
Proof.
  intros Hok Hus HP Hhome. destruct (lookup_ok k Hk (assets u) P (asset_home k key) (uo_links _ _ Hok) Hus (land_in_table _ _) HP Hhome) as (r & Hr & Hcase).
  exists (default NO_ASSET_INDEX r). split.
  - unfold find_record, asset_probe in *. transitivity (option_map (default NO_ASSET_INDEX) (Some r)); [|done]. rewrite <- Hr. apply probe_map. intros idx.
    destruct (is_empty ((assets u).[idx])); [done|]. destruct (P ((assets u).[idx])); done.
  - destruct r as [i|]; cbn [from_option]; [unfold id; rewrite table_no_index by apply Hcase; exact Hcase|exact Hcase].
Qed.

(** ** The holdings that numberOfPossessedShares reports *)
Definition holding u (nm iss ow po om pm h : Z) : Prop := numberOfPossessedShares k nm iss ow po om pm u = Some h.

Lemma holding_at u i nm iss ow po om pm : universe_ok k (assets u) -> used k (assets u) < cap -> in_table k i -> match_issuance iss nm ((assets u).[i]) = true ->
  holding u nm iss ow po om pm (held k (assets u) (mkPosition i ow om po pm)).
Proof. intros Hok Hus Hi Hm. destruct (numberOfPossessedShares_held k Hk u nm iss ow po om pm Hok Hus) as (v & Hv & H1 & _). unfold holding. by rewrite Hv, (H1 i). Qed.
Lemma holding_none u nm iss ow po om pm : universe_ok k (assets u) -> used k (assets u) < cap -> (forall i, in_table k i -> match_issuance iss nm ((assets u).[i]) = false) -> holding u nm iss ow po om pm 0.
Proof. intros Hok Hus Hno. destruct (numberOfPossessedShares_held k Hk u nm iss ow po om pm Hok Hus) as (v & Hv & _ & H0). unfold holding. by rewrite Hv, H0. Qed.

(** ** The effect on the records *)

(** Shares moved away from a position, and to another one unless they were burned *)
Record shares_moved (a a' : list AssetRecord) (sp n : Z) (src : position) (dst : option position) : Prop := {
  sm_ok : universe_ok k a';
  sm_used : used k a' <= used k a + 2;
  sm_held : forall q, held k a' q = held k a q - (if decide (q = src) then n else 0) + (if decide (Some q = dst) then n else 0);
  sm_keep : forall j, in_table k j -> a.[j] <> EMPTY -> skeleton (a'.[j]) = skeleton (a.[j]);
  sm_issued : forall j iss nm, in_table k j -> match_issuance iss nm (a'.[j]) = match_issuance iss nm (a.[j]);
  sm_aligned : aligned a -> aligned a' }.

Lemma skeleton_issuance r r' iss nm : skeleton r = skeleton r' -> match_issuance iss nm r = match_issuance iss nm r'.
Proof. destruct r, r'; cbn; by intros [=]; subst. Qed.

(** Possessions stay aligned when the records keep their fields and new possessions agree with their ownership. *)
Lemma aligned_keep a a' : links_ok k a -> (forall j, in_table k j -> a.[j] <> EMPTY -> skeleton (a'.[j]) = skeleton (a.[j])) ->
  (forall j p m o n, in_table k j -> a.[j] = EMPTY -> a'.[j] = POSSESSION p m o n -> rec_managing (a'.[o]) = m) -> aligned a -> aligned a'.
Proof.
  intros Hl Hkeep Hnew Hal j p m o n Hj E. destruct (decide (a.[j] = EMPTY)) as [Ej|Hne]; [by eapply Hnew|]. pose proof (Hkeep j Hj Hne) as Hs. rewrite E in Hs.
  destruct (a.[j]) as [| | |p1 m1 o1 n1] eqn:Ea; try done. cbn in Hs. injection Hs as <- <- <-. destruct (lo_pos _ _ Hl j _ _ _ _ Hj Ea) as [Ho Hown]. rewrite <- (Hal j _ _ _ _ Hj Ea).
  pose proof (Hkeep o Ho ltac:(intros E'; by rewrite E' in Hown)) as Hso. destruct (a.[o]), (a'.[o]); cbn in *; congruence.
Qed.

(** The shares of a possession are among those of its ownership. *)
Lemma source_transfers a so sp n p m i no p' m' np : universe_ok k a -> in_table k so -> in_table k sp -> a.[so] = OWNERSHIP p m i no -> a.[sp] = POSSESSION p' m' so np -> n <= np -> can_transfer so sp n a = true.
Proof.
  intros Hok Hso Hsp Eo Ep Hnp. assert (np <= no) as Hno.
  { pose proof (uo_split _ _ Hok so Hso ltac:(by rewrite Eo)) as Hs. rewrite Eo in Hs. cbn in Hs. rewrite <- Hs. assert (pos_part so (a.[sp]) = np) as <- by (rewrite Ep; cbn; by rewrite Z.eqb_refl).
    apply (sumZ_elem_le (fun j => pos_part so (a.[j]))); [|by apply (asset_index k Hk)]. intros j Hj%(asset_index k Hk). pose proof (uo_nonneg _ _ Hok j Hj). destruct (a.[j]); cbn in *; try lia. destruct (_ =? _); lia. }
  unfold can_transfer. rewrite Eo, Ep, Z.eqb_refl, (proj2 (Z.ltb_ge no n)), (proj2 (Z.ltb_ge np n)) by lia. done.
Qed.

Lemma move_moved u so sp n p m i no p' m' np dst : universe_ok k (assets u) -> used k (assets u) + 1 < cap -> in_table k so -> in_table k sp -> 0 < n ->
  (assets u).[so] = OWNERSHIP p m i no -> (assets u).[sp] = POSSESSION p' m' so np -> n <= np -> po_issuance dst = i -> po_om dst = po_pm dst ->
  exists u' dO dP, moveShares k so sp (po_owner dst) (po_om dst) (po_possessor dst) (po_pm dst) n u = Some (u', dO, dP) /\ shares_moved (assets u) (assets u') sp n (mkPosition i p m p' m') (Some dst).
Proof.
  intros Hok Hus Hso Hsp Hn Eo Ep Hnp Hi Hal. pose proof (source_transfers _ so sp n _ _ _ _ _ _ _ Hok Hso Hsp Eo Ep Hnp) as Hct.
  destruct (moveShares_ok k Hk u so sp n dst Hok Hso Hsp Hus Hn Hct ltac:(by rewrite Eo)) as (u' & dO & dP & He & HdO & HdP & Heff & _). exists u', dO, dP. split; [done|].
  assert (position_of (assets u) so sp = mkPosition i p m p' m') as Epos by (unfold position_of; by rewrite Eo, Ep). rewrite Epos in Heff. destruct Heff as [E1 E2 E3 E4 E5 E6 E7 E8]. set (a := assets u) in *. set (a' := assets u') in *.
  assert (forall j, in_table k j -> a.[j] = EMPTY -> a'.[j] = EMPTY \/ is_ownership (a'.[j]) = true \/ (exists p1 n1, a'.[j] = POSSESSION p1 (po_pm dst) dO n1)) as Hnew.
  { intros j Hj Ej. destruct (decide (j = dO)) as [->|]; [right; left; by destruct (a'.[dO])|].
    destruct (decide (j = dP)) as [->|]; [right; right; destruct (a'.[dP]); try done; injection E8 as -> -> ->; by eexists _, _|]. left. rewrite E6; [done|congruence..]. }
  split; [done|done| |done| |].
  - intros q. rewrite E2. f_equal. destruct (decide (q = dst)), (decide (Some q = Some dst)); congruence.
  - intros j iss nm Hj. destruct (decide (a.[j] = EMPTY)) as [Ej|]; [|by apply (skeleton_issuance _ _ iss nm), E5]. rewrite Ej. destruct (Hnew j Hj Ej) as [->|[E|(? & ? & ->)]]; [done| |done]. by destruct (a'.[j]).
  - apply aligned_keep; [apply Hok|done|]. intros j p1 m1 o1 n1 Hj Ej Ej'. destruct (Hnew j Hj Ej) as [E|[E|(? & ? & E)]]; rewrite Ej' in E; try done. injection E as -> -> -> ->. rewrite <- Hal. by destruct (a'.[dO]); try done; injection E7 as -> -> ->.
Qed.

Lemma transfer_moved u so sp dest n p m i no p' np : universe_ok k (assets u) -> used k (assets u) + 1 < cap -> in_table k so -> in_table k sp -> 0 < n ->
  (assets u).[so] = OWNERSHIP p m i no -> (assets u).[sp] = POSSESSION p' m so np -> n <= np ->
  if isZero dest && isZero (rec_publicKey ((assets u).[i])) then transferShareOwnershipAndPossession k so sp dest n u = Some (u, false, None)
  else exists u' d, transferShareOwnershipAndPossession k so sp dest n u = Some (u', true, d) /\
    shares_moved (assets u) (assets u') sp n (mkPosition i p m p' m) (if isZero dest then None else Some (mkPosition i dest m dest m)).
Proof.
  intros Hok Hus Hso Hsp Hn Eo Ep Hnp. pose proof (source_transfers _ so sp n _ _ _ _ _ _ _ Hok Hso Hsp Eo Ep Hnp) as Hct.
  unfold transferShareOwnershipAndPossession. rewrite (proj2 (Z.leb_gt n 0)) by lia. rewrite Hct, Eo, Ep. cbn [negb rec_link rec_managing]. destruct (isZero dest) eqn:Hz; cbn [andb].
  - set (a := assets u) in *. destruct (isZero (rec_publicKey (a.[i]))); [done|]. destruct (burn_ok k Hk a so sp n Hok Hso Hsp Hn Hct) as (Hok' & Hh & _ & Hsk & _). rewrite Eo in Hok', Hh, Hsk. eexists _, None. split; [done|].
    match type of Hok' with universe_ok _ ?x => set (a' := x) in * end. change (shares_moved a a' sp n (mkPosition i p m p' m) None).
    assert (position_of a so sp = mkPosition i p m p' m) as Epos by (unfold position_of; by rewrite Eo, Ep). split; [done| | |by auto| |].
    + assert (used k a' = used k a) as ->; [|lia]. apply countZ_ext. intros j Hj%(asset_index k Hk). f_equal. specialize (Hsk j Hj). by destruct (a'.[j]), (a.[j]).
    + intros q. rewrite Hh, Epos. rewrite (decide_False (P := Some q = None)) by done. lia.
    + intros j iss nm Hj. exact (skeleton_issuance _ _ iss nm (Hsk j Hj)).
    + apply aligned_keep; [apply Hok|by auto|]. intros j p1 m1 o1 n1 Hj Ej Ej'. specialize (Hsk j Hj). by rewrite Ej, Ej' in Hsk.
  - destruct (move_moved u so sp n p m i no p' m np (mkPosition i dest m dest m) Hok Hus Hso Hsp Hn Eo Ep Hnp eq_refl eq_refl) as (u' & dO & dP & He & Hsm). cbn [po_owner po_om po_possessor po_pm] in He. rewrite He. by eexists _, _.
Qed.

(** Management rights move to another contract. *)
Lemma rights_moved u so sp c n p m i no p' np : universe_ok k (assets u) -> used k (assets u) + 1 < cap -> in_table k so -> in_table k sp -> 0 < n ->
  (assets u).[so] = OWNERSHIP p m i no -> (assets u).[sp] = POSSESSION p' m so np -> n <= np ->
  exists u' d, transferShareManagementRights k so sp c c n u = Some (u', true, d) /\ shares_moved (assets u) (assets u') sp n (mkPosition i p m p' m) (Some (mkPosition i p c p' c)).
Proof.
  intros Hok Hus Hso Hsp Hn Eo Ep Hnp. pose proof (source_transfers _ so sp n _ _ _ _ _ _ _ Hok Hso Hsp Eo Ep Hnp) as Hct.
  destruct (move_moved u so sp n p m i no p' m np (mkPosition i p c p' c) Hok Hus Hso Hsp Hn Eo Ep Hnp eq_refl eq_refl) as (u' & dO & dP & He & Hsm). cbn [po_owner po_om po_possessor po_pm] in He.
  unfold transferShareManagementRights. rewrite (proj2 (Z.leb_gt n 0)) by lia. rewrite Hct, Eo, Ep. cbn [negb rec_publicKey]. rewrite He. by eexists _, _.
Qed.

Lemma match_possessor_home p o r x : match_possessor p o r = true -> key_of r = Some x -> key_home k x = asset_home k p.
Proof. destruct r as [| | |p1 m1 o1 n1]; try done. cbn [match_possessor]. intros [_ ->%Z.eqb_eq]%andb_true_iff [= <-]. done. Qed.

Lemma match_issuance_inj iss nm iss' nm' r : match_issuance iss nm r = true -> match_issuance iss' nm' r = true -> iss' = iss /\ nm' = nm.
Proof. destruct r; try done. cbn. intros [->%Z.eqb_eq ->%Z.eqb_eq]%andb_true_iff [->%Z.eqb_eq ->%Z.eqb_eq]%andb_true_iff. done. Qed.

(** The holdings after a move, told by numberOfPossessedShares *)
Lemma moved_holdings u u' sp n i iss nm ow om po pm dst : universe_ok k (assets u) -> used k (assets u) + 2 < cap -> in_table k i -> match_issuance iss nm ((assets u).[i]) = true ->
  shares_moved (assets u) (assets u') sp n (mkPosition i ow om po pm) (option_map (fun '(ow, om, po, pm) => mkPosition i ow om po pm) dst) ->
  forall nm' iss' ow' po' om' pm', exists x, holding u nm' iss' ow' po' om' pm' x /\
    holding u' nm' iss' ow' po' om' pm' (x - (if decide ((nm', iss', ow', om', po', pm') = (nm, iss, ow, om, po, pm)) then n else 0)
      + (if decide ((nm', iss') = (nm, iss) /\ Some (ow', om', po', pm') = dst) then n else 0)).
Proof.
  intros Hok Hus Hi Hm [H1 H2 H3 H4 H5 _] nm' iss' ow' po' om' pm'. destruct (numberOfPossessedShares_held k Hk u nm' iss' ow' po' om' pm' Hok ltac:(lia)) as (x & Hx & X1 & X0).
  exists x. split; [exact Hx|]. destruct (find_record_ok (match_issuance iss' nm') iss' u Hok ltac:(lia) eq_refl (match_issuance_home k iss' nm')) as (i' & _ & Hcase). destruct (i' =? NO_ASSET_INDEX).
  - rewrite (X0 Hcase). rewrite decide_False by (intros [= -> -> _ _ _ _]; rewrite (Hcase i Hi) in Hm; done). rewrite decide_False by (intros [[= -> ->] _]; rewrite (Hcase i Hi) in Hm; done).
    apply holding_none; [done|lia|]. intros j Hj. rewrite H5 by done. by apply Hcase.
  - destruct Hcase as [Hi' Hm']. rewrite (X1 i' Hi' Hm').
    assert ((nm', iss') = (nm, iss) <-> i' = i) as Hii.
    { split; [intros [= -> ->]; by apply (match_issuance_unique k Hk (assets u) i' i iss nm (uo_links _ _ Hok))|]. intros ->. destruct (match_issuance_inj _ _ _ _ _ Hm Hm') as [-> ->]. done. }
    assert (held k (assets u') (mkPosition i' ow' om' po' pm') = held k (assets u) (mkPosition i' ow' om' po' pm') -
      (if decide ((nm', iss', ow', om', po', pm') = (nm, iss, ow, om, po, pm)) then n else 0) + (if decide ((nm', iss') = (nm, iss) /\ Some (ow', om', po', pm') = dst) then n else 0)) as <-.
    { rewrite H3. f_equal; [f_equal|]; apply decide_ext.
      - split; [intros [= -> -> -> -> ->]; by pose proof (proj2 Hii eq_refl) as [= -> ->]|intros [= -> -> -> -> -> ->]; by rewrite (proj1 Hii eq_refl)].
      - destruct dst as [[[[ow2 om2] po2] pm2]|]; cbn; [|split; [done|by intros [_ ?]]]. split; [intros [= -> -> -> -> ->]; split; [by apply Hii|done]|intros [E%Hii [= -> -> -> ->]]; by subst]. }
    apply holding_at; [done|lia|done|]. by rewrite H5.
Qed.

(** The three searches: either the position holds no shares, or its records are found. *)
Lemma transfer_search u self nm iss ow po n dest : universe_ok k (assets u) -> used k (assets u) < cap -> aligned (assets u) -> (n <=? 0) || (MAX_AMOUNT <? n) = false ->
  qpi_transferShares k self nm iss ow po n dest u = Some (u, - n) /\ holding u nm iss ow po self self 0 \/
  exists i o j no np, in_table k i /\ match_issuance iss nm ((assets u).[i]) = true /\ in_table k o /\ (assets u).[o] = OWNERSHIP ow self i no /\ in_table k j /\ (assets u).[j] = POSSESSION po self o np /\
    holding u nm iss ow po self self np /\
    qpi_transferShares k self nm iss ow po n dest u =
      if n <=? np then
        match transferShareOwnershipAndPossession k o j dest n u with
        | None => None | Some (u, false, _) => Some (u, INVALID_AMOUNT) | Some (u, true, _) => Some (u, rec_shares ((assets u).[j]))
        end
      else Some (u, np - n).
Proof.
  intros Hok Hus Hal Hrange. destruct (numberOfPossessedShares_held k Hk u nm iss ow po self self Hok Hus) as (h & Hh & H1 & H0). unfold qpi_transferShares, holding. rewrite Hrange, Hh. clear Hrange Hh.
  destruct (find_record_ok (match_issuance iss nm) iss u Hok Hus eq_refl (match_issuance_home k iss nm)) as (i & -> & Hi). destruct (i =? NO_ASSET_INDEX); [left; by rewrite (H0 Hi)|].
  destruct Hi as [Hi Hm]. rewrite (H1 i Hi Hm). clear h H1 H0.
  destruct (find_record_ok (match_ownership ow self i) ow u Hok Hus eq_refl (match_ownership_home k ow self i)) as (o & -> & Ho). destruct (o =? NO_ASSET_INDEX).
  { left. split; [done|]. f_equal. apply held_absent; [done|]. intros j p m o2 n2 Hj E Hko%match_ownership_key _ _. destruct (lo_pos _ _ (uo_links _ _ Hok) j _ _ _ _ Hj E) as [Ho2 _]. cbn in Hko. by rewrite (Ho o2 Ho2) in Hko. }
  destruct Ho as [Ho Hko%match_ownership_key]. destruct ((assets u).[o]) as [| |p1 m1 i1 no|] eqn:Eo; try done. injection Hko as -> -> ->.
  destruct (find_record_ok (match_possessor po o) po u Hok Hus eq_refl (match_possessor_home po o)) as (j & -> & Hj). destruct (j =? NO_ASSET_INDEX).
  { left. split; [done|]. f_equal. apply held_absent; [done|]. intros j' p m o2 n2 Hj' E Hko -> _. cbn in Hko. destruct (lo_pos _ _ (uo_links _ _ Hok) j' _ _ _ _ Hj' E) as [Ho2 _]. specialize (Hj j' Hj'). rewrite E in Hj. cbn in Hj.
    assert (o2 = o) as ->; [|by rewrite !Z.eqb_refl in Hj]. apply (tab_unique _ _ _ (lo_tab _ _ (uo_links _ _ Hok)) o2 o (KOwnership ow self i)); [done|done|..]; apply (aview_full k Hk); [done|by rewrite Eo]. }
  destruct Hj as [Hj Hmj]. destruct ((assets u).[j]) as [| | |p m o1 np] eqn:Ej; try done. cbn in Hmj. apply andb_true_iff in Hmj as [->%Z.eqb_eq ->%Z.eqb_eq].
  pose proof (Hal j _ _ _ _ Hj Ej) as Hmm. rewrite Eo in Hmm. cbn in Hmm. subst m. right. exists i, o, j, no, np. cbn [rec_managing rec_shares]. rewrite Z.eqb_refl, (held_unique k Hk (assets u) j _ _ o np _ _ _ no Hok Hj Ej Eo). by split_and!.
Qed.

(** C10: A transfer of shares by a contract that manages them, in a universe with free slots in which possessions are managed together with their ownerships.  An amount out of range gives its own error value; with
    fewer shares than asked for the result is the negative difference, also if there is no record; burning shares of a contract gives INVALID_AMOUNT; each of these changes nothing.  Otherwise the shares move to
    the new owner and possessor under the same managing contract, or are burned for the zero key, no other holding of any asset changes, the result is what the possessor keeps, and the universe stays well formed
    and aligned. *)
Theorem shares_transferred u self nm iss ow po n dest : universe_ok k (assets u) -> used k (assets u) + 2 < cap -> aligned (assets u) ->
  exists u' r h, qpi_transferShares k self nm iss ow po n dest u = Some (u', r) /\ holding u nm iss ow po self self h /\
    if (n <=? 0) || (MAX_AMOUNT <? n) then u' = u /\ r = - (MAX_AMOUNT + 1)
    else if h <? n then u' = u /\ r = h - n
    else if isZero dest && isZero iss then u' = u /\ r = INVALID_AMOUNT
    else universe_ok k (assets u') /\ aligned (assets u') /\ holding u' nm iss ow po self self r /\
      forall nm' iss' ow' po' om' pm', exists x, holding u nm' iss' ow' po' om' pm' x /\
        holding u' nm' iss' ow' po' om' pm' (x - (if decide ((nm', iss', ow', om', po', pm') = (nm, iss, ow, self, po, self)) then n else 0)
          + (if decide ((nm', iss') = (nm, iss) /\ Some (ow', om', po', pm') = if isZero dest then None else Some (dest, self, dest, self)) then n else 0)).
Proof.
  intros Hok Hus Hal. destruct ((n <=? 0) || (MAX_AMOUNT <? n)) eqn:Hrange.
  { destruct (numberOfPossessedShares_held k Hk u nm iss ow po self self Hok ltac:(lia)) as (h & Hh & _). exists u, (- (MAX_AMOUNT + 1)), h. split; [|done]. unfold qpi_transferShares. by rewrite Hrange. }
  assert (0 < n) as Hn by (apply orb_false_iff in Hrange as [?%Z.leb_gt _]; done).
  destruct (transfer_search u self nm iss ow po n dest Hok ltac:(lia) Hal Hrange) as [[-> Hz]|(i & o & j & no & np & Hi & Hm & Ho & Eo & Hj & Ej & Hh & ->)].
  { exists u, (- n), 0. split; [done|]. split; [done|]. by rewrite (proj2 (Z.ltb_lt 0 n) Hn). }
  destruct (Z.leb_spec n np) as [Hle|Hlt]; [|exists u, (np - n), np; split; [done|]; split; [done|]; by rewrite (proj2 (Z.ltb_lt np n) Hlt)].
  pose proof (transfer_moved u o j dest n ow self i no po np Hok ltac:(lia) Ho Hj Hn Eo Ej Hle) as Hmv. pose proof (proj2 (Z.ltb_ge np n) Hle) as Hlt.
  assert (rec_publicKey ((assets u).[i]) = iss) as Eiss by (destruct ((assets u).[i]); try done; cbn in Hm |- *; by apply andb_true_iff in Hm as [_ ->%Z.eqb_eq]). rewrite Eiss in Hmv.
  destruct (isZero dest && isZero iss); [rewrite Hmv; exists u, INVALID_AMOUNT, np; by rewrite Hlt|]. destruct Hmv as (u' & d & -> & Hsm). exists u', (rec_shares ((assets u').[j])), np.
  split; [done|]. split; [done|]. rewrite Hlt. split; [apply Hsm|]. split; [by apply Hsm|]. split.
  - pose proof (sm_keep _ _ _ _ _ _ Hsm j Hj ltac:(by rewrite Ej)) as Hkj. pose proof (sm_keep _ _ _ _ _ _ Hsm o Ho ltac:(by rewrite Eo)) as Hkeo. rewrite Ej in Hkj. rewrite Eo in Hkeo.
    destruct ((assets u').[j]) as [| | |p2 m2 o2 n2] eqn:Ej'; try done. destruct ((assets u').[o]) as [| |p3 m3 i3 n3|] eqn:Eo'; try done. cbn in Hkj, Hkeo. injection Hkj as -> -> ->. injection Hkeo as -> -> ->. cbn [rec_shares].
    pose proof (sm_ok _ _ _ _ _ _ Hsm) as Hok'. rewrite <- (held_unique k Hk (assets u') j _ _ o n2 _ _ _ n3 Hok' Hj Ej' Eo'). pose proof (sm_used _ _ _ _ _ _ Hsm). apply holding_at; [done|lia|done|]. by rewrite (sm_issued _ _ _ _ _ _ Hsm).
  - apply (moved_holdings u u' j n i iss nm ow self po self (if isZero dest then None else Some (dest, self, dest, self)) Hok Hus Hi Hm). by destruct (isZero dest).
Qed.
End shares.

Lemma ex_aligned : aligned 3 ex_assets.
Proof.
  intros j p m o n Hj. assert (j = 0 \/ j = 1 \/ j = 2 \/ j = 3 \/ j = 4 \/ j = 5 \/ j = 6 \/ j = 7) as Hc by (unfold in_table in Hj; lia).
  destruct Hc as [->|[->|[->|[->|[->|[->|[->| ->]]]]]]]; vm_compute; intros [=]; by subst.
Qed.

Lemma shares_transferred_witness : exists u' r, qpi_transferShares 3 1 77 6 6 6 30 9 ex_universe = Some (u', r) /\ r = 70 /\ universe_ok 3 (assets u').
Proof.
  destruct (shares_transferred 3 ltac:(lia) ex_universe 1 77 6 6 6 30 9 ex_assets_ok ltac:(vm_compute; reflexivity) ex_aligned) as (u' & r & h & H1 & H2 & H3). exists u', r. split; [exact H1|].
  vm_compute in H2. injection H2 as <-. destruct H3 as (H3 & _ & _ & _). split; [|exact H3]. vm_compute in H1. by injection H1.
Defined.

(** ** What acquireShares and releaseShares do

    The rights to manage shares move from one contract to another when the other contract agrees, against the fee that it asks for. *)

Section rights.
Variable k : nat.
Hypothesis Hk : (6 <= k <= 31)%nat.
Abbreviation cap := (2 ^ Z.of_nat k).
Context {D : Type}.
Implicit Types u : @Universe D.

Lemma Hk_rights : (2 <= k <= 31)%nat.
Proof. lia. Qed.

(** The iterator for one owner, one possessor and one managing contract stands at their record, if there is one. *)
Lemma begin_position u A ow po c : universe_ok k (assets u) -> used k (assets u) < cap -> indexed k u ->
  exists it h, possession_begin k A (mkOwnershipSelect ow c false false) (mkPossessionSelect po c false false) u = Some it /\ holding k u (assetName A) (issuer A) ow po c c h /\
    (pi_possessionIdx it = NO_ASSET_INDEX /\ h = 0 \/
     exists i no, in_table k i /\ match_issuance (issuer A) (assetName A) ((assets u).[i]) = true /\ in_table k (oi_ownershipIdx (pi_owner it)) /\ in_table k (pi_possessionIdx it) /\
       (assets u).[oi_ownershipIdx (pi_owner it)] = OWNERSHIP ow c i no /\ (assets u).[pi_possessionIdx it] = POSSESSION po c (oi_ownershipIdx (pi_owner it)) h).
Proof.
  intros Hok Hus Hix. set (os := mkOwnershipSelect ow c false false). set (ps := mkPossessionSelect po c false false).
  destruct (issuance_slot k Hk u Hok Hus Hix (issuer A) (assetName A)) as (i & Ei & [[Hi Hm]|[-> Hno]]).
  2: { destruct (possession_begin_absent k u A os ps Ei) as (it & -> & Hv). exists it, 0. split; [done|]. split; [|by left]. by apply holding_none; [apply Hk_rights|..]. }
  destruct (possession_begin_visits k Hk u Hok Hus Hix A os ps i Hi Hm Ei) as (it & s & -> & Hv & Hs). eexists it, _. split; [done|]. split; [by apply (holding_at k Hk_rights u i)|]. destruct s as [|j s].
  - left. split; [exact Hv|]. destruct A as [iss nm]. cbn in Hm. rewrite <- (shares_selected_held k Hk u Hok i iss nm ow c po c Hi Hm), (shares_selected_at k Hk u Hok (mkAsset iss nm) _ _ i Hi Hm). fold os ps. by rewrite <- (slots_of_sum k Hk u [] _ _ Hs).
  - right. destruct Hv as (-> & Hj & Hlink & _). assert (j ∈ j :: s) as [_ Hsel]%(proj2 Hs) by (by left). destruct ((assets u).[j]) as [| | |p m o n] eqn:Ej; try done. cbn in Hlink. subst o. cbn in Hsel.
    destruct (lo_pos _ _ (uo_links _ _ Hok) j _ _ _ _ Hj Ej) as [Ho _]. destruct ((assets u).[oi_ownershipIdx (pi_owner it)]) as [| |po' mo i' no|] eqn:Eo; try done. cbn in Hsel. rewrite Z.eqb_refl in Hsel. cbn in Hsel.
    apply andb_true_iff in Hsel as [[[->%Z.eqb_eq ->%Z.eqb_eq]%andb_true_iff ->%Z.eqb_eq]%andb_true_iff [->%Z.eqb_eq ->%Z.eqb_eq]%andb_true_iff].
    exists i, no. split_and!; try done. f_equal. symmetry. by apply (held_unique k Hk_rights (assets u) j _ _ (oi_ownershipIdx (pi_owner it)) n _ _ _ no).
Qed.

(** *** What contracts that are called back do to the universe *)

(** No record is removed or changes its keys. *)
Definition kept (a a' : list AssetRecord) : Prop := forall j, in_table k j -> a.[j] <> EMPTY -> skeleton (a'.[j]) = skeleton (a.[j]).
Lemma kept_trans a1 a2 a3 : kept a1 a2 -> kept a2 a3 -> kept a1 a3.
Proof. intros H1 H2 j Hj Hne. specialize (H1 j Hj Hne). rewrite <- H1. apply H2; [done|]. intros E. rewrite E in H1. by destruct (a1.[j]). Qed.
Lemma kept_write a n r : a.[n] = EMPTY -> kept a (a.[n := r]).
Proof. intros Hn j _ Hne. rewrite aget_aset_ne; [done|]. by intros ->. Qed.

Lemma issueAsset_kept p nm dec un n m u u' r i x : issueAsset k p nm dec un n m u = Some (u', r, i, x) -> kept (assets u) (assets u').
Proof.
  unfold issueAsset. destruct (asset_probe k _ (asset_home k p)) as [[i1 new]|] eqn:E1; [|done]. apply probe_slot in E1 as (j & Hj & E1); [|apply land_in_table].
  destruct new; [|by intros [= <- _ _ _]]. destruct (is_empty ((assets u).[j])) eqn:He; [|by destruct (same_issuance _ _ _)]. injection E1 as <-. apply is_empty_spec in He.
  pose proof (kept_write _ j (ISSUANCE p nm dec un) He) as L1. set (a1 := (assets u).[j := _]) in *.
  destruct (asset_probe k _ (Z.land (j + 1) _)) as [o|] eqn:E2; [|done]. apply probe_slot in E2 as (o' & Ho & E2); [|apply land_in_table].
  destruct (is_empty (a1.[o'])) eqn:He2; [|done]. injection E2 as ->. apply is_empty_spec in He2. pose proof (kept_write _ o (OWNERSHIP p m j n) He2) as L2. set (a2 := a1.[o := _]) in *.
  destruct (asset_probe k _ (Z.land (o + 1) _)) as [q|] eqn:E3; [|done]. apply probe_slot in E3 as (q' & Hq & E3); [|apply land_in_table].
  destruct (is_empty (a2.[q'])) eqn:He3; [|done]. injection E3 as ->. apply is_empty_spec in He3. intros [= <- _ _ _].
  exact (kept_trans _ _ _ L1 (kept_trans _ _ _ L2 (kept_write _ q (POSSESSION p m o n) He3))).
Qed.

Context `{!Inhabited D}.
Variables (hashAsset : AssetRecord -> D) (hashNode : D -> D -> D).
(** The operations that contracts can cause: not the end of an epoch *)
Definition contract_op (o : asset_op) : Prop := match o with EndEpoch => False | _ => True end.

Lemma contract_step_kept o u u' out : universe_ok k (assets u) -> used k (assets u) + 3 < cap -> op_ok k o -> contract_op o -> asset_step k hashAsset hashNode o u = Some (u', out) -> kept (assets u) (assets u').
Proof.
  intros Hok Hus Ho Hc. destruct o as [p nm dec un n m|so sp dest n|so sp om pm n| |]; cbn [asset_step op_ok] in *; [| | |done|].
  - destruct (issueAsset k p nm dec un n m u) as [[[[u1 r] i] x]|] eqn:E; [|done]. intros [= <- _]. exact (issueAsset_kept _ _ _ _ _ _ _ _ _ _ _ E).
  - unfold transferShareOwnershipAndPossession. destruct (Z.leb_spec n 0); [by intros [= <- _]|]. destruct (can_transfer so sp n (assets u)) eqn:Hct; cbn [negb]; [|by intros [= <- _]]. destruct Ho as [Hso Hsp].
    destruct (isZero dest).
    + destruct (isZero _); [by intros [= <- _]|]. intros [= <- _]. destruct (burn_ok k Hk_rights (assets u) so sp n Hok Hso Hsp ltac:(lia) Hct) as (_ & _ & _ & Hsk & _). intros j Hj _. by apply Hsk.
    + destruct (moveShares_ok k Hk_rights u so sp n (mkPosition (rec_link ((assets u).[so])) dest (rec_managing ((assets u).[so])) dest (rec_managing ((assets u).[sp]))) Hok Hso Hsp ltac:(lia) ltac:(lia) Hct eq_refl) as (u1 & dO & dP & He & _ & _ & Heff & _).
      cbn [po_owner po_om po_possessor po_pm] in He. rewrite He. intros [= <- _]. by destruct Heff.
  - unfold transferShareManagementRights. destruct (Z.leb_spec n 0); [by intros [= <- _]|]. destruct (can_transfer so sp n (assets u)) eqn:Hct; cbn [negb]; [|by intros [= <- _]]. destruct Ho as [Hso Hsp].
    destruct (moveShares_ok k Hk_rights u so sp n (mkPosition (rec_link ((assets u).[so])) (rec_publicKey ((assets u).[so])) om (rec_publicKey ((assets u).[sp])) pm) Hok Hso Hsp ltac:(lia) ltac:(lia) Hct eq_refl) as (u1 & dO & dP & He & _ & _ & Heff & _).
    cbn [po_owner po_om po_possessor po_pm] in He. rewrite He. intros [= <- _]. by destruct Heff.
  - unfold getUniverseDigest. destruct (climb _ _ _ _ _) as [[fl dg] x]. by intros [= <- _].
Qed.

Lemma contract_run_kept ops : forall u u' out, universe_ok k (assets u) -> flags_ok k hashAsset hashNode u -> Forall (op_ok k) ops -> Forall contract_op ops -> used k (assets u) + 3 * Z.of_nat (length ops) < cap ->
  asset_run k hashAsset hashNode ops u = Some (u', out) ->
  universe_ok k (assets u') /\ flags_ok k hashAsset hashNode u' /\ used k (assets u') <= used k (assets u) + 3 * Z.of_nat (length ops) /\ kept (assets u) (assets u').
Proof.
  induction ops as [|o ops IH]; intros u u' out Hok Hfl Hops Hc Hus; cbn [asset_run length] in *; [intros [= <- _]; by split_and!; [..|lia|]|].
  apply Forall_cons in Hops as [Ho Hops]. apply Forall_cons in Hc as [Hco Hc]. destruct (asset_step_ok k Hk hashAsset hashNode o u Hok Hfl ltac:(lia) Ho) as (u1 & out1 & E1 & Hok1 & Hfl1 & Hu1 & _). rewrite E1.
  destruct (asset_run _ _ _ ops u1) as [[u2 out2]|] eqn:E2; [|done]. intros [= <- _]. destruct (IH u1 u2 out2) as (H1 & H2 & H3 & H4); [done..|lia|done|]. split_and!; [done|done|lia|].
  apply (kept_trans _ (assets u1)); [|done]. by apply (contract_step_kept o u u1 out1); [|lia|..].
Qed.

Variable env : ContractEnv.
Variable maxActions : Z.
Context {S : Type} `{!LedgerOps S}.
#[local] Existing Instance node_ops.
Abbreviation Node := (@World (S * @Universe D)).
Variable notifyProc : Z -> Z -> Z -> Z -> Node -> option Node.
Variable callPre : Z -> PreManagementRightsTransfer_input -> Node -> option (Node * PreManagementRightsTransfer_output).
Variable callPost : Z -> PostManagementRightsTransfer_input -> Node -> option Node.

(** The contracts that are called back may do anything with the money, and to the universe whatever asset operations do, at most [maxOps] of them in one callback. *)
Variable maxOps : nat.
Definition evolves (w w' : Node) : Prop :=
  exists ops out, Forall (op_ok k) ops /\ Forall contract_op ops /\ (length ops <= maxOps)%nat /\ asset_run k hashAsset hashNode ops (node_universe w) = Some (node_universe w', out).
Hypothesis notify_evolves : forall source c a type w w', notifyProc source c a type w = Some w' -> evolves w w'.
Hypothesis callPre_evolves : forall c i w w' out, callPre c i w = Some (w', out) -> evolves w w'.

Lemma evolves_same w w' : node_universe w' = node_universe w -> evolves w w'.
Proof. intros E. exists [], []. split_and!; [constructor|constructor|apply Nat.le_0_l|by cbn; rewrite E]. Qed.
Lemma evolves_ext w0 w w' w1 : node_universe w0 = node_universe w -> node_universe w1 = node_universe w' -> evolves w w' -> evolves w0 w1.
Proof. unfold evolves. by intros -> ->. Qed.

(** A payment changes the universe only by the reaction of its recipient. *)
Lemma transfer_evolves callbacks id dest a type w w' r : qpi_transfer env maxActions notifyProc callbacks id dest a type w = Some (w', r) -> evolves w w'.
Proof.
  unfold qpi_transfer. destruct (_ && _); [intros [= <- _]; by apply evolves_same|]. destruct (_ && _); [intros [= <- _]; by apply evolves_same|]. destruct (_ || _); [intros [= <- _]; by apply evolves_same|].
  unfold transfer_funds. destruct (entity_index id (w_ledger w)) as [i|]; [|done]. destruct (i <? 0); [intros [= <- _]; by apply evolves_same|]. destruct (_ <? 0); [intros [= <- _]; by apply evolves_same|].
  cbn [debit_entity credit_entity node_ops]. destruct (debit_entity i a (w_ledger w).1) as [s1 ok]. destruct ok; [|intros [= <- _]; by apply evolves_same]. cbn [fst snd].
  destruct (credit_entity dest a s1) as [s2|]; [|done]. destruct (addQuTransfer _ _ _ _ _) as [t added]. destruct added; [|done]. unfold qpiNotifyPostIncomingTransfer.
  destruct (_ || _); [intros [= <- _]; by apply evolves_same|]. destruct (negb _); [intros [= <- _]; by apply evolves_same|]. destruct (cannot_run _ _ _); [intros [= <- _]; by apply evolves_same|].
  destruct (notifyProc _ _ _ _ _) as [w1|] eqn:E; [|done]. intros [= <- _]. by apply notify_evolves in E.
Qed.

Lemma evolves_kept w w' m : universe_ok k (assets (node_universe w)) -> flags_ok k hashAsset hashNode (node_universe w) -> used k (assets (node_universe w)) + 3 * Z.of_nat maxOps + m < cap -> 0 <= m -> evolves w w' ->
  universe_ok k (assets (node_universe w')) /\ flags_ok k hashAsset hashNode (node_universe w') /\ used k (assets (node_universe w')) + m < cap /\ kept (assets (node_universe w)) (assets (node_universe w')).
Proof.
  intros Hok Hfl Hus Hm (ops & out & Ho & Hc & Hlen & E). destruct (contract_run_kept ops _ _ out Hok Hfl Ho Hc ltac:(lia) E) as (H1 & H2 & H3 & H4). split_and!; [done|done|lia|done].
Qed.

(** *** The promise of both calls: [source] manages the shares, the rights are to go to [dest], and [other] has to agree *)

(** The shares of the owner have moved between the managing contracts, and nothing else has changed in the universe. *)
Definition rights_moved_only (A : Asset) (owner n source dest : Z) u u' : Prop :=
  universe_ok k (assets u') /\ (aligned k (assets u) -> aligned k (assets u')) /\
  forall nm iss ow po om pm, exists x, holding k u nm iss ow po om pm x /\
    holding k u' nm iss ow po om pm (x - (if decide ((nm, iss, ow, om, po, pm) = (assetName A, issuer A, owner, source, owner, source)) then n else 0)
      + (if decide ((nm, iss) = (assetName A, issuer A) /\ Some (ow, om, po, pm) = Some (owner, dest, owner, dest)) then n else 0)).

Definition rights_promise (callbacks self id : Z) (A : Asset) (owner n source dest other offered : Z) (w : Node) (res : option (Node * Z)) : Prop :=
  exists h, holding k (node_universe w) (assetName A) (issuer A) owner owner source source h /\
    if h <? n then res = Some (w, INVALID_AMOUNT)
    else
      match callPre other (mkPreInput A owner owner n offered self) w with
      | None => res = None
      | Some (w1, out) =>
          let fee := requestedFee out in
          if negb (allowTransfer out) || (fee <? 0) || (MAX_AMOUNT <? fee) then res = Some (w1, INVALID_AMOUNT)
          else if offered <? fee then res = Some (w1, - fee)
          else
            match qpi_transfer env maxActions notifyProc callbacks id other fee qpiTransfer w1 with
            | None => res = None
            | Some (w2, remaining) =>
                if remaining <? 0 then res = Some (w2, if fee =? 0 then INVALID_AMOUNT else - fee)
                else exists h2, holding k (node_universe w2) (assetName A) (issuer A) owner owner source source h2 /\
                  if h2 <? n then res = Some (w2, INVALID_AMOUNT)
                  else exists u3, rights_moved_only A owner n source dest (node_universe w2) u3 /\
                    res = match callPost other (mkPostInput A owner owner n fee self) (with_universe u3 w2) with None => None | Some w4 => Some (w4, fee) end
            end
      end.

Lemma with_universe_same (w : Node) : with_universe (node_universe w) w = w.
Proof. by destruct w as [[? ?] ? ? ? ?]. Qed.

(** The records found before the callbacks are still those of the owner. *)
Lemma records_stay u u2 o j i ow c no h : universe_ok k (assets u2) -> used k (assets u2) < cap -> kept (assets u) (assets u2) -> in_table k i -> in_table k o -> in_table k j ->
  forall A, match_issuance (issuer A) (assetName A) ((assets u).[i]) = true -> (assets u).[o] = OWNERSHIP ow c i no -> (assets u).[j] = POSSESSION ow c o h ->
  exists no2 h2, match_issuance (issuer A) (assetName A) ((assets u2).[i]) = true /\ (assets u2).[o] = OWNERSHIP ow c i no2 /\ (assets u2).[j] = POSSESSION ow c o h2 /\
    holding k u2 (assetName A) (issuer A) ow ow c c h2.
Proof.
  intros Hok Hus Hk2 Hi Ho Hj A Hm Eo Ej. pose proof (Hk2 i Hi ltac:(by intros E; rewrite E in Hm)) as Ki. pose proof (Hk2 o Ho ltac:(by rewrite Eo)) as Ko. pose proof (Hk2 j Hj ltac:(by rewrite Ej)) as Kj.
  rewrite Eo in Ko. rewrite Ej in Kj. destruct ((assets u2).[o]) as [| |p1 m1 l1 no2|] eqn:Eo2; try done. destruct ((assets u2).[j]) as [| | |p2 m2 o2 h2] eqn:Ej2; try done.
  cbn in Ko, Kj. injection Ko as -> -> ->. injection Kj as -> -> ->. exists no2, h2. rewrite (skeleton_issuance _ _ (issuer A) (assetName A) Ki). split_and!; try done.
  rewrite <- (held_unique k Hk_rights (assets u2) j _ _ o h2 _ _ _ no2 Hok Hj Ej2 Eo2). apply (holding_at k Hk_rights u2 i); [done|done|done|]. by rewrite (skeleton_issuance _ _ (issuer A) (assetName A) Ki).
Qed.

Lemma transfer_rights_promise callbacks self id A owner n source dest other offered w : universe_ok k (assets (node_universe w)) -> flags_ok k hashAsset hashNode (node_universe w) ->
  used k (assets (node_universe w)) + 6 * Z.of_nat maxOps + 2 < cap -> indexed k (node_universe w) -> 0 < n ->
  rights_promise callbacks self id A owner n source dest other offered w (transfer_rights k env maxActions notifyProc callPre callPost callbacks self id A owner owner n source dest other offered w).
Proof.
  intros Hok Hfl Hus Hix Hn. destruct (begin_position (node_universe w) A owner owner source Hok ltac:(lia) Hix) as (it & h & Hit & Hh & Hcase). exists h. split; [done|]. unfold transfer_rights. rewrite Hit.
  assert ((it_numberOfPossessedShares k it (node_universe w) <? n) = (h <? n)) as ->.
  { unfold it_numberOfPossessedShares. destruct Hcase as [[-> ->]|(i & no & _ & _ & _ & Hj & _ & Ej)].
    - rewrite (proj2 (Z.ltb_ge NO_ASSET_INDEX cap)) by (pose proof (cap_no_index k Hk); lia). rewrite (proj2 (Z.ltb_lt (-1) n)), (proj2 (Z.ltb_lt 0 n)) by lia. done.
    - unfold in_table in Hj. rewrite (proj2 (Z.ltb_lt (pi_possessionIdx it) cap)) by lia. by rewrite Ej. }
  destruct (Z.ltb_spec h n) as [|Hle]; [done|]. destruct (callPre _ _ w) as [[w1 out]|] eqn:Epre; [|done]. cbv zeta. destruct (_ || _); [done|]. destruct (offered <? requestedFee out); [done|]. unfold contract_id.
  destruct (qpi_transfer _ _ _ _ _ _ _ _ w1) as [[w2 remaining]|] eqn:Etr; [|done]. destruct (remaining <? 0); [by destruct (_ =? _)|].
  destruct (evolves_kept w w1 (3 * Z.of_nat maxOps + 2) Hok Hfl ltac:(lia) ltac:(lia) (callPre_evolves _ _ _ _ _ Epre)) as (Hok1 & Hfl1 & Hus1 & Hk1).
  destruct (evolves_kept w1 w2 2 Hok1 Hfl1 ltac:(lia) ltac:(lia) (transfer_evolves _ _ _ _ _ _ _ _ Etr)) as (Hok2 & _ & Hus2 & Hk2).
  destruct Hcase as [[_ ->]|(i & no & Hi & Hm & Ho & Hj & Eo & Ej)]; [lia|].
  destruct (records_stay _ (node_universe w2) _ _ i owner source no h Hok2 ltac:(lia) (kept_trans _ _ _ Hk1 Hk2) Hi Ho Hj A Hm Eo Ej) as (no2 & h2 & Hm2 & Eo2 & Ej2 & Hh2). exists h2. split; [done|].
  destruct (Z.ltb_spec h2 n) as [Hlt|Hge].
  - unfold transferShareManagementRights. rewrite (proj2 (Z.leb_gt n 0)) by lia. unfold can_transfer. rewrite Eo2, Ej2, (proj2 (Z.ltb_lt h2 n) Hlt), Z.eqb_refl. cbn [negb]. rewrite ?andb_false_r. cbn [negb andb]. by rewrite with_universe_same.
  - destruct (rights_moved k Hk_rights (node_universe w2) _ _ dest n owner source i no2 owner h2 Hok2 ltac:(lia) Ho Hj Hn Eo2 Ej2 Hge) as (u3 & d & -> & Hsm). exists u3. split; [|done]. split; [apply Hsm|]. split; [apply Hsm|].
    by apply (moved_holdings k Hk_rights (node_universe w2) u3 (pi_possessionIdx it) n i (issuer A) (assetName A) owner source owner source (Some (owner, dest, owner, dest)) Hok2 Hus2 Hi Hm2).
Qed.

(** What the promise says when everything is in order *)
Lemma promise_kept callbacks self id A owner n source dest other offered w res h w1 out w2 remaining h2 : rights_promise callbacks self id A owner n source dest other offered w res ->
  numberOfPossessedShares k (assetName A) (issuer A) owner owner source source (node_universe w) = Some h -> (h <? n) = false ->
  callPre other (mkPreInput A owner owner n offered self) w = Some (w1, out) -> negb (allowTransfer out) || (requestedFee out <? 0) || (MAX_AMOUNT <? requestedFee out) = false -> (offered <? requestedFee out) = false ->
  qpi_transfer env maxActions notifyProc callbacks id other (requestedFee out) qpiTransfer w1 = Some (w2, remaining) -> (remaining <? 0) = false ->
  numberOfPossessedShares k (assetName A) (issuer A) owner owner source source (node_universe w2) = Some h2 -> (h2 <? n) = false ->
  exists u3, rights_moved_only A owner n source dest (node_universe w2) u3 /\
    res = match callPost other (mkPostInput A owner owner n (requestedFee out) self) (with_universe u3 w2) with None => None | Some w4 => Some (w4, requestedFee out) end.
Proof.
  intros (h' & Hh' & Hp) Hh Hle Epre Hal Hoff Etr Hrem Hh2 Hle2. unfold holding in Hh'. rewrite Hh in Hh'. injection Hh' as <-. rewrite Hle, Epre in Hp. cbv zeta in Hp. rewrite Hal, Hoff, Etr, Hrem in Hp.
  destruct Hp as (h2' & Hh2' & Hp). unfold holding in Hh2'. rewrite Hh2 in Hh2'. injection Hh2' as <-. by rewrite Hle2 in Hp.
Qed.

(** C11: A contract acquires or releases the rights to manage shares.  Both calls return INVALID_AMOUNT and change nothing within such a callback, for different owners and possessors or managing contracts, for
    the contract itself, contract 0 and contracts that do not exist or do not run, for a non-positive amount and a negative fee.  Otherwise: with too few managed shares the result is INVALID_AMOUNT and nothing has
    changed; then the other contract is asked, and if it does not agree the result is INVALID_AMOUNT, if its fee is above the offered one the negative fee; then the fee is paid to it (a payment that fails ends the
    call).  If the callbacks have left enough of these shares, exactly these shares of the owner move to the new managing contract, every other holding of every asset staying as it is, the other contract is told and
    the fee is returned; if they have not, the result is INVALID_AMOUNT although the fee is paid.  The contracts that are called back are arbitrary functions of the whole node: their answer may depend on it, they may
    move money, and they may do to the universe any sequence of issues, transfers and rights transfers of a bounded length for which the universe has room. *)
Theorem rights_transferred callbacks self id A owner possessor n oc pc offered w : universe_ok k (assets (node_universe w)) -> flags_ok k hashAsset hashNode (node_universe w) ->
  used k (assets (node_universe w)) + 6 * Z.of_nat maxOps + 2 < cap -> indexed k (node_universe w) ->
  let acquired := acquireShares k env maxActions notifyProc callPre callPost callbacks self id A owner possessor n oc pc offered w in
  let released := releaseShares k env maxActions notifyProc callPre callPost callbacks self id A owner possessor n oc pc offered w in
  if rights_refused env callbacks self owner possessor n oc pc offered then acquired = Some (w, INVALID_AMOUNT) /\ released = Some (w, INVALID_AMOUNT)
  else owner = possessor /\ rights_promise callbacks self id A owner n oc self oc offered w acquired /\ rights_promise callbacks self id A owner n self oc oc offered w released.
Proof.
  intros Hok Hfl Hus Hix acquired released. subst acquired released. unfold acquireShares, releaseShares. destruct (rights_refused env callbacks self owner possessor n oc pc offered) eqn:Hr; [done|].
  unfold rights_refused in Hr. rewrite !orb_false_iff, !negb_false_iff, !Z.eqb_eq, !Z.leb_gt in Hr. destruct Hr as [[[_ [_ <-]] Hr] _]. split; [done|]. split; apply transfer_rights_promise; (done || lia).
Qed.
End rights.

(** ** A concrete case: contract 2 acquires 30 of the 100 shares of user 70 from contract 1 for a fee of 3, while contract 1, when it is asked, transfers 20 of these shares to user 9 *)
Definition ex_managed : @Universe Z := match asset_run 6 ex_asset_leaf ex_asset_node [Issue 70 77 0 0 100 1] (emptyUniverse 6) with Some (u, _) => u | None => emptyUniverse 6 end.
Abbreviation ex_node := (@World (@SpectrumState Z * @Universe Z)).
Definition ex_shared : ex_node := mkWorld (w_ledger ex_world, ex_managed) (w_reserves ex_world) (contractError ex_world) (contractActionTracker ex_world) (w_log ex_world).
Definition ex_notified (source contractIndex a type : Z) (w : ex_node) : option ex_node := Some w.
Definition ex_asked (c : Z) (i : PreManagementRightsTransfer_input) (w : ex_node) : option (ex_node * PreManagementRightsTransfer_output) :=
  match asset_step 6 ex_asset_leaf ex_asset_node (Transfer 7 8 9 20) (node_universe w) with
  | Some (u, _) => Some (with_universe u w, mkPreOutput true 3)
  | None => None
  end.
Lemma ex_asked_evolves c i w w' out : ex_asked c i w = Some (w', out) -> evolves 6 ex_asset_leaf ex_asset_node 1 w w'.
Proof.
  unfold ex_asked. destruct (asset_step _ _ _ _ _) as [[u o]|] eqn:E; [|done]. intros [= <- _]. exists [Transfer 7 8 9 20], (o ++ []).
  split; [constructor; [split; vm_compute; (done || split; (done || discriminate))|constructor]|]. split; [repeat constructor|]. split; [cbn; lia|]. cbn [asset_run]. by rewrite E.
Qed.

Section Run.
#[local] Instance rights_ops : LedgerOps (@SpectrumState Z) := bank_ops.

Lemma ex_shared_universe : node_universe ex_shared = ex_managed.
Proof. unfold node_universe, ex_shared. cbn [w_ledger snd]. reflexivity. Qed.
Lemma ex_shared_ok : universe_ok 6 (assets (node_universe ex_shared)) /\ flags_ok 6 ex_asset_leaf ex_asset_node (node_universe ex_shared) /\ used 6 (assets (node_universe ex_shared)) + 6 * Z.of_nat 1 + 2 < 2 ^ Z.of_nat 6 /\ indexed 6 (node_universe ex_shared).
Proof.
  rewrite ex_shared_universe. destruct (asset_run 6 ex_asset_leaf ex_asset_node [Issue 70 77 0 0 100 1] (emptyUniverse 6)) as [[u out]|] eqn:E; [|exfalso; revert E; vm_compute; discriminate].
  assert (u = ex_managed) as -> by (unfold ex_managed; by rewrite E). destruct (emptyUniverse_ok 6 ltac:(lia) ex_asset_leaf ex_asset_node) as (H1 & H2 & H3).
  destruct (run_indexed 6 ltac:(lia) ex_asset_leaf ex_asset_node [Issue 70 77 0 0 100 1] (emptyUniverse 6) ex_managed out H1 H2 ltac:(repeat constructor; lia) ltac:(vm_compute; reflexivity) (empty_indexed 6 ltac:(lia)) E) as (Hok & _ & Hix).
  destruct (contract_run_kept 6 ltac:(lia) ex_asset_leaf ex_asset_node [Issue 70 77 0 0 100 1] (emptyUniverse 6) ex_managed out H1 H2 ltac:(repeat constructor; lia) ltac:(repeat constructor) ltac:(vm_compute; reflexivity) E) as (_ & Hfl & _).
  split; [done|]. split; [done|]. split; [vm_compute; reflexivity|done].
Qed.
Lemma ex_notified_evolves source c a type w w' : ex_notified source c a type w = Some w' -> evolves 6 ex_asset_leaf ex_asset_node 1 w w'.
Proof. intros [= <-]. by apply evolves_same. Qed.

Lemma ex_run : rights_refused ex_env 0 2 70 70 30 1 1 5 = false /\ numberOfPossessedShares 6 77 70 70 70 1 1 ex_managed = Some 100 /\
  exists w1 w2, ex_asked 1 (mkPreInput (mkAsset 70 77) 70 70 30 5 2) ex_shared = Some (w1, mkPreOutput true 3) /\
    qpi_transfer (LedgerOps0 := node_ops) ex_env 2 ex_notified 0 2 1 3 qpiTransfer w1 = Some (w2, 497) /\ numberOfPossessedShares 6 77 70 70 70 1 1 (node_universe w2) = Some 80.
Proof. split; [reflexivity|]. split; [vm_compute; reflexivity|]. eexists _, _. split; [vm_compute; reflexivity|]. split; vm_compute; reflexivity. Qed.

Lemma rights_transferred_witness :
  exists w2 u3, acquireShares 6 ex_env 2 ex_notified ex_asked (fun _ _ w => Some w) 0 2 2 (mkAsset 70 77) 70 70 30 1 1 5 ex_shared = Some (with_universe u3 w2, 3) /\
    holding 6 (node_universe w2) 77 70 70 70 1 1 80 /\ rights_moved_only 6 (mkAsset 70 77) 70 30 1 2 (node_universe w2) u3.
Proof.
  destruct ex_shared_ok as (Hok & Hfl & Hus & Hix). destruct ex_run as (E0 & Eh & w1 & w2 & E1 & E2 & E3).
  pose proof (rights_transferred 6 ltac:(lia) ex_asset_leaf ex_asset_node ex_env 2 ex_notified ex_asked (fun _ _ w => Some w) 1 ex_notified_evolves ex_asked_evolves
    0 2 2 (mkAsset 70 77) 70 70 30 1 1 5 ex_shared Hok Hfl Hus Hix) as H. cbv zeta in H. rewrite E0 in H. cbv iota in H.
  destruct H as (_ & H & _). rewrite <- ex_shared_universe in Eh.
  destruct (promise_kept 6 ex_env 2 ex_notified ex_asked (fun _ _ w => Some w) _ _ _ _ _ _ _ _ _ _ _ _ _ _ _ _ _ _ H Eh eq_refl E1 eq_refl eq_refl E2 eq_refl E3 eq_refl) as (u3 & Hm & Ha).
  exists w2, u3. split; [exact Ha|]. split; [exact E3|exact Hm].
Defined.
End Run.

(** ** The names that contracts may give to assets (issueAsset)

    The two loops over the bytes of the name accept exactly the encodings of the texts of at most seven characters that start with a capital letter and go on with capital letters and digits. *)

(** The characters of a text as the bytes of a number, the first one lowest *)
Fixpoint encode_name (s : list Z) : Z := match s with [] => 0 | c :: s => c + 256 * encode_name s end.
Definition is_byte (c : Z) : Prop := 0 <= c < 256.

Lemma name_byte_div name i : 0 <= i -> name_byte name i = name / 256 ^ i mod 256.
Proof.
  intros Hi. unfold name_byte. change 255 with (Z.ones 8). rewrite Z.land_ones, Z.shiftr_div_pow2 by lia. replace (2 ^ (i * 8)) with (256 ^ i); [done|].
  change 256 with (2 ^ 8). rewrite <- Z.pow_mul_r by lia. f_equal. lia.
Qed.
Lemma encode_range s : Forall is_byte s -> 0 <= encode_name s < 256 ^ Z.of_nat (length s).
Proof.
  induction 1 as [|c s Hc _ IH]; [cbn; lia|]. cbn [encode_name length]. rewrite Nat2Z.inj_succ, Z.pow_succ_r by lia. unfold is_byte in Hc. lia.
Qed.
Lemma name_byte_encode s : Forall is_byte s -> forall i, 0 <= i -> name_byte (encode_name s) i = nth (Z.to_nat i) s 0.
Proof.
  induction 1 as [|c s Hc Hs IH]; intros i Hi; rewrite name_byte_div by done; cbn [encode_name]; [rewrite Z.div_0_l by lia; by destruct (Z.to_nat i)|]. unfold is_byte in Hc.
  destruct (Z.eqb_spec i 0) as [->|Hne]; [rewrite Z.pow_0_r, Z.div_1_r, Z.mul_comm, Z.mod_add by lia; by apply Z.mod_small|].
  replace (Z.to_nat i) with (S (Z.to_nat (i - 1))) by lia. cbn [nth]. rewrite <- IH by lia. rewrite name_byte_div by lia. f_equal. replace i with (Z.succ (i - 1)) at 1 by lia. rewrite Z.pow_succ_r by lia.
  assert (0 < 256 ^ (i - 1)) by (apply Z.pow_pos_nonneg; lia). rewrite <- Z.div_div by lia. f_equal. rewrite (Z.mul_comm 256), Z.div_add, (Z.div_small c 256) by lia. lia.
Qed.
Lemma encode_bytes n : forall name, 0 <= name < 256 ^ Z.of_nat n -> encode_name (map (name_byte name) (seqZ 0 (Z.of_nat n))) = name.
Proof.
  induction n as [|n IH]; intros name Hr; [change (256 ^ Z.of_nat 0) with 1 in Hr; by assert (name = 0) as -> by lia|]. rewrite Nat2Z.inj_succ, Z.pow_succ_r in Hr by lia. rewrite seqZ_cons by lia. cbn [map encode_name]. replace (Z.pred (Z.of_nat (S n))) with (Z.of_nat n) by lia.
  rewrite <- (fmap_add_seqZ 1 0). change (Z.add 1 <$> seqZ 0 (Z.of_nat n)) with (map (Z.add 1) (seqZ 0 (Z.of_nat n))). rewrite map_map. rewrite (map_ext_in _ (name_byte (name / 256))); [|intros i Hi%list_elem_of_In%elem_of_seqZ].
  - rewrite IH; [rewrite name_byte_div, Z.pow_0_r, Z.div_1_r by lia; pose proof (Z.div_mod name 256 ltac:(lia)); lia|]. split; [apply Z.div_pos; lia|apply Z.div_lt_upper_bound; lia].
  - rewrite !name_byte_div by lia. replace (1 + i) with (Z.succ i) by lia. by rewrite Z.pow_succ_r, Z.div_div by lia.
Qed.
Lemma encode_zeros s m : encode_name (s ++ replicate m 0) = encode_name s.
Proof. induction s as [|c s IH]; cbn [app encode_name]; [|by rewrite IH]. induction m as [|m IH]; cbn; [done|]. by rewrite IH. Qed.

Lemma nth_zeros m : forall i, nth i (replicate m 0) 0 = 0.
Proof. induction m as [|m IH]; intros [|i]; [done..|apply IH]. Qed.

(** The first loop *)
Lemma zero_tail_split l : zero_tail l = true <-> exists s m, l = s ++ replicate m 0 /\ Forall (fun c => c <> 0) s.
Proof.
  split.
  - induction l as [|c l IH]; cbn [zero_tail]; [exists [], O; by split|]. destruct (Z.eqb_spec c 0) as [->|Hc].
    + intros Hz. exists [], (S (length l)). split; [|constructor]. cbn. f_equal. rewrite forallb_forall in Hz. clear IH. induction l as [|c l IH]; [done|]. cbn. f_equal; [apply Z.eqb_eq, Hz; by left|]. apply IH. intros x Hx. apply Hz. by right.
    + intros (s & m & -> & Hs)%IH. exists (c :: s), m. split; [done|]. by constructor.
  - intros (s & m & -> & Hs). induction Hs as [|c s Hc _ IH]; cbn [app zero_tail]; [|by rewrite (proj2 (Z.eqb_neq c 0) Hc)]. destruct m as [|m]; [done|]. cbn. clear. induction m as [|m IH]; [done|]. cbn. done.
Qed.

Definition name_char (c : Z) : bool := is_digit c || is_upper c.
Lemma name_char_byte c : name_char c = true -> is_byte c /\ c <> 0.
Proof. unfold name_char, is_digit, is_upper, is_byte. rewrite orb_true_iff, !andb_true_iff, !Z.leb_le. lia. Qed.

(** The accepted names are the encodings of texts. *)
Theorem valid_name_spec name : 0 <= name -> valid_name name = true <-> exists c s, name = encode_name (c :: s) /\ is_upper c = true /\ Forall (fun c => name_char c = true) s /\ (length s <= 6)%nat.
Proof.
  intros Hname. unfold valid_name. rewrite !andb_true_iff, Z.leb_le, zero_tail_split, forallb_forall. change [1; 2; 3; 4; 5; 6] with (seqZ 1 6). split.
  - intros [[[Hc Hmax] (s & m & Es & Hs)] Hch]. exists (name_byte name 0), s. split; [|split; [done|split]].
    + rewrite <- (encode_zeros _ m). cbn [app]. rewrite <- Es. symmetry. exact (encode_bytes 7 name ltac:(cbn; lia)).
    + apply Forall_forall. intros c Hin. specialize (Hch c). rewrite Es, in_app_iff in Hch. specialize (Hch (or_introl (proj1 (list_elem_of_In _ _) Hin))). rewrite Forall_forall in Hs. specialize (Hs c Hin).
      unfold name_char. apply orb_true_iff in Hch as [[Hz%Z.eqb_eq|Hz]%orb_true_iff|Hz]; [done|by rewrite Hz|by rewrite Hz, orb_true_r].
    + apply (f_equal length) in Es. rewrite length_map, length_seqZ, length_app in Es. lia.
  - intros (c & s & -> & Hc & Hs & Hlen). assert (Forall is_byte (c :: s)) as Hb.
    { constructor; [apply name_char_byte; unfold name_char; by rewrite Hc, orb_true_r|]. eapply Forall_impl; [exact Hs|]. intros x Hx. by apply name_char_byte. }
    assert (map (name_byte (encode_name (c :: s))) (seqZ 1 6) = s ++ replicate (6 - length s) 0) as ->.
    { apply (nth_ext _ _ 0 0); [rewrite length_map, length_seqZ, length_app, length_replicate; lia|]. intros i Hi. rewrite length_map, length_seqZ in Hi.
      rewrite (nth_indep _ 0 (name_byte (encode_name (c :: s)) 0)) by (rewrite length_map, length_seqZ; lia). rewrite map_nth. assert (nth i (seqZ 1 6) 0 = Z.of_nat i + 1) as -> by (do 6 (destruct i as [|i]; [done|]); lia).
      rewrite name_byte_encode by (done || lia). replace (Z.to_nat (Z.of_nat i + 1)) with (S i) by lia. cbn [nth]. destruct (decide (i < length s)%nat); [by rewrite app_nth1 by done|]. rewrite app_nth2, nth_overflow by lia. by rewrite nth_zeros. }
    split; [split; [split|]|].
    + rewrite name_byte_encode by (done || lia). done.
    + pose proof (encode_range _ Hb) as Hr. assert (256 ^ Z.of_nat (length (c :: s)) <= 256 ^ 7) by (apply Z.pow_le_mono_r; cbn [length]; lia). lia.
    + exists s, (6 - length s)%nat. split; [done|]. eapply Forall_impl; [exact Hs|]. intros x Hx. by apply name_char_byte.
    + intros x [Hx|Hx]%in_app_iff; [|apply list_elem_of_In, elem_of_replicate in Hx as [-> _]; done]. apply list_elem_of_In in Hx. rewrite Forall_forall in Hs. specialize (Hs x Hx). unfold name_char in Hs. by rewrite <- orb_assoc, Hs, orb_true_r.
Qed.
