(* ===== verification/Ipo.v ===== *)
(** * Contract IPO (src/contract_core/ipo.h, src/qpi/impl/qpi_ipo_impl.h)

    The IPO of a contract keeps the best NUMBER_OF_COMPUTORS bids in two arrays sorted by
    descending price.  A bid deducts the full amount; bids that fall out of the book, or never
    enter it, are refunded.  At the end of the epoch every remaining bidder pays the lowest price,
    gets one share per bid, and the proceeds become the contract's fee reserve.  The ledger is any
    implementation of [EntityLedger.Ledger]. *)
From S2P Require Import Prelude OpenAddressing MathLib Containers FeeReserve Spectrum SpectrumLedger Assets AssetLedger EntityLedger ContractMoney.

#[local] Set Default Proof Using "Type".

Definition ipoBidRefund : Z := 5.
Definition QX_CONTRACT_INDEX : Z := 1.
Definition CONTRACT_ASSET_UNIT_OF_MEASUREMENT : Z := 0.

(** [IPO] (contract_def.h) *)
Record IPO := mkIPO { publicKeys : list Z; prices : list Z }.

Definition set_entry (i key price : Z) (ipo : IPO) : IPO :=
  mkIPO ((publicKeys ipo).[i := key]) ((prices ipo).[i := price]).

Section Ipo.
(** [NUMBER_OF_COMPUTORS] *)
Variable NC : nat.
Variable env : ContractEnv.
Abbreviation NUMBER_OF_COMPUTORS := (Z.of_nat NC).

Context {S : Type} `{!LedgerOps S}.
Variable callSystemProc : Z -> Z -> Z -> Z -> @World S -> option (@World S).
Variable contractProcessor : Z -> Z -> Z -> Z -> @World S -> option (@World S).

(** releasedPublicKeys / releasedAmounts up to numberOfReleasedEntities: the search loop and the
    update of the entry found, or a new entry. *)
Fixpoint release (key amount : Z) (released : list (Z * Z)) : list (Z * Z) :=
  match released with
  | [] => [(key, amount)]
  | (k, a) :: rest => if key =? k then (k, s64 (a + amount)) :: rest else (k, a) :: release key amount rest
  end.

(** [while (j && ipo->prices[j - 1] < ipo->prices[j])]: the new bid moves up. *)
Fixpoint move_up (j : nat) (ipo : IPO) : IPO :=
  match j with
  | O => ipo
  | Datatypes.S j' =>
      let p := Z.of_nat j' in
      let i := Z.of_nat j in
      if (prices ipo).[p] <? (prices ipo).[i] then
        let tmpPublicKey := (publicKeys ipo).[p] in
        let tmpPrice := (prices ipo).[p] in
        let ipo := set_entry p ((publicKeys ipo).[i]) ((prices ipo).[i]) ipo in
        move_up j' (set_entry i tmpPublicKey tmpPrice ipo)
      else ipo
  end.

(** One round of the loop over the quantity: the book, the releases, contractStateChangeFlags and registeredBids. *)
Definition register_bid (price sourcePublicKey contractIndex : Z) (st : IPO * list (Z * Z) * list Z * Z) :
    IPO * list (Z * Z) * list Z * Z :=
  let '(ipo, released, flags, registeredBids) := st in
  let last := NUMBER_OF_COMPUTORS - 1 in
  if price <=? (prices ipo).[last] then (ipo, release sourcePublicKey price released, flags, registeredBids)
  else
    (move_up (NC - 1) (set_entry last sourcePublicKey price ipo),
     release ((publicKeys ipo).[last]) ((prices ipo).[last]) released,
     bit_set flags contractIndex, registeredBids + 1).

(** The body of the loops over the released entities. *)
Definition refund_one (notify : Z -> Z -> Z -> Z -> @World S -> option (@World S)) (key amount : Z) (w : @World S) :
    option (@World S) :=
  match credit_entity key amount (w_ledger w) with
  | None => None
  | Some s =>
      match notify 0 key amount ipoBidRefund (with_ledger s w) with
      | None => None
      | Some w => Some (log_money (QuTransfer 0 key amount) w)
      end
  end.

(** The loop of a bid skips entities with nothing to refund. *)
Fixpoint refund notify (released : list (Z * Z)) (w : @World S) : option (@World S) :=
  match released with
  | [] => Some w
  | (key, amount) :: rest =>
      if amount =? 0 then refund notify rest w
      else match refund_one notify key amount w with None => None | Some w => refund notify rest w end
  end.

Record IpoState := mkIpoState { ipo_book : IPO; ipo_world : @World S }.

(** [qpi]: called with a QPI context.  Result: the state, the return value and
    numberOfReleasedEntities (0 if not reached). *)
Definition bidInContractIPO (qpi : bool) (price quantity sourcePublicKey spectrumIndex contractIndex : Z) (st : IpoState) :
    option (IpoState * Z * Z) :=
  if (0 <? price) && (price <=? MAX_AMOUNT / NUMBER_OF_COMPUTORS) && (0 <? quantity) && (quantity <=? NUMBER_OF_COMPUTORS) then
    let amount := s64 (price * quantity) in
    let '(s, ok) := debit_entity spectrumIndex amount (w_ledger (ipo_world st)) in
    let w := with_ledger s (ipo_world st) in
    if ok then
      let w := log_money (QuTransfer sourcePublicKey 0 amount) w in
      let '(book, released, flags, registeredBids) :=
        for_loop (Z.to_nat quantity) 0 (fun _ => register_bid price sourcePublicKey contractIndex)
          (ipo_book st, [], contractStateChangeFlags (w_reserves w), 0) in
      let w := with_reserves (mkReserves (contractFeeReserves (w_reserves w)) flags) w in
      let notify := if qpi then qpiNotifyPostIncomingTransfer env callSystemProc
                    else notifyContractOfIncomingTransfer env contractProcessor in
      match refund notify released w with
      | None => None
      | Some w => Some (mkIpoState book w, registeredBids, Z.of_nat (length released))
      end
    else Some (mkIpoState (ipo_book st) w, -1, 0)
  else Some (st, -1, 0).

(** QpiContextProcedureCall::bidInIPO by the contract [self] with entity [id]: [quantity] is narrowed to 16 bits by the call. *)
Definition bidInIPO (contractCallbacksRunning self id IPOContractIndex price quantity : Z) (st : IpoState) :
    option (IpoState * Z * Z) :=
  if negb (contractCallbacksRunning =? 0) then Some (st, -1, 0)
  else if (contractCount env <=? self) || (contractCount env <=? IPOContractIndex) || (IPOContractIndex <=? self) then Some (st, -1, 0)
  else if negb (epoch env =? constructionEpoch env IPOContractIndex - 1) then Some (st, -1, 0)
  else
    match entity_index id (w_ledger (ipo_world st)) with
    | None => None
    | Some spectrumIndex =>
        if spectrumIndex <? 0 then Some (st, -1, 0)
        else bidInContractIPO true price (u16 quantity) id spectrumIndex IPOContractIndex st
    end.

Definition ipoBidId (ipoContractIndex ipoBidIndex : Z) (ipo : IPO) : Z :=
  if (contractCount env <=? ipoContractIndex) || negb (epoch env =? constructionEpoch env ipoContractIndex - 1) ||
     (NUMBER_OF_COMPUTORS <=? ipoBidIndex)
  then 0 else (publicKeys ipo).[ipoBidIndex].

Definition ipoBidPrice (ipoContractIndex ipoBidIndex : Z) (ipo : IPO) : Z :=
  if contractCount env <=? ipoContractIndex then -1
  else if negb (epoch env =? constructionEpoch env ipoContractIndex - 1) then -2
  else if NUMBER_OF_COMPUTORS <=? ipoBidIndex then -3
  else (prices ipo).[ipoBidIndex].

(** ** The end of an IPO *)

(** [ASSETS_DEPTH], and the asset names of the contracts. *)
Variable ka : nat.
Context {D : Type}.
Variable assetName : Z -> Z.

(** One round of the loop over the bids: what is released, and one share. *)
Definition finish_bid (ipo : IPO) (finalPrice ownershipIndex possessionIndex i : Z) (released : list (Z * Z)) (u : @Universe D) :
    option (list (Z * Z) * @Universe D) :=
  let released :=
    if finalPrice <? (prices ipo).[i] then release ((publicKeys ipo).[i]) (s64 ((prices ipo).[i] - finalPrice)) released
    else released in
  if finalPrice =? 0 then Some (released, u)
  else
    match transferShareOwnershipAndPossession ka ownershipIndex possessionIndex ((publicKeys ipo).[i]) 1 u with
    | None => None
    | Some (u, _, _) => Some (released, u)
    end.

Fixpoint finish_bids (n : nat) (ipo : IPO) (finalPrice ownershipIndex possessionIndex i : Z) (released : list (Z * Z))
    (u : @Universe D) : option (list (Z * Z) * @Universe D) :=
  match n with
  | O => Some (released, u)
  | Datatypes.S n =>
      match finish_bid ipo finalPrice ownershipIndex possessionIndex i released u with
      | None => None
      | Some (released, u) => finish_bids n ipo finalPrice ownershipIndex possessionIndex (i + 1) released u
      end
  end.

Fixpoint refund_all notify (released : list (Z * Z)) (w : @World S) : option (@World S) :=
  match released with
  | [] => Some w
  | (key, amount) :: rest =>
      match refund_one notify key amount w with None => None | Some w => refund_all notify rest w end
  end.

Definition with_error (contractIndex err : Z) (w : @World S) : @World S :=
  mkWorld (w_ledger w) (w_reserves w) ((contractError w).[contractIndex := err]) (contractActionTracker w) (w_log w).

(** The body of the loop of finishIPOs for a contract in its IPO epoch. *)
Definition finishIPO (contractIndex : Z) (ipo : IPO) (w : @World S) (u : @Universe D) : option (@World S * @Universe D) :=
  let finalPrice := (prices ipo).[NUMBER_OF_COMPUTORS - 1] in
  let issue :=
    if negb (finalPrice =? 0) then
      match issueAsset ka 0 (assetName contractIndex) 0 CONTRACT_ASSET_UNIT_OF_MEASUREMENT NUMBER_OF_COMPUTORS QX_CONTRACT_INDEX u with
      | None => None
      | Some (u, ret, _, Some (ownershipIndex, possessionIndex)) =>
          Some (u, if ret =? 0 then 0 else finalPrice, ownershipIndex, possessionIndex)
      | Some (u, ret, _, None) => Some (u, if ret =? 0 then 0 else finalPrice, 0, 0)
      end
    else Some (u, finalPrice, 0, 0) in
  match issue with
  | None => None
  | Some (u, finalPrice, ownershipIndex, possessionIndex) =>
      match finish_bids NC ipo finalPrice ownershipIndex possessionIndex 0 [] u with
      | None => None
      | Some (released, u) =>
          match refund_all (notifyContractOfIncomingTransfer env contractProcessor) released w with
          | None => None
          | Some w =>
              let w :=
                if 0 <? finalPrice then
                  with_error contractIndex NoContractError
                    (with_reserves (setContractFeeReserve contractIndex (s64 (finalPrice * NUMBER_OF_COMPUTORS)) (w_reserves w)) w)
                else with_error contractIndex ContractErrorIPOFailed w in
              Some (w, u)
          end
      end
  end.

(** [books]: the state of each contract read as an IPO, [None] if it has no state. *)
Fixpoint finishIPOs (n : nat) (contractIndex : Z) (books : Z -> option IPO) (w : @World S) (u : @Universe D) :
    option (@World S * @Universe D) :=
  match n with
  | O => Some (w, u)
  | Datatypes.S n =>
      let step :=
        if epoch env =? constructionEpoch env contractIndex - 1 then
          match books contractIndex with
          | Some ipo => finishIPO contractIndex ipo w u
          | None => Some (w, u)
          end
        else Some (w, u) in
      match step with
      | None => None
      | Some (w, u) => finishIPOs n (contractIndex + 1) books w u
      end
  end.

(** ** The book *)

(** Sums over the entries of the book. *)
Definition over (f : Z -> Z -> Z) (ipo : IPO) : Z := sumZ (fun i => f ((publicKeys ipo).[i]) ((prices ipo).[i])) NC.
Definition stake (ipo : IPO) (x : Z) : Z := over (fun key price => if decide (key = x) then price else 0) ipo.
Definition locked (ipo : IPO) : Z := over (fun _ price => price) ipo.
Definition bids_below (ipo : IPO) (p : Z) : Z := over (fun _ price => Z.b2z (price <? p)) ipo.

Definition in_book (i : Z) : Prop := 0 <= i < NUMBER_OF_COMPUTORS.

Record book_ok (ipo : IPO) : Prop := {
  bo_keys : alen (publicKeys ipo) = NUMBER_OF_COMPUTORS;
  bo_prices : alen (prices ipo) = NUMBER_OF_COMPUTORS;
  bo_sorted : forall i j, in_book i -> in_book j -> i <= j -> (prices ipo).[j] <= (prices ipo).[i];
  bo_price : forall i, in_book i -> 0 <= (prices ipo).[i];
  bo_empty : forall i, in_book i -> (publicKeys ipo).[i] = 0 -> (prices ipo).[i] = 0
}.

Lemma over_set f i key price ipo :
  alen (publicKeys ipo) = NUMBER_OF_COMPUTORS -> alen (prices ipo) = NUMBER_OF_COMPUTORS -> in_book i ->
  over f (set_entry i key price ipo) = over f ipo + f key price - f ((publicKeys ipo).[i]) ((prices ipo).[i]).
Proof.
  unfold in_book. intros Hk Hp Hi. unfold over.
  rewrite (sumZ_update (fun i => f ((publicKeys ipo).[i]) ((prices ipo).[i])) _ NC i Hi); cbn [publicKeys prices set_entry].
  - by rewrite !aget_aset_eq by lia.
  - intros j Hj Hne. by rewrite !aget_aset_ne by done.
Qed.

(** Everything but the order, with the entry [j] still to be moved up. *)
Record book_except (j : Z) (ipo : IPO) : Prop := {
  be_keys : alen (publicKeys ipo) = NUMBER_OF_COMPUTORS;
  be_prices : alen (prices ipo) = NUMBER_OF_COMPUTORS;
  be_sorted : forall a b, in_book a -> in_book b -> a <= b -> a <> j -> b <> j -> (prices ipo).[b] <= (prices ipo).[a];
  be_after : forall b, in_book b -> j < b -> (prices ipo).[b] <= (prices ipo).[j];
  be_price : forall i, in_book i -> 0 <= (prices ipo).[i];
  be_empty : forall i, in_book i -> (publicKeys ipo).[i] = 0 -> (prices ipo).[i] = 0
}.

Lemma book_except_done j ipo :
  book_except j ipo -> in_book j -> (forall i, in_book i -> i = j - 1 -> (prices ipo).[j] <= (prices ipo).[i]) -> book_ok ipo.
Proof.
  intros [H1 H2 H3 H4 H5 H6] Hj Hprev. split; try done. intros a b Ha Hb Hab. unfold in_book in *.
  destruct (decide (a = b)) as [->|]; [lia|]. destruct (decide (b = j)) as [->|].
  - pose proof (Hprev (j - 1) ltac:(lia) eq_refl). destruct (decide (a = j - 1)) as [->|]; [lia|].
    pose proof (H3 a (j - 1) Ha ltac:(lia) ltac:(lia) ltac:(lia) ltac:(lia)). lia.
  - destruct (decide (a = j)) as [->|]; [apply H4; (done || lia)|]. by apply H3.
Qed.

(** The exchange of two neighbours. *)
Definition swapped (j : Z) (ipo : IPO) : IPO :=
  set_entry j ((publicKeys ipo).[j - 1]) ((prices ipo).[j - 1])
    (set_entry (j - 1) ((publicKeys ipo).[j]) ((prices ipo).[j]) ipo).

Lemma swapped_get j ipo i :
  alen (publicKeys ipo) = NUMBER_OF_COMPUTORS -> alen (prices ipo) = NUMBER_OF_COMPUTORS -> in_book j -> 0 < j ->
  let r := if decide (i = j) then j - 1 else if decide (i = j - 1) then j else i in
  (publicKeys (swapped j ipo)).[i] = (publicKeys ipo).[r] /\ (prices (swapped j ipo)).[i] = (prices ipo).[r].
Proof.
  intros Hk Hp Hj Hpos r. unfold in_book in Hj. unfold r, swapped. cbn [publicKeys prices set_entry].
  destruct (decide (i = j)) as [->|]; [by rewrite !aget_aset_eq by (rewrite ?alen_aset; lia)|].
  rewrite !(aget_aset_ne _ j) by lia. destruct (decide (i = j - 1)) as [->|].
  - by rewrite !aget_aset_eq by lia.
  - by rewrite !aget_aset_ne by lia.
Qed.

Lemma over_swapped f j ipo :
  alen (publicKeys ipo) = NUMBER_OF_COMPUTORS -> alen (prices ipo) = NUMBER_OF_COMPUTORS -> in_book j -> 0 < j ->
  over f (swapped j ipo) = over f ipo.
Proof.
  unfold in_book. intros Hk Hp Hj Hpos. unfold swapped.
  rewrite !over_set; cbn [publicKeys prices set_entry]; rewrite ?alen_aset; unfold in_book; try lia.
  rewrite !aget_aset_ne by lia. lia.
Qed.

Lemma swapped_except j ipo :
  book_except j ipo -> in_book j -> 0 < j -> (prices ipo).[j - 1] < (prices ipo).[j] -> book_except (j - 1) (swapped j ipo).
Proof.
  intros [H1 H2 H3 H4 H5 H6] Hj Hpos Hlt. pose proof (fun i => proj2 (swapped_get j ipo i H1 H2 Hj Hpos)) as Hget.
  pose proof (fun i => proj1 (swapped_get j ipo i H1 H2 Hj Hpos)) as Hgetk. unfold in_book in *. split; unfold in_book.
  - unfold swapped. cbn. by rewrite !alen_aset.
  - unfold swapped. cbn. by rewrite !alen_aset.
  - intros a b Ha Hb Hab Hna Hnb. rewrite !Hget.
    destruct (decide (a = j)) as [->|], (decide (b = j)) as [->|]; try lia.
    + rewrite (decide_False (P := b = j - 1)) by lia. apply H3; lia.
    + rewrite (decide_False (P := a = j - 1)) by lia. apply H3; lia.
    + rewrite !decide_False by lia. by apply H3.
  - intros b Hb Hlt'. rewrite !Hget. rewrite (decide_False (P := j - 1 = j)), (decide_True (P := j - 1 = j - 1)) by lia.
    destruct (decide (b = j)) as [->|]; [lia|]. rewrite decide_False by lia. apply H4; lia.
  - intros i Hi. rewrite Hget. repeat destruct (decide _); apply H5; lia.
  - intros i Hi. rewrite Hget, Hgetk. repeat destruct (decide _); apply H6; lia.
Qed.

Lemma move_up_ok j : forall ipo,
  book_except (Z.of_nat j) ipo -> in_book (Z.of_nat j) ->
  book_ok (move_up j ipo) /\ forall f, over f (move_up j ipo) = over f ipo.
Proof.
  induction j as [|j IH]; intros ipo Hex Hj; cbn [move_up].
  - split; [|done]. apply (book_except_done 0); try done. unfold in_book. lia.
  - replace (Z.of_nat j) with (Z.of_nat (Datatypes.S j) - 1) by lia. set (i := Z.of_nat (Datatypes.S j)) in *.
    fold (swapped i ipo). destruct (Z.ltb_spec ((prices ipo).[i - 1]) ((prices ipo).[i])) as [Hlt|Hge].
    + destruct (IH (swapped i ipo)) as [Hok Hover].
      * replace (Z.of_nat j) with (i - 1) by lia. apply swapped_except; (done || lia).
      * unfold in_book in *. lia.
      * split; [done|]. intros f. rewrite Hover. apply over_swapped; (apply Hex || done || lia).
    + split; [|done]. apply (book_except_done i); [done|done|]. intros p Hp ->. lia.
Qed.

(** ** One bid *)
Definition rel_of (x : Z) (released : list (Z * Z)) : Z :=
  foldr (fun '(k, a) n => (if decide (k = x) then a else 0) + n) 0 released.
Definition rel_all (released : list (Z * Z)) : Z := foldr (fun '(_, a) n => a + n) 0 released.
(** Amounts are not negative, and nothing is owed to key 0. *)
Definition rel_ok (P : Z -> Prop) (released : list (Z * Z)) : Prop :=
  Forall (fun '(k, a) => 0 <= a /\ (k = 0 -> a = 0) /\ (k <> 0 -> P k)) released.

Lemma rel_all_nonneg P released : rel_ok P released -> 0 <= rel_all released.
Proof. induction 1 as [|[k a] l [? _] _ IH]; cbn; [lia|]. fold (rel_all l). lia. Qed.

Lemma release_ok (P : Z -> Prop) key amount released :
  rel_ok P released -> 0 <= amount -> (key = 0 -> amount = 0) -> (key <> 0 -> P key) -> rel_all released + amount < 2 ^ 63 ->
  let r := release key amount released in
  rel_ok P r /\ rel_all r = rel_all released + amount /\ (length r <= length released + 1)%nat /\
  forall x, rel_of x r = rel_of x released + (if decide (key = x) then amount else 0).
Proof.
  intros Hok Ha Hz HP. induction Hok as [|[k a] l [Hka Hk0] Hl IH]; intros Hlim; cbn [release].
  - cbn. split_and!; [|lia|lia|intros; lia]. by repeat constructor.
  - cbn [rel_all foldr] in Hlim. fold (rel_all l) in Hlim. pose proof (rel_all_nonneg P l Hl) as Hn.
    destruct (Z.eqb_spec key k) as [->|Hne].
    + rewrite s64_small by (unfold is_s64; lia). split_and!.
      * constructor; [|done]. split; [lia|]. split; [|apply Hk0]. intros ->. rewrite (proj1 Hk0), Hz by done. done.
      * cbn. fold (rel_all l). lia.
      * cbn. lia.
      * intros x. cbn. fold (rel_of x l). case_decide; lia.
    + destruct IH as (H1 & H2 & H3 & H4); [lia|]. split_and!.
      * by constructor.
      * cbn. fold (rel_all (release key amount l)) (rel_all l). lia.
      * cbn. lia.
      * intros x. cbn. fold (rel_of x (release key amount l)) (rel_of x l). rewrite H4. lia.
Qed.

(** Contracts with a procedure POST_INCOMING_TRANSFER, which a refund would run, and their bids.  (One of the two notifications narrows the index to 32 bits.) *)
Definition reacting (key : Z) : bool :=
  isPublicKeyOfContract env key && (hasPostIncomingTransfer env (m256i_u64 key 0) || hasPostIncomingTransfer env (u32 (m256i_u64 key 0))).
Definition reacting_key (key : Z) : bool := negb (key =? 0) && reacting key.
Definition reacting_bids (ipo : IPO) : Z := over (fun key _ => Z.b2z (reacting_key key)) ipo.
Definition silent_key (key : Z) : Prop := reacting_key key = false.

Lemma over_elem f ipo i : (forall k p, 0 <= f k p) -> in_book i -> f ((publicKeys ipo).[i]) ((prices ipo).[i]) <= over f ipo.
Proof. intros Hf Hi. apply (sumZ_elem_le (fun i => f ((publicKeys ipo).[i]) ((prices ipo).[i]))); [done|]. exact Hi. Qed.

Lemma silent_bids ipo i : reacting_bids ipo = 0 -> in_book i -> silent_key ((publicKeys ipo).[i]).
Proof.
  intros Hz Hi. unfold silent_key. destruct (reacting_key ((publicKeys ipo).[i])) eqn:Hc; [|done].
  pose proof (over_elem (fun key _ => Z.b2z (reacting_key key)) ipo i ltac:(intros; apply b2z_range) Hi) as Hle.
  cbn in Hle. rewrite Hc in Hle. unfold reacting_bids in Hz. cbn in Hle. lia.
Qed.

(** The lowest bid is below [p] exactly if some bid is. *)
Lemma bids_below_last ipo p :
  book_ok ipo -> 0 < NUMBER_OF_COMPUTORS ->
  if p <=? (prices ipo).[NUMBER_OF_COMPUTORS - 1] then bids_below ipo p = 0 else 1 <= bids_below ipo p.
Proof.
  intros Hok HN. assert (in_book (NUMBER_OF_COMPUTORS - 1)) as Hlast by (unfold in_book; lia).
  destruct (Z.leb_spec p ((prices ipo).[NUMBER_OF_COMPUTORS - 1])) as [Hle|Hgt].
  - apply sumZ_zero. intros i Hi. pose proof (bo_sorted _ Hok i (NUMBER_OF_COMPUTORS - 1) Hi Hlast ltac:(unfold in_book in *; lia)).
    replace (_ <? p) with false by lia. done.
  - pose proof (over_elem (fun _ price => Z.b2z (price <? p)) ipo _ ltac:(intros; apply b2z_range) Hlast) as Hone.
    cbn in Hone. replace (_ <? p) with true in Hone by lia. exact Hone.
Qed.

Record bid_inv (book0 : IPO) (price source i : Z) (st : IPO * list (Z * Z) * list Z * Z) : Prop := {
  bi_book : book_ok st.1.1.1;
  bi_rel : rel_ok silent_key st.1.1.2;
  bi_count : Z.of_nat (length st.1.1.2) <= i;
  bi_all : rel_all st.1.1.2 + locked st.1.1.1 = locked book0 + i * price;
  bi_stake : forall x, rel_of x st.1.1.2 + stake st.1.1.1 x = stake book0 x + (if decide (source = x) then i * price else 0);
  bi_reg : st.2 = Z.min i (bids_below book0 price);
  bi_below : bids_below st.1.1.1 price = bids_below book0 price - st.2;
  bi_silent : reacting_bids st.1.1.1 = 0
}.

Lemma locked_nonneg ipo : book_ok ipo -> 0 <= locked ipo.
Proof. intros Hok. apply sumZ_nonneg. intros i Hi. by apply bo_price. Qed.

Lemma register_bid_ok book0 price source contractIndex i st :
  0 < NUMBER_OF_COMPUTORS -> 0 < price -> source <> 0 -> silent_key source -> 0 <= i ->
  locked book0 + (i + 1) * price < 2 ^ 63 ->
  bid_inv book0 price source i st -> bid_inv book0 price source (i + 1) (register_bid price source contractIndex st).
Proof.
  destruct st as [[[ipo rel] flags] reg]. intros HN Hp Hs Hsilent Hi Hlim [H1 H2 H3 H4 H5 H6 H7 H8]. cbn [fst snd] in *.
  unfold register_bid. set (last := NUMBER_OF_COMPUTORS - 1) in *.
  assert (in_book last) as Hlast by (unfold in_book, last; lia).
  pose proof (bids_below_last ipo price H1 HN) as Hbelow. fold last in Hbelow. pose proof (locked_nonneg ipo H1) as Hlk.
  pose proof (rel_all_nonneg _ _ H2) as Hrn. pose proof (bo_price _ H1 last Hlast) as Hpl.
  destruct (Z.leb_spec price ((prices ipo).[last])) as [Hle|Hgt].
  - destruct (release_ok silent_key source price rel H2 ltac:(lia) ltac:(done) ltac:(done) ltac:(lia)) as (K1 & K2 & K3 & K4).
    split; cbn [fst snd]; try done; try lia. intros x. rewrite K4. specialize (H5 x). destruct (decide (source = x)); lia.
  - destruct (release_ok silent_key ((publicKeys ipo).[last]) ((prices ipo).[last]) rel H2 Hpl) as (K1 & K2 & K3 & K4).
    { intros Hz. by apply (bo_empty _ H1). } { intros _. by apply silent_bids. }
    { pose proof (over_elem (fun _ p => Z.max 0 p) ipo last ltac:(intros; lia) Hlast) as Hle'. cbn in Hle'.
      assert (over (fun _ p => Z.max 0 p) ipo = locked ipo) as Heq.
      { apply sumZ_ext. intros j Hj. pose proof (bo_price _ H1 j Hj). lia. } lia. }
    assert (book_except last (set_entry last source price ipo)) as Hex.
    { unfold in_book in *. split; cbn [publicKeys prices set_entry]; rewrite ?alen_aset; try apply H1; unfold in_book.
      - intros a b Ha Hb Hab Hna Hnb. rewrite !aget_aset_ne by done. by apply (bo_sorted _ H1).
      - intros b Hb Hlt. unfold last in Hlt. lia.
      - intros j Hj. destruct (decide (j = last)) as [->|]; [rewrite aget_aset_eq by (rewrite (bo_prices _ H1); lia); lia|].
        rewrite aget_aset_ne by done. by apply (bo_price _ H1).
      - intros j Hj. destruct (decide (j = last)) as [->|]; [rewrite aget_aset_eq by (rewrite (bo_keys _ H1); lia); done|].
        rewrite !aget_aset_ne by done. by apply (bo_empty _ H1). }
    assert (Z.of_nat (NC - 1) = last) as HNC by (unfold last; lia).
    destruct (move_up_ok (NC - 1) (set_entry last source price ipo)) as [Hok Hover]; [by rewrite HNC|by rewrite HNC|].
    assert (forall f, over f (move_up (NC - 1) (set_entry last source price ipo)) =
      over f ipo + f source price - f ((publicKeys ipo).[last]) ((prices ipo).[last])) as Hover'.
    { intros f. rewrite Hover. apply over_set; [apply H1|apply H1|done]. }
    split; cbn [fst snd]; [done|done|lia| | | | |].
    + unfold locked in *. rewrite Hover'. lia.
    + intros x. unfold stake in *. rewrite Hover', K4. specialize (H5 x). destruct (decide (source = x)); lia.
    + lia.
    + unfold bids_below in *. rewrite Hover', H7. replace (price <? price) with false by lia.
      replace ((prices ipo).[last] <? price) with true by lia. cbn. lia.
    + unfold reacting_bids in *. rewrite Hover', H8. pose proof (silent_bids ipo last H8 Hlast) as Hpl'. unfold silent_key in *.
      rewrite Hsilent, Hpl'. done.
Qed.

Context `{!Ledger S}.

(** ** Refunds *)
Lemma silent_contract key : key <> 0 -> silent_key key -> reacting key = false.
Proof. intros Hk. unfold silent_key, reacting_key. by rewrite (proj2 (Z.eqb_neq key 0) Hk). Qed.

(** A notifier that does nothing for an entity that is no contract, or a contract that does not react. *)
Definition quiet (notify : Z -> Z -> Z -> Z -> @World S -> option (@World S)) : Prop :=
  forall key a type w, reacting key = false -> notify 0 key a type w = Some w.

Lemma qpi_quiet : quiet (qpiNotifyPostIncomingTransfer env callSystemProc).
Proof.
  intros key a type w Hk. unfold qpiNotifyPostIncomingTransfer, reacting in *. destruct (isPublicKeyOfContract env key); [|done]. cbn [negb orb andb] in *.
  destruct (a <=? 0); [done|]. apply orb_false_iff in Hk as [_ ->]. done.
Qed.
Lemma processor_quiet : quiet (notifyContractOfIncomingTransfer env contractProcessor).
Proof.
  intros key a type w Hk. unfold notifyContractOfIncomingTransfer, reacting in *. destruct (isPublicKeyOfContract env key); [|by rewrite orb_true_r]. cbn [negb andb] in *.
  destruct (a <=? 0); [done|]. apply orb_false_iff in Hk as [-> _]. done.
Qed.

(** Only the ledger and the log change. *)
Record ledger_only (w w' : @World S) : Prop := {
  lo_reserves : w_reserves w' = w_reserves w;
  lo_error : contractError w' = contractError w;
  lo_tracker : contractActionTracker w' = contractActionTracker w
}.

Record refunded (released : list (Z * Z)) (w w' : @World S) : Prop := {
  rf_rest : ledger_only w w';
  rf_ok : ledger_ok (w_ledger w');
  rf_total : total_of (w_ledger w') = total_of (w_ledger w) + rel_all released;
  rf_balance : forall y, y <> 0 -> balance_of (w_ledger w') y = balance_of (w_ledger w) y + rel_of y released
}.

Lemma refund_ok notify released : quiet notify -> forall w,
  ledger_ok (w_ledger w) -> rel_ok silent_key released -> total_of (w_ledger w) + rel_all released < total_limit ->
  Z.of_nat (length released) <= free_entities (w_ledger w) ->
  exists w', refund notify released w = Some w' /\ refunded released w w'.
Proof.
  intros Hq. induction released as [|[k a] l IH]; intros w Hok Hrel Hlim Hfree; cbn [refund].
  - exists w. split; [done|]. split; try done; cbn; lia.
  - apply Forall_cons in Hrel as [(Ha & Hk0 & Hpk) Hl]. cbn [rel_all foldr length] in Hlim, Hfree. fold (rel_all l) in Hlim.
    pose proof (rel_all_nonneg _ _ Hl) as Hn. destruct (Z.eqb_spec a 0) as [->|Hne].
    + destruct (IH w Hok Hl ltac:(lia) ltac:(lia)) as (w' & -> & [H1 H2 H3 H4]). exists w'. split; [done|].
      split; [done|done|done|].
      intros y Hy. cbn [rel_of foldr]. rewrite H4 by done. fold (rel_of y l). case_decide; lia.
    + assert (k <> 0) as Hk by (intros ->; by apply Hne, Hk0). unfold refund_one.
      destruct (credit_law (w_ledger w) k a Hok Hk Ha ltac:(lia) ltac:(lia)) as (s1 & -> & Hok1 & Ht1 & Hf1 & Hb1).
      rewrite Hq by (apply silent_contract; auto).
      destruct (IH (log_money (QuTransfer 0 k a) (with_ledger s1 w)) Hok1 Hl ltac:(cbn; lia) ltac:(cbn; lia)) as (w' & -> & [H1 H2 H3 H4]).
      exists w'. split; [done|]. destruct H1 as [R1 R2 R3]. cbn [w_ledger log_money with_ledger] in *.
      split; [by split|done| |]; cbn [rel_all rel_of foldr]; [fold (rel_all l); lia|].
      intros y Hy. rewrite H4, Hb1 by done. fold (rel_of y l). destruct (decide (y = k)), (decide (k = y)); (lia || congruence).
Qed.

Lemma bids_below_nonneg ipo p : 0 <= bids_below ipo p.
Proof. apply sumZ_nonneg. intros. apply b2z_range. Qed.

Lemma register_bids_ok book price source contractIndex quantity flags :
  book_ok book -> reacting_bids book = 0 -> 0 < price -> source <> 0 -> silent_key source -> 0 < quantity <= NUMBER_OF_COMPUTORS ->
  locked book + quantity * price < 2 ^ 63 ->
  bid_inv book price source quantity
    (for_loop (Z.to_nat quantity) 0 (fun _ => register_bid price source contractIndex) (book, [], flags, 0)).
Proof.
  intros Hbook Hcb Hpr Hs Hsilent Hqu Hlim. pose (P := bid_inv book price source).
  assert (P (0 + Z.of_nat (Z.to_nat quantity)) (for_loop (Z.to_nat quantity) 0 (fun _ => register_bid price source contractIndex)
    (book, [], flags, 0))) as HP.
  { apply (for_loop_ind P).
    - pose proof (bids_below_nonneg book price). split; cbn [fst snd]; try done; try lia.
      + apply Forall_nil_2.
      + cbn. lia.
      + intros x. cbn. case_decide; lia.
    - intros j st' Hj Hst. apply register_bid_ok; try done; try lia. nia. }
  by rewrite Z2Nat.id, Z.add_0_l in HP by lia.
Qed.

(** C17: a bid keeps the book sorted and complete and moves money only between the bidders and the book: if the
    price and quantity are valid and the bidder can pay, then exactly as many bids are
    registered as the book has entries below the price (at most the quantity), every entity's
    balance plus its stake in the book is unchanged, and so is the total; the arrays of
    released entities hold at most NUMBER_OF_COMPUTORS entries.  Otherwise the call returns -1
    and changes nothing.  The bid may come from a transaction or, through QPI, from a contract.  (No bidder is a contract that reacts to incoming transfers, that is,
    one with a procedure POST_INCOMING_TRANSFER, which could spend a refund at once; there is room in the spectrum for the refunded entities.) *)
Theorem bid_conserves qpi st price quantity source i contractIndex :
  let s := w_ledger (ipo_world st) in
  let book := ipo_book st in
  ledger_ok s -> book_ok book -> reacting_bids book = 0 -> silent_key source ->
  entity_index source s = Some i -> 0 <= i -> 0 <= quantity ->
  total_of s + locked book < total_limit -> NUMBER_OF_COMPUTORS <= free_entities s ->
  exists st' ret n, bidInContractIPO qpi price quantity source i contractIndex st = Some (st', ret, n) /\
    let s' := w_ledger (ipo_world st') in
    let book' := ipo_book st' in
    ledger_ok s' /\ book_ok book' /\ reacting_bids book' = 0 /\ n <= NUMBER_OF_COMPUTORS /\
    if decide (0 < price <= MAX_AMOUNT / NUMBER_OF_COMPUTORS /\ 0 < quantity <= NUMBER_OF_COMPUTORS /\
               price * quantity <= balance_of s source)
    then ret = Z.min quantity (bids_below book price) /\
      (forall y, y <> 0 -> balance_of s' y + stake book' y = balance_of s y + stake book y) /\
      total_of s' + locked book' = total_of s + locked book
    else ret = -1 /\ w_ledger (ipo_world st') = s /\ book' = book.
Proof.
  intros s book. destruct st as [book0 w]. cbn [ipo_book ipo_world] in s, book. subst book. rename book0 into book.
  intros Hok Hbook Hcb Hsilent Hidx Hi Hq Hlim Hfree. unfold bidInContractIPO. cbn [ipo_book ipo_world].
  destruct ((0 <? price) && (price <=? MAX_AMOUNT / NUMBER_OF_COMPUTORS) && (0 <? quantity) && (quantity <=? NUMBER_OF_COMPUTORS)) eqn:Hv.
  2: { eexists _, (-1), 0. split; [done|]. split_and!; try done; try lia. rewrite decide_False by lia. done. }
  assert (source <> 0) as Hs. { destruct (index_law s source Hok) as (i' & Hi' & Hc). rewrite Hidx in Hi'. simplify_eq.
    rewrite decide_True in Hc by done. apply Hc. }
  assert (0 < price <= MAX_AMOUNT / NUMBER_OF_COMPUTORS /\ 0 < quantity <= NUMBER_OF_COMPUTORS) as [Hpr Hqu] by lia.
  assert (price * quantity <= MAX_AMOUNT) as Hmax.
  { pose proof (Z.mul_div_le MAX_AMOUNT NUMBER_OF_COMPUTORS ltac:(lia)). nia. }
  rewrite s64_small by (unfold is_s64, MAX_AMOUNT in *; nia). fold s.
  pose proof (debit_law s source i (price * quantity) Hok Hidx Hi) as Hd.
  destruct (debit_entity i (price * quantity) s) as [s1 r]. destruct Hd as (Hok1 & -> & Hd).
  destruct (decide (price * quantity <= balance_of s source)) as [Hpay|Hpay].
  2: { rewrite bool_decide_false in * by lia. subst s1. eexists _, (-1), 0. split; [done|]. split_and!; try done; try lia.
       rewrite decide_False by lia. done. }
  rewrite bool_decide_true in * by nia. destruct Hd as (Ht1 & Hf1 & Hb1).
  pose proof (total_below s Hok) as Htl. pose proof (balance_range s source Hok Hs) as Hbr. pose proof (locked_nonneg book Hbook) as Hlk.
  pose proof (register_bids_ok book price source contractIndex quantity (contractStateChangeFlags (w_reserves w)) Hbook Hcb
    ltac:(lia) Hs Hsilent ltac:(lia) ltac:(nia)) as HP. cbn [w_reserves log_money with_ledger].
  destruct (for_loop (Z.to_nat quantity) 0 _ _) as [[[book' rel] flags'] reg].
  destruct HP as [H1 H2 H3 H4 H5 H6 H7 H8]. cbn [fst snd] in *. pose proof (locked_nonneg book' H1).
  match goal with |- context [refund ?f rel ?w0] => assert (quiet f) as Hquiet by (destruct qpi; [apply qpi_quiet|apply processor_quiet]);
    destruct (refund_ok f rel Hquiet w0 Hok1 H2 ltac:(cbn; lia) ltac:(cbn; lia)) as (w2 & -> & [_ K1 K2 K3]) end.
  cbn [w_ledger with_reserves log_money with_ledger] in *.
  eexists _, reg, _. split; [done|]. cbn [ipo_book ipo_world]. split_and!; try done; try lia. rewrite decide_True by lia. split_and!.
  - done.
  - intros y Hy. rewrite K3, Hb1 by done. specialize (H5 y). destruct (decide (y = source)), (decide (source = y)); (lia || congruence).
  - lia.
Qed.

(** ** Settlement *)
Definition bids (ipo : IPO) (x : Z) : Z := over (fun key _ => if decide (key = x) then 1 else 0) ipo.

(** What the first [i] bids get back at [finalPrice], and the shares they are given. *)
Definition change (ipo : IPO) (finalPrice : Z) (sel : Z -> bool) (i : nat) : Z :=
  sumZ (fun j => if sel ((publicKeys ipo).[j]) then (prices ipo).[j] - finalPrice else 0) i.
Definition share_of (iss y : Z) : position := mkPosition iss y QX_CONTRACT_INDEX y QX_CONTRACT_INDEX.
Definition awarded (ipo : IPO) (iss : Z) (q : position) (i : nat) : Z :=
  sumZ (fun j => if decide (q = share_of iss ((publicKeys ipo).[j])) then 1 else 0) i.

Lemma release_pos key amount released :
  0 < amount -> rel_ok silent_key released -> rel_all released + amount < 2 ^ 63 ->
  Forall (fun '(_, a) => 0 < a) released -> Forall (fun '(_, a) => 0 < a) (release key amount released).
Proof.
  intros Ha Hok Hlim Hf. induction Hf as [|[k a] l Hka Hl IH]; cbn [release]; [by repeat constructor|].
  apply Forall_cons in Hok as [_ Hok]. cbn [rel_all foldr] in Hlim. fold (rel_all l) in Hlim. pose proof (rel_all_nonneg _ _ Hok).
  destruct (_ =? _); constructor; try done.
  - rewrite s64_small; [|unfold is_s64]; lia.
  - apply IH; [done|lia].
Qed.

Lemma refund_all_refund notify released w :
  Forall (fun '(_, a) => 0 < a) released -> refund_all notify released w = refund notify released w.
Proof.
  intros Hf. revert w. induction Hf as [|[k a] l Ha Hl IH]; intros w; [done|]. cbn [refund_all refund].
  rewrite (proj2 (Z.eqb_neq a 0)) by lia. destruct (refund_one notify k a w); [apply IH|done].
Qed.

(** One share from the issuer's records to a bidder. *)
Record issuer_ok (iss own pos n : Z) (u : @Universe D) : Prop := {
  io_ok : universe_ok ka (assets u);
  io_own : in_table ka own;
  io_pos : in_table ka pos;
  io_iss : in_table ka iss;
  io_owner : exists no, (assets u).[own] = OWNERSHIP 0 QX_CONTRACT_INDEX iss no;
  io_possessor : (assets u).[pos] = POSSESSION 0 QX_CONTRACT_INDEX own n
}.

Hypothesis Hka : (2 <= ka <= 31)%nat.

Lemma issuer_can_transfer iss own pos n u :
  issuer_ok iss own pos n u -> 1 <= n ->
  can_transfer own pos 1 (assets u) = true /\ position_of (assets u) own pos = share_of iss 0 /\
  held ka (assets u) (share_of iss 0) = n.
Proof using Type Hka.
  intros [H1 H2 H3 H4 [no H5] H6] Hn. unfold can_transfer, position_of. rewrite H5, H6. cbn [rec_link rec_publicKey rec_managing].
  pose proof (pos_part_le ka Hka (assets u) pos (uo_nonneg _ _ H1) H3) as Hle. rewrite H6 in Hle. cbn [has_shares is_ownership rec_shares rec_link] in Hle.
  specialize (Hle eq_refl eq_refl). rewrite (uo_split _ _ H1 own H2) in Hle by (by rewrite H5). rewrite H5 in Hle. cbn [rec_shares] in Hle.
  split_and!; [|done|].
  - rewrite Z.eqb_refl. replace (no <? 1) with false by lia. by replace (n <? 1) with false by lia.
  - exact (held_unique ka Hka (assets u) pos 0 QX_CONTRACT_INDEX own n 0 QX_CONTRACT_INDEX iss no H1 H3 H6 H5).
Qed.

Lemma award_ok iss own pos n key u :
  issuer_ok iss own pos n u -> 1 <= n -> key <> 0 -> used ka (assets u) + 1 < 2 ^ Z.of_nat ka ->
  exists u' ok d, transferShareOwnershipAndPossession ka own pos key 1 u = Some (u', ok, d) /\
    issuer_ok iss own pos (n - 1) u' /\ used ka (assets u') <= used ka (assets u) + 2 /\
    (forall q, held ka (assets u') q = held ka (assets u) q - (if decide (q = share_of iss 0) then 1 else 0) +
       (if decide (q = share_of iss key) then 1 else 0)) /\
    (forall l, own_sum ka (assets u') l = own_sum ka (assets u) l) /\
    (forall j, in_table ka j -> (assets u).[j] <> EMPTY -> skeleton ((assets u').[j]) = skeleton ((assets u).[j])).
Proof using Type Hka.
  intros Hio Hn Hkey Hroom. destruct (issuer_can_transfer _ _ _ _ _ Hio Hn) as (Hcan & Hpos & Hheld). destruct Hio as [H1 H2 H3 H4 [no H5] H6].
  unfold transferShareOwnershipAndPossession. cbn [Z.leb Z.compare]. rewrite Hcan. cbn [negb]. unfold isZero. rewrite (proj2 (Z.eqb_neq key 0) Hkey).
  destruct (moveShares_ok ka Hka u own pos 1 (share_of iss key) H1 H2 H3 Hroom ltac:(lia) Hcan ltac:(by rewrite H5)) as (u' & dO & dP & Hm & _ & _ & Heff & _).
  rewrite Hpos in Heff. destruct Heff as [E1 E2 E3 E4 E5 E6 E7 E8]. rewrite H5, H6. cbn [rec_managing].
  change (moveShares ka own pos key QX_CONTRACT_INDEX key QX_CONTRACT_INDEX 1 u = Some (u', dO, dP)) in Hm. rewrite Hm.
  eexists _, true, _. split; [done|]. cbn [assets log_change add_log].
  pose proof (E5 own H2 ltac:(by rewrite H5)) as K1. pose proof (E5 pos H3 ltac:(by rewrite H6)) as K2. rewrite H5 in K1. rewrite H6 in K2.
  destruct ((assets u').[own]) as [| |p m i n1|] eqn:K3; try discriminate. injection K1 as -> -> ->.
  destruct ((assets u').[pos]) as [| | |p m i n2] eqn:K4; try discriminate. injection K2 as -> -> ->.
  split_and!; try done. split; cbn [assets log_change add_log]; try done; [by exists n1|]. rewrite K4. f_equal.
  pose proof (held_unique ka Hka (assets u') pos _ _ own n2 _ _ iss n1 E1 H3 K4 K3) as Hn2. fold (share_of iss 0) in Hn2.
  rewrite E2, Hheld, decide_True, decide_False in Hn2 by (done || (intros He; injection He; congruence)). lia.
Qed.

Record finish_inv (ipo : IPO) (fp iss own pos : Z) (u0 : @Universe D) (i : nat) (released : list (Z * Z)) (u : @Universe D) : Prop := {
  fi_rel : rel_ok silent_key released;
  fi_pos : Forall (fun '(_, a) => 0 < a) released;
  fi_count : (length released <= i)%nat;
  fi_all : rel_all released = change ipo fp (fun _ => true) i;
  fi_of : forall x, rel_of x released = change ipo fp (fun key => bool_decide (key = x)) i;
  fi_free : fp = 0 -> u = u0;
  fi_issuer : fp <> 0 -> issuer_ok iss own pos (NUMBER_OF_COMPUTORS - Z.of_nat i) u;
  fi_used : fp <> 0 -> used ka (assets u) <= used ka (assets u0) + 2 * Z.of_nat i;
  fi_held : fp <> 0 -> forall q, held ka (assets u) q =
    held ka (assets u0) q - (if decide (q = share_of iss 0) then Z.of_nat i else 0) + awarded ipo iss q i;
  fi_own : fp <> 0 -> forall l, own_sum ka (assets u) l = own_sum ka (assets u0) l;
  fi_keep : fp <> 0 -> forall j, in_table ka j -> (assets u0).[j] <> EMPTY -> skeleton ((assets u).[j]) = skeleton ((assets u0).[j])
}.

(** At a final price, everyone in the book bid at least that much. *)
Definition final_price (ipo : IPO) (fp : Z) : Prop := fp = 0 \/ 0 < fp /\ forall i, in_book i -> fp <= (prices ipo).[i].

Lemma change_bound ipo fp i : book_ok ipo -> 0 <= fp -> final_price ipo fp -> (i <= NC)%nat ->
  change ipo fp (fun _ => true) i <= locked ipo.
Proof.
  clear Hka. intros Hok Hfp Hfin Hi. unfold change, locked, over. etransitivity; [apply (sumZ_prefix _ i NC)|].
  - lia.
  - intros j Hj. destruct Hfin as [->|[_ Hfin]]; [pose proof (bo_price _ Hok j Hj)|pose proof (Hfin j Hj)]; lia.
  - apply sumZ_le. intros; lia.
Qed.

Lemma change_S ipo fp sel i :
  change ipo fp sel (Datatypes.S i) = change ipo fp sel i +
    (if sel ((publicKeys ipo).[Z.of_nat i]) then (prices ipo).[Z.of_nat i] - fp else 0).
Proof. done. Qed.

Lemma finish_release ipo fp i released :
  book_ok ipo -> reacting_bids ipo = 0 -> locked ipo < 2 ^ 63 -> 0 <= fp -> final_price ipo fp -> (i < NC)%nat ->
  let key := (publicKeys ipo).[Z.of_nat i] in
  let price := (prices ipo).[Z.of_nat i] in
  let released' := if fp <? price then release key (s64 (price - fp)) released else released in
  rel_ok silent_key released -> Forall (fun '(_, a) => 0 < a) released -> (length released <= i)%nat ->
  rel_all released = change ipo fp (fun _ => true) i ->
  (forall x, rel_of x released = change ipo fp (fun key => bool_decide (key = x)) i) ->
  rel_ok silent_key released' /\ Forall (fun '(_, a) => 0 < a) released' /\ (length released' <= Datatypes.S i)%nat /\
  rel_all released' = change ipo fp (fun _ => true) (Datatypes.S i) /\
  (forall x, rel_of x released' = change ipo fp (fun key => bool_decide (key = x)) (Datatypes.S i)).
Proof.
  clear Hka. intros Hok Hcb Hlim Hfp Hfin Hi key price released' H1 H2 H3 H4 H5.
  assert (in_book (Z.of_nat i)) as Hin by (unfold in_book; lia).
  pose proof (bo_price _ Hok _ Hin) as Hp. fold price in Hp.
  pose proof (change_bound ipo fp (Datatypes.S i) Hok Hfp Hfin ltac:(lia)) as Hb. rewrite change_S in Hb. fold key price in Hb.
  assert (is_s64 (price - fp)) as Hs.
  { pose proof (over_elem (fun _ p => Z.max 0 p) ipo (Z.of_nat i) ltac:(intros; lia) Hin) as Hle. cbn in Hle. fold price in Hle.
    assert (over (fun _ p => Z.max 0 p) ipo = locked ipo) as Heq.
    { apply sumZ_ext. intros j Hj. pose proof (bo_price _ Hok j Hj). lia. }
    destruct Hfin as [->|[_ Hfin]]; [|specialize (Hfin _ Hin); fold price in Hfin]; unfold is_s64; lia. }
  unfold released'. rewrite s64_small by done. destruct (Z.ltb_spec fp price) as [Hlt|Hge].
  - destruct (release_ok silent_key key (price - fp) released H1 ltac:(lia)) as (K1 & K2 & K3 & K4).
    + intros Hz. pose proof (bo_empty _ Hok _ Hin Hz) as He. fold price in He. lia.
    + intros _. by apply silent_bids.
    + lia.
    + split_and!; [done|apply release_pos; (done || lia)|lia| |].
      * rewrite K2, H4, change_S. done.
      * intros x. rewrite K4, H5, change_S. fold key price. case_decide; [rewrite bool_decide_true by done|rewrite bool_decide_false by done]; done.
  - assert (price = fp) as Heq.
    { destruct Hfin as [->|[_ Hfin]]; [lia|]. specialize (Hfin _ Hin). fold price in Hfin. lia. }
    split_and!; [done|done|lia| |].
    * rewrite H4, change_S. fold price. lia.
    * intros x. rewrite H5, change_S. fold key price. case_bool_decide; lia.
Qed.

Lemma finish_bids_ok ipo fp iss own pos u0 :
  book_ok ipo -> reacting_bids ipo = 0 -> locked ipo < 2 ^ 63 -> 0 <= fp -> final_price ipo fp ->
  (fp <> 0 -> used ka (assets u0) + 2 * NUMBER_OF_COMPUTORS < 2 ^ Z.of_nat ka) ->
  forall n i released u, (i + n = NC)%nat -> finish_inv ipo fp iss own pos u0 i released u ->
  exists released' u', finish_bids n ipo fp own pos (Z.of_nat i) released u = Some (released', u') /\
    finish_inv ipo fp iss own pos u0 NC released' u'.
Proof using Type Hka.
  intros Hok Hcb Hlim Hfp Hfin Hroom. induction n as [|n IH]; intros i released u Hi Hinv; cbn [finish_bids].
  { exists released, u. split; [done|]. by replace NC with i by lia. }
  destruct Hinv as [H1 H2 H3 H4 H5 H6 H7 H8 H9 H10 H11]. unfold finish_bid.
  pose proof (finish_release ipo fp i released Hok Hcb Hlim Hfp Hfin ltac:(lia) H1 H2 H3 H4 H5) as (K1 & K2 & K3 & K4 & K5).
  replace (Z.of_nat i + 1) with (Z.of_nat (Datatypes.S i)) by lia. destruct (Z.eqb_spec fp 0) as [->|Hne].
  - apply IH; [lia|]. by split.
  - destruct Hfin as [?|[Hpos Hfin]]; [done|].
    assert (in_book (Z.of_nat i)) as Hin by (unfold in_book; lia).
    assert ((publicKeys ipo).[Z.of_nat i] <> 0) as Hkey.
    { intros Hz. pose proof (bo_empty _ Hok _ Hin Hz). pose proof (Hfin _ Hin). lia. }
    specialize (H7 Hne). specialize (H8 Hne). specialize (H9 Hne). specialize (H10 Hne). specialize (H11 Hne). specialize (Hroom Hne).
    destruct (award_ok iss own pos _ _ u H7 ltac:(lia) Hkey ltac:(lia)) as (u' & ok & d & -> & E1 & E2 & E3 & E4 & E5).
    apply IH; [lia|]. split; try done; try lia; intros _.
    + by replace (NUMBER_OF_COMPUTORS - Z.of_nat (Datatypes.S i)) with (NUMBER_OF_COMPUTORS - Z.of_nat i - 1) by lia.
    + intros q. rewrite E3, H9. change (awarded ipo iss q (Datatypes.S i)) with
        (awarded ipo iss q i + (if decide (q = share_of iss ((publicKeys ipo).[Z.of_nat i])) then 1 else 0)). case_decide; lia.
    + intros l. by rewrite E4, H10.
    + intros j Hj Hnz. rewrite E5, H11; try done. intros He. specialize (H11 j Hj Hnz). rewrite He in H11. by destruct ((assets u0).[j]).
Qed.

Lemma change_total ipo fp : change ipo fp (fun _ => true) NC = locked ipo - fp * NUMBER_OF_COMPUTORS.
Proof.
  clear Hka. unfold change, locked, over. rewrite <- (sumZ_const fp NC). induction NC as [|n IH]; cbn [sumZ]; lia.
Qed.

Lemma change_of ipo fp x : change ipo fp (fun key => bool_decide (key = x)) NC = stake ipo x - fp * bids ipo x.
Proof.
  clear Hka. unfold change, stake, bids, over. induction NC as [|n IH]; cbn [sumZ]; [lia|]. rewrite IH.
  case_decide; [rewrite bool_decide_true by done|rewrite bool_decide_false by done]; lia.
Qed.

Lemma awarded_all ipo iss q :
  awarded ipo iss q NC = if decide (q = share_of iss (po_owner q)) then bids ipo (po_owner q) else 0.
Proof.
  clear Hka. unfold awarded, bids, over. destruct (decide (q = share_of iss (po_owner q))) as [Hq|Hq].
  - apply sumZ_ext. intros j _. destruct (decide (_ = po_owner q)) as [Heq|Hne].
    + by rewrite decide_True by (rewrite Heq; done).
    + rewrite decide_False; [done|]. intros ->. apply Hne. done.
  - apply sumZ_zero. intros j _. rewrite decide_False; [done|]. intros ->. apply Hq. done.
Qed.

Lemma finish_start ipo fp iss own pos u :
  (fp <> 0 -> issuer_ok iss own pos NUMBER_OF_COMPUTORS u) -> finish_inv ipo fp iss own pos u 0 [] u.
Proof.
  clear Hka. intros Hio. split; try done; try (intros; cbn; lia); try apply Forall_nil_2.
  - intros Hne. rewrite Z.sub_0_r. auto.
  - intros _ q. cbn. case_decide; lia.
Qed.

(** The shares of the new contract: one per bid, in the hands of the bidder. *)
Definition shares_given (contractIndex : Z) (ipo : IPO) (u u' : @Universe D) : Prop :=
  exists iss, in_table ka iss /\ (assets u).[iss] = EMPTY /\
    (assets u').[iss] = ISSUANCE 0 (assetName contractIndex) 0 CONTRACT_ASSET_UNIT_OF_MEASUREMENT /\
    (forall q, held ka (assets u') q = held ka (assets u) q +
       (if decide (q = share_of iss (po_owner q)) then bids ipo (po_owner q) else 0)) /\
    (forall l, own_sum ka (assets u') l = own_sum ka (assets u) l + (if decide (l = iss) then NUMBER_OF_COMPUTORS else 0)).

(** Without a price, the loop over the bids releases every bid in full. *)
Lemma finish_refunds ipo u own pos :
  book_ok ipo -> reacting_bids ipo = 0 -> locked ipo < 2 ^ 63 ->
  exists released, finish_bids NC ipo 0 own pos 0 [] u = Some (released, u) /\
    rel_ok silent_key released /\ Forall (fun '(_, a) => 0 < a) released /\ (length released <= NC)%nat /\
    rel_all released = locked ipo - 0 * NUMBER_OF_COMPUTORS /\ (forall x, rel_of x released = stake ipo x - 0 * bids ipo x).
Proof using Type Hka.
  intros Hok Hcb Hlim.
  destruct (finish_bids_ok ipo 0 0 own pos u Hok Hcb Hlim ltac:(lia) ltac:(by left) ltac:(done) NC 0 [] u ltac:(lia)
    (finish_start ipo 0 0 own pos u ltac:(done))) as (released & u' & Heq & [F1 F2 F3 F4 F5 F6 _ _ _ _ _]).
  rewrite F6 in Heq by done. exists released. rewrite <- change_total. split_and!; try done. intros x. by rewrite F5, <- change_of.
Qed.

(** The part of the settlement that gives out the shares and collects the refunds. *)
Lemma finish_shares contractIndex ipo u :
  0 < NUMBER_OF_COMPUTORS -> book_ok ipo -> reacting_bids ipo = 0 -> locked ipo < 2 ^ 63 -> universe_ok ka (assets u) ->
  used ka (assets u) + 2 * NUMBER_OF_COMPUTORS + 3 < 2 ^ Z.of_nat ka ->
  let lowest := (prices ipo).[NUMBER_OF_COMPUTORS - 1] in
  let taken := exists j, in_table ka j /\ same_issuance 0 (assetName contractIndex) ((assets u).[j]) = true in
  forall w, exists fp released u',
  finishIPO contractIndex ipo w u =
    match refund_all (notifyContractOfIncomingTransfer env contractProcessor) released w with
    | None => None
    | Some w =>
        let w := if 0 <? fp then
            with_error contractIndex NoContractError
              (with_reserves (setContractFeeReserve contractIndex (s64 (fp * NUMBER_OF_COMPUTORS)) (w_reserves w)) w)
          else with_error contractIndex ContractErrorIPOFailed w in
        Some (w, u')
    end /\
  0 <= fp /\ (fp = 0 /\ (lowest = 0 \/ taken) /\ u' = u \/ fp = lowest /\ lowest <> 0 /\ ~ taken /\ shares_given contractIndex ipo u u') /\
  universe_ok ka (assets u') /\ rel_ok silent_key released /\ Forall (fun '(_, a) => 0 < a) released /\
  (length released <= NC)%nat /\ rel_all released = locked ipo - fp * NUMBER_OF_COMPUTORS /\
  (forall x, rel_of x released = stake ipo x - fp * bids ipo x).
Proof using Type Hka.
  intros HN Hok Hcb Hlim Hu Hroom lowest taken w.
  assert (in_book (NUMBER_OF_COMPUTORS - 1)) as Hlast by (unfold in_book; lia).
  pose proof (bo_price _ Hok _ Hlast) as Hlow. fold lowest in Hlow. unfold finishIPO. fold lowest.
  assert (final_price ipo lowest) as Hfin.
  { destruct (decide (lowest = 0)); [by left|]. right. split; [lia|]. intros j Hj. apply (bo_sorted _ Hok); try done. unfold in_book in Hj. lia. }
  destruct (Z.eqb_spec lowest 0) as [Hz|Hnz]; cbn [negb].
  { destruct (finish_refunds ipo u 0 0 Hok Hcb Hlim) as (released & Heq & F1 & F2 & F3 & F4 & F5). rewrite Hz, Heq. exists 0, released, u.
    split_and!; try done. left. split_and!; auto. }
  assert (0 <= used ka (assets u)) as Hu0 by apply countZ_range.
  destruct (issueAsset_cases ka Hka u 0 (assetName contractIndex) 0 CONTRACT_ASSET_UNIT_OF_MEASUREMENT NUMBER_OF_COMPUTORS QX_CONTRACT_INDEX
    Hu ltac:(lia) ltac:(pose proof (asset_cap ka Hka); lia)) as (iss & Hiss & [[-> Hsame]|(o & p & -> & Hfresh & He & Ho & Hp & Hused & Hu3 & Hheld & Hown & Hother & A1 & A2 & A3)]).
  - cbn [Z.eqb].  destruct (finish_refunds ipo u 0 0 Hok Hcb Hlim) as (released & Heq & F1 & F2 & F3 & F4 & F5). rewrite Heq. exists 0, released, u.
    split_and!; try done. left. split_and!; auto. right. by exists iss.
  - replace (NUMBER_OF_COMPUTORS =? 0) with false by lia.
    match type of Hu3 with universe_ok _ (assets ?x) => set (u3 := x) in * end.
    destruct (finish_bids_ok ipo lowest iss o p u3 Hok Hcb Hlim ltac:(lia) Hfin ltac:(intros _; lia) NC 0 [] u3 ltac:(lia)
      (finish_start ipo lowest iss o p u3 (fun _ => Build_issuer_ok _ _ _ _ _ Hu3 Ho Hp Hiss (ex_intro _ _ A2) A3)))
      as (released & u' & Heq & [F1 F2 F3 F4 F5 _ F7 _ F9 F10 F11]).
    change (Z.of_nat 0) with 0 in Heq. rewrite Heq. exists lowest, released, u'.
    split_and!; try done.
    + right. split_and!; try done.
      * intros (j & Hj & Hsame). rewrite Hfresh in Hsame by done. done.
      * exists iss. split_and!; try done.
        -- specialize (F11 Hnz iss Hiss ltac:(by rewrite A1)). rewrite A1 in F11. destruct ((assets u').[iss]); try discriminate. exact F11.
        -- intros q. rewrite F9, Hheld, awarded_all by done. fold (share_of iss 0). case_decide; lia.
        -- intros l. by rewrite F10, Hown.
    + apply (io_ok _ _ _ _ _ (F7 Hnz)).
    + by rewrite F4, change_total.
    + intros x. by rewrite F5, change_of.
Qed.

(** C16: the end of an IPO.  If the lowest bid is not empty and the contract's asset name is still free, every bid
    pays the lowest price and gets one share: each bidder's stake above that price returns
    to its balance, the asset is issued with NUMBER_OF_COMPUTORS shares that are all held by the bidders,
    one per bid, the proceeds become the contract's fee reserve, and its error is
    cleared.  Otherwise every bid is refunded in full, no asset or reserve changes, and the contract is marked
    as failed.  In both cases no money is lost: what leaves the book is in the ledger or in
    the reserve.  Contracts may be among the bidders.  (No bidder is a contract that reacts to incoming transfers, that is, one with a procedure POST_INCOMING_TRANSFER;
    spectrum and universe have room for the refunded entities and the new records.) *)
Theorem finish_settles contractIndex ipo (w : @World S) (u : @Universe D) :
  let s := w_ledger w in
  0 < NUMBER_OF_COMPUTORS -> ledger_ok s -> book_ok ipo -> reacting_bids ipo = 0 -> universe_ok ka (assets u) ->
  total_of s + locked ipo < total_limit -> NUMBER_OF_COMPUTORS <= free_entities s ->
  used ka (assets u) + 2 * NUMBER_OF_COMPUTORS + 3 < 2 ^ Z.of_nat ka ->
  0 <= contractIndex < alen (contractError w) -> contractIndex < alen (contractFeeReserves (w_reserves w)) ->
  let lowest := (prices ipo).[NUMBER_OF_COMPUTORS - 1] in
  let taken := exists j, in_table ka j /\ same_issuance 0 (assetName contractIndex) ((assets u).[j]) = true in
  exists w' u' fp, finishIPO contractIndex ipo w u = Some (w', u') /\
    let s' := w_ledger w' in
    ledger_ok s' /\ universe_ok ka (assets u') /\
    (forall y, y <> 0 -> balance_of s' y = balance_of s y + stake ipo y - fp * bids ipo y) /\
    total_of s' + fp * NUMBER_OF_COMPUTORS = total_of s + locked ipo /\
    (fp = lowest /\ 0 < lowest /\ ~ taken /\ shares_given contractIndex ipo u u' /\
       getContractFeeReserve contractIndex (w_reserves w') = fp * NUMBER_OF_COMPUTORS /\
       (contractError w').[contractIndex] = NoContractError \/
     fp = 0 /\ (lowest = 0 \/ taken) /\ u' = u /\ w_reserves w' = w_reserves w /\
       (contractError w').[contractIndex] = ContractErrorIPOFailed).
Proof using Type Hka.
  intros s HN Hok Hbook Hcb Hu Hlim Hfree Hroom Hce Hcf lowest taken.
  pose proof (total_below s Hok) as Htl. pose proof (balance_range s 1 Hok ltac:(lia)) as Hb1.
  destruct (finish_shares contractIndex ipo u HN Hbook Hcb ltac:(lia) Hu Hroom w) as (fp & released & u' & -> & Hfp & Hcase & Hu' & F1 & F2 & F3 & F4 & F5).
  fold lowest taken in Hcase. rewrite refund_all_refund by done.
  assert (0 <= fp * NUMBER_OF_COMPUTORS) as Hpay by nia.
  destruct (refund_ok _ released processor_quiet w Hok F1 ltac:(fold s; lia) ltac:(fold s; lia)) as (w1 & -> & [[R1 R2 R3] K1 K2 K3]).
  fold s in K2, K3. rewrite F4 in K2. cbv zeta.
  assert (forall y, y <> 0 -> balance_of (w_ledger w1) y = balance_of s y + stake ipo y - fp * bids ipo y) as Hbal.
  { intros y Hy. rewrite K3, F5 by done. lia. }
  destruct Hcase as [(-> & Hwhy & ->)|(-> & Hnz & Hfree' & Hgiven)].
  - eexists _, u, 0. cbn [Z.ltb Z.compare]. split; [done|]. cbn [w_ledger w_reserves contractError with_error].
    split_and!; try done; try lia. right. split_and!; try done. apply aget_aset_eq. by rewrite R2.
  - replace (0 <? lowest) with true by lia. eexists _, u', lowest. split; [done|].
    cbn [w_ledger w_reserves contractError with_error with_reserves]. split_and!; try done; try lia.
    left. split_and!; try done; try lia; unfold getContractFeeReserve, setContractFeeReserve; cbn [contractFeeReserves].
    + rewrite R1, aget_aset_eq by lia. apply s64_small. unfold is_s64.
      pose proof (rel_all_nonneg _ _ F1). lia.
    + rewrite R2. by apply aget_aset_eq.
Qed.
End Ipo.

(** ** A concrete run: a bid of contract 1 and one of a user, universe and spectrum of 16 slots *)
Definition ex_ipo : IPO := mkIPO [1; 1001] [9; 4].
Definition ex_market : @Universe Z :=
  mkUniverse (replicate 16 EMPTY) (replicate 31 0) [0]
    (mkLists NO_ASSET_INDEX (replicate 16 NO_ASSET_INDEX) (replicate 16 NO_ASSET_INDEX)) [].

Section Run.
#[local] Instance ipo_run_ops : LedgerOps (@SpectrumState Z) := bank_ops.
#[local] Instance ipo_run_ledger : Ledger (@SpectrumState Z) := bank_ledger.

Lemma ex_book_ok : book_ok 2 ex_ipo.
Proof.
  assert (forall i, in_book 2 i -> i = 0 \/ i = 1) as Hin by (unfold in_book; intros; lia).
  split; try done.
  - intros i j Hi Hj. apply Hin in Hi as [-> | ->], Hj as [-> | ->]; vm_compute; done.
  - intros i Hi. apply Hin in Hi as [-> | ->]; vm_compute; done.
  - intros i Hi. apply Hin in Hi as [-> | ->]; vm_compute; done.
Qed.

(** Contract 2, with 500 qu, bids 6 twice through QPI: only one of the bids beats the bid of 4. *)
Lemma bid_conserves_witness :
  exists i st' n, entity_index 2 ex_bank = Some i /\ isPublicKeyOfContract ex_env 2 = true /\
    bidInContractIPO 2 ex_env ex_call ex_call true 6 2 2 i 3 (mkIpoState ex_ipo ex_world) = Some (st', 1, n) /\ stake 2 (ipo_book st') 2 = 6 /\ balance_of (w_ledger (ipo_world st')) 2 = 494.
Proof.
  assert (exists i, entity_index 2 ex_bank = Some i /\ 0 <= i) as (i & Hi & Hpos) by (eexists; split; vm_compute; [done|discriminate]).
  destruct (bid_conserves 2 ex_env ex_call ex_call true (mkIpoState ex_ipo ex_world) 6 2 2 i 3 ltac:(exact ex_bank_ok) ex_book_ok
    ltac:(vm_compute; reflexivity) ltac:(vm_compute; reflexivity) Hi Hpos ltac:(lia) ltac:(vm_compute; reflexivity) ltac:(vm_compute; discriminate))
    as (st' & ret & n & Heq & H). cbv zeta in H. destruct H as (_ & _ & _ & _ & H). apply if_decide_true in H; [|vm_compute; split_and!; first [reflexivity|discriminate]].
  destruct H as (Hret & _). exists i, st', n. rewrite Hret in Heq. split; [exact Hi|]. split; [reflexivity|]. split; [exact Heq|]. vm_compute in Hi. injection Hi as <-. vm_compute in Heq. injection Heq as <- _. split; vm_compute; reflexivity.
Defined.

Lemma finish_settles_witness :
  exists w' u' fp, finishIPO 2 ex_env ex_call 4 (fun _ => 77) 3 ex_ipo ex_world ex_market = Some (w', u') /\
    total_of (w_ledger w') + fp * 2 = total_of (w_ledger ex_world) + 13.
Proof.
  destruct (finish_settles 2 ex_env ex_call 4 (fun _ => 77) ltac:(lia) 3 ex_ipo ex_world ex_market ltac:(lia) ltac:(exact ex_bank_ok) ex_book_ok
    ltac:(vm_compute; reflexivity) (empty_universe_ok 4 ltac:(lia)) ltac:(vm_compute; reflexivity) ltac:(vm_compute; discriminate)
    ltac:(vm_compute; reflexivity) ltac:(split; vm_compute; (done || discriminate)) ltac:(vm_compute; reflexivity))
    as (w' & u' & fp & H1 & _ & _ & _ & H2 & _).
  exists w', u', fp. split; [exact H1|]. exact H2.
Defined.
End Run.

(** The quantity of a bid through QPI is narrowed to 16 bits: 65537 is a bid for one share. *)
Example bidInIPO_narrows (env : ContractEnv) (call : Z -> Z -> Z -> Z -> @World (@SpectrumState Z) -> option (@World (@SpectrumState Z))) :
  forall self id c price st,
    @bidInIPO 2 env _ bank_ops call call 0 self id c price 65537 st = @bidInIPO 2 env _ bank_ops call call 0 self id c price 1 st.
Proof. reflexivity. Qed.
