(* ===== verification/RevenueTable.v ===== *)
(** * The table of transaction points (src/revenue.h)

    4096 * ln(tx + 1), rounded, for up to 4096 transactions per tick.  The source asks for a strictly
    monotonic table; its static_assert looks at the last two entries only. *)
From S2P Require Import Prelude.

Definition gTxRevenuePoints : list Z :=
  [
   0; 2839; 4500; 5678; 6592; 7339; 7970; 8517; 9000; 9431; 9822; 10178; 10506; 10810; 11092; 11357; 11605; 11839; 12060; 12271;
   12470; 12661; 12843; 13017; 13185; 13345; 13500; 13649; 13792; 13931; 14066; 14196; 14322; 14444; 14563; 14678; 14790; 14900; 15006; 15110;
   15211; 15309; 15406; 15500; 15592; 15682; 15770; 15856; 15941; 16024; 16105; 16184; 16262; 16339; 16414; 16488; 16560; 16632; 16702; 16770;
   16838; 16905; 16970; 17035; 17098; 17161; 17222; 17283; 17343; 17402; 17460; 17517; 17574; 17629; 17684; 17739; 17792; 17845; 17897; 17949;
   18000; 18050; 18100; 18149; 18197; 18245; 18292; 18339; 18385; 18431; 18476; 18521; 18566; 18609; 18653; 18696; 18738; 18780; 18822; 18863;
   18904; 18944; 18984; 19023; 19063; 19101; 19140; 19178; 19216; 19253; 19290; 19327; 19363; 19399; 19435; 19471; 19506; 19541; 19575; 19610;
   19644; 19677; 19711; 19744; 19777; 19809; 19842; 19874; 19906; 19937; 19969; 20000; 20031; 20062; 20092; 20122; 20152; 20182; 20212; 20241;
   20270; 20299; 20328; 20356; 20385; 20413; 20441; 20469; 20496; 20524; 20551; 20578; 20605; 20631; 20658; 20684; 20710; 20736; 20762; 20788;
   20813; 20839; 20864; 20889; 20914; 20939; 20963; 20988; 21012; 21036; 21060; 21084; 21108; 21131; 21155; 21178; 21202; 21225; 21248; 21270;
   21293; 21316; 21338; 21360; 21383; 21405; 21427; 21448; 21470; 21492; 21513; 21535; 21556; 21577; 21598; 21619; 21640; 21661; 21681; 21702;
   21722; 21743; 21763; 21783; 21803; 21823; 21843; 21863; 21882; 21902; 21921; 21941; 21960; 21979; 21998; 22017; 22036; 22055; 22074; 22092;
   22111; 22129; 22148; 22166; 22184; 22203; 22221; 22239; 22257; 22274; 22292; 22310; 22327; 22345; 22362; 22380; 22397; 22414; 22432; 22449;
   22466; 22483; 22500; 22516; 22533; 22550; 22566; 22583; 22599; 22616; 22632; 22649; 22665; 22681; 22697; 22713; 22729; 22745; 22761; 22777;
   22792; 22808; 22824; 22839; 22855; 22870; 22885; 22901; 22916; 22931; 22946; 22961; 22976; 22991; 23006; 23021; 23036; 23051; 23065; 23080;
   23095; 23109; 23124; 23138; 23153; 23167; 23181; 23195; 23210; 23224; 23238; 23252; 23266; 23280; 23294; 23308; 23322; 23335; 23349; 23363;
   23376; 23390; 23403; 23417; 23430; 23444; 23457; 23470; 23484; 23497; 23510; 23523; 23536; 23550; 23563; 23576; 23588; 23601; 23614; 23627;
   23640; 23653; 23665; 23678; 23691; 23703; 23716; 23728; 23741; 23753; 23765; 23778; 23790; 23802; 23815; 23827; 23839; 23851; 23863; 23875;
   23887; 23899; 23911; 23923; 23935; 23947; 23959; 23971; 23982; 23994; 24006; 24017; 24029; 24041; 24052; 24064; 24075; 24087; 24098; 24109;
   24121; 24132; 24143; 24155; 24166; 24177; 24188; 24200; 24211; 24222; 24233; 24244; 24255; 24266; 24277; 24288; 24298; 24309; 24320; 24331;
   24342; 24352; 24363; 24374; 24384; 24395; 24406; 24416; 24427; 24437; 24448; 24458; 24469; 24479; 24490; 24500; 24510; 24521; 24531; 24541;
   24551; 24561; 24572; 24582; 24592; 24602; 24612; 24622; 24632; 24642; 24652; 24662; 24672; 24682; 24692; 24702; 24712; 24721; 24731; 24741;
   24751; 24760; 24770; 24780; 24789; 24799; 24809; 24818; 24828; 24837; 24847; 24856; 24866; 24875; 24885; 24894; 24903; 24913; 24922; 24931;
   24941; 24950; 24959; 24968; 24978; 24987; 24996; 25005; 25014; 25023; 25033; 25042; 25051; 25060; 25069; 25078; 25087; 25096; 25105; 25114;
   25122; 25131; 25140; 25149; 25158; 25167; 25175; 25184; 25193; 25202; 25210; 25219; 25228; 25236; 25245; 25254; 25262; 25271; 25279; 25288;
   25296; 25305; 25313; 25322; 25330; 25339; 25347; 25356; 25364; 25372; 25381; 25389; 25397; 25406; 25414; 25422; 25430; 25439; 25447; 25455;
   25463; 25471; 25480; 25488; 25496; 25504; 25512; 25520; 25528; 25536; 25544; 25552; 25560; 25568; 25576; 25584; 25592; 25600; 25608; 25616;
   25624; 25631; 25639; 25647; 25655; 25663; 25670; 25678; 25686; 25694; 25701; 25709; 25717; 25725; 25732; 25740; 25747; 25755; 25763; 25770;
   25778; 25785; 25793; 25800; 25808; 25816; 25823; 25831; 25838; 25845; 25853; 25860; 25868; 25875; 25882; 25890; 25897; 25905; 25912; 25919;
   25927; 25934; 25941; 25948; 25956; 25963; 25970; 25977; 25985; 25992; 25999; 26006; 26013; 26020; 26027; 26035; 26042; 26049; 26056; 26063;
   26070; 26077; 26084; 26091; 26098; 26105; 26112; 26119; 26126; 26133; 26140; 26147; 26154; 26161; 26168; 26174; 26181; 26188; 26195; 26202;
   26209; 26215; 26222; 26229; 26236; 26243; 26249; 26256; 26263; 26270; 26276; 26283; 26290; 26296; 26303; 26310; 26316; 26323; 26330; 26336;
   26343; 26349; 26356; 26362; 26369; 26376; 26382; 26389; 26395; 26402; 26408; 26415; 26421; 26428; 26434; 26440; 26447; 26453; 26460; 26466;
   26473; 26479; 26485; 26492; 26498; 26504; 26511; 26517; 26523; 26530; 26536; 26542; 26549; 26555; 26561; 26567; 26574; 26580; 26586; 26592;
   26598; 26605; 26611; 26617; 26623; 26629; 26635; 26642; 26648; 26654; 26660; 26666; 26672; 26678; 26684; 26690; 26696; 26702; 26708; 26714;
   26721; 26727; 26733; 26739; 26744; 26750; 26756; 26762; 26768; 26774; 26780; 26786; 26792; 26798; 26804; 26810; 26816; 26822; 26827; 26833;
   26839; 26845; 26851; 26857; 26862; 26868; 26874; 26880; 26886; 26891; 26897; 26903; 26909; 26914; 26920; 26926; 26932; 26937; 26943; 26949;
   26954; 26960; 26966; 26971; 26977; 26983; 26988; 26994; 26999; 27005; 27011; 27016; 27022; 27027; 27033; 27039; 27044; 27050; 27055; 27061;
   27066; 27072; 27077; 27083; 27088; 27094; 27099; 27105; 27110; 27116; 27121; 27127; 27132; 27138; 27143; 27148; 27154; 27159; 27165; 27170;
   27175; 27181; 27186; 27192; 27197; 27202; 27208; 27213; 27218; 27224; 27229; 27234; 27240; 27245; 27250; 27255; 27261; 27266; 27271; 27276;
   27282; 27287; 27292; 27297; 27303; 27308; 27313; 27318; 27323; 27329; 27334; 27339; 27344; 27349; 27354; 27360; 27365; 27370; 27375; 27380;
   27385; 27390; 27396; 27401; 27406; 27411; 27416; 27421; 27426; 27431; 27436; 27441; 27446; 27451; 27456; 27461; 27466; 27471; 27476; 27481;
   27486; 27491; 27496; 27501; 27506; 27511; 27516; 27521; 27526; 27531; 27536; 27541; 27546; 27551; 27556; 27560; 27565; 27570; 27575; 27580;
   27585; 27590; 27595; 27599; 27604; 27609; 27614; 27619; 27624; 27628; 27633; 27638; 27643; 27648; 27653; 27657; 27662; 27667; 27672; 27676;
   27681; 27686; 27691; 27695; 27700; 27705; 27710; 27714; 27719; 27724; 27728; 27733; 27738; 27743; 27747; 27752; 27757; 27761; 27766; 27771;
   27775; 27780; 27785; 27789; 27794; 27798; 27803; 27808; 27812; 27817; 27821; 27826; 27831; 27835; 27840; 27844; 27849; 27853; 27858; 27863;
   27867; 27872; 27876; 27881; 27885; 27890; 27894; 27899; 27903; 27908; 27912; 27917; 27921; 27926; 27930; 27935; 27939; 27944; 27948; 27953;
   27957; 27962; 27966; 27970; 27975; 27979; 27984; 27988; 27993; 27997; 28001; 28006; 28010; 28014; 28019; 28023; 28028; 28032; 28036; 28041;
   28045; 28049; 28054; 28058; 28062; 28067; 28071; 28075; 28080; 28084; 28088; 28093; 28097; 28101; 28106; 28110; 28114; 28118; 28123; 28127;
   28131; 28135; 28140; 28144; 28148; 28152; 28157; 28161; 28165; 28169; 28174; 28178; 28182; 28186; 28190; 28195; 28199; 28203; 28207; 28211;
   28216; 28220; 28224; 28228; 28232; 28236; 28241; 28245; 28249; 28253; 28257; 28261; 28265; 28270; 28274; 28278; 28282; 28286; 28290; 28294;
   28298; 28302; 28306; 28311; 28315; 28319; 28323; 28327; 28331; 28335; 28339; 28343; 28347; 28351; 28355; 28359; 28363; 28367; 28371; 28375;
   28379; 28383; 28387; 28391; 28395; 28399; 28403; 28407; 28411; 28415; 28419; 28423; 28427; 28431; 28435; 28439; 28443; 28447; 28451; 28455;
   28459; 28463; 28467; 28471; 28474; 28478; 28482; 28486; 28490; 28494; 28498; 28502; 28506; 28510; 28513; 28517; 28521; 28525; 28529; 28533;
   28537; 28541; 28544; 28548; 28552; 28556; 28560; 28564; 28567; 28571; 28575; 28579; 28583; 28587; 28590; 28594; 28598; 28602; 28606; 28609;
   28613; 28617; 28621; 28625; 28628; 28632; 28636; 28640; 28643; 28647; 28651; 28655; 28658; 28662; 28666; 28670; 28673; 28677; 28681; 28685;
   28688; 28692; 28696; 28699; 28703; 28707; 28711; 28714; 28718; 28722; 28725; 28729; 28733; 28736; 28740; 28744; 28747; 28751; 28755; 28758;
   28762; 28766; 28769; 28773; 28777; 28780; 28784; 28788; 28791; 28795; 28798; 28802; 28806; 28809; 28813; 28816; 28820; 28824; 28827; 28831;
   28834; 28838; 28842; 28845; 28849; 28852; 28856; 28860; 28863; 28867; 28870; 28874; 28877; 28881; 28884; 28888; 28891; 28895; 28899; 28902;
   28906; 28909; 28913; 28916; 28920; 28923; 28927; 28930; 28934; 28937; 28941; 28944; 28948; 28951; 28955; 28958; 28962; 28965; 28969; 28972;
   28976; 28979; 28983; 28986; 28989; 28993; 28996; 29000; 29003; 29007; 29010; 29014; 29017; 29020; 29024; 29027; 29031; 29034; 29038; 29041;
   29044; 29048; 29051; 29055; 29058; 29061; 29065; 29068; 29072; 29075; 29078; 29082; 29085; 29088; 29092; 29095; 29099; 29102; 29105; 29109;
   29112; 29115; 29119; 29122; 29125; 29129; 29132; 29135; 29139; 29142; 29145; 29149; 29152; 29155; 29159; 29162; 29165; 29169; 29172; 29175;
   29179; 29182; 29185; 29188; 29192; 29195; 29198; 29202; 29205; 29208; 29211; 29215; 29218; 29221; 29225; 29228; 29231; 29234; 29238; 29241;
   29244; 29247; 29251; 29254; 29257; 29260; 29263; 29267; 29270; 29273; 29276; 29280; 29283; 29286; 29289; 29292; 29296; 29299; 29302; 29305;
   29309; 29312; 29315; 29318; 29321; 29324; 29328; 29331; 29334; 29337; 29340; 29344; 29347; 29350; 29353; 29356; 29359; 29363; 29366; 29369;
   29372; 29375; 29378; 29381; 29385; 29388; 29391; 29394; 29397; 29400; 29403; 29406; 29410; 29413; 29416; 29419; 29422; 29425; 29428; 29431;
   29434; 29438; 29441; 29444; 29447; 29450; 29453; 29456; 29459; 29462; 29465; 29468; 29471; 29475; 29478; 29481; 29484; 29487; 29490; 29493;
   29496; 29499; 29502; 29505; 29508; 29511; 29514; 29517; 29520; 29523; 29526; 29529; 29532; 29536; 29539; 29542; 29545; 29548; 29551; 29554;
   29557; 29560; 29563; 29566; 29569; 29572; 29575; 29578; 29581; 29584; 29587; 29590; 29593; 29596; 29599; 29602; 29605; 29607; 29610; 29613;
   29616; 29619; 29622; 29625; 29628; 29631; 29634; 29637; 29640; 29643; 29646; 29649; 29652; 29655; 29658; 29661; 29664; 29667; 29669; 29672;
   29675; 29678; 29681; 29684; 29687; 29690; 29693; 29696; 29699; 29702; 29704; 29707; 29710; 29713; 29716; 29719; 29722; 29725; 29728; 29730;
   29733; 29736; 29739; 29742; 29745; 29748; 29751; 29753; 29756; 29759; 29762; 29765; 29768; 29771; 29773; 29776; 29779; 29782; 29785; 29788;
   29791; 29793; 29796; 29799; 29802; 29805; 29808; 29810; 29813; 29816; 29819; 29822; 29825; 29827; 29830; 29833; 29836; 29839; 29841; 29844;
   29847; 29850; 29853; 29855; 29858; 29861; 29864; 29867; 29869; 29872; 29875; 29878; 29881; 29883; 29886; 29889; 29892; 29894; 29897; 29900;
   29903; 29906; 29908; 29911; 29914; 29917; 29919; 29922; 29925; 29928; 29930; 29933; 29936; 29939; 29941; 29944; 29947; 29949; 29952; 29955;
   29958; 29960; 29963; 29966; 29969; 29971; 29974; 29977; 29979; 29982; 29985; 29988; 29990; 29993; 29996; 29998; 30001; 30004; 30007; 30009;
   30012; 30015; 30017; 30020; 30023; 30025; 30028; 30031; 30033; 30036; 30039; 30041; 30044; 30047; 30049; 30052; 30055; 30057; 30060; 30063;
   30065; 30068; 30071; 30073; 30076; 30079; 30081; 30084; 30087; 30089; 30092; 30095; 30097; 30100; 30102; 30105; 30108; 30110; 30113; 30116;
   30118; 30121; 30123; 30126; 30129; 30131; 30134; 30137; 30139; 30142; 30144; 30147; 30150; 30152; 30155; 30157; 30160; 30163; 30165; 30168;
   30170; 30173; 30176; 30178; 30181; 30183; 30186; 30188; 30191; 30194; 30196; 30199; 30201; 30204; 30206; 30209; 30212; 30214; 30217; 30219;
   30222; 30224; 30227; 30230; 30232; 30235; 30237; 30240; 30242; 30245; 30247; 30250; 30252; 30255; 30258; 30260; 30263; 30265; 30268; 30270;
   30273; 30275; 30278; 30280; 30283; 30285; 30288; 30290; 30293; 30295; 30298; 30300; 30303; 30305; 30308; 30310; 30313; 30315; 30318; 30320;
   30323; 30325; 30328; 30330; 30333; 30335; 30338; 30340; 30343; 30345; 30348; 30350; 30353; 30355; 30358; 30360; 30363; 30365; 30368; 30370;
   30373; 30375; 30377; 30380; 30382; 30385; 30387; 30390; 30392; 30395; 30397; 30400; 30402; 30404; 30407; 30409; 30412; 30414; 30417; 30419;
   30422; 30424; 30426; 30429; 30431; 30434; 30436; 30439; 30441; 30443; 30446; 30448; 30451; 30453; 30456; 30458; 30460; 30463; 30465; 30468;
   30470; 30472; 30475; 30477; 30480; 30482; 30484; 30487; 30489; 30492; 30494; 30496; 30499; 30501; 30504; 30506; 30508; 30511; 30513; 30516;
   30518; 30520; 30523; 30525; 30527; 30530; 30532; 30535; 30537; 30539; 30542; 30544; 30546; 30549; 30551; 30553; 30556; 30558; 30561; 30563;
   30565; 30568; 30570; 30572; 30575; 30577; 30579; 30582; 30584; 30586; 30589; 30591; 30593; 30596; 30598; 30600; 30603; 30605; 30607; 30610;
   30612; 30614; 30617; 30619; 30621; 30624; 30626; 30628; 30631; 30633; 30635; 30638; 30640; 30642; 30644; 30647; 30649; 30651; 30654; 30656;
   30658; 30661; 30663; 30665; 30667; 30670; 30672; 30674; 30677; 30679; 30681; 30683; 30686; 30688; 30690; 30693; 30695; 30697; 30699; 30702;
   30704; 30706; 30709; 30711; 30713; 30715; 30718; 30720; 30722; 30724; 30727; 30729; 30731; 30733; 30736; 30738; 30740; 30742; 30745; 30747;
   30749; 30751; 30754; 30756; 30758; 30760; 30763; 30765; 30767; 30769; 30772; 30774; 30776; 30778; 30781; 30783; 30785; 30787; 30790; 30792;
   30794; 30796; 30798; 30801; 30803; 30805; 30807; 30810; 30812; 30814; 30816; 30818; 30821; 30823; 30825; 30827; 30829; 30832; 30834; 30836;
   30838; 30840; 30843; 30845; 30847; 30849; 30851; 30854; 30856; 30858; 30860; 30862; 30865; 30867; 30869; 30871; 30873; 30875; 30878; 30880;
   30882; 30884; 30886; 30889; 30891; 30893; 30895; 30897; 30899; 30902; 30904; 30906; 30908; 30910; 30912; 30915; 30917; 30919; 30921; 30923;
   30925; 30928; 30930; 30932; 30934; 30936; 30938; 30940; 30943; 30945; 30947; 30949; 30951; 30953; 30955; 30958; 30960; 30962; 30964; 30966;
   30968; 30970; 30972; 30975; 30977; 30979; 30981; 30983; 30985; 30987; 30989; 30992; 30994; 30996; 30998; 31000; 31002; 31004; 31006; 31009;
   31011; 31013; 31015; 31017; 31019; 31021; 31023; 31025; 31027; 31030; 31032; 31034; 31036; 31038; 31040; 31042; 31044; 31046; 31048; 31051;
   31053; 31055; 31057; 31059; 31061; 31063; 31065; 31067; 31069; 31071; 31073; 31076; 31078; 31080; 31082; 31084; 31086; 31088; 31090; 31092;
   31094; 31096; 31098; 31100; 31102; 31105; 31107; 31109; 31111; 31113; 31115; 31117; 31119; 31121; 31123; 31125; 31127; 31129; 31131; 31133;
   31135; 31137; 31139; 31141; 31144; 31146; 31148; 31150; 31152; 31154; 31156; 31158; 31160; 31162; 31164; 31166; 31168; 31170; 31172; 31174;
   31176; 31178; 31180; 31182; 31184; 31186; 31188; 31190; 31192; 31194; 31196; 31198; 31200; 31202; 31204; 31206; 31208; 31210; 31212; 31214;
   31216; 31218; 31220; 31222; 31224; 31226; 31228; 31230; 31232; 31234; 31236; 31238; 31240; 31242; 31244; 31246; 31248; 31250; 31252; 31254;
   31256; 31258; 31260; 31262; 31264; 31266; 31268; 31270; 31272; 31274; 31276; 31278; 31280; 31282; 31284; 31286; 31288; 31290; 31292; 31294;
   31296; 31298; 31300; 31302; 31304; 31306; 31308; 31310; 31312; 31314; 31316; 31318; 31319; 31321; 31323; 31325; 31327; 31329; 31331; 31333;
   31335; 31337; 31339; 31341; 31343; 31345; 31347; 31349; 31351; 31353; 31355; 31356; 31358; 31360; 31362; 31364; 31366; 31368; 31370; 31372;
   31374; 31376; 31378; 31380; 31382; 31384; 31385; 31387; 31389; 31391; 31393; 31395; 31397; 31399; 31401; 31403; 31405; 31407; 31409; 31410;
   31412; 31414; 31416; 31418; 31420; 31422; 31424; 31426; 31428; 31430; 31431; 31433; 31435; 31437; 31439; 31441; 31443; 31445; 31447; 31449;
   31450; 31452; 31454; 31456; 31458; 31460; 31462; 31464; 31466; 31467; 31469; 31471; 31473; 31475; 31477; 31479; 31481; 31483; 31484; 31486;
   31488; 31490; 31492; 31494; 31496; 31498; 31499; 31501; 31503; 31505; 31507; 31509; 31511; 31513; 31514; 31516; 31518; 31520; 31522; 31524;
   31526; 31527; 31529; 31531; 31533; 31535; 31537; 31539; 31540; 31542; 31544; 31546; 31548; 31550; 31552; 31553; 31555; 31557; 31559; 31561;
   31563; 31564; 31566; 31568; 31570; 31572; 31574; 31575; 31577; 31579; 31581; 31583; 31585; 31587; 31588; 31590; 31592; 31594; 31596; 31597;
   31599; 31601; 31603; 31605; 31607; 31608; 31610; 31612; 31614; 31616; 31618; 31619; 31621; 31623; 31625; 31627; 31628; 31630; 31632; 31634;
   31636; 31638; 31639; 31641; 31643; 31645; 31647; 31648; 31650; 31652; 31654; 31656; 31657; 31659; 31661; 31663; 31665; 31666; 31668; 31670;
   31672; 31674; 31675; 31677; 31679; 31681; 31683; 31684; 31686; 31688; 31690; 31691; 31693; 31695; 31697; 31699; 31700; 31702; 31704; 31706;
   31708; 31709; 31711; 31713; 31715; 31716; 31718; 31720; 31722; 31724; 31725; 31727; 31729; 31731; 31732; 31734; 31736; 31738; 31739; 31741;
   31743; 31745; 31747; 31748; 31750; 31752; 31754; 31755; 31757; 31759; 31761; 31762; 31764; 31766; 31768; 31769; 31771; 31773; 31775; 31776;
   31778; 31780; 31782; 31783; 31785; 31787; 31789; 31790; 31792; 31794; 31796; 31797; 31799; 31801; 31803; 31804; 31806; 31808; 31810; 31811;
   31813; 31815; 31816; 31818; 31820; 31822; 31823; 31825; 31827; 31829; 31830; 31832; 31834; 31835; 31837; 31839; 31841; 31842; 31844; 31846;
   31848; 31849; 31851; 31853; 31854; 31856; 31858; 31860; 31861; 31863; 31865; 31866; 31868; 31870; 31872; 31873; 31875; 31877; 31878; 31880;
   31882; 31883; 31885; 31887; 31889; 31890; 31892; 31894; 31895; 31897; 31899; 31901; 31902; 31904; 31906; 31907; 31909; 31911; 31912; 31914;
   31916; 31917; 31919; 31921; 31923; 31924; 31926; 31928; 31929; 31931; 31933; 31934; 31936; 31938; 31939; 31941; 31943; 31944; 31946; 31948;
   31949; 31951; 31953; 31954; 31956; 31958; 31960; 31961; 31963; 31965; 31966; 31968; 31970; 31971; 31973; 31975; 31976; 31978; 31980; 31981;
   31983; 31985; 31986; 31988; 31990; 31991; 31993; 31995; 31996; 31998; 32000; 32001; 32003; 32004; 32006; 32008; 32009; 32011; 32013; 32014;
   32016; 32018; 32019; 32021; 32023; 32024; 32026; 32028; 32029; 32031; 32033; 32034; 32036; 32037; 32039; 32041; 32042; 32044; 32046; 32047;
   32049; 32051; 32052; 32054; 32055; 32057; 32059; 32060; 32062; 32064; 32065; 32067; 32069; 32070; 32072; 32073; 32075; 32077; 32078; 32080;
   32082; 32083; 32085; 32086; 32088; 32090; 32091; 32093; 32095; 32096; 32098; 32099; 32101; 32103; 32104; 32106; 32107; 32109; 32111; 32112;
   32114; 32116; 32117; 32119; 32120; 32122; 32124; 32125; 32127; 32128; 32130; 32132; 32133; 32135; 32136; 32138; 32140; 32141; 32143; 32144;
   32146; 32148; 32149; 32151; 32152; 32154; 32156; 32157; 32159; 32160; 32162; 32164; 32165; 32167; 32168; 32170; 32172; 32173; 32175; 32176;
   32178; 32179; 32181; 32183; 32184; 32186; 32187; 32189; 32191; 32192; 32194; 32195; 32197; 32198; 32200; 32202; 32203; 32205; 32206; 32208;
   32210; 32211; 32213; 32214; 32216; 32217; 32219; 32221; 32222; 32224; 32225; 32227; 32228; 32230; 32232; 32233; 32235; 32236; 32238; 32239;
   32241; 32242; 32244; 32246; 32247; 32249; 32250; 32252; 32253; 32255; 32256; 32258; 32260; 32261; 32263; 32264; 32266; 32267; 32269; 32270;
   32272; 32274; 32275; 32277; 32278; 32280; 32281; 32283; 32284; 32286; 32288; 32289; 32291; 32292; 32294; 32295; 32297; 32298; 32300; 32301;
   32303; 32304; 32306; 32308; 32309; 32311; 32312; 32314; 32315; 32317; 32318; 32320; 32321; 32323; 32324; 32326; 32327; 32329; 32331; 32332;
   32334; 32335; 32337; 32338; 32340; 32341; 32343; 32344; 32346; 32347; 32349; 32350; 32352; 32353; 32355; 32356; 32358; 32359; 32361; 32363;
   32364; 32366; 32367; 32369; 32370; 32372; 32373; 32375; 32376; 32378; 32379; 32381; 32382; 32384; 32385; 32387; 32388; 32390; 32391; 32393;
   32394; 32396; 32397; 32399; 32400; 32402; 32403; 32405; 32406; 32408; 32409; 32411; 32412; 32414; 32415; 32417; 32418; 32420; 32421; 32423;
   32424; 32426; 32427; 32429; 32430; 32432; 32433; 32435; 32436; 32438; 32439; 32441; 32442; 32444; 32445; 32447; 32448; 32450; 32451; 32453;
   32454; 32456; 32457; 32458; 32460; 32461; 32463; 32464; 32466; 32467; 32469; 32470; 32472; 32473; 32475; 32476; 32478; 32479; 32481; 32482;
   32484; 32485; 32487; 32488; 32489; 32491; 32492; 32494; 32495; 32497; 32498; 32500; 32501; 32503; 32504; 32506; 32507; 32509; 32510; 32511;
   32513; 32514; 32516; 32517; 32519; 32520; 32522; 32523; 32525; 32526; 32528; 32529; 32530; 32532; 32533; 32535; 32536; 32538; 32539; 32541;
   32542; 32544; 32545; 32546; 32548; 32549; 32551; 32552; 32554; 32555; 32557; 32558; 32559; 32561; 32562; 32564; 32565; 32567; 32568; 32570;
   32571; 32572; 32574; 32575; 32577; 32578; 32580; 32581; 32583; 32584; 32585; 32587; 32588; 32590; 32591; 32593; 32594; 32595; 32597; 32598;
   32600; 32601; 32603; 32604; 32605; 32607; 32608; 32610; 32611; 32613; 32614; 32615; 32617; 32618; 32620; 32621; 32623; 32624; 32625; 32627;
   32628; 32630; 32631; 32633; 32634; 32635; 32637; 32638; 32640; 32641; 32642; 32644; 32645; 32647; 32648; 32650; 32651; 32652; 32654; 32655;
   32657; 32658; 32659; 32661; 32662; 32664; 32665; 32667; 32668; 32669; 32671; 32672; 32674; 32675; 32676; 32678; 32679; 32681; 32682; 32683;
   32685; 32686; 32688; 32689; 32690; 32692; 32693; 32695; 32696; 32697; 32699; 32700; 32702; 32703; 32704; 32706; 32707; 32709; 32710; 32711;
   32713; 32714; 32716; 32717; 32718; 32720; 32721; 32722; 32724; 32725; 32727; 32728; 32729; 32731; 32732; 32734; 32735; 32736; 32738; 32739;
   32740; 32742; 32743; 32745; 32746; 32747; 32749; 32750; 32752; 32753; 32754; 32756; 32757; 32758; 32760; 32761; 32763; 32764; 32765; 32767;
   32768; 32769; 32771; 32772; 32774; 32775; 32776; 32778; 32779; 32780; 32782; 32783; 32785; 32786; 32787; 32789; 32790; 32791; 32793; 32794;
   32795; 32797; 32798; 32800; 32801; 32802; 32804; 32805; 32806; 32808; 32809; 32810; 32812; 32813; 32815; 32816; 32817; 32819; 32820; 32821;
   32823; 32824; 32825; 32827; 32828; 32829; 32831; 32832; 32833; 32835; 32836; 32838; 32839; 32840; 32842; 32843; 32844; 32846; 32847; 32848;
   32850; 32851; 32852; 32854; 32855; 32856; 32858; 32859; 32860; 32862; 32863; 32864; 32866; 32867; 32868; 32870; 32871; 32873; 32874; 32875;
   32877; 32878; 32879; 32881; 32882; 32883; 32885; 32886; 32887; 32889; 32890; 32891; 32893; 32894; 32895; 32897; 32898; 32899; 32901; 32902;
   32903; 32905; 32906; 32907; 32909; 32910; 32911; 32913; 32914; 32915; 32916; 32918; 32919; 32920; 32922; 32923; 32924; 32926; 32927; 32928;
   32930; 32931; 32932; 32934; 32935; 32936; 32938; 32939; 32940; 32942; 32943; 32944; 32946; 32947; 32948; 32949; 32951; 32952; 32953; 32955;
   32956; 32957; 32959; 32960; 32961; 32963; 32964; 32965; 32967; 32968; 32969; 32970; 32972; 32973; 32974; 32976; 32977; 32978; 32980; 32981;
   32982; 32984; 32985; 32986; 32987; 32989; 32990; 32991; 32993; 32994; 32995; 32997; 32998; 32999; 33000; 33002; 33003; 33004; 33006; 33007;
   33008; 33010; 33011; 33012; 33013; 33015; 33016; 33017; 33019; 33020; 33021; 33022; 33024; 33025; 33026; 33028; 33029; 33030; 33031; 33033;
   33034; 33035; 33037; 33038; 33039; 33040; 33042; 33043; 33044; 33046; 33047; 33048; 33049; 33051; 33052; 33053; 33055; 33056; 33057; 33058;
   33060; 33061; 33062; 33064; 33065; 33066; 33067; 33069; 33070; 33071; 33072; 33074; 33075; 33076; 33078; 33079; 33080; 33081; 33083; 33084;
   33085; 33086; 33088; 33089; 33090; 33092; 33093; 33094; 33095; 33097; 33098; 33099; 33100; 33102; 33103; 33104; 33106; 33107; 33108; 33109;
   33111; 33112; 33113; 33114; 33116; 33117; 33118; 33119; 33121; 33122; 33123; 33124; 33126; 33127; 33128; 33129; 33131; 33132; 33133; 33135;
   33136; 33137; 33138; 33140; 33141; 33142; 33143; 33145; 33146; 33147; 33148; 33150; 33151; 33152; 33153; 33155; 33156; 33157; 33158; 33160;
   33161; 33162; 33163; 33165; 33166; 33167; 33168; 33170; 33171; 33172; 33173; 33175; 33176; 33177; 33178; 33180; 33181; 33182; 33183; 33184;
   33186; 33187; 33188; 33189; 33191; 33192; 33193; 33194; 33196; 33197; 33198; 33199; 33201; 33202; 33203; 33204; 33206; 33207; 33208; 33209;
   33210; 33212; 33213; 33214; 33215; 33217; 33218; 33219; 33220; 33222; 33223; 33224; 33225; 33226; 33228; 33229; 33230; 33231; 33233; 33234;
   33235; 33236; 33237; 33239; 33240; 33241; 33242; 33244; 33245; 33246; 33247; 33249; 33250; 33251; 33252; 33253; 33255; 33256; 33257; 33258;
   33259; 33261; 33262; 33263; 33264; 33266; 33267; 33268; 33269; 33270; 33272; 33273; 33274; 33275; 33277; 33278; 33279; 33280; 33281; 33283;
   33284; 33285; 33286; 33287; 33289; 33290; 33291; 33292; 33293; 33295; 33296; 33297; 33298; 33300; 33301; 33302; 33303; 33304; 33306; 33307;
   33308; 33309; 33310; 33312; 33313; 33314; 33315; 33316; 33318; 33319; 33320; 33321; 33322; 33324; 33325; 33326; 33327; 33328; 33330; 33331;
   33332; 33333; 33334; 33336; 33337; 33338; 33339; 33340; 33342; 33343; 33344; 33345; 33346; 33348; 33349; 33350; 33351; 33352; 33353; 33355;
   33356; 33357; 33358; 33359; 33361; 33362; 33363; 33364; 33365; 33367; 33368; 33369; 33370; 33371; 33372; 33374; 33375; 33376; 33377; 33378;
   33380; 33381; 33382; 33383; 33384; 33385; 33387; 33388; 33389; 33390; 33391; 33393; 33394; 33395; 33396; 33397; 33398; 33400; 33401; 33402;
   33403; 33404; 33406; 33407; 33408; 33409; 33410; 33411; 33413; 33414; 33415; 33416; 33417; 33418; 33420; 33421; 33422; 33423; 33424; 33425;
   33427; 33428; 33429; 33430; 33431; 33432; 33434; 33435; 33436; 33437; 33438; 33440; 33441; 33442; 33443; 33444; 33445; 33446; 33448; 33449;
   33450; 33451; 33452; 33453; 33455; 33456; 33457; 33458; 33459; 33460; 33462; 33463; 33464; 33465; 33466; 33467; 33469; 33470; 33471; 33472;
   33473; 33474; 33475; 33477; 33478; 33479; 33480; 33481; 33482; 33484; 33485; 33486; 33487; 33488; 33489; 33490; 33492; 33493; 33494; 33495;
   33496; 33497; 33499; 33500; 33501; 33502; 33503; 33504; 33505; 33507; 33508; 33509; 33510; 33511; 33512; 33513; 33515; 33516; 33517; 33518;
   33519; 33520; 33521; 33523; 33524; 33525; 33526; 33527; 33528; 33529; 33531; 33532; 33533; 33534; 33535; 33536; 33537; 33539; 33540; 33541;
   33542; 33543; 33544; 33545; 33547; 33548; 33549; 33550; 33551; 33552; 33553; 33555; 33556; 33557; 33558; 33559; 33560; 33561; 33562; 33564;
   33565; 33566; 33567; 33568; 33569; 33570; 33571; 33573; 33574; 33575; 33576; 33577; 33578; 33579; 33581; 33582; 33583; 33584; 33585; 33586;
   33587; 33588; 33590; 33591; 33592; 33593; 33594; 33595; 33596; 33597; 33598; 33600; 33601; 33602; 33603; 33604; 33605; 33606; 33607; 33609;
   33610; 33611; 33612; 33613; 33614; 33615; 33616; 33618; 33619; 33620; 33621; 33622; 33623; 33624; 33625; 33626; 33628; 33629; 33630; 33631;
   33632; 33633; 33634; 33635; 33636; 33638; 33639; 33640; 33641; 33642; 33643; 33644; 33645; 33646; 33648; 33649; 33650; 33651; 33652; 33653;
   33654; 33655; 33656; 33658; 33659; 33660; 33661; 33662; 33663; 33664; 33665; 33666; 33667; 33669; 33670; 33671; 33672; 33673; 33674; 33675;
   33676; 33677; 33678; 33680; 33681; 33682; 33683; 33684; 33685; 33686; 33687; 33688; 33689; 33691; 33692; 33693; 33694; 33695; 33696; 33697;
   33698; 33699; 33700; 33702; 33703; 33704; 33705; 33706; 33707; 33708; 33709; 33710; 33711; 33712; 33714; 33715; 33716; 33717; 33718; 33719;
   33720; 33721; 33722; 33723; 33724; 33726; 33727; 33728; 33729; 33730; 33731; 33732; 33733; 33734; 33735; 33736; 33737; 33739; 33740; 33741;
   33742; 33743; 33744; 33745; 33746; 33747; 33748; 33749; 33750; 33752; 33753; 33754; 33755; 33756; 33757; 33758; 33759; 33760; 33761; 33762;
   33763; 33764; 33766; 33767; 33768; 33769; 33770; 33771; 33772; 33773; 33774; 33775; 33776; 33777; 33778; 33780; 33781; 33782; 33783; 33784;
   33785; 33786; 33787; 33788; 33789; 33790; 33791; 33792; 33793; 33795; 33796; 33797; 33798; 33799; 33800; 33801; 33802; 33803; 33804; 33805;
   33806; 33807; 33808; 33809; 33811; 33812; 33813; 33814; 33815; 33816; 33817; 33818; 33819; 33820; 33821; 33822; 33823; 33824; 33825; 33826;
   33828; 33829; 33830; 33831; 33832; 33833; 33834; 33835; 33836; 33837; 33838; 33839; 33840; 33841; 33842; 33843; 33844; 33846; 33847; 33848;
   33849; 33850; 33851; 33852; 33853; 33854; 33855; 33856; 33857; 33858; 33859; 33860; 33861; 33862; 33863; 33865; 33866; 33867; 33868; 33869;
   33870; 33871; 33872; 33873; 33874; 33875; 33876; 33877; 33878; 33879; 33880; 33881; 33882; 33883; 33884; 33885; 33887; 33888; 33889; 33890;
   33891; 33892; 33893; 33894; 33895; 33896; 33897; 33898; 33899; 33900; 33901; 33902; 33903; 33904; 33905; 33906; 33907; 33908; 33909; 33911;
   33912; 33913; 33914; 33915; 33916; 33917; 33918; 33919; 33920; 33921; 33922; 33923; 33924; 33925; 33926; 33927; 33928; 33929; 33930; 33931;
   33932; 33933; 33934; 33935; 33936; 33937; 33938; 33940; 33941; 33942; 33943; 33944; 33945; 33946; 33947; 33948; 33949; 33950; 33951; 33952;
   33953; 33954; 33955; 33956; 33957; 33958; 33959; 33960; 33961; 33962; 33963; 33964; 33965; 33966; 33967; 33968; 33969; 33970; 33971; 33972;
   33973; 33974; 33975; 33977; 33978; 33979; 33980; 33981; 33982; 33983; 33984; 33985; 33986; 33987; 33988; 33989; 33990; 33991; 33992; 33993;
   33994; 33995; 33996; 33997; 33998; 33999; 34000; 34001; 34002; 34003; 34004; 34005; 34006; 34007; 34008; 34009; 34010; 34011; 34012; 34013;
   34014; 34015; 34016; 34017; 34018; 34019; 34020; 34021; 34022; 34023; 34024; 34025; 34026; 34027; 34028; 34029; 34030; 34031; 34032; 34033;
   34034; 34035; 34036; 34037; 34038; 34039; 34040; 34041; 34042; 34043; 34044; 34045; 34047; 34048; 34049; 34050; 34051; 34052; 34053; 34054;
   34055; 34056; 34057; 34058; 34059; 34060; 34061; 34062; 34063; 34064; 34065; 34066; 34067; 34068; 34069; 34070; 34071].

Fixpoint increasing (l : list Z) : bool :=
  match l with
  | x :: ((y :: _) as rest) => (x <? y) && increasing rest
  | _ => true
  end.

Lemma points_increasing : increasing gTxRevenuePoints = true.
Proof. vm_compute. reflexivity. Qed.

Lemma points_length : alen gTxRevenuePoints = 4097.
Proof. vm_compute. reflexivity. Qed.

Lemma increasing_get l : increasing l = true -> forall i j, 0 <= i -> i < j -> j < alen l -> l.[i] < l.[j].
Proof.
  intros Hinc. assert (forall n i, 0 <= i -> i + 1 + Z.of_nat n < alen l -> l.[i] < l.[i + 1 + Z.of_nat n]) as Hn.
  { assert (forall i, 0 <= i -> i + 1 < alen l -> l.[i] < l.[i + 1]) as Hstep.
    { clear - Hinc. induction l as [|x l IH]; intros i Hi Hl; [unfold alen in Hl; cbn in Hl; lia|].
      destruct l as [|y l]; [unfold alen in Hl; cbn in Hl; lia|]. cbn [increasing] in Hinc. apply andb_true_iff in Hinc as [Hxy Hinc].
      destruct (decide (i = 0)) as [->|]; [change (x < y); lia|]. specialize (IH Hinc (i - 1) ltac:(lia) ltac:(unfold alen in *; cbn in *; lia)).
      rewrite !aget_nonneg in * by lia. replace (Z.to_nat i) with (S (Z.to_nat (i - 1))) by lia.
      replace (Z.to_nat (i + 1)) with (S (Z.to_nat (i - 1 + 1))) by lia. exact IH. }
    induction n as [|n IH]; intros i Hi Hl; [rewrite Z.add_0_r in *; by apply Hstep|].
    specialize (IH i Hi ltac:(lia)). pose proof (Hstep (i + 1 + Z.of_nat n) ltac:(lia) ltac:(lia)).
    replace (i + 1 + Z.of_nat (S n)) with (i + 1 + Z.of_nat n + 1) by lia. lia. }
  intros i j Hi Hij Hj. replace j with (i + 1 + Z.of_nat (Z.to_nat (j - i - 1))) by lia. apply Hn; lia.
Qed.

Lemma points_range i : 0 <= i <= 4096 -> 0 <= gTxRevenuePoints.[i] < 2 ^ 16.
Proof.
  intros Hi. pose proof points_length as Hl. assert (gTxRevenuePoints.[0] = 0 /\ gTxRevenuePoints.[4096] < 2 ^ 16) as [H0 Hmax]
    by (vm_compute; done).
  destruct (decide (i = 0)) as [->|]; [lia|]. pose proof (increasing_get _ points_increasing 0 i ltac:(lia) ltac:(lia) ltac:(lia)).
  destruct (decide (i = 4096)) as [->|]; [lia|]. pose proof (increasing_get _ points_increasing i 4096 ltac:(lia) ltac:(lia) ltac:(lia)). lia.
Qed.
#[global] Opaque gTxRevenuePoints.
