(* ===== verification/Revenue.v ===== *)
(** * Revenue of the computors (src/revenue.h)

    The revenue of an epoch combines a transaction score, an oracle score and a mining score of every
    computor.  The transaction score compares every tick with the window of ticks around it,
    wrapping at the ends of the epoch.  Version 2 slides a window sum over the recorded ticks.  The
    multi-dimensional version, which is the one paid out, is in RevenueStream.v. *)
From S2P Require Import Prelude Sorting Insertion MathLib RevenueTable.

Definition ISSUANCE_RATE : Z := 1000000000000.
Definition REVENUE_SCALE : Z := 1024.
Definition REVENUE_BONUS_CAP : Z := 256.
Definition REVENUE_W_TX : Z := 17.
Definition REVENUE_W_ORACLE : Z := 3.
Definition REVENUE_W_SUM : Z := REVENUE_W_TX + REVENUE_W_ORACLE.
Definition REVENUE_DIVISOR : Z := REVENUE_SCALE * (REVENUE_SCALE + REVENUE_BONUS_CAP) * REVENUE_SCALE.
Definition REVENUE_DOGE_K : Z := 2.
Definition REVENUE_DOGE_DISABLED : bool := true.
Definition MAX_TX_LUT_INDEX : Z := alen gTxRevenuePoints - 1.

(** ** Quorum score *)

(** The [while] loop: the new score changes places with smaller ones before it. *)
Fixpoint bubble_score (i : nat) (sortedScore : list Z) : list Z :=
  match i with
  | O => sortedScore
  | S i' =>
      let j := Z.of_nat i in
      if sortedScore.[j - 1] <? sortedScore.[j] then
        let tmp := sortedScore.[j - 1] in
        bubble_score i' ((sortedScore.[j - 1 := sortedScore.[j]]).[j := tmp])
      else sortedScore
  end.

(** [QUORUM] is the size of the buffer. *)
Definition getQuorumScore (QUORUM : Z) (score : list Z) (numberOfComputors : nat) (quorum : Z) : Z :=
  if (quorum =? 0) || (QUORUM <? quorum) then 1
  else
    let sortedScore :=
      for_loop numberOfComputors 0 (fun computorIndex s => bubble_score (Z.to_nat quorum) (s.[quorum := score.[computorIndex]]))
        (replicate (Z.to_nat (quorum + 1)) 0) in
    if sortedScore.[quorum - 1] =? 0 then 1 else sortedScore.[quorum - 1].

Definition computeRevFactor (QUORUM : Z) (score : list Z) (scalingThreshold : Z) (outputScoreFactor : list Z)
    (numberOfComputors : nat) (quorum : Z) : list Z :=
  let quorumScore := getQuorumScore QUORUM score numberOfComputors quorum in
  for_loop numberOfComputors 0
    (fun computorIndex out =>
       let scoreFactor :=
         if score.[computorIndex] =? 0 then 0
         else if quorumScore <=? score.[computorIndex] then scalingThreshold
         else u64 (scalingThreshold * score.[computorIndex]) / quorumScore in
       out.[computorIndex := scoreFactor]) outputScoreFactor.

Record EpochRevenueData := mkEpoch {
  initialTick : Z;
  totalTicks : Z;
  slidingWindowTxScore : list Z;
  oracleScore : list Z;
  dogeMiningScore : list Z;
  v2Revenue : list Z;
  perTickTxCount : list Z;
  perTickProtocolTxCount : list Z;
  perTickContractTxCount : list Z;
  perTickOtherTxCount : list Z;
  perTickTxTickLeaderCount : list Z
}.

(** The two arrays that the computation of the revenue writes. *)
Definition set_result (scores revenue : list Z) (d : EpochRevenueData) : EpochRevenueData :=
  mkEpoch (initialTick d) (totalTicks d) scores (oracleScore d) (dogeMiningScore d) revenue
    (perTickTxCount d) (perTickProtocolTxCount d) (perTickContractTxCount d) (perTickOtherTxCount d) (perTickTxTickLeaderCount d).

Section Revenue.
(** [NUMBER_OF_COMPUTORS] and [QUORUM] *)
Variable NC : nat.
Variable QUORUM : Z.
Abbreviation NUMBER_OF_COMPUTORS := (Z.of_nat NC).
Definition REVENUE_HALF_WINDOW : Z := NUMBER_OF_COMPUTORS - 1.
Definition REVENUE_WINDOW_SIZE : Z := 2 * REVENUE_HALF_WINDOW + 1.
Definition REVENUE_IPC : Z := ISSUANCE_RATE / NUMBER_OF_COMPUTORS.

(** A full factor for everyone if nobody has a score. *)
Definition has_activity (score : list Z) : bool := existsb (fun i => negb (score.[i] =? 0)) (seqZ 0 NUMBER_OF_COMPUTORS).
Definition full_factor (out : list Z) : list Z := for_loop NC 0 (fun i out => out.[i := REVENUE_SCALE]) out.

(** ** Version 2 *)
Definition log_scores (d : EpochRevenueData) (buf : list Z) : list Z :=
  for_loop (Z.to_nat (totalTicks d)) 0
    (fun t buf =>
       let txCount := (perTickTxCount d).[t] in
       let txCount := if MAX_TX_LUT_INDEX <? txCount then MAX_TX_LUT_INDEX else txCount in
       buf.[t := gTxRevenuePoints.[txCount]]) buf.

(** [for (i = -H; i <= H; ++i)] *)
Definition first_window (n : Z) (logs : list Z) : Z :=
  for_loop (Z.to_nat REVENUE_WINDOW_SIZE) (- REVENUE_HALF_WINDOW)
    (fun i windowSum => u64 (windowSum + logs.[Z.rem (Z.rem i n + n) n])) 0.

Definition slide (d : EpochRevenueData) (logs : list Z) (t : Z) (st : list Z * Z) : list Z * Z :=
  let '(scores, windowSum) := st in
  let n := totalTicks d in
  let windowVal := if windowSum =? 0 then 1 else windowSum in
  let txScore := u64 (logs.[t] * REVENUE_SCALE * REVENUE_WINDOW_SIZE) / windowVal in
  let computorIndex := u32 (initialTick d + t) mod NUMBER_OF_COMPUTORS in
  let scores := scores.[computorIndex := u64 (scores.[computorIndex] + txScore)] in
  let leavingIdx := u32 (t + n - REVENUE_HALF_WINDOW) mod n in
  let enteringIdx := u32 (t + REVENUE_HALF_WINDOW + 1) mod n in
  (scores, u64 (windowSum - logs.[leavingIdx] + logs.[enteringIdx])).

(** The factors of one computor combined. *)
Definition combine_v2 (scoreTx scoreOracle E : Z) : Z :=
  let M := u64 (REVENUE_W_TX * scoreTx + REVENUE_W_ORACLE * scoreOracle) / REVENUE_W_SUM in
  let numerator := u64 (M * (REVENUE_SCALE * REVENUE_SCALE + REVENUE_BONUS_CAP * E)) in
  s64 (u64 (REVENUE_IPC * numerator) / REVENUE_DIVISOR).

(** [RevenueV2Buffers] *)
Record RevenueV2Buffers := mkBuffers {
  slidingWindowLogScore : list Z;
  txFactor : list Z;
  oracleFactor : list Z;
  miningFactor : list Z
}.

Definition computeRevenueV2 (d : EpochRevenueData) (b : RevenueV2Buffers) : EpochRevenueData * RevenueV2Buffers :=
  let zero := replicate NC 0 in
  if totalTicks d <? REVENUE_WINDOW_SIZE then
    (set_result zero zero d, b)
  else
    let logs := log_scores d (slidingWindowLogScore b) in
    let '(scores, _) := for_loop (Z.to_nat (totalTicks d)) 0 (slide d logs) (zero, first_window (totalTicks d) logs) in
    let tx := computeRevFactor QUORUM scores REVENUE_SCALE (txFactor b) NC QUORUM in
    let oracle :=
      if has_activity (oracleScore d) then computeRevFactor QUORUM (oracleScore d) REVENUE_SCALE (oracleFactor b) NC QUORUM
      else full_factor (oracleFactor b) in
    let mining := computeRevFactor QUORUM (dogeMiningScore d) REVENUE_SCALE (miningFactor b) NC QUORUM in
    let revenue := for_loop NC 0 (fun i r => r.[i := combine_v2 (tx.[i]) (oracle.[i]) (mining.[i])]) (v2Revenue d) in
    (set_result scores revenue d, mkBuffers logs tx oracle mining).
End Revenue.

(** ** The quorum score is the quorum-th largest score *)
Lemma bubble_move j : forall l,
  Z.of_nat j < alen l -> bubble_score j l = move_entry Z.ltb (fun _ => 0) j (l.[Z.of_nat j]) l.
Proof.
  induction j as [|j IH]; intros l Hl; [done|]. cbn [bubble_score move_entry]. set (i := Z.of_nat (S j)) in *.
  replace (0 <? i) with true by lia. cbn [andb]. destruct (l.[i - 1] <? l.[i]); [|done].
  rewrite IH by (rewrite !alen_aset; lia). rewrite aset_comm by lia. f_equal.
  replace (Z.of_nat j) with (i - 1) by lia. rewrite aget_aset_eq by (rewrite alen_aset; lia). done.
Qed.

Lemma sumZ_swap (f : Z -> Z) (l : list Z) a b n :
  0 <= a < Z.of_nat n -> 0 <= b < Z.of_nat n -> Z.of_nat n <= alen l ->
  sumZ (fun i => f ((swap l a b).[i])) n = sumZ (fun i => f (l.[i])) n.
Proof.
  intros Ha Hb Hn. unfold swap.
  assert (forall l' i x, 0 <= i < Z.of_nat n -> Z.of_nat n <= alen l' ->
    sumZ (fun k => f ((l'.[i := x]).[k])) n = sumZ (fun k => f (l'.[k])) n + f x - f (l'.[i])) as Hw.
  { intros l' i x Hi Hl'. rewrite (sumZ_update (fun k => f (l'.[k])) _ n i Hi); [by rewrite aget_aset_eq by lia|].
    intros j Hj Hne. by rewrite aget_aset_ne by done. }
  rewrite !Hw by (rewrite ?alen_aset; lia). destruct (decide (a = b)) as [->|]; [rewrite aget_aset_eq by lia; lia|].
  rewrite aget_aset_ne by done. lia.
Qed.

(** How many of the first [n] scores reach [v]. *)
Definition reaching (v : Z) (l : list Z) (n : nat) : Z := countZ (fun i => v <=? l.[i]) n.

Lemma reaching_S v l n : reaching v l (S n) = reaching v l n + Z.b2z (v <=? l.[Z.of_nat n]).
Proof. done. Qed.

Lemma reaching_all v l n : (forall i, 0 <= i < Z.of_nat n -> v <= l.[i]) <-> reaching v l n = Z.of_nat n.
Proof.
  split; intros H.
  - unfold reaching, countZ. rewrite <- (Z.mul_1_l (Z.of_nat n)), <- (sumZ_const 1 n). apply sumZ_ext. intros i Hi.
    specialize (H i Hi). by replace (v <=? l.[i]) with true by lia.
  - intros i Hi. apply Z.leb_le. exact (countZ_full _ n H i Hi).
Qed.

Lemma insert_score quorum s x :
  (0 < quorum)%nat -> alen s = Z.of_nat quorum + 1 -> ranked Z.ltb s 0 (Z.of_nat quorum) ->
  let s' := bubble_score quorum (s.[Z.of_nat quorum := x]) in
  alen s' = Z.of_nat quorum + 1 /\ ranked Z.ltb s' 0 (Z.of_nat quorum) /\
  forall v, reaching v s' quorum = Z.min (Z.of_nat quorum) (reaching v s quorum + Z.b2z (v <=? x)).
Proof.
  intros Hq Hl Hr s'. set (s1 := s.[Z.of_nat quorum := x]) in *. assert (alen s1 = Z.of_nat quorum + 1) as Hl1 by (by unfold s1; rewrite alen_aset).
  assert (ranked_but Z.ltb s1 0 (Z.of_nat quorum + 1) (Z.of_nat quorum)) as Hrb.
  { split; [|lia]. intros a b Ha Hab Hb Hna Hnb. unfold s1. rewrite !aget_aset_ne by lia. apply Hr; lia. }
  destruct (move_entry_ok Z.ltb (fun _ => 0) 0 (Z.of_nat quorum + 1) ltac:(lia) ltac:(done) quorum s1 ltac:(lia) ltac:(lia) Hrb) as (R1 & R2 & _ & R4).
  assert (move_entry Z.ltb (fun _ => 0) quorum (s1.[Z.of_nat quorum]) s1 = s') as Heq by (unfold s'; rewrite bubble_move by lia; done).
  rewrite Heq in *. split_and!.
  - rewrite (re_len _ _ _ _ R2). done.
  - intros a b Ha Hab Hb. apply R1; lia.
  - intros v. assert (reaching v s' (S quorum) = reaching v s quorum + Z.b2z (v <=? x)) as Hcount.
    { transitivity (reaching v s1 (S quorum)).
      - apply (R4 (fun l => alen l = Z.of_nat quorum + 1 /\ reaching v l (S quorum) = reaching v s1 (S quorum))); [|done].
        intros l a b Ha Hb Hlen [Hl' HP]. split; [by rewrite alen_swap|]. rewrite <- HP. apply (sumZ_swap (fun y => Z.b2z (v <=? y))); lia.
      - rewrite reaching_S. unfold s1 at 2. rewrite aget_aset_eq by lia. f_equal. apply countZ_ext.
        intros i Hi. unfold s1. by rewrite aget_aset_ne by lia. }
    rewrite reaching_S in Hcount.
    pose proof (countZ_range (fun i => v <=? s'.[i]) quorum) as Hb1. fold (reaching v s' quorum) in Hb1.
    pose proof (countZ_range (fun i => v <=? s.[i]) quorum) as Hb2. fold (reaching v s quorum) in Hb2. pose proof (b2z_range (v <=? x)).
    destruct (Z.leb_spec v (s'.[Z.of_nat quorum])) as [Hle|Hgt]; cbn [Z.b2z] in Hcount.
    + assert (reaching v s' quorum = Z.of_nat quorum); [|lia]. apply reaching_all. intros i Hi.
      pose proof (R1 i (Z.of_nat quorum) ltac:(lia) ltac:(lia) ltac:(lia)). lia.
    + lia.
Qed.

Lemma getQuorumScore_ok QUORUM score n quorum :
  1 <= quorum <= QUORUM -> (forall i, 0 <= i < Z.of_nat n -> 0 <= score.[i]) ->
  exists r, 0 <= r /\ getQuorumScore QUORUM score n quorum = Z.max 1 r /\ forall v, 1 <= v -> v <= r <-> quorum <= reaching v score n.
Proof.
  intros Hq Hpos. unfold getQuorumScore. replace ((quorum =? 0) || (QUORUM <? quorum)) with false by lia.
  set (k := Z.to_nat quorum). assert (quorum = Z.of_nat k) as Hk by lia. rewrite Hk. clearbody k. subst quorum.
  pose (P i s := alen s = Z.of_nat k + 1 /\ ranked Z.ltb s 0 (Z.of_nat k) /\ reaching 0 s k = Z.of_nat k /\
    forall v, 1 <= v -> reaching v s k = Z.min (Z.of_nat k) (reaching v score (Z.to_nat i))).
  assert (P (0 + Z.of_nat n) (for_loop n 0 (fun i s => bubble_score k (s.[Z.of_nat k := score.[i]]))
    (replicate (Z.to_nat (Z.of_nat k + 1)) 0))) as (Hl & Hr & H0 & Hc).
  { apply (for_loop_ind P).
    - split_and!.
      + rewrite alen_replicate. lia.
      + intros a b Ha Hab Hb. rewrite !aget_replicate by lia. lia.
      + apply reaching_all. intros i Hi. by rewrite aget_replicate by lia.
      + intros v Hv. change (reaching v score (Z.to_nat 0)) with 0. rewrite Z.min_r by lia. apply sumZ_zero. intros i Hi. rewrite aget_replicate by lia. by replace (v <=? 0) with false by lia.
    - intros i s Hi (Hl & Hr & H0 & Hc). destruct (insert_score k s (score.[i]) ltac:(lia) Hl Hr) as (L & R & C). split_and!; [done|done| |].
      { rewrite C, H0. specialize (Hpos i ltac:(lia)). replace (0 <=? score.[i]) with true by lia. cbn. lia. }
      intros v Hv. rewrite C, Hc by done. replace (Z.to_nat (i + 1)) with (S (Z.to_nat i)) by lia. rewrite reaching_S, Z2Nat.id by lia.
      pose proof (b2z_range (v <=? score.[i])). lia. }
  rewrite Z.add_0_l, Nat2Z.id in Hc. set (s := for_loop n 0 _ _) in *. set (r := s.[Z.of_nat k - 1]).
  assert (0 <= r) as Hr0 by (apply (proj2 (reaching_all 0 s k) H0); lia). exists r. split; [done|]. split.
  - destruct (Z.eqb_spec r 0) as [->|]; [done|lia].
  - intros v Hv. specialize (Hc v Hv). split; intros Hle.
    + assert (reaching v s k = Z.of_nat k); [|lia]. apply reaching_all. intros i Hi.
      pose proof (Hr i (Z.of_nat k - 1) ltac:(lia) ltac:(lia) ltac:(lia)). fold r in H. lia.
    + apply (proj2 (reaching_all v s k)); lia.
Qed.

Lemma for_fill_all {A} `{Inhabited A} (f : Z -> A) n (l : list A) :
  Z.of_nat n <= alen l ->
  let l' := for_loop n 0 (fun i l => l.[i := f i]) l in alen l' = alen l /\ forall j, 0 <= j < Z.of_nat n -> l'.[j] = f j.
Proof.
  intros Hn. destruct (for_fill f n 0 l ltac:(lia) ltac:(lia)) as [H1 H2]. split; [done|]. intros j Hj. rewrite H2. by rewrite decide_True by lia.
Qed.

Definition is_scores (n : nat) (l : list Z) : Prop := forall i, 0 <= i < Z.of_nat n -> 0 <= l.[i] < 2 ^ 54.

Lemma computeRevFactor_ok QUORUM score scale out n quorum :
  1 <= quorum <= QUORUM -> is_scores n score -> 0 < scale <= 2 ^ 10 -> alen out = Z.of_nat n ->
  let q := getQuorumScore QUORUM score n quorum in
  let factors := computeRevFactor QUORUM score scale out n quorum in
  1 <= q /\ (forall v, 2 <= v -> v <= q <-> quorum <= reaching v score n) /\
  alen factors = Z.of_nat n /\
  forall i, 0 <= i < Z.of_nat n -> factors.[i] = Z.min scale (scale * score.[i] / q) /\ 0 <= factors.[i] <= scale.
Proof.
  intros Hq Hs Hsc Hl. destruct (getQuorumScore_ok QUORUM score n quorum Hq ltac:(intros i Hi; apply Hs; lia)) as (r & Hr & Heq & Hspec).
  intros q factors. unfold q. split_and!; [lia| | |].
  - intros v Hv. rewrite <- Hspec by lia. lia.
  - unfold factors, computeRevFactor. fold q. match goal with |- alen (for_loop _ _ (fun i out => _.[i := @?f i]) _) = _ => destruct (for_fill_all f n out ltac:(lia)) as [H1 _] end. lia.
  - intros i Hi. assert (factors.[i] = Z.min scale (scale * score.[i] / q)) as Hf.
    { unfold factors, computeRevFactor. fold q.
      match goal with |- (for_loop _ _ (fun i out => _.[i := @?f i]) _).[_] = _ => destruct (for_fill_all f n out ltac:(lia)) as [_ H2] end.
      rewrite H2 by done. specialize (Hs i Hi). assert (1 <= q) as Hq1 by (unfold q; lia).
      destruct (Z.eqb_spec (score.[i]) 0) as [->|Hne]; [rewrite Z.mul_0_r, Z.div_0_l; lia|].
      destruct (Z.leb_spec q (score.[i])) as [Hle|Hgt].
      - rewrite Z.min_l; [done|]. apply Z.div_le_lower_bound; nia.
      - rewrite u64_small by (unfold is_u64; nia). rewrite Z.min_r; [done|]. apply Z.div_le_upper_bound; nia. }
    fold q. rewrite Hf. split; [done|]. specialize (Hs i Hi). assert (0 <= scale * score.[i] / q) by (apply Z.div_pos; [nia|unfold q; lia]). lia.
Qed.

(** The score of the quorum is the quorum-th largest score, but at least 1: a value is at most this score exactly if
    the quorum reaches it.  The revenue factor of a computor is its score relative to it,
    at most the scale: 0 for no score, the full scale from the quorum score on. *)
Theorem revenue_factor QUORUM score scale out n quorum :
  1 <= quorum <= QUORUM -> is_scores n score -> 0 < scale <= 2 ^ 10 -> alen out = Z.of_nat n ->
  let q := getQuorumScore QUORUM score n quorum in
  let factors := computeRevFactor QUORUM score scale out n quorum in
  1 <= q /\ (forall v, 2 <= v -> v <= q <-> quorum <= reaching v score n) /\
  alen factors = Z.of_nat n /\
  forall i, 0 <= i < Z.of_nat n -> factors.[i] = Z.min scale (scale * score.[i] / q) /\ 0 <= factors.[i] <= scale.
Proof. apply computeRevFactor_ok. Qed.

(** ** Circular windows *)
Lemma sumZ_shift (g : Z -> Z) a n :
  sumZ (fun k => g (a + 1 + k)) n = sumZ (fun k => g (a + k)) n - g a + g (a + Z.of_nat n).
Proof.
  induction n as [|n IH]; cbn [sumZ]; [rewrite Z.add_0_r; lia|]. rewrite IH.
  replace (a + 1 + Z.of_nat n) with (a + Z.of_nat (S n)) by lia. lia.
Qed.

Lemma sumZ_bound f n b : (forall i, 0 <= i < Z.of_nat n -> 0 <= f i <= b) -> 0 <= sumZ f n <= b * Z.of_nat n.
Proof.
  intros Hf. split; [apply sumZ_nonneg; intros i Hi; apply Hf; lia|]. rewrite <- sumZ_const. apply sumZ_le. intros i Hi. apply Hf. lia.
Qed.

Section Windows.
Variable NC : nat.
Hypothesis HNC : (1 <= NC <= 1024)%nat.
Abbreviation NUMBER_OF_COMPUTORS := (Z.of_nat NC).
Abbreviation H := (REVENUE_HALF_WINDOW NC).
Abbreviation W := (REVENUE_WINDOW_SIZE NC).

Lemma window_size : W = 2 * H + 1 /\ 0 <= H < 1024 /\ 1 <= W <= 2 ^ 11.
Proof using HNC. unfold REVENUE_WINDOW_SIZE, REVENUE_HALF_WINDOW. lia. Qed.

(** The sum of [f] over the ticks around [t], in an epoch of [n] ticks that is closed to a circle. *)
Definition window (f : Z -> Z) (n t : Z) : Z := sumZ (fun k => f ((t - H + k) mod n)) (Z.to_nat W).

Lemma window_step f n t : window f n (t + 1) = window f n t - f ((t - H) mod n) + f ((t + H + 1) mod n).
Proof using HNC.
  pose proof window_size as Hws. unfold window. pose proof (sumZ_shift (fun x => f (x mod n)) (t - H) (Z.to_nat W)) as Hs.
  replace (t - H + Z.of_nat (Z.to_nat W)) with (t + H + 1) in Hs by lia. rewrite <- Hs. apply sumZ_ext. intros k _. do 2 f_equal. lia.
Qed.

Lemma window_range f n t b : 0 < n -> (forall i, 0 <= i < n -> 0 <= f i <= b) -> 0 <= window f n t <= b * W.
Proof using HNC.
  pose proof window_size as Hws. intros Hn Hf. pose proof (sumZ_bound (fun k => f ((t - H + k) mod n)) (Z.to_nat W) b) as Hb.
  rewrite Z2Nat.id in Hb by lia. apply Hb. intros k _. apply Hf. apply Z.mod_pos_bound. lia.
Qed.

Lemma window_center f n t b : 0 <= t < n -> (forall i, 0 <= i < n -> 0 <= f i <= b) -> f t <= window f n t.
Proof using HNC.
  pose proof window_size as Hws. intros Ht Hf. unfold window.
  pose proof (sumZ_elem_le (fun k => f ((t - H + k) mod n)) (Z.to_nat W) H) as He. cbn beta in He.
  replace (t - H + H) with t in He by lia. rewrite (Z.mod_small t n) in He by lia. apply He; [|lia].
  intros k _. apply Hf. apply Z.mod_pos_bound. lia.
Qed.

Lemma rem_rem i n : - n < i -> 0 < n -> Z.rem (Z.rem i n + n) n = i mod n.
Proof.
  intros Hi Hn. assert (Z.rem i n + n > 0 /\ (Z.rem i n) mod n = i mod n) as [Hp Hm].
  { destruct (decide (0 <= i)).
    - rewrite Z.rem_mod_nonneg by lia. pose proof (Z.mod_pos_bound i n). rewrite Zmod_mod. lia.
    - replace i with (- (- i)) at 1 2 by lia. rewrite Z.rem_opp_l by lia. rewrite Z.rem_small by lia. rewrite Z.opp_involutive. lia. }
  rewrite Z.rem_mod_nonneg by lia. rewrite <- Hm. rewrite <- Z.add_mod_idemp_r by lia. rewrite Z_mod_same_full, Z.add_0_r. done.
Qed.

Lemma first_window_ok logs n :
  W <= n -> (forall i, 0 <= i < n -> 0 <= logs.[i] < 2 ^ 16) -> first_window NC n logs = window (fun i => logs.[i]) n 0.
Proof using HNC.
  pose proof window_size as Hws. intros Hn Hl. unfold first_window.
  pose (P i s := s = sumZ (fun k => logs.[(0 - H + k) mod n]) (Z.to_nat (i + H))).
  assert (P (- H + Z.of_nat (Z.to_nat W)) (for_loop (Z.to_nat W) (- H) (fun i s => u64 (s + logs.[Z.rem (Z.rem i n + n) n])) 0)) as HP.
  { apply (for_loop_ind P); [unfold P; by replace (Z.to_nat (- H + H)) with 0%nat by lia|].
    intros i s Hi ->. unfold P. replace (Z.to_nat (i + 1 + H)) with (S (Z.to_nat (i + H))) by lia. cbn [sumZ].
    rewrite rem_rem by lia. rewrite Z2Nat.id by lia. replace (0 - H + (i + H)) with i by lia.
    pose proof (sumZ_bound (fun k => logs.[(0 - H + k) mod n]) (Z.to_nat (i + H)) (2 ^ 16)) as Hb.
    rewrite Z2Nat.id in Hb by lia. specialize (Hb ltac:(intros k _; specialize (Hl ((0 - H + k) mod n) ltac:(apply Z.mod_pos_bound; lia)); lia)).
    specialize (Hl (i mod n) ltac:(apply Z.mod_pos_bound; lia)). rewrite u64_small; [done|]. unfold is_u64. lia. }
  unfold P in HP. rewrite HP. unfold window. f_equal. lia.
Qed.

(** ** Version 2 *)
Variable QUORUM : Z.
Hypothesis HQ : 1 <= QUORUM.
(** The static_assert of the source: the largest product fits 64 bits. *)
Hypothesis Hipc : REVENUE_IPC NC * REVENUE_SCALE * (REVENUE_SCALE * REVENUE_SCALE + REVENUE_BONUS_CAP * REVENUE_SCALE) < 2 ^ 64.

Record epoch_ok (d : EpochRevenueData) (b : RevenueV2Buffers) : Prop := {
  eo_ticks : 0 < totalTicks d < 2 ^ 24;
  eo_initial : 0 <= initialTick d /\ initialTick d + totalTicks d < 2 ^ 32;
  eo_counts : forall t, 0 <= t < totalTicks d -> 0 <= (perTickTxCount d).[t] < 2 ^ 16;
  eo_oracle : is_scores NC (oracleScore d);
  eo_doge : is_scores NC (dogeMiningScore d);
  eo_revenue : alen (v2Revenue d) = NUMBER_OF_COMPUTORS;
  eo_logs : totalTicks d <= alen (slidingWindowLogScore b);
  eo_factors : alen (txFactor b) = NUMBER_OF_COMPUTORS /\ alen (oracleFactor b) = NUMBER_OF_COMPUTORS /\ alen (miningFactor b) = NUMBER_OF_COMPUTORS
}.

(** The points of tick [t]; the score of the tick against its window; the score of a computor, over the ticks it leads. *)
Definition tick_points (d : EpochRevenueData) (t : Z) : Z := gTxRevenuePoints.[Z.min MAX_TX_LUT_INDEX ((perTickTxCount d).[t])].
Definition tick_score (d : EpochRevenueData) (t : Z) : Z :=
  tick_points d t * REVENUE_SCALE * W / Z.max 1 (window (tick_points d) (totalTicks d) t).
Definition leader (initial t : Z) : Z := (initial + t) mod NUMBER_OF_COMPUTORS.
Definition led_score (initial : Z) (score : Z -> Z) (n : nat) (c : Z) : Z :=
  sumZ (fun t => if decide (leader initial t = c) then score t else 0) n.

Lemma lut_size : MAX_TX_LUT_INDEX = 4096.
Proof. unfold MAX_TX_LUT_INDEX. by rewrite points_length. Qed.

Lemma tick_points_range d b t : epoch_ok d b -> 0 <= t < totalTicks d -> 0 <= tick_points d t <= 2 ^ 16.
Proof.
  intros Hok Ht. pose proof (eo_counts _ _ Hok t Ht). unfold tick_points. rewrite lut_size.
  pose proof (points_range (Z.min 4096 ((perTickTxCount d).[t]))). lia.
Qed.

Lemma tick_score_range d b t : epoch_ok d b -> 0 <= t < totalTicks d -> 0 <= tick_score d t <= 2 ^ 21.
Proof using HNC.
  pose proof window_size as Hws. intros Hok Ht. pose proof (tick_points_range d b t Hok Ht) as Hp.
  pose proof (window_center (tick_points d) (totalTicks d) t _ Ht ltac:(intros; by eapply tick_points_range)) as Hc.
  unfold tick_score, REVENUE_SCALE. split; [apply Z.div_pos; nia|]. apply Z.div_le_upper_bound; [lia|].
  transitivity (tick_points d t * 2 ^ 21); [nia|]. nia.
Qed.

Lemma led_score_range initial score n c b :
  (forall t, 0 <= t < Z.of_nat n -> 0 <= score t <= b) -> 0 <= led_score initial score n c <= b * Z.of_nat n.
Proof. intros Hs. apply sumZ_bound. intros t Ht. specialize (Hs t Ht). case_decide; lia. Qed.

Lemma led_score_S initial score n c :
  led_score initial score (S n) c = led_score initial score n c + (if decide (leader initial (Z.of_nat n) = c) then score (Z.of_nat n) else 0).
Proof. done. Qed.

Lemma log_scores_ok d b : epoch_ok d b ->
  alen (log_scores d (slidingWindowLogScore b)) = alen (slidingWindowLogScore b) /\
  forall t, 0 <= t < totalTicks d -> (log_scores d (slidingWindowLogScore b)).[t] = tick_points d t.
Proof.
  intros Hok. pose proof (eo_ticks _ _ Hok) as Hn. pose proof (eo_logs _ _ Hok) as Hl. unfold log_scores.
  match goal with |- context [for_loop _ _ (fun t buf => buf.[t := @?f t]) _] =>
    destruct (for_fill_all f (Z.to_nat (totalTicks d)) (slidingWindowLogScore b) ltac:(lia)) as [H1 H2] end.
  split; [exact H1|]. intros t Ht. rewrite H2 by lia. unfold tick_points. f_equal.
  destruct (Z.ltb_spec MAX_TX_LUT_INDEX ((perTickTxCount d).[t])); lia.
Qed.

Lemma window_ext f g n t : 0 < n -> (forall i, 0 <= i < n -> f i = g i) -> window f n t = window g n t.
Proof. intros Hn Hfg. apply sumZ_ext. intros k _. apply Hfg, Z.mod_pos_bound. lia. Qed.

Lemma u32_mod_step x y n : 0 <= x < 2 ^ 32 -> 0 < n -> (x - y) mod n = 0 -> u32 x mod n = y mod n.
Proof.
  intros Hx Hn Hd. rewrite u32_small by done. replace x with (y + (x - y)) by lia. rewrite <- Z.add_mod_idemp_r, Hd, Z.add_0_r by lia. done.
Qed.

Lemma slide_all d b :
  epoch_ok d b -> W <= totalTicks d ->
  let logs := log_scores d (slidingWindowLogScore b) in
  let '(scores, _) := for_loop (Z.to_nat (totalTicks d)) 0 (slide NC d logs) (replicate NC 0, first_window NC (totalTicks d) logs) in
  alen scores = NUMBER_OF_COMPUTORS /\
  forall c, 0 <= c < NUMBER_OF_COMPUTORS -> scores.[c] = led_score (initialTick d) (tick_score d) (Z.to_nat (totalTicks d)) c.
Proof using HNC.
  pose proof window_size as Hws. intros Hok HW logs. set (n := totalTicks d) in *. pose proof (eo_ticks _ _ Hok) as Hn. fold n in Hn.
  destruct (log_scores_ok d b Hok) as [_ Hlogs]. fold logs n in Hlogs.
  assert (forall i, 0 <= i < n -> 0 <= logs.[i] <= 2 ^ 16) as Hlr by (intros i Hi; rewrite Hlogs by done; by eapply tick_points_range).
  assert (forall t, window (fun i => logs.[i]) n t = window (tick_points d) n t) as Hwin by (intros; apply window_ext; [lia|done]).
  pose (P t st := alen st.1 = NUMBER_OF_COMPUTORS /\ st.2 = window (tick_points d) n t /\
    forall c, 0 <= c < NUMBER_OF_COMPUTORS -> st.1.[c] = led_score (initialTick d) (tick_score d) (Z.to_nat t) c).
  enough (P (0 + Z.of_nat (Z.to_nat n)) (for_loop (Z.to_nat n) 0 (slide NC d logs) (replicate NC 0, first_window NC n logs))) as HP.
  { destruct (for_loop _ _ _ _) as [scores ws]. destruct HP as (P1 & _ & P3). rewrite Z.add_0_l, Nat2Z.id in P3. done. }
  apply (for_loop_ind P).
  - split_and!; cbn [fst snd].
    + apply alen_replicate.
    + rewrite first_window_ok; [apply Hwin|done|]. intros i Hi. rewrite Hlogs by done. unfold tick_points. rewrite lut_size. apply points_range.
      pose proof (eo_counts _ _ Hok i Hi). lia.
    + intros c Hc. rewrite aget_replicate by done. done.
  - intros t [scores ws] Ht (P1 & P2 & P3). cbn [fst snd] in *. unfold slide. fold n.
    assert (0 <= t < n) as Ht' by lia. pose proof (eo_initial _ _ Hok) as Hi. fold n in Hi.
    pose proof (tick_score_range d b t Hok Ht') as Hts.
    assert (u64 (logs.[t] * REVENUE_SCALE * W) / (if ws =? 0 then 1 else ws) = tick_score d t) as ->.
    { rewrite Hlogs by done. unfold tick_score. fold n. pose proof (tick_points_range d b t Hok Ht').
      rewrite u64_small by (unfold is_u64, REVENUE_SCALE; nia). f_equal. rewrite P2.
      pose proof (window_range (tick_points d) n t (2 ^ 16) ltac:(lia) ltac:(intros; by eapply tick_points_range)). destruct (Z.eqb_spec (window (tick_points d) n t) 0); lia. }
    rewrite (u32_small (initialTick d + t)) by (unfold is_u32; lia). fold (leader (initialTick d) t).
    assert (0 <= leader (initialTick d) t < NUMBER_OF_COMPUTORS) as Hld by (apply Z.mod_pos_bound; lia).
    split_and!; cbn [fst snd].
    + by rewrite alen_aset.
    + rewrite (u32_mod_step (t + n - H) (t - H) n) by (first [lia|replace (t + n - H - (t - H)) with n by lia; apply Z_mod_same_full]).
      rewrite (u32_mod_step (t + H + 1) (t + H + 1) n) by (first [lia|rewrite Z.sub_diag; apply Z.mod_0_l; lia]).
      rewrite !Hlogs by (apply Z.mod_pos_bound; lia). rewrite P2, window_step.
      apply u64_small. unfold is_u64. rewrite <- window_step.
      pose proof (window_range (tick_points d) n (t + 1) (2 ^ 16) ltac:(lia) ltac:(intros; by eapply tick_points_range)). nia.
    + intros c Hc. replace (Z.to_nat (t + 1)) with (S (Z.to_nat t)) by lia. rewrite led_score_S, Z2Nat.id by lia.
      pose proof (led_score_range (initialTick d) (tick_score d) (Z.to_nat t) c (2 ^ 21) ltac:(intros; eapply tick_score_range; [done|lia])) as Hls.
      destruct (decide (leader (initialTick d) t = c)) as [<-|Hne].
      * rewrite aget_aset_eq by lia. rewrite P3 by done. apply u64_small. unfold is_u64. nia.
      * rewrite aget_aset_ne, P3 by done. lia.
Qed.

Definition factor (score : list Z) (c : Z) : Z := Z.min REVENUE_SCALE (REVENUE_SCALE * score.[c] / getQuorumScore QUORUM score NC QUORUM).

(** Nobody has a score. *)
Abbreviation inactive score := (Forall (fun c => score.[c] = 0) (seqZ 0 NUMBER_OF_COMPUTORS)).
(** The factor where an idle epoch gives everyone the full factor. *)
Definition valved_factor (score : list Z) (c : Z) : Z := if decide (inactive score) then REVENUE_SCALE else factor score c.

Lemma has_activity_spec score : has_activity NC score = false <-> inactive score.
Proof.
  unfold has_activity. rewrite Forall_forall, <- not_true_iff_false, existsb_exists. split.
  - intros Hn c Hin. destruct (decide (score.[c] = 0)) as [|Hne]; [done|]. destruct Hn. exists c.
    split; [by apply list_elem_of_In|]. by apply negb_true_iff, Z.eqb_neq.
  - intros Hall (c & Hin & Hc). apply negb_true_iff, Z.eqb_neq in Hc. apply Hc, Hall. by apply list_elem_of_In.
Qed.

Lemma combine_v2_ok tx oracle mining :
  0 <= tx <= REVENUE_SCALE -> 0 <= oracle <= REVENUE_SCALE -> 0 <= mining <= REVENUE_SCALE ->
  let M := (REVENUE_W_TX * tx + REVENUE_W_ORACLE * oracle) / REVENUE_W_SUM in
  combine_v2 NC tx oracle mining =
    REVENUE_IPC NC * (M * (REVENUE_SCALE * REVENUE_SCALE + REVENUE_BONUS_CAP * mining)) / REVENUE_DIVISOR /\
  0 <= combine_v2 NC tx oracle mining <= REVENUE_IPC NC.
Proof using HNC Hipc.
  intros Htx Hor Hm M. unfold combine_v2. assert (0 <= REVENUE_IPC NC) as Hi0 by (unfold REVENUE_IPC, ISSUANCE_RATE; apply Z.div_pos; lia).
  set (ipc := REVENUE_IPC NC) in *. clearbody ipc.
  subst M. change REVENUE_SCALE with 1024 in *. change REVENUE_BONUS_CAP with 256 in *. change REVENUE_W_TX with 17. change REVENUE_W_ORACLE with 3. change REVENUE_W_SUM with 20. change REVENUE_DIVISOR with 1342177280.
  rewrite (u64_small (17 * tx + 3 * oracle)) by (unfold is_u64; lia). set (M := (17 * tx + 3 * oracle) / 20).
  assert (0 <= M <= 1024) as HM by (unfold M; split; [apply Z.div_pos; lia|apply Z.div_le_upper_bound; lia]). clearbody M.
  set (x := M * (1024 * 1024 + 256 * mining)). assert (0 <= x <= 1342177280) as Hx by (unfold x; nia).
  rewrite (u64_small x) by (unfold is_u64; lia). rewrite (u64_small (ipc * x)) by (unfold is_u64; nia).
  assert (0 <= ipc * x / 1342177280 <= ipc) as Hr by (split; [apply Z.div_pos; nia|apply Z.div_le_upper_bound; nia]).
  rewrite s64_small; [done|]. unfold is_s64. nia.
Qed.

Lemma factor_ok score out : is_scores NC score -> alen out = NUMBER_OF_COMPUTORS ->
  forall c, 0 <= c < NUMBER_OF_COMPUTORS -> (computeRevFactor QUORUM score REVENUE_SCALE out NC QUORUM).[c] = factor score c /\ 0 <= factor score c <= REVENUE_SCALE.
Proof using HNC HQ.
  intros Hs Ho c Hc. destruct (computeRevFactor_ok QUORUM score REVENUE_SCALE out NC QUORUM ltac:(lia) Hs ltac:(unfold REVENUE_SCALE; lia) Ho) as (_ & _ & _ & H4).
  destruct (H4 c Hc) as [H5 H6]. unfold factor. rewrite <- H5. done.
Qed.

Lemma valved_factor_ok score out : is_scores NC score -> alen out = NUMBER_OF_COMPUTORS ->
  forall c, 0 <= c < NUMBER_OF_COMPUTORS ->
  (if has_activity NC score then computeRevFactor QUORUM score REVENUE_SCALE out NC QUORUM else full_factor NC out).[c] = valved_factor score c /\
  0 <= valved_factor score c <= REVENUE_SCALE.
Proof using HNC HQ.
  intros Hs Ho c Hc. unfold valved_factor. pose proof (has_activity_spec score) as Hspec. destruct (has_activity NC score), (decide _) as [Hin|Hin].
  - exfalso. assert (true = false) by (by apply Hspec). done.
  - by apply factor_ok.
  - unfold full_factor. destruct (for_fill_all (fun _ => REVENUE_SCALE) NC out ltac:(lia)) as [_ H2]. rewrite H2 by done. unfold REVENUE_SCALE. lia.
  - exfalso. by apply Hin, Hspec.
Qed.

(** the revenue of version 2.  In an epoch shorter than one window everyone gets nothing.  Otherwise the
    sliding window computes what the definition says, without overflow: the transaction score of a computor is the sum, over the
    ticks it leads, of the points of the tick relative to the circular window around it;
    the revenue is the issuance share scaled by the weighted transaction and oracle
    factors (a full oracle factor for everyone if nobody has an oracle score) and the mining bonus, and lies
    between 0 and the issuance share. *)
Theorem revenue_v2 d b :
  epoch_ok d b ->
  let d' := (computeRevenueV2 NC QUORUM d b).1 in
  if decide (totalTicks d < W)
  then forall c, 0 <= c < NUMBER_OF_COMPUTORS -> (slidingWindowTxScore d').[c] = 0 /\ (v2Revenue d').[c] = 0
  else forall c, 0 <= c < NUMBER_OF_COMPUTORS ->
    let M := (REVENUE_W_TX * factor (slidingWindowTxScore d') c + REVENUE_W_ORACLE * valved_factor (oracleScore d) c) / REVENUE_W_SUM in
    (slidingWindowTxScore d').[c] = led_score (initialTick d) (tick_score d) (Z.to_nat (totalTicks d)) c /\
    (v2Revenue d').[c] =
      REVENUE_IPC NC * (M * (REVENUE_SCALE * REVENUE_SCALE + REVENUE_BONUS_CAP * factor (dogeMiningScore d) c)) / REVENUE_DIVISOR /\
    0 <= (v2Revenue d').[c] <= REVENUE_IPC NC.
Proof using HNC HQ Hipc.
  intros Hok. unfold computeRevenueV2. destruct (Z.ltb_spec (totalTicks d) W) as [Hlt|Hge].
  { rewrite decide_True by done. intros c Hc. cbn. by rewrite !aget_replicate by done. }
  rewrite decide_False by lia. pose proof (slide_all d b Hok Hge) as Hs. pose proof (eo_ticks _ _ Hok). destruct (eo_factors _ _ Hok) as (F1 & F2 & F3). cbn zeta in Hs.
  destruct (for_loop _ _ _ _) as [scores ws]. destruct Hs as [Hl Hs]. cbn [fst set_result slidingWindowTxScore v2Revenue].
  intros c Hc. assert (is_scores NC scores) as Hsc.
  { intros i Hi. rewrite Hs by done.
    pose proof (led_score_range (initialTick d) (tick_score d) (Z.to_nat (totalTicks d)) i (2 ^ 21) ltac:(intros; eapply tick_score_range; [done|lia])). lia. }
  split; [by apply Hs|]. rewrite (proj2 (for_fill_all _ NC (v2Revenue d) ltac:(rewrite (eo_revenue _ _ Hok); lia))) by done.
  destruct (factor_ok scores (txFactor b) Hsc F1 c Hc) as [E1 R1].
  destruct (valved_factor_ok (oracleScore d) (oracleFactor b) (eo_oracle _ _ Hok) F2 c Hc) as [E2 R2].
  destruct (factor_ok (dogeMiningScore d) (miningFactor b) (eo_doge _ _ Hok) F3 c Hc) as [E3 R3].
  rewrite E1, E2, E3. by apply combine_v2_ok.
Qed.
End Windows.

(** Three computors, a quorum of two: the quorum score is 20. *)
Lemma revenue_factor_witness :
  computeRevFactor 2 [10; 40; 20] 1024 [0; 0; 0] 3 2 = [512; 1024; 1024] /\
  (computeRevFactor 2 [10; 40; 20] 1024 [0; 0; 0] 3 2).[0] = Z.min 1024 (1024 * 10 / getQuorumScore 2 [10; 40; 20] 3 2).
Proof.
  split; [vm_compute; reflexivity|].
  apply (revenue_factor 2 [10; 40; 20] 1024 [0; 0; 0] 3 2); [lia| |lia|done|lia].
  intros i Hi. assert (i = 0 \/ i = 1 \/ i = 2) as [-> | [-> | ->]] by lia; vm_compute; intuition discriminate.
Defined.

(** The network's 676 computors, an epoch of 1351 ticks with 5 transactions each. *)
Lemma revenue_v2_witness :
  let d := mkEpoch 100 1351 (replicate 676 0) (replicate 676 0) (replicate 676 0) (replicate 676 0)
    (replicate 1351 5) (replicate 1351 0) (replicate 1351 0) (replicate 1351 0) (replicate 1351 0) in
  let b := mkBuffers (replicate 1351 0) (replicate 676 0) (replicate 676 0) (replicate 676 0) in
  0 <= (v2Revenue (computeRevenueV2 676 451 d b).1).[7] <= REVENUE_IPC 676.
Proof.
  intros d b. pose proof (revenue_v2 676 ltac:(lia) 451 ltac:(lia) ltac:(vm_compute; reflexivity) d b) as Hrev.
  assert (epoch_ok 676 d b) as Hok.
  { assert (forall n i, 0 <= i < Z.of_nat n -> (replicate n 0).[i] = 0) as Hz by (intros; by rewrite aget_replicate).
    split; unfold d, b; cbn [initialTick totalTicks oracleScore dogeMiningScore v2Revenue perTickTxCount slidingWindowLogScore txFactor oracleFactor miningFactor];
      rewrite ?alen_replicate; try lia.
    - intros t Ht. rewrite aget_replicate; lia.
    - intros i Hi. rewrite Hz; lia.
    - intros i Hi. rewrite Hz; lia. }
  specialize (Hrev Hok). cbv zeta in Hrev. rewrite decide_False in Hrev by (vm_compute; discriminate).
  apply (Hrev 7). lia.
Defined.
