(* ===== verification/RevenueStream.v ===== *)
(** * Multi-dimensional revenue (src/revenue.h)

    The transactions of a tick are observed in several dimensions: one per computor that sends protocol
    transactions, one per contract, one for the rest.  The score of a tick compares the observation with
    the window of ticks around it, in the Euclidean norm of the deficits.  The node works on the
    stream of ticks: a ring buffer keeps the last window, a running sum scores the interior
    ticks, a frozen head keeps the first ticks so that the ticks at both ends of the epoch
    can be scored at the end, when the window wraps around. *)
From S2P Require Import Prelude MathLib Revenue.

Definition m_SRC_COMPUTOR : Z := 1.
Definition m_CONTRACT : Z := 1.
Definition m_TRANSFER : Z := 1.

(** [MultiDimRevenue] *)
Record MultiDimRevenue := mkMulti {
  md_initialTick : Z;
  md_totalTicks : Z;
  revenueRing : list Z;
  revenueHead : list Z;
  windowSum : list Z;
  txScore : list Z;
  revenue : list Z
}.

Definition set_txScore (s : list Z) (m : MultiDimRevenue) : MultiDimRevenue :=
  mkMulti (md_initialTick m) (md_totalTicks m) (revenueRing m) (revenueHead m) (windowSum m) s (revenue m).
Definition set_windowSum (s : list Z) (m : MultiDimRevenue) : MultiDimRevenue :=
  mkMulti (md_initialTick m) (md_totalTicks m) (revenueRing m) (revenueHead m) s (txScore m) (revenue m).
Definition set_revenue (s : list Z) (m : MultiDimRevenue) : MultiDimRevenue :=
  mkMulti (md_initialTick m) (md_totalTicks m) (revenueRing m) (revenueHead m) (windowSum m) (txScore m) s.

(** A pointer to a row of observations, by its offset in the ring or in the head. *)
Inductive Row := InRing (off : Z) | InHead (off : Z).
Definition row_at (m : MultiDimRevenue) (r : Row) (d : Z) : Z :=
  match r with InRing off => (revenueRing m).[off + d] | InHead off => (revenueHead m).[off + d] end.

Section Stream.
(** [NUMBER_OF_COMPUTORS], [contractCount] and [QUORUM] *)
Variables NC CC : nat.
Variable QUORUM : Z.
Abbreviation NUMBER_OF_COMPUTORS := (Z.of_nat NC).
Abbreviation H := (REVENUE_HALF_WINDOW NC).
Abbreviation W := (REVENUE_WINDOW_SIZE NC).
Definition REVENUE_CONTRACT_DIMS : Z := Z.of_nat CC.
Definition REVENUE_TX_DIM : Z := NUMBER_OF_COMPUTORS + REVENUE_CONTRACT_DIMS + 1.
Abbreviation DIM := (Z.to_nat REVENUE_TX_DIM).

Definition ringRow (t : Z) : Row := InRing (u64 (t mod W * REVENUE_TX_DIM)).
Definition headRow (t : Z) : Row := InHead (u64 (t * REVENUE_TX_DIM)).

Definition revenueMul (d : Z) : Z :=
  if d <? NUMBER_OF_COMPUTORS then m_SRC_COMPUTOR
  else if d <? NUMBER_OF_COMPUTORS + REVENUE_CONTRACT_DIMS then m_CONTRACT
  else m_TRANSFER.

Definition finalizeTickScore (tickOffset : Z) (observed : Row) (windowSum : list Z) (m : MultiDimRevenue) : MultiDimRevenue :=
  let '(sumDef, sumCap) :=
    for_loop DIM 0
      (fun d '(sumDef, sumCap) =>
         let ws := windowSum.[d] in
         let wo := u64 (W * row_at m observed d) in
         let mul := revenueMul d in
         let deficit := if ws <=? wo then 0 else u64 (mul * (ws - wo)) in
         let cap := u64 (mul * ws) in
         (u64 (sumDef + deficit * deficit), u64 (sumCap + cap * cap))) (0, 0) in
  let tickScore :=
    if sumCap =? 0 then REVENUE_SCALE
    else
      let pen := irootK64 2 sumDef in
      let cap := irootK64 2 sumCap in
      u64 (REVENUE_SCALE - u64 (REVENUE_SCALE * pen) / cap) in
  let leader := u32 (md_initialTick m + tickOffset) mod NUMBER_OF_COMPUTORS in
  set_txScore ((txScore m).[leader := u64 ((txScore m).[leader] + tickScore)]) m.

(** The body of the loop that writes the tick into the ring, the sums and the head. *)
Definition write_dim (off : Z) (h : option Z) (obs : list Z) (d : Z) (m : MultiDimRevenue) : MultiDimRevenue :=
  let v := u16 (obs.[d]) in
  mkMulti (md_initialTick m) (md_totalTicks m)
    ((revenueRing m).[off + d := v])
    (match h with Some hoff => (revenueHead m).[hoff + d := v] | None => revenueHead m end)
    ((windowSum m).[d := u64 ((windowSum m).[d] + v)]) (txScore m) (revenue m).

Definition revenueOnTick (tickOffset : Z) (obs : list Z) (m : MultiDimRevenue) : MultiDimRevenue :=
  let off := u64 (tickOffset mod W * REVENUE_TX_DIM) in
  let m :=
    if W <=? tickOffset
    then set_windowSum (for_loop DIM 0 (fun d ws => ws.[d := u64 (ws.[d] - (revenueRing m).[off + d])]) (windowSum m)) m
    else m in
  let inHead := tickOffset <? 2 * H in
  let h := if inHead then Some (u64 (tickOffset * REVENUE_TX_DIM)) else None in
  let m := for_loop DIM 0 (write_dim off h obs) m in
  if 2 * H <=? tickOffset then
    let c := tickOffset - H in finalizeTickScore c (ringRow c) (windowSum m) m
  else m.

Definition obsAt (x : Z) : Row := if x <? 2 * H then headRow x else ringRow x.

(** One step along the ticks at the ends of the epoch: [c] and [edgeWindowSum] change with it. *)
Definition edge_step (tickEdge : Z) (step : Z) (st : MultiDimRevenue * list Z * Z) : MultiDimRevenue * list Z * Z :=
  let '(m, edgeWindowSum, c) := st in
  let m := finalizeTickScore c (obsAt c) edgeWindowSum m in
  if step + 1 =? 2 * H then (m, edgeWindowSum, c)
  else
    let leaving := if H <=? c then c - H else u32 (c + tickEdge - H) in
    let entering := if u32 (c + H + 1) <? tickEdge then c + H + 1 else c + H + 1 - tickEdge in
    let lv := obsAt leaving in
    let en := obsAt entering in
    let edgeWindowSum := for_loop DIM 0 (fun d ws => ws.[d := u64 (ws.[d] - row_at m lv d + row_at m en d)]) edgeWindowSum in
    (m, edgeWindowSum, if u32 (c + 1) <? tickEdge then c + 1 else 0).

(** Adding a row to the sums. *)
Definition add_row (m : MultiDimRevenue) (row : Row) (edgeWindowSum : list Z) : list Z :=
  for_loop DIM 0 (fun d ws => ws.[d := u64 (ws.[d] + row_at m row d)]) edgeWindowSum.

Definition scoreEpochEdgeTicks (tickEdge : Z) (m : MultiDimRevenue) : MultiDimRevenue :=
  if tickEdge <? W then m
  else
    let edgeWindowSum := for_loop (Z.to_nat (2 * H)) (tickEdge - 2 * H) (fun x => add_row m (ringRow x)) (replicate DIM 0) in
    let edgeWindowSum := add_row m (headRow 0) edgeWindowSum in
    let '(m, _, _) := for_loop (Z.to_nat (2 * H)) 0 (edge_step tickEdge) (m, edgeWindowSum, tickEdge - H) in
    m.

Definition combine_multi (txFactor oracleFactor dogeFactor sPowKm1 : Z) : Z :=
  let dogeRootScaled := irootK64 REVENUE_DOGE_K (u64 (dogeFactor * sPowKm1)) in
  let num := u64 (u64 (u64 (REVENUE_IPC NC * txFactor) * oracleFactor) * dogeRootScaled) in
  s64 (num / (REVENUE_SCALE * REVENUE_SCALE * REVENUE_SCALE)).

(** The local arrays are static; every entry is written before it is read. *)
Definition computeMultiDimRevenue (e : EpochRevenueData) (m : MultiDimRevenue) : MultiDimRevenue :=
  let buf := replicate NC 0 in
  let m := scoreEpochEdgeTicks (totalTicks e) m in
  let txFactor := computeRevFactor QUORUM (txScore m) REVENUE_SCALE buf NC QUORUM in
  let oracleFactor :=
    if has_activity NC (oracleScore e) then computeRevFactor QUORUM (oracleScore e) REVENUE_SCALE buf NC QUORUM
    else full_factor NC buf in
  let dogeFactor :=
    if negb REVENUE_DOGE_DISABLED && has_activity NC (dogeMiningScore e)
    then computeRevFactor QUORUM (dogeMiningScore e) REVENUE_SCALE buf NC QUORUM
    else full_factor NC buf in
  let sPowKm1 := ipow REVENUE_SCALE (REVENUE_DOGE_K - 1) in
  set_revenue
    (for_loop NC 0 (fun i r => r.[i := combine_multi (txFactor.[i]) (oracleFactor.[i]) (dogeFactor.[i]) sPowKm1]) (revenue m)) m.

(** The state at the start of an epoch (beginEpoch), and after the ticks [0 .. n-1] with their observations. *)
Definition startRevenue (initial : Z) : MultiDimRevenue :=
  mkMulti initial 0 (replicate (Z.to_nat (W * REVENUE_TX_DIM)) 0) (replicate (Z.to_nat (2 * H * REVENUE_TX_DIM)) 0)
    (replicate DIM 0) (replicate NC 0) (replicate NC 0).
Definition streamTicks (obs : Z -> list Z) (n : nat) (m : MultiDimRevenue) : MultiDimRevenue :=
  for_loop n 0 (fun t => revenueOnTick t (obs t)) m.
End Stream.

(** ** The score of one tick *)
Section StreamSpec.
Variables NC CC : nat.
Hypothesis HNC : (1 <= NC <= 1024)%nat.
Abbreviation NUMBER_OF_COMPUTORS := (Z.of_nat NC).
Abbreviation H := (REVENUE_HALF_WINDOW NC).
Abbreviation W := (REVENUE_WINDOW_SIZE NC).
Abbreviation D := (REVENUE_TX_DIM NC CC).
Abbreviation DIM := (Z.to_nat D).
Hypothesis HDIM : D < 2 ^ 32.
(** [NUMBER_OF_TRANSACTIONS_PER_TICK]; the source's static_assert on the sum of squares. *)
Variable NTX : Z.
Hypothesis HNTX : 0 <= NTX < 2 ^ 16.
Hypothesis Hsquares : D * (NTX * W * (NTX * W)) < 2 ^ 64.

Lemma dims : 2 <= D /\ Z.of_nat DIM = D.
Proof. unfold REVENUE_TX_DIM, REVENUE_CONTRACT_DIMS in *. lia. Qed.

(** The Euclidean norms of the deficits and of the window; the score of a tick from its observation and the sums of
    the window around it. *)
Definition deficits (row ws : Z -> Z) : Z := sumZ (fun d => Z.max 0 (ws d - W * row d) ^ 2) DIM.
Definition norms (ws : Z -> Z) : Z := sumZ (fun d => ws d ^ 2) DIM.
Definition score_of (row ws : Z -> Z) : Z :=
  if decide (norms ws = 0) then REVENUE_SCALE
  else REVENUE_SCALE - REVENUE_SCALE * Z.sqrt (deficits row ws) / Z.sqrt (norms ws).

Lemma score_of_ext row row' ws ws' :
  (forall d, 0 <= d < D -> row d = row' d) -> (forall d, 0 <= d < D -> ws d = ws' d) -> score_of row ws = score_of row' ws'.
Proof.
  pose proof dims. intros Hr Hw. unfold score_of, norms, deficits.
  rewrite (sumZ_ext (fun d => ws d ^ 2) (fun d => ws' d ^ 2) DIM) by (intros; rewrite Hw by lia; done).
  rewrite (sumZ_ext (fun d => Z.max 0 (ws d - W * row d) ^ 2) (fun d => Z.max 0 (ws' d - W * row' d) ^ 2) DIM) by (intros; rewrite Hw, Hr by lia; done).
  done.
Qed.

Definition row_ok (row : Z -> Z) : Prop := forall d, 0 <= d < D -> 0 <= row d <= NTX.
Definition sums_ok (ws : Z -> Z) : Prop := forall d, 0 <= d < D -> 0 <= ws d <= NTX * W.

Lemma square_le a b : 0 <= a <= b -> 0 <= a ^ 2 <= b ^ 2.
Proof. intros Hab. rewrite !Z.pow_2_r. nia. Qed.

Lemma norms_range row ws : row_ok row -> sums_ok ws -> 0 <= deficits row ws <= norms ws /\ norms ws < 2 ^ 64.
Proof.
  pose proof dims as [_ Hd]. pose proof (window_size NC HNC) as Hws. intros Hr Hs. split.
  - split.
    + apply sumZ_nonneg. intros d _. apply Z.pow_nonneg. lia.
    + apply sumZ_le. intros d Hi. specialize (Hr d ltac:(lia)). specialize (Hs d ltac:(lia)). apply square_le. nia.
  - pose proof (sumZ_bound (fun d => ws d ^ 2) DIM ((NTX * W) ^ 2)) as Hb. unfold norms. rewrite Hd in Hb. rewrite Z.pow_2_r in Hb.
    enough (sumZ (fun d => ws d ^ 2) DIM <= NTX * W * (NTX * W) * D) by lia. apply Hb.
    intros d Hi. rewrite <- Z.pow_2_r. apply square_le, Hs. lia.
Qed.

Lemma score_of_range row ws : row_ok row -> sums_ok ws -> 0 <= score_of row ws <= REVENUE_SCALE.
Proof.
  intros Hr Hs. destruct (norms_range row ws Hr Hs) as [Hn _]. unfold score_of, REVENUE_SCALE. case_decide as Hz; [lia|].
  pose proof (Z.sqrt_le_mono (deficits row ws) (norms ws) ltac:(lia)). pose proof (Z.sqrt_nonneg (deficits row ws)).
  assert (0 < Z.sqrt (norms ws)) by (apply Z.sqrt_pos; lia).
  assert (0 <= 1024 * Z.sqrt (deficits row ws) / Z.sqrt (norms ws)) by (apply Z.div_pos; lia).
  assert (1024 * Z.sqrt (deficits row ws) / Z.sqrt (norms ws) <= 1024) by (apply Z.div_le_upper_bound; lia). lia.
Qed.

Lemma revenueMul_one d : revenueMul NC CC d = 1.
Proof. unfold revenueMul. by repeat destruct (_ <? _). Qed.

(** The loop over the dimensions computes the two norms. *)
Lemma norm_loop (row ws : Z -> Z) (rowl wsl : Z -> Z) :
  row_ok row -> sums_ok ws -> (forall d, 0 <= d < D -> rowl d = row d) -> (forall d, 0 <= d < D -> wsl d = ws d) ->
  for_loop DIM 0
    (fun d '(sumDef, sumCap) =>
       let wo := u64 (W * rowl d) in
       let mul := revenueMul NC CC d in
       let deficit := if wsl d <=? wo then 0 else u64 (mul * (wsl d - wo)) in
       let cap := u64 (mul * wsl d) in
       (u64 (sumDef + deficit * deficit), u64 (sumCap + cap * cap))) (0, 0) = (deficits row ws, norms ws).
Proof.
  pose proof dims as [HD2 Hd]. pose proof (window_size NC HNC) as Hws. intros Hr Hs Er Es. destruct (norms_range row ws Hr Hs) as [Hn Hn64].
  pose (P i (st : Z * Z) := st = (sumZ (fun d => Z.max 0 (ws d - W * row d) ^ 2) (Z.to_nat i), sumZ (fun d => ws d ^ 2) (Z.to_nat i))).
  match goal with |- ?l = _ => assert (P (0 + Z.of_nat DIM) l) as HP end.
  - apply (for_loop_ind P); [done|]. intros i st Hi ->. unfold P. replace (Z.to_nat (i + 1)) with (S (Z.to_nat i)) by lia.
    pose proof (Hr i ltac:(lia)) as Hri. pose proof (Hs i ltac:(lia)) as Hsi.
    rewrite Er, Es, revenueMul_one, !Z.mul_1_l by lia. cbn [sumZ]. rewrite Z2Nat.id by lia.
    assert (forall f, (forall d, 0 <= d < D -> 0 <= f d) -> sumZ f DIM < 2 ^ 64 -> is_u64 (sumZ f (Z.to_nat i) + f i)) as Hsmall.
    { intros f Hf Hlt. pose proof (sumZ_prefix f (S (Z.to_nat i)) DIM ltac:(lia) ltac:(intros; apply Hf; lia)) as Hp. cbn [sumZ] in Hp.
      rewrite Z2Nat.id in Hp by lia. pose proof (sumZ_nonneg f (Z.to_nat i) ltac:(intros; apply Hf; lia)). specialize (Hf i ltac:(lia)). unfold is_u64. lia. }
    assert (NTX * W < 2 ^ 32) by nia.
    rewrite (u64_small (W * row i)) by (unfold is_u64; nia). rewrite (u64_small (ws i)) by (unfold is_u64; lia).
    assert ((if ws i <=? W * row i then 0 else u64 (ws i - W * row i)) = Z.max 0 (ws i - W * row i)) as ->.
    { destruct (Z.leb_spec (ws i) (W * row i)); [lia|]. rewrite u64_small by (unfold is_u64; nia). lia. }
    rewrite <- !Z.pow_2_r. f_equal; apply u64_small; [apply (Hsmall (fun d => Z.max 0 (ws d - W * row d) ^ 2))|apply (Hsmall (fun d => ws d ^ 2))]; try (intros; apply Z.pow_nonneg; lia).
    + unfold deficits in Hn. lia.
    + intros d Hdd. apply Z.pow_nonneg, Hs. lia.
    + exact Hn64.
  - etrans; [exact HP|]. by rewrite Z.add_0_l, Nat2Z.id.
Qed.

(** Finalizing tick [t] adds its score to its leader's. *)
Definition credited (initial t score : Z) (tx : list Z) : list Z :=
  tx.[leader NC initial t := tx.[leader NC initial t] + score].

Lemma finalize_ok t r wsl (row ws : Z -> Z) m :
  row_ok row -> sums_ok ws -> (forall d, 0 <= d < D -> row_at m r d = row d) -> (forall d, 0 <= d < D -> wsl.[d] = ws d) ->
  0 <= md_initialTick m + t < 2 ^ 32 -> 0 <= (txScore m).[leader NC (md_initialTick m) t] < 2 ^ 63 ->
  finalizeTickScore NC CC t r wsl m = set_txScore (credited (md_initialTick m) t (score_of row ws) (txScore m)) m.
Proof.
  intros Hr Hs Er Es Ht Htx. unfold finalizeTickScore. rewrite (norm_loop row ws (row_at m r) (fun d => wsl.[d])) by done.
  destruct (norms_range row ws Hr Hs) as [Hn Hn64]. pose proof (score_of_range row ws Hr Hs) as Hsc.
  assert ((if norms ws =? 0 then REVENUE_SCALE
    else u64 (REVENUE_SCALE - u64 (REVENUE_SCALE * irootK64 2 (deficits row ws)) / irootK64 2 (norms ws))) = score_of row ws) as ->.
  { unfold score_of in *. destruct (Z.eqb_spec (norms ws) 0); [by rewrite decide_True|]. rewrite decide_False in * by done.
    rewrite !irootK64_sqrt by (unfold is_u64; lia).
    assert (Z.sqrt (deficits row ws) < 2 ^ 32) by (apply Z.sqrt_lt_square; lia). pose proof (Z.sqrt_nonneg (deficits row ws)).
    rewrite (u64_small (REVENUE_SCALE * _)) by (unfold is_u64, REVENUE_SCALE in *; lia). apply u64_small. unfold is_u64. unfold REVENUE_SCALE in *. lia. }
  rewrite u32_small by done. unfold credited. fold (leader NC (md_initialTick m) t). rewrite u64_small by (unfold is_u64; unfold REVENUE_SCALE in *; lia). done.
Qed.

(** ** The stream of ticks *)
Variable o : Z -> list Z.
Hypothesis Ho : forall t, row_ok (fun d => (o t).[d]).

(** The sum of dimension [d] over [len] ticks from [a]; the score of an interior tick. *)
Definition span (a : Z) (len : nat) (d : Z) : Z := sumZ (fun k => (o (a + k)).[d]) len.
Definition plain_score (t : Z) : Z := score_of (fun d => (o t).[d]) (span (t - H) (Z.to_nat W)).

Lemma span_range a len d : Z.of_nat len <= W -> 0 <= d < D -> 0 <= span a len d <= NTX * W.
Proof.
  intros Hl Hd. pose proof (sumZ_bound (fun k => (o (a + k)).[d]) len NTX ltac:(intros; apply Ho; lia)) as Hb. unfold span. nia.
Qed.

Lemma span_snoc a len d : span a (S len) d = span a len d + (o (a + Z.of_nat len)).[d].
Proof. done. Qed.

Lemma span_shift a len d : span (a + 1) len d = span a len d - (o a).[d] + (o (a + Z.of_nat len)).[d].
Proof. exact (sumZ_shift (fun t => (o t).[d]) a len). Qed.

Lemma plain_score_range t : 0 <= plain_score t <= REVENUE_SCALE.
Proof.
  pose proof (window_size NC HNC). apply score_of_range; [apply Ho|]. intros d Hd. apply span_range; lia.
Qed.

(** What the arrays hold after the ticks [0 .. n-1]. *)
Record arrays_ok (n : Z) (m : MultiDimRevenue) : Prop := {
  ao_ring_len : alen (revenueRing m) = W * D;
  ao_head_len : alen (revenueHead m) = 2 * H * D;
  ao_sum_len : alen (windowSum m) = D;
  ao_ring : forall t d, 0 <= t -> n - W <= t < n -> 0 <= d < D -> (revenueRing m).[t mod W * D + d] = (o t).[d];
  ao_head : forall t d, 0 <= t < n -> t < 2 * H -> 0 <= d < D -> (revenueHead m).[t * D + d] = (o t).[d];
  ao_sum : forall d, 0 <= d < D -> (windowSum m).[d] = span (Z.max 0 (n - W)) (Z.to_nat (Z.min n W)) d
}.

Lemma cell_inj r r' d d' : 0 <= d < D -> 0 <= d' < D -> r * D + d = r' * D + d' -> r = r' /\ d = d'.
Proof. intros Hd Hd' Heq. assert (r = r') by nia. lia. Qed.

Lemma cell_range r n d : 0 <= r < n -> 0 <= d < D -> 0 <= r * D + d < n * D.
Proof. intros Hr Hd. nia. Qed.

(** Two ticks less than a window apart are in different slots. *)
Lemma slot_inj t t' : t' - W < t < t' -> t mod W <> t' mod W.
Proof.
  pose proof (window_size NC HNC) as Hws. intros Ht Heq. pose proof (Z.div_mod t W ltac:(lia)) as E1. pose proof (Z.div_mod t' W ltac:(lia)) as E2.
  rewrite Heq in E1. set (a := t / W) in *. set (b := t' / W) in *. clearbody a b. assert (b - a <= 0 \/ 1 <= b - a) by lia. nia.
Qed.

Lemma ring_off t : 0 <= t -> u64 (t mod W * D) = t mod W * D.
Proof.
  pose proof (window_size NC HNC) as Hws. pose proof dims. intros Ht. pose proof (Z.mod_pos_bound t W ltac:(lia)). apply u64_small. unfold is_u64. nia.
Qed.

Lemma head_off t : 0 <= t <= 2 * H -> u64 (t * D) = t * D.
Proof. pose proof (window_size NC HNC) as Hws. pose proof dims. intros Ht. apply u64_small. unfold is_u64. nia. Qed.

(** The loop that writes one observation. *)
Lemma write_ok off h obs m :
  row_ok (fun d => obs.[d]) -> 0 <= off -> off + D <= alen (revenueRing m) -> alen (windowSum m) = D ->
  (forall d, 0 <= d < D -> 0 <= (windowSum m).[d] < 2 ^ 63) ->
  (forall hoff, h = Some hoff -> 0 <= hoff /\ hoff + D <= alen (revenueHead m)) ->
  let m' := for_loop DIM 0 (write_dim off h obs) m in
  md_initialTick m' = md_initialTick m /\ txScore m' = txScore m /\ revenue m' = revenue m /\
  alen (revenueRing m') = alen (revenueRing m) /\ alen (revenueHead m') = alen (revenueHead m) /\ alen (windowSum m') = D /\
  (forall i, (revenueRing m').[i] = if decide (off <= i < off + D) then obs.[i - off] else (revenueRing m).[i]) /\
  (forall i, (revenueHead m').[i] =
     match h with Some hoff => if decide (hoff <= i < hoff + D) then obs.[i - hoff] else (revenueHead m).[i] | None => (revenueHead m).[i] end) /\
  (forall d, 0 <= d < D -> (windowSum m').[d] = (windowSum m).[d] + obs.[d]).
Proof.
  pose proof dims as [HD2 HD]. intros Hobs Ho0 Hol Hsl Hs Hh m'.
  pose (P k m' := md_initialTick m' = md_initialTick m /\ txScore m' = txScore m /\ revenue m' = revenue m /\
    alen (revenueRing m') = alen (revenueRing m) /\ alen (revenueHead m') = alen (revenueHead m) /\ alen (windowSum m') = D /\
    (forall i, (revenueRing m').[i] = if decide (off <= i < off + k) then obs.[i - off] else (revenueRing m).[i]) /\
    (forall i, (revenueHead m').[i] =
       match h with Some hoff => if decide (hoff <= i < hoff + k) then obs.[i - hoff] else (revenueHead m).[i] | None => (revenueHead m).[i] end) /\
    (forall d, (windowSum m').[d] = if decide (0 <= d < k) then (windowSum m).[d] + obs.[d] else (windowSum m).[d])).
  assert (P (0 + Z.of_nat DIM) m') as HP; [|destruct HP as (P1 & P2 & P3 & P4 & P5 & P6 & P7 & P8 & P9)].
  2: { rewrite Z.add_0_l, HD in P7, P8, P9. split_and!; try done. intros d Hd. by rewrite P9, decide_True by lia. }
  apply (for_loop_ind P).
  - split_and!; try done; intros i; [by destruct (decide _); [lia|]| |by destruct (decide _); [lia|]]. destruct h; [|done]. by destruct (decide _); [lia|].
  - intros k m1 Hk (P1 & P2 & P3 & P4 & P5 & P6 & P7 & P8 & P9). pose proof (Hobs k ltac:(lia)) as Hv. cbn beta in Hv.
    unfold write_dim. change (u16 (obs.[k])) with (obs.[k] mod 2 ^ 16). rewrite (Z.mod_small (obs.[k])) by lia. unfold P. cbn [md_initialTick txScore revenue revenueRing revenueHead windowSum].
    split_and!; try done; rewrite ?alen_aset; try done.
    + destruct h; [by rewrite alen_aset|done].
    + intros i. destruct (decide (i = off + k)) as [->|].
      * rewrite aget_aset_eq, decide_True by lia. f_equal. lia.
      * rewrite aget_aset_ne, P7 by lia. by repeat destruct (decide _); try lia.
    + intros i. specialize (P8 i). destruct h as [hoff|]; [|done]. destruct (Hh hoff eq_refl). destruct (decide (i = hoff + k)) as [->|].
      * rewrite aget_aset_eq, decide_True by lia. f_equal. lia.
      * rewrite aget_aset_ne, P8 by lia. by repeat destruct (decide _); try lia.
    + intros d. specialize (Hs k ltac:(lia)). destruct (decide (d = k)) as [->|].
      * rewrite aget_aset_eq, P9, decide_False, decide_True by lia. apply u64_small. unfold is_u64. lia.
      * rewrite aget_aset_ne, P9 by lia. by repeat destruct (decide _); try lia.
Qed.

Lemma span_evict n d : W <= n -> span (n - W) (Z.to_nat W) d - (o (n - W)).[d] = span (n - W + 1) (Z.to_nat W - 1) d.
Proof.
  pose proof (window_size NC HNC) as Hws. intros Hn. unfold span.
  pose proof (sumZ_shift (fun t => (o t).[d]) (n - W) (Z.to_nat W - 1)) as Hs. cbn beta in Hs. rewrite Hs.
  replace (Z.to_nat W) with (S (Z.to_nat W - 1)) at 1 by lia. cbn [sumZ]. lia.
Qed.

(** The window after tick [n] has been recorded. *)
Lemma span_record n d : 0 <= n ->
  (if decide (W <= n) then span (n - W) (Z.to_nat W) d - (o (n - W)).[d] else span 0 (Z.to_nat n) d) + (o n).[d] =
  span (Z.max 0 (n + 1 - W)) (Z.to_nat (Z.min (n + 1) W)) d.
Proof.
  pose proof (window_size NC HNC) as Hws. intros Hn. case_decide.
  - rewrite span_evict by done. replace (Z.to_nat (Z.min (n + 1) W)) with (S (Z.to_nat W - 1)) by lia. rewrite span_snoc.
    replace (Z.max 0 (n + 1 - W)) with (n - W + 1) by lia. do 3 f_equal. lia.
  - replace (Z.to_nat (Z.min (n + 1) W)) with (S (Z.to_nat n)) by lia. rewrite span_snoc.
    replace (Z.max 0 (n + 1 - W)) with 0 by lia. do 3 f_equal. lia.
Qed.

(** Recording a tick: the part of [revenueOnTick] before the scoring. *)
Definition recorded (n : Z) (m : MultiDimRevenue) : MultiDimRevenue :=
  let off := u64 (n mod W * D) in
  let m := if W <=? n
    then set_windowSum (for_loop DIM 0 (fun d ws => ws.[d := u64 (ws.[d] - (revenueRing m).[off + d])]) (windowSum m)) m else m in
  for_loop DIM 0 (write_dim off (if n <? 2 * H then Some (u64 (n * D)) else None) (o n)) m.

(** The eviction leaves the sums of the window without its oldest tick. *)
Lemma evict_ok n m : 0 <= n -> arrays_ok n m ->
  let off := n mod W * D in
  let m1 := if W <=? n
    then set_windowSum (for_loop DIM 0 (fun d ws => ws.[d := u64 (ws.[d] - (revenueRing m).[off + d])]) (windowSum m)) m else m in
  alen (windowSum m1) = D /\
  forall d, 0 <= d < D -> (windowSum m1).[d] = (if decide (W <= n) then span (n - W) (Z.to_nat W) d - (o (n - W)).[d] else span 0 (Z.to_nat n) d) /\
    0 <= (windowSum m1).[d] <= NTX * W.
Proof.
  pose proof (window_size NC HNC) as Hws. pose proof dims as [HD2 HD]. intros Hn [L1 L2 L3 R1 R2 R3]. destruct (Z.leb_spec W n) as [Hle|Hlt]; cbn zeta.
  - cbn [windowSum set_windowSum].
    destruct (for_update (fun d x => u64 (x - (revenueRing m).[n mod W * D + d])) DIM (windowSum m) ltac:(lia)) as [U1 U2].
    split; [by rewrite U1|]. intros d Hd. rewrite U2, R3, decide_True by lia.
    replace (n mod W) with ((n - W) mod W) by (rewrite <- (Z_mod_plus_full (n - W) 1 W); f_equal; lia). rewrite R1 by lia.
    replace (Z.max 0 (n - W)) with (n - W) by lia. replace (Z.min n W) with W by lia.
    pose proof (span_range (n - W + 1) (Z.to_nat W - 1) d ltac:(lia) Hd) as Hr. rewrite <- span_evict in Hr by lia.
    rewrite u64_small by (unfold is_u64; nia). done.
  - split; [done|]. intros d Hd. rewrite R3, decide_False by lia. replace (Z.max 0 (n - W)) with 0 by lia. replace (Z.min n W) with n by lia.
    split; [done|]. apply span_range; lia.
Qed.

Lemma recorded_ok n m : 0 <= n -> arrays_ok n m ->
  arrays_ok (n + 1) (recorded n m) /\
  md_initialTick (recorded n m) = md_initialTick m /\ txScore (recorded n m) = txScore m /\ revenue (recorded n m) = revenue m.
Proof.
  pose proof (window_size NC HNC) as Hws. pose proof dims as [HD2 HD]. intros Hn Hok. pose proof (evict_ok n m Hn Hok) as He.
  unfold recorded. rewrite ring_off by done. cbn zeta in *. set (off := n mod W * D) in *. set (m1 := if W <=? n then _ else m) in *. destruct He as [E1 E2].
  assert (revenueRing m1 = revenueRing m /\ revenueHead m1 = revenueHead m /\ md_initialTick m1 = md_initialTick m /\ txScore m1 = txScore m /\ revenue m1 = revenue m)
    as (Q1 & Q2 & Q3 & Q4 & Q5) by (unfold m1; by destruct (W <=? n)). clearbody m1.
  destruct Hok as [L1 L2 L3 R1 R2 R3]. pose proof (Z.mod_pos_bound n W ltac:(lia)) as Hm.
  destruct (write_ok off (if n <? 2 * H then Some (u64 (n * D)) else None) (o n) m1) as (W1 & W2 & W3 & W4 & W5 & W6 & W7 & W8 & W9);
    [apply Ho|unfold off; nia|rewrite Q1, L1; unfold off; nia|done|intros d Hd; destruct (E2 d Hd); nia| |].
  { intros hoff Hh. destruct (Z.ltb_spec n (2 * H)); [|done]. rewrite head_off in Hh by lia. simplify_eq. rewrite Q2, L2. nia. }
  set (m' := for_loop _ _ _ _) in *. clearbody m'. split; [|by rewrite W1, W2, W3]. split.
  - by rewrite W4, Q1.
  - by rewrite W5, Q2.
  - done.
  - intros t d Ht0 Ht Hd. rewrite W7, Q1. destruct (decide (t = n)) as [->|Hne].
    + rewrite decide_True by (unfold off; lia). f_equal. unfold off. lia.
    + rewrite decide_False; [apply R1; lia|]. intros Hin. pose proof (slot_inj t n ltac:(lia)) as Hs.
      destruct (cell_inj (t mod W) (n mod W) d (t mod W * D + d - off)); unfold off in *; lia.
  - intros t d Ht Hh Hd. rewrite W8, Q2. destruct (Z.ltb_spec n (2 * H)) as [Hn2|Hn2]; [|apply R2; lia]. rewrite head_off by lia.
    destruct (decide (t = n)) as [->|Hne].
    + rewrite decide_True by lia. f_equal. lia.
    + rewrite decide_False; [apply R2; lia|]. intros Hin. destruct (cell_inj t n d (t * D + d - n * D)); lia.
  - intros d Hd. rewrite W9 by done. destruct (E2 d Hd) as [-> _]. by apply span_record.
Qed.

(** The sum of [score] over [len] ticks from [a] that computor [c] leads. *)
Definition led_from (initial : Z) (score : Z -> Z) (a : Z) (len : nat) (c : Z) : Z :=
  sumZ (fun k => if decide (leader NC initial (a + k) = c) then score (a + k) else 0) len.

Lemma led_from_range initial score a len c b :
  (forall t, 0 <= score t <= b) -> 0 <= led_from initial score a len c <= b * Z.of_nat len.
Proof. intros Hs. apply sumZ_bound. intros t _. specialize (Hs (a + t)). case_decide; lia. Qed.

Record scores_ok (initial : Z) (total : Z -> Z) (m : MultiDimRevenue) : Prop := {
  so_initial : md_initialTick m = initial;
  so_len : alen (txScore m) = NUMBER_OF_COMPUTORS;
  so_revenue : alen (revenue m) = NUMBER_OF_COMPUTORS;
  so_score : forall c, 0 <= c < NUMBER_OF_COMPUTORS -> (txScore m).[c] = total c
}.

(** Finalizing a tick whose observation and window are in the arrays. *)
Lemma finalize_step initial total t r wsl (row ws : Z -> Z) m :
  row_ok row -> sums_ok ws -> (forall d, 0 <= d < D -> row_at m r d = row d) -> (forall d, 0 <= d < D -> wsl.[d] = ws d) ->
  0 <= initial + t < 2 ^ 32 -> (forall c, 0 <= total c < 2 ^ 63) -> scores_ok initial total m ->
  let m' := finalizeTickScore NC CC t r wsl m in
  scores_ok initial (fun c => total c + if decide (leader NC initial t = c) then score_of row ws else 0) m' /\
  revenueRing m' = revenueRing m /\ revenueHead m' = revenueHead m /\ windowSum m' = windowSum m.
Proof.
  intros Hr Hs Er Es Ht Htot [S1 S2 S3 S4]. assert (0 <= leader NC initial t < NUMBER_OF_COMPUTORS) as Hld by (apply Z.mod_pos_bound; lia).
  rewrite (finalize_ok t r wsl row ws m Hr Hs Er Es) by (rewrite S1; try done; rewrite S4 by done; apply Htot).
  cbn zeta. split; [|done]. unfold credited. rewrite S1. split; cbn; [done|by rewrite alen_aset|done|].
  intros c Hc. destruct (decide (leader NC initial t = c)) as [<-|Hne]; [rewrite aget_aset_eq by lia; by rewrite S4|].
  rewrite aget_aset_ne, S4 by done. lia.
Qed.

Definition stream_ok (initial n : Z) (m : MultiDimRevenue) : Prop :=
  arrays_ok n m /\ scores_ok initial (led_from initial plain_score H (Z.to_nat (n - 2 * H))) m.

Lemma arrays_ok_ext n m m' :
  revenueRing m' = revenueRing m -> revenueHead m' = revenueHead m -> windowSum m' = windowSum m -> arrays_ok n m -> arrays_ok n m'.
Proof. intros E1 E2 E3 []. split; rewrite ?E1, ?E2, ?E3; done. Qed.

(** A row in the ring is the observation of the tick, as long as it is in the last window. *)
Lemma ringRow_ok n m t d : arrays_ok n m -> 0 <= t -> n - W <= t < n -> 0 <= d < D -> row_at m (ringRow NC CC t) d = (o t).[d].
Proof. intros Hok Ht0 Ht Hd. unfold ringRow. rewrite ring_off by done. apply (ao_ring _ _ Hok); done. Qed.

Lemma revenueOnTick_recorded n m :
  revenueOnTick NC CC n (o n) m =
  if 2 * H <=? n then finalizeTickScore NC CC (n - H) (ringRow NC CC (n - H)) (windowSum (recorded n m)) (recorded n m) else recorded n m.
Proof. done. Qed.

Lemma revenueOnTick_ok initial n m :
  0 <= n < 2 ^ 24 -> 0 <= initial -> initial + n < 2 ^ 32 -> stream_ok initial n m -> stream_ok initial (n + 1) (revenueOnTick NC CC n (o n) m).
Proof.
  pose proof (window_size NC HNC) as Hws. pose proof dims as [HD2 HD]. intros Hn Hi Hin [Ha Hs].
  destruct (recorded_ok n m ltac:(lia) Ha) as (R1 & R2 & R3 & R4). rewrite revenueOnTick_recorded. set (m1 := recorded n m) in *. clearbody m1.
  assert (scores_ok initial (led_from initial plain_score H (Z.to_nat (n - 2 * H))) m1) as Hs1.
  { destruct Hs. split; rewrite ?R2, ?R3, ?R4; done. }
  destruct (Z.leb_spec (2 * H) n) as [Hle|Hlt].
  - destruct (finalize_step initial (led_from initial plain_score H (Z.to_nat (n - 2 * H))) (n - H) (ringRow NC CC (n - H)) (windowSum m1)
      (fun d => (o (n - H)).[d]) (span (n - H - H) (Z.to_nat W)) m1) as (F1 & F2 & F3 & F4); [apply Ho| | | |lia| |done|].
    + intros d Hd. apply span_range; lia.
    + intros d Hd. apply (ringRow_ok (n + 1)); done || lia.
    + intros d Hd. rewrite (ao_sum _ _ R1) by done. f_equal; lia.
    + intros c. pose proof (led_from_range initial plain_score H (Z.to_nat (n - 2 * H)) c REVENUE_SCALE plain_score_range). unfold REVENUE_SCALE in *. lia.
    + split; [by eapply arrays_ok_ext|]. destruct F1 as [G1 G2 G3 G4]. split; [done..|]. intros c Hc. rewrite G4 by done.
      replace (Z.to_nat (n + 1 - 2 * H)) with (S (Z.to_nat (n - 2 * H))) by lia. unfold led_from. cbn [sumZ]. rewrite Z2Nat.id by lia.
      replace (H + (n - 2 * H)) with (n - H) by lia. done.
  - split; [done|]. by replace (Z.to_nat (n + 1 - 2 * H)) with (Z.to_nat (n - 2 * H)) by lia.
Qed.

Lemma start_ok initial : stream_ok initial 0 (startRevenue NC CC initial).
Proof.
  pose proof (window_size NC HNC) as Hws. pose proof dims as [HD2 HD]. split.
  - split; cbn [revenueRing revenueHead windowSum startRevenue]; rewrite ?alen_replicate; try lia; try (intros; lia).
    intros d Hd. rewrite aget_replicate by lia. replace (Z.to_nat (Z.min 0 W)) with 0%nat by lia. done.
  - replace (Z.to_nat (0 - 2 * H)) with 0%nat by lia. split; cbn [md_initialTick txScore revenue startRevenue]; rewrite ?alen_replicate; try done.
    intros c Hc. by rewrite aget_replicate.
Qed.

Lemma streamTicks_ok initial n :
  Z.of_nat n < 2 ^ 24 -> 0 <= initial -> initial + Z.of_nat n < 2 ^ 32 ->
  stream_ok initial (Z.of_nat n) (streamTicks NC CC o n (startRevenue NC CC initial)).
Proof.
  intros Hn Hi Hin. unfold streamTicks. pose proof (for_loop_ind (stream_ok initial) (fun t => revenueOnTick NC CC t (o t)) n 0) as Hind.
  rewrite Z.add_0_l in Hind. apply Hind; [apply start_ok|]. intros t m Ht Hok. apply revenueOnTick_ok; done || lia.
Qed.

(** ** The ticks at the ends of the epoch *)

(** The score of a tick of an epoch of [n] ticks, against the window that wraps around. *)
Definition circular_score (n t : Z) : Z := score_of (fun d => (o t).[d]) (fun d => window NC (fun x => (o x).[d]) n t).

Lemma circular_sums n t : 0 < n -> sums_ok (fun d => window NC (fun x => (o x).[d]) n t).
Proof. intros Hn d Hd. apply window_range; [done|done|]. intros i _. by apply (Ho i). Qed.

Lemma circular_score_range n t : 0 < n -> 0 <= circular_score n t <= REVENUE_SCALE.
Proof. intros Hn. apply score_of_range; [apply Ho|by apply circular_sums]. Qed.

Lemma plain_circular n t : H <= t < n - H -> plain_score t = circular_score n t.
Proof.
  pose proof (window_size NC HNC) as Hws. intros Ht. apply score_of_ext; [done|]. intros d Hd. apply sumZ_ext. intros k Hk. rewrite Z.mod_small by lia. done.
Qed.

Lemma obsAt_ok n m x d : W <= n -> arrays_ok n m -> 0 <= x < n -> x < 2 * H \/ n - W <= x -> 0 <= d < D -> row_at m (obsAt NC CC x) d = (o x).[d].
Proof.
  pose proof (window_size NC HNC) as Hws. intros Hn Hok Hx Hc Hd. unfold obsAt. destruct (Z.ltb_spec x (2 * H)).
  - unfold headRow. rewrite head_off by lia. apply (ao_head _ _ Hok); done || lia.
  - apply (ringRow_ok n); done || lia.
Qed.

(** Adding a row to sums that stay small. *)
Lemma add_row_ok m row x (f : Z -> Z) ews :
  alen ews = D -> (forall d, 0 <= d < D -> row_at m row d = (o x).[d]) -> (forall d, 0 <= d < D -> ews.[d] = f d /\ 0 <= f d <= NTX * W) ->
  alen (add_row NC CC m row ews) = D /\ forall d, 0 <= d < D -> (add_row NC CC m row ews).[d] = f d + (o x).[d].
Proof.
  pose proof (window_size NC HNC) as Hws. pose proof dims as [HD2 HD]. intros Hl Hrow Hf. unfold add_row.
  destruct (for_update (fun d y => u64 (y + row_at m row d)) DIM ews ltac:(lia)) as [U1 U2]. split; [by rewrite U1|].
  intros d Hd. rewrite U2, Hrow by lia. destruct (Hf d Hd) as [-> Hr]. pose proof (Ho x d Hd). apply u64_small. unfold is_u64. nia.
Qed.

(** The window at the first tick whose window wraps around. *)
Definition first_edge (m : MultiDimRevenue) (n : Z) : list Z :=
  add_row NC CC m (headRow NC CC 0) (for_loop (Z.to_nat (2 * H)) (n - 2 * H) (fun x => add_row NC CC m (ringRow NC CC x)) (replicate DIM 0)).

Lemma first_edge_ok m n : 1 <= H -> W <= n -> arrays_ok n m ->
  alen (first_edge m n) = D /\ forall d, 0 <= d < D -> (first_edge m n).[d] = window NC (fun x => (o x).[d]) n (n - H).
Proof.
  pose proof (window_size NC HNC) as Hws. pose proof dims as [HD2 HD]. intros HH Hn Hok. unfold first_edge.
  pose (P x ews := alen ews = D /\ forall d, 0 <= d < D -> ews.[d] = span (n - 2 * H) (Z.to_nat (x - (n - 2 * H))) d).
  assert (P (n - 2 * H + Z.of_nat (Z.to_nat (2 * H))) (for_loop (Z.to_nat (2 * H)) (n - 2 * H) (fun x => add_row NC CC m (ringRow NC CC x)) (replicate DIM 0))) as [P1 P2].
  { apply (for_loop_ind P).
    - split; [rewrite alen_replicate; lia|]. intros d Hd. rewrite aget_replicate by lia. by rewrite Z.sub_diag.
    - intros x ews Hx [P1 P2].
      destruct (add_row_ok m (ringRow NC CC x) x (span (n - 2 * H) (Z.to_nat (x - (n - 2 * H)))) ews P1) as [A1 A2].
      + intros d Hd. apply (ringRow_ok n); done || lia.
      + intros d Hd. split; [by apply P2|]. apply span_range; lia.
      + split; [done|]. intros d Hd. rewrite A2 by done. replace (Z.to_nat (x + 1 - (n - 2 * H))) with (S (Z.to_nat (x - (n - 2 * H)))) by lia.
        rewrite span_snoc. do 3 f_equal. lia. }
  set (ews := for_loop _ _ _ _) in *. replace (Z.to_nat (n - 2 * H + Z.of_nat (Z.to_nat (2 * H)) - (n - 2 * H))) with (Z.to_nat (2 * H)) in P2 by lia.
  destruct (add_row_ok m (headRow NC CC 0) 0 (span (n - 2 * H) (Z.to_nat (2 * H))) ews P1) as [A1 A2].
  - intros d Hd. pose proof (obsAt_ok n m 0 d Hn Hok ltac:(lia) ltac:(lia) Hd) as Hob. unfold obsAt in Hob. by replace (0 <? 2 * H) with true in Hob by lia.
  - intros d Hd. split; [by apply P2|]. apply span_range; lia.
  - split; [done|]. intros d Hd. rewrite A2 by done. unfold window. replace (Z.to_nat W) with (S (Z.to_nat (2 * H))) by lia. cbn [sumZ].
    rewrite Z2Nat.id by lia. replace (n - H - H + 2 * H) with n by lia. rewrite Z_mod_same_full. f_equal. apply sumZ_ext.
    intros k Hk. rewrite Z.mod_small by lia. do 2 f_equal. lia.
Qed.

Lemma sumZ_app f a b : sumZ f (a + b) = sumZ f a + sumZ (fun k => f (Z.of_nat a + k)) b.
Proof. induction b as [|b IH]; [rewrite Nat.add_0_r; cbn; lia|]. rewrite Nat.add_succ_r. cbn [sumZ]. rewrite IH, Nat2Z.inj_add. lia. Qed.

(** The interior ticks and then the ticks around the end of the epoch are all ticks. *)
Lemma sumZ_rotate g n : W <= n ->
  sumZ (fun k => g (H + k)) (Z.to_nat (n - 2 * H)) + sumZ (fun s => g ((n - H + s) mod n)) (Z.to_nat (2 * H)) = sumZ g (Z.to_nat n).
Proof.
  pose proof (window_size NC HNC) as Hws. intros Hn.
  replace (Z.to_nat (2 * H)) with (Z.to_nat H + Z.to_nat H)%nat by lia.
  replace (Z.to_nat n) with (Z.to_nat H + (Z.to_nat (n - 2 * H) + Z.to_nat H))%nat by lia. rewrite !sumZ_app.
  rewrite (sumZ_ext (fun s => g ((n - H + s) mod n)) (fun k => g (Z.of_nat (Z.to_nat H) + (Z.of_nat (Z.to_nat (n - 2 * H)) + k))) (Z.to_nat H)).
  2: { intros i Hi. rewrite Z.mod_small by lia. f_equal. lia. }
  rewrite (sumZ_ext (fun k => g ((n - H + (Z.of_nat (Z.to_nat H) + k)) mod n)) g (Z.to_nat H)).
  2: { intros i Hi. f_equal. replace (n - H + (Z.of_nat (Z.to_nat H) + i)) with (i + 1 * n) by lia. rewrite Z_mod_plus_full. apply Z.mod_small. lia. }
  rewrite (sumZ_ext (fun k => g (Z.of_nat (Z.to_nat H) + k)) (fun k => g (H + k))) by (intros; f_equal; lia). lia.
Qed.

Lemma window_mod f n t : 0 < n -> window NC f n (t mod n) = window NC f n t.
Proof.
  intros Hn. apply sumZ_ext. intros k _. f_equal. replace (t mod n - H + k) with (t mod n + (k - H)) by lia. rewrite Zplus_mod_idemp_l. f_equal. lia.
Qed.

(** The tick that step [s] finalizes. *)
Definition edge_tick (n s : Z) : Z := (n - H + s) mod n.

Lemma edge_tick_cases n s : W <= n -> 0 <= s < 2 * H -> edge_tick n s = if decide (s < H) then n - H + s else s - H.
Proof.
  pose proof (window_size NC HNC) as Hws. intros Hn Hs. unfold edge_tick. case_decide as Hcd; [apply Z.mod_small; lia|].
  replace (n - H + s) with (s - H + 1 * n) by lia. rewrite Z_mod_plus_full. apply Z.mod_small. lia.
Qed.

Definition edge_total (initial n : Z) (s : nat) (c : Z) : Z :=
  led_from initial plain_score H (Z.to_nat (n - 2 * H)) c +
  sumZ (fun k => if decide (leader NC initial (edge_tick n k) = c) then circular_score n (edge_tick n k) else 0) s.

Definition edge_ok (initial n s : Z) (st : MultiDimRevenue * list Z * Z) : Prop :=
  let '(m, ews, c) := st in
  arrays_ok n m /\ scores_ok initial (edge_total initial n (Z.to_nat s)) m /\
  (s < 2 * H -> c = edge_tick n s /\ alen ews = D /\ forall d, 0 <= d < D -> ews.[d] = window NC (fun x => (o x).[d]) n (n - H + s)).

Lemma edge_total_range initial n s c : W <= n < 2 ^ 24 -> (s <= Z.to_nat (2 * H))%nat -> 0 <= edge_total initial n s c < 2 ^ 63.
Proof.
  pose proof (window_size NC HNC) as Hws. intros Hn Hs. unfold edge_total.
  pose proof (led_from_range initial plain_score H (Z.to_nat (n - 2 * H)) c REVENUE_SCALE plain_score_range) as H1.
  pose proof (sumZ_bound (fun k => if decide (leader NC initial (edge_tick n k) = c) then circular_score n (edge_tick n k) else 0) s REVENUE_SCALE) as H2.
  unfold REVENUE_SCALE in *. enough (0 <= sumZ (fun k => if decide (leader NC initial (edge_tick n k) = c) then circular_score n (edge_tick n k) else 0) s <= 1024 * Z.of_nat s) by lia.
  apply H2. intros k _. pose proof (circular_score_range n (edge_tick n k) ltac:(lia)) as Hcr. unfold REVENUE_SCALE in *. case_decide as Hcd; lia.
Qed.

(** The leaving and the entering tick of the window. *)
Lemma edge_bounds n s : W <= n < 2 ^ 24 -> 0 <= s -> s + 1 < 2 * H ->
  let c := edge_tick n s in
  (if H <=? c then c - H else u32 (c + n - H)) = n - 2 * H + s /\
  (if u32 (c + H + 1) <? n then c + H + 1 else c + H + 1 - n) = s + 1 /\
  (if u32 (c + 1) <? n then c + 1 else 0) = edge_tick n (s + 1).
Proof.
  pose proof (window_size NC HNC) as Hws. intros Hn Hs Hs1. cbn zeta. rewrite !edge_tick_cases by lia.
  assert (forall x, 0 <= x < 2 ^ 32 -> u32 x = x) as Hu by (intros; by apply u32_small).
  destruct (decide (s < H)) as [Hsh|Hsh].
  - rewrite !Hu by lia. replace (H <=? n - H + s) with true by lia. replace (n - H + s + H + 1 <? n) with false by lia.
    destruct (Z.ltb_spec (n - H + s + 1) n); case_decide as Hcd; lia.
  - rewrite !Hu by lia. replace (H <=? s - H) with false by lia. replace (s - H + H + 1 <? n) with true by lia. replace (s - H + 1 <? n) with true by lia.
    rewrite decide_False by lia. lia.
Qed.

Lemma edge_step_ok initial n s st :
  W <= n < 2 ^ 24 -> 0 <= initial -> initial + n < 2 ^ 32 -> 0 <= s < 2 * H -> edge_ok initial n s st ->
  edge_ok initial n (s + 1) (edge_step NC CC n s st).
Proof.
  pose proof (window_size NC HNC) as Hws. pose proof dims as [HD2 HD]. intros Hn Hi Hin Hs. destruct st as [[m ews] c]. intros (Ha & Hsc & He).
  destruct (He ltac:(lia)) as (Hc & Hl & Hew). clear He. pose proof (edge_tick_cases n s ltac:(lia) Hs) as Hcase. rewrite <- Hc in Hcase.
  assert (0 <= c < n /\ (c < 2 * H \/ n - W <= c)) as [Hcr Hcr2] by (revert Hcase; case_decide as Hcd; lia).
  destruct (finalize_step initial (edge_total initial n (Z.to_nat s)) c (obsAt NC CC c) ews (fun d => (o c).[d])
    (fun d => window NC (fun x => (o x).[d]) n c) m) as (F1 & F2 & F3 & F4); [apply Ho|apply circular_sums; lia| | |lia| |done|].
  { intros d Hd. apply (obsAt_ok n); done || lia. }
  { intros d Hd. rewrite Hew by done. subst c. unfold edge_tick. by rewrite window_mod by lia. }
  { intros c'. apply edge_total_range; lia. }
  unfold edge_step. set (m' := finalizeTickScore _ _ _ _ _ _) in *. clearbody m'. pose proof (arrays_ok_ext n m m' F2 F3 F4 Ha) as Ha'.
  assert (scores_ok initial (edge_total initial n (Z.to_nat (s + 1))) m') as Hsc'.
  { destruct F1 as [G1 G2 G3 G4]. split; [done..|]. intros c' Hc'. rewrite G4 by done. unfold edge_total.
    replace (Z.to_nat (s + 1)) with (S (Z.to_nat s)) by lia. cbn [sumZ]. rewrite Z2Nat.id, <- Hc by lia. rewrite <- Z.add_assoc. done. }
  destruct (Z.eqb_spec (s + 1) (2 * H)) as [Heq|Hne]; [split_and!; done || lia|].
  destruct (edge_bounds n s Hn ltac:(lia) ltac:(lia)) as (B1 & B2 & B3). rewrite <- Hc in B1, B2, B3. rewrite B1, B2, B3. split_and!; [done..|]. intros _. split; [done|].
  destruct (for_update (fun d x => u64 (x - row_at m' (obsAt NC CC (n - 2 * H + s)) d + row_at m' (obsAt NC CC (s + 1)) d)) DIM ews ltac:(lia)) as [U1 U2].
  split; [by rewrite U1|]. intros d Hd. rewrite U2, Hew by lia. rewrite !(obsAt_ok n) by (done || lia).
  pose proof (window_step NC HNC (fun x => (o x).[d]) n (n - H + s)) as Hstep. cbn beta in Hstep.
  replace ((n - H + s - H) mod n) with (n - 2 * H + s) in Hstep by (rewrite Z.mod_small; lia).
  replace ((n - H + s + H + 1) mod n) with (s + 1) in Hstep by (replace (n - H + s + H + 1) with (s + 1 + 1 * n) by lia; rewrite Z_mod_plus_full, Z.mod_small; lia).
  rewrite <- Hstep. replace (n - H + s + 1) with (n - H + (s + 1)) by lia. apply u64_small.
  pose proof (circular_sums n (n - H + (s + 1)) ltac:(lia) d Hd) as Hr. cbn beta in Hr. unfold is_u64. nia.
Qed.

(** The edge ticks complete the scores: every computor has the scores of all the ticks it leads. *)
Lemma scoreEpochEdgeTicks_ok initial n m :
  n < 2 ^ 24 -> 0 <= initial -> initial + n < 2 ^ 32 -> stream_ok initial n m ->
  scores_ok initial (fun c => if decide (n < W) then 0 else led_score NC initial (circular_score n) (Z.to_nat n) c) (scoreEpochEdgeTicks NC CC n m).
Proof.
  pose proof (window_size NC HNC) as Hws. intros Hn Hi Hin [Ha Hs]. unfold scoreEpochEdgeTicks. destruct (Z.ltb_spec n W) as [Hlt|Hge].
  { replace (Z.to_nat (n - 2 * H)) with 0%nat in Hs by lia. destruct Hs as [S1 S2 S3 S4]. split; [done..|]. intros c Hc. rewrite S4, decide_True by done. done. }
  fold (first_edge m n).
  assert (edge_ok initial n (0 + Z.of_nat (Z.to_nat (2 * H))) (for_loop (Z.to_nat (2 * H)) 0 (edge_step NC CC n) (m, first_edge m n, n - H))) as He.
  { apply (for_loop_ind (edge_ok initial n)); [|intros s st Hs'; apply edge_step_ok; done || lia].
    split_and!; [done| |].
    - destruct Hs as [S1 S2 S3 S4]. split; [done..|]. intros c Hc. rewrite S4 by done. unfold edge_total. change (Z.to_nat 0) with 0%nat. cbn [sumZ]. by rewrite Z.add_0_r.
    - intros Hpos. destruct (first_edge_ok m n ltac:(lia) Hge Ha) as [E1 E2]. split_and!; [|done|by rewrite Z.add_0_r].
      rewrite edge_tick_cases, decide_True by lia. lia. }
  destruct (for_loop _ _ (edge_step NC CC n) _) as [[m' ews] c]. destruct He as (_ & [S1 S2 S3 S4] & _). split; [done..|].
  intros c' Hc'. rewrite S4, decide_False by (done || lia). replace (Z.to_nat (0 + Z.of_nat (Z.to_nat (2 * H)))) with (Z.to_nat (2 * H)) by lia.
  unfold edge_total, led_score. rewrite <- (sumZ_rotate _ n Hge). f_equal.
  apply sumZ_ext. intros k Hk. case_decide as Hcd; [|done]. apply plain_circular. lia.
Qed.

(** C14: the streaming computation is equivalent to the definition.  Fed with the observations of the ticks of an epoch, one by one, through the ring buffer,
    and completed by the ticks at the ends of the epoch, the transaction score of a computor is the sum over the ticks it
    leads of the score of the tick against the window of ticks around it, in the epoch closed to a
    circle; an epoch shorter than one window scores nothing.  No sum overflows, and every tick scores between 0 and the scale. *)
Theorem stream_equals_windows initial n :
  Z.of_nat n < 2 ^ 24 -> 0 <= initial -> initial + Z.of_nat n < 2 ^ 32 ->
  let m := scoreEpochEdgeTicks NC CC (Z.of_nat n) (streamTicks NC CC o n (startRevenue NC CC initial)) in
  alen (txScore m) = NUMBER_OF_COMPUTORS /\
  (forall c, 0 <= c < NUMBER_OF_COMPUTORS ->
     (txScore m).[c] = if decide (Z.of_nat n < W) then 0 else led_score NC initial (circular_score (Z.of_nat n)) n c) /\
  ((0 < n)%nat -> forall t, 0 <= circular_score (Z.of_nat n) t <= REVENUE_SCALE).
Proof.
  intros Hn Hi Hin. pose proof (streamTicks_ok initial n Hn Hi Hin) as Hok.
  destruct (scoreEpochEdgeTicks_ok initial (Z.of_nat n) _ Hn Hi Hin Hok) as [S1 S2 S3 S4]. rewrite Nat2Z.id in S4.
  split_and!; [done|done|]. intros Hpos t. apply circular_score_range. lia.
Qed.

Variable QUORUM : Z.
Hypothesis HQ : 1 <= QUORUM.
(** The source's static_assert. *)
Hypothesis Hipc : REVENUE_IPC NC * REVENUE_SCALE * REVENUE_SCALE * REVENUE_SCALE < 2 ^ 64.

Lemma combine_multi_ok tx oracle :
  0 <= tx <= REVENUE_SCALE -> 0 <= oracle <= REVENUE_SCALE ->
  combine_multi NC tx oracle REVENUE_SCALE (ipow REVENUE_SCALE (REVENUE_DOGE_K - 1)) = REVENUE_IPC NC * tx * oracle / (REVENUE_SCALE * REVENUE_SCALE) /\
  0 <= REVENUE_IPC NC * tx * oracle / (REVENUE_SCALE * REVENUE_SCALE) <= REVENUE_IPC NC.
Proof.
  unfold combine_multi. assert (0 <= REVENUE_IPC NC) as Hi0 by (unfold REVENUE_IPC, ISSUANCE_RATE; apply Z.div_pos; lia).
  replace (irootK64 REVENUE_DOGE_K (u64 (REVENUE_SCALE * ipow REVENUE_SCALE (REVENUE_DOGE_K - 1)))) with 1024 by (vm_compute; reflexivity).
  set (ipc := REVENUE_IPC NC) in *. clearbody ipc. change REVENUE_SCALE with 1024 in *. intros Htx Hor.
  assert (0 <= ipc * tx <= ipc * 1024) as H1 by nia. assert (0 <= ipc * tx * oracle <= ipc * 1024 * 1024) as H2 by nia.
  rewrite (u64_small (ipc * tx)), (u64_small (ipc * tx * oracle)), (u64_small (ipc * tx * oracle * 1024)) by (unfold is_u64; lia).
  rewrite Z.div_mul_cancel_r by lia. assert (0 <= ipc * tx * oracle / (1024 * 1024) <= ipc) as H3 by (split; [apply Z.div_pos; lia|apply Z.div_le_upper_bound; lia]).
  rewrite s64_small by (unfold is_s64; lia). done.
Qed.

Record inputs_ok (n : nat) (e : EpochRevenueData) : Prop := {
  io_ticks : totalTicks e = Z.of_nat n;
  io_oracle : is_scores NC (oracleScore e)
}.

(** The revenue after any stream of ticks. *)
Lemma computeMultiDimRevenue_ok initial n e m0 :
  Z.of_nat n < 2 ^ 24 -> 0 <= initial -> initial + Z.of_nat n < 2 ^ 32 -> inputs_ok n e -> stream_ok initial (Z.of_nat n) m0 ->
  let m := computeMultiDimRevenue NC CC QUORUM e m0 in
  alen (revenue m) = NUMBER_OF_COMPUTORS /\
  (forall c, 0 <= c < NUMBER_OF_COMPUTORS ->
     (txScore m).[c] = if decide (Z.of_nat n < W) then 0 else led_score NC initial (circular_score (Z.of_nat n)) n c) /\
  forall c, 0 <= c < NUMBER_OF_COMPUTORS ->
    (revenue m).[c] = REVENUE_IPC NC * factor NC QUORUM (txScore m) c * valved_factor NC QUORUM (oracleScore e) c / (REVENUE_SCALE * REVENUE_SCALE) /\
    0 <= (revenue m).[c] <= REVENUE_IPC NC.
Proof.
  pose proof (window_size NC HNC) as Hws. intros Hn Hi Hin [T1 T2] Hok. unfold computeMultiDimRevenue. rewrite T1.
  destruct (scoreEpochEdgeTicks_ok initial (Z.of_nat n) _ Hn Hi Hin Hok) as [S1 S2 S3 S4]. set (m := scoreEpochEdgeTicks _ _ _ _) in *. clearbody m. cbn zeta.
  cbn [revenue txScore set_revenue REVENUE_DOGE_DISABLED negb andb].
  match goal with |- context [for_loop NC 0 (fun i r => r.[i := @?f i]) _] => destruct (for_fill_all f NC (revenue m) ltac:(lia)) as [U1 U2] end.
  split_and!; [by rewrite U1|by rewrite Nat2Z.id in S4|].
  assert (is_scores NC (txScore m)) as Hsc.
  { intros c Hc. rewrite S4 by done. case_decide as Hcd; [lia|].
    pose proof (led_score_range NC HNC initial (circular_score (Z.of_nat n)) (Z.to_nat (Z.of_nat n)) c REVENUE_SCALE ltac:(intros; apply circular_score_range; lia)) as Hr. unfold REVENUE_SCALE in *. lia. }
  intros c Hc. rewrite U2 by done.
  destruct (factor_ok NC HNC QUORUM HQ (txScore m) (replicate NC 0) Hsc ltac:(apply alen_replicate) c Hc) as [E1 R1].
  destruct (valved_factor_ok NC HNC QUORUM HQ (oracleScore e) (replicate NC 0) T2 ltac:(apply alen_replicate) c Hc) as [E2 R2].
  destruct (for_fill_all (fun _ => REVENUE_SCALE) NC (replicate NC 0) ltac:(rewrite alen_replicate; lia)) as [_ E3].
  replace ((full_factor NC (replicate NC 0)).[c]) with REVENUE_SCALE by (symmetry; by apply E3). rewrite E1, E2. destruct (combine_multi_ok _ _ R1 R2) as [-> Hb]. done.
Qed.

(** the revenue of the multi-dimensional version, for a streamed epoch: the issuance share of a computor, times its
    transaction factor and its oracle factor (full for everyone if nobody has an oracle score), the factors being
    relative to the score of the quorum; it lies between 0 and the issuance share, and all computors together get at most the
    issuance of the epoch.  The mining factor, disabled, is full. *)
Theorem multidim_revenue initial n e :
  Z.of_nat n < 2 ^ 24 -> 0 <= initial -> initial + Z.of_nat n < 2 ^ 32 -> inputs_ok n e ->
  let m := computeMultiDimRevenue NC CC QUORUM e (streamTicks NC CC o n (startRevenue NC CC initial)) in
  (forall c, 0 <= c < NUMBER_OF_COMPUTORS ->
    (revenue m).[c] = REVENUE_IPC NC * factor NC QUORUM (txScore m) c * valved_factor NC QUORUM (oracleScore e) c / (REVENUE_SCALE * REVENUE_SCALE) /\
    0 <= (revenue m).[c] <= REVENUE_IPC NC) /\
  0 <= sumZ (fun c => (revenue m).[c]) NC <= ISSUANCE_RATE.
Proof.
  intros Hn Hi Hin He m. destruct (computeMultiDimRevenue_ok initial n e _ Hn Hi Hin He (streamTicks_ok initial n Hn Hi Hin)) as (_ & _ & Hr). fold m in Hr. split; [exact Hr|].
  pose proof (sumZ_bound (fun c => (revenue m).[c]) NC (REVENUE_IPC NC) ltac:(intros c Hc; apply Hr; lia)) as Hb.
  assert (REVENUE_IPC NC * Z.of_nat NC <= ISSUANCE_RATE); [|lia]. unfold REVENUE_IPC. rewrite Z.mul_comm. apply Z.mul_div_le. lia.
Qed.
End StreamSpec.

(** Two computors, one contract, an epoch of five ticks. *)
Definition sample_obs (t : Z) : list Z := [t mod 2; 1; 2; 1].

Lemma sample_obs_ok t : row_ok 2 1 5 (fun d => (sample_obs t).[d]).
Proof.
  intros d Hd. change (REVENUE_TX_DIM 2 1) with 4 in Hd. pose proof (Z.mod_pos_bound t 2 ltac:(lia)). unfold sample_obs.
  assert (d = 0 \/ d = 1 \/ d = 2 \/ d = 3) as [-> | [-> | [-> | ->]]] by lia.
  1: split; [apply Z.mod_pos_bound; lia|]; change ([t mod 2; 1; 2; 1].[0]) with (t mod 2); lia.
  all: vm_compute; intuition discriminate.
Qed.

Lemma stream_equals_windows_witness :
  let m := scoreEpochEdgeTicks 2 1 5 (streamTicks 2 1 sample_obs 5 (startRevenue 2 1 10)) in
  txScore m = [2488; 2048] /\ (txScore m).[0] = led_score 2 10 (circular_score 2 1 sample_obs 5) 5 0.
Proof.
  split; [vm_compute; reflexivity|].
  destruct (stream_equals_windows 2 1 ltac:(lia) ltac:(vm_compute; reflexivity) 5 ltac:(lia) ltac:(vm_compute; reflexivity)
    sample_obs sample_obs_ok 10 5 ltac:(lia) ltac:(lia) ltac:(lia)) as (_ & Hs & _).
  specialize (Hs 0 ltac:(lia)). rewrite decide_False in Hs by (vm_compute; discriminate). exact Hs.
Defined.

(** The network: 676 computors, 27 contracts, 1400 ticks with one transaction in every dimension. *)
Lemma multidim_revenue_witness :
  let e := mkEpoch 100 1400 [] (replicate 676 3) [] [] [] [] [] [] [] in
  let m := computeMultiDimRevenue 676 27 451 e (streamTicks 676 27 (fun _ => replicate 704 1) 1400 (startRevenue 676 27 100)) in
  0 <= (revenue m).[7] <= REVENUE_IPC 676 /\ 0 <= sumZ (fun c => (revenue m).[c]) 676 <= ISSUANCE_RATE.
Proof.
  intros e m.
  destruct (multidim_revenue 676 27 ltac:(lia) ltac:(vm_compute; reflexivity) 4096 ltac:(lia) ltac:(vm_compute; reflexivity)
    (fun _ => replicate 704 1) ltac:(intros t d Hd; change (REVENUE_TX_DIM 676 27) with 704 in Hd; rewrite aget_replicate by lia; lia)
    451 ltac:(lia) ltac:(vm_compute; reflexivity) 100 1400 e ltac:(lia) ltac:(lia) ltac:(lia)) as [H1 H2].
  - split; [reflexivity|]. intros i Hi. change (oracleScore e) with (replicate 676 3). rewrite aget_replicate by lia. lia.
  - split; [apply (H1 7); lia|exact H2].
Defined.
