(* ===== verification/Emission.v ===== *)
(** * Emission at the end of an epoch (src/qubic.cpp, endEpoch)

    While the supply allows it, an epoch issues new money: every computor gets its revenue, less the
    donations that the quorum has agreed on, and the arbitrator the rest of the issuance.  The
    scores come from the revenue computation, the money goes to the ledger, contracts that
    receive a donation are notified; their code is a parameter. *)
From S2P Require Import Prelude OpenAddressing MathLib FeeReserve Spectrum SpectrumLedger Assets EntityLedger ContractMoney Revenue RevenueStream.

Definition MAX_SUPPLY : Z := ISSUANCE_RATE * 200.
Definition revenueDonation : Z := 4.

(** GQMPROP::RevenueDonationEntry *)
Record RevenueDonationEntry := mkDonation {
  donationKey : Z;         (* destinationPublicKey *)
  millionthAmount : Z;
  firstEpoch : Z
}.

Section Emission.
Variables NC CC : nat.
Variable QUORUM : Z.
Variable env : ContractEnv.
Context {S : Type} {ops : LedgerOps S} {bank : Ledger S}.
Variable contractProcessor : Z -> Z -> Z -> Z -> @World S -> option (@World S).

(** [increaseEnergy] and the log message of a transfer from nobody. *)
Definition issue (key amount : Z) (w : @World S) : option (@World S) :=
  match credit_entity key amount (w_ledger w) with
  | None => None
  | Some s => Some (log_money (QuTransfer 0 key amount) (with_ledger s w))
  end.

(** The loop over the donation table; it returns the revenue that is left. *)
Fixpoint donate (table : list RevenueDonationEntry) (revenue : Z) (w : @World S) : option (@World S * Z) :=
  match table with
  | [] => Some (w, revenue)
  | rdEntry :: rest =>
      if isZero (donationKey rdEntry) then Some (w, revenue)
      else if (0 <? millionthAmount rdEntry) && (millionthAmount rdEntry <=? 1000000) && (firstEpoch rdEntry <=? epoch env) then
        let donation := Z.quot (s64 (revenue * millionthAmount rdEntry)) 1000000 in
        let revenue := s64 (revenue - donation) in
        match issue (donationKey rdEntry) donation w with
        | None => None
        | Some w =>
            match (if revenue =? 0 then Some w
                   else notifyContractOfIncomingTransfer env contractProcessor 0 (donationKey rdEntry) donation revenueDonation w) with
            | None => None
            | Some w => donate rest revenue w
            end
        end
      else donate rest revenue w
  end.

(** One computor; the state is the world and what is left for the arbitrator. *)
Definition pay_computor (table : list RevenueDonationEntry) (publicKeys revenues : list Z) (computorIndex : Z)
    (st : option (@World S * Z)) : option (@World S * Z) :=
  match st with
  | None => None
  | Some (w, arbitratorRevenue) =>
      let revenue := revenues.[computorIndex] in
      let arbitratorRevenue := s64 (arbitratorRevenue - revenue) in
      match donate table revenue w with
      | None => None
      | Some (w, revenue) =>
          match issue (publicKeys.[computorIndex]) revenue w with
          | None => None
          | Some w => Some (w, arbitratorRevenue)
          end
      end
  end.

Definition distribute (table : list RevenueDonationEntry) (publicKeys revenues : list Z) (arbitratorPublicKey : Z) (w : @World S) : option (@World S) :=
  match for_loop NC 0 (pay_computor table publicKeys revenues) (Some (w, ISSUANCE_RATE)) with
  | None => None
  | Some (w, arbitratorRevenue) => issue arbitratorPublicKey arbitratorRevenue w
  end.

(** The scores collected before the computation: mining shares and oracle points of the epoch. *)
Definition collect (tick initial : Z) (shares points : list Z) (e : EpochRevenueData) : EpochRevenueData :=
  mkEpoch initial (u32 (tick - initial)) (slidingWindowTxScore e) points
    (for_loop NC 0 (fun i l => l.[i := shares.[i]]) (dogeMiningScore e)) (v2Revenue e)
    (perTickTxCount e) (perTickProtocolTxCount e) (perTickContractTxCount e) (perTickOtherTxCount e) (perTickTxTickLeaderCount e).

Record EpochState := mkEpochState {
  gEpochRevenueData : EpochRevenueData;
  gRevenueV2Buffers : RevenueV2Buffers;
  gMultiDimRevenue : MultiDimRevenue;
  es_world : @World S
}.

Definition set_totalTicks (n : Z) (m : MultiDimRevenue) : MultiDimRevenue :=
  mkMulti (md_initialTick m) n (revenueRing m) (revenueHead m) (windowSum m) (txScore m) (revenue m).

(** The emission of [endEpoch]. *)
Definition issueEpoch (tick initial : Z) (shares points : list Z) (table : list RevenueDonationEntry)
    (publicKeys : list Z) (arbitratorPublicKey : Z) (st : EpochState) : option EpochState :=
  if u64 (total_of (w_ledger (es_world st)) + ISSUANCE_RATE) <=? MAX_SUPPLY then
    let e := collect tick initial shares points (gEpochRevenueData st) in
    let '(e, b) := computeRevenueV2 NC QUORUM e (gRevenueV2Buffers st) in
    let m := computeMultiDimRevenue NC CC QUORUM e (set_totalTicks (u32 (tick - initial)) (gMultiDimRevenue st)) in
    match distribute table publicKeys (revenue m) arbitratorPublicKey (es_world st) with
    | None => None
    | Some w => Some (mkEpochState e b m w)
    end
  else Some st.

(** ** Conservation, whatever the notified contracts do *)

(** The money burned according to the log. *)
Definition burnt (l : list MoneyLog) : Z :=
  foldr (fun e n => match e with Burning _ a _ => a + n | _ => n end) 0 l.

(** [issued] money has come into the world [w] and at most [used] new entities; all that left the ledger was burned. *)
Record grown (issued used : Z) (w w' : @World S) : Prop := {
  gr_ok : ledger_ok (w_ledger w');
  gr_total : total_of (w_ledger w') + burnt (w_log w') = total_of (w_ledger w) + burnt (w_log w) + issued;
  gr_burnt : burnt (w_log w) <= burnt (w_log w');
  gr_free : free_entities (w_ledger w) - used <= free_entities (w_ledger w')
}.

Lemma burnt_snoc l e : burnt (l ++ [e]) = burnt l + match e with Burning _ a _ => a | _ => 0 end.
Proof. induction l as [|x l IH]; [destruct e; cbn; lia|]. unfold burnt in *. cbn [app foldr]. rewrite IH. destruct x; lia. Qed.

Lemma grown_refl used w : 0 <= used -> ledger_ok (w_ledger w) -> grown 0 used w w.
Proof. intros Hu Hok. split; [done|lia..]. Qed.

Lemma grown_trans i1 u1 i2 u2 w1 w2 w3 : grown i1 u1 w1 w2 -> grown i2 u2 w2 w3 -> grown (i1 + i2) (u1 + u2) w1 w3.
Proof. intros [] []. split; [done|lia..]. Qed.

Lemma issue_grows key a w :
  ledger_ok (w_ledger w) -> key <> 0 -> 0 <= a -> total_of (w_ledger w) + a < total_limit -> 0 < free_entities (w_ledger w) ->
  exists w', issue key a w = Some w' /\ grown a 1 w w'.
Proof.
  intros Hok Hk Ha Hl Hf. destruct (credit_law (w_ledger w) key a Hok Hk Ha Hl Hf) as (s & Hc & Hok' & Ht & Hfree & _).
  unfold issue. rewrite Hc. eexists. split; [done|]. split; cbn; rewrite ?burnt_snoc; [done|lia..].
Qed.

(** The contract code, when notified: it may move money and burn some of it (which is logged), and open at most
    [room] new entities. *)
Definition conserving (room : Z) : Prop :=
  forall source contractIndex a type w, ledger_ok (w_ledger w) ->
  exists w', contractProcessor source contractIndex a type w = Some w' /\ grown 0 room w w'.

Variable room : Z.
Hypothesis Hroom : 0 <= room.
Hypothesis Hcode : conserving room.

Lemma notify_ok dest a w : ledger_ok (w_ledger w) ->
  exists w', notifyContractOfIncomingTransfer env contractProcessor 0 dest a revenueDonation w = Some w' /\ grown 0 room w w'.
Proof.
  intros Hok. unfold notifyContractOfIncomingTransfer. destruct (_ || _); [exists w; by split; [|apply grown_refl]|].
  destruct (negb _); [exists w; by split; [|apply grown_refl]|]. by apply Hcode.
Qed.

(** The part of the revenue an active entry takes. *)
Lemma donation_range revenue rd :
  0 <= revenue < 2 ^ 40 -> 0 < rd <= 1000000 ->
  let donation := Z.quot (s64 (revenue * rd)) 1000000 in
  0 <= donation <= revenue /\ donation = revenue * rd / 1000000 /\ s64 (revenue - donation) = revenue - donation.
Proof.
  intros Hr Hrd. cbn zeta. rewrite s64_small by (unfold is_s64; nia). rewrite Z.quot_div_nonneg by nia.
  assert (0 <= revenue * rd / 1000000 <= revenue) as Hd by (split; [apply Z.div_pos; nia|apply Z.div_le_upper_bound; nia]).
  split; [done|]. split; [done|]. apply s64_small. unfold is_s64. lia.
Qed.

Abbreviation entry_cost := (1 + room).

Lemma donate_ok table : forall revenue w,
  ledger_ok (w_ledger w) -> 0 <= revenue < 2 ^ 40 -> total_of (w_ledger w) + revenue < total_limit ->
  entry_cost * Z.of_nat (length table) <= free_entities (w_ledger w) ->
  exists w' r, donate table revenue w = Some (w', r) /\ 0 <= r <= revenue /\
    grown (revenue - r) (entry_cost * Z.of_nat (length table)) w w'.
Proof.
  induction table as [|rd rest IH]; intros revenue w Hok Hr Hl Hf.
  { exists w, revenue. split; [done|]. split; [lia|]. rewrite Z.sub_diag. apply grown_refl; [cbn; lia|done]. }
  cbn [donate]. destruct (isZero (donationKey rd)) eqn:Hz.
  { exists w, revenue. split; [done|]. split; [lia|]. rewrite Z.sub_diag. apply grown_refl; [nia|done]. }
  replace (entry_cost * Z.of_nat (length (rd :: rest))) with (entry_cost + entry_cost * Z.of_nat (length rest)) in * by (cbn [length]; lia).
  destruct (_ && _ && _) eqn:Hact.
  - destruct (donation_range revenue (millionthAmount rd) Hr ltac:(lia)) as (Hd & _ & Hs). rewrite Hs. set (donation := Z.quot _ _) in *. clearbody donation.
    unfold isZero in Hz. apply Z.eqb_neq in Hz. destruct (issue_grows (donationKey rd) donation w Hok Hz ltac:(lia) ltac:(lia) ltac:(nia)) as (w1 & -> & G1).
    assert (exists w2, (if revenue - donation =? 0 then Some w1 else notifyContractOfIncomingTransfer env contractProcessor 0 (donationKey rd) donation revenueDonation w1) = Some w2 /\
      grown 0 room w1 w2) as (w2 & -> & G2).
    { destruct (revenue - donation =? 0); [exists w1; split; [done|apply grown_refl; [done|apply G1]]|apply notify_ok, G1]. }
    pose proof (grown_trans _ _ _ _ _ _ _ G1 G2) as G12. destruct G12 as [g1 g2 g3 g4].
    destruct (IH (revenue - donation) w2) as (w3 & r & -> & Hr3 & G3); [done|lia|lia|lia|].
    exists w3, r. split; [done|]. split; [lia|].
    replace (revenue - r) with (donation + 0 + (revenue - donation - r)) by lia. eapply grown_trans; [|exact G3]. by split.
  - destruct (IH revenue w) as (w3 & r & -> & Hr3 & G3); [done|lia|lia|lia|]. exists w3, r. split; [done|]. split; [done|].
    replace (revenue - r) with (0 + (revenue - r)) by lia. eapply grown_trans; [apply (grown_refl entry_cost); [lia|done]|exact G3].
Qed.

(** ** What the distribution relies on of the revenue computation *)
Class FairRevenue (revenues : list Z) : Prop := {
  fair_range c : 0 <= c < Z.of_nat NC -> 0 <= revenues.[c] <= REVENUE_IPC NC
}.

Hypothesis HNC : (1 <= NC <= 1024)%nat.

Lemma fair_sum revenues `{!FairRevenue revenues} n : (n <= NC)%nat ->
  0 <= sumZ (fun c => revenues.[c]) n <= ISSUANCE_RATE.
Proof.
  intros Hn. pose proof (sumZ_bound (fun c => revenues.[c]) n (REVENUE_IPC NC) ltac:(intros; apply fair_range; lia)) as Hb.
  assert (Z.of_nat NC * REVENUE_IPC NC <= ISSUANCE_RATE) as Hm by (apply Z.mul_div_le; lia).
  assert (0 <= REVENUE_IPC NC) by (apply Z.div_pos; [unfold ISSUANCE_RATE; lia|lia]). nia.
Qed.

Lemma share_small revenues `{!FairRevenue revenues} c : 0 <= c < Z.of_nat NC -> 0 <= revenues.[c] < 2 ^ 40.
Proof.
  intros Hc. pose proof (fair_range c Hc). assert (REVENUE_IPC NC <= ISSUANCE_RATE) as Hi by (unfold REVENUE_IPC; apply Z.div_le_upper_bound; unfold ISSUANCE_RATE; lia).
  unfold ISSUANCE_RATE in Hi. lia.
Qed.

(** The entities that an epoch may open. *)
Definition epoch_cost (table : list RevenueDonationEntry) : Z :=
  Z.of_nat NC * (entry_cost * Z.of_nat (length table) + 1) + 1.

Lemma pay_all_ok table publicKeys revenues `{!FairRevenue revenues} w :
  ledger_ok (w_ledger w) -> (forall c, 0 <= c < Z.of_nat NC -> publicKeys.[c] <> 0) ->
  total_of (w_ledger w) + ISSUANCE_RATE < total_limit -> epoch_cost table <= free_entities (w_ledger w) ->
  exists w', for_loop NC 0 (pay_computor table publicKeys revenues) (Some (w, ISSUANCE_RATE)) =
      Some (w', ISSUANCE_RATE - sumZ (fun c => revenues.[c]) NC) /\
    grown (sumZ (fun c => revenues.[c]) NC) (epoch_cost table - 1) w w'.
Proof.
  intros Hok Hkeys Hl Hf. unfold epoch_cost in *. set (cost := entry_cost * Z.of_nat (length table)) in *.
  assert (0 <= cost) as Hcost by (unfold cost; nia).
  pose (P i (st : option (@World S * Z)) := exists w', st = Some (w', ISSUANCE_RATE - sumZ (fun c => revenues.[c]) (Z.to_nat i)) /\
    grown (sumZ (fun c => revenues.[c]) (Z.to_nat i)) (i * (cost + 1)) w w').
  assert (P (0 + Z.of_nat NC) (for_loop NC 0 (pay_computor table publicKeys revenues) (Some (w, ISSUANCE_RATE)))) as (w' & Hw & Hg).
  - apply (for_loop_ind P); [exists w; split; [by rewrite Z.sub_0_r|apply grown_refl; [lia|done]]|].
    intros i st Hi (w1 & -> & G1). pose proof (fair_range i ltac:(lia)) as Hri. pose proof (share_small revenues i ltac:(lia)) as Hrs.
    unfold P. replace (Z.to_nat (i + 1)) with (Datatypes.S (Z.to_nat i)) by lia. cbn [sumZ]. rewrite Z2Nat.id by lia.
    pose proof (fair_sum revenues (Datatypes.S (Z.to_nat i)) ltac:(lia)) as Hs1. cbn [sumZ] in Hs1. rewrite Z2Nat.id in Hs1 by lia.
    pose proof (fair_sum revenues (Z.to_nat i) ltac:(lia)) as Hs0. set (paid := sumZ _ _) in *. clearbody paid.
    unfold pay_computor. destruct G1 as [g1 g2 g3 g4]. destruct (donate_ok table (revenues.[i]) w1) as (w2 & r & -> & Hr & G2); [done|lia|lia|fold cost; nia|].
    fold cost in G2. destruct (issue_grows (publicKeys.[i]) r w2) as (w3 & -> & G3); [apply G2|apply Hkeys; lia|lia|destruct G2; lia|destruct G2; nia|].
    exists w3. rewrite s64_small by (unfold is_s64, ISSUANCE_RATE in *; lia). split; [do 2 f_equal; lia|].
    replace (paid + revenues.[i]) with (paid + (revenues.[i] - r + r)) by lia. replace ((i + 1) * (cost + 1)) with (i * (cost + 1) + (cost + 1)) by lia.
    eapply grown_trans; [by split|]. eapply grown_trans; eassumption.
  - rewrite Z.add_0_l, Nat2Z.id in *. exists w'. split; [done|]. by replace (Z.of_nat NC * (cost + 1) + 1 - 1) with (Z.of_nat NC * (cost + 1)) by lia.
Qed.

Lemma distribute_ok table publicKeys revenues arbitrator `{!FairRevenue revenues} w :
  ledger_ok (w_ledger w) -> (forall c, 0 <= c < Z.of_nat NC -> publicKeys.[c] <> 0) -> arbitrator <> 0 ->
  total_of (w_ledger w) + ISSUANCE_RATE < total_limit -> epoch_cost table <= free_entities (w_ledger w) ->
  exists w', distribute table publicKeys revenues arbitrator w = Some w' /\ grown ISSUANCE_RATE (epoch_cost table) w w'.
Proof.
  intros Hok Hkeys Ha Hl Hf. destruct (pay_all_ok table publicKeys revenues w Hok Hkeys Hl Hf) as (w1 & Hp & G1).
  unfold distribute. rewrite Hp. pose proof (fair_sum revenues NC ltac:(lia)) as Hs. destruct G1 as [g1 g2 g3 g4].
  destruct (issue_grows arbitrator (ISSUANCE_RATE - sumZ (fun c => revenues.[c]) NC) w1) as (w2 & -> & G2); [done|done|lia|lia|lia|].
  exists w2. split; [done|]. replace ISSUANCE_RATE with (sumZ (fun c => revenues.[c]) NC + (ISSUANCE_RATE - sumZ (fun c => revenues.[c]) NC)) by lia.
  replace (epoch_cost table) with (epoch_cost table - 1 + 1) by lia. eapply grown_trans; [by split|exact G2].
Qed.

(** ** Who is paid *)

(** The payments of the donation table out of a revenue, and what is left. *)
Fixpoint donations (table : list RevenueDonationEntry) (revenue : Z) : list (Z * Z) * Z :=
  match table with
  | [] => ([], revenue)
  | rd :: rest =>
      if decide (donationKey rd = 0) then ([], revenue)
      else if decide (0 < millionthAmount rd <= 1000000 /\ firstEpoch rd <= epoch env) then
        let donation := revenue * millionthAmount rd / 1000000 in
        let '(ps, remaining) := donations rest (revenue - donation) in ((donationKey rd, donation) :: ps, remaining)
      else donations rest revenue
  end.
Definition computor_payments (table : list RevenueDonationEntry) (publicKeys revenues : list Z) (c : Z) : list (Z * Z) :=
  let '(ps, remaining) := donations table (revenues.[c]) in ps ++ [(publicKeys.[c], remaining)].
Definition epoch_payments (table : list RevenueDonationEntry) (publicKeys revenues : list Z) (arbitrator : Z) : list (Z * Z) :=
  concat (map (computor_payments table publicKeys revenues) (seqZ 0 (Z.of_nat NC))) ++ [(arbitrator, ISSUANCE_RATE - sumZ (fun c => revenues.[c]) NC)].

Definition amounts (ps : list (Z * Z)) : Z := foldr (fun p n => p.2 + n) 0 ps.
Definition paid_to (y : Z) (ps : list (Z * Z)) : Z := foldr (fun p n => (if decide (y = p.1) then p.2 else 0) + n) 0 ps.

Fixpoint pay (ps : list (Z * Z)) (w : @World S) : option (@World S) :=
  match ps with
  | [] => Some w
  | (key, amount) :: rest => match issue key amount w with None => None | Some w => pay rest w end
  end.

Lemma pay_app ps qs : forall w, pay (ps ++ qs) w = match pay ps w with None => None | Some w' => pay qs w' end.
Proof. induction ps as [|[key a] ps IH]; intros w; [done|]. cbn. destruct (issue key a w); [apply IH|done]. Qed.

Lemma amounts_app ps qs : amounts (ps ++ qs) = amounts ps + amounts qs.
Proof. induction ps as [|p ps IH]; [done|]. unfold amounts in *. cbn [app foldr]. rewrite IH. lia. Qed.

(** No entry of the table is a contract that reacts to incoming money. *)
Definition silent (table : list RevenueDonationEntry) : Prop :=
  Forall (fun rd => isPublicKeyOfContract env (donationKey rd) = true -> hasPostIncomingTransfer env (m256i_u64 (donationKey rd) 0) = false) table.

Lemma silent_notify rd a w :
  (isPublicKeyOfContract env (donationKey rd) = true -> hasPostIncomingTransfer env (m256i_u64 (donationKey rd) 0) = false) ->
  notifyContractOfIncomingTransfer env contractProcessor 0 (donationKey rd) a revenueDonation w = Some w.
Proof.
  intros Hs. unfold notifyContractOfIncomingTransfer. destruct (isPublicKeyOfContract env (donationKey rd)); [|by rewrite orb_true_r].
  rewrite Hs by done. by destruct (_ || _).
Qed.

Lemma donate_pays table : silent table -> forall revenue w, 0 <= revenue < 2 ^ 40 ->
  donate table revenue w = match pay (donations table revenue).1 w with None => None | Some w' => Some (w', (donations table revenue).2) end.
Proof.
  induction 1 as [|rd rest Hrd _ IH]; intros revenue w Hr; [done|]. cbn [donate donations]. unfold isZero.
  destruct (Z.eqb_spec (donationKey rd) 0); [by rewrite decide_True|]. rewrite (decide_False (P := donationKey rd = 0)) by done.
  case_decide as Hact.
  - replace (_ && _ && _) with true by lia. destruct (donation_range revenue (millionthAmount rd) Hr ltac:(lia)) as (Hd & Heq & Hs).
    rewrite Hs, Heq in *. set (donation := revenue * _ / _) in *. clearbody donation. specialize (IH (revenue - donation)).
    destruct (donations rest (revenue - donation)) as [ps remaining]. cbn [fst snd pay] in *. destruct (issue _ _ w) as [w1|]; [|done].
    rewrite silent_notify by done. destruct (_ =? 0); apply IH; lia.
  - destruct (_ && _ && _) eqn:Hb; [|by apply IH]. exfalso. apply Hact. lia.
Qed.

Lemma donations_ok table : forall revenue, 0 <= revenue ->
  let '(ps, remaining) := donations table revenue in
  amounts ps + remaining = revenue /\ 0 <= remaining /\ Forall (fun p => p.1 <> 0 /\ 0 <= p.2) ps /\ (length ps <= length table)%nat.
Proof.
  induction table as [|rd rest IH]; intros revenue Hr; [cbn; split_and!; [lia|lia|constructor|lia]|]. cbn [donations].
  case_decide; [split_and!; [cbn; lia|lia|constructor|cbn; lia]|]. case_decide as Hact.
  - assert (0 <= revenue * millionthAmount rd / 1000000 <= revenue) as Hd by (split; [apply Z.div_pos; nia|apply Z.div_le_upper_bound; nia]).
    specialize (IH (revenue - revenue * millionthAmount rd / 1000000) ltac:(lia)). destruct (donations rest _) as [ps remaining]. destruct IH as (I1 & I2 & I3 & I4).
    split_and!; [unfold amounts in *; cbn [foldr snd]; lia|done|constructor; [cbn; split; [done|lia]|done]|cbn; lia].
  - specialize (IH revenue Hr). destruct (donations rest revenue) as [ps remaining]. destruct IH as (I1 & I2 & I3 & I4). split_and!; [done|done|done|cbn; lia].
Qed.

(** Every payment reaches its entity and is logged, and nothing else changes. *)
Lemma pay_ok ps : forall w,
  ledger_ok (w_ledger w) -> Forall (fun p => p.1 <> 0 /\ 0 <= p.2) ps -> total_of (w_ledger w) + amounts ps < total_limit ->
  Z.of_nat (length ps) <= free_entities (w_ledger w) ->
  exists w', pay ps w = Some w' /\ ledger_ok (w_ledger w') /\ total_of (w_ledger w') = total_of (w_ledger w) + amounts ps /\
    (forall y, y <> 0 -> balance_of (w_ledger w') y = balance_of (w_ledger w) y + paid_to y ps) /\
    w_log w' = w_log w ++ map (fun p => QuTransfer 0 p.1 p.2) ps /\
    w_reserves w' = w_reserves w /\ contractError w' = contractError w.
Proof.
  induction ps as [|[key a] ps IH]; intros w Hok Hps Hl Hf.
  { exists w. split_and!; [done|done|cbn; lia|intros; cbn; lia|by rewrite app_nil_r|done|done]. }
  inversion_clear Hps as [|? ? [Hk Ha] Hps']. cbn [fst snd] in *. unfold amounts in Hl. cbn [foldr snd] in Hl. fold (amounts ps) in Hl.
  assert (0 <= amounts ps) as Hpos by (clear -Hps'; induction Hps' as [|p l [_ Hp] _ IH]; unfold amounts in *; cbn [foldr]; lia).
  cbn [length] in Hf. destruct (credit_law (w_ledger w) key a Hok Hk Ha ltac:(lia) ltac:(lia)) as (s & Hc & Hok' & Ht & Hfree & Hb).
  cbn [pay]. unfold issue. rewrite Hc. destruct (IH (log_money (QuTransfer 0 key a) (with_ledger s w))) as (w' & -> & I1 & I2 & I3 & I4 & I5); cbn in *; [done|done|lia|lia|].
  exists w'. split_and!; [done|done|unfold amounts in *; cbn [foldr snd]; lia| |rewrite I4, <- app_assoc; done|apply I5..].
  intros y Hy. rewrite I3, Hb by done. unfold paid_to. cbn [foldr fst snd]. lia.
Qed.

Lemma pay_all_pays table publicKeys revenues `{!FairRevenue revenues} w :
  silent table ->
  for_loop NC 0 (pay_computor table publicKeys revenues) (Some (w, ISSUANCE_RATE)) =
  match pay (concat (map (computor_payments table publicKeys revenues) (seqZ 0 (Z.of_nat NC)))) w with
  | None => None
  | Some w' => Some (w', ISSUANCE_RATE - sumZ (fun c => revenues.[c]) NC)
  end.
Proof.
  intros Hs.
  enough (forall n, (n <= NC)%nat -> for_loop n 0 (pay_computor table publicKeys revenues) (Some (w, ISSUANCE_RATE)) =
    match pay (concat (map (computor_payments table publicKeys revenues) (seqZ 0 (Z.of_nat n)))) w with
    | None => None | Some w' => Some (w', ISSUANCE_RATE - sumZ (fun c => revenues.[c]) n) end) as He by (by apply He).
  induction n as [|n IH]; intros Hn; [done|]. rewrite for_loop_snoc, IH by lia. rewrite seqZ_S, map_app, concat_app, pay_app.
  destruct (pay _ w) as [w1|]; [|done]. cbn [map concat]. rewrite app_nil_r, Z.add_0_l. unfold pay_computor, computor_payments.
  pose proof (share_small revenues (Z.of_nat n) ltac:(lia)) as Hr. rewrite donate_pays by done.
  pose proof (fair_sum revenues n ltac:(lia)) as Hs1. pose proof (fair_range (Z.of_nat n) ltac:(lia)) as Hri.
  destruct (donations table _) as [ps remaining]. cbn [fst snd]. rewrite pay_app. destruct (pay ps w1) as [w2|]; [|done]. cbn [pay].
  destruct (issue _ _ w2); [|done]. cbn [sumZ]. rewrite s64_small by (unfold is_s64, ISSUANCE_RATE in *; lia). by rewrite Z.sub_add_distr.
Qed.

Lemma computor_payments_ok table publicKeys revenues c :
  0 <= revenues.[c] -> publicKeys.[c] <> 0 ->
  let ps := computor_payments table publicKeys revenues c in
  amounts ps = revenues.[c] /\ Forall (fun p => p.1 <> 0 /\ 0 <= p.2) ps /\ (length ps <= length table + 1)%nat.
Proof.
  intros Hr Hk. unfold computor_payments. pose proof (donations_ok table (revenues.[c]) Hr) as Hd. destruct (donations table _) as [ps remaining].
  destruct Hd as (D1 & D2 & D3 & D4). rewrite amounts_app, length_app. split_and!; [cbn; lia| |cbn; lia].
  apply Forall_app. split; [done|]. by repeat constructor.
Qed.

Lemma epoch_payments_ok table publicKeys revenues arbitrator `{!FairRevenue revenues} :
  (forall c, 0 <= c < Z.of_nat NC -> publicKeys.[c] <> 0) -> arbitrator <> 0 ->
  let ps := epoch_payments table publicKeys revenues arbitrator in
  amounts ps = ISSUANCE_RATE /\ Forall (fun p => p.1 <> 0 /\ 0 <= p.2) ps /\
  Z.of_nat (length ps) <= Z.of_nat NC * (Z.of_nat (length table) + 1) + 1.
Proof.
  intros Hkeys Ha. unfold epoch_payments. rewrite amounts_app, length_app. pose proof (fair_sum revenues NC ltac:(lia)) as Hs.
  enough (forall n, (n <= NC)%nat -> let qs := concat (map (computor_payments table publicKeys revenues) (seqZ 0 (Z.of_nat n))) in
    amounts qs = sumZ (fun c => revenues.[c]) n /\ Forall (fun p => p.1 <> 0 /\ 0 <= p.2) qs /\ Z.of_nat (length qs) <= Z.of_nat n * (Z.of_nat (length table) + 1)) as He.
  { destruct (He NC ltac:(lia)) as (E1 & E2 & E3). cbn zeta in *. split_and!; [rewrite E1; cbn; lia| |rewrite Nat2Z.inj_add; cbn; lia].
    apply Forall_app. split; [done|]. repeat constructor; cbn; [done|lia]. }
  induction n as [|n IH]; intros Hn; [rewrite (seqZ_nil 0 (Z.of_nat 0)) by lia; split_and!; [done|constructor|done]|]. destruct (IH ltac:(lia)) as (I1 & I2 & I3).
  cbn zeta in *. rewrite seqZ_S, map_app, concat_app, amounts_app, length_app. cbn [map concat]. rewrite app_nil_r, Z.add_0_l.
  destruct (computor_payments_ok table publicKeys revenues (Z.of_nat n)) as (C1 & C2 & C3); [apply fair_range; lia|apply Hkeys; lia|].
  split_and!; [rewrite I1, C1; done|apply Forall_app; done|]. nia.
Qed.

(** C13: who is paid at the end of an epoch.  If no entry of the donation table is a contract that reacts to incoming money, the
    distribution makes exactly the payments of its definition, in order: for every computor the donations, each the
    entry's millionths of what is left of the revenue, then the rest to the computor, and at the end what is
    left of the issuance to the arbitrator.  No payment is negative, they add up to the issuance
    of an epoch, every balance grows by what is paid to it, and every payment is logged. *)
Theorem emission_payments table publicKeys revenues arbitrator w :
  FairRevenue revenues -> silent table ->
  ledger_ok (w_ledger w) -> (forall c, 0 <= c < Z.of_nat NC -> publicKeys.[c] <> 0) -> arbitrator <> 0 ->
  total_of (w_ledger w) + ISSUANCE_RATE < total_limit ->
  Z.of_nat NC * (Z.of_nat (length table) + 1) + 1 <= free_entities (w_ledger w) ->
  let ps := epoch_payments table publicKeys revenues arbitrator in
  amounts ps = ISSUANCE_RATE /\ Forall (fun p => 0 <= p.2) ps /\
  exists w', distribute table publicKeys revenues arbitrator w = Some w' /\ ledger_ok (w_ledger w') /\
    total_of (w_ledger w') = total_of (w_ledger w) + ISSUANCE_RATE /\
    (forall y, y <> 0 -> balance_of (w_ledger w') y = balance_of (w_ledger w) y + paid_to y ps) /\
    w_log w' = w_log w ++ map (fun p => QuTransfer 0 p.1 p.2) ps.
Proof.
  intros Hfair Hs Hok Hkeys Ha Hl Hf ps. destruct (epoch_payments_ok table publicKeys revenues arbitrator Hkeys Ha) as (E1 & E2 & E3). fold ps in E1, E2, E3.
  split; [done|]. split; [eapply Forall_impl; [exact E2|by intros ? []]|].
  assert (distribute table publicKeys revenues arbitrator w = pay ps w) as ->.
  { unfold distribute, ps, epoch_payments. rewrite pay_all_pays by done. rewrite pay_app. destruct (pay _ w) as [w1|]; [|done]. cbn. by destruct (issue _ _ w1). }
  destruct (pay_ok ps w Hok E2 ltac:(lia) ltac:(lia)) as (w' & P1 & P2 & P3 & P4 & P5 & _). exists w'. rewrite E1 in P3. done.
Qed.

(** ** The whole emission, after a streamed epoch *)
Hypothesis HDIM : REVENUE_TX_DIM NC CC < 2 ^ 32.
Variable NTX : Z.
Hypothesis HNTX : 0 <= NTX < 2 ^ 16.
Hypothesis Hsquares : REVENUE_TX_DIM NC CC * (NTX * REVENUE_WINDOW_SIZE NC * (NTX * REVENUE_WINDOW_SIZE NC)) < 2 ^ 64.
Variable o : Z -> list Z.
Hypothesis Ho : forall t, row_ok NC CC NTX (fun d => (o t).[d]).
Hypothesis HQ : 1 <= QUORUM.
Hypothesis Hipc : REVENUE_IPC NC * REVENUE_SCALE * REVENUE_SCALE * REVENUE_SCALE < 2 ^ 64.
Hypothesis Hsupply : MAX_SUPPLY < total_limit.

(** Version 2 only writes its own results. *)
Lemma v2_keeps e b :
  totalTicks (computeRevenueV2 NC QUORUM e b).1 = totalTicks e /\ oracleScore (computeRevenueV2 NC QUORUM e b).1 = oracleScore e.
Proof. unfold computeRevenueV2. destruct (_ <? _); [done|]. by destruct (for_loop _ _ _ _). Qed.

(** The paid revenue is fair. *)
Lemma multidim_fair initial n e m :
  Z.of_nat n < 2 ^ 24 -> 0 <= initial -> initial + Z.of_nat n < 2 ^ 32 -> inputs_ok NC n e ->
  stream_ok NC CC o initial (Z.of_nat n) m -> FairRevenue (revenue (computeMultiDimRevenue NC CC QUORUM e m)).
Proof.
  intros Hn Hi Hin He Hm. split. intros c Hc.
  destruct (computeMultiDimRevenue_ok NC CC HNC HDIM NTX HNTX Hsquares o Ho QUORUM HQ Hipc initial n e m Hn Hi Hin He Hm) as (_ & _ & Hr).
  apply Hr. lia.
Qed.

(** C12: the emission of an epoch, end to end.  After the ticks of the epoch have been streamed through the revenue computation, the end of the epoch
    issues exactly the issuance rate if the supply allows it, and nothing otherwise: the ledger grows by that amount, apart from what notified contracts burn;
    they may run any code that moves money or burns it.  No step of the distribution fails, and nobody
    gets more than the issuance share as revenue. *)
Theorem epoch_issues_exactly initial n shares points table publicKeys arbitrator st :
  Z.of_nat n < 2 ^ 24 -> 0 <= initial -> initial + Z.of_nat n < 2 ^ 32 -> is_scores NC points ->
  gMultiDimRevenue st = streamTicks NC CC o n (startRevenue NC CC initial) ->
  ledger_ok (w_ledger (es_world st)) -> (forall c, 0 <= c < Z.of_nat NC -> publicKeys.[c] <> 0) -> arbitrator <> 0 ->
  epoch_cost table <= free_entities (w_ledger (es_world st)) ->
  let r := issueEpoch (initial + Z.of_nat n) initial shares points table publicKeys arbitrator st in
  if decide (total_of (w_ledger (es_world st)) + ISSUANCE_RATE <= MAX_SUPPLY) then
    exists st', r = Some st' /\ grown ISSUANCE_RATE (epoch_cost table) (es_world st) (es_world st') /\
      forall c, 0 <= c < Z.of_nat NC -> 0 <= (revenue (gMultiDimRevenue st')).[c] <= REVENUE_IPC NC
  else r = Some st.
Proof.
  intros Hn Hi Hin Hp Hst Hok Hkeys Ha Hf r. unfold r, issueEpoch. pose proof (total_below _ Hok) as Ht.
  assert (0 <= total_of (w_ledger (es_world st))) as Ht0 by (pose proof (balance_range _ 1 Hok ltac:(done)); lia).
  rewrite u64_small by (unfold is_u64, ISSUANCE_RATE; lia).
  destruct (Z.leb_spec (total_of (w_ledger (es_world st)) + ISSUANCE_RATE) MAX_SUPPLY) as [Hle|Hgt]; [rewrite decide_True by done|by rewrite decide_False by lia].
  set (e0 := collect _ _ _ _ _). destruct (v2_keeps e0 (gRevenueV2Buffers st)) as [K1 K2]. destruct (computeRevenueV2 NC QUORUM e0 _) as [e b]. cbn [fst] in K1, K2.
  assert (u32 (initial + Z.of_nat n - initial) = Z.of_nat n) as Hu by (rewrite u32_small; unfold is_u32; lia).
  set (m0 := set_totalTicks _ _). set (m := computeMultiDimRevenue _ _ _ _ _).
  assert (FairRevenue (revenue m)) as Hfair.
  { apply (multidim_fair initial n e m0 Hn Hi Hin).
    - split; [rewrite K1; exact Hu|]. rewrite K2. exact Hp.
    - destruct (streamTicks_ok NC CC HNC HDIM NTX HNTX Hsquares o Ho initial n Hn Hi Hin) as [Sa [S1 S2 S3 S4]]. rewrite <- Hst in *.
      split; [by apply (arrays_ok_ext NC CC o _ (gMultiDimRevenue st))|by split]. }
  destruct (distribute_ok table publicKeys (revenue m) arbitrator (es_world st) Hok Hkeys Ha ltac:(lia) Hf) as (w' & -> & Hg).
  exists (mkEpochState e b m w'). split_and!; [done|done|]. intros c Hc. by apply fair_range.
Qed.
End Emission.

(** ** Concrete runs *)

(** Two computors with the revenues 300 and 500; the first entry takes a tenth, the second is in the future. *)
Definition ex_table : list RevenueDonationEntry := [mkDonation 1000 100000 50; mkDonation 1001 500000 200; mkDonation 0 0 0].

Section RunEmission.
#[local] Instance emission_ops : LedgerOps (@SpectrumState Z) := bank_ops.
#[local] Instance emission_ledger : Ledger (@SpectrumState Z) := bank_ledger.

Lemma emission_payments_witness :
  epoch_payments 2 ex_env ex_table [7; 8] [300; 500] 9 = [(1000, 30); (7, 270); (1000, 50); (8, 450); (9, ISSUANCE_RATE - 800)] /\
  exists w', distribute 2 ex_env ex_call ex_table [7; 8] [300; 500] 9 ex_world = Some w' /\ balance_of (w_ledger w') 1000 = 120.
Proof.
  split; [vm_compute; reflexivity|].
  assert (FairRevenue 2 [300; 500]) as Hfair.
  { split. intros c Hc. assert (c = 0 \/ c = 1) as [-> | ->] by lia; vm_compute; intuition discriminate. }
  assert (silent ex_env ex_table) as Hs by (repeat constructor; vm_compute; (reflexivity || discriminate)).
  destruct (emission_payments 2 ex_env ex_call ltac:(lia) ex_table [7; 8] [300; 500] 9 ex_world Hfair Hs) as (_ & _ & w' & E1 & _ & _ & E2 & _).
  - exact ex_bank_ok.
  - intros c Hc. assert (c = 0 \/ c = 1) as [-> | ->] by lia; discriminate.
  - discriminate.
  - vm_compute. reflexivity.
  - vm_compute. discriminate.
  - exists w'. split; [exact E1|]. etrans; [apply E2; discriminate|]. vm_compute. reflexivity.
Defined.
End RunEmission.

Section RunEpoch.
#[local] Instance epoch_ops : LedgerOps (@SpectrumState Z) := spectrum_ops 10 true ex_leaf ex_node 9.
#[local] Instance epoch_ledger : Ledger (@SpectrumState Z) := spectrum_ledger 10 ltac:(lia) true ex_leaf ex_node 9.

(** The network's 676 computors and an empty ledger of 1024 slots, after 1400 ticks. *)
Definition ex_epoch (m : MultiDimRevenue) : @EpochState (@SpectrumState Z) :=
  mkEpochState (mkEpoch 0 0 [] [] [] [] [] [] [] [] []) (mkBuffers [] [] [] []) m
    (mkWorld (emptySpectrum 10) (mkReserves [0; 7; 8; 9] [0]) [0; 0; 0; 0] (mkTracker (replicate 2 inhabitant) 0) []).

Abbreviation ex_obs := (fun _ : Z => replicate 704 1).

Lemma ex_obs_ok t : row_ok 676 27 4096 (fun d => (ex_obs t).[d]).
Proof. intros d Hd. change (REVENUE_TX_DIM 676 27) with 704 in Hd. rewrite aget_replicate by lia. lia. Qed.

Lemma ex_call_conserving : conserving ex_call 0.
Proof. intros source index a type w Hw. exists w. split; [reflexivity|by apply grown_refl]. Qed.

Lemma ex_epoch_ok m : ledger_ok (w_ledger (es_world (ex_epoch m))).
Proof. apply emptySpectrum_ok. lia. Qed.

Lemma ex_epoch_free m : epoch_cost 676 0 [] <= free_entities (w_ledger (es_world (ex_epoch m))).
Proof. vm_compute. discriminate. Qed.

Lemma ex_epoch_supply m : total_of (w_ledger (es_world (ex_epoch m))) + ISSUANCE_RATE <= MAX_SUPPLY.
Proof. vm_compute. discriminate. Qed.

Lemma ex_epoch_money m : total_of (w_ledger (es_world (ex_epoch m))) + burnt (w_log (es_world (ex_epoch m))) = 0.
Proof. vm_compute. reflexivity. Qed.

Definition ex_stream : MultiDimRevenue := streamTicks 676 27 ex_obs 1400 (startRevenue 676 27 100).

Lemma epoch_issues_exactly_witness :
  exists st', issueEpoch 676 27 451 ex_env ex_call (100 + Z.of_nat 1400) 100 (replicate 676 0) (replicate 676 3) [] (replicate 676 7) 9
      (ex_epoch ex_stream) = Some st' /\
    total_of (w_ledger (es_world st')) + burnt (w_log (es_world st')) = ISSUANCE_RATE.
Proof.
  assert (gMultiDimRevenue (ex_epoch ex_stream) = streamTicks 676 27 ex_obs 1400 (startRevenue 676 27 100)) as Hm by reflexivity.
  assert (is_scores 676 (replicate 676 3)) as Hp by (intros i Hi; rewrite aget_replicate by lia; lia).
  assert (forall c, 0 <= c < Z.of_nat 676 -> (replicate 676 7).[c] <> 0) as Hkeys by (intros c Hc; rewrite aget_replicate by lia; lia).
  pose proof (epoch_issues_exactly 676 27 451 ex_env ex_call 0 ltac:(lia) ex_call_conserving ltac:(lia) ltac:(vm_compute; reflexivity)
    4096 ltac:(lia) ltac:(vm_compute; reflexivity) ex_obs ex_obs_ok ltac:(lia) ltac:(vm_compute; reflexivity) ltac:(vm_compute; reflexivity)
    100 1400 (replicate 676 0) (replicate 676 3) [] (replicate 676 7) 9 (ex_epoch ex_stream)
    ltac:(lia) ltac:(lia) ltac:(lia) Hp Hm (ex_epoch_ok _) Hkeys ltac:(discriminate) (ex_epoch_free _)) as Hrun.
  cbv zeta in Hrun. rewrite decide_True in Hrun by apply ex_epoch_supply. destruct Hrun as (st' & H1 & [_ H2 _ _] & _).
  exists st'. split; [exact H1|]. rewrite H2. rewrite ex_epoch_money. reflexivity.
Defined.
End RunEpoch.
