(* ===== verification/GeneralQuorumProposal.v ===== *)
(** * The General Quorum Proposal contract (contracts/GeneralQuorumProposal.h)

    Computors vote on donations out of the revenue of the computors.  The contract keeps the proposals of the computors and a table of the donations that
    were accepted, which the emission at the end of an epoch reads.  The numbers of computors and of votes for a quorum are fixed by the build. *)
From S2P Require Import Emission Prelude Containers ProposalData ProposalVoters ProposalVoting.

#[export] Instance RevenueDonationEntry_inhabited : Inhabited RevenueDonationEntry := populate (mkDonation 0 0 0).
Definition zero_entry : RevenueDonationEntry := mkDonation 0 0 0.

Section GQMPROP.
Variables NUMBER_OF_COMPUTORS QUORUM : Z.
#[local] Instance ProposalDataT : ProposalDataType := DataV1 false.
#[local] Instance ProposersAndVotersT : VoterHandling (list Z) := handling_by_computors NUMBER_OF_COMPUTORS NUMBER_OF_COMPUTORS.
Notation ProposalVotingT := (ProposalVoting (list Z)).
Notation RevenueDonationT := (list RevenueDonationEntry).

Record StateData := mkState { gqm_proposals : ProposalVotingT; gqm_revenueDonation : RevenueDonationT }.

(** ** The donation table *)

(** The search loop of _SetRevenueDonationEntry: the index of the entry to update, or firstEmptyIdx and beforeInsertIdx *)
Fixpoint scan (n : nat) (t : RevenueDonationT) (input : RevenueDonationEntry) (idx beforeInsertIdx : Z) : Z + Z * Z :=
  match n with
  | O => inr (-1, beforeInsertIdx)
  | S n =>
      let entry := Array.get 7 t idx in
      if donationKey input =? donationKey entry then
        if firstEpoch input =? firstEpoch entry then inl idx
        else if firstEpoch entry <? firstEpoch input then scan n t input (idx + 1) idx
        else scan n t input (idx + 1) (if beforeInsertIdx =? -1 then idx - 1 else beforeInsertIdx)
      else if donationKey entry =? 0 then inr (idx, beforeInsertIdx)
      else scan n t input (idx + 1) beforeInsertIdx
  end.

(** [n] entries are moved to the next place, from [idx] downwards. *)
Fixpoint move_entries (n : nat) (idx : Z) (t : RevenueDonationT) : RevenueDonationT :=
  match n with O => t | S n => move_entries n (idx - 1) (Array.set 7 t (idx + 1) (Array.get 7 t idx)) end.

(** The output [okay] is passed in and returned. *)
Definition _SetRevenueDonationEntry (input : RevenueDonationEntry) (t : RevenueDonationT) (okay : bool) : RevenueDonationT * bool :=
  match scan 128 t input 0 (-1) with
  | inl idx => (Array.set 7 t idx input, true)
  | inr (firstEmptyIdx, beforeInsertIdx) =>
      if 0 <=? firstEmptyIdx then
        if 0 <=? beforeInsertIdx then
          let t := move_entries (Z.to_nat (firstEmptyIdx - 1 - beforeInsertIdx)) (firstEmptyIdx - 1) t in
          (Array.set 7 t (beforeInsertIdx + 1) input, okay)
        else (Array.set 7 t firstEmptyIdx input, true)
      else (t, okay)
  end.

(** The entries from [idxMove] on, up to the end of the table, are moved one place down; the last place is cleared. *)
Fixpoint close_gap (n : nat) (idxMove : Z) (t : RevenueDonationT) : RevenueDonationT :=
  match n with
  | O => Array.set 7 t (idxMove - 1) zero_entry
  | S n => if negb (donationKey (Array.get 7 t idxMove) =? 0) then close_gap n (idxMove + 1) (Array.set 7 t (idxMove - 1) (Array.get 7 t idxMove))
           else Array.set 7 t (idxMove - 1) zero_entry
  end.

Fixpoint cleanup_from (epoch : Z) (n : nat) (idx : Z) (t : RevenueDonationT) : RevenueDonationT :=
  match n with
  | O => t
  | S n =>
      let entry1 := Array.get 7 t (idx - 1) in
      if donationKey entry1 =? 0 then t
      else
        let entry2 := Array.get 7 t idx in
        let t := if (donationKey entry1 =? donationKey entry2) && (firstEpoch entry1 <? epoch) && (firstEpoch entry2 <=? epoch)
                 then close_gap (Z.to_nat (128 - idx)) idx t else t in
        cleanup_from epoch n (idx + 1) t
  end.
Definition _CleanupRevenueDonation (epoch : Z) (t : RevenueDonationT) : RevenueDonationT := cleanup_from epoch 127 1 t.

(** ** Procedures *)

(** The requirements of this contract *)
Definition proposal_allowed (epoch : Z) (input : ProposalData) : bool :=
  let in_millionths a := negb ((a <? 0) || (1000000 <? a)) in
  let c := cls (p_type input) in
  if c =? GeneralOptions then true
  else if c =? Transfer then forallb (fun i => in_millionths (Array.get 2 (amounts input) i)) [0; 1; 2; 3]
  else if c =? TransferInEpoch then in_millionths (amount input) && negb (targetEpoch input <=? epoch)
  else false.

Definition SetProposal (q : QpiContext) (originator : Z) (input : ProposalData) (st : StateData) : StateData * (Z * bool) :=
  if proposal_allowed (q_epoch q) input then
    let '(pv, proposalIndex) := setProposal NUMBER_OF_COMPUTORS NUMBER_OF_COMPUTORS q originator input (gqm_proposals st) in
    (mkState pv (gqm_revenueDonation st), (proposalIndex, negb (proposalIndex =? INVALID_PROPOSAL_INDEX)))
  else (st, (INVALID_PROPOSAL_INDEX, false)).

Definition Vote (q : QpiContext) (originator : Z) (input : SingleVote) (st : StateData) : StateData * bool :=
  let '(pv, okay) := vote NUMBER_OF_COMPUTORS NUMBER_OF_COMPUTORS q originator input (gqm_proposals st) in (mkState pv (gqm_revenueDonation st), okay).

(** ** Functions *)
Fixpoint collect_indices (n : nat) (next : Z -> Z) (prevProposalIndex numOfIndices : Z) (indices : list Z) : Z * list Z :=
  match n with
  | O => (numOfIndices, indices)
  | S n =>
      let prevProposalIndex := next prevProposalIndex in
      if 0 <=? prevProposalIndex then collect_indices n next prevProposalIndex (numOfIndices + 1) (Array.set 6 indices numOfIndices prevProposalIndex)
      else (numOfIndices, indices)
  end.
Definition GetProposalIndices (q : QpiContext) (activeProposals : bool) (prevProposalIndex : Z) (st : StateData) : Z * list Z :=
  let next := if activeProposals then fun prev => nextProposalIndex NUMBER_OF_COMPUTORS q (gqm_proposals st) prev (q_epoch q)
              else nextFinishedProposalIndex NUMBER_OF_COMPUTORS q (gqm_proposals st) in
  collect_indices 64 next prevProposalIndex 0 (replicate 64 0).

Definition GetProposal (proposalIndex : Z) (proposal : ProposalData) (st : StateData) : Z * ProposalData * bool :=
  let '(proposal, okay) := getProposal NUMBER_OF_COMPUTORS proposalIndex proposal (gqm_proposals st) in
  (proposerId NUMBER_OF_COMPUTORS (gqm_proposals st) proposalIndex, proposal, okay).

Definition GetVote (q : QpiContext) (voter proposalIndex : Z) (v : SingleVote) (st : StateData) : SingleVote * bool :=
  getVote NUMBER_OF_COMPUTORS NUMBER_OF_COMPUTORS proposalIndex (voteIndex q (gqm_proposals st) voter 0) v (gqm_proposals st).

Definition GetVotingResults (proposalIndex : Z) (results : Summary) (st : StateData) : Summary * bool :=
  getVotingSummary NUMBER_OF_COMPUTORS NUMBER_OF_COMPUTORS proposalIndex results (gqm_proposals st).

Definition GetRevenueDonation (st : StateData) : RevenueDonationT := gqm_revenueDonation st.

(** ** BEGIN_EPOCH *)

(** The entry for the table if the proposal was accepted; the locals [proposal] and [results] are written before they are read. *)
Definition accepted_entry (q : QpiContext) (proposalIndex : Z) (pv : ProposalVotingT) (results : Summary) : option RevenueDonationEntry :=
  let '(proposal, okay) := getProposal NUMBER_OF_COMPUTORS proposalIndex inhabitant pv in
  if okay then
    let propClass := cls (p_type proposal) in
    if (propClass =? Transfer) || (propClass =? TransferInEpoch) then
      let '(results, okay) := getVotingSummary NUMBER_OF_COMPUTORS NUMBER_OF_COMPUTORS proposalIndex results pv in
      if okay then
        if QUORUM <=? s_totalVotesCasted results then
          let '(mostVotedOptionIndex, mostVotedOptionVotes) :=
            for_loop (Z.to_nat (s_optionCount results - 1)) 1 (fun optionIndex '(mostVotedOptionIndex, mostVotedOptionVotes) =>
              let optionVotes := optionVoteCount results optionIndex in
              if mostVotedOptionVotes <? optionVotes then (optionIndex, optionVotes) else (mostVotedOptionIndex, mostVotedOptionVotes))
            (0, optionVoteCount results 0) in
          if (0 <? mostVotedOptionIndex) && (QUORUM / 2 <? mostVotedOptionVotes) then
            if propClass =? TransferInEpoch then Some (mkDonation (destination proposal) (amount proposal) (targetEpoch proposal))
            else Some (mkDonation (destination proposal) (Array.get 2 (amounts proposal) (mostVotedOptionIndex - 1)) (q_epoch q))
          else None
        else None
      else None
    else None
  else None.

(** The loop over the proposals of the previous epoch *)
Fixpoint accept_loop (fuel : nat) (q : QpiContext) (pv : ProposalVotingT) (proposalIndex : Z) (t : RevenueDonationT) (okay : bool) (results : Summary) : option RevenueDonationT :=
  match fuel with
  | O => None
  | S fuel =>
      let proposalIndex := nextProposalIndex NUMBER_OF_COMPUTORS q pv proposalIndex (u16 (q_epoch q - 1)) in
      if 0 <=? proposalIndex then
        let '(t, okay) := match accepted_entry q proposalIndex pv results with Some entry => _SetRevenueDonationEntry entry t okay | None => (t, okay) end in
        accept_loop fuel q pv proposalIndex t okay results
      else Some t
  end.

Definition BEGIN_EPOCH (q : QpiContext) (st : StateData) : option StateData :=
  match accept_loop (S (Z.to_nat NUMBER_OF_COMPUTORS)) q (gqm_proposals st) (-1) (gqm_revenueDonation st) false (mkSummary 0 0 0 0 0 (replicate 8 0)) with
  | Some t => Some (mkState (gqm_proposals st) (_CleanupRevenueDonation (q_epoch q) t))
  | None => None
  end.

(** INITIALIZE, on the zeroed state *)
Definition INITIALIZE : StateData :=
  let pv := mkVoting (replicate (Z.to_nat NUMBER_OF_COMPUTORS) NULL_ID) (replicate (Z.to_nat NUMBER_OF_COMPUTORS) (zero_proposal NUMBER_OF_COMPUTORS)) in
  mkState pv (_SetRevenueDonationEntry (mkDonation 7 (150 * 1000) 123) (replicate 128 zero_entry) false).1.
End GQMPROP.
