(* ===== verification/DonationTable.v ===== *)
(** * The donation table as a schedule

    The table of 128 entries stands for a schedule: the destinations in the order in which they were first accepted, each with its donations by
    first epoch.  Setting an entry schedules a donation; the cleanup drops what a later donation has replaced. *)
From S2P Require Import Emission Prelude Containers ProposalData ProposalVoters ProposalRolls GeneralQuorumProposal.

(** Destinations with their pairs of first epoch and amount *)
Definition schedule : Type := list (Z * list (Z * Z)).
Implicit Types g : schedule.

Definition entry_of (id : Z) (ea : Z * Z) : RevenueDonationEntry := mkDonation id ea.2 ea.1.
Definition entries (gl : Z * list (Z * Z)) : list RevenueDonationEntry := map (entry_of gl.1) gl.2.
Definition flatten g : list RevenueDonationEntry := concat (map entries g).
Definition size g : Z := alen (flatten g).

Definition group_ok (gl : Z * list (Z * Z)) : Prop := gl.1 <> 0 /\ gl.2 <> [] /\ StronglySorted (fun x y => x.1 < y.1) gl.2.
Definition schedule_ok g : Prop := NoDup (map fst g) /\ Forall group_ok g.

Definition is_table g (t : list RevenueDonationEntry) : Prop := size g <= 128 /\ t = flatten g ++ replicate (Z.to_nat (128 - size g)) zero_entry.

(** *** Scheduling a donation *)
Fixpoint put (e a : Z) (l : list (Z * Z)) : list (Z * Z) :=
  match l with
  | [] => [(e, a)]
  | x :: l' => if e <? x.1 then (e, a) :: l else if e =? x.1 then (e, a) :: l' else x :: put e a l'
  end.
Fixpoint plan (id e a : Z) g : schedule :=
  match g with
  | [] => [(id, [(e, a)])]
  | gl :: g' => if gl.1 =? id then (gl.1, put e a gl.2) :: g' else gl :: plan id e a g'
  end.
(** As long as the table has room *)
Definition planned (input : RevenueDonationEntry) g : schedule :=
  let g' := plan (donationKey input) (firstEpoch input) (millionthAmount input) g in if decide (size g' <= 128) then g' else g.

(** Where an epoch belongs in a sorted list *)
Lemma put_split e a l : StronglySorted (fun x y => x.1 < y.1) l -> exists l1 l2, Forall (fun x => x.1 < e) l1 /\ Forall (fun x => e < x.1) l2 /\
  ((exists b, l = l1 ++ (e, b) :: l2) \/ l = l1 ++ l2) /\ put e a l = l1 ++ (e, a) :: l2.
Proof.
  induction 1 as [|[e' b] l Hs IH Hlt]; [by exists [], []; eauto|]. cbn [put fst]. destruct (Z.ltb_spec e e').
  - exists [], ((e', b) :: l). split; [done|]. split; [|by eauto]. constructor; [done|]. eapply Forall_impl; [exact Hlt|]. cbn. intros [x1 x2]. cbn. lia.
  - destruct (Z.eqb_spec e e') as [->|Hne].
    + exists [], l. split; [done|]. split; [done|]. eauto.
    + destruct IH as (l1 & l2 & H1 & H2 & H3 & ->). exists ((e', b) :: l1), l2. split; [constructor; [cbn; lia|done]|]. split; [done|]. split; [|done].
      destruct H3 as [[c ->]| ->]; [left; by exists c|by right].
Qed.

Lemma plan_split id e a g : NoDup (map fst g) ->
  (exists g1 l g2, g = g1 ++ (id, l) :: g2 /\ id ∉ map fst g1 /\ id ∉ map fst g2 /\ plan id e a g = g1 ++ (id, put e a l) :: g2) \/
  (id ∉ map fst g /\ plan id e a g = g ++ [(id, [(e, a)])]).
Proof.
  induction g as [|[id' l] g IH]; intros Hd; [by right; split; [apply not_elem_of_nil|]|]. cbn [map fst] in Hd. apply NoDup_cons in Hd as [Hn Hd]. cbn [plan fst].
  destruct (Z.eqb_spec id' id) as [->|Hne].
  - left. exists [], l, g. split; [done|]. split; [apply not_elem_of_nil|]. done.
  - destruct (IH Hd) as [(g1 & l0 & g2 & -> & H1 & H2 & ->)|[H1 ->]].
    + left. exists ((id', l) :: g1), l0, g2. split; [done|]. split; [cbn; apply not_elem_of_cons; split; [done|done]|]. done.
    + right. split; [cbn; apply not_elem_of_cons; done|done].
Qed.

Lemma flatten_app g1 g2 : flatten (g1 ++ g2) = flatten g1 ++ flatten g2.
Proof. unfold flatten. by rewrite map_app, concat_app. Qed.
Lemma flatten_cons gl g : flatten (gl :: g) = entries gl ++ flatten g.
Proof. done. Qed.
Lemma flatten_keys (P : Z -> Prop) g : (forall id, id ∈ map fst g -> P id) -> Forall (fun x => P (donationKey x)) (flatten g).
Proof.
  induction g as [|[id l] g IH]; intros HP; [constructor|]. rewrite flatten_cons. apply Forall_app. split.
  - unfold entries. apply Forall_fmap, Forall_true. intros x. cbn. apply HP. by left.
  - apply IH. intros x Hx. apply HP. by right.
Qed.

Lemma alen_entries id l : alen (map (entry_of id) l) = alen l.
Proof. unfold alen. by rewrite length_map. Qed.

(** *** The search *)
Section scanning.
Variable input : RevenueDonationEntry.
Notation id := (donationKey input).
Notation e := (firstEpoch input).

Fixpoint scan_list (rest : list RevenueDonationEntry) (idx before : Z) : Z + Z * Z :=
  match rest with
  | [] => inr (-1, before)
  | entry :: rest =>
      if id =? donationKey entry then
        if e =? firstEpoch entry then inl idx
        else if firstEpoch entry <? e then scan_list rest (idx + 1) idx
        else scan_list rest (idx + 1) (if before =? -1 then idx - 1 else before)
      else if donationKey entry =? 0 then inr (idx, before)
      else scan_list rest (idx + 1) before
  end.

Lemma array7 i : 0 <= i < 128 -> Z.land i (2 ^ Z.of_nat 7 - 1) = i.
Proof. intros Hi. rewrite land_mask by lia. apply Z.mod_small. change (2 ^ Z.of_nat 7) with 128. lia. Qed.

Lemma scan_scan_list t : alen t = 128 -> forall n done rest before, t = done ++ rest -> length rest = n -> scan n t input (alen done) before = scan_list rest (alen done) before.
Proof.
  intros Ht n. induction n as [|n IH]; intros dn rest before E Hl; [by destruct rest|]. destruct rest as [|entry rest]; [done|]. cbn [scan scan_list].
  assert (0 <= alen dn < 128) as Hr by (rewrite E, alen_app in Ht; unfold alen in *; cbn [length] in Ht; lia).
  assert (Array.get 7 t (alen dn) = entry) as -> by (unfold Array.get; rewrite array7 by done; rewrite E; apply aget_middle).
  replace (alen dn + 1) with (alen (dn ++ [entry])) by (rewrite alen_app; done). assert (t = (dn ++ [entry]) ++ rest) as E' by (by rewrite <- app_assoc). injection Hl as Hl.
  rewrite !(IH (dn ++ [entry]) rest) by done. done.
Qed.

Lemma scan_other seg : Forall (fun x => donationKey x <> id /\ donationKey x <> 0) seg -> forall rest idx before, scan_list (seg ++ rest) idx before = scan_list rest (idx + alen seg) before.
Proof.
  induction 1 as [|x seg [H1 H2] Hf IH]; intros rest idx before; cbn [app scan_list]; [f_equal; unfold alen; cbn; lia|].
  rewrite (proj2 (Z.eqb_neq id _)), (proj2 (Z.eqb_neq (donationKey x) 0)) by done. rewrite IH. f_equal. unfold alen. cbn [length]. lia.
Qed.
Lemma scan_earlier l : Forall (fun x => x.1 < e) l -> forall rest idx before, scan_list (map (entry_of id) l ++ rest) idx before =
  scan_list rest (idx + alen l) (if decide (l = []) then before else idx + alen l - 1).
Proof.
  induction 1 as [|x l H1 Hf IH]; intros rest idx before; cbn [app scan_list map]; [f_equal; unfold alen; cbn; lia|]. cbn [entry_of donationKey firstEpoch].
  rewrite Z.eqb_refl, (proj2 (Z.eqb_neq e x.1)), (proj2 (Z.ltb_lt x.1 e)) by lia. rewrite IH. f_equal; [unfold alen; cbn [length]; lia|]. rewrite (decide_False (P := x :: l = [])) by done. case_decide as El; [subst l|]; unfold alen; cbn [length]; lia.
Qed.
Lemma scan_later l : Forall (fun x => e < x.1) l -> forall rest idx before, (before = -1 -> 0 < idx) -> scan_list (map (entry_of id) l ++ rest) idx before =
  scan_list rest (idx + alen l) (if decide (l = []) then before else if decide (before = -1) then idx - 1 else before).
Proof.
  induction 1 as [|x l H1 Hf IH]; intros rest idx before Hb; cbn [app scan_list map]; [f_equal; unfold alen; cbn; lia|]. cbn [entry_of donationKey firstEpoch].
  rewrite Z.eqb_refl, (proj2 (Z.eqb_neq e x.1)), (proj2 (Z.ltb_ge x.1 e)) by lia. rewrite IH.
  - f_equal; [unfold alen; cbn [length]; lia|]. rewrite (decide_False (P := x :: l = [])) by done. specialize (Hb). destruct (Z.eqb_spec before (-1)); repeat case_decide; done || lia.
  - destruct (Z.eqb_spec before (-1)); lia.
Qed.
Lemma scan_zeros n idx before : id <> 0 -> scan_list (replicate n zero_entry) idx before = inr (if decide (n = O) then -1 else idx, before).
Proof. intros Hid. destruct n; [done|]. cbn [replicate scan_list]. cbn [zero_entry donationKey]. by rewrite (proj2 (Z.eqb_neq id 0)). Qed.
End scanning.

(** *** Setting an entry *)
Lemma move_entries_up n : forall idx t, idx + 1 < 128 -> Z.of_nat n <= idx + 1 -> move_entries n idx t = move_up n idx t.
Proof.
  induction n as [|n IH]; intros idx t H1 H2; [done|]. cbn [move_entries move_up]. unfold Array.set, Array.get. rewrite !array7 by lia. apply IH; lia.
Qed.

Lemma insert_entry l1 l2 p pad input : alen (l1 ++ l2 ++ p :: pad) = 128 ->
  Array.set 7 (move_entries (Z.to_nat (alen (l1 ++ l2) - 1 - (alen l1 - 1))) (alen (l1 ++ l2) - 1) (l1 ++ l2 ++ p :: pad)) (alen l1 - 1 + 1) input = l1 ++ input :: l2 ++ pad.
Proof.
  intros Hl. rewrite app_assoc, alen_app in Hl. unfold alen in Hl at 2. cbn [length] in Hl. assert (alen (l1 ++ l2) = alen l1 + alen l2) as E by apply alen_app.
  assert (0 <= alen l1 /\ 0 <= alen l2) by (unfold alen; lia). replace (alen l1 - 1 + 1) with (alen l1) by lia. rewrite move_entries_up by lia.
  replace (Z.to_nat (alen (l1 ++ l2) - 1 - (alen l1 - 1))) with (length l2) by (rewrite E; unfold alen; lia).
  destruct (move_up_spec l1 l2 p pad) as [h ->]. unfold Array.set. rewrite array7 by lia. apply aset_middle.
Qed.

Lemma zeros_cons n : 0 < n -> replicate (Z.to_nat n) zero_entry = zero_entry :: replicate (Z.to_nat (n - 1)) zero_entry.
Proof. intros Hn. replace (Z.to_nat n) with (S (Z.to_nat (n - 1))) by lia. done. Qed.

Lemma is_table_length g t : is_table g t -> alen t = 128.
Proof. intros [Hs ->]. rewrite alen_app, alen_replicate. fold (size g). unfold size, alen in *. lia. Qed.

(** The place for an entry that is not in the table yet *)
Lemma place_entry l1 l2 input okay t before : 0 <= before + 1 -> alen (l1 ++ l2) <= 128 -> t = l1 ++ l2 ++ replicate (Z.to_nat (128 - alen (l1 ++ l2))) zero_entry ->
  scan 128 t input 0 (-1) = inr (if decide (128 - alen (l1 ++ l2) = 0) then -1 else alen (l1 ++ l2), before) ->
  (before = alen l1 - 1 /\ 0 < alen l1 \/ before = -1 /\ l2 = []) ->
  (_SetRevenueDonationEntry input t okay).1 = if decide (alen (l1 ++ l2) < 128) then l1 ++ input :: l2 ++ replicate (Z.to_nat (128 - alen (l1 ++ l2) - 1)) zero_entry else t.
Proof.
  intros Hb Hl Et Hscan Hcase. unfold _SetRevenueDonationEntry. rewrite Hscan. assert (0 <= alen (l1 ++ l2)) as H0 by (unfold alen; lia).
  destruct (decide (alen (l1 ++ l2) < 128)) as [Hlt|Hge].
  - rewrite decide_False by lia. rewrite (proj2 (Z.leb_le 0 _)) by lia. rewrite zeros_cons in Et by lia.
    assert (alen (l1 ++ l2 ++ zero_entry :: replicate (Z.to_nat (128 - alen (l1 ++ l2) - 1)) zero_entry) = 128) as Hall.
    { rewrite app_assoc, alen_app. unfold alen at 2. cbn [length]. rewrite length_replicate. lia. }
    destruct Hcase as [[-> Hpos]|[-> ->]].
    + rewrite (proj2 (Z.leb_le 0 (alen l1 - 1))) by lia. cbn [fst]. rewrite Et. by apply insert_entry.
    + cbn [Z.leb Z.compare fst]. rewrite Et, app_nil_r. cbn [app]. unfold Array.set. rewrite app_nil_r in Hlt, H0. rewrite array7 by lia. apply aset_middle.
  - rewrite decide_True by lia. done.
Qed.

Definition head_epoch_ok g (input : RevenueDonationEntry) : Prop :=
  match g with (id, (e0, _) :: _) :: _ => id = donationKey input -> e0 <= firstEpoch input | _ => True end.

Lemma flatten_nonempty g : Forall group_ok g -> g <> [] -> 0 < alen (flatten g).
Proof.
  intros Hf Hne. destruct g as [|[id [|x l]] g]; [done| |]; inversion Hf as [|? ? [_ [Hn _]] _]; subst; [done|]. rewrite flatten_cons, alen_app. unfold alen, entries. cbn [fst snd map length]. lia.
Qed.

Lemma other_keys g id : Forall group_ok g -> id ∉ map fst g -> Forall (fun x => donationKey x <> id /\ donationKey x <> 0) (flatten g).
Proof.
  intros Hf Hn. apply (flatten_keys (fun k => k <> id /\ k <> 0)). intros k Hk. split; [intros ->; done|]. apply list_elem_of_fmap in Hk as ([k' l] & -> & Hin).
  rewrite Forall_forall in Hf. apply (Hf _ Hin).
Qed.

Lemma list_app_cons_size g s1 x s2 : flatten g = s1 ++ x :: s2 -> size g = alen (s1 ++ s2) + 1.
Proof. intros E. unfold size. rewrite E, !alen_app. unfold alen. cbn [length]. lia. Qed.

(** The table around the place of an entry *)
Section place.
Context (input : RevenueDonationEntry) (g1 g2 : schedule) (l1 l2 : list (Z * Z)).
Notation id := (donationKey input).
Notation e := (firstEpoch input).
Hypothesis Hid : id <> 0.
Hypothesis Hg1 : Forall group_ok g1.
Hypothesis Hn1 : id ∉ map fst g1.
Hypothesis Hl1 : Forall (fun x => x.1 < e) l1.

Definition before_place : list RevenueDonationEntry := flatten g1 ++ map (entry_of id) l1.
Definition after_place : list RevenueDonationEntry := map (entry_of id) l2 ++ flatten g2.

Lemma flatten_place m : flatten (g1 ++ (id, l1 ++ m ++ l2) :: g2) = before_place ++ map (entry_of id) m ++ after_place.
Proof. rewrite flatten_app, flatten_cons. unfold entries, before_place, after_place. cbn [fst snd]. rewrite !map_app. by rewrite <- !app_assoc. Qed.

Lemma scan_before rest before : scan_list input (before_place ++ rest) 0 before =
  scan_list input rest (alen before_place) (if decide (l1 = []) then before else alen before_place - 1).
Proof.
  unfold before_place. rewrite <- app_assoc, scan_other by (by apply other_keys). rewrite scan_earlier by done. by rewrite alen_app, alen_entries.
Qed.

Lemma scan_update b rest : scan_list input (before_place ++ entry_of id (e, b) :: rest) 0 (-1) = inl (alen before_place).
Proof. rewrite scan_before. cbn [scan_list entry_of donationKey firstEpoch fst]. by rewrite !Z.eqb_refl. Qed.

Hypothesis Hg2 : Forall group_ok g2.
Hypothesis Hn2 : id ∉ map fst g2.
Hypothesis Hl2 : Forall (fun x => e < x.1) l2.
Hypothesis Hpos : 0 < alen before_place.

Lemma scan_insert n : l1 ++ l2 <> [] -> scan_list input (before_place ++ after_place ++ replicate (Z.to_nat n) zero_entry) 0 (-1) =
  inr (if decide (Z.to_nat n = O) then -1 else alen (before_place ++ after_place), alen before_place - 1).
Proof.
  intros Hne. rewrite scan_before. unfold after_place at 1. rewrite <- app_assoc, scan_later by (done || lia). rewrite scan_other by (by apply other_keys). rewrite scan_zeros by done.
  f_equal. rewrite !alen_app. unfold after_place. rewrite !alen_app, alen_entries. f_equal; [repeat case_decide; lia|].
  destruct (decide (l1 = [])) as [E1|E1], (decide (l2 = [])) as [E2|E2]; [by rewrite E1, E2 in Hne|done|done|].
  by rewrite decide_False by lia.
Qed.
End place.

Lemma entry_input input : entry_of (donationKey input) (firstEpoch input, millionthAmount input) = input.
Proof. by destruct input. Qed.

Lemma set_entry_spec input okay g t : schedule_ok g -> is_table g t -> donationKey input <> 0 -> head_epoch_ok g input ->
  is_table (planned input g) (_SetRevenueDonationEntry input t okay).1.
Proof.
  intros [Hd Hf] Ht Hid Hhead. pose proof (is_table_length g t Ht) as Hlen. destruct Ht as [Hsize Et]. unfold planned.
  assert (scan 128 t input 0 (-1) = scan_list input t 0 (-1)) as Hscan by (apply (scan_scan_list input t Hlen 128 [] t); [done|unfold alen in Hlen; lia]).
  destruct (plan_split (donationKey input) (firstEpoch input) (millionthAmount input) g Hd) as [(g1 & l & g2 & Eg & Hn1 & Hn2 & Ep)|[Hn Ep]]; rewrite Ep.
  - rewrite Eg in Hf. apply Forall_app in Hf as [Hf1 [(_ & Hlne & Hs) Hf2]%Forall_cons]. cbn [snd] in *.
    destruct (put_split (firstEpoch input) (millionthAmount input) l Hs) as (l1 & l2 & H1 & H2 & Hcase & ->).
    pose proof (flatten_place input g1 g2 l1 l2 [(firstEpoch input, millionthAmount input)]) as Eplan. cbn [map app] in Eplan. rewrite entry_input in Eplan.
    set (s1 := before_place input g1 l1) in *. set (s2 := after_place input g2 l2) in *. rewrite (list_app_cons_size _ _ _ _ Eplan).
    destruct Hcase as [[b El]|El].
    + pose proof (flatten_place input g1 g2 l1 l2 [(firstEpoch input, b)]) as Efl. cbn [map app] in Efl. rewrite <- El, <- Eg in Efl. fold s1 s2 in Efl.
      pose proof (list_app_cons_size _ _ _ _ Efl) as Esg. rewrite decide_True by lia. split; [by rewrite (list_app_cons_size _ _ _ _ Eplan), <- Esg|].
      unfold _SetRevenueDonationEntry. rewrite Hscan, Et, Efl, <- app_assoc. cbn [app]. unfold s1 at 1. rewrite scan_update by done. fold s1. cbn [fst].
      assert (0 <= alen s1 < 128) as Hr by (rewrite alen_app in Esg; unfold alen in *; lia). unfold Array.set. rewrite array7 by done. rewrite aset_middle, Eplan, (list_app_cons_size _ _ _ _ Eplan), Esg, <- app_assoc. done.
    + pose proof (flatten_place input g1 g2 l1 l2 []) as Efl. cbn [map app] in Efl. rewrite <- El, <- Eg in Efl. fold s1 s2 in Efl.
      assert (0 < alen s1) as Hpos.
      { unfold s1, before_place. rewrite alen_app. destruct l1 as [|x l1]; [|unfold alen; cbn [map length]; lia].
        destruct g1 as [|gl g1]; [|pose proof (flatten_nonempty (gl :: g1) Hf1 ltac:(done)); unfold alen in *; lia].
        exfalso. rewrite Eg in Hhead. cbn [app head_epoch_ok] in Hhead. cbn [app] in El. subst l. destruct l2 as [|[e0 a0] l2]; [done|]. inversion H2 as [|? ? H2' _]. cbn in H2'. specialize (Hhead eq_refl). lia. }
      unfold size in Hsize, Et. rewrite Efl in Hsize, Et. rewrite <- app_assoc in Et.
      rewrite (place_entry s1 s2 input okay t (alen s1 - 1)); [|lia|done|done| |by left].
      * destruct (decide (alen (s1 ++ s2) < 128)).
        -- rewrite decide_True by lia. split; [rewrite (list_app_cons_size _ _ _ _ Eplan); lia|]. rewrite Eplan, (list_app_cons_size _ _ _ _ Eplan), <- app_assoc. cbn [app]. do 4 f_equal. lia.
        -- rewrite decide_False by lia. split; [unfold size; by rewrite Efl|]. unfold size. by rewrite Efl, <- app_assoc.
      * rewrite Hscan, Et. unfold s1, s2. rewrite scan_insert by (done || congruence). fold s1 s2. repeat case_decide; done || lia.
  - pose proof (other_keys g _ Hf Hn) as Ho. assert (flatten (g ++ [(donationKey input, [(firstEpoch input, millionthAmount input)])]) = flatten g ++ input :: []) as Eplan.
    { rewrite flatten_app, flatten_cons. unfold entries. cbn [fst snd map]. by rewrite entry_input. }
    rewrite (list_app_cons_size _ _ _ _ Eplan), app_nil_r. rewrite (place_entry (flatten g) [] input okay t (-1)); rewrite ?app_nil_r; [|lia|done|done| |by right].
    + fold (size g). destruct (decide (size g < 128)).
      * rewrite decide_True by lia. split; [rewrite (list_app_cons_size _ _ _ _ Eplan), app_nil_r; fold (size g); lia|]. rewrite Eplan, (list_app_cons_size _ _ _ _ Eplan), <- app_assoc, app_nil_r. cbn [app]. do 4 f_equal. fold (size g). lia.
      * rewrite decide_False by lia. done.
    + rewrite Hscan, Et, scan_other by done. rewrite scan_zeros by done. fold (size g). do 2 f_equal. repeat case_decide; done || lia.
Qed.

(** *** Cleaning up *)
Section cleaning.
Variable epoch : Z.

Definition replaced (x y : RevenueDonationEntry) : bool := (donationKey x =? donationKey y) && (firstEpoch x <? epoch) && (firstEpoch y <=? epoch).
(** The entries of the table without those that the next one replaces *)
Fixpoint clean (l : list RevenueDonationEntry) : list RevenueDonationEntry :=
  match l with x :: ((y :: r) as l') => if replaced x y then y :: clean r else x :: clean l' | _ => l end.

Notation used l := (Forall (fun x => donationKey x <> 0) l).

Lemma close_gap_spec l : used l -> forall dn x k, alen (dn ++ x :: l ++ replicate k zero_entry) = 128 ->
  close_gap (Z.to_nat (128 - (alen dn + 1))) (alen dn + 1) (dn ++ x :: l ++ replicate k zero_entry) = dn ++ l ++ replicate (S k) zero_entry.
Proof.
  induction 1 as [|y l Hy Hf IH]; intros dn x k Hl; rewrite alen_app in Hl; unfold alen in Hl at 2; cbn [length] in Hl; rewrite length_app, length_replicate in Hl; cbn [length] in Hl.
  - assert (Array.set 7 (dn ++ x :: replicate k zero_entry) (alen dn + 1 - 1) zero_entry = dn ++ zero_entry :: replicate k zero_entry) as E.
    { replace (alen dn + 1 - 1) with (alen dn) by lia. unfold Array.set. rewrite array7 by (unfold alen in *; lia). apply aset_middle. }
    cbn [app]. destruct k as [|k]; [replace (Z.to_nat (128 - (alen dn + 1))) with O by lia; exact E|]. replace (Z.to_nat (128 - (alen dn + 1))) with (S k) by lia. cbn [close_gap].
    assert (Array.get 7 (dn ++ x :: replicate (S k) zero_entry) (alen dn + 1) = zero_entry) as ->.
    { unfold Array.get. rewrite array7 by (unfold alen in *; lia). replace (alen dn + 1) with (alen (dn ++ [x])) by (by rewrite alen_app). cbn [replicate].
      replace (dn ++ x :: zero_entry :: replicate k zero_entry) with ((dn ++ [x]) ++ zero_entry :: replicate k zero_entry) by (by rewrite <- app_assoc). apply aget_middle. }
    exact E.
  - replace (Z.to_nat (128 - (alen dn + 1))) with (S (Z.to_nat (128 - (alen (dn ++ [y]) + 1)))) by (rewrite alen_app; change (alen [y]) with 1; lia). cbn [app close_gap].
    assert (Array.get 7 (dn ++ x :: y :: l ++ replicate k zero_entry) (alen dn + 1) = y) as ->.
    { unfold Array.get. rewrite array7 by (unfold alen in *; lia). replace (alen dn + 1) with (alen (dn ++ [x])) by (by rewrite alen_app).
      replace (dn ++ x :: y :: l ++ replicate k zero_entry) with ((dn ++ [x]) ++ y :: l ++ replicate k zero_entry) by (by rewrite <- app_assoc). apply aget_middle. }
    rewrite (proj2 (Z.eqb_neq _ 0)) by done. cbn [negb]. replace (alen dn + 1 - 1) with (alen dn) by lia. unfold Array.set. rewrite array7 by (unfold alen in *; lia). rewrite aset_middle.
    replace (alen dn + 1) with (alen (dn ++ [y])) by (by rewrite alen_app). replace (dn ++ y :: y :: l ++ replicate k zero_entry) with ((dn ++ [y]) ++ y :: l ++ replicate k zero_entry) by (by rewrite <- app_assoc).
    rewrite IH; [by rewrite <- app_assoc|]. rewrite !alen_app. unfold alen. cbn [length]. rewrite length_app, length_replicate. unfold alen in Hl. lia.
Qed.

Lemma alen_close_gap n : forall idx t, alen (close_gap n idx t) = alen t.
Proof. induction n as [|n IH]; intros idx t; cbn [close_gap]; [apply alen_aset|]. destruct (negb _); [rewrite IH|]; apply alen_aset. Qed.
Lemma alen_cleanup n : forall idx t, alen (cleanup_from epoch n idx t) = alen t.
Proof.
  induction n as [|n IH]; intros idx t; cbn [cleanup_from]; [done|]. destruct (_ =? 0); [done|]. rewrite IH. destruct (_ && _); [apply alen_close_gap|done].
Qed.

Lemma cleanup_from_spec n : forall dn l k, used l -> alen (dn ++ l ++ replicate k zero_entry) = 128 -> Z.of_nat n = 127 - alen dn ->
  exists k', cleanup_from epoch n (alen dn + 1) (dn ++ l ++ replicate k zero_entry) = dn ++ clean l ++ replicate k' zero_entry.
Proof.
  induction n as [|n IH]; intros dn l k Hu Hl Hn; rewrite !alen_app, alen_replicate in Hl.
  { cbn [cleanup_from]. exists k. destruct l as [|x [|y r]]; [done|done|]. unfold alen in *. cbn [length] in *. lia. }
  cbn [cleanup_from]. replace (alen dn + 1 - 1) with (alen dn) by lia. unfold Array.get. rewrite !array7 by (unfold alen in *; lia).
  assert (forall x rest, (dn ++ x :: rest).[alen dn] = x) as Hget by (intros; apply aget_middle).
  assert (forall x y rest, (dn ++ x :: y :: rest).[alen dn + 1] = y) as Hget1.
  { intros x y rest. replace (alen dn + 1) with (alen (dn ++ [x])) by (by rewrite alen_app). replace (dn ++ x :: y :: rest) with ((dn ++ [x]) ++ y :: rest) by (by rewrite <- app_assoc). apply aget_middle. }
  assert (forall x rest, alen dn + 1 + 1 = alen (dn ++ [x]) + 1 /\ dn ++ x :: rest = (dn ++ [x]) ++ rest) as Hstep by (intros; rewrite alen_app, <- app_assoc; done).
  destruct l as [|x l].
  - destruct k as [|k]; [unfold alen in *; cbn [length] in *; lia|]. cbn [app replicate]. rewrite Hget. cbn. by exists (S k).
  - apply Forall_cons in Hu as [Hx Hu]. cbn [app]. rewrite Hget, (proj2 (Z.eqb_neq _ 0)) by done. destruct l as [|y r].
    + destruct k as [|k]; [unfold alen in *; cbn [length] in *; lia|]. cbn [app replicate]. rewrite Hget1. cbn [zero_entry donationKey]. rewrite (proj2 (Z.eqb_neq _ 0)) by done. cbn [andb].
      destruct (Hstep x (zero_entry :: replicate k zero_entry)) as [-> ->]. destruct (IH (dn ++ [x]) [] (S k)) as [k' E]; [done|rewrite !alen_app, alen_replicate; change (alen [x]) with 1 in *; change (alen (@nil RevenueDonationEntry)) with 0 in *; lia|rewrite alen_app; change (alen [x]) with 1; lia|].
      exists k'. cbn [app replicate] in E. rewrite E. by rewrite <- app_assoc.
    + apply Forall_cons in Hu as [Hy Hu]. cbn [app]. rewrite Hget1. fold (replaced x y). cbn [clean]. assert (alen (x :: y :: r) = alen r + 2) as Er by (unfold alen; cbn [length]; lia). destruct (replaced x y).
      * pose proof (close_gap_spec (y :: r) ltac:(by constructor) dn x k) as Eg. cbn [app] in Eg.
        rewrite Eg by (rewrite alen_app; unfold alen in *; cbn [length] in *; rewrite ?length_app, ?length_replicate; lia). destruct (Hstep y (r ++ replicate (S k) zero_entry)) as [-> ->]. destruct (IH (dn ++ [y]) r (S k)) as [k' E]; [done|rewrite !alen_app, alen_replicate; change (alen [y]) with 1; lia|rewrite alen_app; change (alen [y]) with 1; lia|].
        exists k'. rewrite E. by rewrite <- app_assoc.
      * destruct (Hstep x (y :: r ++ replicate k zero_entry)) as [-> ->]. destruct (IH (dn ++ [x]) (y :: r) k) as [k' E]; [by constructor|rewrite !alen_app, alen_replicate; change (alen [x]) with 1; unfold alen in *; cbn [length] in *; lia|rewrite alen_app; change (alen [x]) with 1; lia|].
        exists k'. cbn [app] in E. rewrite E. by rewrite <- app_assoc.
Qed.

(** Cleaning by destinations *)
Definition clean_group (gl : Z * list (Z * Z)) : Z * list (Z * Z) :=
  (gl.1, match gl.2 with x :: ((y :: _) as r) => if y.1 <=? epoch then r else gl.2 | l => l end).

(** Only the first donation is from before the epoch. *)
Definition due_ok (gl : Z * list (Z * Z)) : Prop := Forall (fun z => epoch <= z.1) (tail gl.2).

Lemma clean_future id l rest : Forall (fun z => epoch < z.1) l -> Forall (fun x => donationKey x <> id) rest -> l <> [] ->
  clean (map (entry_of id) l ++ rest) = map (entry_of id) l ++ clean rest.
Proof.
  intros Hl Hr. induction Hl as [|x l Hx Hl IH]; [done|]. intros _. cbn [map app]. destruct l as [|y l].
  - cbn [map app]. destruct rest as [|z rest]; [done|]. cbn [clean]. unfold replaced. cbn [entry_of donationKey]. apply Forall_cons in Hr as [Hz _].
    by rewrite (proj2 (Z.eqb_neq id _)).
  - cbn [map app clean]. unfold replaced. apply Forall_cons in Hl as [Hy Hl]. cbn [entry_of firstEpoch donationKey]. rewrite (proj2 (Z.leb_gt y.1 epoch)) by done. rewrite andb_false_r.
    f_equal. by apply IH.
Qed.

Lemma clean_flatten g : schedule_ok g -> Forall due_ok g -> clean (flatten g) = flatten (map clean_group g).
Proof.
  intros [Hd Hf] Hdue. induction g as [|[id l] g IH]; [done|]. cbn [map fst] in Hd. apply NoDup_cons in Hd as [Hn Hd]. apply Forall_cons in Hf as [(_ & Hne & Hs) Hf].
  apply Forall_cons in Hdue as [Hdl Hdue]. specialize (IH Hd Hf Hdue). cbn [map]. rewrite !flatten_cons, <- IH. cbn [snd] in *.
  assert (Forall (fun x => donationKey x <> id) (flatten g)) as Ho by (apply (flatten_keys (fun k => k <> id)); intros k Hk ->; done).
  destruct l as [|x [|y r]]; [done| |]; unfold entries, clean_group; cbn [fst snd].
  - cbn [map app]. destruct (flatten g) as [|z rest]; [done|]. apply Forall_cons in Ho as [Hz _]. cbn [clean]. unfold replaced at 1. cbn [entry_of donationKey].
    by rewrite (proj2 (Z.eqb_neq id (donationKey z))).
  - apply StronglySorted_inv in Hs as [[Hs Hyr]%StronglySorted_inv [Hxy _]%Forall_cons]. unfold due_ok in Hdl. cbn [snd tail] in Hdl. apply Forall_cons in Hdl as [Hy0 _].
    assert (Forall (fun z => epoch < z.1) r) as Hr by (eapply Forall_impl; [exact Hyr|]; cbn; intros; lia).
    cbn [map app clean]. unfold replaced at 1. cbn [entry_of donationKey firstEpoch]. rewrite Z.eqb_refl. cbn [andb].
    destruct (Z.leb_spec y.1 epoch) as [Hy|Hy]; [rewrite (proj2 (Z.ltb_lt x.1 epoch)) by lia|rewrite andb_false_r]; cbn [map app andb].
    + f_equal. destruct r as [|z r]; [done|]. by apply clean_future.
    + f_equal. apply (clean_future id (y :: r)); [by constructor|done|done].
Qed.

Lemma schedule_used g : Forall group_ok g -> used (flatten g).
Proof. intros Hf. apply (flatten_keys (fun k => k <> 0)). intros k ([k' l] & -> & Hin)%list_elem_of_fmap. rewrite Forall_forall in Hf. apply (Hf _ Hin). Qed.

Lemma cleanup_spec g t : schedule_ok g -> Forall due_ok g -> is_table g t -> is_table (map clean_group g) (_CleanupRevenueDonation epoch t).
Proof.
  intros Hok Hdue Ht. pose proof (is_table_length g t Ht) as Hlen. destruct Ht as [Hsize Et]. unfold _CleanupRevenueDonation.
  destruct (cleanup_from_spec 127 [] (flatten g) (Z.to_nat (128 - size g))) as [k E]; [by apply schedule_used; apply Hok|cbn [app]; by rewrite <- Et|done|].
  cbn [app] in E. change (alen (@nil RevenueDonationEntry) + 1) with 1 in E. rewrite <- Et in E. pose proof (alen_cleanup 127 1 t) as Hl. rewrite E in *. rewrite clean_flatten in * by done.
  rewrite alen_app, alen_replicate, Hlen in Hl. fold (size (map clean_group g)) in Hl. split; [lia|]. do 2 f_equal. lia.
Qed.
End cleaning.

(** *** The schedule over the epochs *)
Definition entry_ok (epoch : Z) (x : RevenueDonationEntry) : Prop := donationKey x <> 0 /\ 0 <= millionthAmount x <= 1000000 /\ epoch <= firstEpoch x.

(** At most one donation of a destination has begun by [epoch]. *)
Definition started (epoch : Z) (gl : Z * list (Z * Z)) : Prop := Forall (fun z => epoch < z.1) (tail gl.2).
Definition amounts_ok (gl : Z * list (Z * Z)) : Prop := Forall (fun z => 0 <= z.2 <= 1000000) gl.2.
Definition head_started (epoch : Z) g : Prop := match g with (_, x :: _) :: _ => x.1 <= epoch | _ => False end.

(** The schedule in [epoch], and while the proposals of the last epoch are taken up *)
Definition schedule_in (epoch : Z) g : Prop := schedule_ok g /\ head_started epoch g /\ Forall amounts_ok g /\ Forall (started epoch) g.
Definition schedule_into (epoch : Z) g : Prop := schedule_ok g /\ head_started epoch g /\ Forall amounts_ok g /\ Forall (due_ok epoch) g.

Lemma put_Forall (P : Z * Z -> Prop) e a l : Forall P l -> P (e, a) -> Forall P (put e a l).
Proof. intros Hl Hx. induction Hl as [|x l H1 Hl IH]; cbn [put]; [by repeat constructor|]. destruct (e <? x.1); [by repeat constructor|]. destruct (e =? x.1); by constructor. Qed.

Lemma put_sorted e a l : StronglySorted (fun x y => x.1 < y.1) l -> StronglySorted (fun x y => x.1 < y.1) (put e a l).
Proof.
  induction 1 as [|x l Hs IH Hlt]; cbn [put]; [by repeat constructor|]. destruct (Z.ltb_spec e x.1) as [H1|H1].
  - constructor; [by constructor|]. constructor; [done|]. eapply Forall_impl; [exact Hlt|]. cbn. intros; lia.
  - destruct (Z.eqb_spec e x.1) as [->|H2]; [by constructor|]. constructor; [done|]. apply put_Forall; [done|]. cbn. lia.
Qed.

Lemma put_tail epoch e a l : StronglySorted (fun x y => x.1 < y.1) l -> Forall (fun z => epoch <= z.1) (tail l) -> epoch <= e -> Forall (fun z => epoch <= z.1) (tail (put e a l)).
Proof.
  intros Hs Ht He. destruct l as [|x l]; [constructor|]. cbn [put tail] in *. apply StronglySorted_inv in Hs as [_ Hx]. destruct (Z.ltb_spec e x.1); cbn [tail]; [constructor; [lia|done]|].
  destruct (Z.eqb_spec e x.1); cbn [tail]; [done|]. by apply put_Forall.
Qed.

(** What a destination gets *)
Lemma plan_Forall (P : Z * list (Z * Z) -> Prop) id e a g : Forall P g -> P (id, [(e, a)]) -> (forall l, P (id, l) -> P (id, put e a l)) -> Forall P (plan id e a g).
Proof.
  intros Hg H1 H2. induction Hg as [|[id' l] g Hgl Hg IH]; cbn [plan fst snd]; [by repeat constructor|]. destruct (Z.eqb_spec id' id) as [->|]; constructor; auto.
Qed.

Lemma plan_ids id e a g : NoDup (map fst g) -> map fst (plan id e a g) = if decide (id ∈ map fst g) then map fst g else map fst g ++ [id].
Proof.
  intros Hd. destruct (plan_split id e a g Hd) as [(g1 & l & g2 & -> & _ & _ & ->)|[Hn ->]].
  - rewrite decide_True by (rewrite map_app; cbn; apply elem_of_app; right; by left). by rewrite !map_app.
  - rewrite decide_False by done. by rewrite map_app.
Qed.

Lemma planned_into epoch x g : schedule_into epoch g -> entry_ok epoch x -> schedule_into epoch (planned x g) /\ map fst g `prefix_of` map fst (planned x g).
Proof.
  intros ((Hd & Hf) & Hh & Ha & Hdue) (Hk & Hm & He). unfold planned. case_decide; [|done]. pose proof (plan_ids (donationKey x) (firstEpoch x) (millionthAmount x) g Hd) as Eids.
  split; [|rewrite Eids; case_decide; [done|by apply prefix_app_r]]. split; [split|split; [|split]].
  - rewrite Eids. case_decide; [done|]. apply NoDup_app. split; [done|]. split; [|by apply NoDup_singleton]. intros y Hy ->%list_elem_of_singleton. done.
  - apply plan_Forall; [done|by repeat constructor|]. intros l (G1 & G2 & G3). split; [done|]. split; [|by apply put_sorted]. cbn [snd]. destruct l as [|y l]; cbn [put]; [done|]. by repeat case_match.
  - destruct g as [|[id [|[e0 a0] l]] g]; [done|done|]. cbn [head_started fst] in Hh. cbn [plan fst snd]. destruct (_ =? _); [|done]. cbn [put fst].
    destruct (Z.ltb_spec (firstEpoch x) e0); [lia|]. destruct (Z.eqb_spec (firstEpoch x) e0); cbn [head_started fst]; lia.
  - apply plan_Forall; [done|by constructor; [|constructor]|]. intros l Hl. by apply put_Forall.
  - assert (Forall (fun gl => group_ok gl /\ due_ok epoch gl) g) as Hboth by (rewrite Forall_and; done).
    apply (Forall_impl (fun gl => group_ok gl /\ due_ok epoch gl)); [|by intros gl []]. apply plan_Forall; [done| |].
    + split; [split; [done|]; split; [done|]; by repeat constructor|constructor].
    + intros l ((G1 & G2 & G3) & Hl). split; [split; [done|]; split; [|by apply put_sorted]|by apply put_tail]. cbn [snd]. destruct l as [|y l]; cbn [put]; [done|]. by repeat case_match.
Qed.

Lemma schedule_next epoch g : schedule_in epoch g -> schedule_into (epoch + 1) g.
Proof.
  intros (Hok & Hh & Ha & Hs). split; [done|]. split; [|split; [done|]].
  - destruct g as [|[id [|[e0 a0] l]] g]; [done|done|]. cbn in *. lia.
  - eapply Forall_impl; [exact Hs|]. intros gl Hgl. eapply Forall_impl; [exact Hgl|]. cbn. intros; lia.
Qed.

Lemma clean_group_ids epoch g : map fst (map (clean_group epoch) g) = map fst g.
Proof. rewrite map_map. by apply map_ext. Qed.

(** The donations that are left are the second one on, if it has begun, and all of them otherwise. *)
Lemma clean_group_cases epoch gl : (clean_group epoch gl).2 = gl.2 \/ exists x y r, gl.2 = x :: y :: r /\ y.1 <= epoch /\ (clean_group epoch gl).2 = y :: r.
Proof.
  destruct gl as [id [|x [|y r]]]; [by left|by left|]. unfold clean_group. cbn [snd]. destruct (Z.leb_spec y.1 epoch); [right; by exists x, y, r|by left].
Qed.

Lemma clean_in epoch g : schedule_into epoch g -> schedule_in epoch (map (clean_group epoch) g).
Proof.
  intros ((Hd & Hf) & Hh & Ha & Hdue). split; [split|split; [|split]].
  - by rewrite clean_group_ids.
  - apply Forall_fmap. eapply Forall_impl; [exact Hf|]. intros gl (G1 & G2 & G3). split; [done|]. destruct (clean_group_cases epoch gl) as [->|(x & y & r & E & _ & ->)]; [done|].
    split; [done|]. rewrite E in G3. by apply StronglySorted_inv in G3 as [? _].
  - destruct g as [|[id [|x [|y r]]] g]; [done|done|done|]. cbn in Hh. cbn. destruct (Z.leb_spec y.1 epoch); done.
  - apply Forall_fmap. eapply Forall_impl; [exact Ha|]. intros gl Hgl. change (amounts_ok (clean_group epoch gl)). unfold amounts_ok in *. destruct (clean_group_cases epoch gl) as [->|(x & y & r & E & _ & ->)]; [done|].
    rewrite E in Hgl. by apply Forall_cons in Hgl as [_ ?].
  - apply Forall_fmap. rewrite Forall_forall in Hf, Hdue. apply Forall_forall. intros gl Hin. destruct (Hf gl Hin) as (_ & _ & Hs). specialize (Hdue gl Hin). unfold due_ok, started in *. cbn.
    unfold clean_group. cbn [snd]. destruct (gl.2) as [|x [|y r]]; [done|done|]. apply StronglySorted_inv in Hs as [[_ Hyr]%StronglySorted_inv _]. cbn [tail] in *. apply Forall_cons in Hdue as [Hy _].
    assert (Forall (fun z => y.1 <= epoch \/ epoch < y.1 -> epoch < z.1) r) as Hr by (eapply Forall_impl; [exact Hyr|]; cbn; intros; lia).
    destruct (Z.leb_spec y.1 epoch); cbn [tail]; [|constructor; [lia|]]; (eapply Forall_impl; [exact Hr|]; cbn; intros z Hz; apply Hz; lia).
Qed.
