(* ===== verification/QuorumProposals.v ===== *)
(** * Donations by quorum

    The states that the General Quorum Proposal contract can reach: its proposals satisfy the requirements of the contract, and its donation table is a
    schedule with the properties that the contract documents.  At the beginning of an epoch the table takes up exactly the proposals that a quorum accepted,
    and the emission donates to every destination at most once. *)
From S2P Require Import Emission Prelude Containers ProposalData ProposalVoters ProposalRolls ProposalElectorate ProposalVoting Proposals ProposalResults ProposalReads ProposalRuns ProposalTheorems GeneralQuorumProposal DonationTable.

Section quorum.
Variables NC QUORUM : Z.
Hypothesis HNC : 0 < NC <= INVALID_PROPOSAL_INDEX.

Lemma nc_slots : 0 <= NC <= INVALID_PROPOSAL_INDEX.
Proof. lia. Qed.
Lemma nc_votes : 0 < NC < INVALID_VOTE_INDEX.
Proof. unfold INVALID_PROPOSAL_INDEX, INVALID_VOTE_INDEX in *. lia. Qed.
Lemma nc_votes_le : 0 <= NC <= INVALID_VOTE_INDEX.
Proof. pose proof nc_votes. lia. Qed.
Lemma nc_sum : 0 < NC <= 2 ^ 31.
Proof. unfold INVALID_PROPOSAL_INDEX in *. lia. Qed.
Lemma nc_nonneg : 0 <= NC.
Proof. lia. Qed.

#[local] Existing Instance ProposalDataT.
#[local] Instance gqm_voters : VoterLaws (ProposersAndVotersT NC) NC NC := by_computors_laws NC NC nc_slots nc_votes_le.
#[local] Instance gqm_data : ProposalDataLaws ProposalDataT NC := DataV1_laws false NC nc_nonneg.
Notation voting_ok := (voting_ok (HL := gqm_voters) NC NC).
Notation in_slots i := (0 <= i < NC).
Notation votes_for := (votes_for (D := ProposalDataT) NC).
Notation votes_cast := (votes_cast (D := ProposalDataT) NC).
Notation leads := (leads (D := ProposalDataT) NC).
Notation accepted_entry := (accepted_entry NC QUORUM).
Implicit Types pv : ProposalVoting (list Z).

(** ** What a vote decides *)
Definition donation_of (q : QpiContext) (p : ProposalData) (o : Z) : RevenueDonationEntry :=
  if cls (p_type p) =? TransferInEpoch then mkDonation (destination p) (amount p) (targetEpoch p)
  else mkDonation (destination p) (Array.get 2 (amounts p) (o - 1)) (q_epoch q).
Definition is_transfer (p : ProposalData) : bool := (cls (p_type p) =? Transfer) || (cls (p_type p) =? TransferInEpoch).

(** The leading option [o] of a proposal has been accepted by the quorum. *)
Definition quorum_accepts pv (p o : Z) : Prop := QUORUM <= votes_cast pv p /\ 0 < o /\ QUORUM / 2 < votes_for pv p o.
#[local] Instance quorum_accepts_dec pv p o : Decision (quorum_accepts pv p o).
Proof. unfold quorum_accepts. apply _. Defined.

Lemma scalar_class : cls VariableScalarMean = Variable_.
Proof. done. Qed.
Lemma transfer_options p : checkValidity p = true -> is_transfer p = true -> p_type p <> VariableScalarMean /\ 2 <= optionCount (p_type p) <= 5 /\ destination p <> NULL_ID.
Proof.
  intros Hv Ht. change (checkValidity p) with (checkValidityV1 false p) in Hv. unfold is_transfer in Ht. unfold checkValidityV1 in Hv. split; [intros E; rewrite E in Ht; done|].
  destruct (Z.eqb_spec (cls (p_type p)) Transfer) as [E|E].
  - rewrite E in Hv. cbn [Z.eqb Transfer GeneralOptions MultiVariables orb Pos.eqb] in Hv. destruct (Z.eqb_spec (destination p) NULL_ID); [done|]. cbn [negb andb] in Hv.
    destruct (Z.leb_spec 2 (optionCount (p_type p))); [|done]. destruct (Z.leb_spec (optionCount (p_type p)) 5); [|done]. split; [lia|done].
  - cbn [orb] in Ht. apply Z.eqb_eq in Ht. rewrite Ht in Hv. cbn [Z.eqb TransferInEpoch Transfer GeneralOptions MultiVariables orb Pos.eqb] in Hv.
    destruct (Z.eqb_spec (optionCount (p_type p)) 2); [|done]. destruct (Z.eqb_spec (destination p) NULL_ID); [done|]. split; [lia|done].
Qed.

Lemma accepted_entry_spec q p pv s0 : voting_ok pv -> in_slots p -> epoch_of pv p <> 0 ->
  if is_transfer (proposal_in pv p) then
    exists o, leads pv p o /\ accepted_entry q p pv s0 = if decide (quorum_accepts pv p o) then Some (donation_of q (proposal_in pv p) o) else None
  else accepted_entry q p pv s0 = None.
Proof.
  intros Hok Hp He. assert (known NC pv p) as Hk by (split; [lia|done]). unfold GeneralQuorumProposal.accepted_entry, getProposal. rewrite (proj2 (unknown_proposal_spec NC p pv) Hk).
  fold (proposal_in pv p). fold (is_transfer (proposal_in pv p)). destruct (is_transfer (proposal_in pv p)) eqn:Ht; [|done].
  destruct (known_slot NC NC nc_sum pv p Hok ltac:(lia) Hk) as [Hval _]. destruct (transfer_options _ Hval Ht) as (Hs & Ho & _).
  destruct (summary_options NC NC nc_sum p s0 pv Hok ltac:(lia) Hk Hs) as (s & -> & Hsum & Hc & _). pose proof Hsum as (_ & Eo & _ & _ & Ec). rewrite Ec.
  destruct (most_voted_loop s ltac:(lia)) as (o & Hmost & El); [lia|]. apply (leads_most_voted NC pv p) in Hmost; [|done|lia|done]. exists o. split; [done|].
  unfold quorum_accepts. destruct (Z.leb_spec QUORUM (votes_cast pv p)); [|by rewrite decide_False by lia].
  cbv zeta in El |- *. rewrite El. rewrite Hc by (destruct Hmost as (? & _); lia).
  destruct (Z.ltb_spec 0 o), (Z.ltb_spec (QUORUM / 2) (votes_for pv p o)); cbn [andb]; [rewrite decide_True by lia|rewrite decide_False by lia..]; try done.
  unfold donation_of. by destruct (_ =? TransferInEpoch).
Qed.

(** ** The requirements of the contract *)
Definition slots_allowed pv : Prop := forall p, in_slots p -> epoch_of pv p <> 0 -> proposal_allowed (epoch_of pv p) (proposal_in pv p) = true.

Lemma millionths a : negb ((a <? 0) || (1000000 <? a)) = true -> 0 <= a <= 1000000.
Proof. rewrite negb_true_iff, orb_false_iff, !Z.ltb_ge. lia. Qed.

Lemma donation_ok q p o : checkValidity p = true -> is_transfer p = true -> proposal_allowed (p_epoch p) p = true -> q_epoch q = p_epoch p + 1 -> 0 < o < optionCount (p_type p) ->
  entry_ok (q_epoch q) (donation_of q p o).
Proof.
  intros Hv Ht Ha He Ho. destruct (transfer_options p Hv Ht) as (_ & Hopt & Hd). unfold donation_of, proposal_allowed, is_transfer in *.
  destruct (Z.eqb_spec (cls (p_type p)) TransferInEpoch) as [E|E].
  - rewrite E in Ha. cbn [Z.eqb TransferInEpoch Transfer GeneralOptions Pos.eqb] in Ha. apply andb_true_iff in Ha as [Ha1%millionths Ha2]. apply negb_true_iff, Z.leb_gt in Ha2.
    split; [done|]. split; [done|]. cbn [firstEpoch]. lia.
  - rewrite orb_false_r in Ht. apply Z.eqb_eq in Ht. rewrite Ht in Ha. cbn [Z.eqb Transfer GeneralOptions Pos.eqb] in Ha. split; [done|]. split; [|cbn; lia]. cbn [millionthAmount].
    rewrite forallb_forall in Ha. apply millionths, Ha. assert (o - 1 = 0 \/ o - 1 = 1 \/ o - 1 = 2 \/ o - 1 = 3) as Hc by lia. cbn [In]. lia.
Qed.

(** The entry that slot [p] contributes at the beginning of the epoch of [q] *)
Definition contribution (q : QpiContext) pv (s0 : Summary) (p : Z) : option RevenueDonationEntry :=
  if epoch_of pv p =? q_epoch q - 1 then accepted_entry q p pv s0 else None.

Lemma contribution_ok q pv s0 p x : voting_ok pv -> slots_allowed pv -> 2 <= q_epoch q -> in_slots p -> contribution q pv s0 p = Some x -> entry_ok (q_epoch q) x.
Proof.
  intros Hok Ha Hq Hp. unfold contribution. destruct (Z.eqb_spec (epoch_of pv p) (q_epoch q - 1)) as [E|]; [|done]. assert (epoch_of pv p <> 0) as Hne by lia.
  pose proof (accepted_entry_spec q p pv s0 Hok Hp Hne) as Hs. destruct (is_transfer (proposal_in pv p)) eqn:Ht; [|by rewrite Hs]. destruct Hs as (o & Ho & ->).
  case_decide as Hacc; [|done]. intros [= <-]. destruct (known_slot NC NC nc_sum pv p Hok ltac:(lia) ltac:(split; [lia|done])) as [Hval _].
  apply donation_ok; [done|done|by apply Ha|unfold epoch_of in E; fold (proposal_in pv p) in E; lia|]. destruct Hacc as (_ & ? & _), Ho as (? & _). lia.
Qed.

(** ** The loop over the proposals of the last epoch *)
Definition take_up (q : QpiContext) pv (s0 : Summary) (st : list RevenueDonationEntry * bool) (p : Z) : list RevenueDonationEntry * bool :=
  match contribution q pv s0 p with Some x => _SetRevenueDonationEntry x st.1 st.2 | None => st end.

Lemma take_up_none q pv s0 a n : (forall i, a <= i < a + Z.of_nat n -> epoch_of pv i <> q_epoch q - 1) -> forall st, fold_left (take_up q pv s0) (seqZ a (Z.of_nat n)) st = st.
Proof.
  revert a. induction n as [|n IH]; intros a Hno st; [done|]. rewrite seqZ_cons by lia. cbn [fold_left]. unfold take_up at 2, contribution.
  rewrite (proj2 (Z.eqb_neq _ _)) by (apply Hno; lia). replace (Z.pred (Z.of_nat (S n))) with (Z.of_nat n) by lia. apply IH. intros i Hi. apply Hno. lia.
Qed.

Lemma accept_loop_spec q pv s0 fuel : 2 <= q_epoch q < 2 ^ 16 -> forall prev t okay, -1 <= prev < NC -> NC - (prev + 1) < Z.of_nat fuel ->
  accept_loop NC QUORUM fuel q pv prev t okay s0 = Some (fold_left (take_up q pv s0) (seqZ (prev + 1) (NC - (prev + 1))) (t, okay)).1.
Proof.
  intros Hq. induction fuel as [|fuel IH]; intros prev t okay Hp Hf; [lia|]. cbn [accept_loop]. unfold nextProposalIndex.
  assert (u16 (q_epoch q - 1) = q_epoch q - 1) as -> by (unfold u16; rewrite Z.mod_small; lia). rewrite (proj2 (Z.eqb_neq (q_epoch q - 1) 0)) by lia.
  destruct (next_index_spec NC nc_slots (fun idx => epoch_of pv idx =? q_epoch q - 1) prev) as [(Hr & HP & Hlow)|[-> Hno]].
  - set (r := next_index _ _ _) in *. rewrite (proj2 (Z.leb_le 0 r)) by lia. replace (Z.max 0 (prev + 1)) with (prev + 1) in * by lia.
    replace (NC - (prev + 1)) with (Z.of_nat (Z.to_nat (r - (prev + 1))) + (NC - r)) by lia. rewrite seqZ_app by lia. rewrite fold_left_app.
    rewrite take_up_none by (intros i Hi; specialize (Hlow i ltac:(lia)); by apply Z.eqb_neq in Hlow). replace (prev + 1 + Z.of_nat (Z.to_nat (r - (prev + 1)))) with r by lia.
    rewrite (seqZ_cons r) by lia. cbn [fold_left]. replace (Z.succ r) with (r + 1) by lia. replace (Z.pred (NC - r)) with (NC - (r + 1)) by lia.
    unfold take_up at 2. unfold contribution. rewrite HP. cbn [fst snd]. destruct (match accepted_entry q r pv s0 with Some entry => _ | None => _ end) as [t' okay'] eqn:E.
    rewrite IH by lia. done.
  - cbn [Z.leb Z.compare]. replace (Z.max 0 (prev + 1)) with (prev + 1) in Hno by lia.
    replace (NC - (prev + 1)) with (Z.of_nat (Z.to_nat (NC - (prev + 1)))) by lia. rewrite take_up_none; [done|]. intros i Hi. specialize (Hno i ltac:(lia)). by apply Z.eqb_neq in Hno.
Qed.

(** ** The schedule that the proposals of the last epoch give *)
Definition taken_up (q : QpiContext) pv (s0 : Summary) (g : schedule) (p : Z) : schedule :=
  match contribution q pv s0 p with Some x => planned x g | None => g end.

Lemma head_started_ok epoch g x : head_started epoch g -> entry_ok epoch x -> head_epoch_ok g x.
Proof. intros Hh (_ & _ & He). destruct g as [|[id [|[e0 a0] l]] g]; [done|done|]. cbn in *. lia. Qed.

Lemma take_up_all q pv s0 l : voting_ok pv -> slots_allowed pv -> 2 <= q_epoch q -> (forall p, p ∈ l -> in_slots p) -> forall g st, schedule_into (q_epoch q) g -> is_table g st.1 ->
  let g' := fold_left (taken_up q pv s0) l g in schedule_into (q_epoch q) g' /\ is_table g' (fold_left (take_up q pv s0) l st).1 /\ map fst g `prefix_of` map fst g'.
Proof.
  intros Hok Ha Hq. induction l as [|p l IH]; intros Hin g [t okay] Hg Ht; [done|]. cbn [fold_left].
  assert (schedule_into (q_epoch q) (taken_up q pv s0 g p) /\ is_table (taken_up q pv s0 g p) (take_up q pv s0 (t, okay) p).1 /\ map fst g `prefix_of` map fst (taken_up q pv s0 g p)) as (S1 & S2 & S3).
  { unfold taken_up, take_up. destruct (contribution q pv s0 p) as [x|] eqn:E; [|done]. pose proof (contribution_ok q pv s0 p x Hok Ha Hq (Hin p ltac:(by left)) E) as Hx.
    destruct (planned_into _ x g Hg Hx) as [P1 P2]. split; [done|]. split; [|done]. apply set_entry_spec; [apply Hg|done|apply Hx|]. apply (head_started_ok (q_epoch q)); [apply Hg|done]. }
  destruct (IH ltac:(intros p' Hp'; apply Hin; by right) _ _ S1 S2) as (I1 & I2 & I3). split; [done|]. split; [done|]. by transitivity (map fst (taken_up q pv s0 g p)).
Qed.

(** ** The state of the contract *)
Definition gqm_ok (epoch : Z) (st : StateData) (g : schedule) : Prop :=
  voting_ok (gqm_proposals st) /\ slots_allowed (gqm_proposals st) /\ schedule_in epoch g /\ is_table g (gqm_revenueDonation st).

Definition no_summary : Summary := mkSummary 0 0 0 0 0 (replicate 8 0).
Definition next_schedule (q : QpiContext) pv (g : schedule) : schedule := map (clean_group (q_epoch q)) (fold_left (taken_up q pv no_summary) (seqZ 0 NC) g).

Lemma begin_epoch_effect q st g : gqm_ok (q_epoch q - 1) st g -> 2 <= q_epoch q < 2 ^ 16 ->
  exists st', BEGIN_EPOCH NC QUORUM q st = Some st' /\ gqm_proposals st' = gqm_proposals st /\ gqm_ok (q_epoch q) st' (next_schedule q (gqm_proposals st) g) /\
    map fst g `prefix_of` map fst (next_schedule q (gqm_proposals st) g).
Proof.
  intros (Hok & Ha & Hg & Ht) Hq. unfold BEGIN_EPOCH. rewrite accept_loop_spec by lia. apply schedule_next in Hg. replace (q_epoch q - 1 + 1) with (q_epoch q) in Hg by lia.
  replace (-1 + 1) with 0 by lia. rewrite Z.sub_0_r. fold no_summary.
  destruct (take_up_all q (gqm_proposals st) no_summary (seqZ 0 NC) Hok Ha ltac:(lia) ltac:(intros p Hp%elem_of_seqZ; lia) g (gqm_revenueDonation st, false) Hg Ht) as (T1 & T2 & T3).
  eexists. split; [done|]. split; [done|]. unfold next_schedule. split; [|by rewrite clean_group_ids]. split; [done|]. split; [done|]. split; [by apply clean_in|].
  cbn [gqm_revenueDonation]. apply cleanup_spec; [apply T1|apply T1|done].
Qed.

Lemma allowed_tick_epoch t e p : proposal_allowed e (with_tick_epoch t e p) = proposal_allowed e p.
Proof. done. Qed.

Lemma set_proposal_effect epoch q x input st g : gqm_ok epoch st g -> context_ok (VoterLaws := gqm_voters) q -> 0 < q_epoch q -> gqm_ok epoch (SetProposal NC q x input st).1 g.
Proof.
  intros (Hok & Ha & Hg & Ht) Hq He. unfold SetProposal. destruct (proposal_allowed (q_epoch q) input) eqn:Hall; [|done].
  assert (forall pv', voting_ok pv' -> slots_allowed pv' -> gqm_ok epoch (mkState pv' (gqm_revenueDonation st)) g) as Hdone by done.
  assert (forall pv' p, (forall j, in_slots j -> j <> p -> same_slot (HL := gqm_voters) NC NC (gqm_proposals st) pv' j) -> (epoch_of pv' p <> 0 -> proposal_allowed (epoch_of pv' p) (proposal_in pv' p) = true) -> slots_allowed pv') as Hslots.
  { intros pv' p Hsame Hp j Hj Hne. destruct (decide (j = p)) as [->|Hjp]; [by apply Hp|]. destruct (Hsame j Hj Hjp) as (E & _). unfold epoch_of, proposal_in in *. rewrite E in *. by apply Ha. }
  destruct (decide (p_epoch input = 0)) as [E|E].
  - pose proof (clear_by_proposer (HL := gqm_voters) NC NC nc_slots q x input (gqm_proposals st) Hok E) as Hc. destruct (setProposal _ _ _ _ _ _) as [pv' p]. cbn [fst].
    destruct Hc as [(_ & -> & _)|(_ & _ & _ & Hok' & He' & _ & Hsame)]; [by destruct st|]. apply Hdone; [done|]. apply (Hslots pv' p); done.
  - pose proof (set_effect (HL := gqm_voters) NC NC nc_slots nc_votes q x input (gqm_proposals st) Hok Hq He E) as Hc. destruct (setProposal _ _ _ _ _ _) as [pv' p]. cbn [fst].
    destruct Hc as [(_ & -> & _)|(_ & _ & _ & Hok' & _ & (Hpoll & _) & Hsame)]; [by destruct st|]. apply Hdone; [done|]. apply (Hslots pv' p); [done|]. intros _. unfold epoch_of. fold (proposal_in pv' p).
    rewrite Hpoll. exact Hall.
Qed.

Lemma vote_keeps epoch q x v st g : gqm_ok epoch st g -> context_ok (VoterLaws := gqm_voters) q -> 0 < q_epoch q -> 0 <= v_proposalIndex v -> gqm_ok epoch (Vote NC q x v st).1 g.
Proof.
  intros (Hok & Ha & Hg & Ht) Hq He Hv. unfold Vote. pose proof (vote_effect (HL := gqm_voters) NC NC nc_slots nc_votes q x v (gqm_proposals st) Hok Hq He Hv) as Heff. cbv zeta in Heff.
  destruct (vote _ _ _ _ _ _) as [pv' okay]. cbn [fst]. destruct Heff as (_ & H1 & H2). destruct okay; [|rewrite H1 by done; by destruct st].
  destruct (H2 eq_refl) as (Hok' & _ & Hst & Hp & _). split; [done|]. split; [|done]. cbn [gqm_proposals]. intros j Hj Hne. destruct (decide (j = v_proposalIndex v)) as [->|Hjp].
  - unfold epoch_of in *. fold (proposal_in pv' (v_proposalIndex v)) in *. rewrite Hp in *. by apply Ha.
  - unfold epoch_of, proposal_in in *. rewrite Hst in * by done. by apply Ha.
Qed.

(** ** Runs of the contract *)
Inductive reachable : Z -> StateData -> Prop :=
| reach_init : reachable 123 (INITIALIZE NC)
| reach_set epoch st q x input : reachable epoch st -> context_ok (VoterLaws := gqm_voters) q -> q_epoch q = epoch -> reachable epoch (SetProposal NC q x input st).1
| reach_vote epoch st q x v : reachable epoch st -> context_ok (VoterLaws := gqm_voters) q -> q_epoch q = epoch -> 0 <= v_proposalIndex v -> reachable epoch (Vote NC q x v st).1
| reach_epoch epoch st q st' : reachable epoch st -> q_epoch q = epoch + 1 -> epoch + 1 < 2 ^ 16 -> BEGIN_EPOCH NC QUORUM q st = Some st' -> reachable (epoch + 1) st'.

Lemma initial_ok : gqm_ok 123 (INITIALIZE NC) [(7, [(123, 150000)])].
Proof.
  assert (is_table [(7, [(123, 150000)])] (gqm_revenueDonation (INITIALIZE NC))) as Ht by (split; vm_compute; done).
  assert (schedule_in 123 [(7, [(123, 150000)])]) as Hs.
  { split; [split; [apply NoDup_singleton|]|split; [done|split]]; (constructor; [|constructor]); [|by constructor; [|constructor]|constructor]. split; [done|]. split; [done|]. by repeat constructor. }
  assert (empty_slots (HL := gqm_voters) NC NC (gqm_proposals (INITIALIZE NC))) as [Hok He].
  { apply (initial_empty (HL := gqm_voters) NC NC nc_slots).
    - destruct (null_proposers NC) as [?|]; [done|lia].
    - intros p Hp. cbn. rewrite proposers_get_in by done. by rewrite aget_replicate by lia. }
  split; [done|]. split; [|done]. intros p Hp Hne. by rewrite He in Hne.
Qed.

Lemma reachable_ok epoch st : reachable epoch st -> 123 <= epoch /\ exists g, gqm_ok epoch st g.
Proof.
  induction 1 as [|epoch st q x input _ [He (g & Hg)] Hq <-|epoch st q x v _ [He (g & Hg)] Hq <- Hv|epoch st q st' _ [He (g & Hg)] Hq Hlt Hb].
  - split; [done|]. eexists. apply initial_ok.
  - split; [done|]. exists g. apply set_proposal_effect; [done|done|lia].
  - split; [done|]. exists g. apply vote_keeps; [done|done|lia|done].
  - split; [lia|]. assert (gqm_ok (q_epoch q - 1) st g) as Hg' by (by replace (q_epoch q - 1) with epoch by lia).
    destruct (begin_epoch_effect q st g Hg' ltac:(lia)) as (st1 & E & _ & Hok & _). rewrite Hb in E. injection E as <-. exists (next_schedule q (gqm_proposals st) g). by rewrite Hq in Hok.
Qed.

(** ** The donations of the emission *)
Section donations.
Variable env : ContractMoney.ContractEnv.
Definition due (x : RevenueDonationEntry) : Prop := 0 < millionthAmount x <= 1000000 /\ firstEpoch x <= ContractMoney.epoch env.
#[local] Instance due_dec x : Decision (due x).
Proof. unfold due. apply _. Defined.

Lemma donation_keys l k : Forall (fun x => donationKey x <> 0) l -> forall revenue,
  map fst (donations env (l ++ replicate k zero_entry) revenue).1 = map donationKey (filter due l).
Proof.
  intros Hl. induction Hl as [|x l Hx Hl IH]; intros revenue; cbn [app]; [by destruct k|].
  cbn [donations]. rewrite decide_False by done. rewrite filter_cons. unfold due at 1. destruct (decide (0 < millionthAmount x <= 1000000 /\ firstEpoch x <= ContractMoney.epoch env)); [|apply IH].
  cbn [map]. rewrite <- (IH (revenue - revenue * millionthAmount x / 1000000)). by destruct (donations env _ _).
Qed.

(** Only the first donation of a destination can be due. *)
Lemma due_entries id l : started (ContractMoney.epoch env) (id, l) -> filter due (entries (id, l)) = [] \/ exists x, filter due (entries (id, l)) = [x] /\ donationKey x = id.
Proof.
  unfold started, entries. cbn [fst snd]. intros Hs. destruct l as [|x l]; [by left|]. cbn [tail map] in *. rewrite filter_cons.
  assert (filter due (map (entry_of id) l) = []) as ->.
  { induction Hs as [|y l Hy Hs IH]; [done|]. cbn [map]. rewrite filter_cons, decide_False; [done|]. intros [_ Hd]. cbn in Hd. lia. }
  case_decide; [right; by eexists|by left].
Qed.

Lemma due_once g : NoDup (map fst g) -> Forall (started (ContractMoney.epoch env)) g -> NoDup (map donationKey (filter due (flatten g))) /\
  forall k, k ∈ map donationKey (filter due (flatten g)) -> k ∈ map fst g.
Proof.
  intros Hd Hs. induction Hs as [|[id l] g Hgl Hs IH]; [split; [constructor|done]|]. cbn [map fst] in Hd. apply NoDup_cons in Hd as [Hn Hd]. destruct (IH Hd) as [I1 I2].
  rewrite flatten_cons, filter_app, map_app. destruct (due_entries id l Hgl) as [->|(x & -> & Hx)]; cbn [map app].
  - split; [done|]. intros k Hk. right. by apply I2.
  - rewrite Hx. split; [constructor; [|done]; intros Hk; apply Hn, I2, Hk|]. intros k [->|Hk]%elem_of_cons; [by left|right; by apply I2].
Qed.

Lemma donations_distinct g t revenue : schedule_in (ContractMoney.epoch env) g -> is_table g t -> NoDup (map fst (donations env t revenue).1).
Proof.
  intros ((Hd & Hf) & _ & _ & Hs) [_ ->]. rewrite donation_keys by (by apply schedule_used). by apply due_once.
Qed.
End donations.

(** C26: In every state that the contract can reach, through proposals, votes and epochs in any order, the donation table has the form that the contract documents: the used entries come first,
    grouped by destination, each destination with a nonempty group in which the first epochs strictly ascend, no pair of destination and first epoch twice, at most one entry of a destination from
    the current epoch or before, and amounts of at most 100%.  So the emission at the end of the epoch donates at most once to every destination out of a revenue. *)
Theorem donation_table_sound epoch st : reachable epoch st ->
  (exists g, schedule_in epoch g /\ is_table g (gqm_revenueDonation st)) /\
  forall env revenue, ContractMoney.epoch env = epoch -> NoDup (map fst (donations env (gqm_revenueDonation st) revenue).1).
Proof.
  intros Hr. destruct (reachable_ok epoch st Hr) as (_ & g & _ & _ & Hg & Ht). split; [by exists g|]. intros env revenue <-. by apply (donations_distinct env g).
Qed.

(** C27: BEGIN_EPOCH terminates in every reachable state, keeps the proposals, and takes up exactly the transfer proposals of the last epoch whose leading option, other than no change, the quorum accepted:
    slot by slot their donation is scheduled, as an update of the same destination and epoch, in the order of the epochs of its destination, or for a new destination at the end; then
    donations that a later one has replaced are dropped.  Destinations are never removed or reordered. *)
Theorem begin_epoch_takes_up epoch st q : reachable epoch st -> q_epoch q = epoch + 1 -> epoch + 1 < 2 ^ 16 ->
  exists st' g, BEGIN_EPOCH NC QUORUM q st = Some st' /\ gqm_proposals st' = gqm_proposals st /\ is_table g (gqm_revenueDonation st) /\
    is_table (next_schedule q (gqm_proposals st) g) (gqm_revenueDonation st') /\ map fst g `prefix_of` map fst (next_schedule q (gqm_proposals st) g) /\
    forall p x, in_slots p -> contribution q (gqm_proposals st) no_summary p = Some x <->
      epoch_of (gqm_proposals st) p = epoch /\ is_transfer (proposal_in (gqm_proposals st) p) = true /\
      exists o, leads (gqm_proposals st) p o /\ quorum_accepts (gqm_proposals st) p o /\ x = donation_of q (proposal_in (gqm_proposals st) p) o.
Proof.
  intros Hr Hq Hlt. destruct (reachable_ok epoch st Hr) as (He & g & Hg). assert (gqm_ok (q_epoch q - 1) st g) as Hg' by (by replace (q_epoch q - 1) with epoch by lia).
  destruct (begin_epoch_effect q st g Hg' ltac:(lia)) as (st' & E & Ep & (_ & _ & _ & Ht') & Hpre). destruct Hg as (Hok & _ & _ & Ht).
  exists st', g. split; [done|]. split; [done|]. split; [done|]. split; [done|]. split; [done|]. intros p x Hp. unfold contribution. replace (q_epoch q - 1) with epoch by lia.
  destruct (Z.eqb_spec (epoch_of (gqm_proposals st) p) epoch) as [Ee|]; [|split; [done|tauto]].
  pose proof (accepted_entry_spec q p (gqm_proposals st) no_summary Hok Hp ltac:(lia)) as Hs. destruct (is_transfer _); [|rewrite Hs; split; [done|intros (_ & ? & _); done]].
  destruct Hs as (o & Ho & ->). split.
  - case_decide; [|done]. intros [= <-]. split; [done|]. split; [done|]. by exists o.
  - intros (_ & _ & o' & Ho' & Hacc & ->). assert (o' = o) as -> by (by apply (leads_unique NC (gqm_proposals st) p)). by rewrite decide_True.
Qed.
End quorum.

(** ** A concrete contract with four computors and a quorum of three *)
Definition w_transfer : ProposalData := mkProposal (replicate 256 0) 1 (Z.lor Transfer 2) 0 [55; 0; 0; 0; 200000; 0; 0; 0].
Definition w_set : StateData := (SetProposal 4 (w_context 123 10) 100 w_transfer (INITIALIZE 4)).1.
Definition w_voted : StateData := fold_left (fun st x => (Vote 4 (w_context 123 11) x (mkVote 0 (Z.lor Transfer 2) 10 1) st).1) [100; 101; 103] w_set.

Lemma w_four : 0 < 4 <= INVALID_PROPOSAL_INDEX.
Proof. unfold INVALID_PROPOSAL_INDEX. lia. Qed.
Lemma w_computors e t : context_ok (VoterLaws := gqm_voters 4 w_four) (w_context e t).
Proof. intros i j Hi Hj E. cbn in E. lia. Qed.
Lemma w_voted_reachable : reachable 4 3 w_four 123 w_voted.
Proof. unfold w_voted. cbn [fold_left]. repeat (apply reach_vote; [|apply w_computors|reflexivity|cbn; lia]). apply reach_set; [apply reach_init|apply w_computors|reflexivity]. Qed.

Lemma begin_epoch_takes_up_witness : reachable 4 3 w_four 123 w_voted /\ exists st', BEGIN_EPOCH 4 3 (w_context 124 20) w_voted = Some st' /\
  contribution 4 3 (w_context 124 20) (gqm_proposals w_voted) no_summary 0 = Some (mkDonation 55 200000 124) /\ (gqm_revenueDonation st').[1] = mkDonation 55 200000 124.
Proof.
  split; [apply w_voted_reachable|].
  destruct (begin_epoch_takes_up 4 3 w_four 123 w_voted (w_context 124 20) w_voted_reachable) as (st' & g & E & _ & _ & _ & _ & Hc); [reflexivity|reflexivity|]. exists st'. split; [exact E|]. split.
  - apply Hc; [lia|]. split; [vm_compute; reflexivity|]. split; [vm_compute; reflexivity|]. exists 1. split; [|split; [|vm_compute; reflexivity]].
    + split; [split; vm_compute; [discriminate|reflexivity]|]. split; intros j Hj.
      * change (optionCount (p_type (proposal_in (gqm_proposals w_voted) 0))) with 2 in Hj. assert (j = 0 \/ j = 1) as [-> | ->] by lia; vm_compute; discriminate.
      * replace j with 0 by lia. vm_compute. reflexivity.
    + split; [vm_compute; discriminate|]. split; vm_compute; reflexivity.
  - assert (match BEGIN_EPOCH 4 3 (w_context 124 20) w_voted with Some st => (gqm_revenueDonation st).[1] | None => zero_entry end = mkDonation 55 200000 124) as Ht by (vm_compute; reflexivity).
    rewrite E in Ht. exact Ht.
Defined.

Lemma donation_table_sound_witness : exists st', reachable 4 3 w_four 124 st' /\ (gqm_revenueDonation st').[1] = mkDonation 55 200000 124 /\
  exists g, schedule_in 124 g /\ is_table g (gqm_revenueDonation st').
Proof.
  assert (match BEGIN_EPOCH 4 3 (w_context 124 20) w_voted with Some st => (gqm_revenueDonation st).[1] | None => zero_entry end = mkDonation 55 200000 124) as Ht by (vm_compute; reflexivity).
  destruct (BEGIN_EPOCH 4 3 (w_context 124 20) w_voted) as [st'|] eqn:E; [|discriminate Ht]. exists st'.
  assert (reachable 4 3 w_four 124 st') as Hr by (apply (reach_epoch 4 3 w_four 123 w_voted (w_context 124 20)); [apply w_voted_reachable|reflexivity|reflexivity|exact E]).
  split; [exact Hr|]. split; [exact Ht|]. exact (proj1 (donation_table_sound 4 3 w_four 124 st' Hr)).
Defined.
