(* ===== verification/ComputorControlledFund.v ===== *)
(** * The Computor Controlled Fund (contracts/ComputorControlledFund.h)

    A contract with money that the computors spend by yes/no votes: one-time transfers, and subscriptions, which are paid period by period.  It uses the
    proposals of computors ([ProposalVoting]) and, for the money, the procedures transfer and burn of QPI through the interface [FundOps]. *)
From S2P Require Import GeneralQuorumProposal Prelude Containers ProposalData ProposalVoters ProposalVoting.

(** qpi.transfer(destination, amount) and qpi.burn(amount) of this contract; [None] stands for a call that does not return. *)
Class FundOps (W : Type) := {
  fund_transfer : Z -> Z -> W -> option (W * Z);
  fund_burn : Z -> W -> option (W * Z)
}.

Definition CCF_MAX_SUBSCRIPTIONS : Z := 1024.

Record LatestTransfersEntry := mkTransfer { lt_destination : Z; lt_url : list Z; lt_amount : Z; lt_tick : Z; lt_success : bool }.
Record SubscriptionProposalData := mkSubProposal {
  sp_proposerId : Z; sp_destination : Z; sp_url : list Z; sp_weeksPerPeriod : Z; sp_numberOfPeriods : Z; sp_amountPerPeriod : Z; sp_startEpoch : Z }.
Record SubscriptionData := mkSubscription {
  sd_destination : Z; sd_url : list Z; sd_weeksPerPeriod : Z; sd_numberOfPeriods : Z; sd_amountPerPeriod : Z; sd_startEpoch : Z; sd_currentPeriod : Z }.
Record RegularPaymentEntry := mkPayment { rp_destination : Z; rp_url : list Z; rp_amount : Z; rp_tick : Z; rp_periodIndex : Z; rp_success : bool }.
Record CcfState := mkCcf {
  ccf_proposals : ProposalVoting (list Z);
  latestTransfers : list LatestTransfersEntry;
  lastTransfersNextOverwriteIdx : Z;
  setProposalFee : Z;
  regularPayments : list RegularPaymentEntry;
  subscriptionProposals : list SubscriptionProposalData;
  activeSubscriptions : list SubscriptionData;
  lastRegularPaymentsNextOverwriteIdx : Z }.

(** The zeroed records of [setMemory] and of the initial state *)
Definition zero_transfer : LatestTransfersEntry := mkTransfer 0 (replicate 256 0) 0 0 false.
Definition zero_subproposal : SubscriptionProposalData := mkSubProposal 0 0 (replicate 256 0) 0 0 0 0.
Definition zero_subscription : SubscriptionData := mkSubscription 0 (replicate 256 0) 0 0 0 0 0.
Definition zero_payment : RegularPaymentEntry := mkPayment 0 (replicate 256 0) 0 0 0 false.
#[export] Instance lt_inhabited : Inhabited LatestTransfersEntry := populate zero_transfer.
#[export] Instance sp_inhabited : Inhabited SubscriptionProposalData := populate zero_subproposal.
#[export] Instance sd_inhabited : Inhabited SubscriptionData := populate zero_subscription.
#[export] Instance rp_inhabited : Inhabited RegularPaymentEntry := populate zero_payment.

Definition with_proposals (pv : ProposalVoting (list Z)) (st : CcfState) : CcfState :=
  mkCcf pv (latestTransfers st) (lastTransfersNextOverwriteIdx st) (setProposalFee st) (regularPayments st) (subscriptionProposals st) (activeSubscriptions st) (lastRegularPaymentsNextOverwriteIdx st).
Definition with_transfer (x : LatestTransfersEntry) (st : CcfState) : CcfState :=
  mkCcf (ccf_proposals st) (Array.set 7 (latestTransfers st) (lastTransfersNextOverwriteIdx st) x) (u8 (Z.land (lastTransfersNextOverwriteIdx st + 1) (128 - 1))) (setProposalFee st)
    (regularPayments st) (subscriptionProposals st) (activeSubscriptions st) (lastRegularPaymentsNextOverwriteIdx st).
Definition with_payment (x : RegularPaymentEntry) (st : CcfState) : CcfState :=
  mkCcf (ccf_proposals st) (latestTransfers st) (lastTransfersNextOverwriteIdx st) (setProposalFee st)
    (Array.set 7 (regularPayments st) (lastRegularPaymentsNextOverwriteIdx st) x) (subscriptionProposals st) (activeSubscriptions st) (u8 ((lastRegularPaymentsNextOverwriteIdx st + 1) mod 128)).
Definition with_subproposal (i : Z) (x : SubscriptionProposalData) (st : CcfState) : CcfState :=
  mkCcf (ccf_proposals st) (latestTransfers st) (lastTransfersNextOverwriteIdx st) (setProposalFee st) (regularPayments st) (Array.set 7 (subscriptionProposals st) i x)
    (activeSubscriptions st) (lastRegularPaymentsNextOverwriteIdx st).
Definition with_subscription (i : Z) (x : SubscriptionData) (st : CcfState) : CcfState :=
  mkCcf (ccf_proposals st) (latestTransfers st) (lastTransfersNextOverwriteIdx st) (setProposalFee st) (regularPayments st) (subscriptionProposals st)
    (Array.set 10 (activeSubscriptions st) i x) (lastRegularPaymentsNextOverwriteIdx st).

Record SetProposal_input := mkInput {
  in_proposal : ProposalData; isSubscription : bool; weeksPerPeriod : Z; startEpoch : Z; amountPerPeriod : Z; numberOfPeriods : Z }.

Section CCF.
Variables NUMBER_OF_COMPUTORS QUORUM maxProposals : Z.
#[local] Instance CcfProposalDataT : ProposalDataType := DataYesNo.
#[local] Instance CcfProposersAndVotersT : VoterHandling (list Z) := handling_by_computors maxProposals NUMBER_OF_COMPUTORS.
Context {W : Type} {fund : FundOps W}.

(** ** SetProposal *)

(** The checks after the fee has been paid *)
Definition input_allowed (epoch : Z) (input : SetProposal_input) : bool :=
  if negb (cls (p_type (in_proposal input)) =? Transfer) && negb (p_epoch (in_proposal input) =? 0) then false
  else if isSubscription input then
    if startEpoch input <? epoch then false
    else
      let totalEpochsForSubscription := u32 (numberOfPeriods input * weeksPerPeriod input) in
      negb (52 <? totalEpochsForSubscription)
  else true.

(** The subscription data of the slot *)
Definition set_subscription_data (originator : Z) (input : SetProposal_input) (proposalIndex : Z) (st : CcfState) : CcfState * Z :=
  if negb (proposalIndex =? INVALID_PROPOSAL_INDEX) && isSubscription input then
    if p_epoch (in_proposal input) =? 0 then
      if proposalIndex <? 128 then
        if sp_proposerId (Array.get 7 (subscriptionProposals st) proposalIndex) =? originator then (with_subproposal proposalIndex zero_subproposal st, proposalIndex)
        else (st, INVALID_PROPOSAL_INDEX)
      else (st, proposalIndex)
    else
      (with_subproposal proposalIndex
         (mkSubProposal originator (destination (in_proposal input)) (p_url (in_proposal input)) (weeksPerPeriod input) (numberOfPeriods input) (amountPerPeriod input) (startEpoch input)) st,
       proposalIndex)
  else if negb (proposalIndex =? INVALID_PROPOSAL_INDEX) && negb (isSubscription input) then
    if (0 <=? proposalIndex) && (proposalIndex <? 128) then (with_subproposal proposalIndex zero_subproposal st, proposalIndex) else (st, proposalIndex)
  else (st, proposalIndex).

Definition CcfSetProposal (q : QpiContext) (originator invocator invocationReward : Z) (input : SetProposal_input) (st : CcfState) (w : W) : option (CcfState * W * Z) :=
  if invocationReward <? setProposalFee st then
    if 0 <? invocationReward then
      match fund_transfer invocator invocationReward w with Some (w, _) => Some (st, w, INVALID_PROPOSAL_INDEX) | None => None end
    else Some (st, w, INVALID_PROPOSAL_INDEX)
  else
    match (if setProposalFee st <? invocationReward then fund_transfer invocator (invocationReward - setProposalFee st) w else Some (w, 0)) with
    | None => None
    | Some (w, _) =>
        match fund_burn (setProposalFee st) w with
        | None => None
        | Some (w, _) =>
            if negb (input_allowed (q_epoch q) input) then Some (st, w, INVALID_PROPOSAL_INDEX)
            else
              let '(pv, proposalIndex) := setProposal maxProposals NUMBER_OF_COMPUTORS q originator (in_proposal input) (ccf_proposals st) in
              let '(st, proposalIndex) := set_subscription_data originator input proposalIndex (with_proposals pv st) in
              Some (st, w, proposalIndex)
        end
    end.

(** ** Vote *)
Definition CcfVote (q : QpiContext) (originator invocator invocationReward : Z) (input : SingleVote) (st : CcfState) (w : W) : option (CcfState * W * bool) :=
  match (if 0 <? invocationReward then fund_transfer invocator invocationReward w else Some (w, 0)) with
  | None => None
  | Some (w, _) => let '(pv, okay) := vote maxProposals NUMBER_OF_COMPUTORS q originator input (ccf_proposals st) in Some (with_proposals pv st, w, okay)
  end.

(** ** END_EPOCH: proposals *)

(** Whether the transfer of a proposal has been accepted *)
Definition transfer_accepted (proposalIndex : Z) (pv : ProposalVoting (list Z)) : option ProposalData :=
  let '(proposal, okay) := getProposal maxProposals proposalIndex inhabitant pv in
  if negb okay then None
  else if cls (p_type proposal) =? Transfer then
    let '(results, okay) := getVotingSummary maxProposals NUMBER_OF_COMPUTORS proposalIndex (mkSummary 0 0 0 0 0 (replicate 8 0)) pv in
    if negb okay then None
    else if s_totalVotesCasted results <? QUORUM then None
    else if optionVoteCount results 1 <? optionVoteCount results 0 then None
    else if QUORUM / 2 <? optionVoteCount results 1 then Some proposal else None
  else None.

(** The subscription with this destination is removed. *)
Definition delete_subscription (dest : Z) (st : CcfState) : CcfState :=
  let subIdx := search (fun i => let s := Array.get 10 (activeSubscriptions st) i in (sd_destination s =? dest) && negb (sd_destination s =? 0)) (Z.to_nat CCF_MAX_SUBSCRIPTIONS) 0 (-1) in
  if 0 <=? subIdx then with_subscription subIdx zero_subscription st else st.

(** existingSubIdx: the subscription with this destination, or else the first free place *)
Fixpoint find_place (n : nat) (subs : list SubscriptionData) (dest subIdx existingSubIdx : Z) : Z :=
  match n with
  | O => existingSubIdx
  | S n =>
      let s := Array.get 10 subs subIdx in
      if (sd_destination s =? dest) && negb (sd_destination s =? 0) then subIdx
      else find_place n subs dest (subIdx + 1) (if (existingSubIdx =? -1) && (sd_destination s =? 0) then subIdx else existingSubIdx)
  end.

Definition accept_subscription (sp : SubscriptionProposalData) (st : CcfState) : CcfState :=
  if (sp_amountPerPeriod sp =? 0) || (sp_numberOfPeriods sp =? 0) || (sp_weeksPerPeriod sp =? 0) then delete_subscription (sp_destination sp) st
  else
    let existingSubIdx := find_place (Z.to_nat CCF_MAX_SUBSCRIPTIONS) (activeSubscriptions st) (sp_destination sp) 0 (-1) in
    if 0 <=? existingSubIdx then
      with_subscription existingSubIdx
        (mkSubscription (sp_destination sp) (sp_url sp) (sp_weeksPerPeriod sp) (sp_numberOfPeriods sp) (sp_amountPerPeriod sp) (sp_startEpoch sp) (-1)) st
    else st.

Definition accept_proposal (q : QpiContext) (proposalIndex : Z) (proposal : ProposalData) (st : CcfState) (w : W) : option (CcfState * W) :=
  let sp := Array.get 7 (subscriptionProposals st) proposalIndex in
  if (proposalIndex <? 128) && negb (sp_proposerId sp =? 0) then
    Some (with_subproposal proposalIndex zero_subproposal (accept_subscription sp st), w)
  else
    match fund_transfer (destination proposal) (amount proposal) w with
    | None => None
    | Some (w, r) => Some (with_transfer (mkTransfer (destination proposal) (p_url proposal) (amount proposal) (q_tick q) (0 <=? r)) st, w)
    end.

(** The loop over the proposals of the epoch *)
Fixpoint end_epoch_proposals (fuel : nat) (q : QpiContext) (proposalIndex : Z) (st : CcfState) (w : W) : option (CcfState * W) :=
  match fuel with
  | O => None
  | S fuel =>
      let proposalIndex := nextProposalIndex maxProposals q (ccf_proposals st) proposalIndex (q_epoch q) in
      if 0 <=? proposalIndex then
        match (match transfer_accepted proposalIndex (ccf_proposals st) with Some proposal => accept_proposal q proposalIndex proposal st w | None => Some (st, w) end) with
        | Some (st, w) => end_epoch_proposals fuel q proposalIndex st w
        | None => None
        end
      else Some (st, w)
  end.

(** ** END_EPOCH: subscriptions *)

(** The period to be paid now, if any *)
Definition due_period (currentEpoch : Z) (s : SubscriptionData) : option Z :=
  if (sd_destination s =? 0) || (sd_numberOfPeriods s =? 0) then None
  else if currentEpoch <? sd_startEpoch s then None
  else
    let epochsSinceStart := u32 (currentEpoch - sd_startEpoch s) in
    let periodIndex := if sd_weeksPerPeriod s =? 0 then 0 else Z.quot (s32 epochsSinceStart) (s32 (sd_weeksPerPeriod s)) in
    if (sd_currentPeriod s <? periodIndex) && (periodIndex <? s32 (sd_numberOfPeriods s)) then Some periodIndex else None.

Definition with_currentPeriod (periodIndex : Z) (s : SubscriptionData) : SubscriptionData :=
  mkSubscription (sd_destination s) (sd_url s) (sd_weeksPerPeriod s) (sd_numberOfPeriods s) (sd_amountPerPeriod s) (sd_startEpoch s) periodIndex.

Definition pay_subscription (q : QpiContext) (subIdx : Z) (r : option (CcfState * W)) : option (CcfState * W) :=
  match r with
  | None => None
  | Some (st, w) =>
      let s := Array.get 10 (activeSubscriptions st) subIdx in
      match due_period (q_epoch q) s with
      | None => Some (st, w)
      | Some periodIndex =>
          let a := s64 (sd_amountPerPeriod s) in
          match fund_transfer (sd_destination s) a w with
          | None => None
          | Some (w, r) =>
              let success := 0 <=? r in
              let s := with_currentPeriod periodIndex s in
              let st := with_payment (mkPayment (sd_destination s) (sd_url s) a (q_tick q) periodIndex success) (with_subscription subIdx s st) in
              Some (if success && (s32 (sd_numberOfPeriods s) - 1 <=? sd_currentPeriod s) then with_subscription subIdx zero_subscription st else st, w)
          end
      end
  end.

Definition END_EPOCH (q : QpiContext) (st : CcfState) (w : W) : option (CcfState * W) :=
  for_loop (Z.to_nat CCF_MAX_SUBSCRIPTIONS) 0 (pay_subscription q) (end_epoch_proposals (S (Z.to_nat maxProposals)) q (-1) st w).

(** INITIALIZE, on the zeroed state *)
Definition CcfINITIALIZE : CcfState :=
  mkCcf (mkVoting (replicate (Z.to_nat maxProposals) NULL_ID) (replicate (Z.to_nat maxProposals) (zero_proposal NUMBER_OF_COMPUTORS)))
    (replicate 128 zero_transfer) 0 1000000 (replicate 128 zero_payment) (replicate 128 zero_subproposal) (replicate 1024 zero_subscription) 0.

(** ** Functions *)
Definition CcfGetProposalIndices (q : QpiContext) (activeProposals : bool) (prevProposalIndex : Z) (st : CcfState) : Z * list Z :=
  let next := if activeProposals then fun prev => nextProposalIndex maxProposals q (ccf_proposals st) prev (q_epoch q)
              else nextFinishedProposalIndex maxProposals q (ccf_proposals st) in
  collect_indices 64 next prevProposalIndex 0 (replicate 64 0).
Definition CcfGetVote (q : QpiContext) (voter proposalIndex : Z) (v : SingleVote) (st : CcfState) : SingleVote * bool :=
  getVote maxProposals NUMBER_OF_COMPUTORS proposalIndex (voteIndex q (ccf_proposals st) voter 0) v (ccf_proposals st).
Definition CcfGetVotingResults (proposalIndex : Z) (results : Summary) (st : CcfState) : Summary * bool :=
  getVotingSummary maxProposals NUMBER_OF_COMPUTORS proposalIndex results (ccf_proposals st).
Definition CcfGetProposal (subscriptionDestination proposalIndex : Z) (proposal : ProposalData) (st : CcfState) :
    bool * Z * ProposalData * option SubscriptionProposalData * option SubscriptionData :=
  let '(proposal, okay) := getProposal maxProposals proposalIndex proposal (ccf_proposals st) in
  let sp := Array.get 7 (subscriptionProposals st) proposalIndex in
  let subIdx := search (fun i => let s := Array.get 10 (activeSubscriptions st) i in (sd_destination s =? subscriptionDestination) && negb (sd_destination s =? 0)) (Z.to_nat CCF_MAX_SUBSCRIPTIONS) 0 (-1) in
  (okay, proposerId maxProposals (ccf_proposals st) proposalIndex, proposal,
   if (proposalIndex <? 128) && negb (sp_proposerId sp =? 0) then Some sp else None,
   if negb (subscriptionDestination =? 0) && (0 <=? subIdx) then Some (Array.get 10 (activeSubscriptions st) subIdx) else None).
Definition GetLatestTransfers (st : CcfState) : list LatestTransfersEntry := latestTransfers st.
Definition GetRegularPayments (st : CcfState) : list RegularPaymentEntry := regularPayments st.
Definition GetProposalFee (st : CcfState) : Z := setProposalFee st.
End CCF.
