(* ===== verification/SubscriptionTable.v ===== *)
(** * The subscriptions of the fund

    The table of active subscriptions is a map from destinations to subscriptions with a bounded number of entries; accepted proposals add, replace and delete
    entries of the map.  A subscription in the state that its schedule prescribes has a payment due in exactly the first epochs of its periods. *)
From S2P Require Import Prelude Containers ProposalData ProposalVoters ProposalElectorate ComputorControlledFund.
Notation place i := (0 <= i < CCF_MAX_SUBSCRIPTIONS).
Implicit Types (s : SubscriptionData) (l : list SubscriptionData) (m : gmap Z SubscriptionData).

(** ** The table as a map *)
Record holds m l : Prop := {
  h_len : alen l = CCF_MAX_SUBSCRIPTIONS;
  h_get i : place i -> sd_destination (l.[i]) <> 0 -> m !! sd_destination (l.[i]) = Some (l.[i]);
  h_place d s : m !! d = Some s -> d <> 0 /\ sd_destination s = d /\ exists i, place i /\ l.[i] = s;
  h_unique i j : place i -> place j -> sd_destination (l.[i]) <> 0 -> sd_destination (l.[i]) = sd_destination (l.[j]) -> i = j }.

Lemma get10 l i : place i -> Array.get 10 l i = l.[i].
Proof. intros Hi. unfold Array.get. by rewrite Array.land_index. Qed.
Lemma set10 l i s : place i -> Array.set 10 l i s = l.[i := s].
Proof. intros Hi. unfold Array.set. by rewrite Array.land_index. Qed.

Lemma holds_zero_key m l : holds m l -> m !! 0 = None.
Proof. intros Hh. destruct (m !! 0) as [s|] eqn:E; [|done]. by destruct (h_place m l Hh 0 s E). Qed.

(** An entry is absent from the map when no place has its destination. *)
Lemma holds_absent m l d : holds m l -> (forall i, place i -> sd_destination (l.[i]) <> d \/ sd_destination (l.[i]) = 0) -> m !! d = None.
Proof.
  intros Hh Hno. destruct (m !! d) as [s|] eqn:E; [|done]. destruct (h_place m l Hh d s E) as (Hd & Hs & i & Hi & Hl). destruct (Hno i Hi); congruence.
Qed.

Lemma holds_delete m l i : holds m l -> place i -> sd_destination (l.[i]) <> 0 -> holds (delete (sd_destination (l.[i])) m) (l.[i := zero_subscription]).
Proof.
  intros Hh Hi Hd. assert (forall j, place j -> j <> i -> sd_destination (l.[j]) <> 0 -> sd_destination (l.[j]) <> sd_destination (l.[i])) as Hne.
  { intros j Hj Hji Hz E. apply Hji. by apply (h_unique m l Hh). }
  pose proof (h_len m l Hh) as Hl. split; [by rewrite alen_aset|..].
  - intros j Hj. destruct (decide (i = j)) as [<-|Hij]; [rewrite aget_aset_eq by lia; done|]. rewrite aget_aset_ne by done. intros Hz.
    rewrite lookup_delete_ne by (intros E; symmetry in E; revert E; apply Hne; done). by apply (h_get m l Hh).
  - intros d s [Hdi E]%lookup_delete_Some. destruct (h_place m l Hh d s E) as (H1 & H2 & j & Hj & Hs). split; [done|]. split; [done|]. exists j. split; [done|].
    rewrite aget_aset_ne; [done|]. intros <-. congruence.
  - intros j k Hj Hk. destruct (decide (i = j)) as [<-|Hij]; [rewrite aget_aset_eq by lia; done|]. rewrite (aget_aset_ne l i j) by done.
    destruct (decide (i = k)) as [<-|Hik]; [rewrite aget_aset_eq by lia; intros H1 H2; by rewrite H2 in H1|]. rewrite aget_aset_ne by done. by apply (h_unique m l Hh).
Qed.

(** Place [i] is the place of the destination, or a free one when the destination has none. *)
Definition place_for l d i : Prop :=
  place i /\ (sd_destination (l.[i]) = d \/ sd_destination (l.[i]) = 0 /\ forall j, place j -> sd_destination (l.[j]) <> d).

Lemma holds_insert m l i s : holds m l -> sd_destination s <> 0 -> place_for l (sd_destination s) i -> holds (<[sd_destination s := s]> m) (l.[i := s]).
Proof.
  intros Hh Hs (Hi & Hp). assert (forall j, place j -> j <> i -> sd_destination (l.[j]) <> 0 -> sd_destination (l.[j]) <> sd_destination s) as Hne.
  { intros j Hj Hji Hz. destruct Hp as [<-|[_ Hno]]; [|by apply Hno]. intros E. apply Hji. by apply (h_unique m l Hh). }
  pose proof (h_len m l Hh) as Hl. split; [by rewrite alen_aset|..].
  - intros j Hj. destruct (decide (i = j)) as [<-|Hij]; [rewrite aget_aset_eq by lia; intros _; by rewrite lookup_insert_eq|]. rewrite aget_aset_ne by done. intros Hz.
    rewrite lookup_insert_ne by (intros E; symmetry in E; revert E; apply Hne; done). by apply (h_get m l Hh).
  - intros d t [[<- <-]|[Hd E]]%lookup_insert_Some; [split; [done|]; split; [done|]; exists i; by rewrite aget_aset_eq by lia|].
    destruct (h_place m l Hh d t E) as (H1 & H2 & j & Hj & Ht). split; [done|]. split; [done|]. exists j. split; [done|]. rewrite aget_aset_ne; [done|]. intros <-.
    destruct Hp as [Hp|[Hp _]]; congruence.
  - intros j k Hj Hk. destruct (decide (i = j)) as [<-|Hij], (decide (i = k)) as [<-|Hik]; try done; rewrite ?aget_aset_eq by lia; rewrite ?aget_aset_ne by done.
    + intros Hz E. exfalso. symmetry in E. apply (Hne k Hk ltac:(done)) in E; [done|congruence].
    + intros Hz E. exfalso. revert E. apply Hne; done.
    + by apply (h_unique m l Hh).
Qed.

(** The map is full when no place is free. *)
Lemma holds_dom m l : holds m l -> dom m =@{gset Z} list_to_set (map sd_destination (filter (fun s => sd_destination s <> 0) l)).
Proof.
  intros Hh. apply set_eq. intros d. rewrite elem_of_dom, elem_of_list_to_set, list_elem_of_fmap. split.
  - intros [s E]. destruct (h_place m l Hh d s E) as (Hd & Hs & i & Hi & Hl). exists s. split; [done|]. apply list_elem_of_filter. split; [congruence|]. rewrite <- Hl.
    pose proof (h_len m l Hh) as Hlen. rewrite aget_nonneg by lia. apply list_elem_of_lookup_total_2. unfold alen in Hlen. lia.
  - intros (s & -> & [Hs Hin]%list_elem_of_filter). apply list_elem_of_lookup_1 in Hin as [i Hi]. pose proof (lookup_lt_Some _ _ _ Hi) as Hlt.
    pose proof (h_len m l Hh) as Hlen. unfold alen in Hlen. pose proof (h_get m l Hh (Z.of_nat i) ltac:(lia)) as Hg. rewrite aget_nonneg, Nat2Z.id in Hg by lia.
    rewrite (list_lookup_total_correct _ _ _ Hi) in Hg. rewrite Hg by done. done.
Qed.

(** No two places have the same destination. *)
Definition distinct l : Prop := forall i j, place i -> place j -> sd_destination (l.[i]) <> 0 -> sd_destination (l.[i]) = sd_destination (l.[j]) -> i = j.

Lemma distinct_nodup l : alen l = CCF_MAX_SUBSCRIPTIONS -> distinct l -> NoDup (map sd_destination (filter (fun s => sd_destination s <> 0) l)).
Proof.
  intros Hlen Hu. unfold alen in Hlen.
  assert (forall i j s t, l !! i = Some s -> l !! j = Some t -> sd_destination s <> 0 -> sd_destination s = sd_destination t -> i = j) as Hu'.
  { intros i j s t Hi Hj Hs E. pose proof (lookup_lt_Some _ _ _ Hi). pose proof (lookup_lt_Some _ _ _ Hj). specialize (Hu (Z.of_nat i) (Z.of_nat j) ltac:(lia) ltac:(lia)).
    rewrite !aget_nonneg, !Nat2Z.id, (list_lookup_total_correct _ _ _ Hi), (list_lookup_total_correct _ _ _ Hj) in Hu by lia. specialize (Hu Hs E). lia. }
  clear Hlen Hu. induction l as [|s l IH]; [constructor|]. assert (NoDup (map sd_destination (filter (fun s => sd_destination s <> 0) l))) as Hn.
  { apply IH. intros i j x y Hi Hj Hs E. assert (S i = S j) as [= ?]; [|done]. by apply (Hu' (S i) (S j) x y). }
  rewrite filter_cons. case_decide as Hs; [|done]. cbn [map]. constructor; [|done].
  intros (t & E & [Ht Hin]%list_elem_of_filter)%list_elem_of_fmap. apply list_elem_of_lookup_1 in Hin as [j Hj]. by pose proof (Hu' 0%nat (S j) s t eq_refl Hj Hs E).
Qed.

Lemma holds_size m l : holds m l -> Z.of_nat (size m) = alen (filter (fun s => sd_destination s <> 0) l).
Proof. intros Hh. rewrite <- size_dom, (holds_dom m l Hh), size_list_to_set by (apply distinct_nodup; [exact (h_len m l Hh)|exact (h_unique m l Hh)]). by rewrite length_map. Qed.

Lemma holds_free m l i : holds m l -> place i -> sd_destination (l.[i]) = 0 -> Z.of_nat (size m) < CCF_MAX_SUBSCRIPTIONS.
Proof.
  intros Hh Hi Hz. rewrite (holds_size m l Hh), <- (h_len m l Hh). unfold alen. pose proof (h_len m l Hh) as Hlen. unfold alen in Hlen.
  apply inj_lt, (length_filter_lt _ _ (l.[i])); [|tauto]. rewrite aget_nonneg by lia. apply list_elem_of_lookup_total_2. lia.
Qed.

Lemma filter_all {A} (P : A -> Prop) `{!forall x, Decision (P x)} (l : list A) : Forall P l -> filter P l = l.
Proof. induction 1 as [|x l Hx _ IH]; [done|]. by rewrite filter_cons_True, IH by done. Qed.

Lemma holds_full m l : holds m l -> (forall i, place i -> sd_destination (l.[i]) <> 0) -> Z.of_nat (size m) = CCF_MAX_SUBSCRIPTIONS.
Proof.
  intros Hh Hf. pose proof (h_len m l Hh) as Hlen. unfold alen in Hlen. rewrite (holds_size m l Hh), <- (h_len m l Hh). f_equal. apply filter_all. apply Forall_lookup. intros i s Hi.
  pose proof (lookup_lt_Some _ _ _ Hi). specialize (Hf (Z.of_nat i) ltac:(lia)). by rewrite aget_nonneg, Nat2Z.id, (list_lookup_total_correct _ _ _ Hi) in Hf by lia.
Qed.

(** ** Accepted proposals *)
Lemma find_place_spec l d n : forall i e, 0 <= i -> i + Z.of_nat n <= CCF_MAX_SUBSCRIPTIONS -> let r := find_place n l d i e in
  (i <= r < i + Z.of_nat n /\ d <> 0 /\ sd_destination (l.[r]) = d) \/
  ((forall j, i <= j < i + Z.of_nat n -> sd_destination (l.[j]) <> d \/ d = 0) /\
   if decide (e = -1) then (i <= r < i + Z.of_nat n /\ sd_destination (l.[r]) = 0) \/ (r = -1 /\ forall j, i <= j < i + Z.of_nat n -> sd_destination (l.[j]) <> 0) else r = e).
Proof.
  induction n as [|n IH]; intros i e Hi Hn; cbv zeta; cbn [find_place]; [right; split; [lia|]; case_decide; [right; split; [done|lia]|done]|].
  rewrite get10 by lia. destruct (Z.eqb_spec (sd_destination (l.[i])) d) as [E|E], (Z.eqb_spec (sd_destination (l.[i])) 0) as [Z|Z]; cbn [andb negb];
    try (left; split; [lia|]; split; [congruence|done]);
    (match goal with |- context [find_place n l d (i + 1) ?e'] => destruct (IH (i + 1) e' ltac:(lia) ltac:(lia)) as [(H1 & H2)|[H1 H2]] end; [left; split; [lia|done]|]);
    (right; split; [intros j Hj; destruct (decide (j = i)) as [->|]; [|apply H1; lia]; try (left; congruence); right; congruence|]);
    rewrite ?andb_true_r, ?andb_false_r in H2 |- *; destruct (Z.eqb_spec e (-1)) as [->|He]; repeat case_decide; try done; try lia.
  all: try (left; rewrite H2; split; [lia|done]).
  all: destruct H2 as [[H2 H3]|[H2 H3]]; [left; split; [lia|done]|right; split; [done|]; intros j Hj; destruct (decide (j = i)) as [->|]; [done|apply H3; lia]].
Qed.

(** The subscription of an accepted proposal *)
Definition fresh (sp : SubscriptionProposalData) : SubscriptionData :=
  mkSubscription (sp_destination sp) (sp_url sp) (sp_weeksPerPeriod sp) (sp_numberOfPeriods sp) (sp_amountPerPeriod sp) (sp_startEpoch sp) (-1).
Definition cancels (sp : SubscriptionProposalData) : Prop := sp_amountPerPeriod sp = 0 \/ sp_numberOfPeriods sp = 0 \/ sp_weeksPerPeriod sp = 0.
#[export] Instance cancels_dec sp : Decision (cancels sp).
Proof. unfold cancels. apply _. Defined.
Definition subscribe m (sp : SubscriptionProposalData) : gmap Z SubscriptionData :=
  if decide (cancels sp) then delete (sp_destination sp) m
  else if decide (is_Some (m !! sp_destination sp) \/ Z.of_nat (size m) < CCF_MAX_SUBSCRIPTIONS) then <[sp_destination sp := fresh sp]> m
  else m.

Definition with_subs l (st : CcfState) : CcfState :=
  mkCcf (ccf_proposals st) (latestTransfers st) (lastTransfersNextOverwriteIdx st) (setProposalFee st) (regularPayments st) (subscriptionProposals st) l (lastRegularPaymentsNextOverwriteIdx st).

Lemma delete_subscription_spec m d st : holds m (activeSubscriptions st) ->
  exists l, delete_subscription d st = with_subs l st /\ holds (delete d m) l.
Proof.
  intros Hh. unfold delete_subscription. set (l := activeSubscriptions st) in *. cbv zeta.
  match goal with |- context [search ?P _ _ _] => destruct (search_first P (Z.to_nat CCF_MAX_SUBSCRIPTIONS) (-1) 0) as [(i & -> & Hi & HP & _)|[-> Hno]] end.
  - assert (place i) as Hp by (unfold CCF_MAX_SUBSCRIPTIONS in *; lia). rewrite (proj2 (Z.leb_le 0 i)) by lia. cbv beta in HP. rewrite get10 in HP by done.
    apply andb_true_iff in HP as [<-%Z.eqb_eq Hz]. apply negb_true_iff, Z.eqb_neq in Hz. exists (l.[i := zero_subscription]). split; [|by apply holds_delete].
    unfold with_subscription, with_subs. fold l. by rewrite set10.
  - exists l. split; [by destruct st|]. rewrite delete_id; [done|]. apply (holds_absent m l); [done|]. intros i Hi. specialize (Hno i ltac:(unfold CCF_MAX_SUBSCRIPTIONS in *; lia)). cbv beta in Hno.
    rewrite get10 in Hno by done. apply andb_false_iff in Hno as [?%Z.eqb_neq|?%negb_false_iff%Z.eqb_eq]; [by left|by right].
Qed.

Lemma accept_subscription_spec m sp st : holds m (activeSubscriptions st) -> sp_destination sp <> 0 ->
  exists l, accept_subscription sp st = with_subs l st /\ holds (subscribe m sp) l.
Proof.
  intros Hh Hd. unfold accept_subscription, subscribe. set (l := activeSubscriptions st) in *.
  assert ((sp_amountPerPeriod sp =? 0) || (sp_numberOfPeriods sp =? 0) || (sp_weeksPerPeriod sp =? 0) = bool_decide (cancels sp)) as ->.
  { apply eq_bool_prop_intro. rewrite bool_decide_spec. unfold cancels. rewrite !orb_True, !Is_true_true, !Z.eqb_eq. tauto. }
  case_bool_decide as Hc; [rewrite decide_True by done; by apply delete_subscription_spec|]. rewrite decide_False by done. cbv zeta.
  destruct (find_place_spec l (sp_destination sp) (Z.to_nat CCF_MAX_SUBSCRIPTIONS) 0 (-1)) as [(Hr & _ & E)|[Hno Hf]]; [lia|unfold CCF_MAX_SUBSCRIPTIONS; lia|..].
  - set (r := find_place _ _ _ _ _) in *. assert (place r) as Hp by (unfold CCF_MAX_SUBSCRIPTIONS in *; lia). rewrite (proj2 (Z.leb_le 0 r)) by lia.
    rewrite decide_True by (left; rewrite <- E; rewrite (h_get m l Hh r Hp) by congruence; done). exists (l.[r := fresh sp]).
    split; [unfold with_subscription, with_subs; fold l; by rewrite set10|]. apply (holds_insert m l r (fresh sp)); [done|done|]. split; [done|]. by left.
  - set (r := find_place _ _ _ _ _) in *. assert (forall j, place j -> sd_destination (l.[j]) <> sp_destination sp) as Hno'.
    { intros j Hj. destruct (Hno j ltac:(unfold CCF_MAX_SUBSCRIPTIONS in *; lia)); done. }
    rewrite decide_True in Hf by done. destruct Hf as [[Hr Hz]|[Hr Hfull]].
    + assert (place r) as Hp by (unfold CCF_MAX_SUBSCRIPTIONS in *; lia). rewrite (proj2 (Z.leb_le 0 r)) by lia. rewrite decide_True by (right; by apply (holds_free m l r)).
      exists (l.[r := fresh sp]). split; [unfold with_subscription, with_subs; fold l; by rewrite set10|]. apply (holds_insert m l r (fresh sp)); [done|done|]. split; [done|]. by right.
    + rewrite Hr. cbn [Z.leb Z.compare]. exists l. split; [by destruct st|]. rewrite decide_False; [done|].
      rewrite (holds_full m l Hh) by (intros j Hj; apply Hfull; unfold CCF_MAX_SUBSCRIPTIONS in *; lia). rewrite (holds_absent m l); [|done|intros j Hj; left; by apply Hno'].
      intros [[? ?]|?]; [done|lia].
Qed.

(** ** The schedule of a subscription *)

(** The state of a subscription before the end of epoch [e] *)
Definition on_schedule (e : Z) s : Prop := sd_destination s <> 0 ->
  0 < sd_weeksPerPeriod s < 256 /\ 0 < sd_numberOfPeriods s < 2 ^ 32 /\ 0 <= sd_startEpoch s /\
  sd_currentPeriod s = Z.max (-1) (Z.min ((e - 1 - sd_startEpoch s) / sd_weeksPerPeriod s) (s32 (sd_numberOfPeriods s) - 1)).

(** Period [k] begins in epoch [e]. *)
Definition period_begins (e : Z) s (k : Z) : Prop := 0 <= k < s32 (sd_numberOfPeriods s) /\ e = sd_startEpoch s + k * sd_weeksPerPeriod s.

Lemma due_period_eq e s : 0 < e < 2 ^ 16 -> on_schedule e s -> sd_destination s <> 0 ->
  due_period e s = if decide (sd_startEpoch s <= e /\ sd_currentPeriod s < (e - sd_startEpoch s) / sd_weeksPerPeriod s < s32 (sd_numberOfPeriods s))
    then Some ((e - sd_startEpoch s) / sd_weeksPerPeriod s) else None.
Proof.
  intros He Hs Hd. destruct (Hs Hd) as (Hw & Hn & H0 & _). unfold due_period. rewrite (proj2 (Z.eqb_neq _ _) Hd), (proj2 (Z.eqb_neq _ 0)) by lia. cbn [orb].
  destruct (Z.ltb_spec e (sd_startEpoch s)); [by rewrite decide_False by lia|]. rewrite (proj2 (Z.eqb_neq _ 0)) by lia.
  assert (u32 (e - sd_startEpoch s) = e - sd_startEpoch s) as -> by (unfold u32; apply Z.mod_small; lia). rewrite !(s32_small (e - _)), (s32_small (sd_weeksPerPeriod s)) by lia.
  rewrite Z.quot_div_nonneg by lia. destruct (Z.ltb_spec (sd_currentPeriod s) ((e - sd_startEpoch s) / sd_weeksPerPeriod s)), (Z.ltb_spec ((e - sd_startEpoch s) / sd_weeksPerPeriod s) (s32 (sd_numberOfPeriods s)));
    cbn [andb]; [rewrite decide_True by lia|rewrite decide_False by lia..]; done.
Qed.

Lemma due_period_spec e s k : 0 < e < 2 ^ 16 -> on_schedule e s -> sd_destination s <> 0 -> due_period e s = Some k <-> period_begins e s k.
Proof.
  intros He Hs Hd. rewrite due_period_eq by done. destruct (Hs Hd) as (Hw & _ & _ & ->). unfold period_begins. set (w := sd_weeksPerPeriod s) in *. set (N := s32 _).
  set (x := e - sd_startEpoch s). replace (e - 1 - sd_startEpoch s) with (x - 1) by lia. assert (0 <= k -> x = k * w -> x / w = k /\ (x - 1) / w < k) as Hk.
  { intros Hk ->. rewrite Z.div_mul by lia. split; [done|]. apply Z.div_lt_upper_bound; lia. }
  split.
  - case_decide as Hc; [|done]. intros [= <-]. assert (x = x / w * w) as E; [|unfold x in *; split; [|lia]; split; [apply Z.div_pos; lia|lia]].
    pose proof (Z.div_mod x w ltac:(lia)). pose proof (Z.mod_pos_bound x w ltac:(lia)). assert ((x - 1) / w < x / w) as Hlt by lia.
    destruct (decide (x mod w = 0)); [lia|]. assert ((x - 1) / w = x / w); [|lia]. symmetry. apply (Z.div_unique _ _ _ (x mod w - 1)); lia.
  - intros [Hn E]. destruct (Hk ltac:(lia) ltac:(unfold x; lia)) as [-> Hlt]. rewrite decide_True; [done|]. split; [|lia]. assert (0 <= k * w) by nia. lia.
Qed.

(** The table after the payments with the results [rs] *)
Fixpoint settle (e : Z) l (rs : list Z) : list SubscriptionData :=
  match l with
  | [] => []
  | s :: l =>
      match due_period e s, rs with
      | Some k, r :: rs => (if (0 <=? r) && (s32 (sd_numberOfPeriods s) - 1 <=? k) then zero_subscription else with_currentPeriod k s) :: settle e l rs
      | _, _ => s :: settle e l rs
      end
  end.
Definition due_payment (e : Z) s : option (Z * Z) := match due_period e s with Some _ => Some (sd_destination s, s64 (sd_amountPerPeriod s)) | None => None end.

Lemma on_schedule_paid e s k : 0 < e < 2 ^ 16 -> on_schedule e s -> due_period e s = Some k -> on_schedule (e + 1) (with_currentPeriod k s).
Proof.
  intros He Hs Hk Hd. unfold on_schedule. cbn [with_currentPeriod sd_destination sd_weeksPerPeriod sd_numberOfPeriods sd_startEpoch sd_currentPeriod] in *. rewrite due_period_eq in Hk by done.
  destruct (Hs Hd) as (H1 & H2 & H3 & _). do 3 (split; [done|]). case_decide as Hc; [|done]. injection Hk as <-. replace (e + 1 - 1 - sd_startEpoch s) with (e - sd_startEpoch s) by lia.
  assert (0 <= (e - sd_startEpoch s) / sd_weeksPerPeriod s) by (apply Z.div_pos; lia). lia.
Qed.

Lemma on_schedule_unpaid e s : 0 < e < 2 ^ 16 -> on_schedule e s -> due_period e s = None -> on_schedule (e + 1) s.
Proof.
  intros He Hs Hk Hd. rewrite due_period_eq in Hk by done. destruct (Hs Hd) as (H1 & H2 & H3 & H4). do 3 (split; [done|]). case_decide as Hc; [done|]. clear Hk.
  replace (e + 1 - 1 - sd_startEpoch s) with (e - sd_startEpoch s) by lia. set (w := sd_weeksPerPeriod s) in *. set (x := e - sd_startEpoch s) in *. replace (e - 1 - sd_startEpoch s) with (x - 1) in H4 by lia.
  assert (x / w - 1 <= (x - 1) / w <= x / w) by (split; [replace (x / w - 1) with (x / w + -1) by lia; rewrite <- (Z.div_add x (-1) w) by lia|]; apply Z.div_le_mono; lia). destruct (decide (0 <= x)); [lia|]. assert (x / w < 0) by (apply Z.div_lt_upper_bound; lia). lia.
Qed.

Lemma settle_on_schedule e l : 0 < e < 2 ^ 16 -> Forall (on_schedule e) l -> forall rs, length (omap (due_payment e) l) = length rs -> Forall (on_schedule (e + 1)) (settle e l rs).
Proof.
  intros He. induction 1 as [|s l Hs _ IH]; intros rs; cbn [omap list_omap settle]; [constructor|]. unfold due_payment at 1. destruct (due_period e s) as [k|] eqn:E.
  - destruct rs as [|r rs]; [done|]. intros [= Hl]. constructor; [|by apply IH]. destruct (_ && _); [done|by apply on_schedule_paid].
  - intros Hl. constructor; [by apply on_schedule_unpaid|by apply IH].
Qed.

Lemma settle_places e l : forall rs, Forall2 (fun s t => sd_destination t = sd_destination s \/ sd_destination t = 0) l (settle e l rs).
Proof.
  induction l as [|s l IH]; intros rs; cbn [settle]; [constructor|]. destruct (due_period e s) as [k|]; [|constructor; [by left|apply IH]].
  destruct rs as [|r rs]; (constructor; [|apply IH]); [by left|]. destruct (_ && _); [by right|by left].
Qed.

Lemma settle_distinct e l rs : alen l = CCF_MAX_SUBSCRIPTIONS -> distinct l -> alen (settle e l rs) = CCF_MAX_SUBSCRIPTIONS /\ distinct (settle e l rs).
Proof.
  intros Hl Hd. pose proof (settle_places e l rs) as Hf. pose proof (Forall2_length _ _ _ Hf) as Hlen. unfold alen in *. split; [lia|].
  assert (forall i, place i -> sd_destination ((settle e l rs).[i]) = sd_destination (l.[i]) \/ sd_destination ((settle e l rs).[i]) = 0) as Hp.
  { intros i Hi. rewrite !aget_nonneg by lia. apply (Forall2_lookup_lr _ _ _ (Z.to_nat i) _ _ Hf); apply list_lookup_lookup_total_lt; lia. }
  intros i j Hi Hj Hne E. destruct (Hp i Hi) as [Ei|?]; [|done]. destruct (Hp j Hj) as [Ej|Ej]; [|congruence]. apply Hd; congruence.
Qed.

(** Every table without duplicates is the table of a map. *)
Lemma table_map l : alen l = CCF_MAX_SUBSCRIPTIONS -> distinct l -> exists m, holds m l.
Proof.
  intros Hl Hd. pose proof (distinct_nodup l Hl Hd) as Hn. set (used := filter (fun s => sd_destination s <> 0) l) in *.
  exists (list_to_map (map (fun s => (sd_destination s, s)) used)). assert (forall s, s ∈ l <-> exists i, place i /\ l.[i] = s) as Hin.
  { intros s. rewrite list_elem_of_lookup. unfold alen in Hl. split.
    - intros [i Hi]. pose proof (lookup_lt_Some _ _ _ Hi). exists (Z.of_nat i). split; [lia|]. rewrite aget_nonneg, Nat2Z.id by lia. by apply list_lookup_total_correct.
    - intros (i & Hi & <-). exists (Z.to_nat i). rewrite aget_nonneg by lia. apply list_lookup_lookup_total_lt. lia. }
  assert (NoDup (map (fun s => (sd_destination s, s)) used).*1) as Hn' by (rewrite <- list_fmap_compose; exact Hn). split; [done|..].
  - intros i Hi Hz. apply elem_of_list_to_map_1; [done|]. apply list_elem_of_fmap. exists (l.[i]). split; [done|]. apply list_elem_of_filter. split; [done|]. apply Hin. by exists i.
  - intros d s Hs%elem_of_list_to_map_2. apply list_elem_of_fmap in Hs as (t & [= -> ->] & [Hz Ht]%list_elem_of_filter). split; [done|]. split; [done|]. by apply Hin.
  - exact Hd.
Qed.
