(* ===== verification/FundTheorems.v ===== *)
(** * What the fund pays

    The end of an epoch pays the one-time transfers that the quorum accepted, in the order of the slots, takes up the accepted subscriptions and then pays the
    periods that begin; in every state that the fund can reach its subscriptions are on schedule. *)
From S2P Require Import Spectrum EntityLedger ContractMoney GeneralQuorumProposal Prelude Containers ProposalData ProposalVoters ProposalRolls ProposalElectorate ProposalVoting Proposals ProposalResults ProposalReads ProposalRuns ProposalTheorems ComputorControlledFund SubscriptionTable.

Section fund.
Variables NC QUORUM MP : Z.
Hypothesis HNC : 0 < NC <= 2 ^ 31.
Hypothesis HMP : 0 < MP <= 128.
Context {W : Type} {fund : FundOps W}.

Lemma mp_slots : 0 <= MP <= INVALID_PROPOSAL_INDEX.
Proof. unfold INVALID_PROPOSAL_INDEX. lia. Qed.
Lemma ccf_votes : 0 < NC < INVALID_VOTE_INDEX.
Proof. unfold INVALID_VOTE_INDEX. lia. Qed.
Lemma ccf_votes_le : 0 <= NC <= INVALID_VOTE_INDEX.
Proof. pose proof ccf_votes. lia. Qed.
Lemma ccf_nonneg : 0 <= NC.
Proof. lia. Qed.

#[local] Existing Instance CcfProposalDataT.
#[local] Instance ccf_voters : VoterLaws (CcfProposersAndVotersT NC MP) MP NC := by_computors_laws MP NC mp_slots ccf_votes_le.
#[local] Instance ccf_data : ProposalDataLaws CcfProposalDataT NC := DataYesNo_laws NC ccf_nonneg.
Notation voting_ok := (voting_ok (HL := ccf_voters) MP NC).
Notation in_slots i := (0 <= i < MP).
Notation votes_for := (votes_for (D := CcfProposalDataT) NC).
Notation votes_cast := (votes_cast (D := CcfProposalDataT) NC).
Notation transfer_accepted := (transfer_accepted NC QUORUM MP).
Implicit Types (pv : ProposalVoting (list Z)) (st : CcfState) (w : W).

(** ** What a vote decides: the code accepts a majority for the transfer, and a tie as well (the comment in the source asks for more votes for the transfer than against it). *)
Definition majority_for pv (p : Z) : Prop := votes_for pv p 0 < votes_for pv p 1.
Definition tied pv (p : Z) : Prop := votes_for pv p 0 = votes_for pv p 1.
Definition quorum_for pv (p : Z) : Prop :=
  cls (p_type (proposal_in pv p)) = Transfer /\ QUORUM <= votes_cast pv p /\ (majority_for pv p \/ tied pv p) /\ QUORUM / 2 < votes_for pv p 1.
#[local] Instance quorum_for_dec pv p : Decision (quorum_for pv p).
Proof. unfold quorum_for, majority_for, tied. apply _. Defined.

Lemma transfer_accepted_spec p pv : voting_ok pv -> in_slots p -> epoch_of pv p <> 0 ->
  transfer_accepted p pv = if decide (quorum_for pv p) then Some (proposal_in pv p) else None.
Proof.
  intros Hok Hp He. assert (known MP pv p) as Hk by (split; [lia|done]). unfold ComputorControlledFund.transfer_accepted, getProposal.
  rewrite (proj2 (unknown_proposal_spec MP p pv) Hk). cbn [negb]. fold (proposal_in pv p).
  destruct (Z.eqb_spec (cls (p_type (proposal_in pv p))) Transfer) as [Ht|]; [|by rewrite decide_False by (unfold quorum_for; tauto)].
  assert (p_type (proposal_in pv p) <> VariableScalarMean) as Hs by (intros E; by rewrite E in Ht).
  destruct (summary_options MP NC ltac:(lia) p (mkSummary 0 0 0 0 0 (replicate 8 0)) pv Hok ltac:(lia) Hk Hs) as (s & -> & (_ & _ & _ & _ & ->) & Hc & _). rewrite !Hc by lia. cbn [negb].
  destruct (Z.ltb_spec (votes_cast pv p) QUORUM); [by rewrite decide_False by (unfold quorum_for; lia)|].
  destruct (Z.ltb_spec (votes_for pv p 1) (votes_for pv p 0)); [by rewrite decide_False by (unfold quorum_for, majority_for, tied; lia)|].
  destruct (Z.ltb_spec (QUORUM / 2) (votes_for pv p 1)); [by rewrite decide_True by (unfold quorum_for, majority_for, tied; lia)|by rewrite decide_False by (unfold quorum_for; lia)].
Qed.

(** ** The payments of an epoch *)
Definition accepted_in (e : Z) st (p : Z) : Prop := epoch_of (ccf_proposals st) p = e /\ quorum_for (ccf_proposals st) p.
#[local] Instance accepted_in_dec e st p : Decision (accepted_in e st p).
Proof. unfold accepted_in. apply _. Defined.
Notation sub_data st p := ((subscriptionProposals st).[p]).
Definition slot_transfer (e : Z) st (p : Z) : option (Z * Z) :=
  if decide (accepted_in e st p /\ sp_proposerId (sub_data st p) = 0) then Some (destination (proposal_in (ccf_proposals st) p), amount (proposal_in (ccf_proposals st) p)) else None.
Definition slot_subscription (e : Z) st (p : Z) : option SubscriptionProposalData :=
  if decide (accepted_in e st p /\ sp_proposerId (sub_data st p) <> 0) then Some (sub_data st p) else None.

(** The transfers of a list of payments one after the other, with the results *)
Fixpoint pay_list (ps : list (Z * Z)) w : option (W * list Z) :=
  match ps with
  | [] => Some (w, [])
  | p :: ps => match fund_transfer p.1 p.2 w with
               | Some (w, r) => match pay_list ps w with Some (w, rs) => Some (w, r :: rs) | None => None end
               | None => None
               end
  end.

Lemma pay_list_app ps qs w : pay_list (ps ++ qs) w = match pay_list ps w with
  | Some (w, rs) => match pay_list qs w with Some (w, ss) => Some (w, rs ++ ss) | None => None end
  | None => None end.
Proof.
  revert w. induction ps as [|p ps IH]; intros w; cbn [app pay_list]; [by destruct (pay_list qs w) as [[? ?]|]|].
  destruct (fund_transfer _ _ w) as [[w1 r]|]; [|done]. rewrite IH. destruct (pay_list ps w1) as [[w2 rs]|]; [|done]. by destruct (pay_list qs w2) as [[? ?]|].
Qed.
Lemma pay_list_length ps : forall w w' rs, pay_list ps w = Some (w', rs) -> length ps = length rs.
Proof.
  induction ps as [|p ps IH]; intros w w' rs; cbn [pay_list]; [by intros [= _ <-]|]. destruct (fund_transfer _ _ w) as [[w1 r]|]; [|done].
  destruct (pay_list ps w1) as [[w2 rs']|] eqn:E; [|done]. intros [= _ <-]. cbn. f_equal. by apply (IH w1 w2).
Qed.

(** ** The loop over the proposals *)
Definition slot_step (q : QpiContext) (p : Z) st w : option (CcfState * W) :=
  if epoch_of (ccf_proposals st) p =? q_epoch q then
    match transfer_accepted p (ccf_proposals st) with Some proposal => accept_proposal q p proposal st w | None => Some (st, w) end
  else Some (st, w).
Fixpoint slot_steps (q : QpiContext) (l : list Z) st w : option (CcfState * W) :=
  match l with [] => Some (st, w) | p :: l => match slot_step q p st w with Some (st, w) => slot_steps q l st w | None => None end end.

Lemma slot_steps_app q l1 l2 : forall st w, slot_steps q (l1 ++ l2) st w = match slot_steps q l1 st w with Some (st, w) => slot_steps q l2 st w | None => None end.
Proof. induction l1 as [|p l1 IH]; intros st w; cbn [app slot_steps]; [done|]. destruct (slot_step q p st w) as [[? ?]|]; [apply IH|done]. Qed.

Lemma slot_steps_none q a n st w : (forall i, a <= i < a + Z.of_nat n -> epoch_of (ccf_proposals st) i <> q_epoch q) -> slot_steps q (seqZ a (Z.of_nat n)) st w = Some (st, w).
Proof.
  revert a. induction n as [|n IH]; intros a Hno; [done|]. rewrite seqZ_cons by lia. cbn [slot_steps]. unfold slot_step. rewrite (proj2 (Z.eqb_neq _ _)) by (apply Hno; lia).
  replace (Z.pred (Z.of_nat (S n))) with (Z.of_nat n) by lia. apply IH. intros i Hi. apply Hno. lia.
Qed.

Lemma end_epoch_proposals_steps q fuel : 0 < q_epoch q -> forall prev st w, -1 <= prev < MP -> MP - (prev + 1) < Z.of_nat fuel ->
  end_epoch_proposals NC QUORUM MP fuel q prev st w = slot_steps q (seqZ (prev + 1) (MP - (prev + 1))) st w.
Proof.
  intros Hq. induction fuel as [|fuel IH]; intros prev st w Hp Hf; [lia|]. cbn [end_epoch_proposals]. unfold nextProposalIndex. rewrite (proj2 (Z.eqb_neq (q_epoch q) 0)) by lia.
  destruct (next_index_spec MP mp_slots (fun idx => epoch_of (ccf_proposals st) idx =? q_epoch q) prev) as [(Hr & HP & Hlow)|[-> Hno]].
  - set (r := next_index _ _ _) in *. rewrite (proj2 (Z.leb_le 0 r)) by lia. replace (Z.max 0 (prev + 1)) with (prev + 1) in * by lia.
    replace (MP - (prev + 1)) with (Z.of_nat (Z.to_nat (r - (prev + 1))) + (MP - r)) by lia. rewrite seqZ_app by lia. rewrite slot_steps_app.
    rewrite slot_steps_none by (intros i Hi; specialize (Hlow i ltac:(lia)); by apply Z.eqb_neq in Hlow). replace (prev + 1 + Z.of_nat (Z.to_nat (r - (prev + 1)))) with r by lia.
    rewrite (seqZ_cons r) by lia. cbn [slot_steps]. unfold slot_step at 1. rewrite HP. replace (Z.succ r) with (r + 1) by lia. replace (Z.pred (MP - r)) with (MP - (r + 1)) by lia.
    destruct (match transfer_accepted r (ccf_proposals st) with Some proposal => _ | None => _ end) as [[st1 w1]|]; [|done]. apply IH; lia.
  - cbn [Z.leb Z.compare]. replace (Z.max 0 (prev + 1)) with (prev + 1) in Hno by lia. replace (MP - (prev + 1)) with (Z.of_nat (Z.to_nat (MP - (prev + 1)))) by lia.
    rewrite slot_steps_none; [done|]. intros i Hi. specialize (Hno i ltac:(lia)). by apply Z.eqb_neq in Hno.
Qed.

(** ** States of the fund *)

(** The data of a subscription belongs to the proposal of its slot. *)
Definition data_ok st (p : Z) : Prop := let sp := sub_data st p in sp_proposerId sp <> 0 -> epoch_of (ccf_proposals st) p <> 0 ->
  epoch_of (ccf_proposals st) p <= sp_startEpoch sp /\ sp_destination sp = destination (proposal_in (ccf_proposals st) p) /\ sp_url sp = p_url (proposal_in (ccf_proposals st) p) /\
  0 <= sp_weeksPerPeriod sp < 256 /\ 0 <= sp_numberOfPeriods sp < 2 ^ 32.
Record fund_ok (e : Z) st : Prop := {
  f_voting : voting_ok (ccf_proposals st);
  f_slots : alen (subscriptionProposals st) = 128;
  f_data p : in_slots p -> data_ok st p;
  f_len : alen (activeSubscriptions st) = CCF_MAX_SUBSCRIPTIONS;
  f_distinct : distinct (activeSubscriptions st);
  f_schedule : Forall (on_schedule e) (activeSubscriptions st) }.

Lemma get7 {A} `{Inhabited A} (l : list A) p : 0 <= p < 128 -> Array.get 7 l p = l.[p].
Proof. intros Hp. unfold Array.get. by rewrite Array.land_index. Qed.
Lemma set7 {A} (l : list A) p x : 0 <= p < 128 -> Array.set 7 l p x = l.[p := x].
Proof. intros Hp. unfold Array.set. by rewrite Array.land_index. Qed.

(** The data of one slot is replaced. *)
Lemma data_replaced st st' p sp : alen (subscriptionProposals st) = 128 -> in_slots p -> subscriptionProposals st' = Array.set 7 (subscriptionProposals st) p sp ->
  alen (subscriptionProposals st') = 128 /\ sub_data st' p = sp /\ forall j, j <> p -> sub_data st' j = sub_data st j.
Proof.
  intros Hl Hp ->. rewrite set7 by lia. split; [by rewrite alen_aset|]. split; [by rewrite aget_aset_eq by lia|]. intros j Hj. by rewrite aget_aset_ne.
Qed.

Definition enter st (l : list SubscriptionData) (sp : SubscriptionProposalData) : list SubscriptionData := activeSubscriptions (accept_subscription sp (with_subs l st)).
Lemma enter_active sp st st0 : activeSubscriptions (accept_subscription sp st) = enter st0 (activeSubscriptions st) sp.
Proof.
  unfold enter, accept_subscription, delete_subscription, with_subscription, with_subs. cbn [activeSubscriptions]. destruct (_ || _); cbv zeta.
  - generalize (search (fun i => (sd_destination (Array.get 10 (activeSubscriptions st) i) =? sp_destination sp) && negb (sd_destination (Array.get 10 (activeSubscriptions st) i) =? 0)) (Z.to_nat CCF_MAX_SUBSCRIPTIONS) 0 (-1)).
    intros i. by destruct (0 <=? i).
  - generalize (find_place (Z.to_nat CCF_MAX_SUBSCRIPTIONS) (activeSubscriptions st) (sp_destination sp) 0 (-1)). intros i. by destruct (0 <=? i).
Qed.

Lemma accepted_destination e st p : fund_ok e st -> in_slots p -> 0 < e -> accepted_in e st p -> destination (proposal_in (ccf_proposals st) p) <> 0.
Proof.
  intros Hf Hp He [Ee (Ht & _)]. destruct (known_slot MP NC ltac:(lia) (ccf_proposals st) p (f_voting e st Hf) ltac:(lia) ltac:(split; lia)) as [Hval _].
  change (checkValidityYesNo (proposal_in (ccf_proposals st) p) = true) in Hval. unfold checkValidityYesNo in Hval. rewrite Ht in Hval. cbn [Z.eqb Transfer GeneralOptions MultiVariables orb Pos.eqb] in Hval.
  destruct (Z.eqb_spec (destination (proposal_in (ccf_proposals st) p)) NULL_ID); [by rewrite andb_false_r in Hval|done].
Qed.

Lemma fresh_on_schedule e sp : e <= sp_startEpoch sp -> 0 < e -> ~ cancels sp -> 0 <= sp_weeksPerPeriod sp < 256 -> 0 <= sp_numberOfPeriods sp < 2 ^ 32 -> on_schedule e (fresh sp).
Proof.
  intros He H0 Hc Hw Hn _. unfold fresh, cancels in *. cbn [sd_weeksPerPeriod sd_numberOfPeriods sd_startEpoch sd_currentPeriod]. split; [lia|]. split; [lia|]. split; [lia|].
  assert ((e - 1 - sp_startEpoch sp) / sp_weeksPerPeriod sp < 0) by (apply Z.div_lt_upper_bound; lia). lia.
Qed.

Lemma holds_schedule e m l : holds m l -> (forall d s, m !! d = Some s -> on_schedule e s) -> Forall (on_schedule e) l.
Proof.
  intros Hh Hm. apply Forall_lookup. intros i s Hi Hd. pose proof (lookup_lt_Some _ _ _ Hi). pose proof (h_len m l Hh) as Hlen. unfold alen in Hlen.
  pose proof (h_get m l Hh (Z.of_nat i) ltac:(lia)) as Hg. rewrite aget_nonneg, Nat2Z.id, (list_lookup_total_correct _ _ _ Hi) in Hg by lia. by apply (Hm _ _ (Hg Hd)).
Qed.

(** An accepted subscription keeps the table on schedule. *)
Lemma accept_keeps e m sp st : holds m (activeSubscriptions st) -> Forall (on_schedule e) (activeSubscriptions st) -> sp_destination sp <> 0 -> 
  (~ cancels sp -> on_schedule e (fresh sp)) ->
  exists l, accept_subscription sp st = with_subs l st /\ holds (subscribe m sp) l /\ Forall (on_schedule e) l.
Proof.
  intros Hh Hs Hd Hf. destruct (accept_subscription_spec m sp st Hh Hd) as (l & -> & Hl). exists l. split; [done|]. split; [done|]. apply (holds_schedule e _ _ Hl). intros d s.
  assert (m !! d = Some s -> on_schedule e s) as Hm.
  { intros (_ & _ & i & Hi & <-)%(h_place _ _ Hh). pose proof (h_len _ _ Hh) as Hlen. unfold alen in Hlen. rewrite aget_nonneg by lia. by apply Forall_lookup_total_1; [|lia]. }
  unfold subscribe. case_decide; [|case_decide; [|exact Hm]]; [intros [_ ?]%lookup_delete_Some; by apply Hm|]. intros [[_ <-]|[_ ?]]%lookup_insert_Some; [by apply Hf|by apply Hm].
Qed.

(** One slot *)
Lemma slot_step_spec q p st w m : fund_ok (q_epoch q) st -> 0 < q_epoch q -> in_slots p -> holds m (activeSubscriptions st) ->
  match pay_list (option_list (slot_transfer (q_epoch q) st p)) w with
  | None => slot_step q p st w = None
  | Some (w', _) => exists st', slot_step q p st w = Some (st', w') /\ ccf_proposals st' = ccf_proposals st /\ fund_ok (q_epoch q) st' /\
      (forall j, j <> p -> sub_data st' j = sub_data st j) /\
      activeSubscriptions st' = fold_left (enter st) (option_list (slot_subscription (q_epoch q) st p)) (activeSubscriptions st) /\
      holds (fold_left subscribe (option_list (slot_subscription (q_epoch q) st p)) m) (activeSubscriptions st')
  end.
Proof.
  intros Hf He Hp Hh. assert (exists st', Some (st, w) = Some (st', w) /\ ccf_proposals st' = ccf_proposals st /\ fund_ok (q_epoch q) st' /\ (forall j, j <> p -> sub_data st' j = sub_data st j) /\
    activeSubscriptions st' = activeSubscriptions st /\ holds m (activeSubscriptions st')) as Hskip by (by exists st).
  unfold slot_step, slot_transfer, slot_subscription. destruct (Z.eqb_spec (epoch_of (ccf_proposals st) p) (q_epoch q)) as [Ee|Ee].
  2: { rewrite !decide_False by (intros [[? _] _]; done). exact Hskip. }
  rewrite transfer_accepted_spec by (first [apply Hf|done|lia]). destruct (decide (quorum_for (ccf_proposals st) p)) as [Hq|Hq].
  2: { rewrite !decide_False by (intros [[_ ?] _]; done). exact Hskip. }
  assert (accepted_in (q_epoch q) st p) as Ha by done. unfold accept_proposal. cbv beta iota zeta. rewrite (proj2 (Z.ltb_lt p 128)) by lia. rewrite get7 by lia. cbn [andb].
  pose proof (f_slots _ _ Hf) as Hlen. destruct (Z.eqb_spec (sp_proposerId (sub_data st p)) 0) as [E|E]; cbn [negb].
  - rewrite decide_True by done. rewrite (decide_False (P := accepted_in _ _ _ /\ _ <> 0)) by tauto. cbn [option_list option_rect pay_list fst snd].
    destruct (fund_transfer _ _ w) as [[w1 r]|]; [|done]. eexists. split; [done|]. split; [done|]. split; [|done]. destruct Hf as [H1 H2 H3 H4 H5 H6]. by split.
  - rewrite decide_False by tauto. rewrite decide_True by done. cbn [option_list option_rect pay_list fold_left]. destruct (f_data _ _ Hf p Hp E ltac:(lia)) as (D1 & D2 & _ & D3 & D4).
    destruct (accept_keeps (q_epoch q) m (sub_data st p) st Hh (f_schedule _ _ Hf)) as (l & El & Hl & Hsl); [rewrite D2; by apply (accepted_destination (q_epoch q))|intros Hc; apply fresh_on_schedule; (done || lia)|].
    eexists. split; [done|]. split; [by rewrite El|]. rewrite El. destruct (data_replaced st (with_subproposal p zero_subproposal (with_subs l st)) p zero_subproposal Hlen Hp eq_refl) as (L1 & L2 & L3).
    split; [|split; [done|split; [|done]]].
    + destruct Hf as [H1 H2 H3 H4 H5 H6]. split; [done|done| |exact (h_len _ _ Hl)|exact (h_unique _ _ Hl)|done].
      intros j Hj. destruct (decide (j = p)) as [->|Hjp]; [unfold data_ok; by rewrite L2|]. unfold data_ok. rewrite (L3 j Hjp). by apply H3.
    + rewrite <- (enter_active (sub_data st p) st st), El. done.
Qed.

Lemma slot_ext e st st' p : ccf_proposals st' = ccf_proposals st -> sub_data st' p = sub_data st p ->
  slot_transfer e st' p = slot_transfer e st p /\ slot_subscription e st' p = slot_subscription e st p.
Proof.
  intros E1 E2. unfold slot_transfer, slot_subscription. rewrite E1, E2. assert (accepted_in e st' p <-> accepted_in e st p) as Ha by (unfold accepted_in; by rewrite E1).
  split; (case_decide as H1; case_decide as H2; [done|tauto|tauto|done]).
Qed.

Lemma omap_cons_list {A B} (f : A -> option B) x l : omap f (x :: l) = option_list (f x) ++ omap f l.
Proof. cbn [omap list_omap]. by destruct (f x). Qed.

Lemma enter_ext st st' l sps : fold_left (enter st') sps l = fold_left (enter st) sps l.
Proof. revert l. induction sps as [|sp sps IH]; intros l; [done|]. cbn [fold_left]. rewrite IH. f_equal. unfold enter at 1. by rewrite (enter_active sp _ st). Qed.

Lemma slot_steps_spec q l : 0 < q_epoch q -> NoDup l -> (forall p, p ∈ l -> in_slots p) -> forall st w m, fund_ok (q_epoch q) st -> holds m (activeSubscriptions st) ->
  match pay_list (omap (slot_transfer (q_epoch q) st) l) w with
  | None => slot_steps q l st w = None
  | Some (w', _) => exists st', slot_steps q l st w = Some (st', w') /\ ccf_proposals st' = ccf_proposals st /\ fund_ok (q_epoch q) st' /\
      activeSubscriptions st' = fold_left (enter st) (omap (slot_subscription (q_epoch q) st) l) (activeSubscriptions st) /\
      holds (fold_left subscribe (omap (slot_subscription (q_epoch q) st) l) m) (activeSubscriptions st')
  end.
Proof.
  intros He. induction 1 as [|p l Hp Hn IH]; intros Hin st w m Hf Hh; [by exists st|]. rewrite !omap_cons_list, pay_list_app. cbn [slot_steps].
  pose proof (slot_step_spec q p st w m Hf He (Hin p ltac:(by left)) Hh) as Hs. destruct (pay_list (option_list _) w) as [[w1 rs1]|]; [|by rewrite Hs].
  destruct Hs as (st1 & -> & E1 & Hf1 & Hd1 & Ha1 & Hh1). specialize (IH ltac:(intros j Hj; apply Hin; by right) st1 w1 _ Hf1 Hh1).
  assert (forall j, j ∈ l -> slot_transfer (q_epoch q) st1 j = slot_transfer (q_epoch q) st j /\ slot_subscription (q_epoch q) st1 j = slot_subscription (q_epoch q) st j) as Hext.
  { intros j Hj. apply slot_ext; [done|]. apply Hd1. by intros ->. }
  rewrite (list_omap_ext (slot_transfer (q_epoch q) st1) (slot_transfer (q_epoch q) st) l l) in IH by (apply Forall_Forall2_diag, Forall_forall; intros j Hj; apply Hext, Hj).
  rewrite (list_omap_ext (slot_subscription (q_epoch q) st1) (slot_subscription (q_epoch q) st) l l) in IH by (apply Forall_Forall2_diag, Forall_forall; intros j Hj; apply Hext, Hj).
  destruct (pay_list (omap _ l) w1) as [[w2 rs2]|]; [|exact IH]. destruct IH as (st2 & -> & E2 & Hf2 & Ha2 & Hh2). exists st2. split; [done|]. split; [congruence|]. split; [done|].
  rewrite !fold_left_app. split; [|done]. rewrite Ha2, Ha1. apply enter_ext.
Qed.

(** ** The loop over the subscriptions *)
Lemma pay_none q n : forall i, for_loop n i (pay_subscription q) (None (A := CcfState * W)) = None.
Proof. induction n as [|n IH]; intros i; [done|]. cbn [for_loop]. apply IH. Qed.

(** One subscription, at the place behind [d] *)
Lemma pay_subscription_spec q d s r st w : activeSubscriptions st = d ++ s :: r -> alen (d ++ s :: r) = CCF_MAX_SUBSCRIPTIONS ->
  match due_period (q_epoch q) s with
  | None => pay_subscription q (alen d) (Some (st, w)) = Some (st, w)
  | Some k => match fund_transfer (sd_destination s) (s64 (sd_amountPerPeriod s)) w with
      | None => pay_subscription q (alen d) (Some (st, w)) = None
      | Some (w', x) => exists st', pay_subscription q (alen d) (Some (st, w)) = Some (st', w') /\ ccf_proposals st' = ccf_proposals st /\ subscriptionProposals st' = subscriptionProposals st /\
          activeSubscriptions st' = d ++ (if (0 <=? x) && (s32 (sd_numberOfPeriods s) - 1 <=? k) then zero_subscription else with_currentPeriod k s) :: r
      end
  end.
Proof.
  intros Ha Hlen. rewrite alen_app in Hlen. assert (place (alen d)) as Hp by (unfold alen in *; cbn [length] in Hlen; lia). unfold pay_subscription. rewrite Ha, get10, aget_middle by done. cbv zeta.
  destruct (due_period (q_epoch q) s) as [k|]; [|done]. destruct (fund_transfer _ _ w) as [[w' x]|]; [|done]. eexists. split; [done|].
  change (sd_currentPeriod (with_currentPeriod k s)) with k. change (sd_numberOfPeriods (with_currentPeriod k s)) with (sd_numberOfPeriods s).
  destruct (_ && _); (split; [done|]; split; [done|]); cbn [with_payment with_subscription activeSubscriptions]; by rewrite Ha, !set10, !aset_middle by done.
Qed.

Lemma pay_loop q r : forall d st w, activeSubscriptions st = d ++ r -> alen (d ++ r) = CCF_MAX_SUBSCRIPTIONS ->
  match pay_list (omap (due_payment (q_epoch q)) r) w with
  | None => for_loop (length r) (alen d) (pay_subscription q) (Some (st, w)) = None
  | Some (w', rs) => exists st', for_loop (length r) (alen d) (pay_subscription q) (Some (st, w)) = Some (st', w') /\ ccf_proposals st' = ccf_proposals st /\
      subscriptionProposals st' = subscriptionProposals st /\ activeSubscriptions st' = d ++ settle (q_epoch q) r rs
  end.
Proof.
  induction r as [|s r IH]; intros d st w Ha Hlen; [by exists st|]. rewrite omap_cons_list. cbn [length for_loop settle].
  pose proof (pay_subscription_spec q d s r st w Ha Hlen) as Hs. unfold due_payment at 1. replace (alen d + 1) with (alen (d ++ [s])) by (by rewrite alen_app).
  assert (forall t, d ++ t :: r = (d ++ [t]) ++ r) as Happ by (intros t; by rewrite <- app_assoc). assert (forall t, alen ((d ++ [t]) ++ r) = CCF_MAX_SUBSCRIPTIONS) as Hlen'.
  { intros t. rewrite <- Hlen, !alen_app. unfold alen. cbn [length]. lia. }
  destruct (due_period (q_epoch q) s) as [k|]; cbn [option_list option_rect app pay_list fst snd].
  - destruct (fund_transfer _ _ w) as [[w1 x]|]; [|rewrite Hs; apply pay_none]. destruct Hs as (st1 & -> & E1 & E2 & E3). rewrite Happ in E3.
    set (t := if (0 <=? x) && _ then _ else _) in *. replace (alen (d ++ [s])) with (alen (d ++ [t])) by (by rewrite !alen_app).
    specialize (IH (d ++ [t]) st1 w1 E3 (Hlen' t)). destruct (pay_list _ w1) as [[w2 rs]|]; [|done]. destruct IH as (st2 & -> & F1 & F2 & F3). exists st2. split; [done|]. split; [congruence|].
    split; [congruence|]. by rewrite F3, <- app_assoc.
  - rewrite Hs. rewrite Happ in Ha. specialize (IH (d ++ [s]) st w Ha (Hlen' s)). destruct (pay_list _ w) as [[w2 rs]|]; [|done].
    destruct IH as (st2 & -> & F1 & F2 & F3). exists st2. split; [done|]. split; [done|]. split; [done|]. by rewrite F3, <- app_assoc.
Qed.

(** ** The end of an epoch *)
Definition one_time (e : Z) st : list (Z * Z) := omap (slot_transfer e st) (seqZ 0 MP).
Definition new_subscriptions (e : Z) st : list SubscriptionProposalData := omap (slot_subscription e st) (seqZ 0 MP).
Definition table_after (e : Z) st : list SubscriptionData := fold_left (enter st) (new_subscriptions e st) (activeSubscriptions st).
Definition regular (e : Z) st : list (Z * Z) := omap (due_payment e) (table_after e st).

Lemma subscription_allowed e st p sp : fund_ok e st -> 0 < e -> in_slots p -> slot_subscription e st p = Some sp -> sp_destination sp <> 0 /\ (~ cancels sp -> on_schedule e (fresh sp)).
Proof.
  intros Hf He Hp. unfold slot_subscription. case_decide as Hc; [|done]. destruct Hc as [Ha Hn]. intros [= <-]. destruct (f_data _ _ Hf p Hp Hn ltac:(destruct Ha; lia)) as (D1 & D2 & _ & D3 & D4).
  rewrite D2. split; [by apply (accepted_destination e)|]. intros Hc. apply fresh_on_schedule; destruct Ha; (done || lia).
Qed.

Lemma table_spec e st m : fund_ok e st -> 0 < e -> holds m (activeSubscriptions st) ->
  holds (fold_left subscribe (new_subscriptions e st) m) (table_after e st) /\ Forall (on_schedule e) (table_after e st).
Proof.
  intros Hf He. unfold table_after, new_subscriptions. assert (Forall (fun sp => sp_destination sp <> 0 /\ (~ cancels sp -> on_schedule e (fresh sp))) (omap (slot_subscription e st) (seqZ 0 MP))) as Hall.
  { apply Forall_forall. intros sp (p & Hp%elem_of_seqZ & E)%list_elem_of_omap. by apply (subscription_allowed e st p); [|lia..|]. }
  pose proof (f_schedule _ _ Hf) as Hs. revert Hs m. generalize (activeSubscriptions st). induction Hall as [|sp sps [Hd Hfr] _ IH]; intros l Hs m Hh; [done|]. cbn [fold_left].
  destruct (accept_keeps e m sp (with_subs l st) Hh Hs Hd Hfr) as (l' & E & Hl & Hs'). unfold enter at 2 4. rewrite E. by apply IH.
Qed.

Lemma end_epoch_spec q st w : fund_ok (q_epoch q) st -> 0 < q_epoch q < 2 ^ 16 ->
  match pay_list (one_time (q_epoch q) st ++ regular (q_epoch q) st) w with
  | None => END_EPOCH NC QUORUM MP q st w = None
  | Some (w', rs) => exists st', END_EPOCH NC QUORUM MP q st w = Some (st', w') /\ ccf_proposals st' = ccf_proposals st /\ fund_ok (q_epoch q + 1) st' /\
      activeSubscriptions st' = settle (q_epoch q) (table_after (q_epoch q) st) (drop (length (one_time (q_epoch q) st)) rs)
  end.
Proof.
  intros Hf He. destruct (table_map _ (f_len _ _ Hf) (f_distinct _ _ Hf)) as [m Hm]. unfold END_EPOCH.
  rewrite end_epoch_proposals_steps by lia. replace (-1 + 1) with 0 by lia. rewrite Z.sub_0_r, pay_list_app.
  pose proof (slot_steps_spec q (seqZ 0 MP) ltac:(lia) (NoDup_seqZ 0 MP) ltac:(intros p Hp%elem_of_seqZ; lia) st w m Hf Hm) as Hs. fold (one_time (q_epoch q) st) in Hs.
  destruct (pay_list (one_time (q_epoch q) st) w) as [[w1 rs1]|] eqn:E1; [|rewrite Hs; apply pay_none]. destruct Hs as (st1 & -> & P1 & Hf1 & Ha & _).
  fold (new_subscriptions (q_epoch q) st) in Ha. fold (table_after (q_epoch q) st) in Ha. pose proof (f_len _ _ Hf1) as Hlen1. rewrite Ha in Hlen1.
  pose proof (pay_loop q (table_after (q_epoch q) st) [] st1 w1 Ha Hlen1) as Hp. fold (regular (q_epoch q) st) in Hp. change (alen []) with 0 in Hp.
  replace (length (table_after (q_epoch q) st)) with (Z.to_nat CCF_MAX_SUBSCRIPTIONS) in Hp by (unfold alen in Hlen1; lia).
  destruct (pay_list (regular (q_epoch q) st) w1) as [[w2 rs2]|] eqn:E2; [|done]. destruct Hp as (st2 & -> & P2 & S2 & A2). cbn [app] in A2. exists st2. split; [done|]. split; [congruence|].
  rewrite drop_app_length' by (by apply (pay_list_length _ w w1)). split; [|done]. destruct Hf1 as [H1 H2 H3 H4 H5 H6]. rewrite Ha in H5, H6.
  destruct (settle_distinct (q_epoch q) _ rs2 Hlen1 H5) as [L D]. split; [by rewrite P2|by rewrite S2| |by rewrite A2|by rewrite A2|].
  - intros p Hp. unfold data_ok. rewrite P2, S2. by apply H3.
  - rewrite A2. apply settle_on_schedule; [done|done|]. by apply (pay_list_length _ w1 w2).
Qed.

(** ** Proposals and votes *)
Definition input_ok (input : SetProposal_input) : Prop := 0 <= weeksPerPeriod input < 256 /\ 0 <= numberOfPeriods input < 2 ^ 32.

Lemma fund_ok_slot e st pv' st' p : fund_ok e st -> in_slots p -> voting_ok pv' -> (forall j, in_slots j -> j <> p -> same_slot (HL := ccf_voters) MP NC (ccf_proposals st) pv' j) ->
  ccf_proposals st' = pv' -> activeSubscriptions st' = activeSubscriptions st -> alen (subscriptionProposals st') = 128 -> (forall j, j <> p -> sub_data st' j = sub_data st j) -> data_ok st' p -> fund_ok e st'.
Proof.
  intros [H1 H2 H3 H4 H5 H6] Hp Hv Hsame <- Ea Hl Hd Hdp. split; [done|done| |by rewrite Ea..]. intros j Hj. destruct (decide (j = p)) as [->|Hjp]; [done|].
  unfold data_ok. rewrite (Hd j Hjp). destruct (Hsame j Hj Hjp) as (E & _). unfold epoch_of, proposal_in. rewrite E. by apply H3.
Qed.

(** The data of at most the slot of the proposal changes. *)
Lemma subscription_data_effect x input p st : in_slots p -> alen (subscriptionProposals st) = 128 -> let st' := (set_subscription_data x input p st).1 in
  ccf_proposals st' = ccf_proposals st /\ activeSubscriptions st' = activeSubscriptions st /\ alen (subscriptionProposals st') = 128 /\ (forall j, j <> p -> sub_data st' j = sub_data st j) /\
  (p_epoch (in_proposal input) <> 0 -> sub_data st' p = if isSubscription input
     then mkSubProposal x (destination (in_proposal input)) (p_url (in_proposal input)) (weeksPerPeriod input) (numberOfPeriods input) (amountPerPeriod input) (startEpoch input) else zero_subproposal).
Proof.
  intros Hp Hl. cbv zeta. unfold set_subscription_data. rewrite (proj2 (Z.eqb_neq p INVALID_PROPOSAL_INDEX)) by (unfold INVALID_PROPOSAL_INDEX; lia). cbn [negb andb].
  assert (forall sp, let st' := with_subproposal p sp st in ccf_proposals st' = ccf_proposals st /\ activeSubscriptions st' = activeSubscriptions st /\ alen (subscriptionProposals st') = 128 /\
    (forall j, j <> p -> sub_data st' j = sub_data st j) /\ sub_data st' p = sp) as Hw.
  { intros sp. destruct (data_replaced st (with_subproposal p sp st) p sp Hl Hp eq_refl) as (L1 & L2 & L3). done. }
  rewrite (proj2 (Z.ltb_lt p 128)), (proj2 (Z.leb_le 0 p)) by lia. destruct (isSubscription input); cbn [negb andb].
  - destruct (Z.eqb_spec (p_epoch (in_proposal input)) 0) as [E|E]; [destruct (_ =? x)|]; cbn [fst]; [|done|].
    + destruct (Hw zero_subproposal) as (W1 & W2 & W3 & W4 & _). done.
    + match goal with |- context [with_subproposal p ?sp st] => destruct (Hw sp) as (W1 & W2 & W3 & W4 & W5) end. done.
  - destruct (Hw zero_subproposal) as (W1 & W2 & W3 & W4 & W5). done.
Qed.

Lemma set_proposal_keeps q x inv r input st w st' w' p : fund_ok (q_epoch q) st -> context_ok (VoterLaws := ccf_voters) q -> 0 < q_epoch q -> input_ok input ->
  CcfSetProposal NC MP q x inv r input st w = Some (st', w', p) -> fund_ok (q_epoch q) st'.
Proof.
  intros Hf Hq He [Hw Hn]. unfold CcfSetProposal. destruct (r <? setProposalFee st).
  { destruct (0 <? r); [destruct (fund_transfer _ _ w) as [[? ?]|]; [|done]|]; by intros [= <- _ _]. }
  destruct (if setProposalFee st <? r then _ else _) as [[w1 ?]|]; [|done]. destruct (fund_burn _ w1) as [[w2 ?]|]; [|done].
  destruct (input_allowed (q_epoch q) input) eqn:Hall; cbn [negb]; [|by intros [= <- _ _]].
  assert (forall pv' j, in_slots j -> voting_ok pv' -> (forall i, in_slots i -> i <> j -> same_slot (HL := ccf_voters) MP NC (ccf_proposals st) pv' i) ->
    (let st' := (set_subscription_data x input j (with_proposals pv' st)).1 in ccf_proposals st' = pv' -> data_ok st' j) -> fund_ok (q_epoch q) (set_subscription_data x input j (with_proposals pv' st)).1) as Hslot.
  { intros pv' j Hj Hv Hsame Hd. destruct (subscription_data_effect x input j (with_proposals pv' st) Hj (f_slots _ _ Hf)) as (W1 & W2 & W3 & W4 & _).
    exact (fund_ok_slot (q_epoch q) st pv' _ j Hf Hj Hv Hsame W1 W2 W3 W4 (Hd W1)). }
  assert (set_subscription_data x input INVALID_PROPOSAL_INDEX (with_proposals (ccf_proposals st) st) = (st, INVALID_PROPOSAL_INDEX)) as Hinv by (by destruct st).
  destruct (decide (p_epoch (in_proposal input) = 0)) as [E|E].
  - pose proof (clear_by_proposer (HL := ccf_voters) MP NC mp_slots q x (in_proposal input) (ccf_proposals st) (f_voting _ _ Hf) E) as Hc. destruct (setProposal _ _ _ _ _ _) as [pv' j].
    destruct Hc as [(-> & -> & _)|(Hj & _ & _ & Hok' & He' & _ & Hsame)]; [rewrite Hinv; by intros [= <- _ _]|]. specialize (Hslot pv' j Hj Hok' Hsame).
    destruct (set_subscription_data _ _ _ _) as [st1 j1]. intros [= <- _ _]. apply Hslot. cbn [fst]. intros E1 _. by rewrite E1, He'.
  - pose proof (set_effect (HL := ccf_voters) MP NC mp_slots ccf_votes q x (in_proposal input) (ccf_proposals st) (f_voting _ _ Hf) Hq He E) as Hc. destruct (setProposal _ _ _ _ _ _) as [pv' j].
    destruct Hc as [(-> & -> & _)|(Hj & _ & _ & Hok' & _ & (Hpoll & _) & Hsame)]; [rewrite Hinv; by intros [= <- _ _]|]. specialize (Hslot pv' j Hj Hok' Hsame).
    destruct (subscription_data_effect x input j (with_proposals pv' st) Hj (f_slots _ _ Hf)) as (_ & _ & _ & _ & W5). specialize (W5 E).
    destruct (set_subscription_data _ _ _ _) as [st1 j1]. cbn [fst] in *. intros [= <- _ _]. apply Hslot. intros E1. unfold data_ok. rewrite W5, E1. unfold epoch_of. fold (proposal_in pv' j). rewrite Hpoll.
    destruct (isSubscription input) eqn:Hsub; [|done]. intros _ _. split; [|done]. unfold input_allowed in Hall. rewrite Hsub in Hall.
    destruct (_ && _); [done|]. destruct (Z.ltb_spec (startEpoch input) (q_epoch q)); [done|]. cbn. lia.
Qed.

Lemma ccf_vote_keeps q x inv r v st w st' w' okay : fund_ok (q_epoch q) st -> context_ok (VoterLaws := ccf_voters) q -> 0 < q_epoch q -> 0 <= v_proposalIndex v ->
  CcfVote NC MP q x inv r v st w = Some (st', w', okay) -> fund_ok (q_epoch q) st'.
Proof.
  intros Hf Hq He Hv. unfold CcfVote. destruct (if 0 <? r then _ else _) as [[w1 ?]|]; [|done].
  pose proof (vote_effect (HL := ccf_voters) MP NC mp_slots ccf_votes q x v (ccf_proposals st) (f_voting _ _ Hf) Hq He Hv) as Heff. cbv zeta in Heff.
  destruct (vote _ _ _ _ _ _) as [pv' b]. intros [= <- _ _]. destruct Heff as (_ & H1 & H2). destruct b; [|rewrite H1 by done; by destruct st].
  destruct (H2 eq_refl) as (Hok' & _ & Hst & Hp & _). destruct Hf as [F1 F2 F3 F4 F5 F6]. split; [done|done| |done|done|done]. intros j Hj. unfold data_ok. cbn [with_proposals ccf_proposals subscriptionProposals].
  destruct (decide (j = v_proposalIndex v)) as [->|Hjp].
  - unfold epoch_of. fold (proposal_in pv' (v_proposalIndex v)). rewrite Hp. by apply F3.
  - unfold epoch_of, proposal_in. rewrite Hst by done. by apply F3.
Qed.

(** ** Runs of the fund *)
Inductive fund_reachable : Z -> CcfState -> Prop :=
| fr_init e : 0 < e < 2 ^ 16 -> fund_reachable e (CcfINITIALIZE NC MP)
| fr_set e st q x inv r input w st' w' p : fund_reachable e st -> context_ok (VoterLaws := ccf_voters) q -> q_epoch q = e -> input_ok input ->
    CcfSetProposal NC MP q x inv r input st w = Some (st', w', p) -> fund_reachable e st'
| fr_vote e st q x inv r v w st' w' okay : fund_reachable e st -> context_ok (VoterLaws := ccf_voters) q -> q_epoch q = e -> 0 <= v_proposalIndex v ->
    CcfVote NC MP q x inv r v st w = Some (st', w', okay) -> fund_reachable e st'
| fr_end e st q w st' w' : fund_reachable e st -> q_epoch q = e -> e + 1 < 2 ^ 16 -> END_EPOCH NC QUORUM MP q st w = Some (st', w') -> fund_reachable (e + 1) st'.

Lemma fund_initial e : fund_ok e (CcfINITIALIZE NC MP).
Proof.
  assert (forall i, (replicate 1024 zero_subscription).[i] = zero_subscription) as Hz.
  { intros i. destruct (decide (0 <= i < 1024)) as [Hi|Hi]; [by apply (aget_replicate 1024)|]. rewrite aget_out; [done|]. rewrite alen_replicate. lia. }
  split; cbn [CcfINITIALIZE ccf_proposals subscriptionProposals activeSubscriptions].
  - apply (initial_empty (HL := ccf_voters) MP NC mp_slots).
    + destruct (null_proposers MP) as [?|]; [done|lia].
    + intros p Hp. cbn. rewrite proposers_get_in by done. by rewrite aget_replicate by lia.
  - apply alen_replicate.
  - intros p Hp. unfold data_ok. cbn [CcfINITIALIZE subscriptionProposals]. by rewrite (aget_replicate 128) by lia.
  - apply alen_replicate.
  - intros i j _ _. by rewrite Hz.
  - by apply Forall_replicate.
Qed.

Lemma fund_reachable_ok e st : fund_reachable e st -> 0 < e < 2 ^ 16 /\ fund_ok e st.
Proof.
  induction 1 as [e He|e st q x inv r input w st' w' p _ [He Hf] Hq <- Hin Hs|e st q x inv r v w st' w' okay _ [He Hf] Hq <- Hv Hs|e st q w st' w' _ [He Hf] <- Hlt Hs].
  - split; [done|apply fund_initial].
  - split; [done|]. by apply (set_proposal_keeps q x inv r input st w st' w' p); [|done|lia|..].
  - split; [done|]. by apply (ccf_vote_keeps q x inv r v st w st' w' okay); [|done|lia|..].
  - split; [lia|]. pose proof (end_epoch_spec q st w Hf ltac:(lia)) as He'. rewrite Hs in He'. destruct (pay_list _ w) as [[w1 rs]|]; [|done].
    destruct He' as (st1 & [= <- _] & _ & Hok & _). done.
Qed.

(** C28: The end of an epoch of the computor controlled fund, in every state that the fund can reach, terminates exactly when its transfers do, and performs exactly these transfers, in this order: for every
    slot in ascending order, the one-time transfer of its proposal if it was proposed in this epoch and the quorum accepted it: a quorum of votes, more for than against the transfer or a tie, and more
    than half a quorum for it.  (That a tie is accepted is what the code does; the comment at that place wants more votes for the transfer than against it.)  Then, for every subscription in the order of the table, the period that is due.  The table of subscriptions represents a map from
    destinations: every accepted subscription of this epoch replaces the one of its destination, deletes it if one of its numbers is zero, or is added unless the map is full.  Paid subscriptions
    record their period, and are removed with the successful payment of the last one. *)
Theorem fund_end_epoch e st q w : fund_reachable e st -> q_epoch q = e ->
  (exists m, holds m (activeSubscriptions st) /\ holds (fold_left subscribe (new_subscriptions e st) m) (table_after e st)) /\
  match pay_list (one_time e st ++ regular e st) w with
  | None => END_EPOCH NC QUORUM MP q st w = None
  | Some (w', rs) => exists st', END_EPOCH NC QUORUM MP q st w = Some (st', w') /\ ccf_proposals st' = ccf_proposals st /\
      activeSubscriptions st' = settle e (table_after e st) (drop (length (one_time e st)) rs)
  end.
Proof.
  intros Hr <-. destruct (fund_reachable_ok _ _ Hr) as [He Hf]. destruct (table_map _ (f_len _ _ Hf) (f_distinct _ _ Hf)) as [m Hm]. split; [exists m; split; [done|]; by apply table_spec; [|lia|]|].
  pose proof (end_epoch_spec q st w Hf He) as Hs. destruct (pay_list _ w) as [[w1 rs]|]; [|done]. destruct Hs as (st' & H1 & H2 & _ & H3). exists st'. split; [exact H1|]. split; [exact H2|exact H3].
Qed.

Lemma due_payments_nodup e l : NoDup (map sd_destination (filter (fun s => sd_destination s <> 0) l)) -> NoDup (map fst (omap (due_payment e) l)).
Proof.
  intros Hn. apply (sublist_NoDup _ (map sd_destination (filter (fun s => sd_destination s <> 0) l))); [done|]. clear Hn. induction l as [|s l IH]; [constructor|]. rewrite filter_cons, omap_cons_list.
  unfold due_payment at 1. destruct (due_period e s) as [k|] eqn:E; cbn [option_list app map].
  - rewrite decide_True; [cbn [map fst]; by constructor|]. intros Hz. unfold due_period in E. by rewrite Hz in E.
  - case_decide; [cbn [map]; by constructor|done].
Qed.

(** C29: In every state that the fund can reach, no two subscriptions have the same destination, and the stored current period of each is the last of its periods that began before epoch e.  At the end of
    epoch e the payment of period k of a subscription, an old one or one accepted in this epoch, is due exactly if e is the first epoch of the period, start + k * weeks, and k is less than the number of periods, taken
    as a signed 32-bit number (so a subscription of 2^31 periods or more is never due).  The regular transfers that the end of the epoch attempts are exactly those of the subscriptions that are then due, at most one per
    destination.  They are attempts: a transfer that fails is not repeated, and a subscription that is replaced or deleted loses the periods that it had left. *)
Theorem subscriptions_on_schedule e st : fund_reachable e st -> distinct (activeSubscriptions st) /\
  (forall s, s ∈ activeSubscriptions st \/ s ∈ table_after e st -> sd_destination s <> 0 ->
    sd_currentPeriod s = Z.max (-1) (Z.min ((e - 1 - sd_startEpoch s) / sd_weeksPerPeriod s) (s32 (sd_numberOfPeriods s) - 1)) /\
    forall k, due_period e s = Some k <-> 0 <= k < s32 (sd_numberOfPeriods s) /\ e = sd_startEpoch s + k * sd_weeksPerPeriod s) /\
  (forall d a, (d, a) ∈ regular e st <-> exists s k, s ∈ table_after e st /\ sd_destination s <> 0 /\ d = sd_destination s /\ a = s64 (sd_amountPerPeriod s) /\
    0 <= k < s32 (sd_numberOfPeriods s) /\ e = sd_startEpoch s + k * sd_weeksPerPeriod s) /\
  NoDup (map fst (regular e st)) /\
  forall q w st' w', q_epoch q = e -> END_EPOCH NC QUORUM MP q st w = Some (st', w') -> exists rs, pay_list (one_time e st ++ regular e st) w = Some (w', rs).
Proof.
  intros Hr. destruct (fund_reachable_ok _ _ Hr) as [He Hf]. split; [apply Hf|]. destruct (table_map _ (f_len _ _ Hf) (f_distinct _ _ Hf)) as [m Hm].
  destruct (table_spec e st m Hf ltac:(lia) Hm) as [Hh Ht]. pose proof (f_schedule _ _ Hf) as Hs. rewrite Forall_forall in Ht, Hs.
  assert (forall s, s ∈ activeSubscriptions st \/ s ∈ table_after e st -> sd_destination s <> 0 -> on_schedule e s) as Hos by (intros s [Hin|Hin] _; [by apply Hs|by apply Ht]).
  split; [|split; [|split]].
  - intros s Hin Hd. split; [apply (Hos s Hin Hd Hd)|]. intros k. by apply due_period_spec; [|apply Hos|].
  - intros d a. unfold regular. rewrite list_elem_of_omap. split.
    + intros (s & Hin & E). unfold due_payment in E. destruct (due_period e s) as [k|] eqn:Ek; [|done]. injection E as <- <-. assert (sd_destination s <> 0) as Hd by (intros Hz; unfold due_period in Ek; by rewrite Hz in Ek).
      exists s, k. by apply due_period_spec in Ek as [H1 H2]; [|done|apply Ht|].
    + intros (s & k & Hin & Hd & -> & -> & Hk & E). exists s. split; [done|]. unfold due_payment. by rewrite (proj2 (due_period_spec e s k He ltac:(by apply Ht) Hd) (conj Hk E)).
  - apply due_payments_nodup, distinct_nodup; [exact (h_len _ _ Hh)|exact (h_unique _ _ Hh)].
  - intros q w st' w' <- E. pose proof (end_epoch_spec q st w Hf He) as Hsp. destruct (pay_list _ w) as [[w1 rs]|]; [|congruence]. destruct Hsp as (st1 & E1 & _). rewrite E in E1. injection E1 as _ ->. by exists rs.
Qed.
End fund.

(** ** A fund with four computors, a quorum of three, and the money of a contract *)
#[local] Instance bank_fund : FundOps (@World (@SpectrumState Z)) :=
  let _ := bank_ops in {| fund_transfer d a w := qpi_transfer ex_env 2 ex_call 0 2 d a 2 w; fund_burn a w := burn ex_env 2 2 a 0 w |}.

(** Three payments of 100 to 1000, every second epoch from epoch 100 on *)
Definition w_subscription : SetProposal_input := mkInput (mkProposal (replicate 256 0) 1 (Z.lor Transfer 2) 0 [1000; 0; 0; 0; 0; 0; 0; 0]) true 2 100 100 3.
Definition w_proposed : CcfState :=
  match CcfSetProposal 4 4 (w_context 100 10) 100 100 1000000 w_subscription (CcfINITIALIZE 4 4) ex_world with Some (st, _, _) => st | None => CcfINITIALIZE 4 4 end.
Definition w_yes (st : CcfState) (x : Z) : CcfState :=
  match CcfVote 4 4 (w_context 100 11) x x 0 (mkVote 0 (Z.lor Transfer 2) 10 1) st ex_world with Some (st, _, _) => st | None => st end.
Definition w_fund : CcfState := fold_left w_yes [100; 101; 103] w_proposed.

Lemma w_four_computors : 0 < 4 <= 2 ^ 31.
Proof. lia. Qed.
Lemma w_four_slots : 0 < 4 <= 128.
Proof. lia. Qed.
Lemma w_fund_context e t : context_ok (VoterLaws := ccf_voters 4 4 w_four_computors w_four_slots) (w_context e t).
Proof. intros i j Hi Hj E. cbn in E. lia. Qed.
Notation w_reachable := (fund_reachable 4 3 4 w_four_computors w_four_slots).

Lemma w_fund_reachable : w_reachable 100 w_fund.
Proof.
  assert (forall st x, w_reachable 100 st -> w_reachable 100 (w_yes st x)) as Hv.
  { intros st x Hr. unfold w_yes. destruct (CcfVote _ _ _ _ _ _ _ _ _) as [[[st' w'] okay]|] eqn:E; [|done]. refine (fr_vote 4 3 4 _ _ _ _ _ _ _ _ _ _ _ _ _ Hr (w_fund_context 100 11) eq_refl _ E). cbn. lia. }
  unfold w_fund. cbn [fold_left]. do 3 apply Hv. assert (w_reachable 100 (CcfINITIALIZE 4 4)) as Hi by (apply fr_init; lia). unfold w_proposed.
  destruct (CcfSetProposal _ _ _ _ _ _ _ _ _) as [[[st' w'] p]|] eqn:E; [|done]. refine (fr_set 4 3 4 _ _ _ _ _ _ _ _ _ _ _ _ _ Hi (w_fund_context 100 10) eq_refl _ E). split; cbn; lia.
Qed.

Lemma fund_end_epoch_witness : w_reachable 100 w_fund /\ one_time 4 3 4 100 w_fund ++ regular 4 3 4 100 w_fund = [(1000, 100)] /\
  exists st' w', END_EPOCH 4 3 4 (w_context 100 20) w_fund ex_world = Some (st', w') /\ (activeSubscriptions st').[0] = mkSubscription 1000 (replicate 256 0) 2 3 100 100 0.
Proof.
  split; [apply w_fund_reachable|]. assert (one_time 4 3 4 100 w_fund ++ regular 4 3 4 100 w_fund = [(1000, 100)]) as Ep by (vm_compute; reflexivity). split; [exact Ep|].
  destruct (fund_end_epoch 4 3 4 w_four_computors w_four_slots 100 w_fund (w_context 100 20) ex_world w_fund_reachable eq_refl) as [_ Hs]. rewrite Ep in Hs.
  destruct (pay_list [(1000, 100)] ex_world) as [[w' rs]|] eqn:E; [|exfalso; revert E; vm_compute; discriminate]. destruct Hs as (st' & Hs & _ & Ha). exists st', w'. split; [exact Hs|].
  assert (rs = [400]) as -> by (revert E; vm_compute; congruence). rewrite Ha. vm_compute. reflexivity.
Defined.

Lemma subscriptions_on_schedule_witness : w_reachable 100 w_fund /\ exists s, s ∈ table_after 4 3 4 100 w_fund /\ sd_destination s = 1000 /\ due_period 100 s = Some 0.
Proof.
  split; [apply w_fund_reachable|]. exists (mkSubscription 1000 (replicate 256 0) 2 3 100 100 (-1)).
  assert (mkSubscription 1000 (replicate 256 0) 2 3 100 100 (-1) ∈ table_after 4 3 4 100 w_fund) as Hin.
  { apply list_elem_of_lookup. exists 0%nat. vm_compute. reflexivity. }
  split; [exact Hin|]. split; [reflexivity|].
  destruct (subscriptions_on_schedule 4 3 4 w_four_computors w_four_slots 100 w_fund w_fund_reachable) as (_ & Hd & _ & _). apply Hd; [right; exact Hin|discriminate|]. split; [split; vm_compute; congruence|reflexivity].
Defined.

(** The product of the number of periods and the length of a period is computed in 32 bits, so the limit of 52 epochs does not bound the number of periods. *)
Example subscription_limit_wraps : input_allowed 100 (mkInput (in_proposal w_subscription) true 4 100 100 (2 ^ 30 + 1)) = true.
Proof. vm_compute. reflexivity. Qed.

(** A tie: with four computors and a quorum of three, two votes for and two against a subscription are accepted. *)
Definition w_no (st : CcfState) (x : Z) : CcfState :=
  match CcfVote 4 4 (w_context 100 11) x x 0 (mkVote 0 (Z.lor Transfer 2) 10 0) st ex_world with Some (st, _, _) => st | None => st end.
Definition w_tied : CcfState := fold_left w_no [102; 103] (fold_left w_yes [100; 101] w_proposed).
Example tie_is_accepted : votes_for (D := CcfProposalDataT) 4 (ccf_proposals w_tied) 0 0 = 2 /\ votes_for (D := CcfProposalDataT) 4 (ccf_proposals w_tied) 0 1 = 2 /\ regular 4 3 4 100 w_tied = [(1000, 100)].
Proof. vm_compute. done. Qed.
