(* ===== verification/RevenueSnapshot.v ===== *)
(** * Revenue snapshots (src/revenue.h, remapEpochRevenueData)

    A node saves [EpochRevenueData] as the bytes of the structure.  The number of ticks per epoch is a
    compile-time setting, so a node built with another setting re-lays the saved bytes out:
    the fixed part is copied, each array of ticks is cut or padded with zeros. *)
From S2P Require Import Prelude Bytes Revenue.

Section Snapshot.
(** [NUMBER_OF_COMPUTORS] and [MAX_NUMBER_OF_TICKS_PER_EPOCH] *)
Variable NC : nat.
Variable MAX_TICKS : Z.
Abbreviation NUMBER_OF_COMPUTORS := (Z.of_nat NC).

Definition revenueDataPerTickArrays : Z := 5.
Definition revenueDataFixedSize : Z := 8 + 4 * NUMBER_OF_COMPUTORS * 8.

(** The array of [n] elements of [width] bytes at an offset. *)
Definition read_array (width : nat) (saved : list Z) (off n : Z) : list Z :=
  map (fun i => le_read width saved (off + Z.of_nat width * i)) (seqZ 0 n).

Definition remapEpochRevenueData (saved : list Z) (savedSize : Z) : option EpochRevenueData :=
  let stride := revenueDataPerTickArrays * 2 in
  if (savedSize <? revenueDataFixedSize) || negb ((savedSize - revenueDataFixedSize) mod stride =? 0) then None
  else
    let savedTicks := (savedSize - revenueDataFixedSize) / stride in
    if negb (savedTicks mod NUMBER_OF_COMPUTORS =? 0) then None
    else
      let copyTicks := if savedTicks <? MAX_TICKS then savedTicks else MAX_TICKS in
      let fixed k := read_array 8 saved (8 + 8 * NUMBER_OF_COMPUTORS * k) NUMBER_OF_COMPUTORS in
      let ticks i := read_array 2 saved (revenueDataFixedSize + i * savedTicks * 2) copyTicks ++ replicate (Z.to_nat (MAX_TICKS - copyTicks)) 0 in
      Some (mkEpoch (le_read 4 saved 0) (le_read 4 saved 4) (fixed 0) (fixed 1) (fixed 2) (map s64 (fixed 3))
              (ticks 0) (ticks 1) (ticks 2) (ticks 3) (ticks 4)).
End Snapshot.

(** ** The bytes of the structure *)
Fixpoint le_bytes (n : nat) (v : Z) : list Z :=
  match n with O => [] | S n' => v mod 2 ^ 8 :: le_bytes n' (v / 2 ^ 8) end.
Definition array_bytes (width : nat) (l : list Z) : list Z := concat (map (le_bytes width) l).

Definition snapshot (e : EpochRevenueData) : list Z :=
  le_bytes 4 (initialTick e) ++ le_bytes 4 (totalTicks e) ++
  array_bytes 8 (slidingWindowTxScore e) ++ array_bytes 8 (oracleScore e) ++ array_bytes 8 (dogeMiningScore e) ++
  array_bytes 8 (map u64 (v2Revenue e)) ++
  array_bytes 2 (perTickTxCount e) ++ array_bytes 2 (perTickProtocolTxCount e) ++ array_bytes 2 (perTickContractTxCount e) ++
  array_bytes 2 (perTickOtherTxCount e) ++ array_bytes 2 (perTickTxTickLeaderCount e).

Lemma alen_le_bytes n : forall v, alen (le_bytes n v) = Z.of_nat n.
Proof. unfold alen. induction n as [|n IH]; intros v; [done|]. cbn [le_bytes length]. rewrite Nat2Z.inj_succ, IH. lia. Qed.

Lemma alen_array_bytes w l : alen (array_bytes w l) = Z.of_nat w * alen l.
Proof.
  induction l as [|x l IH]; [change (0 = Z.of_nat w * 0); lia|]. unfold array_bytes in *. cbn [map concat]. rewrite alen_app, alen_le_bytes, IH. unfold alen. cbn [length]. lia.
Qed.

Lemma le_read_app_r n : forall l1 l2 off, 0 <= off -> le_read n (l1 ++ l2) (alen l1 + off) = le_read n l2 off.
Proof.
  induction n as [|n IH]; intros l1 l2 off Ho; [done|]. cbn [le_read]. rewrite aget_app_r by lia. replace (alen l1 + off - alen l1) with off by lia. rewrite <- Z.add_assoc, IH by lia. done.
Qed.

Lemma le_read_bytes n : forall v l, 0 <= v < 2 ^ (8 * Z.of_nat n) -> le_read n (le_bytes n v ++ l) 0 = v.
Proof.
  induction n as [|n IH]; intros v l Hv; [cbn in *; lia|]. cbn [le_read le_bytes app].
  pose proof (le_read_app_r n [v mod 2 ^ 8] (le_bytes n (v / 2 ^ 8) ++ l) 0 ltac:(lia)) as Hr. cbn [app] in Hr.
  change (alen [v mod 2 ^ 8] + 0) with 1 in Hr. change (0 + 1) with 1. rewrite Hr, IH.
  - change ((?a :: ?l).[0]) with a. pose proof (Z.div_mod v (2 ^ 8)). lia.
  - replace (8 * Z.of_nat (S n)) with (8 + 8 * Z.of_nat n) in Hv by lia. rewrite Z.pow_add_r in Hv by lia.
    split; [apply Z.div_pos; lia|apply Z.div_lt_upper_bound; lia].
Qed.

(** An array at the head of the bytes reads back; so does an array behind others. *)
Lemma read_array_head w l : forall rest,
  Forall (fun v => 0 <= v < 2 ^ (8 * Z.of_nat w)) l ->
  forall n, 0 <= n <= alen l -> read_array w (array_bytes w l ++ rest) 0 n = take (Z.to_nat n) l.
Proof.
  intros rest Hl. induction l as [|x l IH].
  { intros n Hn. change (alen []) with 0 in Hn. replace n with 0 by lia. done. }
  inversion_clear Hl as [|? ? Hx Hl']. intros n Hn. assert (n = 0 \/ 1 <= n) as [->|H1] by lia; [done|].
  unfold alen in Hn. cbn [length] in Hn. unfold read_array. rewrite (seqZ_cons 0 n) by lia. cbn [map].
  unfold array_bytes. cbn [map concat]. fold (array_bytes w l). rewrite Z.mul_0_r, <- app_assoc, le_read_bytes by done.
  replace (Z.to_nat n) with (S (Z.to_nat (Z.pred n))) by lia. cbn [take]. f_equal. rewrite <- IH by (done || (unfold alen; lia)).
  unfold read_array. change (Z.succ 0) with (1 + 0). rewrite <- (fmap_add_seqZ 1 0 (Z.pred n)). change (Z.add 1 <$> ?l) with (map (Z.add 1) l). rewrite map_map. apply map_ext_in.
  intros i Hi. apply list_elem_of_In, elem_of_seqZ in Hi. rewrite <- (le_read_app_r w (le_bytes w x) (array_bytes w l ++ rest) (0 + Z.of_nat w * i)) by lia. f_equal. rewrite alen_le_bytes. lia.
Qed.

Lemma read_array_app w l1 l2 off n : 0 <= off -> read_array w (l1 ++ l2) (alen l1 + off) n = read_array w l2 off n.
Proof.
  intros Ho. unfold read_array. apply map_ext_in. intros i Hi. apply list_elem_of_In, elem_of_seqZ in Hi. rewrite <- Z.add_assoc. apply le_read_app_r. lia.
Qed.

Lemma read_array_at w pre l rest off n :
  off = alen pre -> Forall (fun v => 0 <= v < 2 ^ (8 * Z.of_nat w)) l -> 0 <= n <= alen l ->
  read_array w (pre ++ array_bytes w l ++ rest) off n = take (Z.to_nat n) l.
Proof. intros -> Hl Hn. rewrite <- (Z.add_0_r (alen pre)), read_array_app by lia. by apply read_array_head. Qed.

Lemma read_array_skip w l1 l2 off n : alen l1 <= off -> read_array w (l1 ++ l2) off n = read_array w l2 (off - alen l1) n.
Proof. intros Ho. rewrite <- (read_array_app w l1 l2 (off - alen l1)) by lia. f_equal. lia. Qed.

(** ** Restoring a snapshot *)
Section Restore.
Variable NC : nat.
Hypothesis HNC : (0 < NC)%nat.
Variable MAX_TICKS : Z.
Hypothesis Hmax : 0 <= MAX_TICKS.

(** The structure of a node with [ticks] ticks per epoch. *)
Record epoch_data_ok (ticks : Z) (e : EpochRevenueData) : Prop := {
  ed_header : is_u32 (initialTick e) /\ is_u32 (totalTicks e);
  ed_fixed : Forall (fun l => alen l = Z.of_nat NC /\ Forall is_u64 l) [slidingWindowTxScore e; oracleScore e; dogeMiningScore e];
  ed_revenue : alen (v2Revenue e) = Z.of_nat NC /\ Forall is_s64 (v2Revenue e);
  ed_ticks : Forall (fun l => alen l = ticks /\ Forall (fun v => 0 <= v < 2 ^ 16) l)
    [perTickTxCount e; perTickProtocolTxCount e; perTickContractTxCount e; perTickOtherTxCount e; perTickTxTickLeaderCount e]
}.

(** An array of ticks cut or padded to the number of ticks of this node. *)
Definition resized (l : list Z) : list Z := take (Z.to_nat MAX_TICKS) l ++ replicate (Z.to_nat (MAX_TICKS - alen l)) 0.
Definition resize (e : EpochRevenueData) : EpochRevenueData :=
  mkEpoch (initialTick e) (totalTicks e) (slidingWindowTxScore e) (oracleScore e) (dogeMiningScore e) (v2Revenue e)
    (resized (perTickTxCount e)) (resized (perTickProtocolTxCount e)) (resized (perTickContractTxCount e))
    (resized (perTickOtherTxCount e)) (resized (perTickTxTickLeaderCount e)).

Lemma resized_same l : alen l = MAX_TICKS -> resized l = l.
Proof.
  intros Hl. unfold resized. rewrite Hl, Z.sub_diag. cbn [replicate Z.to_nat]. rewrite app_nil_r. apply take_ge. unfold alen in Hl. lia.
Qed.

(** What the remapping makes of one array of ticks. *)
Lemma resized_read l : forall ticks, alen l = ticks ->
  let copyTicks := if ticks <? MAX_TICKS then ticks else MAX_TICKS in
  take (Z.to_nat copyTicks) l ++ replicate (Z.to_nat (MAX_TICKS - copyTicks)) 0 = resized l.
Proof.
  intros ticks <-. unfold resized. destruct (Z.ltb_spec (alen l) MAX_TICKS) as [Hlt|Hge]; cbn zeta.
  - rewrite !take_ge by (unfold alen in *; lia). done.
  - f_equal. f_equal. lia.
Qed.

Lemma map_s64_u64 l : Forall is_s64 l -> map s64 (map u64 l) = l.
Proof. induction 1 as [|x l Hx _ IH]; [done|]. cbn [map]. rewrite IH. f_equal. rewrite s64_u64. by apply s64_small. Qed.

Lemma u64_all l : Forall is_u64 (map u64 l).
Proof. induction l; constructor; [|done]. apply u64_range. Qed.

Lemma snapshot_length ticks e : epoch_data_ok ticks e -> alen (snapshot e) = revenueDataFixedSize NC + 10 * ticks.
Proof.
  intros [_ H1 [H2 _] H3]. rewrite !Forall_cons in H1. rewrite !Forall_cons in H3. unfold snapshot, revenueDataFixedSize.
  rewrite !alen_app, !alen_le_bytes, !alen_array_bytes.
  assert (alen (map u64 (v2Revenue e)) = Z.of_nat NC) as -> by (unfold alen in *; by rewrite length_map). lia.
Qed.

Ltac small_index :=
  try change (Z.to_nat 0) with 0%nat; try change (Z.to_nat 1) with 1%nat; try change (Z.to_nat 2) with 2%nat;
  try change (Z.to_nat 3) with 3%nat; try change (Z.to_nat 4) with 4%nat; cbn [nth].

(** The reads of the fixed part and of the arrays of ticks. *)
Lemma snapshot_header ticks e : epoch_data_ok ticks e ->
  le_read 4 (snapshot e) 0 = initialTick e /\ le_read 4 (snapshot e) 4 = totalTicks e.
Proof.
  intros [[H1 H2] _ _ _]. unfold snapshot. split; [by apply le_read_bytes|].
  etrans; [exact (le_read_app_r 4 (le_bytes 4 (initialTick e)) _ 0 ltac:(lia))|]. by apply le_read_bytes.
Qed.

Lemma snapshot_fixed ticks e k : epoch_data_ok ticks e -> 0 <= k < 4 ->
  read_array 8 (snapshot e) (8 + 8 * Z.of_nat NC * k) (Z.of_nat NC) =
  nth (Z.to_nat k) [slidingWindowTxScore e; oracleScore e; dogeMiningScore e; map u64 (v2Revenue e)] [].
Proof.
  intros [_ H1 [H2 _] _] Hk. rewrite !Forall_cons in H1. destruct H1 as ([L1 R1] & [L2 R2] & [L3 R3] & _).
  assert (alen (map u64 (v2Revenue e)) = Z.of_nat NC) as L4 by (unfold alen in *; by rewrite length_map). pose proof (u64_all (v2Revenue e)) as R4.
  assert (forall l : list Z, alen l = Z.of_nat NC -> take (Z.to_nat (Z.of_nat NC)) l = l) as Htake by (intros l Hl; apply take_ge; unfold alen in Hl; lia).
  unfold snapshot. rewrite (read_array_skip 8 (le_bytes 4 _)), (read_array_skip 8 (le_bytes 4 _)) by (rewrite ?alen_le_bytes; lia). rewrite !alen_le_bytes.
  assert (k = 0 \/ k = 1 \/ k = 2 \/ k = 3) as [-> | [-> | [-> | ->]]] by lia; small_index.
  all: repeat (rewrite read_array_skip by (rewrite alen_array_bytes, ?L1, ?L2, ?L3, ?L4; lia); rewrite alen_array_bytes, ?L1, ?L2, ?L3, ?L4).
  all: match goal with |- read_array _ _ ?off _ = _ => replace off with 0 by lia end; rewrite read_array_head by (done || lia); by apply Htake.
Qed.

Lemma snapshot_ticks ticks e i n : epoch_data_ok ticks e -> 0 <= i < 5 -> 0 <= n <= ticks ->
  read_array 2 (snapshot e) (revenueDataFixedSize NC + i * ticks * 2) n =
  take (Z.to_nat n) (nth (Z.to_nat i) [perTickTxCount e; perTickProtocolTxCount e; perTickContractTxCount e; perTickOtherTxCount e; perTickTxTickLeaderCount e] []).
Proof.
  intros [_ H1 [H2 _] H3] Hi Hn. rewrite !Forall_cons in H1. destruct H1 as ([L1 _] & [L2 _] & [L3 _] & _).
  rewrite !Forall_cons in H3. destruct H3 as ([T1 R1] & [T2 R2] & [T3 R3] & [T4 R4] & [T5 R5] & _).
  assert (alen (map u64 (v2Revenue e)) = Z.of_nat NC) as L4 by (unfold alen in *; by rewrite length_map).
  assert (0 <= i * ticks * 2) as Hit by nia. unfold snapshot, revenueDataFixedSize. rewrite <- (app_nil_r (array_bytes 2 (perTickTxTickLeaderCount e))).
  do 2 (rewrite (read_array_skip 2 (le_bytes 4 _)) by (rewrite ?alen_le_bytes; lia)). rewrite !alen_le_bytes.
  do 4 (rewrite (read_array_skip 2 (array_bytes 8 _)) by (rewrite ?alen_array_bytes, ?L1, ?L2, ?L3, ?L4; lia)). rewrite !alen_array_bytes, L1, L2, L3, L4.
  assert (i = 0 \/ i = 1 \/ i = 2 \/ i = 3 \/ i = 4) as [-> | [-> | [-> | [-> | ->]]]] by lia; small_index.
  1: idtac.
  2: rewrite (read_array_skip 2 (array_bytes 2 _)) by (rewrite alen_array_bytes, T1; lia).
  3: do 2 (rewrite (read_array_skip 2 (array_bytes 2 _)) by (rewrite ?alen_array_bytes, ?T1, ?T2; lia)).
  4: do 3 (rewrite (read_array_skip 2 (array_bytes 2 _)) by (rewrite ?alen_array_bytes, ?T1, ?T2, ?T3; lia)).
  5: do 4 (rewrite (read_array_skip 2 (array_bytes 2 _)) by (rewrite ?alen_array_bytes, ?T1, ?T2, ?T3, ?T4; lia)).
  all: rewrite ?alen_array_bytes, ?T1, ?T2, ?T3, ?T4.
  all: match goal with |- read_array _ _ ?off _ = _ => replace off with 0 by lia end; apply read_array_head; [done|rewrite ?T1, ?T2, ?T3, ?T4, ?T5; lia].
Qed.

(** C15: a snapshot survives a change of the number of ticks per epoch.  The bytes that a node with [ticks] ticks per epoch saved are
    restored by a node with [MAX_TICKS] ticks: the header and the scores exactly, every array of ticks cut to the
    new size or padded with zeros; with equal sizes this is the identity.  Bytes of any other length than
    that of such a structure are refused. *)
Theorem snapshot_remaps e ticks :
  epoch_data_ok ticks e -> ticks mod Z.of_nat NC = 0 ->
  remapEpochRevenueData NC MAX_TICKS (snapshot e) (alen (snapshot e)) = Some (resize e) /\
  (ticks = MAX_TICKS -> resize e = e) /\
  (forall saved size, (forall t, 0 <= t -> t mod Z.of_nat NC = 0 -> size <> revenueDataFixedSize NC + 10 * t) ->
     remapEpochRevenueData NC MAX_TICKS saved size = None).
Proof.
  intros Hok Hdiv. pose proof (ed_ticks _ _ Hok) as Ht. rewrite !Forall_cons in Ht. destruct Ht as ([T1 _] & [T2 _] & [T3 _] & [T4 _] & [T5 _] & _).
  assert (0 <= ticks) as Hpos by (rewrite <- T1; unfold alen; lia). split_and!.
  - rewrite (snapshot_length ticks) by done. unfold remapEpochRevenueData. change (revenueDataPerTickArrays * 2) with 10.
    replace (revenueDataFixedSize NC + 10 * ticks - revenueDataFixedSize NC) with (ticks * 10) by lia. rewrite Z.mod_mul, Z.div_mul, Hdiv by lia.
    replace (_ <? _) with false by lia. cbn [orb negb Z.eqb].
    destruct (snapshot_header ticks e Hok) as [-> ->]. rewrite !(snapshot_fixed ticks) by (done || lia).
    rewrite !(snapshot_ticks ticks) by (done || lia || (destruct (Z.ltb_spec ticks MAX_TICKS); lia)).
    small_index. rewrite map_s64_u64 by apply Hok.
    pose proof (resized_read (perTickTxCount e) ticks T1) as E1. pose proof (resized_read (perTickProtocolTxCount e) ticks T2) as E2.
    pose proof (resized_read (perTickContractTxCount e) ticks T3) as E3. pose proof (resized_read (perTickOtherTxCount e) ticks T4) as E4.
    pose proof (resized_read (perTickTxTickLeaderCount e) ticks T5) as E5. cbn zeta in *. rewrite E1, E2, E3, E4, E5. done.
  - intros ->. unfold resize. rewrite !resized_same by done. by destruct e.
  - intros saved size Hsize. unfold remapEpochRevenueData. change (revenueDataPerTickArrays * 2) with 10.
    destruct (Z.ltb_spec size (revenueDataFixedSize NC)); [done|]. destruct (Z.eqb_spec ((size - revenueDataFixedSize NC) mod 10) 0) as [Hm|]; [|done]. cbn [orb negb].
    destruct (Z.eqb_spec ((size - revenueDataFixedSize NC) / 10 mod Z.of_nat NC) 0) as [Hm2|]; [|done]. exfalso.
    apply (Hsize ((size - revenueDataFixedSize NC) / 10)); [apply Z.div_pos; lia|done|]. pose proof (Z.div_mod (size - revenueDataFixedSize NC) 10). lia.
Qed.
End Restore.

(** Two computors; saved with four ticks per epoch, restored with six and with two. *)
Definition ex_data : EpochRevenueData :=
  mkEpoch 1000 4 [5; 6] [1; 2] [0; 2 ^ 64 - 1] [-3; 70000] [1; 2; 3; 4] [0; 0; 1; 65535] [1; 1; 1; 1] [0; 0; 0; 0] [9; 8; 7; 6].

Lemma snapshot_remaps_witness :
  perTickTxCount (resize 6 ex_data) = [1; 2; 3; 4; 0; 0] /\ perTickTxCount (resize 2 ex_data) = [1; 2] /\
  remapEpochRevenueData 2 6 (snapshot ex_data) (alen (snapshot ex_data)) = Some (resize 6 ex_data).
Proof.
  split; [reflexivity|]. split; [reflexivity|].
  apply (snapshot_remaps 2 ltac:(lia) 6 ltac:(lia) ex_data 4); [|reflexivity].
  split; [split; split; vm_compute; (reflexivity || discriminate)|..];
    repeat constructor; vm_compute; try reflexivity; discriminate.
Defined.
